(* ===== verification/_CoqProject ===== *)
-Q . S2P
Prelude.v
CStdio.v
Timeval.v
Double.v
RudeState.v
RudeParse.v
RudeFlow.v
RudeLists.v
RudeCleanup.v
RudeParseSpec.v
RudeXmit.v
RudeMain.v
RudeRun.v
RudeMainSpec.v
Crude.v
CrudeSpec.v
Checksum.v
Mbuf.v
MbufSpec.v
MbufTypes.v
Device.v
DeviceSpec.v
DeviceConfig.v
CrcRateLimiter.v
CrcRateLimiterSpec.v
Ring.v
RingSpec.v
RingConc.v
RingMpmc.v
SoftRate.v
SoftRateLoops.v
ClockSync.v
LatencyStats.v
LatencyStatsSpec.v
Lifecycle.v
Barrier.v
Malloc.v
MallocLayout.v
MallocRep.v
MallocAlloc.v
MallocSpec.v
MallocFree.v
MallocApi.v
MallocInit.v
MallocProps.v
MallocRealloc.v
MallocClient.v
MallocStats.v
Memzone.v
MemzoneTable.v
MemzoneSpec.v
MemzoneProps.v
MemzoneClient.v
Kni.v
RteMempool.v
RteMempoolSpec.v
MbufPool.v
SizedRing.v
SizedRingSpec.v
Pcap.v
PcapSpec.v
RtePopulate.v
RtePopulateSpec.v
MbufCreate.v
KniFifo.v
RteKni.v
RteKniSpec.v
KniLink.v
KniDevice.v
KniDeviceSpec.v
EalCores.v
EalCoresSpec.v
EalLcores.v
EalLcoresPrint.v
EalStartup.v
EalOptions.v
EalOptionsSpec.v
EalCorelist.v
EalCommand.v
EalLibmoon.v
