(* ===== verification/Prelude.v ===== *)
(** * A verification library for the C and C++ code of this repository

    ** The program

    The repository holds two families of network test tools.

    - rude and crude (src/rude/): rude reads a script of flows (constant bit rate or
      recorded traces) and sends UDP datagrams, each with a header that carries the
      flow, a sequence number and the time of transmission; crude receives them,
      records them to a file or prints them, decodes such files, or keeps statistics
      per flow.
    - MoonGen and libmoon (src/MoonGen/): a packet generator driven by Lua scripts,
      with a core in C and C++ on top of DPDK: packet buffers, send and receive loops,
      port configuration, checksums, rings between cores, hardware clocks, rate
      limiters, latency statistics, capture files and virtual network interfaces. Of
      DPDK the parts this core rests on are verified too: rings, memory pools, the heap
      allocator, memory zones, the command line with the logical cores, and the kernel
      network interface.

    ** The files

    Each component is a file with the definitions, translated function by function with
    the names of the source, and files with the lemmas and theorems about them (small
    components are one file).

    - Prelude: machine integers, byte order, little-endian memory, the error and
      state monad, the weakest precondition [wp] with its tactics, and [eventually]
      for loops run with fuel.
    - CStdio: what the parsers use of the C library (fgets, strtol, strtoul, atoi,
      strrchr, strncasecmp, and sscanf as an interpreter of its format strings).
      Timeval: struct timeval with timeradd and timercmp. Double: the correctly
      rounded double-precision operations the code computes times with.
    - RudeState: rude.h and the globals of rude, with a heap of action blocks and
      trace arrays, and a process used in examples. RudeParse, RudeParseSpec:
      rude/parse.c. RudeFlow, RudeLists, RudeCleanup: rude/flow_cntl.c. RudeXmit:
      rude/flow_txmit.c. RudeMain, RudeRun, RudeMainSpec: rude/main.c and the program
      as a whole.
    - Crude, CrudeSpec: crude/main.c.
    - Checksum: libmoon/src/util.c.
    - Mbuf, MbufSpec, MbufTypes: libmoon/src/memory.c and the parts of DPDK's
      rte_mbuf.h under it.
    - Device, DeviceSpec: the send and receive loops of libmoon/src/device.c, and
      MoonGen/src/software-timestamping.c. DeviceConfig: the configuration and
      identification of ports in device.c.
    - CrcRateLimiter, CrcRateLimiterSpec: MoonGen/src/crc-rate-limiter.c. SoftRate,
      SoftRateLoops: MoonGen/src/software-rate-limiter.cpp.
    - Ring, RingSpec: DPDK's rte_ring.h and rte_ring.c and libmoon/src/ring.c as a
      sequential object. RingConc: one producer and one consumer on two cores.
      RingMpmc: any number of both. SizedRing, SizedRingSpec:
      libmoon/src/bytesizedring.cpp and pktsizedring.cpp.
    - ClockSync: libmoon/src/timestamping*.c, timestamping.h and the time counters of
      rte_time.h.
    - LatencyStats, LatencyStatsSpec: MoonGen/src/histogram.cpp and moonsniff.cpp.
      Pcap, PcapSpec: libmoon/src/pcap.cpp. Lifecycle: libmoon/src/lifecycle.cpp.
      Barrier: libmoon/src/barrier.cpp.
    - Malloc: DPDK's malloc_elem.c, malloc_heap.c and rte_malloc.c. MallocLayout: how
      elements tile memory segments. MallocRep: the memory represents a layout.
      MallocAlloc, MallocSpec, MallocFree, MallocRealloc: the operations on elements.
      MallocInit, MallocApi: initialisation and interface. MallocProps, MallocClient:
      what a program sees. MallocStats: statistics and limits.
    - Memzone: DPDK's eal_common_memzone.c. MemzoneTable, MemzoneSpec, MemzoneProps,
      MemzoneClient: its table, reserving, and what its users see.
    - RteMempool, RteMempoolSpec: DPDK's librte_mempool with its handlers.
      RtePopulate, RtePopulateSpec: the creation of pools. MbufPool: packet buffers on
      such a pool. MbufCreate: pools of packet buffers and libmoon's init_mem.
    - Kni: libmoon/src/kni.c. KniFifo: the queues between process and kernel. RteKni,
      RteKniSpec: packets and requests in librte_kni and the kernel module. KniDevice,
      KniDeviceSpec: creating and removing devices. KniLink: kni.c on a device.
    - EalCores: the logical cores of the EAL (eal_common_lcore.c, rte_lcore.h) and the
      parsers of the options about them in eal_common_options.c. EalCoresSpec: core
      masks. EalLcores, EalLcoresPrint: the option --lcores. EalCorelist:
      core lists. EalStartup: detection, enumeration, the master lcore.
    - EalOptions: all options of the EAL, in eal_common_options.c and linuxapp's eal.c.
      EalOptionsSpec, EalCommand: what holds after every command line. EalLibmoon: the
      options libmoon passes (lua/dpdk.lua), and a machine used in examples.

    ** How state, errors and the environment are modelled

    An operation is a function in the monad [M S A]: from a state it gives [Ret] with
    a value and the next state, [Fault] for an access outside an object, through a
    null or dead pointer, or a division by zero, or [Diverge] when the fuel of a loop
    is used up. C integers are [Z]; a store at a narrower or unsigned type wraps
    ([u8] to [u64], [i32], [i64]). The platform is x86-64: little-endian, [long] of 64
    bits.

    rude's state ([RudeState.rude]) is its two lists of blocks in a heap with
    allocation and release, the sockets, the packet buffer and the log of datagrams.
    Every system call is answered by the class [Env] through a call counter, so that
    a theorem holds for every behaviour of the system; laws about the clock are
    stated where they are used. crude's state is its statistics, its log file and its
    output; the receptions are an input.

    The state of the heap allocator ([Malloc.mem_config]) is the shared memory
    configuration: the headers of elements by address, the bytes that are not zero,
    the heaps with their free lists, the segments and the table of zones. Its invariant
    [MallocRep.inv] relates this memory to a layout, a map from addresses to elements
    that tile the segments.

    ** Interfaces

    For libmoon, the mempool ([Mempool]), the network card ([Nic]), the registers
    ([Mmio]) and the kernel interface ([Kni]) are classes with laws, each with an
    instance used by the witnesses. RteMempool and MbufPool discharge [Mempool] with
    librte_mempool, KniLink discharges [Kni] with librte_kni; the handlers of pools are
    instances of [MempoolOps], the ring and the stack. [BoundedFifo] is the interface
    of the ring to its clients: the ring is an instance, and [ring_trace_fifo] is
    proved against the interface. The byte-sized ring is built on the models of the
    ring and of the packet buffers, memory zones on the heap allocator. The memory
    zones and the allocations used by the creation of rings, pools and KNI devices are
    answers of their environment records, with the laws stated as hypotheses.

    ** The theorems

    - rude. [read_cfg_correct]: the parser is total and memory safe on every input and
      builds well-formed lists (the invariant [rep] of RudeLists). [find_next_refines],
      [find_next_earliest], [find_next_conserves]: the scheduler refines a functional
      specification on lists of flows. [send_cbr_spec], [cbr_next_tx_period]: one
      packet, and the exact period in spite of double-precision arithmetic.
      [clean_up_releases_all]: nothing leaks and nothing is freed twice.
      [tx_loop_completes] and [rude_main_completes] compose them: the program
      terminates without a fault and releases its memory. [start_delay_correct]: the
      start time. [send_cbr_small_buffer]: why the condition on the buffer is needed.
    - crude. [rude_crude_header] and [record_decode_roundtrip]: the header and the log
      file are read back as written. [flow_stats_correct], [runtime_stats_per_flow],
      [print_stat_lost], [average_floor], [jitter_abs_correct]: the statistics mean
      what they say; lemmas beside them show where they do not.
    - libmoon. [ipv4_checksums_correct], [ipv6_checksums_correct]: the optimised sums
      against RFC 1071. [alloc_mbufs_correct], [pktmbuf_free_correct],
      [resize_correct], [pktmbuf_chain_correct], [mbuf_types_preserved]: the packet
      buffers. [send_loops_correct], [receive_timestamps_correct],
      [send_timestamp_correct], [configure_device_correct], [port_identity_correct]:
      the device. [sync_clocks_correct], [timecounters_exact]: the clocks.
      [bsring_refines_queue], [bsring_burst_reuses_buffer]: the byte-sized ring and its
      flaw. [pcap_roundtrip], [pcap_end_of_file]: capture files. [barrier_correct]: no
      task passes early, none is left behind.
    - MoonGen. [rate_limiter_correct], [rate_limiter_loss_correct],
      [rate_limiter_timing]: the stream of packets and filler frames, and how exactly
      it emulates the requested delays. [rate_limiter_cbr_correct],
      [rate_limiter_poisson_correct], [rate_limiter_udata_correct]: the loops that watch
      the time-stamp counter; what they share is proved once, against the interface
      [PacedBatch] of a batch. [poisson_slow_link]: a division by zero.
      [histogram_correct], [moonsniff_correct]: latencies.
    - Rings. [ring_refines_queue], [create_ring_correct], [ring_trace_fifo]: the ring is
      a bounded queue. [spsc_fifo], [spsc_wait_free], [mpmc_fifo], [mpmc_progress]: so
      it is in every interleaving, and no thread is blocked for ever.
    - The heap. [heap_init_correct]: segments become heaps. [allocator_refines]: to a
      program that keeps to its own blocks they are private, zeroed, aligned arrays,
      through any sequence of operations. [allocator_restored]: when all blocks are
      released the heaps are as at the start. [malloc_correct]: a request fails only
      when there is no place. [double_free_panics], [heap_stats_correct],
      [malloc_size_overflow], [realloc_truncates]: misuse, statistics and limits.
    - Memory zones. [memzone_reserve_correct], [memzone_roundtrip], [memzones_safe]: one
      reservation on every branch, its release, and the table through any sequence of
      calls.
    - Pools. [mempool_conserves], [populate_default_correct], [alloc_free_roundtrip],
      [init_mem_correct]: objects are neither lost nor duplicated, pools are laid out
      without overlap, and libmoon's memory is such a pool.
    - KNI. [kni_ownership], [kni_system_safe], [kni_create_correct],
      [kni_release_correct]: packets in order, every buffer in one place, devices
      consistent between process and kernel.
    - The EAL. [coremask_correct], [lcores_roundtrip], [lcores_safe], [corelist_roundtrip]:
      which cores an argument enables, and with which numbers and cpus.
      [command_line_correct]: every command line is read without a fault, under stated
      conditions, and what holds when it is accepted. [libmoon_startup]: the cores a
      libmoon process has. EalLibmoon shows where the conditions are needed.

    ** Fuel

    Loops without a structural measure take fuel. Where the code bounds the loop
    itself the definition computes enough fuel (the number of blocks for walks along
    lists, [delay_fuel] for the rate limiter, the length of the input for parsers, the
    number of segments for the heaps). Where the number of rounds depends on the
    environment (waiting for the clock, for a descriptor or for room in a queue) the
    fuel is a parameter, and the theorems say that from some amount on every amount of
    fuel gives the same result, under the law of the environment that it does not
    refuse for ever. The theorems about programs on the heap hold for every number of
    operations.

    ** What is not modelled

    The C++ parts that start Lua tasks and share data between them (main.cpp,
    task.cpp, task-results.cpp, namespaces.cpp, pipe.cpp, lock.cpp, hashmap.cpp): calls
    of the Lua interpreter and of queue and hash-map libraries; filter.c and
    i40e.c, which only print or call a driver; the Lua code but for the two arguments it
    passes to the EAL; the drivers and the rest of DPDK and the other vendored
    libraries. Of the modelled files: the texts that are
    printed, the throughput crude prints (a double), memory models weaker than what
    the barriers in rte_ring.h establish, cloning of mbufs, the debug builds (cookies
    of the heap and of pools), and the locks of the heap, the zones and the lists of
    pools and rings: their operations run one after the other. *)
From Stdlib Require Import ZArith Lia.
From stdpp Require Import base numbers list gmap strings.

#[global] Open Scope Z_scope.
#[global] Open Scope bool_scope.

(** ** Machine integers

    A [w]-bit C integer is a [Z]; a store at a narrower type goes through
    [wrapu] (unsigned) or [wraps] (two's complement). *)

Definition wrapu (w x : Z) : Z := x mod 2 ^ w.

Definition wraps (w x : Z) : Z := (x + 2 ^ (w - 1)) mod 2 ^ w - 2 ^ (w - 1).

Abbreviation u8 := (wrapu 8).
Abbreviation u16 := (wrapu 16).
Abbreviation u32 := (wrapu 32).
Abbreviation u64 := (wrapu 64).
Abbreviation i32 := (wraps 32).
Abbreviation i64 := (wraps 64).

Lemma wrapu_range w x : 0 <= w -> 0 <= wrapu w x < 2 ^ w.
Proof. intros. apply Z.mod_pos_bound, Z.pow_pos_nonneg; lia. Qed.

Lemma wrapu_small w x : 0 <= x < 2 ^ w -> wrapu w x = x.
Proof. apply Z.mod_small. Qed.

Lemma wrapu_idem w x : wrapu w (wrapu w x) = wrapu w x.
Proof.
  unfold wrapu. destruct (decide (0 <= w)).
  - apply Z.mod_mod, Z.pow_nonzero; lia.
  - rewrite Z.pow_neg_r by lia. by rewrite !Z.mod_0_r.
Qed.

Lemma wrapu_add_l w x y : wrapu w (wrapu w x + y) = wrapu w (x + y).
Proof. unfold wrapu. apply Zplus_mod_idemp_l. Qed.

Lemma wrapu_add_r w x y : wrapu w (x + wrapu w y) = wrapu w (x + y).
Proof. unfold wrapu. apply Zplus_mod_idemp_r. Qed.

Lemma wrapu_sub_l w x y : wrapu w (wrapu w x - y) = wrapu w (x - y).
Proof. unfold wrapu. apply Zminus_mod_idemp_l. Qed.

Lemma wrapu_sub_r w x y : wrapu w (x - wrapu w y) = wrapu w (x - y).
Proof. unfold wrapu. apply Zminus_mod_idemp_r. Qed.

Lemma wraps_range w x : 0 < w -> - 2 ^ (w - 1) <= wraps w x < 2 ^ (w - 1).
Proof.
  intros. unfold wraps.
  assert (2 ^ w = 2 * 2 ^ (w - 1)) as E.
  { rewrite <- Z.pow_succ_r by lia. f_equal. lia. }
  assert (0 < 2 ^ (w - 1)) by (apply Z.pow_pos_nonneg; lia).
  pose proof (Z.mod_pos_bound (x + 2 ^ (w - 1)) (2 ^ w) ltac:(lia)). lia.
Qed.

Lemma wraps_small w x : 0 < w -> - 2 ^ (w - 1) <= x < 2 ^ (w - 1) -> wraps w x = x.
Proof.
  intros. unfold wraps.
  assert (2 ^ w = 2 * 2 ^ (w - 1)).
  { rewrite <- Z.pow_succ_r by lia. f_equal. lia. }
  rewrite Z.mod_small; lia.
Qed.

(** Linear arithmetic over the widths above and constant divisors. *)
Ltac width_lia :=
  unfold wrapu, wraps in *;
  change (2 ^ 8) with 256 in *; change (2 ^ 16) with 65536 in *;
  change (2 ^ 32) with 4294967296 in *;
  change (2 ^ 64) with 18446744073709551616 in *;
  change (2 ^ (32 - 1)) with 2147483648 in *;
  change (2 ^ (64 - 1)) with 9223372036854775808 in *;
  Z.div_mod_to_equations; lia.

Create Rewrite HintDb cint.
#[export] Hint Rewrite wrapu_idem wrapu_add_l wrapu_add_r wrapu_sub_l wrapu_sub_r : cint.

(** ** Byte order and little-endian memory

    The build targets are little-endian x86-64, where [htons]/[htonl] swap the
    bytes. A byte is a [Z] in [0, 256). *)

Definition bswap16 (x : Z) : Z :=
  Z.lor (Z.shiftl (Z.land x 255) 8) (Z.land (Z.shiftr x 8) 255).

Definition bswap32 (x : Z) : Z :=
  Z.lor (Z.lor (Z.shiftl (Z.land x 255) 24)
               (Z.shiftl (Z.land (Z.shiftr x 8) 255) 16))
        (Z.lor (Z.shiftl (Z.land (Z.shiftr x 16) 255) 8)
               (Z.land (Z.shiftr x 24) 255)).

Definition htons (x : Z) : Z := bswap16 (u16 x).
Definition ntohs (x : Z) : Z := bswap16 (u16 x).
Definition htonl (x : Z) : Z := bswap32 (u32 x).
Definition ntohl (x : Z) : Z := bswap32 (u32 x).

Fixpoint le_bytes (n : nat) (x : Z) : list Z :=
  match n with
  | O => []
  | S n => u8 x :: le_bytes n (Z.shiftr x 8)
  end.

Fixpoint le_value (bs : list Z) : Z :=
  match bs with
  | [] => 0
  | b :: bs => b + 256 * le_value bs
  end.

Lemma lor_disjoint a b n :
  0 <= n -> 0 <= b < 2 ^ n -> Z.lor (Z.shiftl a n) b = a * 2 ^ n + b.
Proof.
  intros Hn Hb. rewrite <- Z.add_nocarry_lor; [by rewrite Z.shiftl_mul_pow2|].
  apply Z.bits_inj'. intros i Hi. rewrite Z.land_spec, Z.bits_0.
  destruct (decide (i < n)).
  - by rewrite Z.shiftl_spec_low.
  - rewrite <- (Z.mod_small b (2 ^ n) Hb), Z.mod_pow2_bits_high by lia.
    by rewrite andb_false_r.
Qed.

Lemma land_255 x : Z.land x 255 = x mod 256.
Proof. by apply (Z.land_ones x 8). Qed.

Lemma bswap16_arith x : bswap16 x = x mod 256 * 256 + x / 256 mod 256.
Proof.
  unfold bswap16. rewrite !land_255, Z.shiftr_div_pow2 by lia.
  rewrite lor_disjoint; [done|lia|].
  change (2 ^ 8) with 256. apply Z.mod_pos_bound; lia.
Qed.

Lemma bswap32_arith x :
  bswap32 x = x mod 256 * 16777216 + x / 256 mod 256 * 65536
              + x / 65536 mod 256 * 256 + x / 16777216 mod 256.
Proof.
  unfold bswap32. rewrite !land_255, !Z.shiftr_div_pow2 by lia.
  change (2 ^ 8) with 256; change (2 ^ 16) with 65536; change (2 ^ 24) with 16777216.
  pose proof (Z.mod_pos_bound x 256 ltac:(lia)).
  pose proof (Z.mod_pos_bound (x / 256) 256 ltac:(lia)).
  pose proof (Z.mod_pos_bound (x / 65536) 256 ltac:(lia)).
  pose proof (Z.mod_pos_bound (x / 16777216) 256 ltac:(lia)).
  rewrite (lor_disjoint (x / 65536 mod 256) _ 8) by (change (2 ^ 8) with 256; lia).
  rewrite (lor_disjoint (x mod 256) _ 24)
    by (rewrite ?Z.shiftl_mul_pow2 by lia; change (2 ^ 24) with 16777216;
        change (2 ^ 16) with 65536; lia).
  rewrite Z.shiftl_mul_pow2 by lia.
  replace (x mod 256 * 2 ^ 24 + x / 256 mod 256 * 2 ^ 16)
    with (Z.shiftl (x mod 256 * 256 + x / 256 mod 256) 16)
    by (rewrite Z.shiftl_mul_pow2 by lia; change (2 ^ 24) with (256 * 2 ^ 16); ring).
  rewrite lor_disjoint by (change (2 ^ 8) with 256; change (2 ^ 16) with 65536; lia).
  change (2 ^ 8) with 256; change (2 ^ 16) with 65536. ring.
Qed.

Lemma bswap16_range x : 0 <= bswap16 x < 65536.
Proof.
  rewrite bswap16_arith.
  pose proof (Z.mod_pos_bound x 256 ltac:(lia)).
  pose proof (Z.mod_pos_bound (x / 256) 256 ltac:(lia)). lia.
Qed.

Lemma bswap32_range x : 0 <= bswap32 x < 4294967296.
Proof.
  rewrite bswap32_arith.
  pose proof (Z.mod_pos_bound x 256 ltac:(lia)).
  pose proof (Z.mod_pos_bound (x / 256) 256 ltac:(lia)).
  pose proof (Z.mod_pos_bound (x / 65536) 256 ltac:(lia)).
  pose proof (Z.mod_pos_bound (x / 16777216) 256 ltac:(lia)). lia.
Qed.

Lemma ntohs_htons x : ntohs (htons x) = u16 x.
Proof.
  unfold ntohs, htons.
  rewrite (wrapu_small 16 (bswap16 _)) by apply bswap16_range.
  pose proof (wrapu_range 16 x ltac:(lia)).
  set (y := u16 x) in *. change (2 ^ 16) with 65536 in *.
  rewrite (bswap16_arith (bswap16 y)), (bswap16_arith y).
  Z.div_mod_to_equations. lia.
Qed.

(** Splitting a 32-bit value into its bytes. *)
Lemma bytes32_split x :
  0 <= x < 4294967296 ->
  x = x mod 256 + 256 * (x / 256 mod 256) + 65536 * (x / 65536 mod 256)
      + 16777216 * (x / 16777216 mod 256).
Proof.
  intros Hx.
  assert (x / 65536 = x / 256 / 256) as E1 by (rewrite Z.div_div by lia; done).
  assert (x / 16777216 = x / 256 / 256 / 256) as E2 by (rewrite !Z.div_div by lia; done).
  rewrite E1, E2. clear E1 E2.
  pose proof (Z.div_mod x 256 ltac:(lia)).
  pose proof (Z.div_mod (x / 256) 256 ltac:(lia)).
  pose proof (Z.div_mod (x / 256 / 256) 256 ltac:(lia)).
  rewrite (Z.mod_small (x / 256 / 256 / 256)); [lia|].
  rewrite !Z.div_div by lia. split.
  - apply Z.div_pos; lia.
  - apply Z.div_lt_upper_bound; lia.
Qed.

Lemma bswap32_involutive x : 0 <= x < 4294967296 -> bswap32 (bswap32 x) = x.
Proof.
  intros Hx. rewrite (bswap32_arith (bswap32 x)), (bswap32_arith x).
  pose proof (Z.mod_pos_bound x 256 ltac:(lia)).
  pose proof (Z.mod_pos_bound (x / 256) 256 ltac:(lia)).
  pose proof (Z.mod_pos_bound (x / 65536) 256 ltac:(lia)).
  pose proof (Z.mod_pos_bound (x / 16777216) 256 ltac:(lia)).
  rewrite (bytes32_split x Hx) at 17.
  set (a := x mod 256) in *. set (b := x / 256 mod 256) in *.
  set (c := x / 65536 mod 256) in *. set (d := x / 16777216 mod 256) in *.
  clearbody a b c d.
  assert ((a * 16777216 + b * 65536 + c * 256 + d) mod 256 = d) as -> by
    (Z.div_mod_to_equations; lia).
  assert ((a * 16777216 + b * 65536 + c * 256 + d) / 256 = a * 65536 + b * 256 + c) as ->
    by (Z.div_mod_to_equations; lia).
  assert ((a * 16777216 + b * 65536 + c * 256 + d) / 65536 = a * 256 + b) as ->
    by (Z.div_mod_to_equations; lia).
  assert ((a * 16777216 + b * 65536 + c * 256 + d) / 16777216 = a) as ->
    by (Z.div_mod_to_equations; lia).
  Z.div_mod_to_equations; lia.
Qed.

Lemma ntohl_htonl x : ntohl (htonl x) = u32 x.
Proof.
  unfold ntohl, htonl. rewrite (wrapu_small 32 (bswap32 _)) by apply bswap32_range.
  apply bswap32_involutive, (wrapu_range 32); lia.
Qed.

Lemma length_le_bytes n x : length (le_bytes n x) = n.
Proof. revert x. induction n as [|n IH]; intros x; simpl; [done|by rewrite IH]. Qed.

Lemma le_value_bytes n x : le_value (le_bytes n x) = wrapu (8 * Z.of_nat n) x.
Proof.
  revert x. induction n as [|n IH]; intros x.
  - simpl. unfold wrapu. by rewrite Z.mod_1_r.
  - cbn [le_bytes le_value]. rewrite IH, Z.shiftr_div_pow2 by lia.
    unfold wrapu. replace (8 * Z.of_nat (S n)) with (8 + 8 * Z.of_nat n) by lia.
    rewrite Z.pow_add_r by lia. rewrite Z.rem_mul_r; [done|lia|].
    apply Z.pow_pos_nonneg; lia.
Qed.

Lemma le_bytes_range n x : Forall (fun b => 0 <= b < 256) (le_bytes n x).
Proof.
  revert x. induction n as [|n IH]; intros x; constructor; [|apply IH].
  apply (wrapu_range 8); lia.
Qed.

(** ** A state monad with undefined behaviour and fuel

    [Fault] is a step the C standard leaves undefined (a null or dangling
    dereference, an access outside an object, a conversion out of range);
    [Diverge] is a loop that ran out of its fuel. *)

Inductive res (A : Type) : Type :=
| Ret (a : A)
| Fault
| Diverge.
Arguments Ret {A} _.
Arguments Fault {A}.
Arguments Diverge {A}.

Definition M (S A : Type) : Type := S -> res (A * S).

#[global] Instance M_ret S : MRet (M S) := fun A a s => Ret (a, s).

#[global] Instance M_bind S : MBind (M S) := fun A B k m s =>
  match m s with
  | Ret (a, s') => k a s'
  | Fault => Fault
  | Diverge => Diverge
  end.

Definition gets {S A} (f : S -> A) : M S A := fun s => Ret (f s, s).
Definition modify {S} (f : S -> S) : M S unit := fun s => Ret (tt, f s).
Definition fault {S A} : M S A := fun _ => Fault.
Definition diverge {S A} : M S A := fun _ => Diverge.

(** Total correctness: [wp m Q s] holds when [m] returns from [s], without
    fault and within its fuel, in a state and with a value [Q] accepts. *)
Definition wp {S A} (m : M S A) (Q : A -> S -> Prop) (s : S) : Prop :=
  match m s with
  | Ret (a, s') => Q a s'
  | _ => False
  end.

Section Wp.
Context {S : Type}.

Lemma wp_ret {A} (a : A) (Q : A -> S -> Prop) s : wp (mret a) Q s <-> Q a s.
Proof. done. Qed.

Lemma wp_bind {A B} (m : M S A) (k : A -> M S B) Q s :
  wp (m ≫= k) Q s <-> wp m (fun a => wp (k a) Q) s.
Proof. unfold wp, mbind, M_bind. destruct (m s) as [[a s']| |]; done. Qed.

Lemma wp_gets {A} (f : S -> A) Q s : wp (gets f) Q s <-> Q (f s) s.
Proof. done. Qed.

Lemma wp_modify f Q (s : S) : wp (modify f) Q s <-> Q tt (f s).
Proof. done. Qed.

Lemma wp_mono {A} (m : M S A) (P Q : A -> S -> Prop) s :
  wp m P s -> (forall a s', P a s' -> Q a s') -> wp m Q s.
Proof. unfold wp. destruct (m s) as [[a s']| |]; auto. Qed.

Lemma wp_run {A} (m : M S A) Q s :
  wp m Q s <-> exists a s', m s = Ret (a, s') /\ Q a s'.
Proof.
  unfold wp. destruct (m s) as [[a s']| |]; split; try naive_solver; intros H; eauto.
Qed.

(** Partial correctness: whatever [m] returns satisfies [Q]. *)
Definition wlp {A} (m : M S A) (Q : A -> S -> Prop) (s : S) : Prop :=
  forall a s', m s = Ret (a, s') -> Q a s'.

Lemma wp_conj {A} (m : M S A) (P Q : A -> S -> Prop) s :
  wp m P s -> wlp m Q s -> wp m (fun a s' => P a s' /\ Q a s') s.
Proof. unfold wp, wlp. destruct (m s) as [[a s']| |]; naive_solver. Qed.

Lemma wlp_ret {A} (a : A) (Q : A -> S -> Prop) s : wlp (mret a) Q s <-> Q a s.
Proof.
  unfold wlp, mret, M_ret. split; [naive_solver|].
  intros H ? ? [= <- <-]. done.
Qed.

Lemma wlp_bind {A B} (m : M S A) (k : A -> M S B) Q s :
  wlp (m ≫= k) Q s <-> wlp m (fun a => wlp (k a) Q) s.
Proof.
  unfold wlp, mbind, M_bind. destruct (m s) as [[a s']| |]; split; naive_solver.
Qed.

Lemma wlp_gets {A} (f : S -> A) Q s : wlp (gets f) Q s <-> Q (f s) s.
Proof. unfold wlp, gets. split; [naive_solver|]. intros H ? ? [= <- <-]. done. Qed.

Lemma wlp_modify f Q (s : S) : wlp (modify f) Q s <-> Q tt (f s).
Proof. unfold wlp, modify. split; [naive_solver|]. intros H ? ? [= <- <-]. done. Qed.

Lemma wlp_fault {A} (Q : A -> S -> Prop) s : wlp fault Q s <-> True.
Proof. unfold wlp, fault. naive_solver. Qed.

Lemma wlp_diverge {A} (Q : A -> S -> Prop) s : wlp diverge Q s <-> True.
Proof. unfold wlp, diverge. naive_solver. Qed.

Lemma wlp_mono {A} (m : M S A) (P Q : A -> S -> Prop) s :
  wlp m P s -> (forall a s', P a s' -> Q a s') -> wlp m Q s.
Proof. unfold wlp. naive_solver. Qed.
End Wp.

(** Termination of loops that wait for the environment: with enough fuel, [m]
    always returns the same value and state, and [Q] accepts them. *)
Definition eventually {S A} (m : nat -> M S A) (Q : A -> S -> Prop) (s : S) : Prop :=
  exists fuel0 a s', (forall fuel, (fuel0 <= fuel)%nat -> m fuel s = Ret (a, s')) /\ Q a s'.

Section Eventually.
Context {S : Type}.

Lemma eventually_wp {A} (m : M S A) Q s : wp m Q s -> eventually (fun _ => m) Q s.
Proof. intros (a & s' & E & HQ)%wp_run. exists O, a, s'. auto. Qed.

Lemma eventually_ret {A} (a : A) (Q : A -> S -> Prop) s : Q a s -> eventually (fun _ => mret a) Q s.
Proof. intros HQ. by apply eventually_wp. Qed.

Lemma eventually_mono {A} (m : nat -> M S A) (Q R : A -> S -> Prop) s :
  eventually m Q s -> (forall a s', Q a s' -> R a s') -> eventually m R s.
Proof. intros (f & a & s' & E & HQ) HR. exists f, a, s'. auto. Qed.

Lemma eventually_bind {A B} (m : nat -> M S A) (k : nat -> A -> M S B) Q s :
  eventually m (fun a => eventually (fun fuel => k fuel a) Q) s ->
  eventually (fun fuel => m fuel ≫= k fuel) Q s.
Proof.
  intros (f1 & a & s1 & E1 & f2 & b & s2 & E2 & HQ). exists (f1 `max` f2)%nat, b, s2.
  split; [|done]. intros fuel Hf. unfold mbind, M_bind. rewrite E1 by lia. apply E2. lia.
Qed.

Lemma eventually_bind_wp {A B} (m : M S A) (k : nat -> A -> M S B) Q s :
  wp m (fun a => eventually (fun fuel => k fuel a) Q) s ->
  eventually (fun fuel => m ≫= k fuel) Q s.
Proof. intros Hm. apply (eventually_bind (fun _ => m)). by apply eventually_wp. Qed.

(** A loop that keeps its result when the fuel grows. *)
Lemma eventually_fuel {A} (m : nat -> M S A) Q s :
  (forall f f' r, (f <= f')%nat -> m f s = Ret r -> m f' s = Ret r) ->
  (exists fuel0, forall fuel, (fuel0 <= fuel)%nat -> wp (m fuel) Q s) -> eventually m Q s.
Proof.
  intros Hmono [f Hf]. destruct (proj1 (wp_run _ _ _) (Hf f ltac:(lia))) as (a & s' & E & HQ).
  exists f, a, s'. eauto.
Qed.
End Eventually.

Create Rewrite HintDb wp.
#[export] Hint Rewrite @wp_ret @wp_bind @wp_gets @wp_modify : wp.
#[export] Hint Rewrite @wlp_ret @wlp_bind @wlp_gets @wlp_modify @wlp_fault @wlp_diverge : wp.

(** Symbolic execution of the monad in the goal. *)
Ltac wp_step := autorewrite with wp; cbv beta iota.

(** Case split on the [if] or [match] the goal is blocked on. *)
Ltac wp_case :=
  match goal with
  | |- wlp (if ?b then _ else _) _ _ => destruct b eqn:?
  | |- wp (if ?b then _ else _) _ _ => destruct b eqn:?
  | |- wlp (match ?x with _ => _ end) _ _ => destruct x eqn:?
  | |- wp (match ?x with _ => _ end) _ _ => destruct x eqn:?
  end.
