(* ===== verification/CStdio.v ===== *)
(** The parts of the C library the text parsers use: case-insensitive prefix
    comparison, [fgets], [strrchr], the integer conversions of [strtol] and
    [strtoul], and [sscanf] as an interpreter of its format string.

    A C string is a [string] with no NUL in it; [cstr] cuts a buffer at its
    first NUL. The widths are those of LP64: [long] has 64 bits, [int] 32,
    [short] 16. *)
From Stdlib Require Import ZArith Lia Ascii String.
From stdpp Require Import base numbers list strings.
From S2P Require Import Prelude.

#[local] Open Scope string_scope.
#[local] Open Scope Z_scope.

(** ** Characters *)

Definition code (c : ascii) : Z := Z.of_nat (nat_of_ascii c).

Definition isspace (c : ascii) : bool :=
  (code c =? 32) || ((9 <=? code c) && (code c <=? 13)).

Definition tolower (c : ascii) : ascii :=
  if (65 <=? code c) && (code c <=? 90)
  then ascii_of_nat (Z.to_nat (code c + 32)) else c.

(** The value of a digit in bases up to 16. *)
Definition digit (c : ascii) : option Z :=
  let z := code c in
  if (48 <=? z) && (z <=? 57) then Some (z - 48)
  else if (65 <=? z) && (z <=? 70) then Some (z - 55)
  else if (97 <=? z) && (z <=? 102) then Some (z - 87)
  else None.

Definition newline : ascii := ascii_of_nat 10.
Definition nul : ascii := ascii_of_nat 0.

Definition ceq (a b : ascii) : bool := code a =? code b.

(** ** Strings *)

Fixpoint cstr (s : string) : string :=
  match s with
  | "" => ""
  | String c s' => if ceq c nul then "" else String c (cstr s')
  end.

(** [strncasecmp(a, b, n) == 0] *)
Fixpoint strncasecmp0 (a b : string) (n : nat) : bool :=
  match n with
  | O => true
  | S n =>
    match a, b with
    | "", "" => true
    | String x a', String y b' => ceq (tolower x) (tolower y) && strncasecmp0 a' b' n
    | _, _ => false
    end
  end.

(** The offset of the last occurrence of [c]. *)
Fixpoint strrchr (s : string) (c : ascii) : option nat :=
  match s with
  | "" => None
  | String x s' =>
    match strrchr s' c with
    | Some n => Some (S n)
    | None => if ceq x c then Some O else None
    end
  end.

Fixpoint str_take (n : nat) (s : string) : string :=
  match n, s with
  | S n, String c s' => String c (str_take n s')
  | _, _ => ""
  end.

Fixpoint str_drop (n : nat) (s : string) : string :=
  match n, s with
  | S n, String _ s' => str_drop n s'
  | _, _ => s
  end.

(** [fgets] reading at most [k] characters of [s]: the characters stored, the
    unread rest, and whether the end of the file was hit. [NULL] is the empty
    result. *)
Fixpoint read_line (k : nat) (s : string) : string * string * bool :=
  match k with
  | O => ("", s, false)
  | S k =>
    match s with
    | "" => ("", "", true)
    | String c s' =>
      if ceq c newline then (String c "", s', false)
      else let '(l, r, e) := read_line k s' in (String c l, r, e)
    end
  end.

Definition fgets (size : nat) (s : string) : string * string * bool :=
  read_line (size - 1) s.

(** ** Integer conversions *)

Definition LONG_MAX : Z := 2 ^ 63 - 1.
Definition LONG_MIN : Z := - 2 ^ 63.
Definition ULONG_MAX : Z := 2 ^ 64 - 1.

Fixpoint skip_ws (s : string) : string :=
  match s with
  | String c s' => if isspace c then skip_ws s' else s
  | "" => ""
  end.

(** The longest run of digits of [base]: its value, its length, the rest. *)
Fixpoint digits (base acc : Z) (s : string) : Z * nat * string :=
  match s with
  | String c s' =>
    match digit c with
    | Some d =>
      if d <? base
      then let '(v, n, r) := digits base (acc * base + d) s' in (v, S n, r)
      else (acc, O, s)
    | None => (acc, O, s)
    end
  | "" => (acc, O, s)
  end.

Definition take_sign (s : string) : bool * string :=
  match s with
  | String c s' =>
    if code c =? 45 then (true, s') else if code c =? 43 then (false, s') else (false, s)
  | "" => (false, s)
  end.

Definition is_hex_prefix (s : string) : bool :=
  match s with
  | String z (String x (String h _)) =>
    (code z =? 48) && ((code x =? 120) || (code x =? 88))
    && (match digit h with Some _ => true | None => false end)
  | _ => false
  end.

Definition is_zero_first (s : string) : bool :=
  match s with String z _ => code z =? 48 | "" => false end.

(** White space, an optional sign and digits, in base 10 or (base 0) in the
    base its prefix selects: sign, magnitude, rest; [None] with no digit. *)
Definition number (base0 : bool) (s : string) : option (bool * Z * string) :=
  let '(neg, s1) := take_sign (skip_ws s) in
  let '(v, n, r) :=
    if base0 && is_hex_prefix s1 then digits 16 0 (str_drop 2 s1)
    else if base0 && is_zero_first s1 then digits 8 0 s1
    else digits 10 0 s1 in
  match n with
  | O => None
  | _ => Some (neg, v, r)
  end.

(** The saturating results of [strtol] and [strtoul]. *)
Definition to_long (neg : bool) (v : Z) : Z :=
  if neg then Z.max LONG_MIN (- v) else Z.min LONG_MAX v.

Definition to_ulong (neg : bool) (v : Z) : Z :=
  if ULONG_MAX <? v then ULONG_MAX else if neg then u64 (- v) else v.

(** [strtol(s, NULL, 0)] with [errno]: the value and whether it was out of
    range. *)
Definition strtol0 (s : string) : Z * bool :=
  match number true s with
  | None => (0, false)
  | Some (neg, v, _) =>
    (to_long neg v, if neg then v >? 2 ^ 63 else v >? LONG_MAX)
  end.

Definition atoi (s : string) : Z :=
  match number false s with
  | None => 0
  | Some (neg, v, _) => i32 (to_long neg v)
  end.

(** [strtoul(s, &end, 10)]: the value and the unread rest. *)
Definition strtoul10 (s : string) : Z * string :=
  match number false s with
  | None => (0, s)
  | Some (neg, v, r) => (to_ulong neg v, r)
  end.

(** ** sscanf *)

Inductive length_mod := LNone | LLong | LShort.

Inductive conversion :=
| CDec                     (* d *)
| CAuto                    (* i *)
| CUns                     (* u *)
| CStr                     (* s *)
| CDigits.                 (* [0-9] *)

Inductive directive :=
| DSpace
| DLit (c : ascii)
| DConv (assign : bool) (width : option nat) (m : length_mod) (k : conversion).

(** The directives of a format string; [None] for a format the model does not
    cover. *)
Definition conv_of (c : ascii) : option conversion :=
  let z := code c in
  if z =? 100 then Some CDec else if z =? 105 then Some CAuto
  else if z =? 117 then Some CUns else if z =? 115 then Some CStr else None.

Definition fmt_star (s : string) : bool * string :=
  match s with
  | String c s' => if code c =? 42 then (false, s') else (true, s)
  | "" => (true, s)
  end.

Definition fmt_width (s : string) : option nat * string :=
  let '(v, n, r) := digits 10 0 s in
  match n with O => (None, s) | _ => (Some (Z.to_nat v), r) end.

Definition fmt_length (s : string) : length_mod * string :=
  match s with
  | String c s' =>
    if code c =? 108 then (LLong, s')
    else if code c =? 104 then (LShort, s') else (LNone, s)
  | "" => (LNone, s)
  end.

Definition fmt_conv (s : string) : option (conversion * string) :=
  if strncasecmp0 s "[0-9]" 5 then Some (CDigits, str_drop 5 s)
  else match s with
       | String c s' => (fun k => (k, s')) <$> conv_of c
       | "" => None
       end.

Fixpoint parse_fmt (fuel : nat) (s : string) : option (list directive) :=
  match fuel with
  | O => None
  | S fuel =>
    match s with
    | "" => Some []
    | String c s' =>
      if isspace c then cons DSpace <$> parse_fmt fuel (skip_ws s')
      else if code c =? 37 then
        let '(a, s1) := fmt_star s' in
        let '(w, s2) := fmt_width s1 in
        let '(m, s3) := fmt_length s2 in
        match fmt_conv s3 with
        | Some (k, s4) => cons (DConv a w m k) <$> parse_fmt fuel s4
        | None => None
        end
      else cons (DLit c) <$> parse_fmt fuel s'
    end
  end.

Inductive scan_val :=
| VInt (z : Z)
| VStr (s : string).

(** The longest prefix of [s] of at most [w] characters that satisfy [p]. *)
Fixpoint span_while (p : ascii -> bool) (w : nat) (s : string) : string * string :=
  match w, s with
  | S w, String c s' =>
    if p c then let '(a, r) := span_while p w s' in (String c a, r) else ("", s)
  | _, _ => ("", s)
  end.

Definition is_digit (c : ascii) : bool := (48 <=? code c) && (code c <=? 57).

(** The value stored by a conversion, and the unread rest. An integer is
    converted as [strtol] or [strtoul] does and stored at the width of its
    argument. *)
Definition convert (w : option nat) (m : length_mod) (k : conversion) (s : string)
  : option (scan_val * string) :=
  let store_s z := match m with LLong => z | LNone => wraps 32 z | LShort => wraps 16 z end in
  let store_u z := match m with LLong => z | LNone => u32 z | LShort => u16 z end in
  let lim := match w with Some n => n | None => String.length s end in
  match k with
  | CDec => '(neg, v, r) ← number false s; Some (VInt (store_s (to_long neg v)), r)
  | CAuto => '(neg, v, r) ← number true s; Some (VInt (store_s (to_long neg v)), r)
  | CUns => '(neg, v, r) ← number false s; Some (VInt (store_u (to_ulong neg v)), r)
  | CStr =>
    match span_while (fun c => negb (isspace c)) lim (skip_ws s) with
    | ("", _) => None
    | (a, r) => Some (VStr a, r)
    end
  | CDigits =>
    match span_while is_digit lim s with
    | ("", _) => None
    | (a, r) => Some (VStr a, r)
    end
  end.

Fixpoint scan (ds : list directive) (s : string) : list scan_val :=
  match ds with
  | [] => []
  | DSpace :: ds => scan ds (skip_ws s)
  | DLit c :: ds =>
    match s with
    | String c' s' => if ceq c c' then scan ds s' else []
    | "" => []
    end
  | DConv a w m k :: ds =>
    match convert w m k s with
    | Some (v, r) => if a then v :: scan ds r else scan ds r
    | None => []
    end
  end.

(** The values [sscanf] assigned, in order; its result is their number (the
    callers compare it with a positive count only, so [EOF] needs no value of
    its own). *)
Definition sscanf (s fmt : string) : list scan_val :=
  match parse_fmt (S (String.length fmt)) fmt with
  | Some ds => scan ds s
  | None => []
  end.

(** ** Facts about the readers *)

Lemma length_read_line k s l r e :
  read_line k s = (l, r, e) -> (String.length s = String.length l + String.length r)%nat.
Proof.
  revert s l r e. induction k as [|k IH]; intros s l r e; simpl.
  - by intros [= <- <- <-].
  - destruct s as [|c s]; [by intros [= <- <- <-]|]. destruct (ceq c newline).
    + by intros [= <- <- <-].
    + destruct (read_line k s) as [[l' r'] e'] eqn:E. intros [= <- <- <-].
      simpl. by rewrite (IH _ _ _ _ E).
Qed.

(** [fgets] makes progress: only the end of the file stores nothing. *)
Lemma read_line_nil k s r e : read_line (S k) s = ("", r, e) -> s = "" /\ e = true.
Proof.
  simpl. destruct s as [|c s]; [by intros [= _ <-]|].
  destruct (ceq c newline); [done|]. by destruct (read_line k s) as [[l' r'] e'].
Qed.

Lemma span_while_length p w s a r :
  span_while p w s = (a, r) -> (String.length a <= w)%nat.
Proof.
  revert s a r. induction w as [|w IH]; intros s a r; simpl.
  - intros [= <- _]. simpl. lia.
  - destruct s as [|c s]; [intros [= <- _]; simpl; lia|].
    destruct (p c); [|intros [= <- _]; simpl; lia].
    destruct (span_while p w s) as [a' r'] eqn:E. intros [= <- _]. simpl.
    apply IH in E. lia.
Qed.

Lemma strrchr_length s c k : strrchr s c = Some k -> (k < String.length s)%nat.
Proof.
  revert k. induction s as [|x s IH]; intros k; simpl; [done|].
  destruct (strrchr s c) as [n|].
  - intros [= <-]. specialize (IH n eq_refl). lia.
  - destruct (ceq x c); [|done]. intros [= <-]. lia.
Qed.

(** What a conversion can store: a string within its width, an integer within
    the range of its type. *)
Definition fits (d : option nat * length_mod * conversion) (v : scan_val) : Prop :=
  match d, v with
  | (w, _, CStr), VStr a | (w, _, CDigits), VStr a =>
    match w with Some n => (String.length a <= n)%nat | None => True end
  | (_, LShort, CUns), VInt z => 0 <= z < 65536
  | (_, LLong, (CDec | CAuto)), VInt z => LONG_MIN <= z <= LONG_MAX
  | (_, LNone, (CDec | CAuto)), VInt z => - 2 ^ 31 <= z < 2 ^ 31
  | (_, _, (CDec | CAuto | CUns)), VInt _ => True
  | _, _ => False
  end.

Definition assigned (ds : list directive) : list (option nat * length_mod * conversion) :=
  omap (fun d => match d with DConv true w m k => Some (w, m, k) | _ => None end) ds.

Lemma to_long_range neg v : LONG_MIN <= to_long neg v <= LONG_MAX \/ v < 0.
Proof.
  unfold to_long, LONG_MIN, LONG_MAX. change (2 ^ 63) with 9223372036854775808.
  destruct neg; lia.
Qed.

Lemma digits_nonneg base acc s v n r :
  0 <= acc -> 0 <= base -> digits base acc s = (v, n, r) -> 0 <= v.
Proof.
  revert acc v n r. induction s as [|c s IH]; intros acc v n r Ha Hb; simpl.
  { by intros [= <- _ _]. }
  destruct (digit c) as [d|] eqn:Ed; [|by intros [= <- _ _]].
  destruct (d <? base); [|by intros [= <- _ _]].
  destruct (digits base (acc * base + d) s) as [[v' n'] r'] eqn:E. intros [= <- _ _].
  apply IH in E; [done| |done]. unfold digit in Ed.
  assert (0 <= d) by (repeat case_match; simplify_eq; lia). nia.
Qed.

Lemma number_nonneg b s neg v r : number b s = Some (neg, v, r) -> 0 <= v.
Proof.
  unfold number. destruct (take_sign (skip_ws s)) as [ng s1].
  set (x := if b && is_hex_prefix s1 then _ else _).
  destruct x as [[v' n'] r'] eqn:E. intros Hn. subst x.
  assert (v' = v) as <- by (destruct n'; congruence). clear Hn.
  destruct (b && is_hex_prefix s1); [|destruct (b && is_zero_first s1)];
    eapply digits_nonneg; eauto; lia.
Qed.

Lemma convert_fits w m k s v r : convert w m k s = Some (v, r) -> fits (w, m, k) v.
Proof.
  destruct k; simpl.
  1,2: destruct (number _ s) as [[[neg x] rest]|] eqn:En; [|done]; intros [= <- <-];
       pose proof (to_long_range neg x); pose proof (number_nonneg _ _ _ _ _ En);
       destruct m; [apply (wraps_range 32); lia|lia|done].
  - destruct (number _ s) as [[[neg x] rest]|] eqn:En; [|done]; intros [= <- <-].
    destruct m; [done..|]. apply (wrapu_range 16). lia.
  - destruct (span_while _ _ _) as [a r'] eqn:E. apply span_while_length in E.
    destruct a as [|c a]; [done|]. intros [= <- <-]. by destruct m, w.
  - destruct (span_while _ _ _) as [a r'] eqn:E. apply span_while_length in E.
    destruct a as [|c a]; [done|]. intros [= <- <-]. by destruct m, w.
Qed.

(** The values [sscanf] stores fit their conversions, in order. *)
Lemma scan_fits ds s :
  exists n, Forall2 fits (take n (assigned ds)) (scan ds s).
Proof.
  revert s. induction ds as [|d ds IH]; intros s; [by exists O; constructor|].
  destruct d as [|c|a w m k]; simpl.
  - apply IH.
  - destruct s as [|c' s]; [by exists O; constructor|].
    destruct (ceq c c'); [apply IH|by exists O; constructor].
  - destruct (convert w m k s) as [[v r]|] eqn:E; [|by exists O; constructor].
    destruct a; [|apply IH]. destruct (IH r) as [n Hn]. exists (S n).
    constructor; [|done]. by eapply convert_fits.
Qed.
