(* ===== verification/Timeval.v ===== *)
(** [struct timeval] and the macros [timeradd] (rude.h) and [timercmp]
    (sys/time.h) that the generators compute with.

    [time_t] and [suseconds_t] have 64 bits; their signed arithmetic is
    modelled over [Z], which agrees with C as long as nothing overflows. *)
From Stdlib Require Import ZArith Lia.
From stdpp Require Import base numbers.
From S2P Require Import Prelude.

Record timeval := Timeval { tv_sec : Z; tv_usec : Z }.

#[global] Instance timeval_eq_dec : EqDecision timeval.
Proof. solve_decision. Defined.

Definition timeradd (a b : timeval) : timeval :=
  let sec := tv_sec a + tv_sec b in
  let usec := tv_usec a + tv_usec b in
  if 1000000 <=? usec then Timeval (sec + 1) (usec - 1000000) else Timeval sec usec.

(** [timercmp(a, b, <)]; [timercmp(a, b, >)] is [timercmp_lt b a]. *)
Definition timercmp_lt (a b : timeval) : bool :=
  if tv_sec a =? tv_sec b then tv_usec a <? tv_usec b else tv_sec a <? tv_sec b.

(** ** What they compute: microseconds *)

Definition micros (t : timeval) : Z := tv_sec t * 1000000 + tv_usec t.

(** The representation the rest of the code relies on. *)
Definition normal (t : timeval) : Prop := 0 <= tv_usec t < 1000000.

Create HintDb timeval.

Lemma micros_timeradd a b : micros (timeradd a b) = micros a + micros b.
Proof.
  unfold micros, timeradd. destruct (Z.leb_spec 1000000 (tv_usec a + tv_usec b)); simpl; lia.
Qed.

Lemma normal_timeradd a b : normal a -> normal b -> normal (timeradd a b).
Proof.
  unfold normal, timeradd. intros.
  destruct (Z.leb_spec 1000000 (tv_usec a + tv_usec b)); simpl; lia.
Qed.

Lemma timercmp_lt_micros a b :
  normal a -> normal b -> timercmp_lt a b = (micros a <? micros b).
Proof.
  unfold normal, timercmp_lt, micros. intros.
  destruct (Z.eqb_spec (tv_sec a) (tv_sec b));
    [destruct (Z.ltb_spec (tv_usec a) (tv_usec b))|destruct (Z.ltb_spec (tv_sec a) (tv_sec b))];
    symmetry; first [apply Z.ltb_lt; lia | apply Z.ltb_ge; lia].
Qed.

Lemma timercmp_lt_irrefl a : timercmp_lt a a = false.
Proof. unfold timercmp_lt. rewrite Z.eqb_refl. apply Z.ltb_irrefl. Qed.

(** [timercmp(_, _, <)] is the lexicographic order: a strict total order, with
    no assumption on the fields. *)
Lemma timercmp_lt_spec a b :
  timercmp_lt a b = true <->
  tv_sec a < tv_sec b \/ (tv_sec a = tv_sec b /\ tv_usec a < tv_usec b).
Proof. unfold timercmp_lt. destruct (Z.eqb_spec (tv_sec a) (tv_sec b)); lia. Qed.

Lemma timercmp_ge_spec a b :
  timercmp_lt a b = false <->
  tv_sec b < tv_sec a \/ (tv_sec a = tv_sec b /\ tv_usec b <= tv_usec a).
Proof. unfold timercmp_lt. destruct (Z.eqb_spec (tv_sec a) (tv_sec b)); lia. Qed.

#[export] Hint Resolve normal_timeradd : timeval.

(** Decides comparisons of times by their fields. *)
Ltac time_lia :=
  repeat match goal with
  | H : timercmp_lt _ _ = true |- _ => apply timercmp_lt_spec in H
  | H : timercmp_lt _ _ = false |- _ => apply timercmp_ge_spec in H
  | |- timercmp_lt _ _ = true => apply timercmp_lt_spec
  | |- timercmp_lt _ _ = false => apply timercmp_ge_spec
  end; lia.

Lemma timercmp_lt_trans a b c :
  timercmp_lt a b = true -> timercmp_lt b c = true -> timercmp_lt a c = true.
Proof. intros. time_lia. Qed.

Lemma timercmp_ge_trans a b c :
  timercmp_lt b a = false -> timercmp_lt c b = false -> timercmp_lt c a = false.
Proof. intros. time_lia. Qed.

(** A time given in milliseconds, as the configuration commands carry it. *)
Definition of_millis (time : Z) : timeval :=
  let sec := Z.quot time 1000 in Timeval sec ((time - sec * 1000) * 1000).

Lemma micros_of_millis time : micros (of_millis time) = time * 1000.
Proof. unfold micros, of_millis; simpl. ring. Qed.

Lemma normal_of_millis time : 0 <= time -> normal (of_millis time).
Proof.
  intros. unfold normal, of_millis; simpl. rewrite Z.quot_div_nonneg by lia.
  Z.div_mod_to_equations. lia.
Qed.
#[export] Hint Resolve normal_of_millis : timeval.
