(* ===== verification/Double.v ===== *)
(** The double-precision arithmetic the code computes times with: finite
    doubles as dyadic numbers [dm * 2 ^ de], and the correctly rounded (to
    nearest, ties to even, 53 bits) quotient of two integers, from which the
    operations the sources use are built. Overflow and subnormals do not occur
    for the operands of those operations and are not represented. *)
From Stdlib Require Import ZArith Lia.
From stdpp Require Import base numbers.
From S2P Require Import Prelude.

Record double := Double { dm : Z; de : Z }.

(** [num / den] rounded to an integer, ties to even, for [0 <= num], [0 < den]. *)
Definition round_even (num den : Z) : Z :=
  let q := num / den in
  let r := num mod den in
  match 2 * r ?= den with
  | Lt => q
  | Gt => q + 1
  | Eq => if Z.even q then q else q + 1
  end.

(** The exponent that leaves 53 bits of [num / den]. *)
Definition quot_exp (num den : Z) : Z :=
  let e := Z.log2 num - Z.log2 den - 53 in
  if num * 2 ^ Z.max 0 (- e) <? den * 2 ^ Z.max 0 e * 2 ^ 53 then e else e + 1.

(** The double nearest to [num / den], for [0 < den]. *)
Definition of_quot (num den : Z) : double :=
  let a := Z.abs num in
  if a =? 0 then Double 0 0
  else
    let e := quot_exp a den in
    let m := round_even (a * 2 ^ Z.max 0 (- e)) (den * 2 ^ Z.max 0 e) in
    Double (Z.sgn num * m) e.

(** [x / n] for an integer constant [x] and an [int n], [n <> 0]. *)
Definition div_int (x n : Z) : double := of_quot (Z.sgn n * x) (Z.abs n).

(** [(double) n + d] for an integer [n] that is exact as a double. *)
Definition add_int (n : Z) (d : double) : double :=
  of_quot (n * 2 ^ Z.max 0 (- de d) + dm d * 2 ^ Z.max 0 (de d)) (2 ^ Z.max 0 (- de d)).

(** Conversion to an integer type: truncation towards zero. *)
Definition trunc (d : double) : Z :=
  if 0 <=? de d then dm d * 2 ^ de d else Z.quot (dm d) (2 ^ (- de d)).

(** ** Arithmetic on doubles *)

(** A double as a quotient of integers. *)
Definition dnum (d : double) : Z := dm d * 2 ^ Z.max 0 (de d).
Definition dden (d : double) : Z := 2 ^ Z.max 0 (- de d).

Definition dzero : double := Double 0 0.
Definition of_int (n : Z) : double := of_quot n 1.
Definition dadd (a b : double) : double := of_quot (dnum a * dden b + dnum b * dden a) (dden a * dden b).
Definition dsub (a b : double) : double := of_quot (dnum a * dden b - dnum b * dden a) (dden a * dden b).
Definition dmul (a b : double) : double := of_quot (dnum a * dnum b) (dden a * dden b).
(** [a / b], [0 < b]. *)
Definition div_double (a b : double) : double := of_quot (dnum a * dden b) (dden a * dnum b).
(** Division by a positive integer, converted to a double. *)
Definition ddiv (a : double) (n : Z) : double := div_double a (of_int n).

(** ** Rounding errors *)

(** A rounded quotient is within one half of the quotient. *)
Lemma round_even_error num den :
  0 <= num -> 0 < den -> - den <= 2 * (round_even num den * den - num) <= den.
Proof.
  intros Hn Hd. pose proof (Z.div_mod num den ltac:(lia)) as E.
  pose proof (Z.mod_pos_bound num den Hd). unfold round_even.
  destruct (Z.compare_spec (2 * (num mod den)) den); [destruct (Z.even _)|..]; nia.
Qed.

Lemma round_even_exact q den : 0 < den -> round_even (q * den) den = q.
Proof.
  intros. unfold round_even. rewrite Z.div_mul, Z.mod_mul by lia.
  by destruct (Z.compare_spec (2 * 0) den); [lia|..|lia].
Qed.

Lemma quot_exp_le num den b :
  Z.log2 num <= b + Z.log2 den -> quot_exp num den <= b - 52.
Proof. intros. unfold quot_exp. destruct (_ <? _); lia. Qed.

(** A positive quotient with a negative exponent. *)
Lemma of_quot_pos num den :
  0 < num -> quot_exp num den <= 0 ->
  of_quot num den =
  Double (round_even (num * 2 ^ (- quot_exp num den)) den) (quot_exp num den).
Proof.
  intros Hn He. unfold of_quot. rewrite (Z.abs_eq num), Z.sgn_pos by lia.
  destruct (Z.eqb_spec num 0); [lia|].
  rewrite (Z.max_r 0 (- _)), (Z.max_l 0 (quot_exp num den)), !Z.mul_1_l by lia.
  by rewrite Z.mul_1_r.
Qed.

(** Two roundings at scales [k1] and [k2], both finer than the distance of a
    non-integer quotient to the nearest integer, do not move its floor. *)
Lemma floor_two_roundings n a d k1 k2 m1 m2 :
  0 < d -> 2 * d <= k1 -> d < k2 ->
  m1 = round_even (a * k1) d -> m2 = round_even ((n * k1 + m1) * k2) k1 ->
  0 <= a -> 0 <= n * k1 + m1 ->
  m2 / k2 = n + a / d.
Proof.
  intros Hd Hk1 Hk2 E1 E2 Ha Hn.
  pose proof (Z.div_mod a d ltac:(lia)) as Ea. pose proof (Z.mod_pos_bound a d Hd) as Hr.
  set (q := a / d) in *. set (r := a mod d) in *.
  destruct (Z.eq_dec r 0) as [Er|Er].
  - assert (m1 = q * k1) as ->.
    { rewrite E1. replace (a * k1) with (q * k1 * d) by (rewrite Ea, Er; ring).
      by apply round_even_exact. }
    assert (m2 = (n + q) * k2) as ->.
    { rewrite E2. replace ((n * k1 + q * k1) * k2) with ((n + q) * k2 * k1) by ring.
      apply round_even_exact. lia. }
    apply Z.div_mul. lia.
  - pose proof (round_even_error (a * k1) d ltac:(nia) Hd) as B1. rewrite <- E1 in B1.
    pose proof (round_even_error ((n * k1 + m1) * k2) k1 ltac:(nia) ltac:(lia)) as B2.
    rewrite <- E2 in B2.
    assert (d * k1 + d * k2 < 2 * (k1 * k2)) by nia.
    assert (B3 : - (d * k1 + d * k2)
      <= 2 * (d * k1 * (m2 - k2 * (n + q)) - r * (k1 * k2)) <= d * k1 + d * k2).
    { replace (d * k1 * (m2 - k2 * (n + q)) - r * (k1 * k2))
        with (d * (m2 * k1 - (n * k1 + m1) * k2) + k2 * (m1 * d - a * k1))
        by (rewrite Ea; ring). nia. }
    symmetry. apply Z.div_unique with (m2 - k2 * (n + q)); [left|lia].
    set (P := k1 * k2) in *. assert (0 < P) by (subst P; nia).
    assert (P <= r * P <= (d - 1) * P) by nia.
    assert (0 < d * k1) by nia. split.
    + assert (0 < d * k1 * (m2 - k2 * (n + q))) by nia. nia.
    + assert (d * k1 * (m2 - k2 * (n + q)) < d * P) by nia.
      subst P. nia.
Qed.

(** [(long) (usec + 1000000.0 / rate)] is exact up to the truncation of the
    quotient, for every positive [int rate]. *)
Lemma trunc_add_div usec rate :
  0 <= usec < 1000000 -> 1 <= rate < 2 ^ 31 ->
  trunc (add_int usec (div_int 1000000 rate)) = usec + 1000000 / rate.
Proof.
  intros Hu Hr. unfold div_int. rewrite Z.sgn_pos, Z.abs_eq, Z.mul_1_l by lia.
  assert (He1 : quot_exp 1000000 rate <= 19 - 52).
  { apply quot_exp_le. pose proof (Z.log2_nonneg rate). change (Z.log2 1000000) with 19. lia. }
  rewrite of_quot_pos by lia. set (e1 := quot_exp 1000000 rate) in *.
  set (m1 := round_even (1000000 * 2 ^ (- e1)) rate).
  assert (Hk1 : 2 ^ 33 <= 2 ^ (- e1)) by (apply Z.pow_le_mono_r; lia).
  assert (Hm1 : 0 < m1 < 1000001 * 2 ^ (- e1)).
  { pose proof (round_even_error (1000000 * 2 ^ (- e1)) rate ltac:(lia) ltac:(lia)) as B.
    fold m1 in B. change (2 ^ 31) with 2147483648 in *. change (2 ^ 33) with 8589934592 in *. nia. }
  unfold add_int. cbn [dm de]. rewrite (Z.max_r 0 (- e1)), (Z.max_l 0 e1), Z.mul_1_r by lia.
  set (num := usec * 2 ^ (- e1) + m1).
  assert (Hnum : 0 < num < 2 ^ 21 * 2 ^ (- e1)) by (subst num; change (2 ^ 21) with 2097152; nia).
  assert (He2 : quot_exp num (2 ^ (- e1)) <= 20 - 52).
  { apply quot_exp_le. rewrite Z.log2_pow2 by lia.
    rewrite <- Z.pow_add_r in Hnum by lia. destruct Hnum as [Hn0 Hn1].
    apply Z.log2_lt_pow2 in Hn1; lia. }
  rewrite of_quot_pos by lia. set (e2 := quot_exp num _) in *.
  assert (Hk2 : 2 ^ 32 <= 2 ^ (- e2)) by (apply Z.pow_le_mono_r; lia).
  unfold trunc. cbn [dm de]. destruct (Z.leb_spec 0 e2); [lia|].
  change (2 ^ 31) with 2147483648 in *. change (2 ^ 33) with 8589934592 in *.
  change (2 ^ 32) with 4294967296 in *.
  rewrite Z.quot_div_nonneg; [|pose proof (round_even_error (num * 2 ^ (- e2)) (2 ^ (- e1))
    ltac:(nia) ltac:(lia)); nia|lia].
  eapply floor_two_roundings with (k1 := 2 ^ (- e1)) (m1 := m1); try reflexivity; lia.
Qed.

(** ** Exact doubles *)

(** The double is the integer [n]. *)
Definition dexact (d : double) (n : Z) : Prop := dnum d = n * dden d.

Lemma dden_pos d : 0 < dden d.
Proof. apply Z.pow_pos_nonneg; lia. Qed.

Lemma quot_exp_exact n den : 0 < n < 2 ^ 53 -> 0 < den -> quot_exp (n * den) den <= 0.
Proof.
  intros Hn Hd. unfold quot_exp. set (e := Z.log2 (n * den) - Z.log2 den - 53).
  assert (Z.log2 n <= 52) by (apply Z.lt_succ_r, Z.log2_lt_pow2; lia).
  assert (e <= 0) as He by (unfold e; pose proof (Z.log2_mul_above n den ltac:(lia) ltac:(lia)); lia).
  destruct (Z.ltb_spec (n * den * 2 ^ Z.max 0 (- e)) (den * 2 ^ Z.max 0 e * 2 ^ 53)) as [|Hge]; [lia|].
  destruct (Z.eq_dec e 0) as [E0|]; [|lia]. rewrite E0 in Hge. cbn [Z.opp] in Hge. change (2 ^ Z.max 0 0) with 1 in Hge.
  rewrite !Z.mul_1_r in Hge. pose proof (Z.mul_lt_mono_pos_r den n (2 ^ 53) Hd) as Hm. lia.
Qed.

Lemma of_quot_exact num den n : num = n * den -> 0 < den -> Z.abs n < 2 ^ 53 -> dexact (of_quot num den) n.
Proof.
  intros -> Hd Hn. unfold of_quot, dexact. destruct (Z.eqb_spec (Z.abs (n * den)) 0) as [E0|E0].
  - unfold dnum. cbn. assert (n = 0) as -> by nia. done.
  - assert (Z.abs (n * den) = Z.abs n * den) as Ea by (rewrite Z.abs_mul, (Z.abs_eq den) by lia; done). rewrite Ea.
    pose proof (quot_exp_exact (Z.abs n) den ltac:(nia) Hd) as He. set (e := quot_exp (Z.abs n * den) den) in *.
    rewrite (Z.max_r 0 (- e)), (Z.max_l 0 e), Z.mul_1_r by lia.
    replace (Z.abs n * den * 2 ^ (- e)) with (Z.abs n * 2 ^ (- e) * den) by ring. rewrite round_even_exact by done.
    unfold dnum, dden. cbn [dm de]. rewrite (Z.max_r 0 (- e)), (Z.max_l 0 e), Z.mul_1_r by lia.
    rewrite Z.mul_assoc. f_equal. rewrite Z.sgn_mul, (Z.sgn_pos den), Z.mul_1_r by done. rewrite Z.mul_comm. apply Z.abs_sgn.
Qed.

Lemma of_int_exact n : Z.abs n < 2 ^ 53 -> dexact (of_int n) n.
Proof. intros. apply of_quot_exact; lia. Qed.

Lemma dadd_exact a b x y : dexact a x -> dexact b y -> Z.abs (x + y) < 2 ^ 53 -> dexact (dadd a b) (x + y).
Proof.
  intros Ha Hb Hs. unfold dexact in Ha, Hb. apply of_quot_exact; [rewrite Ha, Hb; ring| |done].
  pose proof (dden_pos a). pose proof (dden_pos b). nia.
Qed.

Lemma dsub_exact a b x y : dexact a x -> dexact b y -> Z.abs (x - y) < 2 ^ 53 -> dexact (dsub a b) (x - y).
Proof.
  intros Ha Hb Hs. unfold dexact in Ha, Hb. apply of_quot_exact; [rewrite Ha, Hb; ring| |done].
  pose proof (dden_pos a). pose proof (dden_pos b). nia.
Qed.

Lemma dmul_exact a b x y : dexact a x -> dexact b y -> Z.abs (x * y) < 2 ^ 53 -> dexact (dmul a b) (x * y).
Proof.
  intros Ha Hb Hs. unfold dexact in Ha, Hb. apply of_quot_exact; [rewrite Ha, Hb; ring| |done].
  pose proof (dden_pos a). pose proof (dden_pos b). nia.
Qed.

Lemma ddiv_exact a x n : dexact a (x * n) -> 0 < n < 2 ^ 53 -> Z.abs x < 2 ^ 53 -> dexact (ddiv a n) x.
Proof.
  intros Ha Hn Hx. pose proof (of_int_exact n ltac:(lia)) as Hb. unfold dexact in Ha, Hb.
  pose proof (dden_pos a). pose proof (dden_pos (of_int n)).
  unfold ddiv, div_double. apply of_quot_exact; [rewrite Ha, Hb; ring| |done]. rewrite Hb. nia.
Qed.

Lemma trunc_exact d n : dexact d n -> trunc d = n.
Proof.
  unfold dexact, dnum, dden, trunc. intros Hd. destruct (Z.leb_spec 0 (de d)).
  - rewrite Z.max_r, (Z.max_l 0 (- de d)) in Hd by lia. lia.
  - rewrite Z.max_l, (Z.max_r 0 (- de d)) in Hd by lia. rewrite Z.mul_1_r in Hd. rewrite Hd. apply Z.quot_mul.
    pose proof (Z.pow_pos_nonneg 2 (- de d)). lia.
Qed.

(** ** Rounding and order *)

(** [n <= d] and [d <= n]. *)
Definition dge (d : double) (n : Z) : Prop := n * dden d <= dnum d.
Definition dle (d : double) (n : Z) : Prop := dnum d <= n * dden d.

Lemma dexact_between d n : dexact d n <-> dge d n /\ dle d n.
Proof. unfold dexact, dge, dle. lia. Qed.

Lemma round_even_ge num den n : 0 < den -> n * den <= num -> n <= round_even num den.
Proof.
  intros Hd Hn. assert (n <= num / den) by (apply Z.div_le_lower_bound; lia).
  unfold round_even. destruct (_ ?= _); [destruct (Z.even _)|..]; lia.
Qed.

Lemma round_even_le num den n : 0 < den -> num <= n * den -> round_even num den <= n.
Proof.
  intros Hd Hn. pose proof (Z.div_mod num den ltac:(lia)) as E. pose proof (Z.mod_pos_bound num den Hd).
  unfold round_even. destruct (Z.compare_spec (2 * (num mod den)) den); [destruct (Z.even _)|..]; nia.
Qed.

(** The exponent leaves 53 bits, and not more. *)
Lemma quot_exp_bits num den (e := quot_exp num den) :
  0 < num -> 0 < den ->
  2 ^ 52 * (den * 2 ^ Z.max 0 e) <= num * 2 ^ Z.max 0 (- e) < 2 ^ 53 * (den * 2 ^ Z.max 0 e).
Proof.
  intros Hn Hd. unfold e, quot_exp. set (e0 := Z.log2 num - Z.log2 den - 53).
  assert (2 ^ 52 * (den * 2 ^ Z.max 0 e0) <= num * 2 ^ Z.max 0 (- e0) < 2 ^ 54 * (den * 2 ^ Z.max 0 e0)) as He0.
  { destruct (Z.log2_spec num Hn) as [N1 N2]. destruct (Z.log2_spec den Hd) as [D1 D2].
    pose proof (Z.log2_nonneg num). pose proof (Z.log2_nonneg den).
    destruct (Z.le_gt_cases e0 0).
    - rewrite (Z.max_l 0 e0), (Z.max_r 0 (- e0)), Z.mul_1_r by lia.
      assert (2 ^ Z.log2 num * 2 ^ (- e0) = 2 ^ 52 * 2 ^ Z.succ (Z.log2 den)) as E1 by (rewrite <- !Z.pow_add_r by lia; f_equal; lia).
      assert (2 ^ Z.succ (Z.log2 num) * 2 ^ (- e0) = 2 ^ 54 * 2 ^ Z.log2 den) as E2 by (rewrite <- !Z.pow_add_r by lia; f_equal; lia).
      pose proof (Z.pow_pos_nonneg 2 (- e0) ltac:(lia) ltac:(lia)). split; nia.
    - rewrite (Z.max_r 0 e0), (Z.max_l 0 (- e0)), Z.mul_1_r by lia.
      assert (2 ^ 52 * (2 ^ Z.succ (Z.log2 den) * 2 ^ e0) = 2 ^ Z.log2 num) as E1 by (rewrite <- !Z.pow_add_r by lia; f_equal; lia).
      assert (2 ^ 54 * (2 ^ Z.log2 den * 2 ^ e0) = 2 ^ Z.succ (Z.log2 num)) as E2 by (rewrite <- !Z.pow_add_r by lia; f_equal; lia).
      pose proof (Z.pow_pos_nonneg 2 e0 ltac:(lia) ltac:(lia)). split; nia. }
  destruct (Z.ltb_spec (num * 2 ^ Z.max 0 (- e0)) (den * 2 ^ Z.max 0 e0 * 2 ^ 53)); [lia|].
  destruct (Z.le_gt_cases 0 e0).
  - rewrite (Z.max_l 0 (- (e0 + 1))), (Z.max_r 0 (e0 + 1)), Z.pow_add_r, Z.mul_1_r by lia.
    rewrite (Z.max_l 0 (- e0)), (Z.max_r 0 e0), Z.mul_1_r in * by lia. lia.
  - rewrite (Z.max_r 0 (- (e0 + 1))), (Z.max_l 0 (e0 + 1)), Z.mul_1_r by lia.
    rewrite (Z.max_r 0 (- e0)), (Z.max_l 0 e0), Z.mul_1_r in * by lia.
    replace (- e0) with (1 + - (e0 + 1)) in * by lia. rewrite (Z.pow_add_r 2 1) in * by lia. lia.
Qed.

(** Rounding does not cross an integer of 53 bits. *)
Lemma of_quot_ge num den n : 0 <= num -> 0 < den -> 0 <= n < 2 ^ 53 -> n * den <= num -> dge (of_quot num den) n.
Proof.
  intros Hnum Hd Hn Hle. unfold of_quot, dge, dnum, dden. rewrite (Z.abs_eq num) by done.
  destruct (Z.eqb_spec num 0) as [->|H0]; [cbn; nia|]. pose proof (quot_exp_bits num den ltac:(lia) Hd) as Hb.
  set (e := quot_exp num den) in *. cbn [dm de]. rewrite Z.sgn_pos, Z.mul_1_l by lia.
  destruct (Z.le_gt_cases e 0).
  - rewrite (Z.max_l 0 e), (Z.max_r 0 (- e)), !Z.mul_1_r by lia. apply round_even_ge; [lia|].
    pose proof (Z.pow_pos_nonneg 2 (- e) ltac:(lia) ltac:(lia)). nia.
  - rewrite (Z.max_r 0 e), (Z.max_l 0 (- e)), !Z.mul_1_r in * by lia.
    pose proof (Z.pow_le_mono_r 2 1 e ltac:(lia) ltac:(lia)) as He.
    pose proof (round_even_ge num (den * 2 ^ e) (2 ^ 52) ltac:(nia) ltac:(lia)). nia.
Qed.

Lemma of_quot_le num den n : 0 <= num -> 0 < den -> 0 <= n < 2 ^ 53 -> num <= n * den -> dle (of_quot num den) n.
Proof.
  intros Hnum Hd Hn Hle. unfold of_quot, dle, dnum, dden. rewrite (Z.abs_eq num) by done.
  destruct (Z.eqb_spec num 0) as [->|H0]; [cbn; nia|]. pose proof (quot_exp_bits num den ltac:(lia) Hd) as Hb.
  set (e := quot_exp num den) in *. cbn [dm de]. rewrite Z.sgn_pos, Z.mul_1_l by lia.
  destruct (Z.le_gt_cases e 0).
  - rewrite (Z.max_l 0 e), (Z.max_r 0 (- e)), !Z.mul_1_r by lia. apply round_even_le; [lia|].
    pose proof (Z.pow_pos_nonneg 2 (- e) ltac:(lia) ltac:(lia)). nia.
  - rewrite (Z.max_r 0 e), (Z.max_l 0 (- e)), !Z.mul_1_r in * by lia.
    pose proof (Z.pow_le_mono_r 2 1 e ltac:(lia) ltac:(lia)) as He. nia.
Qed.

Lemma dadd_ge a b x y : 0 <= x -> 0 <= y -> x + y < 2 ^ 53 -> dge a x -> dge b y -> dge (dadd a b) (x + y).
Proof.
  unfold dge. intros Hx Hy Hs Ha Hb. pose proof (dden_pos a). pose proof (dden_pos b).
  apply of_quot_ge; [|nia|lia|]; nia.
Qed.

Lemma dadd_le a b x y : dge a 0 -> dge b 0 -> 0 <= x + y < 2 ^ 53 -> dle a x -> dle b y -> dle (dadd a b) (x + y).
Proof.
  unfold dge, dle. intros Hx Hy Hs Ha Hb. pose proof (dden_pos a). pose proof (dden_pos b).
  apply of_quot_le; [|nia|lia|]; nia.
Qed.

Lemma trunc_quot d : trunc d = Z.quot (dnum d) (dden d).
Proof.
  unfold trunc, dnum, dden. destruct (Z.leb_spec 0 (de d)).
  - by rewrite (Z.max_r 0 (de d)), (Z.max_l 0 (- de d)), Z.quot_1_r by lia.
  - by rewrite (Z.max_l 0 (de d)), (Z.max_r 0 (- de d)), Z.mul_1_r by lia.
Qed.

Lemma trunc_ge d n : 0 <= n -> dge d n -> n <= trunc d.
Proof.
  unfold dge. intros Hn Hd. pose proof (dden_pos d). rewrite trunc_quot. apply Z.quot_le_lower_bound; [done|lia].
Qed.

Lemma trunc_le d n : dge d 0 -> dle d n -> trunc d <= n.
Proof.
  unfold dge, dle. intros H0 Hd. pose proof (dden_pos d). rewrite trunc_quot. apply Z.quot_le_upper_bound; [done|lia].
Qed.

(** The error of a rounded quotient is at most 2^-53 of it. *)
Definition dnear (d : double) (num den k : Z) : Prop :=
  2 ^ 53 * Z.abs (dnum d * den - num * dden d) <= k * (num * dden d).

Lemma of_quot_near num den : 0 <= num -> 0 < den -> dnear (of_quot num den) num den 1.
Proof.
  intros Hnum Hd. unfold of_quot, dnear, dnum, dden. rewrite (Z.abs_eq num) by done.
  destruct (Z.eqb_spec num 0) as [->|H0]; [cbn; lia|]. pose proof (quot_exp_bits num den ltac:(lia) Hd) as Hb.
  set (e := quot_exp num den) in *. cbn [dm de]. rewrite Z.sgn_pos, Z.mul_1_l by lia.
  set (X := num * 2 ^ Z.max 0 (- e)) in *. set (P := 2 ^ Z.max 0 e) in *.
  assert (0 < P) by (apply Z.pow_pos_nonneg; lia).
  pose proof (round_even_error X (den * P) ltac:(nia) ltac:(nia)) as Hr. set (m := round_even X (den * P)) in *.
  replace (m * P * den - X) with (m * (den * P) - X) by ring. lia.
Qed.

(** A rounded quotient is at most twice the quotient, in either direction. *)
Lemma of_quot_factor num den d : d = of_quot num den -> 0 <= num -> 0 < den ->
  0 <= dnum d /\ dnum d * den <= 2 * (num * dden d) /\ num * dden d <= 2 * (dnum d * den).
Proof.
  intros -> Hn Hd. pose proof (of_quot_near num den Hn Hd) as He. pose proof (of_quot_ge num den 0 Hn Hd ltac:(lia) ltac:(lia)) as H0.
  unfold dnear, dge in *. pose proof (dden_pos (of_quot num den)). nia.
Qed.

Lemma of_quot_opp num den : of_quot (- num) den = Double (- dm (of_quot num den)) (de (of_quot num den)).
Proof.
  unfold of_quot. rewrite Z.abs_opp. destruct (Z.abs num =? 0); [done|]. cbn [dm de]. f_equal. rewrite Z.sgn_opp. lia.
Qed.

Lemma trunc_opp d : trunc (Double (- dm d) (de d)) = - trunc d.
Proof.
  rewrite !trunc_quot. unfold dnum, dden. cbn [dm de]. rewrite Z.mul_opp_l. apply Z.quot_opp_l.
  pose proof (Z.pow_pos_nonneg 2 (Z.max 0 (- de d)) ltac:(lia) ltac:(lia)). lia.
Qed.

Lemma trunc_bound num den b : 0 < den -> Z.abs num <= b * den -> Z.abs (trunc (of_quot num den)) <= 2 * b.
Proof.
  intros Hd Hb. assert (forall n, 0 <= n -> n <= b * den -> 0 <= trunc (of_quot n den) <= 2 * b) as Hpos.
  { intros n Hn Hnb. destruct (of_quot_factor n den _ eq_refl Hn Hd) as (H0 & H1 & _). set (d := of_quot n den) in *.
    pose proof (dden_pos d). split; [apply trunc_ge; [lia|unfold dge; lia]|]. apply trunc_le; unfold dge, dle; nia. }
  destruct (Z.le_gt_cases 0 num); [pose proof (Hpos num ltac:(lia) ltac:(lia)); lia|].
  replace num with (- - num) by lia. rewrite of_quot_opp, trunc_opp. pose proof (Hpos (- num) ltac:(lia) ltac:(lia)). lia.
Qed.
