(* ===== verification/RudeState.v ===== *)
(** The data structures of rude.h and the state of the rude process.

    Pointers to [struct flow_cfg] and to trace arrays are locations in a finite
    heap ([None] is [NULL]); [malloc] hands out locations that were never used
    before, [free] removes them, and an access through anything else is a
    [Fault]. The kernel and the C library answer through the [Env] class: one
    counter numbers the calls, so that every run is a function of the answers
    and theorems quantify over all of them. *)
From Stdlib Require Import ZArith Lia String.
From stdpp Require Import base numbers list gmap strings.
From S2P Require Import Prelude CStdio Timeval.

#[local] Open Scope Z_scope.

(** ** rude.h *)

Definition DNMAXLEN : Z := 128.
Definition TMAXLEN : Z := 32.
Definition PMINSIZE : Z := 20.
Definition PMAXSIZE : Z := 32768.

(** [CONSTANT] and [CBR] are the same enumerator value. *)
Inductive f_type := UNKNOWN | CBR | TRACE.

Abbreviation ptr := (option positive).

(** [struct cbr_params], less the type tag. *)
Record cbr_params := Cbr_params { rate : Z; psize : Z }.

(** [struct trace_list] *)
Record trace_entry := Trace_entry { te_psize : Z; te_wait : timeval }.

(** [struct trace_params], less the type tag. *)
Record trace_params := Trace_params {
  max_psize : Z; list_size : Z; list_index : Z; tlist : ptr
}.

(** The union [params] with the tag both variants start with; [PNone] is the
    zero-filled union, whose tag is no enumerator. *)
Inductive flow_params :=
| PNone
| PCbr (p : cbr_params)
| PTrace (p : trace_params).

(** [struct sockaddr_in]; port and address in network byte order. *)
Record sockaddr_in := Sockaddr_in { sin_family : Z; sin_port : Z; sin_addr : Z }.

(** The values of the function pointer [send_func]. *)
Inductive tx_function := Send_none | Send_cbr | Send_trace.

(** [struct flow_cfg] *)
Record flow_cfg := Flow_cfg {
  next : ptr;
  mod_flow : ptr;
  dst : sockaddr_in;
  send_sock : Z;
  flow_id : Z;
  flow_sport : Z;
  flow_start : timeval;
  flow_stop : timeval;
  next_tx : timeval;
  send_func : tx_function;
  errors : Z;
  success : Z;
  sequence_nmbr : Z;
  tos : Z;
  params : flow_params
}.

(** A datagram handed to [sendto]. *)
Record datagram := Datagram { dg_sock : Z; dg_dst : sockaddr_in; dg_data : list Z }.

(** ** Field updates *)

Definition set_next (v : ptr) (c : flow_cfg) : flow_cfg :=
  Flow_cfg v (mod_flow c) (dst c) (send_sock c) (flow_id c) (flow_sport c) (flow_start c) (flow_stop c) (next_tx c) (send_func c) (errors c) (success c) (sequence_nmbr c) (tos c) (params c).

Definition set_mod_flow (v : ptr) (c : flow_cfg) : flow_cfg :=
  Flow_cfg (next c) v (dst c) (send_sock c) (flow_id c) (flow_sport c) (flow_start c) (flow_stop c) (next_tx c) (send_func c) (errors c) (success c) (sequence_nmbr c) (tos c) (params c).

Definition set_dst (v : sockaddr_in) (c : flow_cfg) : flow_cfg :=
  Flow_cfg (next c) (mod_flow c) v (send_sock c) (flow_id c) (flow_sport c) (flow_start c) (flow_stop c) (next_tx c) (send_func c) (errors c) (success c) (sequence_nmbr c) (tos c) (params c).

Definition set_send_sock (v : Z) (c : flow_cfg) : flow_cfg :=
  Flow_cfg (next c) (mod_flow c) (dst c) v (flow_id c) (flow_sport c) (flow_start c) (flow_stop c) (next_tx c) (send_func c) (errors c) (success c) (sequence_nmbr c) (tos c) (params c).

Definition set_flow_id (v : Z) (c : flow_cfg) : flow_cfg :=
  Flow_cfg (next c) (mod_flow c) (dst c) (send_sock c) v (flow_sport c) (flow_start c) (flow_stop c) (next_tx c) (send_func c) (errors c) (success c) (sequence_nmbr c) (tos c) (params c).

Definition set_flow_sport (v : Z) (c : flow_cfg) : flow_cfg :=
  Flow_cfg (next c) (mod_flow c) (dst c) (send_sock c) (flow_id c) v (flow_start c) (flow_stop c) (next_tx c) (send_func c) (errors c) (success c) (sequence_nmbr c) (tos c) (params c).

Definition set_flow_start (v : timeval) (c : flow_cfg) : flow_cfg :=
  Flow_cfg (next c) (mod_flow c) (dst c) (send_sock c) (flow_id c) (flow_sport c) v (flow_stop c) (next_tx c) (send_func c) (errors c) (success c) (sequence_nmbr c) (tos c) (params c).

Definition set_flow_stop (v : timeval) (c : flow_cfg) : flow_cfg :=
  Flow_cfg (next c) (mod_flow c) (dst c) (send_sock c) (flow_id c) (flow_sport c) (flow_start c) v (next_tx c) (send_func c) (errors c) (success c) (sequence_nmbr c) (tos c) (params c).

Definition set_next_tx (v : timeval) (c : flow_cfg) : flow_cfg :=
  Flow_cfg (next c) (mod_flow c) (dst c) (send_sock c) (flow_id c) (flow_sport c) (flow_start c) (flow_stop c) v (send_func c) (errors c) (success c) (sequence_nmbr c) (tos c) (params c).

Definition set_send_func (v : tx_function) (c : flow_cfg) : flow_cfg :=
  Flow_cfg (next c) (mod_flow c) (dst c) (send_sock c) (flow_id c) (flow_sport c) (flow_start c) (flow_stop c) (next_tx c) v (errors c) (success c) (sequence_nmbr c) (tos c) (params c).

Definition set_errors (v : Z) (c : flow_cfg) : flow_cfg :=
  Flow_cfg (next c) (mod_flow c) (dst c) (send_sock c) (flow_id c) (flow_sport c) (flow_start c) (flow_stop c) (next_tx c) (send_func c) v (success c) (sequence_nmbr c) (tos c) (params c).

Definition set_success (v : Z) (c : flow_cfg) : flow_cfg :=
  Flow_cfg (next c) (mod_flow c) (dst c) (send_sock c) (flow_id c) (flow_sport c) (flow_start c) (flow_stop c) (next_tx c) (send_func c) (errors c) v (sequence_nmbr c) (tos c) (params c).

Definition set_sequence_nmbr (v : Z) (c : flow_cfg) : flow_cfg :=
  Flow_cfg (next c) (mod_flow c) (dst c) (send_sock c) (flow_id c) (flow_sport c) (flow_start c) (flow_stop c) (next_tx c) (send_func c) (errors c) (success c) v (tos c) (params c).

Definition set_tos (v : Z) (c : flow_cfg) : flow_cfg :=
  Flow_cfg (next c) (mod_flow c) (dst c) (send_sock c) (flow_id c) (flow_sport c) (flow_start c) (flow_stop c) (next_tx c) (send_func c) (errors c) (success c) (sequence_nmbr c) v (params c).

Definition set_params (v : flow_params) (c : flow_cfg) : flow_cfg :=
  Flow_cfg (next c) (mod_flow c) (dst c) (send_sock c) (flow_id c) (flow_sport c) (flow_start c) (flow_stop c) (next_tx c) (send_func c) (errors c) (success c) (sequence_nmbr c) (tos c) v.

(** What [memset(p, 0, sizeof)] leaves. *)
Definition zero_flow : flow_cfg :=
  Flow_cfg None None (Sockaddr_in 0 0 0) 0 0 0 (Timeval 0 0) (Timeval 0 0) (Timeval 0 0)
    Send_none 0 0 0 0 PNone.

(** ** The process *)

(** The globals of main.c (lines 62 to 67), the heap, the open sockets, the
    number of calls made so far and the datagrams sent, latest first. *)
Record rude := Rude {
  heap : gmap positive flow_cfg;
  traces : gmap positive (list trace_entry);
  fresh : positive;
  head : ptr;
  done : ptr;
  tester_start : timeval;
  max_packet_size : Z;
  buffer : option (list Z);
  fds : gset Z;
  sysno : nat;
  wire : list datagram
}.

Definition set_heap (v : gmap positive flow_cfg) (s : rude) : rude :=
  Rude v (traces s) (fresh s) (head s) (done s) (tester_start s) (max_packet_size s) (buffer s) (fds s) (sysno s) (wire s).

Definition set_traces (v : gmap positive (list trace_entry)) (s : rude) : rude :=
  Rude (heap s) v (fresh s) (head s) (done s) (tester_start s) (max_packet_size s) (buffer s) (fds s) (sysno s) (wire s).

Definition set_fresh (v : positive) (s : rude) : rude :=
  Rude (heap s) (traces s) v (head s) (done s) (tester_start s) (max_packet_size s) (buffer s) (fds s) (sysno s) (wire s).

Definition set_head (v : ptr) (s : rude) : rude :=
  Rude (heap s) (traces s) (fresh s) v (done s) (tester_start s) (max_packet_size s) (buffer s) (fds s) (sysno s) (wire s).

Definition set_done (v : ptr) (s : rude) : rude :=
  Rude (heap s) (traces s) (fresh s) (head s) v (tester_start s) (max_packet_size s) (buffer s) (fds s) (sysno s) (wire s).

Definition set_tester_start (v : timeval) (s : rude) : rude :=
  Rude (heap s) (traces s) (fresh s) (head s) (done s) v (max_packet_size s) (buffer s) (fds s) (sysno s) (wire s).

Definition set_max_packet_size (v : Z) (s : rude) : rude :=
  Rude (heap s) (traces s) (fresh s) (head s) (done s) (tester_start s) v (buffer s) (fds s) (sysno s) (wire s).

Definition set_buffer (v : option (list Z)) (s : rude) : rude :=
  Rude (heap s) (traces s) (fresh s) (head s) (done s) (tester_start s) (max_packet_size s) v (fds s) (sysno s) (wire s).

Definition set_fds (v : gset Z) (s : rude) : rude :=
  Rude (heap s) (traces s) (fresh s) (head s) (done s) (tester_start s) (max_packet_size s) (buffer s) v (sysno s) (wire s).

Definition set_sysno (v : nat) (s : rude) : rude :=
  Rude (heap s) (traces s) (fresh s) (head s) (done s) (tester_start s) (max_packet_size s) (buffer s) (fds s) v (wire s).

Definition set_wire (v : list datagram) (s : rude) : rude :=
  Rude (heap s) (traces s) (fresh s) (head s) (done s) (tester_start s) (max_packet_size s) (buffer s) (fds s) (sysno s) v.

Definition rude_init : rude :=
  Rude ∅ ∅ 1%positive None None (Timeval 0 0) 0 None ∅ 0 [].

(** A file [fopen] can open: its contents, and whether reading it fails. *)
Record file := File { contents : string; read_fails : bool }.

(** [localtime]: hour, minute, second. *)
Record tm := Tm { tm_hour : Z; tm_min : Z; tm_sec : Z }.

(** The environment: the answer to the call numbered [n]. *)
Class Env := {
  env_time : nat -> timeval;            (* gettimeofday *)
  env_localtime : nat -> tm;            (* localtime(time(NULL)) *)
  env_malloc : nat -> bool;             (* does malloc succeed *)
  env_ret : nat -> Z;                   (* socket, bind, fcntl, setsockopt, sendto *)
  gethostbyname : string -> option Z;   (* h_addr_list[0], network byte order *)
  fopen : string -> option file
}.

(** ** Primitive operations *)

Section Primitives.
Context `{Env}.

(** The number of the next call. *)
Definition syscall : M rude nat :=
  n ← gets sysno; modify (set_sysno (S n));; mret n.

Definition gettimeofday : M rude timeval := n ← syscall; mret (env_time n).

Definition sys_ret : M rude Z := n ← syscall; mret (env_ret n).

(** [p->...] *)
Definition load (p : ptr) : M rude flow_cfg := fun s =>
  match p with
  | None => Fault
  | Some l => match heap s !! l with Some c => Ret (c, s) | None => Fault end
  end.

Definition store (p : ptr) (c : flow_cfg) : M rude unit := fun s =>
  match p with
  | None => Fault
  | Some l =>
    match heap s !! l with
    | Some _ => Ret (tt, set_heap (<[l := c]> (heap s)) s)
    | None => Fault
    end
  end.

(** [p->field = v], with [f] the update of the field. *)
Definition assign (p : ptr) (f : flow_cfg -> flow_cfg) : M rude unit :=
  c ← load p; store p (f c).

(** [malloc(sizeof(struct flow_cfg))] followed by the [memset] to zero. *)
Definition malloc_flow : M rude ptr :=
  n ← syscall;
  if env_malloc n then
    l ← gets fresh;
    modify (fun s => set_fresh (Pos.succ l) (set_heap (<[l := zero_flow]> (heap s)) s));;
    mret (Some l)
  else mret None.

Definition free_flow (p : ptr) : M rude unit := fun s =>
  match p with
  | None => Ret (tt, s)
  | Some l =>
    match heap s !! l with
    | Some _ => Ret (tt, set_heap (delete l (heap s)) s)
    | None => Fault
    end
  end.

(** [malloc] of [n] trace entries followed by the [memset] to zero. *)
Definition malloc_trace (n : nat) : M rude ptr :=
  k ← syscall;
  if env_malloc k then
    l ← gets fresh;
    modify (fun s => set_fresh (Pos.succ l)
      (set_traces (<[l := replicate n (Trace_entry 0 (Timeval 0 0))]> (traces s)) s));;
    mret (Some l)
  else mret None.

Definition free_trace (p : ptr) : M rude unit := fun s =>
  match p with
  | None => Ret (tt, s)
  | Some l =>
    match traces s !! l with
    | Some _ => Ret (tt, set_traces (delete l (traces s)) s)
    | None => Fault
    end
  end.

Definition close_fd (fd : Z) : M rude unit :=
  modify (fun s => set_fds (fds s ∖ {[fd]}) s).

(** Enough fuel for a walk over every block of the heap. *)
Definition heap_fuel : M rude nat := gets (fun s => S (size (heap s))).

End Primitives.

(** ** Rules for the primitives *)

Section Rules.
Context `{Env}.

Lemma wp_load l c Q s : heap s !! l = Some c -> wp (load (Some l)) Q s <-> Q c s.
Proof. intros E. unfold wp, load. by rewrite E. Qed.

Lemma wp_assign l c f Q s :
  heap s !! l = Some c ->
  wp (assign (Some l) f) Q s <-> Q tt (set_heap (<[l := f c]> (heap s)) s).
Proof.
  intros E. unfold assign. rewrite wp_bind, (wp_load _ c) by done.
  unfold wp, store. by rewrite E.
Qed.

Lemma wp_free_flow l c Q s :
  heap s !! l = Some c ->
  wp (free_flow (Some l)) Q s <-> Q tt (set_heap (delete l (heap s)) s).
Proof. intros E. unfold wp, free_flow. by rewrite E. Qed.

Lemma wp_gettimeofday Q s :
  wp gettimeofday Q s <-> Q (env_time (sysno s)) (set_sysno (S (sysno s)) s).
Proof. done. Qed.

Lemma wp_heap_fuel Q s : wp heap_fuel Q s <-> Q (S (size (heap s))) s.
Proof. done. Qed.

Lemma wp_close_fd fd Q s : wp (close_fd fd) Q s <-> Q tt (set_fds (fds s ∖ {[fd]}) s).
Proof. done. Qed.
End Rules.

#[export] Hint Rewrite @wp_gettimeofday @wp_heap_fuel @wp_close_fd : wp.

(** ** A process for the examples

    Flow 7 with two CBR blocks, and flow 9 with one TRACE block, on a clock that
    advances by one second per reading. *)

Definition demo_env : Env := {|
  env_time := fun n => Timeval (Z.of_nat n) 0;
  env_localtime := fun _ => Tm 12 30 0;
  env_malloc := fun _ => true;
  env_ret := fun _ => 0;
  gethostbyname := fun _ => Some 16777343;
  fopen := fun _ => None
|}.

Definition demo_cfg (nx md : ptr) (id : Z) (sock : Z) (stop next_tx : timeval)
  (f : tx_function) (p : flow_params) : flow_cfg :=
  Flow_cfg nx md (Sockaddr_in 2 4391 16777343) sock id 3001 (Timeval 0 0) stop next_tx
    f 0 0 0 (-1) p.

Definition demo_a : flow_cfg :=
  demo_cfg (Some 3%positive) (Some 2%positive) 7 4 (Timeval 0 1) (Timeval 0 0)
    Send_cbr (PCbr (Cbr_params 500 40)).
Definition demo_b : flow_cfg :=
  demo_cfg None None 7 0 (Timeval 5 0) (Timeval 0 1) Send_cbr (PCbr (Cbr_params 3 64)).
Definition demo_c : flow_cfg :=
  demo_cfg None None 9 5 (Timeval 4 0) (Timeval 0 2)
    Send_trace (PTrace (Trace_params 64 2 0 (Some 4%positive))).

Definition demo_trace : list trace_entry :=
  [Trace_entry 48 (Timeval 0 250000); Trace_entry 64 (Timeval 1 0)].

(** Started at clock reading [n]. *)
Definition demo_state (n : nat) : rude :=
  Rude {[ 1%positive := demo_a; 2%positive := demo_b; 3%positive := demo_c ]}
    {[ 4%positive := demo_trace ]} 5 (Some 1%positive) None (Timeval 0 0) 64
    (Some (replicate 64 0)) {[ 4; 5 ]} n [].
