(* ===== verification/RudeParse.v ===== *)
(** parse.c: the configuration parser of rude, which builds the flow lists. *)
From Stdlib Require Import ZArith Lia Ascii String.
From stdpp Require Import base numbers list gmap strings.
From S2P Require Import Prelude CStdio Timeval RudeState.

#[local] Open Scope string_scope.
#[local] Open Scope Z_scope.

Section Parse.
Context `{Env}.

(** ** find_flow_id *)

Fixpoint find_flow_from (fuel : nat) (temp : ptr) (id : Z) : M rude ptr :=
  match temp with
  | None => mret None
  | Some _ =>
    match fuel with
    | O => diverge
    | S fuel =>
      c ← load temp;
      if flow_id c =? id then mret temp else find_flow_from fuel (next c) id
    end
  end.

Definition find_flow_id (id : Z) : M rude ptr :=
  fuel ← heap_fuel; h ← gets head; find_flow_from fuel h id.

(** ** check_type *)

Definition check_type (type : string) : f_type :=
  if strncasecmp0 type "CBR" 3 then CBR
  else if strncasecmp0 type "CONSTANT" 8 then CBR
  else if strncasecmp0 type "TRACE" 5 then TRACE
  else UNKNOWN.

(** ** check_dst

    The result code and, on success, what was written to [*f_dst]. The name is
    copied to [char dname[DNMAXLEN]]: a longer one is a fault. *)

Definition AF_INET : Z := 2.

Definition check_dst (dst : string) : M rude (Z * option sockaddr_in) :=
  match strrchr dst ":" with
  | None => mret (-2, None)
  | Some k =>
    let dnamelen := Z.of_nat k in
    if (dnamelen <? 1) && (DNMAXLEN - 2 <? dnamelen) then mret (-2, None)
    else if DNMAXLEN <=? dnamelen then fault
    else
      match sscanf (str_drop k dst) ":%hu" with
      | [VInt dport] =>
        match gethostbyname (str_take k dst) with
        | None => mret (-3, None)
        | Some addr => mret (0, Some (Sockaddr_in AF_INET (htons dport) addr))
        end
      | _ => mret (-2, None)
      end
  end.

(** ** trace_parse *)

(** The loop that counts the lines of the trace file (lines 198 to 207): a last
    line with no newline hits the end of the file and is not counted. *)
Fixpoint count_lines (fuel : nat) (s : string) (l_size : Z) : res Z :=
  match fuel with
  | O => Diverge
  | S fuel =>
    let '(_, rest, eof) := fgets 255 s in
    if eof then Ret l_size else count_lines fuel rest (u32 (l_size + 1))
  end.

(** The loop that fills in the missing zeros of the fraction (lines 238 to 240). *)
Fixpoint pad_zeros (n : nat) (s : string) : string :=
  match n with
  | O => s
  | S n => match s with
           | "" => String "0" (pad_zeros n "")
           | String c s' => String c (pad_zeros n s')
           end
  end.

(** [par->list[i] = e] *)
Definition store_trace (p : ptr) (i : nat) (e : trace_entry) : M rude unit := fun s =>
  match p with
  | None => Fault
  | Some l =>
    match traces s !! l with
    | Some es =>
      if (i <? length es)%nat then Ret (tt, set_traces (<[l := <[i := e]> es]> (traces s)) s)
      else Fault
    | None => Fault
    end
  end.

(** Lines 223 to 227 and its two copies: give up on the trace. *)
Definition drop_trace (par : trace_params) : M rude (trace_params * Z) :=
  free_trace (tlist par);;
  mret (Trace_params (max_psize par) (list_size par) (list_index par) None, 0).

(** The loop over the lines (lines 220 to 258), with [n] lines to go: the
    parameters and the final [l_size]. *)
Fixpoint trace_loop (n i : nat) (l_size : Z) (s : string) (par : trace_params)
  : M rude (trace_params * Z) :=
  match n with
  | O => mret (par, l_size)
  | S n =>
    let '(target, rest, _) := fgets 255 s in
    match target with
    | "" => drop_trace par
    | _ =>
      match sscanf (cstr target) "%d %ld.%6[0-9] " with
      | [VInt p_size; VInt time1; VStr time2_array] =>
        let time2 := (strtoul10 (pad_zeros 6 time2_array)).1 in
        if (p_size <? PMINSIZE) || (PMAXSIZE <? p_size) || (time1 <? 0) || (time2 <? 0)
        then drop_trace par
        else
          store_trace (tlist par) i (Trace_entry p_size (Timeval time1 time2));;
          trace_loop n (S i) l_size rest
            (if max_psize par <? p_size
             then Trace_params p_size (list_size par) (list_index par) (tlist par)
             else par)
      | _ => drop_trace par
      end
    end
  end.

Definition trace_parse (buffer : string) (par : trace_params) : M rude trace_params :=
  match sscanf buffer "%*d %*d %*10s %*u %*127s %*31s %250s" with
  | [VStr target] =>
    match fopen target with
    | None => mret par
    | Some f =>
      if read_fails f then mret par
      else
        match count_lines (S (String.length (contents f))) (contents f) 0 with
        | Ret l_size =>
          l ← malloc_trace (Z.to_nat l_size);
          match l with
          | None => mret (Trace_params (max_psize par) (list_size par) (list_index par) None)
          | Some _ =>
            let par0 := Trace_params (max_psize par) (list_size par) (list_index par) l in
            '(par1, l_size1) ← trace_loop (Z.to_nat l_size) 0 l_size (contents f) par0;
            mret (Trace_params (max_psize par1) l_size1 (list_index par1) (tlist par1))
          end
        | Fault => fault
        | Diverge => diverge
        end
    end
  | _ => mret par
  end.

(** ** flow_on *)

(** [while(temp->next != NULL){ temp = temp->next; }] *)
Fixpoint last_next (fuel : nat) (temp : ptr) : M rude ptr :=
  match fuel with
  | O => diverge
  | S fuel =>
    c ← load temp;
    match next c with
    | None => mret temp
    | Some _ => last_next fuel (next c)
    end
  end.

(** Add the flow to the list pointed by [head] (lines 352 to 357). *)
Definition append_flow (new : ptr) : M rude unit :=
  h ← gets head;
  match h with
  | None => modify (set_head new)
  | Some _ =>
    fuel ← heap_fuel;
    temp ← last_next fuel h;
    assign temp (set_next new)
  end.

(** [stime], the START and the first transmission time (lines 304 to 307). *)
Definition set_times (new : ptr) (time : Z) : M rude unit :=
  ts ← gets tester_start;
  let start := timeradd (of_millis time) ts in
  assign new (fun c => set_next_tx start (set_flow_start start c)).

Definition flow_on (buffer : string) : M rude Z :=
  match sscanf buffer "%ld %ld %*10s %hu %127s %31s %*s" with
  | [VInt time; VInt id; VInt sport; VStr dst; VStr type] =>
    new ← malloc_flow;
    match new with
    | None => mret (-2)
    | Some _ =>
      assign new (set_tos (-1));;
      '(rc, addr) ←
        (if (time <? 0) || (sport <? 1024) || (match check_type type with UNKNOWN => true | _ => false end)
         then mret (-1, None) else check_dst dst);
      match rc, addr with
      | 0, Some addr =>
        assign new (set_dst addr);;
        set_times new time;;
        match check_type type with
        | CBR =>
          match sscanf buffer "%*d %*d %*10s %*u %*127s %*31s %ld %ld" with
          | [VInt r; VInt sz] =>
            if (r <? 0) || (sz <? PMINSIZE) || (PMAXSIZE <? sz)
            then free_flow new;; mret (-4)
            else
              assign new (fun c =>
                set_params (PCbr (Cbr_params (i32 r) (i32 sz)))
                  (set_send_func Send_cbr (set_flow_sport sport (set_flow_id id c))));;
              append_flow new;; mret 0
          | _ => free_flow new;; mret (-4)
          end
        | TRACE =>
          assign new (fun c =>
            set_send_func Send_trace (set_flow_sport sport (set_flow_id id c)));;
          par ← trace_parse buffer (Trace_params 0 0 0 None);
          assign new (set_params (PTrace par));;
          if list_size par =? 0 then free_flow new;; mret (-4)
          else append_flow new;; mret 0
        | UNKNOWN => free_flow new;; mret (-5)
        end
      | _, _ => free_flow new;; mret (-3)
      end
    end
  | _ => mret (-1)
  end.

(** ** flow_off *)

(** [while(temp->mod_flow != NULL){ temp = temp->mod_flow; }] *)
Fixpoint last_mod (fuel : nat) (temp : ptr) : M rude ptr :=
  match fuel with
  | O => diverge
  | S fuel =>
    c ← load temp;
    match mod_flow c with
    | None => mret temp
    | Some _ => last_mod fuel (mod_flow c)
    end
  end.

Definition stop_set (c : flow_cfg) : bool :=
  negb (tv_sec (flow_stop c) =? 0) || negb (tv_usec (flow_stop c) =? 0).

Definition flow_off (target : ptr) (time : Z) : M rude Z :=
  fuel ← heap_fuel;
  temp ← last_mod fuel target;
  c ← load temp;
  if stop_set c then mret (-1)
  else
    ts ← gets tester_start;
    let stop := timeradd (of_millis time) ts in
    assign temp (set_flow_stop stop);;
    c' ← load temp;
    if timercmp_lt (flow_stop c') (flow_start c')
    then assign temp (set_flow_stop (flow_start c'));; mret (-2)
    else mret 0.

(** ** flow_modify *)

Definition flow_modify (target : ptr) (buffer : string) : M rude Z :=
  match sscanf buffer "%ld %*d %*10s %31s %*s" with
  | [VInt time; VStr type] =>
    if (time <? 0) || (match check_type type with UNKNOWN => true | _ => false end)
    then mret (-2)
    else
      modf ← malloc_flow;
      match modf with
      | None => mret (-3)
      | Some _ =>
        fuel ← heap_fuel;
        temp ← last_mod fuel target;
        rc ← flow_off temp time;
        if rc <? 0 then free_flow modf;; mret (-4)
        else
          set_times modf time;;
          match check_type type with
          | CBR =>
            match sscanf buffer "%*d %*d %*10s %*31s %ld %ld" with
            | [VInt r; VInt sz] =>
              if (r <? 0) || (sz <? PMINSIZE) || (PMAXSIZE <? sz)
              then free_flow modf;; mret (-4)
              else
                c ← load temp;
                assign modf (fun m =>
                  set_params (PCbr (Cbr_params (i32 r) (i32 sz)))
                    (set_send_func Send_cbr
                      (set_flow_sport (flow_sport c)
                        (set_dst (dst c) (set_flow_id (flow_id c) m)))));;
                assign temp (set_mod_flow modf);;
                mret 0
            | _ => free_flow modf;; mret (-4)
            end
          | _ => free_flow modf;; mret (-5)
          end
      end
  | _ => mret (-1)
  end.

(** ** start_time *)

(** The seconds from the current time of day to [h:m:s] (lines 503 to 519). *)
Definition start_delay (h m s : Z) (now : tm) : Z :=
  let '(m, t1) :=
    if s <? tm_sec now then (m - 1, s + 60 - tm_sec now) else (m, s - tm_sec now) in
  let '(h, t2) :=
    if m <? tm_min now then (h - 1, (m + 60 - tm_min now) * 60)
    else (h, (m - tm_min now) * 60) in
  let t3 :=
    if h <? tm_hour now then (h + 24 - tm_hour now) * 3600
    else (h - tm_hour now) * 3600 in
  t1 + t2 + t3.

Definition start_time (h m s : Z) : M rude Z :=
  if (h <? 0) || (23 <? h) || (m <? 0) || (59 <? m) || (s <? 0) || (59 <? s)
  then mret (-1)
  else
    n ← syscall;
    now ← gettimeofday;
    modify (set_tester_start
      (Timeval (tv_sec now + start_delay h m s (env_localtime n)) (tv_usec now)));;
    mret 0.

(** ** read_cfg *)

(** Its local counters. *)
Record cfg := Cfg { cfg_errors : Z; commands : Z; start_set : bool }.

Definition cfg_error (k : cfg) : cfg := Cfg (cfg_errors k - 1) (commands k) (start_set k).
Definition cfg_ok (k : cfg) : cfg := Cfg (cfg_errors k) (commands k + 1) (start_set k).
Definition cfg_start (k : cfg) : cfg := Cfg (cfg_errors k) (commands k + 1) true.

Definition count_rc (rc : Z) (k : cfg) : cfg := if rc <? 0 then cfg_error k else cfg_ok k.

(** The TOS clause (lines 588 to 605). *)
Definition read_tos (buffer : string) (k : cfg) : M rude cfg :=
  match sscanf buffer "%*3s %ld %i" with
  | [VInt id; VInt t] =>
    temp ← find_flow_id id;
    match temp with
    | None => mret (cfg_error k)
    | Some _ =>
      if (t <? 0) || (255 <? t) then mret (cfg_error k)
      else assign temp (set_tos t);; mret k
    end
  | _ => mret (cfg_error k)
  end.

(** The flow commands (lines 607 to 634). *)
Definition read_command (buffer : string) (k : cfg) : M rude cfg :=
  match sscanf buffer "%ld %ld %10s" with
  | [VInt time; VInt id; VStr cmd] =>
    if time <? 0 then mret (cfg_error k)
    else
      temp ← find_flow_id id;
      let null := match temp with None => true | Some _ => false end in
      if strncasecmp0 cmd "ON" 2 && null
      then rc ← flow_on buffer; mret (count_rc rc k)
      else if strncasecmp0 cmd "OFF" 3 && negb null
      then rc ← flow_off temp time; mret (count_rc rc k)
      else if strncasecmp0 cmd "MODIFY" 6 && negb null
      then rc ← flow_modify temp buffer; mret (count_rc rc k)
      else mret (cfg_error k)
  | _ => mret (cfg_error k)
  end.

(** [buffer[0] == c] *)
Definition first_is (buffer : string) (c : ascii) : bool :=
  match buffer with String x _ => ceq x c | "" => false end.

(** The body of the loop over the lines (lines 547 to 640). *)
Definition read_line_cmd (buffer : string) (k : cfg) : M rude cfg :=
  if first_is buffer "#" || first_is buffer newline
  then mret (cfg_ok k)
  else if strncasecmp0 buffer "START NOW" 9 then
    if start_set k then mret (cfg_error k)
    else now ← gettimeofday; modify (set_tester_start now);; mret (cfg_start k)
  else if strncasecmp0 buffer "START" 5 then
    match sscanf buffer "%*5s %ld:%ld:%ld", start_set k with
    | [VInt h; VInt m; VInt s], false =>
      rc ← start_time h m s;
      mret (if rc =? 0 then cfg_start k else cfg_error k)
    | _, _ => mret (cfg_error k)
    end
  else if start_set k then
    if strncasecmp0 buffer "TOS" 3 then read_tos buffer k else read_command buffer k
  else mret (cfg_error k).

Fixpoint read_lines (fuel : nat) (infile : string) (k : cfg) : M rude cfg :=
  match fuel with
  | O => diverge
  | S fuel =>
    let '(buffer, rest, _) := fgets 1023 infile in
    match buffer with
    | "" => mret k
    | _ => k' ← read_line_cmd (cstr buffer) k; read_lines fuel rest k'
    end
  end.

(** The final check of one block (lines 646 to 673). *)
Definition check_block (temp : ptr) (k : cfg) : M rude cfg :=
  c ← load temp;
  let k := if stop_set c then k else cfg_error k in
  mps ← gets max_packet_size;
  match params c with
  | PCbr p =>
    (if mps <? psize p then modify (set_max_packet_size (psize p)) else mret tt);;
    (if rate p =? 0
     then assign temp (set_next_tx (Timeval (tv_sec (flow_stop c) + 1) (tv_usec (flow_stop c))))
     else mret tt);;
    mret k
  | PTrace p =>
    (if mps <? max_psize p then modify (set_max_packet_size (max_psize p)) else mret tt);;
    mret k
  | PNone => mret (cfg_error k)
  end.

(** The walk over all blocks (lines 645 to 680). *)
Fixpoint check_blocks (fuel : nat) (temp tmp : ptr) (k : cfg) : M rude cfg :=
  match temp with
  | None => mret k
  | Some _ =>
    match fuel with
    | O => diverge
    | S fuel =>
      k ← check_block temp k;
      c ← load temp;
      match mod_flow c with
      | Some _ => check_blocks fuel (mod_flow c) tmp k
      | None => t ← load tmp; check_blocks fuel (next t) (next t) k
      end
    end
  end.

Definition read_cfg (infile : string) : M rude Z :=
  k ← read_lines (S (String.length infile)) infile (Cfg 0 0 false);
  fuel ← heap_fuel;
  h ← gets head;
  k ← check_blocks fuel h h k;
  mret (if cfg_errors k =? 0 then commands k else cfg_errors k).

End Parse.
