(* ===== verification/RudeLists.v ===== *)
(** The abstract view of the action blocks: a list of flows, each the list of
    its blocks that are still to run, and the list of the blocks that are done.
    [rep] says that the heap holds such a view; the pointer code of
    flow_cntl.c refines the functions on it. *)
From Stdlib Require Import ZArith Lia.
From stdpp Require Import base numbers list gmap.
From S2P Require Import Prelude Timeval RudeState RudeFlow.

#[local] Open Scope Z_scope.

(** ** The view *)

(** A block without its links. *)
Definition body (c : flow_cfg) : flow_cfg := set_next None (set_mod_flow None c).

Abbreviation block := (positive * flow_cfg)%type.

Record view := View {
  flows : list (list block);
  finished : list block;
  sockets : gset Z
}.

(** The blocks linked through [mod_flow] from [p] up to [q]. *)
Fixpoint mods (h : gmap positive flow_cfg) (p : ptr) (bs : list block) (q : ptr) : Prop :=
  match bs with
  | [] => p = q
  | (l, b) :: bs =>
    p = Some l /\ exists c, h !! l = Some c /\ body c = b /\ mods h (mod_flow c) bs q
  end.

Abbreviation chain h p bs := (mods h p bs None).

(** The flows linked through [next] from [p] up to [q]. *)
Fixpoint active (h : gmap positive flow_cfg) (p : ptr) (fs : list (list block)) (q : ptr)
  : Prop :=
  match fs with
  | [] => p = q
  | f :: fs =>
    exists l c, p = Some l /\ h !! l = Some c /\ chain h p f /\ active h (next c) fs q
  end.

(** The blocks linked through [next] from [p] on. *)
Fixpoint passive (h : gmap positive flow_cfg) (p : ptr) (bs : list block) : Prop :=
  match bs with
  | [] => p = None
  | (l, b) :: bs =>
    p = Some l /\ exists c, h !! l = Some c /\ body c = b /\ passive h (next c) bs
  end.

Definition blocks (a : view) : list block := concat (flows a) ++ finished a.

Definition rep (s : rude) (a : view) : Prop :=
  active (heap s) (head s) (flows a) None /\
  passive (heap s) (done s) (finished a) /\
  NoDup (blocks a).*1 /\
  fds s = sockets a.

(** ** The specification of find_next *)

Definition inherit (b c : flow_cfg) : flow_cfg :=
  set_send_sock (send_sock b) (set_sequence_nmbr (sequence_nmbr b) c).

Definition close_sock (b : flow_cfg) (fd : gset Z) : gset Z :=
  if 0 <? send_sock b then fd ∖ {[send_sock b]} else fd.

(** Drop the expired blocks at the front of a flow. *)
Fixpoint settle (now : timeval) (l : positive) (b : flow_cfg) (rest ds : list block)
  (fd : gset Z) : list block * list block * gset Z :=
  if expired now b then
    match rest with
    | [] => ([], (l, set_send_sock 0 b) :: ds, close_sock b fd)
    | (l2, b2) :: rest => settle now l2 (inherit b b2) rest ((l, b) :: ds) fd
    end
  else ((l, b) :: rest, ds, fd).

(** The earlier of two blocks, the first one on a tie. *)
Definition pick (t : option block) (x : block) : option block :=
  match t with
  | None => Some x
  | Some y => if timercmp_lt (next_tx x.2) (next_tx y.2) then Some x else Some y
  end.

Fixpoint scan_flows (now : timeval) (fs : list (list block)) (ds : list block)
  (fd : gset Z) (t : option block)
  : list (list block) * list block * gset Z * option block :=
  match fs with
  | [] => ([], ds, fd, t)
  | [] :: fs => scan_flows now fs ds fd t
  | ((l, b) :: rest) :: fs =>
    let '(f, ds, fd) := settle now l b rest ds fd in
    match f with
    | [] => scan_flows now fs ds fd t
    | x :: _ =>
      let '(fs, ds, fd, t) := scan_flows now fs ds fd (pick t x) in (f :: fs, ds, fd, t)
    end
  end.

Definition spec_find_next (now : timeval) (a : view) : option block * view :=
  let '(fs, ds, fd, t) := scan_flows now (flows a) (finished a) (sockets a) None in
  (t, View fs ds fd).

(** ** The links under heap updates *)

Section Links.
Implicit Types (h : gmap positive flow_cfg).

Lemma mods_ext h h' p bs q :
  (forall l, l ∈ bs.*1 -> h' !! l = h !! l) -> mods h p bs q -> mods h' p bs q.
Proof.
  revert p. induction bs as [|[l b] bs IH]; simpl; intros p E; [done|].
  intros (-> & c & Hl & Hb & Hc). split; [done|]. exists c.
  split_and!; [by rewrite E by constructor|done|].
  apply IH; [|done]. intros. apply E. by constructor.
Qed.

Lemma passive_ext h h' p bs :
  (forall l, l ∈ bs.*1 -> h' !! l = h !! l) -> passive h p bs -> passive h' p bs.
Proof.
  revert p. induction bs as [|[l b] bs IH]; simpl; intros p E; [done|].
  intros (-> & c & Hl & Hb & Hc). split; [done|]. exists c.
  split_and!; [by rewrite E by constructor|done|].
  apply IH; [|done]. intros. apply E. by constructor.
Qed.

Lemma mods_app h p bs1 bs2 q :
  mods h p (bs1 ++ bs2) q <-> exists r, mods h p bs1 r /\ mods h r bs2 q.
Proof.
  revert p. induction bs1 as [|[l b] bs1 IH]; simpl; intros p.
  - split; [by eauto|]. intros (r & -> & Hr). done.
  - setoid_rewrite IH. split.
    + intros (-> & c & Hl & Hb & r & H1 & H2). exists r. eauto 10.
    + intros (r & (-> & c & Hl & Hb & H1) & H2). eauto 10.
Qed.

Lemma chain_cons_inv h l f :
  chain h (Some l) f -> exists b rest, f = (l, b) :: rest.
Proof. destruct f as [|[l' b] rest]; simpl; [done|]. intros ([= ->] & _). eauto. Qed.

Lemma active_ext h h' p fs q :
  (forall l, l ∈ (concat fs).*1 -> h' !! l = h !! l) ->
  active h p fs q -> active h' p fs q.
Proof.
  revert p. induction fs as [|f fs IH]; simpl; intros p E; [done|].
  rewrite fmap_app in E. setoid_rewrite elem_of_app in E.
  intros (l & c & -> & Hl & Hf & Ha). exists l, c. split_and!; [done| | |].
  - destruct (chain_cons_inv _ _ _ Hf) as (b & rest & ->).
    rewrite E; [done|]. left. by constructor.
  - eapply mods_ext; [|done]. eauto.
  - eauto.
Qed.

Lemma active_app h p fs1 fs2 q :
  active h p (fs1 ++ fs2) q <-> exists r, active h p fs1 r /\ active h r fs2 q.
Proof.
  revert p. induction fs1 as [|f fs1 IH]; simpl; intros p.
  - split; [by eauto|]. intros (r & -> & Hr). done.
  - setoid_rewrite IH. split.
    + intros (l & c & -> & Hl & Hf & r & H1 & H2). exists r. eauto 10.
    + intros (r & (l & c & -> & Hl & Hf & H1) & H2). eauto 10.
Qed.

(** The location of the last flow, [NULL] for none. *)
Definition last_loc (fs : list (list block)) : ptr :=
  f ← last fs; x ← hd_error f; Some x.1.

Lemma last_loc_elem fs l : last_loc fs = Some l -> l ∈ (concat fs).*1.
Proof.
  unfold last_loc. destruct (last fs) as [f|] eqn:E; simpl; [|done].
  destruct f as [|x f]; simpl; [done|]. intros [= <-].
  apply last_Some in E as [gs ->]. rewrite concat_app, fmap_app.
  apply elem_of_app. right. by constructor.
Qed.

(** Redirecting the last link of a part of the list. *)
Lemma active_redirect h p fs r r' l :
  last_loc fs = Some l -> NoDup (concat fs).*1 -> active h p fs r ->
  exists c, h !! l = Some c /\ next c = r /\ active (<[l := set_next r' c]> h) p fs r'.
Proof.
  revert p. induction fs as [|f fs IH]; simpl; intros p; [done|].
  rewrite fmap_app. intros Hlast (Hf & Hd & Hfs)%NoDup_app (k & ck & -> & Hk & Hc & Ha).
  destruct (chain_cons_inv _ _ _ Hc) as (b & rest & ->).
  destruct fs as [|f2 fs].
  - injection Hlast as <-. simpl in Ha. exists ck. split_and!; [done..|].
    exists k, (set_next r' ck). rewrite lookup_insert_eq. split_and!; [done..| |done].
    simpl in Hc |- *. destruct Hc as (_ & c & Hk' & <- & Hrest).
    rewrite Hk in Hk'. injection Hk' as <-. split; [done|].
    exists (set_next r' ck). rewrite lookup_insert_eq. split_and!; [done..|].
    eapply mods_ext; [|done]. intros x Hx. apply lookup_insert_ne.
    simpl in Hf. apply NoDup_cons in Hf as [Hf _]. intros ->. done.
  - destruct (IH (next ck)) as (c & Hl & Hn & Hrest); [done..|].
    pose proof (last_loc_elem (f2 :: fs) l Hlast) as Hin.
    assert (Hne : forall x, x ∈ ((k, b) :: rest).*1 -> x <> l).
    { intros x Hx ->. by apply (Hd l). }
    exists c. split_and!; [done..|]. exists k, ck. split_and!; [done| | |done].
    + rewrite lookup_insert_ne; [done|]. intros E. apply (Hne k); [by constructor|done].
    + eapply mods_ext; [|done]. intros x Hx. apply lookup_insert_ne.
      intros E. by apply (Hne x).
Qed.

End Links.

(** A change to one cell that is off the given lists. *)
Ltac other_cells :=
  match goal with
  | H : active ?h ?p ?fs ?q |- active _ ?p ?fs ?q => apply (active_ext h); [|exact H]
  | H : passive ?h ?p ?bs |- passive _ ?p ?bs => apply (passive_ext h); [|exact H]
  | H : mods ?h ?p ?bs ?q |- mods _ ?p ?bs ?q => apply (mods_ext h); [|exact H]
  end; let x := fresh in
  intros x ?; rewrite ?lookup_delete_ne, ?lookup_insert_ne by set_solver; reflexivity.

(** A change to a block that keeps its links. *)
Lemma rep_update s pre bs1 l b bs2 suf ds fd c c' :
  rep s (View (pre ++ (bs1 ++ (l, b) :: bs2) :: suf) ds fd) ->
  heap s !! l = Some c -> next c' = next c -> mod_flow c' = mod_flow c ->
  rep (set_heap (<[l := c']> (heap s)) s)
    (View (pre ++ (bs1 ++ (l, body c') :: bs2) :: suf) ds fd).
Proof.
  intros (Ha & Hp & Hnd & Hfd) Hl En Em. cbn [flows finished sockets] in *.
  assert (Hnd' := Hnd). unfold blocks in Hnd. cbn [flows finished] in Hnd.
  rewrite concat_app in Hnd. cbn [concat] in Hnd. rewrite !fmap_app in Hnd. simpl in Hnd.
  assert (NoDup (l :: (concat pre).*1 ++ bs1.*1 ++ bs2.*1 ++ (concat suf).*1 ++ ds.*1)) as
    [Hnl _]%NoDup_cons.
  { revert Hnd. apply NoDup_Permutation_proper. solve_Permutation. }
  clear Hnd. apply active_app in Ha as (r & Hpre & (k & ck & -> & Hk & Hf & Hsuf)).
  apply mods_app in Hf as (r & H1 & H2). simpl in H2. destruct H2 as (-> & c0 & Hl0 & Hb & H2).
  rewrite Hl in Hl0. injection Hl0 as <-.
  assert (Hf' : mods (<[l := c']> (heap s)) (Some k) (bs1 ++ (l, body c') :: bs2) None).
  { apply mods_app. exists (Some l). split; [other_cells|]. split; [done|].
    exists c'. rewrite lookup_insert_eq, Em. split_and!; [done..|other_cells]. }
  split_and!; cbn [flows finished sockets heap head done fds set_heap].
  - apply active_app. exists (Some k). split; [other_cells|].
    destruct (decide (k = l)) as [->|Hne].
    + rewrite Hl in Hk. injection Hk as <-. exists l, c'. rewrite lookup_insert_eq, En.
      split_and!; [done..|other_cells].
    + exists k, ck. rewrite lookup_insert_ne by done. split_and!; [done..|other_cells].
  - other_cells.
  - unfold blocks in Hnd' |- *. cbn [flows finished] in Hnd' |- *.
    rewrite concat_app in Hnd' |- *. cbn [concat] in Hnd' |- *.
    rewrite !fmap_app in Hnd' |- *. exact Hnd'.
  - done.
Qed.

(** ** remove_flow *)

(** What the operations on the lists leave alone. *)
Definition frame (s s' : rude) : Prop :=
  dom (heap s') = dom (heap s) /\ traces s' = traces s /\ fresh s' = fresh s /\
  tester_start s' = tester_start s /\ max_packet_size s' = max_packet_size s /\
  buffer s' = buffer s /\ sysno s' = sysno s /\ wire s' = wire s.

Lemma frame_refl s : frame s s.
Proof. done. Qed.

Lemma frame_trans s1 s2 s3 : frame s1 s2 -> frame s2 s3 -> frame s1 s3.
Proof. unfold frame. intuition congruence. Qed.

(** Retiring the front block of the flow between [pre] and [suf]. *)
Definition retire (pre : list (list block)) (l : positive) (b : flow_cfg)
  (rest : list block) (suf : list (list block)) (ds : list block) (fd : gset Z) : view :=
  match rest with
  | [] => View (pre ++ suf) ((l, set_send_sock 0 b) :: ds) (close_sock b fd)
  | (l2, b2) :: rest => View (pre ++ ((l2, inherit b b2) :: rest) :: suf) ((l, b) :: ds) fd
  end.

Section RemoveFlow.
Context `{Env}.

Lemma wp_lookup_flow fuel pre l b rest suf p prev Q s :
  active (heap s) p (pre ++ ((l, b) :: rest) :: suf) None ->
  NoDup (concat (pre ++ ((l, b) :: rest) :: suf)).*1 ->
  (length pre <= fuel)%nat ->
  Q (Some l, match pre with [] => prev | _ => last_loc pre end) s ->
  wp (lookup_flow fuel (Some l) p prev) Q s.
Proof.
  revert fuel p prev. induction pre as [|f pre IH]; intros fuel p prev Ha Hnd Hf HQ.
  - destruct Ha as (l' & c & -> & _ & Hc & _).
    destruct Hc as ([= ->] & _). destruct fuel; simpl; by rewrite decide_True.
  - destruct Ha as (k & c & -> & Hk & Hc & Ha).
    destruct (chain_cons_inv _ _ _ Hc) as (bk & restk & ->).
    destruct fuel as [|fuel]; simpl in Hf; [lia|].
    simpl. rewrite decide_False.
    2: { intros [= ->]. simpl in Hnd. rewrite concat_app, !fmap_app in Hnd.
         apply NoDup_cons in Hnd as [Hin _]. apply Hin. simpl. set_solver. }
    wp_step. rewrite (wp_load _ c) by done. apply IH; [done| |lia|].
    { rewrite <- app_comm_cons in Hnd. cbn [concat] in Hnd. rewrite fmap_app in Hnd.
      by apply NoDup_app in Hnd as (_ & _ & Hnd). }
    destruct pre; [done|]. done.
Qed.

(** The cells of a represented flow, and where the rest of the lists live. *)
Lemma rep_inv s pre l b rest suf ds fd :
  rep s (View (pre ++ ((l, b) :: rest) :: suf) ds fd) ->
  exists c, heap s !! l = Some c /\ body c = b /\ chain (heap s) (mod_flow c) rest /\
    active (heap s) (head s) pre (Some l) /\ active (heap s) (next c) suf None /\
    passive (heap s) (done s) ds /\ fds s = fd /\
    NoDup (l :: rest.*1 ++ (concat pre).*1 ++ (concat suf).*1 ++ ds.*1).
Proof.
  intros (Ha & Hp & Hnd & Hfd); simpl in *.
  apply active_app in Ha as (r & Hpre & (l' & c & -> & Hl & Hf & Hsuf)).
  simpl in Hf. destruct Hf as ([= ->] & c' & Hl' & Hb & Hc).
  rewrite Hl in Hl'. injection Hl' as <-. exists c. split_and!; try done.
  unfold blocks in Hnd; simpl in Hnd. rewrite concat_app in Hnd.
  cbn [concat] in Hnd. rewrite !fmap_app in Hnd. cbn [fmap list_fmap] in Hnd.
  revert Hnd. apply NoDup_Permutation_proper. simpl. solve_Permutation.
Qed.

Lemma chain_dom h p bs l : chain h p bs -> l ∈ bs.*1 -> l ∈ dom h.
Proof.
  revert p. induction bs as [|[k b] bs IH]; simpl; intros p; [set_solver|].
  intros (-> & c & Hk & _ & Hc) [->|Hin]%elem_of_cons; [by eapply elem_of_dom_2|eauto].
Qed.

Lemma passive_dom h p bs l : passive h p bs -> l ∈ bs.*1 -> l ∈ dom h.
Proof.
  revert p. induction bs as [|[k b] bs IH]; simpl; intros p; [set_solver|].
  intros (-> & c & Hk & _ & Hc) [->|Hin]%elem_of_cons; [by eapply elem_of_dom_2|eauto].
Qed.

Lemma active_dom h p fs q l : active h p fs q -> l ∈ (concat fs).*1 -> l ∈ dom h.
Proof.
  revert p. induction fs as [|f fs IH]; simpl; intros p; [set_solver|].
  rewrite fmap_app. intros (k & c & -> & Hk & Hc & Ha) [Hin|Hin]%elem_of_app; [|eauto].
  eapply chain_dom; eauto.
Qed.

Lemma active_length h p fs q : active h p fs q -> (length fs <= length (concat fs))%nat.
Proof.
  revert p. induction fs as [|f fs IH]; simpl; intros p; [done|].
  intros (k & c & -> & Hk & Hc & Ha). destruct (chain_cons_inv _ _ _ Hc) as (b & r & ->).
  rewrite length_app. apply IH in Ha. simpl. lia.
Qed.

(** Every block is an object of the heap. *)
Lemma rep_size s a : rep s a -> (length (blocks a) <= size (heap s))%nat.
Proof.
  intros (Ha & Hp & Hnd & _). rewrite <- size_dom, <- (length_fmap fst (blocks a)).
  rewrite <- (size_list_to_set (C:=gset positive) _ Hnd). apply subseteq_size.
  intros l Hl. rewrite elem_of_list_to_set in Hl. unfold blocks in Hl.
  rewrite fmap_app in Hl. apply elem_of_app in Hl as [Hl|Hl].
  - eapply active_dom; eauto.
  - eapply passive_dom; eauto.
Qed.

Lemma last_loc_None h p fs q : active h p fs q -> last_loc fs = None -> fs = [].
Proof.
  destruct fs as [|f fs] using rev_ind; [done|].
  intros (r & _ & l & c & -> & _ & Hf & _)%active_app.
  destruct (chain_cons_inv _ _ _ Hf) as (b & rest & ->).
  unfold last_loc. by rewrite last_snoc.
Qed.

(** Pushing a block that is off the active list onto the passive one. *)
Lemma push_done s l c fs ds :
  heap s !! l = Some c ->
  active (heap s) (head s) fs None -> passive (heap s) (done s) ds ->
  NoDup (l :: (concat fs).*1 ++ ds.*1) ->
  let s' := set_done (Some l) (set_heap (<[l := set_next (done s) c]> (heap s)) s) in
  rep s' (View fs ((l, body c) :: ds) (fds s)) /\ frame s s'.
Proof.
  intros Hl Ha Hp Hnd. pose proof Hnd as [Hnl _]%NoDup_cons. split; [split_and!|]; simpl.
  - eapply active_ext; [|done]. intros x Hx. apply lookup_insert_ne. set_solver.
  - split; [done|]. exists (set_next (done s) c). rewrite lookup_insert_eq.
    split_and!; [done..|]. eapply passive_ext; [|done].
    intros x Hx. apply lookup_insert_ne. set_solver.
  - unfold blocks; simpl. rewrite fmap_app. revert Hnd.
    apply NoDup_Permutation_proper. simpl. solve_Permutation.
  - done.
  - unfold frame; simpl. split_and!; try done.
    rewrite dom_insert_L. apply elem_of_dom_2 in Hl. set_solver.
Qed.

(** [unlink] with the successor [flow] already in place. *)
Lemma wp_unlink s pre l c flow suf ds Q :
  heap s !! l = Some c ->
  active (heap s) (head s) pre (Some l) ->
  active (heap s) flow suf None ->
  passive (heap s) (done s) ds ->
  NoDup (l :: (concat pre).*1 ++ (concat suf).*1 ++ ds.*1) ->
  (forall s', rep s' (View (pre ++ suf) ((l, body c) :: ds) (fds s)) -> frame s s' -> Q tt s') ->
  wp (unlink (Some l) flow (last_loc pre)) Q s.
Proof.
  intros Hl Hpre Hsuf Hds Hnd HQ. unfold unlink. wp_step.
  assert (NoDup (l :: (concat (pre ++ suf)).*1 ++ ds.*1)).
  { by rewrite concat_app, fmap_app, <- app_assoc. }
  destruct (last_loc pre) as [lp|] eqn:Elast.
  - apply NoDup_cons in Hnd as [Hnl (Hndp & Hdis & Hnd2)%NoDup_app].
    pose proof (last_loc_elem _ _ Elast) as Hlp.
    destruct (active_redirect _ _ _ _ flow _ Elast Hndp Hpre) as (cp & Hcp & _ & Hpre').
    assert (lp <> l) by set_solver.
    rewrite (wp_assign _ cp) by done. set (s1 := set_heap _ s).
    assert (Hl1 : heap s1 !! l = Some c) by (simpl; by rewrite lookup_insert_ne).
    wp_step. rewrite (wp_assign _ c) by done. wp_step.
    destruct (push_done s1 l c (pre ++ suf) ds) as [Hr Hf]; [done| | |done|].
    + apply active_app. exists flow. split; [done|]. eapply active_ext; [|done].
      intros x Hx. apply lookup_insert_ne. set_solver.
    + eapply passive_ext; [|done]. intros x Hx. apply lookup_insert_ne. set_solver.
    + apply HQ; [done|]. eapply frame_trans; [|done]. unfold frame; simpl. split_and!; try done.
      rewrite dom_insert_L. apply elem_of_dom_2 in Hcp. set_solver.
  - rewrite (last_loc_None _ _ _ _ Hpre Elast) in *. wp_step.
    rewrite (wp_assign _ c) by done. wp_step.
    by destruct (push_done (set_head flow s) l c suf ds) as [Hr Hf]; auto.
Qed.

Lemma frame_insert s l c c' : heap s !! l = Some c -> frame s (set_heap (<[l := c']> (heap s)) s).
Proof.
  intros Hl. unfold frame; simpl. split_and!; try done.
  rewrite dom_insert_L. apply elem_of_dom_2 in Hl. set_solver.
Qed.

(** The last block of a flow: its socket is closed. *)
Lemma wp_retire_last s pre l b suf ds fd Q :
  rep s (View (pre ++ [(l, b)] :: suf) ds fd) ->
  (forall s', rep s' (retire pre l b [] suf ds fd) -> frame s s' -> Q tt s') ->
  wp (successor (Some l)) (fun flow => wp (unlink (Some l) flow (last_loc pre)) Q) s.
Proof.
  intros Hrep HQ.
  destruct (rep_inv _ _ _ _ _ _ _ _ Hrep) as (c & Hl & Hb & Hm & Hpre & Hsuf & Hds & Hfd & Hnd).
  simpl in Hm, Hnd. pose proof Hnd as [Hnl _]%NoDup_cons.
  unfold successor. wp_step. rewrite (wp_load _ c), Hm by done. wp_step.
  assert (wp (if 0 <? send_sock c then close_fd (send_sock c) else mret tt)
    (fun _ s0 => s0 = set_fds (close_sock b fd) s) s) as Hclose.
  { assert (Es : send_sock c = send_sock b) by (by rewrite <- Hb). unfold close_sock.
    rewrite Es. destruct (0 <? send_sock b); wp_step; rewrite <- Hfd; by destruct s. }
  eapply wp_mono; [exact Hclose|]. intros _ s0 ->. wp_step.
  rewrite (wp_assign _ c) by done. wp_step.
  rewrite (wp_load _ (set_send_sock 0 c)) by apply lookup_insert_eq. wp_step.
  eapply (wp_unlink _ pre l (set_send_sock 0 c) _ suf ds); simpl;
    [apply lookup_insert_eq|other_cells..|done|].
  intros s' Hr Hf. subst b. apply HQ; [done|].
  eapply frame_trans; [|done].
  by apply (frame_insert (set_fds (close_sock (body c) fd) s) _ c).
Qed.

(** A block with a successor: the successor takes its place in the list. *)
Lemma wp_retire_mod s pre l b l2 b2 rest suf ds fd Q :
  rep s (View (pre ++ ((l, b) :: (l2, b2) :: rest) :: suf) ds fd) ->
  (forall s', rep s' (retire pre l b ((l2, b2) :: rest) suf ds fd) -> frame s s' -> Q tt s') ->
  wp (successor (Some l)) (fun flow => wp (unlink (Some l) flow (last_loc pre)) Q) s.
Proof.
  intros Hrep HQ.
  destruct (rep_inv _ _ _ _ _ _ _ _ Hrep) as (c & Hl & Hb & Hm & Hpre & Hsuf & Hds & Hfd & Hnd).
  destruct Hm as (Em & c2 & Hl2 & Hb2 & Hrest). simpl in Hnd.
  pose proof Hnd as [Hnl [Hnl2 Hnd2]%NoDup_cons]%NoDup_cons.
  assert (l <> l2) by set_solver.
  unfold successor. wp_step. rewrite (wp_load _ c), Em by done.
  wp_step. rewrite (wp_assign _ c2) by done.
  wp_step. rewrite (wp_load _ c) by (simpl; by rewrite lookup_insert_ne).
  wp_step. rewrite (wp_assign _ (set_next (next c) c2)) by apply lookup_insert_eq.
  wp_step. rewrite (wp_load _ c) by (simpl; by rewrite insert_insert_eq, lookup_insert_ne).
  wp_step. rewrite (wp_assign _ (set_send_sock (send_sock c) (set_next (next c) c2)))
    by apply lookup_insert_eq.
  wp_step. simpl. rewrite !insert_insert_eq. set (c2' := set_sequence_nmbr _ _).
  eapply (wp_unlink _ pre l c _ (((l2, inherit b b2) :: rest) :: suf) ds); simpl;
    [by rewrite lookup_insert_ne|other_cells| |other_cells| |].
  - exists l2, c2'. rewrite lookup_insert_eq. split_and!; [done..| |other_cells].
    exists c2'. split_and!; [done| |other_cells].
    subst b b2. by destruct c, c2.
  - revert Hnd. apply NoDup_Permutation_proper. rewrite fmap_app. solve_Permutation.
  - intros s' Hr Hf. rewrite Hb in Hr. apply HQ; [by rewrite <- Hfd|].
    eapply frame_trans; [|exact Hf]. exact (frame_insert s l2 c2 c2' Hl2).
Qed.

(** [remove_flow] retires the front block of a flow. *)
Lemma wp_remove_flow s pre l b rest suf ds fd Q :
  rep s (View (pre ++ ((l, b) :: rest) :: suf) ds fd) ->
  (forall s', rep s' (retire pre l b rest suf ds fd) -> frame s s' -> Q 1 s') ->
  wp (remove_flow (Some l)) Q s.
Proof.
  intros Hrep HQ. pose proof (rep_size _ _ Hrep) as Hsz.
  pose proof Hrep as (Ha & _ & Hndb & _). simpl in Ha.
  unfold blocks in Hsz, Hndb. simpl in Hsz, Hndb. rewrite fmap_app in Hndb.
  rewrite length_app in Hsz. apply NoDup_app in Hndb as (Hndb & _).
  unfold remove_flow. wp_step. eapply wp_lookup_flow; [done..| |].
  { pose proof (active_length _ _ _ _ Ha) as Hle. rewrite length_app in Hle. lia. }
  wp_step.
  replace (match pre with [] => None | _ => last_loc pre end) with (last_loc pre)
    by (by destruct pre).
  eapply wp_mono with (P := fun flow => wp (unlink (Some l) flow (last_loc pre)) (fun _ => Q 1)).
  - destruct rest as [|[l2 b2] rest]; [eapply wp_retire_last|eapply wp_retire_mod]; eauto.
  - intros flow s' Hu. wp_step. by eapply wp_mono.
Qed.

End RemoveFlow.

(** ** find_next *)

Section FindNext.
Context `{Env}.

Definition loc (t : option block) : ptr := fst <$> t.

(** A block of the view is stored at its location. *)
Lemma rep_lookup_active s a f x :
  rep s a -> f ∈ flows a -> x ∈ f -> exists c, heap s !! x.1 = Some c /\ body c = x.2.
Proof.
  intros (Ha & _) Hf Hx. revert Ha. generalize (head s) as p.
  induction (flows a) as [|g fs IH]; simpl; intros p; [set_solver|].
  intros (l & c & -> & _ & Hc & Hfs). apply elem_of_cons in Hf as [->|Hf]; [|eauto].
  clear IH Hfs. revert Hc. generalize (Some l) as q. induction g as [|[k b] g IH];
    intros q; [set_solver|].
  intros (-> & ck & Hk & Hb & Hg). apply elem_of_cons in Hx as [->|Hx]; eauto.
Qed.

(** The target lies among the flows already passed. *)
Definition is_target (pre : list (list block)) (t : option block) : Prop :=
  match t with
  | None => pre = []
  | Some x => exists f, f ∈ pre /\ x ∈ f
  end.

Lemma wp_earlier s a t pre c Q :
  rep s a -> (forall f, f ∈ pre -> f ∈ flows a) -> is_target pre t ->
  Q (match t with None => true | Some y => timercmp_lt (next_tx c) (next_tx y.2) end) s ->
  wp (match loc t with
      | None => mret true
      | Some _ => t ← load (loc t); mret (timercmp_lt (next_tx c) (next_tx t))
      end) Q s.
Proof.
  intros Hrep Hsub Ht HQ. destruct t as [y|]; simpl; wp_step; [|done].
  destruct Ht as (f & Hf & Hy).
  destruct (rep_lookup_active s a f y) as (cy & Hcy & Eb); auto.
  rewrite (wp_load _ cy) by done. wp_step. by rewrite <- Eb in HQ.
Qed.

Lemma settle_live now l b rest ds fd :
  expired now b = false -> settle now l b rest ds fd = ((l, b) :: rest, ds, fd).
Proof. intros E. destruct rest; simpl; by rewrite E. Qed.

Lemma scan_retire now pre l b rest suf ds fd t :
  expired now b = true ->
  scan_flows now (((l, b) :: rest) :: suf) ds fd t =
  let r := retire pre l b rest suf ds fd in
  scan_flows now (drop (length pre) (flows r)) (finished r) (sockets r) t.
Proof.
  intros E. unfold retire. destruct rest as [|[l2 b2] rest]; simpl; rewrite E; simpl;
    by rewrite drop_app_length.
Qed.

(** The pointer the loop continues with after a removal. *)
Lemma wp_resume s a pre suf Q :
  rep s a -> flows a = pre ++ suf ->
  (forall p, active (heap s) p suf None -> Q p s) ->
  wp (match last_loc pre with
      | Some _ => p ← load (last_loc pre); mret (next p)
      | None => gets head
      end) Q s.
Proof.
  intros (Ha & _ & Hnd & _) E HQ. rewrite E in Ha.
  apply active_app in Ha as (r & Hpre & Hsuf).
  destruct (last_loc pre) as [lp|] eqn:El.
  - unfold blocks in Hnd. rewrite E, concat_app, !fmap_app in Hnd.
    apply NoDup_app in Hnd as ((Hnd & _)%NoDup_app & _).
    destruct (active_redirect _ _ _ _ None _ El Hnd Hpre) as (c & Hc & <- & _).
    wp_step. rewrite (wp_load _ c) by done. wp_step. auto.
  - rewrite (last_loc_None _ _ _ _ Hpre El) in Hpre. simpl in Hpre. subst r.
    wp_step. auto.
Qed.

Lemma retire_split pre l b rest suf ds fd :
  exists suf', flows (retire pre l b rest suf ds fd) = pre ++ suf' /\
    drop (length pre) (flows (retire pre l b rest suf ds fd)) = suf' /\
    (length (concat suf') < length (concat (((l, b) :: rest) :: suf)))%nat.
Proof.
  unfold retire. destruct rest as [|[l2 b2] rest]; simpl; eexists;
    (split_and!; [done|apply drop_app_length|]); simpl; rewrite ?length_app; simpl; lia.
Qed.

Lemma pick_loc t x :
  loc (pick t x) =
  if match t with None => true | Some y => timercmp_lt (next_tx x.2) (next_tx y.2) end
  then Some x.1 else loc t.
Proof. destruct t as [y|]; simpl; [|done]. by case_match. Qed.

Lemma is_target_pick pre f x t :
  x ∈ f -> is_target pre t -> is_target (pre ++ [f]) (pick t x).
Proof.
  intros Hx Ht. assert (is_target (pre ++ [f]) (Some x)) by (exists f; set_solver).
  destruct t as [y|]; simpl; [|done]. case_match; [done|].
  destruct Ht as (g & Hg & Hy). exists g. set_solver.
Qed.

Lemma wp_find_next_loop fuel now s pre suf ds fd t p Q :
  rep s (View (pre ++ suf) ds fd) -> active (heap s) p suf None -> is_target pre t ->
  (length (concat suf) < fuel)%nat ->
  (let '(fs, ds', fd', t') := scan_flows now suf ds fd t in
   forall s', rep s' (View (pre ++ fs) ds' fd') -> frame s s' -> Q (loc t') s') ->
  wp (find_next_loop fuel now p (last_loc pre) (loc t)) Q s.
Proof.
  revert s pre suf ds fd t p. induction fuel as [|fuel IH]; intros s pre suf ds fd t p;
    [lia|].
  intros Hrep Hp Ht Hfuel HQ. destruct suf as [|f suf].
  { simpl in Hp. subst p. simpl. wp_step. apply HQ; [done|apply frame_refl]. }
  destruct Hp as (l & c & -> & Hl & Hf & Hsuf).
  destruct (chain_cons_inv _ _ _ Hf) as (b & rest & ->).
  assert (Hb : body c = b).
  { destruct Hf as (_ & c' & Hl' & <- & _). congruence. }
  simpl. wp_step. rewrite (wp_load _ c) by done.
  destruct (expired now c) eqn:E.
  - wp_step. eapply wp_remove_flow; [done|]. intros s1 Hrep1 Hfr1. wp_step.
    rewrite (scan_retire now pre) in HQ by (by subst b).
    destruct (retire_split pre l b rest suf ds fd) as (suf1 & E1 & E2 & Hlt).
    eapply wp_resume; [done..|]. intros p1 Hp1. cbv zeta in HQ. rewrite E2 in HQ.
    destruct (retire pre l b rest suf ds fd) as [fs1 ds1 fd1]; simpl in E1, E2, HQ. subst fs1.
    eapply IH; [done..|lia|]. destruct (scan_flows _ _ _ _ _) as [[[fs' ds'] fd'] t'].
    intros s' Hr Hfr. apply HQ; [done|]. by eapply frame_trans.
  - wp_step. eapply (wp_earlier s _ t pre (body c)); [done|set_solver|done|].
    pose proof (pick_loc t (l, body c)) as Hpick. simpl in Hpick |- *. rewrite <- Hpick.
    assert (last_loc (pre ++ [(l, b) :: rest]) = Some l) as <-.
    { unfold last_loc. by rewrite last_snoc. }
    eapply (IH _ _ suf ds fd (pick t (l, body c))).
    + by rewrite <- app_assoc.
    + done.
    + apply is_target_pick; [subst b; by constructor|done].
    + simpl in Hfuel. rewrite length_app in Hfuel. lia.
    + subst b. simpl in HQ. rewrite settle_live in HQ by done. destruct (scan_flows _ suf _ _ _) as [[[fs' ds'] fd'] t'].
      intros s'. rewrite <- app_assoc. apply HQ.
Qed.

(** [find_next] against its specification, for any continuation. *)
Lemma wp_find_next s a Q :
  rep s a ->
  (let '(x, a') := spec_find_next (env_time (sysno s)) a in
   forall s', rep s' a' -> frame (set_sysno (S (sysno s)) s) s' -> Q (loc x) s') ->
  wp find_next Q s.
Proof.
  intros Hrep. pose proof (rep_size _ _ Hrep) as Hsz. unfold blocks in Hsz.
  rewrite length_app in Hsz. unfold find_next, spec_find_next. intros HQ. wp_step.
  destruct a as [fs ds fd]. cbn [flows finished sockets] in *.
  eapply (wp_find_next_loop _ _ (set_sysno (S (sysno s)) s) [] fs ds fd None).
  - done.
  - by destruct Hrep.
  - done.
  - simpl. lia.
  - by destruct (scan_flows _ fs ds fd None) as [[[fs' ds'] fd'] t'].
Qed.

End FindNext.

(** ** What the specification guarantees *)

(** The blocks that may send. *)
Definition fronts (fs : list (list block)) : list block := omap hd_error fs.

(** The target is no later than any other candidate. *)
Definition earliest (xs : list block) (t : option block) : Prop :=
  match t with
  | None => xs = []
  | Some y => y ∈ xs /\ forall z, z ∈ xs -> timercmp_lt (next_tx z.2) (next_tx y.2) = false
  end.

Lemma earliest_pick xs t x : earliest xs t -> earliest (xs ++ [x]) (pick t x).
Proof.
  destruct t as [y|]; simpl.
  - intros [Hy Hmin]. destruct (timercmp_lt (next_tx x.2) (next_tx y.2)) eqn:E; simpl.
    + split; [set_solver|]. intros z [Hz|Hz%list_elem_of_singleton]%elem_of_app.
      * apply Hmin in Hz. time_lia.
      * subst z. apply timercmp_lt_irrefl.
    + split; [set_solver|]. intros z [Hz|Hz%list_elem_of_singleton]%elem_of_app; [auto|].
      by subst z.
  - intros ->. split; [set_solver|]. intros z Hz%list_elem_of_singleton. subst z.
    apply timercmp_lt_irrefl.
Qed.

Lemma perm_splice {A} (x a xa d d1 r g z : list A) :
  xa = x ++ a -> a ++ d1 ≡ₚ g ++ d -> x ++ d ≡ₚ r ++ z -> xa ++ d1 ≡ₚ (r ++ g) ++ z.
Proof.
  intros -> E1 E2. rewrite <- app_assoc, E1, (Permutation_app_comm g), app_assoc, E2.
  solve_Permutation.
Qed.

Section Scan.
Variable now : timeval.

Lemma settle_spec l b rest ds fd f ds' fd' :
  settle now l b rest ds fd = (f, ds', fd') ->
  match f with [] => True | x :: _ => expired now x.2 = false end /\
  (exists new, ds' = new ++ ds /\ Forall (fun x => expired now x.2 = true) new) /\
  f.*1 ++ ds'.*1 ≡ₚ l :: rest.*1 ++ ds.*1.
Proof.
  revert l b ds. induction rest as [|[l2 b2] rest IH]; simpl; intros l b ds;
    destruct (expired now b) eqn:E.
  - intros [= <- <- <-]. split_and!; [done| |done].
    eexists [_]. split; [done|]. repeat constructor. done.
  - intros [= <- <- <-]. split_and!; [done| |done]. by exists [].
  - intros Hs. destruct (IH _ _ _ Hs) as (H1 & (new & -> & H2) & H3).
    split_and!; [done| |].
    + exists (new ++ [(l, b)]). rewrite <- app_assoc. split; [done|].
      apply Forall_app. split; [done|]. by repeat constructor.
    + rewrite H3. simpl. solve_Permutation.
  - intros [= <- <- <-]. split_and!; [done| |done]. by exists [].
Qed.

Lemma scan_flows_spec fs ds fd t xs fs' ds' fd' t' :
  scan_flows now fs ds fd t = (fs', ds', fd', t') -> earliest xs t ->
  Forall (fun x => expired now x.2 = false) (fronts fs') /\
  Forall (fun f => f <> []) fs' /\
  earliest (xs ++ fronts fs') t' /\
  (exists new, ds' = new ++ ds /\ Forall (fun x => expired now x.2 = true) new) /\
  (concat fs').*1 ++ ds'.*1 ≡ₚ (concat fs).*1 ++ ds.*1.
Proof.
  revert ds fd t xs fs' ds' fd' t'. induction fs as [|f fs IH]; simpl;
    intros ds fd t xs fs' ds' fd' t'.
  { intros [= <- <- <- <-] He. rewrite app_nil_r. split_and!; try done; [constructor..|].
    by exists []. }
  destruct f as [|[l b] rest]; [by apply IH|].
  destruct (settle now l b rest ds fd) as [[f ds1] fd1] eqn:Es.
  destruct (settle_spec _ _ _ _ _ _ _ _ Es) as (Hlive & (new1 & -> & Hn1) & Hp1).
  destruct f as [|[l1 b1] f].
  - intros Hs He. destruct (IH _ _ _ _ _ _ _ _ Hs He) as (H1 & H2 & H3 & (n & -> & H4) & H5).
    split_and!; try done.
    + exists (n ++ new1). rewrite app_assoc. split; [done|]. by apply Forall_app.
    + rewrite H5, Hp1. rewrite fmap_app. simpl. solve_Permutation.
  - destruct (scan_flows now fs (new1 ++ ds) fd1 (pick t (l1, b1))) as [[[fs2 ds2] fd2] t2] eqn:Hs.
    intros [= <- <- <- <-] He.
    destruct (IH _ _ _ _ _ _ _ _ Hs (earliest_pick _ _ (l1, b1) He))
      as (H1 & H2 & H3 & (n & -> & H4) & H5).
    split_and!; try done.
    + by constructor.
    + by constructor.
    + by rewrite <- app_assoc in H3.
    + exists (n ++ new1). rewrite app_assoc. split; [done|]. by apply Forall_app.
    + rewrite (fmap_app fst ((l, b) :: rest)).
      refine (perm_splice ((l1, b1) :: f).*1 _ _ _ _ ((l, b) :: rest).*1 _ _ _ H5 Hp1).
      by cbn [concat]; rewrite fmap_app.
Qed.
End Scan.

Section Theorems.
Context `{Env}.

(** C4: find_next refines its specification on the lists of blocks: from any
    well-formed pair of lists it terminates without touching a dead block,
    leaves well-formed lists that hold exactly the blocks the specification
    keeps and retires, with the sockets of the finished flows closed, and
    returns the block the specification picks. *)
Theorem find_next_refines s a :
  rep s a ->
  wp find_next (fun t s' =>
    let '(x, a') := spec_find_next (env_time (sysno s)) a in
    t = loc x /\ rep s' a' /\ frame (set_sysno (S (sysno s)) s) s') s.
Proof.
  intros Hrep. apply (wp_find_next _ _ _ Hrep).
  by destruct (spec_find_next (env_time (sysno s)) a).
Qed.


(** Find_next neither loses nor duplicates a block: the locations in the two
    lists are the same before and after, and every block that moved to the
    passive list was expired. *)
Theorem find_next_conserves s a :
  rep s a ->
  wp find_next (fun t s' => exists a' new, rep s' a' /\
    (blocks a').*1 ≡ₚ (blocks a).*1 /\ finished a' = new ++ finished a /\
    Forall (fun x => expired (env_time (sysno s)) x.2 = true) new /\
    dom (heap s') = dom (heap s)) s.
Proof.
  intros Hrep. apply (wp_find_next _ _ _ Hrep). unfold spec_find_next.
  destruct (scan_flows _ _ _ _ _) as [[[fs ds] fd] t] eqn:Es. intros s' Hr Hf.
  destruct (scan_flows_spec _ _ _ _ _ [] _ _ _ _ Es eq_refl)
    as (_ & _ & _ & (new & -> & Hn) & Hp).
  exists (View fs (new ++ finished a) fd), new. split_and!; [done| |done|done|].
  - unfold blocks. cbn [flows finished]. by rewrite !(fmap_app fst (concat _)), Hp.
  - by destruct Hf.
Qed.
End Theorems.

(** ** An example *)

Definition demo_view : view :=
  View [[(1%positive, body demo_a); (2%positive, body demo_b)]; [(3%positive, body demo_c)]]
    [] {[ 4; 5 ]}.

Lemma demo_rep n : rep (demo_state n) demo_view.
Proof.
  split_and!.
  - exists 1%positive, demo_a. split_and!; [done|vm_compute; reflexivity| |].
    + split; [done|]. exists demo_a. split_and!; [vm_compute; reflexivity|done|].
      split; [done|]. exists demo_b. split_and!; [vm_compute; reflexivity|done|done].
    + exists 3%positive, demo_c. split_and!; [done|vm_compute; reflexivity| |done].
      split; [done|]. exists demo_c. split_and!; [vm_compute; reflexivity|done|done].
  - done.
  - vm_compute. repeat (constructor; [set_solver|]). constructor.
  - done.
Qed.

(** At time 1 s the first block of flow 7 is over and its second one is due. *)
Lemma find_next_refines_witness :
  wp (@find_next demo_env) (fun t s' =>
    t = Some 2%positive /\ rep s' (View
      [[(2%positive, inherit (body demo_a) (body demo_b))]; [(3%positive, body demo_c)]]
      [(1%positive, body demo_a)] {[ 4; 5 ]})) (demo_state 1).
Proof.
  eapply wp_mono; [apply (@find_next_refines demo_env (demo_state 1) demo_view (demo_rep 1))|].
  intros t s' Hs. unfold spec_find_next in Hs.
  set (r := scan_flows _ _ _ _ _) in Hs. vm_compute in r. subst r. cbv beta iota in Hs.
  destruct Hs as (-> & Hrep & _). split; [reflexivity|exact Hrep].
Defined.


Lemma find_next_conserves_witness :
  exists t s', @find_next demo_env (demo_state 6) = Ret (t, s') /\
    dom (heap s') = dom (heap (demo_state 6)).
Proof.
  pose proof (@find_next_conserves demo_env (demo_state 6) demo_view (demo_rep 6)) as Hw.
  destruct (proj1 (wp_run _ _ _) Hw) as (t & s' & E & a' & new & _ & _ & _ & _ & Hd).
  exists t, s'. split; [exact E|exact Hd].
Defined.
