(* ===== verification/RudeCleanup.v ===== *)
(** clean_up releases everything the flow lists own. *)
From Stdlib Require Import ZArith Lia.
From stdpp Require Import base numbers list gmap.
From S2P Require Import Prelude Timeval RudeState RudeFlow RudeLists.

#[local] Open Scope Z_scope.

(** The trace array a block owns. *)
Definition owned (b : flow_cfg) : list positive :=
  match params b with
  | PTrace p => option_list (tlist p)
  | _ => []
  end.

Definition owned_by (bs : list block) : list positive := bs ≫= fun x => owned x.2.

Lemma owned_by_cons l b bs : owned_by ((l, b) :: bs) = owned b ++ owned_by bs.
Proof. done. Qed.

Lemma owned_by_app bs1 bs2 : owned_by (bs1 ++ bs2) = owned_by bs1 ++ owned_by bs2.
Proof. apply bind_app. Qed.

(** The open sockets after the positive ones of [bs] are closed. *)
Definition close_all (bs : list block) (fd : gset Z) : gset Z :=
  foldl (fun fd x => close_sock x.2 fd) fd bs.

(** The first flow without its front block. *)
Definition drop_front (rest : list block) (fs : list (list block)) : list (list block) :=
  match rest with [] => fs | _ => rest :: fs end.

Lemma concat_drop_front rest fs : concat (drop_front rest fs) = rest ++ concat fs.
Proof. by destruct rest. Qed.

(** What a step that frees the objects [ls] and the traces [ts] leaves. *)
Definition freed (ls ts : list positive) (s s' : rude) : Prop :=
  dom (heap s') = dom (heap s) ∖ list_to_set ls /\
  dom (traces s') = dom (traces s) ∖ list_to_set ts.

Lemma freed_app ls1 ts1 ls2 ts2 s1 s2 s3 :
  freed ls1 ts1 s1 s2 -> freed ls2 ts2 s2 s3 -> freed (ls1 ++ ls2) (ts1 ++ ts2) s1 s3.
Proof.
  intros [E1 E2] [E3 E4]. split; [rewrite E3, E1|rewrite E4, E2]; rewrite list_to_set_app_L;
    set_solver.
Qed.

Section CleanUp.
Context `{Env}.

(** [free_block] on a live block whose trace, if any, is live. *)
Lemma wp_free_block s l c Q :
  heap s !! l = Some c -> (forall t, t ∈ owned c -> t ∈ dom (traces s)) ->
  (forall s', heap s' = delete l (heap s) -> head s' = head s -> done s' = done s ->
     fds s' = fds s -> freed [l] (owned c) s s' -> Q tt s') ->
  wp (free_block (Some l)) Q s.
Proof.
  intros Hl Ht HQ. unfold free_block. wp_step. rewrite (wp_load _ c) by done.
  assert (Hfin : forall s1, heap s1 = heap s -> head s1 = head s -> done s1 = done s ->
    fds s1 = fds s -> dom (traces s1) = dom (traces s) ∖ list_to_set (owned c) ->
    wp (free_flow (Some l)) Q s1).
  { intros s1 E1 E2 E3 E4 E5. rewrite (wp_free_flow _ c) by congruence.
    apply HQ; simpl; [by rewrite E1|done..|]. split; [|done]. simpl.
    rewrite E1, dom_delete_L. set_solver. }
  unfold owned in *. destruct (params c) as [|p|[mp ls li [t|]]]; wp_step; simpl in *.
  1,2,4: apply Hfin; try done; set_solver.
  assert (t ∈ dom (traces s)) as [es Hes]%elem_of_dom by set_solver.
  unfold wp at 1, free_trace. rewrite Hes. apply Hfin; try done. simpl.
  rewrite dom_delete_L. set_solver.
Qed.

(** Closing the socket of a front block. *)
Lemma wp_close_front s l c Q :
  heap s !! l = Some c ->
  (forall c1, next c1 = next c -> mod_flow c1 = mod_flow c -> params c1 = params c ->
     Q tt (set_fds (close_sock c (fds s)) (set_heap (<[l := c1]> (heap s)) s))) ->
  wp (if 0 <? send_sock c
      then close_fd (send_sock c);; assign (Some l) (set_send_sock 0)
      else mret tt) Q s.
Proof.
  intros Hl HQ. unfold close_sock in HQ. destruct (0 <? send_sock c); wp_step.
  - rewrite (wp_assign _ c) by done. by apply (HQ (set_send_sock 0 c)).
  - specialize (HQ c eq_refl eq_refl eq_refl). rewrite insert_id in HQ by done.
    by destruct s.
Qed.

(** One iteration of the loop over the active list. *)
Lemma wp_clean_active_step s fuel l b rest fs ds fd Q :
  rep s (View (((l, b) :: rest) :: fs) ds fd) ->
  (forall t, t ∈ owned b -> t ∈ dom (traces s)) ->
  (forall s', rep s' (View (drop_front rest fs) ds (close_sock b fd)) ->
     freed [l] (owned b) s s' -> wp (clean_active fuel) Q s') ->
  wp (clean_active (S fuel)) Q s.
Proof.
  intros Hrep Ht HQ.
  destruct (rep_inv s [] _ _ _ _ _ _ Hrep)
    as (c & Hl & Hb & Hm & Hhd & Hsuf & Hds & Hfd & Hnd).
  simpl in Hhd, Hnd. pose proof Hnd as [Hnl Hnd1]%NoDup_cons.
  assert (Eo : owned c = owned b) by (by rewrite <- Hb).
  assert (Ec : close_sock c fd = close_sock b fd) by (by rewrite <- Hb).
  simpl. wp_step. rewrite Hhd. wp_step. rewrite (wp_load _ c) by done. wp_step.
  apply (wp_close_front _ _ c); [done|]. intros c1 En Em Ep. rewrite Hfd, Ec.
  assert (Eo1 : owned c1 = owned b) by (unfold owned in *; by rewrite Ep).
  wp_step. rewrite (wp_load _ c1) by apply lookup_insert_eq. rewrite Em.
  destruct rest as [|[l2 b2] rest]; simpl in Hm.
  - rewrite Hm. wp_step. apply (wp_free_block _ _ c1); [apply lookup_insert_eq|by rewrite Eo1|].
    simpl. intros s' E1 E2 E3 E4 [Hf1 Hf2]. rewrite delete_insert_eq in E1. wp_step. apply HQ.
    + split_and!; cbn [flows finished sockets]; rewrite ?E1, ?E2, ?E3, ?E4, ?En; [other_cells..| |done].
      revert Hnd1. apply NoDup_Permutation_proper. unfold blocks; simpl. by rewrite fmap_app.
    + rewrite <- Eo1. split; [|done]. rewrite Hf1. simpl. set_solver.
  - destruct Hm as (E2' & c2 & Hl2 & Hb2 & Hrest). rewrite E2'. wp_step.
    rewrite fmap_cons in Hnl, Hnd1. simpl in Hnl, Hnd1.
    pose proof Hnd1 as [Hnl2 _]%NoDup_cons. assert (l <> l2) by set_solver.
    rewrite (wp_load _ c1) by apply lookup_insert_eq.
    rewrite (wp_assign _ c2) by (simpl; by rewrite lookup_insert_ne).
    wp_step. apply (wp_free_block _ _ c1);
      [simpl; rewrite lookup_insert_ne by done; apply lookup_insert_eq|by rewrite Eo1|].
    simpl. intros s' E1 E2 E3 E4 [Hf1 Hf2]. wp_step. apply HQ.
    + split_and!; cbn [flows finished sockets]; rewrite ?E1, ?E2, ?E3, ?E4, ?En; [|other_cells| |done].
      * exists l2, (set_next (next c) c2).
        rewrite lookup_delete_ne, lookup_insert_eq by done. split_and!; [done..| |other_cells].
        split; [done|]. exists (set_next (next c) c2).
        rewrite lookup_delete_ne, lookup_insert_eq by done. split_and!; [done|by subst b2|other_cells].
      * revert Hnd1. apply NoDup_Permutation_proper. unfold blocks; simpl.
        rewrite !fmap_app. solve_Permutation.
    + rewrite <- Eo1. split; [|done]. rewrite Hf1. simpl.
      apply elem_of_dom_2 in Hl2. set_solver.
Qed.

Lemma wp_clean_active fuel s fs ds fd Q :
  rep s (View fs ds fd) -> NoDup (owned_by (concat fs)) ->
  (forall t, t ∈ owned_by (concat fs) -> t ∈ dom (traces s)) ->
  (length (concat fs) < fuel)%nat ->
  (forall s', rep s' (View [] ds (close_all (concat fs) fd)) ->
     freed (concat fs).*1 (owned_by (concat fs)) s s' -> Q tt s') ->
  wp (clean_active fuel) Q s.
Proof.
  revert s fs fd. induction fuel as [|fuel IH]; intros s fs fd; [lia|].
  intros Hrep Hnd Ht Hf HQ. destruct fs as [|f fs].
  { pose proof Hrep as (Hh & _). simpl in Hh. simpl. wp_step. rewrite Hh. wp_step.
    apply HQ; [done|]. split; set_solver. }
  pose proof Hrep as ((l & c & Hh & _ & Hc & _) & _). rewrite Hh in Hc.
  destruct (chain_cons_inv _ _ _ Hc) as (b & rest & ->).
  cbn [concat app length] in *. rewrite owned_by_cons in Hnd, Ht, HQ.
  apply NoDup_app in Hnd as (Hnd1 & Hdis & Hnd2).
  eapply wp_clean_active_step; [done|set_solver|]. intros s1 Hrep1 [Hf1 Hf2].
  eapply IH; [done| | | |]; rewrite ?concat_drop_front; [done| |lia|].
  - intros t Hin. rewrite Hf2. specialize (Hdis t). set_solver.
  - intros s' Hr Hfr. apply HQ; [done|]. by apply (freed_app [l] (owned b) _ _ s s1).
Qed.

Lemma wp_clean_done fuel s ds fd Q :
  rep s (View [] ds fd) -> NoDup (owned_by ds) ->
  (forall t, t ∈ owned_by ds -> t ∈ dom (traces s)) ->
  (length ds < fuel)%nat ->
  (forall s', rep s' (View [] [] fd) -> freed ds.*1 (owned_by ds) s s' -> Q tt s') ->
  wp (clean_done fuel) Q s.
Proof.
  revert s ds. induction fuel as [|fuel IH]; intros s ds; [lia|].
  intros (Hh & Hd & Hnd & Hfd) Hno Ht Hf HQ. simpl in Hh, Hd, Hf. simpl.
  destruct ds as [|[l b] ds]; simpl in Hd.
  { wp_step. rewrite Hd. wp_step. apply HQ; [done|]. split; set_solver. }
  destruct Hd as (Hd & c & Hl & Hb & Hp). wp_step. rewrite Hd. wp_step.
  rewrite owned_by_cons in Hno, Ht, HQ.
  apply NoDup_app in Hno as (Hno1 & Hdis & Hno2).
  assert (Eo : owned c = owned b) by (by rewrite <- Hb).
  rewrite (wp_load _ c) by done. wp_step.
  apply (wp_free_block _ _ c); [done|rewrite Eo; simpl; set_solver|].
  intros s1 E1 E2 E3 E4 [Hf1 Hf2]. simpl in *. wp_step.
  unfold blocks in Hnd. simpl in Hnd. apply NoDup_cons in Hnd as [Hnl Hnd].
  eapply IH; [|done| |simpl in Hf; lia|].
  - split_and!; cbn [flows finished sockets]; rewrite ?E1, ?E2, ?E3, ?E4; [done|other_cells|done|done].
  - intros t Hin. rewrite Hf2, Eo. specialize (Hdis t). set_solver.
  - intros s' Hr Hfr. apply HQ; [done|]. rewrite <- Eo.
    by apply (freed_app [l] (owned c) _ _ s s1).
Qed.

Lemma wp_clean_up s a Q :
  rep s a -> NoDup (owned_by (blocks a)) ->
  (forall t, t ∈ owned_by (blocks a) -> t ∈ dom (traces s)) ->
  (forall s', head s' = None -> done s' = None -> buffer s' = None ->
     fds s' = close_all (concat (flows a)) (sockets a) ->
     freed (blocks a).*1 (owned_by (blocks a)) s s' -> Q tt s') ->
  wp clean_up Q s.
Proof.
  destruct a as [fs ds fd]. unfold blocks. cbn [flows finished sockets].
  rewrite owned_by_app, fmap_app. intros Hrep (Hn1 & Hdis & Hn2)%NoDup_app Ht HQ.
  pose proof (rep_size _ _ Hrep) as Hsz. unfold blocks in Hsz. simpl in Hsz.
  rewrite length_app in Hsz. unfold clean_up. wp_step.
  eapply wp_clean_active; [done|done|set_solver|lia|]. intros s1 Hrep1 Hfr1. wp_step.
  pose proof (rep_size _ _ Hrep1) as Hsz1. unfold blocks in Hsz1. simpl in Hsz1.
  eapply wp_clean_done; [done|done| |lia|].
  { intros t Hin. destruct Hfr1 as [_ ->]. specialize (Hdis t). set_solver. }
  intros s2 (Hh & Hd & _ & Hfds) Hfr2. wp_step. simpl in *.
  apply HQ; try done. exact (freed_app _ _ _ _ _ _ _ Hfr1 Hfr2).
Qed.

(** C29: clean_up releases every block of both lists and every trace array they
    own exactly once (a second free of the same object would be a fault),
    closes the sockets of the active blocks, and empties both lists. With
    nothing else allocated no object is left. *)
Theorem clean_up_releases_all s a :
  rep s a -> NoDup (owned_by (blocks a)) ->
  (forall t, t ∈ owned_by (blocks a) -> t ∈ dom (traces s)) ->
  wp clean_up (fun _ s' =>
    head s' = None /\ done s' = None /\ buffer s' = None /\
    fds s' = close_all (concat (flows a)) (sockets a) /\
    dom (heap s') = dom (heap s) ∖ list_to_set (blocks a).*1 /\
    dom (traces s') = dom (traces s) ∖ list_to_set (owned_by (blocks a))) s.
Proof.
  intros Hrep Hn Ht. apply (wp_clean_up _ _ _ Hrep Hn Ht).
  intros s' E1 E2 E3 E4 [E5 E6]. done.
Qed.

End CleanUp.

Lemma clean_up_releases_all_witness :
  exists s', @clean_up (demo_state 0) = Ret (tt, s') /\ dom (heap s') = ∅ /\
    dom (traces s') = ∅ /\ fds s' = ∅.
Proof.
  assert (Ht : forall t, t ∈ owned_by (blocks demo_view) -> t ∈ dom (traces (demo_state 0))).
  { vm_compute owned_by. intros t Ht. apply list_elem_of_singleton in Ht. subst t.
    apply elem_of_dom. vm_compute. eauto. }
  assert (Hn : NoDup (owned_by (blocks demo_view))) by (vm_compute; apply NoDup_singleton).
  pose proof (@clean_up_releases_all (demo_state 0) demo_view (demo_rep 0) Hn Ht) as Hw.
  destruct (proj1 (wp_run _ _ _) Hw) as ([] & s' & E & _ & _ & _ & Hfd & Hh & Htr).
  exists s'. split; [exact E|]. rewrite Hh, Htr, Hfd. vm_compute. auto.
Defined.
