(* ===== verification/RudeParseSpec.v ===== *)
(** What the configuration parser builds: for every input file it returns
    without a fault, and it leaves well-formed lists of blocks. *)
From Stdlib Require Import ZArith Lia Ascii String.
From stdpp Require Import base numbers list gmap strings.
From S2P Require Import Prelude CStdio Timeval RudeState RudeParse RudeFlow RudeLists RudeCleanup.

#[local] Open Scope Z_scope.

(** Case analysis on the result of [sscanf] until the program runs again. *)
Ltac scan_cases :=
  repeat match goal with
  | |- wp (match ?x with _ => _ end) _ _ => is_var x; destruct x
  | |- wp (match sscanf ?b ?f with _ => _ end) _ _ => destruct (sscanf b f) eqn:?
  | |- wp (match ?x with _ => _ end _) _ _ => is_var x; destruct x
  end.

(** ** Traces *)

(** A trace array as send_trace uses it. *)
Definition trace_ok (tr : gmap positive (list trace_entry)) (p : trace_params) : Prop :=
  exists t es, tlist p = Some t /\ tr !! t = Some es /\
    Z.of_nat (length es) = list_size p /\ list_size p < 2 ^ 32 /\
    list_index p = 0 /\ 0 < list_size p /\
    Forall (fun e => PMINSIZE <= te_psize e <= max_psize p) es.

Section Trace.
Context `{Env}.

Lemma wp_drop_trace par t es Q s :
  tlist par = Some t -> traces s !! t = Some es ->
  Q (Trace_params (max_psize par) (list_size par) (list_index par) None, 0)
    (set_traces (delete t (traces s)) s) ->
  wp (drop_trace par) Q s.
Proof.
  intros Et Hes HQ. unfold drop_trace. rewrite Et. wp_step. unfold wp at 1, free_trace.
  by rewrite Hes.
Qed.

Lemma wp_store_trace t es i e Q s :
  traces s !! t = Some es -> (i < length es)%nat ->
  Q tt (set_traces (<[t := <[i := e]> es]> (traces s)) s) ->
  wp (store_trace (Some t) i e) Q s.
Proof.
  intros Hes Hi HQ. unfold wp, store_trace. rewrite Hes.
  by destruct (Nat.ltb_spec i (length es)); [|lia].
Qed.

(** The loop over the lines of the trace: a complete array, or the array is
    released. *)
Definition loop_result (s : rude) (t : positive) (n : nat) (l_size idx : Z)
  (par : trace_params) (lsz : Z) (tr : gmap positive (list trace_entry)) : Prop :=
  (lsz = 0 /\ tlist par = None /\ tr = delete t (traces s)) \/
  (lsz = l_size /\ tlist par = Some t /\ list_index par = idx /\
   exists es, tr = <[t := es]> (traces s) /\ length es = n /\
     Forall (fun e => PMINSIZE <= te_psize e <= max_psize par) es).

Lemma wp_trace_loop n i l_size str par t es Q s :
  tlist par = Some t -> traces s !! t = Some es -> length es = (i + n)%nat ->
  Forall (fun e => PMINSIZE <= te_psize e <= max_psize par) (take i es) ->
  (forall par' lsz tr, loop_result s t (length es) l_size (list_index par) par' lsz tr ->
     Q (par', lsz) (set_traces tr s)) ->
  wp (trace_loop n i l_size str par) Q s.
Proof.
  revert i str par es s. induction n as [|n IH]; intros i str par es s Et Hes Hlen Hall HQ.
  { simpl. wp_step. replace s with (set_traces (traces s) s) by (by destruct s).
    apply HQ. right. split_and!; try done. exists es. rewrite insert_id by done.
    split_and!; try done. rewrite take_ge in Hall by lia. done. }
  assert (Hdrop : wp (drop_trace par) Q s).
  { eapply wp_drop_trace; [done..|]. apply HQ. by left. }
  cbn [trace_loop]. destruct (fgets 255 str) as [[target rest] e].
  destruct target as [|ch target]; [done|].
  scan_cases; try done.
  destruct ((_ <? _) || _ || _ || _) eqn:Eb; [done|].
  apply orb_false_iff in Eb as [[[Eb1%Z.ltb_ge Eb2]%orb_false_iff _]%orb_false_iff _].
  rewrite wp_bind, Et. eapply wp_store_trace; [done|lia|].
  set (es1 := <[i := _]> es).
  eapply (IH (S i) rest _ es1).
  - by destruct (max_psize par <? z).
  - apply lookup_insert_eq.
  - subst es1. rewrite length_insert. lia.
  - subst es1. rewrite take_S_r with (x := Trace_entry z (Timeval z0 (strtoul10 (pad_zeros 6 s0)).1))
      by (rewrite list_lookup_insert_eq; [done|lia]).
    rewrite take_insert_ge by lia. apply Forall_app. split.
    + eapply Forall_impl; [done|]. simpl. intros e' He.
      destruct (Z.ltb_spec (max_psize par) z); simpl; lia.
    + constructor; [|constructor]. simpl.
      destruct (Z.ltb_spec (max_psize par) z); simpl; lia.
  - intros par' lsz tr Hr. apply (HQ par' lsz tr).
    assert (Ei : list_index (if max_psize par <? z then Trace_params z (list_size par)
      (list_index par) (Some t) else par) = list_index par) by (by case_match).
    rewrite <- Et, Ei in Hr || rewrite Ei in Hr.
    unfold loop_result in *. subst es1. rewrite length_insert in Hr. simpl in Hr.
    destruct Hr as [(-> & ? & ->)|(-> & ? & Hi & es2 & -> & ? & ?)]; [left|right].
    + by rewrite delete_insert_eq.
    + split_and!; try done. exists es2. by rewrite insert_insert_eq.
Qed.

Lemma count_lines_total fuel str n :
  (String.length str < fuel)%nat -> 0 <= n < 2 ^ 32 ->
  exists l, count_lines fuel str n = Ret l /\ 0 <= l < 2 ^ 32.
Proof.
  revert str n. induction fuel as [|fuel IH]; intros str n Hf Hn; [lia|].
  cbn [count_lines]. unfold fgets. change (255 - 1)%nat with (S 253).
  destruct (read_line (S 253) str) as [[l r] e] eqn:E. destruct e; [eauto|].
  apply IH; [|apply (wrapu_range 32); lia].
  pose proof (length_read_line _ _ _ _ _ E) as Hlen. destruct l as [|c l]; simpl in Hlen; [|lia].
  by apply read_line_nil in E as [_ ?].
Qed.

(** [trace_parse] leaves the other arrays alone and returns an empty list or a
    complete new array. *)
Record trace_parsed (s s' : rude) (par : trace_params) : Prop := {
  tp_rest : exists n f tr, s' = set_sysno n (set_fresh f (set_traces tr s));
  tp_old : traces s ⊆ traces s';
  tp_fresh : (fresh s <= fresh s')%positive;
  tp_dom : forall t, t ∈ dom (traces s') -> (t < fresh s')%positive;
  tp_par : list_size par = 0 \/
           trace_ok (traces s') par /\ forall t, tlist par = Some t -> t ∉ dom (traces s)
}.

Lemma trace_parsed_none s par n :
  list_size par = 0 -> (forall t, t ∈ dom (traces s) -> (t < fresh s)%positive) ->
  trace_parsed s (set_sysno n s) par.
Proof.
  intros Hp Hd. constructor; simpl; try done; [|by left].
  exists n, (fresh s), (traces s). by destruct s.
Qed.

Lemma wp_trace_parse buf Q s :
  (forall t, t ∈ dom (traces s) -> (t < fresh s)%positive) ->
  (forall par s', trace_parsed s s' par -> Q par s') ->
  wp (trace_parse buf (Trace_params 0 0 0 None)) Q s.
Proof.
  intros Hd HQ.
  assert (Hnone : wp (mret (Trace_params 0 0 0 None)) Q s).
  { wp_step. apply HQ. replace s with (set_sysno (sysno s) s) at 2 by (by destruct s).
    by apply trace_parsed_none. }
  unfold trace_parse. scan_cases; try done.
  destruct (fopen s0) as [f|]; [|done]. destruct (read_fails f); [done|].
  destruct (count_lines_total (S (String.length (contents f))) (contents f) 0)
    as (l & -> & Hl); [lia..|].
  unfold malloc_trace, syscall. wp_step. destruct (env_malloc (sysno s)); wp_step.
  2: { apply HQ. by apply trace_parsed_none. }
  simpl. set (s1 := set_fresh _ _). set (t := fresh s) in *.
  assert (Ht : t ∉ dom (traces s)) by (intros Hin; apply Hd in Hin; lia).
  eapply (wp_trace_loop _ 0 _ _ _ t (replicate (Z.to_nat l) (Trace_entry 0 (Timeval 0 0))) _ s1).
  - done.
  - apply lookup_insert_eq.
  - by rewrite length_replicate.
  - constructor.
  - intros par lsz tr Hr. wp_step. apply HQ. unfold loop_result in Hr. simpl in Hr.
    rewrite delete_insert_eq, delete_id in Hr by (by apply not_elem_of_dom).
    setoid_rewrite insert_insert_eq in Hr. rewrite length_replicate in Hr.
    constructor; simpl; try lia.
    + eexists _, _, _. reflexivity.
    + destruct Hr as [(_ & _ & ->)|(_ & _ & _ & es & -> & _)]; [done|].
      apply insert_subseteq. by apply not_elem_of_dom.
    + intros x Hx. destruct Hr as [(_ & _ & ->)|(_ & _ & _ & es & -> & _)].
      * apply Hd in Hx. lia.
      * rewrite dom_insert_L in Hx. apply elem_of_union in Hx as [Hx|Hx]; [set_solver by lia|].
        apply Hd in Hx. lia.
    + destruct Hr as [(-> & _)|(-> & Et & Ei & es & -> & Hlen & Hall)]; [by left|].
      destruct (decide (l = 0)) as [->|]; [by left|]. right. split.
      * exists t, es. simpl. rewrite lookup_insert_eq. split_and!; try done; lia.
      * intros x. rewrite Et. intros [= <-]. done.
Qed.

End Trace.

(** ** The invariant of the parser *)

(** What every configured block satisfies. *)
Definition block_ok (tr : gmap positive (list trace_entry)) (c : flow_cfg) : Prop :=
  normal (flow_start c) /\ normal (flow_stop c) /\
  match params c with
  | PNone => False
  | PCbr p => send_func c = Send_cbr /\ PMINSIZE <= psize p <= PMAXSIZE
  | PTrace p => send_func c = Send_trace /\ trace_ok tr p
  end.

(** The blocks of a flow carry one id and follow each other without a gap: each
    ends when the next one starts, and none ends before it starts. *)
Fixpoint timeline (bs : list block) : Prop :=
  match bs with
  | [] => True
  | x :: rest =>
    match rest with
    | [] => stop_set x.2 = true -> timercmp_lt (flow_stop x.2) (flow_start x.2) = false
    | y :: _ =>
      flow_stop x.2 = flow_start y.2 /\ flow_id x.2 = flow_id y.2 /\
      timercmp_lt (flow_stop x.2) (flow_start x.2) = false
    end /\ timeline rest
  end.

Definition ids (fs : list (list block)) : list Z := (fun x => flow_id x.2) <$> fronts fs.

(** The flows [fs], with [x] a block that is allocated and not yet linked. *)
Record parsed (s : rude) (fs : list (list block)) (x : option block) : Prop := {
  pa_rep : rep s (View fs [] ∅);
  pa_dom : dom (heap s) = list_to_set (concat fs).*1 ∪ list_to_set (option_list x).*1;
  pa_new : forall l c, x = Some (l, c) -> heap s !! l = Some c /\ l ∉ (concat fs).*1;
  pa_fresh : forall l, l ∈ dom (heap s) -> (l < fresh s)%positive;
  pa_tfresh : forall t, t ∈ dom (traces s) -> (t < fresh s)%positive;
  pa_ok : Forall (fun y => block_ok (traces s) y.2) (concat fs);
  pa_owned : NoDup (owned_by (concat fs));
  pa_ids : NoDup (ids fs);
  pa_time : Forall timeline fs;
  pa_start : normal (tester_start s)
}.

(** The lists only depend on the cells of their blocks. *)
Lemma rep_ext s s' a :
  rep s a -> head s' = head s -> done s' = done s -> fds s' = fds s ->
  (forall l, l ∈ (blocks a).*1 -> heap s' !! l = heap s !! l) -> rep s' a.
Proof.
  intros (Ha & Hp & Hnd & Hfd) Eh Ed Ef Hh. unfold blocks in Hh. rewrite fmap_app in Hh.
  split_and!; [..|done|by rewrite Ef].
  - rewrite Eh. eapply active_ext; [|done]. set_solver.
  - rewrite Ed. eapply passive_ext; [|done]. set_solver.
Qed.

Lemma block_ok_mono tr tr' c : tr ⊆ tr' -> block_ok tr c -> block_ok tr' c.
Proof.
  intros Hsub (H1 & H2 & Hp). split_and!; [done..|]. destruct (params c); try done.
  destruct Hp as (Hf & t & es & Et & Hes & Hr). split; [done|]. exists t, es.
  split_and!; [done| |apply Hr..]. by eapply lookup_weaken.
Qed.

Lemma block_ok_owned tr c t : block_ok tr c -> t ∈ owned c -> t ∈ dom tr.
Proof.
  unfold block_ok, owned. intros (_ & _ & Hp). destruct (params c) as [|p|p]; [set_solver..|].
  destruct Hp as (_ & u & es & -> & Hes & _). simpl. rewrite list_elem_of_singleton. intros ->.
  by eapply elem_of_dom_2.
Qed.

Lemma owned_by_dom s fs x t : parsed s fs x -> t ∈ owned_by (concat fs) -> t ∈ dom (traces s).
Proof.
  intros Hp Ht. unfold owned_by in Ht. apply list_elem_of_bind in Ht as (y & Ht & Hy).
  eapply block_ok_owned; [|done]. exact (proj1 (Forall_forall _ _) (pa_ok _ _ _ Hp) y Hy).
Qed.

(** A step that touches neither the lists, nor the pending block, nor the live
    arrays. *)
Lemma parsed_frame s s' fs x :
  parsed s fs x -> heap s' = heap s -> head s' = head s -> done s' = done s ->
  fds s' = fds s -> traces s ⊆ traces s' -> (fresh s <= fresh s')%positive ->
  (forall t, t ∈ dom (traces s') -> (t < fresh s')%positive) -> normal (tester_start s') ->
  parsed s' fs x.
Proof.
  intros Hp Eh E1 E2 E3 Htr Hfr Ht Hn. constructor; rewrite ?Eh; try apply Hp; try done.
  - eapply rep_ext; [apply Hp|..]; try done. by rewrite Eh.
  - intros l Hl. eapply Pos.lt_le_trans; [by eapply pa_fresh|done].
  - eapply Forall_impl; [apply Hp|]. simpl. intros y. by apply block_ok_mono.
Qed.

Lemma parsed_sysno n s fs x : parsed s fs x -> parsed (set_sysno n s) fs x.
Proof.
  intros Hp. eapply parsed_frame; [done|..]; try done; try apply Hp.
Qed.

Section Operations.
Context `{Env}.

Lemma wp_malloc_flow s fs Q :
  parsed s fs None ->
  (forall n, Q None (set_sysno n s)) ->
  (forall l s', parsed s' fs (Some (l, zero_flow)) -> traces s' = traces s ->
     tester_start s' = tester_start s -> Q (Some l) s') ->
  wp malloc_flow Q s.
Proof.
  intros Hp HN HS. unfold malloc_flow, syscall. wp_step.
  destruct (env_malloc (sysno s)); wp_step; [|apply HN]. simpl. apply HS; try done.
  set (l := fresh s).
  assert (Hl : l ∉ dom (heap s)) by (intros Hin; apply (pa_fresh _ _ _ Hp) in Hin; lia).
  assert (Hl' : l ∉ (concat fs).*1) by (rewrite (pa_dom _ _ _ Hp) in Hl; set_solver).
  constructor; simpl; try apply Hp.
  - eapply rep_ext; [apply (pa_rep _ _ _ Hp)|..]; try done. intros k Hk. simpl.
    apply lookup_insert_ne. unfold blocks in Hk. simpl in Hk. rewrite app_nil_r in Hk. congruence.
  - rewrite dom_insert_L, (pa_dom _ _ _ Hp). set_solver.
  - intros k c [= <- <-]. by rewrite lookup_insert_eq.
  - intros k Hk. rewrite dom_insert_L in Hk. apply elem_of_union in Hk as [Hk|Hk].
    + set_solver by lia.
    + apply (pa_fresh _ _ _ Hp) in Hk. lia.
  - intros t Ht. apply (pa_tfresh _ _ _ Hp) in Ht. lia.
Qed.

(** [new->field = v] *)
Lemma wp_assign_new s fs l c f Q :
  parsed s fs (Some (l, c)) ->
  (forall s', parsed s' fs (Some (l, f c)) -> traces s' = traces s ->
     tester_start s' = tester_start s -> Q tt s') ->
  wp (assign (Some l) f) Q s.
Proof.
  intros Hp HQ. destruct (pa_new _ _ _ Hp l c eq_refl) as [Hl Hnl].
  rewrite (wp_assign _ c) by done. apply HQ; try done. constructor; simpl; try apply Hp.
  - eapply rep_ext; [apply (pa_rep _ _ _ Hp)|..]; try done. intros k Hk. simpl.
    apply lookup_insert_ne. unfold blocks in Hk. simpl in Hk. rewrite app_nil_r in Hk. congruence.
  - rewrite dom_insert_L, (pa_dom _ _ _ Hp). set_solver.
  - intros k c' [= <- <-]. by rewrite lookup_insert_eq.
  - intros k Hk. apply (pa_fresh _ _ _ Hp). rewrite dom_insert_L in Hk.
    apply elem_of_dom_2 in Hl. set_solver.
Qed.

Lemma wp_free_new s fs l c Q :
  parsed s fs (Some (l, c)) ->
  (forall s', parsed s' fs None -> traces s' = traces s -> tester_start s' = tester_start s ->
     Q tt s') ->
  wp (free_flow (Some l)) Q s.
Proof.
  intros Hp HQ. destruct (pa_new _ _ _ Hp l c eq_refl) as [Hl Hnl].
  rewrite (wp_free_flow _ c) by done. apply HQ; try done. constructor; simpl; try apply Hp.
  - eapply rep_ext; [apply (pa_rep _ _ _ Hp)|..]; try done. intros k Hk. simpl.
    apply lookup_delete_ne. unfold blocks in Hk. simpl in Hk. rewrite app_nil_r in Hk. congruence.
  - rewrite dom_delete_L, (pa_dom _ _ _ Hp). set_solver.
  - done.
  - intros k Hk. apply (pa_fresh _ _ _ Hp). rewrite dom_delete_L in Hk. set_solver.
Qed.

End Operations.

(** ** Walking the lists *)

Section Walks.
Context `{Env}.

Lemma wp_find_flow_from fuel s fs p id Q :
  active (heap s) p fs None -> (length fs < fuel)%nat ->
  (id ∉ ids fs -> Q None s) ->
  (forall pre l b rest suf, fs = pre ++ ((l, b) :: rest) :: suf -> flow_id b = id ->
     Q (Some l) s) ->
  wp (find_flow_from fuel p id) Q s.
Proof.
  revert fs p. induction fuel as [|fuel IH]; intros fs p Ha Hf HN HS; [lia|].
  destruct fs as [|f fs]; simpl in Ha.
  { subst p. simpl. wp_step. apply HN. simpl. set_solver. }
  destruct Ha as (l & c & -> & Hl & Hc & Ha). simpl. wp_step. rewrite (wp_load _ c) by done.
  destruct (chain_cons_inv _ _ _ Hc) as (b & rest & ->).
  assert (Hid : flow_id c = flow_id b).
  { destruct Hc as (_ & c' & Hl' & <- & _). rewrite Hl in Hl'. by injection Hl' as <-. }
  destruct (Z.eqb_spec (flow_id c) id) as [E|E]; wp_step.
  - apply (HS [] l b rest fs); [done|congruence].
  - eapply IH; [done|simpl in Hf; lia|..].
    + intros Hn. apply HN. unfold ids, fronts in *. simpl. set_solver.
    + intros pre k d rs suf -> Hd. by apply (HS (((l, b) :: rest) :: pre) k d rs suf).
Qed.

Lemma parsed_size s fs x :
  parsed s fs x -> (length fs <= length (concat fs) <= size (heap s))%nat.
Proof.
  intros Hp. pose proof (rep_size _ _ (pa_rep _ _ _ Hp)) as Hsz. unfold blocks in Hsz.
  simpl in Hsz. rewrite app_nil_r in Hsz. split; [|done].
  destruct (pa_rep _ _ _ Hp) as (Ha & _). by eapply active_length.
Qed.

Lemma wp_find_flow_id s fs x id Q :
  parsed s fs x ->
  (id ∉ ids fs -> Q None s) ->
  (forall pre l b rest suf, fs = pre ++ ((l, b) :: rest) :: suf -> flow_id b = id ->
     Q (Some l) s) ->
  wp (find_flow_id id) Q s.
Proof.
  intros Hp HN HS. unfold find_flow_id. wp_step. pose proof (parsed_size _ _ _ Hp).
  destruct (pa_rep _ _ _ Hp) as (Ha & _).
  eapply wp_find_flow_from; [exact Ha|simpl; lia|done..].
Qed.

(** The last block of a flow. *)
Lemma wp_last_mod fuel s p bs l b Q :
  chain (heap s) p (bs ++ [(l, b)]) -> (length bs < fuel)%nat ->
  Q (Some l) s -> wp (last_mod fuel p) Q s.
Proof.
  revert p bs. induction fuel as [|fuel IH]; intros p bs Hc Hf HQ; [lia|].
  destruct bs as [|[k d] bs]; simpl in Hc; destruct Hc as (-> & c & Hk & _ & Hr);
    simpl; wp_step; rewrite (wp_load _ c) by done.
  - rewrite Hr. by wp_step.
  - destruct (mod_flow c) as [m|] eqn:Em.
    + eapply IH; [exact Hr|simpl in Hf; lia|done].
    + by destruct bs as [|[? ?] ?]; simpl in Hr; destruct Hr as [? _].
Qed.

(** The last flow of the list. *)
Lemma wp_last_next fuel s p fs q l Q :
  active (heap s) p fs None -> p = Some q -> last_loc fs = Some l ->
  (length fs <= fuel)%nat -> Q (Some l) s -> wp (last_next fuel p) Q s.
Proof.
  revert p q fs. induction fuel as [|fuel IH]; intros p q fs Ha Ep Hl Hf HQ;
    (destruct fs as [|f fs]; simpl in Hf; [done|]); [lia|].
  destruct Ha as (k & c & -> & Hk & Hc & Ha). simpl. wp_step. rewrite (wp_load _ c) by done.
  destruct (chain_cons_inv _ _ _ Hc) as (b & rest & ->).
  destruct fs as [|f2 fs].
  - simpl in Ha. rewrite Ha. wp_step. by injection Hl as <-.
  - pose proof Ha as (k2 & c2 & E2 & _). rewrite E2 in *. eapply IH; [exact Ha|done|done|lia|done].
Qed.

(** Linking a new flow at the end of the list. *)
Lemma active_snoc h p fs l b c :
  active h p fs (Some l) -> h !! l = Some c -> body c = b -> mod_flow c = None ->
  next c = None -> active h p (fs ++ [[(l, b)]]) None.
Proof.
  intros Ha Hl Hb Hm Hn. apply active_app. exists (Some l). split; [done|].
  exists l, c. split_and!; [done..| |by rewrite Hn]. split; [done|]. exists c. by rewrite Hm.
Qed.

Lemma ids_app fs1 fs2 : ids (fs1 ++ fs2) = ids fs1 ++ ids fs2.
Proof. unfold ids, fronts. by rewrite omap_app, fmap_app. Qed.

Lemma wp_append_flow s fs l c Q :
  parsed s fs (Some (l, c)) -> next c = None -> mod_flow c = None ->
  block_ok (traces s) c -> (forall t, t ∈ owned c -> t ∉ owned_by (concat fs)) ->
  flow_id c ∉ ids fs -> stop_set c = false ->
  (forall s', parsed s' (fs ++ [[(l, body c)]]) None -> Q tt s') ->
  wp (append_flow (Some l)) Q s.
Proof.
  intros Hp Hn Hm Hok Hown Hid Hst HQ. pose proof (parsed_size _ _ _ Hp) as Hsz.
  destruct (pa_new _ _ _ Hp l c eq_refl) as [Hl Hnl].
  pose proof (pa_rep _ _ _ Hp) as (Ha & Hd & Hnd & Hfd). cbn [flows finished sockets] in *.
  unfold blocks in Hnd. simpl in Hnd. rewrite app_nil_r in Hnd.
  assert (Hfin : forall s', active (heap s') (head s') (fs ++ [[(l, body c)]]) None ->
    done s' = done s -> fds s' = fds s -> dom (heap s') = dom (heap s) -> traces s' = traces s ->
    fresh s' = fresh s -> tester_start s' = tester_start s -> Q tt s').
  { intros s' Ha' E1 E2 E3 E4 E5 E6. apply HQ.
    constructor; rewrite ?E3, ?E4, ?E5, ?E6; try apply Hp; try done.
    - split_and!; cbn [flows finished sockets]; [done|simpl in *; congruence| |congruence].
      unfold blocks. cbn [flows finished]. rewrite app_nil_r, concat_app, fmap_app. simpl.
      apply NoDup_app. split_and!; [done|set_solver|apply NoDup_singleton].
    - rewrite (pa_dom _ _ _ Hp), concat_app, fmap_app, list_to_set_app_L. simpl. set_solver.
    - rewrite concat_app. simpl. apply Forall_app. split; [apply Hp|]. constructor; [exact Hok|constructor].
    - rewrite concat_app, owned_by_app. apply NoDup_app. split_and!; [apply Hp|set_solver|].
      simpl. rewrite app_nil_r. unfold owned. simpl. destruct (params c) as [|p|p]; try constructor.
      destruct (tlist p); simpl; [apply NoDup_singleton|constructor].
    - rewrite ids_app. apply NoDup_app. split_and!; [apply Hp|set_solver|apply NoDup_singleton].
    - apply Forall_app. split; [apply Hp|]. repeat constructor. simpl. unfold stop_set in *.
      simpl. by rewrite Hst. }
  unfold append_flow. wp_step. destruct fs as [|f fs].
  - simpl in Ha. rewrite Ha. wp_step. apply Hfin; try done. simpl.
    by apply (active_snoc _ _ []  _ _ c).
  - pose proof Ha as (q & cq & Eq & _). rewrite Eq. wp_step.
    destruct (last_loc (f :: fs)) as [lp|] eqn:El; [|by apply (last_loc_None _ _ _ _ Ha) in El].
    eapply (wp_last_next _ _ _ (f :: fs)); [by rewrite <- Eq|done..|lia|].
    destruct (active_redirect _ _ _ _ (Some l) _ El Hnd Ha) as (cp & Hcp & _ & Ha').
    assert (lp <> l) by (intros ->; by apply Hnl, last_loc_elem).
    rewrite (wp_assign _ cp) by done. apply Hfin; simpl; try done.
    + apply (active_snoc _ _ (f :: fs) _ _ c); try done. by rewrite lookup_insert_ne.
    + rewrite dom_insert_L. apply elem_of_dom_2 in Hcp. set_solver.
Qed.

End Walks.

(** ** Changing configured blocks *)

Lemma timeline_app bs1 bs2 :
  timeline (bs1 ++ bs2) -> timeline bs2.
Proof. induction bs1 as [|x bs1 IH]; simpl; [done|]. intros [_ Ht]. auto. Qed.

(** Replacing the tail of a flow by one that starts alike. *)
Lemma timeline_tail bs x y r r' :
  flow_start y.2 = flow_start x.2 -> flow_id y.2 = flow_id x.2 ->
  timeline (bs ++ x :: r) -> timeline (y :: r') -> timeline (bs ++ y :: r').
Proof.
  intros Es Ei. induction bs as [|z bs IH]; [done|].
  intros [Hz Ht] Hy. split; [|by apply IH]. destruct bs as [|z2 bs]; simpl in Hz |- *; [|done].
  by rewrite Es, Ei.
Qed.

Lemma timeline_update bs1 l b b' bs2 :
  flow_start b' = flow_start b -> flow_stop b' = flow_stop b -> flow_id b' = flow_id b ->
  timeline (bs1 ++ (l, b) :: bs2) -> timeline (bs1 ++ (l, b') :: bs2).
Proof.
  intros E1 E2 E3 Ht. eapply (timeline_tail _ (l, b)); [done..|]. apply timeline_app in Ht.
  destruct Ht as [Hb Ht]. split; [|done]. unfold stop_set in *.
  destruct bs2; simpl in *; rewrite ?E1, ?E2, ?E3; done.
Qed.

Lemma parsed_lookup s pre bs1 l b bs2 suf x :
  parsed s (pre ++ (bs1 ++ (l, b) :: bs2) :: suf) x ->
  exists c, heap s !! l = Some c /\ body c = b.
Proof.
  intros Hp. eapply (rep_lookup_active _ _ (bs1 ++ (l, b) :: bs2) (l, b));
    [apply Hp|set_solver..].
Qed.

Lemma concat_mid {A} (pre : list (list A)) bs1 y bs2 suf :
  concat (pre ++ (bs1 ++ y :: bs2) :: suf) = (concat pre ++ bs1) ++ y :: (bs2 ++ concat suf).
Proof. rewrite concat_app. simpl. by rewrite <- !app_assoc. Qed.

Lemma parsed_block s pre bs1 l b bs2 suf x :
  parsed s (pre ++ (bs1 ++ (l, b) :: bs2) :: suf) x ->
  block_ok (traces s) b /\ timeline (bs1 ++ (l, b) :: bs2).
Proof.
  intros Hp. pose proof (pa_ok _ _ _ Hp) as Hoks. rewrite concat_mid in Hoks.
  apply Forall_app in Hoks as [_ (Hok & _)%Forall_cons]. split; [exact Hok|].
  pose proof (pa_time _ _ _ Hp) as Ht. by apply Forall_app in Ht as [_ (Ht & _)%Forall_cons].
Qed.

Lemma owned_by_mid bs1 l b bs2 :
  owned_by (bs1 ++ (l, b) :: bs2) = owned_by bs1 ++ owned b ++ owned_by bs2.
Proof. by rewrite owned_by_app, owned_by_cons. Qed.

Lemma parsed_update s pre bs1 l b bs2 suf x c c' :
  parsed s (pre ++ (bs1 ++ (l, b) :: bs2) :: suf) x ->
  heap s !! l = Some c -> next c' = next c -> mod_flow c' = mod_flow c ->
  block_ok (traces s) c' -> params c' = params c -> flow_id c' = flow_id c ->
  timeline (bs1 ++ (l, body c') :: bs2) ->
  parsed (set_heap (<[l := c']> (heap s)) s) (pre ++ (bs1 ++ (l, body c') :: bs2) :: suf) x.
Proof.
  intros Hp Hl En Em Hok Hpar Hid Ht.
  destruct (parsed_lookup _ _ _ _ _ _ _ _ Hp) as (c0 & Hl0 & Hb).
  rewrite Hl in Hl0. injection Hl0 as <-.
  assert (Hdom : dom (<[l := c']> (heap s)) = dom (heap s)).
  { rewrite dom_insert_L. apply elem_of_dom_2 in Hl. set_solver. }
  pose proof (pa_ok _ _ _ Hp) as Hoks. pose proof (pa_owned _ _ _ Hp) as Hown.
  pose proof (pa_ids _ _ _ Hp) as Hids. pose proof (pa_time _ _ _ Hp) as Htime.
  constructor; simpl; rewrite ?Hdom; try apply Hp.
  - eapply rep_update; [apply Hp|done..].
  - rewrite (pa_dom _ _ _ Hp), !concat_mid, !(fmap_app fst (_ ++ _)), !fmap_cons. done.
  - intros k d ->. destruct (pa_new _ _ _ Hp k d eq_refl) as [Hk Hnk].
    rewrite concat_mid, fmap_app, fmap_cons in Hnk |- *.
    rewrite lookup_insert_ne; [done|]. simpl in Hnk. set_solver.
  - rewrite concat_mid in Hoks |- *. apply Forall_app in Hoks as [H1 (_ & H2)%Forall_cons].
    apply Forall_app. split; [done|]. constructor; [exact Hok|done].
  - rewrite concat_mid, owned_by_mid in Hown |- *.
    replace (owned (body c')) with (owned b); [done|]. rewrite <- Hb. unfold owned. simpl.
    by rewrite Hpar.
  - rewrite ids_app in Hids |- *. replace (ids ((bs1 ++ (l, body c') :: bs2) :: suf))
      with (ids ((bs1 ++ (l, b) :: bs2) :: suf)); [done|].
    unfold ids. destruct bs1 as [|y bs1]; [|done]. simpl. rewrite <- Hb. simpl. by rewrite Hid.
  - apply Forall_app in Htime as [H1 (_ & H2)%Forall_cons]. apply Forall_app. by repeat constructor.
Qed.

(** ** flow_off *)

Section FlowOff.
Context `{Env}.

(** What [flow_off] makes of the last block [b] of the flow. *)
Definition off_result (ts : timeval) (time rc : Z) (b b' : flow_cfg) : Prop :=
  (rc = -1 /\ b' = b) \/
  (rc = -2 /\ b' = set_flow_stop (flow_start b) b) \/
  (rc = 0 /\ b' = set_flow_stop (timeradd (of_millis time) ts) b /\
   timercmp_lt (flow_stop b') (flow_start b') = false).

Lemma wp_flow_off s pre bs l b suf x target bs2 time Q :
  parsed s (pre ++ (bs ++ [(l, b)]) :: suf) x ->
  chain (heap s) target (bs2 ++ [(l, b)]) -> (length bs2 <= length bs)%nat -> 0 <= time ->
  (forall rc b' s', off_result (tester_start s) time rc b b' ->
     parsed s' (pre ++ (bs ++ [(l, b')]) :: suf) x -> traces s' = traces s ->
     tester_start s' = tester_start s -> Q rc s') ->
  wp (flow_off target time) Q s.
Proof.
  intros Hp Hc Hlen Htime HQ. pose proof (parsed_size _ _ _ Hp) as Hsz.
  rewrite concat_mid in Hsz. rewrite !length_app in Hsz. simpl in Hsz.
  destruct (parsed_lookup _ _ _ _ _ _ _ _ Hp) as (c & Hl & Hb).
  destruct (parsed_block _ _ _ _ _ _ _ _ Hp) as [Hok Ht].
  unfold flow_off. wp_step. eapply wp_last_mod; [done|lia|]. wp_step.
  rewrite (wp_load _ c) by done.
  assert (Est : stop_set c = stop_set b) by (by rewrite <- Hb).
  destruct (stop_set c) eqn:Es; wp_step.
  { eapply (HQ _ b); [by left|done..]. }
  rewrite (wp_assign _ c) by done. wp_step. set (stop := timeradd _ _).
  rewrite (wp_load _ (set_flow_stop stop c)) by apply lookup_insert_eq.
  assert (Hns : normal stop).
  { apply normal_timeradd; [by apply normal_of_millis|apply Hp]. }
  assert (Hupd : forall st, normal st -> timercmp_lt st (flow_start c) = false ->
    parsed (set_heap (<[l := set_flow_stop st c]> (heap s)) s)
      (pre ++ (bs ++ [(l, set_flow_stop st b)]) :: suf) x).
  { intros st Hst Hge. subst b. eapply (parsed_update s _ _ _ _ _ _ _ c (set_flow_stop st c));
      try done.
    - destruct Hok as (H1 & _ & H3). done.
    - eapply (timeline_tail _ (l, body c)); [done..|]. simpl. done. }
  destruct (timercmp_lt (flow_stop (set_flow_stop stop c)) (flow_start (set_flow_stop stop c))) eqn:Ec;
    simpl in Ec; wp_step.
  - erewrite wp_assign; [|apply lookup_insert_eq]. simpl. rewrite insert_insert_eq. wp_step.
    eapply (HQ _ (set_flow_stop (flow_start b) b)); [by right; left| |done..].
    replace (flow_start b) with (flow_start c) by (by rewrite <- Hb). apply Hupd.
    + rewrite <- Hb in Hok. by destruct Hok as (? & _).
    + apply timercmp_lt_irrefl.
  - eapply (HQ _ (set_flow_stop stop b)); [|by apply Hupd|done..].
    right; right. split_and!; [done..|]. rewrite <- Hb. done.
Qed.

End FlowOff.

(** ** flow_modify *)

Lemma rep_link s pre bs l b suf c m cm :
  rep s (View (pre ++ (bs ++ [(l, b)]) :: suf) [] ∅) ->
  heap s !! l = Some c -> heap s !! m = Some cm -> mod_flow cm = None ->
  m ∉ (concat (pre ++ (bs ++ [(l, b)]) :: suf)).*1 ->
  rep (set_heap (<[l := set_mod_flow (Some m) c]> (heap s)) s)
    (View (pre ++ (bs ++ [(l, b); (m, body cm)]) :: suf) [] ∅).
Proof.
  intros (Ha & Hp & Hnd & Hfd) Hl Hm Emm Hnm. cbn [flows finished sockets] in *.
  unfold blocks in Hnd. cbn [flows finished] in Hnd. rewrite app_nil_r in Hnd.
  rewrite concat_mid in Hnd, Hnm. simpl in Hnd, Hnm. rewrite !fmap_app, fmap_cons in Hnd, Hnm.
  simpl in Hnd, Hnm.
  assert (NoDup (l :: (concat pre).*1 ++ bs.*1 ++ (concat suf).*1)) as [Hnl _]%NoDup_cons.
  { revert Hnd. apply NoDup_Permutation_proper. solve_Permutation. }
  assert (l <> m) by set_solver.
  apply active_app in Ha as (r & Hpre & (k & ck & -> & Hk & Hf & Hsuf)).
  apply mods_app in Hf as (r & H1 & H2). simpl in H2. destruct H2 as (-> & c0 & Hl0 & Hb & H2).
  rewrite Hl in Hl0. injection Hl0 as <-. set (c' := set_mod_flow (Some m) c).
  assert (Hf' : mods (<[l := c']> (heap s)) (Some k) (bs ++ [(l, b); (m, body cm)]) None).
  { apply mods_app. exists (Some l). split; [other_cells|]. split; [done|].
    exists c'. rewrite lookup_insert_eq. split_and!; [done..|]. split; [done|].
    exists cm. rewrite lookup_insert_ne by done. by rewrite Emm. }
  split_and!; cbn [flows finished sockets heap head done fds set_heap]; [|done| |done].
  - apply active_app. exists (Some k). split; [other_cells|].
    destruct (decide (k = l)) as [->|Hne].
    + rewrite Hl in Hk. injection Hk as <-. exists l, c'. rewrite lookup_insert_eq.
      split_and!; [done..|other_cells].
    + exists k, ck. rewrite lookup_insert_ne by done. split_and!; [done..|other_cells].
  - unfold blocks. cbn [flows finished]. rewrite app_nil_r, concat_mid. simpl.
    rewrite !fmap_app. simpl.
    assert (NoDup (m :: ((concat pre).*1 ++ bs.*1) ++ l :: (concat suf).*1)) as Hnd'.
    { apply NoDup_cons. split; [set_solver|done]. }
    revert Hnd'. apply NoDup_Permutation_proper. solve_Permutation.
Qed.

Lemma parsed_link s pre bs l b suf c m cm :
  parsed s (pre ++ (bs ++ [(l, b)]) :: suf) (Some (m, cm)) ->
  heap s !! l = Some c -> mod_flow cm = None -> block_ok (traces s) cm -> owned cm = [] ->
  timeline (bs ++ [(l, b); (m, body cm)]) ->
  parsed (set_heap (<[l := set_mod_flow (Some m) c]> (heap s)) s)
    (pre ++ (bs ++ [(l, b); (m, body cm)]) :: suf) None.
Proof.
  intros Hp Hl Emm Hok Hown Ht. destruct (pa_new _ _ _ Hp m cm eq_refl) as [Hm Hnm].
  assert (Hdom : dom (<[l := set_mod_flow (Some m) c]> (heap s)) = dom (heap s)).
  { rewrite dom_insert_L. apply elem_of_dom_2 in Hl. set_solver. }
  pose proof (pa_ok _ _ _ Hp) as Hoks. pose proof (pa_owned _ _ _ Hp) as Howns.
  pose proof (pa_ids _ _ _ Hp) as Hids. pose proof (pa_time _ _ _ Hp) as Htime.
  constructor; simpl; rewrite ?Hdom; try apply Hp; try done.
  - eapply rep_link; [apply Hp|done..].
  - rewrite (pa_dom _ _ _ Hp), !concat_mid. simpl. rewrite !fmap_app. simpl.
    rewrite !list_to_set_app_L. simpl. set_solver.
  - rewrite concat_mid in Hoks |- *. simpl in Hoks |- *.
    apply Forall_app in Hoks as [H1 (H2 & H3)%Forall_cons].
    apply Forall_app. split; [done|]. by repeat (constructor; [done|]).
  - rewrite concat_mid, owned_by_mid in Howns |- *.
    rewrite (owned_by_app [(m, body cm)]), owned_by_cons.
    replace (owned (body cm)) with (@nil positive) by (symmetry; exact Hown). exact Howns.
  - rewrite ids_app in Hids |- *. unfold ids, fronts in *. by destruct bs.
  - apply Forall_app in Htime as [H1 (_ & H2)%Forall_cons]. apply Forall_app. by repeat constructor.
Qed.

Lemma timeline_link bs l b m c :
  timeline (bs ++ [(l, b)]) -> flow_stop b = flow_start c -> flow_id c = flow_id b ->
  timercmp_lt (flow_stop b) (flow_start b) = false -> stop_set c = false ->
  timeline (bs ++ [(l, b); (m, c)]).
Proof.
  intros Ht Es Ei Hge Hns. eapply (timeline_tail _ (l, b)); [done..|]. simpl.
  rewrite Hns. split_and!; try done.
Qed.

Section FlowModify.
Context `{Env}.

Lemma parsed_chain s pre l b rest suf x :
  parsed s (pre ++ ((l, b) :: rest) :: suf) x -> chain (heap s) (Some l) ((l, b) :: rest).
Proof.
  intros Hp. destruct (pa_rep _ _ _ Hp) as (Ha & _). cbn [flows] in Ha.
  apply active_app in Ha as (r & _ & (k & c & -> & _ & Hf & _)).
  simpl in Hf |- *. by destruct Hf as ([= ->] & Hf).
Qed.

Lemma parsed_chain_last s pre bs l b suf x :
  parsed s (pre ++ (bs ++ [(l, b)]) :: suf) x -> chain (heap s) (Some l) [(l, b)].
Proof.
  intros Hp. destruct (pa_rep _ _ _ Hp) as (Ha & _). cbn [flows] in Ha.
  apply active_app in Ha as (r & _ & (k & c & -> & _ & Hf & _)).
  apply mods_app in Hf as (r & _ & Hf). pose proof Hf as (-> & _). exact Hf.
Qed.

(** The start and the first transmission time of a new block. *)
Lemma wp_set_times s fs l c time Q :
  parsed s fs (Some (l, c)) ->
  (forall s', let start := timeradd (of_millis time) (tester_start s) in
     parsed s' fs (Some (l, set_next_tx start (set_flow_start start c))) ->
     traces s' = traces s -> tester_start s' = tester_start s -> Q tt s') ->
  wp (set_times (Some l) time) Q s.
Proof. intros Hp HQ. unfold set_times. wp_step. by eapply wp_assign_new. Qed.

Lemma i32_psize z : PMINSIZE <= z <= PMAXSIZE -> i32 z = z.
Proof. intros. apply wraps_small; [lia|]. unfold PMINSIZE, PMAXSIZE in *. lia. Qed.

Lemma wp_flow_modify s pre l0 b0 rest suf buf Q :
  parsed s (pre ++ ((l0, b0) :: rest) :: suf) None ->
  (forall rc s' fs, parsed s' fs None -> Q rc s') ->
  wp (flow_modify (Some l0) buf) Q s.
Proof.
  intros Hp HQ. assert (Hret : forall rc, wp (mret rc) Q s) by (intros; wp_step; eauto).
  unfold flow_modify. scan_cases; try apply Hret.
  destruct ((z <? 0) || _) eqn:Eb; [apply Hret|]. apply orb_false_iff in Eb as [Et%Z.ltb_ge _].
  rewrite wp_bind. eapply wp_malloc_flow; [done|..].
  { intros n. wp_step. eapply HQ. by apply parsed_sysno. }
  intros m s1 Hp1 Etr1 Ets1. pose proof (parsed_chain _ _ _ _ _ _ _ Hp1) as Hc1.
  destruct (exists_last (l := (l0, b0) :: rest) ltac:(done)) as (bs & [l b] & E). rewrite E in *.
  pose proof (parsed_size _ _ _ Hp1) as Hsz. rewrite concat_mid, !length_app in Hsz. simpl in Hsz.
  wp_step. eapply wp_last_mod; [exact Hc1|lia|]. wp_step.
  eapply (wp_flow_off _ _ _ _ _ _ _ _ []); [exact Hp1|by eapply parsed_chain_last|simpl; lia|done|].
  intros rc b' s2 Hoff Hp2 Etr2 Ets2.
  assert (Hfree : forall s' c rc, parsed s' (pre ++ (bs ++ [(l, b')]) :: suf) (Some (m, c)) ->
    wp (free_flow (Some m);; mret rc) Q s').
  { intros s' c r Hp'. rewrite wp_bind. eapply wp_free_new; [done|]. intros s'' Hp'' _ _. wp_step. eauto. }
  destruct Hoff as [(-> & _)|[(-> & _)|(-> & Eb' & Hge)]]; simpl; [by eapply Hfree..|].
  rewrite wp_bind. eapply wp_set_times; [exact Hp2|]. intros s3 start Hp3 Etr3 Ets3.
  destruct (check_type s0); [by eapply Hfree| |by eapply Hfree].
  scan_cases; try (by eapply Hfree).
  destruct ((_ <? _) || _ || _) eqn:Ez; [by eapply Hfree|].
  apply orb_false_iff in Ez as [[_ Ez1%Z.ltb_ge]%orb_false_iff Ez2%Z.ltb_ge].
  destruct (parsed_lookup _ _ _ _ _ _ _ _ Hp3) as (c & Hl & Hb).
  wp_step. rewrite (wp_load _ c) by done. wp_step.
  eapply wp_assign_new; [exact Hp3|]. intros s4 Hp4 Etr4 Ets4.
  destruct (parsed_lookup _ _ _ _ _ _ _ _ Hp4) as (c4 & Hl4 & Hb4).
  wp_step. rewrite (wp_assign _ c4) by done. wp_step. eapply HQ.
  eapply parsed_link; [exact Hp4|done..| | |].
  - split_and!; simpl; try done; [|rewrite i32_psize by lia; done].
    apply normal_timeradd; [by apply normal_of_millis|]. rewrite Ets2, Ets1. apply Hp.
  - done.
  - pose proof (pa_time _ _ _ Hp4) as Ht. apply Forall_app in Ht as [_ (Ht & _)%Forall_cons].
    apply timeline_link; try done; simpl.
    + rewrite Eb'. simpl. by rewrite <- Ets2.
    + by rewrite <- Hb.
Qed.

End FlowModify.

(** ** flow_on *)

Section FlowOn.
Context `{Env}.

Lemma wp_check_dst d Q s :
  (String.length d < 128)%nat -> (forall r, Q r s) -> wp (check_dst d) Q s.
Proof.
  intros Hlen HQ. unfold check_dst. destruct (strrchr d ":"%char) as [k|] eqn:E; [|wp_step; auto].
  apply strrchr_length in E. destruct ((_ <? 1) && _); [wp_step; auto|].
  destruct (Z.leb_spec DNMAXLEN (Z.of_nat k)); [unfold DNMAXLEN in *; lia|].
  scan_cases; try (wp_step; by auto). destruct (gethostbyname _); wp_step; auto.
Qed.

Definition fmt_on : string := "%ld %ld %*10s %hu %127s %31s %*s".

(** The host name fits its buffer. *)
Lemma fmt_on_dst buf t id sp d ty :
  sscanf buf fmt_on = [VInt t; VInt id; VInt sp; VStr d; VStr ty] -> (String.length d < 128)%nat.
Proof.
  unfold sscanf. set (ds := parse_fmt _ _). vm_compute in ds. subst ds. cbv beta iota.
  match goal with |- scan ?ds _ = _ -> _ => destruct (scan_fits ds buf) as [n Hn] end.
  intros E. rewrite E in Hn. clear E. simpl in Hn.
  do 5 (destruct n as [|n]; simpl in Hn; [by decompose_Forall_hyps|]).
  decompose_Forall_hyps. simpl in *. lia.
Qed.

Lemma trace_parsed_frame s s' fs x par :
  parsed s fs x -> trace_parsed s s' par ->
  parsed s' fs x /\ tester_start s' = tester_start s.
Proof.
  intros Hp [(n & f & tr & ->) Hold Hfr Hdom _]. split; [|done].
  eapply parsed_frame; [exact Hp|done..|apply Hp].
Qed.

(** A block that has been given its id and times. *)
Definition fresh_block (c : flow_cfg) : Prop :=
  next c = None /\ mod_flow c = None /\ flow_stop c = Timeval 0 0 /\ normal (flow_start c).

Lemma wp_finish_flow s fs l c Q :
  parsed s fs (Some (l, c)) -> fresh_block c -> block_ok (traces s) c ->
  (forall t, t ∈ owned c -> t ∉ owned_by (concat fs)) -> flow_id c ∉ ids fs ->
  (forall rc s' fs', parsed s' fs' None -> Q rc s') ->
  wp (append_flow (Some l);; mret 0) Q s.
Proof.
  intros Hp (H1 & H2 & H3 & H4) Hok Hown Hid HQ. rewrite wp_bind.
  eapply wp_append_flow; try done; [unfold stop_set; by rewrite H3|]. intros s' Hp'.
  wp_step. eauto.
Qed.

Lemma wp_free_ret s fs l c (rc : Z) (Q : Z -> rude -> Prop) :
  parsed s fs (Some (l, c)) -> (forall rc s' fs', parsed s' fs' None -> Q rc s') ->
  wp (free_flow (Some l);; mret rc) Q s.
Proof.
  intros Hp HQ. rewrite wp_bind. eapply wp_free_new; [done|]. intros s' Hp' _ _. wp_step. eauto.
Qed.

(** The CBR branch. *)
Lemma wp_on_cbr s fs l c id sport r sz (Q : Z -> rude -> Prop) :
  parsed s fs (Some (l, c)) -> fresh_block c -> id ∉ ids fs ->
  (forall rc s' fs', parsed s' fs' None -> Q rc s') ->
  wp (if (r <? 0) || (sz <? PMINSIZE) || (PMAXSIZE <? sz)
      then free_flow (Some l);; mret (-4)
      else
        assign (Some l) (fun c =>
          set_params (PCbr (Cbr_params (i32 r) (i32 sz)))
            (set_send_func Send_cbr (set_flow_sport sport (set_flow_id id c))));;
        append_flow (Some l);; mret 0) Q s.
Proof.
  intros Hp (H1 & H2 & H3 & H4) Hid HQ.
  destruct ((_ <? _) || _ || _) eqn:Ez; [by eapply wp_free_ret|].
  apply orb_false_iff in Ez as [[_ Ez1%Z.ltb_ge]%orb_false_iff Ez2%Z.ltb_ge].
  rewrite wp_bind. eapply wp_assign_new; [done|]. intros s' Hp' Etr _.
  eapply wp_finish_flow; [exact Hp'|done|..|done|done].
  - split_and!; simpl; try done; [by rewrite H3|]. by rewrite i32_psize by lia.
  - set_solver.
Qed.

(** The TRACE branch. *)
Lemma wp_on_trace s fs l c id sport buf (Q : Z -> rude -> Prop) :
  parsed s fs (Some (l, c)) -> fresh_block c -> id ∉ ids fs ->
  (forall rc s' fs', parsed s' fs' None -> Q rc s') ->
  wp (assign (Some l) (fun c =>
        set_send_func Send_trace (set_flow_sport sport (set_flow_id id c)));;
      par ← trace_parse buf (Trace_params 0 0 0 None);
      assign (Some l) (set_params (PTrace par));;
      if list_size par =? 0 then free_flow (Some l);; mret (-4)
      else append_flow (Some l);; mret 0) Q s.
Proof.
  intros Hp (H1 & H2 & H3 & H4) Hid HQ.
  rewrite wp_bind. eapply wp_assign_new; [done|]. intros s1 Hp1 Etr1 _.
  rewrite wp_bind. eapply wp_trace_parse; [apply Hp1|]. intros par s2 Htp.
  destruct (trace_parsed_frame _ _ _ _ _ Hp1 Htp) as [Hp2 _].
  rewrite wp_bind. eapply wp_assign_new; [done|]. intros s3 Hp3 Etr3 _.
  destruct (Z.eqb_spec (list_size par) 0); [by eapply wp_free_ret|].
  destruct (tp_par _ _ _ Htp) as [|[Hok Hnew]]; [done|].
  eapply wp_finish_flow; [exact Hp3|done|..|done|done].
  - split_and!; simpl; try done; [by rewrite H3|]. by rewrite Etr3.
  - unfold owned. simpl. intros t Ht Hin.
    destruct (tlist par) as [u|] eqn:Eu; [|set_solver].
    apply list_elem_of_singleton in Ht as ->. apply (Hnew u eq_refl).
    by eapply owned_by_dom.
Qed.

Lemma wp_flow_on s fs buf Q :
  parsed s fs None ->
  (forall t id vs, sscanf buf fmt_on = VInt t :: VInt id :: vs -> id ∉ ids fs) ->
  (forall rc s' fs', parsed s' fs' None -> Q rc s') ->
  wp (flow_on buf) Q s.
Proof.
  intros Hp Hids HQ. assert (Hret : forall rc, wp (mret rc) Q s) by (intros; wp_step; eauto).
  unfold flow_on. fold fmt_on. destruct (sscanf buf fmt_on) as [|v vs] eqn:Escan; [apply Hret|].
  repeat match goal with
  | |- wp (match ?x with _ => _ end) _ _ => is_var x; destruct x; try apply Hret
  end.
  specialize (Hids _ _ _ eq_refl). apply fmt_on_dst in Escan.
  rename z into time, z0 into id, z1 into sport, s0 into dst, s1 into type.
  rewrite wp_bind. eapply wp_malloc_flow; [done|..].
  { intros n. wp_step. eapply HQ. by apply parsed_sysno. }
  intros l s1 Hp1 Etr1 Ets1.
  rewrite wp_bind. eapply wp_assign_new; [done|]. intros s2 Hp2 Etr2 Ets2.
  assert (Htime : wp (if (time <? 0) || (sport <? 1024)
      || match check_type type with UNKNOWN => true | _ => false end
    then mret (-1, None) else check_dst dst)
    (fun r s' => s' = s2 /\ (r.1 = 0 -> 0 <= time)) s2).
  { destruct (Z.ltb_spec time 0); simpl; [wp_step; done|].
    destruct (_ || _); [wp_step; done|]. by apply wp_check_dst. }
  rewrite wp_bind. eapply wp_mono; [exact Htime|]. clear Htime. intros [rc addr] s' [-> Hrc].
  destruct rc as [|p|p]; [|by eapply wp_free_ret..].
  destruct addr as [addr|]; [|by eapply wp_free_ret].
  specialize (Hrc eq_refl). rewrite wp_bind. eapply wp_assign_new; [done|]. intros s3 Hp3 Etr3 Ets3.
  rewrite wp_bind. eapply wp_set_times; [done|]. intros s4 start Hp4 Etr4 Ets4.
  assert (Hstart : normal start).
  { apply normal_timeradd; [by apply normal_of_millis|apply Hp3]. }
  destruct (check_type type); [by eapply wp_free_ret| |].
  - scan_cases; try (by eapply wp_free_ret). by eapply wp_on_cbr.
  - by eapply wp_on_trace.
Qed.

End FlowOn.

(** ** The final check *)

(** What a configuration without errors guarantees of a block, for the largest
    packet size [mps]: the block ends, its packets fit, and a block of rate zero
    is scheduled after its end. *)
Definition final (mps : Z) (c : flow_cfg) : Prop :=
  stop_set c = true /\
  match params c with
  | PNone => False
  | PCbr p => psize p <= mps /\ (rate p = 0 -> timercmp_lt (flow_stop c) (next_tx c) = true)
  | PTrace p => max_psize p <= mps
  end.

Lemma final_mono m m' c : m <= m' -> final m c -> final m' c.
Proof. unfold final. intros. destruct (params c); intuition lia. Qed.

Lemma timercmp_second t : timercmp_lt t (Timeval (tv_sec t + 1) (tv_usec t)) = true.
Proof. apply timercmp_lt_spec. simpl. lia. Qed.

Section Check.
Context `{Env}.

Lemma parsed_mps m s fs x : parsed s fs x -> parsed (set_max_packet_size m s) fs x.
Proof. intros Hp. eapply parsed_frame; [done|..]; try done; try apply Hp. Qed.

Lemma wp_check_block s pre bs1 l b bs2 suf k Q :
  parsed s (pre ++ (bs1 ++ (l, b) :: bs2) :: suf) None ->
  (forall k' b' s', parsed s' (pre ++ (bs1 ++ (l, b') :: bs2) :: suf) None ->
     max_packet_size s <= max_packet_size s' -> cfg_errors k' <= cfg_errors k ->
     (cfg_errors k' = cfg_errors k -> final (max_packet_size s') b') -> Q k' s') ->
  wp (check_block (Some l) k) Q s.
Proof.
  intros Hp HQ. destruct (parsed_lookup _ _ _ _ _ _ _ _ Hp) as (c & Hl & Hb).
  destruct (parsed_block _ _ _ _ _ _ _ _ Hp) as [Hok Ht]. rewrite <- Hb in Hok.
  unfold check_block. wp_step. rewrite (wp_load _ c) by done. wp_step.
  set (k1 := if stop_set c then k else cfg_error k).
  assert (Hk1 : cfg_errors k1 <= cfg_errors k /\ (cfg_errors k1 = cfg_errors k -> stop_set c = true)).
  { subst k1. destruct (stop_set c); simpl; split; try done; lia. }
  assert (Hmax : forall m (K : M rude cfg), wp ((if max_packet_size s <? m
      then modify (set_max_packet_size m) else mret tt);; K) Q s <->
    wp K Q (set_max_packet_size (Z.max (max_packet_size s) m) s)).
  { intros m K. destruct (Z.ltb_spec (max_packet_size s) m); wp_step.
    - by rewrite Z.max_r by lia.
    - rewrite Z.max_l by lia. by destruct s. }
  destruct Hok as (Hn1 & Hn2 & Hpar). change (params (body c)) with (params c) in Hpar.
  destruct (params c) as [|p|p] eqn:Ep; [done|..]; rewrite Hmax.
  - set (s1 := set_max_packet_size _ s). pose proof (parsed_mps _ _ _ _ Hp : parsed s1 _ _) as Hp1.
    destruct (Z.eqb_spec (rate p) 0) as [Er|Er]; wp_step.
    + rewrite (wp_assign _ c) by done. wp_step. set (c' := set_next_tx _ c).
      eapply (HQ _ (body c')); [|simpl; lia|lia|].
      * eapply parsed_update; [exact Hp1|done..| |done|done|].
        -- split_and!; [done..|]. simpl. rewrite Ep. done.
        -- rewrite <- Hb in Ht. by apply (timeline_update _ _ (body c)).
      * intros E. split; [by apply Hk1|]. simpl. rewrite Ep. split; [lia|].
        intros _. apply timercmp_second.
    + eapply (HQ _ b); [done|simpl; lia|lia|]. intros E. rewrite <- Hb. split; [by apply Hk1|].
      simpl. rewrite Ep. split; [lia|done].
  - wp_step. eapply (HQ _ b); [by apply parsed_mps|simpl; lia|lia|]. intros E. rewrite <- Hb.
    split; [by apply Hk1|]. simpl. rewrite Ep. lia.
Qed.

(** Where the walk goes from the last block of a flow. *)
Lemma parsed_next s pre l0 b0 rest suf x :
  parsed s (pre ++ ((l0, b0) :: rest) :: suf) x ->
  exists c, heap s !! l0 = Some c /\
    match suf with
    | [] => next c = None
    | f :: _ => exists l b r, f = (l, b) :: r /\ next c = Some l
    end.
Proof.
  intros Hp. destruct (pa_rep _ _ _ Hp) as (Ha & _). cbn [flows] in Ha.
  apply active_app in Ha as (r & _ & (k & c & -> & Hk & Hf & Hsuf)).
  destruct Hf as ([= ->] & _). exists c. split; [done|]. destruct suf as [|f suf]; [done|].
  destruct Hsuf as (l & c2 & -> & _ & Hf & _). destruct (chain_cons_inv _ _ _ Hf) as (b & r & ->).
  eauto.
Qed.

(** The walk over all blocks. *)
Lemma wp_check_blocks fuel s pre bs1 l b rest suf l0 k Q :
  parsed s (pre ++ (bs1 ++ (l, b) :: rest) :: suf) None ->
  hd_error (bs1 ++ (l, b) :: rest).*1 = Some l0 ->
  (length rest + length (concat suf) < fuel)%nat ->
  cfg_errors k <= 0 ->
  (cfg_errors k = 0 -> Forall (fun y => final (max_packet_size s) y.2) (concat pre ++ bs1)) ->
  (forall k' s' fs', parsed s' fs' None -> cfg_errors k' <= 0 ->
     (cfg_errors k' = 0 -> Forall (fun y => final (max_packet_size s') y.2) (concat fs')) ->
     Q k' s') ->
  wp (check_blocks fuel (Some l) (Some l0) k) Q s.
Proof.
  revert s pre bs1 l b rest suf l0 k. induction fuel as [|fuel IH];
    intros s pre bs1 l b rest suf l0 k Hp Hl0 Hf Hk Hfin HQ; [lia|].
  cbn [check_blocks]. rewrite wp_bind. eapply wp_check_block; [done|].
  intros k1 b1 s1 Hp1 Hm Hk1 Hfin1.
  assert (Hfin' : cfg_errors k1 = 0 ->
    Forall (fun y => final (max_packet_size s1) y.2) ((concat pre ++ bs1) ++ [(l, b1)])).
  { intros E. apply Forall_app. split; [|constructor; [apply Hfin1; lia|constructor]].
    eapply Forall_impl; [apply Hfin; lia|]. simpl. intros y. by apply final_mono. }
  destruct (parsed_lookup _ _ _ _ _ _ _ _ Hp1) as (c & Hl & Hb).
  rewrite wp_bind, (wp_load _ c) by done.
  assert (Hmod : mod_flow c = fst <$> hd_error rest).
  { destruct (pa_rep _ _ _ Hp1) as (Ha & _). cbn [flows] in Ha.
    apply active_app in Ha as (r & _ & (q & cq & -> & _ & Hc & _)).
    apply mods_app in Hc as (r & _ & (_ & c' & Hl' & _ & Hc)). rewrite Hl in Hl'.
    injection Hl' as <-. destruct rest as [|[l2 b2] rest]; simpl in *; [done|by destruct Hc]. }
  rewrite Hmod. destruct rest as [|[l2 b2] rest]; simpl.
  - assert (exists b0 r0, bs1 ++ [(l, b1)] = (l0, b0) :: r0) as (b0 & r0 & E0).
    { destruct bs1 as [|[q bq] bs1]; simpl in Hl0; injection Hl0 as <-; simpl; eauto. }
    rewrite E0 in Hp1. destruct (parsed_next _ _ _ _ _ _ _ Hp1) as (c0 & Hc0 & Hnx).
    rewrite wp_bind, (wp_load _ c0) by done. rewrite <- E0 in Hp1.
    destruct suf as [|f suf].
    + rewrite Hnx. destruct fuel; simpl; wp_step; eapply (HQ k1); [exact Hp1|lia| |exact Hp1|lia|];
        rewrite concat_app; simpl; rewrite app_nil_r, app_assoc; exact Hfin'.
    + destruct Hnx as (l2 & b2 & r2 & -> & ->).
      eapply (IH _ (pre ++ [bs1 ++ [(l, b1)]]) [] l2 b2 r2 suf); [by rewrite <- app_assoc|done| |lia| |done].
      * simpl in Hf. rewrite length_app in Hf. lia.
      * rewrite concat_app. simpl. rewrite !app_nil_r, app_assoc. exact Hfin'.
  - eapply (IH _ pre (bs1 ++ [(l, b1)]) l2 b2 rest suf); [by rewrite <- app_assoc| |simpl in Hf; lia|lia| |done].
    + rewrite <- Hl0. destruct bs1 as [|? bs1]; [done|]. done.
    + by rewrite app_assoc.
Qed.

End Check.

(** ** Reading the file *)

Definition fmt_cmd : string := "%ld %ld %10s".

(** The two formats read the same flow id. *)
Lemma fmt_same_id buf time id cmd t id' vs :
  sscanf buf fmt_cmd = [VInt time; VInt id; VStr cmd] ->
  sscanf buf fmt_on = VInt t :: VInt id' :: vs -> id' = id.
Proof.
  unfold sscanf. set (d1 := parse_fmt _ fmt_cmd). set (d2 := parse_fmt _ fmt_on).
  vm_compute in d1, d2. subst d1 d2. cbn [scan].
  destruct (convert None LLong CDec buf) as [[v1 r1]|]; [|done].
  destruct (convert None LLong CDec (skip_ws r1)) as [[v2 r2]|]; [|done].
  intros [= _ -> _] [= _ -> _]. done.
Qed.

Section Read.
Context `{Env}.
Hypothesis clock_normal : forall n, normal (env_time n).

(** The parser has built some flows and counted no positive number of errors. *)
Definition reading (k : cfg) (s : rude) : Prop :=
  (exists fs, parsed s fs None) /\ cfg_errors k <= 0.

Lemma reading_error k s : reading k s -> reading (cfg_error k) s.
Proof. intros [Hp Hk]. split; [done|]. simpl. lia. Qed.

Lemma reading_ok k s : reading k s -> reading (cfg_ok k) s.
Proof. done. Qed.

Lemma reading_count rc k s : reading k s -> reading (count_rc rc k) s.
Proof. unfold count_rc. case_match; [apply reading_error|apply reading_ok]. Qed.

Lemma wp_read_tos buf k s : reading k s -> wp (read_tos buf k) reading s.
Proof.
  intros Hr. assert (Herr : wp (mret (cfg_error k)) reading s) by (wp_step; by apply reading_error).
  unfold read_tos. scan_cases; try exact Herr. destruct Hr as [[fs Hp] Hk].
  rewrite wp_bind. eapply wp_find_flow_id; [done|..].
  { intros _. exact Herr. }
  intros pre l b rest suf -> Hid. destruct ((_ <? _) || _); [exact Herr|].
  destruct (parsed_lookup _ _ [] _ _ _ _ _ Hp) as (c & Hl & Hb).
  rewrite wp_bind, (wp_assign _ c) by done. wp_step. split; [|done].
  destruct (parsed_block _ _ [] _ _ _ _ _ Hp) as [Hok Ht]. rewrite <- Hb in Hok, Ht. eexists.
  eapply (parsed_update _ _ [] _ _ _ _ _ c); [done|done|done|done|exact Hok|done|done|].
  by apply (timeline_update [] _ (body c)).
Qed.

Lemma wp_read_command buf k s : reading k s -> wp (read_command buf k) reading s.
Proof.
  intros Hr. assert (Herr : wp (mret (cfg_error k)) reading s) by (wp_step; by apply reading_error).
  unfold read_command. fold fmt_cmd. destruct (sscanf buf fmt_cmd) as [|v vs] eqn:Escan; [exact Herr|].
  repeat match goal with
  | |- wp (match ?x with _ => _ end) _ _ => is_var x; destruct x; try exact Herr
  end.
  destruct (Z.ltb_spec z 0); [exact Herr|]. pose proof Hr as [[fs Hp] Hk].
  assert (Hcount : forall rc s' fs', parsed s' fs' None -> reading (count_rc rc k) s').
  { intros. apply reading_count. split; eauto. }
  rewrite wp_bind. eapply wp_find_flow_id; [done|..].
  - intros Hid. destruct (strncasecmp0 _ _ 2 && _).
    + rewrite wp_bind. eapply wp_flow_on; [done| |intros; wp_step; eauto].
      intros t id' vs' E. by rewrite (fmt_same_id _ _ _ _ _ _ _ Escan E).
    + rewrite !andb_false_r. exact Herr.
  - intros pre l b rest suf -> Hid. rewrite andb_false_r, !andb_true_r.
    destruct (strncasecmp0 _ _ 3); [|destruct (strncasecmp0 _ _ 6); [|exact Herr]].
    + pose proof (parsed_chain _ _ _ _ _ _ _ Hp) as Hc.
      destruct (exists_last (l := (l, b) :: rest) ltac:(done)) as (bs & [l1 b1] & E).
      rewrite E in Hp, Hc. rewrite wp_bind. eapply wp_flow_off; [done..|].
      intros rc b' s' _ Hp' _ _. wp_step. eauto.
    + rewrite wp_bind. eapply wp_flow_modify; [done|]. intros. wp_step. eauto.
Qed.

Lemma reading_start k t n s :
  reading k s -> normal t -> reading (cfg_start k) (set_tester_start t (set_sysno n s)).
Proof.
  intros [[fs Hp] Hk] Hn. split; [|done]. exists fs.
  eapply parsed_frame; [exact Hp|done..| |done]. apply Hp.
Qed.

Lemma reading_sysno k n s : reading k s -> reading k (set_sysno n s).
Proof. intros [[fs Hp] Hk]. split; [|done]. exists fs. by apply parsed_sysno. Qed.

Lemma wp_read_line_cmd buf k s : reading k s -> wp (read_line_cmd buf k) reading s.
Proof.
  intros Hr. assert (Herr : wp (mret (cfg_error k)) reading s) by (wp_step; by apply reading_error).
  unfold read_line_cmd. destruct (first_is _ _ || _); [wp_step; by apply reading_ok|].
  destruct (strncasecmp0 _ _ 9).
  { destruct (start_set k); [exact Herr|]. wp_step. by apply reading_start. }
  destruct (strncasecmp0 _ _ 5).
  { scan_cases; try exact Herr. destruct (start_set k); [exact Herr|].
    rewrite wp_bind. unfold start_time. destruct (_ || _); wp_step; [by apply reading_error|].
    unfold syscall. wp_step. simpl. apply (reading_start k _ (S (S (sysno s)))); [by apply reading_sysno|].
    unfold normal. simpl. apply clock_normal. }
  destruct (start_set k); [|exact Herr].
  destruct (strncasecmp0 _ _ 3); [by apply wp_read_tos|by apply wp_read_command].
Qed.

Lemma wp_read_lines fuel infile k s :
  reading k s -> (String.length infile < fuel)%nat -> wp (read_lines fuel infile k) reading s.
Proof.
  revert infile k s. induction fuel as [|fuel IH]; intros infile k s Hr Hf; [lia|].
  cbn [read_lines]. unfold fgets. destruct (read_line (1023 - 1) infile) as [[buf rest] e] eqn:E.
  apply length_read_line in E. destruct buf as [|ch buf]; [wp_step; done|].
  rewrite wp_bind. eapply wp_mono; [by apply wp_read_line_cmd|]. intros k' s' Hr'.
  apply IH; [done|]. simpl in E. lia.
Qed.

Lemma read_cfg_total infile :
  wp (read_cfg infile) (fun v s => exists fs, parsed s fs None /\
    (0 < v -> Forall (fun y => final (max_packet_size s) y.2) (concat fs))) rude_init.
Proof.
  assert (H0 : parsed rude_init [] None).
  { constructor; simpl; try done; try apply NoDup_nil_2; try (intros l Hl; set_solver).
    split_and!; simpl; try done. apply NoDup_nil_2. }
  unfold read_cfg. rewrite wp_bind. eapply wp_mono.
  { apply wp_read_lines; [|lia]. split; [eauto|done]. }
  intros k s [[fs Hp] Hk]. wp_step. pose proof (pa_rep _ _ _ Hp) as (Ha & _). cbn [flows] in Ha.
  assert (Hend : forall k' s' fs', parsed s' fs' None -> cfg_errors k' <= 0 ->
    (cfg_errors k' = 0 -> Forall (fun y => final (max_packet_size s') y.2) (concat fs')) ->
    exists fs0, parsed s' fs0 None /\ (0 < (if cfg_errors k' =? 0 then commands k' else cfg_errors k')
      -> Forall (fun y => final (max_packet_size s') y.2) (concat fs0))).
  { intros k' s' fs' Hp' Hk' Hf'. exists fs'. split; [done|].
    destruct (Z.eqb_spec (cfg_errors k') 0); [auto|lia]. }
  destruct fs as [|f fs].
  - simpl in Ha. rewrite Ha. simpl. wp_step. apply (Hend k s []); try done.
  - pose proof Ha as (l & c & -> & _ & Hc & _). destruct (chain_cons_inv _ _ _ Hc) as (b & rest & ->).
    pose proof (parsed_size _ _ _ Hp) as Hsz. simpl in Hsz. rewrite length_app in Hsz.
    eapply (wp_check_blocks _ s [] [] l b rest fs); [done..|lia|done|constructor|].
    intros k' s' fs' Hp' Hk' Hf'. wp_step. by eapply Hend.
Qed.

(** C3: the parser is total and safe: for every configuration file and every
    behaviour of the system calls it returns, never faults (the host name fits
    its buffer, trace arrays are written within bounds, no block is used after
    it is freed) and leaves well-formed lists: unique flow ids, the blocks of a
    flow contiguous in time, every allocated block linked exactly once, every
    trace array owned by one block. When it reports success, every block has an
    end, is sendable in a buffer of [max_packet_size] bytes, and a block of
    rate zero is scheduled after its end. *)
Theorem read_cfg_correct infile :
  wp (read_cfg infile) (fun v s => exists fs, parsed s fs None /\
    (0 < v -> Forall (fun y => final (max_packet_size s) y.2) (concat fs))) rude_init.
Proof. by apply read_cfg_total. Qed.

End Read.

Lemma read_cfg_correct_witness :
  wp (@read_cfg demo_env "START NOW"%string) (fun v s => v = 1 /\ head s = None) rude_init.
Proof.
  assert (Hn : forall n, normal (@env_time demo_env n)) by (intros n; unfold normal; simpl; lia).
  pose proof (@read_cfg_correct demo_env Hn "START NOW"%string) as Hw.
  eapply wp_mono; [exact (wp_conj _ _ (fun v s => v = 1 /\ head s = None) _ Hw
    ltac:(intros v s E; vm_compute in E; injection E as <- <-; done))|].
  intros v s [_ Hv]. exact Hv.
Defined.

(** ** start_time *)

(** The delay start_time computes from the time of day is the number of
    seconds to the next occurrence of the requested hour, minute and second:
    less than a day, and exactly that time of day when added to the current
    one. *)
Theorem start_delay_correct h m s now :
  0 <= h < 24 -> 0 <= m < 60 -> 0 <= s < 60 ->
  0 <= tm_hour now < 24 -> 0 <= tm_min now < 60 -> 0 <= tm_sec now < 60 ->
  let d := start_delay h m s now in
  0 <= d < 86400 /\
  (tm_hour now * 3600 + tm_min now * 60 + tm_sec now + d) mod 86400 = h * 3600 + m * 60 + s.
Proof.
  intros Hh Hm Hs Hh' Hm' Hs'. unfold start_delay.
  destruct (Z.ltb_spec s (tm_sec now)).
  - destruct (Z.ltb_spec (m - 1) (tm_min now)).
    + destruct (Z.ltb_spec (h - 1) (tm_hour now)); cbv zeta;
        (split; [lia|]); symmetry;
        [apply (Z.mod_unique _ _ 1); lia|apply (Z.mod_unique _ _ 0); lia].
    + destruct (Z.ltb_spec h (tm_hour now)); cbv zeta;
        (split; [lia|]); symmetry;
        [apply (Z.mod_unique _ _ 1); lia|apply (Z.mod_unique _ _ 0); lia].
  - destruct (Z.ltb_spec m (tm_min now)).
    + destruct (Z.ltb_spec (h - 1) (tm_hour now)); cbv zeta;
        (split; [lia|]); symmetry;
        [apply (Z.mod_unique _ _ 1); lia|apply (Z.mod_unique _ _ 0); lia].
    + destruct (Z.ltb_spec h (tm_hour now)); cbv zeta;
        (split; [lia|]); symmetry;
        [apply (Z.mod_unique _ _ 1); lia|apply (Z.mod_unique _ _ 0); lia].
Qed.

Lemma start_delay_correct_witness :
  start_delay 9 15 30 (Tm 22 50 45) = 37485 /\ 0 <= start_delay 9 15 30 (Tm 22 50 45) < 86400.
Proof.
  split; [reflexivity|]. apply (start_delay_correct 9 15 30 (Tm 22 50 45)); simpl; lia.
Defined.
