(* ===== verification/RudeXmit.v ===== *)
(** flow_txmit.c: the transmission functions of rude.

    [data] is the packet buffer seen as a [struct udp_data]: five packed
    [unsigned long]s, eight bytes each. A write or a [sendto] that leaves the
    buffer is a fault. *)
From Stdlib Require Import ZArith Lia.
From stdpp Require Import base numbers list gmap.
From S2P Require Import Prelude Timeval Double RudeState.

#[local] Open Scope Z_scope.

(** ** struct udp_data *)

Definition off_sequence_number : nat := 0.
Definition off_tx_time_seconds : nat := 8.
Definition off_tx_time_useconds : nat := 16.
Definition off_flow_id : nat := 24.
Definition off_dest_addr : nat := 32.

(** [sizeof(struct udp_data)] *)
Definition udp_data_size : nat := 40.

(** The bytes at [off .. off + length bs) replaced by [bs]. *)
Definition splice (off : nat) (bs buf : list Z) : list Z :=
  take off buf ++ bs ++ drop (off + length bs) buf.

Definition put_long (off : nat) (v : Z) : M rude unit := fun s =>
  match buffer s with
  | Some buf =>
    if (off + 8 <=? length buf)%nat
    then Ret (tt, set_buffer (Some (splice off (le_bytes 8 v) buf)) s)
    else Fault
  | None => Fault
  end.

Section Transmit.
Context `{Env}.

(** The number of clock readings a busy wait is followed for. *)
Context (patience : nat).

(** ** wait_for_xmit *)

Fixpoint wait_loop (fuel : nat) (target : timeval) : M rude timeval :=
  match fuel with
  | O => diverge
  | S fuel =>
    now ← gettimeofday;
    if timercmp_lt now target then wait_loop fuel target else mret now
  end.

Definition wait_for_xmit (target : timeval) : M rude timeval := wait_loop patience target.

(** [sendto(sock, buffer, size, 0, dst, ...)], its result narrowed to [int]. *)
Definition sendto (sock size : Z) (dst : sockaddr_in) : M rude Z :=
  b ← gets buffer;
  match b with
  | Some buf =>
    if (0 <=? size) && (size <=? Z.of_nat (length buf)) then
      modify (fun s =>
        set_wire (Datagram sock dst (take (Z.to_nat size) buf) :: wire s) s);;
      r ← sys_ret; mret (i32 r)
    else fault
  | None => fault
  end.

(** Lines 76 to 83, and 120 to 127: fill in the header and wait. *)
Definition fill_header (flow : ptr) : M rude unit :=
  c ← load flow;
  put_long off_dest_addr (sin_addr (dst c));;
  put_long off_flow_id (htonl (flow_id c));;
  put_long off_sequence_number (htonl (sequence_nmbr c));;
  now ← wait_for_xmit (next_tx c);
  put_long off_tx_time_seconds (htonl (tv_sec now));;
  put_long off_tx_time_useconds (htonl (tv_usec now)).

(** Lines 89 to 96, and 133 to 140: the counters. *)
Definition count_packet (flow : ptr) (written size : Z) : M rude unit :=
  (if written =? size
   then assign flow (fun c => set_success (i32 (success c + 1)) c)
   else assign flow (fun c => set_errors (i32 (errors c + 1)) c));;
  assign flow (fun c => set_sequence_nmbr (i32 (sequence_nmbr c + 1)) c).

(** ** send_cbr *)

(** Lines 99 to 103. The conversion of the infinite quotient a zero rate gives
    is undefined. *)
Definition cbr_next_tx (rate : Z) (t : timeval) : timeval :=
  let usec := trunc (add_int (tv_usec t) (div_int 1000000 rate)) in
  if 1000000 <=? usec then Timeval (tv_sec t + 1) (usec - 1000000)
  else Timeval (tv_sec t) usec.

Definition send_cbr (flow : ptr) : M rude unit :=
  c ← load flow;
  match params c with
  | PCbr p =>
    fill_header flow;;
    written ← sendto (send_sock c) (psize p) (dst c);
    count_packet flow written (psize p);;
    if rate p =? 0 then fault
    else assign flow (fun c => set_next_tx (cbr_next_tx (rate p) (next_tx c)) c)
  | _ => fault
  end.

(** ** send_trace *)

(** [p->list[i]] *)
Definition load_trace (p : ptr) (i : Z) : M rude trace_entry := fun s =>
  match p with
  | None => Fault
  | Some l =>
    match traces s !! l with
    | Some es =>
      if 0 <=? i then match es !! Z.to_nat i with Some e => Ret (e, s) | None => Fault end
      else Fault
    | None => Fault
    end
  end.

(** Lines 145 and 146, on [unsigned int]s; [% 0] is undefined. *)
Definition next_index (p : trace_params) : trace_params :=
  Trace_params (max_psize p) (list_size p)
    (u32 (list_index p + 1) mod list_size p) (tlist p).

Definition send_trace (flow : ptr) : M rude unit :=
  c ← load flow;
  match params c with
  | PTrace p =>
    e ← load_trace (tlist p) (list_index p);
    fill_header flow;;
    written ← sendto (send_sock c) (te_psize e) (dst c);
    count_packet flow written (te_psize e);;
    e ← load_trace (tlist p) (list_index p);
    if list_size p =? 0 then fault
    else
      assign flow (fun c =>
        set_params (PTrace (next_index p)) (set_next_tx (timeradd (next_tx c) (te_wait e)) c))
  | _ => fault
  end.

(** [flow->send_func(flow)] *)
Definition send (flow : ptr) : M rude unit :=
  c ← load flow;
  match send_func c with
  | Send_cbr => send_cbr flow
  | Send_trace => send_trace flow
  | Send_none => fault
  end.

End Transmit.

(** ** What a transmission does *)

(** The header as bytes: the fields in network order inside eight-byte
    little-endian longs. *)
Definition udp_header (c : flow_cfg) (now : timeval) : list Z :=
  le_bytes 8 (htonl (sequence_nmbr c)) ++ le_bytes 8 (htonl (tv_sec now)) ++
  le_bytes 8 (htonl (tv_usec now)) ++ le_bytes 8 (htonl (flow_id c)) ++
  le_bytes 8 (sin_addr (dst c)).

(** The block after a packet: counters, sequence number, next transmission. *)
Definition counted (written size : Z) (c : flow_cfg) : flow_cfg :=
  set_sequence_nmbr (i32 (sequence_nmbr c + 1))
    (if written =? size then set_success (i32 (success c + 1)) c
     else set_errors (i32 (errors c + 1)) c).

Definition sent_cbr (p : cbr_params) (written : Z) (c : flow_cfg) : flow_cfg :=
  let c := counted written (psize p) c in
  set_next_tx (cbr_next_tx (rate p) (next_tx c)) c.

Definition sent_trace (p : trace_params) (e : trace_entry) (written : Z) (c : flow_cfg)
  : flow_cfg :=
  let c := counted written (te_psize e) c in
  set_params (PTrace (next_index p)) (set_next_tx (timeradd (next_tx c) (te_wait e)) c).

Lemma splice_mid off bs a b r :
  length a = off -> length b = length bs -> splice off bs (a ++ b ++ r) = a ++ bs ++ r.
Proof.
  intros <- E. unfold splice. rewrite take_app_length, drop_app_add, <- E, drop_app_length.
  done.
Qed.

Lemma splice_front bs b r :
  length b = length bs -> splice off_sequence_number bs (b ++ r) = bs ++ r.
Proof. intros E. by apply (splice_mid _ _ []). Qed.

Lemma length_splice off bs buf :
  (off + length bs <= length buf)%nat -> length (splice off bs buf) = length buf.
Proof.
  intros. unfold splice. rewrite !length_app, length_take, length_drop. lia.
Qed.

Lemma length_udp_header c now : length (udp_header c now) = udp_data_size.
Proof. unfold udp_header. by rewrite !length_app, !length_le_bytes. Qed.

Lemma split8 (buf : list Z) n :
  (8 + n <= length buf)%nat ->
  exists b r, buf = b ++ r /\ length b = 8%nat /\ (n <= length r)%nat.
Proof.
  intros. exists (take 8 buf), (drop 8 buf). rewrite take_drop, length_take, length_drop.
  split; [done|lia].
Qed.

(** Filling in the five fields, in the order of the code. *)
Lemma splice_header c now buf :
  (udp_data_size <= length buf)%nat ->
  splice off_tx_time_useconds (le_bytes 8 (htonl (tv_usec now)))
    (splice off_tx_time_seconds (le_bytes 8 (htonl (tv_sec now)))
      (splice off_sequence_number (le_bytes 8 (htonl (sequence_nmbr c)))
        (splice off_flow_id (le_bytes 8 (htonl (flow_id c)))
          (splice off_dest_addr (le_bytes 8 (sin_addr (dst c))) buf)))) =
  udp_header c now ++ drop udp_data_size buf.
Proof.
  intros Hl.
  destruct (split8 buf 32 Hl) as (b1 & r1 & -> & L1 & H1).
  destruct (split8 r1 24 H1) as (b2 & r2 & -> & L2 & H2).
  destruct (split8 r2 16 H2) as (b3 & r3 & -> & L3 & H3).
  destruct (split8 r3 8 H3) as (b4 & r4 & -> & L4 & H4).
  destruct (split8 r4 0 H4) as (b5 & r & -> & L5 & _).
  assert (drop udp_data_size (b1 ++ b2 ++ b3 ++ b4 ++ b5 ++ r) = r) as ->.
  { rewrite !app_assoc. apply drop_app_length'. rewrite !length_app, L1, L2, L3, L4, L5. done. }
  unfold udp_header. rewrite <- !app_assoc.
  rewrite !(app_assoc b1), !(app_assoc (b1 ++ b2)), !(app_assoc ((b1 ++ b2) ++ b3)).
  rewrite splice_mid by (rewrite ?length_app, ?L1, ?L2, ?L3, ?L4, ?L5, ?length_le_bytes; done).
  rewrite <- !app_assoc, !(app_assoc b1), !(app_assoc (b1 ++ b2)).
  rewrite splice_mid by (rewrite ?length_app, ?L1, ?L2, ?L3, ?L4, ?length_le_bytes; done).
  rewrite <- !app_assoc.
  rewrite splice_front by (rewrite ?L1, ?length_le_bytes; done).
  rewrite splice_mid by (rewrite ?length_le_bytes, ?L2; done).
  rewrite (app_assoc (le_bytes 8 (htonl (sequence_nmbr c)))).
  rewrite splice_mid by (rewrite ?length_app, ?length_le_bytes, ?L3; done).
  by rewrite <- !app_assoc.
Qed.

Section Spec.
Context `{Env} (patience : nat).

Lemma wp_put_long off v buf Q s :
  buffer s = Some buf -> (off + 8 <= length buf)%nat ->
  (forall buf', buf' = splice off (le_bytes 8 v) buf -> length buf' = length buf ->
     Q tt (set_buffer (Some buf') s)) ->
  wp (put_long off v) Q s.
Proof.
  intros E Hl HQ. unfold wp, put_long. rewrite E.
  destruct (Nat.leb_spec (off + 8) (length buf)); [|lia].
  apply HQ; [done|]. apply length_splice. by rewrite length_le_bytes.
Qed.

(** The busy wait returns the first clock reading that is not before the target. *)
Lemma wp_wait_loop fuel target Q s :
  (exists k, (k < fuel)%nat /\ timercmp_lt (env_time (sysno s + k)) target = false) ->
  (forall k, (k < fuel)%nat -> timercmp_lt (env_time (sysno s + k)) target = false ->
     Q (env_time (sysno s + k)) (set_sysno (S (sysno s + k)) s)) ->
  wp (wait_loop fuel target) Q s.
Proof.
  revert s. induction fuel as [|fuel IH]; intros s (k & Hk & Hr) HQ; [lia|].
  simpl. wp_step. destruct (timercmp_lt (env_time (sysno s)) target) eqn:E.
  - destruct k as [|k]; [rewrite Nat.add_0_r in Hr; congruence|].
    apply IH; simpl.
    + exists k. rewrite Nat.add_succ_r in Hr. split; [lia|done].
    + intros j Hj. replace (S (sysno s + j)) with (sysno s + S j)%nat by lia.
      intros Hr'. replace (set_sysno _ _) with (set_sysno (S (sysno s + S j)) s) by done.
      apply HQ; [lia|done].
  - wp_step. rewrite <- (Nat.add_0_r (sysno s)) at 1. specialize (HQ 0%nat).
    rewrite Nat.add_0_r in HQ |- *. apply HQ; [lia|done].
Qed.

Definition clock_reaches (s : rude) (target : timeval) : Prop :=
  exists k, (k < patience)%nat /\ timercmp_lt (env_time (sysno s + k)) target = false.

Lemma wp_fill_header l c buf Q s :
  heap s !! l = Some c -> buffer s = Some buf -> (udp_data_size <= length buf)%nat ->
  clock_reaches s (next_tx c) ->
  (forall k, (k < patience)%nat ->
     timercmp_lt (env_time (sysno s + k)) (next_tx c) = false ->
     Q tt (set_sysno (S (sysno s + k))
       (set_buffer (Some (udp_header c (env_time (sysno s + k)) ++ drop udp_data_size buf)) s))) ->
  wp (fill_header patience (Some l)) Q s.
Proof.
  intros Hl Hb Hlen Hclk HQ. unfold fill_header.
  unfold udp_data_size in Hlen. wp_step. rewrite (wp_load _ c) by done.
  wp_step. eapply wp_put_long; [done|unfold off_dest_addr; lia|]. intros b1 E1 L1.
  wp_step. eapply wp_put_long; [done|unfold off_flow_id; lia|]. intros b2 E2 L2.
  wp_step. eapply wp_put_long; [done|unfold off_sequence_number; lia|]. intros b3 E3 L3.
  wp_step. apply wp_wait_loop; [done|]. simpl. intros k Hk Hr.
  wp_step. eapply wp_put_long; [done|unfold off_tx_time_seconds; lia|]. intros b4 E4 L4.
  eapply wp_put_long; [done|unfold off_tx_time_useconds; lia|]. intros b5 E5 _.
  subst b5 b4 b3 b2 b1.
  specialize (HQ k Hk Hr). rewrite <- (splice_header c _ buf) in HQ by done. exact HQ.
Qed.

(** The process after the packet of [c] went out with clock reading [k] of the
    wait, apart from the block itself; and what [sendto] returned. *)
Definition after_send (s : rude) (c : flow_cfg) (buf : list Z) (size : Z) (k : nat) : rude :=
  let data := udp_header c (env_time (sysno s + k)) ++ drop udp_data_size buf in
  set_sysno (S (S (sysno s + k)))
    (set_wire (Datagram (send_sock c) (dst c) (take (Z.to_nat size) data) :: wire s)
      (set_buffer (Some data) s)).

Definition written (s : rude) (k : nat) : Z := i32 (env_ret (S (sysno s + k))).

Lemma wp_count_packet l c w size Q s :
  heap s !! l = Some c ->
  Q tt (set_heap (<[l := counted w size c]> (heap s)) s) ->
  wp (count_packet (Some l) w size) Q s.
Proof.
  intros Hl HQ. unfold count_packet, counted in *. wp_step.
  destruct (w =? size); wp_step; rewrite (wp_assign _ c) by done;
    (erewrite wp_assign; [|apply lookup_insert_eq]); simpl; by rewrite insert_insert_eq.
Qed.

(** A block that can send: the buffer holds the header and the packet. *)
Record can_send (s : rude) (l : positive) (c : flow_cfg) (buf : list Z) (size : Z) : Prop := {
  cs_block : heap s !! l = Some c;
  cs_buffer : buffer s = Some buf;
  cs_header : (udp_data_size <= length buf)%nat;
  cs_size : 0 <= size <= Z.of_nat (length buf);
  cs_clock : clock_reaches s (next_tx c)
}.

Lemma length_data c now buf :
  (udp_data_size <= length buf)%nat ->
  length (udp_header c now ++ drop udp_data_size buf) = length buf.
Proof. intros. rewrite length_app, length_udp_header, length_drop. lia. Qed.

(** Header, wait, [sendto] and counters, which both functions share. *)
Lemma wp_transmit l c buf size (K : M rude unit) Q s :
  can_send s l c buf size ->
  (forall k, (k < patience)%nat ->
     timercmp_lt (env_time (sysno s + k)) (next_tx c) = false ->
     let s1 := after_send s c buf size k in
     wp K Q (set_heap (<[l := counted (written s k) size c]> (heap s1)) s1)) ->
  wp (fill_header patience (Some l);;
      w ← sendto (send_sock c) size (dst c); count_packet (Some l) w size;; K) Q s.
Proof.
  intros [Hl Hb Hh Hs Hc] HQ. wp_step. eapply wp_fill_header; [done..|]. intros k Hk Hr.
  wp_step. unfold sendto. wp_step. cbn [buffer set_sysno set_buffer].
  rewrite length_data by done.
  destruct (Z.leb_spec 0 size), (Z.leb_spec size (Z.of_nat (length buf))); try lia.
  simpl. wp_step. unfold sys_ret, syscall. wp_step. apply (wp_count_packet _ c); [done|].
  by apply HQ.
Qed.

Lemma wp_send_cbr l c p buf Q s :
  params c = PCbr p -> rate p <> 0 -> can_send s l c buf (psize p) ->
  (forall k, (k < patience)%nat ->
     timercmp_lt (env_time (sysno s + k)) (next_tx c) = false ->
     let s1 := after_send s c buf (psize p) k in
     Q tt (set_heap (<[l := sent_cbr p (written s k) c]> (heap s1)) s1)) ->
  wp (send_cbr patience (Some l)) Q s.
Proof.
  intros Hp Hr Hc HQ. unfold send_cbr. rewrite wp_bind, (wp_load _ c), Hp by apply Hc.
  eapply wp_transmit; [done|]. intros k Hk Hclk s1.
  destruct (Z.eqb_spec (rate p) 0); [done|].
  erewrite wp_assign; [|apply lookup_insert_eq]. simpl. rewrite insert_insert_eq.
  by apply HQ.
Qed.

Lemma wp_load_trace t es i e Q s :
  traces s !! t = Some es -> 0 <= i -> es !! Z.to_nat i = Some e ->
  wp (load_trace (Some t) i) Q s <-> Q e s.
Proof.
  intros Ht Hi He. unfold wp, load_trace. rewrite Ht.
  destruct (Z.leb_spec 0 i); [|lia]. by rewrite He.
Qed.

Lemma wp_send_trace l c p t es e buf Q s :
  params c = PTrace p -> tlist p = Some t -> traces s !! t = Some es ->
  0 <= list_index p -> es !! Z.to_nat (list_index p) = Some e -> list_size p <> 0 ->
  can_send s l c buf (te_psize e) ->
  (forall k, (k < patience)%nat ->
     timercmp_lt (env_time (sysno s + k)) (next_tx c) = false ->
     let s1 := after_send s c buf (te_psize e) k in
     Q tt (set_heap (<[l := sent_trace p e (written s k) c]> (heap s1)) s1)) ->
  wp (send_trace patience (Some l)) Q s.
Proof.
  intros Hp Ht Hes Hi He Hsz Hc HQ. unfold send_trace.
  rewrite wp_bind, (wp_load _ c), Hp by apply Hc. rewrite Ht.
  rewrite wp_bind, (wp_load_trace t es _ e) by done.
  eapply wp_transmit; [done|]. intros k Hk Hclk s1.
  rewrite wp_bind, (wp_load_trace t es _ e) by done.
  destruct (Z.eqb_spec (list_size p) 0); [done|].
  erewrite wp_assign; [|apply lookup_insert_eq]. simpl. rewrite insert_insert_eq.
  by apply HQ.
Qed.


(** The header is written without a check that it fits: with a buffer
    smaller than the 40 bytes of [struct udp_data] on this platform, although
    [PMINSIZE] admits packets of 20 bytes, the first store of send_cbr is
    outside the buffer. *)
Theorem send_cbr_small_buffer s l c p buf :
  heap s !! l = Some c -> params c = PCbr p -> buffer s = Some buf ->
  (length buf < udp_data_size)%nat -> send_cbr patience (Some l) s = Fault.
Proof.
  intros Hl Hp Hb Hlen. unfold send_cbr, fill_header.
  unfold mbind, M_bind, load at 1. rewrite Hl, Hp. unfold load. rewrite Hl.
  unfold put_long. rewrite Hb. unfold udp_data_size in Hlen.
  destruct (Nat.leb_spec (off_dest_addr + 8) (length buf)); [unfold off_dest_addr in *; lia|done].
Qed.

(** For every positive rate the next transmission of a CBR flow is exactly
    the truncated period of 1000000/rate microseconds after the last one (the
    double-precision arithmetic and its truncation lose nothing more), and the
    time stays normalised. *)
Theorem cbr_next_tx_period r t :
  1 <= r < 2 ^ 31 -> normal t ->
  micros (cbr_next_tx r t) = micros t + 1000000 / r /\ normal (cbr_next_tx r t).
Proof.
  intros Hr Hn. unfold cbr_next_tx, micros, normal in *.
  rewrite trunc_add_div by done.
  assert (0 <= 1000000 / r <= 1000000).
  { split; [apply Z.div_pos; lia|]. apply Z.div_le_upper_bound; nia. }
  destruct (Z.leb_spec 1000000 (tv_usec t + 1000000 / r)); simpl; lia.
Qed.

End Spec.

(** ** Examples *)


Lemma send_cbr_small_buffer_witness :
  @send_cbr demo_env 2 (Some 1%positive) (set_buffer (Some (replicate 20 0)) (demo_state 0)) = Fault.
Proof.
  apply (@send_cbr_small_buffer demo_env 2 _ 1 demo_a (Cbr_params 500 40) (replicate 20 0));
    [vm_compute; reflexivity|reflexivity|reflexivity|vm_compute; lia].
Defined.

(** Three packets per second are 333333 microseconds apart. *)
Lemma cbr_next_tx_period_witness :
  micros (cbr_next_tx 3 (Timeval 10 900000)) = 10900000 + 333333.
Proof.
  destruct (cbr_next_tx_period 3 (Timeval 10 900000)) as [E _];
    [lia|vm_compute; intuition discriminate|]. rewrite E. reflexivity.
Defined.
