(* ===== verification/RudeMain.v ===== *)
(** rude/main.c: option handling, sockets, initialisation, the transmission
    loop and the final report.

    [getopt] is the C library's: its successive results are an input. [exit]
    ends the run with the value that is returned; what [printf] reports at the
    end is returned with it. *)
From Stdlib Require Import ZArith Lia Ascii String.
From stdpp Require Import base numbers list gmap strings.
From S2P Require Import Prelude CStdio Timeval RudeState RudeParse RudeFlow RudeXmit.

#[local] Open Scope string_scope.
#[local] Open Scope Z_scope.

(** One result of [getopt], with the [optarg] and [optind] it leaves. *)
Record getopt_ret := Getopt { opt : ascii; optarg : option string; optind : Z }.

(** A line of the report. *)
Record report := Report {
  rp_id : Z; rp_start : timeval; rp_stop : timeval; rp_sport : Z; rp_addr : Z; rp_dport : Z;
  rp_errors : Z; rp_success : Z; rp_seq : Z; rp_params : flow_params
}.

Section Main.
Context `{Env} (patience : nat).

(** ** Options *)

(** [retval], [priority] and [scriptfile]. *)
Record options := Options { retval : Z; priority : Z; scriptfile : option file }.

(** The [switch] (lines 99 to 154). *)
Definition handle_option (argc user_id : Z) (o : getopt_ret) (st : options) : options :=
  let fail := Options (-2) (priority st) (scriptfile st) in
  if ceq (opt o) "v" || ceq (opt o) "h" then
    Options (if (optind o =? 2) && (argc =? 2) then -1 else -2) (priority st) (scriptfile st)
  else if ceq (opt o) "s" then
    match optarg o with
    | Some name =>
      match fopen name with
      | Some f => Options (retval st) (priority st) (Some f)
      | None => Options (-2) (priority st) None
      end
    | None => fail
    end
  else if ceq (opt o) "P" then
    match optarg o with
    | Some arg =>
      let pri := atoi arg in
      let rv := if (pri <? 1) || (90 <? pri) then -2 else retval st in
      let rv := if user_id =? 0 then rv else -2 in
      Options rv pri (scriptfile st)
    | None => fail
    end
  else fail.

(** The loop of line 98. *)
Fixpoint handle_options (argc user_id : Z) (opts : list getopt_ret) (st : options) : options :=
  match opts with
  | [] => st
  | o :: opts =>
    if retval st =? 0
    then handle_options argc user_id opts (handle_option argc user_id o st) else st
  end.

(** ** open_sockets *)

(** [socket(AF_INET, SOCK_DGRAM, 0)] *)
Definition socket : M rude Z :=
  r ← sys_ret;
  (if 0 <=? r then modify (fun s => set_fds (fds s ∪ {[r]}) s) else mret tt);; mret r.

(** Lines 454 to 460: the contribution to [retval]. *)
Definition set_nonblock : M rude Z :=
  flags ← sys_ret;
  if flags <? 0 then mret (-1)
  else r ← sys_ret; mret (if r <? 0 then -1 else 0).

(** The body of the loop (lines 437 to 472). *)
Definition open_socket (flow : ptr) : M rude Z :=
  r ← socket;
  assign flow (set_send_sock r);;
  if r <? 0 then mret (-1)
  else
    b ← sys_ret;
    if b <? 0 then
      close_fd r;; assign flow (set_send_sock 0);; mret (-1)
    else
      rc ← set_nonblock;
      c ← load flow;
      (if 0 <? tos c then _ ← sys_ret; mret tt else mret tt);;
      mret rc.

Fixpoint open_loop (fuel : nat) (flow : ptr) (retval : Z) : M rude Z :=
  match flow with
  | None => mret retval
  | Some _ =>
    match fuel with
    | O => diverge
    | S fuel =>
      rc ← open_socket flow;
      c ← load flow;
      open_loop fuel (next c) (retval + rc)
    end
  end.

Definition open_sockets : M rude Z :=
  fuel ← heap_fuel; h ← gets head; open_loop fuel h 0.

(** ** init_rude *)

(** The argument of [usleep], an [unsigned int] (lines 513 to 516). *)
Definition start_wait (start now : timeval) : Z :=
  u32 (u64 ((tv_sec start - tv_sec now) * 1000000 + (tv_usec start - tv_usec now))).

(** The result code, and how long the process slept. *)
Definition init_rude : M rude (Z * Z) :=
  mps ← gets max_packet_size;
  if mps <=? 0 then mret (-1, 0)
  else
    n ← syscall;
    if env_malloc n then
      modify (set_buffer (Some (replicate (Z.to_nat mps) 0)));;
      rc ← open_sockets;
      if rc =? 0 then
        now ← gettimeofday;
        ts ← gets tester_start;
        mret (0, if timercmp_lt now ts then start_wait ts now else 0)
      else mret (-4, 0)
    else mret (-2, 0).

(** ** The transmission loop (lines 225 to 227) *)

Fixpoint tx_loop (fuel : nat) : M rude unit :=
  match fuel with
  | O => diverge
  | S fuel =>
    flow ← find_next;
    match flow with
    | None => mret tt
    | Some _ => send patience flow;; tx_loop fuel
    end
  end.

(** ** print_results *)

Definition report_of (c : flow_cfg) : report :=
  Report (flow_id c) (flow_start c) (flow_stop c) (flow_sport c) (sin_addr (dst c))
    (ntohs (sin_port (dst c))) (errors c) (success c) (sequence_nmbr c) (params c).

Fixpoint print_loop (fuel : nat) (flow : ptr) : M rude (list report) :=
  match flow with
  | None => mret []
  | Some _ =>
    match fuel with
    | O => diverge
    | S fuel =>
      c ← load flow;
      rest ← print_loop fuel (next c);
      mret (report_of c :: rest)
    end
  end.

Definition print_results : M rude (list report) :=
  fuel ← heap_fuel; d ← gets done; print_loop fuel d.

(** ** rude_handler *)

(** The exit value; the priority and memory locks are the kernel's. *)
Definition rude_handler (value : Z) : M rude Z := clean_up;; mret (value * -1).

(** ** main *)

(** Lines 249 to 255 *)
Definition rude_exit1 (retval : Z) : M rude (Z * list report) :=
  rows ← print_results; clean_up;; mret (retval, rows).

(** Lines 230 to 247 *)
Definition rude_exit (user_id priority retval : Z) : M rude (Z * list report) :=
  retval ←
    (if (user_id =? 0) && (0 <? priority)
     then r ← sys_ret; _ ← sys_ret; mret (if r <? 0 then -1 else retval)
     else mret retval);
  rude_exit1 retval.

(** The three [sigaction] calls (lines 178 to 192). *)
Fixpoint catch_signals (n : nat) : M rude bool :=
  match n with
  | O => mret true
  | S n => r ← sys_ret; if r =? 0 then catch_signals n else mret false
  end.

(** Lines 205 to 228 and on. *)
Definition run (loops : nat) (user_id priority retval : Z) : M rude (Z * list report) :=
  ok ←
    (if (user_id =? 0) && (0 <? priority)
     then _ ← sys_ret; r ← sys_ret; mret (0 <=? r)
     else mret true);
  if ok : bool then tx_loop loops;; rude_exit user_id priority retval
  else rude_exit user_id priority (-1).

Definition main (loops : nat) (argc user_id : Z) (opts : list getopt_ret)
  : M rude (Z * list report) :=
  if argc <? 2 then mret (1, [])
  else
    let st := handle_options argc user_id opts (Options 0 0 None) in
    match scriptfile st, retval st <? 0 with
    | Some f, false =>
      rv ← read_cfg (if read_fails f then "" else contents f);
      if rv <=? 0 then clean_up;; mret (3, [])
      else
        ok ← catch_signals 3;
        if ok : bool then
          '(rc, _) ← init_rude;
          if rc =? 0 then run loops user_id (priority st) rv else rude_exit1 (-1)
        else rude_exit1 (-1)
    | _, _ => mret (-2, [])
    end.

End Main.
