(* ===== verification/RudeRun.v ===== *)
(** The transmission loop of main.c runs to completion: the blocks stay
    sendable, find_next and the transmission functions compose, and the clock
    retires every block. *)
From Stdlib Require Import ZArith Lia.
From stdpp Require Import base numbers list gmap.
From S2P Require Import Prelude Timeval RudeState RudeFlow RudeLists RudeCleanup RudeXmit RudeMain.

#[local] Open Scope Z_scope.

(** ** Blocks that can be sent *)

(** What the parser guarantees of a block, for a buffer of [n] bytes. A block of
    rate zero starts out past its end. *)
Definition sendable (tr : gmap positive (list trace_entry)) (n : Z) (c : flow_cfg) : Prop :=
  match params c with
  | PNone => False
  | PCbr p =>
    send_func c = Send_cbr /\ 0 <= psize p <= n /\
    (rate p = 0 -> timercmp_lt (flow_stop c) (next_tx c) = true)
  | PTrace p =>
    send_func c = Send_trace /\
    exists t es, tlist p = Some t /\ tr !! t = Some es /\
      Z.of_nat (length es) = list_size p /\ list_size p < 2 ^ 32 /\
      0 <= list_index p < list_size p /\
      Forall (fun e => 0 <= te_psize e <= n) es
  end.

Lemma sendable_inherit tr n b c : sendable tr n c -> sendable tr n (inherit b c).
Proof. done. Qed.

Lemma sendable_body tr n c : sendable tr n (body c) <-> sendable tr n c.
Proof. done. Qed.

(** ** The lists under find_next *)

Section ScanForall.
Variables (now : timeval) (P : flow_cfg -> Prop).
Hypothesis P_inherit : forall b c, P c -> P (inherit b c).

Lemma settle_Forall l b rest ds fd f ds' fd' :
  settle now l b rest ds fd = (f, ds', fd') ->
  Forall (fun x => P x.2) ((l, b) :: rest) -> Forall (fun x => P x.2) f.
Proof.
  revert l b ds. induction rest as [|[l2 b2] rest IH]; simpl; intros l b ds;
    destruct (expired now b); try (by intros [= <- <- <-]).
  intros Hs (_ & (Hb2 & Hr)%Forall_cons)%Forall_cons. apply (IH _ _ _ Hs).
  constructor; [by apply P_inherit|done].
Qed.

Lemma scan_flows_Forall fs ds fd t fs' ds' fd' t' :
  scan_flows now fs ds fd t = (fs', ds', fd', t') ->
  Forall (fun x => P x.2) (concat fs) -> Forall (fun x => P x.2) (concat fs').
Proof.
  revert ds fd t fs' ds' fd' t'. induction fs as [|f fs IH]; simpl;
    intros ds fd t fs' ds' fd' t'; [by intros [= <- <- <- <-]|].
  intros Hs [Hf Hfs]%Forall_app. destruct f as [|[l b] rest]; [eauto|].
  destruct (settle now l b rest ds fd) as [[f ds1] fd1] eqn:Es.
  pose proof (settle_Forall _ _ _ _ _ _ _ _ Es Hf) as Hf1.
  destruct f as [|x f]; [eauto|].
  destruct (scan_flows now fs ds1 fd1 (pick t x)) as [[[fs2 ds2] fd2] t2] eqn:Hs2.
  injection Hs as <- <- <- <-. simpl. rewrite app_comm_cons. apply Forall_app. eauto.
Qed.
End ScanForall.

Definition attach {X} (g : flow_cfg -> list X) (bs : list block) : list X :=
  bs ≫= fun x => g x.2.

Lemma attach_app {X} (g : flow_cfg -> list X) bs1 bs2 :
  attach g (bs1 ++ bs2) = attach g bs1 ++ attach g bs2.
Proof. apply bind_app. Qed.

Lemma attach_cons {X} (g : flow_cfg -> list X) l b bs :
  attach g ((l, b) :: bs) = g b ++ attach g bs.
Proof. done. Qed.

(** What is attached to the blocks, whatever their socket and sequence number,
    stays attached to them. *)
Section ScanBind.
Context {X : Type} (now : timeval) (g : flow_cfg -> list X).
Hypothesis g_inherit : forall b c, g (inherit b c) = g c.
Hypothesis g_close : forall b, g (set_send_sock 0 b) = g b.

Lemma settle_bind l b rest ds fd f ds' fd' :
  settle now l b rest ds fd = (f, ds', fd') ->
  attach g f ++ attach g ds' ≡ₚ g b ++ attach g rest ++ attach g ds.
Proof.
  revert l b ds. induction rest as [|[l2 b2] rest IH]; cbn [settle]; intros l b ds;
    destruct (expired now b).
  - intros [= <- <- <-]. rewrite attach_cons, g_close. done.
  - intros [= <- <- <-]. rewrite attach_cons. by rewrite <- app_assoc.
  - intros Hs. rewrite (IH _ _ _ Hs), g_inherit, !attach_cons. solve_Permutation.
  - intros [= <- <- <-]. rewrite !attach_cons. by rewrite <- !app_assoc.
Qed.

Lemma scan_flows_bind fs ds fd t fs' ds' fd' t' :
  scan_flows now fs ds fd t = (fs', ds', fd', t') ->
  attach g (concat fs' ++ ds') ≡ₚ attach g (concat fs ++ ds).
Proof.
  revert ds fd t fs' ds' fd' t'. induction fs as [|f fs IH]; cbn [scan_flows concat];
    intros ds fd t fs' ds' fd' t'; [by intros [= <- <- <- <-]|].
  intros Hs. destruct f as [|[l b] rest]; [eauto|].
  destruct (settle now l b rest ds fd) as [[f ds1] fd1] eqn:Es.
  pose proof (settle_bind _ _ _ _ _ _ _ _ Es) as Hf.
  assert (attach g ((((l, b) :: rest) ++ concat fs) ++ ds) =
    g b ++ attach g rest ++ attach g (concat fs) ++ attach g ds) as ->
    by (rewrite !attach_app, attach_cons; by rewrite <- !app_assoc).
  destruct f as [|x f].
  - rewrite (IH _ _ _ _ _ _ _ Hs), attach_app. cbn [attach app] in Hf.
    change (attach g ds1 ≡ₚ g b ++ attach g rest ++ attach g ds) in Hf. rewrite Hf.
    solve_Permutation.
  - destruct (scan_flows now fs ds1 fd1 (pick t x)) as [[[fs2 ds2] fd2] t2] eqn:Hs2.
    injection Hs as <- <- <- <-. specialize (IH _ _ _ _ _ _ _ Hs2).
    cbn [concat]. rewrite <- app_assoc, attach_app, IH, !attach_app.
    rewrite (Permutation_app_comm (attach g (concat fs))), app_assoc, Hf. solve_Permutation.
Qed.
End ScanBind.

Lemma elem_of_fronts fs x :
  x ∈ fronts fs -> exists pre rest suf, fs = pre ++ (x :: rest) :: suf.
Proof.
  unfold fronts. intros (f & Hf & Hx)%list_elem_of_omap.
  destruct f as [|y f]; [done|]. injection Hx as ->.
  apply list_elem_of_split in Hf as (pre & suf & ->). eauto.
Qed.

(** ** The loop *)

Section Run.
Context `{Env} (patience : nat) (per t0 T : Z).

(** The clock gives normalised times and advances by a microsecond at least
    once in every [per] readings; no block is to send after [T]. *)
Hypothesis per_nonneg : 0 <= per.
Hypothesis clock_normal : forall n, normal (env_time n).
Hypothesis clock_advances : forall n, Z.of_nat n <= per * (micros (env_time n) - t0).
Hypothesis patience_enough : Z.max 0 (per * (T - t0)) + 1 < Z.of_nat patience.

Definition good (tr : gmap positive (list trace_entry)) (n : Z) (c : flow_cfg) : Prop :=
  sendable tr n c /\ normal (flow_stop c) /\ micros (flow_stop c) <= T.

(** The lists are well formed, every block still to run is good, and the
    buffer holds the header and the largest packet. *)
Definition ready (s : rude) (a : view) : Prop :=
  rep s a /\ exists buf, buffer s = Some buf /\ (udp_data_size <= length buf)%nat /\
    Forall (fun x => good (traces s) (Z.of_nat (length buf)) x.2) (concat (flows a)).

Lemma stop_passes n c :
  normal (flow_stop c) -> micros (flow_stop c) <= T -> per * (T - t0) < Z.of_nat n ->
  timercmp_lt (flow_stop c) (env_time n) = true.
Proof.
  intros Hn Ht Hlt. rewrite timercmp_lt_micros by auto. apply Z.ltb_lt.
  pose proof (clock_advances n). nia.
Qed.

Lemma good_clock_reaches s now tr n c :
  good tr n c -> expired now c = false -> clock_reaches patience s (next_tx c).
Proof.
  intros (_ & Hn & Ht) [_ Hnx]%orb_false_iff.
  assert (Hlt : per * (T - t0) < Z.of_nat (sysno s + (patience - 1))) by lia.
  exists (patience - 1)%nat. split; [lia|].
  pose proof (stop_passes _ _ Hn Ht Hlt). time_lia.
Qed.

Lemma good_sent_cbr tr n p w c :
  params c = PCbr p -> rate p <> 0 -> good tr n c -> good tr n (sent_cbr p w c).
Proof.
  intros Hp Hr (Hs & Hn & Ht). unfold good, sent_cbr, counted, sendable in *.
  rewrite Hp in Hs. destruct (w =? psize p); simpl; rewrite Hp; naive_solver.
Qed.

Lemma good_sent_trace tr n p e w c :
  params c = PTrace p -> good tr n c -> good tr n (sent_trace p e w c).
Proof.
  intros Hp (Hs & Hn & Ht). unfold good, sent_trace, counted, sendable in *.
  rewrite Hp in Hs. destruct Hs as (Hf & t & es & E1 & E2 & E3 & Hsz & Hi & Hall).
  destruct (w =? te_psize e); simpl; (split; [|done]); (split; [done|]);
    exists t, es; split_and!; try done; apply Z.mod_pos_bound; lia.
Qed.
(** Sending from the front block of a flow that is not expired. *)
Lemma wp_send_ready s pre l b rest suf ds fd now Q :
  ready s (View (pre ++ ((l, b) :: rest) :: suf) ds fd) -> expired now b = false ->
  (forall b' s', ready s' (View (pre ++ ((l, b') :: rest) :: suf) ds fd) ->
     (sysno s < sysno s')%nat -> traces s' = traces s -> dom (heap s') = dom (heap s) ->
     owned b' = owned b -> Q tt s') ->
  wp (send patience (Some l)) Q s.
Proof.
  intros (Hrep & buf & Hbuf & Hlen & Hall) Hexp HQ.
  destruct (rep_inv _ _ _ _ _ _ _ _ Hrep) as (c & Hl & Hb & _).
  cbn [flows] in Hall. rewrite concat_app in Hall. cbn [concat] in Hall.
  apply Forall_app in Hall as [Hpre (Hc & Hrest)%Forall_cons].
  cbn [snd] in Hc. rewrite <- Hb in Hc, Hexp.
  change (good (traces s) (Z.of_nat (length buf)) c) in Hc. change (expired now c = false) in Hexp.
  assert (Hfin : forall size c1 k, good (traces s) (Z.of_nat (length buf)) c1 ->
    next c1 = next c -> mod_flow c1 = mod_flow c -> owned c1 = owned c ->
    let s1 := after_send s c buf size k in Q tt (set_heap (<[l := c1]> (heap s1)) s1)).
  { intros size c1 k Hg En Em Eo s1. eapply (HQ (body c1)); [|simpl; lia|done| |].
    2: { simpl. rewrite dom_insert_L. apply elem_of_dom_2 in Hl. set_solver. }
    2: { rewrite <- Hb. exact Eo. }
    split.
    - by eapply (rep_update s1 _ [] l b _ _ _ _ c c1).
    - eexists. split; [done|]. rewrite length_data by done. split; [done|].
      cbn [flows]. rewrite concat_app. cbn [concat]. apply Forall_app. split; [done|].
      by constructor. }
  unfold send. rewrite wp_bind, (wp_load _ c) by done.
  pose proof (good_clock_reaches s _ _ _ _ Hc Hexp) as Hclk.
  pose proof Hc as [Hs _]. unfold sendable in Hs. destruct (params c) as [|p|p] eqn:Hp; [done|..].
  - destruct Hs as (-> & Hsz & Hr0). assert (rate p <> 0).
    { intros E. apply orb_false_iff in Hexp as [_ Hexp]. rewrite Hr0 in Hexp; done. }
    eapply wp_send_cbr; [done..|by constructor|]. intros k _ _ s1.
    apply Hfin; [by apply good_sent_cbr|..]; unfold sent_cbr, counted, owned;
      destruct (written s k =? _); simpl; by rewrite ?Hp.
  - destruct Hs as (-> & t & es & Et & Hes & Hlen' & _ & Hi & Hsz).
    destruct (lookup_lt_is_Some_2 es (Z.to_nat (list_index p))) as [e He]; [lia|].
    pose proof (Forall_lookup_1 _ _ _ _ Hsz He) as He'.
    eapply wp_send_trace; [done..|lia|done|lia|by constructor|]. intros k _ _ s1.
    apply Hfin; [by apply good_sent_trace|..]; unfold sent_trace, counted, owned;
      destruct (written s k =? _); simpl; by rewrite ?Hp.
Qed.

Lemma wp_tx_loop fuel s a Q :
  ready s a -> per * (T - t0) + 1 < Z.of_nat fuel + Z.of_nat (sysno s) -> (0 < fuel)%nat ->
  (forall s' ds fd, rep s' (View [] ds fd) -> ds.*1 ≡ₚ (blocks a).*1 ->
     owned_by ds ≡ₚ owned_by (blocks a) -> traces s' = traces s ->
     dom (heap s') = dom (heap s) -> Q tt s') ->
  wp (tx_loop patience fuel) Q s.
Proof.
  revert s a. induction fuel as [|fuel IH]; intros s a; [lia|].
  intros [Hrep (buf & Hbuf & Hlen & Hall)] Hfuel _ HQ. cbn [tx_loop]. rewrite wp_bind.
  apply (wp_find_next _ a); [done|]. unfold spec_find_next.
  destruct (scan_flows _ _ _ _ _) as [[[fs ds] fd] t] eqn:Es.
  intros s1 Hrep1 (Edom & Et & _ & _ & _ & Eb & En & _). simpl in Edom, Et, Eb, En.
  pose proof (scan_flows_bind _ owned ltac:(done) ltac:(done) _ _ _ _ _ _ _ _ Es) as Hown.
  destruct (scan_flows_spec _ _ _ _ _ [] _ _ _ _ Es eq_refl) as (Hl & Hne & He & _ & Hperm).
  assert (Hp : (blocks (View fs ds fd)).*1 ≡ₚ (blocks a).*1).
  { unfold blocks. cbn [flows finished]. by rewrite !(fmap_app fst (concat _)), Hperm. }
  pose proof (scan_flows_Forall _ (good (traces s) (Z.of_nat (length buf)))
    ltac:(done) _ _ _ _ _ _ _ _ Es Hall) as Hall1.
  destruct t as [[l b]|]; simpl in He |- *.
  - destruct He as [Hin _]. pose proof (proj1 (Forall_forall _ _) Hl _ Hin) as Hexp.
    destruct (elem_of_fronts _ _ Hin) as (pre & rest & suf & ->). rewrite wp_bind.
    assert (Hsys : Z.of_nat (sysno s) <= per * (T - t0)).
    { rewrite concat_app in Hall1. cbn [concat] in Hall1.
      apply Forall_app in Hall1 as [_ ((_ & Hn & Ht) & _)%Forall_cons].
      apply Z.nlt_ge. intros Hlt. apply orb_false_iff in Hexp as [Hexp _].
      simpl in Hexp, Hn, Ht. by rewrite (stop_passes (sysno s) b) in Hexp. }
    eapply (wp_send_ready s1); [|exact Hexp|].
    { split; [done|]. exists buf. rewrite Eb, Et. done. }
    intros b' s2 Hready2 Hlt Et2 Ed2 Eo2. eapply IH; [exact Hready2|lia|lia|].
    intros s' ds' fd' Hr Hds Hos Et3 Ed3. eapply HQ; [done| | |congruence|congruence].
    + rewrite Hds, <- Hp. unfold blocks. cbn [flows finished].
      rewrite !fmap_app, !concat_app. cbn [concat]. by rewrite !fmap_app.
    + rewrite Hos. unfold blocks at 2. change owned_by with (attach owned). rewrite <- Hown.
      unfold blocks. cbn [flows finished]. rewrite !concat_app. cbn [concat].
      rewrite <- !app_comm_cons, !attach_app, !attach_cons, !attach_app. by rewrite Eo2.
  - destruct Hne as [|[|x f] fs' ? ?]; [|done..]. wp_step.
    eapply HQ; [done|by rewrite <- Hp|exact Hown|done|done].
Qed.

(** C2: the transmission loop is totally correct. From well-formed lists of
    sendable blocks and a buffer that holds the header and every packet, and
    for a clock that keeps advancing, the loop returns: no access through a
    dead or null pointer, no division by a zero rate, no trace index or packet
    outside its array, every busy wait ends, and at the end every block is on
    the passive list. *)
Theorem tx_loop_completes fuel s a :
  ready s a -> per * (T - t0) + 1 < Z.of_nat fuel -> (0 < fuel)%nat ->
  wp (tx_loop patience fuel) (fun _ s' =>
    exists ds fd, rep s' (View [] ds fd) /\ ds.*1 ≡ₚ (blocks a).*1) s.
Proof. intros Hr Hf H0. eapply wp_tx_loop; [done|lia|done|]. eauto. Qed.

End Run.

(** ** An example *)

Lemma demo_ready : ready 5000000 (demo_state 0) demo_view.
Proof.
  split; [apply demo_rep|]. exists (replicate 64 0). split_and!; [done|vm_compute; lia|].
  repeat constructor; cbn [snd]; try (vm_compute; discriminate); try done.
  exists 4%positive, demo_trace. split_and!; try done; try lia; try (vm_compute; reflexivity);
  repeat constructor; vm_compute; discriminate.
Qed.

Lemma tx_loop_completes_witness :
  exists s', @tx_loop demo_env (Z.to_nat 5000003) (Z.to_nat 5000002) (demo_state 0) = Ret (tt, s') /\
    head s' = None.
Proof.
  assert (Hn : forall n, normal (@env_time demo_env n)) by (intros n; simpl; unfold normal; simpl; lia).
  assert (Ha : forall n, Z.of_nat n <= 1 * (micros (@env_time demo_env n) - 0))
    by (intros n; unfold micros; simpl; lia).
  pose proof (@tx_loop_completes demo_env (Z.to_nat 5000003) 1 0 5000000 ltac:(lia) Hn Ha
    ltac:(lia) (Z.to_nat 5000002) (demo_state 0) demo_view demo_ready ltac:(lia) ltac:(lia)) as Hw.
  destruct (proj1 (wp_run _ _ _) Hw) as ([] & s' & E & ds & fd & (Hh & _) & _).
  exists s'. split; [exact E|exact Hh].
Defined.
