(* ===== verification/RudeMainSpec.v ===== *)
(** The rude program as a whole: from the options to the exit. *)
From Stdlib Require Import ZArith Lia Ascii String.
From stdpp Require Import base numbers list gmap strings.
From S2P Require Import Prelude CStdio Timeval RudeState RudeParse RudeFlow RudeLists.
From S2P Require Import RudeCleanup RudeParseSpec RudeXmit RudeMain RudeRun.

#[local] Open Scope Z_scope.

(** What opening the sockets leaves alone. *)
Definition quiet (s s' : rude) : Prop :=
  dom (heap s') = dom (heap s) /\ traces s' = traces s /\ buffer s' = buffer s /\
  max_packet_size s' = max_packet_size s.

Lemma quiet_trans s1 s2 s3 : quiet s1 s2 -> quiet s2 s3 -> quiet s1 s3.
Proof. unfold quiet. intuition congruence. Qed.

(** The same flow, with another socket in its front block. *)
Definition resock (f f' : list block) : Prop :=
  exists l b rest k, f = (l, b) :: rest /\ f' = (l, set_send_sock k b) :: rest.

Lemma resock_Forall (P : flow_cfg -> Prop) fs fs' :
  (forall k b, P b -> P (set_send_sock k b)) -> Forall2 resock fs fs' ->
  Forall (fun x => P x.2) (concat fs) -> Forall (fun x => P x.2) (concat fs').
Proof.
  intros HP. induction 1 as [|f f' fs fs' (l & b & rest & k & -> & ->) _ IH]; [done|].
  simpl. rewrite !Forall_cons, !Forall_app. simpl. intuition.
Qed.

Lemma resock_locs fs fs' : Forall2 resock fs fs' -> (concat fs').*1 = (concat fs).*1.
Proof.
  induction 1 as [|f f' fs fs' (l & b & rest & k & -> & ->) _ IH]; [done|].
  cbn [concat]. rewrite !fmap_app, IH. done.
Qed.

Lemma resock_owned fs fs' :
  Forall2 resock fs fs' -> owned_by (concat fs') = owned_by (concat fs).
Proof.
  induction 1 as [|f f' fs fs' (l & b & rest & k & -> & ->) _ IH]; [done|].
  cbn [concat]. rewrite !owned_by_app, IH. done.
Qed.

Lemma resock_refl h p fs q : active h p fs q -> Forall2 resock fs fs.
Proof.
  revert p. induction fs as [|f fs IH]; [constructor|]. intros p (l & c & -> & _ & Hc & Ha).
  constructor; [|eauto]. destruct (chain_cons_inv _ _ _ Hc) as (b & rest & ->).
  exists l, b, rest, (send_sock b). by destruct b.
Qed.

Lemma rep_fds s fs ds fd fd' :
  rep s (View fs ds fd) -> rep (set_fds fd' s) (View fs ds fd').
Proof. intros (H1 & H2 & H3 & _). done. Qed.

Section Sockets.
Context `{Env}.

(** Assigning the socket of a front block. *)
Lemma wp_assign_sock s pre l b rest suf ds fd k Q :
  rep s (View (pre ++ ((l, b) :: rest) :: suf) ds fd) ->
  (forall s', rep s' (View (pre ++ ((l, set_send_sock k b) :: rest) :: suf) ds fd) ->
     quiet s s' -> fds s' = fds s -> Q tt s') ->
  wp (assign (Some l) (set_send_sock k)) Q s.
Proof.
  intros Hrep HQ. destruct (rep_inv _ _ _ _ _ _ _ _ Hrep) as (c & Hl & Hb & _).
  rewrite (wp_assign _ c) by done. apply HQ; [|split_and!; simpl; try done|done].
  - subst b. by apply (rep_update s pre [] l (body c) rest suf ds fd c (set_send_sock k c)).
  - rewrite dom_insert_L. apply elem_of_dom_2 in Hl. set_solver.
Qed.

Lemma wp_sys_ret Q s : (forall r n, Q r (set_sysno n s)) -> wp sys_ret Q s.
Proof. intros HQ. unfold sys_ret, syscall. wp_step. apply HQ. Qed.

Lemma wp_socket s fs ds fd :
  rep s (View fs ds fd) ->
  wp socket (fun _ s' => exists fd', rep s' (View fs ds fd') /\ quiet s s') s.
Proof.
  intros Hrep. unfold socket. wp_step. apply wp_sys_ret. intros r n.
  destruct (0 <=? r); wp_step; eexists; split; try done. by eapply (rep_fds (set_sysno n s)).
Qed.

Lemma wp_open_socket s pre l b rest suf ds fd Q :
  rep s (View (pre ++ ((l, b) :: rest) :: suf) ds fd) ->
  (forall rc k fd' s', rep s' (View (pre ++ ((l, set_send_sock k b) :: rest) :: suf) ds fd') ->
     quiet s s' -> Q rc s') ->
  wp (open_socket (Some l)) Q s.
Proof.
  intros Hrep HQ. unfold open_socket. rewrite wp_bind. eapply wp_mono; [exact (wp_socket _ _ _ _ Hrep)|].
  intros r s1 (fd1 & Hr1 & Hq1). rewrite wp_bind. eapply wp_assign_sock; [done|]. intros s2 Hr2 Hq2 _.
    pose proof (quiet_trans _ _ _ Hq1 Hq2) as Hq.
    destruct (r <? 0); [wp_step; eauto|]. rewrite wp_bind. apply wp_sys_ret. intros b' n2.
    destruct (b' <? 0).
    - wp_step. eapply wp_assign_sock; [by eapply rep_fds|]. intros s3 Hr3 Hq3 _. wp_step.
      change (set_send_sock 0 (set_send_sock r b)) with (set_send_sock 0 b) in Hr3.
      eapply HQ; [done|]. eapply quiet_trans; [exact Hq|exact Hq3].
    - rewrite wp_bind. unfold set_nonblock. rewrite wp_bind. apply wp_sys_ret. intros r3 n3.
      destruct (rep_inv _ _ _ _ _ _ _ _ Hr2) as (c & Hl & _).
      assert (Hend : forall m rc, wp (c ← load (Some l);
        (if 0 <? tos c then _ ← sys_ret; mret tt else mret tt);; mret rc) Q (set_sysno m s2)).
      { intros m rc. rewrite wp_bind, (wp_load _ c) by done. destruct (0 <? tos c); wp_step.
        - apply wp_sys_ret. intros. wp_step. eapply HQ; [exact Hr2|exact Hq].
        - eapply HQ; [exact Hr2|exact Hq]. }
      destruct (r3 <? 0); [rewrite wp_ret; apply Hend|]. rewrite wp_bind. apply wp_sys_ret.
      intros. rewrite wp_ret. apply Hend.
Qed.

Lemma wp_open_loop fuel s pre suf ds fd p rv Q :
  rep s (View (pre ++ suf) ds fd) -> active (heap s) p suf None ->
  (length suf < fuel)%nat ->
  (forall rc suf' fd' s', Forall2 resock suf suf' -> rep s' (View (pre ++ suf') ds fd') ->
     quiet s s' -> Q rc s') ->
  wp (open_loop fuel p rv) Q s.
Proof.
  revert s pre suf fd p rv. induction fuel as [|fuel IH]; intros s pre suf fd p rv Hrep Ha Hf HQ; [lia|].
  destruct suf as [|f suf].
  { simpl in Ha. subst p. simpl. wp_step. eapply (HQ _ []); [constructor|done|done]. }
  destruct Ha as (l & c & -> & Hl & Hc & _). destruct (chain_cons_inv _ _ _ Hc) as (b & rest & ->).
  cbn [open_loop]. rewrite wp_bind. eapply wp_open_socket; [done|]. intros rc k fd1 s1 Hr1 Hq1.
  destruct (rep_inv _ _ _ _ _ _ _ _ Hr1) as (c1 & Hl1 & _ & _ & _ & Hs1 & _).
  rewrite wp_bind, (wp_load _ c1) by done.
  eapply (IH _ (pre ++ [(l, set_send_sock k b) :: rest]) suf); [by rewrite <- app_assoc|done|simpl in Hf; lia|].
  intros rc2 suf' fd2 s2 Hrs Hr2 Hq2. rewrite <- app_assoc in Hr2.
  eapply (HQ _ (((l, set_send_sock k b) :: rest) :: suf')); [|exact Hr2|by eapply quiet_trans].
  constructor; [|done]. eexists _, _, _, _. done.
Qed.

End Sockets.

(** ** The life of the blocks *)

(** Everything that is allocated is on one of the lists. *)
Definition holding (s : rude) (a : view) : Prop :=
  rep s a /\ dom (heap s) = list_to_set (blocks a).*1 /\ NoDup (owned_by (blocks a)) /\
  forall t, t ∈ owned_by (blocks a) -> t ∈ dom (traces s).

(** Nothing is left. *)
Definition released (s : rude) : Prop :=
  dom (heap s) = ∅ /\ head s = None /\ done s = None /\ buffer s = None.

Lemma parsed_holding s fs : parsed s fs None -> holding s (View fs [] ∅).
Proof.
  intros Hp. unfold holding, blocks. cbn [flows finished]. rewrite !app_nil_r.
  split_and!; [apply Hp| |apply Hp|].
  - rewrite (pa_dom _ _ _ Hp). simpl. set_solver.
  - intros t. by eapply owned_by_dom.
Qed.

Section Exit.
Context `{Env} (patience : nat).

Lemma wp_release s a Q :
  holding s a -> (forall s', released s' -> Q tt s') -> wp clean_up Q s.
Proof.
  intros (Hr & Hd & Hn & Ht) HQ. apply (wp_clean_up _ a); try done.
  intros s' E1 E2 E3 _ [E4 _]. apply HQ. split_and!; try done. rewrite E4, Hd. set_solver.
Qed.

Lemma wp_print_loop fuel s p bs Q :
  passive (heap s) p bs -> (length bs < fuel)%nat -> (forall rows, Q rows s) ->
  wp (print_loop fuel p) Q s.
Proof.
  revert p bs Q. induction fuel as [|fuel IH]; intros p bs Q Hp Hf HQ; [lia|].
  destruct bs as [|[l b] bs]; simpl in Hp; [subst p; simpl; wp_step; auto|].
  destruct Hp as (-> & c & Hl & _ & Hp). cbn [print_loop]. rewrite wp_bind, (wp_load _ c) by done.
  rewrite wp_bind. eapply (IH _ bs); [done|simpl in Hf; lia|]. intros rows. wp_step. auto.
Qed.

Lemma wp_rude_exit1 s a rv :
  holding s a -> wp (rude_exit1 rv) (fun _ s' => released s') s.
Proof.
  intros Hh. pose proof Hh as (Hr & _). pose proof (rep_size _ _ Hr) as Hsz.
  unfold blocks in Hsz. rewrite length_app in Hsz. pose proof Hr as (_ & Hp & _).
  unfold rude_exit1, print_results. rewrite !wp_bind. wp_step.
  eapply wp_print_loop; [exact Hp|lia|]. intros rows. wp_step. by eapply wp_release.
Qed.

Lemma holding_sysno n s a : holding s a -> holding (set_sysno n s) a.
Proof. done. Qed.

Lemma wp_rude_exit s a uid pri rv :
  holding s a -> wp (rude_exit uid pri rv) (fun _ s' => released s') s.
Proof.
  intros Hh. unfold rude_exit. rewrite wp_bind. destruct (_ && _); [|wp_step; by eapply wp_rude_exit1].
  rewrite wp_bind. apply wp_sys_ret. intros r n. rewrite wp_bind. apply wp_sys_ret. intros r2 n2.
  wp_step. by eapply wp_rude_exit1.
Qed.

Lemma wp_catch_signals n s Q :
  (forall b m, Q b (set_sysno m s)) -> wp (catch_signals n) Q s.
Proof.
  revert s Q. induction n as [|n IH]; intros s Q HQ; cbn [catch_signals].
  - wp_step. specialize (HQ true (sysno s)). by destruct s.
  - rewrite wp_bind. apply wp_sys_ret. intros r m. destruct (r =? 0); [|wp_step; auto].
    apply IH. intros b m'. apply (HQ b m').
Qed.

End Exit.

Section Whole.
Context `{Env} (per t0 : Z).
Hypothesis per_nonneg : 0 <= per.
Hypothesis clock_normal : forall n, normal (env_time n).
Hypothesis clock_advances : forall n, Z.of_nat n <= per * (micros (env_time n) - t0).

Lemma holding_resock s s' fs fs' fd fd' :
  holding s (View fs [] fd) -> Forall2 resock fs fs' -> rep s' (View fs' [] fd') ->
  quiet s s' -> holding s' (View fs' [] fd').
Proof.
  intros (_ & Hd & Hn & Ht) Hrs Hr (E1 & E2 & _). unfold holding, blocks in *.
  cbn [flows finished] in *. rewrite !app_nil_r in *.
  rewrite (resock_locs _ _ Hrs), (resock_owned _ _ Hrs), E1, E2. done.
Qed.

Lemma wp_open_sockets s fs fd Q :
  holding s (View fs [] fd) ->
  (forall rc fs' fd' s', Forall2 resock fs fs' -> holding s' (View fs' [] fd') ->
     quiet s s' -> Q rc s') ->
  wp open_sockets Q s.
Proof.
  intros Hh HQ. pose proof Hh as (Hr & _). pose proof (rep_size _ _ Hr) as Hsz.
  unfold blocks in Hsz. cbn [flows finished] in Hsz. rewrite app_nil_r in Hsz.
  pose proof Hr as (Ha & _). cbn [flows] in Ha. pose proof (active_length _ _ _ _ Ha) as Hlen.
  unfold open_sockets. wp_step. eapply (wp_open_loop _ _ []); [exact Hr|exact Ha|lia|].
  intros rc fs' fd' s' Hrs Hr' Hq. eapply HQ; [exact Hrs| |done].
  eapply holding_resock; [exact Hh|done..].
Qed.

Lemma wp_init_rude s fs fd Q :
  holding s (View fs [] fd) ->
  (forall rc w fs' fd' s', Forall2 resock fs fs' -> holding s' (View fs' [] fd') ->
     traces s' = traces s ->
     (rc = 0 -> buffer s' = Some (replicate (Z.to_nat (max_packet_size s)) 0)) ->
     Q (rc, w) s') ->
  wp init_rude Q s.
Proof.
  intros Hh HQ.
  assert (Hsame : Forall2 resock fs fs).
  { destruct Hh as ((Ha & _) & _). by eapply resock_refl. }
  unfold init_rude. rewrite wp_bind. apply wp_gets. destruct (_ <=? 0); [wp_step; by eapply HQ|].
  unfold syscall. wp_step. destruct (env_malloc (sysno s)); [|wp_step; by eapply HQ].
  rewrite wp_bind. apply wp_modify. rewrite wp_bind.
  eapply (wp_open_sockets _ fs fd); [exact Hh|]. intros rc fs' fd' s1 Hrs Hh1 (_ & E2 & E3 & _).
  simpl in E2, E3. destruct (rc =? 0); wp_step; by eapply HQ.
Qed.

(** A checked block is sendable. *)
Lemma final_sendable tr mps c : block_ok tr c -> final mps c -> sendable tr mps c.
Proof.
  intros (_ & _ & Hok) (_ & Hf). unfold sendable. destruct (params c) as [|p|p]; [done|..].
  - unfold PMINSIZE in Hok. split_and!; try apply Hok; try apply Hf; lia.
  - destruct Hok as (Hs & t & es & E1 & E2 & E3 & E4 & E5 & E6 & Hall). split; [done|].
    exists t, es. split_and!; try done; [lia..|]. eapply Forall_impl; [exact Hall|].
    simpl. unfold PMINSIZE. lia.
Qed.

Lemma stop_bound (bs : list block) : exists T, Forall (fun x => micros (flow_stop x.2) <= T) bs.
Proof.
  induction bs as [|x bs [T IH]]; [exists 0; constructor|].
  exists (Z.max (micros (flow_stop x.2)) T). constructor; [lia|].
  eapply Forall_impl; [exact IH|]. simpl. lia.
Qed.

(** From a successful parse to the exit, for enough fuel. *)
Lemma wp_after_parse s fs uid pri rv :
  parsed s fs None -> Forall (fun y => final (max_packet_size s) y.2) (concat fs) ->
  Z.of_nat udp_data_size <= max_packet_size s ->
  exists N, forall patience loops, (N <= patience)%nat -> (N <= loops)%nat ->
    wp (ok ← catch_signals 3;
        if ok : bool then
          '(rc, _) ← init_rude;
          if rc =? 0 then run patience loops uid pri rv else rude_exit1 (-1)
        else rude_exit1 (-1)) (fun _ s' => released s') s.
Proof.
  intros Hp Hfin Hmps. destruct (stop_bound (concat fs)) as [T HT].
  exists (Z.to_nat (Z.max 0 (per * (T - t0)) + 2)). intros patience loops Hpat Hloops.
  pose proof (parsed_holding _ _ Hp) as Hh. rewrite wp_bind. apply wp_catch_signals.
  intros b m. destruct b; [|eapply wp_rude_exit1; by apply holding_sysno].
  rewrite wp_bind. eapply wp_init_rude; [by apply holding_sysno|].
  intros rc w fs' fd' s1 Hrs Hh1 Etr Hbuf. destruct (Z.eqb_spec rc 0) as [->|]; [|by eapply wp_rude_exit1].
  specialize (Hbuf eq_refl). simpl in Etr, Hbuf.
  assert (Hready : ready T s1 (View fs' [] fd')).
  { split; [apply Hh1|]. eexists. split; [done|]. rewrite length_replicate.
    split; [lia|]. cbn [flows]. rewrite Z2Nat.id by lia. rewrite Etr.
    eapply (resock_Forall (good T (traces s) (max_packet_size s))); [done|exact Hrs|].
    pose proof (pa_ok _ _ _ Hp) as Hok. rewrite Forall_forall in Hok, Hfin, HT |- *.
    intros x Hx. destruct (Hok x Hx) as (H1 & H2 & H3).
    split_and!; [by apply final_sendable; auto|done|auto]. }
  assert (Hrun : forall n, wp (tx_loop patience loops;; rude_exit uid pri rv)
    (fun _ s' => released s') (set_sysno n s1)).
  { intros n. rewrite wp_bind.
    eapply (wp_tx_loop patience per t0 T per_nonneg clock_normal clock_advances ltac:(lia)
      loops _ (View fs' [] fd')); try done; try lia.
    intros s2 ds fd2 Hr2 Hds Hos Et2 Ed2. apply (wp_rude_exit _ (View [] ds fd2)).
    destruct Hh1 as (_ & Hd1 & Hn1 & Ht1). unfold holding.
    change (blocks (View [] ds fd2)) with ds. simpl in Et2, Ed2. split_and!; [exact Hr2| |by rewrite Hos|].
    - rewrite Ed2, Hd1. apply list_to_set_perm_L. by rewrite Hds.
    - intros t. rewrite Hos, Et2. apply Ht1. }
  unfold run. rewrite wp_bind. destruct ((uid =? 0) && _).
  - rewrite wp_bind. apply wp_sys_ret. intros r n1. rewrite wp_bind. apply wp_sys_ret. intros r2 n2.
    rewrite wp_ret. destruct (0 <=? r2); [apply Hrun|]. by eapply wp_rude_exit.
  - rewrite wp_ret. specialize (Hrun (sysno s1)). by destruct s1.
Qed.

(** What rude reads from its script. *)
Definition script (f : file) : string := if read_fails f then ""%string else contents f.


End Whole.

(** ** An example *)

Definition demo_script : string :=
  "START NOW
0 1 ON 3001 10.0.0.1:10001 CBR 100 64
20 1 MODIFY CBR 0 64
40 1 OFF
"%string.

Definition main_env : Env := {|
  env_time := fun n => Timeval (1000 + Z.of_nat n) 0;
  env_localtime := fun _ => Tm 12 30 0;
  env_malloc := fun _ => true;
  env_ret := fun _ => 0;
  gethostbyname := fun _ => Some 16777343;
  fopen := fun _ => Some (File demo_script false)
|}.

