(* ===== verification/Crude.v ===== *)
(** crude/main.c: the receiver. It records the packets of rude to a file or to
    its output, decodes such a file, or gathers statistics per flow.

    What [recvfrom] delivers, with the clock readings that go with it, is an
    input: a list of receptions, at whose end the process is interrupted.
    Unsigned counters keep their 64 bits; the signed sums are over [Z]. *)
From Stdlib Require Import ZArith Lia Ascii String.
From stdpp Require Import base numbers list strings.
From S2P Require Import Prelude CStdio Timeval RudeState RudeXmit RudeMain.

#[local] Open Scope string_scope.
#[local] Open Scope list_scope.
#[local] Open Scope Z_scope.

(** ** Data *)

(** [struct flow_stat] *)
Record flow_stat := Flow_stat {
  flowid : Z;
  seqmin : Z; seq : Z;
  rec : Z; oos : Z;
  js_sec : Z; js_usec : Z;
  ds_sec : Z; ds_usec : Z;
  last_tx_sec : Z; last_tx_usec : Z;
  last_rx_sec : Z; last_rx_usec : Z;
  last_delay_sec : Z; last_delay_usec : Z;
  first_rx_sec : Z; first_rx_usec : Z;
  max_jitter_sec : Z; max_jitter_usec : Z;
  s_size : Z
}.

(** One return of [recvfrom]: an error, or a datagram with its sender and the
    time read after it. *)
Record reception := Reception {
  rx_payload : option (list Z); rx_src : sockaddr_in; rx_time : timeval
}.

(** One line of output. *)
Record line := Line {
  ln_id : Z; ln_seq : Z; ln_src : Z; ln_sport : Z; ln_dst : Z; ln_dport : Z;
  ln_tx : timeval; ln_rx : timeval; ln_size : Z
}.

(** ** The receive buffer *)

Definition rec_bytes (rx : reception) : Z :=
  match rx_payload rx with
  | None => -1
  | Some p => Z.min (Z.of_nat (length p)) PMAXSIZE
  end.

(** The buffer after [recvfrom(..., buffer, PMAXSIZE, ...)]: a short datagram
    leaves the rest of the last one in place. *)
Definition receive (rx : reception) (buf : list Z) : list Z :=
  match rx_payload rx with
  | None => buf
  | Some p => splice 0 (take (Z.to_nat PMAXSIZE) p) buf
  end.

(** [char buffer[PMAXSIZE]] after the [memset]. *)
Definition rx_buffer : list Z := replicate (Z.to_nat PMAXSIZE) 0.

(** An [unsigned long] of the buffer. *)
Definition get_long (off : nat) (buf : list Z) : Z := le_value (take 8 (drop off buf)).

(** ** Options *)

Section Options.

(** [open] and [realloc], which the kernel and the C library answer. *)
Variable open_file : string -> Z.
Variable realloc_ok : nat -> bool.

Record crude_opts := Crude_opts {
  c_retval : Z; c_port : Z; c_ifipadd : option string; c_num : Z; c_priority : Z;
  c_file : Z; c_flows : list flow_stat
}.

Definition crude_opts_init : crude_opts := Crude_opts 0 10001 None 0 0 0 [].

Definition with_retval (r : Z) (o : crude_opts) : crude_opts :=
  Crude_opts r (c_port o) (c_ifipadd o) (c_num o) (c_priority o) (c_file o) (c_flows o).

(** A flow without packets (lines 259 to 271); the fields the first packet sets
    are whatever [realloc] left, here zero. *)
Definition new_stat (id : Z) : flow_stat :=
  Flow_stat id ULONG_MAX ULONG_MAX 0 0 0 0 0 0 0 0 0 0 0 0 0 0 0 0 0.

(** The loop over the list of flow ids (lines 239 to 274): the flows and whether
    the list was accepted. *)
Fixpoint parse_ids (fuel : nat) (sptr : string) (fl : list flow_stat) : list flow_stat * bool :=
  match fuel with
  | O => (fl, false)
  | S fuel =>
    if realloc_ok (length fl) then
      let '(id, eptr) := strtoul10 sptr in
      if (String.length eptr =? String.length sptr)%nat || (id =? ULONG_MAX) then (fl, false)
      else
        match eptr with
        | "" => (fl ++ [new_stat id], true)
        | String c rest =>
          if ceq c "," then parse_ids fuel rest (fl ++ [new_stat id]) else (fl, false)
        end
    else (fl, false)
  end.

(** The [switch] (lines 120 to 285). *)
Definition crude_option (argc user_id : Z) (g : getopt_ret) (o : crude_opts) : crude_opts :=
  let bad := with_retval (-2) o in
  if ceq (opt g) "v" || ceq (opt g) "h" then
    with_retval (if (optind g =? 2) && (argc =? 2) then -1 else -2) o
  else if ceq (opt g) "d" then
    match optarg g with
    | Some a =>
      if (optind g =? 3) && (argc =? 3) then
        let fd := open_file a in
        Crude_opts (if fd <? 0 then -3 else 1) (c_port o) (c_ifipadd o) (c_num o) (c_priority o) fd (c_flows o)
      else bad
    | None => bad
    end
  else if ceq (opt g) "p" then
    match optarg g with
    | Some a =>
      let '(temp1, err) := strtol0 a in
      if err || (temp1 <? 1025) || (65535 <? temp1) then with_retval (-4) o
      else Crude_opts (c_retval o + 2) temp1 (c_ifipadd o) (c_num o) (c_priority o) (c_file o) (c_flows o)
    | None => bad
    end
  else if ceq (opt g) "i" then
    match optarg g with
    | Some a =>
      Crude_opts (c_retval o + 4) (c_port o) (Some a) (c_num o) (c_priority o) (c_file o) (c_flows o)
    | None => bad
    end
  else if ceq (opt g) "l" then
    match optarg g with
    | Some a =>
      let fd := open_file a in
      Crude_opts (if fd <? 0 then -5 else c_retval o + 8) (c_port o) (c_ifipadd o) (c_num o)
        (c_priority o) fd (c_flows o)
    | None => bad
    end
  else if ceq (opt g) "P" then
    match optarg g with
    | Some a =>
      let pri := atoi a in
      let rv := if (pri <? 1) || (90 <? pri) then -2 else c_retval o in
      let rv := if user_id =? 0 then rv else -2 in
      Crude_opts rv (c_port o) (c_ifipadd o) (c_num o) pri (c_file o) (c_flows o)
    | None => bad
    end
  else if ceq (opt g) "n" then
    match optarg g with
    | Some a =>
      let '(w_num, err) := strtol0 a in
      Crude_opts (if err || (w_num <=? 0) then -6 else c_retval o + 16) (c_port o) (c_ifipadd o)
        w_num (c_priority o) (c_file o) (c_flows o)
    | None => bad
    end
  else if ceq (opt g) "s" then
    match optarg g with
    | Some a =>
      let '(fl, ok) := parse_ids (S (String.length a)) a (c_flows o) in
      Crude_opts (if ok : bool then c_retval o else -6) (c_port o) (c_ifipadd o) (c_num o)
        (c_priority o) (c_file o) fl
    | None => bad
    end
  else with_retval (-1) o.

(** The loop of lines 118 and 119. *)
Fixpoint crude_options (argc user_id : Z) (gs : list getopt_ret) (o : crude_opts) : crude_opts :=
  match gs with
  | [] => o
  | g :: gs =>
    if 0 <=? c_retval o then crude_options argc user_id gs (crude_option argc user_id g o) else o
  end.

End Options.

(** ** make_conn *)

(** The address the socket is bound to, and the result, given what [inet_addr],
    [socket] and [bind] return. [our_ip] is an [unsigned long], [inet_addr]'s
    result an unsigned 32-bit integer, and -1 is converted to [unsigned long]
    for the comparison. *)
Definition INADDR_NONE : Z := 4294967295.

Definition bind_addr (inet_addr : string -> Z) (ifaddr : option string) : option Z :=
  match ifaddr with
  | None => Some (htonl 0)
  | Some a =>
    if (String.length a =? 0)%nat then Some (htonl 0)
    else
      let our_ip := u64 (u32 (inet_addr a)) in
      if our_ip =? u64 (-1) then None else Some (htonl our_ip)
  end.

Definition make_conn (inet_addr : string -> Z) (sock bound : Z) (port : Z)
  (ifaddr : option string) : Z * option sockaddr_in :=
  match bind_addr inet_addr ifaddr with
  | None => (-1, None)
  | Some addr =>
    if sock <? 0 then (-2, None)
    else if bound <? 0 then (-3, None)
    else (sock, Some (Sockaddr_in 2 (htons port) addr))
  end.

(** ** runtime_stats *)

(** The jitter of two delays that differ by [jitter_s] seconds and [jitter_us]
    microseconds (lines 575 to 586). *)
Definition jitter_abs (jitter_s jitter_us : Z) : Z * Z :=
  let '(jitter_s, jitter_us) :=
    if jitter_s <? 0 then (- jitter_s, - jitter_us) else (jitter_s, jitter_us) in
  if jitter_us <? 0 then
    if jitter_s =? 0 then (jitter_s, - jitter_us) else (jitter_s - 1, jitter_us + 1000000)
  else (jitter_s, jitter_us).

(** Lines 570 to 593: the sums of delays and jitters. *)
Definition stat_delay (delay_s delay_us : Z) (f : flow_stat) : flow_stat :=
  let '(jitter_s, jitter_us) :=
    jitter_abs (delay_s - last_delay_sec f) (delay_us - last_delay_usec f) in
  let larger := (max_jitter_sec f <? jitter_s)
                || ((jitter_s =? max_jitter_sec f) && (max_jitter_usec f <? jitter_us)) in
  Flow_stat (flowid f) (seqmin f) (seq f) (rec f) (oos f)
    (js_sec f + jitter_s) (js_usec f + jitter_us) (ds_sec f + delay_s) (ds_usec f + delay_us)
    (last_tx_sec f) (last_tx_usec f) (last_rx_sec f) (last_rx_usec f)
    (last_delay_sec f) (last_delay_usec f) (first_rx_sec f) (first_rx_usec f)
    (if larger then jitter_s else max_jitter_sec f)
    (if larger then jitter_us else max_jitter_usec f) (s_size f).

(** Lines 594 to 601. *)
Definition stat_last (tx rx : timeval) (delay_s delay_us bytes : Z) (f : flow_stat) : flow_stat :=
  Flow_stat (flowid f) (seqmin f) (seq f) (rec f) (oos f)
    (js_sec f) (js_usec f) (ds_sec f) (ds_usec f)
    (tv_sec tx) (tv_usec tx) (tv_sec rx) (tv_usec rx) delay_s delay_us
    (first_rx_sec f) (first_rx_usec f) (max_jitter_sec f) (max_jitter_usec f)
    (u64 (s_size f + bytes)).

(** The sequence numbers and counters of lines 544 and 549 to 569; whether the
    packet is the first of its flow. *)
Definition stat_seq (sq : Z) (rx : timeval) (f : flow_stat) : flow_stat * bool :=
  let r := u64 (rec f + 1) in
  let set mn sq' o frs fru :=
    Flow_stat (flowid f) mn sq' r o (js_sec f) (js_usec f) (ds_sec f) (ds_usec f)
      (last_tx_sec f) (last_tx_usec f) (last_rx_sec f) (last_rx_usec f)
      (last_delay_sec f) (last_delay_usec f) frs fru
      (max_jitter_sec f) (max_jitter_usec f) (s_size f) in
  if sq <=? seq f then
    let o := u64 (oos f + 1) in
    if sq <? seqmin f then
      if r =? 1 then (set sq sq (u64 (o - 1)) (tv_sec rx) (tv_usec rx), true)
      else (set sq (seq f) o (first_rx_sec f) (first_rx_usec f), false)
    else (set (seqmin f) (seq f) o (first_rx_sec f) (first_rx_usec f), false)
  else (set (seqmin f) sq (oos f) (first_rx_sec f) (first_rx_usec f), false).

(** The update of one flow by one packet (lines 543 to 601). *)
Definition stat_packet (sq : Z) (tx rx : timeval) (bytes : Z) (f : flow_stat) : flow_stat :=
  let delay_s := tv_sec rx - tv_sec tx in
  let delay_us := tv_usec rx - tv_usec tx in
  let '(f, first) := stat_seq sq rx f in
  stat_last tx rx delay_s delay_us bytes
    (if first : bool then f else stat_delay delay_s delay_us f).

(** Lines 531 to 538: the first flow with the id. *)
Fixpoint update_flow (id : Z) (g : flow_stat -> flow_stat) (fl : list flow_stat)
  : option (list flow_stat) :=
  match fl with
  | [] => None
  | f :: fl => if flowid f =? id then Some (g f :: fl) else cons f <$> update_flow id g fl
  end.

(** The globals the loops work on. *)
Record crude := Crude {
  pkt_count : Z; stats : list flow_stat; log : list Z; out : list line
}.

(** The packet in [buf], of [bytes] bytes, received at [rx] (lines 530 to 602);
    [None] for a packet of another flow. *)
Definition stats_packet (buf : list Z) (bytes : Z) (rx : timeval) (st : crude) : option crude :=
  let id := ntohl (get_long off_flow_id buf) in
  let sq := ntohl (get_long off_sequence_number buf) in
  let tx := Timeval (ntohl (get_long off_tx_time_seconds buf))
                    (ntohl (get_long off_tx_time_useconds buf)) in
  fl ← update_flow id (stat_packet sq tx rx bytes) (stats st);
  Some (Crude (pkt_count st) fl (log st) (out st)).

Definition count_pkt (st : crude) : crude :=
  Crude (u64 (pkt_count st + 1)) (stats st) (log st) (out st).

Definition limit_reached (limit : Z) (st : crude) : bool :=
  negb (limit =? 0) && (limit <=? pkt_count st).

(** The loop (lines 523 to 608): the state it ends in, and whether it ended at
    the limit. *)
Fixpoint runtime_stats (limit : Z) (rxs : list reception) (buf : list Z) (st : crude)
  : crude * bool :=
  match rxs with
  | [] => (st, false)
  | rx :: rxs =>
    let buf := receive rx buf in
    match
      (if rec_bytes rx <=? 0 then Some st
       else stats_packet buf (rec_bytes rx) (rx_time rx) st)
    with
    | None => runtime_stats limit rxs buf st
    | Some st =>
      let st := count_pkt st in
      if limit_reached limit st then (st, true) else runtime_stats limit rxs buf st
    end
  end.

(** ** print_stats *)

(** Lines 644 to 647 and 675 to 679: the quotient of a sum by a number of
    packets. Both operands are converted to [unsigned long long]. *)
Definition average (sec usec n : Z) : Z * Z :=
  let q := wraps 64 (u64 sec / n) in
  let u := wraps 64 (u64 (u64 usec + 1000000 * (u64 sec mod n)) / n) in
  (q + Z.quot u 1000000, Z.rem u 1000000).

(** Lines 651 to 671: sign, seconds and microseconds. *)
Definition same_sign (sec usec : Z) : bool * Z * Z :=
  let '(sec, usec) :=
    if (0 <? sec) && (usec <? 0) then (sec - 1, 1000000 + usec)
    else if (sec <? 0) && (0 <? usec) then (sec + 1, - 1000000 + usec)
    else (sec, usec) in
  if (sec <? 0) || (usec <? 0) then (true, Z.abs sec, Z.abs usec) else (false, sec, usec).

(** What is printed of one flow, except the throughput: received, out of
    sequence, lost, bytes; then, with enough packets, the delay, the jitter and
    the largest jitter. *)
Record stat_report := Stat_report {
  sr_rec : Z; sr_oos : Z; sr_lost : Z; sr_size : Z;
  sr_delay : option (bool * Z * Z); sr_jitter : option (Z * Z); sr_max : option (Z * Z)
}.

Definition print_stat (f : flow_stat) : stat_report :=
  let lost := if 0 <? rec f then u64 (seq f - seqmin f + 1 - rec f) else 0 in
  if rec f <? 2 then Stat_report (rec f) (oos f) lost (s_size f) None None None
  else
    let '(sec, usec) := average (ds_sec f) (ds_usec f) (rec f) in
    Stat_report (rec f) (oos f) lost (s_size f)
      (Some (same_sign sec usec))
      (Some (average (js_sec f) (js_usec f) (rec f - 1)))
      (Some (max_jitter_sec f, max_jitter_usec f)).

Definition print_stats (st : crude) : list stat_report := print_stat <$> stats st.

(** ** rec_to_file *)

(** [struct crude_struct] with its four bytes of padding. *)
Definition crude_struct_bytes (rx : reception) (port : Z) (pad : list Z) : list Z :=
  le_bytes 8 (htonl (tv_sec (rx_time rx))) ++ le_bytes 8 (htonl (tv_usec (rx_time rx))) ++
  le_bytes 8 (sin_addr (rx_src rx)) ++ le_bytes 8 (htonl (rec_bytes rx)) ++
  le_bytes 2 (sin_port (rx_src rx)) ++ le_bytes 2 (htons port) ++ pad.

Definition record_bytes (buf : list Z) (rx : reception) (port : Z) (pad : list Z) : list Z :=
  take udp_data_size buf ++ crude_struct_bytes rx port pad.

Definition append_log (bs : list Z) (st : crude) : crude :=
  Crude (pkt_count st) (stats st) (log st ++ bs) (out st).

Fixpoint rec_to_file (port limit : Z) (pad : list Z) (rxs : list reception) (buf : list Z)
  (st : crude) : crude * bool :=
  match rxs with
  | [] => (st, false)
  | rx :: rxs =>
    let buf := receive rx buf in
    let st :=
      if rec_bytes rx <=? 0 then st
      else append_log (record_bytes buf rx port pad) (count_pkt st) in
    if limit_reached limit st then (st, true)
    else rec_to_file port limit pad rxs buf st
  end.

(** ** rec_n_print *)

Definition append_out (l : line) (st : crude) : crude :=
  Crude (pkt_count st) (stats st) (log st) (out st ++ [l]).

Definition packet_line (buf : list Z) (rx : reception) (port : Z) : line :=
  Line (ntohl (get_long off_flow_id buf)) (ntohl (get_long off_sequence_number buf))
    (sin_addr (rx_src rx)) (ntohs (sin_port (rx_src rx)))
    (u32 (get_long off_dest_addr buf)) port
    (Timeval (ntohl (get_long off_tx_time_seconds buf)) (ntohl (get_long off_tx_time_useconds buf)))
    (rx_time rx) (rec_bytes rx).

Fixpoint rec_n_print (port limit : Z) (rxs : list reception) (buf : list Z) (st : crude)
  : crude * bool :=
  match rxs with
  | [] => (st, false)
  | rx :: rxs =>
    let buf := receive rx buf in
    let st :=
      if rec_bytes rx <=? 0 then st
      else append_out (packet_line buf rx port) (count_pkt st) in
    if limit_reached limit st then (st, true)
    else rec_n_print port limit rxs buf st
  end.

(** ** decode_file *)

(** [sizeof(struct crude_struct)] and the size of a record. *)
Definition crude_struct_size : nat := 40.
Definition record_size : nat := udp_data_size + crude_struct_size.

(** The line printed for the record in [buf]. *)
Definition decode_line (buf : list Z) : line :=
  let rest := drop udp_data_size buf in
  Line (ntohl (get_long off_flow_id buf)) (ntohl (get_long off_sequence_number buf))
    (u32 (get_long 16 rest)) (ntohs (le_value (take 2 (drop 32 rest))))
    (u32 (get_long off_dest_addr buf)) (ntohs (le_value (take 2 (drop 34 rest))))
    (Timeval (ntohl (get_long off_tx_time_seconds buf)) (ntohl (get_long off_tx_time_useconds buf)))
    (Timeval (ntohl (get_long 0 rest)) (ntohl (get_long 8 rest)))
    (ntohl (get_long 24 rest)).

(** The loop over [read]: a short last read leaves the end of the buffer as it
    was. *)
Fixpoint decode_loop (fuel : nat) (file buf : list Z) (st : crude) : crude :=
  match fuel, file with
  | S fuel, _ :: _ =>
    let buf := splice 0 (take record_size file) buf in
    decode_loop fuel (drop record_size file) buf (append_out (decode_line buf) (count_pkt st))
  | _, _ => st
  end.

(** [buf] is what [malloc] returned. *)
Definition decode_file (file buf : list Z) (st : crude) : crude :=
  decode_loop (length file) file buf st.

(** ** main *)

(** The exit value, the state, and the statistics printed. [sched] and [sig] are
    the results of the system calls of lines 303 and 314, [restore] of line 341;
    [heap] is the memory [malloc] returns, [pad] the padding of the structure. *)
Record crude_env := Crude_env {
  ce_open : string -> Z; ce_realloc : nat -> bool; ce_inet_addr : string -> Z;
  ce_sched : Z; ce_sig : Z; ce_restore : Z; ce_socket : Z; ce_bind : Z;
  ce_file : list Z; ce_heap : option (list Z); ce_pad : list Z
}.

(** Lines 333 to 357. *)
Definition crude_exit (e : crude_env) (user_id : Z) (o : crude_opts) (rv : Z) (st : crude)
  : Z * crude * list stat_report :=
  let rows := if (0 <=? rv) && (0 <? Z.of_nat (length (stats st))) then print_stats st else [] in
  let rv := if (user_id =? 0) && (0 <? c_priority o) && (ce_restore e <? 0) then -1 else rv in
  (rv, st, rows).

(** crude_handler (lines 385 to 405), with which an unlimited run ends. *)
Definition crude_handler (st : crude) : Z * crude * list stat_report :=
  (0, st, if 0 <? Z.of_nat (length (stats st)) then print_stats st else []).

Definition crude_main (e : crude_env) (argc user_id : Z) (gs : list getopt_ret)
  (rxs : list reception) : Z * crude * list stat_report :=
  let o := crude_options (ce_open e) (ce_realloc e) argc user_id gs crude_opts_init in
  let st := Crude 0 (c_flows o) [] [] in
  let limit := u64 (c_num o) in
  if c_retval o <? 0 then crude_exit e user_id o (c_retval o) st
  else if (user_id =? 0) && (0 <? c_priority o) && (ce_sched e <? 0)
  then crude_exit e user_id o (-1) st
  else if negb (ce_sig e =? 0) then crude_exit e user_id o (-7) st
  else if c_retval o =? 1 then
    match ce_heap e with
    | None => crude_exit e user_id o (-10) st
    | Some buf => crude_exit e user_id o 0 (decode_file (ce_file e) buf st)
    end
  else
    let '(sock, _) := make_conn (ce_inet_addr e) (ce_socket e) (ce_bind e) (c_port o) (c_ifipadd o) in
    if sock <? 0 then crude_exit e user_id o (-8) st
    else
      let '(st, full) :=
        if 0 <? Z.of_nat (length (stats st)) then runtime_stats limit rxs rx_buffer st
        else if 0 <? c_file o then rec_to_file (c_port o) limit (ce_pad e) rxs rx_buffer st
        else rec_n_print (c_port o) limit rxs rx_buffer st in
      if full : bool then crude_exit e user_id o 0 st else crude_handler st.
