(* ===== verification/CrudeSpec.v ===== *)
(** What crude computes: the fields rude wrote, recording and decoding, the
    statistics of a flow. *)
From Stdlib Require Import ZArith Lia String.
From stdpp Require Import base numbers list sets strings.
From S2P Require Import Prelude CStdio Timeval RudeState RudeXmit RudeMain Crude.

#[local] Open Scope Z_scope.

(** ** Reading back the fields *)

Lemma drop_field n off x r : drop (n + off) (le_bytes n x ++ r) = drop off r.
Proof. rewrite <- (length_le_bytes n x) at 1. apply drop_app_add. Qed.

Lemma get_long_0 x r : get_long 0 (le_bytes 8 x ++ r) = u64 x.
Proof.
  unfold get_long. rewrite drop_0, take_app_length' by (by rewrite length_le_bytes).
  apply le_value_bytes.
Qed.

(** Passing over a field. *)
Lemma get_long_8 off x r : get_long (8 + off) (le_bytes 8 x ++ r) = get_long off r.
Proof. unfold get_long. by rewrite drop_field. Qed.

Lemma get_short_0 x r : le_value (take 2 (le_bytes 2 x ++ r)) = u16 x.
Proof. rewrite take_app_length' by (by rewrite length_le_bytes). apply le_value_bytes. Qed.

Lemma ntohl_u64 x : ntohl (u64 x) = ntohl x.
Proof. unfold ntohl. f_equal. width_lia. Qed.

Lemma u64_u32 x : 0 <= x < 2 ^ 32 -> u64 x = x.
Proof. intros. apply wrapu_small. lia. Qed.

(** The fields of a header. *)
Lemma header_fields c now rest :
  let buf := udp_header c now ++ rest in
  ntohl (get_long off_sequence_number buf) = u32 (sequence_nmbr c) /\
  ntohl (get_long off_tx_time_seconds buf) = u32 (tv_sec now) /\
  ntohl (get_long off_tx_time_useconds buf) = u32 (tv_usec now) /\
  ntohl (get_long off_flow_id buf) = u32 (flow_id c) /\
  u32 (get_long off_dest_addr buf) = u32 (sin_addr (dst c)).
Proof.
  cbv zeta. unfold udp_header. rewrite <- !app_assoc.
  unfold off_sequence_number, off_tx_time_seconds, off_tx_time_useconds, off_flow_id, off_dest_addr.
  rewrite !(get_long_8 0), !(get_long_8 8), !(get_long_8 16), !(get_long_8 24).
  rewrite !(get_long_8 0), !(get_long_8 8), !(get_long_8 16).
  rewrite !(get_long_8 0), !(get_long_8 8), !(get_long_8 0), !get_long_0.
  rewrite !ntohl_u64, !ntohl_htonl. split_and!; try done. width_lia.
Qed.

(** ** Recording and decoding *)

Lemma splice_0 bs buf : splice 0 bs buf = bs ++ drop (length bs) buf.
Proof. done. Qed.

Lemma length_receive rx buf :
  length buf = Z.to_nat PMAXSIZE -> length (receive rx buf) = length buf.
Proof.
  intros Hl. unfold receive. destruct (rx_payload rx); [|done].
  apply length_splice. rewrite length_take. lia.
Qed.

(** The values that survive the 32-bit and 16-bit fields of a record. *)
Definition recordable (rx : reception) : Prop :=
  0 <= tv_sec (rx_time rx) < 2 ^ 32 /\ 0 <= tv_usec (rx_time rx) < 2 ^ 32 /\
  0 <= sin_addr (rx_src rx) < 2 ^ 32 /\ 0 <= sin_port (rx_src rx) < 2 ^ 16.

Lemma length_record buf rx port pad :
  (udp_data_size <= length buf)%nat -> length pad = 4%nat ->
  length (record_bytes buf rx port pad) = record_size.
Proof.
  intros. unfold record_bytes, crude_struct_bytes, record_size, crude_struct_size.
  rewrite !length_app, length_take, !length_le_bytes. unfold udp_data_size in *. lia.
Qed.

Lemma get_long_take n off buf :
  (off + 8 <= n)%nat -> (n <= length buf)%nat -> forall r,
  get_long off (take n buf ++ r) = get_long off buf.
Proof.
  intros H1 H2 r. unfold get_long. f_equal.
  rewrite drop_app_le by (rewrite length_take; lia).
  rewrite take_app_le by (rewrite length_drop, length_take; lia).
  rewrite skipn_firstn_comm, take_take. f_equal. lia.
Qed.

(** Decoding a record prints what would have been printed of its packet. *)
Lemma decode_record buf rx port pad r :
  (udp_data_size <= length buf)%nat -> recordable rx -> 0 <= port < 2 ^ 16 ->
  0 < rec_bytes rx -> 
  decode_line (record_bytes buf rx port pad ++ r) = packet_line buf rx port.
Proof.
  intros Hl (H1 & H2 & H3 & H4) Hp Hb. unfold record_bytes. rewrite <- app_assoc.
  unfold decode_line, packet_line. unfold udp_data_size in Hl.
  rewrite !(get_long_take udp_data_size)
    by (unfold udp_data_size, off_flow_id, off_sequence_number, off_dest_addr,
          off_tx_time_seconds, off_tx_time_useconds in *; lia).
  rewrite (drop_app_length' (take udp_data_size buf))
    by (rewrite length_take; unfold udp_data_size; lia).
  assert (Hr32 : rec_bytes rx < 2 ^ 32).
  { unfold rec_bytes. destruct (rx_payload rx); unfold PMAXSIZE; lia. }
  unfold crude_struct_bytes. rewrite <- !app_assoc.
  rewrite (get_long_8 0), !(get_long_8 8), !(get_long_8 16), !(get_long_8 0), !(get_long_8 8).
  rewrite !(get_long_8 0), !get_long_0, !ntohl_u64, !ntohl_htonl.
  rewrite (drop_field 8 24), (drop_field 8 26), (drop_field 8 16), (drop_field 8 18),
    (drop_field 8 8), (drop_field 8 10), (drop_field 8 0), (drop_field 8 2), (drop_field 2 0).
  rewrite !drop_0, !get_short_0. unfold htons at 1.
  rewrite (wrapu_small 16 (bswap16 _)) by apply bswap16_range.
  change (bswap16 (u16 port)) with (htons port). rewrite ntohs_htons.
  rewrite (wrapu_small 32 (tv_sec _)), (wrapu_small 32 (tv_usec _)), (wrapu_small 16 port),
    (wrapu_small 16 (sin_port _)), (wrapu_small 32 (rec_bytes rx)) by (done || lia).
  replace (u32 (u64 (sin_addr (rx_src rx)))) with (sin_addr (rx_src rx)) by width_lia.
  by destruct (rx_time rx).
Qed.

(** The packets that were received, each with the buffer it left. *)
Fixpoint captured (rxs : list reception) (buf : list Z) : list (list Z * reception) :=
  match rxs with
  | [] => []
  | rx :: rxs =>
    let buf := receive rx buf in
    if rec_bytes rx <=? 0 then captured rxs buf else (buf, rx) :: captured rxs buf
  end.

Section Roundtrip.
Variables (port : Z) (pad : list Z).
Hypothesis port_range : 0 <= port < 2 ^ 16.
Hypothesis pad_length : length pad = 4%nat.

Lemma rec_to_file_log rxs buf st :
  log (rec_to_file port 0 pad rxs buf st).1 =
  log st ++ concat ((fun x => record_bytes x.1 x.2 port pad) <$> captured rxs buf).
Proof.
  revert buf st. induction rxs as [|rx rxs IH]; intros buf st; simpl; [by rewrite app_nil_r|].
  destruct (rec_bytes rx <=? 0); rewrite IH; simpl; [done|]. by rewrite <- app_assoc.
Qed.

Lemma rec_n_print_out rxs buf st :
  out (rec_n_print port 0 rxs buf st).1 =
  out st ++ ((fun x => packet_line x.1 x.2 port) <$> captured rxs buf).
Proof.
  revert buf st. induction rxs as [|rx rxs IH]; intros buf st; simpl; [by rewrite app_nil_r|].
  destruct (rec_bytes rx <=? 0); rewrite IH; simpl; [done|]. by rewrite <- app_assoc.
Qed.

Lemma captured_spec rxs buf :
  length buf = Z.to_nat PMAXSIZE -> Forall recordable rxs ->
  Forall (fun x => (udp_data_size <= length x.1)%nat /\ recordable x.2 /\ 0 < rec_bytes x.2)
    (captured rxs buf).
Proof.
  intros Hl Hr. revert buf Hl. induction Hr as [|rx rxs Hrx _ IH]; intros buf Hl; [constructor|].
  simpl. pose proof (length_receive rx buf Hl) as Hlen.
  destruct (Z.leb_spec (rec_bytes rx) 0); [|constructor]; try (apply IH; congruence).
  simpl. split_and!; [|done..]. rewrite Hlen, Hl. unfold udp_data_size, PMAXSIZE. lia.
Qed.

Lemma decode_loop_records cs fuel buf st :
  Forall (fun x => (udp_data_size <= length x.1)%nat /\ recordable x.2 /\ 0 < rec_bytes x.2) cs ->
  (length (concat ((fun x => record_bytes x.1 x.2 port pad) <$> cs)) <= fuel)%nat ->
  out (decode_loop fuel (concat ((fun x => record_bytes x.1 x.2 port pad) <$> cs)) buf st) =
  out st ++ ((fun x => packet_line x.1 x.2 port) <$> cs).
Proof.
  intros Hcs. revert fuel buf st. induction Hcs as [|[b rx] cs (Hl & Hr & Hb) _ IH];
    intros fuel buf st Hf.
  { destruct fuel; simpl; by rewrite app_nil_r. }
  cbn [fmap list_fmap concat fst snd] in Hf |- *. simpl in Hl, Hr, Hb.
  pose proof (length_record b rx port pad Hl pad_length) as Hlen.
  rewrite length_app, Hlen in Hf. change record_size with 80%nat in Hf, Hlen.
  set (rest := concat _) in *. destruct fuel as [|fuel]; [lia|].
  destruct (record_bytes b rx port pad ++ rest) as [|z zs] eqn:E.
  { apply (f_equal length) in E. rewrite length_app in E. simpl in E. lia. }
  cbn [decode_loop]. rewrite <- E. clear E z zs.
  rewrite take_app_length', drop_app_length' by (by rewrite Hlen).
  rewrite splice_0, decode_record by done. subst rest. rewrite IH by lia. simpl.
  by rewrite <- app_assoc.
Qed.

(** C38: recording and decoding lose nothing: for any sequence of receptions
    (errors and short datagrams included), decoding the file that -l records
    prints exactly the lines that printing the packets as they arrive would
    have printed. *)
Theorem record_decode_roundtrip rxs heap :
  Forall recordable rxs ->
  let st := Crude 0 [] [] [] in
  out (decode_file (log (rec_to_file port 0 pad rxs rx_buffer st).1) heap st) =
  out (rec_n_print port 0 rxs rx_buffer st).1.
Proof.
  intros Hr st. rewrite rec_to_file_log, rec_n_print_out. unfold decode_file. simpl.
  rewrite decode_loop_records; [done| |done]. apply captured_spec; [|done].
  unfold rx_buffer. apply length_replicate.
Qed.

End Roundtrip.

(** ** The statistics of one flow *)

Record pkt := Pkt { p_seq : Z; p_tx : timeval; p_rx : timeval; p_bytes : Z }.

Definition apply_pkt (f : flow_stat) (p : pkt) : flow_stat :=
  stat_packet (p_seq p) (p_tx p) (p_rx p) (p_bytes p) f.

Definition delay_s (p : pkt) : Z := tv_sec (p_rx p) - tv_sec (p_tx p).
Definition delay_us (p : pkt) : Z := tv_usec (p_rx p) - tv_usec (p_tx p).

(** The jitter between two consecutive packets. *)
Definition jitter (p q : pkt) : Z * Z :=
  jitter_abs (delay_s q - delay_s p) (delay_us q - delay_us p).

(** The jitters of the packets [ps] that follow [p]. *)
Fixpoint jitters (p : pkt) (ps : list pkt) : list (Z * Z) :=
  match ps with
  | [] => []
  | q :: ps => jitter p q :: jitters q ps
  end.

(** How many of [ps] come with a sequence number not above all earlier ones, of
    which [m] is the largest. *)
Fixpoint late (m : Z) (ps : list pkt) : Z :=
  match ps with
  | [] => 0
  | q :: ps => (if p_seq q <=? m then 1 else 0) + late (Z.max m (p_seq q)) ps
  end.

Definition sum (zs : list Z) : Z := foldr Z.add 0 zs.

Lemma sum_cons z zs : sum (z :: zs) = z + sum zs.
Proof. done. Qed.

Lemma sum_nonneg {A} (g : A -> Z) xs : Forall (fun x => 0 <= g x) xs -> 0 <= sum (g <$> xs).
Proof.
  induction 1 as [|x xs Hx _ IH]; [done|]. rewrite fmap_cons, sum_cons. lia.
Qed.

Lemma last_cons_default {A} (x y : A) xs : List.last (x :: xs) y = List.last xs x.
Proof.
  revert x y. induction xs as [|z xs IH]; intros x y; [done|].
  change (List.last (x :: z :: xs) y) with (List.last (z :: xs) y). by rewrite !IH.
Qed.

Lemma late_bound m ps : 0 <= late m ps <= Z.of_nat (length ps).
Proof.
  revert m. induction ps as [|q ps IH]; intros m; simpl late; simpl length; [lia|].
  specialize (IH (Z.max m (p_seq q))). case_match; lia.
Qed.

(** One packet of a flow that has seen its first one. *)
Lemma apply_pkt_started f q :
  1 <= rec f -> rec f + 1 < 2 ^ 64 -> 0 <= oos f -> oos f + 1 < 2 ^ 64 -> seqmin f <= seq f ->
  let g := apply_pkt f q in
  rec g = rec f + 1 /\ seqmin g = Z.min (seqmin f) (p_seq q) /\ seq g = Z.max (seq f) (p_seq q) /\
  oos g = oos f + (if p_seq q <=? seq f then 1 else 0) /\
  s_size g = u64 (s_size f + p_bytes q) /\
  ds_sec g = ds_sec f + delay_s q /\ ds_usec g = ds_usec f + delay_us q /\
  last_delay_sec g = delay_s q /\ last_delay_usec g = delay_us q /\
  let j := jitter_abs (delay_s q - last_delay_sec f) (delay_us q - last_delay_usec f) in
  js_sec g = js_sec f + j.1 /\ js_usec g = js_usec f + j.2.
Proof.
  intros Hr Hr2 Ho Ho2 Hs. cbv zeta. unfold apply_pkt, stat_packet, stat_seq.
  rewrite (wrapu_small 64 (rec f + 1)) by lia.
  destruct (Z.eqb_spec (rec f + 1) 1); [lia|].
  rewrite (wrapu_small 64 (oos f + 1)) by lia.
  destruct (Z.leb_spec (p_seq q) (seq f)); [destruct (Z.ltb_spec (p_seq q) (seqmin f))|];
    unfold stat_delay, stat_last, delay_s, delay_us; simpl;
    destruct (jitter_abs _ _) as [j_s j_us]; simpl; split_and!; lia.
Qed.

(** The first packet of a flow. *)
Lemma apply_pkt_first id p :
  0 <= p_seq p < 2 ^ 32 ->
  let g := apply_pkt (new_stat id) p in
  rec g = 1 /\ seqmin g = p_seq p /\ seq g = p_seq p /\ oos g = 0 /\
  s_size g = u64 (p_bytes p) /\ ds_sec g = 0 /\ ds_usec g = 0 /\
  last_delay_sec g = delay_s p /\ last_delay_usec g = delay_us p /\
  js_sec g = 0 /\ js_usec g = 0.
Proof.
  intros Hs. cbv zeta. unfold apply_pkt, stat_packet, stat_seq, new_stat. cbn [rec seq seqmin oos].
  change (u64 (0 + 1)) with 1. change (u64 (u64 (0 + 1) - 1)) with 0.
  destruct (Z.leb_spec (p_seq p) ULONG_MAX); [|unfold ULONG_MAX in *; lia].
  destruct (Z.ltb_spec (p_seq p) ULONG_MAX); [|unfold ULONG_MAX in *; lia].
  simpl. split_and!; done.
Qed.

(** A flow that has seen the packets up to [p], with what it holds. *)
Record summary (f : flow_stat) (p : pkt) (n mn mx o sz ds dus js jus : Z) : Prop := {
  su_rec : rec f = n; su_min : seqmin f = mn; su_max : seq f = mx; su_oos : oos f = o;
  su_size : s_size f = sz; su_ds : ds_sec f = ds; su_dus : ds_usec f = dus;
  su_js : js_sec f = js; su_jus : js_usec f = jus;
  su_last : last_delay_sec f = delay_s p /\ last_delay_usec f = delay_us p
}.

Lemma run_summary ps f p n mn mx o sz ds dus js jus :
  summary f p n mn mx o sz ds dus js jus ->
  1 <= n -> 0 <= o <= n -> mn <= mx -> n + Z.of_nat (length ps) < 2 ^ 64 -> 0 <= sz < 2 ^ 64 ->
  Forall (fun q => 0 <= p_bytes q) ps -> sz + sum (p_bytes <$> ps) < 2 ^ 64 ->
  summary (foldl apply_pkt f ps) (List.last ps p) (n + Z.of_nat (length ps))
    (foldl Z.min mn (p_seq <$> ps)) (foldl Z.max mx (p_seq <$> ps)) (o + late mx ps)
    (sz + sum (p_bytes <$> ps)) (ds + sum (delay_s <$> ps)) (dus + sum (delay_us <$> ps))
    (js + sum (fst <$> jitters p ps)) (jus + sum (snd <$> jitters p ps)).
Proof.
  revert f p n mn mx o sz ds dus js jus. induction ps as [|q ps IH];
    intros f p n mn mx o sz ds dus js jus Hf Hn Ho Hm Hlt Hsz Hb Hsum.
  { simpl. rewrite !Z.add_0_r. exact Hf. }
  apply Forall_cons in Hb as [Hq Hb]. simpl in Hlt.
  pose proof (sum_nonneg _ _ Hb). rewrite fmap_cons, sum_cons in Hsum.
  destruct Hf as [E1 E2 E3 E4 E5 E6 E7 E8 E9 [E10 E11]].
  destruct (apply_pkt_started f q) as (F1 & F2 & F3 & F4 & F5 & F6 & F7 & F8 & F9 & F10 & F11);
    [lia..|].
  rewrite E10, E11 in F10, F11. fold (jitter p q) in F10, F11.
  rewrite E5, wrapu_small in F5 by lia.
  rewrite last_cons_default. cbn [foldl jitters late]. rewrite !fmap_cons, !sum_cons. cbn [foldl].
  replace (n + Z.of_nat (length (q :: ps))) with (n + 1 + Z.of_nat (length ps)) by (simpl length; lia).
  rewrite !Z.add_assoc.
  subst. eapply IH; try done; try lia. case_match; lia.
Qed.

Lemma flow_summary id p ps :
  Forall (fun q => 0 <= p_seq q < 2 ^ 32 /\ 0 <= p_bytes q) (p :: ps) ->
  Z.of_nat (length (p :: ps)) < 2 ^ 64 -> sum (p_bytes <$> p :: ps) < 2 ^ 64 ->
  let f := foldl apply_pkt (new_stat id) (p :: ps) in
  rec f = Z.of_nat (length (p :: ps)) /\
  seqmin f = foldl Z.min (p_seq p) (p_seq <$> ps) /\
  seq f = foldl Z.max (p_seq p) (p_seq <$> ps) /\
  oos f = late (p_seq p) ps /\
  s_size f = sum (p_bytes <$> p :: ps) /\
  (ds_sec f, ds_usec f) = (sum (delay_s <$> ps), sum (delay_us <$> ps)) /\
  (js_sec f, js_usec f) = (sum (fst <$> jitters p ps), sum (snd <$> jitters p ps)).
Proof.
  intros [Hp Hps]%Forall_cons Hlen Hsum. rewrite fmap_cons, sum_cons in *. simpl in Hlen.
  assert (Hb : Forall (fun q => 0 <= p_bytes q) ps) by (eapply Forall_impl; [done|]; naive_solver).
  pose proof (sum_nonneg _ _ Hb).
  destruct (apply_pkt_first id p) as (F1 & F2 & F3 & F4 & F5 & F6 & F7 & F8 & F9 & F10 & F11);
    [apply Hp|]. rewrite wrapu_small in F5 by lia.
  destruct (run_summary ps (apply_pkt (new_stat id) p) p 1 (p_seq p) (p_seq p) 0 (p_bytes p) 0 0 0 0)
    as [G1 G2 G3 G4 G5 G6 G7 G8 G9 _]; try done; try lia.
  cbv zeta. cbn [foldl]. rewrite G1, G2, G3, G4, G5, G6, G7, G8, G9. split_and!; try done.
  simpl length. lia.
Qed.

(** The statistics crude keeps of a flow are what they say, for any packets
    in any order: the number of packets, the smallest and the largest sequence
    number, how many arrived after one with an equal or larger number, the sum
    of the sizes, the sums of the jitters between consecutive packets, and the
    sum of the delays of every packet but the first. *)
Theorem flow_stats_correct id p ps :
  Forall (fun q => 0 <= p_seq q < 2 ^ 32 /\ 0 <= p_bytes q) (p :: ps) ->
  Z.of_nat (length (p :: ps)) < 2 ^ 64 -> sum (p_bytes <$> p :: ps) < 2 ^ 64 ->
  let f := foldl apply_pkt (new_stat id) (p :: ps) in
  rec f = Z.of_nat (length (p :: ps)) /\
  seqmin f = foldl Z.min (p_seq p) (p_seq <$> ps) /\
  seq f = foldl Z.max (p_seq p) (p_seq <$> ps) /\
  oos f = late (p_seq p) ps /\
  s_size f = sum (p_bytes <$> p :: ps) /\
  (ds_sec f, ds_usec f) = (sum (delay_s <$> ps), sum (delay_us <$> ps)) /\
  (js_sec f, js_usec f) = (sum (fst <$> jitters p ps), sum (snd <$> jitters p ps)).
Proof. intros. by apply flow_summary. Qed.

(** ** Several flows *)

(** The packet in a buffer, and the flow it belongs to. *)
Definition decode_pkt (x : list Z * reception) : pkt :=
  let '(buf, rx) := x in
  Pkt (ntohl (get_long off_sequence_number buf))
    (Timeval (ntohl (get_long off_tx_time_seconds buf)) (ntohl (get_long off_tx_time_useconds buf)))
    (rx_time rx) (rec_bytes rx).

Definition packet_id (x : list Z * reception) : Z := ntohl (get_long off_flow_id x.1).

Definition packets_of (id : Z) (cs : list (list Z * reception)) : list pkt :=
  decode_pkt <$> filter (fun x => packet_id x = id) cs.

Lemma flowid_apply f p : flowid (apply_pkt f p) = flowid f.
Proof.
  unfold apply_pkt, stat_packet, stat_seq, stat_last, stat_delay.
  repeat case_match; simplify_eq; done.
Qed.

Lemma update_flow_map id g fl :
  NoDup (flowid <$> fl) ->
  match update_flow id g fl with
  | Some fl' => fl' = (fun f => if flowid f =? id then g f else f) <$> fl
  | None => id ∉ flowid <$> fl
  end.
Proof.
  induction fl as [|f fl IH]; simpl; [set_solver|]. intros [Hn Hnd]%NoDup_cons.
  destruct (Z.eqb_spec (flowid f) id) as [<-|Hne].
  - f_equal. assert (Hid : forall f0, f0 ∈ fl -> flowid f0 <> flowid f).
    { intros f0 Hf0 E. apply Hn. rewrite <- E. apply list_elem_of_fmap. eauto. }
    clear -Hid. induction fl as [|f0 fl IH]; [done|]. rewrite fmap_cons. f_equal.
    + destruct (Z.eqb_spec (flowid f0) (flowid f)) as [E|]; [|done].
      by apply Hid in E; [|constructor].
    + apply IH. intros f1 Hf1. apply Hid. by constructor.
  - specialize (IH Hnd). destruct (update_flow id g fl) as [fl'|]; simpl; [by rewrite IH|].
    set_solver.
Qed.

(** The receive loop keeps the statistics of the flows apart: for distinct
    flow ids, what it leaves for each flow is the statistics of exactly the
    packets that carry its id, in the order of arrival. *)
Theorem runtime_stats_per_flow rxs buf st :
  NoDup (flowid <$> stats st) ->
  stats (runtime_stats 0 rxs buf st).1 =
  (fun f => foldl apply_pkt f (packets_of (flowid f) (captured rxs buf))) <$> stats st.
Proof.
  revert buf st. induction rxs as [|rx rxs IH]; intros buf st Hnd; simpl.
  { unfold packets_of. simpl. by rewrite list_fmap_id. }
  destruct (rec_bytes rx <=? 0); simpl; [by rewrite IH|].
  set (b := receive rx buf). unfold stats_packet.
  set (id := ntohl (get_long off_flow_id b)).
  set (g := stat_packet _ _ _ _).
  pose proof (update_flow_map id g (stats st) Hnd) as Hu.
  destruct (update_flow id g (stats st)) as [fl|]; simpl.
  - rewrite IH; simpl; subst fl.
    + rewrite <- list_fmap_compose. apply list_fmap_ext. intros i f _. simpl.
      unfold packets_of. rewrite filter_cons. change (packet_id (b, rx)) with id.
      destruct (Z.eqb_spec (flowid f) id) as [E|E].
      * rewrite decide_True by done. simpl.
        change (g f) with (apply_pkt f (decode_pkt (b, rx))). by rewrite flowid_apply.
      * by rewrite decide_False.
    + rewrite <- list_fmap_compose. rewrite (list_fmap_ext _ flowid); [done|].
      intros i f _. simpl. case_match; [|done]. apply (flowid_apply f (decode_pkt (b, rx))).
  - rewrite IH by done. apply list_fmap_ext. intros i f Hf. simpl.
    unfold packets_of. rewrite filter_cons_False; [done|]. change (packet_id (b, rx)) with id.
    intros ->. apply Hu. apply list_elem_of_fmap. exists f. split; [done|].
    by eapply list_elem_of_lookup_2.
Qed.

(** ** Losses, delays and jitters *)

Lemma foldl_min_le m zs z : z ∈ m :: zs -> foldl Z.min m zs <= z.
Proof.
  revert m z. induction zs as [|y zs IH]; intros m z Hz; simpl.
  - apply list_elem_of_singleton in Hz. lia.
  - assert (foldl Z.min (Z.min m y) zs <= Z.min m y) by (apply IH; by constructor).
    apply elem_of_cons in Hz as [->|[->|Hz]%elem_of_cons]; [lia..|].
    apply IH. by constructor.
Qed.

Lemma foldl_max_ge m zs z : z ∈ m :: zs -> z <= foldl Z.max m zs.
Proof.
  revert m z. induction zs as [|y zs IH]; intros m z Hz; simpl.
  - apply list_elem_of_singleton in Hz. lia.
  - assert (Z.max m y <= foldl Z.max (Z.max m y) zs) by (apply IH; by constructor).
    apply elem_of_cons in Hz as [->|[->|Hz]%elem_of_cons]; [lia..|].
    apply IH. by constructor.
Qed.

Lemma foldl_min_elem m zs : foldl Z.min m zs ∈ m :: zs.
Proof.
  revert m. induction zs as [|y zs IH]; intros m; simpl; [by constructor|].
  specialize (IH (Z.min m y)). destruct (Z.min_spec m y) as [[_ E]|[_ E]]; rewrite E in *; set_solver.
Qed.

Lemma foldl_max_elem m zs : foldl Z.max m zs ∈ m :: zs.
Proof.
  revert m. induction zs as [|y zs IH]; intros m; simpl; [by constructor|].
  specialize (IH (Z.max m y)). destruct (Z.max_spec m y) as [[_ E]|[_ E]]; rewrite E in *; set_solver.
Qed.

(** The numbers of a range that a duplicate-free list within it misses. *)
Lemma missing_count (zs : list Z) a n :
  NoDup zs -> 0 <= n -> (forall z, z ∈ zs -> a <= z < a + n) ->
  Z.of_nat (length (filter (fun x => x ∉ zs) (seqZ a n))) = n - Z.of_nat (length zs).
Proof.
  intros Hnd Hn Hin.
  assert (Hperm : filter (fun x => x ∈ zs) (seqZ a n) ≡ₚ zs).
  { apply NoDup_Permutation; [apply NoDup_filter, NoDup_seqZ|done|].
    intros z. rewrite list_elem_of_filter, elem_of_seqZ. naive_solver. }
  pose proof (filter_app_complement (fun x => x ∈ zs) (seqZ a n)) as Hc.
  apply Permutation_length in Hperm, Hc. rewrite length_app, length_seqZ, Hperm in Hc. lia.
Qed.

(** When no packet is duplicated, the number of lost packets crude prints
    is exactly the number of sequence numbers between the smallest and the
    largest one received that did not arrive. *)
Theorem print_stat_lost id p ps :
  Forall (fun q => 0 <= p_seq q < 2 ^ 32 /\ 0 <= p_bytes q) (p :: ps) ->
  Z.of_nat (length (p :: ps)) < 2 ^ 64 -> sum (p_bytes <$> p :: ps) < 2 ^ 64 ->
  NoDup (p_seq <$> p :: ps) ->
  let f := foldl apply_pkt (new_stat id) (p :: ps) in
  sr_lost (print_stat f) =
  Z.of_nat (length (filter (fun x => x ∉ p_seq <$> p :: ps)
    (seqZ (seqmin f) (seq f - seqmin f + 1)))).
Proof.
  intros Hall Hlen Hsum Hnd. destruct (flow_summary id p ps Hall Hlen Hsum)
    as (E1 & E2 & E3 & _ & _ & _ & _). cbv zeta. set (f := foldl _ _ _) in *.
  assert (Hmm : forall z, z ∈ p_seq <$> p :: ps -> seqmin f <= z <= seq f).
  { intros z Hz. rewrite E2, E3. split; [by apply foldl_min_le|by apply foldl_max_ge]. }
  pose proof (Hmm (p_seq p) ltac:(by constructor)) as Hp0.
  assert (Hin : forall z, z ∈ p_seq <$> p :: ps -> seqmin f <= z < seqmin f + (seq f - seqmin f + 1)).
  { intros z Hz. apply Hmm in Hz. lia. }
  pose proof (missing_count _ (seqmin f) (seq f - seqmin f + 1) Hnd ltac:(lia) Hin) as Hmiss.
  rewrite length_fmap in Hmiss. rewrite Hmiss, <- E1.
  assert (Hr : 0 < rec f) by (rewrite E1; simpl length; lia).
  assert (Hlost : 0 <= seq f - seqmin f + 1 - rec f) by lia.
  assert (Hub : seq f - seqmin f + 1 - rec f < 2 ^ 64).
  { assert (Hb : forall z, z ∈ p_seq <$> p :: ps -> 0 <= z < 2 ^ 32).
    { intros z (q & -> & Hq)%list_elem_of_fmap.
      by apply (proj1 (Forall_forall _ _) Hall q). }
    pose proof (Hb (seq f) ltac:(rewrite E3; apply foldl_max_elem)).
    pose proof (Hb (seqmin f) ltac:(rewrite E2; apply foldl_min_elem)).
    lia. }
  unfold print_stat. destruct (Z.ltb_spec 0 (rec f)); [|lia].
  rewrite wrapu_small by lia. destruct (rec f <? 2); [done|]. by destruct (average _ _ _).
Qed.

(** The average delay and jitter that print_stats computes in seconds and
    microseconds is the exact quotient of the sum by the number of packets,
    rounded down to a microsecond, whenever the unsigned intermediate values
    are not negative. *)
Theorem average_floor sec usec n :
  0 < n < 2 ^ 64 -> 0 <= sec < 2 ^ 63 -> 0 <= usec + 1000000 * (sec mod n) < 2 ^ 63 ->
  let '(s, u) := average sec usec n in
  s * 1000000 + u = (sec * 1000000 + usec) / n /\ 0 <= u < 1000000.
Proof.
  intros Hn Hs Hu. unfold average.
  rewrite (wrapu_small 64 sec) by lia. rewrite wrapu_add_l.
  rewrite (wrapu_small 64 (usec + _)) by lia.
  set (k := usec + 1000000 * (sec mod n)) in *.
  assert (0 <= sec / n <= sec).
  { split; [apply Z.div_pos; lia|]. apply Z.div_le_upper_bound; nia. }
  assert (0 <= k / n <= k).
  { split; [apply Z.div_pos; lia|]. apply Z.div_le_upper_bound; nia. }
  rewrite !wraps_small by lia. rewrite Z.quot_div_nonneg, Z.rem_mod_nonneg by lia. split.
  - assert (sec * 1000000 + usec = k + sec / n * 1000000 * n) as ->.
    { subst k. pose proof (Z.div_mod sec n ltac:(lia)). nia. }
    rewrite Z.div_add by lia. pose proof (Z.div_mod (k / n) 1000000 ltac:(lia)). lia.
  - apply Z.mod_pos_bound. lia.
Qed.

Lemma average_floor_witness :
  let '(s, u) := average 3 (-1500000) 4 in
  s * 1000000 + u = (3 * 1000000 + -1500000) / 4 /\ 0 <= u < 1000000.
Proof. apply (average_floor 3 (-1500000) 4); [lia|lia|]. change (3 mod 4) with 3. lia. Defined.

(** On this platform the division of the delay sum is unsigned, so that a
    negative sum (possible with unsynchronised clocks, which the code means to
    handle) is reported as a positive average of billions of seconds. *)
Theorem average_negative sec usec n :
  - 2 ^ 31 <= sec < 0 -> 2 <= n < 2 ^ 31 -> 2 ^ 32 < (average sec usec n).1.
Proof.
  intros Hs Hn. unfold average. cbn [fst].
  replace (u64 sec) with (2 ^ 64 + sec) by (unfold wrapu; apply Z.mod_unique with (-1); lia).
  assert (H1 : 2 ^ 33 - 1 <= (2 ^ 64 + sec) / n < 2 ^ 63).
  { split; [apply Z.div_le_lower_bound|apply Z.div_lt_upper_bound]; nia. }
  set (x := u64 usec + 1000000 * ((2 ^ 64 + sec) mod n)).
  assert (H2 : 0 <= u64 x / n < 2 ^ 63).
  { pose proof (wrapu_range 64 x ltac:(lia)).
    split; [apply Z.div_pos; lia|apply Z.div_lt_upper_bound; nia]. }
  rewrite !wraps_small by lia. pose proof (Z.quot_pos (u64 x / n) 1000000). lia.
Qed.

Lemma average_negative_witness : 2 ^ 32 < (average (-1) 0 2).1.
Proof. apply (average_negative (-1) 0 2); lia. Defined.

(** The jitter of two delays is the absolute value of their difference,
    with both components non-negative, as long as the microsecond parts of the
    delays differ by at most one second. *)
Theorem jitter_abs_correct js jus :
  - 1000000 <= jus <= 1000000 ->
  let '(s, u) := jitter_abs js jus in
  s * 1000000 + u = Z.abs (js * 1000000 + jus) /\ 0 <= s /\ 0 <= u.
Proof.
  intros Hu. unfold jitter_abs.
  destruct (Z.ltb_spec js 0); [destruct (Z.ltb_spec (- jus) 0); [destruct (Z.eqb_spec (- js) 0)|]
    |destruct (Z.ltb_spec jus 0); [destruct (Z.eqb_spec js 0)|]]; lia.
Qed.

Lemma jitter_abs_correct_witness :
  let '(s, u) := jitter_abs (-2) 300000 in
  s * 1000000 + u = Z.abs (-2 * 1000000 + 300000) /\ 0 <= s /\ 0 <= u.
Proof. apply (jitter_abs_correct (-2) 300000). lia. Defined.

(** Two delays below one second can still have a negative jitter: when one
    packet crosses a second boundary and the microsecond parts differ by more
    than a second, the code adds a negative number to the jitter sum, although
    it states that both components are then positive. *)
Theorem jitter_abs_defect jus :
  - 2000000 < jus < - 1000000 ->
  (jitter_abs 1 jus).1 = 0 /\ (jitter_abs 1 jus).2 < 0.
Proof.
  intros Hj. unfold jitter_abs. simpl. destruct (Z.ltb_spec jus 0); simpl; lia.
Qed.

(** From a delay of 0.85 s to one of 0.15 s that crosses a second boundary. *)
Lemma jitter_abs_defect_witness :
  (jitter_abs 1 (-850000 - 850000)).1 = 0 /\ (jitter_abs 1 (-850000 - 850000)).2 < 0.
Proof. apply (jitter_abs_defect (-850000 - 850000)). lia. Defined.

(** -i binds the socket to the address with its bytes reversed (inet_addr
    already returns network order), and an invalid address is not rejected: the
    comparison of an unsigned long with -1 never holds. *)
Theorem bind_addr_reversed inet_addr a :
  (0 < String.length a)%nat -> 0 <= inet_addr a < 2 ^ 32 ->
  bind_addr inet_addr (Some a) = Some (bswap32 (inet_addr a)).
Proof.
  intros Ha Hx. unfold bind_addr. destruct (Nat.eqb_spec (String.length a) 0); [lia|].
  rewrite (wrapu_small 32), (wrapu_small 64) by lia.
  destruct (Z.eqb_spec (inet_addr a) (u64 (-1))) as [E|_].
  { change (u64 (-1)) with 18446744073709551615 in E. lia. }
  unfold htonl. by rewrite wrapu_small by lia.
Qed.

(** "10.0.0.1" is bound as 1.0.0.10, and an invalid address as 255.255.255.255. *)
Lemma bind_addr_reversed_witness :
  bind_addr (fun _ => 16777226) (Some "10.0.0.1"%string) = Some 167772161 /\
  bind_addr (fun _ => INADDR_NONE) (Some "nonsense"%string) = Some INADDR_NONE.
Proof.
  split.
  - apply (bind_addr_reversed (fun _ => 16777226) "10.0.0.1"%string); simpl; lia.
  - apply (bind_addr_reversed (fun _ => INADDR_NONE) "nonsense"%string);
      [simpl; lia|unfold INADDR_NONE; lia].
Defined.

(** What rude puts into a packet crude reads back: the flow id, the
    sequence number and the time of transmission (to 32 bits), the destination,
    and the size, whatever the receive buffer held before. *)
Theorem rude_crude_header c now rest src t rbuf :
  Z.of_nat (length (udp_header c now ++ rest)) <= PMAXSIZE ->
  let rx := Reception (Some (udp_header c now ++ rest)) src t in
  let x := (receive rx rbuf, rx) in
  packet_id x = u32 (flow_id c) /\
  decode_pkt x = Pkt (u32 (sequence_nmbr c)) (Timeval (u32 (tv_sec now)) (u32 (tv_usec now))) t
    (Z.of_nat (length (udp_header c now ++ rest))) /\
  u32 (get_long off_dest_addr x.1) = u32 (sin_addr (dst c)).
Proof.
  intros Hl. cbv zeta. unfold packet_id, decode_pkt, receive. cbn [rx_payload rx_time fst].
  unfold PMAXSIZE in *. rewrite take_ge by lia. rewrite splice_0, <- app_assoc.
  destruct (header_fields c now (rest ++ drop (length (udp_header c now ++ rest)) rbuf))
    as (E1 & E2 & E3 & E4 & E5).
  rewrite E1, E2, E3, E4, E5. split_and!; try done. unfold rec_bytes. cbn [rx_payload].
  unfold PMAXSIZE. by rewrite Z.min_l.
Qed.

(** ** Examples *)

Definition demo_rx (s sz : Z) (t : timeval) : reception :=
  Reception (Some (le_bytes 8 (htonl s) ++ le_bytes 8 (htonl 100) ++ le_bytes 8 (htonl 5) ++
    le_bytes 8 (htonl 7) ++ replicate (Z.to_nat (sz - 32)) 0)) (Sockaddr_in 2 4391 16777343) t.

Definition demo_pkt (s sz : Z) (t : timeval) : pkt := Pkt s (Timeval 100 5) t sz.

Lemma rude_crude_header_witness :
  let c := zero_flow in
  let rx := Reception (Some (udp_header c (Timeval 9 8) ++ [1; 2])) (Sockaddr_in 2 0 0) (Timeval 9 9) in
  packet_id (receive rx [], rx) = 0.
Proof.
  apply (rude_crude_header zero_flow (Timeval 9 8) [1; 2] (Sockaddr_in 2 0 0) (Timeval 9 9) []).
  vm_compute. discriminate.
Defined.

Lemma record_decode_roundtrip_witness :
  let rxs := [demo_rx 1 64 (Timeval 100 9); Reception None (Sockaddr_in 0 0 0) (Timeval 0 0);
              demo_rx 2 33 (Timeval 101 2)] in
  let st := Crude 0 [] [] [] in
  out (decode_file (log (rec_to_file 10001 0 [0; 0; 0; 0] rxs rx_buffer st).1) [] st) =
  out (rec_n_print 10001 0 rxs rx_buffer st).1.
Proof.
  apply (record_decode_roundtrip 10001 [0; 0; 0; 0] ltac:(lia) eq_refl).
  repeat constructor; vm_compute; discriminate.
Defined.

Lemma flow_stats_correct_witness :
  let f := foldl apply_pkt (new_stat 7)
    [demo_pkt 3 64 (Timeval 100 9); demo_pkt 1 64 (Timeval 100 30); demo_pkt 5 70 (Timeval 101 2)] in
  rec f = 3 /\ seqmin f = 1 /\ seq f = 5 /\ oos f = 1.
Proof.
  destruct (flow_stats_correct 7 (demo_pkt 3 64 (Timeval 100 9))
    [demo_pkt 1 64 (Timeval 100 30); demo_pkt 5 70 (Timeval 101 2)]) as (E1 & E2 & E3 & E4 & _);
    [repeat constructor; vm_compute; discriminate|vm_compute; reflexivity|vm_compute; reflexivity|].
  cbv zeta. rewrite E1, E2, E3, E4. auto.
Defined.

Lemma runtime_stats_per_flow_witness :
  let st := Crude 0 [new_stat 7; new_stat 8] [] [] in
  let rxs := [demo_rx 1 64 (Timeval 100 9); demo_rx 2 64 (Timeval 100 19)] in
  stats (runtime_stats 0 rxs (replicate 64 0) st).1 =
  (fun f => foldl apply_pkt f (packets_of (flowid f) (captured rxs (replicate 64 0)))) <$> stats st.
Proof.
  apply (runtime_stats_per_flow _ (replicate 64 0) (Crude 0 [new_stat 7; new_stat 8] [] [])).
  simpl. apply NoDup_cons. split; [set_solver|apply NoDup_singleton].
Defined.

(** Packets 1, 3 and 5 arrived: 2 and 4 are lost. *)
Lemma print_stat_lost_witness :
  sr_lost (print_stat (foldl apply_pkt (new_stat 7)
    [demo_pkt 3 64 (Timeval 100 9); demo_pkt 1 64 (Timeval 100 30); demo_pkt 5 70 (Timeval 101 2)])) = 2.
Proof.
  etransitivity; [apply (print_stat_lost 7 (demo_pkt 3 64 (Timeval 100 9))
    [demo_pkt 1 64 (Timeval 100 30); demo_pkt 5 70 (Timeval 101 2)])|vm_compute; reflexivity].
  - repeat constructor; vm_compute; discriminate.
  - vm_compute; reflexivity.
  - vm_compute; reflexivity.
  - simpl. repeat (apply NoDup_cons; split; [set_solver|]). apply NoDup_nil_2.
Defined.
