(* ===== verification/Checksum.v ===== *)
(** libmoon/src/util.c: the IPv4 and IPv6 pseudo-header checksums, against the
    one's complement sum of RFC 1071 over the words of the pseudo header in
    network byte order.

    A packet is its list of bytes; the structures overlay it, with the
    multi-byte fields loaded little-endian. *)
From Stdlib Require Import ZArith Lia Znumtheory.
From stdpp Require Import base numbers list.
From S2P Require Import Prelude RudeXmit.

#[local] Open Scope Z_scope.

(** ** Loads and stores *)

Definition load_le (n off : nat) (data : list Z) : Z := le_value (take n (drop off data)).

(** [rte_bswap16] *)
Definition rte_bswap16 (x : Z) : Z := bswap16 (u16 x).

(** [((uint16_t* ) data)[offset] = csum] *)
Definition store16 (data : list Z) (offset : nat) (csum : Z) : list Z :=
  splice (2 * offset) (le_bytes 2 csum) data.

(** ** IPv4 *)

(** The fields of [struct ipv4_hdr] the code reads. *)
Record ipv4_hdr := Ipv4_hdr {
  total_length : Z; next_proto_id : Z; src_addr : Z; dst_addr : Z
}.

Definition sizeof_ipv4_hdr : Z := 20.

Definition ipv4_at (off : nat) (data : list Z) : ipv4_hdr :=
  Ipv4_hdr (load_le 2 (off + 2) data) (load_le 1 (off + 9) data)
    (load_le 4 (off + 12) data) (load_le 4 (off + 16) data).

(** The length of the payload, in network byte order (lines 31 to 42). *)
Definition psd_len (len : Z) : Z :=
  if Z.land len 255 =? 0 then u16 (Z.shiftl (u64 (Z.shiftr len 8 - sizeof_ipv4_hdr)) 8)
  else rte_bswap16 (u16 (rte_bswap16 len - sizeof_ipv4_hdr)).

(** The shift of a promoted [uint8_t] is an [int]. *)
Definition get_ipv4_psd_sum (ip_hdr : ipv4_hdr) : Z :=
  let len := psd_len (total_length ip_hdr) in
  let sum := u64 (src_addr ip_hdr + dst_addr ip_hdr
                  + u64 (Z.lor (i32 (Z.shiftl (next_proto_id ip_hdr) 24)) len)) in
  let lower := Z.land sum 4294967295 in
  let upper := Z.shiftr sum 32 in
  let lower := u32 (lower + upper) in
  let lower := if lower <? upper then u32 (lower + 1) else lower in
  let lower16 := Z.land lower 65535 in
  let upper16 := Z.shiftr lower 16 in
  let lower16 := u16 (lower16 + upper16) in
  if lower16 <? upper16 then u16 (lower16 + 1) else lower16.

Definition calc_ipv4_pseudo_header_checksum (data : list Z) (offset : nat) : list Z :=
  store16 data offset (get_ipv4_psd_sum (ipv4_at 14 data)).

Definition calc_ipv4_pseudo_header_checksums (bufs : list (list Z)) (offset : nat) : list (list Z) :=
  (fun data => calc_ipv4_pseudo_header_checksum data offset) <$> bufs.

(** ** IPv6 *)

(** The loop (lines 70 to 78) and the odd byte (lines 81 and 82). *)
Fixpoint sum16_loop (bs : list Z) (sum : Z) : Z :=
  match bs with
  | b0 :: b1 :: rest =>
    let sum := u32 (sum + (b0 + 256 * b1)) in
    sum16_loop rest (if 65535 <? sum then sum - 65535 else sum)
  | [b0] => u32 (sum + b0)
  | [] => sum
  end.

Definition get_16b_sum (bs : list Z) : Z :=
  let sum := sum16_loop bs 0 in
  let sum := u32 (Z.shiftr (Z.land sum 4294901760) 16 + Z.land sum 65535) in
  u16 (Z.land sum 65535).

(** The pseudo header: both addresses, the payload length and the protocol in
    the top byte of a 32-bit word. *)
Definition ipv6_psd_header (off : nat) (data : list Z) : list Z :=
  take 32 (drop (off + 8) data) ++ le_bytes 4 (load_le 2 (off + 4) data) ++
  le_bytes 4 (i32 (Z.shiftl (load_le 1 (off + 6) data) 24)).

Definition get_ipv6_psd_sum (off : nat) (data : list Z) : Z :=
  get_16b_sum (ipv6_psd_header off data).

Definition calc_ipv6_pseudo_header_checksum (data : list Z) (offset : nat) : list Z :=
  store16 data offset (get_ipv6_psd_sum 14 data).

Definition calc_ipv6_pseudo_header_checksums (bufs : list (list Z)) (offset : nat) : list (list Z) :=
  (fun data => calc_ipv6_pseudo_header_checksum data offset) <$> bufs.

(** ** The reference *)

(** The one's complement sum of 16-bit words: the end-around carry keeps the sum
    modulo 65535, and a sum of words that are not all zero is not zero. *)
Definition ones_norm (s : Z) : Z := if s =? 0 then 0 else (s - 1) mod 65535 + 1.

(** Words of a byte list in network order; an odd byte is padded with zero. *)
Fixpoint be_sum (bs : list Z) : Z :=
  match bs with
  | b0 :: b1 :: rest => 256 * b0 + b1 + be_sum rest
  | [b0] => 256 * b0
  | [] => 0
  end.

Definition ones_sum (bs : list Z) : Z := ones_norm (be_sum bs).

Abbreviation is_bytes bs := (Forall (fun b => 0 <= b < 256) bs).

(** Induction by two bytes at a time. *)
Lemma pair_ind (P : list Z -> Prop) :
  P [] -> (forall b, P [b]) -> (forall b0 b1 bs, P bs -> P (b0 :: b1 :: bs)) -> forall bs, P bs.
Proof.
  intros H0 H1 H2. fix IH 1. intros [|b0 [|b1 bs]]; [exact H0|apply H1|apply H2, IH].
Qed.

Lemma be_sum_nonneg bs : is_bytes bs -> 0 <= be_sum bs.
Proof.
  induction bs as [|b0|b0 b1 bs IH] using pair_ind; cbn [be_sum]; rewrite ?Forall_cons; [lia..|].
  intros (? & ? & ?). specialize (IH ltac:(done)). lia.
Qed.

(** A value the code may return for the sum [s]. *)
Definition represents (v s : Z) : Prop :=
  0 <= v < 65536 /\ v mod 65535 = s mod 65535 /\ (v = 0 <-> s = 0).

Lemma represents_norm v s : represents v s -> v = ones_norm s.
Proof.
  intros (Hv & Hm & Hz). unfold ones_norm. destruct (Z.eqb_spec s 0); [tauto|].
  assert (0 < v) by lia.
  assert (Hm1 : (s - 1) mod 65535 = (v - 1) mod 65535).
  { rewrite (Zminus_mod s), (Zminus_mod v), Hm. done. }
  rewrite Hm1, Z.mod_small by lia. lia.
Qed.

(** Adding the carries of base [b] back in. *)
Lemma end_around b x l u v :
  2 <= b -> l = x mod b -> u = x / b -> 0 <= u < b -> v = (l + u) mod b ->
  let w := if v <? u then v + 1 else v in
  0 <= w < b /\ w mod (b - 1) = x mod (b - 1) /\ (w = 0 <-> x = 0).
Proof.
  intros Hb -> -> Hu -> w.
  pose proof (Z.div_mod x b ltac:(lia)) as E. pose proof (Z.mod_pos_bound x b ltac:(lia)) as Hl.
  set (l := x mod b) in *. set (u := x / b) in *.
  assert (Hx : x = l + u + u * (b - 1)) by lia. clearbody l u. clear E. subst x.
  rewrite Z.mod_add by lia.
  destruct (Z.lt_ge_cases (l + u) b) as [Hlt|Hge].
  - subst w. rewrite Z.mod_small by lia. destruct (Z.ltb_spec (l + u) u); [lia|].
    split; [lia|]. split; [done|]. nia.
  - assert ((l + u) mod b = l + u - b) as Em by (symmetry; apply Z.mod_unique with 1; lia).
    subst w. rewrite Em. destruct (Z.ltb_spec (l + u - b) u); [|lia].
    split; [lia|]. split; [|nia].
    rewrite <- (Z.mod_add (l + u - b + 1) 1) by lia. f_equal. lia.
Qed.

(** ** Byte order *)

Lemma mod_65535_scale x : (65536 * x) mod 65535 = x mod 65535.
Proof. replace (65536 * x) with (x + x * 65535) by ring. apply Z.mod_add. lia. Qed.

(** Swapping the bytes of a sum is the sum of the swapped words. *)
Lemma bswap_represents v s : represents v s -> represents (bswap16 v) (256 * s).
Proof.
  intros (Hv & Hm & Hz). pose proof (bswap16_range v) as Hr. unfold represents.
  rewrite bswap16_arith in *. rewrite (Z.mod_small (v / 256)) in * by (Z.div_mod_to_equations; lia).
  pose proof (Z.div_mod v 256 ltac:(lia)) as E.
  set (hi := v / 256) in *. set (lo := v mod 256) in *. split; [lia|split].
  - replace (lo * 256 + hi) with (256 * v + (- hi) * 65535) by lia.
    rewrite Z.mod_add by lia.
    rewrite (Z.mul_mod 256 v), (Z.mul_mod 256 s), Hm by lia. done.
  - assert (0 <= lo < 256) by (apply Z.mod_pos_bound; lia).
    assert (0 <= hi) by (apply Z.div_pos; lia). lia.
Qed.

Lemma ones_norm_range s : 0 <= ones_norm s < 65536.
Proof.
  unfold ones_norm. destruct (Z.eqb_spec s 0); [lia|].
  pose proof (Z.mod_pos_bound (s - 1) 65535 ltac:(lia)). lia.
Qed.

Lemma ones_norm_represents s : represents (ones_norm s) s.
Proof.
  split; [apply ones_norm_range|]. unfold ones_norm. destruct (Z.eqb_spec s 0) as [->|]; [done|].
  split; [|pose proof (Z.mod_pos_bound (s - 1) 65535 ltac:(lia)); lia].
  rewrite Zplus_mod_idemp_l. f_equal. lia.
Qed.

Lemma represents_mod v s s' :
  s mod 65535 = s' mod 65535 -> (s = 0 <-> s' = 0) -> represents v s -> represents v s'.
Proof. unfold represents. intuition congruence. Qed.

(** The sum of the words loaded little-endian. *)
Fixpoint le_sum (bs : list Z) : Z :=
  match bs with
  | b0 :: b1 :: rest => b0 + 256 * b1 + le_sum rest
  | [b0] => b0
  | [] => 0
  end.

Lemma le_be_sum bs :
  (256 * le_sum bs) mod 65535 = be_sum bs mod 65535.
Proof.
  induction bs as [|b0|b0 b1 bs IH] using pair_ind; [done|done|].
  cbn [le_sum be_sum].
  replace (256 * (b0 + 256 * b1 + le_sum bs)) with (65536 * b1 + (256 * b0 + 256 * le_sum bs)) by ring.
  rewrite Z.add_mod, mod_65535_scale, <- Z.add_mod by lia.
  replace (b1 + (256 * b0 + 256 * le_sum bs)) with (256 * b0 + b1 + 256 * le_sum bs) by ring.
  rewrite Z.add_mod, IH, <- Z.add_mod by lia. done.
Qed.

(** ** IPv4 is correct *)

Lemma psd_len_spec b0 b1 :
  0 <= b0 < 256 -> 0 <= b1 < 256 -> 20 <= 256 * b0 + b1 ->
  psd_len (b0 + 256 * b1) = bswap16 (256 * b0 + b1 - 20).
Proof.
  intros H0 H1 Hl. unfold psd_len, rte_bswap16, sizeof_ipv4_hdr. rewrite land_255.
  replace ((b0 + 256 * b1) mod 256) with b0 by (apply Z.mod_unique with b1; lia).
  destruct (Z.eqb_spec b0 0) as [->|].
  - rewrite Z.shiftr_div_pow2, Z.shiftl_mul_pow2 by lia. change (2 ^ 8) with 256.
    replace ((0 + 256 * b1) / 256) with b1 by (apply Z.div_unique with 0; lia).
    rewrite (wrapu_small 64), (wrapu_small 16), bswap16_arith by lia.
    rewrite Z.mod_small, Z.div_small, Z.mod_0_l by lia. lia.
  - rewrite (wrapu_small 16 (b0 + 256 * b1)) by lia.
    assert (bswap16 (b0 + 256 * b1) = 256 * b0 + b1) as ->.
    { rewrite bswap16_arith. replace ((b0 + 256 * b1) mod 256) with b0 by (apply Z.mod_unique with b1; lia).
      replace ((b0 + 256 * b1) / 256) with b1 by (apply Z.div_unique with b0; lia).
      rewrite Z.mod_small by lia. lia. }
    by rewrite !(wrapu_small 16 (256 * b0 + b1 - 20)) by lia.
Qed.

Lemma land_16 x : Z.land x 65535 = x mod 65536.
Proof. by apply (Z.land_ones x 16). Qed.

Lemma land_32 x : Z.land x 4294967295 = x mod 4294967296.
Proof. by apply (Z.land_ones x 32). Qed.

(** The folded 64-bit sum. *)
Lemma fold_sum_represents s :
  0 <= s < 2 ^ 34 ->
  let lower := Z.land s 4294967295 in
  let upper := Z.shiftr s 32 in
  let lower := u32 (lower + upper) in
  let lower := if lower <? upper then u32 (lower + 1) else lower in
  let lower16 := Z.land lower 65535 in
  let upper16 := Z.shiftr lower 16 in
  let lower16 := u16 (lower16 + upper16) in
  represents (if lower16 <? upper16 then u16 (lower16 + 1) else lower16) s.
Proof.
  intros Hs. cbv zeta.
  rewrite land_32, !land_16, !Z.shiftr_div_pow2 by lia.
  change (2 ^ 32) with 4294967296; change (2 ^ 16) with 65536.
  set (v := u32 (s mod 4294967296 + s / 4294967296)).
  assert (Hu : 0 <= s / 4294967296 < 4294967296).
  { split; [apply Z.div_pos; lia|apply Z.div_lt_upper_bound; lia]. }
  pose proof (end_around 4294967296 s _ _ v ltac:(lia) eq_refl eq_refl Hu eq_refl) as He.
  cbv zeta in He. destruct He as (Hw & Hm & Hz).
  assert (E : (if v <? s / 4294967296 then u32 (v + 1) else v) =
              (if v <? s / 4294967296 then v + 1 else v)).
  { destruct (v <? s / 4294967296); [|done]. apply wrapu_small. lia. }
  rewrite E. set (w := if v <? s / 4294967296 then v + 1 else v) in *.
  set (v2 := u16 (w mod 65536 + w / 65536)).
  assert (Hu2 : 0 <= w / 65536 < 65536).
  { split; [apply Z.div_pos; lia|apply Z.div_lt_upper_bound; lia]. }
  pose proof (end_around 65536 w _ _ v2 ltac:(lia) eq_refl eq_refl Hu2 eq_refl) as He2.
  cbv zeta in He2. destruct He2 as (Hw2 & Hm2 & Hz2).
  assert (E2 : (if v2 <? w / 65536 then u16 (v2 + 1) else v2) =
               (if v2 <? w / 65536 then v2 + 1 else v2)).
  { destruct (v2 <? w / 65536); [|done]. apply wrapu_small. lia. }
  rewrite E2. split; [exact Hw2|]. split; [|intuition].
  change (65536 - 1) with 65535 in Hm2. rewrite Hm2. change (4294967296 - 1) with 4294967295 in Hm.
  assert (Hdiv : forall x, x mod 65535 = (x mod 4294967295) mod 65535).
  { intros x. symmetry. apply Z.mod_mod_divide. by exists 65537. }
  by rewrite (Hdiv w), (Hdiv s), Hm.
Qed.

(** A sum of little-endian words, swapped, is the sum in network order. *)
Lemma swapped_sum v s bs :
  is_bytes bs -> represents v s -> s mod 65535 = le_sum bs mod 65535 -> (s = 0 <-> be_sum bs = 0) ->
  bswap16 v = ones_sum bs.
Proof.
  intros Hb Hv Hm Hz. apply represents_norm.
  eapply represents_mod; [| |apply bswap_represents, Hv]; [|lia].
  rewrite <- le_be_sum, Z.mul_mod, Hm, <- Z.mul_mod by lia. done.
Qed.

(** The byte [k] and the two length bytes of the IPv4 header at byte 14. *)
Definition ip_total (data : list Z) : Z := be_sum (take 2 (drop 16 data)).

Definition ip_proto (data : list Z) : Z := default 0 (data !! 23%nat).

(** The pseudo header of RFC 768 and 793: addresses, zero, protocol, and the
    length of what follows the IP header. *)
Definition ipv4_pseudo_header (data : list Z) : list Z :=
  take 8 (drop 26 data) ++
  [0; ip_proto data; (ip_total data - 20) / 256; (ip_total data - 20) mod 256].

Lemma proto_word p l :
  0 <= p < 128 -> 0 <= l < 65536 -> u64 (Z.lor (i32 (Z.shiftl p 24)) l) = p * 16777216 + l.
Proof.
  intros Hp Hl. rewrite (wraps_small 32) by (rewrite ?Z.shiftl_mul_pow2; lia).
  rewrite lor_disjoint by lia. apply wrapu_small. lia.
Qed.

Lemma ipv4_psd_sum_ones data :
  is_bytes data -> (34 <= length data)%nat -> 20 <= ip_total data -> ip_proto data < 128 ->
  bswap16 (get_ipv4_psd_sum (ipv4_at 14 data)) = ones_sum (ipv4_pseudo_header data).
Proof.
  intros Hb Hl. do 34 (destruct data as [|? data]; [simpl in Hl; lia|]). clear Hl.
  repeat (apply Forall_cons in Hb as [? Hb]).
  unfold ipv4_pseudo_header, ip_total, ip_proto, ipv4_at, load_le.
  cbn [take drop le_value be_sum Nat.add app lookup list_lookup default from_option id].
  rewrite !Z.mul_0_r, !Z.add_0_r.
  intros Htl Hproto. unfold get_ipv4_psd_sum. cbn [total_length next_proto_id src_addr dst_addr].
  rewrite psd_len_spec by lia.
  set (len := 256 * z15 + z16 - 20).
  pose proof (bswap16_range len). rewrite proto_word by lia.
  assert (bswap16 len = len mod 256 * 256 + len / 256) as El.
  { rewrite bswap16_arith. f_equal. apply Z.mod_small. Z.div_mod_to_equations; lia. }
  assert (0 <= len / 256 < 256 /\ 0 <= len mod 256 < 256) as [] by (Z.div_mod_to_equations; lia).
  rewrite El in *. set (hi := len / 256) in *. set (lo := len mod 256) in *. clearbody hi lo. clear El.
  rewrite (wrapu_small 64) by lia. rewrite take_0, app_nil_l.
  eapply swapped_sum; [repeat constructor; lia|apply fold_sum_represents; lia| |cbn [be_sum]; lia].
  cbn [le_sum]. match goal with |- ?x mod _ = ?y mod _ => set (X := x); set (Y := y) end.
  replace X with (Y + (z27 + 256 * z28 + (z31 + 256 * z32) + 256 * z22) * 65535) by (subst X Y; ring).
  apply Z.mod_add. lia.
Qed.

(** ** IPv6 is correct *)

Lemma sum16_loop_spec bs : forall sum,
  is_bytes bs -> 0 <= sum <= 65535 ->
  let r := sum16_loop bs sum in
  0 <= r <= 65535 + 255 /\ r mod 65535 = (sum + le_sum bs) mod 65535 /\
  (r = 0 <-> sum = 0 /\ be_sum bs = 0).
Proof.
  induction bs as [|b0|b0 b1 bs IH] using pair_ind; intros sum Hb Hs; cbn [sum16_loop le_sum be_sum].
  - rewrite Z.add_0_r. lia.
  - apply Forall_cons in Hb as [Hb0 _]. rewrite (wrapu_small 32) by lia. lia.
  - apply Forall_cons in Hb as [Hb0 Hb]. apply Forall_cons in Hb as [Hb1 Hb].
    pose proof (be_sum_nonneg bs Hb). rewrite (wrapu_small 32) by lia.
    set (s := sum + (b0 + 256 * b1)).
    specialize (IH (if 65535 <? s then s - 65535 else s) Hb ltac:(destruct (Z.ltb_spec 65535 s); lia)).
    cbv zeta in IH. destruct IH as (H1 & H2 & H3). split; [done|split].
    + rewrite H2. destruct (Z.ltb_spec 65535 s); [|f_equal; lia].
      rewrite <- (Z.mod_add (s - 65535 + le_sum bs) 1) by lia. f_equal. lia.
    + rewrite H3. destruct (Z.ltb_spec 65535 s); lia.
Qed.

Lemma sum16_represents bs :
  is_bytes bs -> exists s, represents (get_16b_sum bs) s /\ s mod 65535 = le_sum bs mod 65535 /\
                           (s = 0 <-> be_sum bs = 0).
Proof.
  intros Hb. exists (sum16_loop bs 0).
  destruct (sum16_loop_spec bs 0 Hb ltac:(lia)) as (H1 & H2 & H3). cbv zeta in *.
  split; [|split; [by rewrite H2|lia]]. unfold get_16b_sum. set (r := sum16_loop bs 0) in *. clearbody r.
  change 4294901760 with (Z.shiftl 65535 16).
  assert (Z.shiftr (Z.land r (Z.shiftl 65535 16)) 16 = r / 65536) as ->.
  { rewrite Z.shiftr_land, Z.shiftr_shiftl_l, Z.shiftl_0_r, land_16, Z.shiftr_div_pow2 by lia.
    apply Z.mod_small. change (2 ^ 16) with 65536. Z.div_mod_to_equations. lia. }
  rewrite !land_16. unfold represents. width_lia.
Qed.

(** The pseudo header of RFC 2460, section 8.1: addresses, the upper-layer
    length as 32 bits, three zero bytes and the next header. *)
Definition ipv6_pseudo_header (data : list Z) : list Z :=
  take 32 (drop 22 data) ++ [0; 0] ++ take 2 (drop 18 data) ++ [0; 0; 0; default 0 (data !! 20%nat)].

Lemma proto_bytes p : 0 <= p < 256 -> le_bytes 4 (i32 (Z.shiftl p 24)) = [0; 0; 0; p].
Proof.
  intros Hp. rewrite Z.shiftl_mul_pow2 by lia. cbn [le_bytes]. rewrite !Z.shiftr_div_pow2 by lia.
  change (2 ^ 24) with 16777216. change (2 ^ 8) with 256.
  repeat f_equal; width_lia.
Qed.

Lemma len_bytes b0 b1 :
  0 <= b0 < 256 -> 0 <= b1 < 256 -> le_bytes 4 (b0 + 256 * b1) = [b0; b1; 0; 0].
Proof.
  intros. cbn [le_bytes]. rewrite !Z.shiftr_div_pow2 by lia. change (2 ^ 8) with 256.
  repeat f_equal; width_lia.
Qed.

Lemma ipv6_psd_sum_ones data :
  is_bytes data -> (54 <= length data)%nat ->
  bswap16 (get_ipv6_psd_sum 14 data) = ones_sum (ipv6_pseudo_header data).
Proof.
  intros Hb Hl. do 54 (destruct data as [|? data]; [simpl in Hl; lia|]). clear Hl.
  repeat (apply Forall_cons in Hb as [? Hb]).
  unfold get_ipv6_psd_sum, ipv6_psd_header, ipv6_pseudo_header, load_le.
  cbn [take drop le_value Nat.add app lookup list_lookup default from_option id].
  rewrite !Z.mul_0_r, !Z.add_0_r, len_bytes, proto_bytes by lia. rewrite take_0. cbn [app].
  match goal with |- bswap16 (get_16b_sum ?bs) = _ => set (hdr := bs) end.
  assert (is_bytes hdr) as Hh by (subst hdr; repeat constructor; lia).
  destruct (sum16_represents hdr Hh) as (s & Hv & Hm & Hz).
  rewrite (swapped_sum _ s hdr Hh Hv Hm Hz). reflexivity.
Qed.

(** ** The stored checksum *)

Lemma splice_lookup_out off bs buf i :
  (off + length bs <= length buf)%nat -> (i < off \/ off + length bs <= i)%nat ->
  splice off bs buf !! i = buf !! i.
Proof.
  intros Hl Hi. unfold splice. destruct (decide (i < off)%nat) as [Hlt|].
  - rewrite lookup_app_l by (rewrite length_take; lia). apply lookup_take_lt. lia.
  - rewrite lookup_app_r by (rewrite length_take; lia).
    rewrite length_take, Nat.min_l, lookup_app_r by lia.
    rewrite lookup_drop. f_equal. lia.
Qed.

Lemma splice_read off bs buf :
  (off + length bs <= length buf)%nat -> take (length bs) (drop off (splice off bs buf)) = bs.
Proof.
  intros Hl. unfold splice.
  rewrite drop_app_length' by (rewrite length_take; lia). apply take_app_length.
Qed.

(** [out] is [data] with a 16-bit word in network order at word [offset]. *)
Definition stored (offset : nat) (v : Z) (data out : list Z) : Prop :=
  length out = length data /\ be_sum (take 2 (drop (2 * offset) out)) = v /\
  forall i, (i < 2 * offset \/ 2 * offset + 2 <= i)%nat -> out !! i = data !! i.

Lemma store16_stored data offset v :
  (2 * offset + 2 <= length data)%nat -> stored offset (bswap16 v) data (store16 data offset v).
Proof.
  intros Hl. unfold store16. split_and!.
  - apply length_splice. rewrite length_le_bytes. done.
  - rewrite (splice_read (2 * offset) (le_bytes 2 v)) by (rewrite length_le_bytes; done).
    cbn [le_bytes be_sum]. rewrite bswap16_arith, Z.shiftr_div_pow2 by lia.
    change (2 ^ 8) with 256. unfold wrapu. change (2 ^ 8) with 256. lia.
  - intros i Hi. apply splice_lookup_out; rewrite length_le_bytes; done.
Qed.

(** C39: [calc_ipv4_pseudo_header_checksums] leaves in every packet, in network
    byte order at the given word, the one's complement sum of the packet's
    IPv4 pseudo header (for a total length that covers the header and a protocol
    below 128), and changes no other byte. *)
Theorem ipv4_checksums_correct (bufs : list (list Z)) (offset : nat) :
  Forall (fun data => is_bytes data /\ (34 <= length data)%nat /\
    (2 * offset + 2 <= length data)%nat /\ 20 <= ip_total data /\ ip_proto data < 128) bufs ->
  Forall2 (fun data out => stored offset (ones_sum (ipv4_pseudo_header data)) data out)
    bufs (calc_ipv4_pseudo_header_checksums bufs offset).
Proof.
  intros H. unfold calc_ipv4_pseudo_header_checksums. apply Forall2_fmap_r, Forall_Forall2_diag.
  eapply Forall_impl; [exact H|]. intros data (Hb & Hl & Ho & Ht & Hp).
  rewrite <- ipv4_psd_sum_ones by done. by apply store16_stored.
Qed.

(** [calc_ipv6_pseudo_header_checksums] leaves in every packet, in network
    byte order at the given word, the one's complement sum of the packet's
    IPv6 pseudo header, and changes no other byte. *)
Theorem ipv6_checksums_correct (bufs : list (list Z)) (offset : nat) :
  Forall (fun data => is_bytes data /\ (54 <= length data)%nat /\
    (2 * offset + 2 <= length data)%nat) bufs ->
  Forall2 (fun data out => stored offset (ones_sum (ipv6_pseudo_header data)) data out)
    bufs (calc_ipv6_pseudo_header_checksums bufs offset).
Proof.
  intros H. unfold calc_ipv6_pseudo_header_checksums. apply Forall2_fmap_r, Forall_Forall2_diag.
  eapply Forall_impl; [exact H|]. intros data (Hb & Hl & Ho).
  rewrite <- ipv6_psd_sum_ones by done. by apply store16_stored.
Qed.

(** A UDP packet of 26 bytes from 10.0.0.1 to 10.0.0.2, and the same over IPv6. *)
Definition udp4_packet : list Z :=
  [1; 2; 3; 4; 5; 6; 7; 8; 9; 10; 11; 12; 8; 0;
   69; 0; 0; 46; 0; 0; 0; 0; 64; 17; 0; 0; 10; 0; 0; 1; 10; 0; 0; 2;
   4; 210; 16; 225; 0; 26; 0; 0].

Definition udp6_packet : list Z :=
  [1; 2; 3; 4; 5; 6; 7; 8; 9; 10; 11; 12; 134; 221; 96; 0; 0; 0; 0; 26; 17; 64;
   254; 128; 0; 0; 0; 0; 0; 0; 0; 0; 0; 0; 0; 0; 0; 1;
   254; 128; 0; 0; 0; 0; 0; 0; 0; 0; 0; 0; 0; 0; 0; 2;
   4; 210; 16; 225; 0; 26; 0; 0].

Lemma ipv4_checksums_correct_witness :
  ones_sum (ipv4_pseudo_header udp4_packet) = 5166 /\
  Forall2 (fun data out => stored 20 (ones_sum (ipv4_pseudo_header data)) data out)
    [udp4_packet] (calc_ipv4_pseudo_header_checksums [udp4_packet] 20).
Proof.
  split; [vm_compute; reflexivity|].
  apply (ipv4_checksums_correct [udp4_packet] 20).
  repeat constructor; vm_compute; intuition congruence.
Defined.

Lemma ipv6_checksums_correct_witness :
  ones_sum (ipv6_pseudo_header udp6_packet) = 64815 /\
  Forall2 (fun data out => stored 30 (ones_sum (ipv6_pseudo_header data)) data out)
    [udp6_packet] (calc_ipv6_pseudo_header_checksums [udp6_packet] 30).
Proof.
  split; [vm_compute; reflexivity|].
  apply (ipv6_checksums_correct [udp6_packet] 30).
  repeat constructor; vm_compute; intuition congruence.
Defined.
