(* ===== verification/Mbuf.v ===== *)
(** librte_mbuf/rte_mbuf.h: the packet buffers libmoon allocates, resizes and
    frees, and libmoon/src/memory.c on top of them.

    The state is the set of mbuf headers by address, with the mempools they come
    from. A mempool is an interface (its handlers are chosen at run time): a class
    of two operations with the laws the callers rely on. The build has
    RTE_MBUF_REFCNT_ATOMIC set, RTE_LIBRTE_MBUF_DEBUG unset and a headroom of 128
    bytes. *)
From Stdlib Require Import ZArith Lia.
From stdpp Require Import base numbers list gmap.
From S2P Require Import Prelude.

#[local] Open Scope Z_scope.

(** ** Mempools *)

(** [mp_get_bulk n] takes [n] objects, or none when the pool cannot supply them;
    [mp_put] gives one back. [mp_objs] are the objects in the pool, and [mp_room p k]
    says that [k] more objects can be put: the code puts back what it took, and does
    not look at the result. *)
Class Mempool (P : Type) := {
  mp_get_bulk : nat -> P -> option (list nat * P);
  mp_put : nat -> P -> P;
  mp_objs : P -> list nat;
  mp_room : P -> nat -> Prop
}.

Class MempoolLaws (P : Type) `{Mempool P} := {
  mp_get_bulk_objs n p bufs p' :
    mp_get_bulk n p = Some (bufs, p') -> length bufs = n /\ mp_objs p ≡ₚ bufs ++ mp_objs p';
  mp_get_bulk_room n p bufs p' k :
    mp_get_bulk n p = Some (bufs, p') -> mp_room p k -> mp_room p' (n + k);
  mp_put_objs m p k :
    mp_room p (S k) -> mp_objs (mp_put m p) ≡ₚ m :: mp_objs p /\ mp_room (mp_put m p) k
}.

(** A list of free objects without a bound. *)
#[global] Instance list_pool : Mempool (list nat) := {|
  mp_get_bulk n p := if (n <=? length p)%nat then Some (take n p, drop n p) else None;
  mp_put m p := m :: p;
  mp_objs p := p;
  mp_room _ _ := True
|}.

#[global] Instance list_pool_laws : MempoolLaws (list nat).
Proof.
  split; [|done|done]. simpl. intros n p bufs p'. destruct (Nat.leb_spec n (length p)); [|done].
  intros [= <- <-]. rewrite length_take, take_drop. split; [lia|done].
Qed.

(** ** The mbuf header *)

(** [struct rte_mbuf]. [buf_addr] names the mbuf whose embedded buffer holds the
    data: the mbuf itself, or another one for an indirect mbuf. *)
Record rte_mbuf := Mbuf {
  buf_addr : nat;
  data_off : Z;
  refcnt : Z;
  nb_segs : Z;
  m_port : Z;
  ol_flags : Z;
  packet_type : Z;
  pkt_len : Z;
  data_len : Z;
  vlan_tci : Z;
  hash : Z;
  vlan_tci_outer : Z;
  buf_len : Z;
  timestamp : Z;
  udata64 : Z;
  m_pool : nat;
  m_next : option nat;
  tx_offload : Z;
  priv_size : Z
}.

Definition set_data_off (v : Z) (b : rte_mbuf) : rte_mbuf :=
  Mbuf (buf_addr b) v (refcnt b) (nb_segs b) (m_port b) (ol_flags b) (packet_type b) (pkt_len b)
    (data_len b) (vlan_tci b) (hash b) (vlan_tci_outer b) (buf_len b) (timestamp b) (udata64 b)
    (m_pool b) (m_next b) (tx_offload b) (priv_size b).

Definition set_refcnt (v : Z) (b : rte_mbuf) : rte_mbuf :=
  Mbuf (buf_addr b) (data_off b) v (nb_segs b) (m_port b) (ol_flags b) (packet_type b)
    (pkt_len b) (data_len b) (vlan_tci b) (hash b) (vlan_tci_outer b) (buf_len b) (timestamp b)
    (udata64 b) (m_pool b) (m_next b) (tx_offload b) (priv_size b).

Definition set_nb_segs (v : Z) (b : rte_mbuf) : rte_mbuf :=
  Mbuf (buf_addr b) (data_off b) (refcnt b) v (m_port b) (ol_flags b) (packet_type b)
    (pkt_len b) (data_len b) (vlan_tci b) (hash b) (vlan_tci_outer b) (buf_len b) (timestamp b)
    (udata64 b) (m_pool b) (m_next b) (tx_offload b) (priv_size b).

Definition set_ol_flags (v : Z) (b : rte_mbuf) : rte_mbuf :=
  Mbuf (buf_addr b) (data_off b) (refcnt b) (nb_segs b) (m_port b) v (packet_type b) (pkt_len b)
    (data_len b) (vlan_tci b) (hash b) (vlan_tci_outer b) (buf_len b) (timestamp b) (udata64 b)
    (m_pool b) (m_next b) (tx_offload b) (priv_size b).

Definition set_pkt_len (v : Z) (b : rte_mbuf) : rte_mbuf :=
  Mbuf (buf_addr b) (data_off b) (refcnt b) (nb_segs b) (m_port b) (ol_flags b) (packet_type b)
    v (data_len b) (vlan_tci b) (hash b) (vlan_tci_outer b) (buf_len b) (timestamp b)
    (udata64 b) (m_pool b) (m_next b) (tx_offload b) (priv_size b).

Definition set_data_len (v : Z) (b : rte_mbuf) : rte_mbuf :=
  Mbuf (buf_addr b) (data_off b) (refcnt b) (nb_segs b) (m_port b) (ol_flags b) (packet_type b)
    (pkt_len b) v (vlan_tci b) (hash b) (vlan_tci_outer b) (buf_len b) (timestamp b) (udata64 b)
    (m_pool b) (m_next b) (tx_offload b) (priv_size b).

Definition set_udata64 (v : Z) (b : rte_mbuf) : rte_mbuf :=
  Mbuf (buf_addr b) (data_off b) (refcnt b) (nb_segs b) (m_port b) (ol_flags b) (packet_type b)
    (pkt_len b) (data_len b) (vlan_tci b) (hash b) (vlan_tci_outer b) (buf_len b) (timestamp b)
    v (m_pool b) (m_next b) (tx_offload b) (priv_size b).

Definition set_m_next (v : option nat) (b : rte_mbuf) : rte_mbuf :=
  Mbuf (buf_addr b) (data_off b) (refcnt b) (nb_segs b) (m_port b) (ol_flags b) (packet_type b)
    (pkt_len b) (data_len b) (vlan_tci b) (hash b) (vlan_tci_outer b) (buf_len b) (timestamp b)
    (udata64 b) (m_pool b) v (tx_offload b) (priv_size b).

Definition RTE_PKTMBUF_HEADROOM : Z := 128.
Definition IND_ATTACHED_MBUF : Z := 2 ^ 62.
Definition PKT_TX_NO_CRC_CSUM : Z := 2 ^ 48.

Definition RTE_MBUF_INDIRECT (b : rte_mbuf) : bool := negb (Z.land (ol_flags b) IND_ATTACHED_MBUF =? 0).

(** [rte_pktmbuf_reset_headroom] *)
Definition reset_headroom (b : rte_mbuf) : rte_mbuf :=
  set_data_off (Z.min RTE_PKTMBUF_HEADROOM (buf_len b)) b.

(** The assignments of [rte_pktmbuf_reset]. *)
Definition reset_mbuf (b : rte_mbuf) : rte_mbuf :=
  set_data_len 0 (reset_headroom
    (Mbuf (buf_addr b) (data_off b) (refcnt b) 1 255 0 0 0 (data_len b) 0 (hash b) 0 (buf_len b)
       (timestamp b) (udata64 b) (m_pool b) None 0 (priv_size b))).

(** ** The store *)

Section Ops.
Context {P : Type} `{Mempool P}.

(** A mempool with the private area [rte_pktmbuf_pool_create] sets up. *)
Record mempool := Pool { pool_objs : P; mbuf_data_room_size : Z; mbuf_priv_size : Z }.

Record mem := Mem { mbufs : gmap nat rte_mbuf; pools : gmap nat mempool }.

Definition load_mbuf (m : nat) : M mem rte_mbuf := fun s =>
  match mbufs s !! m with Some b => Ret (b, s) | None => Fault end.

(** An assignment to fields of [*m]. *)
Definition upd_mbuf (m : nat) (f : rte_mbuf -> rte_mbuf) : M mem unit := fun s =>
  match mbufs s !! m with
  | Some b => Ret (tt, Mem (<[m := f b]> (mbufs s)) (pools s))
  | None => Fault
  end.

Definition load_pool (mp : nat) : M mem mempool := fun s =>
  match pools s !! mp with Some p => Ret (p, s) | None => Fault end.

Definition rte_mempool_get_bulk (mp n : nat) : M mem (option (list nat)) := fun s =>
  match pools s !! mp with
  | None => Fault
  | Some p =>
    match mp_get_bulk n (pool_objs p) with
    | None => Ret (None, s)
    | Some (bufs, p') =>
      Ret (Some bufs,
           Mem (mbufs s) (<[mp := Pool p' (mbuf_data_room_size p) (mbuf_priv_size p)]> (pools s)))
    end
  end.

Definition rte_mempool_put (mp m : nat) : M mem unit := fun s =>
  match pools s !! mp with
  | None => Fault
  | Some p =>
    Ret (tt, Mem (mbufs s)
               (<[mp := Pool (mp_put m (pool_objs p)) (mbuf_data_room_size p) (mbuf_priv_size p)]>
                  (pools s)))
  end.

(** ** Reference counts *)

Definition rte_mbuf_refcnt_read (m : nat) : M mem Z := b ← load_mbuf m; mret (refcnt b).

Definition rte_mbuf_refcnt_set (m : nat) (new_value : Z) : M mem unit :=
  upd_mbuf m (set_refcnt (u16 new_value)).

Definition rte_atomic16_add_return (m : nat) (value : Z) : M mem Z :=
  c ← rte_mbuf_refcnt_read m;
  rte_mbuf_refcnt_set m (c + value) ;; mret (wraps 16 (c + value)).

Definition rte_mbuf_refcnt_update (m : nat) (value : Z) : M mem Z :=
  c ← rte_mbuf_refcnt_read m;
  if c =? 1 then rte_mbuf_refcnt_set m (1 + value) ;; mret (u16 (1 + value))
  else r ← rte_atomic16_add_return m value; mret (u16 r).

(** ** Allocation *)

Definition rte_pktmbuf_reset (m : nat) : M mem unit := upd_mbuf m reset_mbuf.

Definition rte_mbuf_raw_alloc (mp : nat) : M mem (option nat) :=
  r ← rte_mempool_get_bulk mp 1; mret (r ≫= head).

Definition rte_pktmbuf_alloc (mp : nat) : M mem (option nat) :=
  r ← rte_mbuf_raw_alloc mp;
  match r with
  | Some m => rte_pktmbuf_reset m ;; mret (Some m)
  | None => mret None
  end.

(** ** Release *)

Definition rte_mbuf_raw_free (m : nat) : M mem unit :=
  b ← load_mbuf m; rte_mempool_put (m_pool b) m.

Definition rte_mbuf_from_indirect (b : rte_mbuf) : nat := buf_addr b.

(** The fields [rte_pktmbuf_detach] restores. *)
Definition detached (m : nat) (p : mempool) (b : rte_mbuf) : rte_mbuf :=
  set_ol_flags 0 (set_data_len 0 (reset_headroom
    (Mbuf m (data_off b) (refcnt b) (nb_segs b) (m_port b) (ol_flags b) (packet_type b) (pkt_len b)
       (data_len b) (vlan_tci b) (hash b) (vlan_tci_outer b) (u16 (mbuf_data_room_size p))
       (timestamp b) (udata64 b) (m_pool b) (m_next b) (tx_offload b) (mbuf_priv_size p)))).

Definition rte_pktmbuf_detach (m : nat) : M mem unit :=
  b ← load_mbuf m;
  p ← load_pool (m_pool b);
  upd_mbuf m (detached m p) ;;
  r ← rte_mbuf_refcnt_update (rte_mbuf_from_indirect b) (-1);
  if r =? 0 then
    upd_mbuf (rte_mbuf_from_indirect b) (fun b => set_nb_segs 1 (set_m_next None b)) ;;
    rte_mbuf_refcnt_set (rte_mbuf_from_indirect b) 1 ;;
    rte_mbuf_raw_free (rte_mbuf_from_indirect b)
  else mret tt.

(** [if (m->next != NULL) { m->next = NULL; m->nb_segs = 1; }] *)
Definition unlink_seg (b : rte_mbuf) : rte_mbuf :=
  match m_next b with Some _ => set_nb_segs 1 (set_m_next None b) | None => b end.

Definition rte_pktmbuf_prefree_seg (m : nat) : M mem (option nat) :=
  b ← load_mbuf m;
  if refcnt b =? 1 then
    (if RTE_MBUF_INDIRECT b then rte_pktmbuf_detach m else mret tt) ;;
    upd_mbuf m unlink_seg ;; mret (Some m)
  else
    r ← rte_atomic16_add_return m (-1);
    if r =? 0 then
      (if RTE_MBUF_INDIRECT b then rte_pktmbuf_detach m else mret tt) ;;
      upd_mbuf m unlink_seg ;; rte_mbuf_refcnt_set m 1 ;; mret (Some m)
    else mret None.

Definition rte_pktmbuf_free_seg (m : nat) : M mem unit :=
  r ← rte_pktmbuf_prefree_seg m;
  match r with Some m => rte_mbuf_raw_free m | None => mret tt end.

Fixpoint free_loop (fuel : nat) (m : option nat) : M mem unit :=
  match m, fuel with
  | None, _ => mret tt
  | Some _, O => diverge
  | Some m, S fuel =>
    b ← load_mbuf m; rte_pktmbuf_free_seg m ;; free_loop fuel (m_next b)
  end.

(** The segments of a packet are distinct mbufs of the store. *)
Definition rte_pktmbuf_free (m : option nat) : M mem unit := fun s =>
  free_loop (S (size (mbufs s))) m s.

(** ** Resizing *)

Definition rte_pktmbuf_headroom (b : rte_mbuf) : Z := data_off b.

Definition rte_pktmbuf_tailroom (b : rte_mbuf) : Z :=
  u16 (buf_len b - rte_pktmbuf_headroom b - data_len b).

Fixpoint lastseg_loop (fuel m2 : nat) : M mem nat :=
  match fuel with
  | O => diverge
  | S fuel =>
    b ← load_mbuf m2;
    match m_next b with Some m3 => lastseg_loop fuel m3 | None => mret m2 end
  end.

Definition rte_pktmbuf_lastseg (m : nat) : M mem nat := fun s =>
  lastseg_loop (S (size (mbufs s))) m s.

(** A pointer into a buffer: the mbuf that embeds it and the offset. *)
Definition rte_pktmbuf_prepend (m : nat) (len : Z) : M mem (option (nat * Z)) :=
  b ← load_mbuf m;
  if rte_pktmbuf_headroom b <? len then mret None
  else
    upd_mbuf m (fun b => set_data_off (u16 (data_off b - len)) b) ;;
    upd_mbuf m (fun b => set_data_len (u16 (data_len b + len)) b) ;;
    upd_mbuf m (fun b => set_pkt_len (u32 (pkt_len b + len)) b) ;;
    b ← load_mbuf m; mret (Some (buf_addr b, data_off b)).

Definition rte_pktmbuf_append (m : nat) (len : Z) : M mem (option (nat * Z)) :=
  m_last ← rte_pktmbuf_lastseg m;
  l ← load_mbuf m_last;
  if rte_pktmbuf_tailroom l <? len then mret None
  else
    upd_mbuf m_last (fun b => set_data_len (u16 (data_len b + len)) b) ;;
    upd_mbuf m (fun b => set_pkt_len (u32 (pkt_len b + len)) b) ;;
    mret (Some (buf_addr l, data_off l + data_len l)).

Definition rte_pktmbuf_adj (m : nat) (len : Z) : M mem (option (nat * Z)) :=
  b ← load_mbuf m;
  if data_len b <? len then mret None
  else
    upd_mbuf m (fun b => set_data_len (u16 (data_len b - len)) b) ;;
    upd_mbuf m (fun b => set_data_off (u16 (data_off b + len)) b) ;;
    upd_mbuf m (fun b => set_pkt_len (u32 (pkt_len b - len)) b) ;;
    b ← load_mbuf m; mret (Some (buf_addr b, data_off b)).

Definition rte_pktmbuf_trim (m : nat) (len : Z) : M mem Z :=
  m_last ← rte_pktmbuf_lastseg m;
  l ← load_mbuf m_last;
  if data_len l <? len then mret (-1)
  else
    upd_mbuf m_last (fun b => set_data_len (u16 (data_len b - len)) b) ;;
    upd_mbuf m (fun b => set_pkt_len (u32 (pkt_len b - len)) b) ;;
    mret 0.

Definition EOVERFLOW : Z := 75.

Definition rte_pktmbuf_chain (head tail : nat) : M mem Z :=
  h ← load_mbuf head; t ← load_mbuf tail;
  if Z.shiftl 1 16 <=? nb_segs h + nb_segs t then mret (- EOVERFLOW)
  else
    cur_tail ← rte_pktmbuf_lastseg head;
    upd_mbuf cur_tail (set_m_next (Some tail)) ;;
    upd_mbuf head (fun h => set_nb_segs (u8 (nb_segs h + nb_segs t)) h) ;;
    upd_mbuf head (fun h => set_pkt_len (u32 (pkt_len h + pkt_len t)) h) ;;
    upd_mbuf tail (fun t => set_pkt_len (data_len t) t) ;;
    mret 0.

(** ** libmoon/src/memory.c *)

Definition rte_pktmbuf_alloc_export (mp : nat) : M mem (option nat) := rte_pktmbuf_alloc mp.
Definition rte_mbuf_refcnt_read_export (m : nat) : M mem Z := rte_mbuf_refcnt_read m.
Definition rte_mbuf_refcnt_update_export (m : nat) (value : Z) : M mem Z :=
  rte_mbuf_refcnt_update m value.
Definition rte_pktmbuf_adj_export (m : nat) (len : Z) : M mem (option (nat * Z)) :=
  rte_pktmbuf_adj m len.
Definition rte_pktmbuf_trim_export (m : nat) (len : Z) : M mem Z := rte_pktmbuf_trim m len.

(** One copy of the unrolled body; [bufs[i]] outside the array is undefined. *)
Definition init_buf (bufs : list nat) (pkt_len : Z) (i : Z) : M mem unit :=
  match bufs !! Z.to_nat i with
  | None => fault
  | Some m =>
    rte_mbuf_refcnt_set m 1 ;;
    rte_pktmbuf_reset m ;;
    upd_mbuf m (set_pkt_len pkt_len) ;;
    upd_mbuf m (set_data_len pkt_len)
  end.

(** The last [k] copies of the body, from the case label [k] on. *)
Fixpoint duff_body (bufs : list nat) (pkt_len : Z) (k : nat) (i : Z) : M mem Z :=
  match k with
  | O => mret i
  | S k => init_buf bufs pkt_len i ;; duff_body bufs pkt_len k (u32 (i + 1))
  end.

Fixpoint duff_loop (fuel : nat) (bufs : list nat) (pkt_len len i : Z) : M mem unit :=
  if i =? len then mret tt
  else
    match fuel with
    | O => diverge
    | S fuel => i ← duff_body bufs pkt_len 4 i; duff_loop fuel bufs pkt_len len i
    end.

(** [rte_mempool_get_bulk] fills the array, or leaves it as it is. A round of the
    loop moves four entries on, and leaving the array is a fault. *)
Definition alloc_mbufs (mp : nat) (bufs : list nat) (len pkt_len : Z) : M mem (list nat) :=
  r ← rte_mempool_get_bulk mp (Z.to_nat len);
  let bufs := match r with Some l => l ++ drop (Z.to_nat len) bufs | None => bufs end in
  i ← duff_body bufs pkt_len (if len mod 4 =? 0 then 4 else Z.to_nat (len mod 4)) 0;
  duff_loop (S (length bufs)) bufs pkt_len len i ;; mret bufs.
End Ops.

Arguments mempool P : clear implicits.
Arguments mem P : clear implicits.
