(* ===== verification/MbufSpec.v ===== *)
(** The packet buffers of librte_mbuf and libmoon/src/memory.c are correct:
    [alloc_mbufs] against the plain initialisation loop, [rte_pktmbuf_free] against
    the release of every segment, the resizing operations and
    [rte_pktmbuf_chain] against an invariant of packets (the header counts the
    segments and the bytes, every segment lies within its buffer). *)
From Stdlib Require Import ZArith Lia.
From stdpp Require Import base numbers list gmap sets.
From S2P Require Import Prelude Mbuf.

#[local] Open Scope Z_scope.

(** ** Symbolic execution *)

Section Wp.
Context {P : Type} `{Mempool P}.
Implicit Types s : mem P.

Definition put_mbufs (h : gmap nat rte_mbuf) s : mem P := Mem h (pools s).

Lemma put_put h h' s : put_mbufs h (put_mbufs h' s) = put_mbufs h s.
Proof. done. Qed.

Lemma wp_load_mbuf m Q s : wp (load_mbuf m) Q s <-> exists b, mbufs s !! m = Some b /\ Q b s.
Proof. unfold wp, load_mbuf. destruct (mbufs s !! m); naive_solver. Qed.

Lemma wp_load_pool mp Q s : wp (load_pool mp) Q s <-> exists p, pools s !! mp = Some p /\ Q p s.
Proof. unfold wp, load_pool. destruct (pools s !! mp); naive_solver. Qed.

Lemma wp_upd_mbuf m f Q s :
  wp (upd_mbuf m f) Q s <->
  exists b, mbufs s !! m = Some b /\ Q tt (put_mbufs (<[m := f b]> (mbufs s)) s).
Proof. unfold wp, upd_mbuf, put_mbufs. destruct (mbufs s !! m); naive_solver. Qed.
End Wp.

(** Run the next load or store of a known mbuf. *)
Ltac mbuf_step :=
  repeat first
    [ rewrite wp_bind | rewrite wp_ret | progress cbv beta
    | rewrite wp_load_mbuf; eexists; split; [first [eassumption | apply lookup_insert_eq]|]
    | rewrite wp_upd_mbuf; eexists; split; [first [eassumption | apply lookup_insert_eq]|]
    | progress cbn [mbufs pools]
    | match goal with |- context [mbufs (put_mbufs ?h ?s)] =>
        change (mbufs (put_mbufs h s)) with h end | rewrite insert_insert_eq | rewrite put_put ].

(** ** [alloc_mbufs] initialises what it allocates *)

(** An mbuf as [alloc_mbufs] leaves it. *)
Definition fresh_mbuf (len : Z) (b : rte_mbuf) : rte_mbuf :=
  set_data_len len (set_pkt_len len (reset_mbuf (set_refcnt 1 b))).

Lemma alter_present {A} (f : A -> A) (h : gmap nat A) m b :
  h !! m = Some b -> alter f m h = <[m := f b]> h.
Proof.
  intros Hb. apply map_eq. intros i. destruct (decide (i = m)) as [->|].
  - by rewrite lookup_alter_eq, lookup_insert_eq, Hb.
  - by rewrite lookup_alter_ne, lookup_insert_ne by done.
Qed.

Lemma fresh_mbuf_idem len b : fresh_mbuf len (fresh_mbuf len b) = fresh_mbuf len b.
Proof. done. Qed.

Definition init_all (len : Z) (l : list nat) (h : gmap nat rte_mbuf) : gmap nat rte_mbuf :=
  foldl (fun h m => alter (fresh_mbuf len) m h) h l.

Lemma init_all_app len l k h : init_all len (l ++ k) h = init_all len k (init_all len l h).
Proof. apply foldl_app. Qed.

Lemma init_all_lookup len l h m :
  init_all len l h !! m = if decide (m ∈ l) then fresh_mbuf len <$> h !! m else h !! m.
Proof.
  revert h. induction l as [|x l IH]; intros h; [done|].
  change (init_all len (x :: l) h) with (init_all len l (alter (fresh_mbuf len) x h)). rewrite IH.
  destruct (decide (m = x)) as [->|].
  - rewrite lookup_alter_eq, (decide_True (P := x ∈ x :: l)) by set_solver.
    destruct (decide (x ∈ l)); [|done]. by destruct (h !! x).
  - rewrite lookup_alter_ne by done. destruct (decide (m ∈ l)).
    + by rewrite decide_True by set_solver.
    + by rewrite decide_False by set_solver.
Qed.

Section Alloc.
Context {P : Type} `{MempoolLaws P}.
Implicit Types s : mem P.

(** Every pointer of the array names an mbuf. *)
Definition backed (s : mem P) (l : list nat) : Prop := Forall (fun m => is_Some (mbufs s !! m)) l.

Lemma backed_init s l k len : backed s l -> backed (put_mbufs (init_all len k (mbufs s)) s) l.
Proof.
  intros Hl. eapply Forall_impl; [exact Hl|]. intros m [b Hb]. simpl. rewrite init_all_lookup, Hb.
  destruct (decide (m ∈ k)); by eexists.
Qed.

Lemma init_buf_spec bufs len i m s Q :
  bufs !! Z.to_nat i = Some m -> is_Some (mbufs s !! m) ->
  Q tt (put_mbufs (init_all len [m] (mbufs s)) s) -> wp (init_buf bufs len i) Q s.
Proof.
  intros Hi [b Hb] HQ. unfold init_buf. rewrite Hi. unfold rte_mbuf_refcnt_set, rte_pktmbuf_reset.
  mbuf_step. revert HQ. unfold put_mbufs. simpl. by rewrite (alter_present _ _ _ b Hb).
Qed.

Lemma duff_body_spec bufs len k : forall i s Q,
  0 <= i -> i + Z.of_nat k < 2 ^ 32 -> (Z.to_nat i + k <= length bufs)%nat -> backed s bufs ->
  Q (i + Z.of_nat k) (put_mbufs (init_all len (take k (drop (Z.to_nat i) bufs)) (mbufs s)) s) ->
  wp (duff_body bufs len k i) Q s.
Proof.
  induction k as [|k IH]; intros i s Q Hi Hk Hl Hb HQ; cbn [duff_body].
  - rewrite wp_ret. rewrite Z.add_0_r, take_0 in HQ. by destruct s.
  - rewrite wp_bind. destruct (lookup_lt_is_Some_2 bufs (Z.to_nat i) ltac:(lia)) as [m Hm].
    eapply init_buf_spec; [exact Hm|by eapply Forall_lookup_1 in Hb; [|exact Hm]|].
    rewrite wrapu_small by lia. apply IH; [lia..|by apply backed_init|].
    cbn [put_mbufs mbufs pools]. rewrite <- init_all_app.
    rewrite (drop_S _ _ _ Hm) in HQ. replace (Z.to_nat (i + 1)) with (S (Z.to_nat i)) by lia.
    replace (i + 1 + Z.of_nat k) with (i + Z.of_nat (S k)) by lia. exact HQ.
Qed.

Lemma duff_loop_spec fuel bufs len n : forall i s Q,
  (n < fuel)%nat -> 0 <= i -> i + 4 * Z.of_nat n < 2 ^ 32 ->
  (Z.to_nat i + 4 * n <= length bufs)%nat -> backed s bufs ->
  Q tt (put_mbufs (init_all len (take (4 * n) (drop (Z.to_nat i) bufs)) (mbufs s)) s) ->
  wp (duff_loop fuel bufs len (i + 4 * Z.of_nat n) i) Q s.
Proof.
  revert fuel. induction n as [|n IH]; intros fuel i s Q Hf Hi Hk Hl Hb HQ.
  - rewrite Z.mul_0_r, Z.add_0_r. destruct fuel; cbn [duff_loop];
      rewrite Z.eqb_refl, wp_ret; rewrite take_0 in HQ; by destruct s.
  - destruct fuel as [|fuel]; [lia|]. cbn [duff_loop].
    destruct (Z.eqb_spec i (i + 4 * Z.of_nat (S n))); [lia|]. rewrite wp_bind.
    eapply duff_body_spec; [lia..|done|].
    replace (i + 4 * Z.of_nat (S n)) with (i + Z.of_nat 4 + 4 * Z.of_nat n) by lia.
    apply IH; [lia..|by apply backed_init|].
    cbn [put_mbufs mbufs pools]. rewrite <- init_all_app.
    replace (4 * S n)%nat with (4 + 4 * n)%nat in HQ by lia.
    rewrite <- take_take_drop, drop_drop in HQ.
    by replace (Z.to_nat (i + Z.of_nat 4)) with (Z.to_nat i + 4)%nat by lia.
Qed.

(** The switch and the loop together are the plain loop over the array. *)
Lemma duff_correct arr len plen s Q :
  0 < len < 2 ^ 32 -> (Z.to_nat len <= length arr)%nat -> backed s arr ->
  Q arr (put_mbufs (init_all plen (take (Z.to_nat len) arr) (mbufs s)) s) ->
  wp (i ← duff_body arr plen (if len mod 4 =? 0 then 4 else Z.to_nat (len mod 4)) 0;
      duff_loop (S (length arr)) arr plen len i ;; mret arr) Q s.
Proof.
  intros Hlen Hl Hb HQ. set (k := if len mod 4 =? 0 then 4%nat else Z.to_nat (len mod 4)).
  assert (exists n, len = Z.of_nat k + 4 * Z.of_nat n) as [n Hn].
  { subst k. destruct (Z.eqb_spec (len mod 4) 0).
    - exists (Z.to_nat (len / 4 - 1)). Z.div_mod_to_equations; lia.
    - exists (Z.to_nat (len / 4)). Z.div_mod_to_equations; lia. }
  rewrite wp_bind. eapply duff_body_spec; [lia..|exact Hb|]. rewrite wp_bind, Z.add_0_l, Hn.
  eapply duff_loop_spec; [lia..|by apply backed_init|].
  rewrite wp_ret. cbn [put_mbufs mbufs pools].
  rewrite <- init_all_app, Nat2Z.id, drop_0, take_take_drop.
  by replace (k + 4 * n)%nat with (Z.to_nat len) by lia.
Qed.

Lemma alloc_mbufs_spec s mp p bufs l p' len plen :
  pools s !! mp = Some p -> mp_get_bulk (Z.to_nat len) (pool_objs p) = Some (l, p') ->
  0 < len < 2 ^ 32 -> backed s (l ++ drop (Z.to_nat len) bufs) ->
  alloc_mbufs mp bufs len plen s =
    Ret (l ++ drop (Z.to_nat len) bufs,
         Mem (init_all plen l (mbufs s))
           (<[mp := Pool p' (mbuf_data_room_size p) (mbuf_priv_size p)]> (pools s))).
Proof.
  intros Hp Hget Hlen Hb. destruct (mp_get_bulk_objs _ _ _ _ Hget) as [Hl _].
  unfold alloc_mbufs, mbind at 1, M_bind, rte_mempool_get_bulk. rewrite Hp, Hget. cbv zeta.
  set (s0 := Mem _ _).
  pose proof (duff_correct (l ++ drop (Z.to_nat len) bufs) len plen s0 (fun a s' => a = l ++ drop (Z.to_nat len) bufs /\
    s' = put_mbufs (init_all plen l (mbufs s)) s0) Hlen ltac:(rewrite length_app; lia) Hb) as Hwp.
  rewrite take_app_length' in Hwp by lia.
  apply wp_run in Hwp as (a & s' & E & -> & ->); [|done].
  exact E.
Qed.

(** C37: [alloc_mbufs] with its unrolled loop, for any positive length the pool can
    supply, returns the pool's objects in the array and leaves exactly these in
    the fresh state (reference count one, reset, both lengths set); every
    other mbuf is unchanged. *)
Theorem alloc_mbufs_correct (s : mem P) (mp : nat) (p : mempool P) (bufs l : list nat) (p' : P)
    (len plen : Z) :
  pools s !! mp = Some p -> mp_get_bulk (Z.to_nat len) (pool_objs p) = Some (l, p') ->
  0 < len < 2 ^ 32 -> backed s (l ++ drop (Z.to_nat len) bufs) ->
  exists s', alloc_mbufs mp bufs len plen s = Ret (l ++ drop (Z.to_nat len) bufs, s') /\
    pools s' = <[mp := Pool p' (mbuf_data_room_size p) (mbuf_priv_size p)]> (pools s) /\
    forall m, mbufs s' !! m =
      if decide (m ∈ l) then fresh_mbuf plen <$> mbufs s !! m else mbufs s !! m.
Proof.
  intros Hp Hget Hlen Hb. eexists. split; [by apply alloc_mbufs_spec|]. split; [done|]. intros m. apply init_all_lookup.
Qed.

(** [alloc_mbufs] ignores a failed [rte_mempool_get_bulk]: it then resets the
    mbufs whose pointers the caller's array still held, in use or not. *)
Theorem alloc_mbufs_exhausted (s : mem P) (mp : nat) (p : mempool P) (bufs : list nat)
    (len plen : Z) :
  pools s !! mp = Some p -> mp_get_bulk (Z.to_nat len) (pool_objs p) = None ->
  0 < len < 2 ^ 32 -> (Z.to_nat len <= length bufs)%nat -> backed s bufs ->
  exists s', alloc_mbufs mp bufs len plen s = Ret (bufs, s') /\ pools s' = pools s /\
    forall m, mbufs s' !! m =
      if decide (m ∈ take (Z.to_nat len) bufs) then fresh_mbuf plen <$> mbufs s !! m
      else mbufs s !! m.
Proof.
  intros Hp Hget Hlen Hl Hb.
  unfold alloc_mbufs, mbind at 1, M_bind, rte_mempool_get_bulk. rewrite Hp, Hget. cbv zeta.
  pose proof (duff_correct bufs len plen s (fun a s' => a = bufs /\
    s' = put_mbufs (init_all plen (take (Z.to_nat len) bufs) (mbufs s)) s) Hlen Hl Hb) as Hwp.
  apply wp_run in Hwp as (a & s' & E & -> & ->); [|done].
  eexists. split; [exact E|]. split; [done|]. intros m. apply init_all_lookup.
Qed.

(** The body stops at the end of the array. *)
Lemma duff_body_range bufs plen k : forall i s,
  0 <= i -> i + Z.of_nat k < 2 ^ 32 ->
  duff_body bufs plen k i s = Fault \/
  exists s', duff_body bufs plen k i s = Ret (i + Z.of_nat k, s') /\
    (k = 0%nat \/ (Z.to_nat i + k <= length bufs)%nat).
Proof.
  induction k as [|k IH]; intros i s Hi Hk; cbn [duff_body].
  - right. exists s. rewrite Z.add_0_r. auto.
  - unfold mbind, M_bind. destruct (init_buf bufs plen i s) as [[[] s1]| |] eqn:E; [|by left|].
    + rewrite wrapu_small by lia. destruct (IH (i + 1) s1 ltac:(lia) ltac:(lia)) as [->|(s' & -> & Hr)];
        [by left|]. right. exists s'. split; [by replace (i + Z.of_nat (S k)) with (i + 1 + Z.of_nat k) by lia|]. right.
      unfold init_buf in E. destruct (bufs !! Z.to_nat i) eqn:Em; [|done].
      apply lookup_lt_Some in Em. lia.
    + exfalso. unfold init_buf in E. destruct (bufs !! Z.to_nat i) as [m|]; [|done].
      unfold rte_mbuf_refcnt_set, rte_pktmbuf_reset, mbind, M_bind, upd_mbuf in E.
      repeat (case_match; try done).
Qed.

Lemma duff_loop_zero fuel bufs plen : forall i s,
  0 < i -> Z.of_nat (length bufs) + 4 < 2 ^ 32 -> (Z.to_nat i <= length bufs)%nat ->
  (length bufs < Z.to_nat i + 4 * fuel)%nat ->
  duff_loop fuel bufs plen 0 i s = Fault.
Proof.
  induction fuel as [|fuel IH]; intros i s Hi Hb Hl Hf; [lia|]. cbn [duff_loop].
  destruct (Z.eqb_spec i 0); [lia|]. unfold mbind, M_bind.
  destruct (duff_body_range bufs plen 4 i s) as [->|(s' & -> & Hr)]; [lia..|done|].
  apply IH; lia.
Qed.

(** With a length of zero the switch enters the loop body at case 0, so
    [alloc_mbufs] never meets its exit condition and leaves the array. *)
Theorem alloc_mbufs_zero (s : mem P) (mp : nat) (bufs : list nat) (plen : Z) :
  Z.of_nat (length bufs) + 4 < 2 ^ 32 ->
  (forall p, pools s !! mp = Some p -> mp_get_bulk 0 (pool_objs p) = Some ([], pool_objs p)) ->
  alloc_mbufs mp bufs 0 plen s = Fault.
Proof.
  intros Hl Hp. unfold alloc_mbufs, rte_mempool_get_bulk. change (Z.to_nat 0) with 0%nat.
  unfold mbind at 1, M_bind. destruct (pools s !! mp) as [p|] eqn:E; [|done]. rewrite (Hp p eq_refl).
  cbv zeta. set (s0 := Mem _ _). change (if 0 mod 4 =? 0 then 4%nat else Z.to_nat (0 mod 4)) with 4%nat.
  cbn [app]. rewrite drop_0. unfold mbind, M_bind.
  destruct (duff_body_range bufs plen 4 0 s0) as [->|(s' & -> & Hr)]; [lia..|done|].
  rewrite duff_loop_zero; [done|lia..].
Qed.
End Alloc.

(** ** Packets are chains of segments *)

Fixpoint seg_chain (h : gmap nat rte_mbuf) (m : option nat) (segs : list nat) : Prop :=
  match segs with
  | [] => m = None
  | x :: rest => m = Some x /\ exists b, h !! x = Some b /\ seg_chain h (m_next b) rest
  end.

Lemma seg_chain_det h segs1 : forall segs2 m,
  seg_chain h m segs1 -> seg_chain h m segs2 -> segs1 = segs2.
Proof.
  induction segs1 as [|x segs1 IH]; intros [|y segs2] m; simpl; [naive_solver..|].
  intros (-> & b & Hb & H1) ([= <-] & b' & Hb' & H2). f_equal. simplify_eq. by eapply IH.
Qed.

Lemma seg_chain_app h l1 : forall l2 m,
  seg_chain h m (l1 ++ l2) -> exists m', seg_chain h m' l2 /\ (m' = head l2).
Proof.
  induction l1 as [|x l1 IH]; intros l2 m; simpl.
  - intros Hc. exists m. split; [done|]. destruct l2; simpl in *; intuition.
  - intros (-> & b & Hb & Hc). eauto.
Qed.

Lemma seg_chain_nodup h segs : forall m, seg_chain h m segs -> NoDup segs.
Proof.
  induction segs as [|x segs IH]; intros m Hc; [constructor|].
  pose proof Hc as (-> & b & Hb & Hr). constructor; [|by eapply IH].
  intros (l1 & l2 & ->)%list_elem_of_split.
  destruct (seg_chain_app _ _ _ _ Hr) as (m' & Hc' & ->). cbn [head] in Hc'.
  pose proof (seg_chain_det _ _ _ _ Hc Hc') as E. apply (f_equal length) in E.
  simpl in E. rewrite length_app in E. simpl in E. lia.
Qed.

Lemma seg_chain_dom h segs : forall m, seg_chain h m segs -> Forall (fun x => x ∈ dom h) segs.
Proof.
  induction segs as [|x segs IH]; intros m; simpl; [constructor|].
  intros (-> & b & Hb & Hr). constructor; [by apply elem_of_dom_2 in Hb|by eapply IH].
Qed.

(** The fuel of the walks over a packet is enough. *)
Lemma seg_chain_size h m segs : seg_chain h m segs -> (length segs <= size h)%nat.
Proof.
  intros Hc. rewrite <- size_dom, <- (size_list_to_set (C := gset nat) segs)
    by (by eapply seg_chain_nodup).
  apply subseteq_size. apply seg_chain_dom in Hc. rewrite Forall_forall in Hc. set_solver.
Qed.

(** ** [rte_pktmbuf_free] *)

Section Free.
Context {P : Type} `{MempoolLaws P}.
Implicit Types s : mem P.

(** A segment without further references goes back unlinked; another one loses
    one reference. *)
Definition freed (b : rte_mbuf) : rte_mbuf :=
  if refcnt b =? 1 then unlink_seg b else set_refcnt (refcnt b - 1) b.

Definition put_pool (m : nat) (p : mempool P) : mempool P :=
  Pool (mp_put m (pool_objs p)) (mbuf_data_room_size p) (mbuf_priv_size p).

Definition free_one (s : mem P) (m : nat) : mem P :=
  match mbufs s !! m with
  | None => s
  | Some b => Mem (alter freed m (mbufs s))
                  (if refcnt b =? 1 then alter (put_pool m) (m_pool b) (pools s) else pools s)
  end.

(** A segment that can be freed: it holds its own buffer, is referenced, and its
    pool exists. *)
Definition freeable s (m : nat) : Prop :=
  exists b, mbufs s !! m = Some b /\ RTE_MBUF_INDIRECT b = false /\ 1 <= refcnt b < 65536 /\
            is_Some (pools s !! m_pool b).

Lemma free_seg_spec s m Q :
  freeable s m -> Q tt (free_one s m) -> wp (rte_pktmbuf_free_seg m) Q s.
Proof.
  intros (b & Hb & Hd & Hr & p & Hp) HQ. unfold free_one in HQ. rewrite Hb in HQ.
  erewrite (alter_present freed) in HQ by exact Hb. unfold freed in HQ.
  unfold rte_pktmbuf_free_seg, rte_pktmbuf_prefree_seg. mbuf_step. rewrite Hd.
  destruct (Z.eqb_spec (refcnt b) 1) as [E|E].
  - mbuf_step. unfold rte_mbuf_raw_free. mbuf_step.
    assert (m_pool (unlink_seg b) = m_pool b) as -> by (unfold unlink_seg; by destruct (m_next b)).
    unfold wp, rte_mempool_put. cbn [put_mbufs pools mbufs]. rewrite Hp.
    erewrite (alter_present (put_pool m)) in HQ by exact Hp. exact HQ.
  - unfold rte_atomic16_add_return, rte_mbuf_refcnt_read, rte_mbuf_refcnt_set. mbuf_step.
    replace (wraps 16 (refcnt b + -1) =? 0) with false
      by (symmetry; apply Z.eqb_neq; unfold wraps; change (2 ^ (16 - 1)) with 32768;
          change (2 ^ 16) with 65536; Z.div_mod_to_equations; lia).
    cbv iota. mbuf_step. cbv iota. mbuf_step. rewrite (wrapu_small 16) by lia.
    by replace (refcnt b + -1) with (refcnt b - 1) by lia.
Qed.

Lemma free_one_other s m x : x <> m -> mbufs (free_one s m) !! x = mbufs s !! x.
Proof. intros. unfold free_one. destruct (mbufs s !! m); [|done]. by apply lookup_alter_ne. Qed.

Lemma free_one_self s m : mbufs (free_one s m) !! m = freed <$> mbufs s !! m.
Proof. unfold free_one. destruct (mbufs s !! m) eqn:E; [|by rewrite E]. simpl. by rewrite lookup_alter_eq, E. Qed.

Lemma free_one_pool s m mp :
  is_Some (pools s !! mp) -> is_Some (pools (free_one s m) !! mp).
Proof.
  intros. unfold free_one. destruct (mbufs s !! m) as [b|]; [|done]. simpl.
  destruct (refcnt b =? 1); [|done]. by rewrite lookup_alter_is_Some.
Qed.

Lemma freeable_other s m x : x <> m -> freeable s x -> freeable (free_one s m) x.
Proof.
  intros Hx (b & Hb & Hd & Hr & Hp). exists b. rewrite free_one_other by done.
  split_and!; [done..|lia|lia|by apply free_one_pool].
Qed.

Lemma seg_chain_other s m segs : forall y,
  m ∉ segs -> seg_chain (mbufs s) y segs -> seg_chain (mbufs (free_one s m)) y segs.
Proof.
  induction segs as [|x segs IH]; intros y Hm; simpl; [done|]. intros (-> & b & Hb & Hc).
  split; [done|]. exists b. rewrite free_one_other by set_solver. split; [done|]. apply IH; set_solver.
Qed.

Lemma free_loop_spec segs : forall fuel s m Q,
  (length segs <= fuel)%nat -> seg_chain (mbufs s) m segs -> NoDup segs ->
  Forall (freeable s) segs -> Q tt (foldl free_one s segs) -> wp (free_loop fuel m) Q s.
Proof.
  induction segs as [|x segs IH]; intros fuel s m Q Hf Hc Hnd Hall HQ.
  - simpl in Hc. subst m. by destruct fuel.
  - destruct fuel as [|fuel]; [simpl in Hf; lia|]. destruct Hc as (-> & b & Hb & Hc).
    apply Forall_cons in Hall as [Hx Hall]. apply NoDup_cons in Hnd as [Hnx Hnd].
    cbn [free_loop]. mbuf_step. apply free_seg_spec; [done|].
    apply IH; [simpl in Hf; lia|by apply seg_chain_other|done| |done].
    rewrite Forall_forall in Hall |- *. intros y Hy. apply freeable_other; [set_solver|auto].
Qed.

Lemma free_all_mbufs segs : forall s x, NoDup segs ->
  mbufs (foldl free_one s segs) !! x =
  if decide (x ∈ segs) then freed <$> mbufs s !! x else mbufs s !! x.
Proof.
  induction segs as [|y segs IH]; intros s x Hnd; [done|]. apply NoDup_cons in Hnd as [Hy Hnd].
  cbn [foldl]. rewrite IH by done. destruct (decide (x = y)) as [->|].
  - rewrite decide_False by done. rewrite decide_True by set_solver. apply free_one_self.
  - rewrite free_one_other by done. destruct (decide (x ∈ segs)).
    + by rewrite decide_True by set_solver.
    + by rewrite decide_False by set_solver.
Qed.

(** Segment [x] is returned to pool [mp] when the packet is freed. *)
Definition returns_to s (mp x : nat) : Prop :=
  exists b, mbufs s !! x = Some b /\ refcnt b = 1 /\ m_pool b = mp.

#[global] Instance returns_to_dec s mp x : Decision (returns_to s mp x).
Proof.
  unfold returns_to. destruct (mbufs s !! x) as [b|]; [|right; naive_solver].
  destruct (decide (refcnt b = 1 /\ m_pool b = mp)); [left|right]; naive_solver.
Defined.

Lemma filter_ext_in {A} (R S : A -> Prop) `{!forall x, Decision (R x), !forall x, Decision (S x)}
    (l : list A) :
  (forall x, x ∈ l -> R x <-> S x) -> filter R l = filter S l.
Proof.
  induction l as [|x l IH]; intros Hl; [done|]. rewrite !filter_cons.
  specialize (IH ltac:(set_solver)). specialize (Hl x ltac:(set_solver)).
  destruct (decide (R x)), (decide (S x)); [|tauto..|]; by rewrite IH.
Qed.

Lemma free_all_pools segs : forall s mp p k, NoDup segs -> pools s !! mp = Some p ->
  mp_room (pool_objs p) (length (filter (returns_to s mp) segs) + k) ->
  exists p', pools (foldl free_one s segs) !! mp = Some p' /\
    mp_objs (pool_objs p') ≡ₚ filter (returns_to s mp) segs ++ mp_objs (pool_objs p) /\
    mp_room (pool_objs p') k.
Proof.
  induction segs as [|y segs IH]; intros s mp p k Hnd Hp Hroom; [by exists p|].
  apply NoDup_cons in Hnd as [Hy Hnd]. cbn [foldl].
  assert (filter (returns_to (free_one s y) mp) segs = filter (returns_to s mp) segs) as E.
  { apply filter_ext_in. intros x Hx. unfold returns_to.
    by rewrite free_one_other by set_solver. }
  rewrite filter_cons in Hroom |- *. destruct (decide (returns_to s mp y)) as [(b & Hb & Hr & Hm)|Hn].
  - assert (pools (free_one s y) !! mp = Some (put_pool y p)) as Hp'.
    { unfold free_one. rewrite Hb, Hr. simpl. by rewrite Hm, lookup_alter_eq, Hp. }
    destruct (mp_put_objs y _ _ Hroom) as [Hput Hroom'].
    destruct (IH _ _ _ k Hnd Hp') as (p' & Hl & Hperm & Hk); [by rewrite E|]. exists p'. split_and!; [done| |done].
    rewrite Hperm, E. simpl. rewrite Hput. by rewrite Permutation_middle.
  - assert (pools (free_one s y) !! mp = Some p) as Hp'.
    { unfold free_one. destruct (mbufs s !! y) as [b|] eqn:Hb; [|done]. simpl.
      destruct (Z.eqb_spec (refcnt b) 1); [|done]. rewrite lookup_alter_ne; [done|].
      intros ?. apply Hn. by exists b. }
    destruct (IH _ _ _ k Hnd Hp') as (p' & Hl & Hperm & Hk); [by rewrite E|]. exists p'.
    split_and!; [done| |done]. by rewrite <- E.
Qed.

Lemma pktmbuf_free_spec s m segs :
  seg_chain (mbufs s) m segs -> Forall (freeable s) segs ->
  rte_pktmbuf_free m s = Ret (tt, foldl free_one s segs).
Proof.
  intros Hc Hall. pose proof (seg_chain_nodup _ _ _ Hc) as Hnd.
  pose proof (free_loop_spec segs (S (size (mbufs s))) s m (fun _ s' => s' = foldl free_one s segs)
    ltac:(apply seg_chain_size in Hc; lia) Hc Hnd Hall eq_refl) as Hwp.
  apply wp_run in Hwp as ([] & s' & E & ->). exact E.
Qed.

(** Freeing a packet of direct segments returns to its own mempool, exactly
    once, every segment without further references (unlinked from the packet),
    takes one reference from every other segment, and touches nothing else; a pool
    must have room for what it gets back. *)
Theorem pktmbuf_free_correct (s : mem P) (m : option nat) (segs : list nat) :
  seg_chain (mbufs s) m segs -> Forall (freeable s) segs ->
  exists s', rte_pktmbuf_free m s = Ret (tt, s') /\
    (forall x, mbufs s' !! x = if decide (x ∈ segs) then freed <$> mbufs s !! x else mbufs s !! x) /\
    (forall mp p k, pools s !! mp = Some p ->
       mp_room (pool_objs p) (length (filter (returns_to s mp) segs) + k) ->
       exists p', pools s' !! mp = Some p' /\
         mp_objs (pool_objs p') ≡ₚ filter (returns_to s mp) segs ++ mp_objs (pool_objs p) /\
         mp_room (pool_objs p') k).
Proof.
  intros Hc Hall. pose proof (seg_chain_nodup _ _ _ Hc) as Hnd. exists (foldl free_one s segs).
  split; [by apply pktmbuf_free_spec|split; intros; [by apply free_all_mbufs|by apply free_all_pools]].
Qed.
End Free.

(** ** Resizing keeps packets well formed *)

Definition seg_wf (b : rte_mbuf) : Prop :=
  0 <= data_off b /\ 0 <= data_len b /\ data_off b + data_len b <= buf_len b < 65536.

(** The data bytes of the segments [segs]. *)
Definition total (h : gmap nat rte_mbuf) (segs : list nat) : Z :=
  foldr (fun x t => default 0 (data_len <$> h !! x) + t) 0 segs.

(** The packet headed by [m] has the segments [segs]; the header counts them and
    their bytes. *)
Record pkt_wf (h : gmap nat rte_mbuf) (m : nat) (segs : list nat) : Prop := {
  wf_chain : seg_chain h (Some m) segs;
  wf_segs : forall x b, x ∈ segs -> h !! x = Some b -> seg_wf b;
  wf_count : Z.of_nat (length segs) < 65536;
  wf_head : forall b, h !! m = Some b ->
    pkt_len b = total h segs /\ nb_segs b = Z.of_nat (length segs)
}.

Lemma total_bound h segs :
  (forall x b, x ∈ segs -> h !! x = Some b -> seg_wf b) ->
  0 <= total h segs <= 65535 * Z.of_nat (length segs).
Proof.
  induction segs as [|x segs IH]; intros Hwf; [done|]. specialize (IH ltac:(set_solver)).
  cbn [total foldr length]. fold (total h segs).
  assert (0 <= default 0 (data_len <$> h !! x) <= 65535).
  { destruct (h !! x) as [b|] eqn:E; [|done]. destruct (Hwf x b ltac:(set_solver) E). simpl. lia. }
  lia.
Qed.

Lemma total_insert_out h segs x b : x ∉ segs -> total (<[x := b]> h) segs = total h segs.
Proof.
  induction segs as [|y segs IH]; intros Hx; [done|]. cbn [total foldr]. fold (total h segs).
  fold (total (<[x := b]> h) segs). rewrite IH, lookup_insert_ne by set_solver. done.
Qed.

Lemma total_insert h segs x b b' :
  NoDup segs -> x ∈ segs -> h !! x = Some b ->
  total (<[x := b']> h) segs = total h segs + (data_len b' - data_len b).
Proof.
  induction segs as [|y segs IH]; intros Hnd Hx Hb; [set_solver|].
  apply NoDup_cons in Hnd as [Hy Hnd]. cbn [total foldr]. fold (total h segs).
  fold (total (<[x := b']> h) segs). destruct (decide (y = x)) as [->|].
  - rewrite lookup_insert_eq, Hb, total_insert_out by done. simpl. lia.
  - rewrite lookup_insert_ne, IH by set_solver. lia.
Qed.

Lemma seg_chain_insert h x b b' segs : forall y,
  h !! x = Some b -> m_next b' = m_next b -> seg_chain h y segs -> seg_chain (<[x := b']> h) y segs.
Proof.
  induction segs as [|z segs IH]; intros y Hb Hn; simpl; [done|].
  intros (-> & bz & Hz & Hc). split; [done|]. destruct (decide (z = x)) as [->|].
  - exists b'. rewrite lookup_insert_eq. split; [done|]. simplify_eq. rewrite Hn. eauto.
  - exists bz. rewrite lookup_insert_ne by done. eauto.
Qed.

(** Changing the data of segment [x] and the total of the header [m]. *)
Lemma resize_wf h m segs x bx bx' bm :
  pkt_wf h m segs -> x ∈ segs -> h !! x = Some bx ->
  m_next bx' = m_next bx -> seg_wf bx' -> pkt_len bx' = pkt_len bx -> nb_segs bx' = nb_segs bx ->
  <[x := bx']> h !! m = Some bm ->
  let h' := <[m := set_pkt_len (u32 (pkt_len bm + (data_len bx' - data_len bx))) bm]>
              (<[x := bx']> h) in
  pkt_wf h' m segs /\ total h' segs = total h segs + (data_len bx' - data_len bx).
Proof.
  intros [Hc Hs Hn Hh] Hx Hb Hnext Hwf Hpl Hnb Hm h'.
  pose proof (seg_chain_nodup _ _ _ Hc) as Hnd.
  assert (m ∈ segs) as Hms by (destruct segs; simpl in Hc; [done|]; destruct Hc as [[= <-] _]; set_solver).
  assert (exists b0, h !! m = Some b0 /\ pkt_len bm = pkt_len b0 /\ nb_segs bm = nb_segs b0 /\ seg_wf bm)
    as (b0 & Hb0 & Epl & Enb & Hwfm).
  { destruct (decide (m = x)) as [->|].
    - rewrite lookup_insert_eq in Hm. injection Hm as <-. eauto 6.
    - rewrite lookup_insert_ne in Hm by done. exists bm. split_and!; try done. eauto. }
  destruct (Hh _ Hb0) as [Hpk Hcnt].
  assert (forall y b, y ∈ segs -> h' !! y = Some b -> seg_wf b) as Hs'.
  { intros y b Hy. unfold h'. destruct (decide (y = m)) as [->|].
    - rewrite lookup_insert_eq. intros [= <-]. exact Hwfm.
    - rewrite lookup_insert_ne by done. destruct (decide (y = x)) as [->|].
      + rewrite lookup_insert_eq. intros [= <-]. done.
      + rewrite lookup_insert_ne by done. eauto. }
  assert (total h' segs = total h segs + (data_len bx' - data_len bx)) as Ht.
  { unfold h'. rewrite (total_insert _ _ m bm), (total_insert _ _ x bx) by done. simpl. lia. }
  split; [|done]. pose proof (total_bound h' segs Hs') as Hbd. split.
  - unfold h'. eapply seg_chain_insert; [exact Hm|done|]. by eapply seg_chain_insert.
  - done.
  - done.
  - intros b. unfold h' at 1. rewrite lookup_insert_eq. intros [= <-]. cbn [pkt_len nb_segs set_pkt_len].
    rewrite Ht, Epl, Hpk, wrapu_small by lia. split; [done|]. congruence.
Qed.

Section Resize.
Context {P : Type}.
Implicit Types s : mem P.

Lemma lastseg_loop_spec segs : forall fuel s m Q,
  (length segs <= fuel)%nat -> seg_chain (mbufs s) (Some m) segs ->
  (forall l, list.last segs = Some l -> Q l s) -> wp (lastseg_loop fuel m) Q s.
Proof.
  induction segs as [|x segs IH]; intros fuel s m Q Hf; simpl; [done|].
  intros ([= <-] & b & Hb & Hc) HQ. destruct fuel as [|fuel]; [simpl in Hf; lia|].
  cbn [lastseg_loop]. mbuf_step. destruct (m_next b) as [m3|].
  - apply IH; [simpl in Hf; lia|done|]. destruct segs; [done|]. done.
  - destruct segs; [by apply HQ|]. by destruct Hc.
Qed.

Lemma lastseg_spec segs s m Q :
  seg_chain (mbufs s) (Some m) segs ->
  (forall l b, list.last segs = Some l -> mbufs s !! l = Some b -> Q l s) ->
  wp (rte_pktmbuf_lastseg m) Q s.
Proof.
  intros Hc HQ. apply (lastseg_loop_spec segs (S (size (mbufs s))));
    [apply seg_chain_size in Hc; lia|done|]. intros l Hl.
  pose proof (seg_chain_dom _ _ _ Hc) as Hd. rewrite Forall_forall in Hd.
  destruct (proj1 (elem_of_dom (mbufs s) l) (Hd l (last_Some_elem_of _ _ Hl))). eauto.
Qed.

(** The packet [m] has become [delta] bytes longer, and nothing else changed. *)
Definition resized s (m : nat) (segs : list nat) (delta : Z) s' : Prop :=
  pkt_wf (mbufs s') m segs /\ total (mbufs s') segs = total (mbufs s) segs + delta /\
  pools s' = pools s /\ forall x, x ∉ segs -> mbufs s' !! x = mbufs s !! x.

Lemma wf_header s m segs : pkt_wf (mbufs s) m segs -> m ∈ segs /\ exists b, mbufs s !! m = Some b /\ seg_wf b.
Proof.
  intros [Hc Hs _ _]. destruct segs as [|x segs]; [done|]. destruct Hc as ([= <-] & b & Hb & _).
  split; [set_solver|]. exists b. split; [done|]. eapply Hs; [|done]. set_solver.
Qed.

(** The resized store, from the two updates the operations make. *)
Lemma resized_intro s m segs x bx bx' bm delta h' :
  pkt_wf (mbufs s) m segs -> x ∈ segs -> mbufs s !! x = Some bx ->
  m_next bx' = m_next bx -> seg_wf bx' -> pkt_len bx' = pkt_len bx -> nb_segs bx' = nb_segs bx ->
  data_len bx' - data_len bx = delta -> <[x := bx']> (mbufs s) !! m = Some bm ->
  h' = <[m := set_pkt_len (u32 (pkt_len bm + delta)) bm]> (<[x := bx']> (mbufs s)) ->
  resized s m segs delta (put_mbufs h' s).
Proof.
  intros Hwf Hx Hb Hn Hs Hp Hc <- Hm ->. destruct (wf_header _ _ _ Hwf) as [Hms _].
  destruct (resize_wf _ _ _ _ _ _ _ Hwf Hx Hb Hn Hs Hp Hc Hm) as [Hwf' Ht].
  split_and!; [done..|]. intros y Hy. simpl. by rewrite !lookup_insert_ne by set_solver.
Qed.

Lemma adj_spec s m segs b len :
  pkt_wf (mbufs s) m segs -> mbufs s !! m = Some b -> 0 <= len < 65536 ->
  if data_len b <? len then rte_pktmbuf_adj m len s = Ret (None, s)
  else exists s', rte_pktmbuf_adj m len s = Ret (Some (buf_addr b, data_off b + len), s') /\
         resized s m segs (- len) s'.
Proof.
  intros Hwf Hb Hlen. destruct (wf_header _ _ _ Hwf) as (Hm & ? & Hb' & Hs). simplify_eq.
  destruct Hs as (? & ? & ?). destruct (Z.ltb_spec (data_len b) len).
  - unfold rte_pktmbuf_adj, mbind, M_bind, load_mbuf. rewrite Hb.
    by destruct (Z.ltb_spec (data_len b) len); [|lia].
  - enough (wp (rte_pktmbuf_adj m len) (fun r s' => r = Some (buf_addr b, data_off b + len) /\
      resized s m segs (- len) s') s) as Hwp.
    { apply wp_run in Hwp as (? & s' & E & -> & Hr). eauto. }
    unfold rte_pktmbuf_adj. mbuf_step. destruct (Z.ltb_spec (data_len b) len); [lia|].
    mbuf_step. cbn [data_len set_data_len data_off set_data_off pkt_len buf_addr set_pkt_len].
    rewrite !(wrapu_small 16) by lia. split; [done|].
    set (b1 := set_data_off (data_off b + len) (set_data_len (data_len b - len) b)).
    eapply (resized_intro _ _ _ m b b1 b1); try done; [|simpl; lia|apply lookup_insert_eq|].
    + unfold seg_wf; simpl; lia.
    + rewrite insert_insert_eq. subst b1. simpl. by rewrite <- Z.add_opp_r.
Qed.

Lemma prepend_spec s m segs b len :
  pkt_wf (mbufs s) m segs -> mbufs s !! m = Some b -> 0 <= len < 65536 ->
  if data_off b <? len then rte_pktmbuf_prepend m len s = Ret (None, s)
  else exists s', rte_pktmbuf_prepend m len s = Ret (Some (buf_addr b, data_off b - len), s') /\
         resized s m segs len s'.
Proof.
  intros Hwf Hb Hlen. destruct (wf_header _ _ _ Hwf) as (Hm & ? & Hb' & Hs). simplify_eq.
  destruct Hs as (? & ? & ?). unfold rte_pktmbuf_prepend, rte_pktmbuf_headroom.
  destruct (Z.ltb_spec (data_off b) len).
  - unfold mbind, M_bind, load_mbuf. rewrite Hb. by destruct (Z.ltb_spec (data_off b) len); [|lia].
  - match goal with |- exists s', ?op s = _ /\ _ =>
      enough (wp op (fun r s' => r = Some (buf_addr b, data_off b - len) /\
        resized s m segs len s') s) as Hwp end.
    { apply wp_run in Hwp as (? & s' & E & -> & Hr). eauto. }
    mbuf_step. destruct (Z.ltb_spec (data_off b) len); [lia|].
    mbuf_step. cbn [data_len set_data_len data_off set_data_off pkt_len buf_addr set_pkt_len].
    rewrite !(wrapu_small 16) by lia. split; [done|].
    set (b1 := set_data_len (data_len b + len) (set_data_off (data_off b - len) b)).
    eapply (resized_intro _ _ _ m b b1 b1); try done; [|simpl; lia|apply lookup_insert_eq|].
    + unfold seg_wf; simpl; lia.
    + by rewrite insert_insert_eq.
Qed.

(** Changing the length of the last segment and of the packet. *)
Lemma resize_last s m segs l bl delta Q :
  pkt_wf (mbufs s) m segs -> list.last segs = Some l -> mbufs s !! l = Some bl ->
  0 <= data_len bl + delta -> data_off bl + (data_len bl + delta) <= buf_len bl ->
  (forall s', resized s m segs delta s' -> Q tt s') ->
  wp (upd_mbuf l (fun b => set_data_len (u16 (data_len b + delta)) b) ;;
      upd_mbuf m (fun b => set_pkt_len (u32 (pkt_len b + delta)) b)) Q s.
Proof.
  intros Hwf Hl Hbl H0 H1 HQ. pose proof (last_Some_elem_of _ _ Hl) as Hin.
  destruct (wf_segs _ _ _ Hwf _ _ Hin Hbl) as (? & ? & ?). mbuf_step.
  rewrite (wrapu_small 16) by lia. set (b1 := set_data_len (data_len bl + delta) bl).
  destruct (wf_header _ _ _ Hwf) as (Hm & bm0 & Hbm0 & _).
  assert (exists bm, <[l := b1]> (mbufs s) !! m = Some bm) as [bm Hbm].
  { apply lookup_insert_is_Some'. right. by eexists. }
  rewrite wp_upd_mbuf. exists bm. split; [exact Hbm|]. rewrite put_put. apply HQ.
  eapply (resized_intro _ _ _ l bl b1 bm); try done; [unfold seg_wf; simpl; lia|simpl; lia].
Qed.

Lemma trim_spec s m segs l bl len :
  pkt_wf (mbufs s) m segs -> list.last segs = Some l -> mbufs s !! l = Some bl -> 0 <= len < 65536 ->
  if data_len bl <? len then rte_pktmbuf_trim m len s = Ret (-1, s)
  else exists s', rte_pktmbuf_trim m len s = Ret (0, s') /\ resized s m segs (- len) s'.
Proof.
  intros Hwf Hl Hbl Hlen.
  destruct (wf_segs _ _ _ Hwf _ _ (last_Some_elem_of _ _ Hl) Hbl) as (? & ? & ?).
  enough (wp (rte_pktmbuf_trim m len) (fun r s' =>
    if data_len bl <? len then r = -1 /\ s' = s else r = 0 /\ resized s m segs (- len) s') s) as Hwp.
  { apply wp_run in Hwp as (r & s' & E & HQ). destruct (data_len bl <? len).
    - destruct HQ as [-> ->]. done.
    - destruct HQ as [-> ?]. eauto. }
  unfold rte_pktmbuf_trim. rewrite wp_bind. apply (lastseg_spec segs); [apply Hwf|].
  intros l' b' Hl' _. simplify_eq. mbuf_step. destruct (Z.ltb_spec (data_len bl) len); mbuf_step; [done|].
  pose proof (resize_last s m segs l bl (- len) (fun _ s' => 0 = 0 /\ resized s m segs (- len) s')
    Hwf Hl Hbl ltac:(lia) ltac:(lia) ltac:(done)) as Hwp.
  rewrite wp_bind, wp_upd_mbuf in Hwp. destruct Hwp as (? & ? & Hwp). simplify_eq. exact Hwp.
Qed.

Lemma append_spec s m segs l bl len :
  pkt_wf (mbufs s) m segs -> list.last segs = Some l -> mbufs s !! l = Some bl -> 0 <= len < 65536 ->
  if buf_len bl - data_off bl - data_len bl <? len then rte_pktmbuf_append m len s = Ret (None, s)
  else exists s', rte_pktmbuf_append m len s =
           Ret (Some (buf_addr bl, data_off bl + data_len bl), s') /\ resized s m segs len s'.
Proof.
  intros Hwf Hl Hbl Hlen.
  destruct (wf_segs _ _ _ Hwf _ _ (last_Some_elem_of _ _ Hl) Hbl) as (? & ? & ?).
  set (p := Some (buf_addr bl, data_off bl + data_len bl)).
  enough (wp (rte_pktmbuf_append m len) (fun r s' =>
    if buf_len bl - data_off bl - data_len bl <? len then r = None /\ s' = s
    else r = p /\ resized s m segs len s') s) as Hwp.
  { apply wp_run in Hwp as (r & s' & E & HQ). destruct (buf_len bl - data_off bl - data_len bl <? len).
    - destruct HQ as [-> ->]. done.
    - destruct HQ as [-> ?]. eauto. }
  unfold rte_pktmbuf_append. rewrite wp_bind. apply (lastseg_spec segs); [apply Hwf|].
  intros l' b' Hl' _. simplify_eq. mbuf_step. unfold rte_pktmbuf_tailroom, rte_pktmbuf_headroom.
  rewrite (wrapu_small 16) by lia.
  destruct (Z.ltb_spec (buf_len bl - data_off bl - data_len bl) len); mbuf_step; [done|].
  pose proof (resize_last s m segs l bl len (fun _ s' => p = p /\ resized s m segs len s')
    Hwf Hl Hbl ltac:(lia) ltac:(lia) ltac:(done)) as Hwp.
  rewrite wp_bind, wp_upd_mbuf in Hwp. destruct Hwp as (? & ? & Hwp). simplify_eq. exact Hwp.
Qed.

(** The four resizing operations on a well-formed packet: each changes
    nothing and reports failure exactly when the first segment's headroom or
    data, or the last segment's tailroom or data, is too short; otherwise the
    packet is well formed again (its header still counts its segments and bytes),
    longer or shorter by exactly [len], and no other mbuf changes. *)
Theorem resize_correct s (m : nat) (segs : list nat) (b : rte_mbuf) (l : nat) (bl : rte_mbuf) (len : Z) :
  pkt_wf (mbufs s) m segs -> mbufs s !! m = Some b -> list.last segs = Some l ->
  mbufs s !! l = Some bl -> 0 <= len < 65536 ->
  (if data_len b <? len then rte_pktmbuf_adj_export m len s = Ret (None, s)
   else exists s', rte_pktmbuf_adj_export m len s = Ret (Some (buf_addr b, data_off b + len), s') /\
          resized s m segs (- len) s') /\
  (if data_len bl <? len then rte_pktmbuf_trim_export m len s = Ret (-1, s)
   else exists s', rte_pktmbuf_trim_export m len s = Ret (0, s') /\ resized s m segs (- len) s') /\
  (if data_off b <? len then rte_pktmbuf_prepend m len s = Ret (None, s)
   else exists s', rte_pktmbuf_prepend m len s = Ret (Some (buf_addr b, data_off b - len), s') /\
          resized s m segs len s') /\
  (if buf_len bl - data_off bl - data_len bl <? len then rte_pktmbuf_append m len s = Ret (None, s)
   else exists s', rte_pktmbuf_append m len s =
            Ret (Some (buf_addr bl, data_off bl + data_len bl), s') /\ resized s m segs len s').
Proof.
  intros Hwf Hb Hl Hbl Hlen. split_and!.
  - by apply (adj_spec s m segs).
  - by apply (trim_spec s m segs l bl).
  - by apply (prepend_spec s m segs).
  - by apply (append_spec s m segs l bl).
Qed.
End Resize.

(** ** Chaining two packets *)

Lemma seg_chain_ext h h' segs : forall m,
  (forall x, x ∈ segs -> m_next <$> h' !! x = m_next <$> h !! x) ->
  seg_chain h m segs -> seg_chain h' m segs.
Proof.
  induction segs as [|x segs IH]; intros m Hx; simpl; [done|]. intros (-> & b & Hb & Hc).
  split; [done|]. pose proof (Hx x ltac:(set_solver)) as E. rewrite Hb in E.
  destruct (h' !! x) as [b'|]; simplify_eq/=. exists b'. split; [done|]. rewrite E.
  apply IH; [set_solver|done].
Qed.

Lemma total_ext h h' segs :
  (forall x, x ∈ segs -> data_len <$> h' !! x = data_len <$> h !! x) -> total h' segs = total h segs.
Proof.
  induction segs as [|x segs IH]; intros Hx; [done|]. cbn [total foldr].
  fold (total h segs). fold (total h' segs). rewrite IH, Hx by set_solver. done.
Qed.

Lemma total_app h l k : total h (l ++ k) = total h l + total h k.
Proof.
  induction l as [|x l IH]; [done|]. cbn [total foldr app].
  fold (total h (l ++ k)). fold (total h l). lia.
Qed.

(** Linking the last segment of one chain to the head of another. *)
Lemma seg_chain_link h h' t segs2 segs1 : forall m l,
  list.last segs1 = Some l -> NoDup segs1 ->
  (forall x, x ∈ segs1 -> x <> l -> m_next <$> h' !! x = m_next <$> h !! x) ->
  m_next <$> h' !! l = Some (Some t) ->
  seg_chain h m segs1 -> seg_chain h' (Some t) segs2 -> seg_chain h' m (segs1 ++ segs2).
Proof.
  induction segs1 as [|x segs1 IH]; intros m l Hl Hnd Hx Hlt; [done|].
  intros (-> & b & Hb & Hc) H2. apply NoDup_cons in Hnd as [Hn Hnd]. split; [done|].
  destruct segs1 as [|y segs1].
  - injection Hl as ->. destruct (h' !! l) as [bl|]; simplify_eq/=. exists bl. by rewrite Hlt.
  - change (list.last (y :: segs1) = Some l) in Hl.
    assert (x <> l) by (intros ->; apply Hn; by apply last_Some_elem_of in Hl).
    pose proof (Hx x ltac:(set_solver) ltac:(done)) as E. rewrite Hb in E.
    destruct (h' !! x) as [b'|]; simplify_eq/=. exists b'. split; [done|]. rewrite E.
    apply (IH _ l); [done|done|set_solver|done|done|done].
Qed.

Section Chain.
Context {P : Type}.
Implicit Types s : mem P.

(** The header fields after chaining a packet of [n] segments and [k] bytes. *)
Definition chain_head (n k : Z) (h : rte_mbuf) : rte_mbuf :=
  set_pkt_len (u32 (pkt_len h + k)) (set_nb_segs (u8 (nb_segs h + n)) h).

Definition chained s (m l t : nat) (bt : rte_mbuf) : gmap nat rte_mbuf :=
  alter (fun b => set_pkt_len (data_len b) b) t
    (alter (chain_head (nb_segs bt) (pkt_len bt)) m (alter (set_m_next (Some t)) l (mbufs s))).

Lemma chain_run s m segs bm t bt l :
  seg_chain (mbufs s) (Some m) segs -> list.last segs = Some l ->
  mbufs s !! m = Some bm -> mbufs s !! t = Some bt -> t ∉ segs ->
  nb_segs bm + nb_segs bt < 65536 ->
  rte_pktmbuf_chain m t s = Ret (0, put_mbufs (chained s m l t bt) s).
Proof.
  intros Hc Hl Hm Ht Hts Hn. pose proof (last_Some_elem_of _ _ Hl) as Hls.
  enough (wp (rte_pktmbuf_chain m t) (fun r s' => r = 0 /\ s' = put_mbufs (chained s m l t bt) s) s)
    as Hwp by (by apply wp_run in Hwp as (? & ? & ? & -> & ->)).
  unfold rte_pktmbuf_chain. mbuf_step. change (Z.shiftl 1 16) with 65536.
  destruct (Z.leb_spec 65536 (nb_segs bm + nb_segs bt)); [lia|]. rewrite wp_bind.
  apply (lastseg_spec segs); [done|]. intros ? bl E Hbl. simplify_eq.
  rewrite wp_bind, wp_upd_mbuf. exists bl. split; [done|].
  rewrite <- (alter_present (set_m_next (Some t)) _ _ _ Hbl). set (h1 := alter _ _ _).
  assert (is_Some (h1 !! m)) as [b1 Hb1] by (subst h1; rewrite lookup_alter_is_Some; by eexists).
  rewrite wp_bind, wp_upd_mbuf. exists b1. split; [done|].
  rewrite wp_bind, wp_upd_mbuf. eexists. split; [apply lookup_insert_eq|].
  rewrite wp_bind, wp_upd_mbuf. exists bt. split.
  { simpl. rewrite insert_insert_eq, lookup_insert_ne by (intros ->; apply Hts; destruct segs; [done|];
      destruct Hc as [[= <-] _]; set_solver).
    subst h1. by rewrite lookup_alter_ne by (intros ->; done). }
  rewrite wp_ret. split; [done|]. cbn [put_mbufs mbufs pools]. unfold chained. fold h1.
  rewrite insert_insert_eq, (alter_present (chain_head _ _) _ _ _ Hb1).
  erewrite alter_present; [done|]. rewrite lookup_insert_ne.
  - subst h1. by rewrite lookup_alter_ne by (intros ->; done).
  - intros ->. apply Hts. destruct segs; [done|]. destruct Hc as [[= <-] _]. set_solver.
Qed.

Lemma alter_proj {A} (f : rte_mbuf -> A) g i (h : gmap nat rte_mbuf) x :
  (forall b, f (g b) = f b) -> f <$> alter g i h !! x = f <$> h !! x.
Proof.
  intros Hf. destruct (decide (x = i)) as [->|].
  - rewrite lookup_alter_eq. destruct (h !! i); simpl; [by rewrite Hf|done].
  - by rewrite lookup_alter_ne.
Qed.

Lemma chained_proj {A} (f : rte_mbuf -> A) s m l t bt x :
  (forall v b, f (set_m_next v b) = f b) -> (forall n k b, f (chain_head n k b) = f b) ->
  (forall v b, f (set_pkt_len v b) = f b) ->
  f <$> chained s m l t bt !! x = f <$> mbufs s !! x.
Proof. intros. unfold chained. by rewrite !alter_proj. Qed.

Lemma chained_next s m l t bt x :
  m_next <$> chained s m l t bt !! x =
  if decide (x = l) then (fun _ => Some t) <$> mbufs s !! x else m_next <$> mbufs s !! x.
Proof.
  unfold chained. rewrite !(alter_proj m_next) by done. destruct (decide (x = l)) as [->|].
  - rewrite lookup_alter_eq. by destruct (mbufs s !! l).
  - by rewrite lookup_alter_ne.
Qed.

Lemma chained_head s m l t bt bm :
  m <> t -> mbufs s !! m = Some bm ->
  exists b, chained s m l t bt !! m = Some b /\ pkt_len b = u32 (pkt_len bm + pkt_len bt) /\
            nb_segs b = u8 (nb_segs bm + nb_segs bt).
Proof.
  intros Hmt Hm. unfold chained. rewrite lookup_alter_ne, lookup_alter_eq by done.
  destruct (decide (m = l)) as [->|].
  - rewrite lookup_alter_eq, Hm. simpl. by eexists.
  - rewrite lookup_alter_ne, Hm by done. simpl. by eexists.
Qed.

Lemma chained_wf s m segs1 t segs2 l bt bm :
  pkt_wf (mbufs s) m segs1 -> pkt_wf (mbufs s) t segs2 -> segs1 ## segs2 ->
  mbufs s !! m = Some bm -> mbufs s !! t = Some bt -> list.last segs1 = Some l ->
  nb_segs bm + nb_segs bt < 256 ->
  pkt_wf (chained s m l t bt) m (segs1 ++ segs2) /\
  total (chained s m l t bt) (segs1 ++ segs2) = total (mbufs s) segs1 + total (mbufs s) segs2.
Proof.
  intros W1 W2 Hd Hm Ht Hl Hn. pose proof W1 as [C1 S1 N1 H1]. pose proof W2 as [C2 S2 N2 H2].
  destruct (H1 _ Hm) as [P1 L1], (H2 _ Ht) as [P2 L2].
  destruct (wf_header _ _ _ W1) as [Hm1 _], (wf_header _ _ _ W2) as [Ht2 _].
  assert (m <> t) as Hmt by set_solver. pose proof (last_Some_elem_of _ _ Hl) as Hls.
  assert (total (chained s m l t bt) (segs1 ++ segs2) = total (mbufs s) segs1 + total (mbufs s) segs2) as Et.
  { rewrite <- total_app. apply total_ext. intros x _. by apply chained_proj. }
  split; [|done]. split.
  - apply (seg_chain_link (mbufs s) _ t segs2 segs1 _ l); [done|by eapply seg_chain_nodup| | |done|].
    + intros x _ Hx. by rewrite chained_next, decide_False.
    + rewrite chained_next, decide_True by done. destruct (mbufs s !! l) as [bl|] eqn:E; [done|].
      apply seg_chain_dom in C1. rewrite Forall_forall in C1. apply C1 in Hls.
      by apply elem_of_dom in Hls as [? ?%eq_sym]; rewrite E in *.
    + eapply seg_chain_ext; [|exact C2]. intros x Hx. rewrite chained_next, decide_False; [done|].
      intros ->. set_solver.
  - intros x b Hx Hb.
    pose proof (chained_proj (fun b => (data_off b, data_len b, buf_len b)) s m l t bt x
      ltac:(done) ltac:(done) ltac:(done)) as E. rewrite Hb in E.
    destruct (mbufs s !! x) as [b0|] eqn:E0; [|done]. cbn in E. injection E as E1 E2 E3.
    assert (seg_wf b0) as W by (apply elem_of_app in Hx as [|]; eauto).
    unfold seg_wf in *. by rewrite E1, E2, E3.
  - rewrite length_app. lia.
  - destruct (chained_head s m l t bt bm Hmt Hm) as (b & Hb & Pb & Nb).
    intros ? Hb'. simplify_eq. rewrite Pb, Nb, Et, P1, P2, L1, L2, length_app in *.
    pose proof (total_bound _ _ S1). pose proof (total_bound _ _ S2).
    rewrite !wrapu_small by lia. lia.
Qed.

(** Chaining two well-formed packets with fewer than 256 segments in all
    gives one well-formed packet, the tail's segments after the head's and the byte
    counts added. *)
Theorem pktmbuf_chain_correct s (m t : nat) (segs1 segs2 : list nat) :
  pkt_wf (mbufs s) m segs1 -> pkt_wf (mbufs s) t segs2 -> segs1 ## segs2 ->
  (length segs1 + length segs2 < 256)%nat ->
  exists s', rte_pktmbuf_chain m t s = Ret (0, s') /\ pools s' = pools s /\
    pkt_wf (mbufs s') m (segs1 ++ segs2) /\
    total (mbufs s') (segs1 ++ segs2) = total (mbufs s) segs1 + total (mbufs s) segs2.
Proof.
  intros W1 W2 Hd Hn. destruct (wf_header _ _ _ W1) as (Hm1 & bm & Hm & _).
  destruct (wf_header _ _ _ W2) as (Ht2 & bt & Ht & _).
  destruct (wf_head _ _ _ W1 _ Hm) as [_ L1], (wf_head _ _ _ W2 _ Ht) as [_ L2].
  destruct (list.last segs1) as [l|] eqn:Hl; [|apply last_None in Hl; set_solver].
  eexists. split; [apply (chain_run s m segs1 bm t bt l); [apply W1|done..|set_solver|lia]|].
  split; [done|]. apply (chained_wf s m segs1 t segs2 l bt bm); try done. lia.
Qed.

(** [nb_segs] is 16 bits wide and the overflow check allows up to 65535
    segments, but the sum is stored through a [uint8_t] cast: from 256 segments
    on the header of the chained packet counts modulo 256. *)
Theorem pktmbuf_chain_truncates s (m t : nat) (segs1 segs2 : list nat) :
  pkt_wf (mbufs s) m segs1 -> pkt_wf (mbufs s) t segs2 -> segs1 ## segs2 ->
  256 <= Z.of_nat (length segs1 + length segs2) < 65536 ->
  exists s' b, rte_pktmbuf_chain m t s = Ret (0, s') /\ mbufs s' !! m = Some b /\
    nb_segs b = Z.of_nat (length segs1 + length segs2) mod 256 /\
    ~ pkt_wf (mbufs s') m (segs1 ++ segs2).
Proof.
  intros W1 W2 Hd Hn. destruct (wf_header _ _ _ W1) as (Hm1 & bm & Hm & _).
  destruct (wf_header _ _ _ W2) as (Ht2 & bt & Ht & _).
  destruct (wf_head _ _ _ W1 _ Hm) as [_ L1], (wf_head _ _ _ W2 _ Ht) as [_ L2].
  destruct (list.last segs1) as [l|] eqn:Hl; [|apply last_None in Hl; set_solver].
  destruct (chained_head s m l t bt bm ltac:(set_solver) Hm) as (b & Hb & _ & Nb).
  rewrite L1, L2, <- Nat2Z.inj_add in Nb. change (u8 ?x) with (x mod 256) in Nb.
  eexists _, b. split; [apply (chain_run s m segs1 bm t bt l); [apply W1|done..|set_solver|lia]|].
  split_and!; [exact Hb|exact Nb|]. intros W. destruct (wf_head _ _ _ W _ Hb) as [_ N].
  rewrite Nb, length_app in N. Z.div_mod_to_equations. lia.
Qed.
End Chain.

(** ** Examples *)

(** A decision procedure for concrete packets. *)
Fixpoint seg_chainb (h : gmap nat rte_mbuf) (m : option nat) (segs : list nat) : bool :=
  match segs, m with
  | [], None => true
  | x :: rest, Some y =>
    (x =? y)%nat && match h !! x with Some b => seg_chainb h (m_next b) rest | None => false end
  | _, _ => false
  end.

Lemma seg_chainb_sound h segs : forall m, seg_chainb h m segs = true -> seg_chain h m segs.
Proof.
  induction segs as [|x segs IH]; intros [y|]; simpl; try done.
  intros [->%Nat.eqb_eq Hb]%andb_prop. split; [done|]. destruct (h !! y) as [b|]; [|done]. eauto.
Qed.

Definition seg_wfb (b : rte_mbuf) : bool :=
  (0 <=? data_off b) && (0 <=? data_len b) && (data_off b + data_len b <=? buf_len b) &&
  (buf_len b <? 65536).

Definition pkt_wfb (h : gmap nat rte_mbuf) (m : nat) (segs : list nat) : bool :=
  seg_chainb h (Some m) segs &&
  forallb (fun x => match h !! x with Some b => seg_wfb b | None => true end) segs &&
  (Z.of_nat (length segs) <? 65536) &&
  match h !! m with
  | Some b => (pkt_len b =? total h segs) && (nb_segs b =? Z.of_nat (length segs))
  | None => true
  end.

Lemma pkt_wfb_sound h m segs : pkt_wfb h m segs = true -> pkt_wf h m segs.
Proof.
  unfold pkt_wfb. rewrite !andb_true_iff, forallb_forall. intros [[[Hc Hs] Hn] Hh]. split.
  - by apply seg_chainb_sound.
  - intros x b Hx Hb. specialize (Hs x (proj1 (list_elem_of_In _ _) Hx)). rewrite Hb in Hs.
    unfold seg_wfb in Hs. rewrite !andb_true_iff in Hs. unfold seg_wf. lia.
  - lia.
  - intros b Hb. rewrite Hb in Hh. lia.
Qed.

(** Segment [x] of a packet: 100 bytes, followed by [nxt]. *)
Definition demo_seg (refs segs bytes : Z) (nxt : option nat) (x : nat) : rte_mbuf :=
  Mbuf x 128 refs segs 255 0 0 bytes 100 0 0 0 2176 0 0 0 nxt 0 0.

(** [n] segments from address [x] on. *)
Fixpoint demo_packet (refs bytes : Z) (x n : nat) : gmap nat rte_mbuf :=
  match n with
  | O => ∅
  | S k => <[x := demo_seg refs (Z.of_nat n) bytes (match k with O => None | _ => Some (S x) end) x]>
             (demo_packet 1 100 (S x) k)
  end.

(** Two packets, of three segments at 1 and of two at 4, and one pool with the
    mbufs 6 to 10. *)
Definition demo_mem : mem (list nat) :=
  Mem (demo_packet 1 300 1 3 ∪ demo_packet 2 200 4 2 ∪ demo_packet 1 500 6 5)
      {[ 0%nat := Pool [6; 7; 8; 9; 10]%nat 2176 0 ]}.

(** Packets of 200 and 100 segments. *)
Definition long_mem : mem (list nat) :=
  Mem (demo_packet 1 20000 1 200 ∪ demo_packet 1 10000 201 100) ∅.

Ltac demo_backed := repeat constructor; vm_compute; by eexists.

Lemma alloc_mbufs_correct_witness :
  exists s', alloc_mbufs 0 [4; 4; 4; 4; 4; 4]%nat 5 60 demo_mem = Ret ([6; 7; 8; 9; 10; 4]%nat, s') /\
    pools s' = <[0%nat := Pool [] 2176 0]> (pools demo_mem) /\
    forall m, mbufs s' !! m =
      if decide (m ∈ [6; 7; 8; 9; 10]%nat) then fresh_mbuf 60 <$> mbufs demo_mem !! m
      else mbufs demo_mem !! m.
Proof.
  apply (alloc_mbufs_correct demo_mem 0 (Pool [6; 7; 8; 9; 10]%nat 2176 0) [4; 4; 4; 4; 4; 4]%nat
    [6; 7; 8; 9; 10]%nat []); [done|done|lia|demo_backed].
Defined.

Lemma alloc_mbufs_exhausted_witness :
  exists s', alloc_mbufs 0 [1; 2; 3; 4; 5; 6]%nat 6 60 demo_mem = Ret ([1; 2; 3; 4; 5; 6]%nat, s') /\
    pools s' = pools demo_mem /\
    forall m, mbufs s' !! m =
      if decide (m ∈ [1; 2; 3; 4; 5; 6]%nat) then fresh_mbuf 60 <$> mbufs demo_mem !! m
      else mbufs demo_mem !! m.
Proof.
  apply (alloc_mbufs_exhausted demo_mem 0 (Pool [6; 7; 8; 9; 10]%nat 2176 0) [1; 2; 3; 4; 5; 6]%nat 6);
    [done|done|lia|simpl; lia|demo_backed].
Defined.

Lemma alloc_mbufs_zero_witness : alloc_mbufs 0 [6; 7; 8; 9; 10; 6; 7]%nat 0 60 demo_mem = Fault.
Proof.
  apply (alloc_mbufs_zero demo_mem 0 [6; 7; 8; 9; 10; 6; 7]%nat 60); [done|].
  intros p. vm_compute. by intros [= <-].
Defined.

Lemma pktmbuf_free_correct_witness :
  exists s', rte_pktmbuf_free (Some 4%nat) demo_mem = Ret (tt, s') /\
    (forall x, mbufs s' !! x = if decide (x ∈ [4; 5]%nat) then freed <$> mbufs demo_mem !! x
                               else mbufs demo_mem !! x) /\
    (forall mp p k, pools demo_mem !! mp = Some p ->
       mp_room (pool_objs p) (length (filter (returns_to demo_mem mp) [4; 5]%nat) + k) ->
       exists p', pools s' !! mp = Some p' /\
         mp_objs (pool_objs p') ≡ₚ filter (returns_to demo_mem mp) [4; 5]%nat ++ mp_objs (pool_objs p) /\
         mp_room (pool_objs p') k).
Proof.
  apply (pktmbuf_free_correct demo_mem (Some 4%nat) [4; 5]%nat).
  - by apply seg_chainb_sound.
  - repeat constructor; (eexists; split; [vm_compute; reflexivity|]; vm_compute;
      split; [reflexivity|]; split; [split; [discriminate|reflexivity]|by eexists]).
Defined.

Lemma resize_correct_witness :
  (exists s', rte_pktmbuf_adj_export 1 40 demo_mem = Ret (Some (1%nat, 168), s') /\
     resized demo_mem 1 [1; 2; 3]%nat (-40) s') /\
  (exists s', rte_pktmbuf_trim_export 1 40 demo_mem = Ret (0, s') /\
     resized demo_mem 1 [1; 2; 3]%nat (-40) s') /\
  (exists s', rte_pktmbuf_prepend 1 40 demo_mem = Ret (Some (1%nat, 88), s') /\
     resized demo_mem 1 [1; 2; 3]%nat 40 s') /\
  (exists s', rte_pktmbuf_append 1 40 demo_mem = Ret (Some (3%nat, 228), s') /\
     resized demo_mem 1 [1; 2; 3]%nat 40 s').
Proof.
  apply (resize_correct demo_mem 1 [1; 2; 3]%nat (demo_seg 1 3 300 (Some 2%nat) 1) 3
    (demo_seg 1 1 100 None 3) 40); [by apply pkt_wfb_sound|done|done|done|lia].
Defined.

Lemma pktmbuf_chain_correct_witness :
  exists s', rte_pktmbuf_chain 1 4 demo_mem = Ret (0, s') /\ pools s' = pools demo_mem /\
    pkt_wf (mbufs s') 1 [1; 2; 3; 4; 5]%nat /\ total (mbufs s') [1; 2; 3; 4; 5]%nat = 500.
Proof.
  apply (pktmbuf_chain_correct demo_mem 1 4 [1; 2; 3]%nat [4; 5]%nat);
    [by apply pkt_wfb_sound|by apply pkt_wfb_sound|set_solver|simpl; lia].
Defined.

Lemma pktmbuf_chain_truncates_witness :
  exists s' b, rte_pktmbuf_chain 1 201 long_mem = Ret (0, s') /\ mbufs s' !! 1%nat = Some b /\
    nb_segs b = 44 /\ ~ pkt_wf (mbufs s') 1 (seq 1 200 ++ seq 201 100).
Proof.
  apply (pktmbuf_chain_truncates long_mem 1 201 (seq 1 200) (seq 201 100));
    [apply pkt_wfb_sound; vm_compute; reflexivity|apply pkt_wfb_sound; vm_compute; reflexivity| |
     rewrite !length_seq; lia].
  intros x [_ ?]%elem_of_seq [? _]%elem_of_seq. lia.
Defined.
