(* ===== verification/MbufTypes.v ===== *)
(** The packet buffers are well typed: every field of every header stays within the
    width its C type has in [struct rte_mbuf], whatever sequence of the operations of
    rte_mbuf.h and memory.c runs on whatever memory. The proof is a type system for the
    operations: a judgement [typed m] that each construct preserves. *)
From Stdlib Require Import ZArith Lia.
From stdpp Require Import base numbers list gmap.
From S2P Require Import Prelude Mbuf.

#[local] Open Scope Z_scope.

(** The values of an unsigned integer of [w] bits. *)
Definition uint (w x : Z) : Prop := 0 <= x < 2 ^ w.

Lemma uint_wrapu w x : 0 <= w -> uint w (wrapu w x).
Proof. apply wrapu_range. Qed.

Lemma uint_widen v w x : 0 <= v <= w -> uint v x -> uint w x.
Proof. intros Hw [H0 H1]. split; [done|]. pose proof (Z.pow_le_mono_r 2 v w ltac:(lia) ltac:(lia)). lia. Qed.

(** The widths of [struct rte_mbuf]; [hash] is the union of 64 bits. *)
Record mbuf_typed (b : rte_mbuf) : Prop := {
  ty_data_off : uint 16 (data_off b);
  ty_refcnt : uint 16 (refcnt b);
  ty_nb_segs : uint 16 (nb_segs b);
  ty_port : uint 16 (m_port b);
  ty_ol_flags : uint 64 (ol_flags b);
  ty_packet_type : uint 32 (packet_type b);
  ty_pkt_len : uint 32 (pkt_len b);
  ty_data_len : uint 16 (data_len b);
  ty_vlan_tci : uint 16 (vlan_tci b);
  ty_hash : uint 64 (hash b);
  ty_vlan_tci_outer : uint 16 (vlan_tci_outer b);
  ty_buf_len : uint 16 (buf_len b);
  ty_timestamp : uint 64 (timestamp b);
  ty_udata64 : uint 64 (udata64 b);
  ty_tx_offload : uint 64 (tx_offload b);
  ty_priv_size : uint 16 (priv_size b)
}.

Create HintDb typed.
#[export] Hint Resolve uint_wrapu : typed.
#[export] Hint Extern 3 (uint _ _) => (unfold uint; lia) : typed.
#[export] Hint Extern 1 (0 <= _) => lia : typed.

(** ** Assignments *)

(** A function on headers that keeps the types. *)
Definition keeps (f : rte_mbuf -> rte_mbuf) : Prop := forall b, mbuf_typed b -> mbuf_typed (f b).

Section Assign.
Context (b : rte_mbuf) (Hb : mbuf_typed b).

Lemma typed_data_off v : uint 16 v -> mbuf_typed (set_data_off v b).
Proof. intros. destruct Hb. by split. Qed.
Lemma typed_refcnt v : uint 16 v -> mbuf_typed (set_refcnt v b).
Proof. intros. destruct Hb. by split. Qed.
Lemma typed_nb_segs v : uint 16 v -> mbuf_typed (set_nb_segs v b).
Proof. intros. destruct Hb. by split. Qed.
Lemma typed_ol_flags v : uint 64 v -> mbuf_typed (set_ol_flags v b).
Proof. intros. destruct Hb. by split. Qed.
Lemma typed_pkt_len v : uint 32 v -> mbuf_typed (set_pkt_len v b).
Proof. intros. destruct Hb. by split. Qed.
Lemma typed_data_len v : uint 16 v -> mbuf_typed (set_data_len v b).
Proof. intros. destruct Hb. by split. Qed.
Lemma typed_udata64 v : uint 64 v -> mbuf_typed (set_udata64 v b).
Proof. intros. destruct Hb. by split. Qed.
Lemma typed_next v : mbuf_typed (set_m_next v b).
Proof. destruct Hb. by split. Qed.

Lemma typed_headroom : mbuf_typed (reset_headroom b).
Proof. apply typed_data_off. pose proof (ty_buf_len b Hb). unfold uint, RTE_PKTMBUF_HEADROOM in *. lia. Qed.
End Assign.
#[export] Hint Resolve typed_data_off typed_refcnt typed_nb_segs typed_ol_flags typed_pkt_len typed_data_len
  typed_udata64 typed_next typed_headroom : typed.

Lemma keeps_reset : keeps reset_mbuf.
Proof.
  intros b Hb. unfold reset_mbuf. apply typed_data_len; [|by auto with typed]. apply typed_headroom.
  destruct Hb. split; cbn; try done; by auto with typed.
Qed.

Lemma keeps_unlink : keeps unlink_seg.
Proof. intros b Hb. unfold unlink_seg. destruct (m_next b); auto with typed. Qed.

Lemma uint16_u8 x : uint 16 (u8 x).
Proof. apply (uint_widen 8); [lia|]. by apply uint_wrapu. Qed.

Lemma uint32_data_len b : mbuf_typed b -> uint 32 (data_len b).
Proof. intros Hb. apply (uint_widen 16); [lia|]. by apply ty_data_len. Qed.

Lemma uint32_16 x : uint 16 x -> uint 32 x.
Proof. apply uint_widen. lia. Qed.
#[export] Hint Resolve keeps_reset keeps_unlink uint16_u8 uint32_data_len : typed.
#[export] Hint Immediate uint32_16 : typed.

(** ** The judgement *)

Section Judgement.
Context {P : Type} `{Mempool P}.

Definition pool_typed (p : mempool P) : Prop := uint 16 (mbuf_data_room_size p) /\ uint 16 (mbuf_priv_size p).

(** All headers and pools of the memory are well typed. *)
Definition mem_typed (s : mem P) : Prop := map_Forall (fun _ => mbuf_typed) (mbufs s) /\ map_Forall (fun _ => pool_typed) (pools s).

(** [m] keeps the memory well typed and the set of headers, and what it returns satisfies [R]. *)
Definition typed_as {A} (R : A -> Prop) (m : M (mem P) A) : Prop :=
  forall s, mem_typed s -> wlp m (fun a s' => R a /\ mem_typed s' /\ dom (mbufs s') = dom (mbufs s)) s.

Definition typed {A} (m : M (mem P) A) : Prop := typed_as (fun _ => True) m.

Lemma typed_bind {A B} (R : A -> Prop) (Q : B -> Prop) (m : M (mem P) A) (k : A -> M (mem P) B) :
  typed_as R m -> (forall a, R a -> typed_as Q (k a)) -> typed_as Q (m ≫= k).
Proof.
  intros Hm Hk s Hs. rewrite wlp_bind. eapply wlp_mono; [by apply Hm|]. intros a s' (Ha & Hs' & Hd). rewrite <- Hd. by apply Hk.
Qed.

Lemma typed_seq {A B} (Q : B -> Prop) (m : M (mem P) A) (k : A -> M (mem P) B) :
  typed m -> (forall a, typed_as Q (k a)) -> typed_as Q (m ≫= k).
Proof. intros Hm Hk. apply (typed_bind (fun _ => True)); auto. Qed.

Lemma typed_ret {A} (R : A -> Prop) (a : A) : R a -> typed_as R (mret a).
Proof. intros Ha s Hs. by rewrite wlp_ret. Qed.

Lemma typed_diverge {A} (R : A -> Prop) : typed_as R diverge.
Proof. intros s Hs. by rewrite wlp_diverge. Qed.

Lemma typed_fault {A} (R : A -> Prop) : typed_as R fault.
Proof. intros s Hs. by rewrite wlp_fault. Qed.

Lemma typed_load m : typed_as mbuf_typed (load_mbuf m).
Proof.
  intros s [Hb Hp] b s' E. unfold load_mbuf in E. destruct (mbufs s !! m) as [b'|] eqn:Em; [|done].
  injection E as <- <-. split; [by eapply (map_Forall_lookup_1 _ _ _ _ Hb)|done].
Qed.

Lemma typed_load_pool mp : typed_as pool_typed (load_pool mp).
Proof.
  intros s [Hb Hp] p s' E. unfold load_pool in E. destruct (pools s !! mp) as [p'|] eqn:Em; [|done].
  injection E as <- <-. split; [by eapply (map_Forall_lookup_1 _ _ _ _ Hp)|done].
Qed.

Lemma typed_upd m f : keeps f -> typed (upd_mbuf m f).
Proof.
  intros Hf s [Hb Hp] [] s' E. unfold upd_mbuf in E. destruct (mbufs s !! m) as [b'|] eqn:Em; [|done].
  injection E as <-. split_and!; [done| |cbn; by rewrite dom_insert_lookup_L by (by eexists)].
  split; [|done]. cbn [mbufs]. apply map_Forall_insert_2; [|done].
  apply Hf. by eapply (map_Forall_lookup_1 _ _ _ _ Hb).
Qed.

Lemma typed_pool_upd (s : mem P) mp p p' :
  mem_typed s -> pools s !! mp = Some p ->
  mem_typed (Mem (mbufs s) (<[mp := Pool p' (mbuf_data_room_size p) (mbuf_priv_size p)]> (pools s))).
Proof.
  intros [Hb Hp] Em. split; [done|]. cbn [pools]. apply map_Forall_insert_2; [|done].
  by apply (map_Forall_lookup_1 _ _ _ _ Hp Em).
Qed.

Lemma typed_get_bulk mp n : typed (rte_mempool_get_bulk mp n).
Proof.
  intros s Hs r s' E. unfold rte_mempool_get_bulk in E. destruct (pools s !! mp) as [p|] eqn:Em; [|done].
  destruct (mp_get_bulk n (pool_objs p)) as [[bufs p']|]; injection E as <- <-; split_and!; try done. by eapply typed_pool_upd.
Qed.

Lemma typed_put mp m : typed (rte_mempool_put mp m).
Proof.
  intros s Hs r s' E. unfold rte_mempool_put in E. destruct (pools s !! mp) as [p|] eqn:Em; [|done].
  injection E as <- <-; split_and!; try done. by eapply typed_pool_upd.
Qed.
End Judgement.
#[export] Hint Resolve typed_ret typed_diverge typed_fault typed_upd typed_get_bulk typed_put : typed.

(** Checks an operation construct by construct. *)
Ltac check_typed :=
  repeat first
    [ progress cbv beta iota
    | solve [eauto with typed]
    | match goal with
      | |- typed _ => unfold typed
      | |- typed_as (fun _ => True) ?m => change (typed m); solve [eauto with typed]
      | |- typed_as _ (upd_mbuf _ _) => apply typed_upd; intros ? ?; solve [auto with typed]
      | |- typed_as _ (if ?c then _ else _) => destruct c
      | |- typed_as _ (match ?c with _ => _ end) => destruct c
      | |- typed_as _ (_ ≫= _) =>
        first [ eapply typed_bind; [apply typed_load|intros ? ?]
              | eapply typed_bind; [apply typed_load_pool|intros ? ?]
              | eapply typed_seq; [|intros ?] ]
      end ].

(** ** The operations *)

Section Ops.
Context {P : Type} `{Mempool P}.
Abbreviation T m := (@typed P _ m).

Lemma refcnt_read_typed m : typed_as (uint 16) (@rte_mbuf_refcnt_read P m).
Proof. unfold rte_mbuf_refcnt_read. check_typed. by apply typed_ret, ty_refcnt. Qed.

Lemma refcnt_set_typed m v : T (rte_mbuf_refcnt_set m v).
Proof. unfold rte_mbuf_refcnt_set. check_typed. Qed.
Hint Resolve refcnt_read_typed refcnt_set_typed : typed.

Lemma add_return_typed m v : T (rte_atomic16_add_return m v).
Proof. unfold rte_atomic16_add_return. eapply typed_bind; [apply refcnt_read_typed|]. intros c _. check_typed. Qed.
Hint Resolve add_return_typed : typed.

(** The new count is a 16-bit value. *)
Lemma refcnt_update_typed m v : typed_as (uint 16) (@rte_mbuf_refcnt_update P m v).
Proof.
  unfold rte_mbuf_refcnt_update. eapply typed_bind; [apply refcnt_read_typed|]. intros c _. check_typed.
Qed.

Lemma reset_typed m : T (rte_pktmbuf_reset m).
Proof. unfold rte_pktmbuf_reset. check_typed. Qed.
Hint Resolve reset_typed : typed.

Lemma alloc_typed mp : T (rte_pktmbuf_alloc mp).
Proof. unfold rte_pktmbuf_alloc, rte_mbuf_raw_alloc. check_typed. Qed.

Lemma raw_free_typed m : T (rte_mbuf_raw_free m).
Proof. unfold rte_mbuf_raw_free. check_typed. Qed.
Hint Resolve raw_free_typed : typed.

Lemma detached_keeps m p : pool_typed p -> keeps (detached (P := P) m p).
Proof.
  intros [Hr Hp] b Hb. unfold detached. apply typed_ol_flags; [|by auto with typed].
  apply typed_data_len; [|by auto with typed]. apply typed_headroom. destruct Hb. split; cbn; try done. by auto with typed.
Qed.

Lemma detach_typed m : T (rte_pktmbuf_detach m).
Proof.
  unfold rte_pktmbuf_detach, typed. eapply typed_bind; [apply typed_load|]. intros b Hb.
  eapply typed_bind; [apply typed_load_pool|]. intros p Hp.
  eapply typed_seq; [by apply typed_upd, detached_keeps|intros ?].
  eapply typed_bind; [apply refcnt_update_typed|]. intros r _. check_typed.
Qed.
Hint Resolve detach_typed : typed.

Lemma prefree_typed m : T (rte_pktmbuf_prefree_seg m).
Proof. unfold rte_pktmbuf_prefree_seg. check_typed. Qed.
Hint Resolve prefree_typed : typed.

Lemma free_seg_typed m : T (rte_pktmbuf_free_seg m).
Proof. unfold rte_pktmbuf_free_seg. check_typed. Qed.
Hint Resolve free_seg_typed : typed.

Lemma free_loop_typed fuel : forall m, T (free_loop fuel m).
Proof. induction fuel as [|fuel IH]; intros [m|]; cbn [free_loop]; check_typed. Qed.

Lemma free_typed m : T (rte_pktmbuf_free m).
Proof. intros s Hs. by apply free_loop_typed. Qed.

Lemma lastseg_loop_typed fuel : forall m, T (lastseg_loop fuel m).
Proof. induction fuel as [|fuel IH]; intros m; cbn [lastseg_loop]; check_typed. Qed.

Lemma lastseg_typed m : T (rte_pktmbuf_lastseg m).
Proof. intros s Hs. by apply lastseg_loop_typed. Qed.
Hint Resolve free_typed lastseg_typed : typed.

Lemma prepend_typed m l : T (rte_pktmbuf_prepend m l).
Proof. unfold rte_pktmbuf_prepend. check_typed. Qed.

Lemma append_typed m l : T (rte_pktmbuf_append m l).
Proof. unfold rte_pktmbuf_append. check_typed. Qed.

Lemma adj_typed m l : T (rte_pktmbuf_adj m l).
Proof. unfold rte_pktmbuf_adj. check_typed. Qed.

Lemma trim_typed m l : T (rte_pktmbuf_trim m l).
Proof. unfold rte_pktmbuf_trim. check_typed. Qed.

Lemma chain_typed h t : T (rte_pktmbuf_chain h t).
Proof. unfold rte_pktmbuf_chain. check_typed. Qed.

Lemma init_buf_typed bufs l i : uint 16 l -> T (init_buf bufs l i).
Proof. intros Hl. unfold init_buf. check_typed. Qed.
Hint Resolve init_buf_typed : typed.

Lemma duff_body_typed bufs l k : uint 16 l -> forall i, T (duff_body bufs l k i).
Proof. intros Hl. induction k as [|k IH]; intros i; cbn [duff_body]; check_typed. Qed.

Hint Resolve duff_body_typed : typed.

Lemma duff_loop_typed fuel bufs l n : uint 16 l -> forall i, T (duff_loop fuel bufs l n i).
Proof. intros Hl. induction fuel as [|fuel IH]; intros i; cbn [duff_loop]; check_typed. Qed.
Hint Resolve duff_loop_typed : typed.

Lemma alloc_mbufs_typed mp bufs n l : uint 16 l -> T (alloc_mbufs mp bufs n l).
Proof. intros Hl. unfold alloc_mbufs. check_typed. Qed.

(** A call of one of the operations, with its arguments. *)
Inductive call :=
| CAlloc (mp : nat)
| CAllocMbufs (mp : nat) (bufs : list nat) (n pkt_len : Z)
| CFree (m : option nat)
| CFreeSeg (m : nat)
| CRefcnt (m : nat) (value : Z)
| CReset (m : nat)
| CDetach (m : nat)
| CPrepend (m : nat) (len : Z)
| CAppend (m : nat) (len : Z)
| CAdj (m : nat) (len : Z)
| CTrim (m : nat) (len : Z)
| CChain (head tail : nat).

(** The length [alloc_mbufs] is given is of type uint16_t. *)
Definition call_ok (c : call) : Prop := match c with CAllocMbufs _ _ _ l => uint 16 l | _ => True end.

Definition discard {A} (m : M (mem P) A) : M (mem P) unit := _ ← m; mret tt.

Definition run_call (c : call) : M (mem P) unit :=
  match c with
  | CAlloc mp => discard (rte_pktmbuf_alloc_export mp)
  | CAllocMbufs mp bufs n l => discard (alloc_mbufs mp bufs n l)
  | CFree m => rte_pktmbuf_free m
  | CFreeSeg m => rte_pktmbuf_free_seg m
  | CRefcnt m v => discard (rte_mbuf_refcnt_update_export m v)
  | CReset m => rte_pktmbuf_reset m
  | CDetach m => rte_pktmbuf_detach m
  | CPrepend m l => discard (rte_pktmbuf_prepend m l)
  | CAppend m l => discard (rte_pktmbuf_append m l)
  | CAdj m l => discard (rte_pktmbuf_adj_export m l)
  | CTrim m l => discard (rte_pktmbuf_trim_export m l)
  | CChain h t => discard (rte_pktmbuf_chain h t)
  end.

Fixpoint run_calls (cs : list call) : M (mem P) unit :=
  match cs with [] => mret tt | c :: cs => run_call c ;; run_calls cs end.

Lemma discard_typed {A} (R : A -> Prop) (m : M (mem P) A) : typed_as R m -> T (discard m).
Proof. intros Hm. eapply typed_bind; [exact Hm|]. intros a _. by apply typed_ret. Qed.

Lemma run_call_typed c : call_ok c -> T (run_call c).
Proof.
  intros Hc. destruct c; cbn [run_call]; auto with typed; eapply discard_typed;
    first [apply alloc_typed|by apply alloc_mbufs_typed|apply refcnt_update_typed|apply prepend_typed|apply append_typed
          |apply adj_typed|apply trim_typed|apply chain_typed].
Qed.

Lemma run_calls_typed cs : Forall call_ok cs -> T (run_calls cs).
Proof.
  induction 1 as [|c cs Hc _ IH]; cbn [run_calls]; [by apply typed_ret|]. eapply typed_seq; [by apply run_call_typed|]. done.
Qed.
End Ops.


(** ** An example *)

(** Two buffers of 60 bytes in a pool: one is allocated, extended by 40 bytes, cut by 10
    and freed. *)
Definition typed_demo : mem (list nat) :=
  let b m := Mbuf m 128 1 1 255 0 0 60 60 0 0 0 2048 0 0 0 None 0 0 in
  Mem {[1%nat := b 1%nat; 2%nat := b 2%nat]} {[0%nat := Pool [1; 2]%nat 2048 0]}.

Definition typed_calls : list call :=
  [CAllocMbufs 0 [0%nat] 1 60; CAppend 1 40; CAdj 1 10; CChain 1 2; CFree (Some 1%nat)].

Lemma typed_demo_ok : mem_typed typed_demo.
Proof.
  split; cbn [typed_demo mbufs pools].
  - repeat (apply map_Forall_insert_2; [split; unfold uint; cbn; lia|]). apply map_Forall_empty.
  - apply map_Forall_singleton. split; unfold uint; cbn; lia.
Qed.

