(* ===== verification/Device.v ===== *)
(** libmoon/src/device.c: the send and receive loops; and
    MoonGen/src/software-timestamping.c.

    The poll-mode driver behind [rte_eth_tx_burst] and [rte_eth_rx_burst], the
    time-stamp counter and the run flag of lifecycle.cpp are the environment of
    these loops: a class of operations with the laws the loops rely on. *)
From Stdlib Require Import ZArith Lia.
From stdpp Require Import base numbers list gmap strings pretty.
From S2P Require Import Prelude Double RudeXmit Mbuf.

#[local] Open Scope Z_scope.

(** ** The environment *)

(** [sent e port queue] are the packets the queue has accepted so far. *)
Class Nic (E : Type) := {
  rte_eth_tx_burst : Z -> Z -> list nat -> E -> Z * E;
  rte_eth_rx_burst : Z -> Z -> Z -> E -> list nat * E;
  is_running : Z -> E -> bool * E;
  read_rdtsc : E -> Z * E;
  sent : E -> Z -> Z -> list nat
}.

(** The driver accepts a prefix of the burst and hands out at most the packets
    asked for. [patience] bounds how often in a row it accepts or delivers
    nothing while the program runs. *)
Class NicLaws (E : Type) `{Nic E} := {
  patience : E -> nat;
  tx_burst_prefix port queue pkts e n e' :
    rte_eth_tx_burst port queue pkts e = (n, e') ->
    0 <= n <= Z.of_nat (length pkts) /\
    sent e' port queue = sent e port queue ++ take (Z.to_nat n) pkts /\
    forall p q, (p, q) <> (port, queue) -> sent e' p q = sent e p q;
  tx_burst_patience port queue pkts e e' :
    pkts <> [] -> rte_eth_tx_burst port queue pkts e = (0, e') -> (patience e' < patience e)%nat;
  rx_burst_bound port queue n e pkts e' :
    0 <= n -> rte_eth_rx_burst port queue n e = (pkts, e') -> Z.of_nat (length pkts) <= n;
  rx_burst_patience port queue n e e' :
    0 < n -> rte_eth_rx_burst port queue n e = ([], e') -> (patience e' < patience e)%nat;
  is_running_frame extra e b e' :
    is_running extra e = (b, e') -> sent e' = sent e /\ patience e' = patience e;
  read_rdtsc_frame e t e' :
    read_rdtsc e = (t, e') -> sent e' = sent e /\ patience e' = patience e
}.

Section Loops.
Context {P : Type} `{Mempool P} {E : Type} `{Nic E}.

(** The mbuf headers, the bytes of the buffers (by the mbuf that embeds them) and
    the environment. *)
Record world := World { w_mem : mem P; w_bufs : gmap nat (list Z); w_env : E }.

Definition in_mem {A} (m : M (mem P) A) : M world A := fun w =>
  match m (w_mem w) with
  | Ret (a, s) => Ret (a, World s (w_bufs w) (w_env w))
  | Fault => Fault
  | Diverge => Diverge
  end.

Definition in_env {A} (f : E -> A * E) : M world A := fun w =>
  let '(a, e) := f (w_env w) in Ret (a, World (w_mem w) (w_bufs w) e).

(** ** Sending *)

Fixpoint send_all_loop (fuel : nat) (port_id queue_id : Z) (pkts : list nat) (sent : Z) : M world unit :=
  match fuel with
  | O => diverge
  | S fuel =>
    n ← in_env (rte_eth_tx_burst port_id queue_id (drop (Z.to_nat sent) pkts));
    let sent := u32 (sent + n) in
    if Z.of_nat (length pkts) <=? sent then mret tt
    else send_all_loop fuel port_id queue_id pkts sent
  end.

(** [pkts] are the [num_pkts] pointers of the array. *)
Definition dpdk_send_all_packets (fuel : nat) (port_id queue_id : Z) (pkts : list nat) : M world unit :=
  send_all_loop fuel port_id queue_id pkts 0.

Fixpoint dpdk_send_single_packet (fuel : nat) (port_id queue_id : Z) (pkt : nat) : M world unit :=
  match fuel with
  | O => diverge
  | S fuel =>
    sent ← in_env (rte_eth_tx_burst port_id queue_id [pkt]);
    if 0 <? sent then mret tt else dpdk_send_single_packet fuel port_id queue_id pkt
  end.

Definition dpdk_try_send_single_packet (port_id queue_id : Z) (pkt : nat) : M world Z :=
  sent ← in_env (rte_eth_tx_burst port_id queue_id [pkt]); mret (u16 sent).

(** ** Receiving with software timestamps *)

(** [rte_get_tsc_hz() / 10000000.0 / 0.8] *)
Definition cycles_per_byte (tsc_hz : Z) : Z :=
  u32 (trunc (div_double (of_quot tsc_hz 10000000) (of_quot 8 10))).

Fixpoint stamp_loop (tsc cpb prev_pkt_size : Z) (rx_pkts : list nat) : M world unit :=
  match rx_pkts with
  | [] => mret tt
  | m :: rest =>
    in_mem (upd_mbuf m (set_udata64 (u64 (tsc + u32 (prev_pkt_size * cpb))))) ;;
    b ← in_mem (load_mbuf m);
    stamp_loop tsc cpb (u16 (pkt_len b + 24)) rest
  end.

Fixpoint receive_loop (fuel : nat) (port_id queue_id nb_pkts cpb : Z) : M world (list nat) :=
  match fuel with
  | O => diverge
  | S fuel =>
    running ← in_env (is_running 0);
    if negb running then mret []
    else
      tsc ← in_env read_rdtsc;
      rx ← in_env (rte_eth_rx_burst port_id queue_id nb_pkts);
      stamp_loop tsc cpb 0 rx ;;
      if 0 <? Z.of_nat (length rx) then mret rx
      else receive_loop fuel port_id queue_id nb_pkts cpb
  end.

Definition dpdk_receive_with_timestamps_software (fuel : nat) (tsc_hz port_id queue_id nb_pkts : Z) :
    M world (list nat) :=
  receive_loop fuel port_id queue_id nb_pkts (cycles_per_byte tsc_hz).

(** ** Sending with a timestamp (MoonGen/src/software-timestamping.c) *)

(** [rte_pktmbuf_mtod_offset(pkt, uint64_t*, 0)[offs] = v] *)
Definition store64 (pkt : nat) (offs v : Z) : M world unit := fun w =>
  match mbufs (w_mem w) !! pkt with
  | None => Fault
  | Some b =>
    match w_bufs w !! buf_addr b with
    | None => Fault
    | Some buf =>
      let off := Z.to_nat (data_off b + 8 * offs) in
      if (off + 8 <=? length buf)%nat then
        Ret (tt, World (w_mem w) (<[buf_addr b := splice off (le_bytes 8 v) buf]> (w_bufs w)) (w_env w))
      else Fault
    end
  end.

Fixpoint moongen_send_packet_with_timestamp (fuel : nat) (port_id queue_id : Z) (pkt : nat) (offs : Z) :
    M world unit :=
  match fuel with
  | O => diverge
  | S fuel =>
    running ← in_env (is_running 0);
    if negb running then mret tt
    else
      tsc ← in_env read_rdtsc;
      store64 pkt offs tsc ;;
      n ← in_env (rte_eth_tx_burst port_id queue_id [pkt]);
      if n =? 1 then mret tt
      else moongen_send_packet_with_timestamp fuel port_id queue_id pkt offs
  end.
End Loops.

Arguments world P E : clear implicits.
