(* ===== verification/DeviceSpec.v ===== *)
(** The loops of libmoon/src/device.c and MoonGen/src/software-timestamping.c:
    every packet handed to a send loop reaches the queue exactly once and in
    order, and the timestamps are those of the burst they were taken for. *)
From Stdlib Require Import ZArith Lia.
From stdpp Require Import base numbers list gmap sets.
From S2P Require Import Prelude RudeXmit Mbuf MbufSpec Device.

#[local] Open Scope Z_scope.

Section Loops.
Context {P : Type} `{Mempool P} {E : Type} `{NicLaws E}.
Implicit Types w : world P E.

Lemma wp_in_env {A} (f : E -> A * E) Q w :
  wp (in_env f) Q w <->
  exists a e, f (w_env w) = (a, e) /\ Q a (World (w_mem w) (w_bufs w) e).
Proof. unfold wp, in_env. destruct (f (w_env w)) as [a e]. naive_solver. Qed.

Lemma wp_in_mem {A} (m : M (mem P) A) Q w :
  wp (in_mem m) Q w <-> wp m (fun a s => Q a (World s (w_bufs w) (w_env w))) (w_mem w).
Proof. unfold wp, in_mem. destruct (m (w_mem w)) as [[a s]| |]; done. Qed.

(** [w'] is [w] after queue [(port, queue)] accepted [pkts]. *)
Definition enqueued w (port queue : Z) (pkts : list nat) w' : Prop :=
  w_mem w' = w_mem w /\ w_bufs w' = w_bufs w /\
  sent (w_env w') port queue = sent (w_env w) port queue ++ pkts /\
  forall p q, (p, q) <> (port, queue) -> sent (w_env w') p q = sent (w_env w) p q.

(** ** Induction over the driver's patience *)

(** A loop that makes progress on [r] or uses up patience terminates. *)
Lemma patience_ind (R : nat -> E -> Prop) :
  (forall r e, (forall r' e', (r' < r)%nat -> R r' e') ->
               (forall e', (patience e' < patience e)%nat -> R r e') -> R r e) ->
  forall r e, R r e.
Proof.
  intros Hstep r. induction (lt_wf r) as [r _ IHr]. intros e.
  remember (patience e) as n eqn:En. revert e En.
  induction (lt_wf n) as [n _ IHn]. intros e ->. apply Hstep; [auto|]. intros e' He. by eapply IHn.
Qed.

Lemma send_all_loop_spec port queue pkts :
  Z.of_nat (length pkts) < 65536 ->
  forall r e k m bs, r = (length pkts - k)%nat -> (k < length pkts)%nat ->
  exists fuel0, forall fuel, (fuel0 <= fuel)%nat ->
    wp (send_all_loop fuel port queue pkts (Z.of_nat k))
       (fun _ => enqueued (World m bs e) port queue (drop k pkts)) (World m bs e).
Proof.
  intros Hl. refine (patience_ind _ _). intros r e IHr IHp k m bs -> Hk.
  destruct (rte_eth_tx_burst port queue (drop k pkts) e) as [n e'] eqn:Etx.
  pose proof (tx_burst_prefix _ _ _ _ _ _ Etx) as (Hn & Hs & Ho). rewrite length_drop in Hn.
  assert (Hstep : forall Q fuel, wp (if Z.of_nat (length pkts) <=? Z.of_nat (k + Z.to_nat n) then mret tt
      else send_all_loop fuel port queue pkts (Z.of_nat (k + Z.to_nat n))) Q (World m bs e') ->
    wp (send_all_loop (S fuel) port queue pkts (Z.of_nat k)) Q (World m bs e)).
  { intros Q fuel Hw. cbn [send_all_loop]. rewrite wp_bind, wp_in_env. exists n, e'.
    rewrite Nat2Z.id. split; [done|]. cbv zeta. rewrite wrapu_small by lia.
    by replace (Z.of_nat k + n) with (Z.of_nat (k + Z.to_nat n)) by lia. }
  destruct (decide (Z.of_nat (length pkts) <= Z.of_nat (k + Z.to_nat n))) as [Hdone|Hmore].
  - exists 1%nat. intros [|fuel] Hf; [lia|]. apply Hstep.
    destruct (Z.leb_spec (Z.of_nat (length pkts)) (Z.of_nat (k + Z.to_nat n))); [|lia].
    apply wp_ret. split_and!; [done..| |done]. simpl. rewrite Hs, take_ge; [done|].
    rewrite length_drop. lia.
  - assert (exists fuel0, forall fuel, (fuel0 <= fuel)%nat ->
      wp (send_all_loop fuel port queue pkts (Z.of_nat (k + Z.to_nat n)))
        (fun _ => enqueued (World m bs e') port queue (drop (k + Z.to_nat n) pkts)) (World m bs e'))
      as [fuel0 Hfuel].
    { destruct (decide (n = 0)) as [->|].
      - rewrite Nat.add_0_r. eapply IHp; [|done|done]. eapply tx_burst_patience; [|exact Etx].
        intros E0. apply (f_equal length) in E0. rewrite length_drop in E0. simpl in E0. lia.
      - apply (IHr (length pkts - (k + Z.to_nat n))%nat); [lia|done|lia]. }
    exists (S fuel0). intros [|fuel] Hf; [lia|]. apply Hstep.
    destruct (Z.leb_spec (Z.of_nat (length pkts)) (Z.of_nat (k + Z.to_nat n))); [lia|].
    eapply wp_mono; [apply Hfuel; lia|]. intros _ w' (Hm & Hb & Hw & Hq). simpl in *.
    split_and!; [done..| |].
    + rewrite Hw. simpl. rewrite Hs, <- app_assoc, <- drop_drop, take_drop. done.
    + intros p q Hpq. by rewrite Hq, Ho.
Qed.

(** Sending all packets of an array. *)
Lemma send_all_spec port queue pkts w :
  Z.of_nat (length pkts) < 65536 ->
  exists fuel0, forall fuel, (fuel0 <= fuel)%nat ->
    wp (dpdk_send_all_packets fuel port queue pkts) (fun _ => enqueued w port queue pkts) w.
Proof.
  intros Hl. destruct w as [m bs e]. destruct pkts as [|x pkts].
  - exists 1%nat. intros [|fuel] Hf; [lia|]. unfold dpdk_send_all_packets. cbn [send_all_loop].
    rewrite wp_bind, wp_in_env. destruct (rte_eth_tx_burst port queue [] e) as [n e'] eqn:Etx.
    pose proof (tx_burst_prefix _ _ _ _ _ _ Etx) as (Hn & Hs & Ho). simpl in Hn.
    exists n, e'. split; [by rewrite drop_nil|]. cbv zeta. assert (n = 0) as -> by lia. simpl.
    apply wp_ret. split_and!; [done..| |done]. simpl. by rewrite Hs.
  - eapply (send_all_loop_spec port queue (x :: pkts) Hl _ e 0 m bs); [done|simpl; lia].
Qed.

Lemma send_single_spec port queue pkt : forall e m bs,
  exists fuel0, forall fuel, (fuel0 <= fuel)%nat ->
    wp (dpdk_send_single_packet fuel port queue pkt)
       (fun _ => enqueued (World m bs e) port queue [pkt]) (World m bs e).
Proof.
  enough (Hgen : forall r e m bs, r = 0%nat -> exists fuel0, forall fuel, (fuel0 <= fuel)%nat ->
    wp (dpdk_send_single_packet fuel port queue pkt)
       (fun _ => enqueued (World m bs e) port queue [pkt]) (World m bs e)) by eauto.
  refine (patience_ind _ _). intros r e _ IHp m bs ->.
  destruct (rte_eth_tx_burst port queue [pkt] e) as [n e'] eqn:Etx.
  pose proof (tx_burst_prefix _ _ _ _ _ _ Etx) as (Hn & Hs & Ho). simpl in Hn.
  destruct (decide (0 < n)).
  - exists 1%nat. intros [|fuel] Hf; [lia|]. cbn [dpdk_send_single_packet].
    rewrite wp_bind, wp_in_env. exists n, e'. split; [done|].
    destruct (Z.ltb_spec 0 n); [|lia]. apply wp_ret. split_and!; [done..| |done].
    simpl. by replace n with 1 in Hs by lia.
  - assert (n = 0) as -> by lia.
    destruct (IHp e' ltac:(eapply (tx_burst_patience port queue [pkt]); [done|exact Etx]) m bs eq_refl) as [fuel0 Hfuel].
    exists (S fuel0). intros [|fuel] Hf; [lia|]. cbn [dpdk_send_single_packet].
    rewrite wp_bind, wp_in_env. exists 0, e'. split; [done|]. simpl.
    eapply wp_mono; [apply Hfuel; lia|]. intros _ w' (Hm & Hb & Hw & Hq). simpl in *.
    rewrite app_nil_r in Hs. split_and!; [done..| |]; simpl.
    + by rewrite Hw, Hs.
    + intros p q Hpq. by rewrite Hq, Ho.
Qed.

(** The send loops of device.c. [dpdk_send_all_packets] returns, and every
    packet of the array has then been accepted by the queue exactly once and in
    the array's order; [dpdk_send_single_packet] likewise for its packet;
    [dpdk_try_send_single_packet] reports whether the packet was accepted. Nothing
    else changes. *)
Theorem send_loops_correct w (port queue : Z) (pkts : list nat) (pkt : nat) :
  Z.of_nat (length pkts) < 65536 ->
  (exists fuel0, forall fuel, (fuel0 <= fuel)%nat -> exists w',
     dpdk_send_all_packets fuel port queue pkts w = Ret (tt, w') /\ enqueued w port queue pkts w') /\
  (exists fuel0, forall fuel, (fuel0 <= fuel)%nat -> exists w',
     dpdk_send_single_packet fuel port queue pkt w = Ret (tt, w') /\ enqueued w port queue [pkt] w') /\
  (exists n w', dpdk_try_send_single_packet port queue pkt w = Ret (n, w') /\
     (n = 0 /\ enqueued w port queue [] w' \/ n = 1 /\ enqueued w port queue [pkt] w')).
Proof.
  intros Hl. split_and!.
  - destruct (send_all_spec port queue pkts w Hl) as [fuel0 Hf]. exists fuel0. intros fuel Hle.
    apply Hf, wp_run in Hle as ([] & w' & ? & ?). eauto.
  - destruct w as [m bs e]. destruct (send_single_spec port queue pkt e m bs) as [fuel0 Hf].
    exists fuel0. intros fuel Hle. apply Hf, wp_run in Hle as ([] & w' & ? & ?). eauto.
  - unfold dpdk_try_send_single_packet, mbind, M_bind, in_env.
    destruct (rte_eth_tx_burst port queue [pkt] (w_env w)) as [n e'] eqn:Etx.
    pose proof (tx_burst_prefix _ _ _ _ _ _ Etx) as (Hn & Hs & Ho). simpl in Hn.
    eexists _, _. split; [done|]. assert (n = 0 \/ n = 1) as [->| ->] by lia; [left|right];
      (split; [done|]); split_and!; try done; simpl in *; rewrite Hs; by rewrite ?app_nil_r.
Qed.

(** ** Timestamps on reception *)

(** The mbufs after [stamp_loop]: each packet of the burst carries the time the
    burst was read plus the time the preceding packet took on the wire. *)
Fixpoint stamped (tsc cpb prev : Z) (pkts : list nat) (h : gmap nat rte_mbuf) : gmap nat rte_mbuf :=
  match pkts with
  | [] => h
  | m :: rest =>
    stamped tsc cpb (match h !! m with Some b => u16 (pkt_len b + 24) | None => 0 end) rest
      (alter (set_udata64 (u64 (tsc + u32 (prev * cpb)))) m h)
  end.

Lemma stamp_loop_spec tsc cpb pkts : forall prev (m : mem P) bs (e : E),
  Forall (fun x => is_Some (mbufs m !! x)) pkts ->
  stamp_loop tsc cpb prev pkts (World m bs e) =
  Ret (tt, World (Mem (stamped tsc cpb prev pkts (mbufs m)) (pools m)) bs e).
Proof.
  induction pkts as [|x pkts IH]; intros prev m bs e Hall; [by destruct m|].
  apply Forall_cons in Hall as [[b Hb] Hall]. cbn [stamp_loop stamped].
  unfold mbind, M_bind, in_mem, upd_mbuf, load_mbuf. cbn [w_mem w_bufs w_env]. rewrite Hb.
  cbn [mbufs pools w_mem w_bufs w_env]. rewrite lookup_insert_eq, IH.
  - cbn [mbufs pools pkt_len set_udata64]. by rewrite (alter_present _ _ _ b Hb).
  - eapply Forall_impl; [exact Hall|]. intros y Hy. simpl. apply lookup_insert_is_Some'. by right.
Qed.

Lemma stamped_out tsc cpb pkts : forall prev h m,
  m ∉ pkts -> stamped tsc cpb prev pkts h !! m = h !! m.
Proof.
  induction pkts as [|x pkts IH]; intros prev h m Hm; [done|]. cbn [stamped].
  rewrite IH by set_solver. apply lookup_alter_ne. set_solver.
Qed.

(** The bytes a packet occupies on the wire, as the code counts them. *)
Definition wire_len (h : gmap nat rte_mbuf) (m : option nat) : Z :=
  match m with
  | Some m => match h !! m with Some b => u16 (pkt_len b + 24) | None => 0 end
  | None => 0
  end.

(** The timestamp of packet [i] of the burst. *)
Lemma stamped_lookup tsc cpb pkts : forall prev h i m,
  NoDup pkts -> Forall (fun x => is_Some (h !! x)) pkts -> pkts !! i = Some m ->
  exists b, h !! m = Some b /\
    stamped tsc cpb prev pkts h !! m =
      Some (set_udata64 (u64 (tsc + u32 (match i with
        | O => prev
        | S j => wire_len h (pkts !! j)
        end * cpb))) b).
Proof.
  induction pkts as [|x pkts IH]; intros prev h i m Hnd Hall Hi; [done|].
  apply NoDup_cons in Hnd as [Hx Hnd]. apply Forall_cons in Hall as [[b Hb] Hall].
  cbn [stamped]. rewrite Hb. destruct i as [|i].
  - injection Hi as <-. exists b. split; [done|]. by rewrite stamped_out, lookup_alter_eq, Hb by done.
  - simpl in Hi. pose proof (list_elem_of_lookup_2 _ _ _ Hi) as Hm.
    set (h1 := alter _ x h). destruct (IH (u16 (pkt_len b + 24)) h1 i m Hnd) as (b1 & Hb1 & Hs).
    { eapply Forall_impl; [exact Hall|]. intros y Hy. subst h1. by rewrite lookup_alter_is_Some. }
    { done. }
    subst h1. rewrite lookup_alter_ne in Hb1 by (intros ->; done). exists b1. split; [done|].
    rewrite Hs. do 5 f_equal. destruct i as [|j]; unfold wire_len; simpl; [by rewrite Hb|].
    destruct (pkts !! j) as [m'|] eqn:Ej; [|done].
    rewrite lookup_alter_ne; [done|]. intros ->. apply list_elem_of_lookup_2 in Ej. done.
Qed.

(** The driver hands out distinct mbufs of the store [h]. *)
Definition rx_backed (h : gmap nat rte_mbuf) : Prop :=
  forall port queue n e pkts e', rte_eth_rx_burst port queue n e = (pkts, e') ->
    NoDup pkts /\ Forall (fun x => is_Some (h !! x)) pkts.

(** What [dpdk_receive_with_timestamps_software] returns. *)
Definition received (w : world P E) (port queue nb cpb : Z) (pkts : list nat) (w' : world P E) : Prop :=
  (pkts = [] /\ w_mem w' = w_mem w /\ exists e, is_running 0 e = (false, w_env w')) \/
  (0 < Z.of_nat (length pkts) <= nb /\ exists e0 tsc e1,
     read_rdtsc e0 = (tsc, e1) /\ rte_eth_rx_burst port queue nb e1 = (pkts, w_env w') /\
     (forall i m, pkts !! i = Some m -> exists b, mbufs (w_mem w) !! m = Some b /\
        mbufs (w_mem w') !! m = Some (set_udata64 (u64 (tsc + u32 (match i with
          | O => 0
          | S j => wire_len (mbufs (w_mem w)) (pkts !! j)
          end * cpb))) b)) /\
     (forall m, m ∉ pkts -> mbufs (w_mem w') !! m = mbufs (w_mem w) !! m)).

Lemma receive_loop_spec port queue nb cpb (m : mem P) :
  0 < nb -> rx_backed (mbufs m) -> forall (e : E) bs, exists fuel0, forall fuel, (fuel0 <= fuel)%nat ->
  wp (receive_loop fuel port queue nb cpb) (fun pkts w' => received (World m bs e) port queue nb cpb pkts w')
     (World m bs e).
Proof.
  intros Hnb Hrx.
  enough (Hgen : forall r (e : E) bs, r = 0%nat -> exists fuel0, forall fuel, (fuel0 <= fuel)%nat ->
    wp (receive_loop fuel port queue nb cpb)
      (fun pkts w' => received (World m bs e) port queue nb cpb pkts w') (World m bs e)) by eauto.
  refine (patience_ind _ _). intros r e _ IHp bs ->.
  destruct (is_running 0 e) as [b e1] eqn:Er. destruct (is_running_frame _ _ _ _ Er) as [_ Hp1].
  destruct (read_rdtsc e1) as [tsc e2] eqn:Et. destruct (read_rdtsc_frame _ _ _ Et) as [_ Hp2].
  destruct (rte_eth_rx_burst port queue nb e2) as [pkts e3] eqn:Erx.
  destruct (Hrx _ _ _ _ _ _ Erx) as [Hnd Hall].
  assert (Hrun : forall fuel Q, wp (if negb b then mret [] else
      if 0 <? Z.of_nat (length pkts) then mret pkts else receive_loop fuel port queue nb cpb) Q
      (if negb b then World m bs e1 else
       World (Mem (stamped tsc cpb 0 pkts (mbufs m)) (pools m)) bs e3) ->
    wp (receive_loop (S fuel) port queue nb cpb) Q (World m bs e)).
  { intros fuel Q HQ. cbn [receive_loop]. rewrite wp_bind, wp_in_env. exists b, e1. split; [done|].
    destruct b; [|exact HQ]. simpl in HQ |- *. rewrite wp_bind, wp_in_env. exists tsc, e2. split; [done|].
    rewrite wp_bind, wp_in_env. exists pkts, e3. split; [done|]. rewrite wp_bind.
    unfold wp at 1. cbn [w_mem w_bufs]. by rewrite stamp_loop_spec. }
  destruct b; [destruct (decide (pkts = [])) as [->|Hne]|].
  - destruct (IHp e3 ltac:(rewrite <- Hp1, <- Hp2; by eapply rx_burst_patience) bs eq_refl) as [fuel0 Hf].
    exists (S fuel0). intros [|fuel] Hle; [lia|]. apply Hrun. cbn.
    destruct m as [h ps]. apply Hf. lia.
  - exists 1%nat. intros [|fuel] Hle; [lia|]. apply Hrun. cbn [negb].
    assert (0 < Z.of_nat (length pkts)) by (destruct pkts; simpl; [done|lia]).
    destruct (Z.ltb_spec 0 (Z.of_nat (length pkts))); [|lia]. apply wp_ret. right.
    split; [split; [done|eapply rx_burst_bound; [|exact Erx]; lia]|]. exists e1, tsc, e2. split_and!; [done..| |].
    + intros i x Hi. by apply stamped_lookup.
    + intros x Hx. by apply stamped_out.
  - exists 1%nat. intros [|fuel] Hle; [lia|]. apply Hrun. apply wp_ret. left. eauto.
Qed.

(** [dpdk_receive_with_timestamps_software] returns: either no packet because
    the program stops, with nothing changed, or a burst whose packets each carry
    the counter read just before the burst plus the wire time of the packet before
    it in the burst; no other mbuf changes. *)
Theorem receive_timestamps_correct (w : world P E) (tsc_hz port queue nb : Z) :
  0 < nb -> rx_backed (mbufs (w_mem w)) ->
  exists fuel0, forall fuel, (fuel0 <= fuel)%nat -> exists pkts w',
    dpdk_receive_with_timestamps_software fuel tsc_hz port queue nb w = Ret (pkts, w') /\
    received w port queue nb (cycles_per_byte tsc_hz) pkts w'.
Proof.
  intros Hnb Hrx. destruct w as [m bs e].
  destruct (receive_loop_spec port queue nb (cycles_per_byte tsc_hz) m Hnb Hrx e bs) as [fuel0 Hf].
  exists fuel0. intros fuel Hle. apply Hf, wp_run in Hle as (pkts & w' & ? & ?). eauto.
Qed.

(** ** Timestamps on sending *)

Lemma splice_splice off a b buf :
  length a = length b -> (off + length b <= length buf)%nat ->
  splice off a (splice off b buf) = splice off a buf.
Proof.
  intros Hab Hl. unfold splice.
  assert (length (take off buf) = off) as Ht by (rewrite length_take; lia).
  rewrite take_app_length' by done. f_equal. f_equal.
  rewrite drop_app_ge, Ht by lia. rewrite drop_app_ge, drop_drop by lia. f_equal. lia.
Qed.

(** The packet's buffer, with [v] stored at the 64-bit word [offs] of its data. *)
Definition with_word (b : rte_mbuf) (offs v : Z) (buf : list Z) : list Z :=
  splice (Z.to_nat (data_off b + 8 * offs)) (le_bytes 8 v) buf.

(** What [moongen_send_packet_with_timestamp] achieves. *)
Definition stamp_sent (m : mem P) bs e (port queue : Z) (pkt : nat) (b : rte_mbuf) (buf : list Z)
    (offs : Z) (w' : world P E) : Prop :=
  w_mem w' = m /\
  (forall p q, (p, q) <> (port, queue) -> sent (w_env w') p q = sent e p q) /\
  ((sent (w_env w') port queue = sent e port queue /\ exists e0, is_running 0 e0 = (false, w_env w')) \/
   (sent (w_env w') port queue = sent e port queue ++ [pkt] /\ exists e0 tsc e1,
      read_rdtsc e0 = (tsc, e1) /\ rte_eth_tx_burst port queue [pkt] e1 = (1, w_env w') /\
      w_bufs w' = <[buf_addr b := with_word b offs tsc buf]> bs)).

Lemma stamp_send_spec port queue pkt offs (m : mem P) b bs buf :
  mbufs m !! pkt = Some b -> bs !! buf_addr b = Some buf ->
  (Z.to_nat (data_off b + 8 * offs) + 8 <= length buf)%nat ->
  forall (e : E) bs', (bs' = bs \/ exists v, bs' = <[buf_addr b := with_word b offs v buf]> bs) ->
  exists fuel0, forall fuel, (fuel0 <= fuel)%nat ->
  wp (moongen_send_packet_with_timestamp fuel port queue pkt offs)
     (fun _ w' => stamp_sent m bs e port queue pkt b buf offs w') (World m bs' e).
Proof.
  intros Hb Hbuf Hoff.
  enough (Hgen : forall r (e : E) bs', r = 0%nat ->
    (bs' = bs \/ exists v, bs' = <[buf_addr b := with_word b offs v buf]> bs) ->
    exists fuel0, forall fuel, (fuel0 <= fuel)%nat ->
    wp (moongen_send_packet_with_timestamp fuel port queue pkt offs)
      (fun _ w' => stamp_sent m bs e port queue pkt b buf offs w') (World m bs' e)) by eauto.
  refine (patience_ind _ _). intros r e _ IHp bs' -> Hbs.
  destruct (is_running 0 e) as [run e1] eqn:Er. destruct (is_running_frame _ _ _ _ Er) as [Hs1 Hp1].
  destruct (read_rdtsc e1) as [tsc e2] eqn:Et. destruct (read_rdtsc_frame _ _ _ Et) as [Hs2 Hp2].
  destruct (rte_eth_tx_burst port queue [pkt] e2) as [n e3] eqn:Etx.
  pose proof (tx_burst_prefix _ _ _ _ _ _ Etx) as (Hn & Hs & Ho). simpl in Hn.
  rewrite Hs2, Hs1 in Hs, Ho.
  set (bs1 := <[buf_addr b := with_word b offs tsc buf]> bs).
  assert (Hrun : forall fuel Q, wp (if negb run then mret tt else if n =? 1 then mret tt else
      moongen_send_packet_with_timestamp fuel port queue pkt offs) Q
      (if negb run then World m bs' e1 else World m bs1 e3) ->
    wp (moongen_send_packet_with_timestamp (S fuel) port queue pkt offs) Q (World m bs' e)).
  { intros fuel Q HQ. cbn [moongen_send_packet_with_timestamp]. rewrite wp_bind, wp_in_env.
    exists run, e1. split; [done|]. destruct run; [|exact HQ]. cbn [negb] in HQ |- *.
    rewrite wp_bind, wp_in_env. exists tsc, e2. split; [done|]. rewrite wp_bind.
    unfold wp at 1, store64. cbn [w_mem w_bufs w_env]. rewrite Hb.
    assert (exists buf1, bs' !! buf_addr b = Some buf1 /\ length buf1 = length buf /\
      <[buf_addr b := with_word b offs tsc buf1]> bs' = bs1) as (buf1 & -> & Hl1 & E1).
    { destruct Hbs as [->|[v ->]]; [by exists buf|]. exists (with_word b offs v buf).
      rewrite lookup_insert_eq, insert_insert_eq. split_and!; [done|by apply length_splice|].
      subst bs1. unfold with_word. by rewrite splice_splice. }
    rewrite Hl1. destruct (Nat.leb_spec (Z.to_nat (data_off b + 8 * offs) + 8) (length buf)); [|lia].
    rewrite wp_bind, wp_in_env. exists n, e3. split; [done|]. fold (with_word b offs tsc buf1).
    rewrite E1. exact HQ. }
  destruct run; [destruct (decide (n = 0)) as [->|Hne]|].
  - destruct (IHp e3 ltac:(rewrite <- Hp1, <- Hp2; by eapply (tx_burst_patience port queue [pkt])) bs1)
      as [fuel0 Hf]; [done|eauto|].
    exists (S fuel0). intros [|fuel] Hle; [lia|]. apply Hrun. cbn [negb].
    eapply wp_mono; [apply Hf; lia|]. intros _ w' (Hm & Hq & Hor). simpl in Hs. rewrite app_nil_r in Hs.
    split_and!; [done| |by rewrite Hs in Hor]. intros p q Hpq. by rewrite Hq, Ho.
  - exists 1%nat. intros [|fuel] Hle; [lia|]. apply Hrun. cbn [negb]. assert (n = 1) as -> by lia.
    apply wp_ret. split_and!; [done|done|]. right. split; [done|]. exists e1, tsc, e2. done.
  - exists 1%nat. intros [|fuel] Hle; [lia|]. apply Hrun. apply wp_ret.
    split_and!; [done|by intros; simpl; rewrite Hs1|]. left. simpl. rewrite Hs1. eauto.
Qed.

(** [moongen_send_packet_with_timestamp] returns; either the program stopped
    before a descriptor was free and the packet is not queued, or the packet is
    queued exactly once and its data holds, at the given 64-bit word, the counter
    read immediately before the burst that accepted it, whatever was stored by
    earlier attempts. *)
Theorem send_timestamp_correct (w : world P E) (port queue : Z) (pkt : nat) (offs : Z)
    (b : rte_mbuf) (buf : list Z) :
  mbufs (w_mem w) !! pkt = Some b -> w_bufs w !! buf_addr b = Some buf ->
  (Z.to_nat (data_off b + 8 * offs) + 8 <= length buf)%nat ->
  exists fuel0, forall fuel, (fuel0 <= fuel)%nat -> exists w',
    moongen_send_packet_with_timestamp fuel port queue pkt offs w = Ret (tt, w') /\
    stamp_sent (w_mem w) (w_bufs w) (w_env w) port queue pkt b buf offs w'.
Proof.
  intros Hb Hbuf Hoff. destruct w as [m bs e].
  destruct (stamp_send_spec port queue pkt offs m b bs buf Hb Hbuf Hoff e bs (or_introl eq_refl))
    as [fuel0 Hf].
  exists fuel0. intros fuel Hle. apply Hf, wp_run in Hle as ([] & w' & ? & ?). eauto.
Qed.
End Loops.

(** ** Examples *)

(** A port that stalls for [sim_stall] polls, then accepts up to two packets per
    burst and delivers the mbufs 1, 2 and 3; the counter advances by one at each
    reading, and the program runs until it shows 1000. *)
Record simnic := Sim { sim_log : list (Z * Z * nat); sim_stall : nat; sim_tsc : Z }.

#[global] Instance sim_nic : Nic simnic := {|
  rte_eth_tx_burst port queue pkts e :=
    match sim_stall e with
    | S k => (0, Sim (sim_log e) k (sim_tsc e))
    | O => (Z.of_nat (length (take 2 pkts)),
            Sim (sim_log e ++ ((fun x => (port, queue, x)) <$> take 2 pkts)) 1 (sim_tsc e))
    end;
  rte_eth_rx_burst port queue n e :=
    match sim_stall e with
    | S k => ([], Sim (sim_log e) k (sim_tsc e))
    | O => (take (Z.to_nat n) [1; 2; 3]%nat, Sim (sim_log e) 1 (sim_tsc e))
    end;
  is_running extra e := (sim_tsc e <? 1000, e);
  read_rdtsc e := (sim_tsc e, Sim (sim_log e) (sim_stall e) (sim_tsc e + 1));
  sent e port queue := (filter (fun x => x.1 = (port, queue)) (sim_log e)).*2
|}.

Lemma filter_tag (port queue p q : Z) (l : list nat) :
  (filter (fun x => x.1 = (p, q)) ((fun x => (port, queue, x)) <$> l)).*2 =
  if decide ((port, queue) = (p, q)) then l else [].
Proof.
  induction l as [|x l IH]; [by destruct (decide _)|]. cbn [fmap list_fmap]. rewrite filter_cons. simpl.
  destruct (decide ((port, queue) = (p, q))); simpl; [f_equal|]; exact IH.
Qed.

#[global] Instance sim_nic_laws : NicLaws simnic.
Proof.
  refine {| patience := sim_stall |}.
  - intros port queue pkts [log [|k] t] n e' E; cbn -[take Z.of_nat] in E |- *;
      injection E as <- <-; cbn -[take Z.of_nat].
    + split; [rewrite length_take; lia|]. rewrite Nat2Z.id, filter_app, fmap_app, filter_tag, decide_True by done. split.
      * f_equal. by destruct pkts as [|x [|y pkts]].
      * intros p q Hpq. rewrite filter_app, fmap_app, filter_tag, decide_False by congruence.
        apply app_nil_r.
    + split; [lia|]. by rewrite app_nil_r.
  - intros port queue pkts [log [|k] t] e' Hne E; cbn in E; [|injection E as <-; cbn; lia].
    by destruct pkts.
  - intros port queue n [log [|k] t] pkts e' Hn E; cbn -[take] in E; injection E as <- <-.
    + rewrite length_take. simpl. lia.
    + simpl. lia.
  - intros port queue n [log [|k] t] e' Hn E; cbn -[take] in E; [|injection E as <-; cbn; lia].
    by destruct (Z.to_nat n) eqn:En; [lia|].
  - intros extra e b e' E. cbn in E. by injection E as <- <-.
  - intros e t e' E. cbn in E. by injection E as <- <-.
Qed.

(** Six headers, the buffers of the first two, and a port that stalls three times. *)
Definition demo_world : world (list nat) simnic :=
  World (Mem (demo_packet 1 600 1 6) ∅) {[ 1%nat := replicate 256 0; 2%nat := replicate 256 0 ]}
    (Sim [] 3 990).

Lemma send_loops_correct_witness :
  (exists fuel0, forall fuel, (fuel0 <= fuel)%nat -> exists w',
     dpdk_send_all_packets fuel 0 1 [1; 2; 3; 4; 5]%nat demo_world = Ret (tt, w') /\
     enqueued demo_world 0 1 [1; 2; 3; 4; 5]%nat w') /\
  (exists fuel0, forall fuel, (fuel0 <= fuel)%nat -> exists w',
     dpdk_send_single_packet fuel 0 1 6 demo_world = Ret (tt, w') /\
     enqueued demo_world 0 1 [6%nat] w') /\
  (exists n w', dpdk_try_send_single_packet 0 1 6 demo_world = Ret (n, w') /\
     (n = 0 /\ enqueued demo_world 0 1 [] w' \/ n = 1 /\ enqueued demo_world 0 1 [6%nat] w')).
Proof. apply (send_loops_correct demo_world 0 1 [1; 2; 3; 4; 5]%nat 6%nat). simpl. lia. Defined.

Lemma receive_timestamps_correct_witness :
  exists fuel0, forall fuel, (fuel0 <= fuel)%nat -> exists pkts w',
    dpdk_receive_with_timestamps_software fuel 2400000000 0 0 3 demo_world = Ret (pkts, w') /\
    received demo_world 0 0 3 300 pkts w'.
Proof.
  apply (receive_timestamps_correct demo_world 2400000000 0 0 3); [lia|].
  intros port queue n [log [|k] t] pkts e' E; cbn -[take] in E; injection E as <- <-.
  - destruct (Z.to_nat n) as [|[|[|k]]]; cbn; rewrite ?take_nil;
      (split; [apply (bool_decide_eq_true_1 (NoDup _)); vm_compute; reflexivity|
               repeat constructor; by eexists]).
  - split; constructor.
Defined.

Lemma send_timestamp_correct_witness :
  exists fuel0, forall fuel, (fuel0 <= fuel)%nat -> exists w',
    moongen_send_packet_with_timestamp fuel 0 1 2 5 demo_world = Ret (tt, w') /\
    stamp_sent (w_mem demo_world) (w_bufs demo_world) (w_env demo_world) 0 1 2
      (demo_seg 1 5 100 (Some 3%nat) 2) (replicate 256 0) 5 w'.
Proof.
  apply (send_timestamp_correct demo_world 0 1 2 5); [vm_compute; reflexivity|vm_compute; reflexivity|].
  vm_compute. lia.
Defined.
