(* ===== verification/DeviceConfig.v ===== *)
(** libmoon/src/device.c: configuring a port, and the queries about it.

    [dpdk_configure_device] is a fixed sequence of DPDK calls that stops at the
    first error. The answers of the driver are a parameter (they may depend on the
    calls made before); the theorem is that the calls made are exactly the prefix
    of the configuration script up to the first failure. *)
From Stdlib Require Import ZArith Lia.
From stdpp Require Import base numbers list gmap strings.
From S2P Require Import Prelude.

#[local] Open Scope Z_scope.

(** ** Data *)

Definition DEFAULT_RX_DESCS : Z := 512.
Definition DEFAULT_TX_DESCS : Z := 256.

Record libmoon_device_config := DeviceConfig {
  port : Z; mempools : list nat;
  rx_queues : Z; tx_queues : Z; rx_descs : Z; tx_descs : Z;
  drop_enable : Z; enable_rss : Z; disable_offloads : Z; strip_vlan : Z; rss_mask : Z
}.

Inductive flow_type := RTE_ETH_FLOW_UNKNOWN | RTE_ETH_FLOW_NONFRAG_IPV4_UDP.

(** [struct rte_fdir_conf] as the code initialises it: all address and port masks
    are zero, one raw payload of 16 offsets, one mask. *)
Record rte_fdir_conf := Fdir {
  fdir_mode_perfect : bool; pballoc_64k : bool; status_report : bool;
  fdir_masks : list Z; nb_payloads : Z; nb_flexmasks : Z;
  src_offset : list Z; flex_flow_type : flow_type; flex_mask : list Z; drop_queue : Z
}.

Inductive rx_mq_mode := ETH_MQ_RX_NONE | ETH_MQ_RX_RSS.

Record rte_eth_conf := EthConf {
  mq_mode : rx_mq_mode; split_hdr_size : Z; header_split : Z; hw_ip_checksum : Z;
  hw_vlan_filter : Z; jumbo_frame : Z; hw_strip_crc : Z; max_rx_pkt_len : Z; hw_vlan_strip : Z;
  fdir_conf : rte_fdir_conf; rss_hf : Z
}.

(** Prefetch, host and write-back thresholds. *)
Record thresh := Thresh { pthresh : Z; hthresh : Z; wthresh : Z }.

Inductive txq_flag := ETH_TXQ_FLAGS_NOMULTSEGS | ETH_TXQ_FLAGS_NOOFFLOADS.

Record rte_eth_txconf := TxConf { tx_thresh : thresh; txq_flags : list txq_flag }.

Record rte_eth_rxconf := RxConf { rx_drop_en : Z; rx_thresh : thresh }.

Record pci_device := PciDevice {
  mem_resource_0 : nat; function : Z; vendor_id : Z; device_id : Z; numa_node : Z
}.

Record rte_eth_dev_info := DevInfo {
  driver_name : string; pci_dev : option pci_device;
  default_tx_thresh : thresh; default_rx_thresh : thresh
}.

(** The calls into the driver that can fail. *)
Inductive ethcall :=
| DevConfigure (port rxq txq : Z) (conf : rte_eth_conf)
| TxQueueSetup (port queue descs : Z) (conf : rte_eth_txconf)
| RxQueueSetup (port queue descs : Z) (conf : rte_eth_rxconf) (pool : nat)
| DevStart (port : Z).

Section Configure.
(** The driver's answer to a call, after the calls already made; the information
    [rte_eth_dev_info_get] returns. *)
Context (answer : list ethcall -> ethcall -> Z) (dev_info : Z -> rte_eth_dev_info).

(** The calls made, the latest first, and the register base of every port. *)
Record devstate := Dev { calls : list ethcall; registers : gmap Z (option nat) }.

Definition eth_call (c : ethcall) : M devstate Z := fun s =>
  Ret (answer (calls s) c, Dev (c :: calls s) (registers s)).

(** ** Configuration *)

Definition make_fdir_conf (is_i40e_device : bool) : rte_fdir_conf :=
  Fdir true true true (replicate 16 0) 1 1
    [42; 43; 44; 45; 46; 47; 48; 49; 50; 51; 52; 53; 54; 55; 56; 57]
    (if is_i40e_device then RTE_ETH_FLOW_NONFRAG_IPV4_UDP else RTE_ETH_FLOW_UNKNOWN) [255; 255] 63.

Definition make_port_conf (cfg : libmoon_device_config) (is_i40e_device : bool) : rte_eth_conf :=
  EthConf (if enable_rss cfg =? 0 then ETH_MQ_RX_NONE else ETH_MQ_RX_RSS) 0 0
    (if disable_offloads cfg =? 0 then 1 else 0) 0 1 1 9218
    (if strip_vlan cfg =? 0 then 0 else 1) (make_fdir_conf is_i40e_device) (rss_mask cfg).

Definition make_tx_conf (cfg : libmoon_device_config) (info : rte_eth_dev_info) : rte_eth_txconf :=
  TxConf (default_tx_thresh info)
    (ETH_TXQ_FLAGS_NOMULTSEGS ::
     if disable_offloads cfg =? 0 then [] else [ETH_TXQ_FLAGS_NOOFFLOADS]).

Definition make_rx_conf (cfg : libmoon_device_config) (info : rte_eth_dev_info) : rte_eth_rxconf :=
  RxConf (drop_enable cfg) (default_rx_thresh info).

(** [n] more transmit queues from queue [i] on. *)
Fixpoint tx_setup_loop (cfg : libmoon_device_config) (conf : rte_eth_txconf) (n : nat) (i : Z) :
    M devstate Z :=
  match n with
  | O => mret 0
  | S n =>
    rc ← eth_call (TxQueueSetup (port cfg) i
      (if tx_descs cfg =? 0 then DEFAULT_TX_DESCS else tx_descs cfg) conf);
    if negb (rc =? 0) then mret rc else tx_setup_loop cfg conf n (i + 1)
  end.

Fixpoint rx_setup_loop (cfg : libmoon_device_config) (conf : rte_eth_rxconf) (n : nat) (i : Z) :
    M devstate Z :=
  match n with
  | O => mret 0
  | S n =>
    match mempools cfg !! Z.to_nat i with
    | None => fault
    | Some pool =>
      rc ← eth_call (RxQueueSetup (port cfg) i
        (if rx_descs cfg =? 0 then DEFAULT_RX_DESCS else rx_descs cfg) conf pool);
      if negb (rc =? 0) then mret rc else rx_setup_loop cfg conf n (i + 1)
    end
  end.

Definition save_registers (cfg : libmoon_device_config) (info : rte_eth_dev_info) : M devstate unit :=
  modify (fun s => Dev (calls s) (<[port cfg := mem_resource_0 <$> pci_dev info]> (registers s))).

Definition dpdk_configure_device (cfg : libmoon_device_config) : M devstate Z :=
  let info := dev_info (port cfg) in
  let is_i40e_device := bool_decide (driver_name info = "net_i40e"%string) in
  rc ← eth_call (DevConfigure (port cfg) (rx_queues cfg) (tx_queues cfg)
                   (make_port_conf cfg is_i40e_device));
  if negb (rc =? 0) then mret rc else
  rc ← tx_setup_loop cfg (make_tx_conf cfg info) (Z.to_nat (tx_queues cfg)) 0;
  if negb (rc =? 0) then mret rc else
  rc ← rx_setup_loop cfg (make_rx_conf cfg info) (Z.to_nat (rx_queues cfg)) 0;
  if negb (rc =? 0) then mret rc else
  rc ← eth_call (DevStart (port cfg));
  save_registers cfg info ;;
  mret rc.

(** ** Queries *)

Definition dpdk_get_driver_name (p : Z) : string := driver_name (dev_info p).

Definition dpdk_get_pci_function (p : Z) : Z :=
  match pci_dev (dev_info p) with Some d => function d | None => 0 end.

(** The shift of the promoted [uint16_t] is an [int]; the result is [uint32_t]. *)
Definition dpdk_get_pci_id (p : Z) : Z :=
  match pci_dev (dev_info p) with
  | Some d => u32 (Z.lor (i32 (Z.shiftl (vendor_id d) 16)) (device_id d))
  | None => 0
  end.

Definition dpdk_get_socket (p : Z) : Z :=
  match pci_dev (dev_info p) with
  | Some d => u8 (if numa_node d =? -1 then 0 else numa_node d)
  | None => 0
  end.

Definition hex_digit (d : Z) : Z := if d <? 10 then 48 + d else 55 + d.

(** ["%02X"] of a byte. *)
Definition hex2 (b : Z) : list Z := [hex_digit (b / 16); hex_digit (b mod 16)].

(** The text of [dpdk_get_mac_addr], as character codes, and its value; [a] are
    the six bytes [rte_eth_macaddr_get] returns. *)
Definition mac_text (a : list Z) : list Z :=
  match a with
  | [a0; a1; a2; a3; a4; a5] =>
    hex2 a0 ++ 58 :: hex2 a1 ++ 58 :: hex2 a2 ++ 58 :: hex2 a3 ++ 58 :: hex2 a4 ++ 58 :: hex2 a5
  | _ => []
  end.

Definition dpdk_get_mac_addr (a : list Z) : Z :=
  match a with
  | [a0; a1; a2; a3; a4; a5] =>
    u64 (Z.lor (Z.lor (Z.lor (Z.lor (Z.lor a0 (i32 (Z.shiftl a1 8))) (i32 (Z.shiftl a2 16)))
      (Z.shiftl a3 24)) (Z.shiftl a4 32)) (Z.shiftl a5 40))
  | _ => 0
  end.

(** ** Configuration runs its script up to the first error *)

(** The calls of a successful configuration, in order. *)
Definition config_script (cfg : libmoon_device_config) : list ethcall :=
  let info := dev_info (port cfg) in
  DevConfigure (port cfg) (rx_queues cfg) (tx_queues cfg)
    (make_port_conf cfg (bool_decide (driver_name info = "net_i40e"%string))) ::
  ((fun i => TxQueueSetup (port cfg) (Z.of_nat i)
      (if tx_descs cfg =? 0 then DEFAULT_TX_DESCS else tx_descs cfg) (make_tx_conf cfg info))
     <$> seq 0 (Z.to_nat (tx_queues cfg))) ++
  (imap (fun i pool => RxQueueSetup (port cfg) (Z.of_nat i)
      (if rx_descs cfg =? 0 then DEFAULT_RX_DESCS else rx_descs cfg) (make_rx_conf cfg info) pool)
     (take (Z.to_nat (rx_queues cfg)) (mempools cfg))) ++
  [DevStart (port cfg)].

(** Make the calls in order until one fails; the answer of the last one made. *)
Fixpoint run_script (past : list ethcall) (script : list ethcall) : Z * list ethcall :=
  match script with
  | [] => (0, past)
  | c :: rest =>
    let rc := answer past c in
    if rc =? 0 then run_script (c :: past) rest else (rc, c :: past)
  end.

Lemma run_script_app past l k :
  run_script past (l ++ k) =
  let '(rc, past') := run_script past l in
  if rc =? 0 then run_script past' k else (rc, past').
Proof.
  revert past. induction l as [|c l IH]; intros past; [done|]. simpl.
  destruct (answer past c =? 0) eqn:E; [apply IH|]. by rewrite E.
Qed.

Lemma tx_setup_loop_script cfg conf n : forall i s,
  tx_setup_loop cfg conf n (Z.of_nat i) s =
  let '(rc, past) := run_script (calls s) ((fun i => TxQueueSetup (port cfg) (Z.of_nat i)
      (if tx_descs cfg =? 0 then DEFAULT_TX_DESCS else tx_descs cfg) conf) <$> seq i n) in
  Ret (rc, Dev past (registers s)).
Proof.
  induction n as [|n IH]; intros i s; [by destruct s|]. cbn [tx_setup_loop seq fmap list_fmap run_script].
  unfold mbind, M_bind, eth_call at 1. cbn [calls registers].
  destruct (answer _ _ =? 0); [|done]. cbn [negb].
  replace (Z.of_nat i + 1) with (Z.of_nat (S i)) by lia. by rewrite IH.
Qed.

Lemma rx_setup_loop_script cfg conf n : forall i s,
  (i + n <= length (mempools cfg))%nat ->
  rx_setup_loop cfg conf n (Z.of_nat i) s =
  let '(rc, past) := run_script (calls s) (imap (fun j pool => RxQueueSetup (port cfg) (Z.of_nat (i + j))
      (if rx_descs cfg =? 0 then DEFAULT_RX_DESCS else rx_descs cfg) conf pool)
      (take n (drop i (mempools cfg)))) in
  Ret (rc, Dev past (registers s)).
Proof.
  induction n as [|n IH]; intros i s Hl; [by destruct s|]. cbn [rx_setup_loop].
  rewrite Nat2Z.id. destruct (lookup_lt_is_Some_2 (mempools cfg) i ltac:(lia)) as [p Hp].
  rewrite Hp, (drop_S _ _ _ Hp). cbn [take imap run_script]. rewrite Nat.add_0_r.
  unfold mbind, M_bind, eth_call at 1. cbn [calls registers].
  destruct (answer _ _ =? 0); [|done]. cbn [negb].
  replace (Z.of_nat i + 1) with (Z.of_nat (S i)) by lia. rewrite IH by lia. cbn [calls registers].
  erewrite (imap_ext (_ ∘ S)); [done|]. intros j x _. simpl. by rewrite Nat.add_succ_r.
Qed.

(** The last call made starts the port. *)
Definition started (past : list ethcall) : bool :=
  match past with DevStart _ :: _ => true | _ => false end.

Lemma run_script_failed l : forall past rc past',
  run_script past l = (rc, past') -> rc <> 0 -> exists c, c ∈ l /\ head past' = Some c.
Proof.
  induction l as [|c l IH]; intros past rc past' E Hrc; simpl in E; [congruence|].
  destruct (answer past c =? 0).
  - destruct (IH _ _ _ E Hrc) as (c' & ? & ?). exists c'. split; [set_solver|done].
  - injection E as <- <-. exists c. split; [set_solver|done].
Qed.

Lemma failed_not_started l past rc past' :
  run_script past l = (rc, past') -> rc <> 0 -> (forall p, DevStart p ∉ l) -> started past' = false.
Proof.
  intros E Hrc Hl. destruct (run_script_failed _ _ _ _ E Hrc) as (c & Hc & Hh).
  destruct past' as [|c' past']; [done|]. injection Hh as ->. destruct c; try done. by destruct (Hl port0).
Qed.

(** [dpdk_configure_device] makes the calls of the configuration script in
    order (configure, every transmit queue, every receive queue with its own
    mempool, start) until one fails and returns that call's error, or zero
    after all of them; the register base of the port is recorded exactly when the
    start was attempted. *)
Theorem configure_device_correct (cfg : libmoon_device_config) (s : devstate) :
  (Z.to_nat (rx_queues cfg) <= length (mempools cfg))%nat ->
  let '(rc, past) := run_script (calls s) (config_script cfg) in
  dpdk_configure_device cfg s =
  Ret (rc, Dev past (if started past
                     then <[port cfg := mem_resource_0 <$> pci_dev (dev_info (port cfg))]> (registers s)
                     else registers s)).
Proof.
  intros Hl. unfold dpdk_configure_device, config_script. cbv zeta. cbn [run_script].
  set (c0 := DevConfigure _ _ _ _). set (ltx := (_ <$> seq _ _)). set (lrx := imap _ _).
  unfold mbind, M_bind. unfold eth_call at 1.
  destruct (Z.eqb_spec (answer (calls s) c0) 0) as [->|]; [|done]. cbn [negb Z.eqb].
  rewrite run_script_app. rewrite (tx_setup_loop_script cfg _ _ 0). cbn [calls registers]. fold ltx.
  destruct (run_script (c0 :: calls s) ltx) as [rc1 past1] eqn:E1.
  destruct (Z.eqb_spec rc1 0) as [->|Hrc1]; cbn [negb Z.eqb].
  2: { rewrite (failed_not_started _ _ _ _ E1 Hrc1); [done|]. intros p (x & ? & _)%list_elem_of_fmap. done. }
  rewrite run_script_app, (rx_setup_loop_script cfg _ _ 0) by (simpl; lia). cbn [calls registers Nat.add].
  rewrite drop_0. fold lrx. destruct (run_script past1 lrx) as [rc2 past2] eqn:E2.
  destruct (Z.eqb_spec rc2 0) as [->|Hrc2]; cbn [negb Z.eqb].
  2: { rewrite (failed_not_started _ _ _ _ E2 Hrc2); [done|].
       intros p (i & x & ? & _)%elem_of_lookup_imap_1. done. }
  unfold eth_call, save_registers, modify. cbn [calls registers run_script].
  by destruct (answer past2 (DevStart (port cfg)) =? 0) eqn:E; [apply Z.eqb_eq in E as ->|].
Qed.

(** ** Queries *)

Lemma pci_id_arith v d :
  0 <= v < 65536 -> 0 <= d < 65536 -> u32 (Z.lor (i32 (Z.shiftl v 16)) d) = v * 65536 + d.
Proof.
  intros Hv Hd. destruct (decide (v < 32768)).
  - rewrite (wraps_small 32) by (rewrite ?Z.shiftl_mul_pow2; lia).
    rewrite lor_disjoint by lia. apply wrapu_small. lia.
  - assert (i32 (Z.shiftl v 16) = Z.shiftl (v - 65536) 16) as ->.
    { rewrite !Z.shiftl_mul_pow2 by lia. change (2 ^ 16) with 65536. width_lia. }
    rewrite lor_disjoint by lia. change (2 ^ 16) with 65536. width_lia.
Qed.

(** Reading the text of a MAC address back. *)
Definition hex_value (c : Z) : Z := if c <=? 57 then c - 48 else c - 55.

Fixpoint parse_mac (text : list Z) : list Z :=
  match text with
  | h :: l :: 58 :: rest => (16 * hex_value h + hex_value l) :: parse_mac rest
  | [h; l] => [16 * hex_value h + hex_value l]
  | _ => []
  end.

Lemma hex_value_digit d : 0 <= d < 16 -> hex_value (hex_digit d) = d.
Proof.
  intros. unfold hex_value, hex_digit. destruct (Z.ltb_spec d 10).
  - destruct (Z.leb_spec (48 + d) 57); lia.
  - destruct (Z.leb_spec (55 + d) 57); lia.
Qed.

Lemma hex2_value b : 0 <= b < 256 -> 16 * hex_value (hex_digit (b / 16)) + hex_value (hex_digit (b mod 16)) = b.
Proof.
  intros. rewrite !hex_value_digit by (Z.div_mod_to_equations; lia). Z.div_mod_to_equations. lia.
Qed.

Lemma lor_above x a n : 0 <= n -> 0 <= x < 2 ^ n -> Z.lor x (Z.shiftl a n) = x + a * 2 ^ n.
Proof. intros. rewrite Z.lor_comm, lor_disjoint by lia. lia. Qed.

Lemma mac_addr_value a0 a1 a2 a3 a4 a5 :
  Forall (fun b => 0 <= b < 256) [a0; a1; a2; a3; a4; a5] ->
  dpdk_get_mac_addr [a0; a1; a2; a3; a4; a5] = le_value [a0; a1; a2; a3; a4; a5].
Proof.
  rewrite !Forall_cons. intros (? & ? & ? & ? & ? & ? & _). unfold dpdk_get_mac_addr.
  rewrite !(wraps_small 32) by (rewrite ?Z.shiftl_mul_pow2; lia).
  rewrite (lor_above a0 a1 8), (lor_above _ a2 16), (lor_above _ a3 24), (lor_above _ a4 32),
    (lor_above _ a5 40) by lia.
  rewrite wrapu_small by lia. cbn [le_value]. lia.
Qed.

(** The identification of a port: the 32-bit PCI identifier holds the vendor
    in its upper and the device in its lower half for every vendor (the shift may
    reach the sign bit); the socket is the NUMA node, with "unknown" as socket 0;
    the MAC address is the little-endian value of its bytes and its text reads
    back as the same bytes. *)
Theorem port_identity_correct (p : Z) (d : pci_device) (mac : list Z) :
  pci_dev (dev_info p) = Some d -> 0 <= vendor_id d < 65536 -> 0 <= device_id d < 65536 ->
  -1 <= numa_node d < 256 -> length mac = 6%nat -> Forall (fun b => 0 <= b < 256) mac ->
  dpdk_get_pci_id p = vendor_id d * 65536 + device_id d /\
  dpdk_get_socket p = Z.max 0 (numa_node d) /\
  dpdk_get_mac_addr mac = le_value mac /\ parse_mac (mac_text mac) = mac.
Proof.
  intros Hp Hv Hd Hn Hl Hm. unfold dpdk_get_pci_id, dpdk_get_socket. rewrite Hp. split_and!.
  - by apply pci_id_arith.
  - destruct (Z.eqb_spec (numa_node d) (-1)) as [->|]; [done|]. rewrite wrapu_small; lia.
  - destruct mac as [|a0 [|a1 [|a2 [|a3 [|a4 [|a5 [|]]]]]]]; try done. by apply mac_addr_value.
  - destruct mac as [|a0 [|a1 [|a2 [|a3 [|a4 [|a5 [|]]]]]]]; try done.
    cbn [mac_text hex2 app parse_mac]. rewrite !Forall_cons in Hm.
    destruct Hm as (? & ? & ? & ? & ? & ? & _). by rewrite !hex2_value.
Qed.
End Configure.

(** ** Examples *)

(** A port whose second transmit queue cannot be set up. *)
Definition demo_answer (past : list ethcall) (c : ethcall) : Z :=
  match c with TxQueueSetup _ 1 _ _ => -22 | _ => 0 end.

Definition demo_info (p : Z) : rte_eth_dev_info :=
  DevInfo "net_i40e" (Some (PciDevice 4096 1 32902 5507 (-1))) (Thresh 32 0 0) (Thresh 8 8 0).

Definition demo_cfg (txq : Z) : libmoon_device_config :=
  DeviceConfig 3 [7; 8]%nat 2 txq 0 1024 1 1 0 0 5.

Lemma configure_device_correct_witness :
  dpdk_configure_device demo_answer demo_info (demo_cfg 1) (Dev [] ∅) =
    Ret (0, Dev (reverse (config_script demo_info (demo_cfg 1))) {[ 3 := Some 4096%nat ]}) /\
  dpdk_configure_device demo_answer demo_info (demo_cfg 4) (Dev [] ∅) =
    Ret (-22, Dev (reverse (take 3 (config_script demo_info (demo_cfg 4)))) ∅).
Proof.
  split; [apply (configure_device_correct demo_answer demo_info (demo_cfg 1) (Dev [] ∅))|
          apply (configure_device_correct demo_answer demo_info (demo_cfg 4) (Dev [] ∅))];
    simpl; lia.
Defined.

Lemma port_identity_correct_witness :
  dpdk_get_pci_id demo_info 3 = 2156270979 /\ dpdk_get_socket demo_info 3 = 0 /\
  dpdk_get_mac_addr [160; 54; 159; 0; 18; 255] = le_value [160; 54; 159; 0; 18; 255] /\
  parse_mac (mac_text [160; 54; 159; 0; 18; 255]) = [160; 54; 159; 0; 18; 255].
Proof.
  apply (port_identity_correct demo_info 3 (PciDevice 4096 1 32902 5507 (-1)));
    [reflexivity|cbn; lia..|reflexivity|repeat constructor; lia].
Defined.
