(* ===== verification/CrcRateLimiter.v ===== *)
(** MoonGen/src/crc-rate-limiter.c: inter-packet gaps filled with frames whose
    checksum is invalid.

    The state adds to the world of the device loops the thread-local delay that is
    still to be emulated and the two per-port counters. The array [pkts] of 128
    pointers is the list of its first [send_buf_idx] entries; storing past its
    end is a fault. *)
From Stdlib Require Import ZArith Lia.
From stdpp Require Import base numbers list gmap.
From S2P Require Import Prelude Mbuf Device.

#[local] Open Scope Z_scope.

Definition BUF_SIZE : nat := 128.

Section Limiter.
Context {P : Type} `{Mempool P} {E : Type} `{Nic E}.

Record limiter := Limiter {
  l_world : world P E; leftover_delay : Z;
  bad_pkts_sent : gmap Z Z; bad_bytes_sent : gmap Z Z
}.

Definition set_leftover (v : Z) (s : limiter) : limiter :=
  Limiter (l_world s) v (bad_pkts_sent s) (bad_bytes_sent s).

Definition in_world {A} (m : M (world P E) A) : M limiter A := fun s =>
  match m (l_world s) with
  | Ret (a, w) => Ret (a, Limiter w (leftover_delay s) (bad_pkts_sent s) (bad_bytes_sent s))
  | Fault => Fault
  | Diverge => Diverge
  end.

Definition moongen_get_bad_pkts_sent (port_id : Z) (s : limiter) : Z :=
  default 0 (bad_pkts_sent s !! port_id).

Definition moongen_get_bad_bytes_sent (port_id : Z) (s : limiter) : Z :=
  default 0 (bad_bytes_sent s !! port_id).

(** The two atomic additions. *)
Definition count_bad (port_id num_bad_pkts num_bad_bytes : Z) (s : limiter) : limiter :=
  Limiter (l_world s) (leftover_delay s)
    (<[port_id := u64 (moongen_get_bad_pkts_sent port_id s + num_bad_pkts)]> (bad_pkts_sent s))
    (<[port_id := u64 (moongen_get_bad_bytes_sent port_id s + num_bad_bytes)]> (bad_bytes_sent s)).

(** ** The delay packet *)

(** The optimum packet size (lines 106 to 115). *)
Definition delay_size (delay : Z) : Z :=
  if delay <? 1538 then delay else if 2000 <? delay then 1538 else delay / 2.

(** The packet and the new value of [*rem_delay]; the allocation is not checked. *)
Definition get_delay_pkt_bad_crc (pool : nat) (rem_delay min_pkt_size : Z) : M limiter (option nat * Z) :=
  left ← gets leftover_delay;
  let delay := u64 (rem_delay + left) in
  modify (set_leftover 0) ;;
  if delay <? min_pkt_size then
    modify (set_leftover delay) ;; mret (None, 0)
  else
    let delay := delay_size delay in
    let rem_delay := if rem_delay <? delay then 0 else rem_delay - delay in
    r ← in_world (in_mem (rte_pktmbuf_alloc pool));
    match r with
    | None => fault
    | Some pkt =>
      in_world (in_mem (upd_mbuf pkt (set_data_len (u16 (u64 (delay - 20)))))) ;;
      in_world (in_mem (upd_mbuf pkt (set_pkt_len (u32 (u64 (delay - 20)))))) ;;
      in_world (in_mem (upd_mbuf pkt (fun b => set_ol_flags (Z.lor (ol_flags b) PKT_TX_NO_CRC_CSUM) b))) ;;
      mret (Some pkt, rem_delay)
    end.

(** ** The send loops *)

(** The local variables of the send loops. *)
Record locals := Locals { sendbuf : list nat; num_bad_pkts : Z; num_bad_bytes : Z }.

(** [pkts[send_buf_idx++] = pkt] *)
Definition push (pkt : nat) (l : locals) : M limiter locals :=
  if (length (sendbuf l) <? BUF_SIZE)%nat
  then mret (Locals (sendbuf l ++ [pkt]) (num_bad_pkts l) (num_bad_bytes l)) else fault.

Definition flush (fuel : nat) (port_id queue_id : Z) (l : locals) : M limiter locals :=
  in_world (dpdk_send_all_packets fuel port_id queue_id (sendbuf l)) ;;
  mret (Locals [] (num_bad_pkts l) (num_bad_bytes l)).

(** [if (send_buf_idx >= BUF_SIZE || last)] *)
Definition flush_if (fuel : nat) (port_id queue_id : Z) (last : bool) (l : locals) : M limiter locals :=
  if (BUF_SIZE <=? length (sendbuf l))%nat || last then flush fuel port_id queue_id l else mret l.

(** The loop of step 1. A frame is counted with [overhead] bytes on top of its
    length. [fuel] bounds its rounds, [txfuel] the polls of one transmission. *)
Fixpoint delay_loop (fuel txfuel : nat) (port_id queue_id : Z) (pool : nat) (min_pkt_size overhead : Z)
    (delay : Z) (l : locals) : M limiter locals :=
  if negb (0 <? delay) then mret l
  else
    match fuel with
    | O => diverge
    | S fuel =>
      r ← get_delay_pkt_bad_crc pool delay min_pkt_size;
      let '(pkt, delay) := r in
      l ← match pkt with
          | Some pkt =>
            b ← in_world (in_mem (load_mbuf pkt));
            push pkt (Locals (sendbuf l) (u32 (num_bad_pkts l + 1))
                        (u32 (num_bad_bytes l + u32 (pkt_len b + overhead))))
          | None => mret l
          end;
      l ← flush_if txfuel port_id queue_id false l;
      delay_loop fuel txfuel port_id queue_id pool min_pkt_size overhead delay l
    end.

(** Every round but the last two takes at least 769 bytes off the delay. *)
Definition delay_fuel (delay : Z) : nat := Z.to_nat (delay / 769 + 2).

Fixpoint send_loop (txfuel : nat) (port_id queue_id : Z) (pool : nat) (min_pkt_size : Z)
    (load_pkts : list nat) (l : locals) : M limiter locals :=
  match load_pkts with
  | [] => mret l
  | pkt :: rest =>
    b ← in_world (in_mem (load_mbuf pkt));
    let delay := u32 (udata64 b) in
    l ← delay_loop (delay_fuel delay) txfuel port_id queue_id pool min_pkt_size 24 delay l;
    l ← push pkt l;
    l ← flush_if txfuel port_id queue_id (match rest with [] => true | _ => false end) l;
    send_loop txfuel port_id queue_id pool min_pkt_size rest l
  end.

Definition moongen_send_all_packets_with_delay_bad_crc (txfuel : nat) (port_id queue_id : Z)
    (load_pkts : list nat) (pool : nat) (min_pkt_size : Z) : M limiter unit :=
  l ← send_loop txfuel port_id queue_id pool min_pkt_size load_pkts (Locals [] 0 0);
  modify (count_bad port_id (num_bad_pkts l) (num_bad_bytes l)).

(** [keep] decides for each packet whether [(double) rand() / RAND_MAX >= loss_rate]. *)
Fixpoint send_loss_loop (txfuel : nat) (port_id queue_id : Z) (pool : nat) (min_pkt_size : Z)
    (load_pkts : list (nat * bool)) (l : locals) : M limiter locals :=
  match load_pkts with
  | [] => mret l
  | (pkt, keep) :: rest =>
    b ← in_world (in_mem (load_mbuf pkt));
    let delay := if 268435455 <? udata64 b then 0 else u32 (udata64 b) in
    l ← delay_loop (delay_fuel delay) txfuel port_id queue_id pool min_pkt_size 0 delay l;
    l ← (if (keep : bool) then push pkt l
         else in_world (in_mem (rte_pktmbuf_free (Some pkt))) ;; mret l);
    l ← flush_if txfuel port_id queue_id (match rest with [] => true | _ => false end) l;
    send_loss_loop txfuel port_id queue_id pool min_pkt_size rest l
  end.

Definition moongen_send_all_packets_with_delay_bad_crc_loss (txfuel : nat) (port_id queue_id : Z)
    (load_pkts : list (nat * bool)) (pool : nat) (min_pkt_size : Z) : M limiter unit :=
  l ← send_loss_loop txfuel port_id queue_id pool min_pkt_size load_pkts (Locals [] 0 0);
  modify (count_bad port_id (num_bad_pkts l) (num_bad_bytes l)).
End Limiter.

Arguments limiter P E : clear implicits.
