(* ===== verification/CrcRateLimiterSpec.v ===== *)
(** The rate limiter of MoonGen/src/crc-rate-limiter.c against its schedule: for
    every packet a gap of filler frames computed from the requested delay, then
    the packet, in one stream on the queue; and the properties of that schedule
    (frame sizes, delay accounting, counters). *)
From Stdlib Require Import ZArith Lia.
From stdpp Require Import base numbers list gmap sets.
From S2P Require Import Prelude RudeXmit Mbuf MbufSpec Device DeviceSpec CrcRateLimiter.

#[local] Open Scope Z_scope.

(** ** The schedule *)

(** The sizes on the wire of the filler frames for a requested delay of [rem]
    bytes, with [left] bytes outstanding, and what is outstanding afterwards. *)
Fixpoint gap_loop (fuel : nat) (min left rem : Z) : list Z * Z :=
  if 0 <? rem then
    match fuel with
    | O => ([], left)
    | S fuel =>
      if rem + left <? min then ([], rem + left)
      else
        let d := delay_size (rem + left) in
        let '(ds, left') := gap_loop fuel min 0 (if rem <? d then 0 else rem - d) in
        (d :: ds, left')
    end
  else ([], left).

Definition gap (min left rem : Z) : list Z * Z := gap_loop (delay_fuel rem) min left rem.

(** The gaps before packets with the given delays. *)
Fixpoint schedule (min left : Z) (delays : list Z) : list (list Z) * Z :=
  match delays with
  | [] => ([], left)
  | rem :: rest =>
    let '(ds, left1) := gap min left rem in
    let '(dss, left2) := schedule min left1 rest in
    (ds :: dss, left2)
  end.

Definition sum (l : list Z) : Z := foldr Z.add 0 l.

Lemma sum_app l k : sum (l ++ k) = sum l + sum k.
Proof. induction l as [|x l IH]; simpl; [done|]. unfold sum in *. lia. Qed.

Lemma delay_size_bounds delay :
  0 < delay -> 0 < delay_size delay <= 1538 /\ delay_size delay <= delay /\
  (delay < 1538 -> delay_size delay = delay) /\ (1538 <= delay -> 769 <= delay_size delay).
Proof.
  intros. unfold delay_size. destruct (Z.ltb_spec delay 1538); [lia|].
  destruct (Z.ltb_spec 2000 delay); [lia|]. Z.div_mod_to_equations; lia.
Qed.

(** The frames of a gap have a size the device can send. *)
Lemma gap_loop_sizes min fuel : forall left rem,
  0 < min -> 0 <= left -> 0 <= rem ->
  Forall (fun d => Z.min min 769 <= d <= 1538) (gap_loop fuel min left rem).1.
Proof.
  induction fuel as [|fuel IH]; intros left rem Hm Hl Hr; cbn [gap_loop];
    destruct (Z.ltb_spec 0 rem); try constructor.
  destruct (Z.ltb_spec (rem + left) min); [constructor|].
  destruct (delay_size_bounds (rem + left) ltac:(lia)) as (B1 & B2 & B3 & B4).
  destruct (gap_loop fuel min 0 (if rem <? delay_size (rem + left) then 0
    else rem - delay_size (rem + left))) as [ds left'] eqn:E.
  constructor; [simpl; lia|]. change ds with (ds, left').1. rewrite <- E.
  apply IH; [done|lia|]. destruct (Z.ltb_spec rem (delay_size (rem + left))); lia.
Qed.

(** Without outstanding bytes, a gap takes exactly the requested delay. *)
Lemma gap_loop_exact min fuel : forall rem,
  0 <= rem -> ((rem + 768) / 769 <= Z.of_nat fuel) ->
  let '(ds, left') := gap_loop fuel min 0 rem in
  sum ds + left' = rem /\ 0 <= left' /\ (left' < min \/ left' = 0) /\
  Z.of_nat (length ds) <= (rem + 768) / 769.
Proof.
  induction fuel as [|fuel IH]; intros rem Hr Hf; cbn [gap_loop].
  { assert (rem = 0) as -> by (Z.div_mod_to_equations; lia). change ((0 + 768) / 769) with 0. cbn. lia. }
  assert (0 <= rem / 769) by (apply Z.div_pos; lia).
  destruct (Z.ltb_spec 0 rem); [|assert (rem = 0) as -> by lia; change ((0 + 768) / 769) with 0; cbn; lia]. rewrite Z.add_0_r.
  destruct (Z.ltb_spec rem min).
  { simpl. split_and!; try lia. apply Z.div_pos; lia. }
  destruct (delay_size_bounds rem ltac:(lia)) as (B1 & B2 & B3 & B4).
  destruct (Z.ltb_spec rem (delay_size rem)); [lia|].
  assert (0 <= rem - delay_size rem /\ (rem - delay_size rem + 768) / 769 + 1 <= (rem + 768) / 769) as [].
  { destruct (Z.lt_ge_cases rem 1538) as [Hs|Hb]; [rewrite B3 by lia|]; Z.div_mod_to_equations; lia. }
  specialize (IH (rem - delay_size rem) ltac:(lia) ltac:(lia)).
  destruct (gap_loop fuel min 0 (rem - delay_size rem)) as [ds left'].
  destruct IH as (E & ? & ? & ?). simpl. lia.
Qed.

(** The accounting of one gap. *)
Lemma gap_account min left rem :
  0 < min -> 0 <= left < min -> 0 <= rem ->
  let '(ds, left') := gap min left rem in
  rem <= sum ds + left' <= rem + left /\ 0 <= left' < min /\
  (rem + left < 1538 \/ left = 0 -> sum ds + left' = rem + left) /\
  Z.of_nat (length ds) <= (rem + 768) / 769.
Proof.
  intros Hm Hl Hr. unfold gap, delay_fuel. set (fuel := Z.to_nat (rem / 769 + 1)).
  assert (0 <= rem / 769) by (apply Z.div_pos; lia).
  replace (Z.to_nat (rem / 769 + 2)) with (S fuel) by lia. cbn [gap_loop].
  destruct (Z.ltb_spec 0 rem); [|assert (rem = 0) as -> by lia; change ((0 + 768) / 769) with 0; cbn; lia].
  destruct (Z.ltb_spec (rem + left) min).
  { simpl. split_and!; try lia. apply Z.div_pos; lia. }
  destruct (delay_size_bounds (rem + left) ltac:(lia)) as (B1 & B2 & B3 & B4).
  set (d := delay_size (rem + left)) in *. set (rem' := if rem <? d then 0 else rem - d).
  assert (0 <= rem' /\ rem <= d + rem' <= rem + left /\
    (rem + left < 1538 \/ left = 0 -> d + rem' = rem + left) /\ rem' <= rem - Z.min rem 769)
    as (? & ? & Hx & ?).
  { subst rem'. destruct (Z.ltb_spec rem d), (Z.lt_ge_cases (rem + left) 1538); lia. }
  assert ((rem' + 768) / 769 + 1 <= (rem + 768) / 769) by (Z.div_mod_to_equations; lia).
  pose proof (gap_loop_exact min fuel rem' ltac:(lia) ltac:(Z.div_mod_to_equations; lia)) as IH.
  destruct (gap_loop fuel min 0 rem') as [ds left']. destruct IH as (E & ? & ? & ?). simpl. lia.
Qed.

(** ** Running the limiter *)

Lemma Forall2_impl_in_l {A B} (R S : A -> B -> Prop) l k :
  (forall x y, x ∈ l -> R x y -> S x y) -> Forall2 R l k -> Forall2 S l k.
Proof. intros HRS HR. induction HR; constructor; [apply HRS; [set_solver|done]|apply IHHR; set_solver]. Qed.

Section Refine.
Context {P : Type} `{MempoolLaws P} {E : Type} `{NicLaws E}.
Context (port queue : Z) (pool : nat) (min_size : Z) (Hmin : 20 <= min_size < 2 ^ 32).
Implicit Types (s : limiter P E) (l : locals).

Definition l_mem s : mem P := w_mem (l_world s).
Definition l_mbufs s : gmap nat rte_mbuf := mbufs (w_mem (l_world s)).
Definition l_pools s : gmap nat (mempool P) := pools (w_mem (l_world s)).
Definition l_sent s : Z -> Z -> list nat := sent (w_env (l_world s)).

(** The packets on the queue and in the send buffer. *)
Definition stream s l : list nat := l_sent s port queue ++ sendbuf l.

(** A filler frame of [d] bytes on the wire. *)
Definition filler (d : Z) (b : rte_mbuf) : Prop :=
  pkt_len b = d - 20 /\ data_len b = d - 20 /\ ol_flags b = PKT_TX_NO_CRC_CSUM.

(** The mempool can hand out [n] objects one by one. *)
Fixpoint supply (n : nat) (p : P) : Prop :=
  match n with
  | O => True
  | S n => exists o p', mp_get_bulk 1 p = Some ([o], p') /\ supply n p'
  end.

Definition pool_ok s (n : nat) : Prop :=
  exists p, l_pools s !! pool = Some p /\ supply n (pool_objs p) /\ NoDup (mp_objs (pool_objs p)) /\
            Forall (fun o => is_Some (l_mbufs s !! o)) (mp_objs (pool_objs p)).

Lemma supply_le n m p : (m <= n)%nat -> supply n p -> supply m p.
Proof.
  revert m p. induction n as [|n IH]; intros [|m] p Hm; simpl; [done|lia|done|].
  intros (o & p' & Hg & Hs). exists o, p'. split; [done|]. apply IH; [lia|done].
Qed.

Lemma pool_ok_le s n m : (m <= n)%nat -> pool_ok s n -> pool_ok s m.
Proof. intros Hm (p & Hp & Hs & Hr). exists p. split; [done|]. split; [by eapply supply_le|done]. Qed.

(** From [s, l] to [s', l'] the stream grew by [out], among it the filler frames
    [gen] of the sizes [ds], counted with [overhead]; they came from the pool, the
    packets [lost] were freed, and nothing else changed. *)
Record emitted (overhead : Z) s l (out gen : list nat) (ds : list Z) (lost : list nat) s' l' : Prop := {
  em_stream : stream s' l' = stream s l ++ out;
  em_other : forall p q, (p, q) <> (port, queue) -> l_sent s' p q = l_sent s p q;
  em_frame : forall x, x ∉ gen -> l_mbufs s' !! x = mbufs (foldl free_one (l_mem s) lost) !! x;
  em_fill : Forall2 (fun o d => exists b, l_mbufs s' !! o = Some b /\ filler d b) gen ds;
  em_pool : forall p, l_pools s !! pool = Some p -> exists p', l_pools s' !! pool = Some p' /\
    mp_objs (pool_objs p) ≡ₚ gen ++ mp_objs (pool_objs p');
  em_pools : forall mp, mp <> pool -> l_pools s' !! mp = pools (foldl free_one (l_mem s) lost) !! mp;
  em_count : num_bad_pkts l' = u32 (num_bad_pkts l + Z.of_nat (length ds));
  em_bytes : num_bad_bytes l' = u32 (num_bad_bytes l + sum ((fun d => d - 20 + overhead) <$> ds));
  em_stats : bad_pkts_sent s' = bad_pkts_sent s /\ bad_bytes_sent s' = bad_bytes_sent s
}.

Arguments em_stream {_ _ _ _ _ _ _ _ _}.
Arguments em_other {_ _ _ _ _ _ _ _ _}.
Arguments em_frame {_ _ _ _ _ _ _ _ _}.
Arguments em_fill {_ _ _ _ _ _ _ _ _}.
Arguments em_pool {_ _ _ _ _ _ _ _ _}.
Arguments em_pools {_ _ _ _ _ _ _ _ _}.
Arguments em_count {_ _ _ _ _ _ _ _ _}.
Arguments em_bytes {_ _ _ _ _ _ _ _ _}.
Arguments em_stats {_ _ _ _ _ _ _ _ _}.

Definition locals_ok l : Prop :=
  (length (sendbuf l) < BUF_SIZE)%nat /\ u32 (num_bad_pkts l) = num_bad_pkts l /\
  u32 (num_bad_bytes l) = num_bad_bytes l.

Lemma emitted_refl ov s l : locals_ok l -> emitted ov s l [] [] [] [] s l.
Proof.
  intros (_ & Hn & Hb). split; try done; simpl; rewrite ?app_nil_r, ?Z.add_0_r; try done.
  intros p Hp. by exists p.
Qed.

Lemma emitted_leftover ov v s l out gen ds lost s' l' :
  emitted ov (set_leftover v s) l out gen ds lost s' l' -> emitted ov s l out gen ds lost s' l'.
Proof. intros []. by split. Qed.

Lemma disjoint_nil (gen : list nat) : gen ## [].
Proof. set_solver. Qed.

(** Freeing packets that are not filler frames goes on where it was. *)
Definition agree (gen : list nat) (m m' : mem P) : Prop :=
  (forall x, x ∉ gen -> mbufs m !! x = mbufs m' !! x) /\ (forall mp, mp <> pool -> pools m !! mp = pools m' !! mp).

Lemma free_agree gen lost : forall m m', gen ## lost -> agree gen m m' -> agree gen (foldl free_one m lost) (foldl free_one m' lost).
Proof.
  induction lost as [|y lost IH]; intros m m' Hd [Hm Hp]; [by split|]. cbn [foldl]. apply IH; [set_solver|].
  pose proof (Hm y ltac:(set_solver)) as Hy. split.
  - intros x Hx. destruct (decide (x = y)) as [->|]; [by rewrite !free_one_self, Hy|]. rewrite !free_one_other by done. auto.
  - intros mp Hmp. unfold free_one. rewrite Hy. destruct (mbufs m' !! y) as [b|]; [|auto]. cbn [pools].
    destruct (refcnt b =? 1); [|auto]. destruct (decide (m_pool b = mp)) as [->|]; [by rewrite !lookup_alter_eq, Hp|].
    rewrite !lookup_alter_ne by done. auto.
Qed.

Lemma free_other lost x : forall m : mem P, x ∉ lost -> mbufs (foldl free_one m lost) !! x = mbufs m !! x.
Proof.
  induction lost as [|y lost IH]; intros m Hx; [done|]. cbn [foldl]. rewrite IH, free_one_other; set_solver.
Qed.

Lemma emitted_trans ov s l out1 gen1 ds1 lost1 s1 l1 out2 gen2 ds2 lost2 s2 l2 n :
  pool_ok s n -> gen1 ## lost2 -> emitted ov s l out1 gen1 ds1 lost1 s1 l1 -> emitted ov s1 l1 out2 gen2 ds2 lost2 s2 l2 ->
  emitted ov s l (out1 ++ out2) (gen1 ++ gen2) (ds1 ++ ds2) (lost1 ++ lost2) s2 l2.
Proof.
  intros (p & Hp & _ & Hnd & _) Hlost E1 E2. destruct (em_pool E1 p Hp) as (p1 & Hp1 & Hperm1).
  destruct (em_pool E2 p1 Hp1) as (p2 & Hp2 & Hperm2).
  assert (gen1 ## gen2) as Hdisj.
  { rewrite Hperm1, Hperm2, app_assoc in Hnd. apply NoDup_app in Hnd as (Hnd & _ & _).
    apply NoDup_app in Hnd as (_ & Hd & _). intros x Hx. by apply Hd. }
  assert (agree gen1 (foldl free_one (l_mem s1) lost2) (foldl free_one (l_mem s) (lost1 ++ lost2))) as [Am Ap].
  { rewrite foldl_app. apply free_agree; [done|]. split; [apply (em_frame E1)|apply (em_pools E1)]. }
  split.
  - by rewrite (em_stream E2), (em_stream E1), app_assoc.
  - intros a b Hab. by rewrite (em_other E2), (em_other E1).
  - intros x Hx. rewrite (em_frame E2) by set_solver. apply Am. set_solver.
  - apply Forall2_app; [|apply (em_fill E2)].
    eapply Forall2_impl_in_l; [|apply (em_fill E1)].
    intros o d Ho (b & Hb & Hf). exists b. split; [|done].
    rewrite (em_frame E2), free_other; [done|set_solver..].
  - intros p' Hp'. simplify_eq. exists p2. split; [done|]. by rewrite Hperm1, Hperm2, app_assoc.
  - intros mp Hmp. rewrite (em_pools E2) by done. by apply Ap.
  - rewrite (em_count E2), (em_count E1), wrapu_add_l, length_app.
    f_equal. lia.
  - rewrite (em_bytes E2), (em_bytes E1), wrapu_add_l, fmap_app, sum_app.
    f_equal. lia.
  - destruct (em_stats E1), (em_stats E2). split; congruence.
Qed.

(** ** The operations *)

Lemma wp_in_world {A} (m : M (world P E) A) Q s :
  wp (in_world m) Q s <->
  wp m (fun a w => Q a (Limiter w (leftover_delay s) (bad_pkts_sent s) (bad_bytes_sent s))) (l_world s).
Proof. unfold wp, in_world. destruct (m (l_world s)) as [[a w]| |]; done. Qed.

Lemma eventually_in_world {A} (m : nat -> M (world P E) A) Q s :
  eventually m (fun a w => Q a (Limiter w (leftover_delay s) (bad_pkts_sent s) (bad_bytes_sent s)))
    (l_world s) ->
  eventually (fun fuel => in_world (m fuel)) Q s.
Proof.
  intros (f & a & w & Hf & HQ). eexists f, a, _. split; [|exact HQ].
  intros fuel Hle. unfold in_world. by rewrite Hf.
Qed.

Lemma send_all_loop_mono f : forall f' pkts k (w : world P E) r,
  (f <= f')%nat -> send_all_loop f port queue pkts k w = Ret r -> send_all_loop f' port queue pkts k w = Ret r.
Proof.
  induction f as [|f IH]; intros [|f'] pkts k w r Hf; cbn [send_all_loop]; [done|done|lia|].
  unfold mbind, M_bind, in_env. destruct (rte_eth_tx_burst _ _ _ _) as [n e]. cbv zeta.
  destruct (_ <=? _); [done|]. apply IH. lia.
Qed.

Lemma send_all_eventually pkts (w : world P E) :
  Z.of_nat (length pkts) < 65536 ->
  eventually (fun fuel => dpdk_send_all_packets fuel port queue pkts)
    (fun _ => enqueued w port queue pkts) w.
Proof.
  intros Hl. apply eventually_fuel; [|by apply send_all_spec].
  intros f f' r Hf. by apply send_all_loop_mono.
Qed.

(** The state changes of the filler frame [o] of size [d], of the mbuf [b]. *)
Definition fill_mbuf (d : Z) (b : rte_mbuf) : rte_mbuf :=
  set_ol_flags PKT_TX_NO_CRC_CSUM (set_pkt_len (d - 20) (set_data_len (d - 20) (reset_mbuf b))).

Definition fill_state s (o : nat) (p : mempool P) (p' : P) (b : rte_mbuf) (d : Z) : limiter P E :=
  Limiter (World (Mem (<[o := fill_mbuf d b]> (l_mbufs s))
                      (<[pool := Pool p' (mbuf_data_room_size p) (mbuf_priv_size p)]> (l_pools s)))
             (w_bufs (l_world s)) (w_env (l_world s)))
    0 (bad_pkts_sent s) (bad_bytes_sent s).

Lemma wp_alloc s p p' o b Q :
  l_pools s !! pool = Some p -> mp_get_bulk 1 (pool_objs p) = Some ([o], p') ->
  l_mbufs s !! o = Some b ->
  (Q (Some o) (Limiter (World (Mem (<[o := reset_mbuf b]> (l_mbufs s))
      (<[pool := Pool p' (mbuf_data_room_size p) (mbuf_priv_size p)]> (l_pools s)))
      (w_bufs (l_world s)) (w_env (l_world s))) (leftover_delay s) (bad_pkts_sent s) (bad_bytes_sent s))) ->
  wp (in_world (in_mem (rte_pktmbuf_alloc pool))) Q s.
Proof.
  intros Hp Hg Hb HQ. rewrite wp_in_world, wp_in_mem. unfold rte_pktmbuf_alloc, rte_mbuf_raw_alloc.
  rewrite !wp_bind. unfold wp at 1, rte_mempool_get_bulk. unfold l_pools in Hp. rewrite Hp, Hg.
  rewrite wp_ret. simpl. rewrite wp_bind. unfold rte_pktmbuf_reset. rewrite wp_upd_mbuf.
  exists b. split; [exact Hb|]. rewrite wp_ret. exact HQ.
Qed.

Lemma get_delay_spec s rem n Q :
  0 < rem < 2 ^ 32 -> 0 <= leftover_delay s < min_size ->
  let delay := rem + leftover_delay s in
  let d := delay_size delay in
  (delay < min_size -> Q (None, 0) (set_leftover delay s)) ->
  (min_size <= delay -> pool_ok s (S n) /\ forall o p p' b,
     l_pools s !! pool = Some p -> mp_get_bulk 1 (pool_objs p) = Some ([o], p') ->
     supply n p' -> l_mbufs s !! o = Some b ->
     Q (Some o, if rem <? d then 0 else rem - d) (fill_state s o p p' b d)) ->
  wp (get_delay_pkt_bad_crc pool rem min_size) Q s.
Proof.
  intros Hr Hl delay d HN HS. unfold get_delay_pkt_bad_crc. rewrite wp_bind, wp_gets, wp_bind, wp_modify.
  rewrite (wrapu_small 64) by lia. fold delay. destruct (Z.ltb_spec delay min_size).
  - rewrite wp_bind, wp_modify, wp_ret. by apply HN.
  - fold d. destruct (HS ltac:(done)) as ((p & Hp & (o & p' & Hg & Hs) & Hnd & Hall) & HQ).
    destruct (mp_get_bulk_objs _ _ _ _ Hg) as [_ Hperm].
    assert (o ∈ mp_objs (pool_objs p)) as Ho by (rewrite Hperm; set_solver).
    rewrite Forall_forall in Hall. destruct (Hall o Ho) as [b Hb].
    destruct (delay_size_bounds delay ltac:(lia)) as (B1 & B2 & B3 & B4). fold d in B1, B2, B3, B4.
    assert (20 <= d) by lia.
    rewrite wp_bind. eapply (wp_alloc (set_leftover 0 s)); [exact Hp|exact Hg|exact Hb|].
    do 3 (rewrite wp_bind, wp_in_world, wp_in_mem, wp_upd_mbuf; eexists; split; [apply lookup_insert_eq|];
          cbn [put_mbufs mbufs pools w_mem w_bufs w_env l_world]; rewrite ?insert_insert_eq).
    rewrite wp_ret, !(wrapu_small 64), (wrapu_small 16), (wrapu_small 32) by lia.
    exact (HQ o p p' b Hp Hg Hs Hb).
Qed.

(** A filler frame enters the send buffer. *)
Lemma fill_emitted ov s l n o p p' b d :
  locals_ok l -> pool_ok s n -> l_pools s !! pool = Some p ->
  mp_get_bulk 1 (pool_objs p) = Some ([o], p') -> l_mbufs s !! o = Some b ->
  emitted ov s l [o] [o] [d] [] (fill_state s o p p' b d)
    (Locals (sendbuf l ++ [o]) (u32 (num_bad_pkts l + 1)) (u32 (num_bad_bytes l + u32 (d - 20 + ov)))).
Proof.
  intros Hl Hok Hp Hg Hb. destruct (mp_get_bulk_objs _ _ _ _ Hg) as [_ Hperm]. split; try done.
  - unfold stream. simpl. by rewrite app_assoc.
  - intros x Hx. unfold l_mbufs. simpl. apply lookup_insert_ne. set_solver.
  - constructor; [|constructor]. exists (fill_mbuf d b). split; [apply lookup_insert_eq|done].
  - intros q Hq. simplify_eq. eexists. split; [apply lookup_insert_eq|]. exact Hperm.
  - intros mp Hmp. unfold l_pools. simpl. by apply lookup_insert_ne.
  - simpl. by rewrite wrapu_add_r, Z.add_0_r.
Qed.

Lemma fill_pool_ok s n o p p' b d :
  pool_ok s (S n) -> l_pools s !! pool = Some p -> mp_get_bulk 1 (pool_objs p) = Some ([o], p') ->
  supply n p' -> pool_ok (fill_state s o p p' b d) n.
Proof.
  intros (q & Hq & _ & Hnd & Hall) Hp Hg Hs. simplify_eq.
  destruct (mp_get_bulk_objs _ _ _ _ Hg) as [_ Hperm]. rewrite Hperm in Hnd, Hall.
  eexists. split; [apply lookup_insert_eq|]. split_and!; [done|by apply NoDup_cons in Hnd as [_ ?]|].
  simpl in *. apply Forall_cons in Hall as [_ Hall]. eapply Forall_impl; [exact Hall|].
  intros x Hx. unfold l_mbufs. simpl. apply lookup_insert_is_Some'. by right.
Qed.

(** ** Flushing the send buffer *)

Lemma flush_if_spec ov s l n last :
  (length (sendbuf l) <= BUF_SIZE)%nat -> u32 (num_bad_pkts l) = num_bad_pkts l ->
  u32 (num_bad_bytes l) = num_bad_bytes l -> pool_ok s n ->
  eventually (fun fuel => flush_if fuel port queue last l)
    (fun l' s' => emitted ov s l [] [] [] [] s' l' /\ locals_ok l' /\ pool_ok s' n /\
       leftover_delay s' = leftover_delay s /\ l_mbufs s' = l_mbufs s /\ (last = true -> sendbuf l' = [])) s.
Proof.
  intros Hlen Hn Hb Hok. unfold flush_if.
  destruct (Nat.leb_spec BUF_SIZE (length (sendbuf l))); [|destruct last]; cbn [orb].
  3: { apply eventually_ret. assert (locals_ok l) by (split; [lia|done]).
       split; [by apply emitted_refl|done]. }
  all: apply eventually_bind, eventually_in_world;
    eapply eventually_mono; [apply send_all_eventually; unfold BUF_SIZE in *; lia|];
    intros [] w' (Hm & Hbf & Hs & Ho); apply eventually_ret.
  all: assert (locals_ok (Locals [] (num_bad_pkts l) (num_bad_bytes l))) by (split; [simpl; unfold BUF_SIZE; lia|done]).
  all: split_and!; try done; [|unfold pool_ok, l_pools, l_mbufs; simpl; by rewrite Hm|
                              unfold l_mbufs; simpl; by rewrite Hm].
  all: split; try done; unfold stream, l_sent, l_mbufs, l_pools; simpl;
    rewrite ?Hm, ?app_nil_r, ?Z.add_0_r; try done; try (intros p Hp; by exists p).
Qed.

Lemma push_ok (pkt : nat) l s Q :
  (length (sendbuf l) < BUF_SIZE)%nat ->
  Q (Locals (sendbuf l ++ [pkt]) (num_bad_pkts l) (num_bad_bytes l)) s -> wp (push pkt l) Q s.
Proof.
  intros Hl HQ. unfold push. destruct (Nat.ltb_spec (length (sendbuf l)) BUF_SIZE); [|lia]. done.
Qed.

(** ** The gap *)

(** The stream grows by the frames of the schedule. *)
Definition gap_sent ov s l n (ds : list Z) (left' : Z) l' s' : Prop :=
  exists gen, emitted ov s l gen gen ds [] s' l' /\ locals_ok l' /\ pool_ok s' (n - length ds) /\
    leftover_delay s' = left'.

Lemma gap_sent_cons ov s l n o d s1 l1 ds left' l' s' :
  pool_ok s n -> emitted ov s l [o] [o] [d] [] s1 l1 ->
  gap_sent ov s1 l1 (n - 1) ds left' l' s' -> gap_sent ov s l n (d :: ds) left' l' s'.
Proof.
  intros Hok E1 (gen & E2 & Hl & Hp & Hleft). exists (o :: gen). split_and!; [|done| |done].
  - exact (emitted_trans _ _ _ _ _ _ [] _ _ _ _ _ [] _ _ _ Hok (disjoint_nil _) E1 E2).
  - by replace (n - length (d :: ds))%nat with (n - 1 - length ds)%nat by (simpl; lia).
Qed.

Lemma delay_loop_spec ov fuel : forall s l n rem,
  0 <= rem < 2 ^ 32 -> (rem + 768) / 769 <= Z.of_nat fuel ->
  0 <= leftover_delay s < min_size -> locals_ok l ->
  (length (gap_loop fuel min_size (leftover_delay s) rem).1 <= n)%nat -> pool_ok s n ->
  eventually (fun txfuel => delay_loop fuel txfuel port queue pool min_size ov rem l)
    (gap_sent ov s l n (gap_loop fuel min_size (leftover_delay s) rem).1
       (gap_loop fuel min_size (leftover_delay s) rem).2) s.
Proof.
  induction fuel as [|fuel IH]; intros s l n rem Hr Hf Hleft Hl Hn Hok; cbn [gap_loop delay_loop] in *.
  { assert (rem = 0) as -> by (Z.div_mod_to_equations; lia). cbn [Z.ltb Z.compare negb].
    apply eventually_ret. exists []. split_and!; [by apply emitted_refl|done| |done].
    by rewrite Nat.sub_0_r. }
  destruct (Z.ltb_spec 0 rem); cbn [negb].
  2: { apply eventually_ret. exists []. split_and!; [by apply emitted_refl|done| |done].
       by rewrite Nat.sub_0_r. }
  apply (eventually_bind_wp (get_delay_pkt_bad_crc pool rem min_size)).
  set (delay := rem + leftover_delay s) in *. set (d := delay_size delay) in *.
  apply (get_delay_spec s rem (n - 1)); [lia|done| |]; fold delay d; intros Hd.
  - destruct (Z.ltb_spec delay min_size); [|lia]. simpl in Hn |- *.
    apply (eventually_bind (fun _ => mret l)), eventually_ret.
    apply eventually_bind. eapply eventually_mono.
    { apply (flush_if_spec ov _ _ n false); [destruct Hl; lia|apply Hl|apply Hl|exact Hok]. }
    intros l1 s1 (E1 & Hl1 & Hok1 & Hleft1 & _ & _). destruct fuel; cbn [delay_loop Z.ltb Z.compare negb];
      (apply eventually_ret; exists []; split_and!; [by eapply emitted_leftover|done|by rewrite Nat.sub_0_r|exact Hleft1]).
  - destruct (Z.ltb_spec delay min_size); [lia|].
    set (rem' := if rem <? d then 0 else rem - d) in *.
    destruct (gap_loop fuel min_size 0 rem') as [ds left'] eqn:Eg. simpl in Hn |- *.
    split; [by replace (S (n - 1)) with n by lia|].
    intros o p p' b Hp Hg Hs Hb.
    assert (0 <= rem' < 2 ^ 32 /\ (rem' + 768) / 769 + 1 <= (rem + 768) / 769) as [Hr' Hf'].
    { destruct (delay_size_bounds delay ltac:(lia)) as (B1 & B2 & B3 & B4). fold d in B1, B2, B3, B4.
      subst rem'. destruct (Z.ltb_spec rem d); [Z.div_mod_to_equations; lia|].
      destruct (Z.lt_ge_cases delay 1538); Z.div_mod_to_equations; lia. }
    pose proof (fill_emitted ov s l n o p p' b d Hl Hok Hp Hg Hb) as E1.
    assert (pool_ok (fill_state s o p p' b d) (n - 1)) as Hok1.
    { apply (fill_pool_ok s); [by replace (S (n - 1)) with n by lia|done..]. }
    set (s1 := fill_state s o p p' b d) in *. set (l1 := Locals _ _ _) in E1.
    apply (eventually_bind_wp (b ← in_world (in_mem (load_mbuf o)); push o _)).
    rewrite wp_bind, wp_in_world, wp_in_mem, wp_load_mbuf. exists (fill_mbuf d b).
    split; [apply lookup_insert_eq|]. apply push_ok; [apply Hl|]. change (pkt_len (fill_mbuf d b)) with (d - 20).
    change (Locals _ _ _) with l1. replace (Limiter _ _ _ _) with s1 by done.
    apply eventually_bind. eapply eventually_mono.
    { apply (flush_if_spec ov s1 l1 (n - 1) false); [|apply wrapu_idem|apply wrapu_idem|exact Hok1].
      subst l1. simpl. rewrite length_app. simpl. destruct Hl. lia. }
    intros l2 s2 (E2 & Hl2 & Hok2 & Hleft2 & _ & _).
    specialize (IH s2 l2 (n - 1)%nat rem' Hr' ltac:(lia)). rewrite Hleft2 in IH. simpl in IH.
    rewrite Eg in IH. eapply eventually_mono; [apply IH; [lia|done|simpl; lia|done]|].
    intros l' s' Hg'. eapply (gap_sent_cons _ _ _ _ o); [exact Hok| |exact Hg'].
    exact (emitted_trans _ _ _ _ _ _ [] _ _ _ _ _ [] _ _ _ Hok (disjoint_nil _) E1 E2).
Qed.

(** ** All packets *)

(** The two send loops differ in how they read the delay and count the frames, and one
    of them loses packets: those with [false]. *)
Context (ov : Z) (delay_of : rte_mbuf -> Z) (Hdelay : forall b, 0 <= delay_of b < 2 ^ 32).

Fixpoint load_loop (txfuel : nat) (load : list (nat * bool)) (l : locals) : M (limiter P E) locals :=
  match load with
  | [] => mret l
  | (pkt, keep) :: rest =>
    b ← in_world (in_mem (load_mbuf pkt));
    l ← delay_loop (delay_fuel (delay_of b)) txfuel port queue pool min_size ov (delay_of b) l;
    l ← (if (keep : bool) then push pkt l else in_world (in_mem (rte_pktmbuf_free (Some pkt))) ;; mret l);
    l ← flush_if txfuel port queue (match rest with [] => true | _ => false end) l;
    load_loop txfuel rest l
  end.

Definition delays (h : gmap nat rte_mbuf) (load : list nat) : list Z :=
  (fun x => default 0 (delay_of <$> h !! x)) <$> load.

Definition kept (x : nat * bool) : list nat := if x.2 then [x.1] else [].
Definition losses (load : list (nat * bool)) : list nat := concat ((fun x : nat * bool => if x.2 then [] else [x.1]) <$> load).

(** Gaps and packets, in the order they are sent. *)
Definition weave_kept (gens : list (list nat)) (load : list (nat * bool)) : list nat :=
  concat (zip_with (fun g x => g ++ kept x) gens load).

(** A packet that can be lost: one segment, which does not come from the pool of the
    filler frames. *)
Definition losable s (x : nat) : Prop :=
  seg_chain (l_mbufs s) (Some x) [x] /\ freeable (l_mem s) x /\ ~ returns_to (l_mem s) pool x.

(** The packets to send are mbufs outside the pool; none is lost twice, or lost and
    sent. *)
Record load_ok s (load : list (nat * bool)) : Prop := {
  lo_mbufs : Forall (fun x => is_Some (l_mbufs s !! x.1)) load;
  lo_pool p : l_pools s !! pool = Some p -> mp_objs (pool_objs p) ## load.*1;
  lo_lost : Forall (losable s) (losses load);
  lo_once : NoDup (losses load) /\ losses load ## concat (kept <$> load)
}.

Lemma losses_cons pkt keep load : losses ((pkt, keep) :: load) = (if keep then [] else [pkt]) ++ losses load.
Proof. by destruct keep. Qed.

Lemma losses_subset x load : x ∈ losses load -> x ∈ load.*1.
Proof.
  induction load as [|[y keep] load IH]; [set_solver|]. rewrite losses_cons, fmap_cons. destruct keep; set_solver.
Qed.

Lemma rest_kept x load : x ∈ load.*1 -> x ∈ losses load \/ x ∈ concat (kept <$> load).
Proof.
  induction load as [|[y keep] load IH]; [set_solver|]. rewrite losses_cons, !fmap_cons. cbn [concat kept fst snd]. destruct keep; set_solver.
Qed.

(** What is lost is not among the rest. *)
Lemma load_ok_rest s pkt keep load :
  load_ok s ((pkt, keep) :: load) -> load_ok s load /\ forall x, x ∈ load.*1 -> x ∉ (if keep then [] else [pkt]).
Proof.
  intros [Hm Hp Hl [Hnd Hd]]. rewrite losses_cons in *. rewrite fmap_cons in Hd. cbn [concat] in Hd. apply Forall_cons in Hm as [_ Hm]. apply Forall_app in Hl as [_ Hl].
  apply NoDup_app in Hnd as (_ & Hn & Hnd). split.
  - split; try done; [|split; [done|set_solver]]. intros p Ep. specialize (Hp p Ep). rewrite fmap_cons in Hp. set_solver.
  - intros x Hx Hin. apply rest_kept in Hx as [Hx|Hx]; [by apply (Hn x)|]. apply (Hd x); set_solver.
Qed.

(** Sending and freeing other packets leaves the rest as it was. *)
Lemma emitted_load s l out gen ds lost s' l' load n :
  pool_ok s n -> emitted ov s l out gen ds lost s' l' -> load_ok s load -> (forall x, x ∈ load.*1 -> x ∉ lost) ->
  load_ok s' load /\ delays (l_mbufs s') load.*1 = delays (l_mbufs s) load.*1.
Proof.
  intros (p & Hp & _) Em [Hb Hd Hl Ho] Hlost. destruct (em_pool Em p Hp) as (p' & Hp' & Hperm). specialize (Hd p Hp).
  assert (forall x, x ∈ load.*1 -> l_mbufs s' !! x = l_mbufs s !! x) as Hx.
  { intros x Hx. rewrite (em_frame Em), free_other; [done|by apply Hlost|]. intros Hg. apply (Hd x); [|done]. rewrite Hperm. set_solver. }
  assert (forall mp, is_Some (l_pools s !! mp) -> is_Some (l_pools s' !! mp)) as Hpools.
  { intros mp Hmp. destruct (decide (mp = pool)) as [->|]; [by exists p'|]. rewrite (em_pools Em) by done.
    clear -Hmp. unfold l_pools in Hmp. unfold l_mem. revert Hmp. generalize (w_mem (l_world s)). induction lost as [|y lost IH]; intros m Hmp; [done|]. apply IH. by apply free_one_pool. }
  split; [split; [| | |done]|].
  - rewrite Forall_forall in Hb |- *. intros x Hin. rewrite Hx; [by apply Hb|]. apply list_elem_of_fmap. by exists x.
  - intros q Hq. simplify_eq. intros x Hin. apply Hd. rewrite Hperm. set_solver.
  - rewrite Forall_forall in Hl |- *. intros x Hin. destruct (Hl x Hin) as ((_ & b & Hbx & Hc) & (b' & Hb' & Hf) & Hr).
    pose proof (Hx x (losses_subset _ _ Hin)) as Ex. unfold losable, l_mem, l_mbufs, l_pools in *. split_and!.
    + split; [done|]. exists b. by rewrite Ex.
    + exists b'. rewrite Ex. split; [done|]. destruct Hf as (? & ? & Hmp). split_and!; try done; try lia. by apply Hpools.
    + intros (b2 & Hb2 & Hr2). rewrite Ex in Hb2. apply Hr. by exists b2.
  - apply list_fmap_ext. intros i x Hi. rewrite Hx; [done|]. by eapply list_elem_of_lookup_2.
Qed.

Lemma emitted_push s l (pkt : nat) :
  locals_ok l -> emitted ov s l [pkt] [] [] [] s (Locals (sendbuf l ++ [pkt]) (num_bad_pkts l) (num_bad_bytes l)).
Proof.
  intros (_ & Hn & Hb). split; simpl; rewrite ?Z.add_0_r; try done.
  - unfold stream. simpl. by rewrite app_assoc.
  - intros p Hp. by exists p.
Qed.

(** A packet is lost. *)
Lemma lose_spec s l n pkt :
  losable s pkt -> locals_ok l -> pool_ok s n ->
  wp (in_world (in_mem (rte_pktmbuf_free (Some pkt))) ;; mret l)
    (fun l' s' => l' = l /\ emitted ov s l [] [] [] [pkt] s' l /\ pool_ok s' n /\ leftover_delay s' = leftover_delay s) s.
Proof.
  intros (Hc & Hf & Hr) (_ & Hn & Hb) (p & Hp & Hs & Hnd & Hall). rewrite wp_bind, wp_in_world, wp_in_mem.
  unfold wp at 1. rewrite (pktmbuf_free_spec _ _ [pkt]); [|exact Hc|by repeat constructor]. cbn [foldl].
  rewrite wp_ret. set (m' := free_one (w_mem (l_world s)) pkt).
  assert (pools m' !! pool = l_pools s !! pool) as Epool.
  { unfold m', free_one. destruct (mbufs (w_mem (l_world s)) !! pkt) as [b|] eqn:Eb; [|done]. cbn [pools].
    destruct (Z.eqb_spec (refcnt b) 1) as [E1|]; [|done]. rewrite lookup_alter_ne; [done|]. intros E2. apply Hr. by exists b. }
  split_and!; try done.
  - split; try done; unfold stream; cbn [l_world sendbuf length sum fmap list_fmap]; rewrite ?app_nil_r, ?Z.add_0_r; try done; [].
    intros q Hq. exists q. split; [|done]. unfold l_pools at 1. cbn [l_world w_mem]. by rewrite Epool.
  - exists p. unfold l_pools, l_mbufs in *. cbn [l_world w_mem]. rewrite Epool. split_and!; try done.
    eapply Forall_impl; [exact Hall|]. intros x Hx. unfold m'. destruct (decide (x = pkt)) as [->|].
    + rewrite free_one_self. by apply fmap_is_Some.
    + by rewrite free_one_other.
Qed.

(** The packet itself: into the send buffer, or lost. *)
Lemma packet_spec s l n pkt (keep : bool) :
  (keep = false -> losable s pkt) -> locals_ok l -> pool_ok s n ->
  wp (if keep then push pkt l else in_world (in_mem (rte_pktmbuf_free (Some pkt))) ;; mret l)
    (fun l' s' => emitted ov s l (kept (pkt, keep)) [] [] (if keep then [] else [pkt]) s' l' /\ (length (sendbuf l') <= BUF_SIZE)%nat /\
      (u32 (num_bad_pkts l') = num_bad_pkts l' /\ u32 (num_bad_bytes l') = num_bad_bytes l') /\ pool_ok s' n /\ leftover_delay s' = leftover_delay s) s.
Proof.
  intros Hlos Hl Hok. destruct keep.
  - apply push_ok; [apply Hl|]. split_and!; try done; [by apply emitted_push| |apply Hl|apply Hl].
    cbn [sendbuf]. rewrite length_app. destruct Hl. cbn. lia.
  - eapply wp_mono; [by apply lose_spec, Hok; auto|]. intros l' s' (-> & Em & Hok' & Hleft). destruct Hl as (Hl1 & Hl2 & Hl3). split_and!; try done. lia.
Qed.

Lemma losable_emitted s l out gen ds s' l' pkt n :
  pool_ok s n -> emitted ov s l out gen ds [] s' l' -> (forall p, l_pools s !! pool = Some p -> pkt ∉ mp_objs (pool_objs p)) ->
  losable s pkt -> losable s' pkt.
Proof.
  intros Hok Em Hd Hlos. assert (load_ok s [(pkt, false)]) as Hload.
  { split; [| |by apply (Forall_singleton (losable s) pkt)|split; [apply (NoDup_singleton pkt)|set_solver]].
    - constructor; [|constructor]. destruct Hlos as (_ & (b & Hb & _) & _). by exists b.
    - intros p Hp. specialize (Hd p Hp). set_solver. }
  destruct (emitted_load _ _ _ _ _ _ _ _ _ n Hok Em Hload) as [[_ _ Hl _] _]; [set_solver|]. by apply (Forall_singleton (losable s') pkt).
Qed.

(** Filler frames are not packets. *)
Lemma gap_disjoint s l out gen ds lost s' l' (load xs : list nat) n :
  pool_ok s n -> emitted ov s l out gen ds lost s' l' ->
  (forall p, l_pools s !! pool = Some p -> mp_objs (pool_objs p) ## load) -> (forall x, x ∈ xs -> x ∈ load) -> gen ## xs.
Proof.
  intros (p & Hp & _) Em Hd Hxs x Hg Hx. destruct (em_pool Em p Hp) as (p' & _ & Hperm). apply (Hd p Hp x); [|by apply Hxs].
  rewrite Hperm. set_solver.
Qed.

(** What has been sent for [load] with the gaps [dss]. *)
Definition load_sent s l n (load : list (nat * bool)) (dss : list (list Z)) (left' : Z) l' s' : Prop :=
  exists gens, length <$> gens = length <$> dss /\
    emitted ov s l (weave_kept gens load) (concat gens) (concat dss) (losses load) s' l' /\ locals_ok l' /\
    pool_ok s' (n - length (concat dss)) /\ leftover_delay s' = left' /\
    (match load with [] => l' = l | _ => sendbuf l' = [] end).

Lemma gap_length left rem : 0 <= left < min_size -> 0 <= rem -> 0 <= (gap min_size left rem).2 < min_size.
Proof.
  intros Hl Hr. pose proof (gap_account min_size left rem ltac:(lia) Hl Hr) as Ha.
  destruct (gap min_size left rem). simpl. lia.
Qed.

Lemma load_loop_spec load : forall s l n,
  0 <= leftover_delay s < min_size -> locals_ok l -> load_ok s load ->
  let '(dss, left') := schedule min_size (leftover_delay s) (delays (l_mbufs s) load.*1) in
  (length (concat dss) <= n)%nat -> pool_ok s n ->
  eventually (fun txfuel => load_loop txfuel load l) (load_sent s l n load dss left') s.
Proof.
  induction load as [|[pkt keep] load IH]; intros s l n Hleft Hl Hload; cbn [delays fmap list_fmap fst schedule].
  { intros Hn Hok. apply eventually_ret. exists []. split_and!; [done|by apply emitted_refl|done| |done|done].
    by rewrite Nat.sub_0_r. }
  destruct (load_ok_rest _ _ _ _ Hload) as [Hrest Hnot]. pose proof (lo_pool _ _ Hload) as Hdisj. pose proof (lo_lost _ _ Hload) as Hlos.
  rewrite losses_cons in Hlos. destruct (Forall_cons_1 _ _ _ (lo_mbufs _ _ Hload)) as [[b Hb] _]. cbn [fst] in Hb. rewrite Hb.
  change (default 0 (delay_of <$> Some b)) with (delay_of b).
  pose proof (Hdelay b) as Hrem. set (rem := delay_of b) in *. fold (delays (l_mbufs s) load.*1).
  destruct (gap min_size (leftover_delay s) rem) as [ds left1] eqn:Eg.
  pose proof (gap_length _ _ Hleft (proj1 Hrem)) as Hleft1. rewrite Eg in Hleft1. simpl in Hleft1.
  destruct (schedule min_size left1 (delays (l_mbufs s) load.*1)) as [dss left2] eqn:Es.
  intros Hn Hok. cbn [concat] in Hn |- *. rewrite length_app in Hn.
  cbn [load_loop]. apply (eventually_bind_wp (in_world (in_mem (load_mbuf pkt)))).
  rewrite wp_in_world, wp_in_mem, wp_load_mbuf. exists b. split; [exact Hb|]. fold rem.
  replace (Limiter _ _ _ _) with s by (by destruct s as [[[]]]).
  unfold gap in Eg. apply eventually_bind. eapply eventually_mono.
  { apply (delay_loop_spec ov (delay_fuel rem) s l n rem Hrem); [|done|done|rewrite Eg; simpl; lia|done].
    unfold delay_fuel. Z.div_mod_to_equations; lia. }
  rewrite Eg. intros l1 s1 (gen & E1 & Hl1 & Hok1 & Hleft1'). simpl in Hok1, Hleft1', E1.
  apply (eventually_bind_wp (if keep then push pkt l1 else in_world (in_mem (rte_pktmbuf_free (Some pkt))) ;; mret l1)).
  eapply wp_mono; [apply (packet_spec s1 l1 (n - length ds) pkt keep); [|done|done]|].
  { intros ->. apply Forall_app in Hlos as [Hlos _]. eapply losable_emitted; [exact Hok|exact E1| |by apply Forall_cons in Hlos as [? _]].
    intros p Hp Hin. apply (Hdisj p Hp pkt); [done|]. set_solver. }
  intros l2 s2 (E2 & Hb2 & Hc2 & Hok2 & Hleft2).
  set (last := match load with [] => true | _ => false end).
  apply eventually_bind. eapply eventually_mono.
  { apply (flush_if_spec ov s2 l2 (n - length ds) last); [done|apply Hc2|apply Hc2|done]. }
  intros l3 s3 (E3 & Hl3 & Hok3 & Hleft3 & _ & Hlast).
  pose proof (emitted_trans _ _ _ _ _ _ _ _ _ _ _ _ [] _ _ _ Hok1 (disjoint_nil _) E2 E3) as E23. rewrite !app_nil_r in E23.
  assert (gen ## (if keep then [] else [pkt])) as Hg1 by (eapply gap_disjoint; [exact Hok|exact E1|exact Hdisj|destruct keep; set_solver]).
  pose proof (emitted_trans _ _ _ _ _ _ [] _ _ _ _ _ _ _ _ _ Hok Hg1 E1 E23) as Em. cbn [app] in Em. rewrite !app_nil_r in Em.
  destruct (emitted_load _ _ _ _ _ _ _ _ load n Hok Em Hrest Hnot) as [Hload3 Hdel].
  specialize (IH s3 l3 (n - length ds)%nat). rewrite Hdel, Hleft3, Hleft2, Hleft1', Es in IH.
  eapply eventually_mono; [apply IH; [lia|done|done|lia|done]|].
  intros l' s' (gens & Hlen & E4 & Hl' & Hok' & Hleft' & Hbuf).
  exists (gen :: gens). split_and!.
  - simpl. f_equal; [|exact Hlen]. exact (Forall2_length _ _ _ (em_fill E1)).
  - assert (gen ## losses load) as Hg2.
    { eapply gap_disjoint; [exact Hok|exact Em|exact Hdisj|]. intros x Hx. apply losses_subset in Hx. set_solver. }
    pose proof (emitted_trans _ _ _ _ _ _ _ _ _ _ _ _ _ _ _ _ Hok Hg2 Em E4) as Et.
    rewrite losses_cons. unfold weave_kept. cbn [zip_with concat]. by rewrite <- ?app_assoc in Et |- *.
  - done.
  - cbn [concat]; rewrite length_app. by replace (n - (length ds + length (concat dss)))%nat
      with (n - length ds - length (concat dss))%nat by lia.
  - done.
  - destruct load; [|exact Hbuf]. rewrite Hbuf. by apply Hlast.
Qed.

(** The effect of a whole call with the gaps [dss]: the queue received, for every
    packet of [load], the filler frames of its gap and then the packet unless it is lost;
    the frames have the sizes of the schedule and are counted, and every lost packet went
    back to its pool, or lost a reference. *)
Definition limited_loss s (load : list (nat * bool)) (dss : list (list Z)) (left' : Z) s' : Prop :=
  exists gens, length <$> gens = length <$> dss /\
    l_sent s' port queue = l_sent s port queue ++ weave_kept gens load /\
    (forall p q, (p, q) <> (port, queue) -> l_sent s' p q = l_sent s p q) /\
    (forall x, x ∉ concat gens -> l_mbufs s' !! x = if decide (x ∈ losses load) then freed <$> l_mbufs s !! x else l_mbufs s !! x) /\
    (forall mp p k, mp <> pool -> l_pools s !! mp = Some p -> mp_room (pool_objs p) (length (filter (returns_to (l_mem s) mp) (losses load)) + k) ->
      exists p', l_pools s' !! mp = Some p' /\
        mp_objs (pool_objs p') ≡ₚ filter (returns_to (l_mem s) mp) (losses load) ++ mp_objs (pool_objs p)) /\
    Forall2 (fun o d => exists b, l_mbufs s' !! o = Some b /\ filler d b) (concat gens) (concat dss) /\
    leftover_delay s' = left' /\
    moongen_get_bad_pkts_sent port s' =
      u64 (moongen_get_bad_pkts_sent port s + u32 (Z.of_nat (length (concat dss)))) /\
    moongen_get_bad_bytes_sent port s' =
      u64 (moongen_get_bad_bytes_sent port s + u32 (sum ((fun d => d - 20 + ov) <$> concat dss))).

Lemma load_loop_limited s load n :
  0 <= leftover_delay s < min_size -> load_ok s load ->
  let '(dss, left') := schedule min_size (leftover_delay s) (delays (l_mbufs s) load.*1) in
  (length (concat dss) <= n)%nat -> pool_ok s n ->
  eventually (fun txfuel => l ← load_loop txfuel load (Locals [] 0 0);
                modify (count_bad port (num_bad_pkts l) (num_bad_bytes l)))
    (fun _ => limited_loss s load dss left') s.
Proof.
  intros Hleft Hload. assert (locals_ok (Locals [] 0 0)) as Hl by (split; [simpl; unfold BUF_SIZE; lia|done]).
  pose proof (load_loop_spec load s (Locals [] 0 0) n Hleft Hl Hload) as Hspec.
  destruct (schedule min_size (leftover_delay s) (delays (l_mbufs s) load.*1)) as [dss left'].
  intros Hn Hok. apply eventually_bind. eapply eventually_mono; [by apply Hspec|].
  intros l' s' (gens & Hlen & Em & _ & _ & Hleft' & Hbuf). apply eventually_wp. rewrite wp_modify.
  assert (sendbuf l' = []) as Hb by (destruct load; [by subst l'|done]). destruct (lo_once _ _ Hload) as [Hnd _].
  exists gens. pose proof (em_stream Em) as Hs. unfold stream in Hs. rewrite Hb in Hs. simpl in Hs.
  rewrite !app_nil_r in Hs. destruct (em_stats Em) as [S1 S2].
  split_and!; [done|exact Hs|apply (em_other Em)| | |apply (em_fill Em)|done| |].
  - intros x Hx. transitivity (l_mbufs s' !! x); [done|]. rewrite (em_frame Em) by done. by apply free_all_mbufs.
  - intros mp p k Hmp Hp Hroom. destruct (free_all_pools (losses load) (l_mem s) mp p k Hnd Hp Hroom) as (p' & Hp' & Hperm & _).
    exists p'. split; [|done]. transitivity (l_pools s' !! mp); [done|]. by rewrite (em_pools Em).
  - unfold moongen_get_bad_pkts_sent at 1. cbn [count_bad bad_pkts_sent]. rewrite lookup_insert_eq, (em_count Em).
    unfold moongen_get_bad_pkts_sent. by rewrite S1.
  - unfold moongen_get_bad_bytes_sent at 1. cbn [count_bad bad_bytes_sent]. rewrite lookup_insert_eq, (em_bytes Em).
    unfold moongen_get_bad_bytes_sent. by rewrite S2.
Qed.

(** *** No losses *)

Definition no_loss (load : list nat) : list (nat * bool) := (fun x => (x, true)) <$> load.

Definition weave (gens : list (list nat)) (load : list nat) : list nat :=
  concat (zip_with (fun g x => g ++ [x]) gens load).

Definition limited s (load : list nat) (dss : list (list Z)) (left' : Z) s' : Prop :=
  exists gens, length <$> gens = length <$> dss /\
    l_sent s' port queue = l_sent s port queue ++ weave gens load /\
    (forall p q, (p, q) <> (port, queue) -> l_sent s' p q = l_sent s p q) /\
    (forall x, x ∉ concat gens -> l_mbufs s' !! x = l_mbufs s !! x) /\
    Forall2 (fun o d => exists b, l_mbufs s' !! o = Some b /\ filler d b) (concat gens) (concat dss) /\
    leftover_delay s' = left' /\
    moongen_get_bad_pkts_sent port s' =
      u64 (moongen_get_bad_pkts_sent port s + u32 (Z.of_nat (length (concat dss)))) /\
    moongen_get_bad_bytes_sent port s' =
      u64 (moongen_get_bad_bytes_sent port s + u32 (sum ((fun d => d - 20 + ov) <$> concat dss))).

Lemma no_loss_fst load : (no_loss load).*1 = load.
Proof. induction load as [|x load IH]; [done|]. cbn. f_equal. exact IH. Qed.

Lemma no_loss_losses load : losses (no_loss load) = [].
Proof. by induction load. Qed.

Lemma no_loss_weave gens : forall load, weave_kept gens (no_loss load) = weave gens load.
Proof. induction gens as [|g gens IH]; intros [|x load]; try done. unfold weave_kept, weave. cbn. f_equal. apply IH. Qed.

Lemma no_loss_limited s load dss left' s' : limited_loss s (no_loss load) dss left' s' -> limited s load dss left' s'.
Proof.
  intros (gens & H1' & H2' & H3' & H4' & _ & H5' & H6'). exists gens. rewrite no_loss_weave in H2'. rewrite no_loss_losses in H4'.
  by split_and!; try apply H6'.
Qed.

(** The packets to send are mbufs outside the pool. *)
Lemma no_loss_ok s load :
  Forall (fun x => is_Some (l_mbufs s !! x)) load -> (forall p, l_pools s !! pool = Some p -> mp_objs (pool_objs p) ## load) -> load_ok s (no_loss load).
Proof.
  clear Hmin Hdelay. intros Hm Hp. split; rewrite ?no_loss_losses, ?no_loss_fst; try done; [by apply Forall_fmap|]. split; [constructor|set_solver].
Qed.
End Refine.

(** ** The two senders *)

Section Senders.
Context {P : Type} `{MempoolLaws P} {E : Type} `{NicLaws E}.
Context (port queue : Z) (pool : nat) (min_size : Z) (Hmin : 20 <= min_size < 2 ^ 32).

Definition plain_delay (b : rte_mbuf) : Z := u32 (udata64 b).
Definition checked_delay (b : rte_mbuf) : Z := if 268435455 <? udata64 b then 0 else u32 (udata64 b).

Lemma plain_delay_range b : 0 <= plain_delay b < 2 ^ 32.
Proof. apply wrapu_range. lia. Qed.

Lemma checked_delay_range b : 0 <= checked_delay b < 2 ^ 32.
Proof. unfold checked_delay. destruct (_ <? _); [lia|]. apply wrapu_range. lia. Qed.

(** Step through a call both sides make. *)
Ltac same_call :=
  match goal with
  | |- match ?m with _ => _ end = match ?m with _ => _ end => destruct m as [[? ?]| |]; [|done..]
  end.

Lemma send_loop_load txfuel load : forall l (s : limiter P E),
  send_loop txfuel port queue pool min_size load l s =
  load_loop port queue pool min_size 24 plain_delay txfuel (no_loss load) l s.
Proof.
  induction load as [|pkt load IH]; intros l s; [done|]. cbn [no_loss fmap list_fmap send_loop load_loop].
  unfold mbind, M_bind, plain_delay. repeat same_call. destruct load as [|y load]; cbn [no_loss fmap list_fmap] in IH |- *; same_call; apply IH.
Qed.

Lemma plain_limited (s : limiter P E) load :
  0 <= leftover_delay s < min_size -> load_ok pool s (no_loss load) ->
  let '(dss, left') := schedule min_size (leftover_delay s) (delays plain_delay (l_mbufs s) load) in
  pool_ok pool s (length (concat dss)) ->
  eventually (fun fuel => moongen_send_all_packets_with_delay_bad_crc fuel port queue load pool min_size) (fun _ => limited port queue 24 s load dss left') s.
Proof.
  intros Hleft Hload. pose proof (fun n => load_loop_limited port queue pool min_size Hmin 24 plain_delay
    plain_delay_range s (no_loss load) n Hleft Hload) as Hl. rewrite no_loss_fst in Hl.
  destruct (schedule min_size _ _) as [dss left']. intros Hok. destruct (Hl _ (Nat.le_refl _) Hok) as (f & [] & s' & Hrun & Hlim).
  exists f, tt, s'. split; [|by eapply no_loss_limited]. intros fuel Hf. rewrite <- (Hrun fuel Hf).
  unfold moongen_send_all_packets_with_delay_bad_crc, mbind, M_bind. by rewrite send_loop_load.
Qed.

(** C31: [moongen_send_all_packets_with_delay_bad_crc] returns, without overrunning
    its send buffer: the queue has then received, for every packet in order, the
    filler frames of the schedule computed from the packet's delay and the delay
    left over before, and then the packet; the counters grew by these frames and
    their bytes, and no other mbuf changed. *)
Theorem rate_limiter_correct (s : limiter P E) (load : list nat) (dss : list (list Z))
    (left' : Z) :
  0 <= leftover_delay s < min_size -> load_ok pool s (no_loss load) ->
  schedule min_size (leftover_delay s) (delays plain_delay (l_mbufs s) load) = (dss, left') ->
  pool_ok pool s (length (concat dss)) ->
  exists fuel0 s', (forall fuel, (fuel0 <= fuel)%nat ->
      moongen_send_all_packets_with_delay_bad_crc fuel port queue load pool min_size s = Ret (tt, s')) /\
    limited port queue 24 s load dss left' s'.
Proof.
  intros Hleft Hload. pose proof (plain_limited s load Hleft Hload) as Hl.
  intros Hsch. rewrite Hsch in Hl. intros Hok. destruct (Hl Hok) as (f & [] & s' & Hrun & Hlim). by exists f, s'.
Qed.

Lemma send_loss_loop_load txfuel load : forall l (s : limiter P E),
  send_loss_loop txfuel port queue pool min_size load l s = load_loop port queue pool min_size 0 checked_delay txfuel load l s.
Proof.
  induction load as [|[pkt keep] load IH]; intros l s; [done|]. cbn [send_loss_loop load_loop].
  unfold mbind, M_bind, checked_delay. repeat same_call. apply IH.
Qed.

(** The variant with losses: a packet that is lost has its gap, and goes back to its
    pool; the others are sent as in the plain variant. A delay above [0x0fffffff] counts
    as none, and a filler frame is counted without the 24 bytes of overhead the plain
    variant counts. *)
Theorem rate_limiter_loss_correct (s : limiter P E) (load : list (nat * bool)) (dss : list (list Z))
    (left' : Z) :
  0 <= leftover_delay s < min_size -> load_ok pool s load ->
  schedule min_size (leftover_delay s) (delays checked_delay (l_mbufs s) load.*1) = (dss, left') ->
  pool_ok pool s (length (concat dss)) ->
  exists fuel0 s', (forall fuel, (fuel0 <= fuel)%nat ->
      moongen_send_all_packets_with_delay_bad_crc_loss fuel port queue load pool min_size s = Ret (tt, s')) /\
    limited_loss port queue pool 0 s load dss left' s'.
Proof.
  intros Hleft Hload. pose proof (fun n => load_loop_limited port queue pool min_size Hmin 0 checked_delay
    checked_delay_range s load n Hleft Hload) as Hl.
  intros Hsch. rewrite Hsch in Hl.
  intros Hok. destruct (Hl _ (Nat.le_refl _) Hok) as (f & [] & s' & Hrun & Hlim).
  exists f, s'. split; [|exact Hlim]. intros fuel Hf. rewrite <- (Hrun fuel Hf).
  unfold moongen_send_all_packets_with_delay_bad_crc_loss, mbind, M_bind. by rewrite send_loss_loop_load.
Qed.

(** ** Timing *)

(** The bytes the frames [gen] occupy on the wire. *)
Definition frame_bytes (h : gmap nat rte_mbuf) (gen : list nat) : Z :=
  sum ((fun o => default 0 (pkt_len <$> h !! o) + 20) <$> gen).

Lemma frame_bytes_fill h gen ds :
  Forall2 (fun o d => exists b, h !! o = Some b /\ filler d b) gen ds -> frame_bytes h gen = sum ds.
Proof.
  induction 1 as [|o d gen ds (b & Hb & Hf & _) _ IH]; [done|].
  change (frame_bytes h (o :: gen)) with (default 0 (pkt_len <$> h !! o) + 20 + frame_bytes h gen).
  rewrite Hb, IH. simpl. lia.
Qed.

Lemma schedule_account delays : forall left,
  0 <= left < min_size -> Forall (fun d => 0 <= d) delays ->
  let '(dss, left') := schedule min_size left delays in
  Forall (fun d => Z.min min_size 769 <= d <= 1538) (concat dss) /\ 0 <= left' < min_size /\
  sum (concat dss) + left' <= sum delays + left /\
  sum delays <= sum (concat dss) + left' + Z.of_nat (length delays) * min_size /\
  (Forall (fun d => d + min_size <= 1538) delays -> sum (concat dss) + left' = sum delays + left).
Proof.
  induction delays as [|rem delays IH]; intros left Hl Hd; cbn [schedule];
    [simpl; split_and!; try constructor; lia|].
  apply Forall_cons in Hd as [Hrem Hd].
  pose proof (gap_account min_size left rem ltac:(lia) Hl Hrem) as Ha.
  pose proof (gap_loop_sizes min_size (delay_fuel rem) left rem ltac:(lia) ltac:(lia) Hrem) as Hs.
  fold (gap min_size left rem) in Hs. destruct (gap min_size left rem) as [ds left1].
  destruct Ha as (Ha & Hl1 & Hx & _). specialize (IH left1 Hl1 Hd).
  destruct (schedule min_size left1 delays) as [dss left2]. destruct IH as (Hf & Hl2 & Hub & Hlb & Hex).
  cbn [concat]. rewrite sum_app. change (sum (rem :: delays)) with (rem + sum delays).
  split_and!; [apply Forall_app; by split|lia|lia|lia|rewrite length_cons; lia|].
  intros [Hr Hds]%Forall_cons. specialize (Hex Hds). lia.
Qed.

(** C32: The time between the packets: every filler frame has between
    [min(min_pkt_size, 769)] and 1538 bytes on the wire; all frames together with
    the delay still outstanding at the end never exceed the requested delays plus
    the delay outstanding before, fall short of the requested delays by less than
    [min_pkt_size] per packet, and are exact when no requested delay exceeds
    [1538 - min_pkt_size]. *)
Theorem rate_limiter_timing (s : limiter P E) (load : list nat) :
  0 <= leftover_delay s < min_size -> load_ok pool s (no_loss load) ->
  pool_ok pool s (length (concat
    (schedule min_size (leftover_delay s) (delays plain_delay (l_mbufs s) load)).1)) ->
  exists fuel0 s' gens, (forall fuel, (fuel0 <= fuel)%nat ->
      moongen_send_all_packets_with_delay_bad_crc fuel port queue load pool min_size s = Ret (tt, s')) /\
    l_sent s' port queue = l_sent s port queue ++ weave gens load /\
    Forall (fun o => exists b, l_mbufs s' !! o = Some b /\
              Z.min min_size 769 <= pkt_len b + 20 <= 1538) (concat gens) /\
    0 <= leftover_delay s' < min_size /\
    let requested := delays plain_delay (l_mbufs s) load in
    let total := frame_bytes (l_mbufs s') (concat gens) + leftover_delay s' in
    total <= sum requested + leftover_delay s /\
    sum requested <= total + Z.of_nat (length load) * min_size /\
    (Forall (fun d => d + min_size <= 1538) requested -> total = sum requested + leftover_delay s).
Proof.
  intros Hleft Hload. pose proof (plain_limited s load Hleft Hload) as Hl.
  pose proof (schedule_account (delays plain_delay (l_mbufs s) load) (leftover_delay s) Hleft) as Hacc.
  destruct (schedule min_size (leftover_delay s) (delays plain_delay (l_mbufs s) load)) as [dss left'].
  intros Hok. destruct (Hl Hok) as (f & [] & s' & Hrun & gens & Hlen & Hsent & _ & _ & Hfill & Hleft' & _).
  destruct Hacc as (Hsz & Hb & Hub & Hlb & Hex).
  { apply Forall_fmap, Forall_true. intros x. simpl. destruct (l_mbufs s !! x); simpl; [|lia].
    apply plain_delay_range. }
  exists f, s', gens. cbv zeta. rewrite (frame_bytes_fill _ _ _ Hfill), Hleft'.
  unfold delays at 2 in Hlb. rewrite length_fmap in Hlb. split_and!; try done; try lia.
  - clear -Hfill Hsz. induction Hfill as [|o d gen ds (b & Hb & Hf & _) _ IH]; [constructor|].
    apply Forall_cons in Hsz as [Hd Hsz]. constructor; [|by apply IH]. exists b. split; [done|]. lia.
Qed.

(** The comment promises that delay that could not be emulated is added in
    later, but when the requested delay is 1538 bytes or more the outstanding
    delay is forgotten: the frame and the remaining delay make up the requested
    delay alone and nothing is outstanding any more. *)
Theorem leftover_dropped (s : limiter P E) (rem : Z) :
  1538 <= rem < 2 ^ 32 -> 0 < leftover_delay s < min_size -> min_size <= 1538 -> pool_ok pool s 1 ->
  exists o b rem' s', get_delay_pkt_bad_crc pool rem min_size s = Ret ((Some o, rem'), s') /\
    l_mbufs s' !! o = Some b /\ rem' + (pkt_len b + 20) = rem /\ leftover_delay s' = 0.
Proof.
  intros Hr Hl Hm Hok. set (d := delay_size (rem + leftover_delay s)).
  destruct (delay_size_bounds (rem + leftover_delay s) ltac:(lia)) as (B1 & _). fold d in B1.
  enough (wp (get_delay_pkt_bad_crc pool rem min_size) (fun r s' => exists o b, r = (Some o, rem - d) /\
    l_mbufs s' !! o = Some b /\ pkt_len b = d - 20 /\ leftover_delay s' = 0) s) as Hwp.
  { apply wp_run in Hwp as (r & s' & Er & o & b & -> & Hb & Hlen & H0').
    exists o, b, (rem - d), s'. split_and!; [done..|lia|done]. }
  apply (get_delay_spec pool min_size Hmin s rem 0); [lia|lia|lia|]. intros _. split; [done|].
  intros o p p' b Hp Hg _ Hb. fold d. destruct (Z.ltb_spec rem d); [lia|].
  exists o, (fill_mbuf d b). split_and!; [done|apply lookup_insert_eq|done|done].
Qed.
End Senders.

(** ** Examples *)

(** Three packets that ask for delays of 3000, 50 and 700 bytes, a pool with the
    mbufs 4 to 8, ten bytes outstanding, and a port that stalls three times. *)
Definition lim_mbufs : gmap nat rte_mbuf :=
  <[1%nat := set_udata64 3000 (demo_seg 1 1 100 None 1)]>
  (<[2%nat := set_udata64 50 (demo_seg 1 1 100 None 2)]>
  (<[3%nat := set_udata64 700 (demo_seg 1 1 100 None 3)]> (demo_packet 1 500 4 5))).

Definition lim_demo : limiter (list nat) simnic :=
  Limiter (World (Mem lim_mbufs {[ 0%nat := Pool [4; 5; 6; 7; 8]%nat 2176 0 ]}) ∅ (Sim [] 3 990)) 10 ∅ ∅.

Lemma lim_demo_load : load_ok 0 lim_demo (no_loss [1; 2; 3]%nat).
Proof.
  apply no_loss_ok; [repeat constructor; vm_compute; by eexists|]. intros p. vm_compute. intros [= <-].
  intros x. vm_compute mp_objs. set_solver.
Qed.

(** A pool with the mbufs 4 to 8. *)
Lemma five_frames_ok (s : limiter (list nat) simnic) n :
  l_pools s !! 0%nat = Some (Pool [4; 5; 6; 7; 8]%nat 2176 0) -> Forall (fun o => is_Some (l_mbufs s !! o)) [4; 5; 6; 7; 8]%nat ->
  (n <= 5)%nat -> pool_ok 0 s n.
Proof.
  intros Hp Hb Hn. apply (pool_ok_le _ _ 5); [done|]. eexists. split; [exact Hp|].
  split_and!; [|apply (bool_decide_eq_true_1 (NoDup _)); vm_compute; reflexivity|done].
  do 5 (eexists _, _; split; [vm_compute; reflexivity|]). done.
Qed.

Lemma lim_demo_pool n : (n <= 5)%nat -> pool_ok 0 lim_demo n.
Proof. apply five_frames_ok; [vm_compute; reflexivity|repeat constructor; vm_compute; by eexists]. Qed.

Lemma rate_limiter_correct_witness :
  exists fuel0 s', (forall fuel, (fuel0 <= fuel)%nat ->
      moongen_send_all_packets_with_delay_bad_crc fuel 0 1 [1; 2; 3]%nat 0 60 lim_demo = Ret (tt, s')) /\
    limited 0 1 24 lim_demo [1; 2; 3]%nat [[1538; 1462]; []; [750]] 0 s'.
Proof.
  apply (rate_limiter_correct 0 1 0 60 ltac:(lia) lim_demo [1; 2; 3]%nat);
    [simpl; lia|apply lim_demo_load|vm_compute; reflexivity|apply lim_demo_pool; simpl; lia].
Defined.

(** The second packet comes from another pool and is lost. *)
Definition loss_demo : limiter (list nat) simnic :=
  Limiter (World (Mem (<[2%nat := Mbuf 2 128 1 1 255 0 0 100 100 0 0 0 2176 0 50 1 None 0 0]> lim_mbufs)
                      {[ 0%nat := Pool [4; 5; 6; 7; 8]%nat 2176 0; 1%nat := Pool [] 2176 0 ]}) ∅ (Sim [] 3 990)) 10 ∅ ∅.

Definition loss_load : list (nat * bool) := [(1, true); (2, false); (3, true)]%nat.

Lemma loss_demo_load : load_ok 0 loss_demo loss_load.
Proof.
  split; [repeat constructor; vm_compute; by eexists| | |split; [apply (NoDup_singleton 2%nat)|vm_compute losses; vm_compute concat; set_solver]].
  - intros p. vm_compute. intros [= <-]. intros x. vm_compute mp_objs. set_solver.
  - apply (Forall_singleton (losable 0 loss_demo) 2%nat). split_and!.
    + split; [done|]. eexists. by split; [vm_compute; reflexivity|].
    + eexists. split_and!; [vm_compute; reflexivity|done|done|done|vm_compute; by eexists].
    + intros (b & Hb & _ & Hm). vm_compute in Hb. injection Hb as <-. discriminate Hm.
Qed.

Lemma loss_demo_pool n : (n <= 5)%nat -> pool_ok 0 loss_demo n.
Proof. apply five_frames_ok; [vm_compute; reflexivity|repeat constructor; vm_compute; by eexists]. Qed.

Lemma rate_limiter_loss_correct_witness :
  exists fuel0 s', (forall fuel, (fuel0 <= fuel)%nat ->
      moongen_send_all_packets_with_delay_bad_crc_loss fuel 0 1 loss_load 0 60 loss_demo = Ret (tt, s')) /\
    limited_loss 0 1 0 0 loss_demo loss_load [[1538; 1462]; []; [750]] 0 s'.
Proof.
  apply (rate_limiter_loss_correct 0 1 0 60 ltac:(lia) loss_demo loss_load);
    [simpl; lia|apply loss_demo_load|vm_compute; reflexivity|apply loss_demo_pool; simpl; lia].
Defined.

Lemma rate_limiter_timing_witness :
  delays plain_delay (l_mbufs lim_demo) [1; 2; 3]%nat = [3000; 50; 700] /\
  exists fuel0 s' gens, (forall fuel, (fuel0 <= fuel)%nat ->
      moongen_send_all_packets_with_delay_bad_crc fuel 0 1 [1; 2; 3]%nat 0 60 lim_demo = Ret (tt, s')) /\
    l_sent s' 0 1 = l_sent lim_demo 0 1 ++ weave gens [1; 2; 3]%nat /\
    Forall (fun o => exists b, l_mbufs s' !! o = Some b /\ Z.min 60 769 <= pkt_len b + 20 <= 1538)
      (concat gens) /\
    0 <= leftover_delay s' < 60 /\
    let requested := delays plain_delay (l_mbufs lim_demo) [1; 2; 3]%nat in
    let total := frame_bytes (l_mbufs s') (concat gens) + leftover_delay s' in
    total <= sum requested + leftover_delay lim_demo /\
    sum requested <= total + Z.of_nat (length [1; 2; 3]%nat) * 60 /\
    (Forall (fun d => d + 60 <= 1538) requested -> total = sum requested + leftover_delay lim_demo).
Proof.
  split; [vm_compute; reflexivity|].
  apply (rate_limiter_timing 0 1 0 60 ltac:(lia) lim_demo [1; 2; 3]%nat);
    [simpl; lia|apply lim_demo_load|apply lim_demo_pool; vm_compute; lia].
Defined.

Lemma leftover_dropped_witness :
  exists o b rem' s', get_delay_pkt_bad_crc 0 3000 60 lim_demo = Ret ((Some o, rem'), s') /\
    l_mbufs s' !! o = Some b /\ rem' + (pkt_len b + 20) = 3000 /\ leftover_delay s' = 0.
Proof.
  apply (leftover_dropped 0 60 ltac:(lia) lim_demo 3000);
    [lia|simpl; lia|lia|apply lim_demo_pool; lia].
Defined.
