(* ===== verification/Ring.v ===== *)
(** librte_ring (rte_ring.h, rte_ring.c) and libmoon/src/ring.c: the bounded ring
    buffer between two cores, as a sequential object. Indices are 32-bit counters
    that wrap around and are masked at each access of the array that follows the
    structure; an access outside that array, or outside the object table, is a
    fault. The interleavings of producer and consumer are in RingConc. *)
From Stdlib Require Import ZArith Lia.
From stdpp Require Import base numbers list.
From S2P Require Import Prelude.

#[local] Open Scope Z_scope.

(** ** Data *)

Inductive rte_ring_queue_behavior := RTE_RING_QUEUE_FIXED | RTE_RING_QUEUE_VARIABLE.

Record rte_ring_headtail := HeadTail { head : Z; tail : Z; single : bool }.

(** [ring] is the array of pointers behind the structure. *)
Record rte_ring := Ring {
  rsize : Z; mask : Z; capacity : Z;
  prod : rte_ring_headtail; cons : rte_ring_headtail;
  ring : list nat
}.

Definition RING_F_SP_ENQ : Z := 1.
Definition RING_F_SC_DEQ : Z := 2.
Definition RING_F_EXACT_SZ : Z := 4.
Definition RTE_RING_SZ_MASK : Z := 268435455.
Definition EINVAL : Z := 22.
Definition ENOBUFS : Z := 105.
Definition ENOENT : Z := 2.
Definition ENOMEM : Z := 12.

(** ** Creation *)

Definition POWEROF2 (x : Z) : bool := Z.land (u32 (x - 1)) x =? 0.

(** [rte_align32pow2]: the smallest power of two that is not below [x]. *)
Definition rte_align32pow2 (x : Z) : Z :=
  let x := u32 (x - 1) in
  let x := Z.lor x (Z.shiftr x 1) in
  let x := Z.lor x (Z.shiftr x 2) in
  let x := Z.lor x (Z.shiftr x 4) in
  let x := Z.lor x (Z.shiftr x 8) in
  let x := Z.lor x (Z.shiftr x 16) in
  u32 (x + 1).

Definition headtail_init (single : bool) : rte_ring_headtail := HeadTail 0 0 single.

(** The memory behind the ring is zeroed by the memzone. *)
Definition rte_ring_init (count flags : Z) : Z + rte_ring :=
  let p := headtail_init (negb (Z.land flags RING_F_SP_ENQ =? 0)) in
  let c := headtail_init (negb (Z.land flags RING_F_SC_DEQ =? 0)) in
  if negb (Z.land flags RING_F_EXACT_SZ =? 0) then
    let size := rte_align32pow2 (u32 (count + 1)) in
    inr (Ring size (u32 (size - 1)) count p c (replicate (Z.to_nat size) 0%nat))
  else if negb (POWEROF2 count) || (RTE_RING_SZ_MASK <? count) then inl (- EINVAL)
  else inr (Ring count (u32 (count - 1)) (u32 (count - 1)) p c (replicate (Z.to_nat count) 0%nat)).

(** [sizeof(struct rte_ring)], with producer and consumer each on two cache lines of
    their own. *)
Definition RING_HEADER : Z := 384.
Definition RTE_CACHE_LINE_SIZE : Z := 64.

Definition RTE_ALIGN (sz align : Z) : Z := Z.land (sz + (align - 1)) (Z.lnot (align - 1)).

Definition rte_ring_get_memsize (count : Z) : Z :=
  if negb (POWEROF2 count) || (RTE_RING_SZ_MASK <? count) then - EINVAL
  else RTE_ALIGN (RING_HEADER + count * 8) RTE_CACHE_LINE_SIZE.

(** What the environment layer answers: whether the list entry can be allocated, and
    the error of reserving a memory zone of a given size, if any. *)
Record ring_env := RingEnv { tailq_alloc : bool; memzone_reserve : Z -> option Z }.

(** The value [rte_errno] is set to, or the ring. The names made by the only caller
    are too short for the error of a long name. *)
Definition rte_ring_create (e : ring_env) (count flags : Z) : Z + rte_ring :=
  let slots := if negb (Z.land flags RING_F_EXACT_SZ =? 0) then rte_align32pow2 (u32 (count + 1)) else count in
  let ring_size := rte_ring_get_memsize slots in
  if ring_size <? 0 then inl ring_size
  else if negb (tailq_alloc e) then inl ENOMEM
  else match memzone_reserve e ring_size with
       | Some err => inl err
       | None => rte_ring_init count flags
       end.

(** libmoon creates rings for one producer and one consumer. *)
Definition create_ring (e : ring_env) (count : Z) : Z + rte_ring :=
  rte_ring_create e count (Z.lor RING_F_SP_ENQ RING_F_SC_DEQ).

(** ** Copying *)

(** [ring[idx] = obj_table[i]] *)
Definition put (obj_table : list nat) (r : list nat) (idx i : Z) : option (list nat) :=
  x ← obj_table !! Z.to_nat i;
  if (Z.to_nat idx <? length r)%nat then Some (<[Z.to_nat idx := x]> r) else None.

(** [for (...; k rounds; i++, idx++) ring[idx] = obj_table[i];] *)
Fixpoint put_loop (k : nat) (obj_table r : list nat) (idx i : Z) : option (list nat) :=
  match k with
  | O => Some r
  | S k => r ← put obj_table r idx i; put_loop k obj_table r (idx + 1) (i + 1)
  end.

(** The loop unrolled four times, [k] rounds of it. *)
Fixpoint put_loop4 (k : nat) (obj_table r : list nat) (idx i : Z) : option (list nat) :=
  match k with
  | O => Some r
  | S k =>
    r ← put obj_table r idx i;
    r ← put obj_table r (idx + 1) (i + 1);
    r ← put obj_table r (idx + 2) (i + 2);
    r ← put obj_table r (idx + 3) (i + 3);
    put_loop4 k obj_table r (idx + 4) (i + 4)
  end.

(** The macro ENQUEUE_PTRS. *)
Definition ENQUEUE_PTRS (r : rte_ring) (prod_head : Z) (obj_table : list nat) (n : Z) :
    option (list nat) :=
  let size := rsize r in
  let idx := Z.land prod_head (mask r) in
  if u32 (idx + n) <? size then
    let m := Z.land n 4294967292 in
    ring' ← put_loop4 (Z.to_nat (m / 4)) obj_table (ring r) idx 0;
    put_loop (Z.to_nat (Z.land n 3)) obj_table ring' (idx + m) m
  else
    let k := size - idx in
    ring' ← put_loop (Z.to_nat k) obj_table (ring r) idx 0;
    put_loop (Z.to_nat (n - k)) obj_table ring' 0 k.

Fixpoint get_loop (k : nat) (r : list nat) (idx : Z) : option (list nat) :=
  match k with
  | O => Some []
  | S k => x ← r !! Z.to_nat idx; rest ← get_loop k r (idx + 1); Some (x :: rest)
  end.

Fixpoint get_loop4 (k : nat) (r : list nat) (idx : Z) : option (list nat) :=
  match k with
  | O => Some []
  | S k =>
    x0 ← r !! Z.to_nat idx;
    x1 ← r !! Z.to_nat (idx + 1);
    x2 ← r !! Z.to_nat (idx + 2);
    x3 ← r !! Z.to_nat (idx + 3);
    rest ← get_loop4 k r (idx + 4);
    Some (x0 :: x1 :: x2 :: x3 :: rest)
  end.

(** The macro DEQUEUE_PTRS; the result is the object table. *)
Definition DEQUEUE_PTRS (r : rte_ring) (cons_head n : Z) : option (list nat) :=
  let idx := Z.land cons_head (mask r) in
  let size := rsize r in
  if u32 (idx + n) <? size then
    let m := Z.land n 4294967292 in
    front ← get_loop4 (Z.to_nat (m / 4)) (ring r) idx;
    rest ← get_loop (Z.to_nat (Z.land n 3)) (ring r) (idx + m);
    Some (front ++ rest)
  else
    let k := size - idx in
    front ← get_loop (Z.to_nat k) (ring r) idx;
    rest ← get_loop (Z.to_nat (n - k)) (ring r) 0;
    Some (front ++ rest).

(** ** Moving the heads *)

Definition set_prod (p : rte_ring_headtail) (r : rte_ring) : rte_ring :=
  Ring (rsize r) (mask r) (capacity r) p (cons r) (ring r).
Definition set_cons (c : rte_ring_headtail) (r : rte_ring) : rte_ring :=
  Ring (rsize r) (mask r) (capacity r) (prod r) c (ring r).
Definition set_ring (a : list nat) (r : rte_ring) : rte_ring :=
  Ring (rsize r) (mask r) (capacity r) (prod r) (cons r) a.
Definition set_head (v : Z) (ht : rte_ring_headtail) : rte_ring_headtail :=
  HeadTail v (tail ht) (single ht).
Definition set_tail (v : Z) (ht : rte_ring_headtail) : rte_ring_headtail :=
  HeadTail (head ht) v (single ht).

(** The number of objects a request for [n] gets when [room] are available. *)
Definition clip (behavior : rte_ring_queue_behavior) (n room : Z) : Z :=
  if room <? n then match behavior with RTE_RING_QUEUE_FIXED => 0 | _ => room end else n.

(** Without another producer the compare-and-set succeeds at once, as the
    single-producer store does: the loop body runs once. The result is the number
    of objects, the old head, the new head and the free entries. *)
Definition rte_ring_move_prod_head (n : Z) (behavior : rte_ring_queue_behavior) :
    M rte_ring (Z * Z * Z * Z) :=
  r ← gets id;
  let old_head := head (prod r) in
  let free_entries := u32 (capacity r + tail (cons r) - old_head) in
  let n := clip behavior n free_entries in
  if n =? 0 then mret (0, old_head, old_head, free_entries)
  else
    let new_head := u32 (old_head + n) in
    modify (set_prod (set_head new_head (prod r))) ;;
    mret (n, old_head, new_head, free_entries).

Definition rte_ring_move_cons_head (n : Z) (behavior : rte_ring_queue_behavior) :
    M rte_ring (Z * Z * Z * Z) :=
  r ← gets id;
  let old_head := head (cons r) in
  let entries := u32 (tail (prod r) - old_head) in
  let n := clip behavior n entries in
  if n =? 0 then mret (0, old_head, old_head, entries)
  else
    let new_head := u32 (old_head + n) in
    modify (set_cons (set_head new_head (cons r))) ;;
    mret (n, old_head, new_head, entries).

(** [update_tail]: with several producers it waits for the earlier ones, which
    never comes when none is there. *)
Definition update_tail (ht : rte_ring_headtail) (old_val new_val : Z) (single : bool) :
    M rte_ring rte_ring_headtail :=
  if single || (tail ht =? old_val) then mret (set_tail new_val ht) else diverge.

(** ** Enqueue and dequeue *)

(** The number of objects and the free space afterwards. *)
Definition rte_ring_do_enqueue (obj_table : list nat) (n : Z) (behavior : rte_ring_queue_behavior)
    (is_sp : bool) : M rte_ring (Z * Z) :=
  mv ← rte_ring_move_prod_head n behavior;
  let '(n, prod_head, prod_next, free_entries) := mv in
  if n =? 0 then mret (0, free_entries)
  else
    r ← gets id;
    match ENQUEUE_PTRS r prod_head obj_table n with
    | None => fault
    | Some a =>
      modify (set_ring a) ;;
      r ← gets id;
      p ← update_tail (prod r) prod_head prod_next is_sp;
      modify (set_prod p) ;;
      mret (n, u32 (free_entries - n))
    end.

(** The objects and the entries that remain. *)
Definition rte_ring_do_dequeue (n : Z) (behavior : rte_ring_queue_behavior) (is_sc : bool) :
    M rte_ring (list nat * Z) :=
  mv ← rte_ring_move_cons_head n behavior;
  let '(n, cons_head, cons_next, entries) := mv in
  if n =? 0 then mret ([], entries)
  else
    r ← gets id;
    match DEQUEUE_PTRS r cons_head n with
    | None => fault
    | Some objs =>
      r ← gets id;
      c ← update_tail (cons r) cons_head cons_next is_sc;
      modify (set_cons c) ;;
      mret (objs, u32 (entries - n))
    end.

Definition rte_ring_mp_enqueue_bulk (objs : list nat) (n : Z) : M rte_ring (Z * Z) :=
  rte_ring_do_enqueue objs n RTE_RING_QUEUE_FIXED false.
Definition rte_ring_sp_enqueue_bulk (objs : list nat) (n : Z) : M rte_ring (Z * Z) :=
  rte_ring_do_enqueue objs n RTE_RING_QUEUE_FIXED true.
Definition rte_ring_enqueue_bulk (objs : list nat) (n : Z) : M rte_ring (Z * Z) :=
  r ← gets id; rte_ring_do_enqueue objs n RTE_RING_QUEUE_FIXED (single (prod r)).
Definition rte_ring_mp_enqueue_burst (objs : list nat) (n : Z) : M rte_ring (Z * Z) :=
  rte_ring_do_enqueue objs n RTE_RING_QUEUE_VARIABLE false.
Definition rte_ring_sp_enqueue_burst (objs : list nat) (n : Z) : M rte_ring (Z * Z) :=
  rte_ring_do_enqueue objs n RTE_RING_QUEUE_VARIABLE true.
Definition rte_ring_enqueue_burst (objs : list nat) (n : Z) : M rte_ring (Z * Z) :=
  r ← gets id; rte_ring_do_enqueue objs n RTE_RING_QUEUE_VARIABLE (single (prod r)).

(** [enqueue_bulk(r, &obj, 1, NULL) ? 0 : -ENOBUFS] *)
Definition enqueue_one (bulk : list nat -> Z -> M rte_ring (Z * Z)) (obj : nat) : M rte_ring Z :=
  k ← bulk [obj] 1; mret (if k.1 =? 0 then - ENOBUFS else 0).

Definition rte_ring_mp_enqueue : nat -> M rte_ring Z := enqueue_one rte_ring_mp_enqueue_bulk.
Definition rte_ring_sp_enqueue : nat -> M rte_ring Z := enqueue_one rte_ring_sp_enqueue_bulk.
Definition rte_ring_enqueue : nat -> M rte_ring Z := enqueue_one rte_ring_enqueue_bulk.

Definition rte_ring_mc_dequeue_bulk (n : Z) : M rte_ring (list nat * Z) :=
  rte_ring_do_dequeue n RTE_RING_QUEUE_FIXED false.
Definition rte_ring_sc_dequeue_bulk (n : Z) : M rte_ring (list nat * Z) :=
  rte_ring_do_dequeue n RTE_RING_QUEUE_FIXED true.
Definition rte_ring_dequeue_bulk (n : Z) : M rte_ring (list nat * Z) :=
  r ← gets id; rte_ring_do_dequeue n RTE_RING_QUEUE_FIXED (single (cons r)).
Definition rte_ring_mc_dequeue_burst (n : Z) : M rte_ring (list nat * Z) :=
  rte_ring_do_dequeue n RTE_RING_QUEUE_VARIABLE false.
Definition rte_ring_sc_dequeue_burst (n : Z) : M rte_ring (list nat * Z) :=
  rte_ring_do_dequeue n RTE_RING_QUEUE_VARIABLE true.
Definition rte_ring_dequeue_burst (n : Z) : M rte_ring (list nat * Z) :=
  r ← gets id; rte_ring_do_dequeue n RTE_RING_QUEUE_VARIABLE (single (cons r)).

(** [dequeue_bulk(r, obj_p, 1, NULL) ? 0 : -ENOENT], with the object read. *)
Definition dequeue_one (bulk : Z -> M rte_ring (list nat * Z)) : M rte_ring (Z + nat) :=
  k ← bulk 1; mret (match k.1 with x :: _ => inr x | [] => inl (- ENOENT) end).

Definition rte_ring_mc_dequeue : M rte_ring (Z + nat) := dequeue_one rte_ring_mc_dequeue_bulk.
Definition rte_ring_sc_dequeue : M rte_ring (Z + nat) := dequeue_one rte_ring_sc_dequeue_bulk.
Definition rte_ring_dequeue : M rte_ring (Z + nat) := dequeue_one rte_ring_dequeue_bulk.

(** ** Queries *)

Definition rte_ring_count (r : rte_ring) : Z :=
  let count := Z.land (u32 (tail (prod r) - tail (cons r))) (mask r) in
  if capacity r <? count then capacity r else count.
Definition rte_ring_free_count (r : rte_ring) : Z := u32 (capacity r - rte_ring_count r).
Definition rte_ring_full (r : rte_ring) : bool := rte_ring_free_count r =? 0.
Definition rte_ring_empty (r : rte_ring) : bool := rte_ring_count r =? 0.
Definition rte_ring_get_size (r : rte_ring) : Z := rsize r.
Definition rte_ring_get_capacity (r : rte_ring) : Z := capacity r.

(** ** libmoon/src/ring.c *)

Definition ring_enqueue (obj : list nat) (n : Z) : M rte_ring Z :=
  k ← rte_ring_sp_enqueue_bulk obj n; mret (i32 k.1).
Definition ring_dequeue (n : Z) : M rte_ring (Z * list nat) :=
  k ← rte_ring_sc_dequeue_bulk n; mret (Z.of_nat (length k.1), k.1).
Definition ring_count (r : rte_ring) : Z := i32 (rte_ring_count r).
Definition ring_free_count (r : rte_ring) : Z := i32 (rte_ring_free_count r).
Definition ring_empty (r : rte_ring) : bool := rte_ring_empty r.
Definition ring_full (r : rte_ring) : bool := rte_ring_full r.
