(* ===== verification/RingSpec.v ===== *)
(** The ring buffer is a bounded FIFO queue: every operation of rte_ring.h and
    libmoon/src/ring.c against a queue of objects, through wrap-around of the 32-bit
    indices and of the array, and a client theorem over the queue interface. *)
From Stdlib Require Import ZArith Lia.
From stdpp Require Import base numbers list.
From S2P Require Import Prelude Ring.

#[local] Open Scope Z_scope.

(** ** The copy loops *)

Lemma put_loop_spec k objs : forall r idx i,
  (idx + k <= length r)%nat -> (i + k <= length objs)%nat ->
  exists r', put_loop k objs r (Z.of_nat idx) (Z.of_nat i) = Some r' /\ length r' = length r /\
    forall x, r' !! x = if decide (idx <= x < idx + k)%nat then objs !! (i + (x - idx))%nat else r !! x.
Proof.
  induction k as [|k IH]; intros r idx i Hr Ho; cbn [put_loop].
  - exists r. split_and!; [done..|]. intros x. by rewrite decide_False by lia.
  - unfold put. rewrite !Nat2Z.id. destruct (lookup_lt_is_Some_2 objs i ltac:(lia)) as [v Hv].
    rewrite Hv. cbn [mbind option_bind]. destruct (Nat.ltb_spec idx (length r)); [|lia].
    cbn [mbind option_bind]. replace (Z.of_nat idx + 1) with (Z.of_nat (S idx)) by lia.
    replace (Z.of_nat i + 1) with (Z.of_nat (S i)) by lia.
    destruct (IH (<[idx := v]> r) (S idx) (S i)) as (r' & -> & Hl & Hx).
    { rewrite length_insert. lia. } { lia. }
    exists r'. rewrite length_insert in Hl. split_and!; [done..|]. intros x. rewrite Hx.
    destruct (decide (S idx <= x < S idx + k)%nat).
    + rewrite decide_True by lia. f_equal. lia.
    + destruct (decide (x = idx)) as [->|].
      * rewrite decide_True, list_lookup_insert_eq by lia. by rewrite Nat.sub_diag, Nat.add_0_r.
      * rewrite list_lookup_insert_ne by done. by rewrite decide_False by lia.
Qed.

(** The unrolled loops are the plain ones. *)
Lemma put_loop4_plain k objs : forall r idx i,
  put_loop4 k objs r idx i = put_loop (4 * k) objs r idx i.
Proof.
  induction k as [|k IH]; intros r idx i; [done|]. replace (4 * S k)%nat with (S (S (S (S (4 * k))))) by lia.
  cbn [put_loop4 put_loop]. rewrite <- !Z.add_assoc.
  change (1 + 1) with 2; change (1 + 2) with 3; change (1 + 3) with 4.
  destruct (put objs r idx i) as [r1|]; [|done]; cbn [mbind option_bind].
  destruct (put objs r1 (idx + 1) (i + 1)) as [r2|]; [|done]; cbn [mbind option_bind].
  destruct (put objs r2 (idx + 2) (i + 2)) as [r3|]; [|done]; cbn [mbind option_bind].
  destruct (put objs r3 (idx + 3) (i + 3)) as [r4|]; [|done]; cbn [mbind option_bind]. apply IH.
Qed.

Lemma put_loop_app k m objs : forall r idx i,
  put_loop (k + m) objs r idx i =
  (r ← put_loop k objs r idx i; put_loop m objs r (idx + Z.of_nat k) (i + Z.of_nat k)).
Proof.
  induction k as [|k IH]; intros r idx i; cbn [put_loop Nat.add].
  - by rewrite !Z.add_0_r.
  - destruct (put objs r idx i) as [r1|]; [|done]; cbn [mbind option_bind]. rewrite IH.
    destruct (put_loop k objs r1 (idx + 1) (i + 1)); [|done]; cbn [mbind option_bind].
    f_equal; lia.
Qed.

Lemma get_loop_spec k r : forall idx,
  (idx + k <= length r)%nat -> get_loop k r (Z.of_nat idx) = Some (take k (drop idx r)).
Proof.
  induction k as [|k IH]; intros idx Hr; cbn [get_loop]; [by rewrite take_0|].
  rewrite Nat2Z.id. destruct (lookup_lt_is_Some_2 r idx ltac:(lia)) as [v Hv]. rewrite Hv.
  cbn [mbind option_bind]. replace (Z.of_nat idx + 1) with (Z.of_nat (S idx)) by lia.
  rewrite IH by lia. cbn [mbind option_bind]. by rewrite (drop_S _ _ _ Hv).
Qed.

Lemma get_loop4_spec k r : forall idx,
  (idx + 4 * k <= length r)%nat -> get_loop4 k r (Z.of_nat idx) = Some (take (4 * k) (drop idx r)).
Proof.
  induction k as [|k IH]; intros idx Hr; cbn [get_loop4]; [by rewrite take_0|].
  replace (Z.of_nat idx + 1) with (Z.of_nat (S idx)) by lia.
  replace (Z.of_nat idx + 2) with (Z.of_nat (S (S idx))) by lia.
  replace (Z.of_nat idx + 3) with (Z.of_nat (S (S (S idx)))) by lia.
  replace (Z.of_nat idx + 4) with (Z.of_nat (S (S (S (S idx))))) by lia. rewrite !Nat2Z.id.
  destruct (lookup_lt_is_Some_2 r idx ltac:(lia)) as [v0 H0]. rewrite H0.
  destruct (lookup_lt_is_Some_2 r (S idx) ltac:(lia)) as [v1 H1]. rewrite H1.
  destruct (lookup_lt_is_Some_2 r (S (S idx)) ltac:(lia)) as [v2 H2]. rewrite H2.
  destruct (lookup_lt_is_Some_2 r (S (S (S idx))) ltac:(lia)) as [v3 H3]. rewrite H3.
  cbn [mbind option_bind]. rewrite IH by lia. cbn [mbind option_bind].
  rewrite (drop_S _ _ _ H0), (drop_S _ _ _ H1), (drop_S _ _ _ H2), (drop_S _ _ _ H3).
  by replace (4 * S k)%nat with (S (S (S (S (4 * k))))) by lia.
Qed.

(** ** Masked indices *)

(** The shape every ring has from its creation on. *)
Record ring_shape (r : rte_ring) : Prop := {
  shape_size : exists k, 0 <= k <= 31 /\ rsize r = 2 ^ k;
  shape_mask : mask r = rsize r - 1;
  shape_cap : 0 <= capacity r <= mask r;
  shape_ring : length (ring r) = Z.to_nat (rsize r)
}.

Lemma rsize_pos r : ring_shape r -> 0 < rsize r <= 2 ^ 31.
Proof.
  intros [(k & Hk & ->) _ _ _]. split; [apply Z.pow_pos_nonneg; lia|apply Z.pow_le_mono_r; lia].
Qed.

(** Masking a wrapped counter is the counter modulo the size. *)
Lemma masked r p : ring_shape r -> Z.land (u32 p) (mask r) = p mod rsize r.
Proof.
  intros [(k & Hk & Hs) Hm _ _]. rewrite Hm, Hs.
  replace (2 ^ k - 1) with (Z.ones k) by (rewrite Z.ones_equiv; lia).
  rewrite Z.land_ones by lia. unfold wrapu. apply Z.mod_mod_divide.
  exists (2 ^ (32 - k)). rewrite <- Z.pow_add_r by lia. f_equal. lia.
Qed.

(** Position [t] entries after [p], when fewer than a whole turn. *)
Lemma mod_shift size p t :
  0 < size -> 0 <= t <= size ->
  (p + t) mod size = if p mod size + t <? size then p mod size + t else p mod size + t - size.
Proof.
  intros Hs Ht. pose proof (Z.mod_pos_bound p size Hs). pose proof (Z.div_mod p size ltac:(lia)).
  destruct (Z.ltb_spec (p mod size + t) size).
  - symmetry. apply Z.mod_unique with (p / size); lia.
  - symmetry. apply Z.mod_unique with (p / size + 1); lia.
Qed.

Lemma land_round4 n : 0 <= n < 2 ^ 32 -> Z.land n 4294967292 = 4 * (n / 4).
Proof.
  intros Hn. change 4294967292 with (Z.shiftl (Z.ones 30) 2).
  assert (Z.land n (Z.shiftl (Z.ones 30) 2) = Z.shiftl (Z.land (Z.shiftr n 2) (Z.ones 30)) 2) as ->.
  { apply Z.bits_inj'. intros i Hi. rewrite Z.land_spec. destruct (decide (i < 2)).
    - by rewrite !Z.shiftl_spec_low, andb_false_r by lia.
    - rewrite !Z.shiftl_spec, Z.land_spec, Z.shiftr_spec by lia. do 2 f_equal. lia. }
  rewrite Z.land_ones, Z.shiftr_div_pow2, Z.shiftl_mul_pow2 by lia. change (2 ^ 2) with 4.
  rewrite Z.mod_small by (Z.div_mod_to_equations; lia). lia.
Qed.

Lemma land_mod4 n : Z.land n 3 = n mod 4.
Proof. apply (Z.land_ones n 2). lia. Qed.

(** ** The macros *)

(** ENQUEUE_PTRS writes object [t] to position [p + t], and nothing else. *)
Lemma enqueue_ptrs_spec r p objs n :
  ring_shape r -> 0 <= n <= capacity r -> (Z.to_nat n <= length objs)%nat ->
  exists a, ENQUEUE_PTRS r (u32 p) objs n = Some a /\ length a = length (ring r) /\
    (forall t, 0 <= t < n -> a !! Z.to_nat ((p + t) mod rsize r) = objs !! Z.to_nat t) /\
    (forall x, 0 <= x < rsize r -> (forall t, 0 <= t < n -> x <> (p + t) mod rsize r) ->
       a !! Z.to_nat x = ring r !! Z.to_nat x).
Proof.
  intros Hsh Hn Ho. pose proof (rsize_pos r Hsh) as Hsz. pose proof (shape_mask r Hsh) as Hm.
  pose proof (shape_cap r Hsh) as Hc. pose proof (shape_ring r Hsh) as Hlen.
  unfold ENQUEUE_PTRS. rewrite masked by done. set (size := rsize r) in *. set (idx := p mod size).
  pose proof (Z.mod_pos_bound p size ltac:(lia)) as Hidx. fold idx in Hidx.
  rewrite (wrapu_small 32) by lia. cbv zeta.
  assert (Hpos : forall t, 0 <= t < n -> (p + t) mod size =
    if idx + t <? size then idx + t else idx + t - size) by (intros; apply mod_shift; lia).
  destruct (Z.ltb_spec (idx + n) size).
  - rewrite land_round4, land_mod4, (Z.mul_comm 4), Z.div_mul, put_loop4_plain by lia.
    pose proof (put_loop_app (4 * Z.to_nat (n / 4)) (Z.to_nat (n mod 4)) objs (ring r) idx 0) as E.
    replace (idx + Z.of_nat (4 * Z.to_nat (n / 4))) with (idx + n / 4 * 4) in E by (Z.div_mod_to_equations; lia).
    replace (0 + Z.of_nat (4 * Z.to_nat (n / 4))) with (n / 4 * 4) in E by (Z.div_mod_to_equations; lia).
    rewrite <- E. replace (4 * Z.to_nat (n / 4) + Z.to_nat (n mod 4))%nat with (Z.to_nat n)
      by (Z.div_mod_to_equations; lia).
    destruct (put_loop_spec (Z.to_nat n) objs (ring r) (Z.to_nat idx) 0) as (a & Ha & Hl & Hx); [lia|lia|].
    rewrite Z2Nat.id in Ha by lia. exists a. split_and!; [exact Ha|done| |].
    + intros t Ht. rewrite Hpos, Hx by lia. destruct (Z.ltb_spec (idx + t) size); [|lia].
      rewrite decide_True by lia. f_equal. lia.
    + intros x Hxr Hne. rewrite Hx. rewrite decide_False; [done|]. intros Hin.
      apply (Hne (x - idx)); [lia|]. rewrite Hpos by lia. destruct (Z.ltb_spec (idx + (x - idx)) size); lia.
  - destruct (put_loop_spec (Z.to_nat (size - idx)) objs (ring r) (Z.to_nat idx) 0) as (a1 & Ha1 & Hl1 & Hx1);
      [lia|lia|]. rewrite Z2Nat.id in Ha1 by lia. change (Z.of_nat 0) with 0 in Ha1. rewrite Ha1.
    cbn [mbind option_bind].
    destruct (put_loop_spec (Z.to_nat (n - (size - idx))) objs a1 0 (Z.to_nat (size - idx)))
      as (a & Ha & Hl & Hx); [lia|lia|].
    rewrite Z2Nat.id in Ha by lia. exists a. split_and!; [exact Ha|congruence| |].
    + intros t Ht. rewrite Hpos, Hx by lia. destruct (Z.ltb_spec (idx + t) size).
      * rewrite decide_False, Hx1, decide_True by lia. f_equal. lia.
      * rewrite decide_True by lia. f_equal. lia.
    + intros x Hxr Hne. rewrite Hx, decide_False, Hx1, decide_False; [done| |].
      * intros Hin. apply (Hne (x - idx)); [lia|]. rewrite Hpos by lia.
        destruct (Z.ltb_spec (idx + (x - idx)) size); lia.
      * intros Hin. apply (Hne (x + size - idx)); [lia|]. rewrite Hpos by lia.
        destruct (Z.ltb_spec (idx + (x + size - idx)) size); lia.
Qed.

(** The array holds [q] from position [a] on. *)
Definition holds (r : rte_ring) (a : Z) (q : list nat) : Prop :=
  forall j x, q !! j = Some x -> ring r !! Z.to_nat ((a + Z.of_nat j) mod rsize r) = Some x.

(** DEQUEUE_PTRS reads what the array holds. *)
Lemma dequeue_ptrs_spec r p q n :
  ring_shape r -> 0 <= n <= capacity r -> length q = Z.to_nat n -> holds r p q ->
  DEQUEUE_PTRS r (u32 p) n = Some q.
Proof.
  intros Hsh Hn Hq Hh. pose proof (rsize_pos r Hsh) as Hsz. pose proof (shape_mask r Hsh) as Hm.
  pose proof (shape_cap r Hsh) as Hc. pose proof (shape_ring r Hsh) as Hlen. unfold holds in Hh.
  unfold DEQUEUE_PTRS. rewrite masked by done. set (size := rsize r) in *. set (idx := p mod size).
  pose proof (Z.mod_pos_bound p size ltac:(lia)) as Hidx. fold idx in Hidx.
  rewrite (wrapu_small 32) by lia. cbv zeta.
  assert (Hpos : forall t, 0 <= t < n -> (p + t) mod size =
    if idx + t <? size then idx + t else idx + t - size) by (intros; apply mod_shift; lia).
  destruct (Z.ltb_spec (idx + n) size).
  - rewrite land_round4, land_mod4, (Z.mul_comm 4), Z.div_mul by lia.
    pose proof (get_loop4_spec (Z.to_nat (n / 4)) (ring r) (Z.to_nat idx)) as E1.
    rewrite Z2Nat.id in E1 by lia. rewrite E1 by (Z.div_mod_to_equations; lia). cbn [mbind option_bind].
    pose proof (get_loop_spec (Z.to_nat (n mod 4)) (ring r) (Z.to_nat (idx + n / 4 * 4))) as E2.
    rewrite Z2Nat.id in E2 by (Z.div_mod_to_equations; lia). rewrite E2 by (Z.div_mod_to_equations; lia).
    cbn [mbind option_bind]. f_equal.
    replace (Z.to_nat (idx + n / 4 * 4)) with (Z.to_nat idx + 4 * Z.to_nat (n / 4))%nat
      by (Z.div_mod_to_equations; lia).
    rewrite <- drop_drop, take_take_drop.
    replace (4 * Z.to_nat (n / 4) + Z.to_nat (n mod 4))%nat with (Z.to_nat n) by (Z.div_mod_to_equations; lia).
    apply list_eq_same_length with (Z.to_nat n); [done|rewrite length_take, length_drop; lia|].
    intros i x y Hi Hx Hy. rewrite lookup_take_lt, lookup_drop in Hx by lia.
    specialize (Hh i y Hy). rewrite Hpos in Hh by lia.
    destruct (Z.ltb_spec (idx + Z.of_nat i) size); [|lia].
    replace (Z.to_nat (idx + Z.of_nat i)) with (Z.to_nat idx + i)%nat in Hh by lia. congruence.
  - pose proof (get_loop_spec (Z.to_nat (size - idx)) (ring r) (Z.to_nat idx)) as E1.
    rewrite Z2Nat.id in E1 by lia. rewrite E1 by lia. cbn [mbind option_bind].
    pose proof (get_loop_spec (Z.to_nat (n - (size - idx))) (ring r) 0) as E2.
    change (Z.of_nat 0) with 0 in E2. rewrite E2 by lia. cbn [mbind option_bind]. f_equal.
    rewrite drop_0, (take_ge (drop _ _)) by (rewrite length_drop; lia).
    apply list_eq_same_length with (Z.to_nat n);
      [done|rewrite length_app, length_take, length_drop; lia|].
    intros i x y Hi Hx Hy. specialize (Hh i y Hy). rewrite Hpos in Hh by lia.
    destruct (Z.ltb_spec (idx + Z.of_nat i) size).
    + rewrite lookup_app_l, lookup_drop in Hx by (rewrite length_drop; lia).
      replace (Z.to_nat (idx + Z.of_nat i)) with (Z.to_nat idx + i)%nat in Hh by lia. congruence.
    + rewrite lookup_app_r, length_drop, lookup_take_lt in Hx by (rewrite ?length_drop; lia).
      replace (Z.to_nat (idx + Z.of_nat i - size)) with (i - (length (ring r) - Z.to_nat idx))%nat in Hh by lia.
      congruence.
Qed.

(** ** The queue a ring represents *)

(** Between operations: [q] lies from position [a] on, and all counters agree. *)
Record ring_rep (r : rte_ring) (q : list nat) : Prop := {
  rep_shape : ring_shape r;
  rep_fit : Z.of_nat (length q) <= capacity r;
  rep_pos : exists a, head (cons r) = u32 a /\ tail (cons r) = u32 a /\
    head (prod r) = u32 (a + Z.of_nat (length q)) /\ tail (prod r) = u32 (a + Z.of_nat (length q)) /\
    holds r a q
}.

Lemma u32_diff a d : 0 <= d < 2 ^ 32 -> u32 (u32 (a + d) - u32 a) = d.
Proof.
  intros. rewrite wrapu_sub_l, wrapu_sub_r. replace (a + d - a) with d by lia. by apply wrapu_small.
Qed.

Lemma free_entries_eq r a n :
  0 <= n <= capacity r -> capacity r < 2 ^ 32 ->
  u32 (capacity r + u32 a - u32 (a + n)) = capacity r - n.
Proof.
  intros. rewrite wrapu_sub_r, <- (wrapu_sub_l 32), wrapu_add_r, wrapu_sub_l.
  replace (capacity r + a - (a + n)) with (capacity r - n) by lia. apply wrapu_small. lia.
Qed.

(** Positions inside the queue and in the free part differ. *)
Lemma positions_differ size a i t :
  0 < size -> 0 <= i < t -> t - i < size -> (a + i) mod size <> (a + t) mod size.
Proof.
  intros Hs Hi Ht E.
  pose proof (Z.div_mod (a + i) size ltac:(lia)). pose proof (Z.div_mod (a + t) size ltac:(lia)).
  set (u := (a + i) / size) in *. set (v := (a + t) / size) in *.
  assert (t - i = size * (v - u)) as Ed by lia. destruct (Z.lt_trichotomy v u) as [|[]]; nia.
Qed.

Lemma clip_bounds b n room : 0 <= room -> 0 <= n -> 0 <= clip b n room <= Z.min n room.
Proof. intros. unfold clip. destruct (Z.ltb_spec room n); [destruct b|]; lia. Qed.

(** Enqueueing the first [n] of [objs], or as many as there is room for. *)
Lemma do_enqueue_first r q objs n b sp :
  ring_rep r q -> 0 <= n <= Z.of_nat (length objs) -> n < 2 ^ 32 ->
  let k := clip b n (capacity r - Z.of_nat (length q)) in
  exists r', rte_ring_do_enqueue objs n b sp r =
      Ret ((k, capacity r - Z.of_nat (length q) - k), r') /\
    ring_rep r' (q ++ take (Z.to_nat k) objs) /\ capacity r' = capacity r.
Proof.
  intros [Hsh Hfit (a & Hch & Hct & Hph & Hpt & Hh)] Hno Ho k.
  pose proof (rsize_pos r Hsh) as Hsz. pose proof (shape_mask r Hsh) as Hm.
  pose proof (shape_cap r Hsh) as Hc.
  set (free := capacity r - Z.of_nat (length q)) in *.
  pose proof (clip_bounds b n free ltac:(lia) ltac:(lia)) as Hk. fold k in Hk.
  unfold rte_ring_do_enqueue, rte_ring_move_prod_head.
  unfold mbind, M_bind, gets, modify, mret, M_ret, id. rewrite Hct, Hph.
  rewrite (free_entries_eq r a) by lia. fold free. fold k.
  destruct (Z.eqb_spec k 0) as [E0|E0].
  { rewrite E0. cbn [Z.eqb]. exists r. rewrite Z.sub_0_r, take_0, app_nil_r. split_and!; [done| |done].
    split; [done..|]. exists a. done. }
  destruct (Z.eqb_spec k 0); [done|].
  set (r1 := set_prod (set_head (u32 (u32 (a + Z.of_nat (length q)) + k)) (prod r)) r).
  assert (ring_shape r1) as Hsh1 by (destruct Hsh; by split).
  destruct (enqueue_ptrs_spec r1 (a + Z.of_nat (length q)) objs k Hsh1) as (arr & -> & Hl & Hnew & Hold);
    [simpl; lia|lia|].
  simpl in Hold, Hnew, Hl.
  unfold update_tail. cbn [set_ring prod r1 set_prod set_head tail]. rewrite Hpt, Z.eqb_refl, orb_true_r.
  eexists. split; [rewrite (wrapu_small 32 (free - k)) by lia; reflexivity|]. split; [|done].
  assert (length (take (Z.to_nat k) objs) = Z.to_nat k) as Hlt by (rewrite length_take; lia).
  split.
  - destruct Hsh. split; try done. simpl. by rewrite Hl.
  - simpl. rewrite length_app, Hlt. lia.
  - exists a. cbn. rewrite length_app, Hlt, wrapu_add_l.
    replace (a + Z.of_nat (length q + Z.to_nat k)) with (a + Z.of_nat (length q) + k) by lia.
    split_and!; [done..|]. intros j x Hj. cbn.
    apply lookup_app_Some in Hj as [Hj|[Hge Hj]].
    + rewrite Hold; [by apply Hh|apply Z.mod_pos_bound; lia|].
      intros t Ht. apply lookup_lt_Some in Hj. rewrite <- Z.add_assoc.
      apply positions_differ; lia.
    + pose proof (lookup_lt_Some _ _ _ Hj) as Hjl. rewrite Hlt in Hjl.
      replace (a + Z.of_nat j) with (a + Z.of_nat (length q) + Z.of_nat (j - length q)) by lia.
      rewrite Hnew by lia. rewrite Nat2Z.id. by rewrite lookup_take_lt in Hj by lia.
Qed.

Lemma do_enqueue_spec r q objs b sp :
  ring_rep r q -> Z.of_nat (length objs) < 2 ^ 32 ->
  let k := clip b (Z.of_nat (length objs)) (capacity r - Z.of_nat (length q)) in
  exists r', rte_ring_do_enqueue objs (Z.of_nat (length objs)) b sp r =
      Ret ((k, capacity r - Z.of_nat (length q) - k), r') /\
    ring_rep r' (q ++ take (Z.to_nat k) objs) /\ capacity r' = capacity r.
Proof. intros Hr Ho. apply do_enqueue_first; [done|lia|done]. Qed.

(** Dequeueing at most [n] objects. *)
Lemma do_dequeue_spec r q n b sc :
  ring_rep r q -> 0 <= n < 2 ^ 32 ->
  let k := clip b n (Z.of_nat (length q)) in
  exists r', rte_ring_do_dequeue n b sc r =
      Ret ((take (Z.to_nat k) q, Z.of_nat (length q) - k), r') /\
    ring_rep r' (drop (Z.to_nat k) q) /\ capacity r' = capacity r.
Proof.
  intros [Hsh Hfit (a & Hch & Hct & Hph & Hpt & Hh)] Hn k.
  pose proof (rsize_pos r Hsh) as Hsz. pose proof (shape_mask r Hsh) as Hm.
  pose proof (shape_cap r Hsh) as Hc.
  pose proof (clip_bounds b n (Z.of_nat (length q)) ltac:(lia) ltac:(lia)) as Hk. fold k in Hk.
  unfold rte_ring_do_dequeue, rte_ring_move_cons_head.
  unfold mbind, M_bind, gets, modify, mret, M_ret, id. rewrite Hch, Hpt.
  rewrite u32_diff by lia. fold k.
  destruct (Z.eqb_spec k 0) as [E0|E0].
  { rewrite E0. cbn [Z.eqb]. exists r. rewrite Z.sub_0_r, take_0, drop_0. split_and!; [done| |done].
    split; [done..|]. exists a. done. }
  destruct (Z.eqb_spec k 0); [done|].
  set (r1 := set_cons (set_head (u32 (u32 a + k)) (cons r)) r).
  assert (ring_shape r1) as Hsh1 by (destruct Hsh; by split).
  rewrite (dequeue_ptrs_spec r1 a (take (Z.to_nat k) q) k Hsh1); [|simpl; lia|rewrite length_take; lia|].
  2: { intros j x Hj. simpl. apply Hh. apply lookup_take_Some in Hj as [Hj _]. done. }
  unfold update_tail. cbn [cons r1 set_cons set_head tail]. rewrite Hct, Z.eqb_refl, orb_true_r.
  eexists. split; [rewrite (wrapu_small 32 (Z.of_nat (length q) - k)) by lia; reflexivity|].
  split; [|done]. split.
  - destruct Hsh. by split.
  - simpl. rewrite length_drop. lia.
  - exists (a + k). cbn. rewrite length_drop, wrapu_add_l.
    replace (a + k + Z.of_nat (length q - Z.to_nat k)) with (a + Z.of_nat (length q)) by lia.
    split_and!; [done..|]. intros j x Hj. cbn. rewrite lookup_drop in Hj.
    replace (a + k + Z.of_nat j) with (a + Z.of_nat (Z.to_nat k + j)) by lia. by apply Hh.
Qed.

(** The queries. *)
Lemma count_spec r q : ring_rep r q -> rte_ring_count r = Z.of_nat (length q).
Proof.
  intros [Hsh Hfit (a & _ & Hct & _ & Hpt & _)]. pose proof (rsize_pos r Hsh).
  pose proof (shape_mask r Hsh). pose proof (shape_cap r Hsh).
  unfold rte_ring_count. rewrite Hct, Hpt, u32_diff by lia.
  rewrite <- (wrapu_small 32 (Z.of_nat (length q))) by lia. rewrite masked, Z.mod_small by (done || lia).
  destruct (Z.ltb_spec (capacity r) (Z.of_nat (length q))); [lia|]. by rewrite wrapu_small by lia.
Qed.

(** C9: Every enqueue and dequeue of the ring, in bulk or burst mode and with the
    single- or multi-producer/consumer update, is the operation of a bounded FIFO
    queue: it moves the number of objects the mode prescribes, in order, reports
    that number and the room or the entries left, and never leaves the array. The
    queries report the queue's length, room, fullness and emptiness. *)
Theorem ring_refines_queue (r : rte_ring) (q objs : list nat) (n : Z) (b : rte_ring_queue_behavior)
    (sg : bool) :
  ring_rep r q -> Z.of_nat (length objs) < 2 ^ 32 -> 0 <= n < 2 ^ 32 ->
  let room := capacity r - Z.of_nat (length q) in
  (let k := clip b (Z.of_nat (length objs)) room in
   exists r', rte_ring_do_enqueue objs (Z.of_nat (length objs)) b sg r = Ret ((k, room - k), r') /\
     ring_rep r' (q ++ take (Z.to_nat k) objs) /\ capacity r' = capacity r) /\
  (let k := clip b n (Z.of_nat (length q)) in
   exists r', rte_ring_do_dequeue n b sg r =
       Ret ((take (Z.to_nat k) q, Z.of_nat (length q) - k), r') /\
     ring_rep r' (drop (Z.to_nat k) q) /\ capacity r' = capacity r) /\
  rte_ring_count r = Z.of_nat (length q) /\ rte_ring_free_count r = room /\
  rte_ring_full r = (Z.of_nat (length q) =? capacity r) /\
  rte_ring_empty r = (Z.of_nat (length q) =? 0).
Proof.
  intros Hr Ho Hn room. pose proof (count_spec r q Hr) as Hc.
  assert (rte_ring_free_count r = room) as Hf.
  { unfold rte_ring_free_count. rewrite Hc. apply wrapu_small. subst room. destruct Hr as [Hsh Hfit _].
    pose proof (rsize_pos r Hsh). pose proof (shape_mask r Hsh). pose proof (shape_cap r Hsh). lia. }
  split_and!; [by apply do_enqueue_spec|by apply do_dequeue_spec|done|done| |].
  - unfold rte_ring_full. rewrite Hf. subst room.
    destruct (Z.eqb_spec (capacity r - Z.of_nat (length q)) 0), (Z.eqb_spec (Z.of_nat (length q)) (capacity r)); lia.
  - unfold rte_ring_empty. by rewrite Hc.
Qed.

(** ** Creation *)

Lemma powerof2_log c : 0 < c < 2 ^ 32 -> POWEROF2 c = true -> exists k, 0 <= k < 32 /\ c = 2 ^ k.
Proof.
  intros Hc Hp. unfold POWEROF2 in Hp. rewrite wrapu_small in Hp by lia. apply Z.eqb_eq in Hp.
  exists (Z.log2 c). pose proof (Z.log2_spec c ltac:(lia)) as [Hl Hu].
  assert (Z.log2 c < 32) by (apply Z.log2_lt_pow2; lia). pose proof (Z.log2_nonneg c). split; [lia|].
  destruct (Z.eq_dec c (2 ^ Z.log2 c)) as [|Hne]; [done|]. exfalso.
  assert (Z.testbit (Z.land (c - 1) c) (Z.log2 c) = true) as Ht.
  { rewrite Z.land_spec, Z.bit_log2 by lia. rewrite andb_true_r.
    replace (Z.log2 c) with (Z.log2 (c - 1)); [apply Z.bit_log2; lia|].
    apply Z.log2_unique; lia. }
  rewrite Hp, Z.bits_0 in Ht. done.
Qed.

Lemma log_powerof2 k : 0 <= k < 32 -> POWEROF2 (2 ^ k) = true.
Proof.
  intros Hk. unfold POWEROF2. assert (0 < 2 ^ k < 2 ^ 32) by (split; [apply Z.pow_pos_nonneg; lia|apply Z.pow_lt_mono_r; lia]).
  rewrite wrapu_small by lia. replace (2 ^ k - 1) with (Z.ones k) by (rewrite Z.ones_equiv; lia).
  rewrite Z.land_comm, Z.land_ones by lia. rewrite Z.mod_same by lia. done.
Qed.

(** The libmoon flags: one producer, one consumer, no exact size. *)
Abbreviation SPSC := (Z.lor RING_F_SP_ENQ RING_F_SC_DEQ).

Lemma spsc_init_eq count :
  rte_ring_init count SPSC =
    if negb (POWEROF2 count) || (RTE_RING_SZ_MASK <? count) then inl (- EINVAL)
    else inr (Ring count (u32 (count - 1)) (u32 (count - 1)) (headtail_init true) (headtail_init true)
                (replicate (Z.to_nat count) 0%nat)).
Proof. reflexivity. Qed.

Lemma size_accepted k : 0 <= k <= 27 -> negb (POWEROF2 (2 ^ k)) || (RTE_RING_SZ_MASK <? 2 ^ k) = false.
Proof.
  intros Hk. rewrite log_powerof2 by lia. apply Z.ltb_ge. unfold RTE_RING_SZ_MASK.
  assert (2 ^ k <= 2 ^ 27) by (apply Z.pow_le_mono_r; lia). lia.
Qed.

Lemma size_refused count :
  0 < count < 2 ^ 32 -> (forall k, 0 <= k <= 27 -> count <> 2 ^ k) ->
  negb (POWEROF2 count) || (RTE_RING_SZ_MASK <? count) = true.
Proof.
  intros Hc Hne. destruct (POWEROF2 count) eqn:Hp; [|done]. destruct (powerof2_log count Hc Hp) as (k & Hk & ->).
  destruct (decide (k <= 27)) as [|]; [by destruct (Hne k); lia|].
  assert (2 ^ 28 <= 2 ^ k) by (apply Z.pow_le_mono_r; lia). apply Z.ltb_lt. unfold RTE_RING_SZ_MASK. lia.
Qed.

(** Rounding up to a cache line only adds. *)
Lemma align_ge sz : sz <= RTE_ALIGN sz RTE_CACHE_LINE_SIZE.
Proof.
  unfold RTE_ALIGN, RTE_CACHE_LINE_SIZE. change (64 - 1) with (Z.ones 6). rewrite <- Z.ldiff_land, Z.ldiff_ones_r by lia.
  rewrite Z.shiftl_mul_pow2, Z.shiftr_div_pow2 by lia. change (Z.ones 6) with 63. change (2 ^ 6) with 64.
  pose proof (Z.mod_pos_bound (sz + 63) 64 ltac:(lia)). pose proof (Z.div_mod (sz + 63) 64 ltac:(lia)). lia.
Qed.

Lemma memsize_ge k :
  0 <= k <= 27 -> RING_HEADER + 2 ^ k * 8 <= rte_ring_get_memsize (2 ^ k).
Proof. intros Hk. unfold rte_ring_get_memsize. rewrite size_accepted by done. apply align_ge. Qed.

Lemma init_rep_flags k flags :
  0 <= k <= 27 -> Z.land flags RING_F_EXACT_SZ = 0 ->
  exists r, rte_ring_init (2 ^ k) flags = inr r /\ ring_rep r [] /\ capacity r = 2 ^ k - 1.
Proof.
  intros Hk Hfl. unfold rte_ring_init. rewrite Hfl. cbn [negb Z.eqb]. rewrite size_accepted by done.
  assert (0 < 2 ^ k) by (apply Z.pow_pos_nonneg; lia).
  assert (2 ^ k <= 2 ^ 27) by (apply Z.pow_le_mono_r; lia).
  eexists. split; [reflexivity|]. split; [|apply wrapu_small; lia]. split.
  - split; cbn; [exists k; split; [lia|done]|apply wrapu_small; lia|rewrite wrapu_small by lia; lia|].
    by rewrite length_replicate.
  - cbn. rewrite wrapu_small by lia. lia.
  - exists 0. split_and!; try done.
Qed.

Lemma init_rep k :
  0 <= k <= 27 -> exists r, rte_ring_init (2 ^ k) SPSC = inr r /\ ring_rep r [] /\ capacity r = 2 ^ k - 1.
Proof. intros Hk. by apply init_rep_flags. Qed.

(** The environment can serve the ring. *)
Definition granted (e : ring_env) (count : Z) : Prop :=
  tailq_alloc e = true /\ memzone_reserve e (rte_ring_get_memsize count) = None.

Lemma create_granted e k :
  0 <= k <= 27 -> granted e (2 ^ k) -> create_ring e (2 ^ k) = rte_ring_init (2 ^ k) SPSC.
Proof.
  intros Hk [Ht Hm]. unfold create_ring, rte_ring_create.
  change (Z.land SPSC RING_F_EXACT_SZ) with 0. cbn [negb Z.eqb].
  assert (0 < 2 ^ k) by (apply Z.pow_pos_nonneg; lia). pose proof (memsize_ge k Hk). unfold RING_HEADER in *.
  destruct (Z.ltb_spec (rte_ring_get_memsize (2 ^ k)) 0); [lia|]. by rewrite Ht, Hm.
Qed.

Lemma created_init e c r : create_ring e c = inr r -> rte_ring_init c SPSC = inr r.
Proof.
  unfold create_ring, rte_ring_create. change (Z.land SPSC RING_F_EXACT_SZ) with 0. cbn [negb Z.eqb].
  destruct (_ <? 0); [done|]. destruct (tailq_alloc e); [|done]. by destruct (memzone_reserve e _).
Qed.

(** When the environment grants the memory, [create_ring] succeeds for a
    positive count exactly when it is a power of two below [2 ^ 28]: the ring is then
    empty, holds one object less than the count, and the memory reserved holds the
    structure and every slot of the array. Any other count gives [-EINVAL], before
    anything is allocated; without memory there is no ring. *)
Theorem create_ring_correct (e : ring_env) (count : Z) :
  0 < count < 2 ^ 32 ->
  (forall k, count = 2 ^ k -> 0 <= k <= 27 -> granted e count ->
     exists r, create_ring e count = inr r /\ ring_rep r [] /\ capacity r = count - 1 /\
       RING_HEADER + 8 * Z.of_nat (length (ring r)) <= rte_ring_get_memsize count) /\
  ((forall k, 0 <= k <= 27 -> count <> 2 ^ k) -> create_ring e count = inl (- EINVAL)) /\
  (forall r, create_ring e count = inr r -> granted e count).
Proof.
  intros Hc. split_and!.
  - intros k -> Hk Hg. destruct (init_rep k Hk) as (r & Hr & Hrep & Hcap). exists r. rewrite create_granted by done.
    split_and!; [done..|]. rewrite spsc_init_eq, size_accepted in Hr by done. injection Hr as <-. cbn [ring].
    assert (0 < 2 ^ k) by (apply Z.pow_pos_nonneg; lia).
    rewrite length_replicate, Z2Nat.id, Z.mul_comm by lia. by apply memsize_ge.
  - intros Hne. unfold create_ring, rte_ring_create. change (Z.land SPSC RING_F_EXACT_SZ) with 0. cbn [negb Z.eqb].
    unfold rte_ring_get_memsize. rewrite size_refused by done. reflexivity.
  - intros r. unfold create_ring, rte_ring_create, granted.
    change (Z.land SPSC RING_F_EXACT_SZ) with 0. cbn [negb Z.eqb].
    destruct (_ <? 0); [done|]. destruct (tailq_alloc e); [|done]. by destruct (memzone_reserve e _).
Qed.

(** A count of zero passes the power-of-two test: the ring then claims a
    capacity of [2 ^ 32 - 1] objects, and enqueueing leaves its empty array. *)
Theorem create_ring_zero (e : ring_env) :
  granted e 0 ->
  exists r, create_ring e 0 = inr r /\ capacity r = 2 ^ 32 - 1 /\ ring r = [] /\
    forall x, rte_ring_sp_enqueue x r = Fault.
Proof.
  intros [Ht Hm]. eexists. split.
  - unfold create_ring, rte_ring_create. change (Z.land SPSC RING_F_EXACT_SZ) with 0. cbn [negb Z.eqb].
    change (rte_ring_get_memsize 0 <? 0) with false. cbn iota. rewrite Ht, Hm. reflexivity.
  - split_and!; [done..|]. intros x. reflexivity.
Qed.

(** ** The queue interface *)

(** What a client of a bounded queue may rely on. *)
Class BoundedFifo (R : Type) := {
  fifo_rep : R -> list nat -> Prop;
  fifo_cap : R -> Z;
  fifo_enq : list nat -> M R Z;
  fifo_deq : Z -> M R (Z * list nat);
  fifo_enq_spec r q objs :
    fifo_rep r q -> Z.of_nat (length objs) < 2 ^ 31 ->
    exists k r', fifo_enq objs r = Ret (k, r') /\ fifo_cap r' = fifo_cap r /\
      ((k = Z.of_nat (length objs) /\ fifo_rep r' (q ++ objs) /\
        Z.of_nat (length (q ++ objs)) <= fifo_cap r) \/
       (k = 0 /\ fifo_rep r' q /\ fifo_cap r < Z.of_nat (length (q ++ objs))));
  fifo_deq_spec r q n :
    fifo_rep r q -> 0 <= n < 2 ^ 31 ->
    exists k out r', fifo_deq n r = Ret ((k, out), r') /\ fifo_cap r' = fifo_cap r /\
      k = Z.of_nat (length out) /\
      ((k = n /\ exists q', q = out ++ q' /\ fifo_rep r' q') \/
       (out = [] /\ fifo_rep r' q /\ Z.of_nat (length q) < n))
}.

Lemma clip_fixed n room :
  0 <= n -> clip RTE_RING_QUEUE_FIXED n room = n /\ n <= room \/
            clip RTE_RING_QUEUE_FIXED n room = 0 /\ room < n.
Proof. intros. unfold clip. destruct (Z.ltb_spec room n); lia. Qed.

(** libmoon's rings provide it. *)
#[global] Instance ring_fifo : BoundedFifo rte_ring.
Proof.
  refine {| fifo_rep := ring_rep; fifo_cap := capacity; fifo_deq := ring_dequeue;
            fifo_enq objs := ring_enqueue objs (Z.of_nat (length objs)) |}.
  - intros r q objs Hr Ho. destruct (do_enqueue_spec r q objs RTE_RING_QUEUE_FIXED true Hr ltac:(lia))
      as (r' & E & Hr' & Hcap).
    exists (clip RTE_RING_QUEUE_FIXED (Z.of_nat (length objs)) (capacity r - Z.of_nat (length q))), r'.
    split; [|split; [done|]].
    + unfold ring_enqueue, rte_ring_sp_enqueue_bulk, mbind, M_bind, mret, M_ret. rewrite E. cbn.
      rewrite wraps_small; [done|lia|].
      destruct (clip_fixed (Z.of_nat (length objs)) (capacity r - Z.of_nat (length q))) as [[-> ?]|[-> ?]]; lia.
    + rewrite length_app.
      destruct (clip_fixed (Z.of_nat (length objs)) (capacity r - Z.of_nat (length q)) ltac:(lia))
        as [[Ek ?]|[Ek ?]]; rewrite Ek in *; [left|right].
      * rewrite Nat2Z.id, take_ge in Hr' by lia. split_and!; [done..|lia].
      * rewrite take_0, app_nil_r in Hr'. split_and!; [done..|lia].
  - intros r q n Hr Hn. destruct (do_dequeue_spec r q n RTE_RING_QUEUE_FIXED true Hr ltac:(lia))
      as (r' & E & Hr' & Hcap).
    set (k := clip RTE_RING_QUEUE_FIXED n (Z.of_nat (length q))) in *.
    exists (Z.of_nat (length (take (Z.to_nat k) q))), (take (Z.to_nat k) q), r'. split_and!; [|done|done|].
    + unfold ring_dequeue, rte_ring_sc_dequeue_bulk, mbind, M_bind, mret, M_ret. by rewrite E.
    + destruct (clip_fixed n (Z.of_nat (length q)) ltac:(lia)) as [[Ek ?]|[Ek ?]]; fold k in Ek; rewrite Ek in *.
      * left. rewrite length_take. split; [lia|]. exists (drop (Z.to_nat n) q). by rewrite take_drop.
      * right. rewrite take_0. split_and!; [done|by rewrite drop_0 in Hr'|lia].
Defined.

(** ** A client: any mix of operations *)

Inductive qop := Enq (objs : list nat) | Deq (n : Z).

Definition qop_ok (o : qop) : Prop :=
  match o with Enq objs => Z.of_nat (length objs) < 2 ^ 31 | Deq n => 0 <= n < 2 ^ 31 end.

Section Client.
Context {R : Type} `{BoundedFifo R}.

(** Run the operations; the objects accepted and those delivered, in order. *)
Fixpoint run_qops (ops : list qop) : M R (list nat * list nat) :=
  match ops with
  | [] => mret ([], [])
  | Enq objs :: ops =>
    k ← fifo_enq objs;
    r ← run_qops ops; mret ((if k =? 0 then [] else objs) ++ r.1, r.2)
  | Deq n :: ops =>
    o ← fifo_deq n;
    r ← run_qops ops; mret (r.1, o.2 ++ r.2)
  end.

Lemma run_qops_fifo ops : forall (r : R) q,
  fifo_rep r q -> Forall qop_ok ops ->
  exists acc del r' q', run_qops ops r = Ret ((acc, del), r') /\ fifo_rep r' q' /\ q ++ acc = del ++ q'.
Proof.
  induction ops as [|[objs|n] ops IH]; intros r q Hr Hok; cbn [run_qops].
  - exists [], [], r, q. by rewrite app_nil_r.
  - apply Forall_cons in Hok as [Ho Hok].
    destruct (fifo_enq_spec r q objs Hr Ho) as (k & r1 & E & _ & Hcase).
    unfold mbind, M_bind, mret, M_ret. rewrite E.
    destruct Hcase as [(-> & Hr1 & _)|(-> & Hr1 & _)].
    + destruct (IH r1 _ Hr1 Hok) as (acc & del & r' & q' & -> & Hr' & Eq).
      exists (objs ++ acc), del, r', q'. split_and!; [|done|by rewrite app_assoc]. cbn.
      destruct objs; [done|]. by destruct (Z.eqb_spec (Z.of_nat (length (n :: objs))) 0); [simpl in *; lia|].
    + destruct (IH r1 _ Hr1 Hok) as (acc & del & r' & q' & -> & Hr' & Eq). by exists acc, del, r', q'.
  - apply Forall_cons in Hok as [Hn Hok].
    destruct (fifo_deq_spec r q n Hr Hn) as (k & out & r1 & E & _ & _ & Hcase).
    unfold mbind, M_bind, mret, M_ret. rewrite E.
    destruct Hcase as [(_ & q1 & -> & Hr1)|(-> & Hr1 & _)].
    + destruct (IH r1 _ Hr1 Hok) as (acc & del & r' & q' & -> & Hr' & Eq).
      exists acc, (out ++ del), r', q'. split_and!; [done..|]. by rewrite <- !app_assoc, Eq.
    + destruct (IH r1 _ Hr1 Hok) as (acc & del & r' & q' & -> & Hr' & Eq). by exists acc, del, r', q'.
Qed.
End Client.

(** Over any sequence of [ring_enqueue] and [ring_dequeue] calls on a new
    ring, what was delivered followed by what is still queued is exactly what was
    accepted, in order: nothing is lost, duplicated or reordered. *)
Theorem ring_trace_fifo (e : ring_env) (k : Z) (ops : list qop) :
  0 <= k <= 27 -> granted e (2 ^ k) -> Forall qop_ok ops ->
  exists r acc del r' q', create_ring e (2 ^ k) = inr r /\ run_qops ops r = Ret ((acc, del), r') /\
    ring_rep r' q' /\ acc = del ++ q'.
Proof.
  intros Hk Hg Hok.
  destruct (init_rep k Hk) as (r & Hc & Hr & _). rewrite <- (create_granted e) in Hc by done.
  destruct (@run_qops_fifo rte_ring ring_fifo ops r [] Hr Hok) as (acc & del & r' & q' & E & Hr' & Eq).
  by exists r, acc, del, r', q'.
Qed.

(** ** Examples *)

Definition demo_env : ring_env := RingEnv true (fun sz => if sz <? 2 ^ 20 then None else Some ENOMEM).

Definition demo_ring : rte_ring :=
  match create_ring demo_env 8 with
  | inr r => r
  | inl _ => Ring 0 0 0 (headtail_init true) (headtail_init true) []
  end.

Lemma demo_ring_rep : ring_rep demo_ring [].
Proof.
  destruct (init_rep 3 ltac:(lia)) as (r & E & Hr & _).
  rewrite <- (create_granted demo_env) in E by (split; reflexivity || lia). unfold demo_ring.
  by change 8 with (2 ^ 3); rewrite E.
Qed.

Lemma ring_refines_queue_witness :
  (exists r', rte_ring_do_enqueue [1; 2; 3; 4; 5]%nat 5 RTE_RING_QUEUE_VARIABLE false demo_ring =
       Ret ((5, 2), r') /\ ring_rep r' [1; 2; 3; 4; 5]%nat /\ capacity r' = 7) /\
  (exists r', rte_ring_do_dequeue 4 RTE_RING_QUEUE_VARIABLE false demo_ring = Ret (([], 0), r') /\
     ring_rep r' [] /\ capacity r' = 7) /\
  rte_ring_count demo_ring = 0 /\ rte_ring_free_count demo_ring = 7 /\
  rte_ring_full demo_ring = false /\ rte_ring_empty demo_ring = true.
Proof.
  apply (ring_refines_queue demo_ring [] [1; 2; 3; 4; 5]%nat 4 RTE_RING_QUEUE_VARIABLE false);
    [apply demo_ring_rep|simpl; lia|lia].
Defined.

Lemma create_ring_correct_witness :
  (exists r, create_ring demo_env 1024 = inr r /\ ring_rep r [] /\ capacity r = 1023 /\
     RING_HEADER + 8 * Z.of_nat (length (ring r)) <= 8576) /\
  create_ring demo_env 1000 = inl (-22) /\
  (forall r, create_ring demo_env (2 ^ 20) = inr r -> granted demo_env (2 ^ 20)).
Proof.
  split_and!.
  - apply (proj1 (create_ring_correct demo_env 1024 ltac:(lia)) 10); [reflexivity|lia..|split; reflexivity].
  - apply (proj1 (proj2 (create_ring_correct demo_env 1000 ltac:(lia)))). intros k Hk.
    assert (k <= 9 \/ 10 <= k) as [H|H] by lia.
    + pose proof (Z.pow_le_mono_r 2 k 9 ltac:(lia) H). lia.
    + pose proof (Z.pow_le_mono_r 2 10 k ltac:(lia) H). lia.
  - apply (proj2 (proj2 (create_ring_correct demo_env (2 ^ 20) ltac:(lia)))).
Defined.

Lemma create_ring_zero_witness :
  exists r, create_ring demo_env 0 = inr r /\ capacity r = 2 ^ 32 - 1 /\ ring r = [] /\
    forall x, rte_ring_sp_enqueue x r = Fault.
Proof. apply (create_ring_zero demo_env). split; reflexivity. Defined.

Lemma ring_trace_fifo_witness :
  exists r acc del r' q', create_ring demo_env (2 ^ 3) = inr r /\
    run_qops [Enq [1; 2; 3; 4; 5]%nat; Deq 3; Enq [6; 7; 8; 9]%nat; Deq 6; Enq [10]%nat] r =
      Ret ((acc, del), r') /\ ring_rep r' q' /\ acc = del ++ q'.
Proof.
  apply (ring_trace_fifo demo_env 3
    [Enq [1; 2; 3; 4; 5]%nat; Deq 3; Enq [6; 7; 8; 9]%nat; Deq 6; Enq [10]%nat]);
    [lia|split; reflexivity|repeat constructor; simpl; lia].
Defined.
