(* ===== verification/RingConc.v ===== *)
(** One producer and one consumer on different cores: the interleavings of
    [__rte_ring_do_enqueue] and [__rte_ring_do_dequeue] on a ring made by
    [create_ring], as a step relation. A step is one access to shared memory: the
    loads of the indices, the store of a head, the copy of one pointer, the store
    of a tail (the barriers of the code order these on x86). The lists of published
    and delivered objects record the history; the code does not have them. *)
From Stdlib Require Import ZArith Lia Relations.
From stdpp Require Import base numbers list.
From S2P Require Import Prelude Ring RingSpec.

#[local] Open Scope Z_scope.

(** ** The two threads *)

(** Where the producer is: between calls, before the loads, after them, and while it
    copies ([objs] are the objects it will publish, [i] of them written). *)
Inductive prod_pc :=
| PIdle
| PRequest (objs : list nat) (b : rte_ring_queue_behavior)
| PLoaded (objs : list nat) (b : rte_ring_queue_behavior) (old_head cons_tail : Z)
| PCopy (objs : list nat) (old_head new_head : Z) (i : nat).

Inductive cons_pc :=
| CIdle
| CRequest (n : Z) (b : rte_ring_queue_behavior)
| CLoaded (n : Z) (b : rte_ring_queue_behavior) (old_head prod_tail : Z)
| CCopy (n old_head new_head : Z) (got : list nat).

Record spsc := Spsc {
  shared : rte_ring; ppc : prod_pc; cpc : cons_pc;
  published : list nat; delivered : list nat
}.

Definition requested (objs : list nat) : Z := Z.of_nat (length objs).

(** The number of objects after the loads, as [__rte_ring_move_prod_head] and
    [__rte_ring_move_cons_head] compute it. *)
Definition enq_count (r : rte_ring) (objs : list nat) (b : rte_ring_queue_behavior)
    (old_head cons_tail : Z) : Z :=
  clip b (requested objs) (u32 (capacity r + cons_tail - old_head)).

Definition deq_count (n : Z) (b : rte_ring_queue_behavior) (old_head prod_tail : Z) : Z :=
  clip b n (u32 (prod_tail - old_head)).

(** ** Steps *)

Inductive prod_step : spsc -> spsc -> Prop :=
| p_call r c pub del objs b :
    requested objs < 2 ^ 32 ->
    prod_step (Spsc r PIdle c pub del) (Spsc r (PRequest objs b) c pub del)
| p_load r c pub del objs b :
    prod_step (Spsc r (PRequest objs b) c pub del)
              (Spsc r (PLoaded objs b (head (prod r)) (tail (cons r))) c pub del)
| p_full r c pub del objs b old_head cons_tail :
    enq_count r objs b old_head cons_tail = 0 ->
    prod_step (Spsc r (PLoaded objs b old_head cons_tail) c pub del) (Spsc r PIdle c pub del)
| p_move r c pub del objs b old_head cons_tail n :
    n = enq_count r objs b old_head cons_tail -> n <> 0 ->
    prod_step (Spsc r (PLoaded objs b old_head cons_tail) c pub del)
              (Spsc (set_prod (set_head (u32 (old_head + n)) (prod r)) r)
                 (PCopy (take (Z.to_nat n) objs) old_head (u32 (old_head + n)) 0) c pub del)
| p_copy r c pub del objs old_head new_head i x :
    objs !! i = Some x ->
    prod_step (Spsc r (PCopy objs old_head new_head i) c pub del)
              (Spsc (set_ring (<[Z.to_nat (Z.land (u32 (old_head + Z.of_nat i)) (mask r)) := x]> (ring r)) r)
                 (PCopy objs old_head new_head (S i)) c pub del)
| p_publish r c pub del objs old_head new_head :
    prod_step (Spsc r (PCopy objs old_head new_head (length objs)) c pub del)
              (Spsc (set_prod (set_tail new_head (prod r)) r) PIdle c (pub ++ objs) del).

Inductive cons_step : spsc -> spsc -> Prop :=
| c_call r p pub del n b :
    0 <= n < 2 ^ 32 ->
    cons_step (Spsc r p CIdle pub del) (Spsc r p (CRequest n b) pub del)
| c_load r p pub del n b :
    cons_step (Spsc r p (CRequest n b) pub del)
              (Spsc r p (CLoaded n b (head (cons r)) (tail (prod r))) pub del)
| c_empty r p pub del n b old_head prod_tail :
    deq_count n b old_head prod_tail = 0 ->
    cons_step (Spsc r p (CLoaded n b old_head prod_tail) pub del) (Spsc r p CIdle pub del)
| c_move r p pub del n b old_head prod_tail k :
    k = deq_count n b old_head prod_tail -> k <> 0 ->
    cons_step (Spsc r p (CLoaded n b old_head prod_tail) pub del)
              (Spsc (set_cons (set_head (u32 (old_head + k)) (cons r)) r) p
                 (CCopy k old_head (u32 (old_head + k)) []) pub del)
| c_copy r p pub del n old_head new_head got x :
    Z.of_nat (length got) < n ->
    ring r !! Z.to_nat (Z.land (u32 (old_head + Z.of_nat (length got))) (mask r)) = Some x ->
    cons_step (Spsc r p (CCopy n old_head new_head got) pub del)
              (Spsc r p (CCopy n old_head new_head (got ++ [x])) pub del)
| c_return r p pub del n old_head new_head got :
    Z.of_nat (length got) = n ->
    cons_step (Spsc r p (CCopy n old_head new_head got) pub del)
              (Spsc (set_cons (set_tail new_head (cons r)) r) p CIdle pub (del ++ got)).

Inductive spsc_step : spsc -> spsc -> Prop :=
| step_prod s s' : prod_step s s' -> spsc_step s s'
| step_cons s s' : cons_step s s' -> spsc_step s s'.

Definition spsc_init (r : rte_ring) : spsc := Spsc r PIdle CIdle [] [].

Abbreviation reachable r := (clos_refl_trans _ spsc_step (spsc_init r)).

(** ** The invariant *)

Section Inv.
Context (cap size : Z).

(** The free entries the producer has claimed, and the entries of the consumer. *)
Definition prod_inv (r : rte_ring) (p : prod_pc) (pub del : list nat) : Prop :=
  let P := Z.of_nat (length pub) in let D := Z.of_nat (length del) in
  tail (prod r) = u32 P /\
  match p with
  | PIdle => head (prod r) = u32 P
  | PRequest objs b => head (prod r) = u32 P /\ requested objs < 2 ^ 32
  | PLoaded objs b old_head cons_tail =>
    head (prod r) = u32 P /\ requested objs < 2 ^ 32 /\ old_head = u32 P /\
    exists c, cons_tail = u32 c /\ 0 <= c <= D /\ P <= c + cap
  | PCopy objs old_head new_head i =>
    old_head = u32 P /\ new_head = u32 (P + requested objs) /\ head (prod r) = new_head /\
    P + requested objs <= D + cap /\ (i <= length objs)%nat /\
    forall t x, (t < i)%nat -> objs !! t = Some x ->
      ring r !! Z.to_nat ((P + Z.of_nat t) mod size) = Some x
  end.

Definition cons_inv (r : rte_ring) (c : cons_pc) (pub del : list nat) : Prop :=
  let P := Z.of_nat (length pub) in let D := Z.of_nat (length del) in
  tail (cons r) = u32 D /\
  match c with
  | CIdle => head (cons r) = u32 D
  | CRequest n b => head (cons r) = u32 D /\ 0 <= n < 2 ^ 32
  | CLoaded n b old_head prod_tail =>
    head (cons r) = u32 D /\ 0 <= n < 2 ^ 32 /\ old_head = u32 D /\
    exists p, prod_tail = u32 p /\ D <= p <= P
  | CCopy n old_head new_head got =>
    old_head = u32 D /\ new_head = u32 (D + n) /\ head (cons r) = new_head /\
    Z.of_nat (length got) <= n /\ D + n <= P /\
    got = take (length got) (drop (length del) pub)
  end.

Record spsc_inv (s : spsc) : Prop := {
  inv_shape : ring_shape (shared s);
  inv_cap : capacity (shared s) = cap;
  inv_size : rsize (shared s) = size;
  inv_prefix : delivered s = take (length (delivered s)) (published s);
  inv_room : Z.of_nat (length (published s)) <= Z.of_nat (length (delivered s)) + cap;
  inv_slots : forall j x, (length (delivered s) <= j)%nat -> published s !! j = Some x ->
    ring (shared s) !! Z.to_nat (Z.of_nat j mod size) = Some x;
  inv_prod : prod_inv (shared s) (ppc s) (published s) (delivered s);
  inv_cons : cons_inv (shared s) (cpc s) (published s) (delivered s)
}.
End Inv.

(** ** Every step keeps it *)

Lemma shape_bounds r : ring_shape r -> 0 < rsize r <= 2 ^ 31 /\ 0 <= capacity r < rsize r.
Proof.
  intros Hsh. pose proof (rsize_pos r Hsh). pose proof (shape_mask r Hsh). pose proof (shape_cap r Hsh). lia.
Qed.

Lemma prefix_le (del pub : list nat) : del = take (length del) pub -> (length del <= length pub)%nat.
Proof. intros E. apply (f_equal length) in E. rewrite length_take in E. lia. Qed.

(** The producer's claim stays within the free entries it saw. *)
Lemma enq_count_bound r objs b P D c cap :
  capacity r = cap -> cap < 2 ^ 31 -> requested objs < 2 ^ 32 -> 0 <= c <= D -> D <= P -> P <= c + cap ->
  0 <= enq_count r objs b (u32 P) (u32 c) <= requested objs /\
  P + enq_count r objs b (u32 P) (u32 c) <= D + cap.
Proof.
  intros Hcap Hc Hreq Hcd Hdp Hpc. unfold enq_count.
  replace (u32 P) with (u32 (c + (P - c))) by (f_equal; lia).
  rewrite free_entries_eq by lia.
  pose proof (clip_bounds b (requested objs) (capacity r - (P - c)) ltac:(lia)
    ltac:(unfold requested; lia)). lia.
Qed.

Lemma deq_count_bound n b P D p :
  0 <= n -> 0 <= D -> D <= p <= P -> P - D < 2 ^ 32 ->
  0 <= deq_count n b (u32 D) (u32 p) <= n /\ D + deq_count n b (u32 D) (u32 p) <= P.
Proof.
  intros Hn HD Hp Hb. unfold deq_count. replace (u32 p) with (u32 (D + (p - D))) by (f_equal; lia).
  rewrite u32_diff by lia. pose proof (clip_bounds b n (p - D) ltac:(lia) ltac:(lia)). lia.
Qed.

Lemma requested_take n objs : 0 <= n <= requested objs -> requested (take (Z.to_nat n) objs) = n.
Proof. unfold requested. intros. rewrite length_take. lia. Qed.

Lemma prod_step_inv cap size s s' : spsc_inv cap size s -> prod_step s s' -> spsc_inv cap size s'.
Proof.
  intros [Hsh Hcap Hsize Hpre Hroom Hslot Hp Hc] Hstep. pose proof (shape_bounds _ Hsh) as [Hb1 Hb2].
  pose proof (prefix_le _ _ Hpre) as Hle. rewrite Hcap, Hsize in *.
  destruct Hstep as [r c pub del objs b Hreq|r c pub del objs b|r c pub del objs b oh ct H0
    |r c pub del objs b oh ct n Hn Hn0|r c pub del objs oh nh i x Hx|r c pub del objs oh nh];
    cbn [shared ppc cpc published delivered] in *; destruct Hp as [Ht Hp].
  - by split; try done.
  - destruct Hp as [Hh Hreq]. split; try done. split; [done|]. cbn. split_and!; try done.
    exists (Z.of_nat (length del)). destruct Hc as [-> _]. split_and!; [done|lia|lia|lia].
  - destruct Hp as (Hh & _). by split; try done.
  - destruct Hp as (Hh & Hreq & -> & k & -> & Hk & Hpk).
    destruct (enq_count_bound r objs b (Z.of_nat (length pub)) (Z.of_nat (length del)) k cap
      ltac:(done) ltac:(lia) Hreq Hk ltac:(lia) Hpk) as [Hn1 Hn2]. rewrite <- Hn in Hn1, Hn2.
    split; try done; [by destruct Hsh|]. split; [done|]. cbn [ppc shared prod set_prod set_head head].
    rewrite requested_take by lia. rewrite wrapu_add_l. split_and!; try done; [lia|].
    intros t x Hlt. lia.
  - destruct Hp as (-> & -> & Hh & Hfit & Hi & Hcopied).
    pose proof (lookup_lt_Some _ _ _ Hx) as Hxl. unfold requested in *.
    rewrite wrapu_add_l, (masked r) by done. rewrite Hsize.
    pose proof (Z.mod_pos_bound (Z.of_nat (length pub) + Z.of_nat i) size ltac:(lia)) as Hix.
    pose proof (shape_ring _ Hsh) as Hlen. rewrite Hsize in Hlen.
    split; try done.
    + destruct Hsh. split; try done. cbn. by rewrite length_insert.
    + cbn. intros j y Hj Hy. pose proof (lookup_lt_Some _ _ _ Hy).
      rewrite list_lookup_insert_ne; [by apply Hslot|].
      pose proof (positions_differ size 0 (Z.of_nat j) (Z.of_nat (length pub) + Z.of_nat i)
        ltac:(lia) ltac:(lia) ltac:(lia)) as Hne. rewrite !Z.add_0_l in Hne.
      pose proof (Z.mod_pos_bound (Z.of_nat j) size ltac:(lia)). lia.
    + split; [done|]. cbn. unfold requested. split_and!; try done.
      intros t y Hlt Hy. destruct (decide (t = i)) as [->|].
      * simplify_eq. apply list_lookup_insert_eq. lia.
      * rewrite list_lookup_insert_ne; [apply Hcopied; [lia|done]|].
        pose proof (positions_differ size (Z.of_nat (length pub)) (Z.of_nat t) (Z.of_nat i)
          ltac:(lia) ltac:(lia) ltac:(lia)) as Hne.
        pose proof (Z.mod_pos_bound (Z.of_nat (length pub) + Z.of_nat t) size ltac:(lia)). lia.
  - destruct Hp as (-> & -> & Hh & Hfit & _ & Hcopied). unfold requested in *. split; try done.
    + by destruct Hsh.
    + cbn. by rewrite take_app_le by lia.
    + cbn. rewrite length_app. lia.
    + cbn. intros j y Hj Hy. apply lookup_app_Some in Hy as [Hy|[Hge Hy]]; [by apply Hslot|].
      specialize (Hcopied (j - length pub)%nat y (lookup_lt_Some _ _ _ Hy) Hy).
      by replace (Z.of_nat (length pub) + Z.of_nat (j - length pub)) with (Z.of_nat j) in Hcopied by lia.
    + cbn. unfold prod_inv. cbn. rewrite length_app, Nat2Z.inj_add. done.
    + cbn. destruct Hc as [Hct Hc]. split; [done|]. rewrite length_app.
      destruct c as [|n b|n b oh pt|n oh nh got]; try done.
      * destruct Hc as (? & ? & ? & p & ? & ?). do 3 (split; [done|]). exists p. split; [done|]. lia.
      * destruct Hc as (? & ? & ? & ? & ? & Hgot). split_and!; try done; [lia|].
        rewrite drop_app_le, take_app_le by (rewrite ?length_drop; lia). done.
Qed.

Lemma cons_step_inv cap size s s' : spsc_inv cap size s -> cons_step s s' -> spsc_inv cap size s'.
Proof.
  intros [Hsh Hcap Hsize Hpre Hroom Hslot Hp Hc] Hstep. pose proof (shape_bounds _ Hsh) as [Hb1 Hb2].
  pose proof (prefix_le _ _ Hpre) as Hle. rewrite Hcap, Hsize in *.
  destruct Hstep as [r p pub del n b Hn|r p pub del n b|r p pub del n b oh pt H0
    |r p pub del n b oh pt k Hk Hk0|r p pub del n oh nh got x Hgn Hx|r p pub del n oh nh got Hgn];
    cbn [shared ppc cpc published delivered] in *; destruct Hc as [Ht Hc].
  - by split; try done.
  - destruct Hc as [Hh Hn]. split; try done. split; [done|]. cbn. do 3 (split; [done|]).
    exists (Z.of_nat (length pub)). destruct Hp as [-> _]. split; [done|lia].
  - destruct Hc as (Hh & _). by split; try done.
  - destruct Hc as (Hh & Hn & -> & q & -> & Hq).
    destruct (deq_count_bound n b (Z.of_nat (length pub)) (Z.of_nat (length del)) q
      ltac:(lia) ltac:(lia) Hq ltac:(lia)) as [Hk1 Hk2]. rewrite <- Hk in Hk1, Hk2.
    split; try done; [by destruct Hsh|]. split; [done|]. cbn [cpc shared cons set_cons set_head head].
    rewrite wrapu_add_l. split_and!; try done; simpl; lia.
  - destruct Hc as (-> & -> & Hh & Hg & Hfit & Hgot). split; try done. split; [done|]. cbn.
    rewrite wrapu_add_l, (masked r), Hsize in Hx by done.
    destruct (lookup_lt_is_Some_2 pub (length del + length got) ltac:(lia)) as [y Hy].
    pose proof (Hslot (length del + length got)%nat y ltac:(lia) Hy) as Hs.
    replace (Z.of_nat (length del + length got)) with (Z.of_nat (length del) + Z.of_nat (length got)) in Hs by lia.
    rewrite Hs in Hx. injection Hx as ->.
    do 3 (split; [done|]). rewrite length_app. cbn [length]. split; [lia|]. split; [done|].
    rewrite Nat.add_1_r. rewrite (take_S_r _ _ x) by (by rewrite lookup_drop). by rewrite <- Hgot.
  - destruct Hc as (-> & -> & Hh & Hg & Hfit & Hgot). split; try done.
    + by destruct Hsh.
    + cbn. rewrite length_app, <- take_take_drop. by rewrite <- Hpre, <- Hgot.
    + cbn. rewrite length_app. lia.
    + cbn. intros j y Hj. rewrite length_app in Hj. apply Hslot. lia.
    + cbn. destruct Hp as [Hpt Hp]. split; [done|]. rewrite length_app.
      destruct p as [|objs b|objs b oh ct|objs oh nh i]; try done.
      * destruct Hp as (? & ? & ? & c & ? & ? & ?). do 3 (split; [done|]). exists c.
        split_and!; try done; lia.
      * destruct Hp as (? & ? & ? & ? & ? & ?). split_and!; try done; lia.
    + cbn. unfold cons_inv. cbn. rewrite length_app, Nat2Z.inj_add, Hgn. done.
Qed.

Lemma create_ring_fields e c r :
  create_ring e c = inr r -> rsize r = c /\ prod r = headtail_init true /\ cons r = headtail_init true.
Proof.
  intros Hr. apply created_init in Hr. rewrite spsc_init_eq in Hr.
  destruct (_ || _); [done|]. by injection Hr as <-.
Qed.

Lemma reachable_inv e k r s :
  0 <= k <= 27 -> create_ring e (2 ^ k) = inr r -> reachable r s -> spsc_inv (2 ^ k - 1) (2 ^ k) s.
Proof.
  intros Hk Hr Hreach. destruct (init_rep k Hk) as (r' & Hr' & Hrep & Hcap).
  rewrite (created_init _ _ _ Hr) in Hr'. injection Hr' as <-.
  destruct (create_ring_fields _ _ _ Hr) as (Hsz & Hp & Hc). destruct Hrep as [Hsh Hfit _].
  apply clos_rt_rtn1 in Hreach. induction Hreach as [|s s' Hstep Hreach IH].
  - split; try done; simpl; unfold prod_inv, cons_inv; rewrite ?Hp, ?Hc; try done. simpl in Hfit. lia.
  - destruct Hstep as [s s' Hs|s s' Hs]; [by eapply prod_step_inv|by eapply cons_step_inv].
Qed.

(** C8: In every interleaving of one producer and one consumer on a new ring, at
    every moment, also in the middle of calls and after any number of wrap-arounds
    of the 32-bit indices: the objects delivered are a prefix, in order, of the
    objects published, and at most the capacity is in between. *)
Theorem spsc_fifo (e : ring_env) (k : Z) (r : rte_ring) (s : spsc) :
  0 <= k <= 27 -> create_ring e (2 ^ k) = inr r -> reachable r s ->
  exists queued, published s = delivered s ++ queued /\ Z.of_nat (length queued) <= 2 ^ k - 1.
Proof.
  intros Hk Hr Hreach. destruct (reachable_inv e k r s Hk Hr Hreach) as [_ _ _ Hpre Hroom _ _ _].
  exists (drop (length (delivered s)) (published s)). split.
  - rewrite Hpre at 1. rewrite take_drop. done.
  - rewrite length_drop. lia.
Qed.

(** ** Wait-freedom *)

(** The accesses a call in progress still has to make. *)
Definition prod_left (p : prod_pc) : nat :=
  match p with
  | PIdle => 0
  | PRequest objs _ => length objs + 3
  | PLoaded objs _ _ _ => length objs + 2
  | PCopy objs _ _ i => length objs - i + 1
  end.

Definition cons_left (s : spsc) : nat :=
  match cpc s with
  | CIdle => 0
  | CRequest _ _ => length (published s) + 3
  | CLoaded _ _ _ _ => length (published s) + 2
  | CCopy n _ _ got => Z.to_nat n - length got + 1
  end.

Lemma prod_advances cap size s :
  spsc_inv cap size s -> ppc s <> PIdle ->
  exists s', prod_step s s' /\ (prod_left (ppc s') < prod_left (ppc s))%nat.
Proof.
  destruct s as [r p c pub del]. intros [Hsh Hcap Hsize Hpre Hroom Hslot Hp Hc] Hne.
  pose proof (shape_bounds _ Hsh) as [Hb1 Hb2]. pose proof (prefix_le _ _ Hpre) as Hle. simpl in *.
  destruct p as [|objs b|objs b oh ct|objs oh nh i]; [done|..]; destruct Hp as [_ Hp].
  - eexists. split; [apply p_load|]. simpl. lia.
  - destruct Hp as (Hh & Hreq & -> & k & -> & Hk & Hpk).
    destruct (enq_count_bound r objs b (Z.of_nat (length pub)) (Z.of_nat (length del)) k cap
      ltac:(done) ltac:(lia) Hreq Hk ltac:(lia) Hpk) as [Hn1 _].
    destruct (decide (enq_count r objs b (u32 (Z.of_nat (length pub))) (u32 k) = 0)).
    + eexists. split; [by apply p_full|]. simpl. lia.
    + eexists. split; [by apply p_move|]. simpl. rewrite length_take. lia.
  - destruct Hp as (_ & _ & _ & _ & Hi & _). destruct (objs !! i) as [x|] eqn:Hx.
    + eexists. split; [by apply p_copy|]. apply lookup_lt_Some in Hx. simpl. lia.
    + apply lookup_ge_None in Hx. assert (i = length objs) as -> by lia.
      eexists. split; [apply p_publish|]. simpl. lia.
Qed.

Lemma cons_advances cap size s :
  spsc_inv cap size s -> cpc s <> CIdle ->
  exists s', cons_step s s' /\ (cons_left s' < cons_left s)%nat.
Proof.
  destruct s as [r p c pub del]. intros [Hsh Hcap Hsize Hpre Hroom Hslot Hp Hc] Hne.
  pose proof (shape_bounds _ Hsh) as [Hb1 Hb2]. pose proof (prefix_le _ _ Hpre) as Hle. simpl in *.
  destruct c as [|n b|n b oh pt|n oh nh got]; [done|..]; destruct Hc as [_ Hc].
  - eexists. split; [apply c_load|]. unfold cons_left. simpl. lia.
  - destruct Hc as (Hh & Hn & -> & q & -> & Hq).
    destruct (deq_count_bound n b (Z.of_nat (length pub)) (Z.of_nat (length del)) q
      ltac:(lia) ltac:(lia) Hq ltac:(lia)) as [Hk1 Hk2].
    destruct (decide (deq_count n b (u32 (Z.of_nat (length del))) (u32 q) = 0)).
    + eexists. split; [by apply c_empty|]. unfold cons_left. simpl. lia.
    + eexists. split; [by apply c_move|]. unfold cons_left. simpl. lia.
  - destruct Hc as (-> & -> & Hh & Hg & Hfit & Hgot).
    destruct (decide (Z.of_nat (length got) = n)).
    + eexists. split; [by apply c_return|]. unfold cons_left. simpl. lia.
    + destruct (lookup_lt_is_Some_2 pub (length del + length got) ltac:(lia)) as [y Hy].
      pose proof (Hslot (length del + length got)%nat y ltac:(lia) Hy) as Hs.
      eexists. split; [apply (c_copy _ _ _ _ _ _ _ _ y); [lia|]|].
      * rewrite wrapu_add_l, (masked r) by done. rewrite Hsize.
        by replace (Z.of_nat (length del) + Z.of_nat (length got))
          with (Z.of_nat (length del + length got)) by lia.
      * unfold cons_left. simpl. rewrite length_app. simpl. lia.
Qed.

(** Both sides are wait-free: in every reachable state a call in progress can
    take its next step whatever the other side does, and each of its steps brings
    it closer to its end (the consumer's bound is over the objects published when
    it claims its entries). No access leaves the array. *)
Theorem spsc_wait_free (e : ring_env) (k : Z) (r : rte_ring) (s : spsc) :
  0 <= k <= 27 -> create_ring e (2 ^ k) = inr r -> reachable r s ->
  (ppc s <> PIdle -> exists s', prod_step s s' /\ (prod_left (ppc s') < prod_left (ppc s))%nat) /\
  (cpc s <> CIdle -> exists s', cons_step s s' /\ (cons_left s' < cons_left s)%nat).
Proof.
  intros Hk Hr Hreach. pose proof (reachable_inv e k r s Hk Hr Hreach) as Hinv.
  split; intros; [by eapply prod_advances|by eapply cons_advances].
Qed.

(** ** Examples *)

(** The producer has published two objects and copies a third while the consumer
    has claimed the first two and read one of them. *)
Definition demo_trace : spsc :=
  Spsc (set_cons (HeadTail 2 0 true) (set_prod (HeadTail 3 2 true) (set_ring [5; 6; 7; 0]%nat
          (Ring 4 3 3 (headtail_init true) (headtail_init true) [0; 0; 0; 0]%nat))))
    (PCopy [7%nat] 2 3 1) (CCopy 2 0 2 [5%nat]) [5; 6]%nat [].

Definition small_ring : rte_ring := Ring 4 3 3 (headtail_init true) (headtail_init true) [0; 0; 0; 0]%nat.

Lemma demo_reachable : reachable small_ring demo_trace.
Proof.
  assert (forall s s' s'', spsc_step s s' -> clos_refl_trans _ spsc_step s' s'' ->
            clos_refl_trans _ spsc_step s s'') as Hcons.
  { intros s s' s'' Hs Hr. eapply rt_trans; [apply rt_step, Hs|exact Hr]. }
  eapply Hcons. { apply step_prod, (p_call _ _ _ _ [5; 6]%nat RTE_RING_QUEUE_FIXED). done. }
  eapply Hcons. { apply step_prod, p_load. }
  eapply Hcons. { apply step_prod. eapply p_move; [reflexivity|done]. }
  eapply Hcons. { apply step_prod. eapply p_copy. reflexivity. }
  eapply Hcons. { apply step_prod. eapply p_copy. reflexivity. }
  eapply Hcons. { apply step_prod. apply (p_publish _ _ _ _ [5; 6]%nat). }
  eapply Hcons. { apply step_prod, (p_call _ _ _ _ [7]%nat RTE_RING_QUEUE_FIXED). done. }
  eapply Hcons. { apply step_cons, (c_call _ _ _ _ 2 RTE_RING_QUEUE_FIXED). done. }
  eapply Hcons. { apply step_prod, p_load. }
  eapply Hcons. { apply step_cons, c_load. }
  eapply Hcons. { apply step_cons. eapply c_move; [reflexivity|done]. }
  eapply Hcons. { apply step_prod. eapply p_move; [reflexivity|done]. }
  eapply Hcons. { apply step_cons. eapply c_copy; [done|reflexivity]. }
  eapply Hcons. { apply step_prod. eapply p_copy. reflexivity. }
  apply rt_refl.
Qed.

Lemma spsc_fifo_witness :
  exists queued, [5; 6]%nat = [] ++ queued /\ Z.of_nat (length queued) <= 3.
Proof. apply (spsc_fifo demo_env 2 small_ring demo_trace); [lia|reflexivity|apply demo_reachable]. Defined.

Lemma spsc_wait_free_witness :
  (exists s', prod_step demo_trace s' /\ (prod_left (ppc s') < 1)%nat) /\
  (exists s', cons_step demo_trace s' /\ (cons_left s' < 2)%nat).
Proof.
  destruct (spsc_wait_free demo_env 2 small_ring demo_trace) as [Hp Hc]; [lia|reflexivity|apply demo_reachable|].
  split; [apply Hp; discriminate|apply Hc; discriminate].
Defined.
