(* ===== verification/RingMpmc.v ===== *)
(** Any number of producers and consumers on different cores: the interleavings of
    [__rte_ring_do_enqueue] and [__rte_ring_do_dequeue] on a ring whose two sides are
    shared (such as the ring of a memory pool), as a step relation. A step is one
    access to shared memory: the two loads before a head is moved, the compare-and-set
    that moves it or fails, the copy of one pointer, and the store of a tail, which
    waits for the threads that moved the head before.

    The history (objects in the order in which the head was moved over them, objects
    published and delivered, and how far a head had come when a thread read it) is not
    in the code. *)
From Stdlib Require Import ZArith Lia.
From stdpp Require Import base numbers list relations.
From S2P Require Import Prelude Ring RingSpec RingConc.

#[local] Open Scope Z_scope.

(** ** The threads *)

(** A producer: between calls, before and between the loads, before the
    compare-and-set ([seen] objects had been claimed when it read the head), and while
    it copies to the entries from [start] on. *)
Inductive mp_pc :=
| MPIdle
| MPRequest (objs : list nat) (b : rte_ring_queue_behavior)
| MPHead (objs : list nat) (b : rte_ring_queue_behavior) (old_head : Z) (seen : nat)
| MPLoaded (objs : list nat) (b : rte_ring_queue_behavior) (old_head cons_tail : Z) (seen : nat)
| MPCopy (objs : list nat) (old_head new_head : Z) (i : nat) (start : nat).

Inductive mc_pc :=
| MCIdle
| MCRequest (n : Z) (b : rte_ring_queue_behavior)
| MCHead (n : Z) (b : rte_ring_queue_behavior) (old_head : Z) (seen : nat)
| MCLoaded (n : Z) (b : rte_ring_queue_behavior) (old_head prod_tail : Z) (seen : nat)
| MCCopy (n : nat) (old_head new_head : Z) (got : list nat) (start : nat).

(** [claimed]: the objects in the order in which the producers' head moved; [taken]:
    how many of them the consumers' head has passed. *)
Record mpmc := Mpmc {
  mshared : rte_ring; prods : list mp_pc; conss : list mc_pc;
  claimed : list nat; taken : nat; mpublished : list nat; mdelivered : list nat
}.

(** ** Steps *)

(** A step of a producer, with what it changes: the ring, the objects claimed and
    published, and its own position. *)
Inductive mp_step : rte_ring -> list nat -> list nat -> mp_pc -> rte_ring -> list nat -> list nat -> mp_pc -> Prop :=
| mp_call r cl pub objs b :
    requested objs < 2 ^ 32 -> mp_step r cl pub MPIdle r cl pub (MPRequest objs b)
| mp_head r cl pub objs b :
    mp_step r cl pub (MPRequest objs b) r cl pub (MPHead objs b (head (prod r)) (length cl))
| mp_tail r cl pub objs b old_head seen :
    mp_step r cl pub (MPHead objs b old_head seen) r cl pub (MPLoaded objs b old_head (tail (cons r)) seen)
| mp_full r cl pub objs b old_head cons_tail seen :
    enq_count r objs b old_head cons_tail = 0 ->
    mp_step r cl pub (MPLoaded objs b old_head cons_tail seen) r cl pub MPIdle
| mp_cas_ok r cl pub objs b old_head cons_tail seen n :
    n = enq_count r objs b old_head cons_tail -> n <> 0 -> head (prod r) = old_head ->
    mp_step r cl pub (MPLoaded objs b old_head cons_tail seen)
            (set_prod (set_head (u32 (old_head + n)) (prod r)) r) (cl ++ take (Z.to_nat n) objs) pub
            (MPCopy (take (Z.to_nat n) objs) old_head (u32 (old_head + n)) 0 (length cl))
| mp_cas_fail r cl pub objs b old_head cons_tail seen :
    enq_count r objs b old_head cons_tail <> 0 -> head (prod r) <> old_head ->
    mp_step r cl pub (MPLoaded objs b old_head cons_tail seen) r cl pub (MPRequest objs b)
| mp_copy r cl pub objs old_head new_head i start x :
    objs !! i = Some x ->
    mp_step r cl pub (MPCopy objs old_head new_head i start)
            (set_ring (<[Z.to_nat (Z.land (u32 (old_head + Z.of_nat i)) (mask r)) := x]> (ring r)) r) cl pub
            (MPCopy objs old_head new_head (S i) start)
| mp_publish r cl pub objs old_head new_head start :
    tail (prod r) = old_head ->
    mp_step r cl pub (MPCopy objs old_head new_head (length objs) start)
            (set_prod (set_tail new_head (prod r)) r) cl (pub ++ objs) MPIdle.

(** A step of a consumer, with the objects taken and delivered. *)
Inductive mc_step : rte_ring -> nat -> list nat -> mc_pc -> rte_ring -> nat -> list nat -> mc_pc -> Prop :=
| mc_call r tk del n b :
    0 <= n < 2 ^ 32 -> mc_step r tk del MCIdle r tk del (MCRequest n b)
| mc_head r tk del n b :
    mc_step r tk del (MCRequest n b) r tk del (MCHead n b (head (cons r)) tk)
| mc_tail r tk del n b old_head seen :
    mc_step r tk del (MCHead n b old_head seen) r tk del (MCLoaded n b old_head (tail (prod r)) seen)
| mc_empty r tk del n b old_head prod_tail seen :
    deq_count n b old_head prod_tail = 0 ->
    mc_step r tk del (MCLoaded n b old_head prod_tail seen) r tk del MCIdle
| mc_cas_ok r tk del n b old_head prod_tail seen k :
    k = deq_count n b old_head prod_tail -> k <> 0 -> head (cons r) = old_head ->
    mc_step r tk del (MCLoaded n b old_head prod_tail seen)
            (set_cons (set_head (u32 (old_head + k)) (cons r)) r) (tk + Z.to_nat k)%nat del
            (MCCopy (Z.to_nat k) old_head (u32 (old_head + k)) [] tk)
| mc_cas_fail r tk del n b old_head prod_tail seen :
    deq_count n b old_head prod_tail <> 0 -> head (cons r) <> old_head ->
    mc_step r tk del (MCLoaded n b old_head prod_tail seen) r tk del (MCRequest n b)
| mc_copy r tk del n old_head new_head got start x :
    (length got < n)%nat ->
    ring r !! Z.to_nat (Z.land (u32 (old_head + Z.of_nat (length got))) (mask r)) = Some x ->
    mc_step r tk del (MCCopy n old_head new_head got start) r tk del (MCCopy n old_head new_head (got ++ [x]) start)
| mc_return r tk del n old_head new_head got start :
    length got = n -> tail (cons r) = old_head ->
    mc_step r tk del (MCCopy n old_head new_head got start)
            (set_cons (set_tail new_head (cons r)) r) tk (del ++ got) MCIdle.

(** One thread takes a step. *)
Inductive mpmc_step : mpmc -> mpmc -> Prop :=
| step_producer r ps cs cl tk pub del k pc r' cl' pub' pc' :
    ps !! k = Some pc -> mp_step r cl pub pc r' cl' pub' pc' ->
    mpmc_step (Mpmc r ps cs cl tk pub del) (Mpmc r' (<[k := pc']> ps) cs cl' tk pub' del)
| step_consumer r ps cs cl tk pub del k pc r' tk' del' pc' :
    cs !! k = Some pc -> mc_step r tk del pc r' tk' del' pc' ->
    mpmc_step (Mpmc r ps cs cl tk pub del) (Mpmc r' ps (<[k := pc']> cs) cl tk' pub del').

Definition mpmc_init (r : rte_ring) (np nc : nat) : mpmc := Mpmc r (replicate np MPIdle) (replicate nc MCIdle) [] 0 [] [].

(** The compare-and-set compares 32 bits: no thread sleeps, between the load of a head
    and its compare-and-set, through the whole range of the index. *)
Definition timely (s : mpmc) : Prop :=
  (forall k objs b old_head cons_tail seen, prods s !! k = Some (MPLoaded objs b old_head cons_tail seen) ->
    Z.of_nat (length (claimed s)) - Z.of_nat seen < 2 ^ 32) /\
  (forall k n b old_head prod_tail seen, conss s !! k = Some (MCLoaded n b old_head prod_tail seen) ->
    Z.of_nat (taken s) - Z.of_nat seen < 2 ^ 32).

Definition timely_step (s s' : mpmc) : Prop := timely s /\ mpmc_step s s'.

(** ** Claims *)

(** The entries that a thread has claimed. *)
Definition mp_span (pc : mp_pc) : option (nat * nat) :=
  match pc with MPCopy objs _ _ _ start => Some (start, length objs) | _ => None end.
Definition mc_span (pc : mc_pc) : option (nat * nat) :=
  match pc with MCCopy n _ _ _ start => Some (start, n) | _ => None end.

Section Claims.
Context {T : Type} (span : T -> option (nat * nat)).

Definition claim (l : list T) (k : nat) (a : nat * nat) : Prop := exists pc, l !! k = Some pc /\ span pc = Some a.

(** The claims of the threads [l] divide the entries from [lo] to [hi] among them. *)
Record tiled (l : list T) (lo hi : nat) : Prop := {
  tl_within k a : claim l k a -> (lo <= a.1 /\ 0 < a.2 /\ a.1 + a.2 <= hi)%nat;
  tl_disjoint j k a b : j <> k -> claim l j a -> claim l k b -> (a.1 + a.2 <= b.1 \/ b.1 + b.2 <= a.1)%nat;
  tl_cover x : (lo <= x < hi)%nat -> exists k a, claim l k a /\ (a.1 <= x < a.1 + a.2)%nat
}.

Lemma claim_insert l k j pc a :
  (k < length l)%nat -> claim (<[k := pc]> l) j a <-> (j = k /\ span pc = Some a) \/ (j <> k /\ claim l j a).
Proof.
  intros Hk. unfold claim. destruct (decide (j = k)) as [->|Hne].
  - rewrite list_lookup_insert_eq by done. naive_solver.
  - rewrite list_lookup_insert_ne by done. naive_solver.
Qed.

(** A step that neither makes nor completes a claim. *)
Lemma tiled_same l lo hi k pc pc' :
  l !! k = Some pc -> span pc' = span pc -> tiled l lo hi -> tiled (<[k := pc']> l) lo hi.
Proof.
  intros Hk Hs Ht. pose proof (lookup_lt_Some _ _ _ Hk) as Hlt.
  assert (forall j a, claim (<[k := pc']> l) j a <-> claim l j a) as Hc.
  { intros j a. rewrite claim_insert by done. destruct (decide (j = k)) as [->|]; [|naive_solver].
    rewrite Hs. unfold claim. rewrite Hk. naive_solver. }
  destruct Ht as [H1 H2 H3]. split.
  - intros j a. rewrite Hc. apply H1.
  - intros i j a b Hne. rewrite !Hc. by apply H2.
  - intros x Hx. destruct (H3 x Hx) as (j & a & Ha & ?). exists j, a. by rewrite Hc.
Qed.

(** A claim of the next [n] entries. *)
Lemma tiled_claim l lo hi k pc pc' n :
  l !! k = Some pc -> span pc = None -> span pc' = Some (hi, n) -> (0 < n)%nat -> (lo <= hi)%nat ->
  tiled l lo hi -> tiled (<[k := pc']> l) lo (hi + n).
Proof.
  intros Hk Hs Hs' Hn Hle Ht. pose proof (lookup_lt_Some _ _ _ Hk) as Hlt.
  destruct Ht as [H1 H2 H3]. split.
  - intros j a. rewrite claim_insert by done. rewrite Hs'. intros [[_ [= <-]]|[_ Ha]]; [cbn; lia|]. apply H1 in Ha. lia.
  - intros i j a b Hne. rewrite !claim_insert by done. rewrite Hs'.
    intros [[-> [= <-]]|[? Ha]] [[-> [= <-]]|[? Hb]]; try done; [apply H1 in Hb; cbn; lia|apply H1 in Ha; cbn; lia|exact (H2 _ _ _ _ Hne Ha Hb)].
  - intros x Hx. destruct (decide (x < hi)%nat).
    + destruct (H3 x ltac:(lia)) as (j & a & Ha & ?). exists j, a. rewrite claim_insert by done. split; [|done]. right. split; [|done].
      intros ->. destruct Ha as (? & E & E'). congruence.
    + exists k, (hi, n). rewrite claim_insert by done. split; [by left|]. cbn. lia.
Qed.

(** The first claim is completed. *)
Lemma tiled_complete l lo hi k pc pc' n :
  l !! k = Some pc -> span pc = Some (lo, n) -> span pc' = None -> tiled l lo hi -> tiled (<[k := pc']> l) (lo + n) hi.
Proof.
  intros Hk Hs Hs' Ht. pose proof (lookup_lt_Some _ _ _ Hk) as Hlt. destruct Ht as [H1 H2 H3].
  assert (claim l k (lo, n)) as Hck by by exists pc. split.
  - intros j a. rewrite claim_insert by done. rewrite Hs'. intros [[_ [=]]|[Hne Ha]].
    pose proof (H1 _ _ Ha). pose proof (H2 _ _ _ _ Hne Ha Hck) as Hd. cbn in Hd. lia.
  - intros i j a b Hne. rewrite !claim_insert by done. rewrite Hs'. intros [[_ [=]]|[? Ha]] [[_ [=]]|[? Hb]]. exact (H2 _ _ _ _ Hne Ha Hb).
  - intros x Hx. destruct (H3 x ltac:(lia)) as (j & a & Ha & Hin). exists j, a. rewrite claim_insert by done. split; [|done].
    right. split; [|done]. intros ->. destruct Ha as (? & E & E'). assert (a = (lo, n)) as -> by congruence. cbn in Hin. lia.
Qed.

(** The thread that holds the first claim. *)
Lemma tiled_first l lo hi : (lo < hi)%nat -> tiled l lo hi -> exists k pc n, l !! k = Some pc /\ span pc = Some (lo, n) /\ (0 < n)%nat.
Proof.
  intros Hlt [H1 H2 H3]. destruct (H3 lo ltac:(lia)) as (k & [s n] & Hc & Hin). pose proof (H1 _ _ Hc) as (Hlo & Hn & _).
  cbn in *. destruct Hc as (pc & Hk & Hs). exists k, pc, n. split_and!; [done| |done]. rewrite Hs. repeat f_equal. lia.
Qed.
End Claims.

(** ** The invariant *)

Section Inv.
Context (cap size : Z).

(** The entry of the [j]-th object. *)
Definition slot (r : rte_ring) (j : nat) : option nat := ring r !! Z.to_nat (Z.of_nat j mod size).

Definition prod_ok (r : rte_ring) (cl : list nat) (D : nat) (pc : mp_pc) : Prop :=
  match pc with
  | MPIdle => True
  | MPRequest objs b => requested objs < 2 ^ 32
  | MPHead objs b old_head seen => requested objs < 2 ^ 32 /\ old_head = u32 (Z.of_nat seen) /\ (seen <= length cl)%nat
  | MPLoaded objs b old_head cons_tail seen =>
    requested objs < 2 ^ 32 /\ old_head = u32 (Z.of_nat seen) /\ (seen <= length cl)%nat /\
    exists c, cons_tail = u32 (Z.of_nat c) /\ (c <= D)%nat /\ Z.of_nat seen <= Z.of_nat c + cap
  | MPCopy objs old_head new_head i start =>
    old_head = u32 (Z.of_nat start) /\ new_head = u32 (Z.of_nat (start + length objs)) /\ (i <= length objs)%nat /\
    objs = take (length objs) (drop start cl) /\
    forall t x, (t < i)%nat -> objs !! t = Some x -> slot r (start + t) = Some x
  end.

Definition cons_ok (cl : list nat) (tk P : nat) (pc : mc_pc) : Prop :=
  match pc with
  | MCIdle => True
  | MCRequest n b => 0 <= n < 2 ^ 32
  | MCHead n b old_head seen => 0 <= n < 2 ^ 32 /\ old_head = u32 (Z.of_nat seen) /\ (seen <= tk)%nat
  | MCLoaded n b old_head prod_tail seen =>
    0 <= n < 2 ^ 32 /\ old_head = u32 (Z.of_nat seen) /\ (seen <= tk)%nat /\
    exists p, prod_tail = u32 (Z.of_nat p) /\ (seen <= p <= P)%nat
  | MCCopy n old_head new_head got start =>
    old_head = u32 (Z.of_nat start) /\ new_head = u32 (Z.of_nat (start + n)) /\ (length got <= n)%nat /\
    got = take (length got) (drop start cl)
  end.

Record mpmc_inv (s : mpmc) : Prop := {
  mi_shape : ring_shape (mshared s);
  mi_cap : capacity (mshared s) = cap;
  mi_size : rsize (mshared s) = size;
  mi_ptr : prod (mshared s) = HeadTail (u32 (Z.of_nat (length (claimed s)))) (u32 (Z.of_nat (length (mpublished s)))) false;
  mi_ctr : cons (mshared s) = HeadTail (u32 (Z.of_nat (taken s))) (u32 (Z.of_nat (length (mdelivered s)))) false;
  mi_order : (length (mdelivered s) <= taken s <= length (mpublished s))%nat;
  mi_room : Z.of_nat (length (claimed s)) <= Z.of_nat (length (mdelivered s)) + cap;
  mi_pub : mpublished s = take (length (mpublished s)) (claimed s);
  mi_del : mdelivered s = take (length (mdelivered s)) (claimed s);
  mi_slots j x : (length (mdelivered s) <= j < length (mpublished s))%nat -> claimed s !! j = Some x -> slot (mshared s) j = Some x;
  mi_prods : tiled mp_span (prods s) (length (mpublished s)) (length (claimed s));
  mi_conss : tiled mc_span (conss s) (length (mdelivered s)) (taken s);
  mi_pok k pc : prods s !! k = Some pc -> prod_ok (mshared s) (claimed s) (length (mdelivered s)) pc;
  mi_cok k pc : conss s !! k = Some pc -> cons_ok (claimed s) (taken s) (length (mpublished s)) pc
}.

(** What a thread knows stays true when the others go on. *)
Lemma prod_ok_mono r r' cl cl' D D' pc :
  prod_ok r cl D pc -> (D <= D')%nat -> cl `prefix_of` cl' ->
  (forall start n t x, mp_span pc = Some (start, n) -> (t < n)%nat -> cl !! (start + t)%nat = Some x ->
    slot r (start + t) = Some x -> slot r' (start + t) = Some x) ->
  (forall a, mp_span pc = Some a -> (a.1 + a.2 <= length cl)%nat) ->
  prod_ok r' cl' D' pc.
Proof.
  intros Hok HD [ex ->] Hr Hin. destruct pc as [|objs b|objs b oh seen|objs b oh ct seen|objs oh nh i start]; cbn in *; try done.
  - rewrite length_app. destruct Hok as (? & ? & ?). split_and!; try done. lia.
  - rewrite length_app. destruct Hok as (? & ? & ? & c & ? & ? & ?). split_and!; try done; [lia|]. exists c. split_and!; try done. lia.
  - destruct Hok as (? & ? & ? & Hobjs & Hw). specialize (Hin _ eq_refl). cbn in Hin. split_and!; try done.
    + rewrite Hobjs at 1. rewrite drop_app_le, take_app_le by (rewrite ?length_drop; lia). done.
    + intros t x Ht Hx. eapply Hr; [done| | |by apply Hw]; [apply lookup_lt_Some in Hx; lia|].
      rewrite Hobjs in Hx. rewrite lookup_take_lt, lookup_drop in Hx by (apply lookup_lt_Some in Hx; rewrite length_take in Hx; lia). done.
Qed.

Lemma cons_ok_mono cl cl' tk tk' P P' pc :
  cons_ok cl tk P pc -> (tk <= tk')%nat -> (P <= P')%nat -> cl `prefix_of` cl' ->
  (forall a, mc_span pc = Some a -> (a.1 + a.2 <= length cl)%nat) -> cons_ok cl' tk' P' pc.
Proof.
  intros Hok Htk HP [ex ->] Hin. destruct pc as [|n b|n b oh seen|n b oh pt seen|n oh nh got start]; cbn in *; try done.
  - destruct Hok as (? & ? & ?). split_and!; try done; lia.
  - destruct Hok as (? & ? & ? & p & ? & ?). split; [done|]. split; [done|]. split; [lia|]. exists p. split; [done|]. lia.
  - destruct Hok as (? & ? & ? & Hgot). specialize (Hin _ eq_refl). cbn in Hin. split_and!; try done.
    rewrite Hgot at 1. rewrite drop_app_le, take_app_le by (rewrite ?length_drop; lia). done.
Qed.

(** The others, and the thread that moved. *)
Lemma threads_insert {T} (Q Q' : T -> Prop) (l : list T) k pc' :
  (forall j pc, l !! j = Some pc -> Q pc) -> Q' pc' -> (forall j pc, j <> k -> l !! j = Some pc -> Q pc -> Q' pc) ->
  forall j pc, <[k := pc']> l !! j = Some pc -> Q' pc.
Proof.
  intros Hl Hk Ho j pc Hj. apply list_lookup_insert_Some in Hj as [(-> & -> & _)|[Hne Hj]]; [done|]. eapply Ho; [done|done|by apply (Hl j)].
Qed.

Lemma u32_inj a b : u32 a = u32 b -> 0 <= a - b < 2 ^ 32 -> a = b.
Proof.
  intros E Hab. pose proof (u32_diff b (a - b) Hab) as Hd. replace (b + (a - b)) with a in Hd by lia.
  rewrite E, Z.sub_diag in Hd. change (u32 0) with 0 in Hd. lia.
Qed.

(** The right value at one entry does no harm at the others. *)
Lemma slot_write r cl D q j x y :
  ring_shape r -> rsize r = size -> capacity r = cap -> (D <= q < length cl)%nat -> (D <= j < length cl)%nat ->
  Z.of_nat (length cl) <= Z.of_nat D + cap -> cl !! q = Some y -> cl !! j = Some x -> (j <> q -> slot r j = Some x) ->
  slot (set_ring (<[Z.to_nat (Z.of_nat q mod size) := y]> (ring r)) r) j = Some x.
Proof.
  intros Hsh Hsz Hcp Hq Hj Hroom Hy Hx Hr. pose proof (shape_bounds _ Hsh) as [Hb1 Hb2]. rewrite Hsz in *.
  pose proof (Z.mod_pos_bound (Z.of_nat q) size ltac:(lia)). pose proof (Z.mod_pos_bound (Z.of_nat j) size ltac:(lia)).
  unfold slot. cbn [ring set_ring]. destruct (decide (j = q)) as [->|Hne].
  - rewrite list_lookup_insert_eq; [congruence|]. rewrite (shape_ring _ Hsh), Hsz. lia.
  - rewrite list_lookup_insert_ne; [by apply Hr|].
    destruct (decide (j < q)%nat).
    + pose proof (positions_differ size 0 (Z.of_nat j) (Z.of_nat q) ltac:(lia) ltac:(lia) ltac:(lia)) as Hd. rewrite !Z.add_0_l in Hd. lia.
    + pose proof (positions_differ size 0 (Z.of_nat q) (Z.of_nat j) ltac:(lia) ltac:(lia) ltac:(lia)) as Hd. rewrite !Z.add_0_l in Hd. lia.
Qed.

Lemma pub_le (pub cl : list nat) : pub = take (length pub) cl -> (length pub <= length cl)%nat.
Proof. apply prefix_le. Qed.

(** A producer that makes no claim and writes nothing. *)
Lemma quiet_producer r ps cs cl tk pub del k pc pc' :
  mpmc_inv (Mpmc r ps cs cl tk pub del) -> ps !! k = Some pc -> mp_span pc' = mp_span pc -> prod_ok r cl (length del) pc' ->
  mpmc_inv (Mpmc r (<[k := pc']> ps) cs cl tk pub del).
Proof.
  intros [H1 H2 H3 H4 H5 H6 H7 H8 H9 H10 H11 H12 H13 H14] Hk Hs Hok. split; try done; cbn in *.
  - by eapply tiled_same.
  - eapply threads_insert; [exact H13|done|]. by intros.
Qed.

Lemma quiet_consumer r ps cs cl tk pub del k pc pc' :
  mpmc_inv (Mpmc r ps cs cl tk pub del) -> cs !! k = Some pc -> mc_span pc' = mc_span pc -> cons_ok cl tk (length pub) pc' ->
  mpmc_inv (Mpmc r ps (<[k := pc']> cs) cl tk pub del).
Proof.
  intros [H1 H2 H3 H4 H5 H6 H7 H8 H9 H10 H11 H12 H13 H14] Hk Hs Hok. split; try done; cbn in *.
  - by eapply tiled_same.
  - eapply threads_insert; [exact H14|done|]. by intros.
Qed.

(** A claim of a thread lies within what has been claimed. *)
Lemma span_in {T} (span : T -> option (nat * nat)) l lo hi j pc a :
  tiled span l lo hi -> l !! j = Some pc -> span pc = Some a -> (lo <= a.1 /\ 0 < a.2 /\ a.1 + a.2 <= hi)%nat.
Proof. intros Ht Hj Hs. apply (tl_within _ _ _ _ Ht j). by exists pc. Qed.

Lemma cas_producer r ps cs cl tk pub del k objs b old_head cons_tail seen n :
  mpmc_inv (Mpmc r ps cs cl tk pub del) -> timely (Mpmc r ps cs cl tk pub del) ->
  ps !! k = Some (MPLoaded objs b old_head cons_tail seen) ->
  n = enq_count r objs b old_head cons_tail -> n <> 0 -> head (prod r) = old_head ->
  mpmc_inv (Mpmc (set_prod (set_head (u32 (old_head + n)) (prod r)) r)
             (<[k := MPCopy (take (Z.to_nat n) objs) old_head (u32 (old_head + n)) 0 (length cl)]> ps) cs
             (cl ++ take (Z.to_nat n) objs) tk pub del).
Proof.
  intros [H1 H2 H3 H4 H5 H6 H7 H8 H9 H10 H11 H12 H13 H14] [Ht _] Hk Hn Hn0 Hh. cbn in *.
  destruct (H13 k _ Hk) as (Hreq & -> & Hseen & c & -> & Hc & Hsc). specialize (Ht _ _ _ _ _ _ Hk).
  pose proof (pub_le _ _ H8). pose proof (shape_bounds _ H1) as [Hb1 Hb2].
  rewrite H4 in Hh. cbn in Hh. assert (seen = length cl) as -> by (apply u32_inj in Hh; lia).
  destruct (enq_count_bound r objs b (Z.of_nat (length cl)) (Z.of_nat (length del)) (Z.of_nat c) cap
    H2 ltac:(lia) Hreq ltac:(lia) ltac:(lia) ltac:(lia)) as [Hn1 Hn2]. rewrite <- Hn in Hn1, Hn2. clear Hn.
  pose proof (requested_take n objs Hn1) as Hlen. unfold requested in Hlen.
  set (new := take (Z.to_nat n) objs) in *. rewrite wrapu_add_l.
  assert (Z.of_nat (length cl) + n = Z.of_nat (length cl + length new)) as Esum by lia.
  split; try done; cbn [mshared prods conss claimed taken mpublished mdelivered]; rewrite ?length_app.
  - by destruct H1.
  - cbn. rewrite H4, Esum. done.
  - lia.
  - rewrite H8 at 1. by rewrite take_app_le by lia.
  - rewrite H9 at 1. rewrite take_app_le; [done|]. apply prefix_le in H9. lia.
  - intros j x Hj Hx. rewrite lookup_app_l in Hx by lia. by apply H10.
  - eapply tiled_claim; [exact Hk|done|done|lia|lia|done].
  - eapply threads_insert; [exact H13| |].
    + cbn. rewrite Esum, drop_app_length, take_ge by done. split_and!; try done; [lia|]. intros. lia.
    + intros j pc Hne Hj Hok. eapply prod_ok_mono; [exact Hok|done|by eexists|by intros|].
      intros a Ha. by apply (span_in _ _ _ _ _ _ _ H11 Hj Ha).
  - intros j pc Hj. eapply cons_ok_mono; [by eapply H14|done|done|by eexists|].
    intros a Ha. pose proof (span_in _ _ _ _ _ _ _ H12 Hj Ha). lia.
Qed.

Lemma copy_producer r ps cs cl tk pub del k objs old_head new_head i start x :
  mpmc_inv (Mpmc r ps cs cl tk pub del) -> ps !! k = Some (MPCopy objs old_head new_head i start) -> objs !! i = Some x ->
  mpmc_inv (Mpmc (set_ring (<[Z.to_nat (Z.land (u32 (old_head + Z.of_nat i)) (mask r)) := x]> (ring r)) r)
             (<[k := MPCopy objs old_head new_head (S i) start]> ps) cs cl tk pub del).
Proof.
  intros [H1 H2 H3 H4 H5 H6 H7 H8 H9 H10 H11 H12 H13 H14] Hk Hx. cbn in *.
  destruct (H13 k _ Hk) as (-> & -> & Hi & Hobjs & Hw). pose proof (span_in _ _ _ _ _ _ _ H11 Hk eq_refl) as (Hlo & Hpos & Hhi). cbn in Hlo, Hpos, Hhi.
  pose proof (pub_le _ _ H8). pose proof (lookup_lt_Some _ _ _ Hx) as Hix.
  assert (forall t y, objs !! t = Some y -> cl !! (start + t)%nat = Some y) as Hcl.
  { intros t y Hy. rewrite Hobjs in Hy. rewrite lookup_take_lt, lookup_drop in Hy by (apply lookup_lt_Some in Hy; rewrite length_take in Hy; lia). done. }
  rewrite wrapu_add_l, (masked r), H3 by done. rewrite <- Nat2Z.inj_add. set (r' := set_ring _ r).
  assert (forall j y, (length del <= j < length cl)%nat -> cl !! j = Some y -> (j <> (start + i)%nat -> slot r j = Some y) -> slot r' j = Some y) as Hkeep.
  { intros j y Hj Hy Hs. eapply (slot_write r cl (length del) (start + i)); try done; [lia|by apply Hcl]. }
  split; try done; cbn [mshared prods conss claimed taken mpublished mdelivered].
  - destruct H1. split; try done. cbn. by rewrite length_insert.
  - intros j y Hj Hy. apply Hkeep; [lia|done|]. intros _. by apply H10.
  - by eapply tiled_same.
  - eapply threads_insert; [exact H13| |].
    + cbn. split_and!; try done. intros t y Ht Hy. apply lookup_lt_Some in Hy as Hty. apply Hkeep; [lia|by apply Hcl|].
      intros Hne. apply Hw; [lia|done].
    + intros j pc Hne Hj Hok. eapply prod_ok_mono; [exact Hok|done|done| |].
      * intros st n t y Hs Ht Hy Hsl. pose proof (span_in _ _ _ _ _ _ _ H11 Hj Hs) as (? & _ & ?). cbn in *. apply Hkeep; [lia|done|done].
      * intros a Ha. by apply (span_in _ _ _ _ _ _ _ H11 Hj Ha).
Qed.

Lemma publish_producer r ps cs cl tk pub del k objs old_head new_head start :
  mpmc_inv (Mpmc r ps cs cl tk pub del) -> ps !! k = Some (MPCopy objs old_head new_head (length objs) start) ->
  tail (prod r) = old_head ->
  mpmc_inv (Mpmc (set_prod (set_tail new_head (prod r)) r) (<[k := MPIdle]> ps) cs cl tk (pub ++ objs) del).
Proof.
  intros [H1 H2 H3 H4 H5 H6 H7 H8 H9 H10 H11 H12 H13 H14] Hk Ht. cbn in *.
  destruct (H13 k _ Hk) as (-> & -> & Hi & Hobjs & Hw). pose proof (span_in _ _ _ _ _ _ _ H11 Hk eq_refl) as (Hlo & Hpos & Hhi). cbn in Hlo, Hpos, Hhi.
  pose proof (pub_le _ _ H8). pose proof (shape_bounds _ H1) as [Hb1 Hb2]. rewrite H4 in Ht. cbn in Ht.
  assert (start = length pub) as -> by (symmetry in Ht; apply u32_inj in Ht; lia).
  split; try done; cbn [mshared prods conss claimed taken mpublished mdelivered]; rewrite ?length_app.
  - by destruct H1.
  - cbn. by rewrite H4.
  - lia.
  - rewrite <- take_take_drop, <- H8, <- Hobjs. done.
  - intros j x Hj Hx. destruct (decide (j < length pub)%nat); [apply H10; [lia|done]|].
    pose proof (Hw (j - length pub)%nat x ltac:(lia)) as Hs. replace (length pub + (j - length pub))%nat with j in Hs by lia. apply Hs.
    rewrite Hobjs, lookup_take_lt, lookup_drop by lia. by replace (length pub + (j - length pub))%nat with j by lia.
  - eapply tiled_complete; [exact Hk|done|done|done].
  - eapply threads_insert; [exact H13|done|]. intros j pc Hne Hj Hok. eapply prod_ok_mono; [exact Hok|done|done|done|].
    intros a Ha. by apply (span_in _ _ _ _ _ _ _ H11 Hj Ha).
  - intros j pc Hj. eapply cons_ok_mono; [by eapply H14|done|lia|done|].
    intros a Ha. pose proof (span_in _ _ _ _ _ _ _ H12 Hj Ha). lia.
Qed.

Lemma cas_consumer r ps cs cl tk pub del k n b old_head prod_tail seen m :
  mpmc_inv (Mpmc r ps cs cl tk pub del) -> timely (Mpmc r ps cs cl tk pub del) ->
  cs !! k = Some (MCLoaded n b old_head prod_tail seen) ->
  m = deq_count n b old_head prod_tail -> m <> 0 -> head (cons r) = old_head ->
  mpmc_inv (Mpmc (set_cons (set_head (u32 (old_head + m)) (cons r)) r) ps
             (<[k := MCCopy (Z.to_nat m) old_head (u32 (old_head + m)) [] tk]> cs) cl (tk + Z.to_nat m) pub del).
Proof.
  intros [H1 H2 H3 H4 H5 H6 H7 H8 H9 H10 H11 H12 H13 H14] [_ Ht] Hk Hm Hm0 Hh. cbn in *.
  destruct (H14 k _ Hk) as (Hn & -> & Hseen & p & -> & Hp). specialize (Ht _ _ _ _ _ _ Hk).
  pose proof (pub_le _ _ H8). pose proof (shape_bounds _ H1) as [Hb1 Hb2].
  rewrite H5 in Hh. cbn in Hh. assert (seen = tk) as -> by (apply u32_inj in Hh; lia).
  destruct (deq_count_bound n b (Z.of_nat (length pub)) (Z.of_nat tk) (Z.of_nat p) ltac:(lia) ltac:(lia) ltac:(lia) ltac:(lia)) as [Hm1 Hm2].
  rewrite <- Hm in Hm1, Hm2. clear Hm. rewrite wrapu_add_l.
  replace (Z.of_nat tk + m) with (Z.of_nat (tk + Z.to_nat m)) by lia.
  split; try done; cbn [mshared prods conss claimed taken mpublished mdelivered].
  - by destruct H1.
  - cbn. by rewrite H5.
  - lia.
  - eapply tiled_claim; [exact Hk|done|done|lia|lia|done].
  - eapply threads_insert; [exact H14| |].
    + cbn. split_and!; try done. lia.
    + intros j pc Hne Hj Hok. eapply cons_ok_mono; [exact Hok|lia|done|done|].
      intros a Ha. pose proof (span_in _ _ _ _ _ _ _ H12 Hj Ha). lia.
Qed.

Lemma copy_consumer r ps cs cl tk pub del k n old_head new_head got start x :
  mpmc_inv (Mpmc r ps cs cl tk pub del) -> cs !! k = Some (MCCopy n old_head new_head got start) -> (length got < n)%nat ->
  ring r !! Z.to_nat (Z.land (u32 (old_head + Z.of_nat (length got))) (mask r)) = Some x ->
  mpmc_inv (Mpmc r ps (<[k := MCCopy n old_head new_head (got ++ [x]) start]> cs) cl tk pub del).
Proof.
  intros Hinv Hk Hlt Hx. eapply quiet_consumer; [exact Hinv|exact Hk|done|].
  destruct Hinv as [H1 H2 H3 H4 H5 H6 H7 H8 H9 H10 H11 H12 H13 H14]. cbn in *.
  destruct (H14 k _ Hk) as (-> & -> & Hg & Hgot). pose proof (span_in _ _ _ _ _ _ _ H12 Hk eq_refl) as (Hlo & Hpos & Hhi). cbn in Hlo, Hpos, Hhi.
  pose proof (pub_le _ _ H8). rewrite wrapu_add_l, (masked r), H3, <- Nat2Z.inj_add in Hx by done.
  destruct (lookup_lt_is_Some_2 cl (start + length got)) as [y Hy]; [lia|].
  pose proof (H10 (start + length got)%nat y ltac:(lia) Hy) as Hs. unfold slot in Hs. rewrite Hs in Hx. injection Hx as ->.
  rewrite length_app. cbn [length]. split_and!; try done; [lia|].
  rewrite Nat.add_1_r. rewrite (take_S_r _ _ x) by (by rewrite lookup_drop). by rewrite <- Hgot.
Qed.

Lemma return_consumer r ps cs cl tk pub del k n old_head new_head got start :
  mpmc_inv (Mpmc r ps cs cl tk pub del) -> cs !! k = Some (MCCopy n old_head new_head got start) -> length got = n ->
  tail (cons r) = old_head ->
  mpmc_inv (Mpmc (set_cons (set_tail new_head (cons r)) r) ps (<[k := MCIdle]> cs) cl tk pub (del ++ got)).
Proof.
  intros [H1 H2 H3 H4 H5 H6 H7 H8 H9 H10 H11 H12 H13 H14] Hk Hn Ht. cbn in *.
  destruct (H14 k _ Hk) as (-> & -> & Hg & Hgot). pose proof (span_in _ _ _ _ _ _ _ H12 Hk eq_refl) as (Hlo & Hpos & Hhi). cbn in Hlo, Hpos, Hhi.
  pose proof (pub_le _ _ H8). pose proof (shape_bounds _ H1) as [Hb1 Hb2]. rewrite H5 in Ht. cbn in Ht.
  assert (start = length del) as -> by (symmetry in Ht; apply u32_inj in Ht; lia).
  split; try done; cbn [mshared prods conss claimed taken mpublished mdelivered]; rewrite ?length_app.
  - by destruct H1.
  - cbn. rewrite H5, Hn. done.
  - lia.
  - lia.
  - rewrite <- take_take_drop, <- H9, <- Hgot. done.
  - intros j x Hj. apply H10. lia.
  - rewrite Hn. eapply tiled_complete; [exact Hk|done|done|done].
  - intros j pc Hj. eapply prod_ok_mono; [by eapply H13|lia|done|by intros|].
    intros a Ha. by apply (span_in _ _ _ _ _ _ _ H11 Hj Ha).
  - eapply threads_insert; [exact H14|done|]. done.
Qed.

Lemma mpmc_step_inv s s' : mpmc_inv s -> timely_step s s' -> mpmc_inv s'.
Proof.
  intros Hinv [Ht Hs]. destruct Hs as [r ps cs cl tk pub del k pc r' cl' pub' pc' Hk Hs|r ps cs cl tk pub del k pc r' tk' del' pc' Hk Hs].
  - pose proof (mi_pok _ Hinv _ _ Hk) as Hok. pose proof (mi_order _ Hinv) as Hord. pose proof (mi_ptr _ Hinv) as Hp.
    pose proof (mi_ctr _ Hinv) as Hc. cbn in Hok, Hord, Hp, Hc.
    destruct Hs as [r cl pub objs b Hreq|r cl pub objs b|r cl pub objs b oh seen|r cl pub objs b oh ct seen H0
      |r cl pub objs b oh ct seen n Hn Hn0 Hh|r cl pub objs b oh ct seen H0 Hh|r cl pub objs oh nh i start x Hx|r cl pub objs oh nh start Htl].
    + by eapply quiet_producer.
    + eapply quiet_producer; [done..|]. cbn. rewrite Hp. by split_and!.
    + eapply quiet_producer; [done..|]. cbn. destruct Hok as (? & ? & ?). split_and!; try done.
      exists (length del). pose proof (mi_room _ Hinv). cbn in *. rewrite Hc. split_and!; try done; lia.
    + by eapply quiet_producer.
    + by eapply cas_producer.
    + eapply quiet_producer; [done..|]. by destruct Hok as (? & _).
    + by eapply copy_producer.
    + by eapply publish_producer.
  - pose proof (mi_cok _ Hinv _ _ Hk) as Hok. pose proof (mi_order _ Hinv) as Hord. pose proof (mi_ptr _ Hinv) as Hp.
    pose proof (mi_ctr _ Hinv) as Hc. cbn in Hok, Hord, Hp, Hc.
    destruct Hs as [r tk del n b Hn|r tk del n b|r tk del n b oh seen|r tk del n b oh pt seen H0
      |r tk del n b oh pt seen m Hm Hm0 Hh|r tk del n b oh pt seen H0 Hh|r tk del n oh nh got start x Hlt Hx|r tk del n oh nh got start Hn Htl].
    + by eapply quiet_consumer.
    + eapply quiet_consumer; [done..|]. cbn. rewrite Hc. by split.
    + eapply quiet_consumer; [done..|]. cbn. destruct Hok as (? & ? & ?). split_and!; try done; try lia.
      exists (length pub). rewrite Hp. split; [done|]. cbn in *. lia.
    + by eapply quiet_consumer.
    + by eapply cas_consumer.
    + eapply quiet_consumer; [done..|]. by destruct Hok as (? & _).
    + by eapply copy_consumer.
    + by eapply return_consumer.
Qed.
End Inv.

(** ** Every interleaving *)

Abbreviation mpmc_reachable r np nc := (rtc timely_step (mpmc_init r np nc)).

Lemma tiled_idle {T} (span : T -> option (nat * nat)) (x : T) n : span x = None -> tiled span (replicate n x) 0 0.
Proof.
  intros Hx. assert (forall k a, ~ claim span (replicate n x) k a) as Hno.
  { intros k a (pc & Hk & Hs). apply lookup_replicate in Hk as [-> _]. congruence. }
  split; [intros k a Ha; by destruct (Hno k a)|intros j k a b _ Ha; by destruct (Hno j a)|lia].
Qed.

Lemma mpmc_reachable_inv k r np nc s :
  0 <= k <= 27 -> rte_ring_init (2 ^ k) 0 = inr r -> mpmc_reachable r np nc s -> mpmc_inv (2 ^ k - 1) (2 ^ k) s.
Proof.
  intros Hk Hr Hs. destruct (init_rep_flags k 0 Hk eq_refl) as (r' & Hr' & Hrep & Hcap). rewrite Hr in Hr'. injection Hr' as <-.
  destruct Hrep as [Hsh Hfit _]. assert (mpmc_inv (2 ^ k - 1) (2 ^ k) (mpmc_init r np nc)) as Hi.
  { unfold rte_ring_init in Hr. cbn [negb Z.eqb] in Hr. destruct (_ || _); [done|]. injection Hr as <-.
    split; cbn in *; try done; try lia.
    - by apply tiled_idle.
    - by apply tiled_idle.
    - intros j pc Hj. apply lookup_replicate in Hj as [-> _]. done.
    - intros j pc Hj. apply lookup_replicate in Hj as [-> _]. done. }
  clear Hr Hsh Hfit Hcap. induction Hs as [|s1 s2 s3 Hst _ IH]; [done|]. apply IH. by eapply mpmc_step_inv.
Qed.


(** ** Progress *)

Definition mp_enabled (s : mpmc) (pc : mp_pc) : Prop :=
  exists r' cl' pub' pc', mp_step (mshared s) (claimed s) (mpublished s) pc r' cl' pub' pc'.
Definition mc_enabled (s : mpmc) (pc : mc_pc) : Prop :=
  exists r' tk' del' pc', mc_step (mshared s) (taken s) (mdelivered s) pc r' tk' del' pc'.

(** A thread that waits in [update_tail], for another one that does not have to. *)
Definition mp_waits (s : mpmc) (k : nat) (pc : mp_pc) : Prop :=
  exists objs old_head new_head start j pcj, pc = MPCopy objs old_head new_head (length objs) start /\
    j <> k /\ prods s !! j = Some pcj /\ mp_span pcj <> None /\ mp_enabled s pcj.
Definition mc_waits (s : mpmc) (k : nat) (pc : mc_pc) : Prop :=
  exists n old_head new_head got start j pcj, pc = MCCopy n old_head new_head got start /\ length got = n /\
    j <> k /\ conss s !! j = Some pcj /\ mc_span pcj <> None /\ mc_enabled s pcj.

Section Progress.
Context (cap size : Z) (s : mpmc) (Hinv : mpmc_inv cap size s).

(** The producer with the first claim never waits. *)
Lemma first_producer j pc n : prods s !! j = Some pc -> mp_span pc = Some (length (mpublished s), n) -> mp_enabled s pc.
Proof.
  intros Hj Hs. pose proof (mi_pok _ _ _ Hinv _ _ Hj) as Hok. destruct pc as [|objs b|objs b oh seen|objs b oh ct seen|objs oh nh i start]; try done.
  cbn in Hs. injection Hs as -> <-. destruct Hok as (-> & -> & Hi & _). destruct (objs !! i) as [x|] eqn:Hx.
  - eexists _, _, _, _. by apply mp_copy.
  - apply lookup_ge_None in Hx. assert (i = length objs) as -> by lia. eexists _, _, _, _. apply mp_publish. by rewrite (mi_ptr _ _ _ Hinv).
Qed.

(** Neither does the consumer with the first claim: its entries hold objects. *)
Lemma consumer_reads j n oh nh got start :
  conss s !! j = Some (MCCopy n oh nh got start) -> (length got < n)%nat -> mc_enabled s (MCCopy n oh nh got start).
Proof.
  intros Hj Hlt. destruct (mi_cok _ _ _ Hinv _ _ Hj) as (-> & -> & _). pose proof (mi_order _ _ _ Hinv) as Hord.
  pose proof (span_in _ _ _ _ _ _ _ (mi_conss _ _ _ Hinv) Hj eq_refl) as (Hlo & _ & Hhi). cbn in Hlo, Hhi.
  pose proof (pub_le _ _ (mi_pub _ _ _ Hinv)). destruct (lookup_lt_is_Some_2 (claimed s) (start + length got)) as [x Hx]; [lia|].
  pose proof (mi_slots _ _ _ Hinv (start + length got)%nat x ltac:(lia) Hx) as Hs. unfold slot in Hs. eexists _, _, _, _. apply mc_copy with (x := x); [done|].
  rewrite wrapu_add_l, (masked _ _ (mi_shape _ _ _ Hinv)), (mi_size _ _ _ Hinv), <- Nat2Z.inj_add. done.
Qed.

Lemma first_consumer j pc n : conss s !! j = Some pc -> mc_span pc = Some (length (mdelivered s), n) -> mc_enabled s pc.
Proof.
  intros Hj Hs. pose proof (mi_cok _ _ _ Hinv _ _ Hj) as Hok. destruct pc as [|m b|m b oh seen|m b oh pt seen|m oh nh got start]; try done.
  destruct (decide (length got < m)%nat); [by eapply consumer_reads|].
  cbn in Hs. injection Hs as -> <-. destruct Hok as (-> & -> & Hi & _). eexists _, _, _, _. apply mc_return; [lia|].
  by rewrite (mi_ctr _ _ _ Hinv).
Qed.

Lemma producer_moves k pc : prods s !! k = Some pc -> pc <> MPIdle -> mp_enabled s pc \/ mp_waits s k pc.
Proof.
  intros Hk Hne. pose proof (mi_pok _ _ _ Hinv _ _ Hk) as Hok.
  destruct pc as [|objs b|objs b oh seen|objs b oh ct seen|objs oh nh i start]; [done|..].
  - left. eexists _, _, _, _. apply mp_head.
  - left. eexists _, _, _, _. apply mp_tail.
  - left. destruct (decide (enq_count (mshared s) objs b oh ct = 0)); [eexists _, _, _, _; by apply mp_full|].
    destruct (decide (head (prod (mshared s)) = oh)); eexists _, _, _, _; [by eapply mp_cas_ok|by apply mp_cas_fail].
  - destruct Hok as (-> & -> & Hi & _). destruct (objs !! i) as [x|] eqn:Hx; [left; eexists _, _, _, _; by apply mp_copy|].
    apply lookup_ge_None in Hx. assert (i = length objs) as -> by lia.
    destruct (decide (start = length (mpublished s))) as [->|Hst]; [left; by eapply first_producer|].
    pose proof (span_in _ _ _ _ _ _ _ (mi_prods _ _ _ Hinv) Hk eq_refl) as (Hlo & Hpos & Hhi). cbn in Hlo, Hpos, Hhi.
    destruct (tiled_first _ (prods s) (length (mpublished s)) (length (claimed s)) ltac:(lia) (mi_prods _ _ _ Hinv)) as (j & pcj & n & Hj & Hsj & _).
    right. eexists _, _, _, _, j, pcj. split_and!; [done| |done|by rewrite Hsj|by eapply first_producer].
    intros ->. rewrite Hk in Hj. injection Hj as <-. cbn in Hsj. injection Hsj as E _. done.
Qed.

Lemma consumer_moves k pc : conss s !! k = Some pc -> pc <> MCIdle -> mc_enabled s pc \/ mc_waits s k pc.
Proof.
  intros Hk Hne. pose proof (mi_cok _ _ _ Hinv _ _ Hk) as Hok.
  destruct pc as [|n b|n b oh seen|n b oh pt seen|n oh nh got start]; [done|..].
  - left. eexists _, _, _, _. apply mc_head.
  - left. eexists _, _, _, _. apply mc_tail.
  - left. destruct (decide (deq_count n b oh pt = 0)); [eexists _, _, _, _; by apply mc_empty|].
    destruct (decide (head (cons (mshared s)) = oh)); eexists _, _, _, _; [by eapply mc_cas_ok|by apply mc_cas_fail].
  - destruct (decide (length got < n)%nat); [left; by eapply consumer_reads|]. destruct Hok as (-> & -> & Hg & _).
    destruct (decide (start = length (mdelivered s))) as [->|Hst]; [left; by eapply first_consumer|].
    pose proof (span_in _ _ _ _ _ _ _ (mi_conss _ _ _ Hinv) Hk eq_refl) as (Hlo & Hpos & Hhi). cbn in Hlo, Hpos, Hhi.
    destruct (tiled_first _ (conss s) (length (mdelivered s)) (taken s) ltac:(lia) (mi_conss _ _ _ Hinv)) as (j & pcj & m & Hj & Hsj & _).
    right. eexists _, _, _, _, _, j, pcj. split_and!; [done|lia| |done|by rewrite Hsj|by eapply first_consumer].
    intros ->. rewrite Hk in Hj. injection Hj as <-. cbn in Hsj. injection Hsj as E _. done.
Qed.
End Progress.

(** C7: Threads do not block each other for ever. In every reachable state each call in
    progress can take its next step, or it waits in [update_tail] for another call of
    its side, which is copying and can take its next step; and a compare-and-set
    fails only when another call has moved the head since it was read. *)
Theorem mpmc_progress (k : Z) (r : rte_ring) (np nc : nat) (s : mpmc) :
  0 <= k <= 27 -> rte_ring_init (2 ^ k) 0 = inr r -> mpmc_reachable r np nc s ->
  (forall j pc, prods s !! j = Some pc -> pc <> MPIdle -> mp_enabled s pc \/ mp_waits s j pc) /\
  (forall j pc, conss s !! j = Some pc -> pc <> MCIdle -> mc_enabled s pc \/ mc_waits s j pc) /\
  (forall j objs b old_head cons_tail seen, prods s !! j = Some (MPLoaded objs b old_head cons_tail seen) ->
    head (prod (mshared s)) <> old_head -> (seen < length (claimed s))%nat) /\
  (forall j n b old_head prod_tail seen, conss s !! j = Some (MCLoaded n b old_head prod_tail seen) ->
    head (cons (mshared s)) <> old_head -> (seen < taken s)%nat).
Proof.
  intros Hk Hr Hs. pose proof (mpmc_reachable_inv k r np nc s Hk Hr Hs) as Hinv. split_and!.
  - intros j pc. by eapply producer_moves.
  - intros j pc. by eapply consumer_moves.
  - intros j objs b oh ct seen Hj Hne. destruct (mi_pok _ _ _ Hinv _ _ Hj) as (_ & -> & Hle & _). rewrite (mi_ptr _ _ _ Hinv) in Hne. cbn in Hne.
    destruct (decide (seen = length (claimed s))) as [->|]; [done|lia].
  - intros j n b oh pt seen Hj Hne. destruct (mi_cok _ _ _ Hinv _ _ Hj) as (_ & -> & Hle & _). rewrite (mi_ctr _ _ _ Hinv) in Hne. cbn in Hne.
    destruct (decide (seen = taken s)) as [->|]; [done|lia].
Qed.

(** ** Examples *)

Definition shared_ring : rte_ring := Ring 4 3 3 (headtail_init false) (headtail_init false) [0; 0; 0; 0]%nat.

(** A step of thread [k] of the example. *)
Ltac run_step c := eapply rtc_l; [split; [split; (intros [|[|k]] * E; (discriminate || (injection E; intros; subst; vm_compute; reflexivity)))|c]|];
  lazymatch goal with |- rtc _ ?s _ => let s' := eval vm_compute in s in change s with s' end.
Ltac by_producer k t := run_step ltac:(eapply (step_producer _ _ _ _ _ _ _ k); [reflexivity|t]).
Ltac by_consumer k t := run_step ltac:(eapply (step_consumer _ _ _ _ _ _ _ k); [reflexivity|t]).

(** Both producers read the head, the first one claims two entries, the second one
    has to try again and claims one, is done first, and waits; the consumer has claimed
    two objects and read one. *)
Lemma demo_mpmc :
  exists s, mpmc_reachable shared_ring 2 1 s /\ mpublished s = [5; 6; 7]%nat /\ conss s = [MCCopy 2 0 2 [5%nat] 0].
Proof.
  eexists. split; [|split].
  - unfold mpmc_init. cbn [replicate].
    by_producer 0%nat ltac:(apply (mp_call _ _ _ [5; 6]%nat RTE_RING_QUEUE_FIXED); done).
    by_producer 1%nat ltac:(apply (mp_call _ _ _ [7]%nat RTE_RING_QUEUE_FIXED); done).
    by_producer 0%nat ltac:(apply mp_head). by_producer 1%nat ltac:(apply mp_head).
    by_producer 0%nat ltac:(apply mp_tail). by_producer 1%nat ltac:(apply mp_tail).
    by_producer 0%nat ltac:(eapply mp_cas_ok; [reflexivity|done|done]).
    by_producer 1%nat ltac:(apply mp_cas_fail; done).
    by_producer 1%nat ltac:(apply mp_head). by_producer 1%nat ltac:(apply mp_tail).
    by_producer 1%nat ltac:(eapply mp_cas_ok; [reflexivity|done|done]).
    by_producer 1%nat ltac:(apply mp_copy; reflexivity).
    by_producer 0%nat ltac:(apply mp_copy; reflexivity). by_producer 0%nat ltac:(apply mp_copy; reflexivity).
    by_producer 0%nat ltac:(apply (mp_publish _ _ _ [5; 6]%nat); reflexivity).
    by_producer 1%nat ltac:(apply (mp_publish _ _ _ [7]%nat); reflexivity).
    by_consumer 0%nat ltac:(apply (mc_call _ _ _ 2 RTE_RING_QUEUE_FIXED); done).
    by_consumer 0%nat ltac:(apply mc_head). by_consumer 0%nat ltac:(apply mc_tail).
    by_consumer 0%nat ltac:(eapply mc_cas_ok; [reflexivity|done|done]).
    by_consumer 0%nat ltac:(eapply mc_copy; [cbn; lia|reflexivity]).
    apply rtc_refl.
  - reflexivity.
  - reflexivity.
Qed.


Lemma mpmc_progress_witness :
  exists s, conss s = [MCCopy 2 0 2 [5%nat] 0] /\
    (mc_enabled s (MCCopy 2 0 2 [5%nat] 0) \/ mc_waits s 0 (MCCopy 2 0 2 [5%nat] 0)).
Proof.
  destruct demo_mpmc as (s & Hs & Hp & Hc).
  destruct (mpmc_progress 2 shared_ring 2 1 s ltac:(lia) eq_refl Hs) as (_ & Hg & _). exists s. split; [exact Hc|].
  apply Hg; [rewrite Hc; reflexivity|discriminate].
Defined.
