(* ===== verification/SoftRate.v ===== *)
(** MoonGen/src/software-rate-limiter.cpp: packets from a ring, sent at times that are
    kept by watching the time-stamp counter. This file holds what the three loops of the
    code share, and the loop with a constant rate; SoftRateLoops holds the other two.

    The environment of a loop answers by call number: the readings of the counter,
    whether the queue of the device accepts a packet, the two flags that end the loop,
    what another thread puts into the ring before each dequeue, and the random numbers. *)
From Stdlib Require Import ZArith Lia.
From stdpp Require Import base numbers list.
From S2P Require Import Prelude Double Device Ring RingSpec.

#[local] Open Scope Z_scope.

Definition batch_size : Z := 64.

(** [en_exp n avg] is the [n]-th number drawn from an exponential distribution with the
    mean [avg]. *)
Record lim_env := LimEnv {
  en_tsc : nat -> Z; en_accept : nat -> bool; en_running : nat -> bool; en_stop : nat -> bool; en_arrive : nat -> list nat;
  en_exp : nat -> Z -> double
}.

(** The ring and [ctl->count]; the number of calls of each kind; and, not in the code,
    the packets that reached the ring and those sent, with the reading of the counter
    before they were sent. *)
Record lim := Lim {
  lm_ring : rte_ring; lm_count : Z;
  lm_clk : nat; lm_tx : nat; lm_run : nat; lm_stop : nat; lm_deq : nat; lm_rand : nat;
  lm_arrived : list nat; lm_sent : list (nat * Z)
}.

Definition lim_init (r : rte_ring) (q : list nat) : lim := Lim r 0 0 0 0 0 0 0 q [].

Section Limiter.
Context (e : lim_env) (tsc_hz : Z).

Definition rte_get_tsc_cycles : M lim Z := fun s =>
  Ret (en_tsc e (lm_clk s), Lim (lm_ring s) (lm_count s) (S (lm_clk s)) (lm_tx s) (lm_run s) (lm_stop s) (lm_deq s) (lm_rand s)
                              (lm_arrived s) (lm_sent s)).

Definition is_running : M lim bool := fun s =>
  Ret (en_running e (lm_run s), Lim (lm_ring s) (lm_count s) (lm_clk s) (lm_tx s) (S (lm_run s)) (lm_stop s) (lm_deq s) (lm_rand s)
                                  (lm_arrived s) (lm_sent s)).

Definition stop_load : M lim bool := fun s =>
  Ret (en_stop e (lm_stop s), Lim (lm_ring s) (lm_count s) (lm_clk s) (lm_tx s) (lm_run s) (S (lm_stop s)) (lm_deq s) (lm_rand s)
                                (lm_arrived s) (lm_sent s)).

(** [ctl->running()] *)
Definition running : M lim bool :=
  r ← is_running; if (r : bool) then stop ← stop_load; mret (negb stop) else mret false.

Definition count_packets (n : Z) : M lim unit :=
  modify (fun s => Lim (lm_ring s) (u64 (lm_count s + n)) (lm_clk s) (lm_tx s) (lm_run s) (lm_stop s) (lm_deq s) (lm_rand s)
                     (lm_arrived s) (lm_sent s)).

(** The producer's thread first: a batch that does not fit is not put into the ring. *)
Definition dequeue (n : Z) : M lim (list nat) := fun s =>
  let batch := en_arrive e (lm_deq s) in
  match ring_enqueue batch (Z.of_nat (length batch)) (lm_ring s) with
  | Ret (k, r) =>
    match ring_dequeue n r with
    | Ret ((_, bufs), r') =>
      Ret (bufs, Lim r' (lm_count s) (lm_clk s) (lm_tx s) (lm_run s) (lm_stop s) (S (lm_deq s)) (lm_rand s)
                   (lm_arrived s ++ if k =? 0 then [] else batch) (lm_sent s))
    | Fault => Fault
    | Diverge => Diverge
    end
  | Fault => Fault
  | Diverge => Diverge
  end.

(** [rte_eth_tx_burst(device, queue, bufs + i, 1)]; [cur] is the last reading. *)
Definition tx_one (pkt : nat) (cur : Z) : M lim bool := fun s =>
  let ok := en_accept e (lm_tx s) in
  Ret (ok, Lim (lm_ring s) (lm_count s) (lm_clk s) (S (lm_tx s)) (lm_run s) (lm_stop s) (lm_deq s) (lm_rand s)
             (lm_arrived s) (if ok then lm_sent s ++ [(pkt, cur)] else lm_sent s)).

(** [while ((cur = rte_get_tsc_cycles()) < next_send);] *)
Fixpoint wait_until (fuel : nat) (next_send : Z) : M lim Z :=
  match fuel with
  | O => diverge
  | S fuel => cur ← rte_get_tsc_cycles; if cur <? next_send then wait_until fuel next_send else mret cur
  end.

(** The packet is offered until it is accepted, or, when the loop is to end, given up. *)
Fixpoint send_one (fuel : nat) (pkt : nat) (cur : Z) : M lim bool :=
  match fuel with
  | O => diverge
  | S fuel =>
    ok ← tx_one pkt cur;
    if (ok : bool) then mret true
    else r ← running; if negb r then mret false else send_one fuel pkt cur
  end.

(** [((int64_t) cur - (int64_t) next_send) > (int64_t) tsc_hz / 100], undefined when the
    difference does not fit. *)
Definition restart (cur next_send : Z) : M lim Z :=
  let d := wraps 64 cur - wraps 64 next_send in
  if (d <? - 2 ^ 63) || (2 ^ 63 <=? d) then fault
  else mret (if Z.quot (wraps 64 tsc_hz) 100 <? d then cur else next_send).

(** The loop of [main_loop_cbr] and [main_loop_poisson], which differ in the treatment
    [batch] of the packets of a batch. [batch] gives [false] when the loop ended while a
    packet was offered. *)
Fixpoint rate_loop (batch : nat -> list nat -> Z -> M lim (bool * Z)) (fuel : nat) (next_send : Z) : M lim unit :=
  match fuel with
  | O => diverge
  | S fuel =>
    r ← is_running;
    if negb r then mret tt
    else
      bufs ← dequeue batch_size;
      cur ← rte_get_tsc_cycles;
      next_send ← restart cur next_send;
      if negb (Z.of_nat (length bufs) =? 0) then
        res ← batch fuel bufs next_send;
        let '(ok, next_send) := res in
        if negb ok then mret tt
        else count_packets (Z.of_nat (length bufs)) ;; rate_loop batch fuel next_send
      else
        r ← running;
        if negb r then mret tt else rate_loop batch fuel next_send
  end.

(** ** Constant rate *)

(** [(uint64_t) (target / (1000000000.0 / ((double) tsc_hz)))] for frequencies below
    2^53, which are doubles. *)
Definition id_cycles (target : Z) : Z := u64 (trunc (div_double (of_quot target 1) (of_quot 1000000000 tsc_hz))).

Fixpoint cbr_batch (id : Z) (fuel : nat) (bufs : list nat) (next_send : Z) : M lim (bool * Z) :=
  match bufs with
  | [] => mret (true, next_send)
  | pkt :: bufs =>
    cur ← wait_until fuel next_send;
    let next_send := u64 (next_send + id) in
    ok ← send_one fuel pkt cur;
    if (ok : bool) then cbr_batch id fuel bufs next_send else mret (false, next_send)
  end.

Definition main_loop_cbr (fuel : nat) (target : Z) : M lim unit := rate_loop (cbr_batch (id_cycles target)) fuel 0.
End Limiter.

(** ** What the loops have in common *)

(** Another thread and the counter during a run of the program. *)
Section Spec.
Context (e : lim_env) (tsc_hz id : Z) (N : nat).

(** The readings of the counter for one packet, in one round, and in all of them, when
    no packet is due more than [id] cycles after the last reading. *)
Definition per_packet : nat := (Z.to_nat id + 1)%nat.
Definition round_reads : nat := (64 * per_packet + 1)%nat.
Definition all_reads : nat := ((N + 1) * round_reads + 1)%nat.

(** The program is told to stop at the [N]-th look at the flag at the latest; until then
    the counter advances from one reading to the next, and does not overflow. *)
Record lim_env_ok : Prop := {
  eo_stop n : (N <= n)%nat -> en_running e n = false;
  eo_range n : (n < all_reads)%nat -> 0 <= en_tsc e n < 2 ^ 62;
  eo_clock n : (S n < all_reads)%nat -> en_tsc e n < en_tsc e (S n);
  eo_arrive n : Z.of_nat (length (en_arrive e n)) < 2 ^ 31;
  eo_id : 0 <= id < 2 ^ 62;
  eo_hz : 0 < tsc_hz < 2 ^ 53
}.
Context (Hok : lim_env_ok).

(** Nothing but the numbers of calls changes. *)
Record same (s s' : lim) : Prop := {
  sm_ring : lm_ring s' = lm_ring s;
  sm_count : lm_count s' = lm_count s;
  sm_run : (lm_run s <= lm_run s')%nat;
  sm_arrived : lm_arrived s' = lm_arrived s;
  sm_sent : lm_sent s' = lm_sent s
}.

Lemma same_trans s1 s2 s3 : same s1 s2 -> same s2 s3 -> same s1 s3.
Proof. intros [] []. split; [congruence|congruence|lia|congruence|congruence]. Qed.

(** Waiting ends, and reads the counter once for every cycle at most. *)
Lemma wait_until_spec next_send n : forall s p,
  lm_clk s = S p -> (p + n + 1 < all_reads)%nat -> next_send <= en_tsc e p + Z.of_nat n ->
  eventually (fun fuel => wait_until e fuel next_send)
    (fun cur s' => same s s' /\ exists k, lm_clk s' = S k /\ cur = en_tsc e k /\ next_send <= cur /\ (p < k <= p + n + 1)%nat) s.
Proof.
  induction n as [|n IH]; intros s p Hc Hr Hn; pose proof (eo_clock Hok p ltac:(lia)) as Hlt.
  all: destruct (Z.ltb_spec (en_tsc e (S p)) next_send) as [Hw|Hw].
  1: lia.
  2: { set (s1 := Lim (lm_ring s) (lm_count s) (S (S p)) (lm_tx s) (lm_run s) (lm_stop s) (lm_deq s) (lm_rand s) (lm_arrived s) (lm_sent s)).
    destruct (IH s1 (S p) eq_refl ltac:(lia) ltac:(lia)) as (f & cur & s' & E & Hs & k & Hk & -> & Hcur & Hkr).
    exists (S f), (en_tsc e k), s'. split.
    - intros [|fuel] Hf; [lia|]. cbn [wait_until]. unfold mbind, M_bind, rte_get_tsc_cycles. rewrite Hc.
      destruct (Z.ltb_spec (en_tsc e (S p)) next_send); [|lia]. apply E. lia.
    - split; [apply (same_trans s s1); [by split|done]|]. exists k. split_and!; try done; lia. }
  all: eexists 1%nat, (en_tsc e (S p)), _; split;
    [intros [|fuel] Hf; [lia|]; cbn [wait_until]; unfold mbind, M_bind, rte_get_tsc_cycles; rewrite Hc;
     destruct (Z.ltb_spec (en_tsc e (S p)) next_send); [lia|reflexivity]
    |split; [by split|]; exists (S p); split_and!; try done; lia].
Qed.

(** Offering a packet leaves everything else alone. *)
Record offered (pkt : nat) (cur : Z) (b : bool) (s s' : lim) : Prop := {
  of_ring : lm_ring s' = lm_ring s;
  of_count : lm_count s' = lm_count s;
  of_run : (lm_run s <= lm_run s')%nat;
  of_arrived : lm_arrived s' = lm_arrived s;
  of_sent : lm_sent s' = lm_sent s ++ if b then [(pkt, cur)] else []
}.

Lemma offered_after pkt cur b s1 s2 s3 : same s1 s2 -> offered pkt cur b s2 s3 -> offered pkt cur b s1 s3.
Proof. intros [] []. split; [congruence|congruence|lia|congruence|congruence]. Qed.

Lemma running_spec s :
  wp (running e) (fun r s' => same s s' /\ lm_clk s' = lm_clk s /\ lm_run s' = S (lm_run s) /\ (r = true -> en_running e (lm_run s) = true)) s.
Proof.
  unfold wp, running, is_running, stop_load, mbind, M_bind, mret, M_ret.
  destruct (en_running e (lm_run s)) eqn:E; cbn; (split_and!; [split; cbn; try done; lia|done|done|]); [done|by intros].
Qed.

Lemma send_one_spec pkt cur m : forall s, (N - lm_run s <= m)%nat ->
  eventually (fun fuel => send_one e fuel pkt cur) (fun b s' => offered pkt cur b s s' /\ lm_clk s' = lm_clk s) s.
Proof.
  induction m as [|m IH]; intros s Hm.
  all: destruct (en_accept e (lm_tx s)) eqn:Ea;
    [eexists 1%nat, true, _; split; [intros [|fuel] Hf; [lia|]; cbn [send_one]; unfold mbind, M_bind, tx_one; rewrite Ea; reflexivity|by repeat split]|].
  all: set (s0 := Lim (lm_ring s) (lm_count s) (lm_clk s) (S (lm_tx s)) (lm_run s) (lm_stop s) (lm_deq s) (lm_rand s) (lm_arrived s) (lm_sent s)).
  all: destruct (proj1 (wp_run _ _ _) (running_spec s0)) as (r & s1 & Er & Hs1 & Hc1 & Hr1 & Hrt); cbn [s0 lm_clk lm_run] in *.
  all: assert (forall fuel, send_one e (S fuel) pkt cur s = if negb r then Ret (false, s1) else send_one e fuel pkt cur s1) as Estep
    by (intros fuel; cbn [send_one]; unfold mbind, M_bind at 1, tx_one; rewrite Ea; cbv beta iota zeta; fold s0; unfold M_bind; rewrite Er; by destruct r).
  all: assert (forall s2, same s1 s2 -> same s s2) as Hsame by (intros s2 H2; apply (same_trans s s0); [by split|by apply (same_trans s0 s1)]).
  - destruct r; [rewrite (eo_stop Hok) in Hrt by lia; by specialize (Hrt eq_refl)|].
    exists 1%nat, false, s1. split; [intros [|fuel] Hf; [lia|]; by rewrite Estep|]. split; [|done].
    destruct (Hsame s1); [by split|]. split; try done. by rewrite app_nil_r.
  - destruct r.
    + destruct (IH s1) as (f & b & s' & E & Ho & Hc); [lia|]. exists (S f), b, s'. split.
      * intros [|fuel] Hf; [lia|]. rewrite Estep. apply E. lia.
      * split; [|congruence]. apply (offered_after _ _ _ _ s1); [apply Hsame; by split|done].
    + exists 1%nat, false, s1. split; [intros [|fuel] Hf; [lia|]; by rewrite Estep|]. split; [|done].
      destruct (Hsame s1); [by split|]. split; try done. by rewrite app_nil_r.
Qed.

(** The packets that reached the ring were sent, are in hand ([out]), or are still in
    the ring. *)
Definition flow (s : lim) (out : list nat) : Prop :=
  exists q, ring_rep (lm_ring s) q /\ lm_arrived s = (lm_sent s).*1 ++ out ++ q.

(** What arrives at the ring goes behind what is there; [n] packets are taken, or
    nothing. *)
Lemma dequeue_spec n s :
  0 < n <= 64 -> flow s [] ->
  wp (dequeue e n) (fun bufs s' => (bufs = [] /\ (exists q, ring_rep (lm_ring s') q /\ Z.of_nat (length q) < n) \/ Z.of_nat (length bufs) = n) /\
    lm_count s' = lm_count s /\ lm_clk s' = lm_clk s /\ lm_run s' = lm_run s /\ lm_sent s' = lm_sent s /\ flow s' bufs) s.
Proof.
  intros Hn (q & Hq & Ha). cbn [app] in Ha. apply wp_run. unfold dequeue. set (batch := en_arrive e (lm_deq s)).
  pose proof (eo_arrive Hok (lm_deq s)) as Hb. fold batch in Hb.
  destruct (do_enqueue_spec (lm_ring s) q batch RTE_RING_QUEUE_FIXED true Hq ltac:(lia)) as (r1 & E1 & Hr1 & _).
  unfold ring_enqueue, rte_ring_sp_enqueue_bulk, mbind, M_bind, mret, M_ret. rewrite E1. cbn [fst].
  set (k := clip RTE_RING_QUEUE_FIXED (Z.of_nat (length batch)) _) in *.
  destruct (do_dequeue_spec r1 _ n RTE_RING_QUEUE_FIXED true Hr1 ltac:(lia)) as (r2 & E2 & Hr2 & _).
  unfold ring_dequeue, rte_ring_sc_dequeue_bulk, mbind, M_bind, mret, M_ret. rewrite E2. cbn [fst].
  set (q1 := q ++ take (Z.to_nat k) batch) in *. set (j := clip RTE_RING_QUEUE_FIXED n (Z.of_nat (length q1))) in *.
  assert (k = 0 \/ k = Z.of_nat (length batch)) as Hk by (unfold k, clip; destruct (_ <? _); auto).
  assert (j = 0 /\ Z.of_nat (length q1) < n \/ j = n /\ n <= Z.of_nat (length q1)) as Hj.
  { unfold j, clip. destruct (Z.ltb_spec (Z.of_nat (length q1)) n); auto. }
  eexists _, _. split; [reflexivity|]. cbn [lm_ring lm_count lm_clk lm_run lm_sent]. split_and!; try done.
  - destruct Hj as [[-> Hj]|[-> Hj]]; [left|right; rewrite length_take; lia]. split; [done|]. by exists q1.
  - exists (drop (Z.to_nat j) q1). cbn [lm_ring lm_arrived lm_sent]. split; [done|].
    rewrite take_drop, Ha. unfold q1. rewrite <- app_assoc. f_equal. f_equal.
    replace (wraps 32 k) with k by (symmetry; apply wraps_small; lia).
    destruct Hk as [->| ->]; [done|]. rewrite Nat2Z.id, firstn_all. destruct (Z.eqb_spec (Z.of_nat (length batch)) 0); [|done].
    destruct batch; [done|cbn in *; lia].
Qed.

(** ** Batches and rounds

    [T next log] is what a loop promises of the times at which the packets of [log] were
    sent, when the next one is not sent before [next]; [ahead] is how far [next] can be
    after the last reading of the counter, and [unit] divides the sizes of the batches. *)
Section Rounds.
Context (T : Z -> list (nat * Z) -> Prop) (ahead : Z) (unit : nat).
Context (Hahead : 0 <= ahead <= id) (T_later : forall next next' log, T next log -> next <= next' -> T next' log).

Definition flow_inv (s : lim) (out : list nat) (next : Z) : Prop := flow s out /\ T next (lm_sent s).

(** The result of a batch that began in [s], with the last reading number [p]. *)
Definition batch_post (s : lim) (bufs : list nat) (p : nat) (res : bool * Z) (s' : lim) : Prop :=
  (lm_run s <= lm_run s')%nat /\ lm_count s' = lm_count s /\
  (exists p', lm_clk s' = S p' /\ (p <= p' <= p + length bufs * per_packet)%nat /\ 0 <= res.2 <= en_tsc e p' + ahead) /\
  exists out, flow_inv s' out res.2 /\ (length (lm_sent s') + length out = length (lm_sent s) + length bufs)%nat /\
    (length out <= length bufs)%nat /\ (res.1 = true <-> out = []).

(** What the loop relies on: a batch ends, within its readings of the counter. *)
Class PacedBatch (batch : nat -> list nat -> Z -> M lim (bool * Z)) : Prop :=
  paced_batch bufs s next p :
    lm_clk s = S p -> (p + length bufs * per_packet < all_reads)%nat -> 0 <= next <= en_tsc e p + ahead -> flow_inv s bufs next ->
    eventually (fun fuel => batch fuel bufs next) (batch_post s bufs p) s.

Lemma batch_nil s next p :
  lm_clk s = S p -> 0 <= next <= en_tsc e p + ahead -> flow_inv s [] next -> batch_post s [] p (true, next) s.
Proof.
  intros Hc Hn Hf. split_and!; [done|done| |by exists []]. exists p. split_and!; try done; cbn; lia.
Qed.

(** One packet: it was sent, and the rest of the batch follows, or it was given up. *)
Lemma batch_flow s s1 pkt cur bufs next nx :
  offered pkt cur true s s1 -> T nx (lm_sent s ++ [(pkt, cur)]) -> flow_inv s (pkt :: bufs) next -> flow_inv s1 bufs nx.
Proof.
  intros [H1 H2 H3 H4 H5] HT [(q & Hq & Ha) _]. split; [|by rewrite H5]. exists q. rewrite H1, H4, H5, Ha, fmap_app. cbn. by rewrite <- app_assoc.
Qed.

Lemma batch_cons s s1 s2 pkt cur bufs p k res :
  offered pkt cur true s s1 -> (p < k <= p + per_packet)%nat -> batch_post s1 bufs k res s2 -> batch_post s (pkt :: bufs) p res s2.
Proof.
  intros [H1 H2 H3 H4 H5] Hk (G1 & G2 & (p' & G3 & G4 & G5) & out & G6 & G7 & G9 & G8). split_and!; [lia|congruence| |].
  - exists p'. cbn [length Nat.mul]. split_and!; try done; lia.
  - exists out. rewrite H5, length_app in G7. cbn [length] in *. split_and!; try done; lia.
Qed.

Lemma batch_given_up s s1 pkt cur bufs p k next nx :
  offered pkt cur false s s1 -> lm_clk s1 = S k -> (p < k <= p + per_packet)%nat -> next <= nx -> 0 <= nx <= en_tsc e k + ahead ->
  flow_inv s (pkt :: bufs) next -> batch_post s (pkt :: bufs) p (false, nx) s1.
Proof.
  intros [H1 H2 H3 H4 H5] Hc Hk Hnx Hb [(q & Hq & Ha) HT]. rewrite app_nil_r in H5. split_and!; [done|done| |].
  - exists k. cbn [length Nat.mul fst snd]. split_and!; try done; lia.
  - exists (pkt :: bufs). rewrite H5. split_and!; try done. split; [|rewrite H5; by eapply T_later].
    exists q. by rewrite H1, H4, H5.
Qed.

(** The state between two rounds. *)
Record round_inv (s : lim) (next : Z) : Prop := {
  ri_flow : flow_inv s [] next;
  ri_next : 0 <= next;
  ri_last p : lm_clk s = S p -> next <= en_tsc e p + ahead;
  ri_first : lm_clk s = O -> next = 0;
  ri_reads : (lm_clk s + (N + 1 - lm_run s) * round_reads <= all_reads)%nat;
  ri_count : lm_count s = u64 (Z.of_nat (length (lm_sent s)));
  ri_unit : Nat.divide unit (length (lm_sent s))
}.

(** The state in a round, with a batch in hand. *)
Record mid_inv (s : lim) (bufs : list nat) (next : Z) (p : nat) : Prop := {
  mi_clk : lm_clk s = S p;
  mi_flow : flow_inv s bufs next;
  mi_next : 0 <= next <= en_tsc e p + ahead;
  mi_reads : (p + round_reads + (N + 1 - lm_run s) * round_reads <= all_reads)%nat;
  mi_count : lm_count s = u64 (Z.of_nat (length (lm_sent s)));
  mi_unit : Nat.divide unit (length (lm_sent s));
  mi_bufs : Nat.divide unit (length bufs) /\ (length bufs <= 64)%nat
}.

(** The state when the loop has ended. *)
Definition done_inv (s : lim) : Prop :=
  exists dropped next, flow s dropped /\ T next (lm_sent s) /\ (length dropped <= 64)%nat /\ Nat.divide unit (length (lm_sent s) + length dropped) /\
    exists counted, lm_count s = u64 (Z.of_nat counted) /\ (counted <= length (lm_sent s) < counted + 64)%nat.

Lemma flow_inv_same s s' out next : same s s' -> flow_inv s out next -> flow_inv s' out next.
Proof. intros [H1 _ _ H4 H5] [(q & Hq & Ha) HT]. split; [exists q; by rewrite H1, H4, H5|by rewrite H5]. Qed.

Lemma round_done s next : round_inv s next -> done_inv s.
Proof.
  intros [[Hf HT] _ _ _ _ Hc Hu]. exists [], next. split_and!; try done; [cbn; lia|by rewrite Nat.add_0_r|].
  exists (length (lm_sent s)). split_and!; try done; lia.
Qed.

(** Once a batch is sent it is counted. *)
Definition counted (n : Z) (s : lim) : lim :=
  Lim (lm_ring s) (u64 (lm_count s + n)) (lm_clk s) (lm_tx s) (lm_run s) (lm_stop s) (lm_deq s) (lm_rand s) (lm_arrived s) (lm_sent s).

Lemma mid_round s s' bufs next nx p :
  mid_inv s bufs next p -> batch_post s bufs p (true, nx) s' -> round_inv (counted (Z.of_nat (length bufs)) s') nx.
Proof.
  intros [_ _ _ Hr Hc Hu [Hb H64]] (G1 & G2 & (p' & G3 & G4 & G5) & out & G6 & G7 & G9 & G8). cbn [fst snd] in *.
  rewrite (proj1 G8 eq_refl) in *. cbn [length] in G7. assert (length (lm_sent s') = length (lm_sent s) + length bufs)%nat as Hl by lia.
  split; cbn [counted lm_ring lm_count lm_clk lm_run lm_arrived lm_sent]; try done; [lia| | | | |].
  - intros p0 Ep. assert (p0 = p') as -> by lia. lia.
  - intros Ep. lia.
  - rewrite G3. unfold round_reads in *. assert (length bufs * per_packet <= 64 * per_packet)%nat by (by apply Nat.mul_le_mono_r).
    assert ((N + 1 - lm_run s') * (64 * per_packet + 1) <= (N + 1 - lm_run s) * (64 * per_packet + 1))%nat by (apply Nat.mul_le_mono_r; lia). lia.
  - rewrite G2, Hc, wrapu_add_l, Hl. f_equal. lia.
  - rewrite Hl. by apply Nat.divide_add_r.
Qed.

Lemma mid_stop s s' bufs next nx p :
  (0 < length bufs)%nat -> mid_inv s bufs next p -> batch_post s bufs p (false, nx) s' -> done_inv s'.
Proof.
  intros H0 [_ _ _ Hr Hc Hu [Hb H64]] (G1 & G2 & _ & out & [G6 GT] & G7 & G9 & G8). cbn [fst snd] in *.
  assert (0 < length out)%nat as Hout by (destruct out; [by destruct G8 as [_ G8]; specialize (G8 eq_refl)|cbn; lia]).
  exists out, nx.
  split_and!; try done; [lia|rewrite G7; by apply Nat.divide_add_r|].
  exists (length (lm_sent s)). rewrite G2. split_and!; try done; lia.
Qed.

(** An idle round. *)
Lemma mid_idle s s' next p :
  mid_inv s [] next p -> same s s' -> lm_clk s' = lm_clk s -> round_inv s' next.
Proof.
  intros [Hk Hf Hn Hr Hc Hu _] Hs Ek. pose proof (flow_inv_same _ _ _ _ Hs Hf) as Hf'. destruct Hs as [_ H2 H3 _ H5].
  split; rewrite ?H2, ?H5; try done; [lia| | |].
  - intros p0 Ep. assert (p0 = p) as -> by lia. lia.
  - intros Ep. lia.
  - rewrite Ek, Hk. unfold round_reads in *.
    assert ((N + 1 - lm_run s') * (64 * per_packet + 1) <= (N + 1 - lm_run s) * (64 * per_packet + 1))%nat by (apply Nat.mul_le_mono_r; lia). lia.
Qed.

Lemma round_start r q : ring_rep r q -> T 0 [] -> round_inv (lim_init r q) 0.
Proof.
  intros Hq HT. split; cbn [lim_init lm_clk lm_run lm_count lm_sent length]; try done.
  - split; [by exists q|done].
  - unfold all_reads. rewrite Nat.sub_0_r. lia.
  - apply Nat.divide_0_r.
Qed.
End Rounds.

Lemma restart_spec ahead cur next p s :
  0 <= ahead <= id -> (p < all_reads)%nat -> cur = en_tsc e p -> 0 <= next <= cur + ahead ->
  exists next', restart tsc_hz cur next s = Ret (next', s) /\ next <= next' /\ 0 <= next' <= cur + ahead.
Proof.
  intros Ha Hp -> Hn. pose proof (eo_range Hok p Hp) as Hr. pose proof (eo_id Hok) as Hid. pose proof (eo_hz Hok) as Hhz.
  unfold restart. rewrite !wraps_small by lia.
  destruct (Z.ltb_spec (en_tsc e p - next) (- 2 ^ 63)); [lia|]. destruct (Z.leb_spec (2 ^ 63) (en_tsc e p - next)); [lia|]. cbn [orb].
  unfold mret, M_ret. eexists. split; [reflexivity|]. pose proof (Z.quot_pos tsc_hz 100 ltac:(lia) ltac:(lia)).
  destruct (Z.ltb_spec (Z.quot tsc_hz 100) (en_tsc e p - next)); lia.
Qed.

(** The state after the flag was read. *)
Definition looked (s : lim) : lim :=
  Lim (lm_ring s) (lm_count s) (lm_clk s) (lm_tx s) (S (lm_run s)) (lm_stop s) (lm_deq s) (lm_rand s) (lm_arrived s) (lm_sent s).

Lemma looked_done T ahead unit s next : round_inv T ahead unit s next -> done_inv T unit (looked s).
Proof. intros H. exact (round_done T ahead unit s next H). Qed.

(** A loop that looks at the flag first. *)
Lemma loop_looks {A} (body : nat -> M lim A) (rest : nat -> M lim A) (ret : A) (Q : A -> lim -> Prop) s :
  (forall fuel, body (S fuel) = (r ← is_running e; if negb r then mret ret else rest fuel)) ->
  Q ret (looked s) -> ((lm_run s < N)%nat -> eventually rest Q (looked s)) -> eventually body Q s.
Proof.
  intros Hbody H0 H1. destruct (en_running e (lm_run s)) eqn:Er.
  - destruct (decide (lm_run s < N)%nat) as [Hlt|]; [|by rewrite (eo_stop Hok) in Er by lia].
    destruct (H1 Hlt) as (f & a & s' & E & HQ). exists (S f), a, s'. split; [|done]. intros [|fuel] Hf; [lia|].
    rewrite Hbody. unfold mbind, M_bind, is_running. rewrite Er. cbn [negb]. apply E. lia.
  - exists 1%nat, ret, (looked s). split; [|done]. intros [|fuel] Hf; [lia|].
    rewrite Hbody. unfold mbind, M_bind, is_running. by rewrite Er.
Qed.

Section RateLoop.
Context (T : Z -> list (nat * Z) -> Prop) (T_later : forall next next' log, T next log -> next <= next' -> T next' log).
Context (batch : nat -> list nat -> Z -> M lim (bool * Z)) `{!PacedBatch T id batch}.

(** The flag, the ring and the counter at the beginning of a round. *)
Lemma round_begin {A} s next (k : nat -> list nat -> Z -> M lim A) (Q : A -> lim -> Prop) :
  (lm_run s < N)%nat -> round_inv T id 64 s next ->
  (forall bufs nx s2 p, (bufs = [] \/ length bufs = 64%nat) -> lm_run s2 = S (lm_run s) -> mid_inv T id 64 s2 bufs nx p -> eventually (fun fuel => k fuel bufs nx) Q s2) ->
  eventually (fun fuel => bufs ← dequeue e batch_size; cur ← rte_get_tsc_cycles e; nx ← restart tsc_hz cur next; k fuel bufs nx) Q (looked s).
Proof.
  intros HrN [[Hf HT] Hn Hl H0 Hr Hc Hu] Hk. pose proof (eo_id Hok) as Hid.
  apply (eventually_bind_wp (dequeue e batch_size)). eapply wp_mono; [apply (dequeue_spec batch_size (looked s)); [done|exact Hf]|].
  intros bufs s1 (Hlen & C1 & K1 & R1 & S1 & F1). cbn [looked lm_count lm_clk lm_run lm_sent] in C1, K1, R1, S1.
  apply (eventually_bind_wp (rte_get_tsc_cycles e)). unfold wp, rte_get_tsc_cycles. rewrite K1. set (s2 := Lim _ _ _ _ _ _ _ _ _ _).
  assert (lm_clk s + round_reads + (N - lm_run s) * round_reads <= all_reads)%nat as Hreads.
  { replace (N + 1 - lm_run s)%nat with (S (N - lm_run s)) in Hr by lia. cbn [Nat.mul] in Hr. lia. }
  assert (lm_clk s + round_reads <= all_reads)%nat as Hone by (etrans; [|exact Hreads]; apply Nat.le_add_r).
  assert (lm_clk s < all_reads)%nat as Hclk by (clear Hreads Hr; unfold round_reads in Hone; lia).
  assert (0 <= next <= en_tsc e (lm_clk s) + id) as Hnext.
  { pose proof (eo_range Hok (lm_clk s) Hclk). destruct (lm_clk s) as [|p] eqn:Ek; [rewrite H0 by done; lia|].
    specialize (Hl p eq_refl). pose proof (eo_clock Hok p ltac:(lia)). lia. }
  destruct (restart_spec id (en_tsc e (lm_clk s)) next (lm_clk s) s2 ltac:(lia) Hclk eq_refl Hnext) as (nx & Erst & Hnx & Hnxr).
  apply (eventually_bind_wp (restart tsc_hz (en_tsc e (lm_clk s)) next)). unfold wp. rewrite Erst.
  assert (bufs = [] \/ length bufs = 64%nat) as Hb by (unfold batch_size in Hlen; destruct Hlen as [[? _]|?]; [by left|right; lia]).
  apply (Hk bufs nx s2 (lm_clk s)); [done|by cbn; rewrite R1|].
  split; cbn [s2 lm_clk lm_run lm_count lm_sent]; rewrite ?C1, ?S1; try done.
  - split; [exact F1|]. cbn [s2 lm_sent]. rewrite S1. by eapply T_later.
  - rewrite R1. by replace (N + 1 - S (lm_run s))%nat with (N - lm_run s)%nat by lia.
  - destruct Hb as [->| ->]; [split; [apply Nat.divide_0_r|cbn; lia]|done].
Qed.

(** The loop ends, and everything that left the ring was sent, except for the packets in
    hand when it ended. *)
Lemma rate_loop_spec m : forall s next,
  (N - lm_run s < m)%nat -> round_inv T id 64 s next -> eventually (fun fuel => rate_loop e tsc_hz batch fuel next) (fun _ s' => done_inv T 64 s') s.
Proof.
  induction m as [|m IH]; intros s next Hm Hri; [lia|]. pose proof (eo_id Hok) as Hid.
  eapply loop_looks; [by intros fuel; cbn [rate_loop]|by eapply looked_done|].
  intros HrN. apply round_begin; [done|done|]. clear Hri. intros bufs nx s2 p Hb R2 Hmid.
  destruct Hb as [->|H64]; [change (negb (Z.of_nat (length (@nil nat)) =? 0)) with false|rewrite H64; change (negb (Z.of_nat 64 =? 0)) with true]; cbv iota.
  - apply (eventually_bind_wp (running e)). eapply wp_mono; [apply running_spec|].
    intros b s3 (Hs & Ek & Er & _). pose proof (mid_idle T id 64 s2 s3 nx p Hmid Hs Ek) as Hri.
    destruct b; cbn [negb]; [apply IH; [lia|done]|]. by eapply eventually_ret, round_done.
  - apply (eventually_bind (fun fuel => batch fuel bufs nx)).
    eapply eventually_mono; [apply (paced_batch T id bufs s2 nx p)|]; [apply Hmid| |apply Hmid|apply Hmid|].
    { pose proof (mi_reads _ _ _ _ _ _ _ Hmid) as Hr. assert (p + round_reads <= all_reads)%nat by (etrans; [|exact Hr]; apply Nat.le_add_r).
      rewrite H64. unfold round_reads in *. lia. }
    intros [[] nx'] s3 Hpost; cbn [negb]; [|by eapply eventually_ret, (mid_stop T id 64); [rewrite H64; lia| |]].
    apply eventually_bind_wp. unfold wp, count_packets, modify. fold (counted (Z.of_nat 64) s3).
    apply IH; [|pose proof (mid_round T id 64 _ _ _ _ _ _ Hmid Hpost) as Hri; by rewrite H64 in Hri].
    cbn. destruct Hpost as [Hrun _]. lia.
Qed.
End RateLoop.
End Spec.

(** ** Schedules *)

(** The gaps after the packets of a list. *)
Definition total (gap : nat -> Z) (pkts : list nat) : Z := foldr (fun p z => gap p + z) 0 pkts.

Lemma total_gap_app gap l l' : total gap (l ++ l') = total gap l + total gap l'.
Proof. induction l as [|p l IH]; [done|]. cbn [app total foldr]. fold (total gap (l ++ l')). rewrite IH. unfold total. lia. Qed.

Lemma total_const id l : total (fun _ => id) l = Z.of_nat (length l) * id.
Proof. induction l as [|p l IH]; [done|]. cbn [total foldr length]. unfold total in IH. rewrite IH. lia. Qed.

(** The packets of the log were sent at or after the times of the schedule, and the time
    after [p] is at least [gap p] later; the next one is due at [next]. *)
Inductive pace (gap : nat -> Z) : Z -> list Z -> list (nat * Z) -> Prop :=
  | pace_nil next : pace gap next [] []
  | pace_snoc next next' sched log p cur :
      pace gap next sched log -> next <= cur -> next + gap p <= next' -> pace gap next' (sched ++ [next]) (log ++ [(p, cur)])
  | pace_later next next' sched log : pace gap next sched log -> next <= next' -> pace gap next' sched log.

Definition paced (gap : nat -> Z) (next : Z) (log : list (nat * Z)) : Prop := exists sched, pace gap next sched log.

Lemma paced_later gap next next' log : paced gap next log -> next <= next' -> paced gap next' log.
Proof. intros [sched H] Hle. exists sched. by eapply pace_later. Qed.

Lemma paced_snoc gap next next' log p cur :
  paced gap next log -> next <= cur -> next + gap p <= next' -> paced gap next' (log ++ [(p, cur)]).
Proof. intros [sched H] Hcur Hn. exists (sched ++ [next]). by eapply pace_snoc. Qed.

Lemma pace_after gap next sched log : pace gap next sched log -> Forall2 (fun t p => t <= p.2) sched log.
Proof. induction 1; [constructor| |done]. apply Forall2_app; [done|]. by constructor. Qed.

(** Between two packets there are at least the gaps of the packets from the first to the
    one before the second. *)
Lemma pace_gap gap next sched log : pace gap next sched log ->
  (forall i n a b, sched !! i = Some a -> sched !! (i + n)%nat = Some b -> a + total gap (take n (drop i log.*1)) <= b) /\
  (forall i a, sched !! i = Some a -> a + total gap (drop i log.*1) <= next).
Proof.
  induction 1 as [next|next next' sched log p cur Hp [IH1 IH2] Hle Hn|next next' sched log Hp [IH1 IH2] Hle].
  - split; intros i; [intros n|]; by rewrite lookup_nil.
  - pose proof (Forall2_length _ _ _ (pace_after _ _ _ _ Hp)) as Hl.
    assert (length sched = length log.*1) as Hl1 by (by rewrite length_fmap). rewrite fmap_app. cbn [fmap list_fmap fst].
    assert (forall i, (i <= length sched)%nat -> drop i (log.*1 ++ [p]) = drop i log.*1 ++ [p]) as Hdrop by (intros i Hi; apply drop_app_le; lia).
    assert (forall i a, (sched ++ [next]) !! i = Some a -> (i <= length sched)%nat /\ a + total gap (drop i log.*1) <= next) as Hold.
    { intros i a Ha. apply lookup_app_Some in Ha as [Ha|[Hi Ha]].
      - split; [apply lookup_lt_Some in Ha; lia|by apply IH2].
      - assert (i - length sched < 1)%nat as Hlt by (apply lookup_lt_Some in Ha; done). assert (i = length sched) as -> by lia.
        rewrite Nat.sub_diag in Ha. injection Ha as <-. split; [done|]. rewrite drop_ge by lia. cbn. lia. }
    split.
    + intros i n a b Ha Hb. destruct (Hold _ _ Ha) as [Hi Ho]. rewrite (Hdrop i Hi).
      apply lookup_app_Some in Hb as [Hb|[Hge Hb]].
      * pose proof (lookup_lt_Some _ _ _ Hb) as Hlt. rewrite lookup_app_l in Ha by lia.
        rewrite take_app_le by (rewrite length_drop; lia). by apply IH1.
      * assert (i + n - length sched < 1)%nat as Hlt by (apply lookup_lt_Some in Hb; done).
        replace (i + n - length sched)%nat with O in Hb by lia. injection Hb as <-.
        rewrite take_app_le by (rewrite length_drop; lia). rewrite take_ge by (rewrite length_drop; lia). done.
    + intros i a Ha. destruct (Hold _ _ Ha) as [Hi Ho]. rewrite (Hdrop i Hi), total_gap_app. cbn. lia.
  - split; [done|]. intros i a Ha. specialize (IH2 i a Ha). lia.
Qed.

(** What a loop with a schedule leaves behind. *)
Lemma paced_done gap s : done_inv (paced gap) 64 s ->
  (exists q' dropped, ring_rep (lm_ring s) q' /\ lm_arrived s = (lm_sent s).*1 ++ dropped ++ q' /\ (length dropped <= 64)%nat /\
    Nat.divide 64 (length (lm_sent s) + length dropped)) /\
  (exists sched, Forall2 (fun t p => t <= p.2) sched (lm_sent s) /\
    forall i n a b, sched !! i = Some a -> sched !! (i + n)%nat = Some b -> a + total gap (take n (drop i (lm_sent s).*1)) <= b) /\
  (exists counted, lm_count s = u64 (Z.of_nat counted) /\ (counted <= length (lm_sent s) < counted + 64)%nat).
Proof.
  intros (dropped & next & (q' & H1 & H2) & [sched H3] & H4 & H5 & H6). split_and!; [by exists q', dropped| |done].
  exists sched. split; [by eapply pace_after|]. intros i n a b. by apply (pace_gap _ _ _ _ H3).
Qed.

(** ** Constant rate *)

Section Cbr.
Context (e : lim_env) (tsc_hz id : Z) (N : nat) (Hok : lim_env_ok e tsc_hz id N).

Lemma next_u64 next p : (p < all_reads id N)%nat -> 0 <= next <= en_tsc e p + id -> u64 (next + id) = next + id.
Proof. intros Hp Hn. pose proof (eo_range _ _ _ _ Hok p Hp). pose proof (eo_id _ _ _ _ Hok). apply wrapu_small. lia. Qed.

Lemma cbr_paced : PacedBatch e id N (paced (fun _ => id)) id (cbr_batch e id).
Proof.
  intros bufs. induction bufs as [|pkt bufs IH]; intros s next p Hc Hr Hn Hf; cbn [cbr_batch length] in *.
  { by apply eventually_ret, batch_nil. }
  pose proof (eo_id _ _ _ _ Hok) as Hid. pose proof (next_u64 next p ltac:(lia) Hn) as Hu. cbn [Nat.mul] in Hr.
  assert (per_packet id = Z.to_nat id + 1)%nat as HP by done.
  apply (eventually_bind (fun fuel => wait_until e fuel next)).
  eapply eventually_mono; [apply (wait_until_spec e tsc_hz id N Hok next (Z.to_nat id) s p Hc); lia|].
  intros cur s1 (Hs & k & Hk & -> & Hcur & Hkr). cbv zeta. rewrite Hu.
  apply (eventually_bind (fun fuel => send_one e fuel pkt (en_tsc e k))).
  eapply eventually_mono; [by apply (send_one_spec e tsc_hz id N Hok pkt _ (N - lm_run s1))|].
  intros [] s2 [Ho Hc2]; rewrite Hk in Hc2; apply (offered_after _ _ _ _ _ _ Hs) in Ho.
  - assert (flow_inv (paced (fun _ => id)) s2 bufs (next + id)) as F2 by (eapply batch_flow; [done|by eapply paced_snoc; [apply Hf|..]|done]).
    eapply eventually_mono; [apply (IH s2 (next + id) k Hc2); [lia|lia|done]|].
    intros res s3. apply (batch_cons _ _ _ _ _ _ _ _ _ _ _ _ _ Ho). lia.
  - eapply eventually_ret, batch_given_up; [|done|done|lia| |lia|done]; [apply paced_later|lia].
Qed.
End Cbr.


(** ** Examples *)

(** Seventy packets arrive at once; two cycles between packets; the counter advances by
    five between two readings; the third look at the flag ends the loop. *)
Definition lim_demo : lim_env :=
  LimEnv (fun n => 5 * Z.of_nat n) (fun n => negb (n =? 3)%nat) (fun n => (n <? 3)%nat) (fun _ => false)
    (fun n => if (n =? 0)%nat then seq 1 70 else []) (fun _ _ => dzero).

Definition lim_ring : rte_ring :=
  match rte_ring_init 128 SPSC with inr r => r | inl _ => Ring 0 0 0 (headtail_init true) (headtail_init true) [] end.

Lemma lim_ring_rep : ring_rep lim_ring [].
Proof. destruct (init_rep 7 ltac:(lia)) as (r & E & Hr & _). unfold lim_ring. change 128 with (2 ^ 7). by rewrite E. Qed.

Lemma lim_demo_ok : lim_env_ok lim_demo 1000000000 2 3.
Proof.
  split; cbn [lim_demo en_running en_tsc en_arrive]; try lia.
  - intros n Hn. apply Nat.ltb_ge. lia.
  - intros n Hn. change (all_reads 2 3) with 773%nat in Hn. lia.
  - intros [|n]; cbn; lia.
Qed.


(** The first batch is sent, and the six packets of the incomplete one stay. *)
Example lim_demo_runs :
  match main_loop_cbr lim_demo 1000000000 100 2 (lim_init lim_ring []) with
  | Ret (_, s') => ((lm_sent s').*1, lm_count s', ring_count (lm_ring s')) = (seq 1 64, 64, 6)
  | _ => False
  end.
Proof. vm_compute. reflexivity. Qed.
