(* ===== verification/SoftRateLoops.v ===== *)
(** The other two loops of MoonGen/src/software-rate-limiter.cpp: the delays of
    [main_loop_poisson] are random, those of [main_loop] are stored in the packets.

    The fields of the packets the loops read, which the producer of the ring wrote, are
    parameters; the random numbers are answers of the environment. Readings of the
    counter and frequencies are doubles without rounding in the theorems. *)
From Stdlib Require Import ZArith Lia.
From stdpp Require Import base numbers list.
From S2P Require Import Prelude Double Ring RingSpec SoftRate.

#[local] Open Scope Z_scope.

Section Loops.
Context (e : lim_env) (tsc_hz : Z).

(** The conversions of a double truncate, and are undefined outside of the range. *)
Definition to_u64 (d : double) : M lim Z :=
  let n := trunc d in if (n <? 0) || (2 ^ 64 <=? n) then fault else mret n.
Definition to_i64 (d : double) : M lim Z :=
  let n := trunc d in if (n <? - 2 ^ 63) || (2 ^ 63 <=? n) then fault else mret n.

(** ** Poisson *)

Context (pkt_len : nat -> Z).

(** [distribution(rand)] *)
Definition exp_draw (avg : Z) : M lim double := fun s =>
  Ret (en_exp e (lm_rand s) avg, Lim (lm_ring s) (lm_count s) (lm_clk s) (lm_tx s) (lm_run s) (lm_stop s) (lm_deq s) (S (lm_rand s))
                                   (lm_arrived s) (lm_sent s)).

(** The time of a packet on the wire, in nanoseconds and in cycles. *)
Definition wire_ns (link_speed : Z) (pkt : nat) : Z := u32 (u32 (pkt_len pkt + 24) * 8) / (link_speed / 1000).
Definition wire_cycles (ns : Z) : double := dmul (of_int ns) (div_double (of_int tsc_hz) (of_int 1000000000)).

Definition pkt_time (link_speed : Z) (pkt : nat) : M lim Z :=
  if link_speed / 1000 =? 0 then fault else to_u64 (wire_cycles (wire_ns link_speed pkt)).

(** [tsc_hz / (1000000000.0 / target)]; the divisor is infinite for a target of zero. *)
Definition target_cycles (target : Z) : double :=
  if target =? 0 then dzero else div_double (of_int tsc_hz) (div_double (of_int 1000000000) (of_int target)).

Definition avg_delay (target pkt_time : Z) : M lim Z := to_i64 (dsub (target_cycles target) (of_int pkt_time)).

Fixpoint poisson_batch (target link_speed : Z) (fuel : nat) (bufs : list nat) (next_send : Z) : M lim (bool * Z) :=
  match bufs with
  | [] => mret (true, next_send)
  | pkt :: bufs =>
    pkt_time ← pkt_time link_speed pkt;
    avg ← avg_delay target pkt_time;
    cur ← wait_until e fuel next_send;
    delay ← (if avg <=? 0 then mret dzero else exp_draw avg);
    next_send ← to_u64 (dadd (of_int next_send) (dadd (of_int pkt_time) delay));
    ok ← send_one e fuel pkt cur;
    if (ok : bool) then poisson_batch target link_speed fuel bufs next_send else mret (false, next_send)
  end.

Definition main_loop_poisson (fuel : nat) (target link_speed : Z) : M lim unit :=
  rate_loop e tsc_hz (poisson_batch target link_speed) fuel 0.

(** ** Delays in the packets *)

Context (udata64 : nat -> Z).

(** [((uint64_t) bufs[i]->udata64 * 8 / link_bps) * tsc_hz], a division by zero when the
    speed is not known, whose result no integer represents. *)
Definition udata_cycles (link_speed : Z) (pkt : nat) : double :=
  let link_bps := dmul (of_int link_speed) (of_int 1000000) in
  dmul (div_double (of_int (u64 (udata64 pkt * 8))) link_bps) (of_int tsc_hz).

Definition udata_delay (link_speed : Z) (pkt : nat) : M lim Z :=
  if link_speed =? 0 then fault else to_u64 (udata_cycles link_speed pkt).

(** The loop over the indices below [n]. *)
Fixpoint udata_batch (link_speed : Z) (fuel n : nat) (bufs : list nat) (next_send : Z) : M lim (bool * Z) :=
  match n, bufs with
  | O, _ => mret (true, next_send)
  | S _, [] => fault
  | S n, pkt :: bufs =>
    id_cycles ← udata_delay link_speed pkt;
    let next_send := u64 (next_send + id_cycles) in
    cur ← wait_until e fuel next_send;
    ok ← send_one e fuel pkt cur;
    if (ok : bool) then udata_batch link_speed fuel n bufs next_send else mret (false, next_send)
  end.

(** A batch of half the size when there are not enough packets. *)
Fixpoint dequeue_any (fuel : nat) (cur_batch_size : Z) : M lim (Z * list nat) :=
  match fuel with
  | O => diverge
  | S fuel =>
    bufs ← dequeue e cur_batch_size;
    if (Z.of_nat (length bufs) =? 0) && (1 <? cur_batch_size) then dequeue_any fuel (Z.quot cur_batch_size 2)
    else mret (cur_batch_size, bufs)
  end.

Fixpoint udata_loop (link_speed : Z) (fuel : nat) (next_send : Z) : M lim unit :=
  match fuel with
  | O => diverge
  | S fuel =>
    r ← is_running e;
    if negb r then mret tt
    else
      res ← dequeue_any fuel batch_size;
      let '(cur_batch_size, bufs) := res in
      if negb (Z.of_nat (length bufs) =? 0) then
        res ← udata_batch link_speed fuel (Z.to_nat cur_batch_size) bufs next_send;
        let '(ok, next_send) := res in
        if negb ok then mret tt
        else count_packets (Z.of_nat (length bufs)) ;; udata_loop link_speed fuel next_send
      else
        r ← running e;
        if negb r then mret tt else udata_loop link_speed fuel next_send
  end.

Definition main_loop (fuel : nat) (link_speed : Z) : M lim unit :=
  cur ← rte_get_tsc_cycles e; udata_loop link_speed fuel cur.
End Loops.

(** ** Correctness of the Poisson loop *)

Lemma to_u64_ret d (s : lim) : 0 <= trunc d < 2 ^ 64 -> to_u64 d s = Ret (trunc d, s).
Proof. intros H. unfold to_u64. destruct (Z.ltb_spec (trunc d) 0), (Z.leb_spec (2 ^ 64) (trunc d)); try lia. done. Qed.

Lemma to_i64_ret d (s : lim) : - 2 ^ 63 <= trunc d < 2 ^ 63 -> to_i64 d s = Ret (trunc d, s).
Proof. intros H. unfold to_i64. destruct (Z.ltb_spec (trunc d) (- 2 ^ 63)), (Z.leb_spec (2 ^ 63) (trunc d)); try lia. done. Qed.

(** The product and the quotient of an integer and a double. *)
Lemma dmul_int_bound n q b : 0 <= n < 2 ^ 53 -> 0 <= dnum q <= b * dden q -> 0 <= trunc (dmul (of_int n) q) <= 2 * (n * b).
Proof.
  intros Hn [Hq0 Hq]. pose proof (of_int_exact n ltac:(lia)) as Hi. unfold dexact in Hi. pose proof (dden_pos (of_int n)) as Hp. pose proof (dden_pos q) as Hpq.
  unfold dmul. split.
  - apply trunc_ge; [lia|]. apply of_quot_ge; nia.
  - pose proof (trunc_bound (dnum (of_int n) * dnum q) (dden (of_int n) * dden q) (n * b) ltac:(nia)) as H.
    rewrite Hi in *. assert (Z.abs (n * dden (of_int n) * dnum q) <= n * b * (dden (of_int n) * dden q)) as Ha; [|specialize (H Ha); lia].
    rewrite Z.abs_eq by nia. replace (n * b * (dden (of_int n) * dden q)) with (n * dden (of_int n) * (b * dden q)) by ring.
    apply Z.mul_le_mono_nonneg_l; nia.
Qed.

Lemma div_int_factor n b q : q = div_double (of_int n) b -> 0 <= n < 2 ^ 53 -> 0 < dnum b ->
  0 <= dnum q /\ dnum q * dnum b <= 2 * (n * dden b) * dden q /\ n * dden b * dden q <= 2 * (dnum q * dnum b).
Proof.
  intros -> Hn Hb. pose proof (of_int_exact n ltac:(lia)) as Hi. unfold dexact in Hi. pose proof (dden_pos (of_int n)) as Hp.
  pose proof (dden_pos b) as Hpb. unfold div_double.
  destruct (of_quot_factor (dnum (of_int n) * dden b) (dden (of_int n) * dnum b) _ eq_refl) as (H0 & H1 & H2); [rewrite Hi; nia|nia|].
  set (q := of_quot (dnum (of_int n) * dden b) (dden (of_int n) * dnum b)) in *. rewrite Hi in H1, H2. split_and!; [done| |].
  - apply (Z.mul_le_mono_pos_r _ _ (dden (of_int n)) Hp). lia.
  - apply (Z.mul_le_mono_pos_r _ _ (dden (of_int n)) Hp). lia.
Qed.

Section PoissonSpec.
Context (e : lim_env) (tsc_hz : Z) (pkt_len : nat -> Z) (target link_speed id D : Z) (N : nat).

Definition pkt_cycles (pkt : nat) : Z := trunc (wire_cycles tsc_hz (wire_ns pkt_len link_speed pkt)).

(** The random numbers are not negative and at most [D]; with the time of a packet they
    are at most [id] cycles. *)
Record poisson_ok : Prop := {
  po_env : lim_env_ok e tsc_hz id N;
  po_link : 1000 <= link_speed < 2 ^ 32;
  po_target : 0 <= target < 2 ^ 32;
  po_tsc n : (n < all_reads id N)%nat -> en_tsc e n < 2 ^ 51;
  po_draw n avg : 0 < avg -> dge (en_exp e n avg) 0 /\ dle (en_exp e n avg) D;
  po_step pkt : 0 <= D /\ pkt_cycles pkt + D <= id < 2 ^ 51
}.
Context (Hok : poisson_ok).

Lemma pkt_cycles_bound pkt : 0 <= pkt_cycles pkt < 2 ^ 64.
Proof.
  pose proof (po_link Hok) as Hl. pose proof (eo_hz _ _ _ _ (po_env Hok)) as Hhz.
  assert (1 <= link_speed / 1000) as Hd by (apply Z.div_le_lower_bound; lia).
  assert (0 <= wire_ns pkt_len link_speed pkt < 2 ^ 32) as Hns.
  { unfold wire_ns. pose proof (wrapu_range 32 (u32 (pkt_len pkt + 24) * 8) ltac:(lia)) as Hw.
    split; [apply Z.div_pos; lia|]. eapply Z.le_lt_trans; [apply Z.div_le_upper_bound with (q := u32 (u32 (pkt_len pkt + 24) * 8)); nia|lia]. }
  destruct (div_int_factor tsc_hz (of_int 1000000000) _ eq_refl ltac:(lia) ltac:(vm_compute; reflexivity)) as (Q0 & Q1 & _).
  pose proof (of_int_exact 1000000000 ltac:(lia)) as Hg. unfold dexact in Hg. rewrite Hg in Q1. pose proof (dden_pos (of_int 1000000000)) as Hpg.
  set (q := div_double (of_int tsc_hz) (of_int 1000000000)) in *. pose proof (dden_pos q) as Hq.
  assert (dnum q <= 2 ^ 25 * dden q) as Hqb.
  { assert (dnum q * 1000000000 <= 2 * tsc_hz * dden q) by (apply (Z.mul_le_mono_pos_r _ _ (dden (of_int 1000000000)) Hpg); lia). nia. }
  pose proof (dmul_int_bound (wire_ns pkt_len link_speed pkt) q (2 ^ 25) ltac:(lia) ltac:(lia)) as Hb.
  unfold pkt_cycles, wire_cycles. fold q. lia.
Qed.

Lemma pkt_time_spec pkt s : pkt_time tsc_hz pkt_len link_speed pkt s = Ret (pkt_cycles pkt, s).
Proof.
  pose proof (po_link Hok) as Hl. unfold pkt_time. assert (1 <= link_speed / 1000) as Hd by (apply Z.div_le_lower_bound; lia).
  destruct (Z.eqb_spec (link_speed / 1000) 0); [lia|]. apply to_u64_ret, pkt_cycles_bound.
Qed.

Lemma target_cycles_bound : 0 <= dnum (target_cycles tsc_hz target) <= 2 ^ 58 * dden (target_cycles tsc_hz target).
Proof.
  pose proof (po_target Hok) as Ht. pose proof (eo_hz _ _ _ _ (po_env Hok)) as Hhz. unfold target_cycles.
  destruct (Z.eqb_spec target 0) as [|Ht0]; [by cbn|].
  pose proof (of_int_exact target ltac:(lia)) as Hi. unfold dexact in Hi. pose proof (dden_pos (of_int target)) as Hpt.
  destruct (div_int_factor 1000000000 (of_int target) _ eq_refl ltac:(lia) ltac:(rewrite Hi; nia)) as (P0 & _ & P2).
  rewrite Hi in P2. set (qi := div_double (of_int 1000000000) _) in *. pose proof (dden_pos qi) as Hqi.
  assert (1000000000 * dden qi <= 2 * dnum qi * target) as Hin by (apply (Z.mul_le_mono_pos_r _ _ (dden (of_int target)) Hpt); lia).
  assert (0 < dnum qi) as Hqi0 by nia.
  destruct (div_int_factor tsc_hz qi _ eq_refl ltac:(lia) Hqi0) as (Q0 & Q1 & _). set (qo := div_double (of_int tsc_hz) qi) in *.
  pose proof (dden_pos qo) as Hqo. split; [done|].
  assert (dnum qo * 1000000000 <= 4 * (tsc_hz * target) * dden qo) as Hf.
  { apply (Z.mul_le_mono_pos_r _ _ (dnum qi) Hqi0).
    assert (2 * tsc_hz * dden qo * (1000000000 * dden qi) <= 2 * tsc_hz * dden qo * (2 * dnum qi * target)) by (apply Z.mul_le_mono_nonneg_l; nia). nia. }
  assert (tsc_hz * target <= 2 ^ 53 * 2 ^ 32) by nia. nia.
Qed.

Lemma avg_delay_spec pkt s : exists avg, avg_delay tsc_hz target (pkt_cycles pkt) s = Ret (avg, s).
Proof.
  pose proof (pkt_cycles_bound pkt) as Hp. pose proof (po_step Hok pkt) as Hst. pose proof target_cycles_bound as Ht.
  pose proof (of_int_exact (pkt_cycles pkt) ltac:(lia)) as Hi. unfold dexact in Hi. unfold avg_delay, dsub. set (t := target_cycles tsc_hz target) in *.
  pose proof (dden_pos t) as H1. pose proof (dden_pos (of_int (pkt_cycles pkt))) as H2. set (b := of_int (pkt_cycles pkt)) in *.
  eexists. apply to_i64_ret. pose proof (trunc_bound (dnum t * dden b - dnum b * dden t) (dden t * dden b) (2 ^ 58) ltac:(nia)) as Hb.
  rewrite Hi in *. assert (Z.abs (dnum t * dden b - pkt_cycles pkt * dden b * dden t) <= 2 ^ 58 * (dden t * dden b)) as Ha.
  { assert (0 <= dnum t * dden b <= 2 ^ 58 * (dden t * dden b)) by nia.
    assert (0 <= pkt_cycles pkt * (dden b * dden t) <= 2 ^ 58 * (dden t * dden b)) by nia. lia. }
  specialize (Hb Ha). lia.
Qed.

(** The next time is the random number and the time of the packet later. *)
Lemma next_time next p pkt d :
  (p < all_reads id N)%nat -> 0 <= next <= en_tsc e p + id -> dge d 0 -> dle d D ->
  let nx := trunc (dadd (of_int next) (dadd (of_int (pkt_cycles pkt)) d)) in next + pkt_cycles pkt <= nx <= next + id.
Proof.
  intros Hp Hn Hd0 HdD nx. pose proof (po_tsc Hok p Hp) as Ht. pose proof (po_step Hok pkt) as Hst. pose proof (pkt_cycles_bound pkt) as Hc.
  destruct (proj1 (dexact_between _ _) (of_int_exact next ltac:(lia))) as [A1 A2].
  destruct (proj1 (dexact_between _ _) (of_int_exact (pkt_cycles pkt) ltac:(lia))) as [B1 B2].
  assert (forall d n, 0 <= n -> dge d n -> dge d 0) as Hge0 by (unfold dge; intros d' n ? ?; pose proof (dden_pos d'); nia).
  set (w := dadd (of_int (pkt_cycles pkt)) d) in *.
  assert (dge w (pkt_cycles pkt + 0)) as C1 by (apply dadd_ge; [lia|lia|lia|done|done]). rewrite Z.add_0_r in C1.
  assert (dle w (pkt_cycles pkt + D)) as C2 by (apply dadd_le; [eapply Hge0, B1; lia|done|lia|done|done]).
  assert (dge (dadd (of_int next) w) (next + pkt_cycles pkt)) as E1 by (apply dadd_ge; [lia|lia|lia|done|done]).
  assert (dle (dadd (of_int next) w) (next + (pkt_cycles pkt + D))) as E2.
  { apply dadd_le; [eapply Hge0, A1; lia|eapply Hge0, C1; lia|lia|done|done]. }
  unfold nx. split; [apply trunc_ge; [lia|done]|]. pose proof (trunc_le _ _ (Hge0 _ (next + pkt_cycles pkt) ltac:(lia) E1) E2). lia.
Qed.

(** Drawing a number changes nothing else. *)
Lemma draw_spec avg s :
  wp (if avg <=? 0 then mret dzero else exp_draw e avg) (fun d s' => same s s' /\ lm_clk s' = lm_clk s /\ dge d 0 /\ dle d D) s.
Proof.
  destruct (Z.leb_spec avg 0) as [|Ha]; unfold wp.
  - cbn. pose proof (po_step Hok 0) as [HD _]. split_and!; try done. unfold dle. change (0 <= D * 1). lia.
  - destruct (po_draw Hok (lm_rand s) avg Ha). cbn. by split_and!.
Qed.

Lemma poisson_paced : PacedBatch e id N (paced pkt_cycles) id (poisson_batch e tsc_hz pkt_len target link_speed).
Proof.
  pose proof (po_env Hok) as Henv. intros bufs. induction bufs as [|pkt bufs IH]; intros s next p Hc Hr Hn Hf; cbn [poisson_batch length] in *.
  { by apply eventually_ret, batch_nil. }
  pose proof (po_step Hok pkt) as Hid. pose proof (pkt_cycles_bound pkt) as Hpc. cbn [Nat.mul] in Hr.
  assert (per_packet id = Z.to_nat id + 1)%nat as HP by done.
  apply eventually_bind_wp. unfold wp at 1. rewrite pkt_time_spec. apply eventually_bind_wp. unfold wp at 1.
  destruct (avg_delay_spec pkt s) as [avg Eavg]. rewrite Eavg.
  apply (eventually_bind (fun fuel => wait_until e fuel next)).
  eapply eventually_mono; [apply (wait_until_spec e tsc_hz id N Henv next (Z.to_nat id) s p Hc); lia|].
  intros cur s1 (Hs & k & Hk & -> & Hcur & Hkr).
  apply eventually_bind_wp. eapply wp_mono; [apply draw_spec|]. intros d s1' (Hs' & Hk' & Hd0 & HdD).
  pose proof (next_time next p pkt d ltac:(lia) Hn Hd0 HdD) as Hnx. cbv zeta in Hnx. set (nx := trunc _) in *.
  pose proof (po_tsc Hok p ltac:(lia)) as Htp. pose proof (po_tsc Hok k ltac:(lia)) as Htk.
  apply eventually_bind_wp. unfold wp at 1. rewrite to_u64_ret by (fold nx; lia). fold nx.
  apply (eventually_bind (fun fuel => send_one e fuel pkt (en_tsc e k))).
  eapply eventually_mono; [by apply (send_one_spec e tsc_hz id N Henv pkt _ (N - lm_run s1'))|].
  intros [] s2 [Ho Hc2]; rewrite Hk', Hk in Hc2; apply (offered_after _ _ _ _ _ _ (same_trans _ _ _ Hs Hs')) in Ho.
  - assert (flow_inv (paced pkt_cycles) s2 bufs nx) as F2 by (eapply batch_flow; [done|eapply paced_snoc; [apply Hf|done|lia]|done]).
    eapply eventually_mono; [apply (IH s2 nx k Hc2); [lia|lia|done]|].
    intros res s3. apply (batch_cons _ _ _ _ _ _ _ _ _ _ _ _ _ Ho). lia.
  - eapply eventually_ret, batch_given_up; [|done|done|lia| |lia|done]; [apply paced_later|lia].
Qed.
End PoissonSpec.

(** The Poisson loop ends once the program is told to stop, and until then sends the
    packets of the ring in order, each once, 64 at a time. Whatever the random numbers
    are, every packet is sent at or after its time in a schedule in which each packet
    is followed by at least its own time on the wire: the delays are between the packets
    and never make the device fall behind. *)
Theorem rate_limiter_poisson_correct (e : lim_env) (tsc_hz : Z) (pkt_len : nat -> Z) (target link_speed id D : Z) (N : nat) (r : rte_ring) (q : list nat) :
  poisson_ok e tsc_hz pkt_len target link_speed id D N -> ring_rep r q ->
  exists fuel0 s', (forall fuel, (fuel0 <= fuel)%nat -> main_loop_poisson e tsc_hz pkt_len fuel target link_speed (lim_init r q) = Ret (tt, s')) /\
    (exists q' dropped, ring_rep (lm_ring s') q' /\ lm_arrived s' = (lm_sent s').*1 ++ dropped ++ q' /\ (length dropped <= 64)%nat /\
      Nat.divide 64 (length (lm_sent s') + length dropped)) /\
    (exists sched, Forall2 (fun t p => t <= p.2) sched (lm_sent s') /\
      forall i n a b, sched !! i = Some a -> sched !! (i + n)%nat = Some b ->
        a + total (pkt_cycles tsc_hz pkt_len link_speed) (take n (drop i (lm_sent s').*1)) <= b) /\
    (exists counted, lm_count s' = u64 (Z.of_nat counted) /\ (counted <= length (lm_sent s') < counted + 64)%nat).
Proof.
  intros Hok Hq. pose proof (poisson_paced _ _ _ _ _ _ _ _ Hok).
  destruct (rate_loop_spec e tsc_hz id N (po_env _ _ _ _ _ _ _ _ Hok) (paced (pkt_cycles tsc_hz pkt_len link_speed)) (paced_later _)
    (poisson_batch e tsc_hz pkt_len target link_speed) (S N) (lim_init r q) 0) as (f & [] & s' & E & Hd);
    [cbn; lia|apply round_start; [done|by exists []; constructor]|].
  exists f, s'. split; [exact E|]. by apply paced_done.
Qed.

(** On a link of less than 1000 Mbit/s the first packet is a division by zero. *)
Theorem poisson_slow_link e tsc_hz pkt_len target link_speed fuel pkt bufs next s :
  0 <= link_speed < 1000 -> poisson_batch e tsc_hz pkt_len target link_speed fuel (pkt :: bufs) next s = Fault.
Proof. intros H. cbn [poisson_batch]. unfold pkt_time. by rewrite Z.div_small. Qed.

(** ** Correctness of the loop with delays in the packets *)

(** The [i]-th packet was not sent before [start] and the delays of the packets up to
    itself, and the next one is not due before [start] and the delays of all. *)
Definition due (gap : nat -> Z) (start next : Z) (log : list (nat * Z)) : Prop :=
  start + total gap log.*1 <= next /\
  forall i p t, log !! i = Some (p, t) -> start + total gap (take (S i) log.*1) <= t.

Lemma due_later gap start next next' log : due gap start next log -> next <= next' -> due gap start next' log.
Proof. intros [H1 H2] Hle. split; [lia|done]. Qed.

Lemma due_snoc gap start next log p cur :
  due gap start next log -> next + gap p <= cur -> due gap start (next + gap p) (log ++ [(p, cur)]).
Proof.
  intros [H1 H2] Hle. assert ((log ++ [(p, cur)]).*1 = log.*1 ++ [p]) as Ef by (by rewrite fmap_app). unfold due. rewrite Ef.
  split; [rewrite total_gap_app; cbn; lia|].
  intros i p' t Hi. apply lookup_app_Some in Hi as [Hi|[Hge Hi]].
  - rewrite take_app_le; [by eapply H2|]. rewrite length_fmap. apply lookup_lt_Some in Hi. lia.
  - assert (i - length log < 1)%nat as Hlt by (apply lookup_lt_Some in Hi; done). assert (i = length log) as -> by lia.
    rewrite Nat.sub_diag in Hi. injection Hi as <- <-. rewrite take_ge by (rewrite length_app, length_fmap; cbn; lia).
    rewrite total_gap_app. cbn. lia.
Qed.

Section UdataSpec.
Context (e : lim_env) (tsc_hz : Z) (udata64 : nat -> Z) (link_speed id start : Z) (N : nat).

Definition udata_gap (pkt : nat) : Z := trunc (udata_cycles tsc_hz udata64 link_speed pkt).

Record udata_ok : Prop := {
  uo_env : lim_env_ok e tsc_hz id N;
  uo_link : 0 < link_speed < 2 ^ 32;
  uo_gap pkt : udata_gap pkt <= id
}.
Context (Hok : udata_ok).

Lemma link_bps_exact : dexact (dmul (of_int link_speed) (of_int 1000000)) (link_speed * 1000000).
Proof. pose proof (uo_link Hok). apply dmul_exact; [apply of_int_exact; lia|apply of_int_exact; lia|lia]. Qed.

Lemma error_cancel a b k : 0 < k -> 2 ^ 53 * Z.abs (a * k) <= b * k -> 2 ^ 53 * Z.abs a <= b.
Proof. intros Hk H. rewrite Z.abs_mul, (Z.abs_eq k) in H by lia. apply (Z.mul_le_mono_pos_r _ _ k Hk). lia. Qed.

(** The division and the product round: the result is off by less than 3/2^53. *)
Lemma two_roundings u bps hz q q' p p' :
  0 <= u -> 0 < bps -> 0 <= hz -> 0 < q' -> 0 < p' -> 0 <= q ->
  2 ^ 53 * Z.abs (q * bps - u * q') <= u * q' -> 2 ^ 53 * Z.abs (p * q' - q * hz * p') <= q * hz * p' ->
  2 ^ 53 * Z.abs (p * bps - u * hz * p') <= 3 * (u * hz * p').
Proof.
  intros Hu Hb Hh Hq' Hp' Hq H1 H2. set (X := u * hz * p' * q'). set (Y := q * bps * hz * p').
  assert (0 <= X) as HX by (unfold X; nia).
  assert (2 ^ 53 * Z.abs (Y - X) <= X) as B1.
  { replace (Y - X) with ((q * bps - u * q') * (hz * p')) by (unfold X, Y; ring). rewrite Z.abs_mul, (Z.abs_eq (hz * p')) by nia.
    pose proof (Z.mul_le_mono_nonneg_r _ _ (hz * p') ltac:(nia) H1). unfold X. lia. }
  assert (2 ^ 53 * Z.abs (p * q' * bps - Y) <= Y) as B2.
  { replace (p * q' * bps - Y) with ((p * q' - q * hz * p') * bps) by (unfold Y; ring). rewrite Z.abs_mul, (Z.abs_eq bps) by lia.
    pose proof (Z.mul_le_mono_nonneg_r _ _ bps ltac:(lia) H2). unfold Y. lia. }
  assert (2 ^ 53 * Z.abs (p * q' * bps - X) <= 3 * X) as B3 by lia.
  apply (Z.mul_le_mono_pos_r _ _ q' Hq'). replace (3 * (u * hz * p') * q') with (3 * X) by (unfold X; ring).
  rewrite <- Z.mul_assoc, <- (Z.abs_eq q') at 1 by lia. rewrite <- Z.abs_mul. by replace ((p * bps - u * hz * p') * q') with (p * q' * bps - X) by (unfold X; ring).
Qed.

(** The delay of a packet is the time of [udata64] bytes on the link, less than one cycle
    more and less than two cycles less. *)
Lemma udata_gap_exact pkt (bps := link_speed * 1000000) (u := udata64 pkt * 8) :
  0 <= u < 2 ^ 53 -> u * tsc_hz < 2 ^ 51 * bps -> - 2 * bps < udata_gap pkt * bps - u * tsc_hz < bps.
Proof.
  intros Hu Hx. pose proof link_bps_exact as Hb. pose proof (uo_link Hok) as Hl. pose proof (eo_hz _ _ _ _ (uo_env Hok)) as Hhz.
  unfold udata_gap, udata_cycles. fold u. rewrite (wrapu_small 64 u) by lia. set (b := dmul (of_int link_speed) _) in *. fold bps in Hb.
  pose proof (of_int_exact u ltac:(lia)) as Hiu. pose proof (of_int_exact tsc_hz ltac:(lia)) as Hih. unfold dexact in *.
  pose proof (dden_pos b) as Pb. pose proof (dden_pos (of_int u)) as Pu. pose proof (dden_pos (of_int tsc_hz)) as Ph.
  assert (0 <= dnum (of_int u)) as Du by nia. assert (0 < dnum b) as Db by nia. assert (0 < dnum (of_int tsc_hz)) as Dh by nia.
  pose proof (of_quot_near (dnum (of_int u) * dden b) (dden (of_int u) * dnum b) ltac:(nia) ltac:(nia)) as N1. fold (div_double (of_int u) b) in N1.
  destruct (of_quot_factor (dnum (of_int u) * dden b) (dden (of_int u) * dnum b) (div_double (of_int u) b) eq_refl) as (Q0 & _); [nia|nia|].
  set (q := div_double (of_int u) b) in *. pose proof (dden_pos q) as Pq.
  pose proof (of_quot_near (dnum q * dnum (of_int tsc_hz)) (dden q * dden (of_int tsc_hz)) ltac:(nia) ltac:(nia)) as N2. fold (dmul q (of_int tsc_hz)) in N2.
  assert (dge (dmul q (of_int tsc_hz)) 0) as P0 by (apply of_quot_ge; nia).
  set (p := dmul q (of_int tsc_hz)) in *. pose proof (dden_pos p) as Pp. unfold dnear in *. rewrite Hiu, Hb in N1. rewrite Hih in N2.
  pose proof (two_roundings u bps tsc_hz (dnum q) (dden q) (dnum p) (dden p) ltac:(lia) ltac:(lia) ltac:(lia) Pq Pp Q0) as HR.
  specialize (HR ltac:(apply (error_cancel _ _ (dden (of_int u) * dden b) ltac:(nia)); etrans; [|etrans; [exact N1|]]; [apply Z.eq_le_incl; do 2 f_equal; ring|lia])
    ltac:(apply (error_cancel _ _ (dden (of_int tsc_hz)) Ph); etrans; [|etrans; [exact N2|]]; [apply Z.eq_le_incl; do 2 f_equal; ring|lia])).
  clear N1 N2. rewrite trunc_quot, Z.quot_div_nonneg by (unfold dge in P0; lia). pose proof (Z.div_mod (dnum p) (dden p) ltac:(lia)) as Ed.
  pose proof (Z.mod_pos_bound (dnum p) (dden p) Pp) as Hm. set (t := dnum p / dden p) in *. set (U := u * tsc_hz) in *.
  assert (U * dden p < 2 ^ 51 * bps * dden p) as HU by nia. assert (0 < bps) as Hb0 by lia.
  assert (Z.abs (dnum p * bps - U * dden p) < bps * dden p) as HA by lia.
  assert (t * dden p * bps <= dnum p * bps < (t + 1) * dden p * bps) as Ht by nia.
  split; apply (Z.mul_lt_mono_pos_r (dden p) _ _ Pp); lia.
Qed.

Lemma udata_gap_nonneg pkt : 0 <= udata_gap pkt.
Proof.
  pose proof link_bps_exact as Hb. unfold dexact in Hb. pose proof (uo_link Hok). unfold udata_gap, udata_cycles. set (bps := dmul _ (of_int 1000000)) in *.
  pose proof (dden_pos bps). pose proof (wrapu_range 64 (udata64 pkt * 8) ltac:(lia)) as Hu.
  assert (forall n, 0 <= n -> 0 <= dnum (of_int n)) as Hi by (intros n Hn; by apply (of_quot_factor n 1)).
  pose proof (Hi _ (proj1 Hu)). pose proof (Hi tsc_hz ltac:(pose proof (eo_hz _ _ _ _ (uo_env Hok)); lia)). set (u := of_int (u64 _)) in *.
  pose proof (dden_pos u). pose proof (dden_pos (of_int tsc_hz)).
  destruct (of_quot_factor (dnum u * dden bps) (dden u * dnum bps) _ eq_refl) as (Hq & _); [nia|nia|].
  fold (div_double u bps) in Hq. pose proof (dden_pos (div_double u bps)). apply trunc_ge; [lia|]. apply of_quot_ge; nia.
Qed.

Lemma udata_delay_spec pkt s : udata_delay tsc_hz udata64 link_speed pkt s = Ret (udata_gap pkt, s).
Proof.
  pose proof (uo_link Hok). unfold udata_delay. destruct (Z.eqb_spec link_speed 0); [lia|]. apply to_u64_ret.
  pose proof (udata_gap_nonneg pkt) as H0. pose proof (uo_gap Hok pkt). pose proof (eo_id _ _ _ _ (uo_env Hok)). unfold udata_gap in *. lia.
Qed.

Lemma udata_paced : PacedBatch e id N (due udata_gap start) 0 (fun fuel bufs => udata_batch e tsc_hz udata64 link_speed fuel (length bufs) bufs).
Proof.
  pose proof (uo_env Hok) as Henv. intros bufs. induction bufs as [|pkt bufs IH]; intros s next p Hc Hr Hn Hf; cbn [udata_batch length] in *.
  { by apply eventually_ret, batch_nil. }
  pose proof (uo_gap Hok pkt) as Hg. pose proof (udata_gap_nonneg pkt) as Hg0. cbn [Nat.mul] in Hr. assert (per_packet id = Z.to_nat id + 1)%nat as HP by done.
  pose proof (eo_id _ _ _ _ Henv) as Hid. pose proof (eo_range _ _ _ _ Henv p ltac:(lia)) as Htp.
  apply eventually_bind_wp. unfold wp at 1. rewrite udata_delay_spec. cbv zeta. rewrite (wrapu_small 64 (next + udata_gap pkt)) by lia.
  apply (eventually_bind (fun fuel => wait_until e fuel (next + udata_gap pkt))).
  eapply eventually_mono; [apply (wait_until_spec e tsc_hz id N Henv (next + udata_gap pkt) (Z.to_nat id) s p Hc); lia|].
  intros cur s1 (Hs & k & Hk & -> & Hcur & Hkr).
  apply (eventually_bind (fun fuel => send_one e fuel pkt (en_tsc e k))).
  eapply eventually_mono; [by apply (send_one_spec e tsc_hz id N Henv pkt _ (N - lm_run s1))|].
  intros [] s2 [Ho Hc2]; rewrite Hk in Hc2; apply (offered_after _ _ _ _ _ _ Hs) in Ho.
  - assert (flow_inv (due udata_gap start) s2 bufs (next + udata_gap pkt)) as F2 by (eapply batch_flow; [done|apply due_snoc; [apply Hf|done]|done]).
    eapply eventually_mono; [apply (IH s2 (next + udata_gap pkt) k Hc2); [lia|lia|done]|].
    intros res s3. apply (batch_cons _ _ _ _ _ _ _ _ _ _ _ _ _ Ho). lia.
  - eapply eventually_ret, batch_given_up; [|done|done|lia| |lia|done]; [apply due_later|lia].
Qed.

(** The ring is asked for fewer and fewer packets; nothing is left in it when there are
    none for a batch. *)
Lemma dequeue_any_spec m : forall s, (m <= 6)%nat -> flow s [] ->
  eventually (fun fuel => dequeue_any e fuel (2 ^ Z.of_nat m))
    (fun res s' => (res.2 = [] /\ ring_rep (lm_ring s') [] \/ Z.of_nat (length res.2) = res.1 /\ 0 < res.1 <= 64) /\
      lm_count s' = lm_count s /\ lm_clk s' = lm_clk s /\ lm_run s' = lm_run s /\ lm_sent s' = lm_sent s /\ flow s' res.2) s.
Proof.
  induction m as [|m IH]; intros s Hm Hf.
  all: match goal with |- eventually (fun fuel => dequeue_any e fuel ?x) _ _ => set (c := x) end.
  all: assert (0 < c <= 64) as Hc by (split; [apply Z.pow_pos_nonneg; lia|change 64 with (2 ^ 6); apply Z.pow_le_mono_r; lia]).
  all: destruct (proj1 (wp_run _ _ _) (dequeue_spec e tsc_hz id N (uo_env Hok) c s Hc Hf)) as (bufs & s1 & E & Hb & C1 & K1 & R1 & S1 & F1).
  - exists 1%nat, (c, bufs), s1. split.
    + intros [|fuel] Hfu; [lia|]. cbn [dequeue_any]. unfold mbind, M_bind. rewrite E. by rewrite andb_false_r.
    + split_and!; try done. destruct Hb as [[-> (q & Hq & Hl)]|Hb]; [left; split; [done|]|right; by split].
      destruct q; [done|unfold c in Hl; cbn in Hl; lia].
  - destruct Hb as [[-> _]|Hb].
    + destruct (IH s1 ltac:(lia) F1) as (f & res & s' & E' & Hb & C2 & K2 & R2 & S2 & F2). exists (S f), res, s'. split.
      * intros [|fuel] Hfu; [lia|]. cbn [dequeue_any]. unfold mbind, M_bind. rewrite E. cbn [length].
        assert ((1 <? c) = true) as -> by (apply Z.ltb_lt, (Z.pow_gt_1 2); lia).
        replace (Z.quot c 2) with (2 ^ Z.of_nat m); [apply E'; lia|].
        unfold c. rewrite Nat2Z.inj_succ, Z.pow_succ_r, Z.mul_comm, Z.quot_mul by lia. done.
      * split_and!; try done; congruence.
    + exists 1%nat, (c, bufs), s1. split.
      * intros [|fuel] Hfu; [lia|]. cbn [dequeue_any]. unfold mbind, M_bind. rewrite E. destruct (Z.eqb_spec (Z.of_nat (length bufs)) 0); [lia|done].
      * split_and!; try done. right. by split.
Qed.

Lemma udata_loop_spec m : forall s next,
  (N - lm_run s < m)%nat -> (0 < lm_clk s)%nat -> round_inv e id N (due udata_gap start) 0 1 s next ->
  eventually (fun fuel => udata_loop e tsc_hz udata64 link_speed fuel next) (fun _ s' => done_inv (due udata_gap start) 1 s') s.
Proof.
  pose proof (uo_env Hok) as Henv. induction m as [|m IH]; intros s next Hm H0 Hri; [lia|].
  eapply (loop_looks e tsc_hz id N Henv); [by intros fuel; cbn [udata_loop]|by eapply looked_done|].
  intros HrN. destruct (lm_clk s) as [|p] eqn:Ek; [lia|]. destruct Hri as [[Hf HT] Hn Hl _ Hr Hc Hu]. specialize (Hl p Ek).
  apply (eventually_bind (fun fuel => dequeue_any e fuel batch_size)). change batch_size with (2 ^ Z.of_nat 6).
  eapply eventually_mono; [apply (dequeue_any_spec 6 (looked s)); [done|exact Hf]|].
  intros [c bufs] s1 (Hb & C1 & K1 & R1 & S1 & F1). cbn [fst snd looked lm_count lm_clk lm_run lm_sent] in *.
  assert (mid_inv e id N (due udata_gap start) 0 1 s1 bufs next p) as Hmid.
  { split; rewrite ?C1, ?S1; try done; [by rewrite K1| | |].
    - split; [done|by rewrite S1].
    - rewrite R1. replace (N + 1 - lm_run s)%nat with (S (N + 1 - S (lm_run s))) in Hr by lia. cbn [Nat.mul] in Hr. lia.
    - split; [apply Nat.divide_1_l|]. destruct Hb as [[-> _]|[? ?]]; [cbn; lia|lia]. }
  destruct Hb as [[-> _]|[Hlen Hc64]]; [change (negb (Z.of_nat (length (@nil nat)) =? 0)) with false; cbv iota|destruct (Z.eqb_spec (Z.of_nat (length bufs)) 0); [lia|]; cbn [negb]].
  - apply (eventually_bind_wp (running e)). eapply wp_mono; [apply running_spec|].
    intros b s3 (Hs & Ek3 & Er & _). pose proof (mid_idle _ _ _ _ _ _ s1 s3 next p Hmid Hs Ek3) as Hri.
    destruct b; cbn [negb]; [apply IH; [lia|lia|done]|]. by eapply eventually_ret, round_done.
  - replace (Z.to_nat c) with (length bufs) by lia. apply (eventually_bind (fun fuel => udata_batch e tsc_hz udata64 link_speed fuel (length bufs) bufs next)).
    eapply eventually_mono; [apply (udata_paced bufs s1 next p)|]; [apply Hmid| |apply Hmid|apply Hmid|].
    { pose proof (mi_reads _ _ _ _ _ _ _ _ _ _ Hmid) as Hreads. assert (p + round_reads id <= all_reads id N)%nat by (etrans; [|exact Hreads]; apply Nat.le_add_r).
      assert (length bufs * per_packet id <= 64 * per_packet id)%nat by (apply Nat.mul_le_mono_r; lia). unfold round_reads in *. lia. }
    intros [[] nx'] s3 Hpost; cbn [negb]; [|by eapply eventually_ret, (mid_stop _ _ _ _ _ _ s1 s3 bufs); [lia|exact Hmid|exact Hpost]].
    apply eventually_bind_wp. unfold wp, count_packets, modify. fold (counted (Z.of_nat (length bufs)) s3).
    apply IH; [|cbn|by eapply mid_round]; [cbn; destruct Hpost as [Hrun _]; lia|]. destruct Hpost as (_ & _ & (p' & Hp' & _) & _). lia.
Qed.
End UdataSpec.

(** C34: The loop with the delays in the packets ends once the program is told to stop, and
    until then sends the packets of the ring in order, each once. The [i]-th packet is
    not sent before the start of the loop and the delays of the packets up to itself;
    the counter of packets is that of the complete batches. The delay of a packet is
    the time of its [udata64] bytes on the link in spite of the roundings: less than one
    cycle more and less than two cycles less. *)
Theorem rate_limiter_udata_correct (e : lim_env) (tsc_hz : Z) (udata64 : nat -> Z) (link_speed id : Z) (N : nat) (r : rte_ring) (q : list nat) :
  udata_ok e tsc_hz udata64 link_speed id N -> ring_rep r q ->
  (forall pkt, let bps := link_speed * 1000000 in let u := udata64 pkt * 8 in 0 <= u < 2 ^ 53 -> u * tsc_hz < 2 ^ 51 * bps ->
    - 2 * bps < udata_gap tsc_hz udata64 link_speed pkt * bps - u * tsc_hz < bps) /\
  exists fuel0 s', (forall fuel, (fuel0 <= fuel)%nat -> main_loop e tsc_hz udata64 fuel link_speed (lim_init r q) = Ret (tt, s')) /\
    (exists q' dropped, ring_rep (lm_ring s') q' /\ lm_arrived s' = (lm_sent s').*1 ++ dropped ++ q' /\ (length dropped <= 64)%nat) /\
    (forall i p t, lm_sent s' !! i = Some (p, t) ->
      en_tsc e 0 + total (udata_gap tsc_hz udata64 link_speed) (take (S i) (lm_sent s').*1) <= t) /\
    (exists counted, lm_count s' = u64 (Z.of_nat counted) /\ (counted <= length (lm_sent s') < counted + 64)%nat).
Proof.
  intros Hok Hq. split; [intros pkt bps u; by eapply udata_gap_exact|]. pose proof (uo_env _ _ _ _ _ _ Hok) as Henv.
  set (s0 := Lim r 0 1 0 0 0 0 0 q []).
  destruct (udata_loop_spec e tsc_hz udata64 link_speed id (en_tsc e 0) N Hok (S N) s0 (en_tsc e 0)) as (f & [] & s' & E & Hd); [cbn; lia|cbn; lia| |].
  { assert (0 < all_reads id N)%nat as Hpos by (unfold all_reads; lia). pose proof (eo_range _ _ _ _ Henv 0 Hpos) as Ht0.
    split; cbn [s0 lm_clk lm_run lm_count lm_sent length]; try done; [|lia|..].
    - split; [by exists q|]. split; [cbn; lia|]. intros i p t. done.
    - intros p [= <-]. lia.
    - unfold all_reads. rewrite Nat.sub_0_r. lia.
    - apply Nat.divide_1_l. }
  exists f, s'. destruct Hd as (dropped & next & (q' & H1 & H2) & [_ H3] & H4 & _ & H6). split_and!; [exact E|by exists q', dropped|exact H3|exact H6].
Qed.

(** ** Examples *)

(** Seventy packets arrive at once; the counter advances by five between two readings;
    the third look at the flag ends the loop. The random numbers are always 20. *)
Definition loops_demo : lim_env :=
  LimEnv (fun n => 5 * Z.of_nat n) (fun n => negb (n =? 3)%nat) (fun n => (n <? 3)%nat) (fun _ => false)
    (fun n => if (n =? 0)%nat then seq 1 70 else []) (fun _ _ => of_int 20).

Lemma loops_demo_ok id : 0 <= id < 2 ^ 20 -> lim_env_ok loops_demo 1000000000 id 3.
Proof.
  intros Hid. assert (all_reads id 3 <= 4 * (64 * (Z.to_nat id + 1) + 1) + 1)%nat as Ha by (unfold all_reads, round_reads, per_packet; lia).
  split; cbn [loops_demo en_running en_tsc en_arrive]; try lia.
  - intros n Hn. apply Nat.ltb_ge. lia.
  - intros [|n]; cbn; lia.
Qed.

(** Frames of 84 bytes on a link of 10 Gbit/s take 67 cycles. *)
Lemma rate_limiter_poisson_correct_witness :
  exists fuel0 s', (forall fuel, (fuel0 <= fuel)%nat -> main_loop_poisson loops_demo 1000000000 (fun _ => 60) fuel 100 10000 (lim_init lim_ring []) = Ret (tt, s')) /\
    exists sched, Forall2 (fun t p => t <= p.2) sched (lm_sent s') /\
      forall i n a b, sched !! i = Some a -> sched !! (i + n)%nat = Some b ->
        a + total (pkt_cycles 1000000000 (fun _ => 60) 10000) (take n (drop i (lm_sent s').*1)) <= b.
Proof.
  destruct (rate_limiter_poisson_correct loops_demo 1000000000 (fun _ => 60) 100 10000 87 20 3 lim_ring []) as (f & s' & E & _ & Hs & _).
  - split; [apply loops_demo_ok; lia|lia|lia| | |].
    + intros n Hn. unfold all_reads, round_reads, per_packet in Hn. cbn [loops_demo en_tsc]. lia.
    + intros n avg Ha. split; vm_compute; discriminate.
    + intros pkt. split; [lia|]. change (pkt_cycles 1000000000 (fun _ => 60) 10000 pkt) with 67. lia.
  - exact lim_ring_rep.
  - exists f, s'. split; [exact E|exact Hs].
Defined.

(** A byte on a link of 1 Gbit/s takes eight cycles. *)
Lemma rate_limiter_udata_correct_witness :
  exists fuel0 s', (forall fuel, (fuel0 <= fuel)%nat -> main_loop loops_demo 1000000000 (fun _ => 1) fuel 1000 (lim_init lim_ring []) = Ret (tt, s')) /\
    forall i p t, lm_sent s' !! i = Some (p, t) -> 0 + total (udata_gap 1000000000 (fun _ => 1) 1000) (take (S i) (lm_sent s').*1) <= t.
Proof.
  destruct (rate_limiter_udata_correct loops_demo 1000000000 (fun _ => 1) 1000 8 3 lim_ring []) as (_ & f & s' & E & _ & Hs & _).
  - split; [apply loops_demo_ok; lia|lia|]. intros pkt. vm_compute. discriminate.
  - exact lim_ring_rep.
  - exists f, s'. split; [exact E|exact Hs].
Defined.

(** The packets of the incomplete batch stay in the ring in one loop, and are sent in
    smaller batches in the other, which the flag ends two packets early. *)
Example loops_demo_run :
  match main_loop_poisson loops_demo 1000000000 (fun _ => 60) 100 100 10000 (lim_init lim_ring []),
        main_loop loops_demo 1000000000 (fun _ => 1) 100 1000 (lim_init lim_ring []) with
  | Ret (_, s), Ret (_, s') =>
    ((lm_sent s).*1, take 3 (lm_sent s), ring_count (lm_ring s)) = (seq 1 64, [(1%nat, 5); (2%nat, 90); (3%nat, 175)], 6) /\
    ((lm_sent s').*1, take 3 (lm_sent s'), lm_count s') = (seq 1 68, [(1%nat, 10); (2%nat, 20); (3%nat, 25)], 68)
  | _, _ => False
  end.
Proof. vm_compute. split; reflexivity. Qed.
