(* ===== verification/ClockSync.v ===== *)
(** libmoon/src/timestamping.c: synchronising the time registers of two ports, and
    resetting the software time counters (timestamping.h and its three callers).

    The memory-mapped registers of a port are an interface; an instance models two
    free-running clocks behind it, with a latency for every access, and the theorem
    is that the code finds their difference. *)
From Stdlib Require Import ZArith Lia Sorting.
From stdpp Require Import base numbers list gmap sorting.
From S2P Require Import Prelude.

#[local] Open Scope Z_scope.

(** ** Registers *)

Class Mmio (E : Type) := {
  mmio_read : Z -> Z -> E -> Z * E;
  mmio_write : Z -> Z -> Z -> E -> E
}.

Section Sync.
Context {E : Type} `{Mmio E}.

Definition read_reg32 (port reg : Z) : M E Z := fun e => Ret (mmio_read port reg e).
Definition write_reg32 (port reg val : Z) : M E unit := fun e => Ret (tt, mmio_write port reg val e).

(** The address of a register is its port and number. *)
Definition get_reg_addr (port reg : Z) : Z * Z := (port, reg).
Definition deref (addr : Z * Z) : M E Z := read_reg32 addr.1 addr.2.
Definition assign (addr : Z * Z) (v : Z) : M E unit := write_reg32 addr.1 addr.2 v.

(** ** The offset of the two clocks *)

(** [delta_t] is an [int]; adding the [uint32_t] readings to it is unsigned. *)
Definition clock_offset (x1 x2 y1 y2 : Z) : Z :=
  let delta_t := i32 (Z.abs (i32 (Z.quot (x1 - x2 - (y2 - y1)) 2))) in
  i32 (u32 (u32 (u32 delta_t + x1) - x2)).

Fixpoint measure_loop (runs : nat) (port1time port2time : Z * Z) : M E (list Z) :=
  match runs with
  | O => mret []
  | S runs =>
    x1 ← deref port1time;
    x2 ← deref port2time;
    y1 ← deref port2time;
    y2 ← deref port1time;
    offsets ← measure_loop runs port1time port2time;
    mret (clock_offset x1 x2 y1 y2 :: offsets)
  end.

Definition num_runs : nat := 7.

Definition libmoon_sync_clocks (port1 port2 timl timh adjl adjh : Z) : M E unit :=
  write_reg32 port1 timl 0 ;;
  write_reg32 port2 timl 0 ;;
  write_reg32 port1 timh 0 ;;
  write_reg32 port2 timh 0 ;;
  if port1 =? port2 then mret tt
  else
    let port1time := get_reg_addr port1 timl in
    let port2time := get_reg_addr port2 timl in
    assign port1time 0 ;;
    assign port2time 0 ;;
    offsets ← measure_loop num_runs port1time port2time;
    match merge_sort Z.le offsets !! (num_runs / 2)%nat with
    | None => fault
    | Some offs =>
      if offs =? 0 then mret tt
      else
        write_reg32 port2 adjl (if offs <? 0 then u32 (- offs) else u32 offs) ;;
        write_reg32 port2 adjh (if offs <? 0 then 2147483648 else 0)
    end.
End Sync.

(** ** Time counters *)

Record rte_timecounter := Timecounter {
  cycle_last : Z; nsec : Z; nsec_mask : Z; nsec_frac : Z; cc_mask : Z; cc_shift : Z
}.

Definition libmoon_reset_timecounter (tc : rte_timecounter) : rte_timecounter :=
  Timecounter 0 0 (nsec_mask tc) 0 (cc_mask tc) (cc_shift tc).

(** The counters of an adapter (i40e, igb and ixgbe have the same three). *)
Record adapter := Adapter { systime_tc : rte_timecounter; rx_tstamp_tc : rte_timecounter;
                            tx_tstamp_tc : rte_timecounter }.

Definition ENODEV : Z := 19.

Definition reset_timecounters (port_id : Z) : M (gmap Z adapter) Z := fun devs =>
  match devs !! port_id with
  | None => Ret (- ENODEV, devs)
  | Some a =>
    Ret (0, <[port_id := Adapter (libmoon_reset_timecounter (systime_tc a))
                           (libmoon_reset_timecounter (rx_tstamp_tc a))
                           (libmoon_reset_timecounter (tx_tstamp_tc a))]> devs)
  end.

Definition libmoon_i40e_reset_timecounters : Z -> M (gmap Z adapter) Z := reset_timecounters.
Definition libmoon_igb_reset_timecounters : Z -> M (gmap Z adapter) Z := reset_timecounters.
Definition libmoon_ixgbe_reset_timecounters : Z -> M (gmap Z adapter) Z := reset_timecounters.

(** [rte_cyclecounter_cycles_to_ns] and [rte_timecounter_update] (rte_time.h). *)
Definition rte_cyclecounter_cycles_to_ns (tc : rte_timecounter) (cycles : Z) : Z * rte_timecounter :=
  let ns := u64 (cycles + nsec_frac tc) in
  (Z.shiftr ns (cc_shift tc),
   Timecounter (cycle_last tc) (nsec tc) (nsec_mask tc) (Z.land ns (nsec_mask tc)) (cc_mask tc) (cc_shift tc)).

Definition rte_timecounter_update (tc : rte_timecounter) (cycle_now : Z) : Z * rte_timecounter :=
  let cycle_delta :=
    if cycle_last tc <=? cycle_now then Z.land (u64 (cycle_now - cycle_last tc)) (cc_mask tc)
    else u64 (Z.land (u64 (Z.lnot (u64 (cycle_last tc - cycle_now)))) (cc_mask tc) + 1) in
  let '(ns_offset, tc) := rte_cyclecounter_cycles_to_ns tc cycle_delta in
  let n := u64 (nsec tc + ns_offset) in
  (n, Timecounter cycle_now n (nsec_mask tc) (nsec_frac tc) (cc_mask tc) (cc_shift tc)).

(** ** Two clocks behind the registers *)

Definition TIML : Z := 12.
Definition TIMH : Z := 16.
Definition ADJL : Z := 24.
Definition ADJH : Z := 28.

(** The instant, for every port the instant its clock showed zero, the value last
    written to the low adjustment register, and the time each coming access takes. *)
Record clocks := Clocks { now : Z; zero : gmap Z Z; adj : Z; lat : list Z }.

Definition tick (c : clocks) : clocks :=
  Clocks (now c + default 0 (head (lat c))) (zero c) (adj c) (tail (lat c)).

Definition zero_of (port : Z) (c : clocks) : Z := default 0 (zero c !! port).

#[global] Instance clocks_mmio : Mmio clocks := {|
  mmio_read port reg c := (if reg =? TIML then u32 (now c - zero_of port c) else 0, tick c);
  mmio_write port reg v c :=
    if reg =? TIML then tick (Clocks (now c) (<[port := now c - v]> (zero c)) (adj c) (lat c))
    else if reg =? ADJL then tick (Clocks (now c) (zero c) v (lat c))
    else if reg =? ADJH then
      tick (Clocks (now c)
              (<[port := if Z.testbit v 31 then zero_of port c + adj c else zero_of port c - adj c]> (zero c))
              (adj c) (lat c))
    else tick c
|}.

(** A measurement: the latencies of its four reads. The first and the third decide. *)
Record run := Run { lat1 : Z; lat2 : Z; lat3 : Z; lat4 : Z }.

Definition run_lats (r : run) : list Z := [lat1 r; lat2 r; lat3 r; lat4 r].

Definition symmetric (r : run) : Prop := lat1 r = lat3 r.

#[global] Instance symmetric_dec r : Decision (symmetric r).
Proof. unfold symmetric. apply _. Defined.

Definition run_ok (r : run) : Prop := Forall (fun d => 0 <= d < 2 ^ 24) (run_lats r).

(** A symmetric measurement finds the difference [w] of the clocks. *)
Lemma clock_offset_exact x w a b c :
  0 <= x < 2 ^ 30 -> 0 <= w < 2 ^ 24 -> w <= x -> 0 <= a < 2 ^ 24 -> 0 <= b < 2 ^ 24 -> a = c ->
  clock_offset x (x + a - w) (x + a + b - w) (x + a + b + c) = w.
Proof.
  intros Hx Hw Hwx Ha Hb <-. unfold clock_offset.
  replace (x - (x + a - w) - (x + a + b + a - (x + a + b - w))) with ((- a) * 2) by lia.
  rewrite Z.quot_mul, (wraps_small 32 (- a)), Z.abs_opp, Z.abs_eq, (wraps_small 32 a) by lia.
  rewrite (wrapu_small 32 a), (wrapu_small 32 (a + x)) by lia.
  replace (a + x - (x + a - w)) with w by lia. rewrite wrapu_small by lia. apply wraps_small; lia.
Qed.

Lemma deref_clock p n z ad d la :
  deref (p, TIML) (Clocks n z ad (d :: la)) =
  Ret (u32 (n - zero_of p (Clocks n z ad (d :: la))), Clocks (n + d) z ad la).
Proof. done. Qed.

Lemma measure_spec p1 p2 T w rest runs : forall c,
  lat c = concat (run_lats <$> runs) ++ rest -> zero_of p1 c = T -> zero_of p2 c = T + w ->
  0 <= w < 2 ^ 24 -> w <= now c - T -> now c - T + 2 ^ 26 * Z.of_nat (length runs) < 2 ^ 30 ->
  Forall run_ok runs ->
  exists offs c', measure_loop (length runs) (p1, TIML) (p2, TIML) c = Ret (offs, c') /\
    Forall2 (fun r o => symmetric r -> o = w) runs offs /\ zero c' = zero c /\ lat c' = rest.
Proof.
  induction runs as [|r runs IH]; intros c Hlat H1 H2 Hw Hnow Hb Hok.
  - exists [], c. split_and!; [done|constructor|done|exact Hlat].
  - apply Forall_cons in Hok as [Hr Hok]. unfold run_ok, run_lats in Hr. rewrite !Forall_cons in Hr.
    destruct Hr as (? & ? & ? & ? & _). destruct r as [a b d e]. simpl in *.
    set (c1 := Clocks (now c + a + b + d + e) (zero c) (adj c) (concat (run_lats <$> runs) ++ rest)).
    destruct (IH c1) as (offs & c' & E & Hf & Hz & Hl); try done; [simpl; lia|simpl; lia|].
    unfold zero_of in *. exists (clock_offset (now c - T) (now c - T + a - w) (now c - T + a + b - w)
      (now c - T + a + b + d) :: offs), c'.
    split_and!; [|constructor; [|done]|done|done].
    + destruct c as [n z ad la]. simpl in Hlat. subst la. simpl in c1, H1, H2. cbn [now lat zero adj].
      unfold mbind, M_bind. rewrite !deref_clock. unfold zero_of. cbn [zero now]. rewrite H1, H2.
      change (list_fmap run (list Z) run_lats runs) with (run_lats <$> runs).
      fold c1. rewrite E. unfold mret, M_ret. cbn [now] in *. rewrite !wrapu_small by lia.
      do 3 f_equal. f_equal; lia.
    + intros Hs. unfold symmetric in Hs. simpl in Hs. apply clock_offset_exact; lia.
Qed.

(** ** The median *)

(** In a sorted list of seven, a value that occurs at least four times is in the
    middle. *)
Lemma median_majority (l : list Z) w :
  length l = 7%nat -> (4 <= length (filter (fun o => o = w) l))%nat ->
  merge_sort Z.le l !! 3%nat = Some w.
Proof.
  intros Hl Hc. pose proof (merge_sort_Permutation Z.le l) as Hp.
  pose proof (StronglySorted_merge_sort Z.le l) as Hs.
  assert (length (merge_sort Z.le l) = 7%nat) as Hl' by (by rewrite Hp).
  rewrite <- Hp in Hc. set (s := merge_sort Z.le l) in *. clearbody s. clear Hp Hl l.
  destruct s as [|x0 [|x1 [|x2 [|x3 [|x4 [|x5 [|x6 [|]]]]]]]]; try done. clear Hl'.
  cbn [lookup list_lookup]. f_equal.
  repeat match goal with H : StronglySorted _ (_ :: _) |- _ => apply StronglySorted_inv in H as [H ?] end.
  rewrite !Forall_cons in *. rewrite !filter_cons in Hc. destruct_and!.
  repeat match type of Hc with context [decide (?x = w)] => destruct (decide (x = w)) end;
    cbn [length filter] in Hc; rewrite ?filter_nil in Hc; simpl in Hc; lia.
Qed.

Lemma filter_exact runs (offs : list Z) (w : Z) :
  Forall2 (fun r o => symmetric r -> o = w) runs offs ->
  (length (filter symmetric runs) <= length (filter (fun o => o = w) offs))%nat.
Proof.
  induction 1 as [|r o runs offs Hr _ IH]; [done|]. rewrite !filter_cons.
  destruct (decide (symmetric r)), (decide (o = w)); simpl; try lia. by destruct n; auto.
Qed.

Lemma write_timl p v n z ad d la :
  write_reg32 p TIML v (Clocks n z ad (d :: la)) = Ret (tt, Clocks (n + d) (<[p := n - v]> z) ad la).
Proof. done. Qed.

Lemma write_timh p v n z ad d la :
  write_reg32 p TIMH v (Clocks n z ad (d :: la)) = Ret (tt, Clocks (n + d) z ad la).
Proof. done. Qed.

Lemma assign_timl p v n z ad d la :
  assign (p, TIML) v (Clocks n z ad (d :: la)) = Ret (tt, Clocks (n + d) (<[p := n - v]> z) ad la).
Proof. done. Qed.

Lemma insert_twice (z : gmap Z Z) p1 p2 a b x y :
  p1 <> p2 -> <[p2 := y]> (<[p1 := x]> (<[p2 := b]> (<[p1 := a]> z))) = <[p2 := y]> (<[p1 := x]> z).
Proof.
  intros Hne. rewrite (insert_insert_ne _ p1 p2 x b), insert_insert_eq by done.
  by rewrite insert_insert_eq.
Qed.

(** The four resets and the two writes that start the clocks. *)
Lemma start_clocks p1 p2 c l1 l2 l3 l4 w w2 la (k : M clocks unit) :
  p1 <> p2 -> lat c = l1 :: l2 :: l3 :: l4 :: w :: w2 :: la ->
  (write_reg32 p1 TIML 0 ;; write_reg32 p2 TIML 0 ;; write_reg32 p1 TIMH 0 ;; write_reg32 p2 TIMH 0 ;;
   assign (p1, TIML) 0 ;; assign (p2, TIML) 0 ;; k) c =
  let T := now c + l1 + l2 + l3 + l4 in
  k (Clocks (T + w + w2) (<[p2 := T + w]> (<[p1 := T]> (zero c))) (adj c) la).
Proof.
  intros Hne Hlat. destruct c as [n z a la']. simpl in Hlat. subst la'.
  unfold mbind, M_bind. rewrite !write_timl, !write_timh, !assign_timl. rewrite !Z.sub_0_r, insert_twice by done.
  reflexivity.
Qed.

(** [libmoon_sync_clocks] on two clocks that run at the same rate: if in at
    least four of the seven measurements the first and the third access take the
    same time, whatever the other accesses take, the two clocks show the same time
    afterwards. *)
Theorem sync_clocks_correct (p1 p2 : Z) (c : clocks) (l1 l2 l3 l4 w w2 : Z) (runs : list run)
    (rest : list Z) :
  p1 <> p2 -> lat c = [l1; l2; l3; l4; w; w2] ++ concat (run_lats <$> runs) ++ rest ->
  0 <= w < 2 ^ 24 -> 0 <= w2 < 2 ^ 24 -> length runs = 7%nat -> Forall run_ok runs ->
  (4 <= length (filter symmetric runs))%nat ->
  exists c', libmoon_sync_clocks p1 p2 TIML TIMH ADJL ADJH c = Ret (tt, c') /\
    zero_of p2 c' = zero_of p1 c'.
Proof.
  intros Hne Hlat Hw Hw2 Hl Hok Hsym. unfold libmoon_sync_clocks.
  destruct (Z.eqb_spec p1 p2); [done|]. cbv zeta. cbn [app] in Hlat.
  rewrite (start_clocks p1 p2 c _ _ _ _ _ _ _ _ Hne Hlat). cbv zeta.
  set (T := now c + l1 + l2 + l3 + l4). set (c1 := Clocks _ _ _ _).
  assert (zero_of p1 c1 = T /\ zero_of p2 c1 = T + w) as [H1 H2].
  { unfold zero_of, c1. cbn [zero]. rewrite lookup_insert_ne, !lookup_insert_eq by done. done. }
  destruct (measure_spec p1 p2 T w rest runs c1) as (offs & c2 & E & Hf & Hz & _);
    try done; [simpl; lia|simpl; lia|].
  rewrite Hl in E. change num_runs with 7%nat. unfold mbind at 1, M_bind. unfold get_reg_addr. rewrite E.
  change (7 / 2)%nat with 3%nat. rewrite (median_majority offs w).
  2: { by rewrite <- (Forall2_length _ _ _ Hf). }
  2: { pose proof (filter_exact _ _ _ Hf). lia. }
  destruct (Z.eqb_spec w 0) as [->|Hw0].
  - exists c2. split; [done|]. unfold zero_of in *. rewrite Hz, H1, H2. lia.
  - destruct (Z.ltb_spec w 0); [lia|]. unfold mbind, M_bind, write_reg32. eexists. split; [reflexivity|].
    rewrite wrapu_small by lia. unfold zero_of in *. cbn. unfold zero_of. cbn. rewrite Hz.
    rewrite lookup_insert_eq, lookup_insert_ne by done. cbn in *. rewrite H1, H2. lia.
Qed.

(** ** Time counters do not drift *)

(** A counter of [wd] bits with [sh] fractional bits. *)
Definition tc_shape (wd sh : Z) (tc : rte_timecounter) : Prop :=
  cc_mask tc = 2 ^ wd - 1 /\ nsec_mask tc = 2 ^ sh - 1 /\ cc_shift tc = sh.

(** The counter stands for [t] cycles in all. *)
Definition tc_rep (wd sh t : Z) (tc : rte_timecounter) : Prop :=
  tc_shape wd sh tc /\ cycle_last tc = t mod 2 ^ wd /\
  nsec tc = t / 2 ^ sh /\ nsec_frac tc = t mod 2 ^ sh.

Lemma land_mask x w : 0 <= w -> Z.land x (2 ^ w - 1) = x mod 2 ^ w.
Proof. intros. replace (2 ^ w - 1) with (Z.ones w) by (rewrite Z.ones_equiv; lia). by apply Z.land_ones. Qed.

(** The elapsed cycles, through a wrap-around of the hardware counter. *)
Lemma cycle_delta_spec wd tc t t' :
  0 < wd <= 64 -> cc_mask tc = 2 ^ wd - 1 -> cycle_last tc = t mod 2 ^ wd ->
  0 <= t <= t' -> t' - t < 2 ^ wd -> t' < 2 ^ 64 ->
  (if cycle_last tc <=? t' mod 2 ^ wd then Z.land (u64 (t' mod 2 ^ wd - cycle_last tc)) (cc_mask tc)
   else u64 (Z.land (u64 (Z.lnot (u64 (cycle_last tc - t' mod 2 ^ wd)))) (cc_mask tc) + 1)) = t' - t.
Proof.
  intros Hw Hm Hl Ht Hd Hb. rewrite Hm, Hl. set (W := 2 ^ wd) in *.
  assert (0 < W <= 2 ^ 64) by (subst W; split; [apply Z.pow_pos_nonneg; lia|apply Z.pow_le_mono_r; lia]).
  pose proof (Z.mod_pos_bound t W ltac:(lia)) as Ha. pose proof (Z.mod_pos_bound t' W ltac:(lia)) as Hb'.
  assert (t' - t = t' mod W - t mod W \/ t' - t = t' mod W - t mod W + W /\ t' mod W < t mod W) as Hcase.
  { pose proof (Z.div_mod t W ltac:(lia)). pose proof (Z.div_mod t' W ltac:(lia)).
    assert (t / W <= t' / W) by (apply Z.div_le_mono; lia).
    assert (t' / W - t / W = 0 \/ t' / W - t / W = 1) as [] by nia; nia. }
  subst W. destruct (Z.leb_spec (t mod 2 ^ wd) (t' mod 2 ^ wd)).
  - rewrite land_mask by lia. rewrite (wrapu_small 64) by lia. rewrite Z.mod_small by lia. lia.
  - rewrite land_mask by lia. rewrite (wrapu_small 64 (t mod 2 ^ wd - t' mod 2 ^ wd)) by lia.
    set (x := t mod 2 ^ wd - t' mod 2 ^ wd) in *.
    assert (u64 (Z.lnot x) = 2 ^ 64 - 1 - x) as ->.
    { unfold Z.lnot, wrapu. symmetry. apply Z.mod_unique with (-1); lia. }
    assert ((2 ^ 64 - 1 - x) mod 2 ^ wd = 2 ^ wd - 1 - x) as ->.
    { symmetry. apply Z.mod_unique with (2 ^ (64 - wd) - 1); [lia|].
      rewrite Z.mul_sub_distr_l, <- Z.pow_add_r by lia. replace (wd + (64 - wd)) with 64 by lia. lia. }
    rewrite wrapu_small by lia. lia.
Qed.

Lemma update_spec wd sh tc t t' :
  0 < wd <= 64 -> 0 <= sh < 64 -> tc_rep wd sh t tc ->
  0 <= t <= t' -> t' - t < 2 ^ wd -> t' + 2 ^ sh <= 2 ^ 64 ->
  exists tc', rte_timecounter_update tc (t' mod 2 ^ wd) = (t' / 2 ^ sh, tc') /\ tc_rep wd sh t' tc'.
Proof.
  intros Hw Hs ((Hm & Hn & Hsh) & Hl & Hns & Hf) Ht Hd Hb. unfold rte_timecounter_update.
  assert (0 < 2 ^ sh) by (apply Z.pow_pos_nonneg; lia).
  rewrite (cycle_delta_spec wd tc t t') by (done || lia). unfold rte_cyclecounter_cycles_to_ns.
  cbn [nsec nsec_mask nsec_frac cc_mask cc_shift].
  pose proof (Z.mod_pos_bound t (2 ^ sh) ltac:(lia)). pose proof (Z.div_mod t (2 ^ sh) ltac:(lia)).
  assert (0 <= t / 2 ^ sh) by (apply Z.div_pos; lia).
  rewrite Hf, (wrapu_small 64 (t' - t + _)), Hsh, Hn, Hns, Z.shiftr_div_pow2, land_mask by lia.
  assert (t' - t + t mod 2 ^ sh = t' + (- (t / 2 ^ sh)) * 2 ^ sh) as -> by lia.
  rewrite Z.div_add, Z.mod_add by lia.
  assert (0 <= t' / 2 ^ sh <= t') by (split; [apply Z.div_pos; lia|apply Z.div_le_upper_bound; nia]).
  replace (t / 2 ^ sh + (t' / 2 ^ sh + - (t / 2 ^ sh))) with (t' / 2 ^ sh) by lia.
  rewrite wrapu_small by lia. eexists. split; [reflexivity|]. by split.
Qed.

(** The counter after readings at the given total cycle counts. *)
Fixpoint read_all (wd : Z) (ts : list Z) (tc : rte_timecounter) : rte_timecounter :=
  match ts with
  | [] => tc
  | t :: ts => read_all wd ts (rte_timecounter_update tc (t mod 2 ^ wd)).2
  end.

(** Readings often enough to see every wrap-around. *)
Fixpoint spaced (wd t0 : Z) (ts : list Z) : Prop :=
  match ts with [] => True | t :: ts => t0 <= t < t0 + 2 ^ wd /\ spaced wd t ts end.

Lemma read_all_spec wd sh ts : forall tc t0,
  0 < wd <= 64 -> 0 <= sh < 64 -> 0 <= t0 -> tc_rep wd sh t0 tc -> spaced wd t0 ts ->
  Forall (fun t => t + 2 ^ sh <= 2 ^ 64) ts -> tc_rep wd sh (default t0 (list.last ts)) (read_all wd ts tc).
Proof.
  induction ts as [|t ts IH]; intros tc t0 Hw Hs H0 Hr Hsp Hb; [done|]. destruct Hsp as [Ht Hsp].
  apply Forall_cons in Hb as [Hb Hbs]. cbn [read_all].
  destruct (update_spec wd sh tc t0 t Hw Hs Hr ltac:(lia) ltac:(lia) Hb) as (tc' & -> & Hr'). cbn [snd].
  specialize (IH tc' t Hw Hs ltac:(lia) Hr' Hsp Hbs). destruct ts as [|y ts]; [done|].
  change (list.last (t :: y :: ts)) with (list.last (y :: ts)).
  by destruct (list.last (y :: ts)) eqn:El; [|apply last_None in El].
Qed.

(** After [libmoon_i40e_reset_timecounters] (and its igb and ixgbe twins) the
    three counters of the port do not drift: after any number of readings, taken
    often enough to see every wrap-around of the hardware counter, each shows
    exactly the nanoseconds of all cycles elapsed since the reset; the other ports'
    counters are unchanged, and an invalid port is an error. *)
Theorem timecounters_exact (wd sh : Z) (devs : gmap Z adapter) (port : Z) (a : adapter) (ts : list Z) :
  0 < wd <= 64 -> 0 <= sh < 64 -> devs !! port = Some a ->
  tc_shape wd sh (systime_tc a) -> tc_shape wd sh (rx_tstamp_tc a) -> tc_shape wd sh (tx_tstamp_tc a) ->
  spaced wd 0 ts -> Forall (fun t => t + 2 ^ sh <= 2 ^ 64) ts ->
  exists a', libmoon_i40e_reset_timecounters port devs = Ret (0, <[port := a']> devs) /\
    Forall (fun tc => nsec (read_all wd ts tc) = default 0 (list.last ts) / 2 ^ sh)
      [systime_tc a'; rx_tstamp_tc a'; tx_tstamp_tc a'].
Proof.
  intros Hw Hs Ha S1 S2 S3 Hsp Hb. unfold libmoon_i40e_reset_timecounters, reset_timecounters. rewrite Ha.
  eexists. split; [reflexivity|].
  assert (forall tc, tc_shape wd sh tc ->
    nsec (read_all wd ts (libmoon_reset_timecounter tc)) = default 0 (list.last ts) / 2 ^ sh) as Hx.
  { intros tc Htc. assert (tc_rep wd sh 0 (libmoon_reset_timecounter tc)) as Hr.
    { split; [exact Htc|]. cbn. by rewrite !Z.mod_0_l, Z.div_0_l by (apply Z.pow_nonzero; lia). }
    by destruct (read_all_spec wd sh ts _ 0 Hw Hs ltac:(lia) Hr Hsp Hb) as (_ & _ & ? & _). }
  repeat constructor; by apply Hx.
Qed.

(** ** Examples *)

(** Seven measurements, three of them disturbed. *)
Definition demo_runs : list run :=
  [Run 80 90 80 85; Run 80 85 95 80; Run 70 80 70 80; Run 300 80 80 80; Run 81 82 81 85; Run 80 80 79 80;
   Run 80 80 80 80].

Definition demo_clocks : clocks :=
  Clocks 1000 {[ 0 := 17; 1 := 900 ]} 0 ([40; 40; 40; 40; 44; 41] ++ concat (run_lats <$> demo_runs) ++ [50; 50]).

Lemma sync_clocks_correct_witness :
  exists c', libmoon_sync_clocks 0 1 TIML TIMH ADJL ADJH demo_clocks = Ret (tt, c') /\
    zero_of 1 c' = zero_of 0 c'.
Proof.
  apply (sync_clocks_correct 0 1 demo_clocks 40 40 40 40 44 41 demo_runs [50; 50]);
    [lia|reflexivity|lia|lia|reflexivity|repeat constructor; simpl; lia|vm_compute; lia].
Defined.

(** A 32-bit counter in units of a sixteenth of a nanosecond. *)
Definition demo_tc : rte_timecounter := Timecounter 77 5 15 3 (2 ^ 32 - 1) 4.

Lemma timecounters_exact_witness :
  exists a', libmoon_i40e_reset_timecounters 2 {[ 2 := Adapter demo_tc demo_tc demo_tc ]} =
      Ret (0, <[2 := a']> {[ 2 := Adapter demo_tc demo_tc demo_tc ]}) /\
    Forall (fun tc => nsec (read_all 32 [4000000000; 8000000000; 11000000000] tc) =
                      default 0 (list.last [4000000000; 8000000000; 11000000000]) / 2 ^ 4)
      [systime_tc a'; rx_tstamp_tc a'; tx_tstamp_tc a'].
Proof.
  apply (timecounters_exact 32 4 {[ 2 := Adapter demo_tc demo_tc demo_tc ]} 2
    (Adapter demo_tc demo_tc demo_tc) [4000000000; 8000000000; 11000000000]);
    [lia|lia|reflexivity|done|done|done|simpl; lia|repeat constructor; lia].
Defined.
