(* ===== verification/LatencyStats.v ===== *)
(** MoonGen/src/histogram.cpp and MoonGen/src/moonsniff.cpp: latencies matched by
    identifier, counted in buckets, and averaged with Welford's online algorithm.

    The doubles are those of Double: correctly rounded, without overflow and subnormal
    numbers, which do not occur for latencies of 64 bits. *)
From Stdlib Require Import ZArith Lia.
From stdpp Require Import base numbers list gmap sorting.
From S2P Require Import Prelude Double.

#[local] Open Scope Z_scope.

(** ** The mean and the deviations *)

(** The assignments both components make for a new value: [count] has been incremented. *)
Definition welford (count new_val : Z) (mean m2 : double) : double * double :=
  let delta := dsub (of_int new_val) mean in
  let mean := dadd mean (ddiv delta count) in
  let delta2 := dsub (of_int new_val) mean in
  (mean, dadd m2 (dmul delta delta2)).

(** ** Histogram *)

Record histogram := Histogram {
  h_count : Z; h_m2 : double; h_mean : double; h_variance : double;
  bucket_size : Z; bucket_half : Z; storage : gmap Z Z
}.

(** The constructor; [None] when the process exits. *)
Definition hs_initialize (bucket_size : Z) : option histogram :=
  if bucket_size <=? 0 then None
  else Some (Histogram 0 dzero dzero dzero bucket_size (Z.quot bucket_size 2) ∅).

(** The bucket of a value; [None] when the addition overflows. *)
Definition bucket_of (size half new_val : Z) : option Z :=
  let moved := if 0 <? new_val then new_val + half else if new_val <? 0 then new_val - half else new_val in
  if (moved <? - 2 ^ 63) || (2 ^ 63 <=? moved) then None else Some (Z.quot moved size * size).

Definition hs_update (new_val : Z) : M histogram bool := fun h =>
  let ret := negb (new_val <? 0) in
  let count := u64 (h_count h + 1) in
  let '(mean, m2) := welford count new_val (h_mean h) (h_m2 h) in
  match bucket_of (bucket_size h) (bucket_half h) new_val with
  | None => Fault
  | Some b =>
    Ret (ret, Histogram count m2 mean (h_variance h) (bucket_size h) (bucket_half h)
                (<[b := u32 (default 0 (storage h !! b) + 1)]> (storage h)))
  end.

Definition hs_finalize : M histogram unit := modify (fun h =>
  if h_count h <? 2 then h
  else Histogram (h_count h) (h_m2 h) (h_mean h) (ddiv (h_m2 h) (u64 (h_count h - 1))) (bucket_size h) (bucket_half h) (storage h)).

Definition le_key (a b : Z * Z) : Prop := a.1 <= b.1.
#[global] Instance le_key_dec a b : Decision (le_key a b).
Proof. unfold le_key. apply _. Defined.

(** The lines of the file: the buckets in ascending order. *)
Definition hs_write (h : histogram) : list (Z * Z) := merge_sort le_key (map_to_list (storage h)).

Definition hs_getCount (h : histogram) : Z := h_count h.
Definition hs_getMean (h : histogram) : double := h_mean h.
Definition hs_getVariance (h : histogram) : double := h_variance h.

(** ** MoonSniff *)

Definition INDEX_MASK : Z := 16777215.

Record entry := Entry { timestamp : Z; identifier : Z }.

Record ms_stats := MsStats { average_latency : Z; variance_latency : Z; hits : Z; misses : Z; inval_ts : Z }.

(** The globals of the namespace; entries of [hit_list] that were never written are zero. *)
Record sniff := Sniff {
  thresh : Z; s_count : Z; s_m2 : double; s_mean : double; s_variance : double; stats : ms_stats; hit_list : gmap Z entry
}.

Definition sniff_init : sniff := Sniff 0 0 dzero dzero dzero (MsStats 0 0 0 0 0) ∅.

Definition entry_at (s : sniff) (index : Z) : entry := default (Entry 0 0) (hit_list s !! index).

Definition ms_set_thresh (t : Z) : M sniff unit := modify (fun s =>
  Sniff t (s_count s) (s_m2 s) (s_mean s) (s_variance s) (stats s) (hit_list s)).

Definition ms_add_entry (identification ts : Z) : M sniff unit := modify (fun s =>
  let index := Z.land identification INDEX_MASK in
  Sniff (thresh s) (s_count s) (s_m2 s) (s_mean s) (s_variance s) (stats s) (<[index := Entry ts identification]> (hit_list s))).

(** A latency below the threshold is reported on the error stream, and then counted like
    the others. *)
Definition ms_test_for (identification ts : Z) : M sniff unit := modify (fun s =>
  let index := Z.land identification INDEX_MASK in
  let e := entry_at s index in
  let old_ts := if identifier e =? identification then timestamp e else 0 in
  let hit_list := <[index := Entry 0 0]> (hit_list s) in
  let st := stats s in
  if negb (old_ts =? 0) then
    let diff := i64 (u64 (ts - old_ts)) in
    let count := u64 (s_count s + 1) in
    let '(mean, m2) := welford count diff (s_mean s) (s_m2 s) in
    Sniff (thresh s) count m2 mean (s_variance s)
      (MsStats (average_latency st) (variance_latency st) (u32 (hits st + 1)) (misses st) (inval_ts st)) hit_list
  else
    Sniff (thresh s) (s_count s) (s_m2 s) (s_mean s) (s_variance s)
      (MsStats (average_latency st) (variance_latency st) (hits st) (u32 (misses st + 1)) (inval_ts st)) hit_list).

(** The conversions of the doubles truncate, and are undefined outside of the range. *)
Definition to_int64 (d : double) : option Z :=
  let n := trunc d in if (n <? - 2 ^ 63) || (2 ^ 63 <=? n) then None else Some n.

Definition ms_fetch_stats : M sniff ms_stats := fun s =>
  let variance := if s_count s <? 2 then s_variance s else ddiv (s_m2 s) (u64 (s_count s - 1)) in
  match to_int64 (s_mean s), to_int64 variance with
  | Some a, Some v =>
    let st := MsStats a v (hits (stats s)) (misses (stats s)) (inval_ts (stats s)) in
    Ret (st, Sniff (thresh s) (s_count s) (s_m2 s) (s_mean s) variance st (hit_list s))
  | _, _ => Fault
  end.

(** ** Equal values *)

(** The mean of equal values is exact, and their deviations are zero. *)
Lemma welford_const count d mean m2 :
  0 < count < 2 ^ 53 -> Z.abs d < 2 ^ 53 -> (dexact mean d \/ count = 1 /\ dexact mean 0) -> dexact m2 0 ->
  dexact (welford count d mean m2).1 d /\ dexact (welford count d mean m2).2 0.
Proof.
  intros Hc Hd Hmean Hm2. unfold welford. cbn [fst snd]. pose proof (of_int_exact d Hd) as Hi.
  set (delta := dsub (of_int d) mean). set (mean' := dadd mean (ddiv delta count)).
  assert (dexact mean' d /\ exists x, dexact delta x /\ Z.abs x < 2 ^ 53) as (Hm' & x & Hx & Hxb).
  { destruct Hmean as [Hm|[-> Hm]].
    - pose proof (dsub_exact _ _ _ _ Hi Hm ltac:(lia)) as Hdl. rewrite Z.sub_diag in Hdl.
      split; [|by exists 0]. pose proof (ddiv_exact delta 0 count Hdl Hc ltac:(lia)) as Hq.
      pose proof (dadd_exact _ _ _ _ Hm Hq ltac:(lia)) as Ha. by rewrite Z.add_0_r in Ha.
    - pose proof (dsub_exact _ _ _ _ Hi Hm ltac:(lia)) as Hdl. rewrite Z.sub_0_r in Hdl.
      split; [|by exists d]. pose proof (ddiv_exact delta d 1 ltac:(by rewrite Z.mul_1_r) ltac:(lia) Hd) as Hq.
      by pose proof (dadd_exact _ _ _ _ Hm Hq ltac:(lia)) as Ha. }
  split; [done|]. pose proof (dsub_exact _ _ _ _ Hi Hm' ltac:(lia)) as H2. rewrite Z.sub_diag in H2.
  pose proof (dmul_exact _ _ _ _ Hx H2 ltac:(lia)) as Hmul. rewrite Z.mul_0_r in Hmul.
  by pose proof (dadd_exact _ _ _ _ Hm2 Hmul ltac:(lia)) as Ha.
Qed.
