(* ===== verification/LatencyStatsSpec.v ===== *)
(** What the histogram and the live mode of MoonSniff promise: values in the nearest
    bucket, latencies matched by identifier, and exact averages of equal values. *)
From Stdlib Require Import ZArith Lia.
From stdpp Require Import base numbers list gmap sorting.
From S2P Require Import Prelude Double LatencyStats.

#[local] Open Scope Z_scope.

(** ** Histogram *)

(** [b] is the multiple of [size] nearest to [v], of two the one farther from zero. *)
Definition nearest (size v b : Z) : Prop :=
  (size | b) /\ 2 * Z.abs (v - b) <= size /\ (2 * Z.abs (v - b) = size -> Z.abs v < Z.abs b).

Lemma bucket_nearest size v :
  0 < size < 2 ^ 32 -> Z.abs v < 2 ^ 62 -> exists b, bucket_of size (Z.quot size 2) v = Some b /\ nearest size v b.
Proof.
  intros Hs Hv. unfold bucket_of. rewrite Z.quot_div_nonneg by lia. set (half := size / 2).
  assert (2 * half <= size < 2 * half + 2) as Hh by (unfold half; Z.div_mod_to_equations; lia).
  set (moved := if 0 <? v then _ else _).
  assert (Z.abs moved < 2 ^ 63 /\ (0 < v /\ moved = v + half \/ v < 0 /\ moved = v - half \/ v = 0 /\ moved = 0)) as [Hm Hc].
  { unfold moved. destruct (Z.ltb_spec 0 v); [lia|]. destruct (Z.ltb_spec v 0); lia. }
  destruct (Z.ltb_spec moved (- 2 ^ 63)); [lia|]. destruct (Z.leb_spec (2 ^ 63) moved); [lia|]. cbn [orb].
  eexists. split; [reflexivity|]. split; [apply Z.divide_factor_r|].
  destruct Hc as [[Hp ->]|[[Hn ->]|[-> ->]]].
  - rewrite Z.quot_div_nonneg by lia. pose proof (Z.div_mod (v + half) size ltac:(lia)). pose proof (Z.mod_pos_bound (v + half) size ltac:(lia)). lia.
  - replace (v - half) with (- (half - v)) by lia. rewrite Z.quot_opp_l, Z.quot_div_nonneg by lia.
    pose proof (Z.div_mod (half - v) size ltac:(lia)). pose proof (Z.mod_pos_bound (half - v) size ltac:(lia)). lia.
  - rewrite Z.quot_0_l by lia. lia.
Qed.

Lemma multiple_side x size : 0 < size -> 0 <= x * size \/ x * size + size <= 0.
Proof. intros Hs. destruct (Z.le_gt_cases 0 x); [left|right]; nia. Qed.

Lemma nearest_unique size v b b' : 0 < size -> nearest size v b -> nearest size v b' -> b = b'.
Proof.
  intros Hs ([x ->] & H1 & H2) ([y ->] & H3 & H4). f_equal. destruct (Z.lt_trichotomy x y) as [Hlt|[->|Hlt]]; [|done|]; exfalso.
  - assert (x * size + size <= y * size) by nia. assert (2 * Z.abs (v - x * size) = size /\ 2 * Z.abs (v - y * size) = size) as [E1 E2] by lia.
    pose proof (multiple_side x size Hs). specialize (H2 E1). specialize (H4 E2). lia.
  - assert (y * size + size <= x * size) by nia. assert (2 * Z.abs (v - x * size) = size /\ 2 * Z.abs (v - y * size) = size) as [E1 E2] by lia.
    pose proof (multiple_side y size Hs). specialize (H2 E1). specialize (H4 E2). lia.
Qed.

Fixpoint update_all (vs : list Z) : M histogram (list bool) :=
  match vs with
  | [] => mret []
  | v :: vs => r ← hs_update v; rs ← update_all vs; mret (r :: rs)
  end.

(** The number of values whose bucket is [b]. *)
Definition in_bucket (size : Z) (vs : list Z) (b : Z) : nat :=
  length (filter (fun v => bucket_of size (Z.quot size 2) v = Some b) vs).

(** The state after the values [vs]. *)
Record hist_inv (size : Z) (vs : list Z) (h : histogram) : Prop := {
  hi_size : bucket_size h = size;
  hi_half : bucket_half h = Z.quot size 2;
  hi_count : h_count h = u64 (Z.of_nat (length vs));
  hi_storage b : storage h !! b = match in_bucket size vs b with O => None | n => Some (u32 (Z.of_nat n)) end
}.

Lemma in_bucket_app size vs v b b' :
  bucket_of size (Z.quot size 2) v = Some b' ->
  in_bucket size (vs ++ [v]) b = (in_bucket size vs b + if decide (b' = b) then 1 else 0)%nat.
Proof.
  intros E. unfold in_bucket. rewrite filter_app, length_app. f_equal. rewrite filter_cons, filter_nil, E.
  destruct (decide (b' = b)) as [->|]; [by rewrite decide_True|]. by rewrite decide_False by congruence.
Qed.

Lemma hist_update_spec size vs v h :
  0 < size < 2 ^ 32 -> Z.abs v < 2 ^ 62 -> hist_inv size vs h ->
  exists h', hs_update v h = Ret (negb (v <? 0), h') /\ hist_inv size (vs ++ [v]) h'.
Proof.
  intros Hs Hv [Es Eh Ec Est]. destruct (bucket_nearest size v Hs Hv) as (b & Eb & _).
  unfold hs_update. rewrite Es, Eh, Eb. destruct (welford _ _ _ _) as [mean m2]. eexists. split; [reflexivity|].
  split; cbn [bucket_size bucket_half h_count storage]; try done.
  - rewrite Ec, wrapu_add_l, length_app. f_equal. cbn. lia.
  - intros b'. rewrite (in_bucket_app size vs v b' b Eb). destruct (decide (b = b')) as [->|Hne].
    + rewrite lookup_insert_eq, Est. rewrite Nat.add_1_r. destruct (in_bucket size vs b') as [|n]; [done|]. cbn [default].
      unfold id. rewrite wrapu_add_l. f_equal. f_equal. lia.
    + rewrite lookup_insert_ne, Est, Nat.add_0_r by done. done.
Qed.

Lemma update_all_spec size vs2 : forall vs1 h,
  0 < size < 2 ^ 32 -> Forall (fun v => Z.abs v < 2 ^ 62) vs2 -> hist_inv size vs1 h ->
  exists h', update_all vs2 h = Ret ((fun v => negb (v <? 0)) <$> vs2, h') /\ hist_inv size (vs1 ++ vs2) h'.
Proof.
  induction vs2 as [|v vs2 IH]; intros vs1 h Hs Hvs Hi; cbn [update_all].
  - exists h. by rewrite app_nil_r.
  - apply Forall_cons in Hvs as [Hv Hvs]. destruct (hist_update_spec size vs1 v h Hs Hv Hi) as (h1 & E1 & Hi1).
    destruct (IH (vs1 ++ [v]) h1 Hs Hvs Hi1) as (h2 & E2 & Hi2). exists h2. unfold mbind, M_bind, mret, M_ret. rewrite E1, E2.
    by rewrite <- app_assoc in Hi2.
Qed.

#[global] Instance le_key_total : Total le_key.
Proof. intros a b. unfold le_key. lia. Qed.
#[global] Instance le_key_trans : Transitive le_key.
Proof. intros a b c. unfold le_key. lia. Qed.

(** A histogram of bucket size [size] that is given the values [vs] does not overflow,
    tells for each whether it is not negative, counts all of them, and puts each into
    the bucket of the nearest multiple of [size], halves away from zero (so that with an
    even size the bucket of zero has one value less than the others): a bucket is in
    the file exactly when a value fell into it, with the number of those values modulo
    [2 ^ 32], and the buckets are written in ascending order, each once. *)
Theorem histogram_correct (size : Z) (vs : list Z) :
  0 < size < 2 ^ 32 -> Forall (fun v => Z.abs v < 2 ^ 62) vs -> Z.of_nat (length vs) < 2 ^ 64 ->
  exists h0 h, hs_initialize size = Some h0 /\ update_all vs h0 = Ret ((fun v => negb (v <? 0)) <$> vs, h) /\
    hs_getCount h = Z.of_nat (length vs) /\ StronglySorted le_key (hs_write h) /\ NoDup (hs_write h).*1 /\
    (forall v b, v ∈ vs -> bucket_of size (Z.quot size 2) v = Some b <-> nearest size v b) /\
    forall b n, (b, n) ∈ hs_write h <->
      let fell := filter (fun v => bucket_of size (Z.quot size 2) v = Some b) vs in
      fell <> [] /\ n = u32 (Z.of_nat (length fell)).
Proof.
  intros Hs Hvs Hn. unfold hs_initialize. destruct (Z.leb_spec size 0); [lia|].
  destruct (update_all_spec size vs [] (Histogram 0 dzero dzero dzero size (Z.quot size 2) ∅) Hs Hvs) as (h & E & [Es Eh Ec Est]); [by split|].
  eexists _, h. split; [reflexivity|]. split; [exact E|]. cbn [app] in *. split_and!.
  - unfold hs_getCount. rewrite Ec, wrapu_small by lia. done.
  - apply StronglySorted_merge_sort; apply _.
  - unfold hs_write. rewrite merge_sort_Permutation. apply NoDup_fst_map_to_list.
  - intros v b Hv. rewrite Forall_forall in Hvs. destruct (bucket_nearest size v Hs (Hvs v Hv)) as (b' & -> & Hb').
    split; [by intros [= <-]|]. intros Hb. f_equal. by apply (nearest_unique size v); [lia|..].
  - intros b n. unfold hs_write. rewrite merge_sort_Permutation, elem_of_map_to_list, Est. unfold in_bucket.
    destruct (filter _ vs) as [|v fell]; cbn [length]; [split; [done|by intros []]|]. split; [intros [= <-]; done|]. by intros (_ & ->).
Qed.

(** ** MoonSniff *)

(** A packet seen before and behind the device under test. *)
Inductive sight := Before (id ts : Z) | Behind (id ts : Z).

Definition sight_ok (x : sight) : Prop :=
  match x with Before id ts | Behind id ts => 0 <= id < 2 ^ 32 /\ 0 <= ts < 2 ^ 64 end.

Definition slot (id : Z) : Z := id mod 2 ^ 24.

(** What is waiting in a slot after the packets [past], the latest first: the packet seen
    before the device last, unless one of the slot was seen behind it since. *)
Fixpoint waiting (past : list sight) (i : Z) : option (Z * Z) :=
  match past with
  | [] => None
  | Before id ts :: past => if slot id =? i then Some (id, ts) else waiting past i
  | Behind id ts :: past => if slot id =? i then None else waiting past i
  end.

(** The latencies measured: a packet seen behind the device counts when the same identifier
    is waiting in its slot, with a time that is not zero. *)
Fixpoint latencies (past : list sight) : list Z :=
  match past with
  | [] => []
  | Before _ _ :: past => latencies past
  | Behind id ts :: past =>
    match waiting past (slot id) with
    | Some (id', ts') => if (id' =? id) && negb (ts' =? 0) then latencies past ++ [i64 (u64 (ts - ts'))] else latencies past
    | None => latencies past
    end
  end.

Definition is_behind (x : sight) : bool := match x with Behind _ _ => true | _ => false end.

Definition see (x : sight) : M sniff unit :=
  match x with Before id ts => ms_add_entry id ts | Behind id ts => ms_test_for id ts end.

Fixpoint see_all (xs : list sight) : M sniff unit :=
  match xs with [] => mret tt | x :: xs => see x ;; see_all xs end.

(** Welford's algorithm over a list, after [n] values with mean and squares [p]. *)
Fixpoint average_from (n : Z) (p : double * double) (ls : list Z) : double * double :=
  match ls with [] => p | l :: ls => average_from (n + 1) (welford (n + 1) l p.1 p.2) ls end.

Definition average (ls : list Z) : double * double := average_from 0 (dzero, dzero) ls.

Lemma average_from_snoc ls l : forall n p,
  average_from n p (ls ++ [l]) = let p' := average_from n p ls in welford (n + Z.of_nat (length ls) + 1) l p'.1 p'.2.
Proof.
  induction ls as [|x ls IH]; intros n p; cbn [average_from app length].
  - by rewrite Z.add_0_r.
  - rewrite IH. cbv zeta. f_equal. lia.
Qed.

Lemma average_const d ls :
  Forall (fun l => l = d) ls -> ls <> [] -> Z.of_nat (length ls) < 2 ^ 53 -> Z.abs d < 2 ^ 53 ->
  dexact (average ls).1 d /\ dexact (average ls).2 0.
Proof.
  induction ls as [|l ls IH] using rev_ind; [done|]. intros Hall _ Hlen Hd. apply Forall_app in Hall as [Hall Hl].
  apply Forall_cons in Hl as [-> _]. unfold average. rewrite average_from_snoc. cbv zeta. rewrite length_app in Hlen. cbn in Hlen.
  destruct ls as [|x ls]; [apply welford_const; cbn; [lia|done|by right|done]|].
  destruct (IH Hall ltac:(done) ltac:(lia) Hd) as [H1 H2]. apply welford_const; [lia|done|by left|done].
Qed.

(** The state after the packets [past], the latest first. *)
Record sniff_inv (past : list sight) (s : sniff) : Prop := {
  si_slot i : entry_at s i = match waiting past i with Some (id, ts) => Entry ts id | None => Entry 0 0 end;
  si_count : s_count s = u64 (Z.of_nat (length (latencies past)));
  si_hits : hits (stats s) = u32 (Z.of_nat (length (latencies past)));
  si_misses : misses (stats s) = u32 (Z.of_nat (length (filter is_behind past)) - Z.of_nat (length (latencies past)));
  si_mean : (s_mean s, s_m2 s) = average (latencies past);
  si_variance : s_variance s = dzero;
  si_inval : inval_ts (stats s) = 0
}.

Lemma index_slot id : Z.land id INDEX_MASK = slot id.
Proof. apply (Z.land_ones id 24). lia. Qed.

Lemma entry_at_insert s i e j f1 f2 f3 f4 f5 f6 :
  entry_at (Sniff f1 f2 f3 f4 f5 f6 (<[i := e]> (hit_list s))) j = if i =? j then e else entry_at s j.
Proof.
  unfold entry_at. cbn [hit_list]. destruct (Z.eqb_spec i j) as [->|]; [by rewrite lookup_insert_eq|by rewrite lookup_insert_ne].
Qed.

(** A packet behind the device that is not matched. *)
Lemma miss_spec past id ts s :
  sniff_inv past s -> latencies (Behind id ts :: past) = latencies past ->
  sniff_inv (Behind id ts :: past)
    (Sniff (thresh s) (s_count s) (s_m2 s) (s_mean s) (s_variance s)
       (MsStats (average_latency (stats s)) (variance_latency (stats s)) (hits (stats s)) (u32 (misses (stats s) + 1)) (inval_ts (stats s)))
       (<[slot id := Entry 0 0]> (hit_list s))).
Proof.
  intros [Hslot Hc Hh Hm Hmean Hv Hz] El. split; rewrite ?El; cbn [s_count stats hits misses inval_ts s_mean s_m2 s_variance]; try done.
  - intros i. rewrite entry_at_insert. cbn [waiting]. by destruct (slot id =? i).
  - rewrite Hm, wrapu_add_l, filter_cons_True by done. f_equal. cbn [length]. lia.
Qed.

(** One that is, with its latency. *)
Lemma hit_spec past id ts l s mean m2 :
  sniff_inv past s -> latencies (Behind id ts :: past) = latencies past ++ [l] -> Z.of_nat (length (latencies past)) + 1 < 2 ^ 64 ->
  welford (u64 (s_count s + 1)) l (s_mean s) (s_m2 s) = (mean, m2) ->
  sniff_inv (Behind id ts :: past)
    (Sniff (thresh s) (u64 (s_count s + 1)) m2 mean (s_variance s)
       (MsStats (average_latency (stats s)) (variance_latency (stats s)) (u32 (hits (stats s) + 1)) (misses (stats s)) (inval_ts (stats s)))
       (<[slot id := Entry 0 0]> (hit_list s))).
Proof.
  intros [Hslot Hc Hh Hm Hmean Hv Hz] El Hlen Ew. rewrite Hc, wrapu_add_l in *. rewrite (wrapu_small 64) in * by lia.
  split; rewrite ?El, ?length_app; cbn [s_count stats hits misses inval_ts s_mean s_m2 s_variance length]; try done.
  - intros i. rewrite entry_at_insert. cbn [waiting]. by destruct (slot id =? i).
  - rewrite wrapu_small by lia. lia.
  - rewrite Hh, wrapu_add_l. f_equal. lia.
  - rewrite Hm, filter_cons_True by done. f_equal. cbn [length]. lia.
  - unfold average in *. rewrite average_from_snoc, <- Hmean. cbv zeta. cbn [fst snd]. by rewrite Z.add_0_l, Ew.
Qed.

Lemma see_spec past x s :
  sniff_inv past s -> Z.of_nat (length (latencies past)) + 1 < 2 ^ 64 -> exists s', see x s = Ret (tt, s') /\ sniff_inv (x :: past) s'.
Proof.
  intros Hi Hlen. destruct x as [id ts|id ts]; cbn [see].
  - destruct Hi as [Hslot Hc Hh Hm Hmean Hv Hz]. eexists. split; [reflexivity|].
    split; cbn [s_count stats s_mean s_m2 s_variance latencies]; try done.
    intros i. rewrite entry_at_insert, index_slot. cbn [waiting]. by destruct (slot id =? i).
  - unfold ms_test_for, modify. rewrite index_slot, (si_slot _ _ Hi).
    destruct (waiting past (slot id)) as [[id' ts']|] eqn:Ew; cbn [identifier timestamp].
    + assert (latencies (Behind id ts :: past) =
        if (id' =? id) && negb (ts' =? 0) then latencies past ++ [i64 (u64 (ts - ts'))] else latencies past) as El by (cbn; by rewrite Ew).
      destruct (id' =? id) eqn:E1; cbn [andb negb Z.eqb] in *; [|eexists; split; [reflexivity|by apply miss_spec]].
      destruct (ts' =? 0) eqn:E2; cbn [negb] in *; [eexists; split; [reflexivity|by apply miss_spec]|].
      destruct (welford _ _ _ _) as [mean m2] eqn:E3. eexists. split; [reflexivity|]. by eapply hit_spec.
    + assert ((if 0 =? id then 0 else 0) = 0) as -> by (by destruct (0 =? id)). cbn [Z.eqb negb].
      eexists. split; [reflexivity|]. apply miss_spec; [done|]. cbn. by rewrite Ew.
Qed.

Lemma length_latencies past : (length (latencies past) <= length past)%nat.
Proof.
  induction past as [|[id ts|id ts] past IH]; cbn [latencies length]; [done|lia|].
  destruct (waiting past (slot id)) as [[id' ts']|]; [|lia]. destruct (_ && _); [rewrite length_app; cbn|]; lia.
Qed.

Lemma latencies_behind past : (length (latencies past) <= length (filter is_behind past))%nat.
Proof.
  induction past as [|[id ts|id ts] past IH]; cbn [latencies]; [done|by rewrite filter_cons_False by (cbn; tauto)|].
  rewrite filter_cons_True by done. cbn [length]. destruct (waiting past (slot id)) as [[id' ts']|]; [|lia].
  destruct (_ && _); [rewrite length_app; cbn|]; lia.
Qed.

Lemma see_all_spec xs : forall past s,
  sniff_inv past s -> Z.of_nat (length past + length xs) < 2 ^ 64 -> exists s', see_all xs s = Ret (tt, s') /\ sniff_inv (reverse xs ++ past) s'.
Proof.
  induction xs as [|x xs IH]; intros past s Hi Hlen; cbn [see_all]; [by exists s|]. cbn [length] in Hlen.
  pose proof (length_latencies past). destruct (see_spec past x s Hi ltac:(lia)) as (s1 & E1 & Hi1).
  destruct (IH (x :: past) s1 Hi1 ltac:(cbn; lia)) as (s2 & E2 & Hi2). exists s2. unfold mbind, M_bind. rewrite E1.
  split; [done|]. by rewrite reverse_cons, <- app_assoc.
Qed.


(** ** Examples *)

Lemma histogram_correct_witness :
  exists h0 h, hs_initialize 10 = Some h0 /\ update_all [3; 5; 14; 15; -5; -4; 24] h0 = Ret ([true; true; true; true; false; false; true], h) /\
    hs_getCount h = 7.
Proof.
  destruct (histogram_correct 10 [3; 5; 14; 15; -5; -4; 24]) as (h0 & h & E0 & E & Hc & _).
  - lia.
  - repeat (constructor; [lia|]). constructor.
  - cbn. lia.
  - exists h0, h. split_and!; [exact E0|exact E|exact Hc].
Defined.

(** With an even size, nine values belong to the bucket of zero and ten to the others. *)
Example histogram_lines :
  match hs_initialize 10 with
  | Some h => match update_all [3; 5; 14; 15; -5; -4; 24] h with
              | Ret (_, h) => hs_write h = [(-10, 1); (0, 2); (10, 2); (20, 2)]
              | _ => False
              end
  | None => False
  end.
Proof. vm_compute. reflexivity. Qed.

(** Three packets; the third takes the slot of the second, and both are then missed. *)
Definition sniff_demo : list sight :=
  [Before 7 100; Before 8 110; Behind 7 130; Before (8 + 2 ^ 24) 120; Behind 8 140; Behind (8 + 2 ^ 24) 150].


(** A latency below the threshold is part of the average. *)
Example sniff_threshold :
  match (ms_set_thresh 50 ;; see_all [Before 7 100; Behind 7 130] ;; ms_fetch_stats) sniff_init with
  | Ret (st, _) => st = MsStats 30 0 1 0 0
  | _ => False
  end.
Proof. vm_compute. reflexivity. Qed.
