(* ===== verification/Lifecycle.v ===== *)
(** libmoon/src/lifecycle.cpp: when the tasks of the program are told to stop. The
    time-stamp counter is an argument of each function, [hz] its frequency. *)
From Stdlib Require Import ZArith Lia.
From stdpp Require Import base numbers.
From S2P Require Import Prelude.

#[local] Open Scope Z_scope.

Record lifecycle := Lifecycle { stop_at : Z; signal_at : Z }.

(** Both are -1 when the program starts. *)
Definition never : Z := u64 (-1).
Definition lifecycle_init : lifecycle := Lifecycle never never.

(** The signal handler; [None] when the process aborts. *)
Definition handler (now : Z) (s : lifecycle) : option lifecycle :=
  if negb (signal_at s =? never) then None else Some (Lifecycle (stop_at s) now).

Definition is_running (hz extra_time now : Z) (s : lifecycle) : bool :=
  let extra_time_cycles := u64 (extra_time * hz) / 1000 in
  let time := u64 (now - extra_time_cycles) in
  (time <? signal_at s) && (time <? stop_at s).

Definition set_runtime (hz run_time now : Z) (s : lifecycle) : lifecycle :=
  Lifecycle (u64 (now + u64 (run_time * hz) / 1000)) (signal_at s).

(** After a run time of [ms] milliseconds was set at [t0], and with a signal at [t1] if there
    is one, the tasks run until the earlier of the two plus the extra time they ask for,
    and once they are told to stop they are told so for ever, as long as the counter
    grows and neither it nor the times overflow. *)
Theorem is_running_correct (hz ms t0 extra : Z) (signal : option Z) (s : lifecycle) (now : Z) :
  0 < hz < 2 ^ 32 -> 0 <= ms < 2 ^ 31 -> 0 <= extra < 2 ^ 31 -> 0 <= t0 < 2 ^ 62 -> extra * hz / 1000 <= now < 2 ^ 63 ->
  match signal with
  | None => s = set_runtime hz ms t0 lifecycle_init
  | Some t1 => 0 <= t1 < never /\ handler t1 (set_runtime hz ms t0 lifecycle_init) = Some s
  end ->
  let end_at := match signal with None => t0 + ms * hz / 1000 | Some t1 => Z.min t1 (t0 + ms * hz / 1000) end in
  is_running hz extra now s = (now <? end_at + extra * hz / 1000) /\
  forall later, now <= later < 2 ^ 63 -> is_running hz extra now s = false -> is_running hz extra later s = false.
Proof.
  intros Hhz Hms Hex Ht0 Hnow Hs end_at.
  assert (0 <= ms * hz < 2 ^ 63 /\ 0 <= extra * hz < 2 ^ 63) as [Hm He] by nia.
  assert (0 <= ms * hz / 1000 < 2 ^ 61) as Hm2 by (Z.div_mod_to_equations; lia).
  assert (never = 2 ^ 64 - 1) as Hnv by reflexivity.
  assert (forall t, extra * hz / 1000 <= t < 2 ^ 63 -> is_running hz extra t s = (t <? end_at + extra * hz / 1000)) as Hrun.
  { intros t Ht. unfold is_running. rewrite (wrapu_small 64 (extra * hz)), (wrapu_small 64 (t - _)) by (Z.div_mod_to_equations; lia).
    assert (stop_at s = t0 + ms * hz / 1000 /\ signal_at s = match signal with None => never | Some t1 => t1 end) as [-> ->].
    { destruct signal as [t1|]; [destruct Hs as [_ Hs]; injection Hs as <-|subst s]; cbn [set_runtime stop_at signal_at lifecycle_init];
        by rewrite (wrapu_small 64 (ms * hz)), (wrapu_small 64 (t0 + _)) by lia. }
    unfold end_at. destruct signal as [t1|]; [destruct Hs as [Hs _]|];
    repeat match goal with |- context [?a <? ?b] => destruct (Z.ltb_spec a b) end; cbn [andb]; lia. }
  split; [by apply Hrun|]. intros later Hl. rewrite !Hrun by lia. intros E. apply Z.ltb_ge in E. apply Z.ltb_ge. lia.
Qed.

Lemma is_running_correct_witness :
  is_running 1000000000 0 2500000 (set_runtime 1000000000 2 1000000 lifecycle_init) = true /\
  forall later, 2500000 <= later < 2 ^ 63 ->
    is_running 1000000000 0 2500000 (set_runtime 1000000000 2 1000000 lifecycle_init) = false ->
    is_running 1000000000 0 later (set_runtime 1000000000 2 1000000 lifecycle_init) = false.
Proof.
  apply (is_running_correct 1000000000 2 1000000 0 None); [lia|lia|lia|lia|by vm_compute|reflexivity].
Defined.
