(* ===== verification/Barrier.v ===== *)
(** libmoon/src/barrier.cpp: tasks that wait for each other with a mutex and a condition
    variable. Each function runs under the mutex, so that a step is a call of
    [barrier_wait] up to its return or its wait, or a waiting task that has the mutex
    again and looks at the predicate. *)
From Stdlib Require Import ZArith Lia.
From stdpp Require Import base numbers list relations.
From S2P Require Import Prelude.

#[local] Open Scope Z_scope.

(** A task has not called [barrier_wait], waits on the condition (and may have been
    notified since), or has returned. *)
Inductive task := Outside | Waiting (notified : bool) | Through.

Record barrier := Barrier { b_n : Z; b_tasks : list task }.

Definition make_barrier (n : Z) (tasks : nat) : barrier := Barrier n (replicate tasks Outside).

Definition notify (t : task) : task := match t with Waiting _ => Waiting true | t => t end.

(** [notify_all] of the condition variable. *)
Definition notify_all (s : barrier) : barrier := Barrier (b_n s) (notify <$> b_tasks s).

Definition set_task (i : nat) (t : task) (s : barrier) : barrier := Barrier (b_n s) (<[i := t]> (b_tasks s)).

(** Task [i] calls [barrier_wait]; [n] is a size_t. *)
Definition barrier_wait (i : nat) (s : barrier) : barrier :=
  let s := Barrier (u64 (b_n s - 1)) (b_tasks s) in
  if b_n s =? 0 then set_task i Through (notify_all s) else set_task i (Waiting false) s.

(** The waiting task [i] looks at the predicate. *)
Definition resume (i : nat) (s : barrier) : barrier :=
  if b_n s =? 0 then set_task i Through s else set_task i (Waiting false) s.

Definition barrier_reinit (n : Z) (s : barrier) : barrier := Barrier n (b_tasks s).

(** A waiting task looks at the predicate when it was notified, or without a reason. *)
Inductive resume_step (s : barrier) : barrier -> Prop :=
| rs_resume i b : b_tasks s !! i = Some (Waiting b) -> resume_step s (resume i s).

Inductive step (s : barrier) : barrier -> Prop :=
| st_wait i : b_tasks s !! i = Some Outside -> step s (barrier_wait i s)
| st_resume s' : resume_step s s' -> step s s'.

(** ** Correctness *)

#[global] Instance task_eq_dec : EqDecision task.
Proof. solve_decision. Defined.

(** The tasks that have not come. *)
Abbreviation to_come l := (length (filter (fun t => t = Outside) l)).

(** A barrier for its tasks: [n] is the number of those to come; nobody is through before
    the last, and then all that wait have been notified. *)
Record barrier_inv (k : nat) (s : barrier) : Prop := {
  bi_len : length (b_tasks s) = k;
  bi_n : b_n s = Z.of_nat (to_come (b_tasks s));
  bi_early i : b_n s <> 0 -> b_tasks s !! i <> Some Through;
  bi_notified i b : b_n s = 0 -> b_tasks s !! i = Some (Waiting b) -> b = true
}.

Lemma to_come_insert l i t t' :
  l !! i = Some t ->
  (to_come (<[i := t']> l) + (if decide (t = Outside) then 1 else 0) = to_come l + (if decide (t' = Outside) then 1 else 0))%nat.
Proof.
  intros Hi. rewrite insert_take_drop by (by eapply lookup_lt_Some). rewrite <- (take_drop_middle l i t Hi) at 3.
  rewrite !filter_app, !filter_cons, !length_app. destruct (decide (t = Outside)), (decide (t' = Outside)); cbn [length]; lia.
Qed.

Lemma to_come_notify l : to_come (notify <$> l) = to_come l.
Proof.
  induction l as [|t l IH]; [done|]. rewrite fmap_cons, !filter_cons. destruct t; cbn [notify]; 
    repeat (destruct (decide _); try done); cbn [length]; by rewrite ?IH.
Qed.

Lemma to_come_pos l i : l !! i = Some Outside -> (0 < to_come l)%nat.
Proof. intros Hi. pose proof (to_come_insert l i Outside Through Hi) as E. destruct (decide (Outside = Outside)); [|done]. destruct (decide (Through = Outside)); [done|]. lia. Qed.

Lemma to_come_le l : (to_come l <= length l)%nat.
Proof. apply length_filter. Qed.

Lemma wait_inv k s i : Z.of_nat k < 2 ^ 64 -> barrier_inv k s -> b_tasks s !! i = Some Outside -> barrier_inv k (barrier_wait i s).
Proof.
  intros Hk [Hl Hn He Hnot] Hi. pose proof (to_come_pos _ _ Hi) as Hpos. pose proof (to_come_le (b_tasks s)) as Hle.
  unfold barrier_wait. cbn [b_n b_tasks]. rewrite wrapu_small by lia.
  pose proof (lookup_lt_Some _ _ _ Hi) as Hil.
  destruct (Z.eqb_spec (b_n s - 1) 0) as [E|E]; split; cbn [b_n b_tasks set_task notify_all]; rewrite ?length_insert, ?length_fmap; try done; try lia.
  - assert ((notify <$> b_tasks s) !! i = Some Outside) as Hi' by (by rewrite list_lookup_fmap, Hi).
    pose proof (to_come_insert _ i Outside Through Hi') as Et. rewrite to_come_notify in Et.
    destruct (decide (Outside = Outside)); [|done]. destruct (decide (Through = Outside)); [done|]. lia.
  - intros j b _ Hj. destruct (decide (i = j)) as [->|Hne].
    + rewrite list_lookup_insert_eq in Hj by (by rewrite length_fmap). done.
    + rewrite list_lookup_insert_ne, list_lookup_fmap in Hj by done. destruct (b_tasks s !! j) as [[| |]|]; by inversion Hj.
  - pose proof (to_come_insert _ i Outside (Waiting false) Hi) as Et.
    destruct (decide (Outside = Outside)); [|done]. destruct (decide (Waiting false = Outside)); [done|]. lia.
  - intros j _ Hj. destruct (decide (i = j)) as [->|Hne]; [by rewrite list_lookup_insert_eq in Hj|].
    rewrite list_lookup_insert_ne in Hj by done. apply (He j); [lia|done].
Qed.

Lemma resume_inv k s i b : barrier_inv k s -> b_tasks s !! i = Some (Waiting b) -> barrier_inv k (resume i s).
Proof.
  intros [Hl Hn He Hnot] Hi. pose proof (lookup_lt_Some _ _ _ Hi) as Hil. unfold resume.
  assert (forall t, t <> Outside -> to_come (<[i := t]> (b_tasks s)) = to_come (b_tasks s)) as Ht.
  { intros t Ht. pose proof (to_come_insert _ i _ t Hi) as Et. destruct (decide (Waiting b = Outside)); [done|]. destruct (decide (t = Outside)); [done|]. lia. }
  destruct (Z.eqb_spec (b_n s) 0) as [E|E]; split; cbn [b_n b_tasks set_task]; rewrite ?length_insert; rewrite ?Ht by done; try done.
  - intros j b' _ Hj. destruct (decide (i = j)) as [->|Hne]; [by rewrite list_lookup_insert_eq in Hj|].
    rewrite list_lookup_insert_ne in Hj by done. by apply (Hnot j).
  - intros j _ Hj. destruct (decide (i = j)) as [->|Hne]; [by rewrite list_lookup_insert_eq in Hj|].
    rewrite list_lookup_insert_ne in Hj by done. by apply (He j).
Qed.

Lemma step_inv k s s' : Z.of_nat k < 2 ^ 64 -> barrier_inv k s -> step s s' -> barrier_inv k s'.
Proof. intros Hk Hi [i Hw|? [i b Hw]]; [by apply wait_inv|by eapply resume_inv]. Qed.

Lemma make_inv k : barrier_inv k (make_barrier (Z.of_nat k) k).
Proof.
  split; cbn [make_barrier b_n b_tasks].
  - by rewrite length_replicate.
  - f_equal. induction k as [|k IH]; [done|]. cbn [replicate]. rewrite filter_cons. destruct (decide (Outside = Outside)); [|done]. cbn [length]. by rewrite <- IH.
  - intros i _ Hi. by apply lookup_replicate in Hi as [? _].
  - intros i b _ Hi. by apply lookup_replicate in Hi as [? _].
Qed.

Lemma reach_inv k s : Z.of_nat k < 2 ^ 64 -> rtc step (make_barrier (Z.of_nat k) k) s -> barrier_inv k s.
Proof.
  intros Hk Hr. apply (rtc_ind_r (R := step) (fun s => barrier_inv k s) (make_barrier (Z.of_nat k) k)); [apply make_inv| |done].
  intros y z _ Hy Hi. by eapply step_inv.
Qed.

(** C36: A barrier for [k] tasks, in every order in which they arrive and are woken, with
    any number of spurious wake-ups: no task is through as long as one has not arrived;
    and once all have arrived every task that still waits has been notified, and is
    through the next time it runs. *)
Theorem barrier_correct (k : nat) (s : barrier) :
  Z.of_nat k < 2 ^ 64 -> rtc step (make_barrier (Z.of_nat k) k) s ->
  (forall i j, b_tasks s !! i = Some Through -> b_tasks s !! j <> Some Outside) /\
  ((forall j, b_tasks s !! j <> Some Outside) -> forall i b, b_tasks s !! i = Some (Waiting b) ->
     b = true /\ b_tasks (resume i s) !! i = Some Through).
Proof.
  intros Hk Hr. pose proof (reach_inv k s Hk Hr) as [Hl Hn He Hnot]. split.
  - intros i j Hi Hj. pose proof (to_come_pos _ _ Hj). apply (He i); [lia|done].
  - intros Hall i b Hi. assert (b_n s = 0) as E0.
    { rewrite Hn. destruct (filter _ (b_tasks s)) as [|t l] eqn:Ef; [done|].
      assert (t ∈ filter (fun t => t = Outside) (b_tasks s)) as Ht by (rewrite Ef; left).
      apply list_elem_of_filter in Ht as [-> Ht]. apply list_elem_of_lookup in Ht as [j Hj]. by destruct (Hall j). }
    split; [by apply (Hnot i)|]. unfold resume. rewrite E0. cbn [Z.eqb set_task b_tasks]. apply list_lookup_insert_eq. by eapply lookup_lt_Some.
Qed.

(** [barrier_reinit] called as soon as one [barrier_wait] has returned can strand the
    other tasks: if one still waits when the counter is set again, then it stays at the
    barrier however often it is woken, until as many tasks arrive anew. *)
Theorem barrier_reinit_strands (n : Z) (s s' : barrier) (i : nat) (b : bool) :
  n <> 0 -> b_tasks s !! i = Some (Waiting b) ->
  rtc resume_step (barrier_reinit n s) s' -> exists b', b_tasks s' !! i = Some (Waiting b').
Proof.
  intros Hn Hi Hr. enough (b_n s' = n /\ exists b', b_tasks s' !! i = Some (Waiting b')) as [_ ?] by done.
  apply (rtc_ind_r (R := resume_step) (fun s' => b_n s' = n /\ exists b', b_tasks s' !! i = Some (Waiting b')) (barrier_reinit n s)); [|clear s' Hr|done].
  - cbn. split; [done|]. by exists b.
  - intros y z _ Hz [Ey (b' & Hy)]. destruct Hz as [j bj Hj]. unfold resume. rewrite Ey. destruct (Z.eqb_spec n 0); [done|].
    cbn [set_task b_n b_tasks]. split; [done|]. destruct (decide (j = i)) as [->|Hne].
    + exists false. apply list_lookup_insert_eq. by eapply lookup_lt_Some.
    + exists b'. by rewrite list_lookup_insert_ne.
Qed.

(** ** Examples *)

(** Two of three tasks wait when the third arrives. *)
Definition barrier_demo : barrier := barrier_wait 2 (barrier_wait 0 (barrier_wait 1 (make_barrier 3 3))).

Lemma barrier_demo_reach : rtc step (make_barrier 3 3) barrier_demo.
Proof.
  eapply rtc_l; [by apply (st_wait _ 1)|]. eapply rtc_l; [by apply (st_wait _ 0)|]. eapply rtc_l; [by apply (st_wait _ 2)|]. apply rtc_refl.
Qed.

Lemma barrier_correct_witness :
  b_tasks (resume 0 barrier_demo) !! 0%nat = Some Through.
Proof.
  refine (proj2 (proj2 (barrier_correct 3 barrier_demo ltac:(lia) barrier_demo_reach) _ 0%nat true _)); [|reflexivity].
  intros [|[|[|j]]]; vm_compute; discriminate.
Defined.

(** The third task is through; it sets the barrier again before the others have run. *)
Lemma barrier_reinit_strands_witness :
  rtc step (make_barrier 3 3) barrier_demo /\ b_tasks barrier_demo !! 2%nat = Some Through /\
  exists b, b_tasks (resume 1 (resume 0 (barrier_reinit 3 barrier_demo))) !! 0%nat = Some (Waiting b).
Proof.
  split_and!; [apply barrier_demo_reach|reflexivity|].
  apply (barrier_reinit_strands 3 barrier_demo _ 0 true); [lia|reflexivity|].
  eapply rtc_l; [by apply (rs_resume _ 0 true)|]. eapply rtc_l; [by apply (rs_resume _ 1 true)|]. apply rtc_refl.
Defined.
