(* ===== verification/Malloc.v ===== *)
(** librte_eal/common/malloc_elem.c, malloc_heap.c and rte_malloc.c: the allocator on
    huge pages under every memory zone, ring, pool and port of DPDK.

    The state is the shared memory configuration: the headers of elements by address,
    the bytes around them, the heaps with their free lists and the memory segments.
    The headers are cache-aligned and as long as a cache line; the build has
    RTE_LIBRTE_MALLOC_DEBUG off, so there is no trailer and no cookie. *)
From Stdlib Require Import ZArith Lia.
From stdpp Require Import base numbers list gmap.
From S2P Require Import Prelude Ring.

#[local] Open Scope Z_scope.

(** ** Data *)

Definition RTE_MAX_NUMA_NODES : Z := 8.
Definition RTE_MAX_MEMSEG : Z := 256.
Definition RTE_HEAP_NUM_FREELISTS : Z := 13.
Definition MALLOC_ELEM_HEADER_LEN : Z := 64.
Definition MALLOC_ELEM_TRAILER_LEN : Z := 0.
Definition MALLOC_ELEM_OVERHEAD : Z := MALLOC_ELEM_HEADER_LEN + MALLOC_ELEM_TRAILER_LEN.
Definition MIN_DATA_SIZE : Z := RTE_CACHE_LINE_SIZE.
Definition SOCKET_ID_ANY : Z := -1.
Definition BAD_PHYS_ADDR : Z := 2 ^ 64 - 1.

Inductive elem_state := ELEM_FREE | ELEM_BUSY | ELEM_PAD.

#[global] Instance elem_state_eq_dec : EqDecision elem_state.
Proof. solve_decision. Defined.

(** [struct malloc_elem]: the heap and the segment are pointers into the arrays of the
    configuration; the links of the free list are the lists of the heap. *)
Record malloc_elem := Elem {
  e_heap : option nat; e_prev : option Z; e_ms : option nat;
  e_state : elem_state; e_pad : Z; e_size : Z
}.

Record malloc_heap := Heap { free_head : list (list Z); alloc_count : Z; total_size : Z }.

Record rte_memseg := Memseg {
  ms_phys_addr : Z; ms_addr : Z; ms_len : Z; ms_hugepage_sz : Z; ms_socket_id : Z
}.

(** A memory zone; [mz_addr] is [None] for the null pointer. *)
Record rte_memzone := Memzone {
  mz_name : list Z; mz_phys_addr : Z; mz_addr : option Z; mz_len : Z;
  mz_hugepage_sz : Z; mz_socket_id : Z; mz_flags : Z; mz_memseg_id : Z
}.

(** A byte of memory: [Unknown] for a byte of a header read as data. *)
Inductive mval := Known (v : Z) | Unknown.

(** [struct rte_mem_config]. [bytes] are the bytes outside of headers that are not
    zero. *)
Record mem_config := MC {
  elems : gmap Z malloc_elem; bytes : gmap Z mval;
  heaps : list malloc_heap; memseg : list rte_memseg;
  memzone_cnt : Z; memzone : list rte_memzone
}.

Definition set_elems (f : gmap Z malloc_elem -> gmap Z malloc_elem) (s : mem_config) : mem_config :=
  MC (f (elems s)) (bytes s) (heaps s) (memseg s) (memzone_cnt s) (memzone s).
Definition set_bytes (f : gmap Z mval -> gmap Z mval) (s : mem_config) : mem_config :=
  MC (elems s) (f (bytes s)) (heaps s) (memseg s) (memzone_cnt s) (memzone s).
Definition set_heaps (f : list malloc_heap -> list malloc_heap) (s : mem_config) : mem_config :=
  MC (elems s) (bytes s) (f (heaps s)) (memseg s) (memzone_cnt s) (memzone s).
Definition set_zones (n : Z) (l : list rte_memzone) (s : mem_config) : mem_config :=
  MC (elems s) (bytes s) (heaps s) (memseg s) n l.

(** ** Memory *)

(** The range lies in one segment. *)
Definition mapped (s : mem_config) (a n : Z) : bool :=
  existsb (fun ms => (ms_addr ms <=? a) && (a + n <=? ms_addr ms + ms_len ms)) (memseg s).

Definition line_of (x : Z) : Z := x - x mod RTE_CACHE_LINE_SIZE.

(** A header can be accessed at [a]. *)
Definition elem_ok (s : mem_config) (a : Z) : bool :=
  (a mod RTE_CACHE_LINE_SIZE =? 0) && mapped s a MALLOC_ELEM_HEADER_LEN.

Definition zero_elem : malloc_elem := Elem None None None ELEM_FREE 0 0.

Definition line_clear (s : mem_config) (a : Z) : bool :=
  forallb (fun x => bool_decide (bytes s !! x = None)) (seqZ a RTE_CACHE_LINE_SIZE).

(** Memory that is all zero reads as a header of zeroes. *)
Definition get_elem (a : Z) : M mem_config malloc_elem :=
  s ← gets id;
  if negb (elem_ok s a) then fault
  else match elems s !! a with
       | Some e => mret e
       | None => if line_clear s a then mret zero_elem else fault
       end.

Definition out_of (a n x : Z) : bool := negb ((a <=? x) && (x <? a + n)).

Definition put_elem (a : Z) (e : malloc_elem) : M mem_config unit :=
  s ← gets id;
  if negb (elem_ok s a) then fault
  else modify (fun s => set_elems <[a := e]>
                 (set_bytes (filter (fun kv => out_of a MALLOC_ELEM_HEADER_LEN kv.1 = true)) s)).

Definition upd_elem (a : Z) (f : malloc_elem -> malloc_elem) : M mem_config unit :=
  e ← get_elem a; put_elem a (f e).

Definition with_prev (p : option Z) (e : malloc_elem) : malloc_elem :=
  Elem (e_heap e) p (e_ms e) (e_state e) (e_pad e) (e_size e).
Definition with_state (st : elem_state) (e : malloc_elem) : malloc_elem :=
  Elem (e_heap e) (e_prev e) (e_ms e) st (e_pad e) (e_size e).
Definition with_pad (p : Z) (e : malloc_elem) : malloc_elem :=
  Elem (e_heap e) (e_prev e) (e_ms e) (e_state e) p (e_size e).
Definition with_size (n : Z) (e : malloc_elem) : malloc_elem :=
  Elem (e_heap e) (e_prev e) (e_ms e) (e_state e) (e_pad e) n.

(** memset to zero of whole cache lines. *)
Definition memset_zero (ptr n : Z) : M mem_config unit :=
  s ← gets id;
  if negb ((ptr mod RTE_CACHE_LINE_SIZE =? 0) && (n mod RTE_CACHE_LINE_SIZE =? 0) && mapped s ptr n) then fault
  else modify (fun s => set_elems (filter (fun kv => out_of ptr n kv.1 = true))
                 (set_bytes (filter (fun kv => out_of ptr n kv.1 = true)) s)).

Definition read_byte (s : mem_config) (x : Z) : mval :=
  match bytes s !! x with
  | Some v => v
  | None => match elems s !! line_of x with Some _ => Unknown | None => Known 0 end
  end.

(** A byte stored over a header leaves the rest of it behind as data. *)
Definition write_byte (x : Z) (v : mval) (s : mem_config) : mem_config :=
  let s :=
    match elems s !! line_of x with
    | Some _ => set_elems (delete (line_of x))
                  (set_bytes (fun m => foldr (fun y m => <[y := Unknown]> m) m
                                (seqZ (line_of x) RTE_CACHE_LINE_SIZE)) s)
    | None => s
    end in
  match v with
  | Known 0 => set_bytes (delete x) s
  | _ => set_bytes <[x := v]> s
  end.

Definition rte_memcpy (dst src n : Z) : M mem_config unit :=
  s ← gets id;
  if negb (mapped s dst n && mapped s src n) then fault
  else modify (fun s => foldl (fun s' i => write_byte (dst + i) (read_byte s (src + i)) s') s (seqZ 0 n)).

(** ** Elements *)

Definition malloc_elem_init (elem : Z) (heap : option nat) (ms : option nat) (size : Z) : M mem_config unit :=
  put_elem elem (Elem heap None ms ELEM_FREE 0 size).

Definition malloc_elem_mkend (elem prev : Z) : M mem_config unit :=
  p ← get_elem prev;
  malloc_elem_init elem (e_heap p) (e_ms p) 0 ;;
  upd_elem elem (fun e => with_state ELEM_BUSY (with_prev (Some prev) e)).

(** Round down to a multiple of a power of two; [align - 1] is computed with [w] bits. *)
Definition RTE_ALIGN_FLOOR (w val align : Z) : Z := Z.land val (u64 (Z.lnot (wrapu w (align - 1)))).

Definition RTE_PTR_ALIGN_CEIL (ptr align : Z) : Z :=
  RTE_ALIGN_FLOOR 32 (u64 (ptr + u32 (align - 1))) align.

(** Where the header would be for data of the given size at the end of the element;
    [None] if it does not fit. *)
Definition elem_start_pt (elem esize size align bound : Z) : option Z :=
  let bmask := u64 (Z.lnot (u64 (bound - 1))) in
  let end_pt := u64 (elem + esize - MALLOC_ELEM_TRAILER_LEN) in
  let new_data_start := RTE_ALIGN_FLOOR 32 (u64 (end_pt - size)) align in
  let finish new_data_start :=
    let new_elem_start := u64 (new_data_start - MALLOC_ELEM_HEADER_LEN) in
    if new_elem_start <? elem then None else Some new_elem_start in
  if negb (Z.land new_data_start bmask =? Z.land (u64 (end_pt - 1)) bmask) then
    let end_pt := RTE_ALIGN_FLOOR 64 end_pt bound in
    let new_data_start := RTE_ALIGN_FLOOR 32 (u64 (end_pt - size)) align in
    if negb (Z.land (u64 (end_pt - 1)) bmask =? Z.land new_data_start bmask) then None
    else finish new_data_start
  else finish new_data_start.

Definition malloc_elem_can_hold (elem size align bound : Z) : M mem_config bool :=
  e ← get_elem elem;
  mret (match elem_start_pt elem (e_size e) size align bound with Some _ => true | None => false end).

Definition split_elem (elem split_pt : Z) : M mem_config unit :=
  e ← get_elem elem;
  let next_elem := u64 (elem + e_size e) in
  let old_elem_size := u64 (split_pt - elem) in
  let new_elem_size := u64 (e_size e - old_elem_size) in
  malloc_elem_init split_pt (e_heap e) (e_ms e) new_elem_size ;;
  upd_elem split_pt (with_prev (Some elem)) ;;
  upd_elem next_elem (with_prev (Some split_pt)) ;;
  upd_elem elem (with_size old_elem_size).

(** The number of bits of [size - 1] is the logarithm of the next power of two. *)
Definition malloc_elem_free_list_index (size : Z) : Z :=
  if size <=? 2 ^ 8 then 0
  else
    let log2 := Z.log2 (size - 1) + 1 in
    let index := (log2 - 8 + 2 - 1) / 2 in
    if index <=? RTE_HEAP_NUM_FREELISTS - 1 then index else RTE_HEAP_NUM_FREELISTS - 1.

Definition on_heap (h : option nat) (f : malloc_heap -> malloc_heap) : M mem_config unit :=
  s ← gets id;
  match h with
  | Some h => if (h <? length (heaps s))%nat then modify (set_heaps (alter f h)) else fault
  | None => fault
  end.

Definition set_free_head (f : list (list Z) -> list (list Z)) (h : malloc_heap) : malloc_heap :=
  Heap (f (free_head h)) (alloc_count h) (total_size h).

Definition malloc_elem_free_list_insert (elem : Z) : M mem_config unit :=
  e ← get_elem elem;
  let idx := malloc_elem_free_list_index (u64 (e_size e - MALLOC_ELEM_HEADER_LEN)) in
  upd_elem elem (with_state ELEM_FREE) ;;
  on_heap (e_heap e) (set_free_head (alter (fun l => elem :: l) (Z.to_nat idx))).

Definition in_free_list (s : mem_config) (elem : Z) : bool :=
  existsb (fun h => existsb (fun l => bool_decide (elem ∈ l)) (free_head h)) (heaps s).

(** LIST_REMOVE unlinks the element from the list it is in. *)
Definition elem_free_list_remove (elem : Z) : M mem_config unit :=
  s ← gets id;
  if negb (in_free_list s elem) then fault
  else modify (set_heaps (map (set_free_head (map (filter (fun a => a <> elem)))))).

Definition malloc_elem_alloc (elem size align bound : Z) : M mem_config Z :=
  e ← get_elem elem;
  let new_elem := default 0 (elem_start_pt elem (e_size e) size align bound) in
  let old_elem_size := u64 (new_elem - elem) in
  let trailer_size := u64 (e_size e - old_elem_size - size - MALLOC_ELEM_OVERHEAD) in
  elem_free_list_remove elem ;;
  (if MALLOC_ELEM_OVERHEAD + MIN_DATA_SIZE <? trailer_size then
     let new_free_elem := u64 (new_elem + size + MALLOC_ELEM_OVERHEAD) in
     split_elem elem new_free_elem ;; malloc_elem_free_list_insert new_free_elem
   else mret tt) ;;
  if old_elem_size <? MALLOC_ELEM_OVERHEAD + MIN_DATA_SIZE then
    upd_elem elem (fun e => with_pad (u32 old_elem_size) (with_state ELEM_BUSY e)) ;;
    e ← get_elem elem;
    (if 0 <? e_pad e then
       upd_elem new_elem (fun n => with_size (u64 (e_size e - e_pad e)) (with_state ELEM_PAD (with_pad (e_pad e) n)))
     else mret tt) ;;
    mret new_elem
  else
    split_elem elem new_elem ;;
    upd_elem new_elem (with_state ELEM_BUSY) ;;
    malloc_elem_free_list_insert elem ;;
    mret new_elem.

Definition join_elem (elem1 elem2 : Z) : M mem_config unit :=
  e2 ← get_elem elem2;
  let next := u64 (elem2 + e_size e2) in
  upd_elem elem1 (fun e => with_size (u64 (e_size e + e_size e2)) e) ;;
  upd_elem next (with_prev (Some elem1)).

Definition heap_count (f : Z -> Z) (h : malloc_heap) : malloc_heap :=
  Heap (free_head h) (u32 (f (alloc_count h))) (total_size h).

Definition malloc_elem_free (elem : option Z) : M mem_config Z :=
  match elem with
  | None => mret (-1)
  | Some elem =>
    e ← get_elem elem;
    if negb (bool_decide (e_state e = ELEM_BUSY)) then mret (-1)
    else
      let sz := u64 (e_size e - MALLOC_ELEM_HEADER_LEN) in
      let ptr := elem + MALLOC_ELEM_HEADER_LEN in
      let next := u64 (elem + e_size e) in
      n ← get_elem next;
      sz ← (if bool_decide (e_state n = ELEM_FREE)
            then elem_free_list_remove next ;; join_elem elem next ;; mret (u64 (sz + MALLOC_ELEM_HEADER_LEN))
            else mret sz);
      e ← get_elem elem;
      prev_free ← (match e_prev e with
                   | None => mret None
                   | Some prev => p ← get_elem prev;
                                  mret (if bool_decide (e_state p = ELEM_FREE) then Some prev else None)
                   end);
      '(elem, ptr, sz) ←
        (match prev_free with
         | Some prev =>
           elem_free_list_remove prev ;; join_elem prev elem ;;
           mret (prev, ptr - MALLOC_ELEM_HEADER_LEN, u64 (sz + MALLOC_ELEM_HEADER_LEN))
         | None => mret (elem, ptr, sz)
         end);
      malloc_elem_free_list_insert elem ;;
      e ← get_elem elem;
      on_heap (e_heap e) (heap_count (fun c => c - 1)) ;;
      memset_zero ptr sz ;;
      mret 0
  end.

Definition malloc_elem_resize (elem size : Z) : M mem_config Z :=
  e ← get_elem elem;
  let new_size := u64 (size + e_pad e + MALLOC_ELEM_OVERHEAD) in
  if new_size <=? e_size e then mret 0
  else
    let next := u64 (elem + e_size e) in
    n ← get_elem next;
    if negb (bool_decide (e_state n = ELEM_FREE)) then mret (-1)
    else if u64 (e_size e + e_size n) <? new_size then mret (-1)
    else
      elem_free_list_remove next ;;
      join_elem elem next ;;
      e ← get_elem elem;
      (if MIN_DATA_SIZE + MALLOC_ELEM_OVERHEAD <=? u64 (e_size e - new_size) then
         let split_pt := RTE_PTR_ALIGN_CEIL (u64 (elem + new_size)) RTE_CACHE_LINE_SIZE in
         split_elem elem split_pt ;; malloc_elem_free_list_insert split_pt
       else mret tt) ;;
      mret 0.

(** The element of a block of data; a dummy header leads to the real one. *)
Definition malloc_elem_from_data (data : option Z) : M mem_config (option Z) :=
  match data with
  | None => mret None
  | Some data =>
    let elem := u64 (data - MALLOC_ELEM_HEADER_LEN) in
    e ← get_elem elem;
    mret (Some (if bool_decide (e_state e = ELEM_PAD) then u64 (elem - e_pad e) else elem))
  end.

(** ** Heaps *)

Definition RTE_MEMZONE_2MB : Z := 0x1.
Definition RTE_MEMZONE_1GB : Z := 0x2.
Definition RTE_MEMZONE_SIZE_HINT_ONLY : Z := 0x4.
Definition RTE_MEMZONE_16MB : Z := 0x100.
Definition RTE_MEMZONE_16GB : Z := 0x200.
Definition RTE_MEMZONE_256KB : Z := 0x10000.
Definition RTE_MEMZONE_256MB : Z := 0x20000.
Definition RTE_MEMZONE_512MB : Z := 0x40000.
Definition RTE_MEMZONE_4GB : Z := 0x80000.

Definition check_hugepage_sz (flags hugepage_sz : Z) : Z :=
  if Z.land flags (u32 (Z.lnot RTE_MEMZONE_SIZE_HINT_ONLY)) =? 0 then 1
  else
    let check_flag :=
      if hugepage_sz =? 2 ^ 18 then RTE_MEMZONE_256KB
      else if hugepage_sz =? 2 ^ 21 then RTE_MEMZONE_2MB
      else if hugepage_sz =? 2 ^ 24 then RTE_MEMZONE_16MB
      else if hugepage_sz =? 2 ^ 28 then RTE_MEMZONE_256MB
      else if hugepage_sz =? 2 ^ 29 then RTE_MEMZONE_512MB
      else if hugepage_sz =? 2 ^ 30 then RTE_MEMZONE_1GB
      else if hugepage_sz =? 2 ^ 32 then RTE_MEMZONE_4GB
      else if hugepage_sz =? 2 ^ 34 then RTE_MEMZONE_16GB
      else 0 in
    Z.land check_flag flags.

(** A segment is one free element and the marker of the end. *)
Definition malloc_heap_add_memseg (heap : nat) (k : nat) (ms : rte_memseg) : M mem_config unit :=
  let start_elem := ms_addr ms in
  let end_elem := RTE_ALIGN_FLOOR 32 (u64 (ms_addr ms + u64 (ms_len ms - MALLOC_ELEM_OVERHEAD))) RTE_CACHE_LINE_SIZE in
  let elem_size := u64 (end_elem - start_elem) in
  malloc_elem_init start_elem (Some heap) (Some k) elem_size ;;
  malloc_elem_mkend end_elem start_elem ;;
  malloc_elem_free_list_insert start_elem ;;
  on_heap (Some heap) (fun h => Heap (free_head h) (alloc_count h) (u64 (total_size h + elem_size))).

Definition elem_memseg (e : malloc_elem) : M mem_config rte_memseg :=
  s ← gets id;
  match e_ms e with
  | Some k => match memseg s !! k with Some ms => mret ms | None => fault end
  | None => fault
  end.

(** One free list: the element found, or the first one of another page size so far. *)
Fixpoint find_in_list (size flags align bound : Z) (l : list Z) (alt_elem : option Z) : M mem_config (Z + option Z) :=
  match l with
  | [] => mret (inr alt_elem)
  | elem :: l =>
    hold ← malloc_elem_can_hold elem size align bound;
    if (hold : bool) then
      e ← get_elem elem;
      ms ← elem_memseg e;
      if negb (check_hugepage_sz flags (ms_hugepage_sz ms) =? 0) then mret (inl elem)
      else find_in_list size flags align bound l (match alt_elem with None => Some elem | Some a => Some a end)
    else find_in_list size flags align bound l alt_elem
  end.

Fixpoint find_in_lists (size flags align bound : Z) (ls : list (list Z)) (alt_elem : option Z) : M mem_config (Z + option Z) :=
  match ls with
  | [] => mret (inr alt_elem)
  | l :: ls =>
    r ← find_in_list size flags align bound l alt_elem;
    match r with
    | inl elem => mret (inl elem)
    | inr alt_elem => find_in_lists size flags align bound ls alt_elem
    end
  end.

Definition get_heap (h : nat) : M mem_config malloc_heap :=
  s ← gets id; match heaps s !! h with Some hp => mret hp | None => fault end.

Definition find_suitable_element (heap : nat) (size flags align bound : Z) : M mem_config (option Z) :=
  hp ← get_heap heap;
  r ← find_in_lists size flags (u32 align) bound
        (drop (Z.to_nat (malloc_elem_free_list_index size)) (free_head hp)) None;
  mret (match r with
        | inl elem => Some elem
        | inr alt_elem => if negb (Z.land flags RTE_MEMZONE_SIZE_HINT_ONLY =? 0) then alt_elem else None
        end).

Definition RTE_CACHE_LINE_ROUNDUP (w size : Z) : Z :=
  RTE_CACHE_LINE_SIZE * (wrapu w (size + RTE_CACHE_LINE_SIZE - 1) / RTE_CACHE_LINE_SIZE).

Definition malloc_heap_alloc (heap : nat) (size flags align bound : Z) : M mem_config (option Z) :=
  let size := RTE_CACHE_LINE_ROUNDUP 64 size in
  let align := RTE_CACHE_LINE_ROUNDUP 64 align in
  elem ← find_suitable_element heap size flags align bound;
  match elem with
  | None => mret None
  | Some elem =>
    elem ← malloc_elem_alloc elem size (u32 align) bound;
    on_heap (Some heap) (heap_count (fun c => c + 1)) ;;
    mret (Some (u64 (elem + MALLOC_ELEM_HEADER_LEN)))
  end.

Record rte_malloc_socket_stats := Stats {
  heap_totalsz_bytes : Z; heap_freesz_bytes : Z; greatest_free_size : Z;
  free_count : Z; stats_alloc_count : Z; heap_allocsz_bytes : Z
}.

Fixpoint stats_list (l : list Z) (acc : Z * Z * Z) : M mem_config (Z * Z * Z) :=
  match l with
  | [] => mret acc
  | elem :: l =>
    e ← get_elem elem;
    let '(cnt, freesz, greatest) := acc in
    stats_list l (u32 (cnt + 1), u64 (freesz + e_size e), if greatest <? e_size e then e_size e else greatest)
  end.

Fixpoint stats_lists (ls : list (list Z)) (acc : Z * Z * Z) : M mem_config (Z * Z * Z) :=
  match ls with
  | [] => mret acc
  | l :: ls => acc ← stats_list l acc; stats_lists ls acc
  end.

Definition malloc_heap_get_stats (heap : nat) : M mem_config rte_malloc_socket_stats :=
  hp ← get_heap heap;
  '(cnt, freesz, greatest) ← stats_lists (free_head hp) (0, 0, 0);
  mret (Stats (total_size hp) freesz greatest cnt (alloc_count hp) (u64 (total_size hp - freesz))).

(** The segments up to the first empty one. *)
Fixpoint heap_init_loop (fuel : nat) (k : nat) (l : list rte_memseg) : M mem_config unit :=
  match fuel, l with
  | S fuel, ms :: l =>
    if 0 <? ms_len ms then
      (if ms_socket_id ms <? 0 then fault else malloc_heap_add_memseg (Z.to_nat (ms_socket_id ms)) k ms) ;;
      heap_init_loop fuel (S k) l
    else mret tt
  | _, _ => mret tt
  end.

Definition rte_eal_malloc_heap_init : M mem_config Z :=
  s ← gets id;
  heap_init_loop (Z.to_nat RTE_MAX_MEMSEG) 0 (memseg s) ;; mret 0.

(** ** The interface *)

(** [eal_socket_id] is the socket of the calling core, as [unsigned]. *)
Record eal_env := EalEnv { eal_has_hugepages : bool; eal_socket_id : Z }.

(** [Panic]: rte_panic ends the process. *)
Inductive outcome (A : Type) := Done (a : A) | Panic.
Arguments Done {A} _.
Arguments Panic {A}.

Section Interface.
Context (env : eal_env).

Definition malloc_get_numa_socket : Z :=
  if eal_socket_id env =? u32 SOCKET_ID_ANY then 0 else eal_socket_id env.

Definition rte_is_power_of_2 (n : Z) : bool :=
  negb (n =? 0) && (Z.land n (u32 (n - 1)) =? 0).

Definition rte_free (addr : option Z) : M mem_config (outcome unit) :=
  match addr with
  | None => mret (Done tt)
  | Some _ =>
    elem ← malloc_elem_from_data addr;
    r ← malloc_elem_free elem;
    mret (if r <? 0 then Panic else Done tt)
  end.

(** Try the heaps of [l] in turn, but not the one of [socket]. *)
Fixpoint try_heaps (l : list nat) (socket size flags align bound : Z) : M mem_config (option Z) :=
  match l with
  | [] => mret None
  | i :: l =>
    if Z.of_nat i =? socket then try_heaps l socket size flags align bound
    else
      ret ← malloc_heap_alloc i size flags align bound;
      match ret with
      | Some p => mret (Some p)
      | None => try_heaps l socket size flags align bound
      end
  end.

Definition all_heaps : list nat := seq 0 (Z.to_nat RTE_MAX_NUMA_NODES).

(** A negative index into the array of heaps is an access outside of it. *)
Definition heap_alloc_on (socket size flags align bound : Z) : M mem_config (option Z) :=
  if socket <? 0 then fault else malloc_heap_alloc (Z.to_nat socket) size flags align bound.

Definition rte_malloc_socket (size align socket_arg : Z) : M mem_config (option Z) :=
  if (size =? 0) || (negb (align =? 0) && negb (rte_is_power_of_2 align)) then mret None
  else
    let socket_arg := if negb (eal_has_hugepages env) then SOCKET_ID_ANY else socket_arg in
    let socket := if socket_arg =? SOCKET_ID_ANY then i32 malloc_get_numa_socket else socket_arg in
    if RTE_MAX_NUMA_NODES <=? socket then mret None
    else
      let align := if align =? 0 then 1 else align in
      ret ← heap_alloc_on socket size 0 align 0;
      match ret with
      | Some p => mret (Some p)
      | None =>
        if negb (socket_arg =? SOCKET_ID_ANY) then mret None
        else try_heaps all_heaps socket size 0 align 0
      end.

Definition rte_malloc (size align : Z) : M mem_config (option Z) := rte_malloc_socket size align SOCKET_ID_ANY.

Definition rte_zmalloc_socket (size align socket : Z) : M mem_config (option Z) :=
  rte_malloc_socket size align socket.

Definition rte_zmalloc (size align : Z) : M mem_config (option Z) := rte_zmalloc_socket size align SOCKET_ID_ANY.

Definition rte_calloc_socket (num size align socket : Z) : M mem_config (option Z) :=
  rte_zmalloc_socket (u64 (num * size)) align socket.

Definition rte_calloc (num size align : Z) : M mem_config (option Z) := rte_zmalloc (u64 (num * size)) align.

Definition rte_realloc (ptr : option Z) (size align : Z) : M mem_config (outcome (option Z)) :=
  match ptr with
  | None => p ← rte_malloc size align; mret (Done p)
  | Some p =>
    elem ← malloc_elem_from_data ptr;
    match elem with
    | None => mret Panic
    | Some elem =>
      let size := RTE_CACHE_LINE_ROUNDUP 64 size in
      let align := RTE_CACHE_LINE_ROUNDUP 32 align in
      fits ← (if RTE_PTR_ALIGN_CEIL p align =? p
              then r ← malloc_elem_resize elem size; mret (r =? 0)
              else mret false);
      if (fits : bool) then mret (Done ptr)
      else
        new_ptr ← rte_malloc size align;
        match new_ptr with
        | None => mret (Done None)
        | Some np =>
          e ← get_elem elem;
          let old_size := u32 (e_size e - MALLOC_ELEM_OVERHEAD) in
          rte_memcpy np p (if old_size <? size then old_size else size) ;;
          r ← rte_free ptr;
          mret (match r with Done _ => Done (Some np) | Panic => Panic end)
        end
    end
  end.

Definition rte_malloc_validate (ptr : option Z) : M mem_config (option Z) :=
  elem ← malloc_elem_from_data ptr;
  match elem with
  | None => mret None
  | Some elem => e ← get_elem elem; mret (Some (u64 (e_size e - e_pad e - MALLOC_ELEM_OVERHEAD)))
  end.

Definition rte_malloc_get_socket_stats (socket : Z) : M mem_config (option rte_malloc_socket_stats) :=
  if (RTE_MAX_NUMA_NODES <=? socket) || (socket <? 0) then mret None
  else st ← malloc_heap_get_stats (Z.to_nat socket); mret (Some st).

Definition rte_malloc_virt2phy (addr : option Z) : M mem_config Z :=
  elem ← malloc_elem_from_data addr;
  match elem, addr with
  | Some elem, Some addr =>
    e ← get_elem elem;
    ms ← elem_memseg e;
    mret (if ms_phys_addr ms =? BAD_PHYS_ADDR then BAD_PHYS_ADDR
          else u64 (ms_phys_addr ms + u64 (addr - ms_addr ms)))
  | _, _ => mret BAD_PHYS_ADDR
  end.
End Interface.
