(* ===== verification/MallocLayout.v ===== *)
(** The layout of a heap: which headers of the memory are elements, and how splitting,
    joining and marking elements change the layout. *)
From Stdlib Require Import ZArith Lia.
From stdpp Require Import base numbers list gmap.
From S2P Require Import Prelude Ring Malloc.

#[local] Open Scope Z_scope.

(** ** Sums over a finite map *)

Definition msum {A} (f : A -> Z) (L : gmap Z A) : Z := map_fold (fun _ x n => f x + n) 0 L.

Section Sums.
Context {A : Type} (f : A -> Z).

Lemma msum_empty : msum f (∅ : gmap Z A) = 0.
Proof. apply map_fold_empty. Qed.

Lemma msum_insert_new L a x : L !! a = None -> msum f (<[a := x]> L) = f x + msum f L.
Proof. intros Ha. unfold msum. rewrite map_fold_insert_L; [done|intros; lia|done]. Qed.

Lemma msum_delete L a : msum f (delete a L) = msum f L - from_option f 0 (L !! a).
Proof.
  destruct (L !! a) as [x|] eqn:E; simpl.
  - rewrite <- (insert_delete_id L a x E) at 2.
    rewrite msum_insert_new by apply lookup_delete_eq. lia.
  - rewrite delete_id by done. lia.
Qed.

Lemma msum_insert L a x : msum f (<[a := x]> L) = msum f L - from_option f 0 (L !! a) + f x.
Proof.
  rewrite <- insert_delete_eq, msum_insert_new by apply lookup_delete_eq.
  rewrite msum_delete. lia.
Qed.

Lemma msum_nonneg L : (forall a x, L !! a = Some x -> 0 <= f x) -> 0 <= msum f L.
Proof.
  induction L as [|a x L Ha Hfold IH] using map_first_key_ind; intros H.
  - rewrite msum_empty. lia.
  - rewrite msum_insert_new by done.
    assert (0 <= f x) by (apply (H a); apply lookup_insert_eq).
    enough (0 <= msum f L) by lia. apply IH. intros b y Hb.
    apply (H b). rewrite lookup_insert_ne; [done|congruence].
Qed.
End Sums.

(** ** Well-formed layouts *)

(** The end marker of a segment has size zero but occupies a header. *)
Definition extent (e : malloc_elem) : Z := if e_size e =? 0 then MALLOC_ELEM_HEADER_LEN else e_size e.

Lemma extent_pos e : 0 <= e_size e -> 0 < extent e.
Proof. unfold extent, MALLOC_ELEM_HEADER_LEN. destruct (Z.eqb_spec (e_size e) 0); lia. Qed.

Lemma extent_size e : 0 < e_size e -> extent e = e_size e.
Proof. unfold extent. destruct (Z.eqb_spec (e_size e) 0); lia. Qed.

(** Where the marker of the end of a segment is. *)
Definition seg_end (ms : rte_memseg) : Z := 64 * ((ms_addr ms + ms_len ms - 64) / 64).

(** The element at [a]: aligned, inside its segment, which belongs to its heap, and
    linked to its neighbours. *)
Record blk_wf (segs : list rte_memseg) (L : gmap Z malloc_elem) (a : Z) (e : malloc_elem) : Prop := BlkWf {
  bw_align : a mod 64 = 0;
  bw_size : e_size e mod 64 = 0;
  bw_nonneg : 0 <= e_size e;
  bw_seg : exists k ms, e_ms e = Some k /\ segs !! k = Some ms /\ e_heap e = Some (Z.to_nat (ms_socket_id ms))
    /\ ms_addr ms <= a /\ a + extent e <= ms_addr ms + ms_len ms
    /\ (e_prev e = None -> a = ms_addr ms) /\ (e_size e = 0 -> a = seg_end ms);
  bw_state : e_state e <> ELEM_PAD;
  bw_end : e_size e = 0 -> e_state e = ELEM_BUSY;
  bw_pad : 0 <= e_pad e < 128 /\ e_pad e mod 64 = 0;
  bw_pad_room : e_state e = ELEM_BUSY -> 0 < e_pad e -> e_pad e + 64 <= e_size e;
  bw_prev : forall p, e_prev e = Some p ->
    exists ep, L !! p = Some ep /\ 0 < e_size ep /\ p + e_size ep = a;
  bw_next : 0 < e_size e -> exists n, L !! (a + e_size e) = Some n /\ e_prev n = Some a
    /\ e_heap n = e_heap e /\ e_ms n = e_ms e
}.

Record wfL (segs : list rte_memseg) (L : gmap Z malloc_elem) : Prop := WfL {
  wf_blk : forall a e, L !! a = Some e -> blk_wf segs L a e;
  wf_disj : forall a e b f, L !! a = Some e -> L !! b = Some f -> a < b -> a + extent e <= b
}.

(** No two free neighbours. *)
Definition coalesced (L : gmap Z malloc_elem) : Prop :=
  forall a e n, L !! a = Some e -> 0 < e_size e -> e_state e = ELEM_FREE ->
    L !! (a + e_size e) = Some n -> e_state n <> ELEM_FREE.

Definition free_at (L : gmap Z malloc_elem) (h : nat) (idx : nat) (a : Z) : Prop :=
  exists e, L !! a = Some e /\ e_state e = ELEM_FREE /\ e_heap e = Some h
    /\ Z.to_nat (malloc_elem_free_list_index (e_size e - MALLOC_ELEM_HEADER_LEN)) = idx.

(** The weights of a heap: bytes, free bytes and allocated elements. *)
Definition heap_bytes (h : nat) (e : malloc_elem) : Z :=
  if decide (e_heap e = Some h) then e_size e else 0.
Definition heap_free (h : nat) (e : malloc_elem) : Z :=
  if decide (e_heap e = Some h /\ e_state e = ELEM_FREE) then e_size e else 0.
Definition heap_busy (h : nat) (e : malloc_elem) : Z :=
  if decide (e_heap e = Some h /\ e_state e = ELEM_BUSY /\ 0 < e_size e) then 1 else 0.

Section Layout.
Context (segs : list rte_memseg).

Lemma wf_lookup_inside L a e x f :
  wfL segs L -> L !! a = Some e -> L !! x = Some f -> a <= x < a + extent e -> x = a.
Proof.
  intros HL Ha Hx Hr. destruct (decide (x = a)); [done|].
  pose proof (wf_disj _ _ HL a e x f Ha Hx ltac:(lia)). lia.
Qed.

Lemma wf_fresh L a e o :
  wfL segs L -> L !! a = Some e -> 0 < o < extent e -> L !! (a + o) = None.
Proof.
  intros HL Ha Ho. destruct (L !! (a + o)) as [f|] eqn:E; [|done].
  pose proof (wf_lookup_inside L a e (a + o) f HL Ha E ltac:(lia)). lia.
Qed.

(** A well-formed element after a change of another one. *)
Lemma blk_wf_mono L L' a e :
  (forall p ep, L !! p = Some ep -> 0 < e_size ep -> p + e_size ep = a -> e_prev e = Some p ->
     exists ep', L' !! p = Some ep' /\ 0 < e_size ep' /\ p + e_size ep' = a) ->
  (forall n, L !! (a + e_size e) = Some n -> e_prev n = Some a -> 0 < e_size e ->
     exists n', L' !! (a + e_size e) = Some n' /\ e_prev n' = Some a /\ e_heap n' = e_heap n /\ e_ms n' = e_ms n) ->
  blk_wf segs L a e -> blk_wf segs L' a e.
Proof.
  intros Hp Hn W. destruct W as [? ? ? ? ? ? ? ? Wp Wn]. constructor; auto.
  - intros p E. destruct (Wp p E) as (ep & ? & ? & ?). eauto.
  - intros E. destruct (Wn E) as (n & ? & ? & ? & ?). destruct (Hn n) as (n' & ? & ? & ? & ?); auto.
    exists n'. split_and!; congruence.
Qed.

(** *** Marking an element *)
Definition marked (st : elem_state) (pad : Z) (e : malloc_elem) : malloc_elem := with_pad pad (with_state st e).

Lemma wf_mark L a e st pad :
  wfL segs L -> L !! a = Some e -> 0 < e_size e -> st <> ELEM_PAD -> pad mod 64 = 0 -> 0 <= pad < 128 ->
  (st = ELEM_BUSY -> 0 < pad -> pad + 64 <= e_size e) ->
  wfL segs (<[a := marked st pad e]> L).
Proof.
  intros HL Ha Hs Hst Hp Hpr Hproom. split.
  - intros b f. rewrite lookup_insert_Some. intros [[<- <-]|[Hne Hb]].
    + destruct (wf_blk _ _ HL a e Ha) as [? ? ? Wseg ? ? ? ? Wp Wn].
      constructor; simpl; auto; try lia.
      * intros p E. destruct (Wp p E) as (ep & ? & ? & ?). exists ep.
        rewrite lookup_insert_ne by lia. auto.
      * intros E. destruct (Wn E) as (n & ? & ? & ? & ?). exists n.
        rewrite lookup_insert_ne by lia. auto.
    + apply (blk_wf_mono L); [| |by apply (wf_blk _ _ HL)].
      * intros p ep Hp' ? ? ?. destruct (decide (a = p)) as [->|].
        -- rewrite lookup_insert_eq. eexists. split; [done|]. simpl.
           assert (ep = e) as -> by congruence. auto.
        -- rewrite lookup_insert_ne by done. eauto.
      * intros n Hn ? ?. destruct (decide (a = b + e_size f)) as [->|].
        -- rewrite lookup_insert_eq. eexists. split; [done|]. simpl.
           assert (n = e) as -> by congruence. auto.
        -- rewrite lookup_insert_ne by done. eauto.
  - intros b f c g. rewrite !lookup_insert_Some.
    intros [[<- <-]|[Hne Hb]] [[<- <-]|[Hne' Hc]] Hlt; try lia; eauto using wf_disj.
    apply (wf_disj _ _ HL a e c g); done.
Qed.

(** *** Splitting an element [o] bytes from its start *)
Definition split_layout (a o : Z) (e n : malloc_elem) (L : gmap Z malloc_elem) : gmap Z malloc_elem :=
  <[a := with_size o e]> (<[a + e_size e := with_prev (Some (a + o)) n]>
    (<[a + o := Elem (e_heap e) (Some a) (e_ms e) ELEM_FREE 0 (e_size e - o)]> L)).

Lemma split_lookup a o e n L x f :
  0 < o < e_size e ->
  split_layout a o e n L !! x = Some f <->
  (x = a /\ f = with_size o e) \/ (x = a + e_size e /\ f = with_prev (Some (a + o)) n)
  \/ (x = a + o /\ f = Elem (e_heap e) (Some a) (e_ms e) ELEM_FREE 0 (e_size e - o))
  \/ (x <> a /\ x <> a + e_size e /\ x <> a + o /\ L !! x = Some f).
Proof. intros Ho. unfold split_layout. rewrite !lookup_insert_Some. naive_solver lia. Qed.

Lemma split_disj L a e n o :
  wfL segs L -> L !! a = Some e -> L !! (a + e_size e) = Some n -> 64 <= o -> o + 64 <= e_size e ->
  forall x f y g, split_layout a o e n L !! x = Some f -> split_layout a o e n L !! y = Some g -> x < y ->
    x + extent f <= y.
Proof.
  intros HL Ha Hn Ho Hoe.
  assert (forall x f, split_layout a o e n L !! x = Some f ->
    (a <= x < a + e_size e -> x + extent f <= a + e_size e /\ (x = a -> extent f = o) /\ (x = a \/ x = a + o)) /\
    (~ a <= x < a + e_size e -> exists g, L !! x = Some g /\ extent g = extent f)) as Hsum.
  { intros x f. rewrite split_lookup by lia.
    intros [[-> ->]|[[-> ->]|[[-> ->]|(Hxa & Hxb & Hxm & Hx)]]].
    - split; [|lia]. rewrite extent_size by (simpl; lia). simpl. lia.
    - split; [lia|]. exists n. split; [done|]. done.
    - split; [|lia]. rewrite extent_size by (simpl; lia). simpl. lia.
    - split; [intros; exfalso|eauto].
      pose proof (wf_lookup_inside L a e x f HL Ha Hx). rewrite extent_size in * by lia. lia. }
  intros x f y g Hx Hy Hxy. destruct (Hsum x f Hx) as [Hx1 Hx2]. destruct (Hsum y g Hy) as [Hy1 Hy2].
  destruct (decide (a <= x < a + e_size e)) as [Hxi|Hxo].
  - destruct (Hx1 Hxi) as (? & ? & ?). destruct (decide (a <= y < a + e_size e)) as [Hyi|]; [|lia].
    destruct (Hy1 Hyi) as (? & ? & ?). lia.
  - destruct (Hx2 Hxo) as (fx & Lx & <-). destruct (decide (a <= y < a + e_size e)).
    + pose proof (wf_disj _ _ HL x fx a e Lx Ha ltac:(lia)). lia.
    + destruct Hy2 as (gy & Ly & _); [done|]. apply (wf_disj _ _ HL x fx y gy); auto.
Qed.

Lemma wf_split L a e n o :
  wfL segs L -> L !! a = Some e -> L !! (a + e_size e) = Some n ->
  o mod 64 = 0 -> 64 <= o -> o + 64 <= e_size e -> (e_state e = ELEM_BUSY -> 0 < e_pad e -> e_pad e + 64 <= o) ->
  wfL segs (split_layout a o e n L).
Proof.
  intros HL Ha Hn Hom Ho Hoe Hpad.
  pose proof (wf_blk _ _ HL a e Ha) as We. pose proof (wf_blk _ _ HL _ n Hn) as Wn.
  destruct (bw_next _ _ _ _ We ltac:(lia)) as (n0 & Hn0 & Hnp & Hnh & Hnm).
  assert (n0 = n) as -> by congruence. clear Hn0.
  assert (extent e = e_size e) as Hext by (apply extent_size; lia).
  assert (forall x f, L !! x = Some f -> a < x < a + e_size e -> False) as Hin.
  { intros x f Hx ?. pose proof (wf_lookup_inside L a e x f HL Ha Hx ltac:(lia)). lia. }
  split.
  - intros x f. rewrite split_lookup by lia.
    intros [[-> ->]|[[-> ->]|[[-> ->]|(Hxa & Hxb & Hxm & Hx)]]].
    + destruct We as [? ? ? (k & ms & ? & ? & ? & ? & Hu & ? & ?) ? ? ? Wr Wp _].
      constructor; simpl; auto; try lia.
      * exists k, ms. split_and!; auto; [|simpl; lia]. rewrite extent_size; simpl; lia.
      * intros p E. destruct (Wp p E) as (ep & Hp & ? & ?). exists ep.
        rewrite split_lookup by lia. split; [|lia]. right; right; right. split_and!; [lia..|done].
      * intros _. eexists. split; [rewrite split_lookup by lia; right; right; left; eauto|]. done.
    + destruct Wn as [? ? ? (k & ms & ? & ? & ? & ? & Hu & Hnone & ?) ? ? ? Wr Wp Wnn].
      constructor; simpl; auto.
      * exists k, ms. split_and!; auto. done.
      * intros p [= <-]. eexists. split; [rewrite split_lookup by lia; right; right; left; eauto|]. simpl. lia.
      * intros E. destruct (Wnn E) as (n' & Hn' & ? & ? & ?). exists n'. rewrite split_lookup by lia.
        split; [|done]. right; right; right. split_and!; [lia..|done].
    + destruct We as [? ? ? (k & ms & ? & ? & ? & ? & Hu & ? & ?) ? ? ? Wr Wp _].
      constructor; simpl; auto; try lia.
      * rewrite Z.add_mod, Hom, bw_align0 by lia. done.
      * rewrite Zminus_mod, Hom, bw_size0 by lia. done.
      * exists k, ms. split_and!; auto; try lia; [|done].
        rewrite extent_size by (simpl; lia). simpl. rewrite Hext in Hu. lia.
      * done.
      * intros p [= <-]. eexists. split; [rewrite split_lookup by lia; left; eauto|]. simpl. lia.
      * intros _. eexists. split; [rewrite split_lookup by lia; right; left; split; [lia|done]|]. done.
    + apply (blk_wf_mono L); [| |by apply (wf_blk _ _ HL)].
      * intros p ep Hp ? Hpx Hprev. destruct (decide (p = a)) as [->|]; [exfalso; congruence || (assert (ep = e) by congruence; subst; lia)|].
        destruct (decide (p = a + e_size e)) as [->|].
        -- assert (ep = n) as -> by congruence. eexists. split; [rewrite split_lookup by lia; right; left; eauto|]. simpl. lia.
        -- exists ep. rewrite split_lookup by lia. split; [|lia]. right; right; right. split_and!; auto.
           intros ->. apply (Hin _ _ Hp). lia.
      * intros m Hm Hmp Hpos. destruct (decide (x + e_size f = a)) as [Exa|].
        -- eexists. split; [rewrite split_lookup by lia; left; eauto|]. simpl. rewrite Exa in Hm.
           assert (m = e) as -> by congruence. auto.
        -- destruct (decide (x + e_size f = a + e_size e)) as [Exb|].
           { exfalso. rewrite Exb in Hm. assert (m = n) as -> by congruence. congruence. }
           exists m. rewrite split_lookup by lia. split; [|done]. right; right; right. split_and!; auto.
           intros E. apply (Hin _ _ Hm). lia.
  - by apply split_disj.
Qed.

(** *** Joining an element with the one behind it *)
Definition join_layout (a : Z) (e1 e2 n : malloc_elem) (L : gmap Z malloc_elem) : gmap Z malloc_elem :=
  <[a + e_size e1 + e_size e2 := with_prev (Some a) n]>
    (<[a := with_size (e_size e1 + e_size e2) e1]> (delete (a + e_size e1) L)).

Lemma join_lookup a e1 e2 n L x f :
  0 < e_size e1 -> 0 < e_size e2 ->
  join_layout a e1 e2 n L !! x = Some f <->
  (x = a /\ f = with_size (e_size e1 + e_size e2) e1)
  \/ (x = a + e_size e1 + e_size e2 /\ f = with_prev (Some a) n)
  \/ (x <> a /\ x <> a + e_size e1 /\ x <> a + e_size e1 + e_size e2 /\ L !! x = Some f).
Proof.
  intros H1 H2. unfold join_layout. rewrite !lookup_insert_Some, lookup_delete_Some. naive_solver lia.
Qed.

(** Weights that do not look at the link to the element before. *)
Lemma msum_split f L a e n o :
  (forall p x, f (with_prev p x) = f x) ->
  L !! a = Some e -> L !! (a + e_size e) = Some n -> L !! (a + o) = None -> 0 < o < e_size e ->
  msum f (split_layout a o e n L)
  = msum f L - f e + f (with_size o e) + f (Elem (e_heap e) (Some a) (e_ms e) ELEM_FREE 0 (e_size e - o)).
Proof.
  intros Hf Ha Hn Hm Ho. unfold split_layout. rewrite !msum_insert, !lookup_insert_ne by lia.
  rewrite Ha, Hn, Hm, Hf. simpl. lia.
Qed.

Lemma msum_join f L a e1 e2 n :
  (forall p x, f (with_prev p x) = f x) ->
  L !! a = Some e1 -> L !! (a + e_size e1) = Some e2 -> L !! (a + e_size e1 + e_size e2) = Some n ->
  0 < e_size e1 -> 0 < e_size e2 ->
  msum f (join_layout a e1 e2 n L) = msum f L - f e1 - f e2 + f (with_size (e_size e1 + e_size e2) e1).
Proof.
  intros Hf H1 H2 Hn Hs1 Hs2. unfold join_layout.
  rewrite !msum_insert, msum_delete, lookup_insert_ne, !lookup_delete_ne by lia.
  rewrite H1, H2, Hn, Hf. simpl. lia.
Qed.

Lemma join_disj L a e1 e2 n :
  wfL segs L -> L !! a = Some e1 -> L !! (a + e_size e1) = Some e2 -> L !! (a + e_size e1 + e_size e2) = Some n ->
  0 < e_size e1 -> 0 < e_size e2 ->
  forall x f y g, join_layout a e1 e2 n L !! x = Some f -> join_layout a e1 e2 n L !! y = Some g -> x < y ->
    x + extent f <= y.
Proof.
  intros HL H1 H2 Hn Hs1 Hs2.
  assert (forall x f, join_layout a e1 e2 n L !! x = Some f ->
    (x = a /\ extent f = e_size e1 + e_size e2) \/
    ((x < a \/ a + e_size e1 + e_size e2 <= x) /\ exists g, L !! x = Some g /\ extent g = extent f)) as Hsum.
  { intros x f. rewrite join_lookup by done. intros [[-> ->]|[[-> ->]|(Hx1 & Hx2 & Hx3 & Hx)]].
    - left. split; [done|]. apply extent_size. simpl. lia.
    - right. split; [lia|]. exists n. done.
    - right. split; [|eauto].
      pose proof (wf_lookup_inside L _ _ x f HL H1 Hx). pose proof (wf_lookup_inside L _ _ x f HL H2 Hx).
      pose proof (extent_size e1 ltac:(lia)). pose proof (extent_size e2 ltac:(lia)). lia. }
  intros x f y g Hx Hy Hxy.
  destruct (Hsum x f Hx) as [(-> & Hex)|(Hxo & fx & Lx & <-)];
    destruct (Hsum y g Hy) as [(-> & Hey)|(Hyo & gy & Ly & _)]; try lia.
  - apply (wf_disj _ _ HL x fx a e1 Lx H1). lia.
  - by apply (wf_disj _ _ HL x fx y gy).
Qed.

Lemma wf_join L a e1 e2 n :
  wfL segs L -> L !! a = Some e1 -> L !! (a + e_size e1) = Some e2 -> L !! (a + e_size e1 + e_size e2) = Some n ->
  0 < e_size e1 -> 0 < e_size e2 ->
  wfL segs (join_layout a e1 e2 n L).
Proof.
  intros HL H1 H2 Hn Hs1 Hs2. split; [|by apply join_disj].
  pose proof (wf_blk _ _ HL _ _ H1) as W1. pose proof (wf_blk _ _ HL _ _ H2) as W2.
  pose proof (wf_blk _ _ HL _ _ Hn) as Wn.
  destruct (bw_next _ _ _ _ W1 Hs1) as (x & Hx & E2p & E2h & E2m). assert (x = e2) as -> by congruence. clear Hx.
  destruct (bw_next _ _ _ _ W2 Hs2) as (x & Hx & Enp & Enh & Enm). assert (x = n) as -> by congruence. clear Hx.
  intros x f. rewrite join_lookup by done. intros [[-> ->]|[[-> ->]|(Hx1 & Hx2 & Hx3 & Hx)]].
  - destruct W1 as [? ? ? (k & ms & ? & ? & ? & ? & ? & ? & ?) ? ? ? Wr Wp _].
    destruct W2 as [? ? ? (k2 & ms2 & ? & ? & ? & ? & Hu & ? & ?) ? ? ? _ _ _].
    constructor; simpl; auto; try lia.
    + rewrite Z.add_mod, bw_size0, bw_size1 by lia. done.
    + exists k, ms. assert (k2 = k) as -> by congruence. assert (ms2 = ms) as -> by congruence.
      split_and!; auto; [|simpl; lia]. rewrite extent_size in * by (simpl; lia). simpl. lia.
    + intros Eb E. specialize (Wr Eb E). lia.
    + intros p E. destruct (Wp p E) as (ep & Hp & ? & ?). exists ep.
      rewrite join_lookup by done. split; [|lia]. right; right. split_and!; [lia..|done].
    + intros _. eexists. split; [rewrite join_lookup by done; right; left; split; [lia|done]|]. simpl.
      split_and!; congruence.
  - destruct Wn as [? ? ? (k & ms & ? & ? & ? & ? & ? & ? & ?) ? ? ? Wr _ Wnn]. constructor; simpl; auto.
    + exists k, ms. split_and!; auto. done.
    + intros p [= <-]. eexists. split; [rewrite join_lookup by done; left; eauto|]. simpl. lia.
    + intros E. destruct (Wnn E) as (n' & ? & ? & ? & ?). exists n'. rewrite join_lookup by done. split; [|done].
      right; right. split_and!; [lia..|done].
  - apply (blk_wf_mono L); [| |by apply (wf_blk _ _ HL)].
    + intros p ep Hp ? Hpx Hprev. destruct (decide (p = a)) as [->|].
      { exfalso. assert (ep = e1) as -> by congruence. lia. }
      destruct (decide (p = a + e_size e1)) as [->|].
      { exfalso. assert (ep = e2) as -> by congruence. lia. }
      destruct (decide (p = a + e_size e1 + e_size e2)) as [->|].
      * assert (ep = n) as -> by congruence. eexists. split; [rewrite join_lookup by done; right; left; eauto|]. done.
      * exists ep. rewrite join_lookup by done. auto 10.
    + intros m Hm Hmp Hpos. destruct (decide (x + e_size f = a)) as [E|].
      { rewrite E in *. assert (m = e1) as -> by congruence.
        eexists. split; [rewrite join_lookup by done; left; eauto|]. done. }
      destruct (decide (x + e_size f = a + e_size e1)) as [E|].
      { exfalso. rewrite E in *. assert (m = e2) as -> by congruence. congruence. }
      destruct (decide (x + e_size f = a + e_size e1 + e_size e2)) as [E|].
      * exfalso. rewrite E in *. assert (m = n) as -> by congruence. congruence.
      * exists m. rewrite join_lookup by done. auto 10.
Qed.
End Layout.
