(* ===== verification/MallocRep.v ===== *)
(** The memory of the allocator represents a layout: specifications of the operations
    on elements and free lists. *)
From Stdlib Require Import ZArith Lia.
From stdpp Require Import base numbers list gmap.
From S2P Require Import Prelude Ring Malloc MallocLayout.

#[local] Open Scope Z_scope.

(** ** Representation *)

(** Segments lie in the lower half of the address space. *)
Definition segs_ok (segs : list rte_memseg) : Prop :=
  forall k ms, segs !! k = Some ms -> 0 < ms_addr ms /\ ms_addr ms + ms_len ms < 2 ^ 63.

Record rep (s : mem_config) (L : gmap Z malloc_elem) : Prop := Rep {
  rep_wf : wfL (memseg s) L;
  rep_sub : L ⊆ elems s;
  rep_segs : segs_ok (memseg s)
}.

(** The dummy header in front of padded data. *)
Definition pads_ok (E L : gmap Z malloc_elem) : Prop :=
  forall a e, L !! a = Some e -> e_state e = ELEM_BUSY -> 0 < e_pad e ->
    exists pe, E !! (a + e_pad e) = Some pe /\ e_state pe = ELEM_PAD /\ e_pad pe = e_pad e.

(** Free elements are zero behind their header. *)
Definition clean (s : mem_config) (L : gmap Z malloc_elem) : Prop :=
  forall a e x, L !! a = Some e -> e_state e = ELEM_FREE -> a + 64 <= x < a + e_size e ->
    bytes s !! x = None /\ elems s !! x = None.

(** The free lists hold the elements [F]. *)
Definition lists_ok (s : mem_config) (F : nat -> nat -> Z -> Prop) : Prop :=
  forall h hp, heaps s !! h = Some hp ->
    length (free_head hp) = Z.to_nat RTE_HEAP_NUM_FREELISTS /\
    forall idx l, free_head hp !! idx = Some l -> NoDup l /\ forall a, a ∈ l <-> F h idx a.

Definition counts_ok (s : mem_config) (L : gmap Z malloc_elem) : Prop :=
  forall h hp, heaps s !! h = Some hp ->
    alloc_count hp = u32 (msum (heap_busy h) L) /\ total_size hp = u64 (msum (heap_bytes h) L).

(** Every element belongs to a heap of the configuration. *)
Definition heaps_exist (s : mem_config) : Prop :=
  forall k ms, memseg s !! k = Some ms -> 0 <= ms_socket_id ms < Z.of_nat (length (heaps s)).

(** The invariant of the allocator. *)
Record shape (s : mem_config) (L : gmap Z malloc_elem) : Prop := Shape {
  sh_rep : rep s L;
  sh_pads : pads_ok (elems s) L;
  sh_clean : clean s L;
  sh_coalesced : coalesced L;
  sh_lists : lists_ok s (free_at L);
  sh_heaps : heaps_exist s
}.

(** A byte belongs to a header or is data, not both. *)
Definition hdr_clear (s : mem_config) : Prop :=
  forall a e x, elems s !! a = Some e -> a mod 64 = 0 -> a <= x < a + 64 -> bytes s !! x = None.

Record inv (s : mem_config) (L : gmap Z malloc_elem) : Prop := Inv {
  inv_shape : shape s L;
  inv_counts : counts_ok s L;
  inv_hdr : hdr_clear s
}.

(** While the element [a] is taken from the free lists to be cut up. *)
Record mid (s : mem_config) (L : gmap Z malloc_elem) (a : Z) : Prop := Mid {
  mid_rep : rep s L;
  mid_pads : pads_ok (elems s) L;
  mid_clean : clean s L;
  mid_coalesced : forall x e n, L !! x = Some e -> 0 < e_size e -> e_state e = ELEM_FREE ->
    L !! (x + e_size e) = Some n -> e_state n = ELEM_FREE -> x = a;
  mid_lists : lists_ok s (fun h idx x => free_at L h idx x /\ x <> a);
  mid_heaps : heaps_exist s
}.

(** A block handed out: its address and its usable size. *)
Definition live_block (L : gmap Z malloc_elem) (d n : Z) : Prop :=
  exists a e, L !! a = Some e /\ e_state e = ELEM_BUSY /\ 0 < e_size e
    /\ d = a + e_pad e + MALLOC_ELEM_HEADER_LEN /\ n = e_size e - e_pad e - MALLOC_ELEM_HEADER_LEN.

(** Only the headers [A] were written. *)
Record frame (A : list Z) (s s' : mem_config) : Prop := Frame {
  fr_elems : forall x, x ∉ A -> elems s' !! x = elems s !! x;
  fr_bytes : forall x, bytes s' !! x = bytes s !! x
               \/ bytes s' !! x = None /\ exists a, a ∈ A /\ a <= x < a + 64;
  fr_segs : memseg s' = memseg s;
  fr_heaps : length (heaps s') = length (heaps s)
    /\ forall h, (fun hp => (alloc_count hp, total_size hp)) <$> heaps s' !! h
               = (fun hp => (alloc_count hp, total_size hp)) <$> heaps s !! h;
  fr_zones : memzone_cnt s' = memzone_cnt s /\ memzone s' = memzone s;
  fr_hdr : hdr_clear s -> hdr_clear s'
}.

Lemma frame_id A s : frame A s s.
Proof. split; auto. Qed.

Lemma frame_app A B s1 s2 s3 : frame A s1 s2 -> frame B s2 s3 -> frame (A ++ B) s1 s3.
Proof.
  intros [E1 B1 S1 [H1 H1'] [Z1 Z1'] D1] [E2 B2 S2 [H2 H2'] [Z2 Z2'] D2]. split; auto.
  - intros x Hx. rewrite E2, E1; [done|..]; set_solver.
  - intros x. destruct (B2 x) as [->|(? & a & ? & ?)].
    + destruct (B1 x) as [->|(? & a & ? & ?)]; [auto|right; split; [done|exists a; set_solver]].
    + right. split; [done|]. exists a. set_solver.
  - congruence.
  - split; [congruence|]. intros h. by rewrite H2'.
  - split; congruence.
Qed.

Lemma frame_mono A B s s' : frame A s s' -> A ⊆ B -> frame B s s'.
Proof.
  intros [E B' S H Z D] Hsub. split; auto.
  intros x. destruct (B' x) as [?|(? & a & ? & ?)]; [by left|right; split; [done|exists a; set_solver]].
Qed.

(** Nothing changed outside of [lo, hi). *)
Definition outside (lo hi : Z) (s s' : mem_config) : Prop :=
  forall x, ~ lo <= x < hi -> bytes s' !! x = bytes s !! x /\ elems s' !! x = elems s !! x.

Lemma outside_trans lo hi s1 s2 s3 : outside lo hi s1 s2 -> outside lo hi s2 s3 -> outside lo hi s1 s3.
Proof. intros H1 H2 x Hx. destruct (H1 x Hx), (H2 x Hx). split; congruence. Qed.

Lemma outside_mono lo hi lo' hi' s s' : outside lo hi s s' -> lo' <= lo -> hi <= hi' -> outside lo' hi' s s'.
Proof. intros H ? ? x Hx. apply H. lia. Qed.

Lemma frame_outside A s s' lo hi :
  frame A s s' -> (forall y, y ∈ A -> lo <= y /\ y + 64 <= hi) -> outside lo hi s s'.
Proof.
  intros Hf HA x Hx. split.
  - destruct (fr_bytes _ _ _ Hf x) as [|(_ & a & Ha & ?)]; [done|]. specialize (HA a Ha). lia.
  - apply (fr_elems _ _ _ Hf). intros Hin. specialize (HA x Hin). lia.
Qed.

(** The range holds zeroes only. *)
Definition zeroed (s : mem_config) (d n : Z) : Prop :=
  forall x, d <= x < d + n -> bytes s !! x = None /\ elems s !! x = None.

(** ** Headers *)

Definition put_st (a : Z) (e : malloc_elem) (s : mem_config) : mem_config :=
  set_elems <[a := e]> (set_bytes (filter (fun kv => out_of a MALLOC_ELEM_HEADER_LEN kv.1 = true)) s).

Lemma frame_put a e s : frame [a] s (put_st a e s).
Proof.
  split; auto.
  - intros x Hx. cbn. rewrite lookup_insert_ne; [done|set_solver].
  - intros x. cbn. destruct (decide (a <= x < a + 64)) as [Hin|Hout].
    + right. split; [|exists a; set_solver]. apply map_lookup_filter_None_2. right.
      intros v _. cbn. unfold out_of, MALLOC_ELEM_HEADER_LEN.
      destruct (Z.leb_spec a x), (Z.ltb_spec x (a + 64)); cbn; lia || congruence.
    + left. destruct (bytes s !! x) eqn:E.
      * apply map_lookup_filter_Some_2; [done|]. cbn. unfold out_of, MALLOC_ELEM_HEADER_LEN.
        destruct (Z.leb_spec a x), (Z.ltb_spec x (a + 64)); cbn; lia || done.
      * apply map_lookup_filter_None_2. auto.
  - intros Hd b f x Hb Hbm Hx. cbn in *. destruct (bytes s !! x) eqn:E; [|apply map_lookup_filter_None_2; auto].
    apply map_lookup_filter_None_2. right. intros v _. cbn. apply lookup_insert_Some in Hb as [[<- <-]|[Hne Hb]].
    + unfold out_of, MALLOC_ELEM_HEADER_LEN. destruct (Z.leb_spec a x), (Z.ltb_spec x (a + 64)); cbn; lia || congruence.
    + rewrite (Hd b f x Hb Hbm Hx) in E. done.
Qed.

Lemma elem_ok_in s ms k a :
  memseg s !! k = Some ms -> a mod 64 = 0 -> ms_addr ms <= a -> a + 64 <= ms_addr ms + ms_len ms ->
  elem_ok s a = true.
Proof.
  intros Hk Ha Hl Hu. unfold elem_ok, mapped. apply andb_true_intro. split; [by apply Z.eqb_eq|].
  apply existsb_exists. exists ms. split; [apply list_elem_of_In; eauto using list_elem_of_lookup_2|].
  unfold MALLOC_ELEM_HEADER_LEN. apply andb_true_intro; split; lia.
Qed.

Lemma wf_size64 segs L a e : blk_wf segs L a e -> 0 < e_size e -> 64 <= e_size e.
Proof. intros W ?. pose proof (bw_size _ _ _ _ W). Z.div_mod_to_equations. lia. Qed.

Lemma size_extent e : 0 <= e_size e -> e_size e <= extent e.
Proof. unfold extent, MALLOC_ELEM_HEADER_LEN. destruct (Z.eqb_spec (e_size e) 0); lia. Qed.

Lemma wf_extent64 segs L a e : blk_wf segs L a e -> 64 <= extent e.
Proof.
  intros W. pose proof (bw_nonneg _ _ _ _ W). unfold extent, MALLOC_ELEM_HEADER_LEN.
  destruct (Z.eqb_spec (e_size e) 0); [lia|]. eapply wf_size64; [done|lia].
Qed.

(** Where an element lies, as numbers. *)
Lemma rep_bounds s L a e :
  rep s L -> L !! a = Some e ->
  0 < a /\ a + extent e < 2 ^ 63 /\ 64 <= extent e /\ 0 <= e_size e <= extent e.
Proof.
  intros [HL _ Hs] Ha. pose proof (wf_blk _ _ HL a e Ha) as W.
  destruct (bw_seg _ _ _ _ W) as (k & ms & ? & Hk & ? & ? & ? & ? & ?). destruct (Hs k ms Hk).
  pose proof (wf_extent64 _ _ _ _ W). pose proof (bw_nonneg _ _ _ _ W).
  pose proof (size_extent e ltac:(lia)). lia.
Qed.

(** A header fits at any aligned place inside an element. *)
Lemma rep_elem_ok s L a e o :
  rep s L -> L !! a = Some e -> o mod 64 = 0 -> 0 <= o -> o + 64 <= extent e -> elem_ok s (a + o) = true.
Proof.
  intros [HL _ _] Ha Ho Ho0 Hoe. pose proof (wf_blk _ _ HL a e Ha) as W.
  destruct (bw_seg _ _ _ _ W) as (k & ms & ? & Hk & ? & ? & ? & ? & ?).
  apply (elem_ok_in s ms k); [done| |lia|lia].
  pose proof (bw_align _ _ _ _ W) as Hal. rewrite Z.add_mod, Hal, Ho by lia. done.
Qed.

Lemma rep_elem_ok0 s L a e : rep s L -> L !! a = Some e -> elem_ok s a = true.
Proof.
  intros HR Ha. rewrite <- (Z.add_0_r a). apply (rep_elem_ok s L a e); auto; [lia|].
  pose proof (rep_bounds s L a e HR Ha). lia.
Qed.

Lemma wp_get_raw s a e (Q : malloc_elem -> mem_config -> Prop) :
  elem_ok s a = true -> elems s !! a = Some e -> Q e s -> wp (get_elem a) Q s.
Proof. intros Hok He HQ. unfold get_elem, id. wp_step. rewrite Hok. cbn. rewrite He. by wp_step. Qed.

Lemma wp_get s L a e (Q : malloc_elem -> mem_config -> Prop) :
  rep s L -> L !! a = Some e -> Q e s -> wp (get_elem a) Q s.
Proof.
  intros HR Ha. apply wp_get_raw; [by eapply rep_elem_ok0|].
  by apply (lookup_weaken L _ _ _ Ha), rep_sub.
Qed.

(** Reading a header of zeroes. *)
Lemma wp_get_zero s a (Q : malloc_elem -> mem_config -> Prop) :
  elem_ok s a = true -> elems s !! a = None -> (forall x, a <= x < a + 64 -> bytes s !! x = None) ->
  Q zero_elem s -> wp (get_elem a) Q s.
Proof.
  intros Hok He Hz HQ. unfold get_elem, id. wp_step. rewrite Hok. cbn. rewrite He.
  assert (line_clear s a = true) as ->; [|by wp_step].
  apply forallb_forall. intros x Hx%list_elem_of_In. apply elem_of_seqZ in Hx.
  apply bool_decide_eq_true_2, Hz. unfold RTE_CACHE_LINE_SIZE in *. lia.
Qed.

Lemma wp_put s a e (Q : unit -> mem_config -> Prop) :
  elem_ok s a = true -> Q tt (put_st a e s) -> wp (put_elem a e) Q s.
Proof. intros Hok HQ. unfold put_elem, id. wp_step. rewrite Hok. cbn. by wp_step. Qed.

Lemma wp_upd_raw s a e f (Q : unit -> mem_config -> Prop) :
  elem_ok s a = true -> elems s !! a = Some e -> Q tt (put_st a (f e) s) -> wp (upd_elem a f) Q s.
Proof.
  intros Hok He HQ. unfold upd_elem. wp_step. eapply wp_get_raw; [done..|]. by apply wp_put.
Qed.

(** Writing over an element of the layout, keeping the layout well formed. *)
Lemma rep_put s L a e :
  rep s L -> wfL (memseg s) (<[a := e]> L) -> rep (put_st a e s) (<[a := e]> L).
Proof. intros [HL Hsub Hs] HW. split; [done| |done]. cbn. by apply insert_mono. Qed.

Lemma wp_upd s L a e f (Q : unit -> mem_config -> Prop) :
  rep s L -> L !! a = Some e -> wfL (memseg s) (<[a := f e]> L) ->
  (forall s', rep s' (<[a := f e]> L) -> frame [a] s s' -> elems s' !! a = Some (f e) -> heaps s' = heaps s -> Q tt s') ->
  wp (upd_elem a f) Q s.
Proof.
  intros HR Ha HW HQ. eapply wp_upd_raw; [by eapply rep_elem_ok0|by apply (lookup_weaken L _ _ _ Ha), rep_sub|].
  apply HQ; [by apply rep_put|apply frame_put|apply lookup_insert_eq|done].
Qed.

(** ** Splitting and joining *)

Lemma u64_id x : 0 <= x < 2 ^ 64 -> u64 x = x.
Proof. apply wrapu_small. Qed.

Lemma wp_split s L a e n o (Q : unit -> mem_config -> Prop) :
  rep s L -> L !! a = Some e -> L !! (a + e_size e) = Some n ->
  o mod 64 = 0 -> 64 <= o -> o + 64 <= e_size e -> (e_state e = ELEM_BUSY -> 0 < e_pad e -> e_pad e + 64 <= o) ->
  (forall s', rep s' (split_layout a o e n L) -> frame [a + o; a + e_size e; a] s s' -> heaps s' = heaps s -> Q tt s') ->
  wp (split_elem a (a + o)) Q s.
Proof.
  intros HR Ha Hn Hom Ho Hoe Hpad HQ.
  pose proof (rep_bounds s L a e HR Ha) as (? & ? & ? & ?).
  assert (extent e = e_size e) as Hext by (apply extent_size; lia).
  assert (elem_ok s (a + o) = true) as Hok by (apply (rep_elem_ok s L a e); auto; lia).
  pose proof (rep_elem_ok0 s L a e HR Ha) as Hoka. pose proof (rep_elem_ok0 s L _ n HR Hn) as Hokn.
  pose proof (lookup_weaken L (elems s) _ _ Ha (rep_sub _ _ HR)) as Ea.
  pose proof (lookup_weaken L (elems s) _ _ Hn (rep_sub _ _ HR)) as En.
  unfold split_elem. wp_step. apply (wp_get s L a e); auto.
  rewrite !u64_id by (rewrite ?u64_id; lia). replace (a + o - a) with o by lia.
  unfold malloc_elem_init. wp_step. apply wp_put; [done|]. wp_step.
  eapply wp_upd_raw; [done|apply lookup_insert_eq|]. wp_step.
  eapply wp_upd_raw; [done|cbn; rewrite !lookup_insert_ne by lia; done|]. wp_step.
  eapply wp_upd_raw; [done|cbn; rewrite !lookup_insert_ne by lia; done|].
  apply HQ; [| |done].
  - split; [apply wf_split; auto; apply HR| |apply HR]. cbn. unfold split_layout. rewrite insert_insert_eq.
    do 3 apply insert_mono. apply HR.
  - apply (frame_mono ([a + o] ++ [a + o] ++ [a + e_size e] ++ [a])); [|set_solver].
    do 3 (eapply frame_app; [apply frame_put|]). apply frame_put.
Qed.

Lemma wp_join s L a e1 e2 n (Q : unit -> mem_config -> Prop) :
  rep s L -> L !! a = Some e1 -> L !! (a + e_size e1) = Some e2 -> L !! (a + e_size e1 + e_size e2) = Some n ->
  0 < e_size e1 -> 0 < e_size e2 ->
  (forall s', rep s' (join_layout a e1 e2 n L) -> frame [a; a + e_size e1 + e_size e2] s s' -> heaps s' = heaps s ->
     Q tt s') ->
  wp (join_elem a (a + e_size e1)) Q s.
Proof.
  intros HR H1 H2 Hn Hs1 Hs2 HQ.
  pose proof (rep_bounds s L _ _ HR H1) as (? & ? & ? & ?). pose proof (rep_bounds s L _ _ HR H2) as (? & ? & ? & ?).
  pose proof (rep_elem_ok0 s L _ _ HR H1) as Hok1. pose proof (rep_elem_ok0 s L _ _ HR Hn) as Hokn.
  pose proof (lookup_weaken L (elems s) _ _ H1 (rep_sub _ _ HR)) as E1.
  pose proof (lookup_weaken L (elems s) _ _ Hn (rep_sub _ _ HR)) as En.
  assert (extent e2 = e_size e2) as Hext by (apply extent_size; lia).
  unfold join_elem. wp_step. apply (wp_get s L _ e2); auto. rewrite u64_id by lia. wp_step.
  eapply wp_upd_raw; [done..|]. eapply wp_upd_raw; [done|cbn; rewrite lookup_insert_ne by lia; done|].
  rewrite u64_id by lia. apply HQ; [| |done].
  - split; [apply wf_join; auto; apply HR| |apply HR]. cbn. unfold join_layout. do 2 apply insert_mono.
    etrans; [apply delete_subseteq|apply HR].
  - apply (frame_app [_] [_] _ (put_st a (with_size (e_size e1 + e_size e2) e1) s)); apply frame_put.
Qed.

(** ** Free lists *)

Lemma index_range n : 0 <= malloc_elem_free_list_index n < RTE_HEAP_NUM_FREELISTS.
Proof.
  unfold malloc_elem_free_list_index, RTE_HEAP_NUM_FREELISTS.
  destruct (Z.leb_spec n (2 ^ 8)); [lia|].
  assert (8 <= Z.log2 (n - 1)) by (apply Z.log2_le_pow2; lia).
  destruct (Z.leb_spec ((Z.log2 (n - 1) + 1 - 8 + 2 - 1) / 2) (13 - 1)); Z.div_mod_to_equations; lia.
Qed.

(** Larger elements are in later lists. *)
Lemma index_mono m n : m <= n -> malloc_elem_free_list_index m <= malloc_elem_free_list_index n.
Proof.
  intros Hmn. pose proof (index_range n). unfold malloc_elem_free_list_index in *. unfold RTE_HEAP_NUM_FREELISTS in *.
  destruct (Z.leb_spec m (2 ^ 8)); [lia|]. destruct (Z.leb_spec n (2 ^ 8)); [lia|].
  assert (Z.log2 (m - 1) <= Z.log2 (n - 1)) by (apply Z.log2_le_mono; lia).
  repeat match goal with |- context [?a <=? ?b] => destruct (Z.leb_spec a b) end; Z.div_mod_to_equations; lia.
Qed.

Lemma lists_ext s F G : (forall h idx a, F h idx a <-> G h idx a) -> lists_ok s F -> lists_ok s G.
Proof.
  intros HFG Hl h hp Hh. destruct (Hl h hp Hh) as [? Hi]. split; [done|].
  intros idx l Hl'. destruct (Hi idx l Hl'). split; [done|]. intros a. rewrite <- HFG. auto.
Qed.

Lemma lists_heaps s s' F : heaps s' = heaps s -> lists_ok s F -> lists_ok s' F.
Proof. unfold lists_ok. by intros ->. Qed.

Lemma in_free_list_spec s F h idx a :
  lists_ok s F -> (h < length (heaps s))%nat -> (idx < Z.to_nat RTE_HEAP_NUM_FREELISTS)%nat -> F h idx a ->
  in_free_list s a = true.
Proof.
  intros Hl Hh Hidx HF. destruct (lookup_lt_is_Some_2 _ _ Hh) as [hp Hhp]. destruct (Hl h hp Hhp) as [Hlen Hi].
  rewrite <- Hlen in Hidx. destruct (lookup_lt_is_Some_2 _ _ Hidx) as [l Hl'].
  apply existsb_exists. exists hp. split; [apply list_elem_of_In; eauto using list_elem_of_lookup_2|].
  apply existsb_exists. exists l. split; [apply list_elem_of_In; eauto using list_elem_of_lookup_2|].
  apply bool_decide_eq_true_2. by apply (proj2 (Hi idx l Hl')).
Qed.

Lemma frame_heaps A f s :
  (forall l, length (f l) = length l) ->
  (forall l h, (fun hp => (alloc_count hp, total_size hp)) <$> f l !! h
             = (fun hp => (alloc_count hp, total_size hp)) <$> l !! h) ->
  frame A s (set_heaps f s).
Proof. intros H1 H2. split; auto. cbn. auto. Qed.

Lemma wp_remove s F h idx a (Q : unit -> mem_config -> Prop) :
  lists_ok s F -> (h < length (heaps s))%nat -> (idx < Z.to_nat RTE_HEAP_NUM_FREELISTS)%nat -> F h idx a ->
  (forall s', lists_ok s' (fun h idx x => F h idx x /\ x <> a) -> frame [] s s' ->
     elems s' = elems s -> bytes s' = bytes s -> Q tt s') ->
  wp (elem_free_list_remove a) Q s.
Proof.
  intros Hl Hh Hidx HF HQ. unfold elem_free_list_remove, id. wp_step.
  rewrite (in_free_list_spec s F h idx a) by done. cbn [negb]. wp_step. apply HQ; [| |done..].
  - intros h' hp'. cbn. rewrite list_lookup_fmap. intros (hp & Hhp & ->)%fmap_Some.
    destruct (Hl h' hp Hhp) as [Hlen Hi]. cbn. split; [by rewrite length_fmap|].
    intros i l'. rewrite list_lookup_fmap. intros (l & Hl' & ->)%fmap_Some.
    destruct (Hi i l Hl') as [Hnd Hin]. split; [by apply NoDup_filter|].
    intros x. rewrite list_elem_of_filter, Hin. tauto.
  - apply frame_heaps; [intros; apply length_fmap|]. intros l h'. rewrite list_lookup_fmap.
    by destruct (l !! h').
Qed.

Lemma rep_heaps s f L : rep s L -> rep (set_heaps f s) L.
Proof. intros [? ? ?]. by split. Qed.

Lemma wp_insert s L F a e h (Q : unit -> mem_config -> Prop) :
  rep s L -> L !! a = Some e -> e_heap e = Some h -> (h < length (heaps s))%nat -> 64 <= e_size e ->
  wfL (memseg s) (<[a := with_state ELEM_FREE e]> L) ->
  lists_ok s F -> (forall h idx, ~ F h idx a) ->
  (forall s', rep s' (<[a := with_state ELEM_FREE e]> L) ->
     lists_ok s' (fun h' idx x => F h' idx x \/
        x = a /\ h' = h /\ idx = Z.to_nat (malloc_elem_free_list_index (e_size e - MALLOC_ELEM_HEADER_LEN))) ->
     frame [a] s s' -> Q tt s') ->
  wp (malloc_elem_free_list_insert a) Q s.
Proof.
  intros HR Ha Hh Hlen Hsz HW Hl HF HQ. pose proof (rep_bounds s L a e HR Ha) as (? & ? & ? & ?).
  unfold malloc_elem_free_list_insert. wp_step. apply (wp_get s L a e); auto. wp_step.
  apply (wp_upd s L a e); auto. intros s1 HR1 Hf1 _ Hhs. rewrite Hh. unfold on_heap, id. wp_step.
  rewrite Hhs. rewrite (proj2 (Nat.ltb_lt _ _) Hlen). wp_step.
  rewrite u64_id by (unfold MALLOC_ELEM_HEADER_LEN; lia).
  set (i := Z.to_nat _). apply HQ; [by apply rep_heaps| |].
  - intros h' hp'. cbn. rewrite Hhs. intros Hh'. destruct (decide (h = h')) as [<-|Hne].
    + rewrite list_lookup_alter_eq in Hh'. apply fmap_Some in Hh' as (hp & Hhp & ->).
      destruct (Hl h hp Hhp) as [Hlen' Hi]. cbn. split; [by rewrite length_alter|].
      intros j l' Hj. destruct (decide (i = j)) as [<-|Hne].
      * rewrite list_lookup_alter_eq in Hj. apply fmap_Some in Hj as (l & Hl' & ->).
        destruct (Hi i l Hl') as [Hnd Hin]. split.
        -- constructor; [|done]. rewrite Hin. apply HF.
        -- intros x. rewrite elem_of_cons, Hin. naive_solver.
      * rewrite list_lookup_alter_ne in Hj by done. destruct (Hi j l' Hj) as [Hnd Hin].
        split; [done|]. intros x. rewrite Hin. naive_solver.
    + rewrite list_lookup_alter_ne in Hh' by done. destruct (Hl h' hp' Hh') as [Hlen' Hi].
      split; [done|]. intros j l' Hj. destruct (Hi j l' Hj) as [Hnd Hin]. split; [done|].
      intros x. rewrite Hin. naive_solver.
  - apply (frame_app [a] [] s s1); [done|]. apply frame_heaps; [intros; apply length_alter|].
    intros l h'. destruct (decide (h = h')) as [<-|]; [|by rewrite list_lookup_alter_ne].
    rewrite list_lookup_alter_eq. by destruct (l !! h).
Qed.
