(* ===== verification/MallocAlloc.v ===== *)
(** Allocation from a heap: where a block is placed, and that the invariant is kept. *)
From Stdlib Require Import ZArith Lia.
From stdpp Require Import base numbers list gmap.
From S2P Require Import Prelude Ring Malloc MallocLayout MallocRep.

#[local] Open Scope Z_scope.

(** ** Placement *)

Lemma land_lnot_ones val k :
  0 <= k <= 64 -> 0 <= val < 2 ^ 64 -> Z.land val (u64 (Z.lnot (2 ^ k - 1))) = 2 ^ k * (val / 2 ^ k).
Proof.
  intros Hk Hv. replace (2 ^ k - 1) with (Z.ones k) by (rewrite Z.ones_equiv; lia).
  unfold wrapu. rewrite <- Z.land_ones by lia.
  rewrite (Z.land_comm _ (Z.ones 64)), Z.land_assoc, (Z.land_ones val 64), Z.mod_small by lia.
  rewrite <- Z.ldiff_land, Z.ldiff_ones_r, Z.shiftl_mul_pow2, Z.shiftr_div_pow2 by lia. lia.
Qed.

Lemma pow2_pos k : 0 <= k -> 0 < 2 ^ k.
Proof. intros. apply Z.pow_pos_nonneg; lia. Qed.

Lemma align_floor w val k :
  0 <= k -> k <= w -> w <= 64 -> 0 <= val < 2 ^ 64 -> RTE_ALIGN_FLOOR w val (2 ^ k) = 2 ^ k * (val / 2 ^ k).
Proof.
  intros Hk Hw Hw' Hv. unfold RTE_ALIGN_FLOOR. pose proof (pow2_pos k Hk).
  assert (2 ^ k <= 2 ^ w) by (apply Z.pow_le_mono_r; lia).
  rewrite (wrapu_small w) by lia. by apply land_lnot_ones; [lia|].
Qed.

Lemma floor_bounds x m : 0 < m -> m * (x / m) <= x < m * (x / m) + m.
Proof. intros. pose proof (Z.div_mod x m). pose proof (Z.mod_pos_bound x m). lia. Qed.

(** A request as [malloc_heap_alloc] makes it: rounded sizes, and addresses from which
    it can be subtracted. *)
Record request (segs : list rte_memseg) (size align bound : Z) : Prop := Request {
  rq_size : size mod 64 = 0 /\ 0 <= size;
  rq_align : exists k, align = 2 ^ k /\ 6 <= k <= 31;
  rq_bound : bound = 0 \/ exists k, bound = 2 ^ k /\ 0 <= k < 64 /\ 0 < size <= bound;
  rq_room : forall k ms, segs !! k = Some ms -> size + align + bound + 64 <= ms_addr ms
}.

(** The data at [q] lies in the element, is aligned and does not cross a boundary. *)
Definition fits (a esize size align bound q : Z) : Prop :=
  q mod align = 0 /\ a + 64 <= q /\ q + size <= a + esize
  /\ (bound <> 0 -> q / bound = (q + size - 1) / bound).

Lemma div_between x y z m : 0 < m -> x <= y <= z -> x / m = z / m -> x / m = y / m.
Proof.
  intros Hm Hxy Hxz. apply Z.le_antisymm; [apply Z.div_le_mono; lia|].
  rewrite Hxz. apply Z.div_le_mono; lia.
Qed.

(** The two masked addresses are equal when they are in the same window. *)
Lemma same_window x y k :
  0 <= k <= 64 -> 0 <= x < 2 ^ 64 -> 0 <= y < 2 ^ 64 ->
  (Z.land x (u64 (Z.lnot (u64 (2 ^ k - 1)))) =? Z.land y (u64 (Z.lnot (u64 (2 ^ k - 1))))) = (x / 2 ^ k =? y / 2 ^ k).
Proof.
  intros Hk Hx Hy. pose proof (pow2_pos k ltac:(lia)). assert (2 ^ k <= 2 ^ 64) by (apply Z.pow_le_mono_r; lia).
  rewrite (u64_id (2 ^ k - 1)) by lia. rewrite !land_lnot_ones by lia.
  apply Bool.eq_iff_eq_true. rewrite !Z.eqb_eq. nia.
Qed.

Lemma no_bound_mask : u64 (Z.lnot (u64 (0 - 1))) = 0.
Proof. reflexivity. Qed.

(** The last aligned place for the data before [end_pt], and the header before it. *)
Definition last_place (end_pt size align : Z) : Z := align * ((end_pt - size) / align).

Lemma last_place_spec end_pt size k :
  6 <= k -> last_place end_pt size (2 ^ k) <= end_pt - size < last_place end_pt size (2 ^ k) + 2 ^ k
  /\ last_place end_pt size (2 ^ k) mod 2 ^ k = 0 /\ last_place end_pt size (2 ^ k) mod 64 = 0.
Proof.
  intros Hk. pose proof (pow2_pos k ltac:(lia)). unfold last_place.
  split; [by apply floor_bounds|]. split; [rewrite Z.mul_comm; apply Z.mod_mul; lia|].
  replace k with (6 + (k - 6)) at 1 by lia. rewrite Z.pow_add_r by lia. change (2 ^ 6) with 64.
  rewrite <- Z.mul_assoc, Z.mul_comm. apply Z.mod_mul. lia.
Qed.

Lemma last_place_max end_pt size align q : 0 < align -> q mod align = 0 -> q <= end_pt - size -> q <= last_place end_pt size align.
Proof.
  intros Ha Hq Hle. unfold last_place. apply Z.div_le_mono with (c := align) in Hle; [|done].
  rewrite (Z.div_mod q align) at 1 by lia. rewrite Hq. nia.
Qed.

(** The placement without machine arithmetic. *)
Definition start_pt (a esize size align bound : Z) : option Z :=
  let end_pt := a + esize in
  let finish d := if d - 64 <? a then None else Some (d - 64) in
  let d := last_place end_pt size align in
  if (bound =? 0) || (d / bound =? (end_pt - 1) / bound) then finish d
  else
    let end_pt := bound * (end_pt / bound) in
    let d := last_place end_pt size align in
    if (end_pt - 1) / bound =? d / bound then finish d else None.

Lemma start_pt_eq a esize size align k bound :
  0 < esize -> a + esize < 2 ^ 63 -> align = 2 ^ k -> 6 <= k <= 31 -> 0 <= size ->
  (bound = 0 \/ exists j, bound = 2 ^ j /\ 0 <= j < 64) -> size + align + bound + 64 <= a ->
  elem_start_pt a esize size align bound = start_pt a esize size align bound.
Proof.
  intros He Hlt -> Hk Hs Hb Hroom. pose proof (pow2_pos k ltac:(lia)).
  assert (0 <= bound) as Hb0 by (destruct Hb as [->|(j & -> & Hj)]; [lia|pose proof (pow2_pos j); lia]).
  unfold elem_start_pt, start_pt, MALLOC_ELEM_TRAILER_LEN, MALLOC_ELEM_HEADER_LEN.
  rewrite (u64_id (a + esize - 0)) by lia. rewrite Z.sub_0_r.
  rewrite (u64_id (a + esize - size)) by lia. rewrite !(u64_id (a + esize - 1)) by lia.
  rewrite (align_floor 32 (a + esize - size)) by lia. fold (last_place (a + esize) size (2 ^ k)).
  destruct (last_place_spec (a + esize) size k ltac:(lia)) as (Hd & _ & _).
  set (d := last_place (a + esize) size (2 ^ k)) in *. rewrite (u64_id (d - 64)) by lia.
  destruct Hb as [->|(j & -> & Hj)].
  { rewrite no_bound_mask, !Z.land_0_r. done. }
  pose proof (pow2_pos j ltac:(lia)). destruct (Z.eqb_spec (2 ^ j) 0); [lia|]. cbn [orb].
  rewrite same_window by lia. rewrite if_negb.
  destruct (d / 2 ^ j =? (a + esize - 1) / 2 ^ j); [done|].
  rewrite (align_floor 64 (a + esize)) by lia. pose proof (floor_bounds (a + esize) (2 ^ j) ltac:(lia)).
  set (e2 := 2 ^ j * ((a + esize) / 2 ^ j)) in *.
  rewrite (u64_id (e2 - size)) by lia. rewrite (u64_id (e2 - 1)) by lia. rewrite (align_floor 32 (e2 - size)) by lia.
  fold (last_place e2 size (2 ^ k)).
  destruct (last_place_spec e2 size k ltac:(lia)) as (Hd2 & _ & _).
  set (d2 := last_place e2 size (2 ^ k)) in *. rewrite (u64_id (d2 - 64)) by lia.
  rewrite same_window by lia. by rewrite if_negb.
Qed.

Lemma start_pt_sound a esize size k bound p :
  6 <= k -> 0 <= size -> a mod 64 = 0 -> (bound <> 0 -> 0 < bound /\ 0 < size) ->
  start_pt a esize size (2 ^ k) bound = Some p ->
  a <= p /\ p mod 64 = 0 /\ fits a esize size (2 ^ k) bound (p + 64).
Proof.
  intros Hk Hs Ha Hb. unfold start_pt, fits.
  assert (forall d, d mod 64 = 0 -> (d - 64) mod 64 = 0) as Hm.
  { intros d Hd. rewrite Zminus_mod, Hd. done. }
  destruct (last_place_spec (a + esize) size k Hk) as (Hd & Hdm & Hd64).
  set (d := last_place (a + esize) size (2 ^ k)) in *.
  destruct ((bound =? 0) || (d / bound =? (a + esize - 1) / bound)) eqn:E1.
  - destruct (Z.ltb_spec (d - 64) a); [done|]. intros [= <-]. rewrite Z.sub_add.
    split_and!; auto; try lia. intros Hb'. destruct (Hb Hb').
    apply orb_true_iff in E1 as [?%Z.eqb_eq|E1%Z.eqb_eq]; [done|].
    apply (div_between _ _ (a + esize - 1)); auto; lia.
  - apply orb_false_iff in E1 as [E0%Z.eqb_neq E1]. destruct (Hb E0).
    pose proof (floor_bounds (a + esize) bound ltac:(lia)).
    set (e2 := bound * ((a + esize) / bound)) in *.
    destruct (last_place_spec e2 size k Hk) as (Hd2 & Hdm2 & Hd264).
    set (d2 := last_place e2 size (2 ^ k)) in *.
    destruct (Z.eqb_spec ((e2 - 1) / bound) (d2 / bound)) as [E2|]; [|done].
    destruct (Z.ltb_spec (d2 - 64) a); [done|]. intros [= <-]. rewrite Z.sub_add.
    split_and!; auto; try lia. intros _. apply (div_between _ _ (e2 - 1)); auto; lia.
Qed.

(** When a place exists, one is found. *)
Lemma start_pt_complete a esize size k bound q :
  6 <= k -> 0 < size -> (bound = 0 \/ exists j, bound = 2 ^ j /\ k <= j /\ size <= bound) ->
  fits a esize size (2 ^ k) bound q -> is_Some (start_pt a esize size (2 ^ k) bound).
Proof.
  intros Hk Hs Hb (Hq & Hqa & Hqe & Hqb). pose proof (pow2_pos k ltac:(lia)). unfold start_pt.
  pose proof (last_place_max (a + esize) size (2 ^ k) q ltac:(lia) Hq ltac:(lia)).
  destruct (last_place_spec (a + esize) size k Hk) as (Hd & _ & _).
  set (d := last_place (a + esize) size (2 ^ k)) in *.
  destruct ((bound =? 0) || (d / bound =? (a + esize - 1) / bound)) eqn:E1.
  { destruct (Z.ltb_spec (d - 64) a); [lia|]. by eexists. }
  apply orb_false_iff in E1 as [E0%Z.eqb_neq E1%Z.eqb_neq].
  destruct Hb as [->|(j & -> & Hkj & Hsb)]; [lia|]. specialize (Hqb ltac:(lia)).
  pose proof (pow2_pos j ltac:(lia)). set (B := 2 ^ j) in *.
  pose proof (floor_bounds (a + esize) B ltac:(lia)). set (e2 := B * ((a + esize) / B)) in *.
  assert (exists c, B = c * 2 ^ k /\ 0 < c) as (c & HBc & Hc).
  { exists (2 ^ (j - k)). split; [rewrite <- Z.pow_add_r by lia; unfold B; f_equal; lia|apply pow2_pos; lia]. }
  assert ((e2 - B) mod 2 ^ k = 0) as Hwin.
  { replace (e2 - B) with ((((a + esize) / B - 1) * c) * 2 ^ k) by (unfold e2; nia). apply Z.mod_mul; lia. }
  pose proof (last_place_max e2 size (2 ^ k) (e2 - B) ltac:(lia) Hwin ltac:(lia)).
  destruct (last_place_spec e2 size k Hk) as (Hd2 & _ & _).
  assert ((e2 - 1) / B = (a + esize) / B - 1) as Ee2.
  { symmetry. apply (Z.div_unique _ _ _ (B - 1)); [lia|unfold e2; lia]. }
  set (d2 := last_place e2 size (2 ^ k)) in *.
  assert (d2 / B = (a + esize) / B - 1) as Ed2.
  { symmetry. apply (Z.div_unique _ _ _ (d2 - (e2 - B))); [lia|unfold e2; lia]. }
  rewrite Ee2, Ed2, Z.eqb_refl.
  assert (q + size <= e2) as Hqe2.
  { destruct (Z.le_gt_cases (q + size) e2); [done|exfalso]. apply E1.
    assert (q / B = (a + esize) / B) as Eq.
    { rewrite Hqb. symmetry. apply (Z.div_unique _ _ _ (q + size - 1 - e2)); unfold e2 in *; lia. }
    assert (e2 <= q) by (pose proof (floor_bounds q B); unfold e2; rewrite <- Eq; lia).
    rewrite <- (Z.div_unique d B ((a + esize) / B) (d - e2)) by (unfold e2 in *; lia).
    apply (Z.div_unique _ _ _ (a + esize - 1 - e2)); unfold e2 in *; lia. }
  pose proof (last_place_max e2 size (2 ^ k) q ltac:(lia) Hq ltac:(lia)) as Hmax.
  fold d2 in Hmax. destruct (Z.ltb_spec (d2 - 64) a); [lia|]. by eexists.
Qed.

(** ** Keeping the invariant *)

(** Headers are never written inside an element of the resulting layout. *)
Definition on_layout (A : list Z) (L : gmap Z malloc_elem) : Prop := forall x, x ∈ A -> is_Some (L !! x).

Lemma on_layout_outside segs A L a e x :
  wfL segs L -> on_layout A L -> L !! a = Some e -> a < x < a + extent e -> x ∉ A.
Proof.
  intros HL HA Ha Hx [f Hf]%HA. pose proof (wf_lookup_inside segs L a e x f HL Ha Hf). lia.
Qed.

Lemma clean_frame A s s' L L' :
  clean s L -> frame A s s' -> wfL (memseg s') L' -> on_layout A L' ->
  (forall x f, L' !! x = Some f -> e_state f = ELEM_FREE ->
     exists y e, L !! y = Some e /\ e_state e = ELEM_FREE /\ y <= x /\ x + e_size f <= y + e_size e) ->
  clean s' L'.
Proof.
  intros Hc Hf HL HA Hsub a f x Ha Hst Hx. destruct (Hsub a f Ha Hst) as (y & e & Hy & Hye & Hl & Hr).
  destruct (Hc y e x Hy Hye ltac:(lia)) as [Hb He]. split.
  - destruct (fr_bytes _ _ _ Hf x) as [->|[-> _]]; done.
  - rewrite (fr_elems _ _ _ Hf); [done|].
    apply (on_layout_outside (memseg s') _ L' a f); auto.
    pose proof (size_extent f). pose proof (bw_nonneg _ _ _ _ (wf_blk _ _ HL a f Ha)). lia.
Qed.

Lemma pads_frame A s s' L L' :
  pads_ok (elems s) L -> frame A s s' -> wfL (memseg s') L' -> on_layout A L' ->
  (forall x f, L' !! x = Some f -> e_state f = ELEM_BUSY -> 0 < e_pad f ->
     exists e, L !! x = Some e /\ e_state e = ELEM_BUSY /\ e_pad e = e_pad f) ->
  pads_ok (elems s') L'.
Proof.
  intros Hp Hf HL HA Hsub a f Ha Hbusy Hpos. destruct (Hsub a f Ha Hbusy Hpos) as (e & He & Ebusy & Epad).
  destruct (Hp a e He Ebusy ltac:(lia)) as (pe & Hpe & ? & ?). exists pe. rewrite <- Epad. split; [|done].
  rewrite (fr_elems _ _ _ Hf); [done|]. pose proof (wf_blk _ _ HL a f Ha) as W.
  pose proof (bw_pad_room _ _ _ _ W Hbusy Hpos). apply (on_layout_outside (memseg s') _ L' a f); auto.
  rewrite extent_size by lia. lia.
Qed.

Lemma heaps_exist_frame A s s' : frame A s s' -> heaps_exist s -> heaps_exist s'.
Proof. intros Hf H k ms. rewrite (fr_segs _ _ _ Hf). rewrite (proj1 (fr_heaps _ _ _ Hf)). apply H. Qed.

Lemma elem_heap s L a e h :
  rep s L -> heaps_exist s -> L !! a = Some e -> e_heap e = Some h -> (h < length (heaps s))%nat.
Proof.
  intros HR Hh Ha Heh. destruct (bw_seg _ _ _ _ (wf_blk _ _ (rep_wf _ _ HR) a e Ha)) as (k & ms & _ & Hk & E & _).
  pose proof (Hh k ms Hk). assert (h = Z.to_nat (ms_socket_id ms)) as -> by congruence. lia.
Qed.

Lemma elem_has_heap segs L a e : wfL segs L -> L !! a = Some e -> exists h, e_heap e = Some h.
Proof.
  intros HL Ha. destruct (bw_seg _ _ _ _ (wf_blk _ _ HL a e Ha)) as (k & ms & _ & _ & E & _). eauto.
Qed.

Lemma index_lt n : (Z.to_nat (malloc_elem_free_list_index n) < Z.to_nat RTE_HEAP_NUM_FREELISTS)%nat.
Proof. pose proof (index_range n). lia. Qed.

(** The elements of the free lists after a split of [a], which is in none of them. *)
Lemma free_at_split L a e n o h idx x :
  L !! a = Some e -> L !! (a + e_size e) = Some n -> L !! (a + o) = None -> 0 < o < e_size e ->
  e_state e = ELEM_FREE ->
  (free_at (split_layout a o e n L) h idx x /\ x <> a <->
   (free_at L h idx x /\ x <> a) \/ x = a + o /\ e_heap e = Some h
     /\ idx = Z.to_nat (malloc_elem_free_list_index (e_size e - o - MALLOC_ELEM_HEADER_LEN))).
Proof.
  intros Ha Hn Hm Ho Hst. unfold free_at. split.
  - intros ((f & Hf & Hfs & Hfh & Hfi) & Hxa). apply split_lookup in Hf; [|lia].
    destruct Hf as [[-> ->]|[[-> ->]|[[-> ->]|(? & ? & ? & Hx)]]]; [done|..].
    + left. split; [|done]. exists n. auto.
    + right. auto.
    + left. split; [|done]. eauto.
  - intros [((f & Hf & Hfs & Hfh & Hfi) & Hxa)|(-> & Hh & ->)]; (split; [|lia]).
    + destruct (decide (x = a + e_size e)) as [->|].
      * assert (f = n) as -> by congruence. eexists. rewrite split_lookup by lia.
        split; [right; left; eauto|]. auto.
      * exists f. rewrite split_lookup by lia. split; [|done]. right; right; right.
        split_and!; auto. congruence.
    + eexists. rewrite split_lookup by lia. split; [right; right; left; eauto|]. auto.
Qed.

Lemma live_split L a e n o d m :
  L !! a = Some e -> L !! (a + e_size e) = Some n -> L !! (a + o) = None -> 0 < o < e_size e ->
  e_state e = ELEM_FREE ->
  live_block (split_layout a o e n L) d m <-> live_block L d m.
Proof.
  intros Ha Hn Hm Ho Hst. split; intros (x & f & Hx & Hfs & Hpos & -> & ->).
  - apply split_lookup in Hx; [|lia]. destruct Hx as [[-> ->]|[[-> ->]|[[-> ->]|(? & ? & ? & Hx)]]]; simpl in *.
    + congruence.
    + exists (a + e_size e), n. auto.
    + congruence.
    + exists x, f. auto.
  - destruct (decide (x = a)) as [->|]; [congruence|]. destruct (decide (x = a + e_size e)) as [->|].
    + assert (f = n) as -> by congruence. eexists _, _. rewrite split_lookup by lia.
      split; [right; left; eauto|]. auto.
    + exists x, f. rewrite split_lookup by lia. split_and!; auto. right; right; right. split_and!; congruence.
Qed.

Lemma split_on_layout a o e n L : on_layout [a + o; a + e_size e; a] (split_layout a o e n L).
Proof.
  intros x. rewrite !elem_of_cons, elem_of_nil. unfold split_layout. intros [->|[->|[->|[]]]].
  - destruct (decide (a + o = a)) as [E|]; [rewrite E, lookup_insert_eq; by eexists|].
    rewrite lookup_insert_ne by done. destruct (decide (a + o = a + e_size e)) as [E|].
    + rewrite E, lookup_insert_eq. by eexists.
    + rewrite lookup_insert_ne, lookup_insert_eq by done. by eexists.
  - destruct (decide (a = a + e_size e)) as [E|]; [rewrite <- E, lookup_insert_eq; by eexists|].
    rewrite lookup_insert_ne, lookup_insert_eq by done. by eexists.
  - rewrite lookup_insert_eq. by eexists.
Qed.

Lemma with_state_id e st : e_state e = st -> with_state st e = e.
Proof. intros <-. by destruct e. Qed.

(** Splitting keeps what is known of a layout under construction. *)
Lemma split_mid A s s' L a e n o :
  mid s L a -> L !! a = Some e -> e_state e = ELEM_FREE -> L !! (a + e_size e) = Some n ->
  64 <= o -> o + 64 <= e_size e ->
  rep s' (split_layout a o e n L) -> frame A s s' -> on_layout A (split_layout a o e n L) ->
  pads_ok (elems s') (split_layout a o e n L) /\ clean s' (split_layout a o e n L) /\ heaps_exist s'.
Proof.
  intros [HR Hp Hc _ _ Hh] Ha Hst Hn Ho Hoe HR' Hf HA. pose proof (rep_wf _ _ HR') as HL'. split_and!.
  - apply (pads_frame _ s s' L _ Hp Hf HL' HA). intros x f Hx Hb Hpos. apply split_lookup in Hx; [|lia].
    destruct Hx as [[-> ->]|[[-> ->]|[[-> ->]|(? & ? & ? & Hx)]]]; simpl in *; eauto. lia.
  - apply (clean_frame _ s s' L _ Hc Hf HL' HA). intros x f Hx Hfs. apply split_lookup in Hx; [|lia].
    destruct Hx as [[-> ->]|[[-> ->]|[[-> ->]|(? & ? & ? & Hx)]]]; simpl in *.
    + exists a, e. split_and!; auto; lia.
    + exists (a + e_size e), n. split_and!; auto; lia.
    + exists a, e. split_and!; auto; lia.
    + exists x, f. split_and!; auto; lia.
  - by apply (heaps_exist_frame _ s s' Hf).
Qed.

Lemma insert_same_free (L : gmap Z malloc_elem) (a : Z) e : L !! a = Some e -> e_state e = ELEM_FREE -> <[a := with_state ELEM_FREE e]> L = L.
Proof. intros Ha Hst. rewrite with_state_id by done. by apply insert_id. Qed.

(** After a split only the cut element has a free element behind it. *)
Lemma split_coalesced s L a e n o :
  mid s L a -> L !! a = Some e -> L !! (a + e_size e) = Some n -> e_state n <> ELEM_FREE -> 0 < o < e_size e ->
  forall x f m, split_layout a o e n L !! x = Some f -> 0 < e_size f -> e_state f = ELEM_FREE ->
    split_layout a o e n L !! (x + e_size f) = Some m -> e_state m = ELEM_FREE -> x = a.
Proof.
  intros HM Ha Hn Hns Ho x f m Hx Hpos Hfs Hnx Hms.
  assert (forall y, split_layout a o e n L !! y = Some m -> y <> a + o ->
    exists m', L !! y = Some m' /\ e_state m' = ELEM_FREE) as Hback.
  { intros y Hy Hne. apply split_lookup in Hy; [|done].
    destruct Hy as [[-> ->]|[[-> ->]|[[-> ->]|(? & ? & ? & Hy)]]]; eauto. done. }
  apply split_lookup in Hx; [|done].
  destruct Hx as [[-> ->]|[[-> ->]|[[-> ->]|(? & ? & ? & Hx)]]]; [done|exfalso..]; simpl in *.
  - congruence.
  - replace (a + o + (e_size e - o)) with (a + e_size e) in Hnx by lia.
    destruct (Hback _ Hnx ltac:(lia)) as (m' & Hm' & Hfree).
    congruence.
  - pose proof (mid_rep _ _ _ HM) as HR. destruct (bw_next _ _ _ _ (wf_blk _ _ (rep_wf _ _ HR) x f Hx) Hpos) as (m0 & Hm0 & Hm0p & _).
    assert (x + e_size f <> a + o) as Hne.
    { intros E. rewrite E, (wf_fresh (memseg s) L a e) in Hm0; [done|apply HR|done|].
      rewrite extent_size by lia. lia. }
    destruct (Hback _ Hnx Hne) as (m' & Hm' & Hfree).
    apply H. by apply (mid_coalesced _ _ _ HM x f m').
Qed.

(** Cutting the tail off a free element that is being allocated from. *)
Lemma wp_trim s L a e n o (Q : unit -> mem_config -> Prop) :
  mid s L a -> L !! a = Some e -> e_state e = ELEM_FREE -> L !! (a + e_size e) = Some n -> e_state n <> ELEM_FREE ->
  o mod 64 = 0 -> 64 <= o -> o + 64 <= e_size e ->
  (forall s', mid s' (split_layout a o e n L) a -> frame [a + o; a + e_size e; a; a + o] s s' -> Q tt s') ->
  wp (split_elem a (a + o) ;; malloc_elem_free_list_insert (a + o)) Q s.
Proof.
  intros HM Ha Hst Hn Hns Hom Ho Hoe HQ. pose proof (mid_rep _ _ _ HM) as HR.
  set (L1 := split_layout a o e n L) in *.
  assert (L !! (a + o) = None) as Hm.
  { apply (wf_fresh (memseg s) L a e); auto; [apply HR|]. rewrite extent_size by lia. lia. }
  destruct (elem_has_heap _ _ _ _ (rep_wf _ _ HR) Ha) as [h Hh].
  pose proof (elem_heap s L a e h HR (mid_heaps _ _ _ HM) Ha Hh) as Hhl.
  wp_step. apply (wp_split s L a e n o); auto; [congruence|]. intros s1 HR1 Hf1 Hhs1.
  set (e2 := Elem (e_heap e) (Some a) (e_ms e) ELEM_FREE 0 (e_size e - o)).
  assert (L1 !! (a + o) = Some e2) as Hm1.
  { apply split_lookup; [lia|]. right; right; left. done. }
  apply (wp_insert s1 L1 (fun h idx x => free_at L h idx x /\ x <> a) (a + o) e2 h); auto.
  - by rewrite Hhs1.
  - simpl. lia.
  - rewrite insert_same_free by done. apply HR1.
  - apply (lists_heaps s); [done|]. apply HM.
  - intros h' idx ((f & Hf & _) & _). congruence.
  - intros s2 HR2 Hl2 Hf2. rewrite insert_same_free in HR2 by done.
    pose proof (frame_app _ _ _ _ _ Hf1 Hf2) as Hf. simpl in Hf.
    assert (on_layout [a + o; a + e_size e; a; a + o] L1) as HA.
    { intros x Hx. apply (split_on_layout a o e n L). set_solver. }
    destruct (split_mid _ s s2 L a e n o HM Ha Hst Hn Ho Hoe HR2 Hf HA) as (Hp & Hc & Hhe).
    apply HQ; [|done]. split; auto.
    + apply (split_coalesced s); auto. lia.
    + eapply lists_ext; [|apply Hl2]. intros h' idx x. unfold L1. rewrite free_at_split by (auto; lia).
      simpl. naive_solver.
Qed.

Lemma free_at_busy (L : gmap Z malloc_elem) a f h idx x :
  e_state f <> ELEM_FREE -> free_at (<[a := f]> L) h idx x <-> free_at L h idx x /\ x <> a.
Proof.
  intros Hf. unfold free_at. split.
  - intros (g & Hg & ?). apply lookup_insert_Some in Hg as [[<- <-]|[Hne Hg]]; [tauto|].
    split; [eauto|done].
  - intros ((g & Hg & ?) & Hne). exists g. by rewrite lookup_insert_ne by done.
Qed.

(** The element becomes the allocated one. *)
Lemma shape_busy A s s' L a e pad :
  mid s L a -> L !! a = Some e -> e_state e = ELEM_FREE ->
  rep s' (<[a := marked ELEM_BUSY pad e]> L) -> frame A s s' -> heaps s' = heaps s ->
  (forall x, x ∈ A -> x = a \/ x = a + pad) ->
  (0 < pad -> pad + 64 <= e_size e /\
     exists pe, elems s' !! (a + pad) = Some pe /\ e_state pe = ELEM_PAD /\ e_pad pe = pad) -> 0 <= pad ->
  shape s' (<[a := marked ELEM_BUSY pad e]> L).
Proof.
  intros [HR Hp Hc Hco Hl Hh] Ha Hst HR' Hf Hhs HA Hpad Hpad0.
  pose proof (rep_wf _ _ HR) as HL. pose proof (rep_wf _ _ HR') as HL'.
  assert (forall x f y, L !! x = Some f -> x <> a -> x < y < x + extent f -> y ∉ A) as Hout.
  { intros x f y Hx Hne Hy Hin. assert (y = a \/ y = a + pad /\ 0 < pad) as [->|[-> ?]] by (destruct (HA y Hin); lia).
    - pose proof (wf_lookup_inside _ L x f a e HL Hx Ha). lia.
    - destruct Hpad as [? _]; [done|]. destruct (Z.lt_total x a) as [Hlt|[->|Hlt]]; [|done|].
      + pose proof (wf_disj _ _ HL x f a e Hx Ha Hlt). lia.
      + pose proof (wf_disj _ _ HL a e x f Ha Hx Hlt). rewrite extent_size in * by lia. lia. }
  split; [done|..].
  - intros x f Hx Hb Hpos. apply lookup_insert_Some in Hx as [[<- <-]|[Hne Hx]].
    + simpl in *. destruct (Hpad Hpos) as [_ ?]. done.
    + destruct (Hp x f Hx Hb Hpos) as (pe & Hpe & ? & ?). exists pe. rewrite (fr_elems _ _ _ Hf); [done|].
      pose proof (wf_blk _ _ HL x f Hx) as W. pose proof (bw_pad_room _ _ _ _ W Hb Hpos).
      apply (Hout x f); auto. rewrite extent_size by lia. lia.
  - intros x f y Hx Hfs Hy. apply lookup_insert_Some in Hx as [[<- <-]|[Hne Hx]]; [done|].
    destruct (Hc x f y Hx Hfs Hy) as [Hb He]. split.
    + destruct (fr_bytes _ _ _ Hf y) as [->|[-> _]]; done.
    + rewrite (fr_elems _ _ _ Hf); [done|]. apply (Hout x f); auto.
      pose proof (wf_blk _ _ HL x f Hx) as W. pose proof (size_extent f (bw_nonneg _ _ _ _ W)). lia.
  - intros x f n Hx Hpos Hfs Hn Hns. apply lookup_insert_Some in Hx as [[<- <-]|[Hne Hx]]; [done|].
    apply lookup_insert_Some in Hn as [[? <-]|[Hne' Hn]]; [done|].
    apply Hne. symmetry. by apply (Hco x f n).
  - apply (lists_heaps s); [done|]. eapply lists_ext; [|apply Hl]. intros h idx x. by rewrite free_at_busy.
  - by apply (heaps_exist_frame _ s s' Hf).
Qed.

(** Allocation without a split in front of the data: the header is the element's, or a
    dummy one 64 bytes behind it. *)
Definition pad_elem (elem new_elem old_elem_size : Z) : M mem_config Z :=
  upd_elem elem (fun e => with_pad (u32 old_elem_size) (with_state ELEM_BUSY e)) ;;
  e ← get_elem elem;
  (if 0 <? e_pad e then
     upd_elem new_elem (fun n => with_size (u64 (e_size e - e_pad e)) (with_state ELEM_PAD (with_pad (e_pad e) n)))
   else mret tt) ;;
  mret new_elem.

Lemma wp_pad s L a e pad (Q : Z -> mem_config -> Prop) :
  mid s L a -> L !! a = Some e -> e_state e = ELEM_FREE -> pad = 0 \/ pad = 64 -> pad + 64 <= e_size e ->
  (forall s', shape s' (<[a := marked ELEM_BUSY pad e]> L) -> frame [a; a + pad] s s' -> Q (a + pad) s') ->
  wp (pad_elem a (a + pad) pad) Q s.
Proof.
  intros HM Ha Hst Hpad Hroom HQ. pose proof (mid_rep _ _ _ HM) as HR.
  assert (u32 pad = pad) as Hu by (apply wrapu_small; lia).
  unfold pad_elem. rewrite Hu. wp_step.
  assert (wfL (memseg s) (<[a := marked ELEM_BUSY pad e]> L)) as HL'.
  { apply wf_mark; auto; [apply HR|lia..|destruct Hpad as [->| ->]; done|lia]. }
  apply (wp_upd s L a e); auto. intros s1 HR1 Hf1 E1 Hh1. wp_step.
  eapply wp_get; [exact HR1|apply lookup_insert_eq|]. simpl. wp_step.
  destruct Hpad as [->| ->].
  - simpl. wp_step. apply HQ; [|apply (frame_mono [a]); [done|set_solver]].
    apply (shape_busy [a] s s1); auto; [set_solver|lia..].
  - simpl. wp_step. unfold upd_elem. wp_step.
    assert (elem_ok s (a + 64) = true) as Hok.
    { apply (rep_elem_ok s L a e); auto; [lia|]. rewrite extent_size by lia. lia. }
    assert (elem_ok s1 (a + 64) = true) as Hok1.
    { unfold elem_ok, mapped in *. by rewrite (fr_segs _ _ _ Hf1). }
    apply wp_get_zero; [done|..].
    + rewrite (fr_elems _ _ _ Hf1) by (rewrite list_elem_of_singleton; lia).
      apply (mid_clean _ _ _ HM a e); auto. lia.
    + intros x Hx. destruct (fr_bytes _ _ _ Hf1 x) as [->|[-> _]]; [|done].
      apply (mid_clean _ _ _ HM a e); auto. lia.
    + apply wp_put; [done|]. wp_step. set (pe := with_size _ _).
      pose proof (frame_app _ _ _ _ _ Hf1 (frame_put (a + 64) pe s1)) as Hf2.
      apply HQ; [|done]. apply (shape_busy ([a] ++ [a + 64]) s _ L a e 64 HM Ha Hst); [|exact Hf2|done|set_solver| |lia].
      * split; [by rewrite (fr_segs _ _ _ Hf2)| |rewrite (fr_segs _ _ _ Hf2); apply HR].
        cbn. etrans; [apply HR1|]. apply insert_subseteq.
        rewrite (fr_elems _ _ _ Hf1) by (rewrite list_elem_of_singleton; lia). apply (mid_clean _ _ _ HM a e); auto. lia.
      * intros _. split; [done|]. exists pe. split; [apply lookup_insert_eq|done].
Qed.

(** The layout when the front of the element stays free. *)
Definition cut_layout (a o : Z) (e n : malloc_elem) (L : gmap Z malloc_elem) : gmap Z malloc_elem :=
  <[a + o := Elem (e_heap e) (Some a) (e_ms e) ELEM_BUSY 0 (e_size e - o)]> (split_layout a o e n L).

Lemma cut_lookup a o e n L x f :
  0 < o < e_size e ->
  cut_layout a o e n L !! x = Some f <->
  (x = a /\ f = with_size o e) \/ (x = a + e_size e /\ f = with_prev (Some (a + o)) n)
  \/ (x = a + o /\ f = Elem (e_heap e) (Some a) (e_ms e) ELEM_BUSY 0 (e_size e - o))
  \/ (x <> a /\ x <> a + e_size e /\ x <> a + o /\ L !! x = Some f).
Proof.
  intros Ho. unfold cut_layout. rewrite lookup_insert_Some, split_lookup by done. naive_solver lia.
Qed.

Lemma cut_shape A s s' L a e n o :
  mid s L a -> L !! a = Some e -> e_state e = ELEM_FREE -> L !! (a + e_size e) = Some n ->
  64 <= o -> o + 64 <= e_size e ->
  rep s' (cut_layout a o e n L) -> frame A s s' -> on_layout A (split_layout a o e n L) ->
  lists_ok s' (fun h idx x => (free_at L h idx x /\ x <> a) \/
     x = a /\ e_heap e = Some h /\ idx = Z.to_nat (malloc_elem_free_list_index (o - MALLOC_ELEM_HEADER_LEN))) ->
  shape s' (cut_layout a o e n L).
Proof.
  intros HM Ha Hst Hn Ho Hoe HR' Hf HA Hl. pose proof HM as [HR Hp Hc Hco _ Hh].
  pose proof (rep_wf _ _ HR') as HL'. pose proof (rep_wf _ _ HR) as HL.
  assert (on_layout A (cut_layout a o e n L)) as HA'.
  { intros x Hx. unfold cut_layout. destruct (decide (a + o = x)) as [->|]; [rewrite lookup_insert_eq; by eexists|].
    rewrite lookup_insert_ne by done. auto. }
  assert (L !! (a + o) = None) as Hm.
  { apply (wf_fresh (memseg s) L a e); auto. rewrite extent_size by lia. lia. }
  split; [done|..].
  - apply (pads_frame _ s s' L _ Hp Hf HL' HA'). intros x f Hx Hb Hpos. apply cut_lookup in Hx; [|lia].
    destruct Hx as [[-> ->]|[[-> ->]|[[-> ->]|(? & ? & ? & Hx)]]]; simpl in *; eauto. lia.
  - apply (clean_frame _ s s' L _ Hc Hf HL' HA'). intros x f Hx Hfs. apply cut_lookup in Hx; [|lia].
    destruct Hx as [[-> ->]|[[-> ->]|[[-> ->]|(? & ? & ? & Hx)]]]; simpl in *; [..|done|].
    + exists a, e. split_and!; auto; lia.
    + exists (a + e_size e), n. split_and!; auto; lia.
    + exists x, f. split_and!; auto; lia.
  - assert (forall y m, cut_layout a o e n L !! y = Some m -> e_state m = ELEM_FREE ->
      exists m', L !! y = Some m' /\ e_state m' = ELEM_FREE /\ (y <> a -> e_size m' = e_size m)) as Hback.
    { intros y m Hy Hms. apply cut_lookup in Hy; [|lia].
      destruct Hy as [[-> ->]|[[-> ->]|[[-> ->]|(? & ? & ? & Hy)]]]; simpl in *; eauto 10; [..|done].
      exists e. done. }
    intros x f m Hx Hpos Hfs Hnx Hms. destruct (decide (x = a)) as [->|Hne].
    + apply cut_lookup in Hx; [|lia]. assert (f = with_size o e) as -> by naive_solver lia. simpl in *.
      apply cut_lookup in Hnx; [|lia]. naive_solver lia.
    + destruct (Hback x f Hx Hfs) as (f' & Hf' & Hfs' & Esz). rewrite <- Esz in * by done.
      destruct (Hback _ m Hnx Hms) as (m' & Hm' & Hms' & _). apply Hne. by apply (Hco x f' m').
  - eapply lists_ext; [|apply Hl]. intros h idx x. unfold cut_layout. rewrite free_at_busy by done.
    pose proof (free_at_split L a e n o h idx x Ha Hn Hm ltac:(lia) Hst) as Hfs.
    destruct (decide (x = a)) as [->|Hne].
    + split; [|intros [(f & Hf' & _ & ? & ?) _]].
      * intros [[_ ?]|(_ & ? & ->)]; [done|]. split; [|lia]. exists (with_size o e). split; [|done].
        apply split_lookup; [lia|]. by left.
      * apply split_lookup in Hf'; [|lia]. assert (f = with_size o e) as -> by naive_solver lia. right. done.
    + split.
      * intros [HF|(-> & _)]; [|done]. assert (x <> a + o) by (intros ->; destruct HF as [(g & ? & _) _]; congruence).
        split; [|done]. apply Hfs. by left.
      * intros [HF Hxo]. destruct (proj1 Hfs (conj HF Hne)) as [?|(-> & _)]; [by left|done].
  - by apply (heaps_exist_frame _ s s' Hf).
Qed.

Lemma wp_cut s L a e n o (Q : Z -> mem_config -> Prop) :
  mid s L a -> L !! a = Some e -> e_state e = ELEM_FREE -> L !! (a + e_size e) = Some n ->
  o mod 64 = 0 -> 64 <= o -> o + 64 <= e_size e ->
  (forall s', shape s' (cut_layout a o e n L) -> frame [a + o; a + e_size e; a; a + o; a] s s' -> Q (a + o) s') ->
  wp (split_elem a (a + o) ;; upd_elem (a + o) (with_state ELEM_BUSY) ;; malloc_elem_free_list_insert a ;; mret (a + o)) Q s.
Proof.
  intros HM Ha Hst Hn Hom Ho Hoe HQ. pose proof (mid_rep _ _ _ HM) as HR.
  destruct (elem_has_heap _ _ _ _ (rep_wf _ _ HR) Ha) as [h Hh].
  pose proof (elem_heap s L a e h HR (mid_heaps _ _ _ HM) Ha Hh) as Hhl.
  wp_step. apply (wp_split s L a e n o); auto; [congruence|]. intros s1 HR1 Hf1 Hhs1. wp_step.
  set (e2 := Elem (e_heap e) (Some a) (e_ms e) ELEM_FREE 0 (e_size e - o)).
  assert (split_layout a o e n L !! (a + o) = Some e2) as Hm1.
  { apply split_lookup; [lia|]. right; right; left. done. }
  apply (wp_upd s1 (split_layout a o e n L) (a + o) e2); auto.
  { apply (wf_mark _ _ (a + o) e2 ELEM_BUSY 0); auto; [apply HR1|simpl; lia..]. }
  change (<[a + o := with_state ELEM_BUSY e2]> (split_layout a o e n L)) with (cut_layout a o e n L).
  intros s2 HR2 Hf2 _ Hhs2. wp_step.
  assert (cut_layout a o e n L !! a = Some (with_size o e)) as Ha2 by (apply cut_lookup; [lia|by left]).
  apply (wp_insert s2 _ (fun h idx x => free_at L h idx x /\ x <> a) a (with_size o e) h _ HR2 Ha2); auto.
  - by rewrite Hhs2, Hhs1.
  - rewrite insert_same_free by done. apply HR2.
  - apply (lists_heaps s); [congruence|]. apply HM.
  - tauto.
  - intros s3 HR3 Hl3 Hf3. rewrite insert_same_free in HR3 by done. wp_step.
    pose proof (frame_app _ _ _ _ _ (frame_app _ _ _ _ _ Hf1 Hf2) Hf3) as Hf. simpl in Hf.
    apply HQ; [|done]. apply (cut_shape _ s s3 L a e n o HM Ha Hst Hn Ho Hoe HR3 Hf).
    + intros x Hx. apply (split_on_layout a o e n L). set_solver.
    + eapply lists_ext; [|apply Hl3]. intros h' idx x. simpl. rewrite Hh. naive_solver.
Qed.
