(* ===== verification/MallocSpec.v ===== *)
(** Allocation and release on a heap. *)
From Stdlib Require Import ZArith Lia.
From stdpp Require Import base numbers list gmap.
From S2P Require Import Prelude Ring Malloc MallocLayout MallocRep MallocAlloc.

#[local] Open Scope Z_scope.

(** ** Taking a block from an element *)

Lemma live_insert (L : gmap Z malloc_elem) a f d n :
  (forall e, L !! a = Some e -> e_state e <> ELEM_BUSY) ->
  live_block (<[a := f]> L) d n <->
  live_block L d n \/ (e_state f = ELEM_BUSY /\ 0 < e_size f /\ d = a + e_pad f + MALLOC_ELEM_HEADER_LEN
                       /\ n = e_size f - e_pad f - MALLOC_ELEM_HEADER_LEN).
Proof.
  intros Hne. unfold live_block. split.
  - intros (x & g & Hx & H). apply lookup_insert_Some in Hx as [[<- <-]|[? Hx]]; [by right|left; eauto].
  - intros [(x & g & Hx & Hb & H)|H].
    + exists x, g. rewrite lookup_insert_ne; [auto|]. intros ->. by apply (Hne g).
    + exists a, f. rewrite lookup_insert_eq. auto.
Qed.

(** Allocated elements stay where they are, but for the link to the one before. *)
Definition busy_kept (L L' : gmap Z malloc_elem) : Prop :=
  forall b f, L !! b = Some f -> e_state f = ELEM_BUSY -> exists p, L' !! b = Some (with_prev p f).

Lemma busy_kept_trans L1 L2 L3 : busy_kept L1 L2 -> busy_kept L2 L3 -> busy_kept L1 L3.
Proof.
  intros H1 H2 b f Hb Hf. destruct (H1 b f Hb Hf) as [p Hp]. destruct (H2 b _ Hp Hf) as [q Hq].
  exists q. by destruct f.
Qed.

Lemma with_prev_id f : with_prev (e_prev f) f = f.
Proof. by destruct f. Qed.

Lemma busy_kept_split L a e n o :
  L !! a = Some e -> L !! (a + e_size e) = Some n -> L !! (a + o) = None -> 0 < o < e_size e -> e_state e = ELEM_FREE ->
  busy_kept L (split_layout a o e n L).
Proof.
  intros Ha Hn Hm Ho Hst b f Hb Hf. assert (b <> a) by congruence. destruct (decide (b = a + e_size e)) as [->|].
  - assert (f = n) as -> by congruence. eexists. rewrite split_lookup by done. right; left. eauto.
  - exists (e_prev f). rewrite with_prev_id, split_lookup by done. right; right; right. split_and!; congruence.
Qed.

(** One more block, everything else as before. *)
Record one_more (h : nat) (d n : Z) (L L' : gmap Z malloc_elem) : Prop := OneMore {
  om_live : forall d' n', live_block L' d' n' <-> live_block L d' n' \/ d' = d /\ n' = n;
  om_bytes : forall g, msum (heap_bytes g) L' = msum (heap_bytes g) L;
  om_busy : forall g, msum (heap_busy g) L' = msum (heap_busy g) L + (if decide (h = g) then 1 else 0);
  om_keep : busy_kept L L'
}.

Lemma heap_bytes_prev h p e : heap_bytes h (with_prev p e) = heap_bytes h e.
Proof. done. Qed.

Lemma heap_busy_prev h p e : heap_busy h (with_prev p e) = heap_busy h e.
Proof. done. Qed.

Lemma heap_busy_free h e : e_state e = ELEM_FREE -> heap_busy h e = 0.
Proof. intros E. unfold heap_busy. rewrite decide_False; [done|]. rewrite E. naive_solver. Qed.

Lemma heap_busy_busy h g e : e_heap e = Some h -> e_state e = ELEM_BUSY -> 0 < e_size e ->
  heap_busy g e = if decide (h = g) then 1 else 0.
Proof.
  intros Hh Hs Hpos. unfold heap_busy. rewrite Hh. destruct (decide (h = g)) as [->|].
  - by rewrite decide_True.
  - rewrite decide_False; [done|]. naive_solver.
Qed.

Lemma mark_one_more L a e h pad :
  L !! a = Some e -> e_state e = ELEM_FREE -> e_heap e = Some h -> 0 < e_size e ->
  one_more h (a + pad + 64) (e_size e - pad - 64) L (<[a := marked ELEM_BUSY pad e]> L).
Proof.
  intros Ha Hst Hh Hpos. split.
  - intros d n. rewrite live_insert by (intros; congruence). simpl. unfold MALLOC_ELEM_HEADER_LEN. naive_solver.
  - intros g. rewrite msum_insert, Ha. simpl. change (heap_bytes g (marked ELEM_BUSY pad e)) with (heap_bytes g e). lia.
  - intros g. rewrite msum_insert, Ha. simpl. rewrite heap_busy_free by done.
    rewrite (heap_busy_busy h) by done. lia.
  - intros b f Hb Hf. exists (e_prev f). rewrite with_prev_id, lookup_insert_ne; [done|congruence].
Qed.

Lemma heap_bytes_split g a e o st p :
  heap_bytes g (with_size o e) + heap_bytes g (Elem (e_heap e) p (e_ms e) st 0 (e_size e - o)) = heap_bytes g e
  /\ heap_bytes g (Elem (e_heap e) a (e_ms e) st 0 (e_size e - o)) = heap_bytes g (Elem (e_heap e) p (e_ms e) st 0 (e_size e - o)).
Proof. unfold heap_bytes. simpl. destruct (decide (e_heap e = Some g)); lia. Qed.

Lemma split_sums L a e n o :
  L !! a = Some e -> L !! (a + e_size e) = Some n -> L !! (a + o) = None -> 0 < o < e_size e -> e_state e = ELEM_FREE ->
  forall g, msum (heap_bytes g) (split_layout a o e n L) = msum (heap_bytes g) L
       /\ msum (heap_busy g) (split_layout a o e n L) = msum (heap_busy g) L.
Proof.
  intros Ha Hn Hm Ho Hst g. rewrite !msum_split by auto. rewrite !heap_busy_free by done.
  pose proof (proj1 (heap_bytes_split g None e o ELEM_FREE (Some a))). lia.
Qed.

Lemma cut_one_more L a e n h o :
  L !! a = Some e -> e_state e = ELEM_FREE -> e_heap e = Some h -> L !! (a + e_size e) = Some n ->
  L !! (a + o) = None -> 0 < o < e_size e ->
  one_more h (a + o + 64) (e_size e - o - 64) L (cut_layout a o e n L).
Proof.
  intros Ha Hst Hh Hn Hm Ho.
  assert (split_layout a o e n L !! (a + o) = Some (Elem (e_heap e) (Some a) (e_ms e) ELEM_FREE 0 (e_size e - o))) as Hs.
  { apply split_lookup; [done|]. right; right; left. done. }
  unfold cut_layout. split.
  - intros d m. rewrite live_insert by (intros f; rewrite Hs; intros [= <-]; done).
    rewrite live_split by done. simpl. unfold MALLOC_ELEM_HEADER_LEN. rewrite Z.add_0_r, Z.sub_0_r.
    assert (0 < e_size e - o) by lia. tauto.
  - intros g. rewrite msum_insert, Hs. simpl. destruct (split_sums L a e n o Ha Hn Hm Ho Hst g) as [-> _].
    unfold heap_bytes. simpl. destruct (decide _); lia.
  - intros g. rewrite msum_insert, Hs. simpl. destruct (split_sums L a e n o Ha Hn Hm Ho Hst g) as [_ ->].
    rewrite heap_busy_free by done. rewrite (heap_busy_busy h); [|done..|simpl; lia]. lia.
  - intros b f Hb Hf. destruct (busy_kept_split L a e n o Ha Hn Hm Ho Hst b f Hb Hf) as [p Hp]. exists p.
    rewrite lookup_insert_ne; [done|congruence].
Qed.

Lemma wp_place s L a e n h o (Q : Z -> mem_config -> Prop) :
  mid s L a -> L !! a = Some e -> e_state e = ELEM_FREE -> e_heap e = Some h -> L !! (a + e_size e) = Some n ->
  o mod 64 = 0 -> 0 <= o -> o + 64 <= e_size e ->
  (forall s' L' A, shape s' L' -> one_more h (a + o + 64) (e_size e - o - 64) L L' ->
     frame A s s' -> (forall y, y ∈ A -> y = a \/ y = a + o \/ y = a + e_size e) -> Q (a + o) s') ->
  wp (if o <? MALLOC_ELEM_OVERHEAD + MIN_DATA_SIZE then pad_elem a (a + o) o
      else split_elem a (a + o) ;; upd_elem (a + o) (with_state ELEM_BUSY) ;;
           malloc_elem_free_list_insert a ;; mret (a + o)) Q s.
Proof.
  intros HM Ha Hst Hh Hn Hom Ho Hoe HQ. pose proof (mid_rep _ _ _ HM) as HR.
  change (MALLOC_ELEM_OVERHEAD + MIN_DATA_SIZE) with 128. destruct (Z.ltb_spec o 128).
  - assert (o = 0 \/ o = 64) as Ho' by (Z.div_mod_to_equations; lia).
    apply (wp_pad s L a e o); auto. intros s' HS Hf. eapply (HQ _ _ _ HS); [|exact Hf|set_solver].
    apply mark_one_more; auto; lia.
  - apply (wp_cut s L a e n o); auto; [lia|]. intros s' HS Hf. eapply (HQ _ _ _ HS); [|exact Hf|set_solver].
    apply cut_one_more; auto; [|lia].
    apply (wf_fresh (memseg s) L a e); [apply HR|done|]. rewrite extent_size by lia. lia.
Qed.

(** The element is taken off its list. *)
Lemma wp_take s L a e h (Q : unit -> mem_config -> Prop) :
  shape s L -> L !! a = Some e -> e_state e = ELEM_FREE -> e_heap e = Some h ->
  (forall s', mid s' L a -> frame [] s s' -> elems s' = elems s -> bytes s' = bytes s -> Q tt s') ->
  wp (elem_free_list_remove a) Q s.
Proof.
  intros [HR Hp Hc Hco Hl Hh] Ha Hst Heh HQ.
  apply (wp_remove s (free_at L) h (Z.to_nat (malloc_elem_free_list_index (e_size e - MALLOC_ELEM_HEADER_LEN)))); auto.
  - by apply (elem_heap s L a e).
  - apply index_lt.
  - exists e. auto.
  - intros s' Hl' Hf He Hb. apply HQ; auto. pose proof (fr_segs _ _ _ Hf) as Hseg. split; auto.
    + destruct HR. split; by rewrite ?Hseg, ?He.
    + by rewrite He.
    + intros x f y. rewrite He, Hb. apply Hc.
    + intros x f n Hx Hpos Hfs Hn Hns. exfalso. by apply (Hco x f n).
    + by apply (heaps_exist_frame [] s).
Qed.

(** What taking a block of [m] usable bytes at [d] from the free element [a] does. *)
Record alloc_post (s : mem_config) (L : gmap Z malloc_elem) (s' : mem_config) (L' : gmap Z malloc_elem)
    (a : Z) (e : malloc_elem) (h : nat) (d m : Z) : Prop := AllocPost {
  ap_shape : shape s' L';
  ap_more : one_more h d m L L';
  ap_frame : exists A, frame A s s' /\ forall y, y ∈ A -> y mod 64 = 0 /\ a <= y <= a + e_size e /\ (y < d \/ d + m <= y)
}.

Lemma wp_elem_alloc s L a e h size align bound p (Q : Z -> mem_config -> Prop) :
  shape s L -> L !! a = Some e -> e_state e = ELEM_FREE -> e_heap e = Some h ->
  size mod 64 = 0 -> 0 <= size ->
  elem_start_pt a (e_size e) size align bound = Some p -> a <= p -> p mod 64 = 0 -> p + 64 + size <= a + e_size e ->
  (forall s' L' m, size <= m <= size + 128 -> p + 64 + m <= a + e_size e ->
     alloc_post s L s' L' a e h (p + 64) m -> Q p s') ->
  wp (malloc_elem_alloc a size align bound) Q s.
Proof.
  intros HS Ha Hst Hh Hsm Hs Hp Hap Hpm Hend HQ. pose proof (sh_rep _ _ HS) as HR.
  pose proof (rep_bounds s L a e HR Ha) as (? & ? & ? & ?).
  pose proof (wf_blk _ _ (rep_wf _ _ HR) a e Ha) as W.
  pose proof (bw_align _ _ _ _ W) as Ham. pose proof (bw_size _ _ _ _ W) as Hem.
  destruct (bw_next _ _ _ _ W ltac:(lia)) as (n & Hn & Hnp & Hnh & Hnm).
  unfold malloc_elem_alloc. wp_step. apply (wp_get s L a e); auto. rewrite Hp. change (default 0 (Some p)) with p.
  assert (exists o, p = a + o /\ o mod 64 = 0) as (o & -> & Hom).
  { exists (p - a). split; [lia|]. rewrite Zminus_mod, Hpm, Ham. done. }
  rewrite (u64_id (a + o - a)) by lia. replace (a + o - a) with o by lia.
  unfold MALLOC_ELEM_OVERHEAD, MIN_DATA_SIZE, MALLOC_ELEM_HEADER_LEN, MALLOC_ELEM_TRAILER_LEN, RTE_CACHE_LINE_SIZE.
  rewrite !u64_id by (rewrite ?u64_id; lia). replace (64 + 0 + 64) with 128 by lia. replace (64 + 0) with 64 by lia.
  wp_step. apply (wp_take s L a e h); auto. intros s1 HM1 Hf1 He1 Hb1. wp_step.
  destruct (Z.ltb_spec 128 (e_size e - o - size - 64)) as [Htr|Htr].
  - replace (a + o + size + 64) with (a + (o + size + 64)) by lia.
    assert ((o + size + 64) mod 64 = 0) as Hcm by (Z.div_mod_to_equations; lia).
    apply (wp_trim s1 L a e n); auto; [by apply (sh_coalesced _ _ HS a e n); auto; lia|lia..|].
    intros s2 HM2 Hf2.
    set (L2 := split_layout a (o + size + 64) e n L) in *.
    assert (L !! (a + (o + size + 64)) = None) as Hfresh.
    { apply (wf_fresh (memseg s) L a e); [apply HR|done|]. rewrite extent_size by lia. lia. }
    apply (wp_place s2 L2 a (with_size (o + size + 64) e)
             (Elem (e_heap e) (Some a) (e_ms e) ELEM_FREE 0 (e_size e - (o + size + 64))) h o); auto; simpl.
    + apply split_lookup; [lia|by left].
    + apply split_lookup; [lia|right; right; left; done].
    + lia.
    + lia.
    + replace (o + size + 64 - o - 64) with size by lia. intros s3 L3 A HS3 [Ho1 Ho2 Ho3 Ho4] Hf3 HA3.
      apply (HQ s3 L3 size); [lia|lia|]. split; [done| |].
      * pose proof (split_sums L a e n (o + size + 64) Ha Hn Hfresh ltac:(lia) Hst) as Hss.
        split; [intros d' n'; rewrite Ho1; unfold L2; by rewrite live_split by (auto; lia)| | |].
        -- intros g. rewrite Ho2. apply Hss.
        -- intros g. rewrite Ho3. unfold L2. by rewrite (proj2 (Hss g)).
        -- apply (busy_kept_trans _ L2); [|done]. by apply busy_kept_split; auto; lia.
      * eexists. split; [exact (frame_app _ _ _ _ _ (frame_app _ _ _ _ _ Hf1 Hf2) Hf3)|].
        intros y Hy. assert (y = a + (o + size + 64) \/ y = a + e_size e \/ y = a \/ y = a + o) as Hy' by set_solver.
        destruct Hy' as [->|[->|[->| ->]]]; Z.div_mod_to_equations; lia.
  - wp_step. apply (wp_place s1 L a e n h o); auto; [lia..|].
    intros s3 L3 A HS3 HO Hf3 HA3. apply (HQ s3 L3 (e_size e - o - 64)); [lia..|]. split; auto.
    eexists. split; [exact (frame_app _ _ _ _ _ Hf1 Hf3)|].
    intros y Hy. assert (y = a \/ y = a + o \/ y = a + e_size e) as Hy' by set_solver.
    destruct Hy' as [->|[->| ->]]; Z.div_mod_to_equations; lia.
Qed.

(** ** Finding an element *)

Definition can_hold (L : gmap Z malloc_elem) (size align bound a : Z) : Prop :=
  exists e, L !! a = Some e /\ is_Some (elem_start_pt a (e_size e) size align bound).

Definition page_ok (s : mem_config) (L : gmap Z malloc_elem) (flags a : Z) : Prop :=
  exists e k ms, L !! a = Some e /\ e_ms e = Some k /\ memseg s !! k = Some ms
    /\ check_hugepage_sz flags (ms_hugepage_sz ms) <> 0.

(** The outcome of searching the elements [P]. *)
Definition found (s : mem_config) (L : gmap Z malloc_elem) (size flags align bound : Z) (P : Z -> Prop)
    (alt : option Z) (r : Z + option Z) : Prop :=
  match r with
  | inl a => P a /\ can_hold L size align bound a /\ page_ok s L flags a
  | inr alt' =>
    (forall a, P a -> can_hold L size align bound a -> ~ page_ok s L flags a)
    /\ (alt' = alt \/ exists b, alt' = Some b /\ P b /\ can_hold L size align bound b)
    /\ (alt' = None -> forall a, P a -> ~ can_hold L size align bound a)
  end.

Section Find.
Context (s : mem_config) (L : gmap Z malloc_elem) (size flags align bound : Z).
Hypothesis HR : rep s L.

Lemma found_skip P alt r a : found s L size flags align bound P alt r -> ~ can_hold L size align bound a ->
  found s L size flags align bound (fun x => x = a \/ P x) alt r.
Proof. destruct r; simpl; naive_solver. Qed.

Lemma found_alt P (alt : option Z) r a :
  found s L size flags align bound P (match alt with None => Some a | Some b => Some b end) r ->
  can_hold L size align bound a -> ~ page_ok s L flags a ->
  found s L size flags align bound (fun x => x = a \/ P x) alt r.
Proof. destruct r, alt; simpl; naive_solver. Qed.

Lemma wp_find_in_list l alt (Q : Z + option Z -> mem_config -> Prop) :
  (forall a, a ∈ l -> is_Some (L !! a)) ->
  (forall r, found s L size flags align bound (fun a => a ∈ l) alt r -> Q r s) ->
  wp (find_in_list size flags align bound l alt) Q s.
Proof.
  revert alt Q. induction l as [|a l IH]; intros alt Q Hl HQ; simpl.
  { wp_step. apply HQ. simpl. split_and!; [set_solver|by left|set_solver]. }
  destruct (Hl a) as [e He]; [set_solver|].
  assert (forall Q' alt', (forall r, found s L size flags align bound (fun a => a ∈ l) alt' r -> Q' r s) ->
    wp (find_in_list size flags align bound l alt') Q' s) as IH' by (intros; apply IH; [set_solver|done]).
  assert (forall r, found s L size flags align bound (fun x => x = a \/ x ∈ l) alt r -> Q r s) as HQ'.
  { intros r Hr. apply HQ. destruct r; simpl in *; setoid_rewrite elem_of_cons; done. }
  unfold malloc_elem_can_hold. wp_step. apply (wp_get s L a e); auto. wp_step.
  destruct (elem_start_pt a (e_size e) size align bound) as [p|] eqn:Ep.
  - assert (can_hold L size align bound a) as Hc by (exists e; rewrite Ep; auto).
    wp_step. apply (wp_get s L a e); auto. unfold elem_memseg, id. wp_step.
    destruct (bw_seg _ _ _ _ (wf_blk _ _ (rep_wf _ _ HR) a e He)) as (k & ms & Hek & Hk & _).
    rewrite Hek, Hk. wp_step. destruct (Z.eqb_spec (check_hugepage_sz flags (ms_hugepage_sz ms)) 0) as [E0|E0]; simpl.
    + apply IH'. intros r Hr. apply HQ', found_alt; auto.
      intros (e' & k' & ms' & He' & Hk' & Hms' & Hck). congruence.
    + wp_step. apply HQ'. simpl. split_and!; [by left|done|]. exists e, k, ms. auto.
  - apply IH'. intros r Hr. apply HQ', found_skip; [done|].
    intros (e' & He' & p & Hp). congruence.
Qed.

Lemma wp_find_in_lists ls alt (Q : Z + option Z -> mem_config -> Prop) :
  (forall l a, l ∈ ls -> a ∈ l -> is_Some (L !! a)) ->
  (forall r, found s L size flags align bound (fun a => exists l, l ∈ ls /\ a ∈ l) alt r -> Q r s) ->
  wp (find_in_lists size flags align bound ls alt) Q s.
Proof.
  revert alt Q. induction ls as [|l ls IH]; intros alt Q Hl HQ; simpl.
  { wp_step. apply HQ. simpl. split_and!; [set_solver|by left|set_solver]. }
  wp_step. apply wp_find_in_list; [set_solver|]. intros [a|alt'] Hr; simpl in Hr.
  - wp_step. apply HQ. simpl. destruct Hr as (? & ? & ?). split_and!; auto. exists l. set_solver.
  - destruct Hr as (Hno & Halt & Hnone). apply IH; [set_solver|]. intros r Hr. apply HQ.
    destruct r as [a|alt2]; simpl in *.
    + destruct Hr as ((l' & ? & ?) & ? & ?). split_and!; auto. exists l'. set_solver.
    + destruct Hr as (Hno2 & Halt2 & Hnone2). split_and!.
      * intros a (l' & Hl' & Ha). apply elem_of_cons in Hl' as [->|Hl']; [auto|]. apply Hno2. eauto.
      * destruct Halt2 as [->|(b & -> & (l' & ? & ?) & ?)]; [|right; exists b; set_solver].
        destruct Halt as [->|(b & -> & ? & ?)]; [by left|right; exists b; set_solver].
      * intros -> a (l' & Hl' & Ha). apply elem_of_cons in Hl' as [->|Hl']; [|apply Hnone2; eauto].
        apply Hnone; [|done]. destruct Halt2 as [?|(b & ? & _)]; [done|done].
Qed.
End Find.

(** The search from the list for [size] on misses nothing. *)
Lemma wp_find_suitable s L h size flags align bound (Q : option Z -> mem_config -> Prop) :
  shape s L -> (h < length (heaps s))%nat -> u32 align = align ->
  (forall a e, L !! a = Some e -> e_state e = ELEM_FREE -> can_hold L size align bound a -> size <= e_size e - 64) ->
  ((forall a e, L !! a = Some e -> e_state e = ELEM_FREE -> e_heap e = Some h -> can_hold L size align bound a ->
      ~ page_ok s L flags a /\ Z.land flags RTE_MEMZONE_SIZE_HINT_ONLY = 0) -> Q None s) ->
  (forall a e, L !! a = Some e -> e_state e = ELEM_FREE -> e_heap e = Some h -> can_hold L size align bound a ->
     page_ok s L flags a \/ Z.land flags RTE_MEMZONE_SIZE_HINT_ONLY <> 0 -> Q (Some a) s) ->
  wp (find_suitable_element h size flags align bound) Q s.
Proof.
  intros HS Hh Hal Hsz HN HY. unfold find_suitable_element, get_heap, id. wp_step.
  destruct (lookup_lt_is_Some_2 _ _ Hh) as [hp Hhp]. rewrite Hhp. wp_step. rewrite Hal.
  destruct (sh_lists _ _ HS h hp Hhp) as [Hlen Hlists]. set (i0 := malloc_elem_free_list_index size).
  assert (forall a, (exists l, l ∈ drop (Z.to_nat i0) (free_head hp) /\ a ∈ l) ->
    exists e, L !! a = Some e /\ e_state e = ELEM_FREE /\ e_heap e = Some h) as Hin.
  { intros a (l & Hl & Ha). apply list_elem_of_lookup in Hl as [j Hj]. rewrite lookup_drop in Hj.
    destruct (Hlists _ _ Hj) as [_ Hiff]. apply Hiff in Ha as (e & ? & ? & ? & _). eauto. }
  assert (forall a e, L !! a = Some e -> e_state e = ELEM_FREE -> e_heap e = Some h -> can_hold L size align bound a ->
    exists l, l ∈ drop (Z.to_nat i0) (free_head hp) /\ a ∈ l) as Hall.
  { intros a e Ha Hst Heh Hc. pose proof (Hsz a e Ha Hst Hc) as Hle.
    set (i := malloc_elem_free_list_index (e_size e - MALLOC_ELEM_HEADER_LEN)).
    assert (i0 <= i) by (apply index_mono; unfold MALLOC_ELEM_HEADER_LEN; lia).
    pose proof (index_range size). fold i0 in H0.
    destruct (lookup_lt_is_Some_2 (free_head hp) (Z.to_nat i)) as [l Hl]; [rewrite Hlen; apply index_lt|].
    exists l. split.
    - apply list_elem_of_lookup. exists (Z.to_nat i - Z.to_nat i0)%nat. rewrite lookup_drop, <- Hl. f_equal. lia.
    - apply (proj2 (Hlists _ _ Hl)). exists e. auto. }
  apply (wp_find_in_lists s L); [apply HS| |].
  { intros l a Hl Ha. destruct (Hin a) as (e & ? & _); eauto. }
  intros [a|alt] Hr; simpl in Hr; wp_step.
  - destruct Hr as (HP & Hc & Hpg). destruct (Hin a HP) as (e & ? & ? & ?). apply (HY a e); auto.
  - destruct Hr as (Hno & Halt & Hnone).
    destruct (Z.eqb_spec (Z.land flags RTE_MEMZONE_SIZE_HINT_ONLY) 0) as [E|E]; simpl.
    + apply HN. intros a e Ha Hst Heh Hc. split; [|done]. eauto.
    + destruct Halt as [->|(b & -> & HP & Hc)].
      * apply HN. intros a e Ha Hst Heh Hc. destruct (Hnone eq_refl a); eauto.
      * destruct (Hin b HP) as (e & ? & ? & ?). apply (HY b e); auto.
Qed.

(** ** The heap *)

Lemma lists_heap_count s F h f : lists_ok s F -> lists_ok (set_heaps (alter (heap_count f) h) s) F.
Proof.
  intros Hl g hp. cbn. intros Hg. destruct (decide (h = g)) as [<-|].
  - rewrite list_lookup_alter_eq in Hg. apply fmap_Some in Hg as (hp0 & Hg & ->). apply (Hl h hp0 Hg).
  - rewrite list_lookup_alter_ne in Hg by done. by apply Hl.
Qed.

Lemma shape_heap_count s L h f : shape s L -> shape (set_heaps (alter (heap_count f) h) s) L.
Proof.
  intros [HR Hp Hc Hco Hl Hh]. split; auto.
  - by apply rep_heaps.
  - by apply lists_heap_count.
  - intros k ms Hk. cbn. rewrite length_alter. by apply (Hh k).
Qed.

(** Counting the change of the number of blocks. *)
Lemma counts_count A s s' L L' h dk :
  counts_ok s L -> frame A s s' ->
  (forall g, msum (heap_bytes g) L' = msum (heap_bytes g) L) ->
  (forall g, msum (heap_busy g) L' = msum (heap_busy g) L + (if decide (h = g) then dk else 0)) ->
  counts_ok (set_heaps (alter (heap_count (fun c => c + dk)) h) s') L'.
Proof.
  intros Hc Hf Hbytes Hbusy g hp. cbn. destruct (fr_heaps _ _ _ Hf) as [_ Heq].
  assert (forall hp', heaps s' !! g = Some hp' -> alloc_count hp' = u32 (msum (heap_busy g) L)
    /\ total_size hp' = u64 (msum (heap_bytes g) L)) as Hold.
  { intros hp' Hg. specialize (Heq g). rewrite Hg in Heq. destruct (heaps s !! g) as [hp0|] eqn:E; [|done].
    cbn in Heq. injection Heq as E1 E2. rewrite E1, E2. by apply Hc. }
  rewrite Hbytes, Hbusy. intros Hg. destruct (decide (h = g)) as [<-|].
  - rewrite list_lookup_alter_eq in Hg. apply fmap_Some in Hg as (hp0 & Hg & ->). cbn.
    destruct (Hold hp0 Hg) as [E1 E2]. split; [|done]. rewrite E1. apply wrapu_add_l.
  - rewrite list_lookup_alter_ne in Hg by done. destruct (Hold hp Hg) as [E1 E2]. rewrite Z.add_0_r. auto.
Qed.

Lemma wp_on_heap s h f (Q : unit -> mem_config -> Prop) :
  (h < length (heaps s))%nat -> Q tt (set_heaps (alter f h) s) -> wp (on_heap (Some h) f) Q s.
Proof. intros Hh HQ. unfold on_heap, id. wp_step. rewrite (proj2 (Nat.ltb_lt _ _) Hh). by wp_step. Qed.

(** What a successful allocation gives: the block, its place, and that the rest of the
    memory is as before. *)
Record alloc_ok (s : mem_config) (L : gmap Z malloc_elem) (h : nat) (size flags align bound : Z)
    (d : Z) (s' : mem_config) (L' : gmap Z malloc_elem) : Prop := AllocOk {
  ao_inv : inv s' L';
  ao_place : exists a e m, L !! a = Some e /\ e_state e = ELEM_FREE /\ e_heap e = Some h
    /\ (page_ok s L flags a \/ Z.land flags RTE_MEMZONE_SIZE_HINT_ONLY <> 0)
    /\ fits a (e_size e) size align bound d
    /\ size <= m <= size + 128 /\ d + m <= a + e_size e /\ one_more h d m L L'
    /\ outside a (a + e_size e + 64) s s' /\ zeroed s' d m;
  ao_rest : memseg s' = memseg s /\ length (heaps s') = length (heaps s)
    /\ memzone_cnt s' = memzone_cnt s /\ memzone s' = memzone s
}.

Lemma roundup_props size : 0 <= size < 2 ^ 64 - 63 ->
  RTE_CACHE_LINE_ROUNDUP 64 size mod 64 = 0 /\ size <= RTE_CACHE_LINE_ROUNDUP 64 size < size + 64.
Proof.
  intros Hs. unfold RTE_CACHE_LINE_ROUNDUP, RTE_CACHE_LINE_SIZE. rewrite wrapu_small by lia.
  split; [rewrite Z.mul_comm; apply Z.mod_mul; lia|]. Z.div_mod_to_equations. lia.
Qed.

Lemma request_start segs L a e size align bound :
  request segs size align bound -> segs_ok segs -> wfL segs L -> L !! a = Some e -> 0 < e_size e ->
  elem_start_pt a (e_size e) size align bound = start_pt a (e_size e) size align bound.
Proof.
  intros [[Hsm Hs] (k & Hal & Hk) Hb Hroom] Hsegs HL Ha Hpos.
  destruct (bw_seg _ _ _ _ (wf_blk _ _ HL a e Ha)) as (i & ms & _ & Hi & _ & Hlo & Hup & _).
  destruct (Hsegs i ms Hi). specialize (Hroom i ms Hi). rewrite extent_size in Hup by lia.
  apply (start_pt_eq _ _ _ _ k); auto; [lia| |lia]. destruct Hb as [|(j & ? & ? & _)]; eauto.
Qed.

Lemma request_sound segs L a e size align bound p :
  request segs size align bound -> segs_ok segs -> wfL segs L -> L !! a = Some e -> 0 < e_size e ->
  elem_start_pt a (e_size e) size align bound = Some p ->
  a <= p /\ p mod 64 = 0 /\ fits a (e_size e) size align bound (p + 64).
Proof.
  intros Hrq Hsegs HL Ha Hpos. rewrite (request_start segs L) by done.
  destruct Hrq as [[Hsm Hs] (k & -> & Hk) Hb Hroom]. apply start_pt_sound; auto; [lia| |].
  - apply (wf_blk _ _ HL a e Ha).
  - intros Hb0. destruct Hb as [|(j & -> & ? & ?)]; [done|]. lia.
Qed.

Lemma free_size_pos segs L a e : wfL segs L -> L !! a = Some e -> e_state e = ELEM_FREE -> 0 < e_size e.
Proof.
  intros HL Ha Hst. pose proof (wf_blk _ _ HL a e Ha) as W. pose proof (bw_nonneg _ _ _ _ W).
  destruct (decide (e_size e = 0)) as [E|]; [|lia]. pose proof (bw_end _ _ _ _ W E). congruence.
Qed.

Lemma wp_heap_alloc s L h size flags align bound (Q : option Z -> mem_config -> Prop) :
  let size' := RTE_CACHE_LINE_ROUNDUP 64 size in
  let align' := RTE_CACHE_LINE_ROUNDUP 64 align in
  inv s L -> (h < length (heaps s))%nat -> request (memseg s) size' align' bound ->
  ((forall a e, L !! a = Some e -> e_state e = ELEM_FREE -> e_heap e = Some h -> can_hold L size' align' bound a ->
      ~ page_ok s L flags a /\ Z.land flags RTE_MEMZONE_SIZE_HINT_ONLY = 0) -> Q None s) ->
  (forall d s' L', alloc_ok s L h size' flags align' bound d s' L' -> Q (Some d) s') ->
  wp (malloc_heap_alloc h size flags align bound) Q s.
Proof.
  intros size' align' [HS HC HD] Hh Hrq HN HY. pose proof (sh_rep _ _ HS) as HR. pose proof (rep_wf _ _ HR) as HL.
  pose proof (rep_segs _ _ HR) as Hsegs.
  assert (u32 align' = align') as Hal.
  { destruct (rq_align _ _ _ _ Hrq) as (k & -> & Hk). apply wrapu_small. pose proof (pow2_pos k ltac:(lia)).
    assert (2 ^ k <= 2 ^ 31) by (apply Z.pow_le_mono_r; lia). lia. }
  destruct (rq_size _ _ _ _ Hrq) as [Hsm Hs0].
  assert (forall a e, L !! a = Some e -> e_state e = ELEM_FREE -> can_hold L size' align' bound a ->
    exists p, elem_start_pt a (e_size e) size' align' bound = Some p /\ a <= p /\ p mod 64 = 0
      /\ fits a (e_size e) size' align' bound (p + 64)) as Hfit.
  { intros a e Ha Hst (e' & He' & p & Hp). assert (e' = e) as -> by congruence. exists p. split; [done|].
    apply (request_sound (memseg s) L); auto. by apply (free_size_pos (memseg s) L a). }
  unfold malloc_heap_alloc. fold size' align'. wp_step.
  apply (wp_find_suitable s L); auto.
  { intros a e Ha Hst Hc. destruct (Hfit a e Ha Hst Hc) as (p & _ & Hap & _ & _ & ? & ? & _). lia. }
  intros a e Ha Hst Heh Hc Hpg. destruct (Hfit a e Ha Hst Hc) as (p & Hp & Hap & Hpm & Hfits).
  pose proof Hfits as (_ & _ & Hend & _). rewrite Hal. wp_step. apply (wp_elem_alloc s L a e h _ _ _ p); auto.
  intros s1 L1 m Hm Hpm1 [HS1 HO1 (A & Hf & HA)]. wp_step. apply wp_on_heap; [by rewrite (proj1 (fr_heaps _ _ _ Hf))|].
  wp_step. pose proof (rep_bounds s L a e HR Ha) as (? & ? & ? & ?).
  pose proof (free_size_pos _ _ _ _ HL Ha Hst). rewrite extent_size in * by lia.
  unfold MALLOC_ELEM_HEADER_LEN. rewrite u64_id by lia. apply (HY _ _ L1). split.
  - split; [by apply shape_heap_count| |by apply (fr_hdr _ _ _ Hf)]. destruct HO1. by apply (counts_count A s s1 L L1 h 1).
  - exists a, e, m. split_and!; auto; try lia.
    + apply (frame_outside A s s1); [done|]. intros y Hy. destruct (HA y Hy) as (_ & ? & _). lia.
    + intros x Hx. destruct (sh_clean _ _ HS a e x Ha Hst ltac:(lia)) as [Hb He]. cbn. split.
      * destruct (fr_bytes _ _ _ Hf x) as [->|[-> _]]; done.
      * rewrite (fr_elems _ _ _ Hf); [done|]. intros Hy. destruct (HA x Hy) as (_ & _ & ?). lia.
  - cbn. rewrite length_alter. destruct Hf as [_ _ ? [? _] [? ?] _]. auto.
Qed.
