(* ===== verification/MallocFree.v ===== *)
(** Release of blocks: joining with the free neighbours, and erasing. *)
From Stdlib Require Import ZArith Lia.
From stdpp Require Import base numbers list gmap.
From S2P Require Import Prelude Ring Malloc MallocLayout MallocRep MallocAlloc MallocSpec.

#[local] Open Scope Z_scope.

(** ** Joining *)

Lemma join_on_layout a e1 e2 n L : on_layout [a; a + e_size e1 + e_size e2] (join_layout a e1 e2 n L).
Proof.
  intros x. rewrite !elem_of_cons, elem_of_nil. unfold join_layout. intros [->|[->|[]]].
  - destruct (decide (a = a + e_size e1 + e_size e2)) as [E|].
    + rewrite <- E, lookup_insert_eq. by eexists.
    + rewrite lookup_insert_ne, lookup_insert_eq by done. by eexists.
  - rewrite lookup_insert_eq. by eexists.
Qed.

(** An element of the joined layout that is not the joined one was there before. *)
Lemma join_back a e1 e2 n L x f :
  0 < e_size e1 -> 0 < e_size e2 -> L !! (a + e_size e1 + e_size e2) = Some n ->
  join_layout a e1 e2 n L !! x = Some f -> x <> a ->
  x <> a + e_size e1 /\ exists f', L !! x = Some f' /\ f = with_prev (e_prev f) f'.
Proof.
  intros H1 H2 Hn Hx Hne. apply join_lookup in Hx; [|done..].
  destruct Hx as [[-> ->]|[[-> ->]|(? & ? & ? & Hx)]]; [done|split; [lia|]; eauto|split; [done|]].
  exists f. split; [done|]. by destruct f.
Qed.

Lemma free_at_join L a e1 e2 n h idx x :
  L !! a = Some e1 -> L !! (a + e_size e1) = Some e2 -> L !! (a + e_size e1 + e_size e2) = Some n ->
  0 < e_size e1 -> 0 < e_size e2 ->
  free_at (join_layout a e1 e2 n L) h idx x /\ x <> a <-> free_at L h idx x /\ x <> a + e_size e1 /\ x <> a.
Proof.
  intros Ha Hb Hn H1 H2. unfold free_at. split.
  - intros ((f & Hf & Hfs & Hfh & Hfi) & Hne). destruct (join_back _ _ _ _ _ _ _ H1 H2 Hn Hf Hne) as (? & f' & Hf' & E).
    split; [|done]. exists f'. rewrite E in *. auto.
  - intros ((f & Hf & Hfs & Hfh & Hfi) & Hne & Hne'). split; [|done].
    destruct (decide (x = a + e_size e1 + e_size e2)) as [->|].
    + assert (f = n) as -> by congruence. eexists. rewrite join_lookup by done. split; [right; left; eauto|]. auto.
    + exists f. rewrite join_lookup by done. auto 10.
Qed.

(** The free element behind an allocated one becomes part of it. *)
Lemma wp_absorb s L a e n nn h (Q : unit -> mem_config -> Prop) :
  shape s L -> L !! a = Some e -> e_state e = ELEM_BUSY -> 0 < e_size e ->
  L !! (a + e_size e) = Some n -> e_state n = ELEM_FREE -> e_heap n = Some h ->
  L !! (a + e_size e + e_size n) = Some nn ->
  (forall s', shape s' (join_layout a e n nn L) -> frame [a; a + e_size e + e_size n] s s' -> Q tt s') ->
  wp (elem_free_list_remove (a + e_size e) ;; join_elem a (a + e_size e)) Q s.
Proof.
  intros HS Ha Hb Hpos Hn Hfree Hh Hnn HQ. pose proof (rep_wf _ _ (sh_rep _ _ HS)) as HL.
  pose proof (free_size_pos _ _ _ _ HL Hn Hfree) as Hposn.
  wp_step. apply (wp_take s L _ n h); auto. intros s1 [HR1 Hp1 Hc1 _ Hl1 Hh1] Hf1 _ _.
  apply (wp_join s1 L a e n nn); auto. intros s2 HR2 Hf2 Hhs2. apply HQ; [|apply (frame_app [] _ _ _ _ Hf1 Hf2)].
  pose proof (join_on_layout a e n nn L) as HA. pose proof (rep_wf _ _ HR2) as HL2.
  split; [done|..].
  - apply (pads_frame _ s1 s2 L _ Hp1 Hf2 HL2 HA). intros x f Hx Hfb Hfp.
    destruct (decide (x = a)) as [->|Hne].
    + apply join_lookup in Hx; [|done..]. assert (f = with_size (e_size e + e_size n) e) as -> by naive_solver lia.
      exists e. auto.
    + destruct (join_back _ _ _ _ _ _ _ Hpos Hposn Hnn Hx Hne) as (_ & f' & Hf' & E). exists f'. rewrite E in *. auto.
  - apply (clean_frame _ s1 s2 L _ Hc1 Hf2 HL2 HA). intros x f Hx Hfs. destruct (decide (x = a)) as [->|Hne].
    + apply join_lookup in Hx; [|done..]. assert (f = with_size (e_size e + e_size n) e) as -> by naive_solver lia.
      simpl in Hfs. congruence.
    + destruct (join_back _ _ _ _ _ _ _ Hpos Hposn Hnn Hx Hne) as (_ & f' & Hf' & E).
      exists x, f'. rewrite E in *. simpl in *. split_and!; auto; lia.
  - intros x f m Hx Hfp Hfs Hm Hms. destruct (decide (x = a)) as [->|Hne].
    { apply join_lookup in Hx; [|done..]. assert (f = with_size (e_size e + e_size n) e) as -> by naive_solver lia.
      simpl in Hfs. congruence. }
    destruct (join_back _ _ _ _ _ _ _ Hpos Hposn Hnn Hx Hne) as (_ & f' & Hf' & E).
    destruct (decide (x + e_size f = a)) as [Ea|Hne'].
    { rewrite Ea in Hm. apply join_lookup in Hm; [|done..].
      assert (m = with_size (e_size e + e_size n) e) as -> by naive_solver lia. simpl in Hms. congruence. }
    destruct (join_back _ _ _ _ _ _ _ Hpos Hposn Hnn Hm Hne') as (_ & m' & Hm' & Em).
    apply (sh_coalesced _ _ HS x f' m'); rewrite E, Em in *; done.
  - apply (lists_heaps s1); [done|]. eapply lists_ext; [|apply Hl1]. intros g idx x.
    pose proof (free_at_join L a e n nn g idx x Ha Hn Hnn Hpos Hposn) as Hj.
    destruct (decide (x = a)) as [->|]; [|tauto]. split.
    + intros [(f & Hf & Hfs & _) _]. congruence.
    + intros (f & Hf & Hfs & _). apply join_lookup in Hf; [|done..].
      assert (f = with_size (e_size e + e_size n) e) as -> by naive_solver lia. simpl in Hfs. congruence.
  - by apply (heaps_exist_frame _ s1 s2 Hf2).
Qed.

(** ** Erasing *)

Definition erase_st (lo n : Z) (s : mem_config) : mem_config :=
  set_elems (filter (fun kv => out_of lo n kv.1 = true)) (set_bytes (filter (fun kv => out_of lo n kv.1 = true)) s).

Lemma filter_out {V} (m : gmap Z V) lo n x :
  filter (fun kv : Z * V => out_of lo n kv.1 = true) m !! x = if decide (lo <= x < lo + n) then None else m !! x.
Proof.
  destruct (decide (lo <= x < lo + n)) as [Hin|Hout].
  - apply map_lookup_filter_None_2. right. intros v _. cbn. unfold out_of.
    destruct (Z.leb_spec lo x), (Z.ltb_spec x (lo + n)); cbn; lia || congruence.
  - destruct (m !! x) eqn:E; [|apply map_lookup_filter_None_2; auto].
    apply map_lookup_filter_Some_2; [done|]. cbn. unfold out_of.
    destruct (Z.leb_spec lo x), (Z.ltb_spec x (lo + n)); cbn; lia || done.
Qed.

Lemma erase_outside lo n s hi f : lo + n <= hi -> outside lo hi s (erase_st lo n (set_heaps f s)).
Proof. intros H x Hx. cbn. rewrite !filter_out, !decide_False by lia. done. Qed.

Lemma erase_hdr lo n s f : hdr_clear s -> hdr_clear (erase_st lo n (set_heaps f s)).
Proof.
  intros Hd a e x. cbn. rewrite !filter_out. destruct (decide (lo <= a < lo + n)); [done|].
  intros Ha Ham Hx. rewrite (Hd a e x Ha Ham Hx). by destruct (decide _).
Qed.

(** Erasing the inside of a free element makes it clean. *)
Lemma erase_shape s L y f lo n :
  rep s L -> pads_ok (elems s) L -> coalesced L -> lists_ok s (free_at L) -> heaps_exist s ->
  (forall a e x, L !! a = Some e -> a <> y -> e_state e = ELEM_FREE -> a + 64 <= x < a + e_size e ->
     bytes s !! x = None /\ elems s !! x = None) ->
  L !! y = Some f -> e_state f = ELEM_FREE -> y + 64 <= lo -> 0 <= n -> lo + n <= y + e_size f ->
  zeroed s (y + 64) (lo - (y + 64)) -> zeroed s (lo + n) (y + e_size f - (lo + n)) ->
  shape (erase_st lo n s) L.
Proof.
  intros HR Hp Hco Hl Hh Hc Hy Hst Hlo Hn Hhi Hz1 Hz2. pose proof (rep_wf _ _ HR) as HL.
  pose proof (free_size_pos _ _ _ _ HL Hy Hst) as Hpos. pose proof (extent_size f Hpos) as Hext.
  split; auto.
  - split; [apply HR| |apply HR]. apply map_subseteq_spec. intros x e Hx. cbn. rewrite filter_out, decide_False.
    + by apply (lookup_weaken L), (rep_sub _ _ HR).
    + intros Hin. pose proof (wf_lookup_inside _ L y f x e HL Hy Hx). lia.
  - intros a e Ha Hb Hpad. destruct (Hp a e Ha Hb Hpad) as (pe & Hpe & ?). exists pe. split; [|done].
    cbn. rewrite filter_out, decide_False; [done|]. intros Hin.
    pose proof (wf_blk _ _ HL a e Ha) as W. pose proof (bw_pad_room _ _ _ _ W Hb Hpad).
    assert (extent e = e_size e) by (apply extent_size; lia).
    destruct (Z.lt_total a y) as [Hlt|[->|Hlt]]; [|congruence|].
    + pose proof (wf_disj _ _ HL a e y f Ha Hy Hlt). lia.
    + pose proof (wf_disj _ _ HL y f a e Hy Ha Hlt). lia.
  - intros a e x Ha Hfs Hx. cbn. rewrite !filter_out. destruct (decide (lo <= x < lo + n)); [done|].
    destruct (decide (a = y)) as [->|Hne]; [|by apply (Hc a e)]. assert (e = f) as -> by congruence.
    destruct (Z.lt_ge_cases x lo); [apply Hz1|apply Hz2]; lia.
Qed.

Lemma wp_memset s lo n L y f (Q : unit -> mem_config -> Prop) :
  rep s L -> L !! y = Some f -> lo mod 64 = 0 -> n mod 64 = 0 -> y <= lo -> 0 <= n -> lo + n <= y + e_size f ->
  Q tt (erase_st lo n s) -> wp (memset_zero lo n) Q s.
Proof.
  intros HR Hy Hlo Hn Hyl Hn0 Hhi HQ. unfold memset_zero, id. wp_step.
  assert (mapped s lo n = true) as Hm.
  { pose proof (wf_blk _ _ (rep_wf _ _ HR) y f Hy) as W. pose proof (size_extent f (bw_nonneg _ _ _ _ W)).
    destruct (bw_seg _ _ _ _ W) as (k & ms & _ & Hk & _ & ? & ? & _).
    apply existsb_exists. exists ms. split; [apply list_elem_of_In; eauto using list_elem_of_lookup_2|].
    apply andb_true_intro; split; lia. }
  unfold RTE_CACHE_LINE_SIZE. rewrite Hlo, Hn, Hm. cbn. wp_step. exact HQ.
Qed.

(** ** Marking free *)

Lemma live_delete_busy (L : gmap Z malloc_elem) a e :
  (forall x f, L !! x = Some f -> e_state f = ELEM_BUSY -> 0 < e_size f -> x <> a ->
     x + e_pad f + 64 <> a + e_pad e + 64) ->
  L !! a = Some e -> e_state e = ELEM_BUSY -> 0 < e_size e ->
  forall d n, live_block (<[a := with_state ELEM_FREE e]> L) d n <-> live_block L d n /\ d <> a + e_pad e + 64.
Proof.
  intros Huniq Ha Hb Hpos d n. unfold live_block, MALLOC_ELEM_HEADER_LEN. split.
  - intros (x & f & Hx & Hfb & Hfp & -> & ->). apply lookup_insert_Some in Hx as [[<- <-]|[Hne Hx]]; [done|].
    split; [exists x, f; auto|]. apply Huniq; auto.
  - intros ((x & f & Hx & Hfb & Hfp & -> & ->) & Hne). exists x, f. rewrite lookup_insert_ne; [auto|].
    intros ->. congruence.
Qed.

(** Blocks have different addresses. *)
Lemma live_unique segs L a e x f :
  wfL segs L -> L !! a = Some e -> e_state e = ELEM_BUSY -> 0 < e_size e ->
  L !! x = Some f -> e_state f = ELEM_BUSY -> 0 < e_size f -> x <> a ->
  x + e_pad f + 64 <> a + e_pad e + 64.
Proof.
  intros HL Ha Hb Hpos Hx Hfb Hfp Hne E.
  pose proof (wf_blk _ _ HL a e Ha) as We. pose proof (wf_blk _ _ HL x f Hx) as Wf.
  pose proof (bw_pad_room _ _ _ _ We Hb). pose proof (bw_pad_room _ _ _ _ Wf Hfb).
  destruct (bw_pad _ _ _ _ We), (bw_pad _ _ _ _ Wf).
  destruct (Z.lt_total x a) as [Hlt|[->|Hlt]]; [|done|].
  - pose proof (wf_disj _ _ HL x f a e Hx Ha Hlt). rewrite (extent_size f) in * by lia. lia.
  - pose proof (wf_disj _ _ HL a e x f Ha Hx Hlt). rewrite (extent_size e) in * by lia. lia.
Qed.

(** One block less, everything else as before. *)
Record one_less (h : nat) (d : Z) (L L' : gmap Z malloc_elem) : Prop := OneLess {
  ol_live : forall d' n', live_block L' d' n' <-> live_block L d' n' /\ d' <> d;
  ol_bytes : forall g, msum (heap_bytes g) L' = msum (heap_bytes g) L;
  ol_busy : forall g, msum (heap_busy g) L' = msum (heap_busy g) L + (if decide (h = g) then -1 else 0)
}.

Lemma free_one_less segs L a e h :
  wfL segs L -> L !! a = Some e -> e_state e = ELEM_BUSY -> 0 < e_size e -> e_heap e = Some h ->
  one_less h (a + e_pad e + 64) L (<[a := with_state ELEM_FREE e]> L).
Proof.
  intros HL Ha Hb Hpos Hh. split.
  - apply live_delete_busy; auto. intros x f Hx Hfb Hfp Hne. by apply (live_unique segs L).
  - intros g. rewrite msum_insert, Ha. cbn. change (heap_bytes g (with_state ELEM_FREE e)) with (heap_bytes g e). lia.
  - intros g. rewrite msum_insert, Ha. cbn. rewrite (heap_busy_free g (with_state _ _)) by done.
    rewrite (heap_busy_busy h) by done. destruct (decide (h = g)); lia.
Qed.

Lemma live_join segs L p ep e n d m :
  wfL segs L -> L !! p = Some ep -> e_state ep = ELEM_FREE -> L !! (p + e_size ep) = Some e -> e_state e = ELEM_BUSY ->
  0 < e_size ep -> 0 < e_size e -> L !! (p + e_size ep + e_size e) = Some n ->
  live_block (join_layout p ep e n L) d m <-> live_block L d m /\ d <> p + e_size ep + e_pad e + 64.
Proof.
  intros HL Hp Hps Ha Hb Hpp Hpos Hn. unfold live_block, MALLOC_ELEM_HEADER_LEN. split.
  - intros (x & f & Hx & Hfb & Hfp & -> & ->).
    assert (x <> p) as Hne.
    { intros ->. apply join_lookup in Hx; [|done..].
      assert (f = with_size (e_size ep + e_size e) ep) as -> by naive_solver lia. simpl in *. congruence. }
    destruct (join_back _ _ _ _ _ _ _ Hpp Hpos Hn Hx Hne) as (Hne' & f' & Hf' & E). rewrite E in *. simpl in *.
    split; [exists x, f'; auto|]. by apply (live_unique segs L).
  - intros ((x & f & Hx & Hfb & Hfp & -> & ->) & Hne).
    assert (x <> p) by congruence. assert (x <> p + e_size ep) by (intros ->; congruence).
    destruct (decide (x = p + e_size ep + e_size e)) as [->|].
    + assert (f = n) as -> by congruence. eexists _, _. rewrite join_lookup by done. split; [right; left; eauto|]. auto.
    + exists x, f. rewrite join_lookup by done. auto 10.
Qed.

Lemma join_one_less segs L p ep e n h :
  wfL segs L -> L !! p = Some ep -> e_state ep = ELEM_FREE -> L !! (p + e_size ep) = Some e -> e_state e = ELEM_BUSY ->
  0 < e_size ep -> 0 < e_size e -> L !! (p + e_size ep + e_size e) = Some n -> e_heap e = Some h -> e_heap ep = Some h ->
  one_less h (p + e_size ep + e_pad e + 64) L (join_layout p ep e n L).
Proof.
  intros HL Hp Hps Ha Hb Hpp Hpos Hn Hh Hhp. split.
  - intros d m. by apply (live_join segs).
  - intros g. rewrite msum_join by auto. unfold heap_bytes. cbn. repeat case_decide; lia || congruence.
  - intros g. rewrite msum_join by auto. rewrite (heap_busy_free g ep), (heap_busy_free g (with_size _ ep)) by done.
    rewrite (heap_busy_busy h) by done. destruct (decide (h = g)); lia.
Qed.

Lemma absorb_same segs L a e n nn h :
  wfL segs L -> L !! a = Some e -> e_state e = ELEM_BUSY -> 0 < e_size e -> e_heap e = Some h ->
  L !! (a + e_size e) = Some n -> e_state n = ELEM_FREE -> 0 < e_size n -> e_heap n = Some h ->
  L !! (a + e_size e + e_size n) = Some nn ->
  (forall d m, d <> a + e_pad e + 64 -> live_block (join_layout a e n nn L) d m <-> live_block L d m)
  /\ (forall g, msum (heap_bytes g) (join_layout a e n nn L) = msum (heap_bytes g) L)
  /\ (forall g, msum (heap_busy g) (join_layout a e n nn L) = msum (heap_busy g) L).
Proof.
  intros HL Ha Hb Hpos Hh Hn Hns Hnp Hhn Hnn. split_and!.
  - intros d m Hd. unfold live_block, MALLOC_ELEM_HEADER_LEN. split.
    + intros (x & f & Hx & Hfb & Hfp & -> & ->). destruct (decide (x = a)) as [->|Hne].
      { apply join_lookup in Hx; [|done..]. assert (f = with_size (e_size e + e_size n) e) as -> by naive_solver lia. done. }
      destruct (join_back _ _ _ _ _ _ _ Hpos Hnp Hnn Hx Hne) as (_ & f' & Hf' & E). rewrite E in *. exists x, f'. auto.
    + intros (x & f & Hx & Hfb & Hfp & -> & ->).
      assert (x <> a) by (intros ->; congruence). assert (x <> a + e_size e) by (intros ->; congruence).
      destruct (decide (x = a + e_size e + e_size n)) as [->|].
      * assert (f = nn) as -> by congruence. eexists _, _. rewrite join_lookup by done. split; [right; left; eauto|]. auto.
      * exists x, f. rewrite join_lookup by done. auto 10.
  - intros g. rewrite msum_join by auto. unfold heap_bytes. cbn. repeat case_decide; lia || congruence.
  - intros g. rewrite msum_join by auto. rewrite (heap_busy_free g n) by done.
    rewrite !(heap_busy_busy h) by (auto; cbn; lia). lia.
Qed.

(** ** Releasing *)

(** The end of [malloc_elem_free]. *)
Definition release_elem (elem ptr sz : Z) : M mem_config Z :=
  malloc_elem_free_list_insert elem ;;
  e ← get_elem elem;
  on_heap (e_heap e) (heap_count (fun c => c - 1)) ;;
  memset_zero ptr sz ;;
  mret 0.

Lemma wp_release_elem s L F y f h lo n (Q : Z -> mem_config -> Prop) :
  rep s L -> pads_ok (elems s) L -> heaps_exist s -> L !! y = Some f -> e_heap f = Some h -> 0 < e_size f ->
  lists_ok s F -> (forall g idx, ~ F g idx y) ->
  (forall g idx x, x <> y -> F g idx x <-> free_at L g idx x) ->
  coalesced (<[y := with_state ELEM_FREE f]> L) ->
  (forall a e x, L !! a = Some e -> a <> y -> e_state e = ELEM_FREE -> a + 64 <= x < a + e_size e ->
     bytes s !! x = None /\ elems s !! x = None) ->
  y + 64 <= lo -> lo mod 64 = 0 -> n mod 64 = 0 -> 0 <= n -> lo + n <= y + e_size f ->
  zeroed s (y + 64) (lo - (y + 64)) -> zeroed s (lo + n) (y + e_size f - (lo + n)) ->
  (forall s1, frame [y] s s1 ->
     let s' := erase_st lo n (set_heaps (alter (heap_count (fun c => c - 1)) h) s1) in
     shape s' (<[y := with_state ELEM_FREE f]> L) -> Q 0 s') ->
  wp (release_elem y lo n) Q s.
Proof.
  intros HR Hp Hh Hy Heh Hpos Hl HF HFL Hco Hc Hylo Hlo Hn Hn0 Hhi Hz1 Hz2 HQ.
  pose proof (wf_blk _ _ (rep_wf _ _ HR) y f Hy) as W. pose proof (elem_heap s L y f h HR Hh Hy Heh) as Hhl.
  assert (wfL (memseg s) (<[y := with_state ELEM_FREE f]> L)) as HL'.
  { destruct (bw_pad _ _ _ _ W). apply (wf_mark _ L y f ELEM_FREE (e_pad f)); auto; [apply HR|done]. }
  unfold release_elem. wp_step.
  apply (wp_insert s L F y f h); auto; [by apply (wf_size64 _ _ _ _ W)|]. intros s1 HR1 Hl1 Hf1. wp_step.
  eapply wp_get; [exact HR1|apply lookup_insert_eq|]. cbn [e_heap with_state]. rewrite Heh. wp_step.
  apply wp_on_heap; [by rewrite (proj1 (fr_heaps _ _ _ Hf1))|]. wp_step.
  set (s2 := set_heaps _ s1). set (L' := <[y := with_state ELEM_FREE f]> L) in *.
  assert (L' !! y = Some (with_state ELEM_FREE f)) as Hy' by apply lookup_insert_eq.
  assert (rep s2 L') as HR2 by by apply rep_heaps.
  assert (forall lo n, y + 64 <= lo -> zeroed s lo n -> lo + n <= y + e_size f -> zeroed s2 lo n) as Hz.
  { intros lo' n' Hge Hz Hle x Hx. destruct (Hz x Hx) as [Hb He]. cbn. split.
    - destruct (fr_bytes _ _ _ Hf1 x) as [->|[-> _]]; done.
    - rewrite (fr_elems _ _ _ Hf1); [done|]. rewrite list_elem_of_singleton. lia. }
  apply (wp_memset _ _ _ L' y (with_state ELEM_FREE f)); auto; [lia|]. wp_step. apply HQ; [done|].
  apply (erase_shape s2 L' y (with_state ELEM_FREE f)); auto; [..|apply Hz; auto; lia|apply Hz; auto; cbn; lia].
  - apply (pads_frame [y] s s1 L); auto; [by rewrite (fr_segs _ _ _ Hf1)|intros x ->%list_elem_of_singleton; by eexists|].
    intros x g Hx Hgb Hgp. apply lookup_insert_Some in Hx as [[<- <-]|[Hne Hx]]; [done|eauto].
  - apply lists_heap_count. eapply lists_ext; [|apply Hl1]. intros g idx x. cbn.
    destruct (decide (x = y)) as [->|Hne].
    + split; [intros [?|(_ & -> & ->)]; [by destruct (HF g idx)|exists (with_state ELEM_FREE f); auto]|].
      intros (g' & Hg & _ & Hgh & Hgi). right. assert (g' = with_state ELEM_FREE f) as -> by congruence.
      cbn in *. split_and!; auto; congruence.
    + rewrite HFL by done. unfold free_at, L'. rewrite lookup_insert_ne by done. naive_solver.
  - intros k ms. cbn. rewrite length_alter, (fr_segs _ _ _ Hf1), (proj1 (fr_heaps _ _ _ Hf1)). apply Hh.
  - intros a e x Ha Hne Hes Hx. apply lookup_insert_Some in Ha as [[<- <-]|[_ Ha]]; [done|].
    destruct (Hc a e x Ha Hne Hes Hx) as [Hb He]. cbn. split.
    + destruct (fr_bytes _ _ _ Hf1 x) as [->|[-> _]]; done.
    + rewrite (fr_elems _ _ _ Hf1); [done|]. rewrite list_elem_of_singleton. intros ->.
      pose proof (wf_lookup_inside _ L a e y f (rep_wf _ _ HR) Ha Hy). pose proof (extent_size e). lia.
Qed.

(** What a release gives: the rest of the memory is kept, and the place of the block is
    inside a free element. *)
Record free_ok (s : mem_config) (L : gmap Z malloc_elem) (a : Z) (e : malloc_elem) (h : nat)
    (s' : mem_config) (L' : gmap Z malloc_elem) : Prop := FreeOk {
  fo_inv : inv s' L';
  fo_less : one_less h (a + e_pad e + 64) L L';
  fo_place : exists y f, L' !! y = Some f /\ e_state f = ELEM_FREE /\ y <= a /\ a + e_size e <= y + e_size f
    /\ (y = a \/ exists p, L !! y = Some p /\ e_state p = ELEM_FREE /\ y + e_size p = a)
    /\ outside y (y + e_size f + 64) s s'
    /\ (y + e_size f = a + e_size e \/ exists n, L !! (a + e_size e) = Some n /\ e_state n = ELEM_FREE
         /\ y + e_size f = a + e_size e + e_size n);
  fo_rest : memseg s' = memseg s /\ length (heaps s') = length (heaps s)
    /\ memzone_cnt s' = memzone_cnt s /\ memzone s' = memzone s
}.

(** [malloc_elem_free] after the element behind has been joined. *)
Definition free_with_prev (elem ptr sz : Z) : M mem_config Z :=
  e ← get_elem elem;
  prev_free ← (match e_prev e with
               | None => mret None
               | Some prev => p ← get_elem prev;
                              mret (if bool_decide (e_state p = ELEM_FREE) then Some prev else None)
               end);
  '(elem, ptr, sz) ←
    (match prev_free with
     | Some prev =>
       elem_free_list_remove prev ;; join_elem prev elem ;;
       mret (prev, ptr - MALLOC_ELEM_HEADER_LEN, u64 (sz + MALLOC_ELEM_HEADER_LEN))
     | None => mret (elem, ptr, sz)
     end);
  release_elem elem ptr sz.

Lemma prev_is_prev segs L a e x f :
  wfL segs L -> L !! a = Some e -> L !! x = Some f -> 0 < e_size f -> x + e_size f = a -> e_prev e = Some x.
Proof.
  intros HL Ha Hx Hpos E. destruct (bw_next _ _ _ _ (wf_blk _ _ HL x f Hx) Hpos) as (n & Hn & ? & _).
  rewrite E in Hn. congruence.
Qed.

(** Without a free element in front. *)
Lemma wp_release_alone s L a e n h c (Q : Z -> mem_config -> Prop) :
  inv s L -> L !! a = Some e -> e_state e = ELEM_BUSY -> 0 < e_size e -> e_heap e = Some h ->
  L !! (a + e_size e) = Some n -> e_state n <> ELEM_FREE ->
  (forall p ep, e_prev e = Some p -> L !! p = Some ep -> e_state ep <> ELEM_FREE) ->
  c mod 64 = 0 -> a + 64 <= c <= a + e_size e -> zeroed s c (a + e_size e - c) ->
  (forall s', free_ok s L a e h s' (<[a := with_state ELEM_FREE e]> L) -> Q 0 s') ->
  wp (release_elem a (a + 64) (c - (a + 64))) Q s.
Proof.
  intros [HS HC HD] Ha Hb Hpos Hh Hn Hns Hprev Hcm Hc Hz HQ. pose proof HS as [HR Hp Hcl Hco Hl Hhe].
  pose proof (rep_wf _ _ HR) as HL. pose proof (wf_blk _ _ HL a e Ha) as W. pose proof (bw_align _ _ _ _ W) as Ham.
  apply (wp_release_elem s L (free_at L) a e h); auto; try lia.
  - intros g idx (f & Hf & ? & _). congruence.
  - intros x f m Hx Hfp Hfs Hm Hms. apply lookup_insert_Some in Hm as [[Em <-]|[Hnem Hm]].
    + apply lookup_insert_Some in Hx as [[<- <-]|[Hne Hx]]; [cbn in *; lia|].
      apply (Hprev x f); auto. by apply (prev_is_prev (memseg s) L a e x f).
    + apply lookup_insert_Some in Hx as [[<- <-]|[Hne Hx]]; [cbn in *; congruence|]. by apply (Hco x f m).
  - intros b f x Hbx _. by apply Hcl.
  - Z.div_mod_to_equations; lia.
  - Z.div_mod_to_equations; lia.
  - intros x Hx. lia.
  - replace (a + 64 + (c - (a + 64))) with c by lia. done.
  - intros s1 Hf1 s' HS'. apply HQ. split.
    + split; [done| |apply erase_hdr; by apply (fr_hdr _ _ _ Hf1)].
      pose proof (free_one_less _ L a e h HL Ha Hb Hpos Hh) as [_ Ho2 Ho3].
      apply (counts_count [a] s s1 L _ h (-1)); auto.
    + by apply (free_one_less (memseg s)).
    + exists a, (with_state ELEM_FREE e). cbn [e_size e_state with_state]. rewrite lookup_insert_eq.
      split_and!; auto; try lia. apply (outside_trans _ _ _ s1).
      * apply (frame_outside [a]); [done|]. intros y ->%list_elem_of_singleton. lia.
      * eapply outside_mono; [apply (erase_outside (a + 64) _ _ c)|..]; lia.
    + cbn. rewrite length_alter. destruct Hf1 as [_ _ ? [? _] [? ?] _]. auto.
Qed.

(** The element in front of a joined free element is not free. *)
Lemma joined_coalesced segs L p ep e n :
  wfL segs L -> coalesced L -> L !! p = Some ep -> e_state ep = ELEM_FREE -> 0 < e_size ep -> 0 < e_size e ->
  L !! (p + e_size ep + e_size e) = Some n -> e_state n <> ELEM_FREE -> coalesced (join_layout p ep e n L).
Proof.
  intros HL Hco Hp Hps Hpp Hpos Hn Hns x f m Hx Hfp Hfs Hm Hms.
  assert (forall y g, join_layout p ep e n L !! y = Some g -> y <> p -> exists g', L !! y = Some g'
    /\ e_state g' = e_state g /\ e_size g' = e_size g) as Hback.
  { intros y g Hy Hne. destruct (join_back _ _ _ _ _ _ _ Hpp Hpos Hn Hy Hne) as (_ & g' & ? & E). exists g'. by rewrite E. }
  assert (forall g, join_layout p ep e n L !! p = Some g -> g = with_size (e_size ep + e_size e) ep) as Hself.
  { intros g Hg. apply join_lookup in Hg; [|done..]. naive_solver lia. }
  destruct (decide (x = p)) as [->|Hne].
  - apply Hself in Hx as ->. cbn in Hm. destruct (Hback _ _ Hm ltac:(lia)) as (m' & Hm' & E & _).
    rewrite Z.add_assoc in Hm'. congruence.
  - destruct (Hback x f Hx Hne) as (f' & Hf' & Es & Ez). rewrite <- Ez, <- Es in *.
    destruct (decide (x + e_size f' = p)) as [E|Hne'].
    + apply (Hco x f' ep); auto. by rewrite E.
    + destruct (Hback _ m Hm Hne') as (m' & Hm' & Em & _). apply (Hco x f' m'); congruence.
Qed.

(** With a free element in front. *)
Lemma wp_release_joined s L a e n h p ep c (Q : Z -> mem_config -> Prop) :
  inv s L -> L !! a = Some e -> e_state e = ELEM_BUSY -> 0 < e_size e -> e_heap e = Some h ->
  L !! (a + e_size e) = Some n -> e_state n <> ELEM_FREE ->
  L !! p = Some ep -> e_state ep = ELEM_FREE -> 0 < e_size ep -> p + e_size ep = a ->
  c mod 64 = 0 -> a <= c <= a + e_size e -> zeroed s c (a + e_size e - c) ->
  (forall s' L', free_ok s L a e h s' L' -> Q 0 s') ->
  wp (elem_free_list_remove p ;; join_elem p a ;; release_elem p a (c - a)) Q s.
Proof.
  intros [HS HC HD] Ha Hb Hpos Hh Hn Hns Hp Hps Hpp Epa Hcm Hc Hz HQ.
  pose proof (sh_rep _ _ HS) as HR. pose proof (rep_wf _ _ HR) as HL.
  pose proof (bw_align _ _ _ _ (wf_blk _ _ HL a e Ha)) as Ham.
  assert (e_heap ep = Some h) as Hhp.
  { destruct (bw_next _ _ _ _ (wf_blk _ _ HL p ep Hp) Hpp) as (e' & He' & _ & ? & _). rewrite Epa in He'. congruence. }
  subst a. wp_step. apply (wp_take s L p ep h); auto. intros s1 HM1 Hf1 He1 Hb1. wp_step.
  pose proof HM1 as [HR1 Hp1 Hc1 _ Hl1 Hh1]. apply (wp_join s1 L p ep e n); auto. intros s2 HR2 Hf2 Hhs2.
  pose proof (join_on_layout p ep e n L) as HA. set (L2 := join_layout p ep e n L) in *.
  set (f := with_size (e_size ep + e_size e) ep).
  assert (L2 !! p = Some f) as Hf' by (apply join_lookup; auto).
  assert (forall x g, L2 !! x = Some g -> x <> p -> exists g', L !! x = Some g' /\ g = with_prev (e_prev g) g') as Hback.
  { intros x g Hx Hne. by destruct (join_back _ _ _ _ _ _ _ Hpp Hpos Hn Hx Hne). }
  assert (outside p (p + e_size ep + e_size e + 64) s s2) as Hout.
  { apply (frame_outside ([] ++ [p; p + e_size ep + e_size e])); [by apply (frame_app _ _ _ s1)|].
    intros y. rewrite app_nil_l, !elem_of_cons, elem_of_nil. intros [->|[->|[]]]; lia. }
  assert (forall lo m, p + 64 <= lo -> lo + m <= p + e_size ep + e_size e -> zeroed s lo m -> zeroed s2 lo m) as Hzz.
  { intros lo m Hlo Hhi Hz' x Hx. destruct (Hz' x Hx) as [Hxb Hxe]. rewrite <- He1 in Hxe. rewrite <- Hb1 in Hxb. split.
    - destruct (fr_bytes _ _ _ Hf2 x) as [->|[-> _]]; done.
    - rewrite (fr_elems _ _ _ Hf2); [done|]. rewrite !elem_of_cons, elem_of_nil. lia. }
  apply (wp_release_elem s2 L2 (fun g idx x => free_at L g idx x /\ x <> p) p f h); auto; try (cbn; lia).
  - apply (pads_frame _ s1 s2 L _ Hp1 Hf2 (rep_wf _ _ HR2) HA). intros x g Hx Hgb Hgp.
    assert (x <> p) as Hne by (intros ->; assert (g = f) as -> by congruence; cbn in *; congruence).
    destruct (Hback x g Hx Hne) as (g' & ? & E). exists g'. rewrite E in *. auto.
  - by apply (heaps_exist_frame _ s1 s2 Hf2).
  - by apply (lists_heaps s1).
  - intros g idx x Hne. pose proof (free_at_join L p ep e n g idx x Hp Ha Hn Hpp Hpos).
    assert (free_at L g idx x -> x <> p + e_size ep) by (intros (g' & ? & ? & _) ->; congruence). tauto.
  - rewrite insert_same_free by done. apply (joined_coalesced (memseg s)); auto. apply HS.
  - intros b g x Hbx Hne Hgs Hx. destruct (Hback b g Hbx Hne) as (g' & Hg' & E). rewrite E in Hgs, Hx. cbn in *.
    destruct (Hc1 b g' x Hg' Hgs Hx) as [Hxb Hxe]. split.
    + destruct (fr_bytes _ _ _ Hf2 x) as [->|[-> _]]; done.
    + rewrite (fr_elems _ _ _ Hf2); [done|]. apply (on_layout_outside (memseg s2) _ L2 b g x (rep_wf _ _ HR2) HA Hbx).
      rewrite E, extent_size by (cbn; lia). cbn. lia.
  - pose proof (wf_size64 _ _ _ _ (wf_blk _ _ HL p ep Hp) Hpp). lia.
  - rewrite Zminus_mod, Hcm, Ham. done.
  - apply Hzz; [lia..|]. intros x Hx. apply (sh_clean _ _ HS p ep x Hp Hps). lia.
  - replace (p + e_size ep + (c - (p + e_size ep))) with c by lia.
    pose proof (wf_size64 _ _ _ _ (wf_blk _ _ HL p ep Hp) Hpp). cbn. replace (p + _ - c) with (p + e_size ep + e_size e - c) by lia.
    apply Hzz; [lia..|done].
  - intros s3 Hf3 s' HS'. rewrite insert_same_free in HS' by done. apply (HQ s' L2).
    pose proof (join_one_less _ L p ep e n h HL Hp Hps Ha Hb Hpp Hpos Hn Hh Hhp) as HO.
    pose proof (frame_app _ _ _ _ _ Hf1 (frame_app _ _ _ _ _ Hf2 Hf3)) as Hf. split.
    + split; [done| |apply erase_hdr; by apply (fr_hdr _ _ _ Hf)]. destruct HO as [_ Ho2 Ho3]. by apply (counts_count _ s s3 L _ h (-1) HC Hf).
    + done.
    + exists p, f. cbn. split_and!; auto; try lia; [right; exists ep; auto|].
      apply (outside_trans _ _ _ s2); [eapply outside_mono; [exact Hout|lia..]|]. apply (outside_trans _ _ _ s3).
      * apply (frame_outside [p]); [done|]. intros y ->%list_elem_of_singleton. lia.
      * eapply outside_mono; [apply (erase_outside (p + e_size ep) _ _ c)|..]; lia.
    + cbn. rewrite length_alter. destruct Hf as [_ _ ? [? _] [? ?] _]. auto.
Qed.

Lemma wp_free_with_prev s L a e n h c (Q : Z -> mem_config -> Prop) :
  inv s L -> L !! a = Some e -> e_state e = ELEM_BUSY -> 0 < e_size e -> e_heap e = Some h ->
  L !! (a + e_size e) = Some n -> e_state n <> ELEM_FREE ->
  c mod 64 = 0 -> a + 64 <= c <= a + e_size e -> zeroed s c (a + e_size e - c) ->
  (forall s' L', free_ok s L a e h s' L' -> Q 0 s') ->
  wp (free_with_prev a (a + 64) (c - (a + 64))) Q s.
Proof.
  intros HI Ha Hb Hpos Hh Hn Hns Hcm Hc Hz HQ. pose proof (sh_rep _ _ (inv_shape _ _ HI)) as HR.
  pose proof (rep_wf _ _ HR) as HL. pose proof (wf_blk _ _ HL a e Ha) as W.
  pose proof (rep_bounds s L a e HR Ha) as (? & ? & ? & ?). rewrite extent_size in * by lia.
  unfold free_with_prev. wp_step. apply (wp_get s L a e); auto. wp_step.
  destruct (e_prev e) as [p|] eqn:Ep.
  - destruct (bw_prev _ _ _ _ W p Ep) as (ep & Hp & Hpp & Epa). wp_step. apply (wp_get s L p ep); auto. wp_step.
    case_bool_decide as Hps; wp_step.
    + unfold MALLOC_ELEM_HEADER_LEN. rewrite Z.add_simpl_r, u64_id by lia.
      replace (c - (a + 64) + 64) with (c - a) by lia.
      assert (wp (elem_free_list_remove p ;; join_elem p a ;; release_elem p a (c - a)) Q s) as Hw.
      { apply (wp_release_joined s L a e n h p ep c); auto. lia. }
      apply wp_bind in Hw. eapply wp_mono; [exact Hw|]. cbv beta. intros _ s1 Hw1. apply wp_bind in Hw1. apply wp_bind.
      eapply wp_mono; [exact Hw1|]. cbv beta. intros _ s2 Hw2. by wp_step.
    + apply (wp_release_alone s L a e n h c); eauto. intros p' ep' ? ?. congruence.
  - wp_step. apply (wp_release_alone s L a e n h c); eauto. congruence.
Qed.

Lemma counts_frame A s s' L L' :
  counts_ok s L -> frame A s s' ->
  (forall g, msum (heap_bytes g) L' = msum (heap_bytes g) L) ->
  (forall g, msum (heap_busy g) L' = msum (heap_busy g) L) -> counts_ok s' L'.
Proof.
  intros Hc Hf H1 H2 g hp Hg. rewrite H1, H2. pose proof (proj2 (fr_heaps _ _ _ Hf) g) as Heq. rewrite Hg in Heq.
  destruct (heaps s !! g) as [hp0|] eqn:E; [|done]. cbn in Heq. injection Heq as -> ->. by apply Hc.
Qed.

(** A free element behind the released one is joined first. *)
Lemma wp_free_absorbed s L a e n nn h (Q : Z -> mem_config -> Prop) :
  inv s L -> L !! a = Some e -> e_state e = ELEM_BUSY -> 0 < e_size e -> e_heap e = Some h ->
  L !! (a + e_size e) = Some n -> e_state n = ELEM_FREE -> e_heap n = Some h ->
  L !! (a + e_size e + e_size n) = Some nn ->
  (forall s' L', free_ok s L a e h s' L' -> Q 0 s') ->
  wp (elem_free_list_remove (a + e_size e) ;; join_elem a (a + e_size e))
    (fun _ => wp (free_with_prev a (a + 64) (a + e_size e + 64 - (a + 64))) Q) s.
Proof.
  intros [HS HC HD] Ha Hb Hpos Hh Hn Hns Hhn Hnn HQ. pose proof (sh_rep _ _ HS) as HR. pose proof (rep_wf _ _ HR) as HL.
  pose proof (wf_blk _ _ HL a e Ha) as W. pose proof (wf_size64 _ _ _ _ W Hpos).
  pose proof (bw_align _ _ _ _ W) as Ham. pose proof (bw_size _ _ _ _ W) as Hem.
  pose proof (rep_bounds s L a e HR Ha) as (? & ? & ? & ?). rewrite extent_size in * by lia.
  pose proof (free_size_pos _ _ _ _ HL Hn Hns) as Hnp. pose proof (wf_size64 _ _ _ _ (wf_blk _ _ HL _ n Hn) Hnp).
  apply (wp_absorb s L a e n nn h); auto. intros s1 HS1 Hf1.
  set (e1 := with_size (e_size e + e_size n) e).
  pose proof (absorb_same _ L a e n nn h HL Ha Hb Hpos Hh Hn Hns Hnp Hhn Hnn) as (Hlive & Hs1 & Hs2).
  assert (join_layout a e n nn L !! a = Some e1) as Ha1 by (apply join_lookup; auto).
  assert (outside a (a + e_size e + e_size n + 64) s s1) as Hout1.
  { apply (frame_outside _ _ _ _ _ Hf1). intros y. rewrite !elem_of_cons, elem_of_nil. intros [->|[->|[]]]; lia. }
  apply (wp_free_with_prev s1 (join_layout a e n nn L) a e1 (with_prev (Some a) nn) h); auto.
  - split; [done| |by apply (fr_hdr _ _ _ Hf1)]. by apply (counts_frame _ s s1 L _ HC Hf1).
  - cbn. lia.
  - apply join_lookup; auto. right; left. cbn. split; [lia|done].
  - cbn. by apply (sh_coalesced _ _ HS _ n nn Hn Hnp Hns).
  - Z.div_mod_to_equations; lia.
  - cbn. lia.
  - intros x Hx. cbn in Hx. destruct (sh_clean _ _ HS _ n x Hn Hns ltac:(lia)) as [Hxb Hxe]. split.
    + destruct (fr_bytes _ _ _ Hf1 x) as [->|[-> _]]; done.
    + rewrite (fr_elems _ _ _ Hf1); [done|]. rewrite !elem_of_cons, elem_of_nil. lia.
  - intros s' L' [HI' [Ho1 Ho2 Ho3] (y & f & Hy & Hyf & Hya & Hyz & Hyp & Hyo & Hye) (Hr1 & Hr2 & Hr3 & Hr4)].
    apply (HQ s' L'). cbn in *. split; [done|..].
    + split; [|intros g; by rewrite Ho2|intros g; by rewrite Ho3, Hs2].
      intros d' n'. rewrite Ho1. cbn. split; intros [? Hd]; (split; [|exact Hd]); by apply Hlive.
    + exists y, f.
      assert (y + e_size f = a + e_size e + e_size n) as Eyf.
      { destruct Hye as [?|(n2 & Hn2 & Hn2s & _)]; [lia|exfalso].
        apply join_lookup in Hn2; auto. destruct Hn2 as [[? _]|[[_ ->]|(_ & _ & ? & _)]]; [lia| |lia].
        by apply (sh_coalesced _ _ HS _ n nn Hn Hnp Hns). }
      split_and!; auto; [lia| | |right; exists n; split_and!; auto; lia].
      * destruct Hyp as [->|(p & Hp & Hps & Epa)]; [by left|]. right.
        assert (0 < e_size p) by by apply (free_size_pos (memseg s1) _ y p (rep_wf _ _ (sh_rep _ _ HS1))).
        destruct (join_back _ _ _ _ _ _ _ Hpos Hnp Hnn Hp ltac:(lia)) as (_ & p' & Hp' & E).
        exists p'. rewrite E in *. auto.
      * apply (outside_trans _ _ _ s1); [|done]. eapply outside_mono; [exact Hout1|lia..].
    + destruct Hf1 as [_ _ ? [? _] [? ?] _]. split_and!; congruence.
Qed.

(** The release of an allocated element. *)
Lemma wp_elem_free s L a e h (Q : Z -> mem_config -> Prop) :
  inv s L -> L !! a = Some e -> e_state e = ELEM_BUSY -> 0 < e_size e -> e_heap e = Some h ->
  (forall s' L', free_ok s L a e h s' L' -> Q 0 s') ->
  wp (malloc_elem_free (Some a)) Q s.
Proof.
  intros [HS HC HD] Ha Hb Hpos Hh HQ. pose proof (sh_rep _ _ HS) as HR. pose proof (rep_wf _ _ HR) as HL.
  pose proof (wf_blk _ _ HL a e Ha) as W. pose proof (wf_size64 _ _ _ _ W Hpos).
  pose proof (bw_align _ _ _ _ W) as Ham. pose proof (bw_size _ _ _ _ W) as Hem.
  pose proof (rep_bounds s L a e HR Ha) as (? & ? & ? & ?). rewrite extent_size in * by lia.
  destruct (bw_next _ _ _ _ W Hpos) as (n & Hn & _ & Hnh & _).
  unfold malloc_elem_free. wp_step. apply (wp_get s L a e); auto. rewrite bool_decide_eq_true_2 by done. cbn [negb].
  unfold MALLOC_ELEM_HEADER_LEN. rewrite (u64_id (e_size e - 64)), (u64_id (a + e_size e)) by lia.
  wp_step. apply (wp_get s L _ n); auto. wp_step.
  case_bool_decide as Hns; wp_step.
  - pose proof (wf_blk _ _ HL _ n Hn) as Wn. pose proof (free_size_pos _ _ _ _ HL Hn Hns) as Hnp.
    destruct (bw_next _ _ _ _ Wn Hnp) as (nn & Hnn & _).
    pose proof (rep_bounds s L _ n HR Hn) as (? & ? & ? & ?). rewrite extent_size in * by lia.
    assert (e_heap n = Some h) as Hhn by congruence.
    pose proof (wp_free_absorbed s L a e n nn h Q (Inv s L HS HC HD) Ha Hb Hpos Hh Hn Hns Hhn Hnn HQ) as Hw.
    apply (proj1 (wp_bind _ _ _ _)) in Hw. eapply wp_mono; [exact Hw|]. cbv beta. intros _ s1 Hw1. apply wp_bind.
    eapply wp_mono; [exact Hw1|]. cbv beta. intros _ s2 Hw2. wp_step.
    rewrite (u64_id (e_size e - 64 + 64)) by lia.
    replace (a + e_size e + 64 - (a + 64)) with (e_size e - 64 + 64) in Hw2 by lia.
    unfold free_with_prev, release_elem, MALLOC_ELEM_HEADER_LEN in Hw2. by apply (proj1 (wp_bind _ _ _ _)) in Hw2.
  - replace (e_size e - 64) with (a + e_size e - (a + 64)) by lia.
    apply (proj1 (wp_bind _ _ _ _)). apply (wp_free_with_prev s L a e n h (a + e_size e)); auto; try lia; [by split|Z.div_mod_to_equations; lia|].
    intros x Hx. lia.
Qed.
