(* ===== verification/MallocApi.v ===== *)
(** rte_malloc.c: allocation, release and the isolation of blocks. *)
From Stdlib Require Import ZArith Lia.
From stdpp Require Import base numbers list gmap.
From S2P Require Import Prelude Ring RingSpec Malloc MallocLayout MallocRep MallocAlloc MallocSpec MallocFree.

#[local] Open Scope Z_scope.

(** ** Blocks keep their contents *)

Definition kept (s s' : mem_config) (d n : Z) : Prop :=
  forall x, d <= x < d + n -> bytes s' !! x = bytes s !! x /\ elems s' !! x = elems s !! x.

Lemma line_of_spec x : line_of x mod 64 = 0 /\ line_of x <= x < line_of x + 64.
Proof. unfold line_of, RTE_CACHE_LINE_SIZE. Z.div_mod_to_equations. lia. Qed.

Lemma line_of_in d x : d mod 64 = 0 -> d <= x -> d <= line_of x.
Proof. intros Hd Hx. unfold line_of, RTE_CACHE_LINE_SIZE. Z.div_mod_to_equations. lia. Qed.

Lemma kept_read s s' d n x : d mod 64 = 0 -> kept s s' d n -> d <= x < d + n -> read_byte s' x = read_byte s x.
Proof.
  intros Hd Hk Hx. unfold read_byte. rewrite (proj1 (Hk x Hx)).
  pose proof (line_of_in d x Hd ltac:(lia)). pose proof (line_of_spec x).
  rewrite (proj2 (Hk (line_of x) ltac:(lia))). done.
Qed.

Lemma live_bounds s L d n :
  rep s L -> live_block L d n -> d mod 64 = 0 /\ 0 <= n /\ 64 < d /\ d + n < 2 ^ 63.
Proof.
  intros HR (a & e & Ha & Hb & Hpos & -> & ->). pose proof (rep_bounds s L a e HR Ha) as (? & ? & ? & ?).
  pose proof (wf_blk _ _ (rep_wf _ _ HR) a e Ha) as W. pose proof (bw_align _ _ _ _ W) as Hal.
  destruct (bw_pad _ _ _ _ W) as [Hp1 Hp2]. pose proof (bw_pad_room _ _ _ _ W Hb).
  pose proof (wf_size64 _ _ _ _ W Hpos). rewrite extent_size in * by lia. unfold MALLOC_ELEM_HEADER_LEN.
  split; [|lia]. rewrite Z.add_mod, (Z.add_mod a), Hal, Hp2 by lia. done.
Qed.

(** Different blocks do not overlap. *)
Lemma live_disjoint segs L d n d' n' :
  wfL segs L -> live_block L d n -> live_block L d' n' -> d <> d' -> d + n <= d' - 64 \/ d' + n' <= d - 64.
Proof.
  intros HL (a & e & Ha & Hb & Hpos & -> & ->) (a' & e' & Ha' & Hb' & Hpos' & -> & ->) Hne.
  pose proof (bw_pad _ _ _ _ (wf_blk _ _ HL a e Ha)). pose proof (bw_pad _ _ _ _ (wf_blk _ _ HL a' e' Ha')).
  unfold MALLOC_ELEM_HEADER_LEN in *. destruct (Z.lt_total a a') as [Hlt|[->|Hlt]].
  - pose proof (wf_disj _ _ HL a e a' e' Ha Ha' Hlt). rewrite extent_size in * by lia. lia.
  - congruence.
  - pose proof (wf_disj _ _ HL a' e' a e Ha' Ha Hlt). rewrite extent_size in * by lia. lia.
Qed.

Lemma live_same L segs d n n' : wfL segs L -> live_block L d n -> live_block L d n' -> n = n'.
Proof.
  intros HL (a & e & Ha & Hb & Hpos & -> & ->) (a' & e' & Ha' & Hb' & Hpos' & E & ->).
  destruct (decide (a' = a)) as [->|Hne]; [congruence|]. unfold MALLOC_ELEM_HEADER_LEN in *.
  pose proof (live_unique _ _ a e a' e' HL Ha Hb Hpos Ha' Hb' Hpos' Hne). lia.
Qed.

(** Addresses inside a free element are not those of blocks. *)
Lemma free_not_live segs L a e d n :
  wfL segs L -> L !! a = Some e -> e_state e = ELEM_FREE -> a + 64 <= d <= a + e_size e -> ~ live_block L d n.
Proof.
  intros HL Ha Hst Hd (a' & e' & Ha' & Hb' & Hp' & E & _). pose proof (wf_blk _ _ HL a' e' Ha') as W.
  pose proof (bw_pad _ _ _ _ W). pose proof (bw_pad_room _ _ _ _ W Hb'). pose proof (wf_size64 _ _ _ _ W Hp').
  pose proof (free_size_pos _ _ _ _ HL Ha Hst) as Hpos. unfold MALLOC_ELEM_HEADER_LEN in *.
  pose proof (extent_size e Hpos). pose proof (extent_size e' Hp').
  destruct (Z.lt_total a a') as [Hlt|[->|Hlt]]; [|congruence|].
  - pose proof (wf_disj _ _ HL a e a' e' Ha Ha' Hlt). lia.
  - pose proof (wf_disj _ _ HL a' e' a e Ha' Ha Hlt). lia.
Qed.

(** Outside of a range of elements that are not live, apart from one. *)
Lemma outside_kept segs L s s' lo hi skip d n :
  wfL segs L -> outside lo (hi + 64) s s' -> live_block L d n ->
  (forall a e, L !! a = Some e -> lo < a + extent e -> a < hi -> e_state e = ELEM_FREE \/ a = skip) ->
  (forall e, L !! skip = Some e -> e_state e = ELEM_BUSY -> d <> skip + e_pad e + 64) ->
  kept s s' d n.
Proof.
  intros HL Hout (a & e & Ha & Hb & Hpos & -> & ->) Hin Hskip x Hx. apply Hout. unfold MALLOC_ELEM_HEADER_LEN in *.
  pose proof (bw_pad _ _ _ _ (wf_blk _ _ HL a e Ha)). specialize (Hin a e Ha).
  rewrite extent_size in Hin by lia. intros Hr.
  destruct Hin as [?| ->]; [lia..|congruence|]. by apply (Hskip e).
Qed.

Lemma alloc_kept s L h size flags align bound d s' L' d' n' :
  inv s L -> alloc_ok s L h size flags align bound d s' L' -> live_block L d' n' -> kept s s' d' n'.
Proof.
  intros [HS _ _] [_ (a & e & m & Ha & Hst & _ & _ & _ & _ & _ & _ & Hout & _) _] Hlive.
  pose proof (rep_wf _ _ (sh_rep _ _ HS)) as HL. pose proof (free_size_pos _ _ _ _ HL Ha Hst) as Hpos.
  apply (outside_kept (memseg s) L s s' a (a + e_size e) a); auto; [|intros; congruence].
  intros b f Hb H1 H2. right. destruct (Z.lt_total a b) as [Hlt|[->|Hlt]]; [|done|].
  - pose proof (wf_disj _ _ HL a e b f Ha Hb Hlt). rewrite extent_size in * by lia. lia.
  - pose proof (wf_disj _ _ HL b f a e Hb Ha Hlt). lia.
Qed.

Lemma free_kept s L a e h s' L' d n :
  inv s L -> L !! a = Some e -> e_state e = ELEM_BUSY -> 0 < e_size e -> free_ok s L a e h s' L' ->
  live_block L d n -> d <> a + e_pad e + 64 -> kept s s' d n.
Proof.
  intros [HS _ _] Ha Hb Hpos [_ _ (y & f & _ & _ & Hya & Hyz & Hyp & Hout & Hye) _] Hlive Hd.
  pose proof (rep_wf _ _ (sh_rep _ _ HS)) as HL. pose proof (extent_size e Hpos).
  apply (outside_kept (memseg s) L s s' y (y + e_size f) a); auto; [|intros e' He' _; congruence].
  intros b g Hbg H1 H2. destruct (Z.lt_total a b) as [Hlt|[->|Hlt]]; [|by right|].
  - left. pose proof (wf_disj _ _ HL a e b g Ha Hbg Hlt). destruct Hye as [?|(n0 & Hn0 & Hn0s & E)]; [lia|].
    pose proof (free_size_pos _ _ _ _ HL Hn0 Hn0s) as Hnp.
    pose proof (wf_lookup_inside _ L _ _ b g HL Hn0 Hbg). rewrite extent_size in * by lia.
    assert (b = a + e_size e) as -> by lia. congruence.
  - left. pose proof (wf_disj _ _ HL b g a e Hbg Ha Hlt). destruct Hyp as [->|(p & Hp & Hps & E)]; [lia|].
    pose proof (free_size_pos _ _ _ _ HL Hp Hps) as Hpp.
    destruct (Z.lt_total b y) as [Hlt'|[->|Hlt']]; [|congruence|].
    + pose proof (wf_disj _ _ HL b g y p Hbg Hp Hlt'). lia.
    + pose proof (wf_disj _ _ HL y p b g Hp Hbg Hlt'). rewrite extent_size in * by lia. lia.
Qed.

(** ** Release *)

(** The header in front of the data, or the dummy header, leads to the element. *)
Lemma wp_from_data s L a e (Q : option Z -> mem_config -> Prop) :
  inv s L -> L !! a = Some e -> e_state e = ELEM_BUSY -> 0 < e_size e -> Q (Some a) s ->
  wp (malloc_elem_from_data (Some (a + e_pad e + 64))) Q s.
Proof.
  intros HI Ha Hb Hpos HQ. pose proof (inv_shape _ _ HI) as HS. pose proof (sh_rep _ _ HS) as HR.
  pose proof (wf_blk _ _ (rep_wf _ _ HR) a e Ha) as W. destruct (bw_pad _ _ _ _ W) as [Hp1 Hp2].
  pose proof (bw_pad_room _ _ _ _ W Hb) as Hroom.
  pose proof (rep_bounds s L a e HR Ha) as (? & ? & ? & ?). rewrite extent_size in * by lia.
  unfold malloc_elem_from_data, MALLOC_ELEM_HEADER_LEN. rewrite Z.add_simpl_r, u64_id by lia. wp_step.
  destruct (decide (0 < e_pad e)) as [Hpad|Hpad].
  - destruct (sh_pads _ _ HS a e Ha Hb Hpad) as (pe & Hpe & Hps & Epe).
    eapply wp_get_raw; [|exact Hpe|].
    + apply (rep_elem_ok s L a e); auto; [lia|]. rewrite extent_size by lia. auto.
    + rewrite bool_decide_eq_true_2 by done. wp_step. rewrite Epe, Z.add_simpl_r, u64_id by lia. done.
  - assert (e_pad e = 0) as -> by lia. rewrite Z.add_0_r. apply (wp_get s L a e); auto.
    rewrite bool_decide_eq_false_2 by congruence. by wp_step.
Qed.

(** What releasing the block at [d] does. *)
Record released (s : mem_config) (L : gmap Z malloc_elem) (d : Z) (s' : mem_config) (L' : gmap Z malloc_elem) : Prop :=
  Released {
  rl_inv : inv s' L';
  rl_live : forall d' n', live_block L' d' n' <-> live_block L d' n' /\ d' <> d;
  rl_kept : forall d' n', live_block L d' n' -> d' <> d -> kept s s' d' n';
  rl_hole : exists y f, L' !! y = Some f /\ e_state f = ELEM_FREE /\ y + 64 <= d <= y + e_size f;
  rl_rest : memseg s' = memseg s /\ length (heaps s') = length (heaps s)
    /\ memzone_cnt s' = memzone_cnt s /\ memzone s' = memzone s
}.

Lemma wp_rte_free s L d n (Q : outcome unit -> mem_config -> Prop) :
  inv s L -> live_block L d n ->
  (forall s' L', released s L d s' L' -> Q (Done tt) s') ->
  wp (rte_free (Some d)) Q s.
Proof.
  intros HI (a & e & Ha & Hb & Hpos & -> & ->) HQ. unfold MALLOC_ELEM_HEADER_LEN in *.
  pose proof (sh_rep _ _ (inv_shape _ _ HI)) as HR. pose proof (wf_blk _ _ (rep_wf _ _ HR) a e Ha) as W.
  destruct (elem_has_heap _ _ _ _ (rep_wf _ _ HR) Ha) as [h Hh].
  unfold rte_free. wp_step. apply (wp_from_data s L a e); auto. wp_step.
  apply (wp_elem_free s L a e h); auto. intros s' L' HF. wp_step. apply (HQ s' L').
  pose proof HF as [HI' [Ho _ _] (y & f & Hy & Hfs & Hya & Hyz & _) Hrest]. split; auto.
  - intros d' n' Hl Hd. by apply (free_kept s L a e h s' L').
  - exists y, f. destruct (bw_pad _ _ _ _ W). pose proof (bw_pad_room _ _ _ _ W Hb).
    pose proof (wf_size64 _ _ _ _ W Hpos). split_and!; auto; lia.
Qed.

(** ** Allocation *)

Definition max_align (align : Z) : Z := Z.max 64 align.

(** Valid arguments; a pointer minus the size and the alignment is still a pointer. *)
Record malloc_args (segs : list rte_memseg) (size align : Z) : Prop := MallocArgs {
  ma_size : 0 < size < 2 ^ 63;
  ma_align : align = 0 \/ exists k, align = 2 ^ k /\ 0 <= k <= 31;
  ma_room : forall k ms, segs !! k = Some ms -> size + align + 256 <= ms_addr ms
}.

Lemma align_roundup align :
  align = 0 \/ (exists k, align = 2 ^ k /\ 0 <= k <= 31) ->
  RTE_CACHE_LINE_ROUNDUP 64 (if align =? 0 then 1 else align) = max_align align
  /\ exists k, max_align align = 2 ^ k /\ 6 <= k <= 31.
Proof.
  unfold max_align. intros [->|(k & -> & Hk)]; [split; [done|exists 6; lia]|].
  pose proof (pow2_pos k ltac:(lia)). destruct (Z.eqb_spec (2 ^ k) 0); [lia|].
  unfold RTE_CACHE_LINE_ROUNDUP, RTE_CACHE_LINE_SIZE.
  assert (2 ^ k <= 2 ^ 31) by (apply Z.pow_le_mono_r; lia). rewrite wrapu_small by lia.
  destruct (Z.le_gt_cases k 5).
  - assert (2 ^ k <= 2 ^ 5) by (apply Z.pow_le_mono_r; lia). change (2 ^ 5) with 32 in *.
    rewrite <- (Z.div_unique (2 ^ k + 64 - 1) 64 1 (2 ^ k - 1)) by lia. rewrite Z.max_l by lia. split; [done|].
    exists 6. done.
  - assert (2 ^ k = 64 * 2 ^ (k - 6)) as E.
    { change 64 with (2 ^ 6). rewrite <- Z.pow_add_r by lia. f_equal. lia. }
    assert (1 <= 2 ^ (k - 6)) by (pose proof (pow2_pos (k - 6)); lia).
    rewrite Z.max_r by lia. split; [|exists k; lia].
    rewrite <- (Z.div_unique (2 ^ k + 64 - 1) 64 (2 ^ (k - 6)) 63) by lia. lia.
Qed.

Lemma malloc_request segs size align :
  malloc_args segs size align -> request segs (RTE_CACHE_LINE_ROUNDUP 64 size) (max_align align) 0.
Proof.
  intros [Hs Ha Hroom]. destruct (align_roundup align Ha) as [_ Hk].
  destruct (roundup_props size ltac:(lia)) as [Hm Hr]. split; auto; [lia|].
  assert (0 <= align) by (destruct Ha as [->|(k & -> & ?)]; [lia|pose proof (pow2_pos k); lia]).
  intros k ms Hms. specialize (Hroom k ms Hms). unfold max_align. lia.
Qed.

(** No free element of the heap has a place for the data. *)
Definition no_room (L : gmap Z malloc_elem) (size align : Z) (h : nat) : Prop :=
  forall a e q, L !! a = Some e -> e_state e = ELEM_FREE -> e_heap e = Some h ->
    q mod max_align align = 0 -> a + 64 <= q -> q + size <= a + e_size e -> False.

(** The block at [d] was taken from the heap [h]. *)
Record allocated (s : mem_config) (L : gmap Z malloc_elem) (size align : Z) (h : nat) (d : Z)
    (s' : mem_config) (L' : gmap Z malloc_elem) : Prop := Allocated {
  al_inv : inv s' L';
  al_block : exists n, size <= n < size + 192 /\ zeroed s' d n
    /\ (exists a e, L !! a = Some e /\ e_state e = ELEM_FREE /\ e_heap e = Some h /\ a + 64 <= d /\ d + n <= a + e_size e)
    /\ forall d' n', live_block L' d' n' <-> live_block L d' n' \/ d' = d /\ n' = n;
  al_align : d mod max_align align = 0;
  al_keep : busy_kept L L';
  al_kept : forall d' n', live_block L d' n' -> kept s s' d' n';
  al_rest : memseg s' = memseg s /\ length (heaps s') = length (heaps s)
    /\ memzone_cnt s' = memzone_cnt s /\ memzone s' = memzone s
}.

Lemma page_any s L a e : wfL (memseg s) L -> L !! a = Some e -> page_ok s L 0 a.
Proof.
  intros HL Ha. destruct (bw_seg _ _ _ _ (wf_blk _ _ HL a e Ha)) as (k & ms & ? & ? & _). exists e, k, ms. done.
Qed.

Lemma wp_heap_malloc s L h size align (Q : option Z -> mem_config -> Prop) :
  inv s L -> malloc_args (memseg s) size align -> (h < length (heaps s))%nat ->
  (no_room L size align h -> Q None s) ->
  (forall d s' L', allocated s L size align h d s' L' -> Q (Some d) s') ->
  wp (malloc_heap_alloc h size 0 (if align =? 0 then 1 else align) 0) Q s.
Proof.
  intros HI Hargs Hh HN HY. pose proof (malloc_request _ _ _ Hargs) as Hrq.
  pose proof Hargs as [Hsz Hal _]. destruct (align_roundup align Hal) as [Eal (k & Ek & Hk)].
  destruct (roundup_props size ltac:(lia)) as [Hm Hr]. set (sz := RTE_CACHE_LINE_ROUNDUP 64 size) in *.
  pose proof (sh_rep _ _ (inv_shape _ _ HI)) as HR. pose proof (rep_wf _ _ HR) as HL.
  apply (wp_heap_alloc s L); rewrite ?Eal; auto; fold sz.
  - intros Hno. apply HN. intros a e q Ha Hst Heh Hq Hlo Hhi. pose proof (free_size_pos _ _ _ _ HL Ha Hst) as Hpos.
    pose proof (wf_blk _ _ HL a e Ha) as W. pose proof (bw_align _ _ _ _ W). pose proof (bw_size _ _ _ _ W).
    assert (q mod 64 = 0).
    { apply Z.mod_divide in Hq as [c ->]; [|lia]. rewrite Ek. replace k with ((k - 6) + 6) by lia.
      rewrite Z.pow_add_r, Z.mul_assoc by lia. apply Z.mod_mul. lia. }
    destruct (Hno a e Ha Hst Heh) as [Hp _]; [|by apply Hp, (page_any s L a e)].
    exists e. split; [done|]. rewrite (request_start (memseg s) L) by (auto; apply HR). rewrite Ek.
    apply (start_pt_complete _ _ _ _ _ q); [lia..|by left|]. rewrite <- Ek.
    split_and!; auto; [Z.div_mod_to_equations; lia|done].
  - intros d s' L' HA. apply (HY d s' L').
    pose proof HA as [HI' (a & e & m & Ha & Hst & Heh & _ & (Hq & Hlo & Hhi & _) & Hm1 & Hm2 & [Ho _ _ Hk'] & _ & Hz) Hrest].
    split; auto.
    + exists m. split_and!; auto; [lia..|]. exists a, e. auto.
    + intros d' n' Hl. by apply (alloc_kept _ _ _ _ _ _ _ _ _ _ _ _ HI HA).
Qed.

(** The heaps a request may be served from. *)
Definition home (env : eal_env) : nat := Z.to_nat (malloc_get_numa_socket env).

Definition env_ok (env : eal_env) : Prop :=
  eal_socket_id env = u32 SOCKET_ID_ANY \/ 0 <= eal_socket_id env < RTE_MAX_NUMA_NODES.

Definition allowed (env : eal_env) (socket_arg : Z) (h : nat) : Prop :=
  if eal_has_hugepages env && negb (socket_arg =? SOCKET_ID_ANY) then Z.of_nat h = socket_arg
  else (h < Z.to_nat RTE_MAX_NUMA_NODES)%nat.

Lemma env_home env : env_ok env ->
  0 <= malloc_get_numa_socket env < RTE_MAX_NUMA_NODES /\ i32 (malloc_get_numa_socket env) = malloc_get_numa_socket env.
Proof.
  intros He. assert (0 <= malloc_get_numa_socket env < RTE_MAX_NUMA_NODES) as Hr.
  { unfold malloc_get_numa_socket. destruct (Z.eqb_spec (eal_socket_id env) (u32 SOCKET_ID_ANY)); [done|].
    by destruct He. }
  split; [done|]. unfold RTE_MAX_NUMA_NODES in Hr. apply wraps_small; lia.
Qed.

(** The first heap of the list that serves the request, other than the one tried before. *)
Lemma wp_try_each s l socket size flags align bound (N : nat -> Prop) (Y : nat -> Z -> mem_config -> Prop)
    (Q : option Z -> mem_config -> Prop) :
  (forall i (R : option Z -> mem_config -> Prop), i ∈ l -> (N i -> R None s) -> (forall d s', Y i d s' -> R (Some d) s') ->
     wp (malloc_heap_alloc i size flags align bound) R s) ->
  ((forall i, i ∈ l -> Z.of_nat i <> socket -> N i) -> Q None s) ->
  (forall i d s', i ∈ l -> Y i d s' -> Q (Some d) s') ->
  wp (try_heaps l socket size flags align bound) Q s.
Proof.
  induction l as [|i l IH]; intros Hl HN HY; simpl; [wp_step; apply HN; set_solver|].
  assert ((Z.of_nat i <> socket -> N i) -> wp (try_heaps l socket size flags align bound) Q s) as Hrest.
  { intros Hi. apply IH; [intros; apply Hl; [set_solver|done..]| |intros; eapply HY; [|done]; set_solver].
    intros Hno. apply HN. intros j Hj Hne. apply elem_of_cons in Hj as [->|Hj]; auto. }
  destruct (Z.eqb_spec (Z.of_nat i) socket) as [E|E]; [by apply Hrest|].
  wp_step. apply Hl; [set_solver|auto|]. intros d s' Hy. wp_step. apply (HY i); [set_solver|done].
Qed.

Lemma wp_try_heaps s L l socket size align (Q : option Z -> mem_config -> Prop) :
  inv s L -> malloc_args (memseg s) size align -> (forall i, i ∈ l -> (i < length (heaps s))%nat) ->
  ((forall i, i ∈ l -> Z.of_nat i <> socket -> no_room L size align i) -> Q None s) ->
  (forall i d s' L', i ∈ l -> allocated s L size align i d s' L' -> Q (Some d) s') ->
  wp (try_heaps l socket size 0 (if align =? 0 then 1 else align) 0) Q s.
Proof.
  intros HI Hargs Hl HN HY.
  apply (wp_try_each _ _ _ _ _ _ _ (no_room L size align) (fun i d s' => exists L', allocated s L size align i d s' L')); auto.
  - intros i R Hi Hn Hy. apply (wp_heap_malloc s L); eauto.
  - intros i d s' Hi [L' HA]. eauto.
Qed.

(** ** The interface *)

Section Api.
Context (env : eal_env).

(** What [rte_malloc_socket] may answer: a block of an allowed heap, or null when no
    allowed heap has room. *)
Definition malloc_post (s : mem_config) (L : gmap Z malloc_elem) (size align socket_arg : Z)
    (r : option Z) (s' : mem_config) : Prop :=
  match r with
  | Some d => exists h L', allowed env socket_arg h /\ allocated s L size align h d s' L'
  | None => s' = s /\ forall h, allowed env socket_arg h -> no_room L size align h
  end.

Lemma is_power align : align = 0 \/ (exists k, align = 2 ^ k /\ 0 <= k <= 31) ->
  negb (align =? 0) && negb (rte_is_power_of_2 align) = false.
Proof.
  intros [->|(k & -> & Hk)]; [done|]. pose proof (pow2_pos k ltac:(lia)).
  destruct (Z.eqb_spec (2 ^ k) 0); [lia|]. cbn. unfold rte_is_power_of_2.
  destruct (Z.eqb_spec (2 ^ k) 0); [lia|]. cbn. rewrite Z.land_comm.
  pose proof (log_powerof2 k ltac:(lia)) as E. unfold POWEROF2 in E. by rewrite E.
Qed.

Lemma no_room_absent s L size align h :
  inv s L -> (length (heaps s) <= h)%nat -> no_room L size align h.
Proof.
  intros HI Hh a e q Ha Hst Heh. pose proof (inv_shape _ _ HI) as HS.
  pose proof (elem_heap s L a e h (sh_rep _ _ HS) (sh_heaps _ _ HS) Ha Heh). lia.
Qed.

Lemma wp_malloc_socket s L size align socket_arg (Q : option Z -> mem_config -> Prop) :
  inv s L -> length (heaps s) = Z.to_nat RTE_MAX_NUMA_NODES -> env_ok env ->
  malloc_args (memseg s) size align -> SOCKET_ID_ANY <= socket_arg ->
  (forall r s', malloc_post s L size align socket_arg r s' -> Q r s') ->
  wp (rte_malloc_socket env size align socket_arg) Q s.
Proof.
  intros HI Hlen Henv Hargs Hsock HQ. pose proof Hargs as [Hsz Hal _]. destruct (env_home env Henv) as [Hhome Ei].
  unfold rte_malloc_socket. destruct (Z.eqb_spec size 0); [lia|]. rewrite is_power by done. cbn [orb].
  set (sa := if negb (eal_has_hugepages env) then SOCKET_ID_ANY else socket_arg).
  assert (forall h, allowed env socket_arg h <-> if sa =? SOCKET_ID_ANY then (h < Z.to_nat RTE_MAX_NUMA_NODES)%nat
                                     else Z.of_nat h = sa) as Hallow.
  { intros h. unfold allowed, sa. destruct (eal_has_hugepages env); cbn; [|done].
    by destruct (Z.eqb_spec socket_arg SOCKET_ID_ANY). }
  assert (sa = SOCKET_ID_ANY \/ 0 <= sa) as Hsa.
  { unfold sa, SOCKET_ID_ANY in *. destruct (negb (eal_has_hugepages env)); lia. }
  clearbody sa. unfold SOCKET_ID_ANY, RTE_MAX_NUMA_NODES, heap_alloc_on in *. rewrite Ei.
  destruct (Z.eqb_spec sa (-1)) as [Esa|Hne].
  - destruct (Z.leb_spec 8 (malloc_get_numa_socket env)); [lia|].
    destruct (Z.ltb_spec (malloc_get_numa_socket env) 0); [lia|]. wp_step.
    apply (wp_heap_malloc s L); auto; [lia| |].
    + intros Hno. cbn [negb]. apply (wp_try_heaps s L); auto.
      * intros i Hi. apply elem_of_seq in Hi. rewrite Hlen. unfold RTE_MAX_NUMA_NODES in Hi. lia.
      * intros Hno'. apply HQ. split; [done|]. intros h Hh. apply Hallow in Hh.
        destruct (decide (Z.of_nat h = malloc_get_numa_socket env)) as [E|].
        -- assert (h = Z.to_nat (malloc_get_numa_socket env)) as -> by lia. done.
        -- apply Hno'; [|done]. apply elem_of_seq. unfold RTE_MAX_NUMA_NODES. lia.
      * intros i d s' L' Hi HA. apply HQ. exists i, L'. split; [|done]. apply Hallow. apply elem_of_seq in Hi.
        unfold RTE_MAX_NUMA_NODES in Hi. lia.
    + intros d s' L' HA. wp_step. apply HQ. eexists _, L'. split; [|done]. apply Hallow. lia.
  - destruct (Z.leb_spec 8 sa).
    { wp_step. apply HQ. split; [done|]. intros h Hh. apply Hallow in Hh. apply (no_room_absent s); [done|].
      rewrite Hlen. lia. }
    destruct (Z.ltb_spec sa 0); [lia|]. wp_step. apply (wp_heap_malloc s L); auto; [lia| |].
    + intros Hno. cbn [negb]. wp_step. apply HQ. split; [done|]. intros h Hh. apply Hallow in Hh.
      assert (h = Z.to_nat sa) as -> by lia. done.
    + intros d s' L' HA. wp_step. apply HQ. exists (Z.to_nat sa), L'. split; [|done]. apply Hallow. lia.
Qed.
End Api.

(** ** Memory that is not allocated *)

(** A pointer into free memory is rejected. *)
Lemma wp_free_dangling s L y f d (Q : outcome unit -> mem_config -> Prop) :
  inv s L -> L !! y = Some f -> e_state f = ELEM_FREE -> y + 64 <= d <= y + e_size f -> d mod 64 = 0 ->
  Q Panic s -> wp (rte_free (Some d)) Q s.
Proof.
  intros HI Hy Hst Hd Hdm HQ. pose proof (inv_shape _ _ HI) as HS. pose proof (sh_rep _ _ HS) as HR.
  pose proof (rep_bounds s L y f HR Hy) as (? & ? & ? & ?). pose proof (wf_blk _ _ (rep_wf _ _ HR) y f Hy) as W.
  pose proof (free_size_pos _ _ _ _ (rep_wf _ _ HR) Hy Hst) as Hpos. rewrite extent_size in * by lia.
  assert (forall Q', (forall e, e_state e = ELEM_FREE -> Q' e s) -> wp (get_elem (d - 64)) Q' s) as Hget.
  { intros Q' HQ'. destruct (decide (d = y + 64)) as [->|Hne].
    - rewrite Z.add_simpl_r. apply (wp_get s L y f); auto.
    - assert ((d - 64 - y) mod 64 = 0) as Hm.
      { pose proof (bw_align _ _ _ _ W). Z.div_mod_to_equations. lia. }
      assert (64 <= d - 64 - y) by (Z.div_mod_to_equations; lia).
      apply wp_get_zero; [| | |by apply HQ'].
      + replace (d - 64) with (y + (d - 64 - y)) by lia. apply (rep_elem_ok s L y f); auto; [lia|].
        rewrite extent_size by lia. lia.
      + apply (sh_clean _ _ HS y f); auto. lia.
      + intros x Hx. apply (sh_clean _ _ HS y f); auto. lia. }
  unfold rte_free, malloc_elem_from_data, MALLOC_ELEM_HEADER_LEN. rewrite u64_id by lia. wp_step.
  apply Hget. intros e He. rewrite bool_decide_eq_false_2 by congruence. wp_step.
  unfold malloc_elem_free. wp_step. apply Hget. intros e' He'. rewrite bool_decide_eq_false_2 by congruence.
  cbn [negb]. by wp_step.
Qed.
