(* ===== verification/MallocInit.v ===== *)
(** rte_eal_malloc_heap_init: from the memory segments to heaps, and back when every
    block has been released. *)
From Stdlib Require Import ZArith Lia.
From stdpp Require Import base numbers list gmap.
From S2P Require Import Prelude Ring Malloc MallocLayout MallocRep MallocAlloc MallocSpec MallocFree MallocApi.

#[local] Open Scope Z_scope.

(** What the memory layer provides: aligned segments that do not overlap, on sockets
    that exist. *)
Record layout_ok (segs : list rte_memseg) : Prop := LayoutOk {
  lo_num : Z.of_nat (length segs) <= RTE_MAX_MEMSEG;
  lo_seg : forall k ms, segs !! k = Some ms ->
    0 < ms_addr ms /\ ms_addr ms mod 64 = 0 /\ 128 <= ms_len ms /\ ms_addr ms + ms_len ms < 2 ^ 63
    /\ 0 <= ms_socket_id ms < RTE_MAX_NUMA_NODES;
  lo_disj : forall j k mj mk, segs !! j = Some mj -> segs !! k = Some mk -> (j < k)%nat ->
    ms_addr mj + ms_len mj <= ms_addr mk \/ ms_addr mk + ms_len mk <= ms_addr mj
}.

Definition empty_heap : malloc_heap := Heap (replicate (Z.to_nat RTE_HEAP_NUM_FREELISTS) []) 0 0.

(** The shared configuration before the heaps are set up. *)
Definition fresh_config (segs : list rte_memseg) (zones : list rte_memzone) : mem_config :=
  MC ∅ ∅ (replicate (Z.to_nat RTE_MAX_NUMA_NODES) empty_heap) segs 0 zones.

Lemma seg_end_spec segs k ms : layout_ok segs -> segs !! k = Some ms ->
  seg_end ms mod 64 = 0 /\ ms_addr ms + 64 <= seg_end ms /\ seg_end ms + 64 <= ms_addr ms + ms_len ms
  /\ RTE_ALIGN_FLOOR 32 (u64 (ms_addr ms + u64 (ms_len ms - MALLOC_ELEM_OVERHEAD))) RTE_CACHE_LINE_SIZE = seg_end ms.
Proof.
  intros HL Hk. destruct (lo_seg _ HL k ms Hk) as (? & Hm & ? & ? & _).
  unfold seg_end, MALLOC_ELEM_OVERHEAD, MALLOC_ELEM_HEADER_LEN, MALLOC_ELEM_TRAILER_LEN, RTE_CACHE_LINE_SIZE.
  split; [rewrite Z.mul_comm; apply Z.mod_mul; lia|]. split; [Z.div_mod_to_equations; lia|].
  split; [Z.div_mod_to_equations; lia|]. rewrite !u64_id by (rewrite ?u64_id; lia).
  change 64 with (2 ^ 6). rewrite align_floor by lia. change (2 ^ 6) with 64. f_equal. f_equal. lia.
Qed.

(** The segments before the [k]-th have been added. *)
Record added (segs : list rte_memseg) (k : nat) (s : mem_config) (L : gmap Z malloc_elem) : Prop := Added {
  ad_inv : inv s L;
  ad_segs : memseg s = segs;
  ad_heaps : length (heaps s) = Z.to_nat RTE_MAX_NUMA_NODES;
  ad_bytes : bytes s = ∅;
  ad_elems : forall x e, elems s !! x = Some e -> exists j ms, (j < k)%nat /\ segs !! j = Some ms
    /\ ms_addr ms <= x /\ x + 64 <= ms_addr ms + ms_len ms;
  ad_free : forall d n, ~ live_block L d n;
  ad_sizes : forall j ms, (j < k)%nat -> segs !! j = Some ms ->
    exists e, L !! ms_addr ms = Some e /\ e_state e = ELEM_FREE /\ e_size e = seg_end ms - ms_addr ms
      /\ e_ms e = Some j
}.

Section Init.
Context (segs : list rte_memseg) (Hlay : layout_ok segs).

Definition seg_layout (h k : nat) (ms : rte_memseg) (L : gmap Z malloc_elem) : gmap Z malloc_elem :=
  <[seg_end ms := Elem (Some h) (Some (ms_addr ms)) (Some k) ELEM_BUSY 0 0]>
    (<[ms_addr ms := Elem (Some h) None (Some k) ELEM_FREE 0 (seg_end ms - ms_addr ms)]> L).

Lemma seg_lookup h k ms L x f : ms_addr ms < seg_end ms ->
  seg_layout h k ms L !! x = Some f <->
  (x = seg_end ms /\ f = Elem (Some h) (Some (ms_addr ms)) (Some k) ELEM_BUSY 0 0)
  \/ (x = ms_addr ms /\ f = Elem (Some h) None (Some k) ELEM_FREE 0 (seg_end ms - ms_addr ms))
  \/ (x <> seg_end ms /\ x <> ms_addr ms /\ L !! x = Some f).
Proof. intros H. unfold seg_layout. rewrite !lookup_insert_Some. naive_solver lia. Qed.

(** Elements of earlier segments are outside of this one. *)
Lemma added_apart k s L ms a e :
  added segs k s L -> segs !! k = Some ms -> L !! a = Some e ->
  a + extent e <= ms_addr ms \/ ms_addr ms + ms_len ms <= a.
Proof.
  intros HA Hk Ha. pose proof (sh_rep _ _ (inv_shape _ _ (ad_inv _ _ _ _ HA))) as HR.
  destruct (ad_elems _ _ _ _ HA a e) as (j & mj & Hj & Hmj & Hlo & Hhi); [by apply (lookup_weaken L), (rep_sub _ _ HR)|].
  destruct (bw_seg _ _ _ _ (wf_blk _ _ (rep_wf _ _ HR) a e Ha)) as (i & mi & Hi & Hmi & _ & ? & ? & _).
  rewrite (ad_segs _ _ _ _ HA) in Hmi. pose proof (wf_extent64 _ _ _ _ (wf_blk _ _ (rep_wf _ _ HR) a e Ha)).
  assert (i = j) as ->.
  { destruct (Nat.lt_total i j) as [Hlt|[|Hlt]]; [exfalso|done|exfalso].
    - destruct (lo_disj _ Hlay i j mi mj Hmi Hmj Hlt); lia.
    - destruct (lo_disj _ Hlay j i mj mi Hmj Hmi Hlt); lia. }
  assert (mi = mj) as -> by congruence. destruct (lo_disj _ Hlay j k mj ms Hmj Hk Hj); lia.
Qed.

Lemma seg_wf k s L ms :
  added segs k s L -> segs !! k = Some ms -> wfL segs (seg_layout (Z.to_nat (ms_socket_id ms)) k ms L).
Proof.
  intros HA Hk. destruct (seg_end_spec segs k ms Hlay Hk) as (Hem & Hlo & Hhi & _).
  destruct (lo_seg _ Hlay k ms Hk) as (Hpos & Hsm & Hlen & Htop & Hsock).
  pose proof (rep_wf _ _ (sh_rep _ _ (inv_shape _ _ (ad_inv _ _ _ _ HA)))) as HL. rewrite (ad_segs _ _ _ _ HA) in HL.
  pose proof (added_apart k s L ms) as Hap. set (h := Z.to_nat (ms_socket_id ms)).
  set (m := Elem (Some h) (Some (ms_addr ms)) (Some k) ELEM_BUSY 0 0).
  set (f0 := Elem (Some h) None (Some k) ELEM_FREE 0 (seg_end ms - ms_addr ms)).
  assert (extent f0 = seg_end ms - ms_addr ms) as Ef0 by (apply extent_size; cbn; lia).
  assert (forall y g, L !! y = Some g -> y <> seg_end ms /\ y <> ms_addr ms) as Hfresh.
  { intros y g Hy. pose proof (wf_extent64 _ _ _ _ (wf_blk _ _ HL y g Hy)). destruct (Hap y g HA Hk Hy); lia. }
  assert (forall y g, L !! y = Some g -> seg_layout h k ms L !! y = Some g) as Hkeep.
  { intros y g Hy. apply seg_lookup; [lia|]. destruct (Hfresh y g Hy). auto. }
  split.
  - intros x f. rewrite seg_lookup by lia. intros [[-> ->]|[[-> ->]|(Hx1 & Hx2 & Hx)]].
    + constructor; cbn; auto; try lia.
      * exists k, ms. unfold MALLOC_ELEM_HEADER_LEN. split_and!; auto; [lia|done].
      * done.
      * intros p [= <-]. exists f0. rewrite seg_lookup by lia. cbn. split; [|lia]. right; left. done.
    + constructor; cbn; auto; try lia; [rewrite Zminus_mod, Hem, Hsm; done| |done|done|].
      * exists k, ms. fold f0. split_and!; auto; lia.
      * intros _. exists m. rewrite seg_lookup by lia. split; [left; split; [lia|done]|done].
    + apply (blk_wf_mono segs L); [intros p ep Hp ? ? _; exists ep; auto|intros n Hn ? _; exists n; auto|by apply (wf_blk _ _ HL)].
  - intros x f y g. rewrite !seg_lookup by lia.
    intros [[-> ->]|[[-> ->]|(_ & _ & Hx)]] [[-> ->]|[[-> ->]|(_ & _ & Hy)]] Hxy; try lia.
    + change (extent _) with 64. destruct (Hap y g HA Hk Hy); [|lia]. pose proof (wf_extent64 _ _ _ _ (wf_blk _ _ HL y g Hy)). lia.
    + fold f0. lia.
    + fold f0. destruct (Hap y g HA Hk Hy); [|lia]. pose proof (wf_extent64 _ _ _ _ (wf_blk _ _ HL y g Hy)). lia.
    + destruct (Hap x f HA Hk Hx); lia.
    + destruct (Hap x f HA Hk Hx); lia.
    + by apply (wf_disj _ _ HL x f y g).
Qed.

Lemma seg_sums h k ms L f :
  ms_addr ms < seg_end ms -> L !! ms_addr ms = None -> L !! seg_end ms = None ->
  msum f (seg_layout h k ms L) = msum f L
    + f (Elem (Some h) None (Some k) ELEM_FREE 0 (seg_end ms - ms_addr ms))
    + f (Elem (Some h) (Some (ms_addr ms)) (Some k) ELEM_BUSY 0 0).
Proof.
  intros Hlt H1 H2. unfold seg_layout. rewrite !msum_insert_new; [lia|done|]. by rewrite lookup_insert_ne by lia.
Qed.

Lemma seg_free_at h k ms L g idx x :
  ms_addr ms < seg_end ms -> L !! ms_addr ms = None -> L !! seg_end ms = None ->
  free_at (seg_layout h k ms L) g idx x <-> free_at L g idx x \/ x = ms_addr ms /\ g = h
    /\ idx = Z.to_nat (malloc_elem_free_list_index (seg_end ms - ms_addr ms - MALLOC_ELEM_HEADER_LEN)).
Proof.
  intros Hlt H1 H2. unfold free_at. setoid_rewrite seg_lookup; [|done]. split.
  - intros (f & [[-> ->]|[[-> ->]|(_ & _ & Hx)]] & Hst & Hh & Hi); [done|right; cbn in *; naive_solver|left; eauto].
  - intros [(f & Hf & ?)|(-> & -> & ->)].
    + exists f. split; [|done]. right; right. split_and!; auto; congruence.
    + eexists. split; [right; left; eauto|]. done.
Qed.

(** One more segment: the elements and free lists, the counts, and the whole state. *)
Section Step.
Context (A : list Z) (k : nat) (s : mem_config) (L : gmap Z malloc_elem) (ms : rte_memseg) (s2 : mem_config).
Let h := Z.to_nat (ms_socket_id ms).
Let L1 := seg_layout h k ms L.
Let s3 := set_heaps (alter (fun hp => Heap (free_head hp) (alloc_count hp) (u64 (total_size hp + (seg_end ms - ms_addr ms)))) h) s2.
Hypothesis HA : added segs k s L.
Hypothesis Hk : segs !! k = Some ms.
Hypothesis HR2 : rep s2 L1.
Hypothesis Hf : frame A s s2.
Hypothesis HAd : forall y, y ∈ A -> y = ms_addr ms \/ y = seg_end ms.
Hypothesis Hl : lists_ok s2 (fun g idx x => free_at L g idx x \/ x = ms_addr ms /\ g = h
  /\ idx = Z.to_nat (malloc_elem_free_list_index (seg_end ms - ms_addr ms - MALLOC_ELEM_HEADER_LEN))).
Hypothesis Hnone : forall x, ms_addr ms <= x < ms_addr ms + ms_len ms -> elems s !! x = None /\ L !! x = None.

Lemma added_clear x : bytes s2 !! x = None.
Proof. destruct (fr_bytes _ _ _ Hf x) as [->|[-> _]]; [|done]. by rewrite (ad_bytes _ _ _ _ HA). Qed.

Lemma added_shape : shape s3 L1.
Proof.
  destruct (seg_end_spec segs k ms Hlay Hk) as (Hem & Hlo & Hhi & _). pose proof (inv_shape _ _ (ad_inv _ _ _ _ HA)) as HS.
  pose proof (rep_wf _ _ HR2) as HL1. pose proof added_clear as Hb2.
  assert (L !! ms_addr ms = None) as H1 by (apply Hnone; lia). assert (L !! seg_end ms = None) as H2 by (apply Hnone; lia).
  assert (on_layout A L1) as HAl.
  { intros y Hy. destruct (HAd y Hy) as [->| ->]; eexists; apply seg_lookup; try lia; auto. }
  split; [by apply rep_heaps|..].
  - apply (pads_frame A s s2 L L1); auto; [apply HS|]. intros x f Hx Hb Hp. apply seg_lookup in Hx; [|lia].
    destruct Hx as [[-> ->]|[[-> ->]|(_ & _ & Hx)]]; [cbn in *; lia|done|eauto].
  - intros a f x Ha Hst Hx. split; [apply Hb2|]. cbn.
    pose proof (size_extent f (bw_nonneg _ _ _ _ (wf_blk _ _ HL1 a f Ha))).
    rewrite (fr_elems _ _ _ Hf) by (apply (on_layout_outside (memseg s2) _ L1 a f); auto; lia).
    apply seg_lookup in Ha; [|lia]. destruct Ha as [[-> ->]|[[-> ->]|(_ & _ & Ha)]]; [done| |by apply (sh_clean _ _ HS a f)].
    apply Hnone. cbn in Hx. lia.
  - intros x f n Hx Hpos Hst Hn Hns. apply seg_lookup in Hx; [|lia]. apply seg_lookup in Hn; [|lia].
    destruct Hn as [[? ->]|[[En ->]|(_ & Hne & Hn)]]; [done| |].
    + destruct Hx as [[-> ->]|[[-> ->]|(_ & _ & Hx)]]; [done|cbn in *; lia|].
      destruct (bw_next _ _ _ _ (wf_blk _ _ (rep_wf _ _ (sh_rep _ _ HS)) x f Hx) Hpos) as (n & Hn & _). rewrite En in Hn. congruence.
    + destruct Hx as [[-> ->]|[[-> ->]|(_ & _ & Hx)]]; [done| |by apply (sh_coalesced _ _ HS x f n)].
      cbn in Hn. replace (ms_addr ms + (seg_end ms - ms_addr ms)) with (seg_end ms) in Hn by lia. congruence.
  - intros g hp. cbn. intros Hg. assert (exists hp0, heaps s2 !! g = Some hp0 /\ free_head hp = free_head hp0) as (hp0 & Hg0 & ->).
    { destruct (decide (h = g)) as [<-|]; [|rewrite list_lookup_alter_ne in Hg by done; eauto].
      rewrite list_lookup_alter_eq in Hg. apply fmap_Some in Hg as (hp0 & Hg & ->). eauto. }
    destruct (Hl g hp0 Hg0) as [Hlen Hi]. split; [done|]. intros idx l Hidx. destruct (Hi idx l Hidx) as [? Hin].
    split; [done|]. intros a. rewrite Hin. unfold L1. by rewrite seg_free_at by (auto; lia).
  - intros j mj Hj. cbn in *. rewrite length_alter, (proj1 (fr_heaps _ _ _ Hf)). rewrite (fr_segs _ _ _ Hf) in Hj.
    by apply (sh_heaps _ _ HS j).
Qed.

Lemma added_counts : counts_ok s3 L1.
Proof.
  destruct (seg_end_spec segs k ms Hlay Hk) as (_ & Hlo & Hhi & _). pose proof (inv_counts _ _ (ad_inv _ _ _ _ HA)) as HC.
  assert (L !! ms_addr ms = None) as H1 by (apply Hnone; lia). assert (L !! seg_end ms = None) as H2 by (apply Hnone; lia).
  intros g hp. cbn. intros Hg. unfold L1. rewrite !seg_sums by (auto; lia).
  assert (forall hp0, heaps s2 !! g = Some hp0 ->
    alloc_count hp0 = u32 (msum (heap_busy g) L) /\ total_size hp0 = u64 (msum (heap_bytes g) L)) as Hold.
  { intros hp0 Hg0. pose proof (proj2 (fr_heaps _ _ _ Hf) g) as Heq. rewrite Hg0 in Heq.
    destruct (heaps s !! g) as [hp1|] eqn:E1; [|done]. cbn in Heq. injection Heq as -> ->. by apply HC. }
  set (f0 := Elem _ None _ _ _ _). set (m := Elem _ _ _ _ _ 0).
  assert (heap_busy g f0 = 0 /\ heap_busy g m = 0) as [-> ->].
  { unfold heap_busy. cbn. rewrite !decide_False; [done|..]; intros (_ & ? & ?); [lia|done]. }
  assert (heap_bytes g m = 0) as -> by (unfold heap_bytes; cbn; by destruct (decide _)).
  assert (heap_bytes g f0 = if decide (h = g) then seg_end ms - ms_addr ms else 0) as ->.
  { unfold heap_bytes. cbn. repeat case_decide; congruence. }
  rewrite !Z.add_0_r. destruct (decide (h = g)) as [<-|].
  - rewrite list_lookup_alter_eq in Hg. apply fmap_Some in Hg as (hp0 & Hg & ->). cbn.
    destruct (Hold hp0 Hg) as [-> ->]. by rewrite wrapu_add_l.
  - rewrite list_lookup_alter_ne in Hg by done. rewrite Z.add_0_r. by apply Hold.
Qed.

Lemma added_step : added segs (S k) s3 L1.
Proof.
  destruct (seg_end_spec segs k ms Hlay Hk) as (Hem & Hlo & Hhi & _). pose proof HA as [_ Hsegs Hheaps _ Helems Hfree Hsizes].
  assert (L !! ms_addr ms = None) as H1 by (apply Hnone; lia). assert (L !! seg_end ms = None) as H2 by (apply Hnone; lia).
  split; [split; [apply added_shape|apply added_counts|]|..].
  - apply (fr_hdr _ _ _ Hf), (inv_hdr _ _ (ad_inv _ _ _ _ HA)).
  - cbn. by rewrite (fr_segs _ _ _ Hf).
  - cbn. by rewrite length_alter, (proj1 (fr_heaps _ _ _ Hf)).
  - cbn. apply map_eq. intros x. rewrite lookup_empty. apply added_clear.
  - intros x e. cbn. intros Hx. destruct (decide (x ∈ A)) as [Hin|Hout].
    + exists k, ms. split; [lia|]. split; [done|]. destruct (HAd x Hin) as [->| ->]; lia.
    + rewrite (fr_elems _ _ _ Hf) in Hx by done. destruct (Helems x e Hx) as (j & mj & ? & ?). exists j, mj. split; [lia|done].
  - intros d n (a & e & Ha & Hb & Hpos & Hd). apply seg_lookup in Ha; [|lia].
    destruct Ha as [[-> ->]|[[-> ->]|(_ & _ & Ha)]]; [cbn in *; lia|done|]. apply (Hfree d n). exists a, e. auto.
  - intros j mj Hj Hmj. destruct (decide (j = k)) as [->|].
    + assert (mj = ms) as -> by congruence. eexists. split; [apply seg_lookup; [lia|right; left; eauto]|]. done.
    + destruct (Hsizes j mj ltac:(lia) Hmj) as (e & He & ?). exists e. split; [|done]. apply seg_lookup; [lia|].
      right; right. split_and!; auto; congruence.
Qed.
End Step.

Lemma wp_add_memseg k s L ms (Q : unit -> mem_config -> Prop) :
  added segs k s L -> segs !! k = Some ms ->
  (forall s' L', added segs (S k) s' L' -> memzone s' = memzone s -> memzone_cnt s' = memzone_cnt s -> Q tt s') ->
  wp (malloc_heap_add_memseg (Z.to_nat (ms_socket_id ms)) k ms) Q s.
Proof.
  intros HA Hk HQ. destruct (seg_end_spec segs k ms Hlay Hk) as (Hem & Hlo & Hhi & Efl).
  destruct (lo_seg _ Hlay k ms Hk) as (Hpos & Hsm & Hlen & Htop & Hsock).
  pose proof HA as [HI Hsegs Hheaps Hbytes Helems Hfree Hsizes]. pose proof (inv_shape _ _ HI) as HS.
  pose proof (sh_rep _ _ HS) as HR. pose proof (seg_wf k s L ms HA Hk) as HL'.
  set (h := Z.to_nat (ms_socket_id ms)) in *. set (sz := seg_end ms - ms_addr ms) in *.
  assert (forall x e, elems s !! x = Some e -> x + 64 <= ms_addr ms \/ ms_addr ms + ms_len ms <= x) as Hap.
  { intros x e Hx. destruct (Helems x e Hx) as (j & mj & Hj & Hmj & ? & ?).
    destruct (lo_disj _ Hlay j k mj ms Hmj Hk Hj); lia. }
  assert (forall x, ms_addr ms <= x < ms_addr ms + ms_len ms -> elems s !! x = None) as Hnone.
  { intros x Hx. destruct (elems s !! x) eqn:E; [|done]. destruct (Hap x _ E); lia. }
  assert (forall x, elems s !! x = None -> L !! x = None) as HLnone.
  { intros x Hx. destruct (L !! x) eqn:E; [|done]. apply (lookup_weaken L (elems s)) in E; [congruence|apply HR]. }
  assert (elem_ok s (ms_addr ms) = true) as Hok1.
  { apply (elem_ok_in s ms k); auto; [by rewrite Hsegs|lia..]. }
  assert (elem_ok s (seg_end ms) = true) as Hok2.
  { apply (elem_ok_in s ms k); auto; [by rewrite Hsegs|lia..]. }
  unfold malloc_heap_add_memseg, malloc_elem_init, malloc_elem_mkend. rewrite Efl, u64_id by lia. fold sz. wp_step.
  apply wp_put; [done|]. wp_step. eapply wp_get_raw; [exact Hok1|apply lookup_insert_eq|]. unfold malloc_elem_init. wp_step.
  apply wp_put; [exact Hok2|]. wp_step. eapply wp_upd_raw; [exact Hok2|apply lookup_insert_eq|]. wp_step.
  set (s1 := put_st _ _ _). set (L1 := seg_layout h k ms L) in *.
  assert (rep s1 L1) as HR1.
  { split; [cbn; by rewrite Hsegs| |apply HR]. cbn. unfold L1, seg_layout. rewrite insert_insert_eq. do 2 apply insert_mono. apply HR. }
  assert (frame ([ms_addr ms] ++ [seg_end ms] ++ [seg_end ms]) s s1) as Hf1.
  { do 2 (eapply frame_app; [apply frame_put|]). apply frame_put. }
  set (f0 := Elem (Some h) None (Some k) ELEM_FREE 0 sz).
  assert (L1 !! ms_addr ms = Some f0) as Hs0 by (apply seg_lookup; [lia|right; left; done]).
  assert (forall x, ms_addr ms <= x < ms_addr ms + ms_len ms -> L !! x = None) as HLn by auto.
  apply (wp_insert s1 L1 (free_at L) (ms_addr ms) f0 h); auto.
  { cbn. unfold h. rewrite Hheaps. lia. }
  { cbn. lia. }
  { rewrite insert_same_free by done. apply HR1. }
  { apply HS. }
  { intros g idx (f & Hf & _). rewrite HLn in Hf by lia. done. }
  intros s2 HR2 Hl2 Hf2. rewrite insert_same_free in HR2 by done. wp_step.
  pose proof (frame_app _ _ _ _ _ Hf1 Hf2) as Hf. cbn [app] in Hf.
  apply wp_on_heap; [rewrite (proj1 (fr_heaps _ _ _ Hf)), Hheaps; unfold h; lia|].
  apply (HQ _ L1); [|apply (fr_zones _ _ _ Hf)..].
  apply (added_step _ k s L ms s2 HA Hk HR2 Hf); [set_solver|done|auto].
Qed.
Lemma wp_init_loop fuel k l s L (Q : unit -> mem_config -> Prop) :
  added segs k s L -> drop k segs = l -> (length l <= fuel)%nat ->
  (forall s' L', added segs (length segs) s' L' -> memzone s' = memzone s -> memzone_cnt s' = memzone_cnt s -> Q tt s') ->
  wp (heap_init_loop fuel k l) Q s.
Proof.
  revert k l s L Q. induction fuel as [|fuel IH]; intros k l s L Q HA Hl Hlen HQ.
  all: destruct l as [|ms l]; cbn in Hlen; try lia; cbn [heap_init_loop].
  1,2: wp_step; apply (HQ s L); auto; destruct HA as [? ? ? ? He ? ?];
    assert (length segs <= k)%nat by (apply (f_equal length) in Hl; rewrite length_drop in Hl; cbn in Hl; lia);
    split; auto; [intros x e Hx; destruct (He x e Hx) as (j & mj & ? & Hmj & ?); exists j, mj;
      pose proof (lookup_lt_Some _ _ _ Hmj); auto|intros; eauto with lia].
  assert (segs !! k = Some ms) as Hk by (rewrite <- (Nat.add_0_r k), <- lookup_drop, Hl; done).
  destruct (lo_seg _ Hlay k ms Hk) as (_ & _ & ? & _ & ? & _).
  destruct (Z.ltb_spec 0 (ms_len ms)); [|lia]. wp_step. destruct (Z.ltb_spec (ms_socket_id ms) 0); [lia|].
  apply (wp_add_memseg k s L ms); auto. intros s1 L1 HA1 Hz1 Hz2. apply (IH (S k) l s1 L1); auto; [|lia|].
  - replace (S k) with (k + 1)%nat by lia. rewrite <- drop_drop, Hl. done.
  - intros s' L' HA' Hz1' Hz2'. apply (HQ s' L'); congruence.
Qed.

Lemma added_fresh zones : added segs 0 (fresh_config segs zones) ∅.
Proof.
  split; cbn; auto.
  - split; [split|..].
    + split; [|apply map_empty_subseteq|].
      * split; intros *; rewrite ?lookup_empty; done.
      * intros k ms Hk. destruct (lo_seg _ Hlay k ms Hk) as (? & _ & _ & ? & _). done.
    + intros a e. by rewrite lookup_empty.
    + intros a e x. by rewrite lookup_empty.
    + intros a e n. by rewrite lookup_empty.
    + intros h hp. cbn. intros [-> _]%lookup_replicate. cbn. split; [by rewrite length_replicate|].
      intros idx l [-> _]%lookup_replicate. split; [constructor|]. intros a. split; [set_solver|].
      intros (e & He & _). by rewrite lookup_empty in He.
    + intros k ms Hk. destruct (lo_seg _ Hlay k ms Hk) as (_ & _ & _ & _ & ?). cbn. by rewrite length_replicate.
    + intros h hp. cbn. intros [-> _]%lookup_replicate. rewrite !msum_empty. done.
    + intros a e x. cbn. by rewrite lookup_empty.
  - intros x e. by rewrite lookup_empty.
  - intros d n (a & e & Ha & _). by rewrite lookup_empty in Ha.
  - intros j ms Hj. lia.
Qed.

Lemma wp_heap_init zones (Q : Z -> mem_config -> Prop) :
  (forall s L, added segs (length segs) s L -> memzone s = zones -> memzone_cnt s = 0 -> Q 0 s) ->
  wp rte_eal_malloc_heap_init Q (fresh_config segs zones).
Proof.
  intros HQ. unfold rte_eal_malloc_heap_init, id. wp_step. cbn [memseg fresh_config].
  apply (wp_init_loop _ 0 segs _ ∅); [apply added_fresh|done|pose proof (lo_num _ Hlay); lia|].
  intros s L HA Hz1 Hz2. wp_step. by apply (HQ s L).
Qed.
End Init.

(** From segments that are aligned and do not overlap, [rte_eal_malloc_heap_init]
    sets up the heaps without a fault: the invariant holds, nothing is allocated, and
    every segment is one free element that reaches from its start to its end marker. *)
Theorem heap_init_correct segs zones :
  layout_ok segs ->
  wp rte_eal_malloc_heap_init (fun r s => r = 0 /\ memseg s = segs /\ length (heaps s) = Z.to_nat RTE_MAX_NUMA_NODES
    /\ memzone s = zones /\ memzone_cnt s = 0
    /\ exists L, inv s L /\ (forall d n, ~ live_block L d n)
       /\ forall j ms, segs !! j = Some ms ->
            exists e, L !! ms_addr ms = Some e /\ e_state e = ELEM_FREE /\ e_size e = seg_end ms - ms_addr ms)
    (fresh_config segs zones).
Proof.
  intros Hlay. apply (wp_heap_init segs Hlay).
  intros s L [HI Hs Hh _ _ Hf Hsz] Hz1 Hz2. split_and!; auto. exists L. split_and!; auto.
  intros j ms Hj. destruct (Hsz j ms (lookup_lt_Some _ _ _ Hj) Hj) as (e & ? & ? & ? & _). eauto.
Qed.

(** *** An example *)

Definition demo_segs : list rte_memseg :=
  [Memseg 0x100000000 0x7f0000000000 8192 (2 ^ 21) 0; Memseg 0x200000000 0x7f0000200000 16384 (2 ^ 21) 1].

Lemma demo_layout : layout_ok demo_segs.
Proof.
  split; [done|..].
  - intros [|[|k]] ms [= <-]; cbn; split_and!; done.
  - intros [|[|j]] [|[|k]] mj mk [= <-] [= <-] Hlt; cbn; lia.
Qed.

Lemma heap_init_witness :
  layout_ok demo_segs /\
  wp rte_eal_malloc_heap_init (fun r s => r = 0 /\ memseg s = demo_segs /\ length (heaps s) = Z.to_nat RTE_MAX_NUMA_NODES
    /\ memzone s = [] /\ memzone_cnt s = 0
    /\ exists L, inv s L /\ (forall d n, ~ live_block L d n)
       /\ forall j ms, demo_segs !! j = Some ms ->
            exists e, L !! ms_addr ms = Some e /\ e_state e = ELEM_FREE /\ e_size e = seg_end ms - ms_addr ms)
    (fresh_config demo_segs []).
Proof. split; [apply demo_layout|apply (heap_init_correct demo_segs [] demo_layout)]. Defined.

(** When nothing is allocated every free element is a whole segment. *)
Lemma all_free_whole s L a e :
  inv s L -> (forall d n, ~ live_block L d n) -> L !! a = Some e -> e_state e = ELEM_FREE ->
  exists k ms, memseg s !! k = Some ms /\ e_ms e = Some k /\ a = ms_addr ms /\ a + e_size e = seg_end ms.
Proof.
  intros HI Hno Ha Hst. pose proof (inv_shape _ _ HI) as HS. pose proof (rep_wf _ _ (sh_rep _ _ HS)) as HL.
  pose proof (wf_blk _ _ HL a e Ha) as W. pose proof (free_size_pos _ _ _ _ HL Ha Hst) as Hpos.
  assert (forall b f, L !! b = Some f -> 0 < e_size f -> e_state f = ELEM_FREE) as Hall.
  { intros b f Hb Hfp. destruct (e_state f) eqn:E; [done|exfalso|by destruct (bw_state _ _ _ _ (wf_blk _ _ HL b f Hb))].
    eapply Hno. exists b, f. split_and!; eauto. }
  destruct (bw_seg _ _ _ _ W) as (k & ms & Hk & Hms & _ & _ & _ & Hprev & _). exists k, ms. split_and!; auto.
  - apply Hprev. destruct (e_prev e) as [p|] eqn:Ep; [exfalso|done].
    destruct (bw_prev _ _ _ _ W p Ep) as (ep & Hp & Hpp & E). apply (sh_coalesced _ _ HS p ep e Hp Hpp (Hall p ep Hp Hpp)); [by rewrite E|done].
  - destruct (bw_next _ _ _ _ W Hpos) as (n & Hn & _ & _ & Hnk). pose proof (wf_blk _ _ HL _ n Hn) as Wn.
    destruct (bw_seg _ _ _ _ Wn) as (k' & ms' & Hk' & Hms' & _ & _ & _ & _ & Hend).
    assert (ms' = ms) as -> by congruence. apply Hend. pose proof (bw_nonneg _ _ _ _ Wn).
    destruct (decide (e_size n = 0)); [done|exfalso]. apply (sh_coalesced _ _ HS a e n); auto. apply (Hall _ _ Hn). lia.
Qed.
