(* ===== verification/MallocProps.v ===== *)
(** The allocator as its clients see it: blocks are private arrays. *)
From Stdlib Require Import ZArith Lia.
From stdpp Require Import base numbers list gmap.
From S2P Require Import Prelude Ring Malloc MallocLayout MallocRep MallocAlloc MallocSpec MallocFree MallocApi MallocInit.

#[local] Open Scope Z_scope.

(** ** Storing a byte *)

Lemma foldr_unknown (m : gmap Z mval) l x :
  foldr (fun y m => <[y := Unknown]> m) m l !! x = if decide (x ∈ l) then Some Unknown else m !! x.
Proof.
  induction l as [|y l IH]; cbn; [by rewrite decide_False by set_solver|].
  destruct (decide (y = x)) as [->|Hne].
  - rewrite lookup_insert_eq, decide_True; [done|set_solver].
  - rewrite lookup_insert_ne, IH by done. repeat case_decide; set_solver.
Qed.

Lemma line_range x y : y ∈ seqZ (line_of x) RTE_CACHE_LINE_SIZE <-> line_of y = line_of x.
Proof.
  rewrite elem_of_seqZ. unfold line_of, RTE_CACHE_LINE_SIZE. split; intros; Z.div_mod_to_equations; lia.
Qed.

(** The memory after a store, byte by byte. *)
Lemma write_elems x v s a : elems (write_byte x v s) !! a = if decide (a = line_of x) then None else elems s !! a.
Proof.
  assert (elems (write_byte x v s) = delete (line_of x) (elems s)) as ->.
  { unfold write_byte. destruct (elems s !! line_of x) eqn:E; [|rewrite (delete_id _ _ E)]; by destruct v as [[]|]. }
  destruct (decide (a = line_of x)) as [->|]; [apply lookup_delete_eq|by rewrite lookup_delete_ne].
Qed.

Lemma write_bytes x v s y :
  bytes (write_byte x v s) !! y
  = if decide (y = x) then match v with Known 0 => None | _ => Some v end
    else if decide (is_Some (elems s !! line_of x) /\ line_of y = line_of x) then Some Unknown else bytes s !! y.
Proof.
  unfold write_byte. set (s1 := match elems s !! line_of x with Some _ => _ | None => s end).
  assert (bytes s1 !! y = if decide (is_Some (elems s !! line_of x) /\ line_of y = line_of x) then Some Unknown else bytes s !! y) as <-.
  { unfold s1. destruct (elems s !! line_of x) eqn:E; cbn.
    - rewrite foldr_unknown. pose proof (line_range x y). repeat case_decide; naive_solver.
    - rewrite decide_False; [done|]. intros [[] _]. done. }
  destruct (decide (y = x)) as [->|Hne].
  - destruct v as [[]|]; cbn; by rewrite ?lookup_delete_eq, ?lookup_insert_eq.
  - destruct v as [[]|]; cbn; by rewrite ?lookup_delete_ne, ?lookup_insert_ne by done.
Qed.

Lemma read_write x v s y : hdr_clear s -> read_byte (write_byte x v s) y = if decide (y = x) then v else read_byte s y.
Proof.
  intros Hd. unfold read_byte. rewrite write_bytes, write_elems. destruct (decide (y = x)) as [->|Hne].
  - rewrite decide_True by done. by destruct v as [[]|].
  - destruct (decide (line_of y = line_of x)) as [E|E].
    + destruct (elems s !! line_of x) as [e|] eqn:Ex.
      * rewrite decide_True by eauto. rewrite E, Ex. rewrite (Hd _ _ y Ex); [done|apply line_of_spec|].
        rewrite <- E. apply line_of_spec.
      * rewrite decide_False by (intros [[] _]; done). by rewrite E, Ex.
    + rewrite decide_False by naive_solver. done.
Qed.

Lemma write_inv s L d n i v : inv s L -> live_block L d n -> 0 <= i < n -> inv (write_byte (d + i) v s) L.
Proof.
  intros HI Hl Hi. pose proof HI as [HS HC HD]. pose proof HS as [HR Hp Hc Hco Hli Hh].
  destruct (live_bounds s L d n HR Hl) as (Hdm & Hn0 & ? & ?). pose proof (rep_wf _ _ HR) as HL.
  pose proof Hl as (a & e & Ha & Hb & Hpos & Ed & En). unfold MALLOC_ELEM_HEADER_LEN in *.
  pose proof (wf_blk _ _ HL a e Ha) as W. destruct (bw_pad _ _ _ _ W) as [Hp1 Hp2].
  pose proof (bw_align _ _ _ _ W) as Ham. pose proof (bw_size _ _ _ _ W) as Hem.
  set (x := d + i). destruct (line_of_spec x) as [Hlm Hlx]. pose proof (line_of_in d x Hdm ltac:(lia)) as Hld.
  assert (line_of x + 64 <= a + e_size e) as Hlu by (Z.div_mod_to_equations; lia).
  pose proof (extent_size e Hpos) as Hext.
  assert (forall b f y, L !! b = Some f -> b <> a -> b <= y < b + extent f -> y <> line_of x) as Hother.
  { intros b f y Hbf Hne Hy ->. destruct (Z.lt_total b a) as [Hlt|[->|Hlt]]; [|done|].
    - pose proof (wf_disj _ _ HL b f a e Hbf Ha Hlt). lia.
    - pose proof (wf_disj _ _ HL a e b f Ha Hbf Hlt). lia. }
  assert (memseg (write_byte x v s) = memseg s /\ heaps (write_byte x v s) = heaps s) as [Esg Ehp].
  { unfold write_byte. destruct (elems s !! line_of x); destruct v as [[]|]; done. }
  split; [split|..]; rewrite ?Esg; auto.
  - split; rewrite ?Esg; [done| |apply HR]. apply map_subseteq_spec. intros b f Hbf. rewrite write_elems, decide_False.
    + by apply (lookup_weaken L), (rep_sub _ _ HR).
    + destruct (decide (b = a)) as [->|Hne]; [lia|]. pose proof (extent_pos f (bw_nonneg _ _ _ _ (wf_blk _ _ HL b f Hbf))).
      apply (Hother b f); auto. lia.
  - intros b f Hbf Hbb Hpad. destruct (Hp b f Hbf Hbb Hpad) as (pe & Hpe & ?). exists pe. split; [|done].
    rewrite write_elems, decide_False; [done|]. destruct (decide (b = a)) as [->|Hne].
    + assert (f = e) as -> by congruence. lia.
    + pose proof (bw_pad_room _ _ _ _ (wf_blk _ _ HL b f Hbf) Hbb Hpad). pose proof (extent_size f ltac:(lia)).
      apply (Hother b f); auto. lia.
  - intros b f y Hbf Hfs Hy. assert (b <> a) by congruence. destruct (Hc b f y Hbf Hfs Hy) as [Hyb Hye].
    pose proof (size_extent f (bw_nonneg _ _ _ _ (wf_blk _ _ HL b f Hbf))).
    assert (line_of y <> line_of x) as Hln.
    { apply (Hother b f); auto. pose proof (bw_align _ _ _ _ (wf_blk _ _ HL b f Hbf)).
      pose proof (line_of_in b y ltac:(done) ltac:(lia)). pose proof (line_of_spec y). lia. }
    rewrite write_bytes, write_elems. rewrite (decide_False (P := y = x)) by congruence.
    rewrite (decide_False (P := _ /\ _)) by naive_solver. split; [done|]. by destruct (decide _).
  - by apply (lists_heaps s).
  - intros k ms. rewrite Esg, Ehp. apply Hh.
  - intros h hp. rewrite Ehp. apply HC.
  - intros b f y. rewrite write_elems, write_bytes. case_decide as Eb; [done|]. intros Hbf Hbm Hy.
    assert (line_of y <> line_of x) as Hln.
    { assert (line_of y = b) as -> by (unfold line_of, RTE_CACHE_LINE_SIZE; Z.div_mod_to_equations; lia). done. }
    rewrite (decide_False (P := y = x)) by congruence. rewrite (decide_False (P := _ /\ _)) by naive_solver.
    by apply (HD b f).
Qed.
