(* ===== verification/MallocRealloc.v ===== *)
(** rte_realloc: growing in place, or moving. *)
From Stdlib Require Import ZArith Lia.
From stdpp Require Import base numbers list gmap.
From S2P Require Import Prelude Ring Malloc MallocLayout MallocRep MallocAlloc MallocSpec MallocFree MallocApi MallocInit MallocProps.

#[local] Open Scope Z_scope.

(** ** Giving back the tail of an allocated element *)

Lemma free_at_split_busy L a e n o h idx x :
  L !! a = Some e -> L !! (a + e_size e) = Some n -> L !! (a + o) = None -> 0 < o < e_size e ->
  e_state e = ELEM_BUSY ->
  (free_at (split_layout a o e n L) h idx x <->
   free_at L h idx x \/ x = a + o /\ e_heap e = Some h
     /\ idx = Z.to_nat (malloc_elem_free_list_index (e_size e - o - MALLOC_ELEM_HEADER_LEN))).
Proof.
  intros Ha Hn Hm Ho Hst. unfold free_at. split.
  - intros (f & Hf & Hfs & Hfh & Hfi). apply split_lookup in Hf; [|lia].
    destruct Hf as [[-> ->]|[[-> ->]|[[-> ->]|(? & ? & ? & Hx)]]]; cbn in *; [congruence|left; exists n; auto|right; auto|left; eauto].
  - intros [(f & Hf & Hfs & Hfh & Hfi)|(-> & Hh & ->)].
    + destruct (decide (x = a + e_size e)) as [->|].
      * assert (f = n) as -> by congruence. eexists. rewrite split_lookup by lia. split; [right; left; eauto|]. auto.
      * exists f. rewrite split_lookup by lia. split; [|done]. right; right; right. split_and!; congruence.
    + eexists. rewrite split_lookup by lia. split; [right; right; left; eauto|]. auto.
Qed.

Lemma split_busy_shape A s s' L a e n o :
  shape s L -> L !! a = Some e -> e_state e = ELEM_BUSY -> L !! (a + e_size e) = Some n -> e_state n <> ELEM_FREE ->
  64 <= o -> o + 64 <= e_size e -> zeroed s (a + o + 64) (e_size e - o - 64) ->
  rep s' (split_layout a o e n L) -> frame A s s' -> on_layout A (split_layout a o e n L) ->
  lists_ok s' (free_at (split_layout a o e n L)) ->
  shape s' (split_layout a o e n L).
Proof.
  intros HS Ha Hb Hn Hns Ho Hoe Hz HR' Hf HA Hl. pose proof (rep_wf _ _ HR') as HL'. split; auto.
  - apply (pads_frame _ s s' L _ (sh_pads _ _ HS) Hf HL' HA). intros x f Hx Hfb Hfp. apply split_lookup in Hx; [|lia].
    destruct Hx as [[-> ->]|[[-> ->]|[[-> ->]|(? & ? & ? & Hx)]]]; cbn in *; eauto. lia.
  - intros b f x Hbf Hfs Hx. pose proof (size_extent f (bw_nonneg _ _ _ _ (wf_blk _ _ HL' b f Hbf))).
    assert (bytes s !! x = None /\ elems s !! x = None) as [Hxb Hxe].
    { apply split_lookup in Hbf; [|lia].
      destruct Hbf as [[-> ->]|[[-> ->]|[[-> ->]|(? & ? & ? & Hbf)]]]; cbn in *; try congruence; [|by apply (sh_clean _ _ HS b f)].
      apply Hz. lia. }
    split; [destruct (fr_bytes _ _ _ Hf x) as [->|[-> _]]; done|].
    rewrite (fr_elems _ _ _ Hf); [done|]. apply (on_layout_outside (memseg s') _ _ b f x HL' HA Hbf). lia.
  - assert (forall y g, split_layout a o e n L !! y = Some g -> e_state g = ELEM_FREE ->
      y = a + o \/ exists g', L !! y = Some g' /\ e_state g' = ELEM_FREE /\ e_size g' = e_size g) as Hback.
    { intros y g Hy Hgs. apply split_lookup in Hy; [|lia].
      destruct Hy as [[-> ->]|[[-> ->]|[[-> ->]|(? & ? & ? & Hy)]]]; cbn in *; try congruence; eauto. }
    intros x f m Hx Hfp Hfs Hm Hms. destruct (Hback x f Hx Hfs) as [->|(f' & Hf' & Hfs' & Ez)].
    + apply split_lookup in Hx; [|lia].
      assert (f = Elem (e_heap e) (Some a) (e_ms e) ELEM_FREE 0 (e_size e - o)) as -> by naive_solver lia. cbn in *.
      destruct (Hback _ m Hm Hms) as [?|(m' & Hm' & Hms' & _)]; [lia|].
      replace (a + o + (e_size e - o)) with (a + e_size e) in Hm' by lia. congruence.
    + rewrite <- Ez in *. destruct (Hback _ m Hm Hms) as [E|(m' & Hm' & Hms' & _)].
      * destruct (bw_next _ _ _ _ (wf_blk _ _ (rep_wf _ _ (sh_rep _ _ HS)) x f' Hf') Hfp) as (n' & Hn' & _).
        rewrite E, (wf_fresh _ L a e o (rep_wf _ _ (sh_rep _ _ HS)) Ha) in Hn'; [done|]. rewrite extent_size by lia. lia.
      * by apply (sh_coalesced _ _ HS x f' m').
  - apply (heaps_exist_frame _ s s' Hf), HS.
Qed.

Lemma wp_split_busy s L a e n h o (Q : unit -> mem_config -> Prop) :
  shape s L -> L !! a = Some e -> e_state e = ELEM_BUSY -> e_heap e = Some h ->
  L !! (a + e_size e) = Some n -> e_state n <> ELEM_FREE ->
  o mod 64 = 0 -> 64 <= o -> o + 64 <= e_size e -> (0 < e_pad e -> e_pad e + 64 <= o) ->
  zeroed s (a + o + 64) (e_size e - o - 64) ->
  (forall s', shape s' (split_layout a o e n L) -> frame [a + o; a + e_size e; a; a + o] s s' -> Q tt s') ->
  wp (split_elem a (a + o) ;; malloc_elem_free_list_insert (a + o)) Q s.
Proof.
  intros HS Ha Hb Hh Hn Hns Hom Ho Hoe Hpad Hz HQ. pose proof (sh_rep _ _ HS) as HR.
  assert (L !! (a + o) = None) as Hm.
  { apply (wf_fresh (memseg s) L a e); auto; [apply HR|]. rewrite extent_size by lia. lia. }
  pose proof (elem_heap s L a e h HR (sh_heaps _ _ HS) Ha Hh) as Hhl.
  wp_step. apply (wp_split s L a e n o); auto. intros s1 HR1 Hf1 Hhs1.
  set (e2 := Elem (e_heap e) (Some a) (e_ms e) ELEM_FREE 0 (e_size e - o)).
  assert (split_layout a o e n L !! (a + o) = Some e2) as Hm1.
  { apply split_lookup; [lia|]. right; right; left. done. }
  apply (wp_insert s1 (split_layout a o e n L) (free_at L) (a + o) e2 h); auto.
  - by rewrite Hhs1.
  - cbn. lia.
  - rewrite insert_same_free by done. apply HR1.
  - apply (lists_heaps s); [done|]. apply HS.
  - intros h' idx (f & Hf & _). congruence.
  - intros s2 HR2 Hl2 Hf2. rewrite insert_same_free in HR2 by done.
    pose proof (frame_app _ _ _ _ _ Hf1 Hf2) as Hf. cbn [app] in Hf. apply HQ; [|done].
    apply (split_busy_shape _ s s2 L a e n o HS Ha Hb Hn Hns Ho Hoe Hz HR2 Hf).
    + intros x Hx. apply (split_on_layout a o e n L). set_solver.
    + eapply lists_ext; [|apply Hl2]. intros h' idx x. rewrite free_at_split_busy by (auto; lia). cbn. rewrite Hh. naive_solver.
Qed.

(** ** Growing in place *)

(** The block at [d] has changed its size from [n] to [n']. *)
Record resized (s : mem_config) (L : gmap Z malloc_elem) (d n n' : Z) (s' : mem_config) (L' : gmap Z malloc_elem) : Prop :=
  Resized {
  rz_inv : inv s' L';
  rz_more : n <= n';
  rz_live : forall d' m, live_block L' d' m <-> (d' <> d /\ live_block L d' m) \/ d' = d /\ m = n';
  rz_kept : forall d' m, live_block L d' m -> kept s s' d' m;
  rz_rest : memseg s' = memseg s /\ length (heaps s') = length (heaps s)
    /\ memzone_cnt s' = memzone_cnt s /\ memzone s' = memzone s
}.

Lemma resized_same s L d n : inv s L -> live_block L d n -> resized s L d n n s L.
Proof.
  intros HI Hl. split; [done|lia| |intros d' m _ x _; done|done].
  intros d' m. destruct (decide (d' = d)) as [->|]; [|naive_solver]. split.
  - intros Hm. right. split; [done|]. symmetry.
    by apply (live_same L (memseg s) d n m (rep_wf _ _ (sh_rep _ _ (inv_shape _ _ HI)))).
  - intros [[? _]|[_ ->]]; done.
Qed.

(** Kept contents when headers are written in the range of an element and the free one
    behind it. *)
Lemma grow_kept A s s' L a e n d m :
  inv s L -> L !! a = Some e -> e_state e = ELEM_BUSY -> 0 < e_size e ->
  L !! (a + e_size e) = Some n -> e_state n = ELEM_FREE -> frame A s s' ->
  (forall y, y ∈ A -> y = a \/ a + e_size e <= y <= a + e_size e + e_size n) ->
  live_block L d m -> kept s s' d m.
Proof.
  intros [HS _ _] Ha Hb Hpos Hn Hns Hf HA (b & g & Hbg & Hgb & Hgp & -> & ->) x Hx. unfold MALLOC_ELEM_HEADER_LEN in *.
  pose proof (rep_wf _ _ (sh_rep _ _ HS)) as HL. pose proof (free_size_pos _ _ _ _ HL Hn Hns) as Hnp.
  pose proof (bw_pad _ _ _ _ (wf_blk _ _ HL b g Hbg)). pose proof (extent_size g Hgp). pose proof (extent_size e Hpos).
  pose proof (extent_size n Hnp).
  assert (forall y, y ∈ A -> ~ y <= x < y + 64) as Hno.
  { intros y Hy Hyx. destruct (HA y Hy) as [->|?].
    - destruct (Z.lt_total b a) as [Hlt|[->|Hlt]]; [|lia|].
      + pose proof (wf_disj _ _ HL b g a e Hbg Ha Hlt). lia.
      + pose proof (wf_disj _ _ HL a e b g Ha Hbg Hlt). pose proof (wf_size64 _ _ _ _ (wf_blk _ _ HL a e Ha) Hpos). lia.
    - destruct (Z.lt_total b (a + e_size e)) as [Hlt|[->|Hlt]]; [|congruence|].
      + pose proof (wf_disj _ _ HL b g _ n Hbg Hn Hlt). lia.
      + pose proof (wf_disj _ _ HL _ n b g Hn Hbg Hlt). lia. }
  split.
  - destruct (fr_bytes _ _ _ Hf x) as [|(_ & y & Hy & ?)]; [done|]. by destruct (Hno y Hy).
  - apply (fr_elems _ _ _ Hf). intros Hin. apply (Hno x Hin). lia.
Qed.

Lemma live_split_busy segs L a e n o d m :
  wfL segs L -> L !! a = Some e -> L !! (a + e_size e) = Some n -> L !! (a + o) = None -> 0 < o < e_size e ->
  e_state e = ELEM_BUSY ->
  live_block (split_layout a o e n L) d m <->
  (d <> a + e_pad e + 64 /\ live_block L d m) \/ d = a + e_pad e + 64 /\ m = o - e_pad e - 64.
Proof.
  intros HL Ha Hn Hm Ho Hst. unfold live_block, MALLOC_ELEM_HEADER_LEN. split.
  - intros (x & f & Hx & Hfs & Hpos & -> & ->). apply split_lookup in Hx; [|lia].
    destruct Hx as [[-> ->]|[[-> ->]|[[-> ->]|(? & ? & ? & Hx)]]]; cbn in *; [by right|left..].
    + split; [|exists (a + e_size e), n; auto]. apply (live_unique segs L a e _ n); auto; lia.
    + done.
    + split; [|exists x, f; auto]. apply (live_unique segs L a e x f); auto; lia.
  - intros [(Hd & x & f & Hx & Hfs & Hpos & -> & ->)|[-> ->]].
    + assert (x <> a) by congruence. destruct (decide (x = a + e_size e)) as [->|].
      * assert (f = n) as -> by congruence. eexists _, _. rewrite split_lookup by lia. split; [right; left; eauto|]. auto.
      * exists x, f. rewrite split_lookup by lia. split_and!; auto. right; right; right. split_and!; congruence.
    + exists a, (with_size o e). rewrite split_lookup by lia. cbn. split_and!; auto; lia.
Qed.

Lemma split_busy_sums L a e n o :
  L !! a = Some e -> L !! (a + e_size e) = Some n -> L !! (a + o) = None -> 0 < o < e_size e -> e_state e = ELEM_BUSY ->
  forall g, msum (heap_bytes g) (split_layout a o e n L) = msum (heap_bytes g) L
       /\ msum (heap_busy g) (split_layout a o e n L) = msum (heap_busy g) L.
Proof.
  intros Ha Hn Hm Ho Hst g. rewrite !msum_split by auto. rewrite (heap_busy_free g (Elem _ _ _ _ _ _)) by done.
  split; [pose proof (proj1 (heap_bytes_split g None e o ELEM_FREE (Some a))); lia|].
  assert (heap_busy g (with_size o e) = heap_busy g e) as ->; [|lia].
  unfold heap_busy. cbn. repeat case_decide; naive_solver lia.
Qed.

Lemma absorb_live segs L a e n nn d m :
  wfL segs L -> L !! a = Some e -> e_state e = ELEM_BUSY -> 0 < e_size e ->
  L !! (a + e_size e) = Some n -> e_state n = ELEM_FREE -> L !! (a + e_size e + e_size n) = Some nn ->
  live_block (join_layout a e n nn L) d m <->
  (d <> a + e_pad e + 64 /\ live_block L d m) \/ d = a + e_pad e + 64 /\ m = e_size e + e_size n - e_pad e - 64.
Proof.
  intros HL Ha Hb Hpos Hn Hns Hnn. pose proof (free_size_pos _ _ _ _ HL Hn Hns) as Hnp.
  destruct (elem_has_heap _ _ _ _ HL Ha) as [h Hh].
  destruct (bw_next _ _ _ _ (wf_blk _ _ HL a e Ha) Hpos) as (n0 & Hn0 & _ & Hnh & _). assert (n0 = n) as -> by congruence.
  destruct (absorb_same _ L a e n nn h HL Ha Hb Hpos Hh Hn Hns Hnp ltac:(congruence) Hnn) as [Hl _].
  assert (join_layout a e n nn L !! a = Some (with_size (e_size e + e_size n) e)) as Ha1 by (apply join_lookup; auto).
  destruct (decide (d = a + e_pad e + 64)) as [->|Hne]; [|rewrite Hl by done; naive_solver]. split.
  - intros (b & f & Hbf & Hfb & Hfp & Ed & ->). right. split; [done|]. unfold MALLOC_ELEM_HEADER_LEN in *.
    destruct (decide (b = a)) as [->|Hba]; [assert (f = with_size (e_size e + e_size n) e) as -> by congruence; done|].
    exfalso. destruct (join_back _ _ _ _ _ _ _ Hpos Hnp Hnn Hbf Hba) as (_ & f' & Hf' & E). rewrite E in *. cbn in *.
    by apply (live_unique segs L a e b f').
  - intros [[? _]|[_ ->]]; [done|]. exists a, (with_size (e_size e + e_size n) e). cbn. unfold MALLOC_ELEM_HEADER_LEN.
    split_and!; auto; lia.
Qed.

(** The whole free element is added. *)
Lemma grow_all s s1 L a e n nn h :
  inv s L -> L !! a = Some e -> e_state e = ELEM_BUSY -> 0 < e_size e -> e_heap e = Some h ->
  L !! (a + e_size e) = Some n -> e_state n = ELEM_FREE -> e_heap n = Some h ->
  L !! (a + e_size e + e_size n) = Some nn ->
  shape s1 (join_layout a e n nn L) -> frame [a; a + e_size e + e_size n] s s1 ->
  resized s L (a + e_pad e + 64) (e_size e - e_pad e - 64) (e_size e + e_size n - e_pad e - 64) s1 (join_layout a e n nn L).
Proof.
  intros HI Ha Hb Hpos Hh Hn Hns Hhn Hnn HS1 Hf1. pose proof HI as [HS HC HD].
  pose proof (rep_wf _ _ (sh_rep _ _ HS)) as HL. pose proof (free_size_pos _ _ _ _ HL Hn Hns) as Hnp.
  destruct (absorb_same _ L a e n nn h HL Ha Hb Hpos Hh Hn Hns Hnp Hhn Hnn) as (_ & Hs1 & Hs2). split.
  - split; [done|by apply (counts_frame _ s s1 L _ HC Hf1)|by apply (fr_hdr _ _ _ Hf1)].
  - lia.
  - intros d m. by apply (absorb_live (memseg s)).
  - intros d m Hl. apply (grow_kept [a; a + e_size e + e_size n] s s1 L a e n); auto.
    intros y. rewrite !elem_of_cons, elem_of_nil. intros [->|[->|[]]]; [by left|right; lia].
  - destruct Hf1 as [_ _ ? [? _] [? ?] _]. auto.
Qed.

(** What is not needed is given back. *)
Lemma split_kept s s' L a e n o d m x :
  wfL (memseg s) L -> L !! a = Some e -> 0 < e_size e -> L !! (a + e_size e) = Some n -> 64 <= o -> o + 64 <= e_size e ->
  frame [a + o; a + e_size e; a; a + o] s s' ->
  live_block L d m -> d <= x < d + m -> (d = a + e_pad e + 64 -> x < a + o) ->
  bytes s' !! x = bytes s !! x /\ elems s' !! x = elems s !! x.
Proof.
  intros HL Ha Hpos Hn Ho Hoe Hf (b & g & Hbg & Hgb & Hgp & -> & ->) Hx Hlim. unfold MALLOC_ELEM_HEADER_LEN in *.
  pose proof (bw_pad _ _ _ _ (wf_blk _ _ HL b g Hbg)). pose proof (extent_size g Hgp). pose proof (extent_size e Hpos).
  assert (forall y, y ∈ [a + o; a + e_size e; a; a + o] -> ~ y <= x < y + 64) as Hno.
  { intros y Hy Hyx. assert (y = a + o \/ y = a + e_size e \/ y = a) as Hy' by set_solver. clear Hy.
    destruct (Z.lt_total b a) as [Hlt|[->|Hlt]].
    - pose proof (wf_disj _ _ HL b g a e Hbg Ha Hlt). lia.
    - assert (g = e) as -> by congruence. specialize (Hlim eq_refl). lia.
    - pose proof (wf_disj _ _ HL a e b g Ha Hbg Hlt). lia. }
  split.
  - destruct (fr_bytes _ _ _ Hf x) as [|(_ & y & Hy & ?)]; [done|]. by destruct (Hno y Hy).
  - apply (fr_elems _ _ _ Hf). intros Hin. apply (Hno x Hin). lia.
Qed.

Lemma grow_part s s1 L L1 s2 n n1 a e1 nn o :
  wfL (memseg s) L -> resized s L (a + e_pad e1 + 64) n n1 s1 L1 -> live_block L (a + e_pad e1 + 64) n ->
  L1 !! a = Some e1 -> e_state e1 = ELEM_BUSY -> L1 !! (a + e_size e1) = Some nn ->
  64 <= o -> o + 64 <= e_size e1 -> n <= o - e_pad e1 - 64 ->
  shape s2 (split_layout a o e1 nn L1) -> frame [a + o; a + e_size e1; a; a + o] s1 s2 ->
  resized s L (a + e_pad e1 + 64) n (o - e_pad e1 - 64) s2 (split_layout a o e1 nn L1).
Proof.
  intros HL [HI1 _ Hlive Hkept Hrest] Hl Ha Hb Hn Ho Hoe Hno HS2 Hf2. pose proof HI1 as [HS1 HC1 HD1].
  pose proof (rep_wf _ _ (sh_rep _ _ HS1)) as HL1.
  assert (L1 !! (a + o) = None) as Hfresh.
  { apply (wf_fresh (memseg s1) L1 a e1); auto. rewrite extent_size by lia. lia. }
  pose proof (split_busy_sums L1 a e1 nn o Ha Hn Hfresh ltac:(lia) Hb) as Hsums. split.
  - split; [done| |by apply (fr_hdr _ _ _ Hf2)]. apply (counts_frame _ s1 s2 L1 _ HC1 Hf2); intros g; apply Hsums.
  - done.
  - intros d' m. rewrite (live_split_busy (memseg s1)) by (auto; lia). rewrite Hlive. naive_solver.
  - intros d' m Hl' x Hx. destruct (Hkept d' m Hl' x Hx) as [<- <-].
    destruct (decide (d' = a + e_pad e1 + 64)) as [->|Hne].
    + pose proof (live_same L _ _ _ _ HL Hl Hl') as <-.
      apply (split_kept s1 s2 L1 a e1 nn o (a + e_pad e1 + 64) (e_size e1 - e_pad e1 - 64)); auto; try lia.
      exists a, e1. unfold MALLOC_ELEM_HEADER_LEN. split_and!; auto. lia.
    + apply (split_kept s1 s2 L1 a e1 nn o d' m); auto; [lia|apply Hlive; auto|done].
  - destruct Hf2 as [_ _ ? [? _] [? ?] _]. split_and!; destruct_and!; congruence.
Qed.

Lemma wp_resize s L a e size (Q : Z -> mem_config -> Prop) :
  inv s L -> L !! a = Some e -> e_state e = ELEM_BUSY -> 0 < e_size e ->
  size mod 64 = 0 -> 0 <= size < 2 ^ 63 ->
  let d := a + e_pad e + 64 in let n := e_size e - e_pad e - 64 in
  Q (-1) s ->
  (forall s' L' n', size <= n' -> n' <= Z.max n (size + 128) -> resized s L d n n' s' L' -> Q 0 s') ->
  wp (malloc_elem_resize a size) Q s.
Proof.
  intros HI Ha Hb Hpos Hsm Hs d n HN HY. pose proof HI as [HS HC HD]. pose proof (sh_rep _ _ HS) as HR.
  pose proof (rep_wf _ _ HR) as HL. pose proof (wf_blk _ _ HL a e Ha) as W.
  pose proof (bw_align _ _ _ _ W) as Ham. pose proof (bw_size _ _ _ _ W) as Hem. destruct (bw_pad _ _ _ _ W) as [Hp1 Hp2].
  pose proof (rep_bounds s L a e HR Ha) as (? & ? & ? & ?). rewrite extent_size in * by lia.
  destruct (elem_has_heap _ _ _ _ HL Ha) as [h Hh].
  destruct (bw_next _ _ _ _ W Hpos) as (nx & Hn & _ & Hnh & _).
  assert (live_block L d n) as Hlive.
  { exists a, e. unfold d, n, MALLOC_ELEM_HEADER_LEN. split_and!; auto. }
  unfold malloc_elem_resize. wp_step. apply (wp_get s L a e); auto.
  change MALLOC_ELEM_OVERHEAD with 64. change MIN_DATA_SIZE with 64. rewrite (u64_id (size + e_pad e + 64)) by lia.
  destruct (Z.leb_spec (size + e_pad e + 64) (e_size e)).
  { wp_step. apply (HY s L n); [unfold n; lia..|by apply resized_same]. }
  rewrite (u64_id (a + e_size e)) by lia. wp_step. apply (wp_get s L _ nx); auto.
  case_bool_decide as Hns; cbn [negb]; [|by wp_step].
  pose proof (rep_bounds s L _ nx HR Hn) as (? & ? & ? & ?).
  pose proof (free_size_pos _ _ _ _ HL Hn Hns) as Hnp. rewrite extent_size in * by lia.
  pose proof (wf_blk _ _ HL _ nx Hn) as Wn. destruct (bw_next _ _ _ _ Wn Hnp) as (nn & Hnn & _).
  pose proof (bw_size _ _ _ _ Wn) as Hnem.
  rewrite (u64_id (e_size e + e_size nx)) by lia.
  destruct (Z.ltb_spec (e_size e + e_size nx) (size + e_pad e + 64)); [by wp_step|].
  assert (e_heap nx = Some h) as Hhn by congruence.
  set (L1 := join_layout a e nx nn L). set (e1 := with_size (e_size e + e_size nx) e).
  set (o := size + e_pad e + 64). assert (o mod 64 = 0) as Hom by (unfold o; Z.div_mod_to_equations; lia).
  assert (wp (elem_free_list_remove (a + e_size e) ;; join_elem a (a + e_size e)) (fun _ =>
    wp (e ← get_elem a;
        (if 64 + 64 <=? u64 (e_size e - o) then
           let split_pt := RTE_PTR_ALIGN_CEIL (u64 (a + o)) RTE_CACHE_LINE_SIZE in
           split_elem a split_pt ;; malloc_elem_free_list_insert split_pt
         else mret tt) ;; mret 0) Q) s) as Hw.
  { apply (wp_absorb s L a e nx nn h); auto. intros s1 HS1 Hf1. fold L1 in HS1.
    pose proof (grow_all s s1 L a e nx nn h HI Ha Hb Hpos Hh Hn Hns Hhn Hnn HS1 Hf1) as Hrz. fold L1 d n in Hrz.
    assert (L1 !! a = Some e1) as Ha1 by (apply join_lookup; auto).
    assert (L1 !! (a + e_size e1) = Some (with_prev (Some a) nn)) as Hn1.
    { apply join_lookup; auto. right; left. cbn. split; [lia|done]. }
    wp_step. apply (wp_get s1 L1 a e1); [apply HS1|done|]. cbn [e_size with_size e1]. rewrite (u64_id (_ - o)) by (unfold o; lia).
    destruct (Z.leb_spec (64 + 64) (e_size e + e_size nx - o)).
    - rewrite (u64_id (a + o)) by (unfold o; lia).
      assert (RTE_PTR_ALIGN_CEIL (a + o) RTE_CACHE_LINE_SIZE = a + o) as ->.
      { unfold RTE_PTR_ALIGN_CEIL, RTE_CACHE_LINE_SIZE. rewrite (wrapu_small 32) by lia. rewrite u64_id by (unfold o; lia).
        change 64 with (2 ^ 6). rewrite align_floor by (unfold o; lia). change (2 ^ 6) with 64.
        clearbody o. Z.div_mod_to_equations. lia. }
      assert (e_size e + 64 <= o) by (unfold o in *; Z.div_mod_to_equations; lia).
      cbv zeta. apply wp_bind. apply (wp_split_busy s1 L1 a e1 (with_prev (Some a) nn) h o); auto; try (cbn; unfold o; lia).
      + cbn. by apply (sh_coalesced _ _ HS _ nx nn Hn Hnp Hns).
      + intros x Hx. cbn in Hx. destruct (sh_clean _ _ HS _ nx x Hn Hns ltac:(lia)) as [Hxb Hxe]. split.
        * destruct (fr_bytes _ _ _ Hf1 x) as [->|[-> _]]; done.
        * rewrite (fr_elems _ _ _ Hf1); [done|]. rewrite !elem_of_cons, elem_of_nil. lia.
      + intros s2 HS2 Hf2. wp_step. apply (HY s2 (split_layout a o e1 (with_prev (Some a) nn) L1) (o - e_pad e - 64)); [unfold o; lia..|].
        apply (grow_part s s1 L L1 s2 n (e_size e + e_size nx - e_pad e - 64) a e1 (with_prev (Some a) nn) o); auto; cbn; unfold n; lia.
    - wp_step. wp_step. apply (HY s1 L1 (e_size e + e_size nx - e_pad e - 64)); [unfold o in *; lia|unfold n, o in *; lia|done]. }
  apply (proj1 (wp_bind _ _ _ _)) in Hw. wp_step. eapply wp_mono; [exact Hw|]. cbv beta. intros _ s1 Hw1.
  wp_step. eapply wp_mono; [exact Hw1|]. cbv beta. intros _ s2 Hw2. exact Hw2.
Qed.

(** ** Moving *)

Lemma write_rest x v s :
  memseg (write_byte x v s) = memseg s /\ heaps (write_byte x v s) = heaps s
  /\ memzone_cnt (write_byte x v s) = memzone_cnt s /\ memzone (write_byte x v s) = memzone s.
Proof. unfold write_byte. destruct (elems s !! line_of x); destruct v as [[]|]; done. Qed.

(** A sequence of stores into one block. *)
Lemma fold_writes L d n f l s :
  inv s L -> live_block L d n -> (forall i, i ∈ l -> 0 <= i < n) -> NoDup l ->
  let s' := foldl (fun s' i => write_byte (d + i) (f i) s') s l in
  inv s' L /\ memseg s' = memseg s /\ heaps s' = heaps s /\ memzone_cnt s' = memzone_cnt s /\ memzone s' = memzone s
  /\ forall y, read_byte s' y = if decide (y - d ∈ l) then f (y - d) else read_byte s y.
Proof.
  revert s. induction l as [|i l IH]; intros s HI Hl Hin Hnd; cbn.
  { split_and!; auto. }
  apply NoDup_cons in Hnd as [Hi Hnd]. set (s1 := write_byte (d + i) (f i) s).
  destruct (IH s1) as (HI' & E1 & E2 & E3 & E4 & Hr); auto.
  { apply (write_inv s L d n); auto. apply Hin. set_solver. }
  { intros j Hj. apply Hin. set_solver. }
  destruct (write_rest (d + i) (f i) s) as (F1 & F2 & F3 & F4). fold s1 in F1, F2, F3, F4.
  split_and!; [done|congruence..|]. intros y. rewrite Hr. unfold s1. rewrite read_write by apply HI.
  destruct (decide (y - d ∈ l)) as [Hy|Hy]; [by rewrite decide_True by set_solver|].
  destruct (decide (y = d + i)) as [->|Hne].
  - rewrite decide_True; [f_equal; lia|]. replace (d + i - d) with i by lia. set_solver.
  - rewrite decide_False; [done|]. rewrite elem_of_cons. intros [?|?]; [lia|done].
Qed.

Lemma wp_memcpy s L d n src k (Q : unit -> mem_config -> Prop) :
  inv s L -> live_block L d n -> 0 <= k <= n -> mapped s d k = true -> mapped s src k = true ->
  (forall s', inv s' L -> memseg s' = memseg s -> heaps s' = heaps s ->
     memzone_cnt s' = memzone_cnt s -> memzone s' = memzone s ->
     (forall y, read_byte s' y = if decide (0 <= y - d < k) then read_byte s (src + (y - d)) else read_byte s y) -> Q tt s') ->
  wp (rte_memcpy d src k) Q s.
Proof.
  intros HI Hl Hk Hd Hs HQ. unfold rte_memcpy, id. wp_step. rewrite Hd, Hs. cbn [andb negb]. wp_step.
  destruct (fold_writes L d n (fun i => read_byte s (src + i)) (seqZ 0 k) s) as (? & ? & ? & ? & ? & Hr); auto.
  - intros i. rewrite elem_of_seqZ. lia.
  - apply NoDup_seqZ.
  - apply HQ; auto. intros y. rewrite Hr. pose proof (elem_of_seqZ 0 k (y - d)).
    destruct (decide (0 <= y - d < k)) as [Hy|Hy].
    + rewrite decide_True; [done|]. apply elem_of_seqZ. lia.
    + rewrite decide_False; [done|]. rewrite elem_of_seqZ. lia.
Qed.

(** A block lies in a segment, together with the header behind it. *)
Lemma live_mapped s L a e k :
  rep s L -> L !! a = Some e -> 0 < e_size e -> 0 <= k <= e_size e + 64 ->
  forall o, 0 <= o -> o + k <= e_size e + 64 -> mapped s (a + o) k = true.
Proof.
  intros HR Ha Hpos Hk o Ho Hok. pose proof (rep_wf _ _ HR) as HL. pose proof (wf_blk _ _ HL a e Ha) as W.
  destruct (bw_next _ _ _ _ W Hpos) as (n & Hn & _ & _ & Hnm). pose proof (wf_blk _ _ HL _ n Hn) as Wn.
  destruct (bw_seg _ _ _ _ W) as (i & ms & Hi & Hms & _ & ? & _).
  destruct (bw_seg _ _ _ _ Wn) as (j & ms' & Hj & Hms' & _ & _ & Hup & _).
  assert (ms' = ms) as -> by congruence. pose proof (wf_extent64 _ _ _ _ Wn).
  apply existsb_exists. exists ms. split; [apply list_elem_of_In; eauto using list_elem_of_lookup_2|].
  apply andb_true_intro; split; lia.
Qed.

(** ** rte_realloc *)

(** The block at [d] of [n] bytes has become the one at [d'] of [n'] bytes. *)
Record reallocated (s : mem_config) (L : gmap Z malloc_elem) (d n size align d' n' : Z)
    (s' : mem_config) (L' : gmap Z malloc_elem) : Prop := Reallocated {
  ra_inv : inv s' L';
  ra_size : size <= n' <= Z.max n (size + 256);
  ra_align : d' mod max_align align = 0;
  ra_fresh : d' = d \/ forall m, ~ live_block L d' m;
  ra_live : forall b m, live_block L' b m <-> (b <> d /\ live_block L b m) \/ b = d' /\ m = n';
  ra_data : forall i, 0 <= i < Z.min n size -> read_byte s' (d' + i) = read_byte s (d + i);
  ra_others : forall b m x, live_block L b m -> b <> d -> b <= x < b + m -> read_byte s' x = read_byte s x;
  ra_rest : memseg s' = memseg s /\ length (heaps s') = length (heaps s)
    /\ memzone_cnt s' = memzone_cnt s /\ memzone s' = memzone s
}.

Definition realloc_align (align : Z) : Z := RTE_CACHE_LINE_ROUNDUP 32 align.

Lemma realloc_align_spec align : align = 0 \/ (exists k, align = 2 ^ k /\ 0 <= k <= 31) ->
  (align = 0 /\ realloc_align align = 0) \/ (0 < align /\ realloc_align align = max_align align).
Proof.
  intros [->|(k & -> & Hk)]; [by left|right]. pose proof (pow2_pos k ltac:(lia)). split; [done|].
  destruct (align_roundup (2 ^ k)) as [E _]; [eauto|]. rewrite <- E. destruct (Z.eqb_spec (2 ^ k) 0); [lia|].
  unfold realloc_align, RTE_CACHE_LINE_ROUNDUP. assert (2 ^ k <= 2 ^ 31) by (apply Z.pow_le_mono_r; lia).
  unfold RTE_CACHE_LINE_SIZE. rewrite !wrapu_small by lia. done.
Qed.

Lemma max_align_idem align : align = 0 \/ (exists k, align = 2 ^ k /\ 0 <= k <= 31) ->
  max_align (realloc_align align) = max_align align.
Proof.
  intros Ha. destruct (realloc_align_spec align Ha) as [[-> E]|[_ E]]; rewrite E; [done|]. unfold max_align. lia.
Qed.

(** The test of the alignment of the old block. *)
Lemma aligned_test p align :
  p mod 64 = 0 -> 0 < p < 2 ^ 63 -> align = 0 \/ (exists k, align = 2 ^ k /\ 0 <= k <= 31) ->
  RTE_PTR_ALIGN_CEIL p (realloc_align align) = p -> p mod max_align align = 0.
Proof.
  intros Hp Hpr Ha. destruct (realloc_align_spec align Ha) as [[-> ->]|[Hpos ->]]; [intros _; done|].
  destruct (align_roundup align Ha) as [_ (k & -> & Hk)]. unfold RTE_PTR_ALIGN_CEIL.
  pose proof (pow2_pos k ltac:(lia)). assert (2 ^ k <= 2 ^ 31) by (apply Z.pow_le_mono_r; lia).
  rewrite (wrapu_small 32) by lia. rewrite u64_id by lia. rewrite align_floor by lia. intros <-.
  rewrite Z.mul_comm. apply Z.mod_mul. lia.
Qed.

Lemma resized_reallocated s L d n size align n' s' L' :
  inv s L -> live_block L d n -> size <= n' <= Z.max n (size + 256) -> d mod max_align align = 0 ->
  resized s L d n n' s' L' -> reallocated s L d n size align d n' s' L'.
Proof.
  intros HI Hl Hn' Hal [HI' Hmore Hlive Hkept Hrest]. pose proof (sh_rep _ _ (inv_shape _ _ HI)) as HR.
  destruct (live_bounds s L d n HR Hl) as (Hdm & _). split; auto.
  - intros i Hi. apply (kept_read s s' d n); auto. lia.
  - intros b m x Hb Hne Hx. destruct (live_bounds s L b m HR Hb) as (Hbm & _). by apply (kept_read s s' b m); auto.
Qed.

(** The new block filled from the old one, and the old one released. *)
Lemma moved_reallocated s L d n size size' align h np s1 L1 s2 s3 L3 k :
  inv s L -> live_block L d n -> 0 < size <= size' -> size' < size + 64 -> Z.min n size <= k <= size' ->
  allocated s L size' align h np s1 L1 ->
  inv s2 L1 -> memseg s2 = memseg s1 -> heaps s2 = heaps s1 -> memzone_cnt s2 = memzone_cnt s1 -> memzone s2 = memzone s1 ->
  (forall y, read_byte s2 y = if decide (0 <= y - np < k) then read_byte s1 (d + (y - np)) else read_byte s1 y) ->
  released s2 L1 d s3 L3 ->
  exists n', reallocated s L d n size align np n' s3 L3.
Proof.
  intros HI Hl Hs Hs' Hk [HI1 (m & Hm & _ & (a & e & Ha & Hst & _ & Hlo & Hhi) & Hlive) Hal _ Hkept Hrest] HI2 E1 E2 E3 E4 Hr
    [HI3 Hlive3 Hkept3 _ Hrest3].
  pose proof (sh_rep _ _ (inv_shape _ _ HI)) as HR. pose proof (rep_wf _ _ HR) as HL.
  pose proof (free_size_pos _ _ _ _ HL Ha Hst) as Hpos.
  assert (forall b q, live_block L b q -> b + q <= np \/ np + m <= b) as Hdis.
  { intros b q (a' & e' & Ha' & Hb' & Hp' & -> & ->). pose proof (bw_pad _ _ _ _ (wf_blk _ _ HL a' e' Ha')).
    unfold MALLOC_ELEM_HEADER_LEN. destruct (Z.lt_total a a') as [Hlt|[->|Hlt]]; [|congruence|].
    - pose proof (wf_disj _ _ HL a e a' e' Ha Ha' Hlt). rewrite extent_size in * by lia. lia.
    - pose proof (wf_disj _ _ HL a' e' a e Ha' Ha Hlt). rewrite extent_size in * by lia. lia. }
  assert (forall q, ~ live_block L np q) as Hnew.
  { intros q. apply (free_not_live (memseg s) L a e); auto. lia. }
  assert (np <> d) as Hnd by (intros ->; by apply (Hnew n)).
  assert (live_block L1 np m) as Hln by (apply Hlive; auto).
  assert (forall b q x, live_block L b q -> b <= x < b + q -> read_byte s2 x = read_byte s x) as Hold.
  { intros b q x Hb Hx. rewrite Hr, decide_False by (destruct (Hdis b q Hb); lia).
    destruct (live_bounds s L b q HR Hb) as (Hbm & _). by apply (kept_read s s1 b q); auto. }
  exists m. split; auto.
  - lia.
  - intros b q. rewrite Hlive3, Hlive. split; [naive_solver|]. intros [[? ?]|[-> ->]]; auto.
  - intros i Hi. destruct (live_bounds s1 L1 np m (sh_rep _ _ (inv_shape _ _ HI1)) Hln) as (Hnm & _).
    rewrite (kept_read s2 s3 np m) by (auto; lia). rewrite Hr, decide_True by lia.
    replace (d + (np + i - np)) with (d + i) by lia.
    destruct (live_bounds s L d n HR Hl) as (Hdm & _). apply (kept_read s s1 d n); auto. lia.
  - intros b q x Hb Hne Hx. destruct (live_bounds s L b q HR Hb) as (Hbm & _).
    rewrite (kept_read s2 s3 b q); auto; [by apply (Hold b q)|]. apply Hkept3; [|done]. apply Hlive. auto.
  - destruct_and!. split_and!; congruence.
Qed.

Lemma wp_realloc env s L d n size align (Q : outcome (option Z) -> mem_config -> Prop) :
  inv s L -> length (heaps s) = Z.to_nat RTE_MAX_NUMA_NODES -> env_ok env ->
  malloc_args (memseg s) (size + 128) align -> 0 < size ->
  live_block L d n -> n + 128 <= 2 ^ 32 ->
  ((forall h, (h < Z.to_nat RTE_MAX_NUMA_NODES)%nat -> no_room L (RTE_CACHE_LINE_ROUNDUP 64 size) align h) -> Q (Done None) s) ->
  (forall d' n' s' L', reallocated s L d n size align d' n' s' L' -> Q (Done (Some d')) s') ->
  wp (rte_realloc env (Some d) size align) Q s.
Proof.
  intros HI Hlen Henv [Hsz Hal Hroom] Hs0 Hl Hn HN HY. pose proof (sh_rep _ _ (inv_shape _ _ HI)) as HR.
  destruct (live_bounds s L d n HR Hl) as (Hdm & Hn0 & Hd64 & Hd63).
  pose proof Hl as (a & e & Ha & Hb & Hpos & Ed & En). unfold MALLOC_ELEM_HEADER_LEN in Ed, En.
  destruct (roundup_props size ltac:(lia)) as [Hsm Hsr]. set (size' := RTE_CACHE_LINE_ROUNDUP 64 size) in *.
  pose proof (wf_blk _ _ (rep_wf _ _ HR) a e Ha) as W. destruct (bw_pad _ _ _ _ W) as [Hp1 Hp2].
  assert (0 <= align) by (destruct Hal as [->|(j & -> & ?)]; [lia|pose proof (pow2_pos j); lia]).
  unfold rte_realloc. wp_step. subst d n. apply (wp_from_data s L a e); auto. fold size'. fold (realloc_align align).
  assert (forall Q', (forall s', s' = s -> Q' false s') ->
    (forall s' L' n', reallocated s L (a + e_pad e + 64) (e_size e - e_pad e - 64) size align (a + e_pad e + 64) n' s' L' -> Q' true s') ->
    wp (if RTE_PTR_ALIGN_CEIL (a + e_pad e + 64) (realloc_align align) =? a + e_pad e + 64
        then r ← malloc_elem_resize a size'; mret (r =? 0) else mret false) Q' s) as Hfits.
  { intros Q' HF HT. destruct (Z.eqb_spec (RTE_PTR_ALIGN_CEIL (a + e_pad e + 64) (realloc_align align)) (a + e_pad e + 64)) as [E|E].
    - wp_step. apply (wp_resize s L a e); auto; [lia|by wp_step; apply HF|].
      intros s' L' n' Hn1 Hn2 Hrz. wp_step. apply (HT s' L' n'). apply resized_reallocated; auto; [lia|].
      apply aligned_test; auto. lia.
    - wp_step. by apply HF. }
  wp_step. apply Hfits; clear Hfits; [|intros s' L' n' Hra; wp_step; by eapply HY].
  intros s' ->. wp_step. unfold rte_malloc.
  apply (wp_malloc_socket env s L); auto; [|unfold SOCKET_ID_ANY; lia|].
  { destruct (realloc_align_spec align Hal) as [[E1 E2]|[E1 E2]].
    - rewrite E2. split; [lia|by left|]. intros k ms Hk. specialize (Hroom k ms Hk). lia.
    - rewrite E2. split; [lia| |].
      + right. destruct (align_roundup align Hal) as [_ (k & -> & ?)]. exists k. split; [done|lia].
      + intros k ms Hk. specialize (Hroom k ms Hk). unfold max_align. lia. }
  intros [np|] s1 Hpost; unfold malloc_post, allowed in Hpost; rewrite Z.eqb_refl, andb_false_r in Hpost.
  - destruct Hpost as (h & L1 & _ & HA). pose proof HA as [HI1 (m & Hm & _ & (ax & ex & Hax & Hexs & _ & Hnp1 & Hnp2) & Hlive) _ Hbk _ Hrest].
    assert (live_block L1 np m) as Hln by (apply Hlive; auto).
    destruct (Hbk a e Ha Hb) as [p Hp]. pose proof (sh_rep _ _ (inv_shape _ _ HI1)) as HR1.
    wp_step. apply (wp_get s1 L1 a _ _ HR1 Hp). cbn [e_size with_prev]. change MALLOC_ELEM_OVERHEAD with 64.
    pose proof (wf_size64 _ _ _ _ W Hpos). pose proof (bw_pad_room _ _ _ _ W Hb).
    rewrite (wrapu_small 32) by lia. set (k := if e_size e - 64 <? size' then e_size e - 64 else size').
    assert (0 <= k <= size' /\ k <= e_size e - 64 /\ Z.min (e_size e - e_pad e - 64) size <= k) as (Hk1 & Hk2 & Hk3).
    { unfold k. destruct (Z.ltb_spec (e_size e - 64) size'); lia. }
    assert (e_pad e <= 64) by (clear -Hp1 Hp2; Z.div_mod_to_equations; lia).
    wp_step. pose proof Hln as (an & en & Han & Hbn & Hpn & Edn & Enn). unfold MALLOC_ELEM_HEADER_LEN in *.
    pose proof (bw_pad _ _ _ _ (wf_blk _ _ (rep_wf _ _ HR1) an en Han)).
    apply (wp_memcpy s1 L1 np m); auto; [lia|..].
    + rewrite Edn, <- Z.add_assoc. apply (live_mapped s1 L1 an en k HR1 Han Hpn); lia.
    + rewrite <- Z.add_assoc. apply (live_mapped s1 L1 a _ k HR1 Hp); cbn; lia.
    + intros s2 HI2 E1 E2 E3 E4 Hr. wp_step.
      assert (live_block L1 (a + e_pad e + 64) (e_size e - e_pad e - 64)) as Hl1 by (apply Hlive; by left).
      apply (wp_rte_free s2 L1 _ (e_size e - e_pad e - 64)); auto. intros s3 L3 Hrel. wp_step.
      destruct (moved_reallocated s L _ _ size size' (realloc_align align) h np s1 L1 s2 s3 L3 k HI Hl ltac:(lia) ltac:(lia) ltac:(lia) HA HI2 E1 E2 E3 E4 Hr Hrel)
        as [n' Hra]. apply (HY np n' s3 L3). destruct Hra. split; auto. by rewrite max_align_idem in *.
  - destruct Hpost as [-> Hno]. wp_step. apply HN. intros h Hh a' e' q ? ? ? Hq. apply (Hno h Hh a' e' q); auto.
    by rewrite max_align_idem.
Qed.
