(* ===== verification/MallocClient.v ===== *)
(** The allocator against its specification: to a client a block is an array of bytes
    that nobody else touches. *)
From Stdlib Require Import ZArith Lia.
From stdpp Require Import base numbers list gmap.
From S2P Require Import Prelude Ring Malloc MallocLayout MallocRep MallocAlloc MallocSpec MallocFree MallocApi MallocInit MallocProps MallocRealloc.

#[local] Open Scope Z_scope.

(** ** The specification *)

Inductive mop :=
  | MMalloc (size align : Z)
  | MRealloc (d size align : Z)
  | MFree (d : Z)
  | MStore (d : Z) (i : nat) (v : Z)
  | MLoad (d : Z) (i : nat).

Inductive mres := RPtr (p : option Z) | RByte (v : mval) | RUnit | RPanic.

(** The blocks of the client with their contents. *)
Abbreviation arrays := (gmap Z (list mval)).

(** The range is apart from every block of the client. *)
Definition apart (B : arrays) (d size : Z) : Prop :=
  forall b c, B !! b = Some c -> d + size <= b \/ b + Z.of_nat (length c) <= d.

Inductive astep (B : arrays) : mop -> mres -> arrays -> Prop :=
  | A_malloc size align d :
      B !! d = None -> d mod max_align align = 0 -> apart B d size ->
      astep B (MMalloc size align) (RPtr (Some d)) (<[d := replicate (Z.to_nat size) (Known 0)]> B)
  | A_malloc_null size align : astep B (MMalloc size align) (RPtr None) B
  | A_realloc d c size align d' c' :
      B !! d = Some c -> (d' = d \/ B !! d' = None) -> d' mod max_align align = 0 ->
      size <= Z.of_nat (length c') -> apart (delete d B) d' (Z.of_nat (length c')) ->
      (forall i, (i < length c)%nat -> Z.of_nat i < size -> c' !! i = c !! i) ->
      astep B (MRealloc d size align) (RPtr (Some d')) (<[d' := c']> (delete d B))
  | A_realloc_null d c size align : B !! d = Some c -> astep B (MRealloc d size align) (RPtr None) B
  | A_free d c : B !! d = Some c -> astep B (MFree d) RUnit (delete d B)
  | A_store d c i v : B !! d = Some c -> (i < length c)%nat ->
      astep B (MStore d i v) RUnit (<[d := <[i := Known v]> c]> B)
  | A_load d c i v : B !! d = Some c -> c !! i = Some v -> astep B (MLoad d i) (RByte v) B.

(** What a client may do. *)
Definition legal (segs : list rte_memseg) (B : arrays) (o : mop) : Prop :=
  match o with
  | MMalloc size align => malloc_args segs size align
  | MRealloc d size align => 0 < size /\ malloc_args segs (size + 128) align
      /\ exists c, B !! d = Some c /\ Z.of_nat (length c) + 512 <= 2 ^ 32
  | MFree d => is_Some (B !! d)
  | MStore d i _ => exists c, B !! d = Some c /\ (i < length c)%nat
  | MLoad d i => exists c, B !! d = Some c /\ (i < length c)%nat
  end.

(** ** The implementation *)

Definition run_op (env : eal_env) (o : mop) : M mem_config mres :=
  match o with
  | MMalloc size align => p ← rte_zmalloc env size align; mret (RPtr p)
  | MRealloc d size align =>
    r ← rte_realloc env (Some d) size align;
    mret (match r with Done p => RPtr p | Panic => RPanic end)
  | MFree d => r ← rte_free (Some d); mret (match r with Done _ => RUnit | Panic => RPanic end)
  | MStore d i v => modify (write_byte (d + Z.of_nat i) (Known v)) ;; mret RUnit
  | MLoad d i => s ← gets id; mret (RByte (read_byte s (d + Z.of_nat i)))
  end.

(** Every block of the client is a live block of the allocator with its contents. The
    allocator may give more than was asked for, but not much more. *)
Record refines (segs : list rte_memseg) (s : mem_config) (L : gmap Z malloc_elem) (B : arrays) : Prop := Refines {
  rf_inv : inv s L;
  rf_heaps : length (heaps s) = Z.to_nat RTE_MAX_NUMA_NODES;
  rf_segs : memseg s = segs;
  rf_live : forall d n, live_block L d n -> exists c, B !! d = Some c /\ Z.of_nat (length c) <= n <= Z.of_nat (length c) + 256;
  rf_block : forall d c, B !! d = Some c -> exists n, live_block L d n;
  rf_data : forall d c i v, B !! d = Some c -> c !! i = Some v -> read_byte s (d + Z.of_nat i) = v
}.

Section Refinement.
Context (env : eal_env) (Henv : env_ok env) (segs : list rte_memseg).

Lemma refines_size s L B d c :
  refines segs s L B -> B !! d = Some c ->
  exists n, live_block L d n /\ Z.of_nat (length c) <= n <= Z.of_nat (length c) + 256.
Proof.
  intros HR Hd. destruct (rf_block _ _ _ _ HR d c Hd) as [n Hl]. destruct (rf_live _ _ _ _ HR d n Hl) as (c' & Hc' & ?).
  assert (c' = c) as -> by congruence. eauto.
Qed.

Lemma wp_op_malloc s L B size align :
  refines segs s L B -> legal segs B (MMalloc size align) ->
  wp (run_op env (MMalloc size align)) (fun r s' => exists L' B', astep B (MMalloc size align) r B' /\ refines segs s' L' B') s.
Proof.
  intros HR Hlegal. pose proof HR as [HI Hh Hs Hlive Hblk Hdata]. cbn in Hlegal. rewrite <- Hs in Hlegal.
  unfold run_op, rte_zmalloc, rte_zmalloc_socket. wp_step.
  apply (wp_malloc_socket env s L); auto; [unfold SOCKET_ID_ANY; lia|]. intros [d|] s' Hpost; wp_step.
  - destruct Hpost as (h & L' & _ & [HI' (n & Hn & Hz & (a & e & Ha & Hst & _ & Hlo & Hhi) & Hl') Hal _ Hk (E1 & E2 & _)]).
    pose proof (rep_wf _ _ (sh_rep _ _ (inv_shape _ _ HI'))) as HL'. pose proof (ma_size _ _ _ Hlegal) as Hsz.
    assert (live_block L' d n) as Hln by (apply Hl'; auto).
    assert (forall b c, B !! b = Some c -> b <> d /\ (d + n <= b - 64 \/ b + Z.of_nat (length c) <= d - 64)) as Hap.
    { intros b c Hb. destruct (refines_size s L B b c HR Hb) as (m & Hm & ?).
      assert (b <> d) as Hne.
      { intros ->. pose proof (rep_wf _ _ (sh_rep _ _ (inv_shape _ _ HI))) as HL.
        apply (free_not_live _ L a e d m HL Ha Hst); [lia|done]. }
      split; [done|]. destruct (live_disjoint _ L' d n b m HL' Hln) as [?|?]; [apply Hl'; by left|done|by left|right; lia]. }
    eexists L', _. split.
    { apply A_malloc; auto; [|intros b c Hb; destruct (Hap b c Hb); lia].
      destruct (B !! d) eqn:E; [|done]. by destruct (Hap d _ E). }
    split; auto; try congruence.
    + intros b m Hm. apply Hl' in Hm as [Hm|[-> ->]].
      * destruct (Hlive b m Hm) as (c & Hc & ?). exists c. rewrite lookup_insert_ne; [done|]. by destruct (Hap b c Hc).
      * eexists. rewrite lookup_insert_eq. split; [done|]. rewrite length_replicate. lia.
    + intros b c Hb. apply lookup_insert_Some in Hb as [[<- <-]|[_ Hb]]; [eauto|].
      destruct (Hblk b c Hb) as [m Hm]. exists m. apply Hl'. by left.
    + intros b c i v Hb Hi. apply lookup_insert_Some in Hb as [[<- <-]|[_ Hb]].
      * apply lookup_replicate in Hi as [-> Hi].
        destruct (live_bounds s' L' d n (sh_rep _ _ (inv_shape _ _ HI')) Hln) as (Hdm & _).
        unfold read_byte. rewrite (proj1 (Hz (d + Z.of_nat i) ltac:(lia))).
        pose proof (line_of_in d (d + Z.of_nat i) Hdm ltac:(lia)). pose proof (line_of_spec (d + Z.of_nat i)).
        rewrite (proj2 (Hz (line_of (d + Z.of_nat i)) ltac:(lia))). done.
      * destruct (refines_size s L B b c HR Hb) as (m & Hm & ?). rewrite <- (Hdata b c i v Hb Hi).
        apply lookup_lt_Some in Hi. destruct (live_bounds s L b m (sh_rep _ _ (inv_shape _ _ HI)) Hm) as (Hbm & _).
        apply (kept_read s s' b m); auto. lia.
  - destruct Hpost as [-> _]. exists L, B. split; [constructor|done].
Qed.

Lemma wp_op_free s L B d :
  refines segs s L B -> legal segs B (MFree d) ->
  wp (run_op env (MFree d)) (fun r s' => exists L' B', astep B (MFree d) r B' /\ refines segs s' L' B') s.
Proof.
  intros HR [c Hc]. pose proof HR as [HI Hh Hs Hlive Hblk Hdata]. destruct (Hblk d c Hc) as [n Hl].
  unfold run_op. wp_step. apply (wp_rte_free s L d n); auto. intros s' L' [HI' Hl' Hk _ (E1 & E2 & _)]. wp_step.
  exists L', (delete d B). split; [by apply (A_free _ d c)|]. split; auto; try congruence.
  - intros b m [Hm Hne]%Hl'. destruct (Hlive b m Hm) as (c' & Hc' & ?). exists c'. by rewrite lookup_delete_ne.
  - intros b c' [Hne Hb]%lookup_delete_Some. destruct (Hblk b c' Hb) as [m Hm]. exists m. apply Hl'. auto.
  - intros b c' i v [Hne Hb]%lookup_delete_Some Hi. destruct (refines_size s L B b c' HR Hb) as (m & Hm & ?).
    rewrite <- (Hdata b c' i v Hb Hi). apply lookup_lt_Some in Hi.
    destruct (live_bounds s L b m (sh_rep _ _ (inv_shape _ _ HI)) Hm) as (Hbm & _). apply (kept_read s s' b m); auto; lia.
Qed.

Lemma wp_op_store s L B d i v :
  refines segs s L B -> legal segs B (MStore d i v) ->
  wp (run_op env (MStore d i v)) (fun r s' => exists L' B', astep B (MStore d i v) r B' /\ refines segs s' L' B') s.
Proof.
  intros HR (c & Hc & Hi). pose proof HR as [HI Hh Hs Hlive Hblk Hdata].
  destruct (refines_size s L B d c HR Hc) as (n & Hl & Hn). unfold run_op. wp_step.
  destruct (write_rest (d + Z.of_nat i) (Known v) s) as (E1 & E2 & _).
  exists L, (<[d := <[i := Known v]> c]> B). split; [by apply A_store|]. split.
  - apply (write_inv s L d n); auto. lia.
  - by rewrite E2.
  - by rewrite E1.
  - intros b m Hm. destruct (Hlive b m Hm) as (c' & Hc' & ?). destruct (decide (b = d)) as [->|].
    + exists (<[i := Known v]> c). rewrite lookup_insert_eq, length_insert. split; [done|]. congruence.
    + exists c'. by rewrite lookup_insert_ne.
  - intros b c' Hb. apply lookup_insert_Some in Hb as [[<- <-]|[_ Hb]]; eauto.
  - intros b c' j w Hb Hj. rewrite read_write by apply HI. apply lookup_insert_Some in Hb as [[<- <-]|[Hne Hb]].
    + destruct (decide (j = i)) as [->|Hji].
      * rewrite list_lookup_insert_eq in Hj by done. rewrite decide_True by done. congruence.
      * rewrite list_lookup_insert_ne in Hj by done. rewrite decide_False by lia. by apply (Hdata d c).
    + rewrite decide_False; [by apply (Hdata b c')|]. destruct (refines_size s L B b c' HR Hb) as (m & Hm & ?).
      apply lookup_lt_Some in Hj. pose proof (rep_wf _ _ (sh_rep _ _ (inv_shape _ _ HI))) as HL.
      destruct (live_disjoint _ L d n b m HL Hl Hm Hne); lia.
Qed.

Lemma wp_op_load s L B d i :
  refines segs s L B -> legal segs B (MLoad d i) ->
  wp (run_op env (MLoad d i)) (fun r s' => exists L' B', astep B (MLoad d i) r B' /\ refines segs s' L' B') s.
Proof.
  intros HR (c & Hc & Hi). unfold run_op, id. wp_step. exists L, B. split; [|done].
  destruct (lookup_lt_is_Some_2 _ _ Hi) as [v Hv]. rewrite (rf_data _ _ _ _ HR d c i v Hc Hv). by apply (A_load _ d c).
Qed.

Lemma wp_op_realloc s L B d size align :
  refines segs s L B -> legal segs B (MRealloc d size align) ->
  wp (run_op env (MRealloc d size align))
    (fun r s' => exists L' B', astep B (MRealloc d size align) r B' /\ refines segs s' L' B') s.
Proof.
  intros HR (Hs0 & Hargs & c & Hc & Hlen). pose proof HR as [HI Hh Hs Hlive Hblk Hdata]. rewrite <- Hs in Hargs.
  destruct (refines_size s L B d c HR Hc) as (n & Hl & Hn). unfold run_op. wp_step.
  apply (wp_realloc env s L d n); auto; [lia|intros _; wp_step; exists L, B; split; [by apply (A_realloc_null _ d c)|done]|].
  intros d' n' s' L' [HI' Hsz Hal Hfresh Hl' Hdat Hoth (E1 & E2 & _)]. wp_step.
  pose proof (rep_wf _ _ (sh_rep _ _ (inv_shape _ _ HI'))) as HL'.
  assert (live_block L' d' n') as Hln by (apply Hl'; auto).
  set (k := Z.to_nat (Z.min n' (Z.max (Z.of_nat (length c)) (size + 256)))).
  set (c' := map (fun i => read_byte s' (d' + Z.of_nat i)) (seq 0 k)).
  assert (length c' = k) as Hk by (unfold c'; by rewrite length_map, length_seq).
  assert (forall i, (i < k)%nat -> c' !! i = Some (read_byte s' (d' + Z.of_nat i))) as Hc'.
  { intros i Hi. unfold c'. rewrite list_lookup_fmap, lookup_seq_lt by done. done. }
  assert (forall b x, delete d B !! b = Some x -> exists m, live_block L b m /\ live_block L' b m /\ b <> d'
    /\ Z.of_nat (length x) <= m <= Z.of_nat (length x) + 256) as Hother.
  { intros b x [Hne Hb]%lookup_delete_Some. destruct (refines_size s L B b x HR Hb) as (m & Hm & ?). exists m.
    split_and!; auto; try lia; [apply Hl'; auto|]. intros ->. destruct Hfresh as [->|Hf]; [done|]. by apply (Hf m). }
  exists L', (<[d' := c']> (delete d B)). split.
  - apply (A_realloc _ d c); auto.
    + destruct Hfresh as [->|Hf]; [by left|right]. destruct (B !! d') eqn:E; [|done].
      destruct (Hblk d' _ E) as [m Hm]. by destruct (Hf m).
    + lia.
    + intros b x Hb. destruct (Hother b x Hb) as (m & _ & Hm & Hne & ?).
      destruct (live_disjoint _ L' d' n' b m HL' Hln Hm); [congruence|lia..].
    + intros i Hi His. rewrite Hc' by lia. rewrite Hdat by lia.
      destruct (lookup_lt_is_Some_2 _ _ Hi) as [v Hv]. by rewrite (Hdata d c i v Hc Hv).
  - split; auto; try congruence.
    + intros b m Hm. apply Hl' in Hm as [[Hne Hm]|[-> ->]].
      * destruct (Hlive b m Hm) as (x & Hx & ?). assert (delete d B !! b = Some x) as Hx' by (by rewrite lookup_delete_ne).
        destruct (Hother b x Hx') as (_ & _ & _ & Hne' & _). exists x. by rewrite lookup_insert_ne.
      * exists c'. rewrite lookup_insert_eq. split; [done|]. lia.
    + intros b x Hb. apply lookup_insert_Some in Hb as [[<- <-]|[_ Hb]]; [eauto|].
      destruct (Hother b x Hb) as (m & _ & Hm & _). eauto.
    + intros b x i v Hb Hi. apply lookup_insert_Some in Hb as [[<- <-]|[_ Hb]].
      * pose proof (lookup_lt_Some _ _ _ Hi). rewrite Hc' in Hi by lia. congruence.
      * destruct (Hother b x Hb) as (m & Hm & _ & _ & ?). apply lookup_delete_Some in Hb as [Hne Hb].
        rewrite <- (Hdata b x i v Hb Hi). apply lookup_lt_Some in Hi. apply (Hoth b m); auto. lia.
Qed.

Lemma wp_op s L B o :
  refines segs s L B -> legal segs B o ->
  wp (run_op env o) (fun r s' => exists L' B', astep B o r B' /\ refines segs s' L' B') s.
Proof.
  destruct o; [apply wp_op_malloc|apply wp_op_realloc|apply wp_op_free|apply wp_op_store|apply wp_op_load].
Qed.
End Refinement.

(** ** Programs *)

(** A program chooses its next operation from the results so far. *)
Definition program := list mres -> option mop.

Fixpoint drive (env : eal_env) (prog : program) (fuel : nat) (rs : list mres) : M mem_config (list mres) :=
  match fuel with
  | O => mret rs
  | S fuel =>
    match prog rs with
    | None => mret rs
    | Some o => r ← run_op env o; drive env prog fuel (rs ++ [r])
    end
  end.

(** The runs of the specification. *)
Inductive reach (prog : program) : list mres -> arrays -> Prop :=
  | R_start : reach prog [] ∅
  | R_step rs B o r B' : reach prog rs B -> prog rs = Some o -> astep B o r B' -> reach prog (rs ++ [r]) B'.

Definition disciplined (segs : list rte_memseg) (prog : program) : Prop :=
  forall rs B o, reach prog rs B -> prog rs = Some o -> legal segs B o.

Lemma wp_drive env segs prog fuel rs s L B :
  env_ok env -> disciplined segs prog -> reach prog rs B -> refines segs s L B ->
  wp (drive env prog fuel rs) (fun rs' s' => exists L' B', reach prog rs' B' /\ refines segs s' L' B') s.
Proof.
  intros He Hd. revert rs s L B. induction fuel as [|fuel IH]; intros rs s L B Hr HR; cbn; [wp_step; eauto|].
  destruct (prog rs) as [o|] eqn:Eo; [|wp_step; eauto]. wp_step.
  eapply wp_mono; [apply (wp_op env He segs s L B o HR), (Hd rs B o Hr Eo)|].
  intros r s' (L' & B' & Hstep & HR'). apply (IH _ _ L' B'); [by apply (R_step prog rs B o)|done].
Qed.

Lemma refines_init segs s L :
  inv s L -> length (heaps s) = Z.to_nat RTE_MAX_NUMA_NODES -> memseg s = segs -> (forall d n, ~ live_block L d n) ->
  refines segs s L ∅.
Proof.
  intros HI Hh Hs Hno. split; auto.
  - intros d n Hl. by destruct (Hno d n).
  - intros d c. by rewrite lookup_empty.
  - intros d c i v. by rewrite lookup_empty.
Qed.

(** A run of a program on fresh heaps. *)
Definition boot (env : eal_env) (prog : program) (fuel : nat) : M mem_config (list mres) :=
  _ ← rte_eal_malloc_heap_init; drive env prog fuel [].

Lemma wp_boot env segs zones prog fuel :
  layout_ok segs -> env_ok env -> disciplined segs prog ->
  wp (boot env prog fuel) (fun rs s => exists L B, reach prog rs B /\ refines segs s L B) (fresh_config segs zones).
Proof.
  intros Hlay He Hd. unfold boot. wp_step. apply (wp_heap_init segs Hlay). intros s L [HI Hs Hh _ _ Hf _] _ _.
  apply (wp_drive env segs prog fuel [] s L ∅); auto; [constructor|by apply refines_init].
Qed.

(** C11: the allocator refines its specification. From freshly initialised heaps, a
    program that passes valid sizes and only touches, resizes and releases blocks it
    holds runs without a fault and without a panic, for any number of operations, and
    sees what the specification allows: a block handed out is zero, aligned and apart
    from every other block, its bytes change by the program's own stores only, and
    [rte_realloc] carries the contents over. *)
Theorem allocator_refines env segs zones prog fuel :
  layout_ok segs -> env_ok env -> disciplined segs prog ->
  wp (boot env prog fuel) (fun rs s => exists B, reach prog rs B /\ (RPanic ∉ rs)
    /\ forall d c i v, B !! d = Some c -> c !! i = Some v -> read_byte s (d + Z.of_nat i) = v)
    (fresh_config segs zones).
Proof.
  intros Hlay He Hd. eapply wp_mono; [by apply (wp_boot env segs zones prog fuel)|].
  intros rs s (L & B & Hr & HR). exists B. split_and!; [done| |apply (rf_data _ _ _ _ HR)].
  clear -Hr. induction Hr as [|rs B o r B' Hr IH Ho Hstep]; [set_solver|].
  assert (r <> RPanic) by (by destruct Hstep). set_solver.
Qed.

(** C12: nothing is lost to fragmentation. When a program has released all its blocks,
    every element on a free list is a whole segment again, whatever the order of the
    releases, and nothing counts as allocated. *)
Theorem allocator_restored env segs zones prog fuel :
  layout_ok segs -> env_ok env -> disciplined segs prog ->
  wp (boot env prog fuel) (fun rs s => exists B L, reach prog rs B /\ inv s L /\ (B = ∅ ->
    (forall h hp, heaps s !! h = Some hp -> alloc_count hp = 0)
    /\ forall h hp l a, heaps s !! h = Some hp -> l ∈ free_head hp -> a ∈ l ->
         exists k ms e, segs !! k = Some ms /\ a = ms_addr ms /\ L !! a = Some e /\ a + e_size e = seg_end ms))
    (fresh_config segs zones).
Proof.
  intros Hlay He Hd. eapply wp_mono; [by apply (wp_boot env segs zones prog fuel)|].
  intros rs s (L & B & Hr & HR). exists B, L. split_and!; [done|apply HR|]. intros ->.
  pose proof HR as [HI Hh Hs Hlive _ _].
  assert (forall d n, ~ live_block L d n) as Hno.
  { intros d n Hl. destruct (Hlive d n Hl) as (c & Hc & _). by rewrite lookup_empty in Hc. }
  split.
  - intros h hp Hhp. destruct (inv_counts _ _ HI h hp Hhp) as [-> _].
    assert (msum (heap_busy h) L = 0) as ->; [|done].
    enough (forall M, (forall a e, M !! a = Some e -> heap_busy h e = 0) -> msum (heap_busy h) M = 0) as Hz.
    { apply Hz. intros a e Ha. unfold heap_busy. rewrite decide_False; [done|]. intros (_ & Hb & Hp).
      eapply Hno. exists a, e. split_and!; eauto. }
    intros M. induction M as [|a e M Ha _ IH] using map_first_key_ind; intros HM; [apply msum_empty|].
    rewrite msum_insert_new by done. rewrite (HM a e) by apply lookup_insert_eq.
    rewrite IH; [done|]. intros b f Hb. apply (HM b). rewrite lookup_insert_ne; [done|congruence].
  - intros h hp l a Hhp Hl Ha. destruct (sh_lists _ _ (inv_shape _ _ HI) h hp Hhp) as [_ Hi].
    apply list_elem_of_lookup in Hl as [idx Hidx]. apply (proj2 (Hi idx l Hidx)) in Ha as (e & He' & Hst & _).
    destruct (all_free_whole s L a e HI Hno He' Hst) as (k & ms & Hk & _ & ? & ?). exists k, ms, e.
    rewrite <- Hs. auto.
Qed.

(** *** An example *)

Definition demo_eal : eal_env := EalEnv true 0.

Definition demo_prog : program := fun rs =>
  match rs with
  | [] => Some (MMalloc 100 64)
  | [RPtr (Some d)] => Some (MStore d 5 7)
  | [RPtr (Some d); RUnit] => Some (MFree d)
  | _ => None
  end.

Lemma demo_env_ok : env_ok demo_eal.
Proof. right. cbn. unfold RTE_MAX_NUMA_NODES. lia. Qed.

Lemma demo_args size align :
  0 < size < 2 ^ 40 -> (align = 0 \/ exists k, align = 2 ^ k /\ 0 <= k <= 31) -> malloc_args demo_segs size align.
Proof.
  intros Hs Ha. assert (align <= 2 ^ 31) by (destruct Ha as [->|(k & -> & ?)]; [lia|apply Z.pow_le_mono_r; lia]).
  split; [lia|done|]. intros [|[|k]] ms [= <-]; cbn; lia.
Qed.

Lemma reach_snoc prog rs r B' : reach prog (rs ++ [r]) B' ->
  exists B o, reach prog rs B /\ prog rs = Some o /\ astep B o r B'.
Proof.
  intros H. inversion H as [E|rs0 B o r0 B0 H1 H2 H3 E]; [by destruct rs|].
  apply app_inj_tail in E as [-> ->]. eauto.
Qed.

Lemma reach_nil prog B : reach prog [] B -> B = ∅.
Proof. intros H. inversion H as [E|rs B0 o r B1 H1 H2 H3 E]; [done|by destruct rs]. Qed.

Lemma demo_disciplined : disciplined demo_segs demo_prog.
Proof.
  intros rs B o Hr Ho. destruct rs as [|r1 rs]; [injection Ho as <-; apply demo_args; [lia|right; exists 6; lia]|].
  destruct r1 as [[d|]| | |]; try done. destruct rs as [|r2 rs].
  - injection Ho as <-. apply (reach_snoc _ []) in Hr as (B1 & o1 & _ & [= <-] & Hs). inversion Hs; subst.
    eexists. split; [apply lookup_insert_eq|]. rewrite length_replicate. lia.
  - destruct r2; try done. destruct rs as [|]; [|done]. injection Ho as <-.
    apply (reach_snoc _ [_]) in Hr as (B1 & o1 & _ & [= <-] & Hs). inversion Hs; subst.
    eexists. apply lookup_insert_eq.
Qed.

Lemma allocator_refines_witness :
  layout_ok demo_segs /\ disciplined demo_segs demo_prog /\
  wp (boot demo_eal demo_prog 10) (fun rs s => exists B, reach demo_prog rs B /\ (RPanic ∉ rs)
    /\ forall d c i v, B !! d = Some c -> c !! i = Some v -> read_byte s (d + Z.of_nat i) = v)
    (fresh_config demo_segs []).
Proof.
  split; [apply demo_layout|]. split; [apply demo_disciplined|].
  apply (allocator_refines demo_eal demo_segs [] demo_prog 10 demo_layout demo_env_ok demo_disciplined).
Defined.

Lemma allocator_restored_witness :
  (exists s, boot demo_eal demo_prog 10 (fresh_config demo_segs []) = Ret ([RPtr (Some 0x7f0000001f40); RUnit; RUnit], s)) /\
  wp (boot demo_eal demo_prog 10) (fun rs s => exists B L, reach demo_prog rs B /\ inv s L /\ (B = ∅ ->
    (forall h hp, heaps s !! h = Some hp -> alloc_count hp = 0)
    /\ forall h hp l a, heaps s !! h = Some hp -> l ∈ free_head hp -> a ∈ l ->
         exists k ms e, demo_segs !! k = Some ms /\ a = ms_addr ms /\ L !! a = Some e /\ a + e_size e = seg_end ms))
    (fresh_config demo_segs []).
Proof.
  split; [eexists; vm_compute; reflexivity|].
  apply (allocator_restored demo_eal demo_segs [] demo_prog 10 demo_layout demo_env_ok demo_disciplined).
Defined.

(** ** Single calls *)

(** C13: [rte_malloc_socket] on every branch of a valid request: a block comes from an
    allowed heap (the one asked for; with SOCKET_ID_ANY or without huge pages any
    heap), is aligned, zero, at least as large as asked for and at most 192 bytes
    larger, and leaves the contents of all other blocks alone; null is returned, with
    nothing changed, only when no free element of any allowed heap has an aligned place
    of that size, although the search starts at the free list for the size. *)
Theorem malloc_correct env s L size align socket_arg :
  inv s L -> length (heaps s) = Z.to_nat RTE_MAX_NUMA_NODES -> env_ok env ->
  malloc_args (memseg s) size align -> SOCKET_ID_ANY <= socket_arg ->
  wp (rte_malloc_socket env size align socket_arg) (malloc_post env s L size align socket_arg) s.
Proof. intros. by apply (wp_malloc_socket env s L). Qed.

(** C14: releasing a block twice is detected. [rte_free] of a live block succeeds; if the
    same pointer is released again before memory has been allocated, the call panics and
    changes nothing, whether the block was joined with its neighbours or not and whether
    its data was padded or not. *)
Theorem double_free_panics s L d n :
  inv s L -> live_block L d n ->
  wp (rte_free (Some d)) (fun r s1 => r = Done tt /\ (exists L1, inv s1 L1 /\ ~ live_block L1 d n)
    /\ wp (rte_free (Some d)) (fun r2 s2 => r2 = Panic /\ s2 = s1) s1) s.
Proof.
  intros HI Hl. apply (wp_rte_free s L d n); auto. intros s1 L1 [HI1 Hl1 _ (y & f & Hy & Hst & Hd) _].
  split; [done|]. split; [exists L1; split; [done|]; rewrite Hl1; tauto|].
  destruct (live_bounds s L d n (sh_rep _ _ (inv_shape _ _ HI)) Hl) as (Hdm & _).
  by apply (wp_free_dangling s1 L1 y f d).
Qed.

Definition demo_state (prog : program) (fuel : nat) : mem_config :=
  match boot demo_eal prog fuel (fresh_config demo_segs []) with
  | Ret (_, s) => s
  | _ => fresh_config demo_segs []
  end.

Lemma ret_fst {A S} (a b : A) (s t : S) : Ret (a, s) = Ret (b, t) -> a = b.
Proof. congruence. Qed.

Lemma demo_run prog fuel :
  disciplined demo_segs prog ->
  exists rs L B, reach prog rs B /\ refines demo_segs (demo_state prog fuel) L B
    /\ boot demo_eal prog fuel (fresh_config demo_segs []) = Ret (rs, demo_state prog fuel).
Proof.
  intros Hd. pose proof (wp_boot demo_eal demo_segs [] prog fuel demo_layout demo_env_ok Hd) as Hw.
  unfold demo_state. apply wp_run in Hw as (rs & s & E & L & B & Hr & HR). rewrite E. eauto 10.
Qed.

Lemma malloc_correct_witness :
  exists L, inv (demo_state demo_prog 0) L /\
    wp (rte_malloc_socket demo_eal 4000 4096 SOCKET_ID_ANY) (malloc_post demo_eal (demo_state demo_prog 0) L 4000 4096 SOCKET_ID_ANY)
      (demo_state demo_prog 0).
Proof.
  destruct (demo_run demo_prog 0 demo_disciplined) as (rs & L & B & _ & [HI Hh Hs _ _ _] & _).
  exists L. split; [done|]. apply (malloc_correct demo_eal _ L 4000 4096 SOCKET_ID_ANY HI Hh demo_env_ok).
  - rewrite Hs. apply demo_args; [lia|right; exists 12; lia].
  - reflexivity.
Defined.

Lemma double_free_witness :
  exists L d n, inv (demo_state demo_prog 2) L /\ live_block L d n /\
    wp (rte_free (Some d)) (fun r s1 => r = Done tt /\ (exists L1, inv s1 L1 /\ ~ live_block L1 d n)
      /\ wp (rte_free (Some d)) (fun r2 s2 => r2 = Panic /\ s2 = s1) s1) (demo_state demo_prog 2).
Proof.
  destruct (demo_run demo_prog 2 demo_disciplined) as (rs & L & B & Hr & [HI Hh Hs _ Hblk _] & E).
  assert (boot demo_eal demo_prog 2 (fresh_config demo_segs []) = Ret ([RPtr (Some 0x7f0000001f40); RUnit], demo_state demo_prog 2)) as E'
    by (vm_compute; reflexivity).
  rewrite <- (ret_fst _ _ _ _ (eq_trans (eq_sym E') E)) in Hr. clear E E'. apply (reach_snoc _ [_]) in Hr as (B1 & o & _ & Ho & Hst).
  injection Ho as <-. inversion Hst; subst. destruct (Hblk _ _ (lookup_insert_eq _ _ _)) as [n Hl].
  exists L, 0x7f0000001f40, n. split; [done|]. split; [done|]. exact (double_free_panics _ L 0x7f0000001f40 n HI Hl).
Defined.
