(* ===== verification/MallocStats.v ===== *)
(** The statistics of a heap, and requests at the limits of the arithmetic. *)
From Stdlib Require Import ZArith Lia.
From stdpp Require Import base numbers list gmap.
From S2P Require Import Prelude Ring Malloc MallocLayout MallocRep MallocAlloc MallocSpec MallocFree MallocApi MallocInit MallocProps MallocRealloc MallocClient.

#[local] Open Scope Z_scope.

(** ** Statistics *)

Fixpoint list_sum (f : malloc_elem -> Z) (L : gmap Z malloc_elem) (l : list Z) : Z :=
  match l with
  | [] => 0
  | a :: l => from_option f 0 (L !! a) + list_sum f L l
  end.

Lemma list_sum_delete f L a l : a ∉ l -> list_sum f (delete a L) l = list_sum f L l.
Proof.
  induction l as [|b l IH]; [done|]. intros Hn. cbn.
  rewrite lookup_delete_ne, IH by set_solver. done.
Qed.

(** A sum over a map is the sum over a list of the keys that count. *)
Lemma msum_list f L l :
  NoDup l -> (forall a e, L !! a = Some e -> a ∉ l -> f e = 0) -> msum f L = list_sum f L l.
Proof.
  revert L. induction l as [|a l IH]; intros L Hnd Hz.
  - clear -Hz. cbn. induction L as [|a e L Ha _ IH] using map_first_key_ind; [apply msum_empty|].
    rewrite msum_insert_new by done. rewrite (Hz a e); [|apply lookup_insert_eq|set_solver].
    rewrite IH; [done|]. intros b f' Hb _. apply (Hz b); [|set_solver]. rewrite lookup_insert_ne; [done|congruence].
  - apply NoDup_cons in Hnd as [Ha Hnd]. cbn. rewrite <- (list_sum_delete f L a l) by done.
    rewrite <- IH; [rewrite msum_delete; lia|done|].
    intros b e [Hne Hb]%lookup_delete_Some Hnb. apply (Hz b e Hb). set_solver.
Qed.

Definition one_free (h : nat) (e : malloc_elem) : Z :=
  if decide (e_heap e = Some h /\ e_state e = ELEM_FREE) then 1 else 0.

(** The elements on the lists of a heap. *)
Lemma lists_concat s L h hp :
  shape s L -> heaps s !! h = Some hp ->
  NoDup (concat (free_head hp)) /\
  forall a, a ∈ concat (free_head hp) <-> exists e, L !! a = Some e /\ e_state e = ELEM_FREE /\ e_heap e = Some h.
Proof.
  intros HS Hh. destruct (sh_lists _ _ HS h hp Hh) as [Hlen Hi]. split.
  - assert (forall ls k, (forall j l, ls !! j = Some l -> free_head hp !! (k + j)%nat = Some l) -> NoDup (concat ls)) as Hgen.
    { induction ls as [|l ls IH]; intros k Hls; [constructor|]. cbn. apply NoDup_app.
      assert (free_head hp !! k = Some l) as Hk by (rewrite <- (Nat.add_0_r k); by apply (Hls 0%nat)).
      split_and!; [apply (Hi k l Hk)| |apply (IH (S k)); intros j l' Hj; rewrite Nat.add_succ_comm; by apply (Hls (S j))].
      intros a Ha Ha2. apply (proj2 (Hi k l Hk)) in Ha as (e & He & _ & _ & E1).
      apply list_elem_of_In, in_concat in Ha2 as (l' & Hl' & Ha2%list_elem_of_In).
      apply list_elem_of_In, list_elem_of_lookup in Hl' as [j Hj].
      pose proof (Hls (S j) l' Hj) as Hj'. apply (proj2 (Hi _ l' Hj')) in Ha2 as (e' & He' & _ & _ & E2).
      assert (e' = e) as -> by congruence. lia. }
    apply (Hgen _ 0%nat). auto.
  - intros a. rewrite list_elem_of_In, in_concat. split.
    + intros (l & Hl & Ha). apply list_elem_of_In, list_elem_of_lookup in Hl as [j Hj].
      apply list_elem_of_In, (proj2 (Hi j l Hj)) in Ha as (e & ? & ? & ? & _). eauto.
    + intros (e & He & Hst & Heh). set (i := Z.to_nat (malloc_elem_free_list_index (e_size e - MALLOC_ELEM_HEADER_LEN))).
      destruct (lookup_lt_is_Some_2 (free_head hp) i) as [l Hl]; [rewrite Hlen; apply index_lt|].
      exists l. split; [apply list_elem_of_In; eauto using list_elem_of_lookup_2|].
      apply list_elem_of_In. apply (proj2 (Hi i l Hl)). exists e. auto.
Qed.

Lemma wp_stats_list s L l acc (Q : Z * Z * Z -> mem_config -> Prop) :
  rep s L -> (forall a, a ∈ l -> is_Some (L !! a)) ->
  (let '(c, f, g) := acc in
   Q (fold_left (fun acc a => let '(c, f, g) := acc in let z := from_option e_size 0 (L !! a) in
        (u32 (c + 1), u64 (f + z), if g <? z then z else g)) l (c, f, g)) s) ->
  wp (stats_list l acc) Q s.
Proof.
  intros HR. revert acc. induction l as [|a l IH]; intros [[c f] g] Hl HQ; cbn; [by wp_step|].
  destruct (Hl a) as [e He]; [set_solver|]. wp_step. apply (wp_get s L a e); auto. apply IH; [set_solver|].
  cbn in HQ. by rewrite He in HQ.
Qed.

Definition stat_step (L : gmap Z malloc_elem) (acc : Z * Z * Z) (a : Z) : Z * Z * Z :=
  let '(c, f, g) := acc in let z := from_option e_size 0 (L !! a) in
  (u32 (c + 1), u64 (f + z), if g <? z then z else g).

Lemma wp_stats_lists s L ls acc (Q : Z * Z * Z -> mem_config -> Prop) :
  rep s L -> (forall l a, l ∈ ls -> a ∈ l -> is_Some (L !! a)) ->
  Q (fold_left (stat_step L) (concat ls) acc) s ->
  wp (stats_lists ls acc) Q s.
Proof.
  intros HR. revert acc. induction ls as [|l ls IH]; intros acc Hl HQ; cbn; [by wp_step|].
  wp_step. apply (wp_stats_list s L); [done|set_solver|]. destruct acc as [[c f] g].
  apply IH; [set_solver|]. by rewrite concat_cons, fold_left_app in HQ.
Qed.

Lemma stat_fold L l c f g :
  0 <= g -> (forall a e, a ∈ l -> L !! a = Some e -> 0 <= e_size e) ->
  exists g', fold_left (stat_step L) l (u32 c, u64 f, g)
    = (u32 (c + Z.of_nat (length l)), u64 (f + list_sum e_size L l), g')
  /\ g <= g' /\ (forall a e, a ∈ l -> L !! a = Some e -> e_size e <= g')
  /\ (g' = g \/ exists a e, a ∈ l /\ L !! a = Some e /\ g' = e_size e).
Proof.
  revert c f g. induction l as [|a l IH]; intros c f g Hg Hnn.
  { exists g. cbn. rewrite !Z.add_0_r. split_and!; [done|lia|set_solver|by left]. }
  cbn [fold_left stat_step]. autorewrite with cint. set (z := from_option e_size 0 (L !! a)).
  assert (0 <= z) as Hz by (unfold z; destruct (L !! a) eqn:E; [apply (Hnn a); [set_solver|done]|done]).
  destruct (IH (c + 1) (f + z) (if g <? z then z else g)) as (g' & E & Hle & Hall & Hex).
  { destruct (g <? z); lia. } { intros b e Hb. apply Hnn. set_solver. }
  exists g'. split_and!.
  - rewrite E. cbn [length list_sum]. fold z. rewrite Nat2Z.inj_succ.
    replace (c + 1 + Z.of_nat (length l)) with (c + Z.succ (Z.of_nat (length l))) by lia. by rewrite Z.add_assoc.
  - destruct (Z.ltb_spec g z); lia.
  - intros b e Hb Hbe. apply elem_of_cons in Hb as [->|Hb]; [|eauto].
    assert (z = e_size e) by (unfold z; by rewrite Hbe). destruct (Z.ltb_spec g z); lia.
  - destruct Hex as [->|(b & e & ? & ? & ?)]; [|right; exists b, e; set_solver].
    destruct (Z.ltb_spec g z); [|by left]. right. unfold z. destruct (L !! a) as [e|] eqn:Ea; [|unfold z in *; cbn in *; lia].
    exists a, e. set_solver.
Qed.

(** The statistics of a heap and its elements; the counters have the widths of their
    fields. *)
Record stats_ok (L : gmap Z malloc_elem) (h : nat) (st : rte_malloc_socket_stats) : Prop := StatsOk {
  so_free : free_count st = u32 (msum (one_free h) L);
  so_alloc : stats_alloc_count st = u32 (msum (heap_busy h) L);
  so_freesz : heap_freesz_bytes st = u64 (msum (heap_free h) L);
  so_total : heap_totalsz_bytes st = u64 (msum (heap_bytes h) L);
  so_allocsz : heap_allocsz_bytes st = u64 (msum (heap_bytes h) L - msum (heap_free h) L);
  so_greatest : forall a e, L !! a = Some e -> e_state e = ELEM_FREE -> e_heap e = Some h -> e_size e <= greatest_free_size st;
  so_attained : greatest_free_size st = 0 \/ exists a e, L !! a = Some e /\ e_state e = ELEM_FREE /\ e_heap e = Some h
    /\ greatest_free_size st = e_size e
}.

(** The sums over the free elements are sums over the free lists. *)
Lemma free_sums s L h hp :
  shape s L -> heaps s !! h = Some hp ->
  msum (one_free h) L = Z.of_nat (length (concat (free_head hp)))
  /\ msum (heap_free h) L = list_sum e_size L (concat (free_head hp)).
Proof.
  intros HS Hhp. destruct (lists_concat s L h hp HS Hhp) as [Hnd Hin].
  assert (forall f, (forall e, ~ (e_heap e = Some h /\ e_state e = ELEM_FREE) -> f e = 0) ->
    msum f L = list_sum f L (concat (free_head hp))) as Hsum.
  { intros f Hf. apply msum_list; [done|]. intros a e Ha Hn. apply Hf. intros [? ?]. apply Hn, Hin. eauto. }
  rewrite !Hsum by (intros e Hn; unfold one_free, heap_free; by rewrite decide_False).
  assert (forall a, a ∈ concat (free_head hp) -> exists e, L !! a = Some e /\ e_state e = ELEM_FREE /\ e_heap e = Some h) as Hl
    by (intros a; apply Hin). clear Hin Hsum Hnd.
  induction (concat (free_head hp)) as [|a l IH]; [done|]. destruct (Hl a) as (e & He & ? & ?); [set_solver|].
  destruct IH as [E1 E2]; [set_solver|]. cbn. rewrite E1, E2, He. cbn. unfold one_free, heap_free.
  rewrite !decide_True by done. lia.
Qed.

Lemma wp_get_stats s L h (Q : rte_malloc_socket_stats -> mem_config -> Prop) :
  inv s L -> (h < length (heaps s))%nat -> (forall st, stats_ok L h st -> Q st s) -> wp (malloc_heap_get_stats h) Q s.
Proof.
  intros HI Hh HQ. pose proof (inv_shape _ _ HI) as HS. pose proof (sh_rep _ _ HS) as HR.
  destruct (lookup_lt_is_Some_2 _ _ Hh) as [hp Hhp]. destruct (lists_concat s L h hp HS Hhp) as [Hnd Hin].
  unfold malloc_heap_get_stats, get_heap, id. wp_step. rewrite Hhp. wp_step. apply (wp_stats_lists s L); [done|..].
  { intros l a Hl Ha. destruct (proj1 (Hin a)) as (e & ? & _); [|eauto].
    apply list_elem_of_In, in_concat. exists l. split; by apply list_elem_of_In. }
  destruct (stat_fold L (concat (free_head hp)) 0 0 0) as (g & E & _ & Hall & Hex); [lia| |].
  { intros a e _ Ha. apply (wf_blk _ _ (rep_wf _ _ HR) a e Ha). }
  change (0, 0, 0) with (u32 0, u64 0, 0). rewrite E, !Z.add_0_l. wp_step. apply HQ.
  destruct (inv_counts _ _ HI h hp Hhp) as [-> ->]. destruct (free_sums s L h hp HS Hhp) as [E1 E2].
  split; cbn; rewrite ?E1, ?E2; auto.
  - autorewrite with cint. done.
  - intros a e Ha Hst Heh. apply (Hall a e); [|done]. apply Hin. eauto.
  - destruct Hex as [->|(a & e & Ha & He & ->)]; [by left|right]. apply Hin in Ha as (e' & He' & ? & ?).
    assert (e' = e) as -> by congruence. exists a, e. auto.
Qed.

(** The statistics of a heap agree with its contents: the numbers of free and of
    allocated elements, the bytes in free elements, the size of the largest one, and the
    bytes in allocated elements as the difference to all bytes of the heap (counted
    modulo the widths of the fields); nothing is changed. *)
Theorem heap_stats_correct s L h :
  inv s L -> (h < length (heaps s))%nat -> wp (malloc_heap_get_stats h) (fun st s' => s' = s /\ stats_ok L h st) s.
Proof. intros HI Hh. apply (wp_get_stats s L); auto. Qed.

Lemma heap_stats_witness : exists L, inv (demo_state demo_prog 2) L /\
  wp (malloc_heap_get_stats 0) (fun st s' => s' = demo_state demo_prog 2 /\ stats_ok L 0 st) (demo_state demo_prog 2).
Proof.
  destruct (demo_run demo_prog 2 demo_disciplined) as (rs & L & B & _ & [HI Hh _ _ _ _] & _).
  exists L. split; [done|]. apply (heap_stats_correct _ L 0 HI). rewrite Hh. unfold RTE_MAX_NUMA_NODES. lia.
Defined.

(** ** Limits *)

(** Resizing to nothing does not release the block: it stays as it is. *)
Lemma realloc_zero_keeps env s L d n :
  inv s L -> live_block L d n ->
  wp (rte_realloc env (Some d) 0 64) (fun r s' => r = Done (Some d) /\ s' = s) s.
Proof.
  intros HI Hl. pose proof (sh_rep _ _ (inv_shape _ _ HI)) as HR. destruct (live_bounds s L d n HR Hl) as (Hdm & _ & Hd1 & Hd2).
  pose proof Hl as (a & e & Ha & Hb & Hpos & Ed & En). unfold MALLOC_ELEM_HEADER_LEN in *.
  pose proof (wf_blk _ _ (rep_wf _ _ HR) a e Ha) as W. destruct (bw_pad _ _ _ _ W) as [Hp1 Hp2].
  pose proof (bw_pad_room _ _ _ _ W Hb). pose proof (wf_size64 _ _ _ _ W Hpos).
  unfold rte_realloc. wp_step. rewrite Ed. apply (wp_from_data s L a e); auto. rewrite <- Ed.
  change (RTE_CACHE_LINE_ROUNDUP 64 0) with 0. change (RTE_CACHE_LINE_ROUNDUP 32 64) with 64.
  assert (RTE_PTR_ALIGN_CEIL d 64 = d) as ->.
  { unfold RTE_PTR_ALIGN_CEIL. rewrite (wrapu_small 32) by lia. rewrite u64_id by lia.
    change 64 with (2 ^ 6) at 2. rewrite align_floor by lia. change (2 ^ 6) with 64. Z.div_mod_to_equations. lia. }
  rewrite Z.eqb_refl. wp_step. unfold malloc_elem_resize. wp_step. apply (wp_get s L a e); auto.
  change MALLOC_ELEM_OVERHEAD with 64. rewrite (u64_id (0 + e_pad e + 64)) by lia.
  destruct (Z.leb_spec (0 + e_pad e + 64) (e_size e)); [|lia]. wp_step. done.
Qed.

(** With the default alignment a block is resized in place only if it happens to start
    at a multiple of four gigabytes: zero is not rounded up to a cache line, and the
    mask made from it covers 32 bits. *)
Lemma realloc_default_align p : 0 < p < 2 ^ 63 ->
  RTE_PTR_ALIGN_CEIL p (RTE_CACHE_LINE_ROUNDUP 32 0) = p <-> p mod 2 ^ 32 = 0.
Proof.
  intros Hp. change (RTE_CACHE_LINE_ROUNDUP 32 0) with 0. unfold RTE_PTR_ALIGN_CEIL, RTE_ALIGN_FLOOR.
  change (u32 (0 - 1)) with (2 ^ 32 - 1). rewrite u64_id by lia. rewrite land_lnot_ones by lia.
  change (2 ^ 32) with 4294967296. split; intros; Z.div_mod_to_equations; lia.
Qed.

(** A size that does not fit when it is rounded up becomes zero. *)
Lemma roundup_overflow size : 2 ^ 64 - 64 < size < 2 ^ 64 -> RTE_CACHE_LINE_ROUNDUP 64 size = 0.
Proof.
  intros Hs. unfold RTE_CACHE_LINE_ROUNDUP, RTE_CACHE_LINE_SIZE, wrapu.
  rewrite <- (Z.mod_unique (size + 64 - 1) (2 ^ 64) 1 (size + 63 - 2 ^ 64)) by lia.
  rewrite Z.div_small by lia. done.
Qed.

Definition big_segs : list rte_memseg := [Memseg 0x100000000 0x7f0000000000 (2 ^ 34) (2 ^ 30) 0].

Definition big_heap : mem_config :=
  match rte_eal_malloc_heap_init (fresh_config big_segs []) with Ret (_, s) => s | _ => fresh_config big_segs [] end.

(** Requests beyond the arithmetic of the allocator are not refused. For a size within
    64 of 2^64 the request is handled as one for zero bytes and a block is returned; for a
    size above the address of the heap the subtraction in [elem_start_pt] wraps around,
    the element seems to fit, and the allocator writes outside of the heap. *)
Theorem malloc_size_overflow :
  (forall h size flags align bound s, 2 ^ 64 - 64 < size < 2 ^ 64 ->
     malloc_heap_alloc h size flags align bound s = malloc_heap_alloc h 0 flags align bound s)
  /\ (exists p s', rte_malloc demo_eal (2 ^ 64 - 1) 0 big_heap = Ret (Some p, s')
       /\ rte_malloc_validate (Some p) s' = Ret (Some 0, s'))
  /\ rte_malloc demo_eal (2 ^ 62) 0 big_heap = Fault.
Proof.
  split_and!.
  - intros h size flags align bound s Hs. unfold malloc_heap_alloc. by rewrite (roundup_overflow size Hs).
  - eexists _, _. split; [vm_compute; reflexivity|vm_compute; reflexivity].
  - vm_compute. reflexivity.
Qed.

(** A block of four gigabytes and some, moved because of its alignment. *)
Definition big_prog : program := fun rs =>
  match rs with
  | [] => Some (MMalloc (2 ^ 32 + 64) 64)
  | [RPtr (Some d)] => Some (MStore d 1000 7)
  | [RPtr (Some d); RUnit] => Some (MLoad d 1000)
  | [RPtr (Some d); RUnit; _] => Some (MRealloc d (2 ^ 32 + 128) (2 ^ 30))
  | [_; _; _; RPtr (Some d)] => Some (MLoad d 1000)
  | _ => None
  end.

(** [rte_realloc] loses data of large blocks: the old size is kept in an [unsigned], so
    that of a block of 2^32 + 64 bytes only 64 bytes are carried over. *)
Theorem realloc_truncates :
  exists d d' s, drive demo_eal big_prog 5 [] big_heap
    = Ret ([RPtr (Some d); RUnit; RByte (Known 7); RPtr (Some d'); RByte (Known 0)], s) /\ d <> d'.
Proof. eexists _, _, _. split; [vm_compute; reflexivity|done]. Qed.
