(* ===== verification/Memzone.v ===== *)
(** librte_eal/common/eal_common_memzone.c: named portions of the memory of a heap.

    A zone is referred to by its index in the array of the configuration. Names are the
    bytes before the terminating zero. The locks around the operations are not
    modelled: operations run one after the other. *)
From Stdlib Require Import ZArith Lia.
From stdpp Require Import base numbers list gmap.
From S2P Require Import Prelude Ring Malloc.

#[local] Open Scope Z_scope.

Definition RTE_MAX_MEMZONE : Z := 2560.
Definition RTE_MEMZONE_NAMESIZE : Z := 32.
Definition SIZE_MAX : Z := 2 ^ 64 - 1.
Definition RTE_CACHE_LINE_MASK : Z := RTE_CACHE_LINE_SIZE - 1.
Definition ZE_NOSPC : Z := 28.
Definition ZE_EXIST : Z := 17.
Definition ZE_NAMETOOLONG : Z := 36.

Definition zero_zone : rte_memzone := Memzone [] 0 None 0 0 0 0 0.

(** [strncmp] of strings gives zero. *)
Definition strncmp_zero (n : Z) (a b : list Z) : bool :=
  bool_decide (take (Z.to_nat n) (a ++ [0]) = take (Z.to_nat n) (b ++ [0])).

Fixpoint find_zone (P : rte_memzone -> bool) (i : nat) (l : list rte_memzone) : option nat :=
  match l with
  | [] => None
  | z :: l => if P z then Some i else find_zone P (S i) l
  end.

Definition is_used (z : rte_memzone) : bool := match mz_addr z with Some _ => true | None => false end.

Definition memzone_lookup_thread_unsafe (name : list Z) : M mem_config (option nat) :=
  s ← gets id;
  mret (find_zone (fun mz => is_used mz && strncmp_zero RTE_MEMZONE_NAMESIZE name (mz_name mz)) 0 (memzone s)).

Definition get_next_free_memzone : M mem_config (option nat) :=
  s ← gets id; mret (find_zone (fun mz => negb (is_used mz)) 0 (memzone s)).

(** The loop of [find_heap_max_free_elem]; [best] is the socket found so far. *)
Fixpoint max_free_loop (l : list nat) (socket best len : Z) : M mem_config (Z * Z) :=
  match l with
  | [] => mret (best, len)
  | i :: l =>
    if negb (socket =? SOCKET_ID_ANY) && negb (socket =? Z.of_nat i) then max_free_loop l socket best len
    else
      st ← malloc_heap_get_stats i;
      if len <? greatest_free_size st then max_free_loop l socket (Z.of_nat i) (greatest_free_size st)
      else max_free_loop l socket best len
  end.

(** The new socket and the length. *)
Definition find_heap_max_free_elem (socket align : Z) : M mem_config (Z * Z) :=
  '(best, len) ← max_free_loop all_heaps socket socket 0;
  mret (best, if len <? u32 (MALLOC_ELEM_OVERHEAD + align) then 0 else u64 (len - MALLOC_ELEM_OVERHEAD - align)).

Section Memzone.
Context (env : eal_env).

(** The arguments after the checks: alignment, length in whole cache lines. *)
Definition zone_len (len : Z) : Z := Z.land (u64 (len + RTE_CACHE_LINE_MASK)) (u64 (Z.lnot RTE_CACHE_LINE_MASK)).

Definition zone_align (align : Z) : Z := if align <? RTE_CACHE_LINE_SIZE then RTE_CACHE_LINE_SIZE else align.

(** The zone is filled in. *)
Definition fill_zone (i : nat) (name : list Z) (mz_addr requested_len : Z) (elem : Z) : M mem_config (Z + nat) :=
  s ← gets id;
  modify (set_zones (u32 (memzone_cnt s + 1)) (memzone s)) ;;
  phys ← rte_malloc_virt2phy (Some mz_addr);
  e ← get_elem elem;
  ms ← elem_memseg e;
  let z := Memzone (take (Z.to_nat (RTE_MEMZONE_NAMESIZE - 1)) name) phys (Some mz_addr)
             (if requested_len =? 0 then e_size e else requested_len)
             (ms_hugepage_sz ms) (ms_socket_id ms) 0 (match e_ms e with Some k => Z.of_nat k | None => 0 end) in
  s ← gets id;
  modify (set_zones (memzone_cnt s) (<[i := z]> (memzone s))) ;;
  mret (inr i).

(** Allocation for a zone, from one heap or from all of them. *)
Definition zone_alloc (socket_id requested_len flags align bound : Z) : M mem_config (option Z) :=
  let socket := if socket_id =? SOCKET_ID_ANY then i32 (malloc_get_numa_socket env) else socket_id in
  mz_addr ← heap_alloc_on socket requested_len flags align bound;
  match mz_addr with
  | Some p => mret (Some p)
  | None => if socket_id =? SOCKET_ID_ANY then try_heaps all_heaps socket requested_len flags align bound else mret None
  end.

Definition memzone_reserve_aligned_thread_unsafe (name : list Z) (len socket_id flags align bound : Z) :
    M mem_config (Z + nat) :=
  s ← gets id;
  if RTE_MAX_MEMZONE <=? memzone_cnt s then mret (inl ZE_NOSPC)
  else if RTE_MEMZONE_NAMESIZE - 1 <? Z.of_nat (length name) then mret (inl ZE_NAMETOOLONG)
  else
    old ← memzone_lookup_thread_unsafe name;
    match old with
    | Some _ => mret (inl ZE_EXIST)
    | None =>
      if negb (align =? 0) && negb (rte_is_power_of_2 align) then mret (inl EINVAL)
      else
        let align := zone_align align in
        if SIZE_MAX - RTE_CACHE_LINE_MASK <? len then mret (inl EINVAL)
        else
          let len := zone_len len in
          let requested_len := Z.max RTE_CACHE_LINE_SIZE len in
          if negb (bound =? 0) && ((bound <? requested_len) || negb (rte_is_power_of_2 bound)) then mret (inl EINVAL)
          else if negb (socket_id =? SOCKET_ID_ANY) && ((RTE_MAX_NUMA_NODES <=? socket_id) || (socket_id <? 0))
          then mret (inl EINVAL)
          else
            let socket_id := if negb (eal_has_hugepages env) then SOCKET_ID_ANY else socket_id in
            '(socket_id, requested_len) ←
              (if len =? 0 then
                 if negb (bound =? 0) then mret (socket_id, bound) else find_heap_max_free_elem socket_id align
               else mret (socket_id, requested_len));
            if (len =? 0) && (bound =? 0) && (requested_len =? 0) then mret (inl ENOMEM)
            else
              mz_addr ← zone_alloc socket_id requested_len flags align bound;
              match mz_addr with
              | None => mret (inl ENOMEM)
              | Some p =>
                elem ← malloc_elem_from_data (Some p);
                mz ← get_next_free_memzone;
                match mz, elem with
                | Some i, Some elem => fill_zone i name p requested_len elem
                | _, _ => mret (inl ZE_NOSPC)
                end
              end
    end.

Definition rte_memzone_reserve_thread_safe (name : list Z) (len socket_id flags align bound : Z) : M mem_config (Z + nat) :=
  memzone_reserve_aligned_thread_unsafe name len socket_id flags align bound.

Definition rte_memzone_reserve_bounded (name : list Z) (len socket_id flags align bound : Z) : M mem_config (Z + nat) :=
  rte_memzone_reserve_thread_safe name len socket_id flags align bound.

Definition rte_memzone_reserve_aligned (name : list Z) (len socket_id flags align : Z) : M mem_config (Z + nat) :=
  rte_memzone_reserve_thread_safe name len socket_id flags align 0.

Definition rte_memzone_reserve (name : list Z) (len socket_id flags : Z) : M mem_config (Z + nat) :=
  rte_memzone_reserve_thread_safe name len socket_id flags RTE_CACHE_LINE_SIZE 0.

Definition rte_memzone_free (mz : option nat) : M mem_config (outcome Z) :=
  match mz with
  | None => mret (Done (- EINVAL))
  | Some idx =>
    s ← gets id;
    match memzone s !! idx with
    | None => fault
    | Some z =>
      match mz_addr z with
      | None => mret (Done (- EINVAL))
      | Some addr =>
        if memzone_cnt s =? 0 then mret Panic
        else
          modify (set_zones (u32 (memzone_cnt s - 1)) (<[idx := zero_zone]> (memzone s))) ;;
          r ← rte_free (Some addr);
          mret (match r with Done _ => Done 0 | Panic => Panic end)
      end
    end
  end.

Definition rte_memzone_lookup (name : list Z) : M mem_config (option nat) := memzone_lookup_thread_unsafe name.

(** The zones printed: up to the first unused entry. *)
Fixpoint dump_zones (i : nat) (l : list rte_memzone) : list nat :=
  match l with
  | [] => []
  | z :: l => if is_used z then i :: dump_zones (S i) l else []
  end.

Definition rte_memzone_dump : M mem_config (list nat) := s ← gets id; mret (dump_zones 0 (memzone s)).

(** The zones for which the function is called. *)
Fixpoint walk_zones (i : nat) (l : list rte_memzone) : list nat :=
  match l with
  | [] => []
  | z :: l => if is_used z then i :: walk_zones (S i) l else walk_zones (S i) l
  end.

Definition rte_memzone_walk : M mem_config (list nat) := s ← gets id; mret (walk_zones 0 (memzone s)).

Definition rte_eal_memzone_init (secondary : bool) : M mem_config Z :=
  if secondary then mret 0
  else
    modify (fun s => set_zones 0 (replicate (length (memzone s)) zero_zone) s) ;;
    rte_eal_malloc_heap_init.
End Memzone.
