(* ===== verification/MemzoneTable.v ===== *)
(** The table of memory zones: names, searching, counting, and its invariant. *)
From Stdlib Require Import ZArith Lia.
From stdpp Require Import base numbers list gmap.
From S2P Require Import Prelude Ring RingSpec Malloc MallocLayout MallocRep MallocAlloc MallocSpec MallocFree MallocApi MallocInit Memzone.

#[local] Open Scope Z_scope.

(** ** Powers of two *)

Lemma power_of_2_spec n : 0 < n < 2 ^ 32 -> rte_is_power_of_2 n = bool_decide (n = 2 ^ Z.log2 n).
Proof.
  intros Hn. unfold rte_is_power_of_2. destruct (Z.eqb_spec n 0); [lia|]. cbn [negb andb].
  pose proof (Z.log2_spec n ltac:(lia)) as [Hlo Hhi]. pose proof (Z.log2_nonneg n).
  assert (Z.log2 n < 32) by (apply Z.log2_lt_pow2; lia). case_bool_decide as E.
  - rewrite Z.land_comm. pose proof (log_powerof2 (Z.log2 n) ltac:(lia)) as HP. unfold POWEROF2 in HP. by rewrite <- E in HP.
  - rewrite wrapu_small by lia. apply Z.eqb_neq. intros Hz. assert (Z.testbit (Z.land n (n - 1)) (Z.log2 n) = true) as Hb; [|by rewrite Hz, Z.bits_0 in Hb].
    rewrite Z.land_spec, Z.bit_log2 by lia. cbn. rewrite <- (Z.log2_unique (n - 1) (Z.log2 n)); [|lia|lia].
    apply Z.bit_log2. assert (1 <= 2 ^ Z.log2 n) by (pose proof (pow2_pos (Z.log2 n)); lia). lia.
Qed.

(** ** Searching *)

Lemma find_zone_Some P k l i : find_zone P k l = Some i ->
  exists j z, i = (k + j)%nat /\ l !! j = Some z /\ P z = true
    /\ forall j' z', (j' < j)%nat -> l !! j' = Some z' -> P z' = false.
Proof.
  revert k. induction l as [|z l IH]; intros k; cbn; [done|]. destruct (P z) eqn:E.
  - intros [= <-]. exists 0%nat, z. split_and!; [lia|done..|]. intros; lia.
  - intros (j & z' & -> & Hj & HP & Hlt)%IH. exists (S j), z'. split_and!; [lia|done..|].
    intros [|j'] z'' Hj' Hz; [cbn in Hz; congruence|]. apply (Hlt j'); [lia|done].
Qed.

Lemma find_zone_None P k l : find_zone P k l = None <-> forall j z, l !! j = Some z -> P z = false.
Proof.
  revert k. induction l as [|z l IH]; intros k; cbn; [done|]. destruct (P z) eqn:E.
  - split; [done|]. intros H. specialize (H 0%nat z eq_refl). congruence.
  - rewrite IH. split; intros H.
    + intros [|j] z' Hz; [cbn in Hz; congruence|by apply (H j)].
    + intros j z' Hz. by apply (H (S j)).
Qed.

Lemma strncmp_name a b : 0 ∉ a -> (length b <= 31)%nat -> strncmp_zero RTE_MEMZONE_NAMESIZE a b = bool_decide (a = b).
Proof.
  intros Ha Hb. unfold strncmp_zero. change (Z.to_nat RTE_MEMZONE_NAMESIZE) with 32%nat.
  rewrite (take_ge (b ++ [0])) by (rewrite length_app; cbn; lia).
  apply bool_decide_ext. destruct (decide (length a <= 31)%nat).
  - rewrite take_ge by (rewrite length_app; cbn; lia). split; [by intros [? _]%app_inj_tail|by intros ->].
  - rewrite take_app_le by lia. split; [|intros ->; lia]. intros E. exfalso. apply Ha.
    rewrite <- (take_drop 32 a), E. set_solver.
Qed.

(** ** Counting *)

Fixpoint used_count (l : list rte_memzone) : Z :=
  match l with
  | [] => 0
  | z :: l => (if is_used z then 1 else 0) + used_count l
  end.

Lemma used_bounds l : 0 <= used_count l <= Z.of_nat (length l).
Proof. induction l as [|z l IH]; cbn; [lia|]. destruct (is_used z); lia. Qed.

Lemma used_insert l i z z' : l !! i = Some z ->
  used_count (<[i := z']> l) = used_count l - (if is_used z then 1 else 0) + (if is_used z' then 1 else 0).
Proof.
  revert i. induction l as [|y l IH]; intros [|i]; [done..| |].
  - intros [= ->]. cbn. lia.
  - intros Hi. change (<[S i := z']> (y :: l)) with (y :: <[i := z']> l). cbn [used_count]. rewrite (IH i) by done. lia.
Qed.

Lemma used_all l : (forall j z, l !! j = Some z -> is_used z = true) -> used_count l = Z.of_nat (length l).
Proof.
  induction l as [|z l IH]; intros H; cbn [used_count length]; [done|]. rewrite (H 0%nat z eq_refl), IH; [lia|].
  intros j z' Hz. by apply (H (S j)).
Qed.

Lemma used_pos l i z : l !! i = Some z -> is_used z = true -> 0 < used_count l.
Proof.
  revert i. induction l as [|y l IH]; intros [|i]; [done..| |]; cbn; pose proof (used_bounds l).
  - intros [= ->] ->. lia.
  - intros Hi Hu. pose proof (IH i Hi Hu). destruct (is_used y); lia.
Qed.

(** ** The invariant *)

(** The descriptor tells the truth about the block at [d]. *)
Record zone_ok (s : mem_config) (L : gmap Z malloc_elem) (z : rte_memzone) (d : Z) : Prop := ZoneOk {
  zk_name : (length (mz_name z) <= 31)%nat /\ 0 ∉ mz_name z;
  zk_block : exists n, live_block L d n /\ 0 < mz_len z <= n;
  zk_place : exists k ms, mz_memseg_id z = Z.of_nat k /\ memseg s !! k = Some ms
    /\ ms_addr ms <= d /\ d + mz_len z <= ms_addr ms + ms_len ms
    /\ mz_hugepage_sz z = ms_hugepage_sz ms /\ mz_socket_id z = ms_socket_id ms
    /\ mz_phys_addr z = if ms_phys_addr ms =? BAD_PHYS_ADDR then BAD_PHYS_ADDR else u64 (ms_phys_addr ms + (d - ms_addr ms))
}.

Record zones_ok (s : mem_config) (L : gmap Z malloc_elem) : Prop := ZonesOk {
  zo_inv : inv s L;
  zo_layout : layout_ok (memseg s);
  zo_heaps : length (heaps s) = Z.to_nat RTE_MAX_NUMA_NODES;
  zo_len : length (memzone s) = Z.to_nat RTE_MAX_MEMZONE;
  zo_cnt : memzone_cnt s = used_count (memzone s);
  zo_zone : forall i z d, memzone s !! i = Some z -> mz_addr z = Some d -> zone_ok s L z d;
  zo_inj : forall i j z z' d d', memzone s !! i = Some z -> memzone s !! j = Some z' -> mz_addr z = Some d -> mz_addr z' = Some d' ->
    i <> j -> mz_name z <> mz_name z' /\ d <> d'
}.

Lemma is_used_addr z : is_used z = true <-> exists d, mz_addr z = Some d.
Proof. unfold is_used. destruct (mz_addr z); naive_solver. Qed.

(** The name is in use. *)
Definition name_used (s : mem_config) (name : list Z) : Prop :=
  exists i z d, memzone s !! i = Some z /\ mz_addr z = Some d /\ mz_name z = name.

(** Searching by name gives the one zone of that name. *)
Lemma lookup_spec s L name : zones_ok s L -> 0 ∉ name ->
  match find_zone (fun mz => is_used mz && strncmp_zero RTE_MEMZONE_NAMESIZE name (mz_name mz)) 0 (memzone s) with
  | Some i => exists z d, memzone s !! i = Some z /\ mz_addr z = Some d /\ mz_name z = name
  | None => ~ name_used s name
  end.
Proof.
  intros HZ Hn. assert (forall i z d, memzone s !! i = Some z -> mz_addr z = Some d ->
    strncmp_zero RTE_MEMZONE_NAMESIZE name (mz_name z) = bool_decide (name = mz_name z)) as Hcmp.
  { intros i z d Hi Hd. apply strncmp_name; [done|]. apply (zk_name s L z d). by apply (zo_zone _ _ HZ i). }
  destruct (find_zone _ _ _) as [i|] eqn:E.
  - apply find_zone_Some in E as (j & z & -> & Hj & [Hu Hs]%andb_true_iff & _). apply is_used_addr in Hu as [d Hd].
    exists z, d. rewrite (Hcmp j z d Hj Hd) in Hs. apply bool_decide_eq_true in Hs. auto.
  - intros (i & z & d & Hi & Hd & <-). pose proof (proj1 (find_zone_None _ _ _) E i z Hi) as Hf. cbn in Hf.
    rewrite (Hcmp i z d Hi Hd), bool_decide_eq_true_2, andb_true_r in Hf by done.
    assert (is_used z = true) by (apply is_used_addr; eauto). congruence.
Qed.

(** The descriptors are outside of the heaps. *)
Lemma inv_zones s L n l : inv s L -> inv (set_zones n l s) L.
Proof.
  intros [[HR Hp Hc Hco Hl Hh] HC HD]. split; [split|..]; auto. destruct HR. by split.
Qed.

(** A zone stays valid while its block does. *)
Lemma zone_ok_mono s L s' L' z d :
  zone_ok s L z d -> memseg s' = memseg s -> (forall n, live_block L d n -> live_block L' d n) -> zone_ok s' L' z d.
Proof. intros [Hn (n & Hl & Hlen) Hp] Hs Hk. split; [done| |by rewrite Hs]. exists n. auto. Qed.
