(* ===== verification/MemzoneSpec.v ===== *)
(** Reserving and releasing memory zones. *)
From Stdlib Require Import ZArith Lia.
From stdpp Require Import base numbers list gmap.
From S2P Require Import Prelude Ring RingSpec Malloc MallocLayout MallocRep MallocAlloc MallocSpec MallocFree MallocApi MallocInit MallocProps MallocRealloc MallocClient MallocStats Memzone MemzoneTable.

#[local] Open Scope Z_scope.

(** ** Taking memory *)

(** No free element of the heap that is good enough for the flags has a place. *)
Definition zone_no_room (s : mem_config) (L : gmap Z malloc_elem) (size flags align bound : Z) (h : nat) : Prop :=
  forall a e q, L !! a = Some e -> e_state e = ELEM_FREE -> e_heap e = Some h -> fits a (e_size e) size align bound q ->
    ~ page_ok s L flags a /\ Z.land flags RTE_MEMZONE_SIZE_HINT_ONLY = 0.

Lemma roundup_same x : 0 <= x < 2 ^ 63 -> x mod 64 = 0 -> RTE_CACHE_LINE_ROUNDUP 64 x = x.
Proof. intros Hx Hm. destruct (roundup_props x ltac:(lia)). Z.div_mod_to_equations. lia. Qed.

Lemma pow2_mod64 k : 6 <= k -> 2 ^ k mod 64 = 0.
Proof. intros Hk. replace k with ((k - 6) + 6) by lia. rewrite Z.pow_add_r by lia. apply Z.mod_mul. lia. Qed.

(** A request for a zone: whole cache lines. *)
Record zone_request (segs : list rte_memseg) (size align bound : Z) : Prop := ZoneRequest {
  zr_request : request segs size align bound;
  zr_size : 0 < size < 2 ^ 63;
}.

Section Reserve.
Context (s : mem_config) (L : gmap Z malloc_elem).
Hypothesis HZ : zones_ok s L.

Lemma wp_zone_heap h size flags align bound (Q : option Z -> mem_config -> Prop) :
  zone_request (memseg s) size align bound -> (h < length (heaps s))%nat ->
  ((bound = 0 \/ align <= bound -> zone_no_room s L size flags align bound h) -> Q None s) ->
  (forall d s' L', alloc_ok s L h size flags align bound d s' L' -> Q (Some d) s') ->
  wp (malloc_heap_alloc h size flags align bound) Q s.
Proof.
  intros [Hrq Hsz] Hh HN HY. pose proof (zo_inv _ _ HZ) as HI. pose proof (sh_rep _ _ (inv_shape _ _ HI)) as HR.
  pose proof Hrq as [[Hsm _] (k & Ek & Hk) Hb _]. pose proof (pow2_mod64 k ltac:(lia)).
  pose proof (pow2_pos k ltac:(lia)). assert (2 ^ k <= 2 ^ 31) by (apply Z.pow_le_mono_r; lia).
  assert (RTE_CACHE_LINE_ROUNDUP 64 size = size) as Es by (apply roundup_same; lia).
  assert (RTE_CACHE_LINE_ROUNDUP 64 align = align) as Ea by (apply roundup_same; subst align; [lia|done]).
  apply (wp_heap_alloc s L); rewrite ?Es, ?Ea; auto.
  intros Hno. apply HN. intros Hab a e q Ha Hst Heh Hq. apply (Hno a e); auto. exists e. split; [done|].
  pose proof (free_size_pos _ _ _ _ (rep_wf _ _ HR) Ha Hst).
  rewrite (request_start (memseg s) L) by (auto; apply HR). subst align. apply (start_pt_complete _ _ _ _ _ q); [lia..| |done].
  destruct Hb as [->|(j & -> & Hj & Hjs)]; [by left|right]. exists j. split_and!; [done| |lia].
  destruct Hab as [?|Hab]; [pose proof (pow2_pos j); lia|]. apply (Z.pow_le_mono_r_iff 2); lia.
Qed.

Lemma wp_zone_alloc env socket_id size flags align bound (Q : option Z -> mem_config -> Prop) :
  env_ok env -> zone_request (memseg s) size align bound -> SOCKET_ID_ANY <= socket_id < RTE_MAX_NUMA_NODES ->
  ((bound = 0 \/ align <= bound -> forall h, (h < Z.to_nat RTE_MAX_NUMA_NODES)%nat ->
      socket_id = SOCKET_ID_ANY \/ socket_id = Z.of_nat h -> zone_no_room s L size flags align bound h) -> Q None s) ->
  (forall h d s' L', socket_id = SOCKET_ID_ANY \/ socket_id = Z.of_nat h ->
     alloc_ok s L h size flags align bound d s' L' -> Q (Some d) s') ->
  wp (zone_alloc env socket_id size flags align bound) Q s.
Proof.
  intros Henv Hrq Hsock HN HY. destruct (env_home env Henv) as [Hhome Ei]. unfold zone_alloc, heap_alloc_on. rewrite Ei.
  pose proof (zo_heaps _ _ HZ) as Hlen. unfold SOCKET_ID_ANY, RTE_MAX_NUMA_NODES in *. wp_step.
  destruct (Z.eqb_spec socket_id (-1)) as [E|E].
  - destruct (Z.ltb_spec (malloc_get_numa_socket env) 0); [lia|]. apply wp_zone_heap; auto; [lia| |].
    + intros Hhm. apply (wp_try_each _ _ _ _ _ _ _ (fun h => bound = 0 \/ align <= bound -> zone_no_room s L size flags align bound h)
        (fun h d s' => exists L', alloc_ok s L h size flags align bound d s' L')).
      * intros i R Hi HNi HYi. apply elem_of_seq in Hi. unfold RTE_MAX_NUMA_NODES in Hi.
        apply wp_zone_heap; eauto; rewrite Hlen; lia.
      * intros Hno. apply HN. intros Hab h Hh _. destruct (decide (Z.of_nat h = malloc_get_numa_socket env)) as [Eh|].
        -- assert (h = Z.to_nat (malloc_get_numa_socket env)) as -> by lia. auto.
        -- apply Hno; auto. apply elem_of_seq. unfold RTE_MAX_NUMA_NODES. lia.
      * intros i d s' Hi [L' HA]. eauto.
    + intros d s' L' HA. wp_step. eauto.
  - destruct (Z.ltb_spec socket_id 0); [lia|]. apply wp_zone_heap; auto; [lia| |].
    + intros Hno. wp_step. apply HN. intros Hab h Hh [?|Eh]; [done|]. assert (h = Z.to_nat socket_id) as -> by lia. auto.
    + intros d s' L' HA. wp_step. apply (HY (Z.to_nat socket_id) d s' L'); [right; lia|done].
Qed.

(** ** The largest free element *)

(** [len] is the size of the largest free element of the heaps [P]. *)
Definition largest (P : nat -> Prop) (best len : Z) : Prop :=
  (forall a e h, L !! a = Some e -> e_state e = ELEM_FREE -> e_heap e = Some h -> P h -> e_size e <= len) /\
  (0 < len -> exists a e h, L !! a = Some e /\ e_state e = ELEM_FREE /\ e_heap e = Some h /\ P h
     /\ best = Z.of_nat h /\ e_size e = len).

Lemma wp_max_free_loop l socket P best len (Q : Z * Z -> mem_config -> Prop) :
  (forall i, i ∈ l -> (i < length (heaps s))%nat) -> 0 <= len -> largest P best len -> (len = 0 -> best = socket) ->
  (forall best' len', 0 <= len' -> (len' = 0 -> best' = socket) ->
     largest (fun h => P h \/ h ∈ l /\ (socket = SOCKET_ID_ANY \/ socket = Z.of_nat h)) best' len' -> Q (best', len') s) ->
  wp (max_free_loop l socket best len) Q s.
Proof.
  revert P best len. induction l as [|i l IH]; intros P best len Hl Hlen HM Hb HQ; cbn [max_free_loop].
  { wp_step. apply HQ; auto. destruct HM as [H1 H2]. split; [|naive_solver].
    intros a e h ? ? ? [?|[? _]]; [eauto|set_solver]. }
  destruct (negb (socket =? SOCKET_ID_ANY) && negb (socket =? Z.of_nat i)) eqn:E.
  - apply andb_true_iff in E as [E1%negb_true_iff%Z.eqb_neq E2%negb_true_iff%Z.eqb_neq].
    apply (IH P); [set_solver|done..|]. intros b' l' Hl' Hb' [H1 H2]. apply HQ; auto. split; [|set_solver].
    intros a e h ? ? ? [?|[Hin ?]]; [eauto|]. apply (H1 a e h); auto. right.
    apply elem_of_cons in Hin as [->|?]; [naive_solver|auto].
  - assert (socket = SOCKET_ID_ANY \/ socket = Z.of_nat i) as Hs.
    { destruct (Z.eqb_spec socket SOCKET_ID_ANY), (Z.eqb_spec socket (Z.of_nat i)); auto; done. }
    wp_step. apply (wp_get_stats s L); [apply HZ|apply Hl; set_solver|]. intros st Hst.
    pose proof (so_greatest _ _ _ Hst) as Hg. pose proof (so_attained _ _ _ Hst) as Ha. destruct HM as [H1 H2].
    set (P' := fun h => P h \/ h = i).
    assert (forall best' len', largest (fun h => P' h \/ h ∈ l /\ (socket = SOCKET_ID_ANY \/ socket = Z.of_nat h)) best' len' ->
      largest (fun h => P h \/ h ∈ i :: l /\ (socket = SOCKET_ID_ANY \/ socket = Z.of_nat h)) best' len') as Hext.
    { intros b' l' [H1' H2']. unfold P' in *. split.
      - intros a e h ? ? ? Hh. apply (H1' a e h); auto. destruct Hh as [?|[Hin ?]]; [auto|].
        apply elem_of_cons in Hin as [->|?]; auto.
      - intros Hp. destruct (H2' Hp) as (a & e & h & ? & ? & ? & Hh & ? & ?). exists a, e, h. split_and!; auto.
        destruct Hh as [[?| ->]|[? ?]]; [auto|right; split; [set_solver|done]|right; split; [set_solver|done]]. }
    destruct (Z.ltb_spec len (greatest_free_size st)).
    + apply (IH P'); [set_solver|lia| |lia|intros; apply HQ; auto]. split.
      * intros a e h ? ? ? [?| ->]; [|eauto]. specialize (H1 a e h). naive_solver lia.
      * intros _. destruct Ha as [?|(a & e & ? & ? & ? & ?)]; [lia|]. exists a, e, i. unfold P'. auto 10.
    + apply (IH P'); [set_solver|lia| |done|intros; apply HQ; auto]. split.
      * intros a e h ? ? ? [?| ->]; [eauto|]. specialize (Hg a e). naive_solver lia.
      * intros Hp. destruct (H2 Hp) as (a & e & h & ?). exists a, e, h. unfold P'. naive_solver.
Qed.

Lemma elem_in_seg a e : L !! a = Some e -> e_state e = ELEM_FREE ->
  exists k ms, e_ms e = Some k /\ memseg s !! k = Some ms /\ e_heap e = Some (Z.to_nat (ms_socket_id ms))
    /\ ms_addr ms <= a /\ a + e_size e <= ms_addr ms + ms_len ms /\ 64 <= e_size e /\ e_size e mod 64 = 0.
Proof.
  intros Ha Hst. pose proof (sh_rep _ _ (inv_shape _ _ (zo_inv _ _ HZ))) as HR. pose proof (rep_wf _ _ HR) as HL.
  pose proof (wf_blk _ _ HL a e Ha) as W. pose proof (free_size_pos _ _ _ _ HL Ha Hst) as Hpos.
  pose proof (wf_size64 _ _ _ _ W Hpos). pose proof (bw_size _ _ _ _ W).
  destruct (bw_seg _ _ _ _ W) as (k & ms & ? & Hms & ? & ? & Hup & _). rewrite extent_size in Hup by lia.
  exists k, ms. split_and!; auto.
Qed.

Lemma wp_find_max socket align (Q : Z * Z -> mem_config -> Prop) :
  0 <= align <= 2 ^ 31 ->
  (forall best len, 0 <= len -> (len = 0 -> best = socket) ->
     largest (fun h => (h < Z.to_nat RTE_MAX_NUMA_NODES)%nat /\ (socket = SOCKET_ID_ANY \/ socket = Z.of_nat h)) best len ->
     Q (best, Z.max 0 (len - 64 - align)) s) ->
  wp (find_heap_max_free_elem socket align) Q s.
Proof.
  intros Hal HQ. unfold find_heap_max_free_elem. wp_step. apply (wp_max_free_loop _ _ (fun _ => False)); [|lia| |done|].
  - intros i Hi. apply elem_of_seq in Hi. rewrite (zo_heaps _ _ HZ). lia.
  - split; [done|lia].
  - intros best len Hlen Hb [H1 H2]. wp_step.
    replace (if len <? _ then _ else _) with (Z.max 0 (len - 64 - align)); [apply HQ; auto|].
    + split.
      * intros a e h ? ? ? [? ?]. apply (H1 a e h); auto. right. split; [|done]. apply elem_of_seq. lia.
      * intros Hp. destruct (H2 Hp) as (a & e & h & ? & ? & ? & [[]|[Hh ?]] & ? & ?). exists a, e, h.
        apply elem_of_seq in Hh. split_and!; auto. lia.
    + change MALLOC_ELEM_OVERHEAD with 64. rewrite (wrapu_small 32) by lia.
      destruct (Z.ltb_spec len (64 + align)); [lia|]. rewrite u64_id; [lia|].
      split; [lia|]. destruct (decide (len = 0)) as [->|]; [lia|]. destruct (H2 ltac:(lia)) as (a & e & h & Ha & Hst & _ & _ & _ & <-).
      destruct (elem_in_seg a e Ha Hst) as (k & ms & _ & Hms & _ & ? & ? & _).
      destruct (lo_seg _ (zo_layout _ _ HZ) k ms Hms) as (? & _ & _ & ? & _). lia.
Qed.
End Reserve.

(** ** Filling in the descriptor *)

Definition new_zone (name : list Z) (d len : Z) (k : nat) (ms : rte_memseg) : rte_memzone :=
  Memzone name (if ms_phys_addr ms =? BAD_PHYS_ADDR then BAD_PHYS_ADDR else u64 (ms_phys_addr ms + (d - ms_addr ms)))
    (Some d) len (ms_hugepage_sz ms) (ms_socket_id ms) 0 (Z.of_nat k).

Lemma wp_elem_memseg s e k ms (Q : rte_memseg -> mem_config -> Prop) :
  e_ms e = Some k -> memseg s !! k = Some ms -> Q ms s -> wp (elem_memseg e) Q s.
Proof. intros Hk Hms HQ. unfold elem_memseg, id. wp_step. rewrite Hk, Hms. by wp_step. Qed.

Lemma wp_virt2phy s L a e k ms (Q : Z -> mem_config -> Prop) :
  inv s L -> L !! a = Some e -> e_state e = ELEM_BUSY -> 0 < e_size e -> e_ms e = Some k -> memseg s !! k = Some ms ->
  Q (if ms_phys_addr ms =? BAD_PHYS_ADDR then BAD_PHYS_ADDR else u64 (ms_phys_addr ms + (a + e_pad e + 64 - ms_addr ms))) s ->
  wp (rte_malloc_virt2phy (Some (a + e_pad e + 64))) Q s.
Proof.
  intros HI Ha Hb Hpos Hk Hms HQ. unfold rte_malloc_virt2phy. wp_step. apply (wp_from_data s L a e); auto.
  pose proof (sh_rep _ _ (inv_shape _ _ HI)) as HR. wp_step. apply (wp_get s L a e); auto. wp_step.
  apply (wp_elem_memseg s e k ms); auto. wp_step. by autorewrite with cint.
Qed.

Lemma wp_fill_zone s L i name a e k ms req (Q : Z + nat -> mem_config -> Prop) :
  inv s L -> L !! a = Some e -> e_state e = ELEM_BUSY -> 0 < e_size e -> e_ms e = Some k -> memseg s !! k = Some ms ->
  0 < req -> (length name <= 31)%nat -> 0 <= memzone_cnt s < RTE_MAX_MEMZONE ->
  Q (inr i) (set_zones (memzone_cnt s + 1) (<[i := new_zone name (a + e_pad e + 64) req k ms]> (memzone s)) s) ->
  wp (fill_zone i name (a + e_pad e + 64) req a) Q s.
Proof.
  intros HI Ha Hb Hpos Hk Hms Hreq Hn Hc HQ. unfold fill_zone, id. wp_step.
  unfold RTE_MAX_MEMZONE in Hc. rewrite wrapu_small by lia. set (s1 := set_zones _ _ s).
  assert (inv s1 L) as HI1 by (by apply inv_zones). pose proof (sh_rep _ _ (inv_shape _ _ HI1)) as HR.
  apply (wp_virt2phy s1 L a e k ms); auto. wp_step. apply (wp_get s1 L a e); auto. wp_step.
  apply (wp_elem_memseg s1 e k ms); auto. wp_step. destruct (Z.eqb_spec req 0); [lia|]. rewrite Hk.
  change (Z.to_nat (RTE_MEMZONE_NAMESIZE - 1)) with 31%nat. rewrite take_ge by done. done.
Qed.

(** A zone at a free entry keeps the table valid. *)
Lemma zones_ok_add s L s' L' i old z d :
  zones_ok s L -> inv s' L' -> memseg s' = memseg s -> length (heaps s') = length (heaps s) ->
  memzone s !! i = Some old -> mz_addr old = None -> mz_addr z = Some d -> zone_ok s' L' z d ->
  mz_name z ∉ (mz_name <$> filter (fun z => is_used z = true) (memzone s)) ->
  (forall n, ~ live_block L d n) -> (forall d' n', live_block L d' n' -> live_block L' d' n') ->
  memzone_cnt s' = memzone_cnt s + 1 -> memzone s' = <[i := z]> (memzone s) ->
  zones_ok s' L'.
Proof.
  intros HZ HI Hseg Hh Hi Ho Hz Hzk Hname Hnl Hlive Hc Hm. pose proof (lookup_lt_Some _ _ _ Hi).
  assert (forall j y c, <[i := z]> (memzone s) !! j = Some y -> mz_addr y = Some c ->
    (j = i /\ y = z /\ c = d) \/ (j <> i /\ memzone s !! j = Some y)) as Hcase.
  { intros j y c [(-> & <- & _)|[? ?]]%list_lookup_insert_Some Hy; [left; split_and!; congruence|auto]. }
  assert (forall j y c, memzone s !! j = Some y -> mz_addr y = Some c -> mz_name y <> mz_name z /\ c <> d) as Hold.
  { intros j y c Hj Hy. split.
    - intros E. apply Hname. rewrite <- E. apply list_elem_of_fmap_2, list_elem_of_filter. split; [|by eapply list_elem_of_lookup_2].
      apply is_used_addr. eauto.
    - intros ->. destruct (zk_block _ _ _ _ (zo_zone _ _ HZ j y d Hj Hy)) as (n & Hl & _). by apply (Hnl n). }
  split; auto.
  - rewrite Hseg. apply HZ.
  - rewrite Hh. apply HZ.
  - rewrite Hm, length_insert. apply HZ.
  - rewrite Hc, Hm, (used_insert _ _ old) by done. rewrite (zo_cnt _ _ HZ). unfold is_used. rewrite Ho, Hz. lia.
  - rewrite Hm. intros j y c Hj Hy. destruct (Hcase j y c Hj Hy) as [(-> & -> & ->)|[_ Hj']]; [done|].
    apply (zone_ok_mono s L); auto. by apply (zo_zone _ _ HZ j).
  - rewrite Hm. intros j j' y y' c c' Hj Hj' Hy Hy' Hne.
    destruct (Hcase j y c Hj Hy) as [(-> & -> & ->)|[_ Hs]], (Hcase j' y' c' Hj' Hy') as [(-> & -> & ->)|[_ Hs']].
    + done.
    + destruct (Hold j' y' c' Hs' Hy'). auto.
    + destruct (Hold j y c Hs Hy). auto.
    + by apply (zo_inj _ _ HZ j j').
Qed.
