(* ===== verification/MemzoneProps.v ===== *)
(** Memory zones: reserving, searching and releasing them. *)
From Stdlib Require Import ZArith Lia.
From stdpp Require Import base numbers list gmap.
From S2P Require Import Prelude Ring RingSpec Malloc MallocLayout MallocRep MallocAlloc MallocSpec MallocFree MallocApi MallocInit MallocProps MallocRealloc MallocClient MallocStats Memzone MemzoneTable MemzoneSpec.

#[local] Open Scope Z_scope.

(** ** Requests *)

Definition round64 (len : Z) : Z := 64 * ((len + 63) / 64).

(** The requests that are not refused whatever the state is. *)
Definition valid_request (len socket align bound : Z) : Prop :=
  (align = 0 \/ align = 2 ^ Z.log2 align) /\ len <= SIZE_MAX - 63
  /\ (bound = 0 \/ bound = 2 ^ Z.log2 bound /\ Z.max 64 (round64 len) <= bound)
  /\ SOCKET_ID_ANY <= socket < RTE_MAX_NUMA_NODES.

#[global] Instance valid_request_dec len socket align bound : Decision (valid_request len socket align bound).
Proof. unfold valid_request. apply _. Defined.

Definition used_names (s : mem_config) : list (list Z) := mz_name <$> filter (fun z => is_used z = true) (memzone s).

(** The error of a request that is refused. *)
Definition zone_error (s : mem_config) (name : list Z) (len socket align bound : Z) : option Z :=
  if decide (used_count (memzone s) = RTE_MAX_MEMZONE) then Some ZE_NOSPC
  else if decide (31 < length name)%nat then Some ZE_NAMETOOLONG
  else if decide (name ∈ used_names s) then Some ZE_EXIST
  else if decide (valid_request len socket align bound) then None
  else Some EINVAL.

(** The segments are high enough for pointers to be decreased by sizes. *)
Definition zone_room (segs : list rte_memseg) (len : Z) : Prop :=
  len < 2 ^ 62 /\ forall j k mj mk, segs !! j = Some mj -> segs !! k = Some mk -> Z.max len (ms_len mj) + 2 ^ 34 <= ms_addr mk.

(** Values of the types of the arguments. *)
Record zone_args (name : list Z) (len socket align bound : Z) : Prop := ZoneArgs {
  zg_name : 0 ∉ name;
  zg_len : 0 <= len < 2 ^ 64;
  zg_align : 0 <= align < 2 ^ 32;
  zg_bound : 0 <= bound < 2 ^ 32
}.

(** ** The checks *)

Lemma name_used_names s name : name_used s name <-> name ∈ used_names s.
Proof.
  unfold used_names. rewrite list_elem_of_fmap. split.
  - intros (i & z & d & Hi & Hd & <-). exists z. split; [done|]. apply list_elem_of_filter.
    split; [apply is_used_addr; eauto|by eapply list_elem_of_lookup_2].
  - intros (z & -> & [[d Hd]%is_used_addr [i Hi]%list_elem_of_lookup]%list_elem_of_filter). exists i, z, d. auto.
Qed.

Lemma zone_len_round len : 0 <= len <= SIZE_MAX - 63 -> zone_len len = round64 len.
Proof.
  intros Hl. unfold zone_len, RTE_CACHE_LINE_MASK, RTE_CACHE_LINE_SIZE, round64, SIZE_MAX in *. rewrite u64_id by lia.
  change (64 - 1) with (2 ^ 6 - 1). rewrite land_lnot_ones by lia. done.
Qed.

Lemma round64_props len : 0 <= len -> len <= round64 len < len + 64 /\ round64 len mod 64 = 0 /\ (round64 len = 0 <-> len = 0).
Proof.
  intros Hl. unfold round64. split; [Z.div_mod_to_equations; lia|].
  split; [rewrite Z.mul_comm; apply Z.mod_mul; lia|Z.div_mod_to_equations; lia].
Qed.

Lemma check_power n : 0 <= n < 2 ^ 32 -> negb (n =? 0) && negb (rte_is_power_of_2 n) = negb (bool_decide (n = 0 \/ n = 2 ^ Z.log2 n)).
Proof.
  intros Hn. destruct (Z.eqb_spec n 0) as [->|Hne]; [done|]. rewrite power_of_2_spec by lia. cbn [negb andb]. f_equal.
  apply bool_decide_ext. naive_solver.
Qed.

Lemma check_bound bound req : 0 <= bound < 2 ^ 32 ->
  negb (bound =? 0) && ((bound <? req) || negb (rte_is_power_of_2 bound))
  = negb (bool_decide (bound = 0 \/ bound = 2 ^ Z.log2 bound /\ req <= bound)).
Proof.
  intros Hn. destruct (Z.eqb_spec bound 0) as [->|Hne]; [done|]. rewrite power_of_2_spec by lia. cbn [negb andb].
  destruct (Z.ltb_spec bound req).
  - cbn [orb]. rewrite bool_decide_eq_false_2 by lia. done.
  - cbn [orb]. f_equal. apply bool_decide_ext. naive_solver lia.
Qed.

Lemma check_socket socket :
  negb (socket =? SOCKET_ID_ANY) && ((RTE_MAX_NUMA_NODES <=? socket) || (socket <? 0))
  = negb (bool_decide (SOCKET_ID_ANY <= socket < RTE_MAX_NUMA_NODES)).
Proof.
  unfold SOCKET_ID_ANY, RTE_MAX_NUMA_NODES.
  destruct (Z.eqb_spec socket (-1)), (Z.leb_spec 8 socket), (Z.ltb_spec socket 0); cbn; case_bool_decide; cbn; lia || done.
Qed.

(** The part of [memzone_reserve_aligned_thread_unsafe] after its checks. *)
Definition reserve_body (env : eal_env) (name : list Z) (len socket_id flags align bound : Z) : M mem_config (Z + nat) :=
  '(socket_id, requested_len) ←
    (if len =? 0 then
       if negb (bound =? 0) then mret (socket_id, bound) else find_heap_max_free_elem socket_id align
     else mret (socket_id, Z.max RTE_CACHE_LINE_SIZE len));
  if (len =? 0) && (bound =? 0) && (requested_len =? 0) then mret (inl ENOMEM)
  else
    mz_addr ← zone_alloc env socket_id requested_len flags align bound;
    match mz_addr with
    | None => mret (inl ENOMEM)
    | Some p =>
      elem ← malloc_elem_from_data (Some p);
      mz ← get_next_free_memzone;
      match mz, elem with
      | Some i, Some elem => fill_zone i name p requested_len elem
      | _, _ => mret (inl ZE_NOSPC)
      end
    end.

Definition zone_socket (env : eal_env) (socket_id : Z) : Z := if negb (eal_has_hugepages env) then SOCKET_ID_ANY else socket_id.

Lemma wp_reserve_checks env s L name len socket flags align bound (Q : Z + nat -> mem_config -> Prop) :
  zones_ok s L -> zone_args name len socket align bound ->
  match zone_error s name len socket align bound with
  | Some err => Q (inl err) s
  | None => wp (reserve_body env name (round64 len) (zone_socket env socket) flags (zone_align align) bound) Q s
  end ->
  wp (memzone_reserve_aligned_thread_unsafe env name len socket flags align bound) Q s.
Proof.
  intros HZ [Hn Hl Ha Hb] HQ. unfold memzone_reserve_aligned_thread_unsafe, memzone_lookup_thread_unsafe, id. wp_step.
  unfold zone_error in HQ. rewrite (zo_cnt _ _ HZ). pose proof (used_bounds (memzone s)). pose proof (zo_len _ _ HZ) as Hlen.
  unfold RTE_MAX_MEMZONE in *. destruct (Z.leb_spec 2560 (used_count (memzone s))).
  { rewrite decide_True in HQ by lia. by wp_step. }
  rewrite decide_False in HQ by lia. change (RTE_MEMZONE_NAMESIZE - 1) with 31.
  destruct (Z.ltb_spec 31 (Z.of_nat (length name))).
  { rewrite decide_True in HQ by lia. by wp_step. }
  rewrite decide_False in HQ by lia. wp_step. pose proof (lookup_spec s L name HZ Hn) as Hlk.
  destruct (find_zone _ _ _) as [i|].
  { destruct Hlk as (z & d & ? & ? & ?). rewrite decide_True in HQ by (apply name_used_names; exists i, z, d; auto). by wp_step. }
  rewrite decide_False in HQ by (by rewrite <- name_used_names). rewrite check_power by lia.
  unfold valid_request in HQ.
  case_bool_decide as Ea; cbn [negb]; [|rewrite decide_False in HQ by tauto; by wp_step].
  change RTE_CACHE_LINE_MASK with 63. destruct (Z.ltb_spec (SIZE_MAX - 63) len).
  { rewrite decide_False in HQ by lia. by wp_step. }
  rewrite zone_len_round by lia. rewrite check_bound by lia. change RTE_CACHE_LINE_SIZE with 64 in *.
  case_bool_decide as Eb; cbn [negb]; [|rewrite decide_False in HQ by tauto; by wp_step].
  rewrite check_socket. case_bool_decide as Es; cbn [negb]; [|rewrite decide_False in HQ by tauto; by wp_step].
  rewrite decide_True in HQ by tauto. exact HQ.
Qed.

(** ** Reserving *)

(** Entry [i] of the table became the zone [z] of [req] bytes at [d]. *)
Record reserved (s : mem_config) (L : gmap Z malloc_elem) (sid : Z) (name : list Z) (req flags align bound : Z)
    (i : nat) (z : rte_memzone) (d : Z) (s' : mem_config) (L' : gmap Z malloc_elem) : Prop := Reserved {
  rs_zones : zones_ok s' L';
  rs_entry : exists old, memzone s !! i = Some old /\ mz_addr old = None;
  rs_table : memzone s' = <[i := z]> (memzone s);
  rs_zone : mz_name z = name /\ mz_addr z = Some d /\ mz_len z = req;
  rs_place : d mod align = 0 /\ (bound <> 0 -> d / bound = (d + req - 1) / bound);
  rs_zeroed : zeroed s' d req;
  rs_fresh : forall n, ~ live_block L d n;
  rs_socket : 0 <= mz_socket_id z < RTE_MAX_NUMA_NODES /\ (sid = SOCKET_ID_ANY \/ sid = mz_socket_id z);
  rs_pages : check_hugepage_sz flags (mz_hugepage_sz z) <> 0 \/ Z.land flags RTE_MEMZONE_SIZE_HINT_ONLY <> 0;
  rs_live : forall d' n', live_block L' d' n' -> live_block L d' n' \/ d' = d;
  rs_kept : forall d' n', live_block L d' n' -> live_block L' d' n' /\ kept s s' d' n';
  rs_segs : memseg s' = memseg s
}.

(** Segments do not overlap. *)
Lemma seg_unique segs j k mj mk d :
  layout_ok segs -> segs !! j = Some mj -> segs !! k = Some mk ->
  ms_addr mj <= d < ms_addr mj + ms_len mj -> ms_addr mk <= d < ms_addr mk + ms_len mk -> j = k.
Proof.
  intros HL Hj Hk H1 H2. destruct (Nat.lt_trichotomy j k) as [Hlt|[->|Hlt]]; [exfalso|done|exfalso].
  - pose proof (lo_disj _ HL j k mj mk Hj Hk Hlt). lia.
  - pose proof (lo_disj _ HL k j mk mj Hk Hj Hlt). lia.
Qed.

(** The block just allocated: its element and its segment. *)
Lemma alloc_seg s L h size flags align bound d s' L' :
  zones_ok s L -> alloc_ok s L h size flags align bound d s' L' -> 0 < size ->
  exists a e k ms, L' !! a = Some e /\ e_state e = ELEM_BUSY /\ 0 < e_size e /\ d = a + e_pad e + 64
    /\ e_ms e = Some k /\ memseg s' !! k = Some ms /\ size <= e_size e - e_pad e - 64
    /\ ms_addr ms <= d /\ d + size <= ms_addr ms + ms_len ms /\ h = Z.to_nat (ms_socket_id ms)
    /\ (check_hugepage_sz flags (ms_hugepage_sz ms) <> 0 \/ Z.land flags RTE_MEMZONE_SIZE_HINT_ONLY <> 0).
Proof.
  intros HZ [HI' (a0 & e0 & m & Ha0 & Hst & Hh0 & Hpg & (_ & Hlo & _) & Hm & Hend & [Hlive _ _ _] & _) (Hseg & _)] Hs.
  destruct (elem_in_seg s L HZ a0 e0 Ha0 Hst) as (k & ms & Hk & Hms & Hh & Hs1 & Hs2 & _).
  destruct (proj2 (Hlive d m) (or_intror (conj eq_refl eq_refl))) as (a & e & Ha & Hb & Hpos & Ed & Em).
  unfold MALLOC_ELEM_HEADER_LEN in *. pose proof (sh_rep _ _ (inv_shape _ _ HI')) as HR'.
  pose proof (wf_blk _ _ (rep_wf _ _ HR') a e Ha) as W. pose proof (bw_pad _ _ _ _ W).
  destruct (bw_seg _ _ _ _ W) as (k' & ms' & Hk' & Hms' & _ & Hs1' & Hs2' & _). rewrite extent_size in Hs2' by lia.
  rewrite Hseg in Hms'. assert (k' = k) as -> by (apply (seg_unique _ _ _ ms' ms d (zo_layout _ _ HZ)); auto; lia).
  assert (ms' = ms) as -> by congruence. exists a, e, k, ms. rewrite Hseg. split_and!; auto; try lia; [congruence|].
  destruct Hpg as [(e1 & k1 & ms1 & ? & ? & ? & ?)|?]; [left|by right].
  assert (e1 = e0) as -> by congruence. assert (k1 = k) as -> by congruence. congruence.
Qed.

(** A free entry exists while the table is not full. *)
Lemma free_entry s L : zones_ok s L -> used_count (memzone s) < RTE_MAX_MEMZONE ->
  exists i old, find_zone (fun mz => negb (is_used mz)) 0 (memzone s) = Some i /\ memzone s !! i = Some old /\ mz_addr old = None.
Proof.
  intros HZ Hlt. destruct (find_zone _ _ _) as [i|] eqn:E.
  - apply find_zone_Some in E as (j & z & -> & Hj & Hu & _). exists j, z. split_and!; auto.
    unfold is_used in Hu. by destruct (mz_addr z).
  - rewrite used_all in Hlt.
    + rewrite (zo_len _ _ HZ) in Hlt. unfold RTE_MAX_MEMZONE in Hlt. lia.
    + intros j z Hj. apply negb_false_iff. by apply (proj1 (find_zone_None _ _ _) E j).
Qed.

Lemma alloc_reserved s L h sid size flags align bound d s' L' i old a e k ms name :
  zones_ok s L -> alloc_ok s L h size flags align bound d s' L' -> 0 < size ->
  sid = SOCKET_ID_ANY \/ sid = Z.of_nat h -> memzone s !! i = Some old -> mz_addr old = None ->
  (length name <= 31)%nat -> 0 ∉ name -> name ∉ used_names s ->
  L' !! a = Some e -> e_state e = ELEM_BUSY -> 0 < e_size e -> d = a + e_pad e + 64 ->
  e_ms e = Some k -> memseg s' !! k = Some ms -> size <= e_size e - e_pad e - 64 ->
  ms_addr ms <= d -> d + size <= ms_addr ms + ms_len ms -> h = Z.to_nat (ms_socket_id ms) ->
  (check_hugepage_sz flags (ms_hugepage_sz ms) <> 0 \/ Z.land flags RTE_MEMZONE_SIZE_HINT_ONLY <> 0) ->
  reserved s L sid name size flags align bound i (new_zone name d size k ms) d
    (set_zones (memzone_cnt s' + 1) (<[i := new_zone name d size k ms]> (memzone s')) s') L'.
Proof.
  intros HZ HA Hsz Hsid Hi Ho Hnl Hn0 Hnu Ha Hb Hpos Ed Hk Hms Hsize Hlo Hhi Hh Hpg.
  pose proof HA as [HI' (a0 & e0 & m & Ha0 & Hst0 & Hh0 & _ & (Hq & Hq1 & Hq2 & Hq3) & Hm & Hend & [Hlive _ _ _] & _ & Hz) (Hseg & Hhl & Hzc & Hzm)].
  pose proof (rep_wf _ _ (sh_rep _ _ (inv_shape _ _ (zo_inv _ _ HZ)))) as HL.
  assert (forall n, ~ live_block L d n) as Hfresh.
  { intros n. apply (free_not_live (memseg s) L a0 e0); auto. lia. }
  assert (forall d' n', live_block L d' n' -> live_block L' d' n') as Hmono by (intros; apply Hlive; auto).
  assert (memseg s !! k = Some ms) as Hms0 by congruence.
  split; cbn; auto.
  - apply (zones_ok_add s L _ _ i old (new_zone name d size k ms) d); cbn; rewrite ?Hzc, ?Hzm; auto; [by apply inv_zones|].
    split; [done| |].
    + exists (e_size e - e_pad e - 64). split; [|cbn; lia]. exists a, e. unfold MALLOC_ELEM_HEADER_LEN. auto.
    + exists k, ms. cbn. split_and!; auto.
  - eauto.
  - by rewrite Hzm.
  - intros x Hx. apply Hz. lia.
  - destruct (lo_seg _ (zo_layout _ _ HZ) k ms Hms0) as (_ & _ & _ & _ & ?). split; [done|].
    destruct Hsid as [?| ->]; [by left|right; lia].
  - intros d' n' [?|[-> _]]%Hlive; auto.
  - intros d' n' Hl. split; [auto|]. intros x Hx. by apply (alloc_kept _ _ _ _ _ _ _ _ _ _ d' n' (zo_inv _ _ HZ) HA).
Qed.

Section Reserve.
Context (env : eal_env) (s : mem_config) (L : gmap Z malloc_elem).
Hypothesis HZ : zones_ok s L.
Hypothesis Henv : env_ok env.

Lemma wp_take_zone name sid req flags align bound (Q : Z + nat -> mem_config -> Prop) :
  zone_request (memseg s) req align bound -> SOCKET_ID_ANY <= sid < RTE_MAX_NUMA_NODES ->
  used_count (memzone s) < RTE_MAX_MEMZONE -> (length name <= 31)%nat -> 0 ∉ name -> name ∉ used_names s ->
  ((bound = 0 \/ align <= bound -> forall h, (h < Z.to_nat RTE_MAX_NUMA_NODES)%nat -> sid = SOCKET_ID_ANY \/ sid = Z.of_nat h ->
      zone_no_room s L req flags align bound h) -> Q (inl ENOMEM) s) ->
  (forall i z d s' L', reserved s L sid name req flags align bound i z d s' L' -> Q (inr i) s') ->
  wp (mz_addr ← zone_alloc env sid req flags align bound;
      match mz_addr with
      | None => mret (inl ENOMEM)
      | Some p =>
        elem ← malloc_elem_from_data (Some p);
        mz ← get_next_free_memzone;
        match mz, elem with
        | Some i, Some elem => fill_zone i name p req elem
        | _, _ => mret (inl ZE_NOSPC)
        end
      end) Q s.
Proof.
  intros Hrq Hsid Hcnt Hnl Hn0 Hnu HN HY. wp_step. apply (wp_zone_alloc s L HZ env); auto.
  intros h d s' L' Hh HA. pose proof (zr_size _ _ _ _ Hrq).
  destruct (alloc_seg _ _ _ _ _ _ _ _ _ _ HZ HA ltac:(lia)) as (a & e & k & ms & Ha & Hb & Hpos & Ed & Hk & Hms & ? & ? & ? & Eh & Hpg).
  destruct (free_entry s L HZ Hcnt) as (i & old & Hfind & Hi & Ho). pose proof HA as [HI' _ (_ & _ & Hzc & Hzm)].
  wp_step. rewrite Ed. apply (wp_from_data s' L' a e); auto. unfold get_next_free_memzone, id. wp_step.
  rewrite Hzm, Hfind. rewrite (zo_cnt _ _ HZ) in Hzc. pose proof (used_bounds (memzone s)).
  apply (wp_fill_zone s' L' i name a e k ms); auto; try lia. rewrite <- Ed. eapply HY.
  eapply (alloc_reserved s L h); eauto; lia.
Qed.

(** The heaps a request on [sid] is served from. *)
Definition served (sid : Z) (h : nat) : Prop :=
  (h < Z.to_nat RTE_MAX_NUMA_NODES)%nat /\ (sid = SOCKET_ID_ANY \/ sid = Z.of_nat h).

(** The length of the zone: as asked for; without a length up to the bound, or as long
    as the largest free element permits. *)
Definition zone_size (sid len align bound req : Z) : Prop :=
  (len <> 0 -> req = round64 len) /\ (len = 0 -> bound <> 0 -> req = bound) /\
  (len = 0 -> bound = 0 -> exists best g, largest L (served sid) best g /\ req = g - 64 - align).

Definition out_of_memory (sid len flags align bound : Z) : Prop :=
  (len <> 0 -> bound = 0 \/ align <= bound -> forall h, served sid h -> zone_no_room s L (round64 len) flags align bound h) /\
  (len = 0 -> bound = 0 -> flags = 0 -> forall a e h, L !! a = Some e -> e_state e = ELEM_FREE -> e_heap e = Some h ->
     served sid h -> e_size e <= 64 + align).

Lemma valid_align align : 0 <= align < 2 ^ 32 -> align = 0 \/ align = 2 ^ Z.log2 align ->
  exists k, zone_align align = 2 ^ k /\ 6 <= k <= 31.
Proof.
  intros Hr Ha. unfold zone_align, RTE_CACHE_LINE_SIZE. destruct (Z.ltb_spec align 64); [by exists 6|].
  destruct Ha as [?|Ha]; [lia|]. exists (Z.log2 align). split; [done|]. split.
  - apply (Z.log2_le_mono 64). lia.
  - assert (Z.log2 align < 32) by (apply Z.log2_lt_pow2; lia). lia.
Qed.

Lemma valid_bound bound req : 0 <= bound < 2 ^ 32 -> bound = 0 \/ bound = 2 ^ Z.log2 bound /\ 0 < req <= bound ->
  bound = 0 \/ exists k, bound = 2 ^ k /\ 0 <= k < 64 /\ 0 < req <= bound.
Proof.
  intros Hr [->|[Hb Hq]]; [by left|right]. exists (Z.log2 bound). split; [done|]. split; [|done].
  split; [apply Z.log2_nonneg|]. assert (Z.log2 bound < 32) by (apply Z.log2_lt_pow2; lia). lia.
Qed.

(** The request that is passed on to the allocator is a proper one. *)
Lemma zone_request_ok len align bound req k :
  0 <= len -> zone_room (memseg s) len -> align = 2 ^ k -> 6 <= k <= 31 -> 0 <= bound < 2 ^ 32 ->
  (bound = 0 \/ bound = 2 ^ Z.log2 bound /\ 0 < req <= bound) -> req mod 64 = 0 -> 0 < req < 2 ^ 63 ->
  req <= round64 len \/ req <= bound \/ (exists j mj, memseg s !! j = Some mj /\ req <= ms_len mj) ->
  zone_request (memseg s) req align bound.
Proof.
  intros Hlen Hroom -> Hk Hb Hbq Hm Hr Hcap. assert (2 ^ k <= 2 ^ 31) by (apply Z.pow_le_mono_r; lia).
  split; [|done]. split; [lia|by exists k|by apply valid_bound|]. intros i ms Hms.
  pose proof (lo_seg _ (zo_layout _ _ HZ) i ms Hms) as (? & _ & ? & _). pose proof (proj2 Hroom i i ms ms Hms Hms).
  pose proof (round64_props len Hlen). destruct Hcap as [?|[?|(j & mj & Hj & ?)]]; [lia..|].
  pose proof (proj2 Hroom j i mj ms Hj Hms). lia.
Qed.

(** An element that is long enough has an aligned place. *)
Lemma largest_fits a e k align : align = 2 ^ k -> 6 <= k <= 31 -> L !! a = Some e ->
  exists q, fits a (e_size e) (e_size e - 64 - align) align 0 q.
Proof.
  intros -> Hk Ha. pose proof (pow2_pos k ltac:(lia)) as Hp.
  pose proof (wf_blk _ _ (rep_wf _ _ (sh_rep _ _ (inv_shape _ _ (zo_inv _ _ HZ)))) a e Ha) as W.
  exists (2 ^ k * ((a + 64 + 2 ^ k - 1) / 2 ^ k)).
  pose proof (floor_bounds (a + 64 + 2 ^ k - 1) (2 ^ k) Hp). split_and!; [rewrite Z.mul_comm; apply Z.mod_mul; lia|lia..].
Qed.

Lemma reserved_weaken sid sid' name req flags align bound i z d s' L' :
  reserved s L sid' name req flags align bound i z d s' L' -> sid = SOCKET_ID_ANY \/ sid = sid' -> sid' <> SOCKET_ID_ANY ->
  reserved s L sid name req flags align bound i z d s' L'.
Proof. intros [] Hs Hne. split; auto. naive_solver. Qed.

Lemma wp_reserve_body name len sid flags align bound k (Q : Z + nat -> mem_config -> Prop) :
  0 <= len -> zone_room (memseg s) len -> align = 2 ^ k -> 6 <= k <= 31 -> 0 <= bound < 2 ^ 32 ->
  (bound = 0 \/ bound = 2 ^ Z.log2 bound /\ Z.max 64 (round64 len) <= bound) ->
  SOCKET_ID_ANY <= sid < RTE_MAX_NUMA_NODES ->
  used_count (memzone s) < RTE_MAX_MEMZONE -> (length name <= 31)%nat -> 0 ∉ name -> name ∉ used_names s ->
  (out_of_memory sid len flags align bound -> Q (inl ENOMEM) s) ->
  (forall req i z d s' L', zone_size sid len align bound req ->
     reserved s L sid name req flags align bound i z d s' L' -> Q (inr i) s') ->
  wp (reserve_body env name (round64 len) sid flags align bound) Q s.
Proof.
  intros Hlen Hroom Hal Hk Hb Hbq Hsid Hcnt Hnl Hn0 Hnu HN HY. destruct (round64_props len ltac:(lia)) as (Hr1 & Hr2 & Hr0).
  pose proof (proj1 Hroom).
  unfold reserve_body. wp_step. destruct (Z.eqb_spec (round64 len) 0) as [E0|E0].
  - apply Hr0 in E0 as ->. destruct (Z.eqb_spec bound 0) as [->|Eb]; cbn [negb andb].
    + apply (wp_find_max s L HZ); [subst align; split; [pose proof (pow2_pos k); lia|apply Z.pow_le_mono_r; lia]|].
      intros best g Hg Hbest HM. cbv beta iota. destruct (Z.eqb_spec (Z.max 0 (g - 64 - align)) 0) as [Eg|Eg].
      { wp_step. apply HN. split; [done|]. intros _ _ _ a e h Ha Hst Hh Hs. pose proof (proj1 HM a e h Ha Hst Hh Hs). lia. }
      assert (0 < g - 64 - align) by lia. replace (Z.max 0 (g - 64 - align)) with (g - 64 - align) in * by lia.
      assert (0 < align) by (subst align; apply pow2_pos; lia).
      destruct (proj2 HM ltac:(lia)) as (a & e & h & Ha & Hst & Hh & [Hh8 Hs] & -> & Eg').
      destruct (elem_in_seg s L HZ a e Ha Hst) as (j & mj & _ & Hj & _ & ? & ? & _ & Hem).
      destruct (lo_seg _ (zo_layout _ _ HZ) j mj Hj) as (? & _ & _ & ? & _).
      pose proof (pow2_mod64 k ltac:(lia)) as Hkm. rewrite <- Hal in Hkm.
      apply wp_take_zone; auto.
      * apply (zone_request_ok 0 _ _ _ k); auto; [| lia|right; right; exists j, mj; split; [done|lia]].
        rewrite <- Eg'. Z.div_mod_to_equations. lia.
      * unfold SOCKET_ID_ANY. lia.
      * intros Hno. apply HN. split; [done|]. intros _ _ -> a' e' h' _ _ _ _.
        destruct (largest_fits a e k align Hal Hk Ha) as [q Hq]. rewrite Eg' in Hq. exfalso.
        destruct (Hno (or_introl eq_refl) h Hh8 (or_intror eq_refl) a e q Ha Hst Hh) as [Hp _]; [by rewrite Eg'|].
        apply Hp, (page_any s L a e); [|done]. apply (rep_wf _ _ (sh_rep _ _ (inv_shape _ _ (zo_inv _ _ HZ)))).
      * intros i z d s' L' HR. apply (HY (g - 64 - align) i z d s' L'); [|apply (reserved_weaken _ (Z.of_nat h)); auto; unfold SOCKET_ID_ANY; lia].
        split_and!; [done..|]. intros _ _. exists (Z.of_nat h), g. done.
    + rewrite wp_ret. cbv beta iota. destruct Hbq as [?|[Hb2 Hb3]]; [done|]. change (round64 0) with 0 in Hb3.
      assert (bound mod 64 = 0) as Hbm.
      { rewrite Hb2. apply pow2_mod64. apply (Z.log2_le_mono 64). lia. }
      apply wp_take_zone; auto.
      * apply (zone_request_ok 0 _ _ _ k); auto; [right; split; [done|lia]|lia|right; left; lia].
      * intros _. apply HN. split; [done|]. intros _ ?. done.
      * intros i z d s' L' HR. apply (HY bound i z d s' L'); [|done]. split_and!; done.
  - cbn [andb]. rewrite wp_ret. cbv beta iota. change RTE_CACHE_LINE_SIZE with 64.
    assert (64 <= round64 len) by (Z.div_mod_to_equations; lia). rewrite Z.max_r in * by lia.
    assert (len <> 0) by naive_solver. apply wp_take_zone; auto.
    + apply (zone_request_ok len _ _ _ k); auto; [|lia|left; lia]. destruct Hbq as [?|[? ?]]; [by left|right; split; [done|lia]].
    + intros Hno. apply HN. split; [|done]. intros _ Hab h [? ?]. auto.
    + intros i z d s' L' HR. apply (HY (round64 len) i z d s' L'); [|done]. split_and!; done.
Qed.
End Reserve.
