(* ===== verification/MemzoneClient.v ===== *)
(** Memory zones as their users see them. *)
From Stdlib Require Import ZArith Lia.
From stdpp Require Import base numbers list gmap.
From S2P Require Import Prelude Ring RingSpec Malloc MallocLayout MallocRep MallocAlloc MallocSpec MallocFree MallocApi MallocInit MallocProps MallocRealloc MallocClient MallocStats Memzone MemzoneTable MemzoneSpec MemzoneProps.

#[local] Open Scope Z_scope.

(** ** Reserving *)

(** What a reservation does: the error of the first check that fails; otherwise a zone,
    or that there is no memory for it. When it fails nothing is changed. *)
Definition reserve_post (env : eal_env) (s : mem_config) (L : gmap Z malloc_elem) (name : list Z)
    (len socket flags align bound : Z) (r : Z + nat) (s' : mem_config) : Prop :=
  let sid := zone_socket env socket in
  let align' := zone_align align in
  match zone_error s name len socket align bound, r with
  | Some err, _ => r = inl err /\ s' = s
  | None, inl err => err = ENOMEM /\ s' = s /\ out_of_memory s L sid len flags align' bound
  | None, inr i => exists req z d L', zone_size L sid len align' bound req
      /\ reserved s L sid name req flags align' bound i z d s' L'
  end.

Lemma wp_reserve env s L name len socket flags align bound (Q : Z + nat -> mem_config -> Prop) :
  zones_ok s L -> env_ok env -> zone_args name len socket align bound ->
  (zone_error s name len socket align bound = None -> zone_room (memseg s) len) ->
  (forall r s', reserve_post env s L name len socket flags align bound r s' -> Q r s') ->
  wp (memzone_reserve_aligned_thread_unsafe env name len socket flags align bound) Q s.
Proof.
  intros HZ Henv Hargs Hroom HQ. apply (wp_reserve_checks env s L); auto. unfold reserve_post in HQ.
  destruct (zone_error s name len socket align bound) as [err|] eqn:E; [by apply HQ|]. specialize (Hroom eq_refl).
  destruct Hargs as [Hn Hl Ha Hb]. pose proof (used_bounds (memzone s)) as Hub. rewrite (zo_len _ _ HZ) in Hub.
  unfold zone_error in E. do 4 (case_decide; [try done|try done]).
  destruct H2 as (Hal & Hlen & Hbd & Hs). destruct (valid_align align Ha Hal) as (k & Ek & Hk).
  apply (wp_reserve_body env s L HZ Henv _ _ _ _ _ _ k); auto; try lia.
  - unfold zone_socket, SOCKET_ID_ANY, RTE_MAX_NUMA_NODES in *. destruct (negb (eal_has_hugepages env)); lia.
  - unfold RTE_MAX_MEMZONE in *. lia.
  - intros req i z d s' L' Hsz HR. apply HQ. eauto 10.
Qed.

(** ** Releasing *)

Record zone_freed (s : mem_config) (L : gmap Z malloc_elem) (i : nat) (d : Z) (s' : mem_config) (L' : gmap Z malloc_elem) : Prop :=
  ZoneFreed {
  zf_zones : zones_ok s' L';
  zf_table : memzone s' = <[i := zero_zone]> (memzone s);
  zf_live : forall d' n', live_block L' d' n' <-> live_block L d' n' /\ d' <> d;
  zf_kept : forall d' n', live_block L d' n' -> d' <> d -> kept s s' d' n';
  zf_segs : memseg s' = memseg s
}.

Lemma wp_memzone_free s L i z d (Q : outcome Z -> mem_config -> Prop) :
  zones_ok s L -> memzone s !! i = Some z -> mz_addr z = Some d ->
  (forall s' L', zone_freed s L i d s' L' -> Q (Done 0) s') ->
  wp (rte_memzone_free (Some i)) Q s.
Proof.
  intros HZ Hi Hd HQ. unfold rte_memzone_free, id. wp_step. rewrite Hi, Hd.
  assert (is_used z = true) as Hu by (apply is_used_addr; eauto). pose proof (used_pos _ _ _ Hi Hu) as Hpos.
  pose proof (used_bounds (memzone s)) as Hub. rewrite (zo_len _ _ HZ) in Hub. rewrite (zo_cnt _ _ HZ).
  destruct (Z.eqb_spec (used_count (memzone s)) 0); [lia|]. unfold RTE_MAX_MEMZONE in Hub. rewrite wrapu_small by lia. wp_step.
  destruct (zk_block _ _ _ _ (zo_zone _ _ HZ i z d Hi Hd)) as (m & Hl & _).
  eapply (wp_rte_free _ L d m); [by apply inv_zones, HZ|done|]. intros s' L' [HI' Hlive Hkept _ (Hseg & Hh & Hc & Hm)].
  cbn in *. wp_step. apply (HQ s' L'). pose proof (lookup_lt_Some _ _ _ Hi).
  assert (forall j y c, memzone s' !! j = Some y -> mz_addr y = Some c -> j <> i /\ memzone s !! j = Some y) as Hcase.
  { rewrite Hm. intros j y c [(-> & <- & _)|[? ?]]%list_lookup_insert_Some Hy; [done|auto]. }
  split; auto. split; auto.
  - rewrite Hseg. apply HZ.
  - rewrite Hh. apply HZ.
  - rewrite Hm, length_insert. apply HZ.
  - rewrite Hc, Hm, (used_insert _ _ z) by done. rewrite Hu. cbn. lia.
  - intros j y c Hj Hy. destruct (Hcase j y c Hj Hy) as [Hne Hj']. apply (zone_ok_mono s L); auto; [by apply (zo_zone _ _ HZ j)|].
    intros n' Hn'. apply Hlive. split; [done|]. by apply (zo_inj _ _ HZ j i y z).
  - intros j j' y y' c c' Hj Hj' Hy Hy' Hne. destruct (Hcase j y c Hj Hy), (Hcase j' y' c' Hj' Hy').
    by apply (zo_inj _ _ HZ j j').
Qed.

(** A handle of a zone that is not reserved is refused. *)
Lemma wp_memzone_free_unused s i z (Q : outcome Z -> mem_config -> Prop) :
  memzone s !! i = Some z -> mz_addr z = None -> Q (Done (- EINVAL)) s -> wp (rte_memzone_free (Some i)) Q s.
Proof. intros Hi Hd HQ. unfold rte_memzone_free, id. wp_step. rewrite Hi, Hd. by wp_step. Qed.

(** ** Searching *)

Lemma wp_lookup s L name (Q : option nat -> mem_config -> Prop) :
  zones_ok s L -> 0 ∉ name ->
  (forall i z d, memzone s !! i = Some z -> mz_addr z = Some d -> mz_name z = name -> Q (Some i) s) ->
  (name ∉ used_names s -> Q None s) -> wp (rte_memzone_lookup name) Q s.
Proof.
  intros HZ Hn HY HN. unfold rte_memzone_lookup, memzone_lookup_thread_unsafe, id. wp_step.
  pose proof (lookup_spec s L name HZ Hn) as Hl. destruct (find_zone _ _ _) as [i|].
  - destruct Hl as (z & d & ? & ? & ?). eauto.
  - apply HN. by rewrite <- name_used_names.
Qed.

(** The handle found is that of the zone. *)
Lemma wp_lookup_found s L i z d (Q : option nat -> mem_config -> Prop) :
  zones_ok s L -> memzone s !! i = Some z -> mz_addr z = Some d -> Q (Some i) s -> wp (rte_memzone_lookup (mz_name z)) Q s.
Proof.
  intros HZ Hi Hd HQ. destruct (zk_name _ _ _ _ (zo_zone _ _ HZ i z d Hi Hd)) as [_ Hn]. apply (wp_lookup s L); auto.
  - intros j z' d' Hj Hd' E. destruct (decide (j = i)) as [->|Hne]; [done|].
    destruct (zo_inj _ _ HZ j i z' z d' d Hj Hi Hd' Hd Hne) as [? _]. congruence.
  - intros Hnot. exfalso. apply Hnot, name_used_names. exists i, z, d. auto.
Qed.

(** ** Start *)

Lemma wp_memzone_init segs zones (Q : Z -> mem_config -> Prop) :
  layout_ok segs -> length zones = Z.to_nat RTE_MAX_MEMZONE ->
  (forall s L, zones_ok s L -> memseg s = segs -> used_names s = [] -> Q 0 s) ->
  wp (rte_eal_memzone_init false) Q (fresh_config segs zones).
Proof.
  intros Hlay Hlen HQ. unfold rte_eal_memzone_init. wp_step.
  change (set_zones 0 _ _) with (fresh_config segs (replicate (length zones) zero_zone)).
  apply (wp_heap_init segs Hlay). intros s L [HI Hs Hh _ _ _ _] Hm Hc.
  assert (forall i z, memzone s !! i = Some z -> z = zero_zone) as Hz by (rewrite Hm; intros i z [-> _]%lookup_replicate; done).
  assert (forall l : list rte_memzone, (forall i z, l !! i = Some z -> z = zero_zone) -> used_count l = 0) as Hcount.
  { induction l as [|y l IH]; intros Hl; [done|]. cbn. rewrite (Hl 0%nat y eq_refl), IH; [done|].
    intros i z Hi. by apply (Hl (S i)). }
  apply (HQ s L); auto.
  - split; auto.
    + by rewrite Hs.
    + by rewrite Hm, length_replicate.
    + by rewrite Hc, Hcount.
    + intros i z d Hi Hd. by rewrite (Hz i z Hi) in Hd.
    + intros i j z z' d d' Hi Hj Hd. by rewrite (Hz i z Hi) in Hd.
  - destruct (used_names s) as [|n ns] eqn:E; [done|exfalso].
    assert (n ∈ used_names s) as Hn by (rewrite E; set_solver). apply name_used_names in Hn as (i & z & d & Hi & Hd & _).
    by rewrite (Hz i z Hi) in Hd.
Qed.

(** ** Sequences of operations *)

Inductive zone_op :=
| ZReserve (name : list Z) (len socket flags align bound : Z)
| ZFree (mz : option nat)
| ZLookup (name : list Z).

Inductive zone_res := RZone (r : Z + nat) | RFree (r : outcome Z) | RFound (r : option nat).

Fixpoint run_ops (env : eal_env) (ops : list zone_op) : M mem_config (list zone_res) :=
  match ops with
  | [] => mret []
  | o :: ops =>
    r ← match o with
        | ZReserve name len socket flags align bound =>
          r ← rte_memzone_reserve_bounded env name len socket flags align bound; mret (RZone r)
        | ZFree mz => r ← rte_memzone_free mz; mret (RFree r)
        | ZLookup name => r ← rte_memzone_lookup name; mret (RFound r)
        end;
    rs ← run_ops env ops; mret (r :: rs)
  end.

(** Arguments of the right types; handles point into the table. *)
Definition op_ok (segs : list rte_memseg) (o : zone_op) : Prop :=
  match o with
  | ZReserve name len socket flags align bound => zone_args name len socket align bound /\ zone_room segs len
  | ZFree (Some i) => (i < Z.to_nat RTE_MAX_MEMZONE)%nat
  | ZFree None => True
  | ZLookup name => 0 ∉ name
  end.

Definition no_panic (r : zone_res) : Prop := match r with RFree Panic => False | _ => True end.

Lemma wp_run_ops env segs ops s L :
  zones_ok s L -> memseg s = segs -> env_ok env -> Forall (op_ok segs) ops ->
  wp (run_ops env ops) (fun rs s' => Forall no_panic rs /\ exists L', zones_ok s' L' /\ memseg s' = segs) s.
Proof.
  intros HZ Hs Henv Hops. revert s L HZ Hs. induction Hops as [|o ops Ho Hops IH]; intros s L HZ Hs; cbn [run_ops].
  { wp_step. eauto. }
  assert (forall r s' L', no_panic r -> zones_ok s' L' -> memseg s' = segs ->
    wp (run_ops env ops) (fun a s' => Forall no_panic (r :: a) /\ exists L', zones_ok s' L' /\ memseg s' = segs) s') as Hnext.
  { intros r s' L' Hr HZ' Hs'. eapply wp_mono; [by apply (IH s' L')|]. intros rs s'' [? ?]. split; [by constructor|done]. }
  unfold op_ok in Ho. wp_step. destruct o as [name len socket flags align bound|[i|]|name]; wp_step.
  - destruct Ho as [Hargs Hroom]. apply (wp_reserve env s L); [done..|congruence|]. intros r s' Hp. wp_step. unfold reserve_post in Hp.
    destruct (zone_error s name len socket align bound) as [err|]; [destruct Hp as [-> ->]; by apply (Hnext _ _ L)|].
    destruct r as [err|i].
    + destruct Hp as (_ & -> & _). by apply (Hnext _ _ L).
    + destruct Hp as (req & z & d & L' & _ & HR). apply (Hnext _ _ L'); [done|apply HR|]. by rewrite (rs_segs _ _ _ _ _ _ _ _ _ _ _ _ _ HR).
  - rewrite <- (zo_len _ _ HZ) in Ho. destruct (lookup_lt_is_Some_2 _ _ Ho) as [z Hz]. destruct (mz_addr z) as [d|] eqn:Hd.
    + apply (wp_memzone_free s L i z d); auto. intros s' L' HF. wp_step. apply (Hnext _ _ L'); [done|apply HF|].
      by rewrite (zf_segs _ _ _ _ _ _ HF).
    + apply (wp_memzone_free_unused s i z); auto. wp_step. by apply (Hnext _ _ L).
  - unfold rte_memzone_free. wp_step. by apply (Hnext _ _ L).
  - apply (wp_lookup s L); auto; intros; wp_step; by apply (Hnext _ _ L).
Qed.

(** ** Theorems *)


(** C17: a zone that was reserved is found under its name, can be released once, and is
    then gone: the name and the entry are free again, the blocks in use are those from
    before with their contents. *)
Theorem memzone_roundtrip env s L name len socket flags align bound :
  zones_ok s L -> env_ok env -> zone_args name len socket align bound -> zone_room (memseg s) len ->
  wp (r ← rte_memzone_reserve_bounded env name len socket flags align bound;
      match r with
      | inl err => mret None
      | inr i => f ← rte_memzone_lookup name; x ← rte_memzone_free (Some i); y ← rte_memzone_free (Some i);
                 g ← rte_memzone_lookup name; mret (Some (i, f, x, y, g))
      end)
     (fun r s' => match r with
      | None => s' = s
      | Some (i, f, x, y, g) => f = Some i /\ x = Done 0 /\ y = Done (- EINVAL) /\ g = None
        /\ memzone s' = <[i := zero_zone]> (memzone s) /\ memzone_cnt s' = memzone_cnt s
        /\ exists L', zones_ok s' L' /\ (forall d n, live_block L' d n <-> live_block L d n)
           /\ forall d n, live_block L d n -> kept s s' d n
      end) s.
Proof.
  intros HZ He Ha Hr. wp_step. apply (wp_reserve env s L); auto. intros r s1 Hp. unfold reserve_post in Hp.
  destruct (zone_error s name len socket align bound) as [err|] eqn:Eerr; [destruct Hp as [-> ->]; by wp_step|].
  destruct r as [err|i]; [destruct Hp as (_ & -> & _); by wp_step|]. destruct Hp as (req & z & d & L1 & _ & HR).
  pose proof HR as [HZ1 (old & Hi & Ho) Ht (<- & Hd & _) _ _ Hfresh _ _ Hlive Hkept _]. pose proof (lookup_lt_Some _ _ _ Hi).
  assert (memzone s1 !! i = Some z) as Hi1 by (rewrite Ht; by apply list_lookup_insert_eq).
  wp_step. apply (wp_lookup_found s1 L1 i z d); auto. wp_step. apply (wp_memzone_free s1 L1 i z d); auto.
  intros s2 L2 [HZ2 Ht2 Hlive2 Hkept2 _]. rewrite Ht, list_insert_insert_eq in Ht2. wp_step.
  apply (wp_memzone_free_unused s2 i zero_zone); [rewrite Ht2; by apply list_lookup_insert_eq|done|]. wp_step.
  assert (memzone_cnt s2 = memzone_cnt s) as Hcnt.
  { rewrite (zo_cnt _ _ HZ2), (zo_cnt _ _ HZ), Ht2, (used_insert _ _ old) by done. unfold is_used. rewrite Ho. cbn. lia. }
  assert (forall d' n', live_block L d' n' -> d' <> d) as Hne by (intros d' n' Hl ->; by apply (Hfresh n')).
  assert (Q2 : exists L', zones_ok s2 L' /\ (forall d n, live_block L' d n <-> live_block L d n)
           /\ forall d n, live_block L d n -> kept s s2 d n).
  { exists L2. split_and!; [done| |].
    - intros d' n'. rewrite Hlive2. split; [intros [[?|?]%Hlive ?]; done|].
      intros Hl. split; [by apply Hkept|by eapply Hne].
    - intros d' n' Hl x Hx. destruct (Hkept d' n' Hl) as [Hl1 Hk1].
      destruct (Hk1 x Hx) as [<- <-]. apply (Hkept2 d' n' Hl1 (Hne _ _ Hl) x Hx). }
  assert (mz_name z ∉ used_names s) as Hnu.
  { unfold zone_error in Eerr. do 3 (case_decide; [done|]). done. }
  apply (wp_lookup s2 L2); [done|apply Ha| |].
  - intros j y c Hj Hc En. exfalso. apply Hnu. apply name_used_names. rewrite Ht2 in Hj.
    apply list_lookup_insert_Some in Hj as [(-> & <- & _)|[_ Hj]]; [done|]. exists j, y, c. auto.
  - intros _. wp_step. split_and!; done.
Qed.

(** C15: the zones of a process. After [rte_eal_memzone_init], whatever was in the table,
    and any sequence of reservations, releases (also of stale handles) and searches,
    there was no fault and no panic, the table and the heaps are consistent, zones have
    different names and do not overlap, and searching for the name of a zone gives its
    handle. *)
Theorem memzones_safe env segs zones ops :
  layout_ok segs -> length zones = Z.to_nat RTE_MAX_MEMZONE -> env_ok env -> Forall (op_ok segs) ops ->
  wp (rte_eal_memzone_init false ;; run_ops env ops) (fun rs s => Forall no_panic rs /\ exists L, zones_ok s L
    /\ (forall i j z z' d d', memzone s !! i = Some z -> memzone s !! j = Some z' -> mz_addr z = Some d -> mz_addr z' = Some d' ->
          i <> j -> mz_name z <> mz_name z' /\ (d + mz_len z <= d' \/ d' + mz_len z' <= d))
    /\ forall i z d, memzone s !! i = Some z -> mz_addr z = Some d ->
          wp (rte_memzone_lookup (mz_name z)) (fun r s' => r = Some i /\ s' = s) s)
    (fresh_config segs zones).
Proof.
  intros Hlay Hlen He Hops. wp_step. apply (wp_memzone_init segs zones); auto. intros s L HZ Hs _.
  eapply wp_mono; [by apply (wp_run_ops env segs ops s L)|]. intros rs s' (Hr & L' & HZ' & Hs'). split; [done|].
  exists L'. split_and!; [done| |].
  - intros i j z z' d d' Hi Hj Hd Hd' Hne. destruct (zo_inj _ _ HZ' i j z z' d d' Hi Hj Hd Hd' Hne) as [Hn Hdd]. split; [done|].
    destruct (zk_block _ _ _ _ (zo_zone _ _ HZ' i z d Hi Hd)) as (n & Hl & Hn1).
    destruct (zk_block _ _ _ _ (zo_zone _ _ HZ' j z' d' Hj Hd')) as (n' & Hl' & Hn1').
    pose proof (rep_wf _ _ (sh_rep _ _ (inv_shape _ _ (zo_inv _ _ HZ')))) as HL.
    pose proof (live_disjoint _ _ _ _ _ _ HL Hl Hl' Hdd). lia.
  - intros i z d Hi Hd. by apply (wp_lookup_found s' L' i z d).
Qed.

(** ** Examples *)

Definition no_zones : list rte_memzone := replicate (Z.to_nat RTE_MAX_MEMZONE) zero_zone.

Definition zone_state : mem_config :=
  match rte_eal_memzone_init false (fresh_config demo_segs no_zones) with
  | Ret (_, s) => s
  | _ => fresh_config demo_segs no_zones
  end.

Lemma zone_state_ok : exists L, zones_ok zone_state L /\ memseg zone_state = demo_segs.
Proof.
  assert (wp (rte_eal_memzone_init false) (fun _ s => exists L, zones_ok s L /\ memseg s = demo_segs) (fresh_config demo_segs no_zones)) as Hw.
  { apply wp_memzone_init; [apply demo_layout|done|]. intros s L ? ? _. eauto. }
  apply wp_run in Hw as (r & s & E & H). unfold zone_state. by rewrite E.
Qed.

Lemma demo_zone_room len : 0 <= len < 2 ^ 40 -> zone_room demo_segs len.
Proof. intros Hl. split; [lia|]. intros [|[|j]] [|[|k]] mj mk [= <-] [= <-]; cbn; lia. Qed.

Definition demo_name : list Z := [77; 80; 95; 97].

Lemma demo_zone_args len : 0 <= len < 2 ^ 40 -> zone_args demo_name len SOCKET_ID_ANY 128 4096.
Proof. intros Hl. split; [|lia..]. unfold demo_name. set_solver. Qed.


Lemma memzone_roundtrip_witness : exists L, zones_ok zone_state L /\
  wp (r ← rte_memzone_reserve_bounded demo_eal demo_name 1000 SOCKET_ID_ANY 0 128 4096;
      match r with
      | inl err => mret None
      | inr i => f ← rte_memzone_lookup demo_name; x ← rte_memzone_free (Some i); y ← rte_memzone_free (Some i);
                 g ← rte_memzone_lookup demo_name; mret (Some (i, f, x, y, g))
      end)
     (fun r s' => match r with
      | None => s' = zone_state
      | Some (i, f, x, y, g) => f = Some i /\ x = Done 0 /\ y = Done (- EINVAL) /\ g = None
        /\ memzone s' = <[i := zero_zone]> (memzone zone_state) /\ memzone_cnt s' = memzone_cnt zone_state
        /\ exists L', zones_ok s' L' /\ (forall d n, live_block L' d n <-> live_block L d n)
           /\ forall d n, live_block L d n -> kept zone_state s' d n
      end) zone_state.
Proof.
  destruct zone_state_ok as (L & HZ & Hs). exists L. split; [done|].
  apply (memzone_roundtrip demo_eal zone_state L demo_name 1000 SOCKET_ID_ANY 0 128 4096 HZ demo_env_ok).
  - apply demo_zone_args. lia.
  - rewrite Hs. apply demo_zone_room. lia.
Defined.

Definition demo_ops : list zone_op :=
  [ZReserve demo_name 1000 SOCKET_ID_ANY 0 128 4096; ZReserve demo_name 64 SOCKET_ID_ANY 0 128 4096;
   ZReserve (82 :: demo_name) 0 1 0 64 0; ZFree (Some 0%nat); ZFree (Some 0%nat); ZLookup (82 :: demo_name)].

Lemma demo_ops_ok : Forall (op_ok demo_segs) demo_ops.
Proof.
  unfold demo_ops. repeat apply Forall_cons_2; [| | | | | |apply Forall_nil_2]; cbn [op_ok].
  1,2: split; [apply demo_zone_args; lia|apply demo_zone_room; lia].
  - split; [split; [unfold demo_name; set_solver|lia..]|apply demo_zone_room; lia].
  - unfold RTE_MAX_MEMZONE. lia.
  - unfold RTE_MAX_MEMZONE. lia.
  - unfold demo_name. set_solver.
Qed.

(** The zones of these operations: the second one takes the rest of its socket. *)
Example demo_ops_run : exists s,
  (rte_eal_memzone_init false ;; run_ops demo_eal demo_ops) (fresh_config demo_segs no_zones)
  = Ret ([RZone (inr 0%nat); RZone (inl ZE_EXIST); RZone (inr 1%nat); RFree (Done 0); RFree (Done (- EINVAL)); RFound (Some 1%nat)], s)
  /\ mz_len <$> memzone s !! 1%nat = Some 16192
  /\ rte_memzone_walk s = Ret ([1%nat], s) /\ rte_memzone_dump s = Ret ([], s).
Proof. eexists. split; [vm_compute; reflexivity|]. vm_compute. done. Qed.

Lemma memzones_safe_witness :
  layout_ok demo_segs /\ Forall (op_ok demo_segs) demo_ops /\
  wp (rte_eal_memzone_init false ;; run_ops demo_eal demo_ops) (fun rs s => Forall no_panic rs /\ exists L, zones_ok s L
    /\ (forall i j z z' d d', memzone s !! i = Some z -> memzone s !! j = Some z' -> mz_addr z = Some d -> mz_addr z' = Some d' ->
          i <> j -> mz_name z <> mz_name z' /\ (d + mz_len z <= d' \/ d' + mz_len z' <= d))
    /\ forall i z d, memzone s !! i = Some z -> mz_addr z = Some d ->
          wp (rte_memzone_lookup (mz_name z)) (fun r s' => r = Some i /\ s' = s) s)
    (fresh_config demo_segs no_zones).
Proof.
  split_and!; [apply demo_layout|apply demo_ops_ok|].
  apply (memzones_safe demo_eal demo_segs no_zones demo_ops demo_layout eq_refl demo_env_ok demo_ops_ok).
Defined.

(** What is printed is the part of the table before the first entry that is not in use,
    not all zones. *)
Lemma dump_prefix l i : dump_zones i l = seq i (length (dump_zones i l)) /\
  forall z, l !! length (dump_zones i l) = Some z -> is_used z = false.
Proof.
  revert i. induction l as [|z l IH]; intros i; cbn; [done|]. destruct (is_used z) eqn:E; cbn.
  - destruct (IH (S i)) as [E1 E2]. split; [by f_equal|done].
  - split; [done|]. intros z' [= <-]. done.
Qed.
