(* ===== verification/Kni.v ===== *)
(** libmoon/src/kni.c: packets handed to the kernel network interface.

    What [rte_kni_tx_burst] promises (it accepts a prefix of the burst, whose mbufs it
    then owns) is a class, which KniLink provides from the queues of librte_kni;
    [rte_kni_alloc] is a parameter here, and KniDevice supplies it. *)
From Stdlib Require Import ZArith Lia.
From stdpp Require Import base numbers list strings.
From S2P Require Import Prelude DeviceConfig.

#[local] Open Scope Z_scope.

Class Kni (K : Type) := {
  kni_tx_burst : list nat -> M K Z;
  kni_sent : K -> list nat
}.

(** [kni_owns k mbufs]: the caller holds these buffers, and the device is in order.
    [kni_patience] bounds how often in a row nothing is accepted. *)
Class KniLaws (K : Type) `{Kni K} := {
  kni_owns : K -> list nat -> Prop;
  kni_patience : K -> nat;
  kni_prefix mbufs k n k' :
    kni_tx_burst mbufs k = Ret (n, k') ->
    0 <= n <= Z.of_nat (length mbufs) /\ kni_sent k' = kni_sent k ++ take (Z.to_nat n) mbufs;
  kni_accepts mbufs k :
    kni_owns k mbufs -> exists n k', kni_tx_burst mbufs k = Ret (n, k') /\ kni_owns k' (drop (Z.to_nat n) mbufs) /\
      (mbufs <> [] -> n = 0 -> (kni_patience k' < kni_patience k)%nat)
}.

(** ** Configuration *)

Definition MAX_PACKET_SZ : Z := 2048.
Definition RTE_KNI_NAMESIZE : nat := 32.

Record rte_kni_conf := KniConf {
  conf_name : list Z; core_id : Z; force_bind : Z; group_id : Z; mbuf_size : Z;
  conf_function : Z; conf_vendor : Z; conf_device : Z
}.

(** The callbacks may be null. *)
Record rte_kni_ops := KniOps {
  ops_port_id : Z; change_mtu : option (Z -> Z -> Z); config_network_if : option (Z -> Z -> Z)
}.

(** Both callbacks of libmoon print and report success. *)
Definition kni_change_mtu (port_id new_mtu : Z) : Z := 0.
Definition kni_config_network_interface (port_id if_up : Z) : Z := 0.

(** [snprintf(conf.name, RTE_KNI_NAMESIZE, ...)] keeps 31 characters; without a PCI
    device the code dereferences a null pointer. Of the PCI address the model of the
    device information has the function. *)
Definition mg_create_kni {S : Type} (info : rte_eth_dev_info)
    (rte_kni_alloc : option nat -> option rte_kni_conf -> option rte_kni_ops -> M S (option nat))
    (port_id core : Z) (mempool_ptr : option nat) (name : list Z) : M S (option nat) :=
  match pci_dev info with
  | None => fault
  | Some d =>
    rte_kni_alloc mempool_ptr
      (Some (KniConf (take (RTE_KNI_NAMESIZE - 1) name) core 1 (u16 port_id) MAX_PACKET_SZ
               (function d) (vendor_id d) (device_id d)))
      (Some (KniOps port_id (Some kni_change_mtu) (Some kni_config_network_interface)))
  end.

(** ** Transmission *)

Section Tx.
Context {K : Type} `{Kni K}.

Fixpoint kni_single_loop (fuel : nat) (mbuf : nat) : M K unit :=
  match fuel with
  | O => diverge
  | S fuel => n ← kni_tx_burst [mbuf]; if n =? 0 then kni_single_loop fuel mbuf else mret tt
  end.

Definition mg_kni_tx_single (fuel : nat) (mbuf : nat) : M K Z :=
  kni_single_loop fuel mbuf ;; mret 1.

Fixpoint kni_burst_loop (fuel : nat) (mbufs : list nat) (ret : Z) : M K Z :=
  if negb (ret <? Z.of_nat (length mbufs)) then mret ret
  else
    match fuel with
    | O => diverge
    | S fuel => n ← kni_tx_burst mbufs; kni_burst_loop fuel mbufs n
    end.

Definition mg_kni_tx_burst (fuel : nat) (mbufs : list nat) : M K Z := kni_burst_loop fuel mbufs 0.
End Tx.

Section Spec.
Context {K : Type} `{KniLaws K}.

Lemma kni_single_spec mbuf : forall p (k : K), kni_patience k = p -> kni_owns k [mbuf] ->
  eventually (fun fuel => kni_single_loop fuel mbuf)
    (fun _ k' => kni_sent k' = kni_sent k ++ [mbuf] /\ kni_owns k' []) k.
Proof.
  intros p. induction (lt_wf p) as [p _ IH]. intros k <- Hown.
  destruct (kni_accepts [mbuf] k Hown) as (n & k1 & Eb & Hown1 & Hwait).
  destruct (kni_prefix _ _ _ _ Eb) as [Hn Hs]. simpl in Hn.
  destruct (Z.eqb_spec n 0) as [->|Hne].
  - destruct (IH _ (Hwait ltac:(done) eq_refl) k1 eq_refl Hown1) as (f & [] & k' & Hf & Hq & Ho).
    exists (S f), tt, k'. split.
    + intros [|fuel] Hle; [lia|]. cbn [kni_single_loop]. unfold mbind, M_bind. rewrite Eb.
      apply Hf. lia.
    + rewrite Hq, Hs. by rewrite app_nil_r.
  - exists 1%nat, tt, k1. assert (n = 1) as -> by lia. split; [|by split].
    intros [|fuel] Hle; [lia|]. cbn [kni_single_loop]. unfold mbind, M_bind. by rewrite Eb.
Qed.

(** [mg_kni_tx_single] of a packet that the caller holds returns 1, and the packet has
    then been handed over exactly once. *)
Theorem kni_tx_single_correct (mbuf : nat) (k : K) :
  kni_owns k [mbuf] ->
  exists fuel0 k', (forall fuel, (fuel0 <= fuel)%nat -> mg_kni_tx_single fuel mbuf k = Ret (1, k')) /\
    kni_sent k' = kni_sent k ++ [mbuf].
Proof.
  intros Hown. destruct (kni_single_spec mbuf _ k eq_refl Hown) as (f & [] & k' & Hf & Hq & _). exists f, k'. split; [|done].
  intros fuel Hle. unfold mg_kni_tx_single, mbind, M_bind. by rewrite Hf.
Qed.

(** [mg_kni_tx_burst] retries a partly accepted burst from its first packet:
    when the first attempt accepts only [n] packets and the second all of them, the
    first [n] packets, which the interface already owned, are handed over twice. *)
Theorem kni_tx_burst_duplicates (mbufs : list nat) (k k1 k2 : K) (n : Z) (fuel : nat) :
  0 < n < Z.of_nat (length mbufs) -> (2 <= fuel)%nat ->
  kni_tx_burst mbufs k = Ret (n, k1) -> kni_tx_burst mbufs k1 = Ret (Z.of_nat (length mbufs), k2) ->
  mg_kni_tx_burst fuel mbufs k = Ret (Z.of_nat (length mbufs), k2) /\
  kni_sent k2 = kni_sent k ++ take (Z.to_nat n) mbufs ++ mbufs.
Proof.
  intros Hn Hf E1 E2. split.
  - destruct fuel as [|[|fuel]]; [lia..|]. unfold mg_kni_tx_burst. cbn [kni_burst_loop].
    destruct (Z.ltb_spec 0 (Z.of_nat (length mbufs))); [|lia]. cbn [negb].
    unfold mbind, M_bind. rewrite E1.
    destruct (Z.ltb_spec n (Z.of_nat (length mbufs))); [|lia]. cbn [negb]. rewrite E2.
    destruct fuel; cbn [kni_burst_loop]; rewrite Z.ltb_irrefl; done.
  - destruct (kni_prefix _ _ _ _ E1) as [_ H1]. destruct (kni_prefix _ _ _ _ E2) as [_ H2].
    rewrite H2, H1, Nat2Z.id, firstn_all. by rewrite app_assoc.
Qed.
End Spec.

(** ** Examples *)

(** A queue with [room] free entries that is emptied after every burst it cannot
    take as a whole. *)
Record simkni := SimKni { sk_sent : list nat; sk_room : nat; sk_size : nat }.

#[global] Instance sim_kni : Kni simkni := {|
  kni_tx_burst mbufs k :=
    if (length mbufs <=? sk_room k)%nat
    then Ret (Z.of_nat (length mbufs), SimKni (sk_sent k ++ mbufs) (sk_room k - length mbufs) (sk_size k))
    else Ret (Z.of_nat (length (take (sk_room k) mbufs)),
              SimKni (sk_sent k ++ take (sk_room k) mbufs) (S (sk_size k)) (sk_size k));
  kni_sent := sk_sent
|}.

#[global] Instance sim_kni_laws : KniLaws simkni.
Proof.
  refine {| kni_owns _ _ := True; kni_patience k := if (sk_room k =? 0)%nat then 1%nat else 0%nat |}.
  - intros mbufs [snt room sz] n k' E. cbn -[take] in E |- *.
    destruct (Nat.leb_spec (length mbufs) room); injection E as <- <-; cbn -[take]; split.
    + lia.
    + by rewrite Nat2Z.id, firstn_all.
    + rewrite length_take. lia.
    + rewrite Nat2Z.id, length_take. f_equal.
      replace (room `min` length mbufs)%nat with room by lia. done.
  - intros mbufs [snt room sz] _. cbn -[take].
    destruct (Nat.leb_spec (length mbufs) room); eexists _, _; (split; [reflexivity|]); (split; [done|]); intros Hne E0.
    + destruct mbufs; [done|]. discriminate.
    + rewrite length_take in E0. assert (room = 0%nat) as -> by lia. cbn. lia.
Defined.

Lemma kni_tx_single_correct_witness :
  exists fuel0 k', (forall fuel, (fuel0 <= fuel)%nat -> mg_kni_tx_single fuel 7 (SimKni [4]%nat 0 1) = Ret (1, k')) /\
    kni_sent k' = [4; 7]%nat.
Proof. exact (kni_tx_single_correct 7 (SimKni [4]%nat 0 1) I). Defined.

Lemma kni_tx_burst_duplicates_witness :
  mg_kni_tx_burst 2 [1; 2; 3]%nat (SimKni [] 2 5) = Ret (3, SimKni [1; 2; 1; 2; 3]%nat 3 5) /\
  [1; 2; 1; 2; 3]%nat = take (Z.to_nat 2) [1; 2; 3]%nat ++ [1; 2; 3]%nat.
Proof.
  refine (kni_tx_burst_duplicates [1; 2; 3]%nat (SimKni [] 2 5) (SimKni [1; 2]%nat 6 5)
    (SimKni [1; 2; 1; 2; 3]%nat 3 5) 2 2 _ _ _ _); [simpl; lia|lia|reflexivity|reflexivity].
Defined.
