(* ===== verification/RteMempool.v ===== *)
(** librte_mempool (rte_mempool.h, rte_mempool.c) and its two handlers, the stack
    (rte_mempool_stack.c) and the ring (rte_mempool_ring.c): taking objects from a
    pool and putting them back, through a cache per core.

    A handler is an interface (the table of operations of rte_mempool_ops.c): a class
    of three operations. The build has RTE_LIBRTE_MEMPOOL_DEBUG unset. A pool is used
    by one core at a time here; the spinlock of the stack is then free. *)
From Stdlib Require Import ZArith Lia.
From stdpp Require Import base numbers list.
From S2P Require Import Prelude Ring.

#[local] Open Scope Z_scope.

Definition RTE_MEMPOOL_CACHE_MAX_SIZE : Z := 512.
Definition RTE_MAX_LCORE : nat := 128.

(** [memcpy] of [l] into the array [a] at [off]. *)
Definition blit (a : list nat) (off : nat) (l : list nat) : option (list nat) :=
  if (off + length l <=? length a)%nat
  then Some (take off a ++ l ++ drop (off + length l) a) else None.

(** The first [n] objects of a table. *)
Definition first (n : Z) (l : list nat) : option (list nat) :=
  if (Z.to_nat n <=? length l)%nat then Some (take (Z.to_nat n) l) else None.

(** [k] elements of [a] from index [len - 1] downwards. *)
Fixpoint read_down (k : nat) (a : list nat) (len : nat) : option (list nat) :=
  match k with
  | O => Some []
  | S k =>
    match len with
    | O => None
    | S len => x ← a !! len; rest ← read_down k a len; Some (x :: rest)
    end
  end.

(** ** Handlers *)

(** The result code of [ops_enqueue]; that of [ops_dequeue] with the objects. *)
Class MempoolOps (H : Type) := {
  ops_enqueue : list nat -> Z -> M H Z;
  ops_dequeue : Z -> M H (Z * list nat);
  ops_get_count : H -> Z
}.

(** *** The stack *)

Record rte_mempool_stack := Stack { ssize : Z; slen : Z; sobjs : list nat }.

(** [(n+16)*sizeof(void* )] bytes of objects, zeroed; [alloc] is whether the heap has
    them. *)
Definition stack_alloc (alloc : bool) (n : Z) : Z + rte_mempool_stack :=
  if alloc then inr (Stack n 0 (replicate (Z.to_nat (n + 16)) 0%nat)) else inl (- ENOMEM).

Definition stack_enqueue (obj_table : list nat) (n : Z) : M rte_mempool_stack Z :=
  s ← gets id;
  if ssize s <? u32 (slen s + n) then mret (- ENOBUFS)
  else
    match (l ← first n obj_table; blit (sobjs s) (Z.to_nat (slen s)) l) with
    | None => fault
    | Some a => modify (fun _ => Stack (ssize s) (u32 (slen s + n)) a) ;; mret 0
    end.

Definition stack_dequeue (n : Z) : M rte_mempool_stack (Z * list nat) :=
  s ← gets id;
  if slen s <? n then mret (- ENOENT, [])
  else
    match read_down (Z.to_nat n) (sobjs s) (Z.to_nat (slen s)) with
    | None => fault
    | Some out => modify (fun _ => Stack (ssize s) (slen s - n) (sobjs s)) ;; mret (0, out)
    end.

Definition stack_get_count (s : rte_mempool_stack) : Z := slen s.

#[global] Instance ops_stack : MempoolOps rte_mempool_stack := {|
  ops_enqueue := stack_enqueue; ops_dequeue := stack_dequeue; ops_get_count := stack_get_count
|}.

(** *** The ring *)

(** [rte_ring_..._enqueue_bulk(...) == 0 ? -ENOBUFS : 0] *)
Definition ring_status (n : Z) : Z := if n =? 0 then - ENOBUFS else 0.

Definition common_ring_mp_enqueue (obj_table : list nat) (n : Z) : M rte_ring Z :=
  k ← rte_ring_mp_enqueue_bulk obj_table n; mret (ring_status k.1).
Definition common_ring_sp_enqueue (obj_table : list nat) (n : Z) : M rte_ring Z :=
  k ← rte_ring_sp_enqueue_bulk obj_table n; mret (ring_status k.1).
Definition common_ring_mc_dequeue (n : Z) : M rte_ring (Z * list nat) :=
  k ← rte_ring_mc_dequeue_bulk n; mret (ring_status (Z.of_nat (length k.1)), k.1).
Definition common_ring_sc_dequeue (n : Z) : M rte_ring (Z * list nat) :=
  k ← rte_ring_sc_dequeue_bulk n; mret (ring_status (Z.of_nat (length k.1)), k.1).
Definition common_ring_get_count (r : rte_ring) : Z := rte_ring_count r.

(** The flags of a pool. *)
Definition MEMPOOL_F_NO_SPREAD : Z := 1.
Definition MEMPOOL_F_NO_CACHE_ALIGN : Z := 2.
Definition MEMPOOL_F_SP_PUT : Z := 4.
Definition MEMPOOL_F_SC_GET : Z := 8.
Definition MEMPOOL_F_POOL_CREATED : Z := 16.
Definition MEMPOOL_F_NO_PHYS_CONTIG : Z := 32.

Definition has_flag (flags f : Z) : bool := negb (Z.land flags f =? 0).

(** The ring has room for every object of the pool; the error is [rte_errno]'s. *)
Definition common_ring_alloc (e : ring_env) (flags size : Z) : Z + rte_ring :=
  let rg_flags := Z.lor (if has_flag flags MEMPOOL_F_SP_PUT then RING_F_SP_ENQ else 0)
                        (if has_flag flags MEMPOOL_F_SC_GET then RING_F_SC_DEQ else 0) in
  match rte_ring_create e (rte_align32pow2 (u32 (size + 1))) rg_flags with
  | inr r => inr r
  | inl err => inl (- err)
  end.

(** The four tables differ in the way indices are updated. *)
Definition ops_ring (sp sc : bool) : MempoolOps rte_ring := {|
  ops_enqueue := if sp then common_ring_sp_enqueue else common_ring_mp_enqueue;
  ops_dequeue := if sc then common_ring_sc_dequeue else common_ring_mc_dequeue;
  ops_get_count := common_ring_get_count
|}.

(** ** Pools *)

Record rte_mempool_cache := Cache { csize : Z; flushthresh : Z; clen : Z; cobjs : list nat }.

(** [(c) * 1.5], cut to an integer. *)
Definition CALC_CACHE_FLUSHTHRESH (c : Z) : Z := 3 * c / 2.

Definition mempool_cache_init (size : Z) : rte_mempool_cache :=
  Cache size (CALC_CACHE_FLUSHTHRESH size) 0
    (replicate (Z.to_nat (RTE_MEMPOOL_CACHE_MAX_SIZE * 3)) 0%nat).

Definition rte_mempool_cache_create (alloc : bool) (size : Z) : Z + rte_mempool_cache :=
  if (size =? 0) || (RTE_MEMPOOL_CACHE_MAX_SIZE <? size) then inl EINVAL
  else if alloc then inr (mempool_cache_init size) else inl ENOMEM.

Definition set_clen (v : Z) (c : rte_mempool_cache) : rte_mempool_cache :=
  Cache (csize c) (flushthresh c) v (cobjs c).
Definition set_cobjs (v : list nat) (c : rte_mempool_cache) : rte_mempool_cache :=
  Cache (csize c) (flushthresh c) (clen c) v.

(** The part of [struct rte_mempool] that is used after its creation. *)
Record rte_mempool (H : Type) := RteMempool {
  pool_data : H; psize : Z; cache_size : Z; local_cache : list rte_mempool_cache
}.
Arguments RteMempool {H} _ _ _ _.
Arguments pool_data {H} _.
Arguments psize {H} _.
Arguments cache_size {H} _.
Arguments local_cache {H} _.

Section Ops.
Context {H : Type} `{MempoolOps H}.
Abbreviation pool := (rte_mempool H).

Definition set_data (h : H) (mp : pool) : pool := RteMempool h (psize mp) (cache_size mp) (local_cache mp).

Definition set_cache (lcore : nat) (c : rte_mempool_cache) (mp : pool) : pool :=
  RteMempool (pool_data mp) (psize mp) (cache_size mp) (<[lcore := c]> (local_cache mp)).

(** A call through the table of operations. *)
Definition on_data {A} (m : M H A) : M pool A := fun mp =>
  match m (pool_data mp) with
  | Ret (a, h) => Ret (a, set_data h mp)
  | Fault => Fault
  | Diverge => Diverge
  end.

Definition rte_mempool_ops_enqueue_bulk (objs : list nat) (n : Z) : M pool Z := on_data (ops_enqueue objs n).
Definition rte_mempool_ops_dequeue_bulk (n : Z) : M pool (Z * list nat) := on_data (ops_dequeue n).
Definition rte_mempool_ops_get_count (mp : pool) : Z := ops_get_count (pool_data mp).

(** The cache of a core, if caches are enabled. *)
Definition rte_mempool_default_cache (lcore : nat) (mp : pool) : option rte_mempool_cache :=
  if cache_size mp =? 0 then None
  else if (RTE_MAX_LCORE <=? lcore)%nat then None
  else local_cache mp !! lcore.

Definition rte_mempool_cache_flush (c : rte_mempool_cache) : M pool rte_mempool_cache :=
  _ ← rte_mempool_ops_enqueue_bulk (take (Z.to_nat (clen c)) (cobjs c)) (clen c);
  mret (set_clen 0 c).

(** Put [n] objects; the cache given, a user's or the core's own, is returned
    changed. *)
Definition mempool_generic_put (objs : list nat) (n : Z) (cache : option rte_mempool_cache) :
    M pool (option rte_mempool_cache) :=
  match cache with
  | None => _ ← rte_mempool_ops_enqueue_bulk objs n; mret None
  | Some c =>
    if RTE_MEMPOOL_CACHE_MAX_SIZE <? n
    then _ ← rte_mempool_ops_enqueue_bulk objs n; mret (Some c)
    else
      match (l ← first n objs; blit (cobjs c) (Z.to_nat (clen c)) l) with
      | None => fault
      | Some a =>
        let c := set_clen (u32 (clen c + n)) (set_cobjs a c) in
        if flushthresh c <=? clen c then
          let excess := clen c - csize c in
          _ ← rte_mempool_ops_enqueue_bulk
                (take (Z.to_nat excess) (drop (Z.to_nat (csize c)) (cobjs c))) excess;
          mret (Some (set_clen (csize c) c))
        else mret (Some c)
      end
  end.

(** The direct way, which both failures of the cache lead to. *)
Definition ring_dequeue_direct (n : Z) (cache : option rte_mempool_cache) :
    M pool (Z * list nat * option rte_mempool_cache) :=
  r ← rte_mempool_ops_dequeue_bulk n; mret (r, cache).

(** Fill the response from the cache. *)
Definition cache_response (n : Z) (c : rte_mempool_cache) :
    M pool (Z * list nat * option rte_mempool_cache) :=
  match read_down (Z.to_nat n) (cobjs c) (Z.to_nat (clen c)) with
  | None => fault
  | Some out => mret (0, out, Some (set_clen (clen c - n) c))
  end.

Definition mempool_generic_get (n : Z) (cache : option rte_mempool_cache) :
    M pool (Z * list nat * option rte_mempool_cache) :=
  match cache with
  | None => ring_dequeue_direct n None
  | Some c =>
    if csize c <=? n then ring_dequeue_direct n (Some c)
    else if clen c <? n then
      let req := u32 (n + (csize c - clen c)) in
      r ← rte_mempool_ops_dequeue_bulk req;
      if r.1 <? 0 then ring_dequeue_direct n (Some c)
      else
        match blit (cobjs c) (Z.to_nat (clen c)) r.2 with
        | None => fault
        | Some a => cache_response n (set_clen (u32 (clen c + req)) (set_cobjs a c))
        end
    else cache_response n c
  end.

(** The functions that use the cache of the calling core. *)
Definition store_cache (lcore : nat) (c : option rte_mempool_cache) : M pool unit :=
  match c with Some c => modify (set_cache lcore c) | None => mret tt end.

Definition rte_mempool_put_bulk (lcore : nat) (objs : list nat) (n : Z) : M pool unit :=
  cache ← gets (rte_mempool_default_cache lcore);
  c ← mempool_generic_put objs n cache; store_cache lcore c.

Definition rte_mempool_put (lcore : nat) (obj : nat) : M pool unit := rte_mempool_put_bulk lcore [obj] 1.

Definition rte_mempool_get_bulk (lcore : nat) (n : Z) : M pool (Z * list nat) :=
  cache ← gets (rte_mempool_default_cache lcore);
  r ← mempool_generic_get n cache;
  store_cache lcore r.2 ;; mret r.1.

Definition rte_mempool_get (lcore : nat) : M pool (Z * list nat) := rte_mempool_get_bulk lcore 1.

Definition sum_clen (cs : list rte_mempool_cache) : Z := foldr (fun c n => clen c + n) 0 cs.

Definition rte_mempool_avail_count (mp : pool) : Z :=
  let count := rte_mempool_ops_get_count mp in
  if cache_size mp =? 0 then count
  else let count := u32 (count + sum_clen (local_cache mp)) in
       if psize mp <? count then psize mp else count.

Definition rte_mempool_in_use_count (mp : pool) : Z := u32 (psize mp - rte_mempool_avail_count mp).
Definition rte_mempool_full (mp : pool) : bool := rte_mempool_avail_count mp =? psize mp.
Definition rte_mempool_empty (mp : pool) : bool := rte_mempool_avail_count mp =? 0.
End Ops.
