(* ===== verification/RteMempoolSpec.v ===== *)
(** The memory pool keeps its objects: whatever the handler and whatever is in the
    caches, an object taken out was in the pool and one put back is in it, and the
    pool satisfies the interface the packet buffers are verified against. *)
From Stdlib Require Import ZArith Lia.
From stdpp Require Import base numbers list.
From S2P Require Import Prelude Ring RingSpec RteMempool.

#[local] Open Scope Z_scope.

(** ** Arrays *)

Lemma blit_spec a off l :
  (off + length l <= length a)%nat ->
  exists a', blit a off l = Some a' /\ length a' = length a /\
    take (off + length l) a' = take off a ++ l /\ take off a' = take off a.
Proof.
  intros Hle. unfold blit. destruct (Nat.leb_spec (off + length l) (length a)); [|lia].
  eexists. split; [reflexivity|]. rewrite !length_app, length_take, length_drop.
  split; [lia|]. assert (length (take off a) = off) as Ho by (rewrite length_take; lia). split.
  - rewrite app_assoc. rewrite take_app_length'; [done|]. rewrite length_app. lia.
  - by rewrite take_app_length'.
Qed.

Lemma first_all l : first (Z.of_nat (length l)) l = Some l.
Proof. unfold first. rewrite Nat2Z.id, Nat.leb_refl, firstn_all. done. Qed.

Lemma read_down_spec k a : forall len,
  (k <= len <= length a)%nat ->
  read_down k a len = Some (reverse (drop (len - k) (take len a))).
Proof.
  induction k as [|k IH]; intros len Hk; cbn [read_down].
  - rewrite Nat.sub_0_r, drop_ge; [done|]. rewrite length_take. lia.
  - destruct len as [|len]; [lia|]. destruct (lookup_lt_is_Some_2 a len) as [x Hx]; [lia|].
    unfold mbind, option_bind. rewrite Hx, IH by lia. f_equal. rewrite (take_S_r _ _ _ Hx).
    rewrite drop_app_le by (rewrite length_take; lia). by rewrite reverse_app.
Qed.

Lemma read_down_perm k a len :
  (k <= len <= length a)%nat ->
  exists out, read_down k a len = Some out /\ length out = k /\ take len a ≡ₚ out ++ take (len - k) a.
Proof.
  intros Hk. eexists. split; [by apply read_down_spec|]. rewrite length_reverse, length_drop, length_take.
  split; [lia|]. rewrite reverse_Permutation, <- (take_drop (len - k) (take len a)) at 1.
  rewrite take_take, Nat.min_l by lia. by rewrite Permutation_app_comm.
Qed.

(** ** What a handler promises *)

(** A handler holds at most [ops_cap] objects, [ops_objs]; a request it cannot meet as a whole
    leaves it as it was. *)
Class MempoolOpsLaws (H : Type) `{MempoolOps H} := {
  ops_cap : H -> nat;
  ops_rep : H -> list nat -> Prop;
  ops_objs : H -> list nat;
  ops_objs_spec h q : ops_rep h q -> ops_objs h = q;
  ops_fit h q : ops_rep h q -> (length q <= ops_cap h)%nat /\ Z.of_nat (ops_cap h) < 2 ^ 31;
  ops_enqueue_spec h q objs :
    ops_rep h q -> Z.of_nat (length objs) < 2 ^ 31 ->
    exists ret h', ops_enqueue objs (Z.of_nat (length objs)) h = Ret (ret, h') /\ ops_cap h' = ops_cap h /\
      (((length q + length objs <= ops_cap h)%nat /\ (objs <> [] -> ret = 0) /\
        exists q', ops_rep h' q' /\ q' ≡ₚ objs ++ q) \/
       ((ops_cap h < length q + length objs)%nat /\ ret < 0 /\ ops_rep h' q));
  ops_dequeue_spec h q n :
    ops_rep h q -> 0 <= n < 2 ^ 32 ->
    exists ret out h', ops_dequeue n h = Ret ((ret, out), h') /\ ops_cap h' = ops_cap h /\
      ((n <= Z.of_nat (length q) /\ ret = 0 /\ Z.of_nat (length out) = n /\
        exists q', ops_rep h' q' /\ q ≡ₚ out ++ q') \/
       ((0 < n -> Z.of_nat (length q) < n) /\ ret < 0 /\ out = [] /\ ops_rep h' q));
  ops_count_spec h q : ops_rep h q -> ops_get_count h = Z.of_nat (length q)
}.

(** *** The stack *)

Record stack_rep (s : rte_mempool_stack) (q : list nat) : Prop := {
  sr_size : 0 <= ssize s < 2 ^ 31;
  sr_room : ssize s <= Z.of_nat (length (sobjs s));
  sr_len : slen s = Z.of_nat (length q) /\ slen s <= ssize s;
  sr_objs : q = take (Z.to_nat (slen s)) (sobjs s)
}.

Lemma stack_enqueue_spec s q objs :
  stack_rep s q -> Z.of_nat (length objs) < 2 ^ 31 ->
  exists ret s', stack_enqueue objs (Z.of_nat (length objs)) s = Ret (ret, s') /\ ssize s' = ssize s /\
    ((Z.of_nat (length q + length objs) <= ssize s /\ ret = 0 /\ stack_rep s' (q ++ objs)) \/
     (ssize s < Z.of_nat (length q + length objs) /\ ret < 0 /\ s' = s)).
Proof.
  intros [Hs Hr [Hl Hle] Ho] Hn. unfold stack_enqueue, gets, mbind, M_bind, mret, M_ret, id.
  rewrite (wrapu_small 32) by lia. destruct (Z.ltb_spec (ssize s) (slen s + Z.of_nat (length objs))).
  - exists (- ENOBUFS), s. split_and!; [done..|]. right. unfold ENOBUFS. split_and!; [lia..|done].
  - rewrite first_all. cbn [option_bind mbind].
    destruct (blit_spec (sobjs s) (Z.to_nat (slen s)) objs) as (a & E & Hla & Ht & _); [lia|].
    unfold mbind, option_bind. rewrite E. eexists 0, _. split; [reflexivity|]. split; [done|]. left.
    split_and!; [lia|done|]. split; cbn; try lia; [rewrite length_app; lia|].
    rewrite Z2Nat.inj_add, Nat2Z.id, Ht, <- Ho by lia. done.
Qed.

Lemma stack_dequeue_spec s q n :
  stack_rep s q -> 0 <= n ->
  exists ret out s', stack_dequeue n s = Ret ((ret, out), s') /\ ssize s' = ssize s /\
    ((n <= Z.of_nat (length q) /\ ret = 0 /\ Z.of_nat (length out) = n /\
      exists q', stack_rep s' q' /\ q ≡ₚ out ++ q') \/
     (Z.of_nat (length q) < n /\ ret < 0 /\ out = [] /\ s' = s)).
Proof.
  intros [Hs Hr [Hl Hle] Ho] Hn. unfold stack_dequeue, gets, mbind, M_bind, mret, M_ret, id.
  destruct (Z.ltb_spec (slen s) n).
  - exists (- ENOENT), [], s. split_and!; [done..|]. right. unfold ENOENT. split_and!; [lia..|done|done].
  - destruct (read_down_perm (Z.to_nat n) (sobjs s) (Z.to_nat (slen s))) as (out & E & Hlo & Hp); [lia|].
    rewrite E. eexists 0, out, _. split; [reflexivity|]. split; [done|]. left. split_and!; [lia|done|lia|].
    exists (take (Z.to_nat (slen s) - Z.to_nat n) (sobjs s)). split; [|by rewrite Ho].
    split; cbn; try lia; [rewrite length_take; lia|]. f_equal. lia.
Qed.

#[global] Instance ops_stack_laws : MempoolOpsLaws rte_mempool_stack.
Proof.
  refine {| ops_cap s := Z.to_nat (ssize s); ops_rep := stack_rep;
            ops_objs s := take (Z.to_nat (slen s)) (sobjs s) |}.
  - intros s q []. done.
  - intros s q [Hs Hr [Hl Hle] Ho]. lia.
  - intros s q objs Hr Hn. destruct (stack_enqueue_spec s q objs Hr Hn) as (ret & s' & E & Hsz & Hc).
    exists ret, s'. split_and!; [done|by rewrite Hsz|]. pose proof Hr as [Hs _ [Hl Hle] _].
    destruct Hc as [(? & -> & Hr')|(? & ? & ->)]; [left|right].
    + split_and!; [lia|done|]. exists (q ++ objs). split; [done|]. by rewrite Permutation_app_comm.
    + split_and!; [lia|done|done].
  - intros s q n Hr Hn. destruct (stack_dequeue_spec s q n Hr ltac:(lia)) as (ret & out & s' & E & Hsz & Hc).
    exists ret, out, s'. split_and!; [done|by rewrite Hsz|].
    destruct Hc as [(? & -> & ? & q' & Hr' & Hp)|(? & ? & -> & ->)]; [left|right]; split_and!; try done.
    by exists q'.
  - intros s q [_ _ [Hl _] _]. done.
Defined.

(** *** The ring *)

Lemma ring_handler_enqueue (sp sc : bool) objs n r :
  @ops_enqueue _ (ops_ring sp sc) objs n r =
  (k ← rte_ring_do_enqueue objs n RTE_RING_QUEUE_FIXED sp; mret (ring_status k.1)) r.
Proof. by destruct sp. Qed.

Lemma ring_handler_dequeue (sp sc : bool) n r :
  @ops_dequeue _ (ops_ring sp sc) n r =
  (k ← rte_ring_do_dequeue n RTE_RING_QUEUE_FIXED sc; mret (ring_status (Z.of_nat (length k.1)), k.1)) r.
Proof. by destruct sc. Qed.

(** The objects from the consumer's position on. *)
Definition ring_objs (r : rte_ring) : list nat := default [] (DEQUEUE_PTRS r (tail (cons r)) (rte_ring_count r)).

Lemma ring_objs_spec r q : ring_rep r q -> ring_objs r = q.
Proof.
  intros Hr. unfold ring_objs. rewrite (count_spec r q Hr). destruct Hr as [Hsh Hfit (a & _ & -> & _ & _ & Hh)].
  rewrite (dequeue_ptrs_spec r a q (Z.of_nat (length q))); [done|done|lia|by rewrite Nat2Z.id|done].
Qed.

Definition ops_ring_laws (sp sc : bool) : @MempoolOpsLaws rte_ring (ops_ring sp sc).
Proof.
  refine {| ops_cap r := Z.to_nat (capacity r); ops_rep := ring_rep; ops_objs := ring_objs |}.
  - apply ring_objs_spec.
  - intros r q [Hsh Hfit _]. pose proof (rsize_pos r Hsh). pose proof (shape_mask r Hsh).
    pose proof (shape_cap r Hsh). lia.
  - intros r q objs Hr Hn.
    destruct (do_enqueue_spec r q objs RTE_RING_QUEUE_FIXED sp Hr ltac:(lia)) as (r' & E & Hr' & Hcap).
    rewrite ring_handler_enqueue. unfold mbind, M_bind, mret, M_ret. rewrite E.
    destruct Hr as [Hsh Hfit Hpos]. pose proof (shape_cap r Hsh).
    destruct (clip_fixed (Z.of_nat (length objs)) (capacity r - Z.of_nat (length q)) ltac:(lia)) as [[Ek ?]|[Ek ?]];
      rewrite Ek in *; eexists _, r'; (split; [reflexivity|]); (split; [by rewrite Hcap|]); [left|right].
    + rewrite Nat2Z.id, firstn_all in Hr'. split_and!; [lia| |exists (q ++ objs); split; [done|apply Permutation_app_comm]].
      intros Hne. unfold ring_status. cbn. destruct objs; [done|]. by destruct (Z.eqb_spec (Z.of_nat (length (n :: objs))) 0).
    + rewrite take_0, app_nil_r in Hr'. split_and!; [lia|done|done].
  - intros r q n Hr Hn.
    destruct (do_dequeue_spec r q n RTE_RING_QUEUE_FIXED sc Hr ltac:(lia)) as (r' & E & Hr' & Hcap).
    rewrite ring_handler_dequeue. unfold mbind, M_bind, mret, M_ret. rewrite E.
    destruct (clip_fixed n (Z.of_nat (length q)) ltac:(lia)) as [[Ek ?]|[Ek ?]];
      rewrite Ek in *; eexists _, _, r'; (split; [reflexivity|]); (split; [by rewrite Hcap|]); cbn [fst].
    + destruct (decide (n = 0)) as [->|]; [right; rewrite take_0; rewrite drop_0 in Hr'; by split_and!|left].
      rewrite length_take. unfold ring_status. split_and!; [lia| |lia|].
      * destruct (Z.eqb_spec (Z.of_nat (Z.to_nat n `min` length q)) 0); [lia|done].
      * exists (drop (Z.to_nat n) q). by rewrite take_drop.
    + right. rewrite take_0. rewrite drop_0 in Hr'. by split_and!.
  - intros r q Hr. by apply count_spec.
Defined.

(** ** The cache of a core *)

Section Pool.
Context {H : Type} `{MempoolOpsLaws H}.
Implicit Types mp : rte_mempool H.

Definition cached (c : rte_mempool_cache) : list nat := take (Z.to_nat (clen c)) (cobjs c).

Record cache_ok (cs : Z) (c : rte_mempool_cache) : Prop := {
  ck_size : csize c = cs /\ 0 < cs <= RTE_MEMPOOL_CACHE_MAX_SIZE;
  ck_flush : flushthresh c = CALC_CACHE_FLUSHTHRESH cs;
  ck_len : 0 <= clen c <= flushthresh c;
  ck_objs : length (cobjs c) = Z.to_nat (RTE_MEMPOOL_CACHE_MAX_SIZE * 3)
}.

Lemma flush_bounds cs : 0 < cs <= 512 -> cs <= CALC_CACHE_FLUSHTHRESH cs <= 768.
Proof. unfold CALC_CACHE_FLUSHTHRESH. intros. Z.div_mod_to_equations. lia. Qed.

Ltac cache_bounds Hc :=
  let H1 := fresh in let H2 := fresh in
  destruct Hc as [[? H1] H2 ? ?]; unfold RTE_MEMPOOL_CACHE_MAX_SIZE in *;
  rewrite ?H2 in *; pose proof (flush_bounds _ H1).

Lemma length_cached cs c : cache_ok cs c -> length (cached c) = Z.to_nat (clen c).
Proof. intros Hc. cache_bounds Hc. unfold cached. rewrite length_take. lia. Qed.

(** A cache whose first [clen] objects are [l]. *)
Lemma cache_ok_set cs c a v :
  cache_ok cs c -> length a = length (cobjs c) -> 0 <= v <= CALC_CACHE_FLUSHTHRESH cs ->
  cache_ok cs (set_clen v (set_cobjs a c)).
Proof. intros [[] ? ? ?] Ha Hv. split; cbn; [done..| |]; [lia|congruence]. Qed.

Lemma on_data_ret {A} (m : M H A) mp a h :
  m (pool_data mp) = Ret (a, h) -> on_data m mp = Ret (a, set_data h mp).
Proof. intros E. unfold on_data. by rewrite E. Qed.

Lemma cache_put_spec cs c mp q objs :
  cache_ok cs c -> ops_rep (pool_data mp) q -> Z.of_nat (length objs) < 2 ^ 31 ->
  exists c' h' q', mempool_generic_put objs (Z.of_nat (length objs)) (Some c) mp = Ret (Some c', set_data h' mp) /\
    cache_ok cs c' /\ ops_rep h' q' /\ ops_cap h' = ops_cap (pool_data mp) /\
    ((length q + length (cached c) + length objs <= ops_cap (pool_data mp))%nat ->
     q' ++ cached c' ≡ₚ objs ++ q ++ cached c).
Proof.
  intros Hc Hr Hobjs. pose proof (length_cached _ _ Hc) as Hlc.
  unfold mempool_generic_put. destruct (Z.ltb_spec RTE_MEMPOOL_CACHE_MAX_SIZE (Z.of_nat (length objs))) as [Hbig|Hn].
  - destruct (ops_enqueue_spec _ q objs Hr Hobjs) as (ret & h' & E & Hc' & Hcase).
    unfold mbind, M_bind, rte_mempool_ops_enqueue_bulk. rewrite (on_data_ret _ _ _ _ E).
    destruct Hcase as [(_ & _ & q' & Hr' & Hp)|(? & _ & Hr')]; [exists c, h', q'|exists c, h', q];
      split_and!; try done; [by rewrite Hp, app_assoc|lia].
  - rewrite first_all. pose proof Hc as Hc0. cache_bounds Hc0.
    destruct (blit_spec (cobjs c) (Z.to_nat (clen c)) objs) as (a & Ea & Hla & Ht & _); [lia|].
    unfold mbind at 1, option_bind. rewrite Ea. cbn [set_clen set_cobjs flushthresh clen csize cobjs].
    rewrite (wrapu_small 32) by lia.
    replace (Z.to_nat (clen c) + length objs)%nat with (Z.to_nat (clen c + Z.of_nat (length objs))) in Ht by lia.
    fold (cached c) in Ht.
    destruct (Z.leb_spec (flushthresh c) (clen c + Z.of_nat (length objs))) as [Hf|Hf].
    + set (v := clen c + Z.of_nat (length objs)) in *.
      set (ex := take (Z.to_nat (v - csize c)) (drop (Z.to_nat (csize c)) a)).
      assert (length ex = Z.to_nat (v - csize c)) as Hex
        by (unfold ex; rewrite length_take, length_drop; lia).
      assert (take (Z.to_nat v) a = take (Z.to_nat (csize c)) a ++ ex) as Hsplit.
      { unfold ex. replace (Z.to_nat v) with (Z.to_nat (csize c) + Z.to_nat (v - csize c))%nat by lia.
        by rewrite take_take_drop. }
      destruct (ops_enqueue_spec _ q ex Hr ltac:(lia)) as (ret & h' & E & Hc' & Hcase).
      replace (Z.of_nat (length ex)) with (v - csize c) in E by lia.
      unfold mbind, M_bind, rte_mempool_ops_enqueue_bulk. rewrite (on_data_ret _ _ _ _ E).
      destruct Hcase as [(_ & _ & q' & Hr' & Hp)|(? & _ & Hr')];
        [exists (set_clen (csize c) (set_cobjs a c)), h', q'|exists (set_clen (csize c) (set_cobjs a c)), h', q];
        (split_and!; [done|apply cache_ok_set; [done|done|lia]|done|done|]); [intros _|lia].
      unfold cached at 1. cbn [set_clen set_cobjs clen cobjs]. rewrite Hp, <- app_assoc, (Permutation_app_comm q), app_assoc.
      rewrite (Permutation_app_comm ex), <- Hsplit, Ht.
      rewrite (Permutation_app_comm (cached c) objs), <- app_assoc. by rewrite (Permutation_app_comm (cached c) q).
    + exists (set_clen (clen c + Z.of_nat (length objs)) (set_cobjs a c)), (pool_data mp), q.
      split_and!; [by destruct mp|apply cache_ok_set; [done|done|lia]|done|done|]. intros _.
      unfold cached at 1. cbn [set_clen set_cobjs clen cobjs]. rewrite Ht, app_assoc.
      by rewrite (Permutation_app_comm objs), <- app_assoc.
Qed.

(** A cache that can answer does so; otherwise the objects come from the handler,
    after a refill or directly. *)
Lemma cache_response_spec cs c mp n :
  cache_ok cs c -> 0 <= n <= clen c ->
  exists out, cache_response n c mp = Ret ((0, out, Some (set_clen (clen c - n) c)), mp) /\
    cache_ok cs (set_clen (clen c - n) c) /\ Z.of_nat (length out) = n /\
    cached c ≡ₚ out ++ cached (set_clen (clen c - n) c).
Proof.
  intros Hc Hn. pose proof Hc as Hc0. cache_bounds Hc0. unfold cache_response.
  destruct (read_down_perm (Z.to_nat n) (cobjs c) (Z.to_nat (clen c))) as (out & -> & Hl & Hp); [lia|].
  exists out. split_and!; [done| |lia|].
  - destruct Hc as [[] ? ? ?]. split; cbn; [done..|lia|done].
  - unfold cached at 1. rewrite Hp. unfold cached. cbn [set_clen clen cobjs]. by rewrite Z2Nat.inj_sub by lia.
Qed.

Lemma direct_spec mp q n cache :
  ops_rep (pool_data mp) q -> 0 <= n < 2 ^ 32 ->
  exists ret out h' q', ring_dequeue_direct n cache mp = Ret ((ret, out, cache), set_data h' mp) /\
    ops_rep h' q' /\ ops_cap h' = ops_cap (pool_data mp) /\ q ≡ₚ out ++ q' /\
    ((n <= Z.of_nat (length q) /\ ret = 0 /\ Z.of_nat (length out) = n) \/
     ((0 < n -> Z.of_nat (length q) < n) /\ ret < 0 /\ out = [])).
Proof.
  intros Hr Hn. destruct (ops_dequeue_spec _ q n Hr Hn) as (ret & out & h' & E & Hcap & Hcase).
  exists ret, out, h'. unfold ring_dequeue_direct, rte_mempool_ops_dequeue_bulk, mbind, M_bind.
  rewrite (on_data_ret _ _ _ _ E).
  destruct Hcase as [(? & -> & ? & q' & Hr' & Hp)|(? & ? & -> & Hr')]; [exists q'|exists q]; split_and!; try done; tauto.
Qed.

Lemma cache_get_spec cs c mp q n :
  cache_ok cs c -> ops_rep (pool_data mp) q -> 0 <= n < 2 ^ 32 ->
  exists ret out c' h' q', mempool_generic_get n (Some c) mp = Ret ((ret, out, Some c'), set_data h' mp) /\
    cache_ok cs c' /\ ops_rep h' q' /\ ops_cap h' = ops_cap (pool_data mp) /\
    q ++ cached c ≡ₚ out ++ q' ++ cached c' /\
    (((n < cs /\ n <= clen c \/ n <= Z.of_nat (length q)) /\ ret = 0 /\ Z.of_nat (length out) = n) \/
     ((0 < n -> ~ (n < cs /\ n <= clen c) /\ Z.of_nat (length q) < n) /\ ret < 0 /\ out = [])).
Proof.
  intros Hc Hr Hn. pose proof Hc as Hc0. cache_bounds Hc0. unfold mempool_generic_get.
  destruct (Z.leb_spec (csize c) n) as [Hbig|Hsmall].
  { destruct (direct_spec mp q n (Some c) Hr Hn) as (ret & out & h' & q' & E & Hr' & Hcap & Hp & Hcase).
    exists ret, out, c, h', q'. split_and!; [done..|by rewrite Hp, app_assoc|].
    destruct Hcase as [(? & -> & ?)|(? & ? & ->)]; [left|right]; split_and!; try done; try lia. }
  destruct (Z.ltb_spec (clen c) n) as [Hlow|Hhave].
  2: { destruct (cache_response_spec cs c mp n Hc ltac:(lia)) as (out & E & Hc' & Hl & Hp).
       exists 0, out, (set_clen (clen c - n) c), (pool_data mp), q. split_and!; [by destruct mp|done..| |].
       - rewrite Hp, app_assoc, (Permutation_app_comm q), <- app_assoc. done.
       - left. split_and!; [left; lia|done|lia]. }
  rewrite (wrapu_small 32 (n + (csize c - clen c))) by lia. set (req := n + (csize c - clen c)) in *.
  destruct (ops_dequeue_spec _ q req Hr ltac:(lia)) as (ret & out & h' & E & Hcap & Hcase).
  unfold rte_mempool_ops_dequeue_bulk at 1, mbind, M_bind. rewrite (on_data_ret _ _ _ _ E). cbn [fst snd].
  destruct Hcase as [(? & -> & Hl & q' & Hr' & Hp)|(? & Hneg & -> & Hr')].
  - cbn [Z.ltb Z.compare]. destruct (blit_spec (cobjs c) (Z.to_nat (clen c)) out) as (a & -> & Hla & Ht & _); [lia|].
    rewrite (wrapu_small 32) by lia. set (c1 := set_clen (clen c + req) (set_cobjs a c)).
    assert (Hcached : cached c1 = cached c ++ out).
    { unfold cached, c1. cbn [set_clen set_cobjs clen cobjs]. rewrite <- Ht. f_equal. lia. }
    unfold cache_response. cbn [set_clen set_cobjs clen cobjs].
    destruct (read_down_perm (Z.to_nat n) a (Z.to_nat (clen c + req))) as (res & Er & Hlr & Hpr); [lia|].
    change (cobjs c1) with a. change (clen c1) with (clen c + req). rewrite Er.
    exists 0, res, (set_clen (clen c + req - n) c1), h', q'. split_and!; [done| |done|done| |].
    + apply (cache_ok_set cs c a); [done|done|]. subst req. lia.
    + unfold cached in Hcached at 1. change (clen c1) with (clen c + req) in Hcached.
      change (cobjs c1) with a in Hcached. rewrite Hcached in Hpr.
      unfold cached at 2. cbn [c1 set_clen set_cobjs clen cobjs].
      rewrite Z2Nat.inj_sub by lia. rewrite Hp, (Permutation_app_comm q'), (app_assoc res), <- Hpr.
      rewrite (Permutation_app_comm (cached c) out), <- !app_assoc. by rewrite (Permutation_app_comm (cached c)).
    + left. split_and!; [right; subst req; lia|done|lia].
  - destruct (Z.ltb_spec ret 0); [|lia].
    destruct (direct_spec (set_data h' mp) q n (Some c) Hr' Hn) as (ret2 & out & h2 & q' & E2 & Hr2 & Hcap2 & Hp & Hcase).
    exists ret2, out, c, h2, q'. rewrite E2. split_and!; [done..|by rewrite Hcap2|by rewrite Hp, app_assoc|].
    destruct Hcase as [(? & -> & ?)|(? & ? & ->)]; [left|right]; split_and!; try done; try lia.
Qed.

(** ** A pool with the caches of all cores *)

Definition caches mp : list rte_mempool_cache := if cache_size mp =? 0 then [] else local_cache mp.

(** The objects in the pool: those of the handler and those in the caches. *)
Definition contents mp (q : list nat) : list nat := q ++ concat (cached <$> caches mp).

Record pool_ok mp (q : list nat) : Prop := {
  pk_ops : ops_rep (pool_data mp) q;
  pk_size : 0 <= cache_size mp;
  pk_caches : Forall (cache_ok (cache_size mp)) (caches mp)
}.

Lemma concat_insert {A B} (f : A -> list B) (l : list A) i c :
  l !! i = Some c -> exists rest, concat (f <$> l) ≡ₚ f c ++ rest /\
    forall c', concat (f <$> <[i := c']> l) ≡ₚ f c' ++ rest.
Proof.
  intros Hi. exists (concat (f <$> take i l) ++ concat (f <$> drop (S i) l)).
  rewrite <- (take_drop_middle l i c Hi) at 1. split.
  - rewrite fmap_app, concat_app. cbn. by rewrite app_assoc, (Permutation_app_comm _ (f c)), <- app_assoc.
  - intros c'. rewrite insert_take_drop by by apply lookup_lt_Some in Hi.
    rewrite fmap_app, concat_app. cbn. by rewrite app_assoc, (Permutation_app_comm _ (f c')), <- app_assoc.
Qed.

(** The core has a cache, or works on the handler alone. *)
Lemma default_cache_cases lcore mp q :
  pool_ok mp q ->
  (rte_mempool_default_cache lcore mp = None) \/
  exists c rest, rte_mempool_default_cache lcore mp = Some c /\ cache_ok (cache_size mp) c /\
    contents mp q ≡ₚ q ++ cached c ++ rest /\
    forall h' q' c', cache_ok (cache_size mp) c' -> ops_rep h' q' ->
      pool_ok (set_cache lcore c' (set_data h' mp)) q' /\
      contents (set_cache lcore c' (set_data h' mp)) q' ≡ₚ q' ++ cached c' ++ rest.
Proof.
  intros [Hr Hs Hall]. unfold rte_mempool_default_cache, contents, caches in *.
  destruct (cache_size mp =? 0) eqn:E0; [by left|]. destruct (RTE_MAX_LCORE <=? lcore)%nat; [by left|].
  destruct (local_cache mp !! lcore) as [c|] eqn:Hl; [right|by left].
  destruct (concat_insert cached _ _ _ Hl) as (rest & Hrest & Hins). exists c, rest.
  split_and!; [done|by eapply Forall_lookup_1|by rewrite Hrest|].
  intros h' q' c' Hc' Hr'. cbn [set_cache set_data cache_size local_cache]. rewrite E0. split.
  - split; cbn; [done..|]. unfold caches. cbn. rewrite E0. by apply Forall_insert.
  - by rewrite Hins.
Qed.

Lemma set_data_ok mp h' q' q :
  pool_ok mp q -> ops_rep h' q' ->
  pool_ok (set_data h' mp) q' /\ contents (set_data h' mp) q' = q' ++ concat (cached <$> caches mp).
Proof. intros [Hr Hs Hall] Hr'. by split. Qed.

Definition pool_cap mp : nat := ops_cap (pool_data mp).

Lemma put_bulk_spec lcore mp q objs :
  pool_ok mp q -> Z.of_nat (length objs) < 2 ^ 31 ->
  exists mp' q', rte_mempool_put_bulk lcore objs (Z.of_nat (length objs)) mp = Ret (tt, mp') /\
    pool_ok mp' q' /\ pool_cap mp' = pool_cap mp /\ psize mp' = psize mp /\
    ((length (contents mp q) + length objs <= pool_cap mp)%nat -> contents mp' q' ≡ₚ objs ++ contents mp q).
Proof.
  intros Hok Hobjs. pose proof (pk_ops _ _ Hok) as Hr.
  unfold rte_mempool_put_bulk, pool_cap, mbind, M_bind, gets.
  destruct (default_cache_cases lcore mp q Hok) as [->|(c & rest & -> & Hc & Hcont & Hset)].
  - unfold mempool_generic_put, mbind, M_bind, mret, M_ret, store_cache, rte_mempool_ops_enqueue_bulk.
    destruct (ops_enqueue_spec _ q objs Hr Hobjs) as (ret & h' & E & Hc' & Hcase).
    rewrite (on_data_ret _ _ _ _ E).
    destruct Hcase as [(_ & _ & q' & Hr' & Hp)|(? & _ & Hr')]; [exists (set_data h' mp), q'|exists (set_data h' mp), q];
      destruct (set_data_ok mp h' _ q Hok Hr') as [Hok' Hcon]; split_and!; try done; intros Hroom.
    + unfold contents at 1 in Hcon. unfold contents. by rewrite Hcon, Hp, app_assoc.
    + unfold contents in Hroom. rewrite length_app in Hroom. lia.
  - destruct (cache_put_spec (cache_size mp) c mp q objs Hc Hr Hobjs) as (c' & h' & q' & E & Hc' & Hr' & Hcp & Hp).
    rewrite E. destruct (Hset h' q' c' Hc' Hr') as [Hok' Hcon].
    exists (set_cache lcore c' (set_data h' mp)), q'. split_and!; try done. intros Hroom.
    rewrite Hcont, !length_app in Hroom. rewrite Hcon, Hcont, app_assoc, Hp, <- !app_assoc by lia. done.
Qed.

(** Taking [n] objects succeeds when the cache alone or the handler alone has them. *)
Definition can_get lcore mp (q : list nat) (n : Z) : Prop :=
  n <= Z.of_nat (length q) \/
  exists c, rte_mempool_default_cache lcore mp = Some c /\ n < cache_size mp /\ n <= clen c.

Lemma get_bulk_spec lcore mp q n :
  pool_ok mp q -> 0 <= n < 2 ^ 32 ->
  exists ret out mp' q', rte_mempool_get_bulk lcore n mp = Ret ((ret, out), mp') /\
    pool_ok mp' q' /\ pool_cap mp' = pool_cap mp /\ psize mp' = psize mp /\
    contents mp q ≡ₚ out ++ contents mp' q' /\
    (can_get lcore mp q n /\ ret = 0 /\ Z.of_nat (length out) = n \/
     (0 < n -> ~ can_get lcore mp q n) /\ ret < 0 /\ out = []).
Proof.
  intros Hok Hn. pose proof (pk_ops _ _ Hok) as Hr.
  unfold rte_mempool_get_bulk, can_get, pool_cap, mbind, M_bind, gets.
  destruct (default_cache_cases lcore mp q Hok) as [->|(c & rest & -> & Hc & Hcont & Hset)].
  - cbn [mempool_generic_get].
    destruct (direct_spec mp q n None Hr Hn) as (ret & out & h' & q' & -> & Hr' & Hcap & Hp & Hcase).
    destruct (set_data_ok mp h' q' q Hok Hr') as [Hok' Hcon].
    exists ret, out, (set_data h' mp), q'. split_and!; try done.
    + rewrite Hcon. unfold contents. by rewrite Hp, app_assoc.
    + destruct Hcase as [(? & -> & ?)|(? & ? & ->)]; [left; tauto|right].
      split_and!; try done. intros ? [?|(? & ? & _)]; [lia|done].
  - destruct (cache_get_spec (cache_size mp) c mp q n Hc Hr Hn)
      as (ret & out & c' & h' & q' & -> & Hc' & Hr' & Hcap & Hp & Hcase).
    destruct (Hset h' q' c' Hc' Hr') as [Hok' Hcon].
    exists ret, out, (set_cache lcore c' (set_data h' mp)), q'. split_and!; try done.
    + by rewrite Hcont, Hcon, app_assoc, Hp, <- !app_assoc.
    + destruct Hcase as [([?|?] & -> & ?)|(Hno & ? & ->)]; [left|left|right]; split_and!; try done;
        [right; by exists c|by left|]. intros Hpos. destruct (Hno Hpos) as [? ?].
      intros [?|(c0 & [= <-] & ? & ?)]; [lia|tauto].
Qed.

Lemma sum_cached cs cs' :
  Forall (cache_ok cs) cs' -> sum_clen cs' = Z.of_nat (length (concat (cached <$> cs'))).
Proof.
  induction 1 as [|c l Hc _ IH]; [done|]. cbn [sum_clen foldr fmap list_fmap concat].
  rewrite length_app, (length_cached _ _ Hc). fold (sum_clen l). pose proof Hc as [_ _ ? _].
  cbn [fmap] in IH. lia.
Qed.

End Pool.

(** ** Examples *)

(** A pool of seven objects on a ring, five of them in the ring and two in the cache
    of core 3. *)
Definition demo_cache : rte_mempool_cache :=
  Cache 4 6 2 ([21; 22]%nat ++ replicate 1534 0%nat).

Definition demo_caches : list rte_mempool_cache :=
  <[3%nat := demo_cache]> (replicate RTE_MAX_LCORE (mempool_cache_init 4)).

Definition demo_pool : rte_mempool rte_ring :=
  RteMempool (Ring 8 7 7 (HeadTail 5 5 false) (headtail_init false) [11; 12; 13; 14; 15; 0; 0; 0]%nat) 7 4 demo_caches.

Lemma demo_ring_filled :
  ring_rep (Ring 8 7 7 (HeadTail 5 5 false) (headtail_init false) [11; 12; 13; 14; 15; 0; 0; 0]%nat)
    [11; 12; 13; 14; 15]%nat.
Proof.
  split; [split; cbn; [by exists 3|lia..]|cbn; lia|]. exists 0. split_and!; [reflexivity..|].
  intros i x Hi. destruct i as [|[|[|[|[|i]]]]]; try done; vm_compute in Hi; by injection Hi as <-.
Qed.

Lemma init_cache_ok cs : 0 < cs <= 512 -> cache_ok cs (mempool_cache_init cs).
Proof.
  intros Hcs. pose proof (flush_bounds cs Hcs). unfold mempool_cache_init, RTE_MEMPOOL_CACHE_MAX_SIZE.
  split; cbn [csize flushthresh clen cobjs]; unfold RTE_MEMPOOL_CACHE_MAX_SIZE;
    [done|done|lia|by rewrite length_replicate].
Qed.

Lemma demo_pool_ok : @pool_ok _ _ (ops_ring_laws false false) demo_pool [11; 12; 13; 14; 15]%nat.
Proof.
  split; [exact demo_ring_filled|done|]. change (caches demo_pool) with demo_caches.
  apply Forall_insert; [apply Forall_replicate, init_cache_ok; lia|].
  by split; cbn; [split; [done|unfold RTE_MEMPOOL_CACHE_MAX_SIZE; lia]|..].
Qed.

Lemma demo_contents :
  contents demo_pool [11; 12; 13; 14; 15]%nat = [11; 12; 13; 14; 15; 21; 22]%nat.
Proof. vm_compute. reflexivity. Qed.

