(* ===== verification/MbufPool.v ===== *)
(** The packet buffers on a real memory pool: librte_mempool with its per-core caches
    provides the interface that Mbuf relies on, and buffers that are allocated and
    freed again leave the pool as it was. *)
From Stdlib Require Import ZArith Lia.
From stdpp Require Import base numbers list gmap.
From S2P Require Import Prelude Ring RingSpec RteMempool RteMempoolSpec Mbuf MbufSpec.

#[local] Open Scope Z_scope.

(** ** A pool as seen by one core *)

Section Live.
Context {H : Type} `{MempoolOpsLaws H}.

Abbreviation objects mp := (contents mp (ops_objs (pool_data mp))).

Definition live_pool : Type := { mp : rte_mempool H | pool_ok mp (ops_objs (pool_data mp)) }.

Lemma live_ok mp q : pool_ok mp q -> pool_ok mp (ops_objs (pool_data mp)).
Proof. intros Hok. by rewrite (ops_objs_spec _ _ (pk_ops _ _ Hok)). Qed.

Lemma live_get_ok lcore mp n x mp' :
  pool_ok mp (ops_objs (pool_data mp)) -> 0 <= n < 2 ^ 32 ->
  RteMempool.rte_mempool_get_bulk lcore n mp = Ret (x, mp') -> pool_ok mp' (ops_objs (pool_data mp')).
Proof.
  intros Hok Hn E. destruct (get_bulk_spec lcore mp _ n Hok Hn) as (ret & out & mp1 & q1 & E1 & Hok1 & _).
  rewrite E in E1. injection E1 as -> ->. by eapply live_ok.
Qed.

Lemma live_put_ok lcore mp m x mp' :
  pool_ok mp (ops_objs (pool_data mp)) ->
  RteMempool.rte_mempool_put lcore m mp = Ret (x, mp') -> pool_ok mp' (ops_objs (pool_data mp')).
Proof.
  intros Hok E. destruct (put_bulk_spec lcore mp _ [m] Hok ltac:(simpl; lia)) as (mp1 & q1 & E1 & Hok1 & _).
  unfold RteMempool.rte_mempool_put in E. change (Z.of_nat (length [m])) with 1 in E1. rewrite E in E1. injection E1 as -> ->. by eapply live_ok.
Qed.

(** The result of a call, with the state that goes with it. *)
Definition get_result lcore n (p : live_pool) (Hn : 0 <= n < 2 ^ 32) r :
    RteMempool.rte_mempool_get_bulk lcore n (proj1_sig p) = r -> option (list nat * live_pool) :=
  match r with
  | Ret ((ret, out), mp') => fun E =>
      if ret <? 0 then None else Some (out, exist _ mp' (live_get_ok lcore _ _ _ _ (proj2_sig p) Hn E))
  | _ => fun _ => None
  end.

Definition put_result lcore m (p : live_pool) r :
    RteMempool.rte_mempool_put lcore m (proj1_sig p) = r -> live_pool :=
  match r with
  | Ret (_, mp') => fun E => exist _ mp' (live_put_ok lcore _ _ _ _ (proj2_sig p) E)
  | _ => fun _ => p
  end.

(** [rte_mempool_get_bulk]; the count is an [unsigned]. *)
Definition live_get (lcore n : nat) (p : live_pool) : option (list nat * live_pool) :=
  match decide (0 <= Z.of_nat n < 2 ^ 32) with
  | right _ => None
  | left Hn => get_result lcore _ p Hn _ eq_refl
  end.

Definition live_put (lcore m : nat) (p : live_pool) : live_pool := put_result lcore m p _ eq_refl.

(** The core [lcore] uses the pool. *)
Definition core_pool (lcore : nat) : Mempool live_pool := {|
  mp_get_bulk := live_get lcore;
  mp_put := live_put lcore;
  mp_objs p := (objects (proj1_sig p));
  mp_room p k := ((length (objects (proj1_sig p)) + k)%nat <= pool_cap (proj1_sig p))%nat
|}.

Lemma get_result_inv lcore n p Hn r E out p' :
  get_result lcore n p Hn r E = Some (out, p') -> exists ret, (ret <? 0) = false /\ r = Ret ((ret, out), proj1_sig p').
Proof.
  destruct r as [[[ret o] mp']| |]; try done. simpl. destruct (ret <? 0) eqn:Er; [done|].
  intros [= -> <-]. by exists ret.
Qed.

Lemma live_get_inv lcore n p out p' :
  live_get lcore n p = Some (out, p') ->
  0 <= Z.of_nat n < 2 ^ 32 /\ exists ret, (ret <? 0) = false /\
    RteMempool.rte_mempool_get_bulk lcore (Z.of_nat n) (proj1_sig p) = Ret ((ret, out), proj1_sig p').
Proof. unfold live_get. destruct (decide _) as [Hn|]; [|done]. intros E. split; [done|]. by eapply get_result_inv. Qed.

Lemma put_result_run lcore m p r E x mp1 :
  r = Ret (x, mp1) -> proj1_sig (put_result lcore m p r E) = mp1.
Proof. intros ->. done. Qed.

Lemma live_put_run lcore m p :
  exists x, RteMempool.rte_mempool_put lcore m (proj1_sig p) = Ret (x, proj1_sig (live_put lcore m p)).
Proof.
  destruct (put_bulk_spec lcore (proj1_sig p) _ [m] (proj2_sig p) ltac:(simpl; lia)) as (mp1 & q1 & E1 & _).
  exists tt. unfold live_put. rewrite (put_result_run lcore m p _ _ tt mp1); exact E1.
Qed.

Lemma get_result_some lcore n p Hn r E ret out mp1 :
  r = Ret ((ret, out), mp1) -> 0 <= ret -> exists p', get_result lcore n p Hn r E = Some (out, p').
Proof. intros -> Hr. simpl. destruct (Z.ltb_spec ret 0); [lia|]. by eexists. Qed.

Lemma live_get_some lcore n p :
  Z.of_nat n < 2 ^ 32 -> can_get lcore (proj1_sig p) (ops_objs (pool_data (proj1_sig p))) (Z.of_nat n) ->
  (0 < n)%nat -> exists out p', live_get lcore n p = Some (out, p').
Proof.
  intros Hn Hcan Hpos. unfold live_get. destruct (decide _) as [Hd|]; [|lia].
  destruct (get_bulk_spec lcore _ _ _ (proj2_sig p) Hd) as (r & out & mp1 & q1 & E1 & _ & _ & _ & _ & Hcase).
  destruct Hcase as [(_ & -> & _)|(Hno & _)]; [|by destruct Hno; [lia|]].
  exists out. by eapply get_result_some; [exact E1|].
Qed.

#[global] Instance core_pool_laws (lcore : nat) : @MempoolLaws live_pool (core_pool lcore).
Proof.
  split; cbn.
  - intros n p bufs p' E. apply live_get_inv in E as (Hn & ret & Hret & E).
    destruct (get_bulk_spec lcore _ _ _ (proj2_sig p) Hn) as (r & out & mp1 & q1 & E1 & Hok1 & _ & _ & Hp & Hcase).
    rewrite E in E1. injection E1 as -> -> Emp. subst mp1. apply Z.ltb_ge in Hret.
    destruct Hcase as [(_ & _ & ?)|(_ & ? & _)]; [|lia]. split; [lia|].
    by rewrite (ops_objs_spec _ _ (pk_ops _ _ Hok1)).
  - intros n p bufs p' k E Hk. apply live_get_inv in E as (Hn & ret & Hret & E).
    destruct (get_bulk_spec lcore _ _ _ (proj2_sig p) Hn) as (r & out & mp1 & q1 & E1 & Hok1 & Hcap & _ & Hp & Hcase).
    rewrite E in E1. injection E1 as -> -> Emp. subst mp1. apply Z.ltb_ge in Hret.
    destruct Hcase as [(_ & _ & ?)|(_ & ? & _)]; [|lia].
    rewrite (ops_objs_spec _ _ (pk_ops _ _ Hok1)), Hcap. rewrite Hp, length_app in Hk. lia.
  - intros m p k Hk. destruct (live_put_run lcore m p) as [x E].
    destruct (put_bulk_spec lcore _ _ [m] (proj2_sig p) ltac:(simpl; lia)) as (mp1 & q1 & E1 & Hok1 & Hcap & _ & Hp).
    unfold RteMempool.rte_mempool_put in E. change (Z.of_nat (length [m])) with 1 in E1. rewrite E in E1. injection E1 as -> Emp. subst mp1.
    rewrite (ops_objs_spec _ _ (pk_ops _ _ Hok1)), Hcap. simpl in Hp.
    specialize (Hp ltac:(lia)). split; [done|]. rewrite Hp. simpl. lia.
Qed.
End Live.

(** ** Allocate and free *)

Section Roundtrip.
Context {P : Type} `{MempoolLaws P}.
Implicit Types s : mem P.

(** The buffers of an array freed one after the other. *)
Fixpoint free_each (l : list nat) : M (mem P) unit :=
  match l with
  | [] => mret tt
  | m :: l => rte_pktmbuf_free (Some m) ;; free_each l
  end.

(** A buffer of pool [mp] as the allocation leaves it. *)
Definition single s (mp m : nat) : Prop :=
  exists b, mbufs s !! m = Some b /\ m_next b = None /\ RTE_MBUF_INDIRECT b = false /\ refcnt b = 1 /\
            m_pool b = mp.

Lemma free_each_spec mp l : forall s,
  NoDup l -> is_Some (pools s !! mp) -> Forall (single s mp) l ->
  free_each l s = Ret (tt, foldl free_one s l).
Proof.
  induction l as [|m l IH]; intros s Hnd Hp Hall; [done|].
  apply NoDup_cons in Hnd as [Hm Hnd]. apply Forall_cons in Hall as [(b & Hb & Hn & Hd & Hr & Hmp) Hall].
  cbn [free_each foldl]. unfold mbind, M_bind. rewrite (pktmbuf_free_spec s (Some m) [m]).
  - apply IH; [done|by apply free_one_pool|]. rewrite Forall_forall in Hall |- *. intros x Hx.
    destruct (Hall x Hx) as (b' & Hb' & ?). exists b'. rewrite free_one_other by set_solver. done.
  - split; [done|]. exists b. by rewrite Hn.
  - constructor; [|done]. exists b. rewrite Hr, Hmp. split_and!; [done..|lia|lia|done].
Qed.

Lemma filter_single s mp l : Forall (single s mp) l -> filter (returns_to s mp) l = l.
Proof.
  intros Hall. rewrite <- (filter_ext_in (fun _ => True) (returns_to s mp)).
  - clear. induction l as [|x l IH]; [done|]. rewrite filter_cons_True by done. by rewrite IH.
  - intros x Hx. rewrite Forall_forall in Hall. destruct (Hall x Hx) as (b & Hb & _ & _ & Hr & Hm).
    split; [intros _|done]. by exists b.
Qed.

(** Freeing such buffers puts them into their pool and changes nothing else. *)
Lemma free_each_pool s mp p l k :
  NoDup l -> pools s !! mp = Some p -> Forall (single s mp) l -> mp_room (pool_objs p) (length l + k) ->
  exists s' p', free_each l s = Ret (tt, s') /\ pools s' !! mp = Some p' /\
    mp_objs (pool_objs p') ≡ₚ l ++ mp_objs (pool_objs p) /\ mp_room (pool_objs p') k /\
    forall m, mbufs s' !! m = mbufs s !! m.
Proof.
  intros Hnd Hp Hs Hroom. rewrite (free_each_spec mp l s Hnd ltac:(by eexists) Hs).
  destruct (free_all_pools l s mp p k Hnd Hp) as (p' & Hp' & Hobjs & Hk); [by rewrite filter_single|].
  rewrite filter_single in Hobjs by done. exists (foldl free_one s l), p'. split_and!; [done..|].
  intros m. rewrite free_all_mbufs by done. destruct (decide (m ∈ l)) as [Hm|]; [|done].
  rewrite Forall_forall in Hs. destruct (Hs m Hm) as (b & -> & Hn & _ & Hr & _).
  cbn. unfold freed, unlink_seg. by rewrite Hr, Hn.
Qed.

(** All buffers of the pool [mp] are [total]: those in the pool, and those held outside
    of it ([out]). *)
Record held s (mp : nat) (total out : list nat) : Prop := {
  hd_pool : exists p, pools s !! mp = Some p /\ out ++ mp_objs (pool_objs p) ≡ₚ total /\ mp_room (pool_objs p) (length out);
  hd_nodup : NoDup total;
  hd_single : Forall (single s mp) total
}.

Lemma held_perm s mp total out out' : out ≡ₚ out' -> held s mp total out -> held s mp total out'.
Proof.
  intros Hp [(p & Hpool & Hperm & Hroom) Hn Hs]. split; [|done..]. exists p. by rewrite <- Hp.
Qed.

Lemma held_out s mp total out m : held s mp total out -> m ∈ out -> m ∈ total /\ single s mp m.
Proof.
  intros [(p & _ & Hperm & _) _ Hs] Hm. rewrite Forall_forall in Hs.
  assert (m ∈ total) by (rewrite <- Hperm; set_solver). auto.
Qed.

Lemma held_nodup s mp total out : held s mp total out -> NoDup out.
Proof. intros [(p & _ & Hperm & _) Hn _]. rewrite <- Hperm in Hn. by apply NoDup_app in Hn as (? & _). Qed.

(** Freeing buffers from outside changes no header. *)
Lemma free_held s mp total l rest :
  held s mp total (l ++ rest) ->
  exists s', free_each l s = Ret (tt, s') /\ held s' mp total rest /\ forall m, mbufs s' !! m = mbufs s !! m.
Proof.
  intros Hi. pose proof Hi as [(p & Hpool & Hperm & Hroom) Hn Hs].
  pose proof (held_nodup _ _ _ _ Hi) as Hnd. apply NoDup_app in Hnd as (Hnl & _ & _). rewrite length_app in Hroom.
  destruct (free_each_pool s mp p l (length rest) Hnl Hpool) as (s' & p' & E & Hp' & Hobjs & Hk & Hsame); [|done|].
  { apply Forall_forall. intros m Hm. apply (held_out _ _ _ _ m Hi). set_solver. }
  exists s'. split; [done|]. split; [|done]. split; [|done|].
  - exists p'. split_and!; [done| |done]. rewrite Hobjs, <- Hperm, <- app_assoc, Permutation_app_comm, <- app_assoc.
    by rewrite (Permutation_app_comm _ rest).
  - eapply Forall_impl; [exact Hs|]. intros m (b & Hb & ?). exists b. by rewrite Hsame.
Qed.

(** Allocating a buffer. *)
Lemma alloc_held_reset s mp total out :
  held s mp total out ->
  exists r s', rte_pktmbuf_alloc mp s = Ret (r, s') /\
    match r with
    | None => s' = s /\ exists p, pools s !! mp = Some p /\ mp_get_bulk 1 (pool_objs p) = None
    | Some m => held s' mp total (m :: out) /\ exists b, mbufs s !! m = Some b /\ mbufs s' = <[m := reset_mbuf b]> (mbufs s)
    end.
Proof.
  intros Hi. pose proof Hi as [(p & Hpool & Hperm & Hroom) Hn Hs].
  unfold rte_pktmbuf_alloc, rte_mbuf_raw_alloc, rte_mempool_get_bulk, mbind, M_bind, mret, M_ret. rewrite Hpool.
  destruct (mp_get_bulk 1 (pool_objs p)) as [[bufs p']|] eqn:E; [|eexists None, s; split_and!; [done..|by exists p]].
  destruct (mp_get_bulk_objs _ _ _ _ E) as [Hlen Hobjs]. pose proof (mp_get_bulk_room _ _ _ _ _ E Hroom) as Hroom'.
  destruct bufs as [|m [|? ?]]; try done. cbn [option_bind head].
  assert (m ∈ total) as Hm by (rewrite <- Hperm, Hobjs; set_solver).
  rewrite Forall_forall in Hs. destruct (Hs m Hm) as (b & Hb & Hnx & Hd & Hr & Hmp).
  unfold option_bind, rte_pktmbuf_reset, upd_mbuf. cbn [mbufs list.head]. rewrite Hb.
  eexists (Some m), _. split; [reflexivity|]. split; [|by exists b]. split; cbn [mbufs pools]; [|done|].
  - exists (Pool p' (mbuf_data_room_size p) (mbuf_priv_size p)). split_and!; [apply lookup_insert_eq| |done].
    cbn [pool_objs]. rewrite <- Hperm, Hobjs. cbn. by rewrite Permutation_middle.
  - apply Forall_forall. intros x Hx. destruct (decide (x = m)) as [->|Hne].
    + exists (reset_mbuf b). cbn [mbufs]. rewrite lookup_insert_eq. by split_and!.
    + destruct (Hs x Hx) as (b' & Hb' & ?). exists b'. cbn [mbufs]. by rewrite lookup_insert_ne.
Qed.

Lemma alloc_held s mp total out :
  held s mp total out ->
  exists r s', rte_pktmbuf_alloc mp s = Ret (r, s') /\
    match r with None => held s' mp total out | Some m => held s' mp total (m :: out) end.
Proof.
  intros Hi. destruct (alloc_held_reset s mp total out Hi) as (r & s' & E & Hr). exists r, s'. split; [done|].
  destruct r; [by destruct Hr|]. by destruct Hr as [-> _].
Qed.

(** An assignment that leaves alone the fields freeing looks at. *)
Lemma upd_held s mp total out m b b' :
  held s mp total out -> mbufs s !! m = Some b ->
  m_next b' = m_next b -> ol_flags b' = ol_flags b -> refcnt b' = refcnt b -> m_pool b' = m_pool b ->
  held (Mem (<[m := b']> (mbufs s)) (pools s)) mp total out.
Proof.
  intros [Hp Hn Hs] Hb E1 E2 E3 E4. split; [done..|]. eapply Forall_impl; [exact Hs|].
  intros x (bx & Hbx & H1 & H2 & H3 & H4). unfold single, RTE_MBUF_INDIRECT in *. cbn [mbufs]. destruct (decide (x = m)) as [->|Hne].
  - exists b'. rewrite lookup_insert_eq. rewrite Hb in Hbx. injection Hbx as <-. rewrite E1, E2, E3, E4. by split_and!.
  - exists bx. by rewrite lookup_insert_ne.
Qed.

Lemma fresh_single mp plen s l m :
  m ∈ l -> (exists b, mbufs s !! m = Some b /\ m_pool b = mp) ->
  forall ps, single (Mem (init_all plen l (mbufs s)) ps) mp m.
Proof.
  intros Hm (b & Hb & Hmp) ps. exists (fresh_mbuf plen b). cbn [mbufs].
  rewrite init_all_lookup, decide_True, Hb by done. by split_and!.
Qed.

(** What [alloc_mbufs] takes, freeing gives back. *)
Lemma alloc_free_all s mp p l p' k len plen bufs :
  pools s !! mp = Some p -> mp_get_bulk (Z.to_nat len) (pool_objs p) = Some (l, p') ->
  0 < len < 2 ^ 32 -> length bufs = Z.to_nat len ->
  NoDup (mp_objs (pool_objs p)) -> mp_room (pool_objs p) k ->
  Forall (fun m => exists b, mbufs s !! m = Some b /\ m_pool b = mp) (mp_objs (pool_objs p)) ->
  exists s' p'', (arr ← alloc_mbufs mp bufs len plen; free_each arr) s = Ret (tt, s') /\
    pools s' !! mp = Some p'' /\ mp_objs (pool_objs p'') ≡ₚ mp_objs (pool_objs p) /\ mp_room (pool_objs p'') k /\
    forall m, m ∉ l -> mbufs s' !! m = mbufs s !! m.
Proof.
  intros Hp Hget Hlen Hbufs Hnd Hroom Hall. destruct (mp_get_bulk_objs _ _ _ _ Hget) as [Hl Hperm].
  pose proof (mp_get_bulk_room _ _ _ _ _ Hget Hroom) as Hroom'.
  rewrite Hperm in Hnd, Hall. apply NoDup_app in Hnd as (Hnd & _ & _). apply Forall_app in Hall as [Hall _].
  rewrite Forall_forall in Hall.
  assert (drop (Z.to_nat len) bufs = []) as Hd by (rewrite drop_ge; [done|lia]).
  unfold mbind at 1, M_bind. rewrite (alloc_mbufs_spec s mp p bufs l p' len plen), Hd, app_nil_r; try done.
  2: { rewrite Hd, app_nil_r. apply Forall_forall. intros m Hm. destruct (Hall m Hm) as (b & Hb & _). by eexists. }
  set (s1 := Mem _ _). assert (pools s1 !! mp = Some (Pool p' (mbuf_data_room_size p) (mbuf_priv_size p))) as Hp1
    by apply lookup_insert_eq.
  assert (Forall (single s1 mp) l) as Hs by (apply Forall_forall; intros m Hm; by apply fresh_single; auto).
  destruct (free_each_pool s1 mp _ l k Hnd Hp1 Hs) as (s2 & p'' & -> & Hp'' & Hobjs & Hk & Hsame); [cbn; rewrite Hl; exact Hroom'|].
  exists s2, p''. split_and!; [done|done|by rewrite Hobjs, Hperm|done|].
  intros m Hm. rewrite Hsame. cbn [s1 mbufs]. by rewrite init_all_lookup, decide_False.
Qed.
End Roundtrip.

Lemma alloc_free_live {H : Type} `{MempoolOpsLaws H} (lcore : nat) (s : mem live_pool) (mp : nat)
    (p : mempool live_pool) (bufs : list nat) (len plen : Z) :
  let pool := proj1_sig (pool_objs p) in
  let held := contents pool (ops_objs (pool_data pool)) in
  pools s !! mp = Some p -> can_get lcore pool (ops_objs (pool_data pool)) len ->
  0 < len < 2 ^ 32 -> length bufs = Z.to_nat len ->
  NoDup held -> (length held <= pool_cap pool)%nat ->
  Forall (fun m => exists b, mbufs s !! m = Some b /\ m_pool b = mp) held ->
  exists s' p', (arr ← @alloc_mbufs _ (core_pool lcore) mp bufs len plen;
                 @free_each _ (core_pool lcore) arr) s = Ret (tt, s') /\
    pools s' !! mp = Some p' /\
    contents (proj1_sig (pool_objs p')) (ops_objs (pool_data (proj1_sig (pool_objs p')))) ≡ₚ held /\
    forall m, m ∉ held -> mbufs s' !! m = mbufs s !! m.
Proof.
  intros pool held Hp Hcan Hlen Hbufs Hnd Hcap Hall.
  destruct (live_get_some lcore (Z.to_nat len) (pool_objs p)) as (l & p' & E); [lia|by rewrite Z2Nat.id by lia|lia|].
  destruct (@alloc_free_all _ (core_pool lcore) (core_pool_laws lcore) s mp p l p' 0 len plen bufs)
    as (s' & p'' & Er & Hp'' & Hperm & _ & Hrest); try done; [cbn; fold pool held; lia|].
  exists s', p''. split_and!; [done..|]. intros m Hm. apply Hrest. intros Hl. apply Hm. subst held pool.
  destruct (@mp_get_bulk_objs _ (core_pool lcore) (core_pool_laws lcore) _ _ _ _ E) as [_ Hobjs].
  cbn in Hobjs. rewrite Hobjs. set_solver.
Qed.

(** On a memory pool with per-core caches over any handler, used by core [lcore]:
    if the core's cache or the handler can supply [len] buffers, [alloc_mbufs]
    followed by [rte_pktmbuf_free] of every buffer of the array runs without a fault,
    and the pool then holds exactly the buffers it held before; every buffer that was
    not allocated is untouched. *)
Theorem alloc_free_roundtrip {H : Type} `{MempoolOpsLaws H} (lcore : nat) (s : mem live_pool) (mp : nat)
    (p : mempool live_pool) (bufs : list nat) (len plen : Z) :
  let pool := proj1_sig (pool_objs p) in
  let held := contents pool (ops_objs (pool_data pool)) in
  pools s !! mp = Some p -> can_get lcore pool (ops_objs (pool_data pool)) len ->
  0 < len < 2 ^ 32 -> length bufs = Z.to_nat len ->
  NoDup held -> (length held <= pool_cap pool)%nat ->
  Forall (fun m => exists b, mbufs s !! m = Some b /\ m_pool b = mp) held ->
  exists s' p', (arr ← @alloc_mbufs _ (core_pool lcore) mp bufs len plen;
                 @free_each _ (core_pool lcore) arr) s = Ret (tt, s') /\
    pools s' !! mp = Some p' /\
    contents (proj1_sig (pool_objs p')) (ops_objs (pool_data (proj1_sig (pool_objs p')))) ≡ₚ held /\
    forall m, m ∉ held -> mbufs s' !! m = mbufs s !! m.
Proof. apply alloc_free_live. Qed.

(** ** Examples *)

(** The ring pool of RteMempoolSpec with its seven buffers, of which core 3 allocates
    and frees four. *)
Abbreviation ring_live := (@live_pool rte_ring (ops_ring false false) (ops_ring_laws false false)).

Definition demo_live : ring_live :=
  exist _ demo_pool (@live_ok _ _ (ops_ring_laws false false) demo_pool _ demo_pool_ok).

Definition demo_bufs : list nat := [11; 12; 13; 14; 15; 21; 22]%nat.

Definition demo_heap : gmap nat rte_mbuf := list_to_map ((fun m => (m, demo_seg 1 1 60 None m)) <$> demo_bufs).

Definition live_mem : mem ring_live := Mem demo_heap {[0%nat := Pool demo_live 2048 0]}.

Lemma demo_held : @contents rte_ring demo_pool (@ops_objs _ _ (ops_ring_laws false false) (pool_data demo_pool)) = demo_bufs.
Proof. vm_compute. reflexivity. Qed.

Lemma alloc_free_roundtrip_witness :
  exists s' p', (arr ← @alloc_mbufs _ (@core_pool _ _ (ops_ring_laws false false) 3) 0 [0; 0; 0; 0]%nat 4 60;
                 @free_each _ (@core_pool _ _ (ops_ring_laws false false) 3) arr) live_mem = Ret (tt, s') /\
    pools s' !! 0%nat = Some p' /\
    contents (proj1_sig (pool_objs p'))
      (@ops_objs _ _ (ops_ring_laws false false) (pool_data (proj1_sig (pool_objs p')))) ≡ₚ demo_bufs /\
    forall m, m ∉ demo_bufs -> mbufs s' !! m = mbufs live_mem !! m.
Proof.
  pose proof (@alloc_free_roundtrip _ _ (ops_ring_laws false false) 3 live_mem 0 (Pool demo_live 2048 0) [0; 0; 0; 0]%nat 4 60) as Hr.
  cbv zeta in Hr. change (proj1_sig (pool_objs (Pool demo_live 2048 0))) with demo_pool in Hr. rewrite demo_held in Hr.
  apply Hr; [done| |lia|done| |vm_compute; lia|].
  - left. vm_compute. discriminate.
  - by apply (bool_decide_unpack _).
  - repeat (constructor; [eexists; split; [vm_compute; reflexivity|done]|]). constructor.
Defined.
