(* ===== verification/SizedRing.v ===== *)
(** libmoon/src/bytesizedring.cpp and pktsizedring.cpp: rings between two cores whose
    capacity is a number of bytes or of packets. Both wrap an rte_ring for one producer
    and one consumer, and free the packets they do not accept.

    The state of an operation is the structure and the packet buffers. An array of [n]
    packets is the list of its [n] entries; an operation that sets entries to NULL also
    returns the array. *)
From Stdlib Require Import ZArith Lia.
From stdpp Require Import base numbers list.
From S2P Require Import Prelude Mbuf Ring RteMempool MbufPool.

#[local] Open Scope Z_scope.

Definition BS_RING_SIZE_LIMIT : Z := 268435455.
Definition PS_RING_SIZE_LIMIT : Z := 268435455.

Record bs_ring := BsRing { bsr_ring : rte_ring; bsr_capacity : Z; bytes_used : Z }.
Record ps_ring := PsRing { psr_ring : rte_ring; psr_capacity : Z }.

Abbreviation SPSC_FLAGS := (Z.lor RING_F_SP_ENQ RING_F_SC_DEQ).

(** ** Creation *)

(** [while ((count-1) < count_min && count <= BS_RING_SIZE_LIMIT) count *= 2;] *)
Fixpoint bs_count (fuel : nat) (count_min count : Z) : res Z :=
  match fuel with
  | O => Diverge
  | S fuel =>
    if (count - 1 <? count_min) && (count <=? BS_RING_SIZE_LIMIT) then bs_count fuel count_min (count * 2) else Ret count
  end.

(** [malloc] tells whether the structure could be allocated; the code does not check. *)
Definition create_bsring (e : ring_env) (malloc : bool) (capacity : Z) : res (option bs_ring) :=
  match bs_count 64 (capacity / 60) 1 with
  | Ret count =>
    let count := if BS_RING_SIZE_LIMIT <? count then Z.quot count 2 else count in
    if negb malloc then Fault
    else match rte_ring_create e count SPSC_FLAGS with
         | inr r => Ret (Some (BsRing r capacity 0))
         | inl _ => Ret None
         end
  | Fault => Fault
  | Diverge => Diverge
  end.

(** [while (count < (capacity+1)) count *= 2;] *)
Fixpoint ps_count (fuel : nat) (capacity count : Z) : res Z :=
  match fuel with
  | O => Diverge
  | S fuel => if count <? u32 (capacity + 1) then ps_count fuel capacity (u32 (count * 2)) else Ret count
  end.

Definition create_psring (e : ring_env) (malloc : bool) (capacity : Z) : res (option ps_ring) :=
  let capacity := if PS_RING_SIZE_LIMIT <? capacity then PS_RING_SIZE_LIMIT else capacity in
  match ps_count 64 capacity 1 with
  | Ret count =>
    if negb malloc then Fault
    else match rte_ring_create e count SPSC_FLAGS with
         | inr r => Ret (Some (PsRing r capacity))
         | inl _ => Ret None
         end
  | Fault => Fault
  | Diverge => Diverge
  end.

(** ** Operations *)

Section Sized.
Context {P : Type} `{Mempool P}.

(** A ring structure and the packet buffers. *)
Record sized (R : Type) := Sized { sz : R; sz_mem : mem P }.
#[global] Arguments Sized {R} _ _.
#[global] Arguments sz {R} _.
#[global] Arguments sz_mem {R} _.

Definition on_bufs {R A} (m : M (mem P) A) : M (sized R) A := fun s =>
  match m (sz_mem s) with
  | Ret (a, b) => Ret (a, Sized (sz s) b)
  | Fault => Fault
  | Diverge => Diverge
  end.

Definition on_bsring {A} (m : M rte_ring A) : M (sized bs_ring) A := fun s =>
  match m (bsr_ring (sz s)) with
  | Ret (a, r) => Ret (a, Sized (BsRing r (bsr_capacity (sz s)) (bytes_used (sz s))) (sz_mem s))
  | Fault => Fault
  | Diverge => Diverge
  end.

Definition on_psring {A} (m : M rte_ring A) : M (sized ps_ring) A := fun s =>
  match m (psr_ring (sz s)) with
  | Ret (a, r) => Ret (a, Sized (PsRing r (psr_capacity (sz s))) (sz_mem s))
  | Fault => Fault
  | Diverge => Diverge
  end.

(** [bsr->bytes_used = f(bsr->bytes_used)], a 32-bit counter. *)
Definition set_bytes_used (f : Z -> Z) : M (sized bs_ring) unit :=
  modify (fun s => Sized (BsRing (bsr_ring (sz s)) (bsr_capacity (sz s)) (u32 (f (bytes_used (sz s))))) (sz_mem s)).

(** [obj->pkt_len] *)
Definition pkt_len_of {R} (obj : nat) : M (sized R) Z := b ← on_bufs (load_mbuf obj); mret (pkt_len b).

(** [for (...) total_size += obj[i]->pkt_len;] *)
Fixpoint total_len {R} (objs : list nat) (total_size : Z) : M (sized R) Z :=
  match objs with
  | [] => mret total_size
  | m :: objs => l ← pkt_len_of m; total_len objs (u32 (total_size + l))
  end.

(** The array of which the entries from [k] on have been freed and set to NULL. *)
Definition nulled (k : nat) (objs : list nat) : list (option nat) :=
  (Some <$> take k objs) ++ replicate (length objs - k) None.

Definition bsring_enqueue_bulk (obj : list nat) : M (sized bs_ring) (Z * list (option nat)) :=
  let n := Z.of_nat (length obj) in
  total_size ← total_len obj 0;
  s ← gets sz;
  if bsr_capacity s <? u32 (bytes_used s + total_size) then
    on_bufs (free_each obj) ;; mret (0, nulled 0 obj)
  else
    r ← on_bsring (rte_ring_sp_enqueue_bulk obj n);
    let num_added := r.1 in
    (if num_added <? n then on_bufs (free_each (drop (Z.to_nat num_added) obj)) else mret tt) ;;
    total_size ← total_len (take (Z.to_nat num_added) obj) 0;
    set_bytes_used (fun b => b + total_size) ;;
    mret (i32 num_added, nulled (Z.to_nat num_added) obj).

(** [while ((i < n) && (bytes_remaining > 0))]: the packets counted and the bytes left. *)
Fixpoint burst_fit (objs : list nat) (bytes_remaining num_to_add : Z) : M (sized bs_ring) (Z * Z) :=
  match objs with
  | [] => mret (num_to_add, bytes_remaining)
  | m :: objs =>
    if 0 <? bytes_remaining then
      l ← pkt_len_of m; burst_fit objs (i32 (bytes_remaining - l)) (num_to_add + 1)
    else mret (num_to_add, bytes_remaining)
  end.

(** [while ((i < n) && (bytes_remaining >= 60))], with the array from [i] on. *)
Fixpoint burst_rest (objs : list nat) (bytes_remaining num_added bytes_added : Z) :
    M (sized bs_ring) (Z * Z * list (option nat)) :=
  match objs with
  | [] => mret (num_added, bytes_added, [])
  | m :: objs' =>
    if 60 <=? bytes_remaining then
      l ← pkt_len_of m;
      added ← (if i32 l <=? bytes_remaining then r ← on_bsring (rte_ring_sp_enqueue m); mret (negb (r =? 0)) else mret false);
      if (added : bool) then
        r ← burst_rest objs' (i32 (bytes_remaining - l)) (u32 (num_added + 1)) (u32 (bytes_added + l));
        mret (r.1, Some m :: r.2)
      else
        on_bufs (rte_pktmbuf_free (Some m)) ;;
        r ← burst_rest objs' bytes_remaining num_added bytes_added;
        mret (r.1, None :: r.2)
    else mret (num_added, bytes_added, Some <$> objs)
  end.

Definition bsring_enqueue_burst (obj : list nat) : M (sized bs_ring) (Z * list (option nat)) :=
  let n := Z.of_nat (length obj) in
  s ← gets sz;
  f ← burst_fit obj (i32 (u32 (bsr_capacity s - bytes_used s))) 0;
  let num_to_add := if f.2 <? 0 then u32 (f.1 - 1) else f.1 in
  r ← on_bsring (rte_ring_sp_enqueue_burst obj num_to_add);
  let num_added := r.1 in
  bytes_added ← total_len (take (Z.to_nat num_added) obj) 0;
  on_bufs (free_each (drop (Z.to_nat num_added) (take (Z.to_nat num_to_add) obj))) ;;
  let front := nulled (Z.to_nat num_added) (take (Z.to_nat num_to_add) obj) in
  let back := drop (Z.to_nat num_to_add) obj in
  res ← (if num_added <? n then
           s ← gets sz;
           burst_rest back (i32 (u32 (u32 (bsr_capacity s - bytes_used s) - bytes_added))) num_added bytes_added
         else mret (num_added, bytes_added, Some <$> back));
  let '(num_added, bytes_added, back) := res in
  set_bytes_used (fun b => b + bytes_added) ;;
  mret (i32 num_added, front ++ back).

Definition bsring_enqueue (obj : nat) : M (sized bs_ring) Z :=
  l ← pkt_len_of obj;
  s ← gets sz;
  ok ← (if u32 (bytes_used s + l) <? bsr_capacity s then
          r ← on_bsring (rte_ring_sp_enqueue obj); mret (r =? 0)
        else mret false);
  if (ok : bool) then
    l ← pkt_len_of obj; set_bytes_used (fun b => b + l) ;; mret 1
  else on_bufs (rte_pktmbuf_free (Some obj)) ;; mret 0.

(** [for (i=0; i<num_dequeued; i++) bsr->bytes_used -= (obj[i]->pkt_len);] *)
Fixpoint sub_bytes (objs : list nat) : M (sized bs_ring) unit :=
  match objs with
  | [] => mret tt
  | m :: objs => l ← pkt_len_of m; set_bytes_used (fun b => b - l) ;; sub_bytes objs
  end.

Definition bsring_dequeue_burst (n : Z) : M (sized bs_ring) (Z * list nat) :=
  r ← on_bsring (rte_ring_sc_dequeue_burst n);
  sub_bytes r.1 ;; mret (i32 (Z.of_nat (length r.1)), r.1).

Definition bsring_dequeue_bulk (n : Z) : M (sized bs_ring) (Z * list nat) :=
  r ← on_bsring (rte_ring_sc_dequeue_bulk n);
  sub_bytes r.1 ;; mret (i32 (Z.of_nat (length r.1)), r.1).

Definition bsring_dequeue : M (sized bs_ring) (Z * list nat) :=
  r ← on_bsring rte_ring_sc_dequeue;
  match r with
  | inr obj => l ← pkt_len_of obj; set_bytes_used (fun b => b - l) ;; mret (1, [obj])
  | inl _ => mret (0, [])
  end.

Definition bsring_count (bsr : bs_ring) : Z := i32 (rte_ring_count (bsr_ring bsr)).
Definition bsring_capacity (bsr : bs_ring) : Z := i32 (bsr_capacity bsr).
Definition bsring_bytesused (bsr : bs_ring) : Z := i32 (bytes_used bsr).

Definition psring_enqueue_bulk (obj : list nat) : M (sized ps_ring) Z :=
  let n := Z.of_nat (length obj) in
  s ← gets sz;
  if u32 (rte_ring_count (psr_ring s) + n) <? psr_capacity s then
    r ← on_psring (rte_ring_sp_enqueue_bulk obj n); mret (i32 r.1)
  else mret 0.

Definition psring_enqueue_burst (obj : list nat) : M (sized ps_ring) (Z * list (option nat)) :=
  let n := Z.of_nat (length obj) in
  s ← gets sz;
  let count := rte_ring_count (psr_ring s) in
  if psr_capacity s <? count then mret (0, Some <$> obj)
  else
    let num_to_add := if psr_capacity s <? u32 (count + n) then u32 (psr_capacity s - count) else n in
    r ← on_psring (rte_ring_sp_enqueue_burst obj num_to_add);
    let num_added := i32 r.1 in
    on_bufs (free_each (drop (Z.to_nat (u32 num_added)) obj)) ;;
    mret (num_added, nulled (Z.to_nat (u32 num_added)) obj).

Definition psring_enqueue (obj : nat) : M (sized ps_ring) Z :=
  s ← gets sz;
  ok ← (if u32 (rte_ring_count (psr_ring s) + 1) <=? psr_capacity s then
          r ← on_psring (rte_ring_sp_enqueue obj); mret (r =? 0)
        else mret false);
  if (ok : bool) then mret 1 else on_bufs (rte_pktmbuf_free (Some obj)) ;; mret 0.

Definition psring_dequeue_bulk (n : Z) : M (sized ps_ring) (Z * list nat) :=
  r ← on_psring (rte_ring_sc_dequeue_bulk n); mret (i32 (Z.of_nat (length r.1)), r.1).

Definition psring_dequeue_burst (n : Z) : M (sized ps_ring) (Z * list nat) :=
  r ← on_psring (rte_ring_sc_dequeue_burst n); mret (i32 (Z.of_nat (length r.1)), r.1).

Definition psring_dequeue : M (sized ps_ring) (Z * list nat) :=
  r ← on_psring rte_ring_sc_dequeue;
  mret (match r with inr obj => (1, [obj]) | inl _ => (0, []) end).

Definition psring_count (psr : ps_ring) : Z := i32 (rte_ring_count (psr_ring psr)).
Definition psring_capacity (psr : ps_ring) : Z := i32 (psr_capacity psr).
End Sized.
#[global] Arguments sized : clear implicits.
