(* ===== verification/SizedRingSpec.v ===== *)
(** The rings of limited size: how large an rte_ring they create, the byte-sized ring
    as a refinement of a queue of packets with a limit on its bytes, the packet-sized
    ring, and what becomes of the packets they do not accept. *)
From Stdlib Require Import ZArith Lia.
From stdpp Require Import base numbers list gmap.
From S2P Require Import Prelude Mbuf MbufSpec Ring RingSpec RteMempool MbufPool SizedRing.

#[local] Open Scope Z_scope.

(** ** Creation *)

(** The loop stops at the smallest power of two that leaves [count_min] slots. *)
Lemma bs_count_spec count_min fuel : forall k,
  0 <= count_min < 2 ^ 27 -> 0 <= k <= 27 -> 27 - k < Z.of_nat fuel -> (k = 0 \/ 2 ^ (k - 1) <= count_min) ->
  exists j, bs_count fuel count_min (2 ^ k) = Ret (2 ^ j) /\ 0 <= j <= 27 /\ count_min < 2 ^ j /\ (j = 0 \/ 2 ^ (j - 1) <= count_min).
Proof.
  induction fuel as [|fuel IH]; intros k Hm Hk Hf Hlow; [lia|]. cbn [bs_count].
  assert (2 ^ k <= 2 ^ 27) by (apply Z.pow_le_mono_r; lia).
  assert ((2 ^ k <=? BS_RING_SIZE_LIMIT) = true) as -> by (apply Z.leb_le; unfold BS_RING_SIZE_LIMIT; lia).
  rewrite andb_true_r. destruct (Z.ltb_spec (2 ^ k - 1) count_min) as [Hlt|Hge]; [|exists k; split_and!; try done; lia].
  assert (k <> 27) by (intros ->; lia). replace (2 ^ k * 2) with (2 ^ (k + 1)) by (rewrite Z.pow_add_r; lia).
  apply IH; [done|lia|lia|]. right. replace (k + 1 - 1) with k by lia. lia.
Qed.

Lemma ps_count_spec cap fuel : forall k,
  0 <= cap < 2 ^ 28 -> 0 <= k <= 28 -> 28 - k < Z.of_nat fuel -> (k = 0 \/ 2 ^ (k - 1) <= cap) ->
  exists j, ps_count fuel cap (2 ^ k) = Ret (2 ^ j) /\ 0 <= j <= 28 /\ cap < 2 ^ j /\ (j = 0 \/ 2 ^ (j - 1) <= cap).
Proof.
  induction fuel as [|fuel IH]; intros k Hm Hk Hf Hlow; [lia|]. cbn [ps_count]. rewrite (wrapu_small 32 (cap + 1)) by lia.
  assert (0 < 2 ^ k <= 2 ^ 28) by (split; [apply Z.pow_pos_nonneg; lia|apply Z.pow_le_mono_r; lia]).
  destruct (Z.ltb_spec (2 ^ k) (cap + 1)) as [Hlt|Hge]; [|exists k; split_and!; try done; lia].
  assert (k <> 28) by (intros ->; lia). rewrite wrapu_small by lia.
  replace (2 ^ k * 2) with (2 ^ (k + 1)) by (rewrite Z.pow_add_r; lia).
  apply IH; [done|lia|lia|]. right. replace (k + 1 - 1) with k by lia. lia.
Qed.

(** The result of creating a ring whose capacity is to be [count]. *)
Lemma ring_created e j :
  0 <= j <= 27 ->
  (granted e (2 ^ j) /\ exists r, rte_ring_create e (2 ^ j) SPSC = inr r /\ ring_rep r [] /\ capacity r = 2 ^ j - 1) \/
  (~ granted e (2 ^ j) /\ exists err, rte_ring_create e (2 ^ j) SPSC = inl err).
Proof.
  intros Hj. destruct (rte_ring_create e (2 ^ j) SPSC) as [err|r] eqn:E.
  - right. split; [|by eexists]. intros Hg. destruct (init_rep j Hj) as (r & Hr & _).
    change (rte_ring_create e (2 ^ j) SPSC) with (create_ring e (2 ^ j)) in E. rewrite create_granted, Hr in E by done. done.
  - left. destruct (init_rep j Hj) as (r' & Hr & Hrep & Hcap). pose proof (created_init e (2 ^ j) r E) as E'.
    rewrite Hr in E'. injection E' as ->. split; [|by exists r].
    revert E. unfold rte_ring_create, granted. change (Z.land SPSC RING_F_EXACT_SZ) with 0. cbn [negb Z.eqb].
    destruct (_ <? 0); [done|]. destruct (tailq_alloc e); [|done]. by destruct (memzone_reserve e _).
Qed.

(** [2 ^ j] is the smallest power of two above [n]. *)
Definition least_above (n j : Z) : Prop := n < 2 ^ j /\ (j = 0 \/ 2 ^ (j - 1) <= n).

(** [create_bsring] asks for the smallest ring with a slot for every 60 bytes of the
    capacity, and that size is accepted for every capacity: the warning about a ring
    that is too large cannot appear. [create_psring] asks for the smallest ring with a
    slot for every packet, for capacities below [2 ^ 27]; from there on, although up to
    PS_RING_SIZE_LIMIT is promised, it returns NULL whatever memory there is. The rings
    are empty, and there is none exactly when the memory is refused. *)
Theorem create_sized_correct (e : ring_env) (cap : Z) :
  0 <= cap < 2 ^ 32 ->
  (exists j, 0 <= j <= 27 /\ least_above (cap / 60) j /\
    (granted e (2 ^ j) -> exists r, create_bsring e true cap = Ret (Some (BsRing r cap 0)) /\ ring_rep r [] /\ capacity r = 2 ^ j - 1) /\
    (~ granted e (2 ^ j) -> create_bsring e true cap = Ret None)) /\
  (cap < 2 ^ 27 -> exists j, 0 <= j <= 27 /\ least_above cap j /\
    (granted e (2 ^ j) -> exists r, create_psring e true cap = Ret (Some (PsRing r cap)) /\ ring_rep r [] /\ capacity r = 2 ^ j - 1) /\
    (~ granted e (2 ^ j) -> create_psring e true cap = Ret None)) /\
  (2 ^ 27 <= cap -> create_psring e true cap = Ret None).
Proof.
  intros Hc. split_and!.
  - destruct (bs_count_spec (cap / 60) 64 0) as (j & E & Hj & Hlt & Hlow); [Z.div_mod_to_equations; lia|lia|lia|by left|].
    exists j. split_and!; [lia|lia|by split|..]. all: unfold create_bsring; change (2 ^ 0) with 1 in E; rewrite E;
      destruct (Z.ltb_spec BS_RING_SIZE_LIMIT (2 ^ j)) as [Hb|_];
      try (assert (2 ^ j <= 2 ^ 27) by (apply Z.pow_le_mono_r; lia); unfold BS_RING_SIZE_LIMIT in Hb; lia);
      cbn [negb]; destruct (ring_created e j Hj) as [(Hg & r & -> & Hr & Hcap)|(Hg & err & ->)]; try done.
    intros _. by exists r.
  - intros Hsmall. destruct (ps_count_spec cap 64 0) as (j & E & Hj & Hlt & Hlow); [lia|lia|lia|by left|].
    assert (j <= 27). { destruct Hlow as [->|Hlow]; [lia|]. assert (2 ^ (j - 1) < 2 ^ 27) as Hp by lia. apply Z.pow_lt_mono_r_iff in Hp; lia. }
    exists j. split_and!; [lia|lia|by split|..]. all: unfold create_psring; destruct (Z.ltb_spec PS_RING_SIZE_LIMIT cap) as [Hb|_];
      try (unfold PS_RING_SIZE_LIMIT in Hb; lia); change (2 ^ 0) with 1 in E; rewrite E; cbn [negb];
      destruct (ring_created e j ltac:(lia)) as [(Hg & r & -> & Hr & Hcap)|(Hg & err & ->)]; try done.
    intros _. by exists r.
  - intros Hbig. unfold create_psring. set (cap' := if _ <? _ then _ else _).
    assert (2 ^ 27 <= cap' < 2 ^ 28) as Hc' by (unfold cap', PS_RING_SIZE_LIMIT; destruct (Z.ltb_spec 268435455 cap); lia).
    destruct (ps_count_spec cap' 64 0) as (j & E & Hj & Hlt & Hlow); [lia|lia|lia|by left|].
    assert (27 < j) by (assert (2 ^ 27 < 2 ^ j) as Hp by lia; apply Z.pow_lt_mono_r_iff in Hp; lia).
    assert (j = 28) as -> by lia. change (2 ^ 0) with 1 in E. rewrite E. reflexivity.
Qed.

(** ** Packets and their bytes *)

Definition bytes (len : nat -> Z) (l : list nat) : Z := foldr (fun m a => len m + a) 0 l.

Lemma bytes_app len l1 l2 : bytes len (l1 ++ l2) = bytes len l1 + bytes len l2.
Proof. unfold bytes. induction l1 as [|m l IH]; cbn [app foldr]; [lia|]. rewrite IH. lia. Qed.

Lemma bytes_perm len l1 l2 : l1 ≡ₚ l2 -> bytes len l1 = bytes len l2.
Proof. unfold bytes. induction 1; cbn [foldr]; lia. Qed.

Lemma bytes_min len l : Forall (fun m => 60 <= len m) l -> 60 * Z.of_nat (length l) <= bytes len l.
Proof. induction 1; cbn [length bytes foldr] in *; [lia|]. unfold bytes in *. lia. Qed.

Lemma bytes_take_drop len k l : bytes len (take k l) + bytes len (drop k l) = bytes len l.
Proof. by rewrite <- bytes_app, take_drop. Qed.

Section Packets.
Context {P : Type} `{MempoolLaws P}.
Context (mp : nat) (total : list nat) (len : nat -> Z).
Implicit Types (b : mem P) (q out objs : list nat).

(** The buffers: those of the pool [mp], of which [l] are outside of it, each with a
    packet of [len] bytes. *)
Record pkts_ok b (l : list nat) : Prop := {
  po_held : held b mp total l;
  po_len m : m ∈ total -> exists h, mbufs b !! m = Some h /\ pkt_len h = len m
}.

Lemma pkts_perm b l l' : l ≡ₚ l' -> pkts_ok b l -> pkts_ok b l'.
Proof. intros Hp [Hh Hl]. split; [by eapply held_perm|done]. Qed.

Lemma wp_on_bufs {R A} (m : M (mem P) A) Q (s : sized P R) :
  wp (on_bufs m) Q s <-> wp m (fun a b => Q a (Sized (sz s) b)) (sz_mem s).
Proof. unfold wp, on_bufs. destruct (m (sz_mem s)) as [[a b]| |]; done. Qed.

Lemma wp_free_each b objs rest Q :
  pkts_ok b (objs ++ rest) -> (forall b', pkts_ok b' rest -> Q tt b') -> wp (free_each objs) Q b.
Proof.
  intros [Hh Hl] HQ. destruct (free_held b mp total objs rest Hh) as (b' & E & Hh' & Hsame).
  unfold wp. rewrite E. apply HQ. split; [done|]. intros m Hm. rewrite Hsame. by apply Hl.
Qed.

Lemma wp_free_pkt b m rest Q :
  pkts_ok b (m :: rest) -> (forall b', pkts_ok b' rest -> Q tt b') -> wp (rte_pktmbuf_free (Some m)) Q b.
Proof.
  intros Hb HQ. pose proof (wp_free_each b [m] rest Q Hb HQ) as Hw. cbn [free_each] in Hw. rewrite wp_bind in Hw.
  eapply wp_mono; [exact Hw|]. by intros [] s'.
Qed.

Lemma pkts_in b l m : pkts_ok b l -> m ∈ l -> m ∈ total /\ exists h, mbufs b !! m = Some h /\ pkt_len h = len m.
Proof. intros [Hh Hl] Hm. destruct (held_out _ _ _ _ m Hh Hm) as [Ht _]. auto. Qed.

Lemma wp_pkt_len_of {R} (s : sized P R) l m Q :
  pkts_ok (sz_mem s) l -> m ∈ l -> Q (len m) s -> wp (pkt_len_of m) Q s.
Proof.
  intros Hb Hm HQ. destruct (pkts_in _ _ _ Hb Hm) as (_ & h & Hh & El). unfold pkt_len_of.
  rewrite wp_bind, wp_on_bufs. unfold wp, load_mbuf. rewrite Hh. cbn. rewrite El. by destruct s.
Qed.

Lemma wp_total_len {R} (s : sized P R) l Q : forall objs acc,
  pkts_ok (sz_mem s) l -> objs ⊆ l -> (forall m, m ∈ l -> 0 <= len m) -> 0 <= acc -> acc + bytes len objs < 2 ^ 32 ->
  Q (acc + bytes len objs) s -> wp (total_len objs acc) Q s.
Proof.
  intros objs. induction objs as [|m objs IH]; intros acc Hb Hin Hpos Ha Hs HQ; cbn [total_len bytes foldr] in *.
  - by rewrite wp_ret, Z.add_0_r in *.
  - fold (bytes len objs) in *. rewrite wp_bind. apply (wp_pkt_len_of s l); [done|set_solver|].
    pose proof (Hpos m ltac:(set_solver)).
    assert (0 <= bytes len objs). { clear -Hin Hpos. induction objs as [|x objs IH]; cbn; [lia|].
      fold (bytes len objs). pose proof (Hpos x ltac:(set_solver)). specialize (IH ltac:(set_solver)). lia. }
    rewrite wrapu_small by lia. apply IH; [done|set_solver|done|lia|lia|]. by rewrite <- Z.add_assoc.
Qed.
End Packets.

(** ** The byte-sized ring *)

(** What a client with the packets [out] does: it gives packets away from the front, and
    gets packets at the end. *)
Inductive sop := EnqBulk (k : nat) | Enq | DeqBulk (n : Z) | DeqBurst (n : Z) | Deq.

Definition sop_ok (o : sop) : Prop := match o with DeqBulk n | DeqBurst n => 0 <= n < 2 ^ 32 | _ => True end.

(** The value returned, the packets the client has afterwards, those the ring accepted
    and those it delivered. *)
Record outcome := Outcome { o_ret : Z; o_client : list nat; o_acc : list nat; o_del : list nat }.

(** A queue [q] of packets with at most [cap] bytes, all of them in one batch or none;
    the operation for a single packet wants one byte more. *)
Definition spec_step (len : nat -> Z) (cap : Z) (o : sop) (q out : list nat) : list nat * outcome :=
  let del n :=
    let k := Z.to_nat n in (drop k q, Outcome (Z.of_nat (length (take k q))) (out ++ take k q) [] (take k q)) in
  match o with
  | EnqBulk k =>
    let objs := take k out in
    if bytes len q + bytes len objs <=? cap
    then (q ++ objs, Outcome (Z.of_nat (length objs)) (drop k out) objs [])
    else (q, Outcome 0 (drop k out) [] [])
  | Enq =>
    match out with
    | [] => (q, Outcome 0 [] [] [])
    | m :: out =>
      if bytes len q + len m <? cap then (q ++ [m], Outcome 1 out [m] []) else (q, Outcome 0 out [] [])
    end
  | DeqBulk n => del (clip RTE_RING_QUEUE_FIXED n (Z.of_nat (length q)))
  | DeqBurst n => del (clip RTE_RING_QUEUE_VARIABLE n (Z.of_nat (length q)))
  | Deq => del (clip RTE_RING_QUEUE_FIXED 1 (Z.of_nat (length q)))
  end.

Fixpoint spec_run (len : nat -> Z) (cap : Z) (ops : list sop) (q out : list nat) : list nat * list nat * list outcome :=
  match ops with
  | [] => (q, out, [])
  | o :: ops =>
    let '(q, r) := spec_step len cap o q out in
    let '(q, out, rs) := spec_run len cap ops q (o_client r) in (q, out, r :: rs)
  end.

Section Client.
Context {P : Type} `{Mempool P}.

Definition client_step (o : sop) (out : list nat) : M (sized P bs_ring) outcome :=
  match o with
  | EnqBulk k => r ← bsring_enqueue_bulk (take k out); mret (Outcome r.1 (drop k out) (omap id r.2) [])
  | Enq =>
    match out with
    | [] => mret (Outcome 0 [] [] [])
    | m :: out => r ← bsring_enqueue m; mret (Outcome r out (if r =? 1 then [m] else []) [])
    end
  | DeqBulk n => r ← bsring_dequeue_bulk n; mret (Outcome r.1 (out ++ r.2) [] r.2)
  | DeqBurst n => r ← bsring_dequeue_burst n; mret (Outcome r.1 (out ++ r.2) [] r.2)
  | Deq => r ← bsring_dequeue; mret (Outcome r.1 (out ++ r.2) [] r.2)
  end.

Fixpoint client_run (ops : list sop) (out : list nat) : M (sized P bs_ring) (list nat * list outcome) :=
  match ops with
  | [] => mret (out, [])
  | o :: ops => r ← client_step o out; rs ← client_run ops (o_client r); mret (rs.1, r :: rs.2)
  end.
End Client.

Section Bytes.
Context {P : Type} `{MempoolLaws P}.
Context (mp : nat) (total : list nat) (len : nat -> Z) (cap : Z).
Context (Hlen : Forall (fun m => 60 <= len m) total) (Hsum : bytes len total < 2 ^ 32) (Hcap : 0 <= cap < 2 ^ 32).
Implicit Types (s : sized P bs_ring) (q out objs : list nat).

(** The packets [q] are in the ring and [out] with its clients; the bytes are counted,
    and the ring has a slot for every 60 bytes of its capacity. *)
Record bs_ok s q out : Prop := {
  bo_ring : ring_rep (bsr_ring (sz s)) q;
  bo_pkts : pkts_ok mp total len (sz_mem s) (q ++ out);
  bo_cap : bsr_capacity (sz s) = cap;
  bo_used : bytes_used (sz s) = bytes len q;
  bo_fit : bytes len q <= cap;
  bo_slots : cap / 60 <= capacity (bsr_ring (sz s))
}.

Lemma min_sub s q out l : bs_ok s q out -> l ⊆ q ++ out -> Forall (fun m => 60 <= len m) l.
Proof.
  intros Hs Hin. rewrite Forall_forall in Hlen |- *. intros m Hm. apply Hlen.
  by apply (pkts_in mp total len (sz_mem s) (q ++ out) m (bo_pkts _ _ _ Hs)), Hin.
Qed.

Lemma bytes_pos l : Forall (fun m => 60 <= len m) l -> 0 <= bytes len l.
Proof. intros Hl. pose proof (bytes_min len l Hl). lia. Qed.

Lemma bytes_total s q out : bs_ok s q out -> bytes len q + bytes len out < 2 ^ 32.
Proof.
  intros Hs. destruct (hd_pool _ _ _ _ (po_held _ _ _ _ _ (bo_pkts _ _ _ Hs))) as (p & _ & Hperm' & _).
  pose proof Hperm' as Hperm. apply (bytes_perm len) in Hperm. rewrite !bytes_app in Hperm.
  assert (0 <= bytes len (mp_objs (pool_objs p))); [|lia]. apply bytes_pos.
  rewrite Forall_forall in Hlen |- *. intros m Hm. apply Hlen. rewrite <- Hperm'. set_solver.
Qed.

(** What is within the capacity has a slot. *)
Lemma slots s q out objs :
  bs_ok s q out -> objs ⊆ out -> bytes len q + bytes len objs <= cap ->
  Z.of_nat (length q) + Z.of_nat (length objs) <= capacity (bsr_ring (sz s)).
Proof.
  intros Hs Hin Hfit. pose proof (bytes_min len (q ++ objs) (min_sub _ _ _ (q ++ objs) Hs ltac:(set_solver))) as Hmin.
  rewrite bytes_app, length_app in Hmin. pose proof (bo_slots _ _ _ Hs). Z.div_mod_to_equations. lia.
Qed.

Lemma wp_on_bsring {A} (m : M rte_ring A) Q s :
  wp (on_bsring m) Q s <-> wp m (fun a r => Q a (Sized (BsRing r (bsr_capacity (sz s)) (bytes_used (sz s))) (sz_mem s))) (bsr_ring (sz s)).
Proof. unfold wp, on_bsring. destruct (m (bsr_ring (sz s))) as [[a r]| |]; done. Qed.

Lemma nulled_all objs : nulled (length objs) objs = Some <$> objs.
Proof. unfold nulled. by rewrite firstn_all, Nat.sub_diag, app_nil_r. Qed.

Lemma omap_nulled k objs : omap id (nulled k objs) = take k objs.
Proof.
  unfold nulled. rewrite omap_app.
  assert (forall l : list nat, omap id (Some <$> l) = l) as -> by (induction l; cbn; congruence).
  assert (forall n, omap id (replicate n (@None nat)) = []) as -> by (induction n; done). apply app_nil_r.
Qed.

Lemma bulk_spec s q objs rest :
  bs_ok s q (objs ++ rest) ->
  wp (bsring_enqueue_bulk objs) (fun r s' =>
    if bytes len q + bytes len objs <=? cap
    then r = (Z.of_nat (length objs), nulled (length objs) objs) /\ bs_ok s' (q ++ objs) rest
    else r = (0, nulled 0 objs) /\ bs_ok s' q rest) s.
Proof.
  intros Hs. pose proof Hs as [Hr Hp Ec Eu Hf Hsl]. pose proof (bytes_total _ _ _ Hs) as Ht. rewrite bytes_app in Ht.
  pose proof (min_sub _ _ _ objs Hs ltac:(set_solver)) as Hmo. pose proof (bytes_min len objs Hmo) as Hbo.
  pose proof (bytes_pos q (min_sub _ _ _ q Hs ltac:(set_solver))). pose proof (bytes_pos objs Hmo).
  pose proof (bytes_pos rest (min_sub _ _ _ rest Hs ltac:(set_solver))).
  assert (forall m, m ∈ q ++ objs ++ rest -> 0 <= len m) as Hpos.
  { intros m Hm. pose proof (min_sub _ _ _ [m] Hs ltac:(set_solver)) as Hm1. apply Forall_cons in Hm1 as [? _]. lia. }
  unfold bsring_enqueue_bulk. rewrite wp_bind. apply (wp_total_len mp total len s (q ++ objs ++ rest)); [done|set_solver|done|lia|lia|].
  rewrite wp_bind, wp_gets, Ec, Eu, Z.add_0_l, (wrapu_small 32) by lia. rewrite Z.leb_antisym.
  destruct (Z.ltb_spec cap (bytes len q + bytes len objs)) as [Hno|Hyes]; cbn [negb].
  - rewrite wp_bind, wp_on_bufs. apply (wp_free_each mp total len _ objs (q ++ rest)).
    { eapply pkts_perm; [|exact Hp]. rewrite !app_assoc. by rewrite (Permutation_app_comm q objs). }
    intros b' Hb'. rewrite wp_ret. split; [done|]. by split.
  - pose proof (slots _ _ _ objs Hs ltac:(set_solver) Hyes) as Hroom.
    destruct (do_enqueue_spec (bsr_ring (sz s)) q objs RTE_RING_QUEUE_FIXED true Hr ltac:(lia)) as (r' & E & Hr' & Hcap').
    assert (clip RTE_RING_QUEUE_FIXED (Z.of_nat (length objs)) (capacity (bsr_ring (sz s)) - Z.of_nat (length q)) = Z.of_nat (length objs)) as Hk.
    { unfold clip. destruct (Z.ltb_spec (capacity (bsr_ring (sz s)) - Z.of_nat (length q)) (Z.of_nat (length objs))); lia. }
    rewrite Hk in E, Hr'. rewrite wp_bind, wp_on_bsring. unfold wp at 1, rte_ring_sp_enqueue_bulk. rewrite E. cbn [fst].
    rewrite Z.ltb_irrefl, !wp_bind, wp_ret, wp_bind. rewrite Nat2Z.id, firstn_all in *.
    apply (wp_total_len mp total len _ (q ++ objs ++ rest)); [done|set_solver|done|lia|lia|].
    rewrite wp_bind. unfold set_bytes_used. rewrite wp_modify, wp_ret. cbn [sz sz_mem bsr_ring bsr_capacity bytes_used].
    rewrite Eu, Z.add_0_l, wrapu_small, wraps_small by lia. split; [done|].
    split; cbn [sz sz_mem bsr_ring bsr_capacity bytes_used]; rewrite ?bytes_app; try done; [by rewrite <- app_assoc|by rewrite Hcap'].
Qed.

Lemma len_pos s q out m : bs_ok s q out -> m ∈ q ++ out -> 60 <= len m.
Proof. intros Hs Hm. pose proof (min_sub _ _ _ [m] Hs ltac:(set_solver)) as Hm1. by apply Forall_cons in Hm1 as [? _]. Qed.

Lemma one_spec s q m rest :
  bs_ok s q (m :: rest) ->
  wp (bsring_enqueue m) (fun r s' =>
    if bytes len q + len m <? cap then r = 1 /\ bs_ok s' (q ++ [m]) rest else r = 0 /\ bs_ok s' q rest) s.
Proof.
  intros Hs. pose proof Hs as [Hr Hp Ec Eu Hf Hsl]. pose proof (bytes_total _ _ _ Hs) as Ht. cbn [bytes foldr] in Ht.
  fold (bytes len rest) in Ht. pose proof (bytes_pos q (min_sub _ _ _ q Hs ltac:(set_solver))).
  pose proof (bytes_pos rest (min_sub _ _ _ rest Hs ltac:(set_solver))). pose proof (len_pos _ _ _ m Hs ltac:(set_solver)).
  unfold bsring_enqueue. rewrite wp_bind. apply (wp_pkt_len_of mp total len s (q ++ m :: rest)); [done|set_solver|].
  rewrite wp_bind, wp_gets, wp_bind, Ec, Eu, (wrapu_small 32) by lia.
  destruct (Z.ltb_spec (bytes len q + len m) cap) as [Hyes|Hno].
  - pose proof (slots _ _ _ [m] Hs ltac:(set_solver) ltac:(cbn; lia)) as Hroom. cbn [length] in Hroom.
    destruct (do_enqueue_spec (bsr_ring (sz s)) q [m] RTE_RING_QUEUE_FIXED true Hr ltac:(cbn; lia)) as (r' & E & Hr' & Hcap').
    assert (clip RTE_RING_QUEUE_FIXED (Z.of_nat (length [m])) (capacity (bsr_ring (sz s)) - Z.of_nat (length q)) = 1) as Hk.
    { unfold clip. cbn [length]. destruct (Z.ltb_spec (capacity (bsr_ring (sz s)) - Z.of_nat (length q)) (Z.of_nat 1)); lia. }
    rewrite Hk in E, Hr'. rewrite wp_bind, wp_on_bsring. unfold rte_ring_sp_enqueue, enqueue_one. rewrite wp_bind.
    unfold wp at 1, rte_ring_sp_enqueue_bulk. change (Z.of_nat (length [m])) with 1 in E. rewrite E. cbn [fst].
    rewrite wp_ret. cbn [Z.eqb Z.opp]. rewrite wp_ret. cbn [Z.eqb]. rewrite wp_bind.
    apply (wp_pkt_len_of mp total len _ (q ++ m :: rest)); [done|set_solver|].
    rewrite wp_bind. unfold set_bytes_used. rewrite wp_modify, wp_ret. cbn [sz sz_mem bsr_ring bsr_capacity bytes_used].
    rewrite Eu, wrapu_small by lia. split; [done|].
    split; cbn [sz sz_mem bsr_ring bsr_capacity bytes_used]; rewrite ?bytes_app; cbn [bytes foldr]; try done; try lia; by rewrite <- app_assoc.
  - rewrite wp_ret, wp_bind, wp_on_bufs. apply (wp_free_pkt mp total len _ m (q ++ rest)).
    { eapply pkts_perm; [|exact Hp]. by rewrite Permutation_middle. }
    intros b' Hb'. rewrite wp_ret. split; [done|]. by split.
Qed.

Lemma wp_sub_bytes l objs x Q : forall s,
  pkts_ok mp total len (sz_mem s) l -> objs ⊆ l -> (forall m, m ∈ l -> 0 <= len m) -> 0 <= x -> bytes_used (sz s) = bytes len objs + x -> bytes len objs + x < 2 ^ 32 ->
  Q tt (Sized (BsRing (bsr_ring (sz s)) (bsr_capacity (sz s)) x) (sz_mem s)) -> wp (sub_bytes objs) Q s.
Proof.
  induction objs as [|m objs IH]; intros s Hb Hin Hpos Hx Eu Hlt HQ; cbn [sub_bytes bytes foldr] in *.
  - rewrite wp_ret. destruct s as [[r c u] b]. cbn in *. by subst u.
  - fold (bytes len objs) in *. rewrite wp_bind. apply (wp_pkt_len_of mp total len s l); [done|set_solver|].
    rewrite wp_bind. unfold set_bytes_used. rewrite wp_modify.
    assert (0 <= bytes len objs). { clear -Hin Hpos. induction objs as [|y objs IH]; cbn; [lia|].
      fold (bytes len objs). pose proof (Hpos y ltac:(set_solver)). specialize (IH ltac:(set_solver)). lia. }
    pose proof (Hpos m ltac:(set_solver)). rewrite Eu, wrapu_small by lia.
    apply IH; cbn [sz sz_mem bsr_ring bsr_capacity bytes_used]; try done; [set_solver|lia|lia].
Qed.

(** A dequeue of at most [n] packets. *)
Lemma take_spec s q out n b :
  bs_ok s q out -> 0 <= n < 2 ^ 32 ->
  let k := Z.to_nat (clip b n (Z.of_nat (length q))) in
  wp (r ← on_bsring (rte_ring_do_dequeue n b true); sub_bytes r.1 ;; mret r.1)
     (fun l s' => l = take k q /\ bs_ok s' (drop k q) (out ++ take k q)) s.
Proof.
  intros Hs Hn k. pose proof Hs as [Hr Hp Ec Eu Hf Hsl]. pose proof (bytes_total _ _ _ Hs) as Ht.
  destruct (do_dequeue_spec (bsr_ring (sz s)) q n b true Hr Hn) as (r' & E & Hr' & Hcap'). fold k in E, Hr'.
  pose proof (bytes_pos (drop k q) (min_sub _ _ _ (drop k q) Hs ltac:(rewrite <- (take_drop k q) at 2; set_solver))).
  pose proof (bytes_pos (take k q) (min_sub _ _ _ (take k q) Hs ltac:(rewrite <- (take_drop k q) at 2; set_solver))).
  pose proof (bytes_take_drop len k q) as Hsplit.
  pose proof (bytes_pos out (min_sub _ _ _ out Hs ltac:(set_solver))).
  rewrite wp_bind, wp_on_bsring. unfold wp at 1. rewrite E. cbn [fst]. rewrite wp_bind.
  apply (wp_sub_bytes (q ++ out) _ (bytes len (drop k q))); cbn [sz sz_mem bsr_ring bsr_capacity bytes_used]; try done.
  - rewrite <- (take_drop k q) at 2. set_solver.
  - intros m Hm. pose proof (len_pos _ _ _ m Hs Hm). lia.
  - lia.
  - lia.
  - rewrite wp_ret. split; [done|].
    split; cbn [sz sz_mem bsr_ring bsr_capacity bytes_used]; try done; [|lia|by rewrite Hcap'].
    eapply pkts_perm; [|exact Hp]. rewrite <- (take_drop k q) at 1. rewrite <- app_assoc, Permutation_app_comm, <- app_assoc. done.
Qed.

Lemma rep_short r q : ring_rep r q -> Z.of_nat (length q) < 2 ^ 31.
Proof. intros [Hsh Hfit _]. pose proof (rsize_pos r Hsh). pose proof (shape_mask r Hsh). pose proof (shape_cap r Hsh). lia. Qed.

(** The two multiple dequeues, with the value they return. *)
Lemma deq_spec s q out n b :
  bs_ok s q out -> 0 <= n < 2 ^ 32 ->
  let k := Z.to_nat (clip b n (Z.of_nat (length q))) in
  wp (r ← on_bsring (rte_ring_do_dequeue n b true); sub_bytes r.1 ;; mret (i32 (Z.of_nat (length r.1)), r.1))
     (fun r s' => r = (Z.of_nat (length (take k q)), take k q) /\ bs_ok s' (drop k q) (out ++ take k q)) s.
Proof.
  intros Hs Hn k. pose proof (take_spec s q out n b Hs Hn) as Ht. cbv zeta in Ht. fold k in Ht. pose proof (rep_short _ _ (bo_ring _ _ _ Hs)).
  rewrite wp_bind in Ht. rewrite wp_bind. eapply wp_mono; [exact Ht|]. cbv beta. intros r s1. rewrite !wp_bind. intros Ht1.
  eapply wp_mono; [exact Ht1|]. cbv beta. intros [] s2. rewrite !wp_ret. intros [-> Hok]. split; [|done].
  rewrite wraps_small by (rewrite ?length_take; lia). done.
Qed.

Lemma deq_one_spec s q out :
  bs_ok s q out ->
  let k := Z.to_nat (clip RTE_RING_QUEUE_FIXED 1 (Z.of_nat (length q))) in
  wp bsring_dequeue (fun r s' => r = (Z.of_nat (length (take k q)), take k q) /\ bs_ok s' (drop k q) (out ++ take k q)) s.
Proof.
  intros Hs k. pose proof (take_spec s q out 1 RTE_RING_QUEUE_FIXED Hs ltac:(lia)) as Ht. cbv zeta in Ht. fold k in Ht.
  unfold bsring_dequeue, rte_ring_sc_dequeue, dequeue_one, rte_ring_sc_dequeue_bulk.
  rewrite wp_bind, wp_on_bsring in Ht. rewrite wp_bind, wp_on_bsring, wp_bind. eapply wp_mono; [exact Ht|].
  cbv beta. intros [l ?] r'. cbn [fst]. rewrite wp_ret. destruct l as [|x [|y l]]; cbn [sub_bytes]; rewrite ?wp_bind, ?wp_ret.
  - intros [<- Hok]. done.
  - intros Hx. eapply wp_mono; [exact Hx|]. cbv beta. intros l s1. rewrite !wp_bind. intros Hx1.
    eapply wp_mono; [exact Hx1|]. cbv beta. intros [] s2. rewrite !wp_ret. intros [<- Hok]. done.
  - intros Hx. exfalso. apply wp_run in Hx as (? & ? & _ & Hx). apply wp_run in Hx as (? & ? & _ & Hx).
    rewrite wp_ret in Hx. destruct Hx as [Hx _]. apply (f_equal length) in Hx. rewrite length_take in Hx.
    pose proof (clip_bounds RTE_RING_QUEUE_FIXED 1 (Z.of_nat (length q)) ltac:(lia) ltac:(lia)). cbn in Hx. lia.
Qed.

Lemma step_refines s q out o :
  bs_ok s q out -> sop_ok o ->
  wp (client_step o out) (fun r s' => r = (spec_step len cap o q out).2 /\ bs_ok s' (spec_step len cap o q out).1 (o_client r)) s.
Proof.
  intros Hs Ho. destruct o as [k| |n|n|]; cbn [client_step spec_step].
  - rewrite wp_bind. eapply wp_mono; [apply (bulk_spec s q (take k out) (drop k out)); by rewrite take_drop|].
    cbv beta. intros r s'. rewrite wp_ret. destruct (_ <=? _); intros [-> Hok]; cbn [fst snd o_client].
    + by rewrite omap_nulled, firstn_all.
    + by rewrite omap_nulled, take_0.
  - destruct out as [|m out]; [by rewrite wp_ret|]. rewrite wp_bind. eapply wp_mono; [by apply (one_spec s q m out)|].
    cbv beta. intros r s'. rewrite wp_ret. destruct (_ <? _); intros [-> Hok]; by cbn [fst snd o_client Z.eqb].
  - rewrite wp_bind. eapply wp_mono; [by apply (deq_spec s q out n RTE_RING_QUEUE_FIXED)|]. cbv beta. intros r s'. rewrite wp_ret. by intros [-> Hok].
  - rewrite wp_bind. eapply wp_mono; [by apply (deq_spec s q out n RTE_RING_QUEUE_VARIABLE)|]. cbv beta. intros r s'. rewrite wp_ret. by intros [-> Hok].
  - rewrite wp_bind. eapply wp_mono; [by apply (deq_one_spec s q out)|]. cbv beta. intros r s'. rewrite wp_ret. by intros [-> Hok].
Qed.

Lemma run_refines ops : forall s q out,
  bs_ok s q out -> Forall sop_ok ops ->
  let '(q', out', rs) := spec_run len cap ops q out in
  wp (client_run ops out) (fun r s' => r = (out', rs) /\ bs_ok s' q' out') s.
Proof.
  induction ops as [|o ops IH]; intros s q out Hs Hops; cbn [spec_run client_run]; [by rewrite wp_ret|].
  apply Forall_cons in Hops as [Ho Hops]. pose proof (step_refines s q out o Hs Ho) as Hstep.
  destruct (spec_step len cap o q out) as [q1 r1]. destruct (spec_run len cap ops q1 (o_client r1)) as [[q' out'] rs] eqn:Er.
  rewrite wp_bind. eapply wp_mono; [exact Hstep|]. cbv beta. intros r s1 [-> Hs1]. cbn [fst snd] in *.
  specialize (IH s1 q1 (o_client r1) Hs1 Hops). rewrite Er in IH. rewrite wp_bind. eapply wp_mono; [exact IH|].
  cbv beta. intros r s2 [-> Hs2]. by rewrite wp_ret.
Qed.

(** First in, first out, and within the limit. *)
Lemma spec_run_fifo ops : forall q out q' out' rs,
  spec_run len cap ops q out = (q', out', rs) ->
  q ++ concat (o_acc <$> rs) = concat (o_del <$> rs) ++ q'.
Proof.
  induction ops as [|o ops IH]; intros q out q' out' rs E; cbn [spec_run] in E.
  - injection E as <- <- <-. by rewrite app_nil_r.
  - destruct (spec_step len cap o q out) as [q1 r1] eqn:E1. destruct (spec_run len cap ops q1 (o_client r1)) as [[q2 out2] rs2] eqn:E2.
    injection E as <- <- <-. apply IH in E2. cbn [fmap list_fmap concat].
    assert (q ++ o_acc r1 = o_del r1 ++ q1) as E3; [|by rewrite app_assoc, E3, <- !app_assoc, E2].
    destruct o as [k| |n|n|]; cbn [spec_step] in E1.
    + destruct (_ <=? _); injection E1 as <- <-; cbn; by rewrite ?app_nil_r.
    + destruct out as [|m out]; [injection E1 as <- <-; cbn; by rewrite ?app_nil_r|].
      destruct (_ <? _); injection E1 as <- <-; cbn; by rewrite ?app_nil_r.
    + injection E1 as <- <-. cbn. by rewrite app_nil_r, take_drop.
    + injection E1 as <- <-. cbn. by rewrite app_nil_r, take_drop.
    + injection E1 as <- <-. cbn. by rewrite app_nil_r, take_drop.
Qed.

(** ** Bursts *)

Lemma burst_fit_all l objs Q : forall s R num,
  pkts_ok mp total len (sz_mem s) l -> objs ⊆ l -> Forall (fun m => 60 <= len m) objs -> bytes len objs <= R < 2 ^ 31 ->
  Q (num + Z.of_nat (length objs), R - bytes len objs) s -> wp (burst_fit objs R num) Q s.
Proof.
  induction objs as [|m objs IH]; intros s R num Hb Hin Hmin HR HQ; cbn [burst_fit bytes foldr length] in *.
  - rewrite wp_ret. replace (num, R) with (num + Z.of_nat 0, R - 0) by (f_equal; lia). done.
  - fold (bytes len objs) in *. apply Forall_cons in Hmin as [Hm Hmin]. pose proof (bytes_pos objs Hmin).
    destruct (Z.ltb_spec 0 R); [|lia]. rewrite wp_bind. apply (wp_pkt_len_of mp total len s l); [done|set_solver|].
    rewrite wraps_small by lia. apply IH; [done|set_solver|done|lia|].
    replace (num + 1 + Z.of_nat (length objs)) with (num + Z.of_nat (S (length objs))) by lia.
    by replace (R - len m - bytes len objs) with (R - (len m + bytes len objs)) by lia.
Qed.

(** A burst that fits is accepted as a whole. *)
Lemma burst_all s q objs rest :
  bs_ok s q (objs ++ rest) -> cap < 2 ^ 31 -> bytes len q + bytes len objs <= cap ->
  wp (bsring_enqueue_burst objs) (fun r s' => r = (Z.of_nat (length objs), Some <$> objs) /\ bs_ok s' (q ++ objs) rest) s.
Proof.
  intros Hs Hc31 Hfit. pose proof Hs as [Hr Hp Ec Eu Hf Hsl]. pose proof (bytes_total _ _ _ Hs) as Ht. rewrite bytes_app in Ht.
  pose proof (min_sub _ _ _ objs Hs ltac:(set_solver)) as Hmo. pose proof (bytes_min len objs Hmo) as Hbo.
  pose proof (bytes_pos q (min_sub _ _ _ q Hs ltac:(set_solver))). pose proof (bytes_pos objs Hmo).
  pose proof (slots _ _ _ objs Hs ltac:(set_solver) Hfit) as Hroom.
  unfold bsring_enqueue_burst. rewrite wp_bind, wp_gets, wp_bind, Ec, Eu, wrapu_small, wraps_small by lia.
  apply (burst_fit_all (q ++ objs ++ rest)); [done|set_solver|done|lia|]. cbn [fst snd].
  destruct (Z.ltb_spec (cap - bytes len q - bytes len objs) 0); [lia|].
  destruct (do_enqueue_spec (bsr_ring (sz s)) q objs RTE_RING_QUEUE_VARIABLE true Hr ltac:(lia)) as (r' & E & Hr' & Hcap').
  assert (clip RTE_RING_QUEUE_VARIABLE (Z.of_nat (length objs)) (capacity (bsr_ring (sz s)) - Z.of_nat (length q)) = Z.of_nat (length objs)) as Hk.
  { unfold clip. destruct (Z.ltb_spec (capacity (bsr_ring (sz s)) - Z.of_nat (length q)) (Z.of_nat (length objs))); lia. }
  rewrite Hk in E, Hr'. rewrite Z.add_0_l, wp_bind, wp_on_bsring. unfold wp at 1, rte_ring_sp_enqueue_burst. rewrite E. cbn [fst].
  rewrite wp_bind, Nat2Z.id, firstn_all, drop_all. rewrite Nat2Z.id, firstn_all in Hr'.
  apply (wp_total_len mp total len _ (q ++ objs ++ rest)); [done|set_solver| |lia|lia|].
  { intros m Hm. pose proof (len_pos _ _ _ m Hs Hm). lia. }
  rewrite wp_bind, wp_on_bufs. cbn [free_each]. rewrite wp_ret, wp_bind, Z.ltb_irrefl, wp_ret. cbn [fmap list_fmap].
  rewrite wp_bind. unfold set_bytes_used. rewrite wp_modify, wp_ret, nulled_all, app_nil_r. cbn [sz sz_mem bsr_ring bsr_capacity bytes_used].
  rewrite Eu, Z.add_0_l, wrapu_small, wraps_small by lia. split; [done|].
  split; cbn [sz sz_mem bsr_ring bsr_capacity bytes_used]; rewrite ?bytes_app; try done; [by rewrite <- app_assoc|by rewrite Hcap'].
Qed.

(** Behind a packet that does not fit, one that does is put into the ring and freed. *)
Lemma burst_reuse s q big small rest :
  bs_ok s q (big :: small :: rest) -> cap < 2 ^ 31 -> cap - bytes len q < len big < 2 ^ 31 -> bytes len q + len small <= cap ->
  wp (bsring_enqueue_burst [big; small]) (fun r s' => r = (0, [None; None]) /\
    ring_rep (bsr_ring (sz s')) (q ++ [small]) /\ pkts_ok mp total len (sz_mem s') (q ++ rest) /\ bytes_used (sz s') = bytes len q) s.
Proof.
  intros Hs Hc31 Hbig Hsmall. pose proof Hs as [Hr Hp Ec Eu Hf Hsl].
  pose proof (bytes_pos q (min_sub _ _ _ q Hs ltac:(set_solver))). pose proof (len_pos _ _ _ small Hs ltac:(set_solver)).
  set (R := cap - bytes len q) in *.
  unfold bsring_enqueue_burst. rewrite wp_bind, wp_gets, wp_bind, Ec, Eu, wrapu_small, wraps_small by lia. fold R.
  cbn [burst_fit]. destruct (Z.ltb_spec 0 R); [|lia]. rewrite wp_bind.
  apply (wp_pkt_len_of mp total len s (q ++ big :: small :: rest)); [done|set_solver|].
  rewrite wraps_small by lia. destruct (Z.ltb_spec 0 (R - len big)); [lia|]. rewrite wp_ret. cbn [fst snd].
  destruct (Z.ltb_spec (R - len big) 0); [|lia]. change (u32 (0 + 1 - 1)) with 0.
  destruct (do_enqueue_first (bsr_ring (sz s)) q [big; small] 0 RTE_RING_QUEUE_VARIABLE true Hr ltac:(cbn; lia) ltac:(lia)) as (r0 & E0 & Hr0 & Hcap0).
  assert (clip RTE_RING_QUEUE_VARIABLE 0 (capacity (bsr_ring (sz s)) - Z.of_nat (length q)) = 0) as Hk0.
  { unfold clip. pose proof (rep_fit _ _ Hr). destruct (Z.ltb_spec (capacity (bsr_ring (sz s)) - Z.of_nat (length q)) 0); lia. }
  rewrite Hk0 in E0, Hr0. rewrite app_nil_r in Hr0.
  rewrite wp_bind, wp_on_bsring. unfold wp at 1, rte_ring_sp_enqueue_burst. rewrite E0. cbn [fst]. change (Z.to_nat 0) with O. rewrite !drop_0, !take_0. cbn [total_len free_each].
  rewrite wp_bind, wp_ret, wp_bind, wp_on_bufs. cbn [free_each]. rewrite wp_ret, wp_bind. change (0 <? Z.of_nat (length [big; small])) with true. cbv iota.
  rewrite wp_bind, wp_gets. cbn [sz sz_mem bsr_capacity bytes_used bsr_ring]. rewrite Ec, Eu, (wrapu_small 32 (cap - _)) by lia. fold R.
  rewrite Z.sub_0_r, wrapu_small, wraps_small by lia. cbn [burst_rest]. destruct (Z.leb_spec 60 R); [|lia].
  rewrite wp_bind. apply (wp_pkt_len_of mp total len _ (q ++ big :: small :: rest)); [done|set_solver|].
  rewrite (wraps_small 32 (len big)) by lia. destruct (Z.leb_spec (len big) R); [lia|]. rewrite wp_bind, wp_ret, wp_bind, wp_on_bufs.
  apply (wp_free_pkt mp total len _ big (q ++ small :: rest)); [by eapply pkts_perm; [|exact Hp]; rewrite Permutation_middle|].
  intros b1 Hb1. rewrite wp_bind. cbn [sz sz_mem]. rewrite wp_bind.
  apply (wp_pkt_len_of mp total len _ (q ++ small :: rest)); [done|set_solver|].
  rewrite (wraps_small 32 (len small)) by lia. destruct (Z.leb_spec (len small) R); [|lia]. rewrite !wp_bind, wp_on_bsring.
  cbn [sz sz_mem bsr_ring bsr_capacity bytes_used].
  destruct (do_enqueue_spec r0 q [small] RTE_RING_QUEUE_FIXED true Hr0 ltac:(cbn; lia)) as (r1 & E1 & Hr1 & Hcap1).
  pose proof (slots _ _ _ [small] Hs ltac:(set_solver) ltac:(cbn; lia)) as Hroom. cbn [length] in Hroom.
  assert (clip RTE_RING_QUEUE_FIXED (Z.of_nat (length [small])) (capacity r0 - Z.of_nat (length q)) = 1) as Hk1.
  { unfold clip. cbn [length]. rewrite Hcap0. destruct (Z.ltb_spec (capacity (bsr_ring (sz s)) - Z.of_nat (length q)) (Z.of_nat 1)); lia. }
  rewrite Hk1 in E1, Hr1. change (Z.of_nat (length [small])) with 1 in E1.
  unfold rte_ring_sp_enqueue, enqueue_one. rewrite wp_bind. unfold wp at 1, rte_ring_sp_enqueue_bulk. rewrite E1. cbn [fst].
  rewrite wp_ret. cbn [Z.eqb Z.opp]. rewrite wp_ret. cbn [Z.eqb negb]. rewrite wp_bind, wp_on_bufs.
  apply (wp_free_pkt mp total len _ small (q ++ rest)); [by eapply pkts_perm; [|exact Hb1]; rewrite Permutation_middle|].
  intros b2 Hb2. rewrite wp_bind, !wp_ret. cbn [fst snd]. rewrite wp_bind. unfold set_bytes_used. rewrite wp_modify, wp_ret.
  cbn [sz sz_mem bsr_ring bsr_capacity bytes_used]. rewrite Z.add_0_r, wrapu_small by lia. by split_and!.
Qed.
End Bytes.

(** The length of the packet in a buffer. *)
Definition len_in {P : Type} (b : mem P) (m : nat) : Z := match mbufs b !! m with Some h => pkt_len h | None => 0 end.

Lemma pkts_start {P : Type} `{Mempool P} mp total (b : mem P) out : held b mp total out -> pkts_ok mp total (len_in b) b out.
Proof.
  intros Hh. split; [done|]. intros m Hm. pose proof (hd_single _ _ _ _ Hh) as Hs. rewrite Forall_forall in Hs.
  destruct (Hs m Hm) as (h & Hb & _). exists h. unfold len_in. by rewrite Hb.
Qed.

(** What [create_bsring] gives is in order. *)
Lemma created_ok {P : Type} `{MempoolLaws P} e cap mp total (b : mem P) out bsr :
  0 <= cap < 2 ^ 32 -> create_bsring e true cap = Ret (Some bsr) -> held b mp total out ->
  bs_ok mp total (len_in b) cap (Sized bsr b) [] out.
Proof.
  intros Hc E Hh. destruct (bs_count_spec (cap / 60) 64 0) as (j & Ej & Hj & Hlt & Hlow); [Z.div_mod_to_equations; lia|lia|lia|by left|].
  unfold create_bsring in E. change (2 ^ 0) with 1 in Ej. rewrite Ej in E.
  destruct (Z.ltb_spec BS_RING_SIZE_LIMIT (2 ^ j)) as [Hb|_].
  { assert (2 ^ j <= 2 ^ 27) by (apply Z.pow_le_mono_r; lia). unfold BS_RING_SIZE_LIMIT in Hb. lia. }
  cbn [negb] in E. destruct (ring_created e j Hj) as [(Hg & r & Er & Hr & Hcap)|(Hg & err & Er)]; rewrite Er in E; [|done].
  injection E as <-. split; cbn [sz sz_mem bsr_ring bsr_capacity bytes_used bytes foldr]; try done; [by apply pkts_start|lia|lia].
Qed.


Lemma pool_member {P : Type} `{MempoolLaws P} mp total (b : mem P) l m :
  held b mp total l -> m ∈ total -> m ∉ l -> exists p, pools b !! mp = Some p /\ m ∈ mp_objs (pool_objs p).
Proof.
  intros [(p & Hp & Hperm & _) _ _] Hm Hn. exists p. split; [done|]. rewrite <- Hperm in Hm. set_solver.
Qed.

(** A burst that fits into a byte-sized ring is accepted as a whole. But a packet
    behind one that does not fit, when it fits itself, is put into the ring and then
    freed: [rte_ring_sp_enqueue] returns 0 on success, and the code takes 0 for a
    failure. The burst then reports that nothing was added, while the consumer will get
    a buffer that the pool can hand out again. *)
Theorem bsring_burst_reuses_buffer {P : Type} `{MempoolLaws P} (mp : nat) (total : list nat) (len : nat -> Z) (cap : Z)
    (s : sized P bs_ring) (q : list nat) :
  Forall (fun m => 60 <= len m) total -> bytes len total < 2 ^ 32 -> 0 <= cap < 2 ^ 31 ->
  (forall objs rest, bs_ok mp total len cap s q (objs ++ rest) -> bytes len q + bytes len objs <= cap ->
     exists s', bsring_enqueue_burst objs s = Ret ((Z.of_nat (length objs), Some <$> objs), s') /\
       bs_ok mp total len cap s' (q ++ objs) rest) /\
  (forall big small rest, bs_ok mp total len cap s q (big :: small :: rest) ->
     cap - bytes len q < len big < 2 ^ 31 -> bytes len q + len small <= cap ->
     exists s' p, bsring_enqueue_burst [big; small] s = Ret ((0, [None; None]), s') /\
       ring_rep (bsr_ring (sz s')) (q ++ [small]) /\ bytes_used (sz s') = bytes len q /\
       pools (sz_mem s') !! mp = Some p /\ small ∈ mp_objs (pool_objs p)).
Proof.
  intros Hlen Hsum Hc. split.
  - intros objs rest Hs Hfit. pose proof (burst_all mp total len cap Hlen Hsum ltac:(lia) s q objs rest Hs ltac:(lia) Hfit) as Hw.
    apply wp_run in Hw as (r & s' & E & -> & Hok). by exists s'.
  - intros big small rest Hs Hbig Hsmall.
    pose proof (burst_reuse mp total len cap Hlen Hsum ltac:(lia) s q big small rest Hs ltac:(lia) Hbig Hsmall) as Hw.
    apply wp_run in Hw as (r & s' & E & -> & Hr & Hp & Hu).
    pose proof (held_nodup _ _ _ _ (po_held _ _ _ _ _ (bo_pkts _ _ _ _ _ _ _ Hs))) as Hnd.
    destruct (pkts_in mp total len _ _ small (bo_pkts _ _ _ _ _ _ _ Hs) ltac:(set_solver)) as [Hin _].
    destruct (pool_member mp total (sz_mem s') (q ++ rest) small (po_held _ _ _ _ _ Hp) Hin) as (p & Hpool & Hm).
    { apply NoDup_app in Hnd as (_ & Hd & Hnd). apply NoDup_cons in Hnd as [_ Hnd]. apply NoDup_cons in Hnd as [Hnd _].
      rewrite not_elem_of_app. split; [|done]. intros Hq. apply (Hd small Hq). set_solver. }
    exists s', p. by split_and!.
Qed.

(** ** The packet-sized ring *)

Section Pkts.
Context {P : Type} `{MempoolLaws P}.
Context (mp : nat) (total : list nat) (cap : Z).
Implicit Types (s : sized P ps_ring) (q out objs : list nat).

Record ps_ok s q out : Prop := {
  pso_ring : ring_rep (psr_ring (sz s)) q;
  pso_held : held (sz_mem s) mp total (q ++ out);
  pso_cap : psr_capacity (sz s) = cap;
  pso_fit : Z.of_nat (length q) <= cap;
  pso_slots : cap <= capacity (psr_ring (sz s)) < 2 ^ 28
}.

Lemma wp_on_psring {A} (m : M rte_ring A) Q s :
  wp (on_psring m) Q s <-> wp m (fun a r => Q a (Sized (PsRing r (psr_capacity (sz s))) (sz_mem s))) (psr_ring (sz s)).
Proof. unfold wp, on_psring. destruct (m (psr_ring (sz s))) as [[a r]| |]; done. Qed.

(** An enqueue for which there is room. *)
Lemma wp_ps_put s q objs n rest b Q :
  ps_ok s q (objs ++ rest) -> 0 <= n <= Z.of_nat (length objs) -> Z.of_nat (length q) + n <= cap ->
  (forall s' left, ps_ok s' (q ++ take (Z.to_nat n) objs) (drop (Z.to_nat n) objs ++ rest) -> Q (n, left) s') ->
  wp (on_psring (rte_ring_do_enqueue objs n b true)) Q s.
Proof.
  intros [Hr Hh Ec Hf Hsl] Hn Hroom HQ. rewrite wp_on_psring.
  destruct (do_enqueue_first (psr_ring (sz s)) q objs n b true Hr Hn ltac:(lia)) as (r' & E & Hr' & Hcap').
  assert (clip b n (capacity (psr_ring (sz s)) - Z.of_nat (length q)) = n) as Hk.
  { unfold clip. destruct (Z.ltb_spec (capacity (psr_ring (sz s)) - Z.of_nat (length q)) n); lia. }
  rewrite Hk in E, Hr'. unfold wp. rewrite E. apply HQ. split; cbn [sz sz_mem psr_ring psr_capacity]; try done.
  - rewrite <- app_assoc, (app_assoc (take _ _)), take_drop. done.
  - rewrite length_app, length_take. lia.
  - by rewrite Hcap'.
Qed.

Lemma wp_ps_free s q objs rest Q :
  ps_ok s q (objs ++ rest) -> (forall s', ps_ok s' q rest -> Q tt s') -> wp (on_bufs (free_each objs)) Q s.
Proof.
  intros [Hr Hh Ec Hf Hsl] HQ. rewrite wp_on_bufs.
  destruct (free_held (sz_mem s) mp total objs (q ++ rest)) as (b' & E & Hh' & _).
  { eapply held_perm; [|exact Hh]. rewrite !app_assoc. by rewrite (Permutation_app_comm q objs). }
  unfold wp. rewrite E. apply HQ. by split.
Qed.

Lemma ps_count_eq s q out n :
  ps_ok s q out -> 0 <= n < 2 ^ 31 -> u32 (rte_ring_count (psr_ring (sz s)) + n) = Z.of_nat (length q) + n.
Proof. intros [Hr _ _ Hf Hsl] Hn. rewrite (count_spec _ _ Hr). apply wrapu_small. lia. Qed.

Lemma ps_bulk s q objs rest :
  ps_ok s q (objs ++ rest) -> Z.of_nat (length objs) < 2 ^ 31 ->
  wp (psring_enqueue_bulk objs) (fun r s' =>
    if Z.of_nat (length q) + Z.of_nat (length objs) <? cap
    then r = Z.of_nat (length objs) /\ ps_ok s' (q ++ objs) rest else r = 0 /\ s' = s) s.
Proof.
  intros Hs Ho. unfold psring_enqueue_bulk. rewrite wp_bind, wp_gets, (ps_count_eq s q (objs ++ rest)), (pso_cap _ _ _ Hs) by (done || lia).
  destruct (Z.ltb_spec (Z.of_nat (length q) + Z.of_nat (length objs)) cap); [|by rewrite wp_ret].
  rewrite wp_bind. apply (wp_ps_put s q objs _ rest); [done|lia|lia|]. rewrite Nat2Z.id, firstn_all, drop_all.
  intros s' left Hs'. rewrite wp_ret. cbn [fst]. by rewrite wraps_small by lia.
Qed.

Lemma ps_burst s q objs rest :
  ps_ok s q (objs ++ rest) -> Z.of_nat (length objs) < 2 ^ 31 ->
  let k := Z.min (Z.of_nat (length objs)) (cap - Z.of_nat (length q)) in
  wp (psring_enqueue_burst objs) (fun r s' =>
    r = (k, nulled (Z.to_nat k) objs) /\ ps_ok s' (q ++ take (Z.to_nat k) objs) rest) s.
Proof.
  intros Hs Ho k. pose proof Hs as [Hr Hh Ec Hf Hsl]. unfold psring_enqueue_burst.
  rewrite wp_bind, wp_gets, (ps_count_eq s q (objs ++ rest)), Ec, (count_spec _ _ Hr) by (done || lia).
  destruct (Z.ltb_spec cap (Z.of_nat (length q))); [lia|].
  assert ((if cap <? Z.of_nat (length q) + Z.of_nat (length objs) then u32 (cap - Z.of_nat (length q)) else Z.of_nat (length objs)) = k) as ->.
  { unfold k. destruct (Z.ltb_spec cap (Z.of_nat (length q) + Z.of_nat (length objs))); [rewrite wrapu_small by lia; lia|lia]. }
  rewrite wp_bind. apply (wp_ps_put s q objs k rest); [done|lia|lia|]. intros s1 left Hs1. cbn [fst].
  rewrite (wraps_small 32 k), (wrapu_small 32 k) by lia. rewrite wp_bind. apply (wp_ps_free s1 (q ++ take (Z.to_nat k) objs) (drop (Z.to_nat k) objs) rest); [done|].
  intros s2 Hs2. by rewrite wp_ret.
Qed.

Lemma ps_one s q m rest :
  ps_ok s q (m :: rest) ->
  wp (psring_enqueue m) (fun r s' =>
    if Z.of_nat (length q) <? cap then r = 1 /\ ps_ok s' (q ++ [m]) rest else r = 0 /\ ps_ok s' q rest) s.
Proof.
  intros Hs. unfold psring_enqueue. rewrite wp_bind, wp_gets, wp_bind, (ps_count_eq s q (m :: rest)), (pso_cap _ _ _ Hs) by (done || lia).
  rewrite Z.add_1_r. destruct (Z.leb_spec (Z.succ (Z.of_nat (length q))) cap), (Z.ltb_spec (Z.of_nat (length q)) cap); try lia.
  - unfold rte_ring_sp_enqueue, enqueue_one. rewrite wp_bind.
    assert (forall Q, wp (on_psring (rte_ring_sp_enqueue_bulk [m] 1)) (fun k => Q (if k.1 =? 0 then - ENOBUFS else 0)) s ->
      wp (on_psring (k ← rte_ring_sp_enqueue_bulk [m] 1; mret (if k.1 =? 0 then - ENOBUFS else 0))) Q s) as Hb.
    { intros Q. rewrite !wp_on_psring, wp_bind. intros Hw. eapply wp_mono; [exact Hw|]. done. }
    apply Hb. apply (wp_ps_put s q [m] 1 rest); [done|cbn; lia|lia|]. intros s' left Hs'. by rewrite !wp_ret.
  - rewrite wp_ret, wp_bind.
    assert (wp (on_bufs (free_each [m])) (fun _ s' => ps_ok s' q rest) s) as Hw by (by apply (wp_ps_free s q [m] rest)).
    rewrite wp_on_bufs in Hw |- *. cbn [free_each] in Hw. rewrite wp_bind in Hw. eapply wp_mono; [exact Hw|].
    intros [] s'. by rewrite !wp_ret.
Qed.

Lemma ps_take s q out n b :
  ps_ok s q out -> 0 <= n < 2 ^ 32 ->
  let k := Z.to_nat (clip b n (Z.of_nat (length q))) in
  wp (r ← on_psring (rte_ring_do_dequeue n b true); mret (i32 (Z.of_nat (length r.1)), r.1))
     (fun r s' => r = (Z.of_nat (length (take k q)), take k q) /\ ps_ok s' (drop k q) (out ++ take k q)) s.
Proof.
  intros [Hr Hh Ec Hf Hsl] Hn k. destruct (do_dequeue_spec (psr_ring (sz s)) q n b true Hr Hn) as (r' & E & Hr' & Hcap').
  fold k in E, Hr'. rewrite wp_bind, wp_on_psring. unfold wp at 1. rewrite E. cbn [fst]. rewrite wp_ret.
  rewrite wraps_small by (rewrite ?length_take; lia). split; [done|].
  split; cbn [sz sz_mem psr_ring psr_capacity]; try done; [|rewrite length_drop; lia|by rewrite Hcap'].
  eapply held_perm; [|exact Hh]. rewrite <- (take_drop k q) at 1. rewrite <- app_assoc, Permutation_app_comm, <- app_assoc. done.
Qed.

Lemma ps_take_one s q out :
  ps_ok s q out ->
  let k := Z.to_nat (clip RTE_RING_QUEUE_FIXED 1 (Z.of_nat (length q))) in
  wp psring_dequeue (fun r s' => r = (Z.of_nat (length (take k q)), take k q) /\ ps_ok s' (drop k q) (out ++ take k q)) s.
Proof.
  intros Hs k. pose proof (ps_take s q out 1 RTE_RING_QUEUE_FIXED Hs ltac:(lia)) as Ht. cbv zeta in Ht. fold k in Ht.
  unfold psring_dequeue, rte_ring_sc_dequeue, dequeue_one, rte_ring_sc_dequeue_bulk.
  rewrite wp_bind, wp_on_psring in Ht. rewrite wp_bind, wp_on_psring, wp_bind. eapply wp_mono; [exact Ht|].
  cbv beta. intros [l ?] r'. cbn [fst]. rewrite !wp_ret. intros [E Hok]. injection E as _ El. rewrite <- El. split; [|by rewrite El].
  destruct l as [|x [|y l]]; [done|done|]. apply (f_equal length) in El. rewrite length_take in El.
  pose proof (clip_bounds RTE_RING_QUEUE_FIXED 1 (Z.of_nat (length q)) ltac:(lia) ltac:(lia)). cbn in El. lia.
Qed.
End Pkts.

(** The operations of a packet-sized ring that holds [q], with [objs] and [rest]
    outside of it: a burst adds as many packets as the capacity allows and gives the
    others back to the pool, entry by entry; a single packet is added while there are
    fewer than the capacity, and else freed; a batch is added only when the ring stays
    below its capacity, and otherwise nothing happens and the packets remain with the
    caller; what is taken out is taken in order, in the number the mode prescribes. The
    ring never holds more packets than its capacity. *)
Theorem psring_correct {P : Type} `{MempoolLaws P} (mp : nat) (total : list nat) (cap : Z)
    (s : sized P ps_ring) (q objs rest : list nat) :
  ps_ok mp total cap s q (objs ++ rest) -> Z.of_nat (length objs) < 2 ^ 31 ->
  (let k := Z.min (Z.of_nat (length objs)) (cap - Z.of_nat (length q)) in
   exists s', psring_enqueue_burst objs s = Ret ((k, nulled (Z.to_nat k) objs), s') /\
     ps_ok mp total cap s' (q ++ take (Z.to_nat k) objs) rest) /\
  (exists r s', psring_enqueue_bulk objs s = Ret (r, s') /\
     if Z.of_nat (length q) + Z.of_nat (length objs) <? cap
     then r = Z.of_nat (length objs) /\ ps_ok mp total cap s' (q ++ objs) rest else r = 0 /\ s' = s) /\
  (forall m objs', objs = m :: objs' -> exists r s', psring_enqueue m s = Ret (r, s') /\
     if Z.of_nat (length q) <? cap
     then r = 1 /\ ps_ok mp total cap s' (q ++ [m]) (objs' ++ rest) else r = 0 /\ ps_ok mp total cap s' q (objs' ++ rest)) /\
  (forall n, 0 <= n < 2 ^ 32 ->
     let out b n := take (Z.to_nat (clip b n (Z.of_nat (length q)))) q in
     let took m l := exists s', m s = Ret ((Z.of_nat (length l), l), s') /\
       ps_ok mp total cap s' (drop (length l) q) (objs ++ rest ++ l) in
     took (psring_dequeue_bulk n) (out RTE_RING_QUEUE_FIXED n) /\ took (psring_dequeue_burst n) (out RTE_RING_QUEUE_VARIABLE n) /\
     took psring_dequeue (out RTE_RING_QUEUE_FIXED 1)).
Proof.
  intros Hs Ho. split_and!.
  - intros k. pose proof (ps_burst mp total cap s q objs rest Hs Ho) as Hw. apply wp_run in Hw as (r & s' & E & -> & Hok). by exists s'.
  - pose proof (ps_bulk mp total cap s q objs rest Hs Ho) as Hw. by apply wp_run in Hw.
  - intros m objs' ->. pose proof (ps_one mp total cap s q m (objs' ++ rest) Hs) as Hw. by apply wp_run in Hw.
  - intros n Hn out took.
    assert (forall m b n, 0 <= n -> wp m (fun r s' => r = (Z.of_nat (length (out b n)), out b n) /\
      ps_ok mp total cap s' (drop (Z.to_nat (clip b n (Z.of_nat (length q)))) q) ((objs ++ rest) ++ out b n)) s -> took m (out b n)) as Ht.
    { intros m b i Hi Hw. apply wp_run in Hw as (r & s' & E & -> & Hok). exists s'. split; [done|].
      unfold out at 1. rewrite length_take, <- app_assoc in *.
      pose proof (clip_bounds b i (Z.of_nat (length q)) ltac:(lia) Hi). by rewrite Nat.min_l by lia. }
    split_and!; apply Ht; try lia; [by apply (ps_take mp total cap s q _ n)|by apply (ps_take mp total cap s q _ n)|by apply (ps_take_one mp total cap)].
Qed.

(** ** Examples *)

(** Five packets of 60, 200, 60, 90 and 60 bytes with a client; a pool that is empty. *)
Definition sized_bufs : list nat := [1; 2; 3; 4; 5]%nat.
Definition sized_heap : gmap nat rte_mbuf :=
  list_to_map ((fun p => (p.1, demo_seg 1 1 p.2 None p.1)) <$> [(1%nat, 60); (2%nat, 200); (3%nat, 60); (4%nat, 90); (5%nat, 60)]).
Definition sized_mem : mem (list nat) := Mem sized_heap {[0%nat := Pool [] 2048 0]}.

Lemma sized_held : held sized_mem 0 sized_bufs sized_bufs.
Proof.
  split.
  - exists (Pool [] 2048 0). by split_and!.
  - by apply (bool_decide_unpack _).
  - repeat (constructor; [eexists; split_and!; [vm_compute; reflexivity|done..]|]). constructor.
Qed.

Lemma sized_lens : Forall (fun m => 60 <= len_in sized_mem m) sized_bufs /\ bytes (len_in sized_mem) sized_bufs < 2 ^ 32.
Proof. split; [repeat (constructor; [by vm_compute|]); constructor|by vm_compute]. Qed.

Definition demo_bsring : bs_ring :=
  match create_bsring demo_env true 300 with Ret (Some r) => r | _ => BsRing demo_ring 0 0 end.

Lemma create_sized_correct_witness :
  create_psring demo_env true 200000000 = Ret None /\
  exists j, 0 <= j <= 27 /\ least_above (300 / 60) j.
Proof.
  destruct (create_sized_correct demo_env 200000000 ltac:(lia)) as (_ & _ & Hbig). split; [apply Hbig; lia|].
  destruct (create_sized_correct demo_env 300 ltac:(lia)) as ((j & Hj & Hl & _) & _). by exists j.
Defined.


(** The third and fourth packet do not fit, the fifth does not as a single one: they are freed. *)
Example sized_trace :
  spec_run (len_in sized_mem) 320 [EnqBulk 2; EnqBulk 2; Enq; DeqBurst 1; DeqBulk 3] [] sized_bufs =
  ([2]%nat, [1]%nat,
   [Outcome 2 [3; 4; 5]%nat [1; 2]%nat []; Outcome 0 [5]%nat [] []; Outcome 0 [] [] [];
    Outcome 1 [1]%nat [] [1]%nat; Outcome 0 [1]%nat [] []]).
Proof. vm_compute. reflexivity. Qed.

Lemma bsring_burst_reuses_buffer_witness :
  exists s' p, bsring_enqueue_burst [2; 3]%nat (Sized (BsRing demo_ring 100 0) sized_mem) = Ret ((0, [None; None]), s') /\
    ring_rep (bsr_ring (sz s')) [3]%nat /\ pools (sz_mem s') !! 0%nat = Some p /\ (3%nat ∈ mp_objs (pool_objs p)).
Proof.
  destruct (bsring_burst_reuses_buffer 0 sized_bufs (len_in sized_mem) 100 (Sized (BsRing demo_ring 100 0) sized_mem) []) as [_ Hb];
    [apply sized_lens|apply sized_lens|lia|].
  destruct (Hb 2%nat 3%nat [1; 4; 5]%nat) as (s' & p & E & Hr & _ & Hp & Hm).
  - split; cbn [sz sz_mem bsr_ring bsr_capacity bytes_used]; try done; [apply demo_ring_rep| ].
    apply (pkts_perm _ _ _ _ sized_bufs); [by apply (bool_decide_unpack _)|apply pkts_start, sized_held].
  - vm_compute. done.
  - vm_compute. done.
  - exists s', p. by split_and!.
Defined.

Lemma psring_correct_witness :
  exists s', psring_enqueue_burst [1; 2; 3]%nat (Sized (PsRing demo_ring 2) sized_mem) = Ret ((2, [Some 1%nat; Some 2%nat; None]), s') /\
    ps_ok 0 sized_bufs 2 s' [1; 2]%nat [4; 5]%nat.
Proof.
  destruct (psring_correct 0 sized_bufs 2 (Sized (PsRing demo_ring 2) sized_mem) [] [1; 2; 3]%nat [4; 5]%nat) as [Hb _].
  - split; cbn [sz sz_mem psr_ring psr_capacity]; try done; [apply demo_ring_rep|apply sized_held].
  - cbn. lia.
  - exact Hb.
Defined.
