(* ===== verification/Pcap.v ===== *)
(** libmoon/src/pcap.cpp: packets written to and read from a capture file mapped into
    memory.

    A mapping is a list of bytes, from the pointer the functions are given on; an access
    behind its end is a fault. The state of reading is the packet buffers with the bytes
    of each buffer. *)
From Stdlib Require Import ZArith Lia.
From stdpp Require Import base numbers list gmap.
From S2P Require Import Prelude Mbuf.

#[local] Open Scope Z_scope.

(** [sizeof(pcapRecHeader)] *)
Definition PCAP_HEADER : Z := 16.

(** ** Writing *)

(** [memcpy] of [bytes] to [dst + off]. *)
Definition store (dst : list Z) (off : Z) (bytes : list Z) : option (list Z) :=
  if Z.of_nat (length dst) <? off + Z.of_nat (length bytes) then None
  else Some (take (Z.to_nat off) dst ++ bytes ++ drop (Z.to_nat off + length bytes) dst).

(** The record at [dst + off]; [packet] are the [len] bytes that are copied. *)
Definition libmoon_write_pcap (dst : list Z) (off : Z) (packet : list Z) (orig_len ts_sec ts_usec : Z) : option (list Z) :=
  let len := Z.of_nat (length packet) in
  dst ← store dst off (le_bytes 4 ts_sec);
  dst ← store dst (off + 4) (le_bytes 4 ts_usec);
  dst ← store dst (off + 8) (le_bytes 4 len);
  dst ← store dst (off + 12) (le_bytes 4 orig_len);
  store dst (off + 16) packet.

(** ** Reading *)

(** Bytes [off] to [off + n] of the mapping. *)
Definition load (src : list Z) (off n : Z) : option (list Z) :=
  if Z.of_nat (length src) <? off + n then None else Some (take (Z.to_nat n) (drop (Z.to_nat off) src)).

Definition load32 (src : list Z) (off : Z) : option Z := le_value <$> load src off 4.

Section Read.
Context {P : Type} `{Mempool P}.

(** The headers with the pools, and the bytes of each buffer. *)
Record pworld := PWorld { pw_mem : mem P; pw_data : gmap nat (list Z) }.

Definition on_hdrs {A} (m : M (mem P) A) : M pworld A := fun w =>
  match m (pw_mem w) with
  | Ret (a, s) => Ret (a, PWorld s (pw_data w))
  | Fault => Fault
  | Diverge => Diverge
  end.

(** An access to the mapping. *)
Definition mapped {A} (x : option A) : M pworld A := match x with Some a => mret a | None => fault end.

(** [memcpy] of [bytes] to offset [off] of buffer [m]. *)
Definition copy_to (m : nat) (off : Z) (bytes : list Z) : M pworld unit := fun w =>
  match pw_data w !! m with
  | Some d =>
    match store d off bytes with
    | Some d' => Ret (tt, PWorld (pw_mem w) (<[m := d']> (pw_data w)))
    | None => Fault
    end
  | None => Fault
  end.

(** The record at [src + off]; [None] is the null pointer. *)
Definition libmoon_read_pcap (mp : nat) (src : list Z) (off remaining mempool_buf_size : Z) : M pworld (option nat) :=
  incl_len ← mapped (load32 src (off + 8));
  if remaining <=? incl_len then mret None
  else
    let room := u32 (mempool_buf_size - 128) in
    let copy_len := if room <? incl_len then room else incl_len in
    orig_len ← mapped (load32 src (off + 12));
    let zero_fill_len := Z.min (u32 (mempool_buf_size - copy_len - 128)) (u32 (orig_len - incl_len)) in
    res ← on_hdrs (rte_pktmbuf_alloc mp);
    match res with
    | None => mret None
    | Some res =>
      on_hdrs (upd_mbuf res (set_pkt_len incl_len)) ;;
      on_hdrs (upd_mbuf res (set_data_len (u16 (copy_len + zero_fill_len)))) ;;
      ts_sec ← mapped (load32 src off);
      ts_usec ← mapped (load32 src (off + 4));
      on_hdrs (upd_mbuf res (set_udata64 (u64 (ts_sec * 1000000 + ts_usec)))) ;;
      b ← on_hdrs (load_mbuf res);
      data ← mapped (load src (off + 16) copy_len);
      copy_to (buf_addr b) (data_off b) data ;;
      copy_to (buf_addr b) (data_off b + copy_len) (replicate (Z.to_nat zero_fill_len) 0) ;;
      mret (Some res)
    end.

(** [n] rounds of the loop, from round [i] on; the result is the value returned and the
    entries of [bufs] that were set. *)
Fixpoint read_loop (mp : nat) (pcap : list Z) (mempool_buf_size : Z) (n : nat) (i offset remaining : Z) :
    M pworld (Z * list (option nat)) :=
  match n with
  | O => mret (i, [])
  | S n =>
    buf ← libmoon_read_pcap mp pcap offset remaining mempool_buf_size;
    match buf with
    | None => mret (i, [None])
    | Some m =>
      incl_len ← mapped (load32 pcap (offset + 8));
      let size := incl_len + PCAP_HEADER in
      r ← read_loop mp pcap mempool_buf_size n (i + 1) (u64 (offset + size)) (u64 (remaining - size));
      mret (r.1, Some m :: r.2)
    end
  end.

Definition libmoon_read_pcap_batch (mp : nat) (num_bufs : Z) (pcap : list Z) (remaining mempool_buf_size : Z) :
    M pworld (Z * list (option nat)) :=
  read_loop mp pcap mempool_buf_size (Z.to_nat num_bufs) 0 0 remaining.
End Read.
#[global] Arguments pworld : clear implicits.
