(* ===== verification/PcapSpec.v ===== *)
(** Capture files: what [libmoon_write_pcap] writes, [libmoon_read_pcap_batch] reads
    back into packet buffers, and what happens at the end of the file. *)
From Stdlib Require Import ZArith Lia.
From stdpp Require Import base numbers list gmap.
From S2P Require Import Prelude Mbuf MbufSpec RteMempool MbufPool Pcap.

#[local] Open Scope Z_scope.

(** ** Records *)

(** A packet as it is captured: the bytes kept, the original length and the time. *)
Record captured := Captured { c_data : list Z; c_orig : Z; c_sec : Z; c_usec : Z }.

Definition c_len (c : captured) : Z := Z.of_nat (length (c_data c)).

Definition captured_ok (c : captured) : Prop :=
  0 <= c_orig c < 2 ^ 32 /\ 0 <= c_sec c < 2 ^ 32 /\ 0 <= c_usec c < 2 ^ 32 /\ c_len c < 2 ^ 32.

(** The record in the file. *)
Definition rec_bytes (c : captured) : list Z :=
  le_bytes 4 (c_sec c) ++ le_bytes 4 (c_usec c) ++ le_bytes 4 (c_len c) ++ le_bytes 4 (c_orig c) ++ c_data c.

Lemma length_rec_bytes c : Z.of_nat (length (rec_bytes c)) = PCAP_HEADER + c_len c.
Proof. unfold rec_bytes, c_len, PCAP_HEADER. rewrite !length_app, !length_le_bytes. lia. Qed.

(** The records in a row, as the writer's offset advances. *)
Fixpoint write_all (dst : list Z) (off : Z) (cs : list captured) : option (list Z) :=
  match cs with
  | [] => Some dst
  | c :: cs =>
    dst ← libmoon_write_pcap dst off (c_data c) (c_orig c) (c_sec c) (c_usec c);
    write_all dst (off + c_len c + 16) cs
  end.

Lemma store_spec pre mid post bytes off :
  off = Z.of_nat (length pre) -> length mid = length bytes -> store (pre ++ mid ++ post) off bytes = Some (pre ++ bytes ++ post).
Proof.
  intros -> Hl. unfold store. rewrite !length_app. destruct (Z.ltb_spec (Z.of_nat (length pre + (length mid + length post))) (Z.of_nat (length pre) + Z.of_nat (length bytes))); [lia|].
  rewrite Nat2Z.id, take_app_length, <- Hl. do 2 f_equal. f_equal. rewrite <- length_app, app_assoc. by rewrite drop_app_length.
Qed.

Lemma load_spec pre mid post off n :
  off = Z.of_nat (length pre) -> n = Z.of_nat (length mid) -> load (pre ++ mid ++ post) off n = Some mid.
Proof.
  intros -> ->. unfold load. rewrite !length_app. destruct (Z.ltb_spec (Z.of_nat (length pre + (length mid + length post))) (Z.of_nat (length pre) + Z.of_nat (length mid))); [lia|].
  by rewrite !Nat2Z.id, drop_app_length, take_app_length.
Qed.

Lemma load32_spec pre post off x :
  off = Z.of_nat (length pre) -> 0 <= x < 2 ^ 32 -> load32 (pre ++ le_bytes 4 x ++ post) off = Some x.
Proof.
  intros Ho Hx. unfold load32. rewrite (load_spec pre (le_bytes 4 x) post) by (done || by rewrite length_le_bytes).
  cbn [fmap option_fmap option_map]. rewrite le_value_bytes. by rewrite wrapu_small.
Qed.

Lemma write_spec c pre mid post off :
  off = Z.of_nat (length pre) -> Z.of_nat (length mid) = PCAP_HEADER + c_len c ->
  libmoon_write_pcap (pre ++ mid ++ post) off (c_data c) (c_orig c) (c_sec c) (c_usec c) = Some (pre ++ rec_bytes c ++ post).
Proof.
  unfold PCAP_HEADER, c_len. intros -> Hl.
  assert (mid = take 4 mid ++ take 4 (drop 4 mid) ++ take 4 (drop 8 mid) ++ take 4 (drop 12 mid) ++ drop 16 mid) as Em.
  { assert (forall j k, (j + 4)%nat = k -> take 4 (drop j mid) ++ drop k mid = drop j mid) as Hs
      by (intros j k <-; by rewrite <- drop_drop, take_drop).
    by rewrite (Hs 12 16)%nat, (Hs 8 12)%nat, (Hs 4 8)%nat, take_drop. }
  set (m1 := take 4 mid) in *. set (m2 := take 4 (drop 4 mid)) in *. set (m3 := take 4 (drop 8 mid)) in *.
  set (m4 := take 4 (drop 12 mid)) in *. set (m5 := drop 16 mid) in *.
  assert (length m1 = 4%nat /\ length m2 = 4%nat /\ length m3 = 4%nat /\ length m4 = 4%nat /\ length m5 = length (c_data c)) as (L1 & L2 & L3 & L4 & L5).
  { unfold m1, m2, m3, m4, m5. rewrite !length_take, !length_drop. lia. }
  unfold libmoon_write_pcap. rewrite Em, <- !app_assoc.
  rewrite (store_spec pre m1) by (done || by rewrite L1). cbn [mbind option_bind].
  rewrite (app_assoc pre). rewrite (store_spec (pre ++ _) m2) by (rewrite ?length_app, ?length_le_bytes; lia). cbn [mbind option_bind].
  rewrite (app_assoc (pre ++ _)). rewrite (store_spec _ m3) by (rewrite ?length_app, ?length_le_bytes; lia). cbn [mbind option_bind].
  rewrite (app_assoc ((pre ++ _) ++ _)). rewrite (store_spec _ m4) by (rewrite ?length_app, ?length_le_bytes; lia). cbn [mbind option_bind].
  rewrite (app_assoc (((pre ++ _) ++ _) ++ _)). rewrite (store_spec _ m5) by (rewrite ?length_app, ?length_le_bytes; lia).
  unfold rec_bytes, c_len. by rewrite <- !app_assoc.
Qed.

Definition file_of (cs : list captured) : list Z := concat (rec_bytes <$> cs).

Lemma length_file_of c cs : length (file_of (c :: cs)) = (length (rec_bytes c) + length (file_of cs))%nat.
Proof. unfold file_of. cbn. by rewrite length_app. Qed.

Lemma write_all_spec cs : forall pre mid post off,
  off = Z.of_nat (length pre) -> length mid = length (file_of cs) -> write_all (pre ++ mid ++ post) off cs = Some (pre ++ file_of cs ++ post).
Proof.
  induction cs as [|c cs IH]; intros pre mid post off Ho Hl; cbn [write_all].
  - by destruct mid.
  - rewrite length_file_of in Hl. pose proof (length_rec_bytes c) as Hc.
    rewrite <- (take_drop (length (rec_bytes c)) mid), <- app_assoc.
    rewrite (write_spec c pre) by (done || (rewrite length_take; lia)). cbn [mbind option_bind].
    rewrite app_assoc, (IH (pre ++ rec_bytes c)).
    + unfold file_of. cbn. by rewrite <- !app_assoc.
    + rewrite length_app. unfold PCAP_HEADER in Hc. lia.
    + rewrite length_drop. lia.
Qed.

(** ** One record *)

Section Read.
Context {P : Type} `{MempoolLaws P}.
Context (mp : nat) (total : list nat) (bufsize : Z) (Hsize : 128 <= bufsize < 2 ^ 16).
Implicit Types (w : pworld P) (c : captured) (out : list nat).

(** The buffers of the pool [mp], of which [out] are outside of it, each with its bytes,
    at least [bufsize] of them. *)
Record pw_ok w out : Prop := {
  pk_held : held (pw_mem w) mp total out;
  pk_buf m : m ∈ total -> exists h d, mbufs (pw_mem w) !! m = Some h /\ buf_addr h = m /\ bufsize <= buf_len h /\
    pw_data w !! m = Some d /\ Z.of_nat (length d) = buf_len h
}.

(** The bytes of the packet in a buffer: what was kept and fits behind the headroom, and
    zeros for what was cut off, as far as they fit. *)
Definition content c : list Z :=
  let copy := take (Z.to_nat (bufsize - 128)) (c_data c) in
  copy ++ replicate (Z.to_nat (Z.min (bufsize - 128 - Z.of_nat (length copy)) (u32 (c_orig c - c_len c)))) 0.

(** Buffer [m] holds the packet. *)
Definition holds_pkt w m c : Prop :=
  exists h d, mbufs (pw_mem w) !! m = Some h /\ pkt_len h = c_len c /\ data_len h = Z.of_nat (length (content c)) /\
    udata64 h = c_sec c * 1000000 + c_usec c /\ pw_data w !! m = Some d /\
    take (length (content c)) (drop (Z.to_nat (data_off h)) d) = content c.

(** Buffer [m] is the same in both. *)
Definition same_buf w w' m : Prop := mbufs (pw_mem w') !! m = mbufs (pw_mem w) !! m /\ pw_data w' !! m = pw_data w !! m.

Lemma holds_same w w' m c : same_buf w w' m -> holds_pkt w m c -> holds_pkt w' m c.
Proof. intros [E1 E2] (h & d & ?). exists h, d. by rewrite E1, E2. Qed.

Lemma length_content c : Z.of_nat (length (content c)) <= bufsize - 128.
Proof. unfold content. rewrite length_app, length_take, length_replicate. pose proof (wrapu_range 32 (c_orig c - c_len c) ltac:(lia)). lia. Qed.

Lemma wp_on_hdrs {A} (m : M (mem P) A) Q w :
  wp (on_hdrs m) Q w <-> wp m (fun a s => Q a (PWorld s (pw_data w))) (pw_mem w).
Proof. unfold wp, on_hdrs. destruct (m (pw_mem w)) as [[a b]| |]; done. Qed.

Lemma wp_mapped {A} (x : option A) a Q w : x = Some a -> Q a w -> wp (mapped x) Q w.
Proof. by intros ->. Qed.

Lemma wp_upd_hdr m f h Q w :
  mbufs (pw_mem w) !! m = Some h -> Q tt (PWorld (Mem (<[m := f h]> (mbufs (pw_mem w))) (pools (pw_mem w))) (pw_data w)) ->
  wp (on_hdrs (upd_mbuf m f)) Q w.
Proof. intros Hh HQ. rewrite wp_on_hdrs. unfold wp, upd_mbuf. by rewrite Hh. Qed.

(** The two copies into a buffer. *)
Lemma fill_buffer d off copy n :
  0 <= off -> off + Z.of_nat (length copy) + Z.of_nat n <= Z.of_nat (length d) ->
  exists d1 d2, store d off copy = Some d1 /\ store d1 (off + Z.of_nat (length copy)) (replicate n 0) = Some d2 /\
    length d2 = length d /\ take (length (copy ++ replicate n 0)) (drop (Z.to_nat off) d2) = copy ++ replicate n 0.
Proof.
  intros Ho Hfit. set (p := take (Z.to_nat off) d). set (r := drop (Z.to_nat off) d).
  set (x := take (length copy) r). set (r2 := drop (length copy) r). set (y := take n r2). set (z := drop n r2).
  assert (d = p ++ x ++ y ++ z) as Ed by (unfold p, x, y, z, r2, r; by rewrite !take_drop).
  assert (length p = Z.to_nat off /\ length x = length copy /\ length y = n) as (Lp & Lx & Ly).
  { unfold p, x, y, r2, r. rewrite !length_take, !length_drop. lia. }
  exists (p ++ copy ++ y ++ z), (p ++ copy ++ replicate n 0 ++ z). rewrite Ed at 1. split_and!.
  - apply store_spec; [lia|done].
  - rewrite (app_assoc p), (store_spec (p ++ copy) y z); [by rewrite <- app_assoc|rewrite length_app; lia|by rewrite length_replicate].
  - rewrite Ed, !length_app, length_replicate. lia.
  - rewrite <- Lp, drop_app_length, app_assoc. by rewrite take_app_length.
Qed.

(** The fields of a record, and the bytes that are copied. *)
Lemma record_fields c pre post off :
  captured_ok c -> off = Z.of_nat (length pre) ->
  let src := pre ++ rec_bytes c ++ post in
  let copy := take (Z.to_nat (bufsize - 128)) (c_data c) in
  load32 src off = Some (c_sec c) /\ load32 src (off + 4) = Some (c_usec c) /\ load32 src (off + 8) = Some (c_len c) /\
  load32 src (off + 12) = Some (c_orig c) /\ load src (off + 16) (Z.of_nat (length copy)) = Some copy.
Proof.
  intros (Horig & Hsec & Husec & Hlen) Hoff src copy. unfold src, rec_bytes. rewrite <- !app_assoc.
  assert (0 <= c_len c < 2 ^ 32) by (unfold c_len in *; lia).
  split_and!; [by apply load32_spec|rewrite app_assoc|rewrite !(app_assoc pre), (app_assoc (pre ++ _))| |].
  - apply load32_spec; [|done]. rewrite length_app, length_le_bytes. lia.
  - apply load32_spec; [|done]. rewrite !length_app, !length_le_bytes. lia.
  - rewrite (app_assoc pre), (app_assoc (pre ++ _)), (app_assoc ((pre ++ _) ++ _)).
    apply load32_spec; [|done]. rewrite !length_app, !length_le_bytes. lia.
  - rewrite <- (take_drop (Z.to_nat (bufsize - 128)) (c_data c)), <- app_assoc. fold copy.
    rewrite (app_assoc pre), (app_assoc (pre ++ _)), (app_assoc ((pre ++ _) ++ _)), (app_assoc (((pre ++ _) ++ _) ++ _)).
    apply load_spec; [|done]. rewrite !length_app, !length_le_bytes. lia.
Qed.

Lemma wp_copy_to m off bytes d d' Q w :
  pw_data w !! m = Some d -> store d off bytes = Some d' -> Q tt (PWorld (pw_mem w) (<[m := d']> (pw_data w))) ->
  wp (copy_to m off bytes) Q w.
Proof. intros Hd Hs HQ. unfold wp, copy_to. by rewrite Hd, Hs. Qed.

(** The header [libmoon_read_pcap] leaves. *)
Definition read_header c (b : rte_mbuf) : rte_mbuf :=
  set_udata64 (c_sec c * 1000000 + c_usec c) (set_data_len (Z.of_nat (length (content c))) (set_pkt_len (c_len c) (reset_mbuf b))).

Lemma read_one_spec w out c pre post off remaining :
  pw_ok w out -> captured_ok c -> off = Z.of_nat (length pre) -> c_len c < remaining ->
  exists r w', libmoon_read_pcap mp (pre ++ rec_bytes c ++ post) off remaining bufsize w = Ret (r, w') /\
    match r with
    | None => w' = w /\ exists p, pools (pw_mem w) !! mp = Some p /\ mp_get_bulk 1 (pool_objs p) = None
    | Some m => pw_ok w' (m :: out) /\ holds_pkt w' m c /\ forall m', m' <> m -> same_buf w w' m'
    end.
Proof.
  intros [Hh Hbuf] Hc Hoff Hrem. destruct (record_fields c pre post off Hc Hoff) as (Ls & Lu & Ll & Lo & Ld).
  destruct Hc as (Horig & Hsec & Husec & Hlen). set (src := pre ++ rec_bytes c ++ post) in *.
  set (room := bufsize - 128) in *. set (copy := take (Z.to_nat room) (c_data c)) in *.
  assert ((if u32 room <? c_len c then u32 room else c_len c) = Z.of_nat (length copy)) as Ecopy.
  { unfold copy, c_len. rewrite length_take, wrapu_small by lia. destruct (Z.ltb_spec room (Z.of_nat (length (c_data c)))); lia. }
  pose proof (length_content c) as Hcont.
  set (fill := Z.min (room - Z.of_nat (length copy)) (u32 (c_orig c - c_len c))).
  pose proof (wrapu_range 32 (c_orig c - c_len c) ltac:(lia)) as Hw32.
  assert (Z.of_nat (length copy) <= room) as Hcr by (unfold copy; rewrite length_take; lia).
  assert (content c = copy ++ replicate (Z.to_nat fill) 0) as Econt by done.
  assert (Z.of_nat (length (content c)) = Z.of_nat (length copy) + fill) as Elen.
  { rewrite Econt, length_app, length_replicate. lia. }
  destruct (alloc_held_reset (pw_mem w) mp total out Hh) as (r & s1 & Ea & Hr).
  apply wp_run. unfold libmoon_read_pcap. rewrite wp_bind. apply (wp_mapped _ _ _ _ Ll).
  destruct (Z.leb_spec remaining (c_len c)); [lia|]. fold room. rewrite Ecopy, wp_bind. apply (wp_mapped _ _ _ _ Lo).
  replace (bufsize - Z.of_nat (length copy) - 128) with (room - Z.of_nat (length copy)) by (unfold room; lia).
  rewrite (wrapu_small 32 (room - _)) by lia. fold fill. rewrite wp_bind, wp_on_hdrs. unfold wp at 1. rewrite Ea.
  destruct r as [m|]; [|destruct Hr as [-> Hp]; rewrite wp_ret; by destruct w].
  destruct Hr as [Hh1 (b & Hb & Em1)]. destruct (held_out _ _ _ _ m Hh1 ltac:(set_solver)) as [Hm _].
  destruct (Hbuf m Hm) as (b' & d & Hb' & Hba & Hbl & Hd & Hdl). rewrite Hb in Hb'. injection Hb' as <-.
  rewrite wp_bind. eapply wp_upd_hdr; [cbn; rewrite Em1; apply lookup_insert_eq|].
  rewrite wp_bind. eapply wp_upd_hdr; [apply lookup_insert_eq|].
  rewrite wp_bind. apply (wp_mapped _ _ _ _ Ls). rewrite wp_bind. apply (wp_mapped _ _ _ _ Lu).
  rewrite wp_bind. eapply wp_upd_hdr; [apply lookup_insert_eq|]. cbn [pw_mem pw_data mbufs pools].
  rewrite <- Elen, (wrapu_small 16), (wrapu_small 64) by lia. fold (read_header c b). rewrite Em1, !insert_insert_eq.
  rewrite wp_bind, wp_on_hdrs. unfold wp at 1, load_mbuf. cbn [pw_mem pw_data mbufs]. rewrite lookup_insert_eq.
  assert (buf_addr (read_header c b) = m /\ data_off (read_header c b) = 128) as [-> ->].
  { split; [done|]. cbn. unfold RTE_PKTMBUF_HEADROOM. lia. }
  rewrite wp_bind. apply (wp_mapped _ _ _ _ Ld).
  destruct (fill_buffer d 128 copy (Z.to_nat fill)) as (d1 & d2 & Es1 & Es2 & Ld2 & Hcontent); [lia|lia|].
  rewrite wp_bind. apply (wp_copy_to _ _ _ d d1); [done|done|]. rewrite wp_bind. apply (wp_copy_to _ _ _ d1 d2); [apply lookup_insert_eq|done|].
  rewrite wp_ret. cbn [pw_mem pw_data]. rewrite insert_insert_eq. split_and!.
  - split; cbn [pw_mem pw_data].
    + assert (mbufs s1 !! m = Some (reset_mbuf b)) as Hr1 by (rewrite Em1; apply lookup_insert_eq).
      pose proof (upd_held s1 mp total (m :: out) m (reset_mbuf b) (read_header c b) Hh1 Hr1 eq_refl eq_refl eq_refl eq_refl) as Hu.
      by rewrite Em1, insert_insert_eq in Hu.
    + intros x Hx. cbn [mbufs]. destruct (decide (x = m)) as [->|Hne].
      * exists (read_header c b), d2. rewrite !lookup_insert_eq. split_and!; try done. by rewrite Ld2.
      * rewrite !lookup_insert_ne by done. by apply Hbuf.
  - exists (read_header c b), d2. cbn [pw_mem pw_data mbufs]. rewrite !lookup_insert_eq. split_and!; try done.
    assert (data_off (read_header c b) = 128) as -> by (cbn; unfold RTE_PKTMBUF_HEADROOM; lia). rewrite Econt. exact Hcontent.
  - intros m' Hne. unfold same_buf. cbn [pw_mem pw_data mbufs]. by rewrite !lookup_insert_ne.
Qed.

Lemma pw_perm w out out' : out ≡ₚ out' -> pw_ok w out -> pw_ok w out'.
Proof. intros Hp [Hh Hb]. split; [by eapply held_perm|done]. Qed.

(** ** The batch *)

(** The pool cannot supply a buffer. *)
Definition refused w : Prop := exists p, pools (pw_mem w) !! mp = Some p /\ mp_get_bulk 1 (pool_objs p) = None.

(** The records [cs] from [off] on are read into the buffers [ms], in order, as far as the
    pool supplies them; then the loop goes on behind the last record. *)
Lemma read_loop_spec post cs : forall pre w out i remaining,
  pw_ok w out -> Forall captured_ok cs ->
  Z.of_nat (length pre) + Z.of_nat (length (file_of cs)) < 2 ^ 64 -> Z.of_nat (length (file_of cs)) <= remaining < 2 ^ 64 ->
  let src := pre ++ file_of cs ++ post in
  exists ms w', pw_ok w' (ms ++ out) /\ (length ms <= length cs)%nat /\
    Forall2 (holds_pkt w') ms (take (length ms) cs) /\ (forall m, m ∉ ms -> same_buf w w' m) /\
    if decide (length ms = length cs)
    then forall n, read_loop mp src bufsize (length cs + n) i (Z.of_nat (length pre)) remaining w =
      (r ← read_loop mp src bufsize n (i + Z.of_nat (length ms)) (Z.of_nat (length pre) + Z.of_nat (length (file_of cs)))
             (remaining - Z.of_nat (length (file_of cs)));
       mret (r.1, (Some <$> ms) ++ r.2)) w'
    else refused w' /\ forall n, read_loop mp src bufsize (length cs + n) i (Z.of_nat (length pre)) remaining w =
      Ret ((i + Z.of_nat (length ms), (Some <$> ms) ++ [None]), w').
Proof.
  induction cs as [|c cs IH]; intros pre w out i remaining Hw Hcs Hsz Hrem src.
  - exists [], w. split_and!; try done. cbn [length]. destruct (decide (0 = 0)%nat) as [_|]; [|done].
    intros n. cbn [length file_of concat fmap list_fmap Nat.add app]. rewrite !Z.add_0_r, Z.sub_0_r.
    unfold mbind, M_bind, mret, M_ret. destruct (read_loop _ _ _ _ _ _ _ w) as [[[] ]| |]; done.
  - apply Forall_cons in Hcs as [Hc Hcs]. rewrite length_file_of in Hsz, Hrem. pose proof (length_rec_bytes c) as Lc.
    assert (0 <= c_len c) by (unfold c_len; lia). unfold PCAP_HEADER in Lc.
    assert (src = pre ++ rec_bytes c ++ file_of cs ++ post) as Esrc by (unfold src, file_of; cbn; by rewrite <- app_assoc).
    destruct (read_one_spec w out c pre (file_of cs ++ post) (Z.of_nat (length pre)) remaining Hw Hc eq_refl ltac:(lia)) as (r & w1 & E1 & Hr).
    rewrite <- Esrc in E1. destruct r as [m|].
    2: { destruct Hr as [-> Hno]. exists [], w. split_and!; try done; [cbn; lia|].
         destruct (decide _) as [Hd|_]; [done|]. split; [done|]. intros n. cbn [length Nat.add read_loop].
         unfold mbind, M_bind, mret, M_ret. rewrite E1. by rewrite Z.add_0_r. }
    destruct Hr as (Hw1 & Hm & Hsame).
    destruct (IH (pre ++ rec_bytes c) w1 (m :: out) (i + 1) (remaining - Z.of_nat (length (rec_bytes c))) Hw1 Hcs) as (ms & w' & Hw' & Hle & Hall & Hsame' & Hrun).
    { rewrite length_app. lia. } { lia. }
    rewrite <- app_assoc, <- Esrc in Hrun.
    assert (m ∉ ms) as Hnm.
    { pose proof (held_nodup _ _ _ _ (pk_held _ _ Hw')) as Hnd. apply NoDup_app in Hnd as (_ & Hd & _). intros Hin. apply (Hd m Hin). set_solver. }
    exists (m :: ms), w'. split_and!.
    + eapply pw_perm; [|exact Hw']. cbn. by rewrite Permutation_middle.
    + cbn. lia.
    + cbn. constructor; [|done]. by eapply holds_same; [apply Hsame'|].
    + intros x Hx. destruct (Hsame' x ltac:(set_solver)) as [E2 E3]. unfold same_buf. rewrite E2, E3. apply Hsame. set_solver.
    + assert (forall n, read_loop mp src bufsize (length (c :: cs) + n) i (Z.of_nat (length pre)) remaining w =
        (r ← read_loop mp src bufsize (length cs + n) (i + 1) (Z.of_nat (length (pre ++ rec_bytes c)))
               (remaining - Z.of_nat (length (rec_bytes c))); mret (r.1, Some m :: r.2)) w1) as Hstep.
      { intros n. cbn [length Nat.add read_loop]. unfold mbind, M_bind, mret, M_ret. rewrite E1.
        destruct (record_fields c pre (file_of cs ++ post) (Z.of_nat (length pre)) Hc eq_refl) as (_ & _ & El & _). rewrite <- Esrc in El. rewrite El. unfold mapped, mret, M_ret.
        unfold PCAP_HEADER. rewrite (wrapu_small 64 (Z.of_nat (length pre) + _)), (wrapu_small 64 (remaining - _)), length_app by lia.
        replace (Z.of_nat (length pre) + (c_len c + 16)) with (Z.of_nat (length pre + length (rec_bytes c))) by lia.
        by replace (remaining - (c_len c + 16)) with (remaining - Z.of_nat (length (rec_bytes c))) by lia. }
      destruct (decide (length ms = length cs)) as [Heq|Hneq]; [rewrite decide_True by (cbn; lia)|rewrite decide_False by (cbn; lia)].
      * intros n. rewrite Hstep. unfold mbind at 1, M_bind at 1. rewrite Hrun. rewrite length_app, length_file_of. cbn [length].
        unfold mbind, M_bind, mret, M_ret. 
        replace (i + 1 + Z.of_nat (length ms)) with (i + Z.of_nat (S (length ms))) by lia.
        replace (Z.of_nat (length pre + length (rec_bytes c)) + Z.of_nat (length (file_of cs)))
          with (Z.of_nat (length pre) + Z.of_nat (length (rec_bytes c) + length (file_of cs))) by lia.
        replace (remaining - Z.of_nat (length (rec_bytes c)) - Z.of_nat (length (file_of cs)))
          with (remaining - Z.of_nat (length (rec_bytes c) + length (file_of cs))) by lia.
        destruct (read_loop _ _ _ n _ _ _ w') as [[[] ]| |]; done.
      * destruct Hrun as [Hno Hrun]. split; [done|]. intros n. rewrite Hstep. unfold mbind, M_bind, mret, M_ret. rewrite Hrun. cbn [length fmap list_fmap].
        do 3 f_equal. cbn. lia.
Qed.
End Read.

(** C28: Packets written one after the other into a mapping by [libmoon_write_pcap] change
    nothing around their records, and [libmoon_read_pcap_batch] reads them back, in
    order, into buffers of the pool, for as many as the pool supplies: each buffer has
    the time stamp in microseconds, the captured bytes that fit behind the headroom and
    zeros for the bytes cut off at capture, in its data and as its length; the array
    ends with NULL when the pool refused a buffer. All buffers of the pool are
    accounted for, and no other buffer is touched. *)
Theorem pcap_roundtrip {P : Type} `{MempoolLaws P} (mp : nat) (total out : list nat) (bufsize remaining : Z)
    (w : pworld P) (cs : list captured) (pre mid post : list Z) :
  128 <= bufsize < 2 ^ 16 -> Forall captured_ok cs -> pw_ok mp total bufsize w out ->
  length mid = length (file_of cs) -> Z.of_nat (length (file_of cs)) <= remaining < 2 ^ 64 ->
  exists file, write_all (pre ++ mid ++ post) (Z.of_nat (length pre)) cs = Some (pre ++ file ++ post) /\
    length file = length mid /\
    exists ms w',
      libmoon_read_pcap_batch mp (Z.of_nat (length cs)) (file ++ post) remaining bufsize w =
        Ret ((Z.of_nat (length ms), (Some <$> ms) ++ if decide (length ms = length cs) then [] else [None]), w') /\
      Forall2 (holds_pkt bufsize w') ms (take (length ms) cs) /\
      (forall m, m ∉ ms -> same_buf w w' m) /\ pw_ok mp total bufsize w' (ms ++ out) /\
      (length ms = length cs \/ refused mp w').
Proof.
  intros Hsize Hcs Hw Hmid Hrem. exists (file_of cs). split_and!; [by apply write_all_spec|done|].
  destruct (read_loop_spec mp total bufsize Hsize post cs [] w out 0 remaining Hw Hcs ltac:(cbn; lia) Hrem) as (ms & w' & Hw' & _ & Hall & Hsame & Hrun).
  exists ms, w'. unfold libmoon_read_pcap_batch. rewrite Nat2Z.id. cbn [app] in Hrun. change (Z.of_nat (length (@nil Z))) with 0 in Hrun.
  destruct (decide (length ms = length cs)) as [Heq|Hneq].
  - split_and!; try done; [|by left]. specialize (Hrun 0%nat). rewrite Nat.add_0_r in Hrun. by rewrite Hrun.
  - destruct Hrun as [Hno Hrun]. split_and!; try done; [|by right]. specialize (Hrun 0%nat). rewrite Nat.add_0_r in Hrun. by rewrite Hrun.
Qed.

(** At the end of a capture file a batch for more packets than the file has reads the
    header of a record that is not there, before it looks at how many bytes remain: the
    batch ends with the right count and NULL if at least 12 further bytes are mapped
    behind the file, whatever they are, and otherwise reads outside of the mapping. *)
Theorem pcap_end_of_file {P : Type} `{MempoolLaws P} (mp : nat) (total out : list nat) (bufsize : Z)
    (w : pworld P) (cs : list captured) (post : list Z) (n : nat) :
  128 <= bufsize < 2 ^ 16 -> Forall captured_ok cs -> pw_ok mp total bufsize w out ->
  Forall (fun b => 0 <= b < 256) post -> Z.of_nat (length (file_of cs)) < 2 ^ 64 -> (length cs < n)%nat ->
  exists ms w', Forall2 (holds_pkt bufsize w') ms (take (length ms) cs) /\
    let r := libmoon_read_pcap_batch mp (Z.of_nat n) (file_of cs ++ post) (Z.of_nat (length (file_of cs))) bufsize w in
    let done := Ret ((Z.of_nat (length ms), (Some <$> ms) ++ [None]), w') in
    (refused mp w' /\ r = done) \/ (length ms = length cs /\ r = if (12 <=? length post)%nat then done else Fault).
Proof.
  intros Hsize Hcs Hw Hpost Hsz Hn.
  destruct (read_loop_spec mp total bufsize Hsize post cs [] w out 0 (Z.of_nat (length (file_of cs))) Hw Hcs ltac:(cbn; lia) ltac:(lia)) as (ms & w' & Hw' & _ & Hall & Hsame & Hrun).
  exists ms, w'. split; [done|]. unfold libmoon_read_pcap_batch. rewrite Nat2Z.id. cbn [app] in Hrun. change (Z.of_nat (length (@nil Z))) with 0 in Hrun.
  cbv zeta. destruct n as [|n]; [lia|]. replace (S n) with (length cs + S (n - length cs))%nat by lia.
  destruct (decide (length ms = length cs)) as [Heq|Hneq].
  - right. split; [done|]. rewrite Hrun. rewrite !Z.add_0_l, Z.sub_diag. cbn [read_loop]. unfold libmoon_read_pcap, load32, load.
    rewrite length_app. unfold mbind, M_bind, mapped, mret, M_ret.
    destruct (Nat.leb_spec 12 (length post)) as [H12|H12].
    + destruct (Z.ltb_spec (Z.of_nat (length (file_of cs) + length post)) (Z.of_nat (length (file_of cs)) + 8 + 4)); [lia|].
      cbn [fmap option_fmap option_map]. set (bytes := take _ _). assert (0 <= le_value bytes) as Hpos.
      { assert (Forall (fun b => 0 <= b < 256) bytes) as Hb.
        { unfold bytes. replace (Z.to_nat (Z.of_nat (length (file_of cs)) + 8)) with (length (file_of cs) + 8)%nat by lia.
          rewrite <- drop_drop, drop_app_length. by apply Forall_take, Forall_drop. }
        clear -Hb. induction Hb; cbn [le_value]; lia. }
      destruct (Z.leb_spec 0 (le_value bytes)); [|lia]. done.
    + destruct (Z.ltb_spec (Z.of_nat (length (file_of cs) + length post)) (Z.of_nat (length (file_of cs)) + 8 + 4)); [done|lia].
  - left. destruct Hrun as [Hno Hrun]. by rewrite Hrun.
Qed.

(** ** Examples *)

(** Two packets, one of them cut at capture, and three buffers of 256 bytes. *)
Definition pcap_demo : list captured :=
  [Captured [1; 2; 3; 4] 4 10 20; Captured [9; 8; 7] 6 11 500000].

Definition pcap_bufs : list nat := [1; 2; 3]%nat.

Definition pcap_world : pworld (list nat) :=
  PWorld (Mem (list_to_map ((fun m => (m, Mbuf m 128 1 1 255 0 0 60 60 0 0 0 256 0 0 0 None 0 0)) <$> pcap_bufs)) {[0%nat := Pool pcap_bufs 256 0]})
    (list_to_map ((fun m => (m, replicate 256 170)) <$> pcap_bufs)).

Lemma pcap_world_ok : pw_ok 0 pcap_bufs 256 pcap_world [].
Proof.
  split.
  - split; [exists (Pool pcap_bufs 256 0); by split_and!|by apply (bool_decide_unpack _)|].
    repeat (constructor; [eexists; split_and!; [vm_compute; reflexivity|done..]|]). constructor.
  - intros m Hm. repeat (apply elem_of_cons in Hm as [->|Hm]; [eexists _, _; split_and!; [vm_compute; reflexivity|done|by vm_compute|vm_compute; reflexivity|done]|]).
    by apply not_elem_of_nil in Hm.
Qed.

Lemma pcap_demo_ok : Forall captured_ok pcap_demo.
Proof. repeat (constructor; [unfold captured_ok, c_len; cbn; lia|]). constructor. Qed.

Lemma pcap_roundtrip_witness :
  exists file, write_all (replicate 60 0) 5 pcap_demo = Some ([0; 0; 0; 0; 0] ++ file ++ replicate 16 0) /\
    exists ms w', libmoon_read_pcap_batch 0 2 (file ++ replicate 16 0) 55 256 pcap_world =
      Ret ((Z.of_nat (length ms), (Some <$> ms) ++ if decide (length ms = length pcap_demo) then [] else [None]), w') /\
      Forall2 (holds_pkt 256 w') ms (take (length ms) pcap_demo).
Proof.
  destruct (pcap_roundtrip 0 pcap_bufs [] 256 55 pcap_world pcap_demo [0; 0; 0; 0; 0] (replicate 39 0) (replicate 16 0))
    as (file & E & _ & ms & w' & E2 & Hall & _).
  - lia.
  - apply pcap_demo_ok.
  - apply pcap_world_ok.
  - done.
  - cbn. lia.
  - exists file. split; [exact E|]. exists ms, w'. by split.
Defined.

Lemma pcap_end_of_file_witness :
  exists ms w', Forall2 (holds_pkt 256 w') ms (take (length ms) pcap_demo) /\
    let r := libmoon_read_pcap_batch 0 3 (file_of pcap_demo ++ [0; 0]) 39 256 pcap_world in
    let done := Ret ((Z.of_nat (length ms), (Some <$> ms) ++ [None]), w') in
    (refused 0 w' /\ r = done) \/ (length ms = length pcap_demo /\ r = Fault).
Proof.
  destruct (pcap_end_of_file 0 pcap_bufs [] 256 pcap_world pcap_demo [0; 0] 3) as (ms & w' & Hall & Hr).
  - lia.
  - apply pcap_demo_ok.
  - apply pcap_world_ok.
  - repeat constructor; lia.
  - vm_compute. reflexivity.
  - cbn. lia.
  - exists ms, w'. split; [exact Hall|]. exact Hr.
Defined.

(** The batch as it runs: both packets, and a fault at the end of the file. *)
Example pcap_demo_reads :
  match libmoon_read_pcap_batch 0 2 (file_of pcap_demo) 39 256 pcap_world with
  | Ret (r, w') => r = (2, [Some 1%nat; Some 2%nat]) /\
      (fun h => (pkt_len h, data_len h, udata64 h)) <$> mbufs (pw_mem w') !! 2%nat = Some (3, 6, 11500000) /\
      (fun d => take 8 (drop 128 d)) <$> pw_data w' !! 2%nat = Some [9; 8; 7; 0; 0; 0; 170; 170]
  | _ => False
  end /\
  libmoon_read_pcap_batch 0 3 (file_of pcap_demo) 39 256 pcap_world = Fault.
Proof. vm_compute. done. Qed.

(** A last record that lacks its last byte passes the check, and is read to its end. *)
Example pcap_truncated :
  libmoon_read_pcap_batch 0 2 (take 38 (file_of pcap_demo)) 38 256 pcap_world = Fault.
Proof. vm_compute. reflexivity. Qed.
