(* ===== verification/RtePopulate.v ===== *)
(** librte_mempool/rte_mempool.c: the layout of objects in memory and the creation of
    pools; librte_mbuf/rte_mbuf.c: pools of packet buffers; libmoon's [init_mem].

    Addresses are numbers. What the environment layer answers (memory channels and
    ranks, memory zones, small allocations, physical addresses) is the record
    [mem_env]; [ops_alloc] creates the handler's data. *)
From Stdlib Require Import ZArith Lia.
From stdpp Require Import base numbers list gmap.
From S2P Require Import Prelude Ring RteMempool Mbuf.

#[local] Open Scope Z_scope.

(** ** Sizes *)

Definition RTE_MEMPOOL_ALIGN : Z := RTE_CACHE_LINE_SIZE.
Definition RTE_MEMPOOL_ALIGN_MASK : Z := RTE_MEMPOOL_ALIGN - 1.
Definition ENOSPC : Z := 28.
Definition EEXIST : Z := 17.
Definition SIZEOF_OBJHDR : Z := 24.
Definition RTE_BAD_PHYS_ADDR : Z := 2 ^ 64 - 1.

(** [RTE_ALIGN_CEIL] for a value of [w] bits. *)
Definition RTE_ALIGN_CEIL (w val align : Z) : Z :=
  Z.land (wrapu w (val + (align - 1))) (wrapu w (Z.lnot (align - 1))).

Fixpoint gcd_loop (fuel : nat) (a b : Z) : option Z :=
  if b =? 0 then Some a
  else match fuel with
       | O => None
       | S fuel => gcd_loop fuel b (a mod b)
       end.

Definition get_gcd (a b : Z) : option Z :=
  if a =? 0 then Some b
  else if b =? 0 then Some a
  else let '(a, b) := if a <? b then (b, a) else (a, b) in gcd_loop (S (Z.to_nat b)) a b.

Fixpoint optimize_loop (fuel : nat) (new_obj_size n : Z) : option Z :=
  g ← get_gcd new_obj_size n;
  if g =? 1 then Some new_obj_size
  else match fuel with
       | O => None
       | S fuel => optimize_loop fuel (u32 (new_obj_size + 1)) n
       end.

(** The loop ends before the next number that is one more than a multiple of the
    number of channels times ranks. *)
Definition optimize_object_size (nchan nrank obj_size : Z) : option Z :=
  let nchan := if nchan =? 0 then 4 else nchan in
  let nrank := if nrank =? 0 then 1 else nrank in
  let n := u32 (nrank * nchan) in
  s ← optimize_loop (Z.to_nat n) (u32 (obj_size + RTE_MEMPOOL_ALIGN_MASK) / RTE_MEMPOOL_ALIGN) n;
  Some (u32 (s * RTE_MEMPOOL_ALIGN)).

Record rte_mempool_objsz := Objsz { o_elt : Z; o_header : Z; o_trailer : Z; o_total : Z }.

Definition rte_mempool_calc_obj_size (nchan nrank elt_size flags : Z) : option rte_mempool_objsz :=
  let align := negb (has_flag flags MEMPOOL_F_NO_CACHE_ALIGN) in
  let header := if align then RTE_ALIGN_CEIL 32 SIZEOF_OBJHDR RTE_MEMPOOL_ALIGN else SIZEOF_OBJHDR in
  let elt := RTE_ALIGN_CEIL 32 elt_size 8 in
  let trailer :=
    if align
    then Z.land (u32 (RTE_MEMPOOL_ALIGN - Z.land (u32 (header + elt)) RTE_MEMPOOL_ALIGN_MASK)) RTE_MEMPOOL_ALIGN_MASK
    else 0 in
  trailer ←
    (if has_flag flags MEMPOOL_F_NO_SPREAD then Some trailer
     else new_size ← optimize_object_size nchan nrank (u32 (header + elt + trailer));
          Some (u32 (new_size - header - elt)));
  Some (Objsz elt header trailer (u32 (header + elt + trailer))).

(** The memory for [elt_num] objects, at most; with pages, objects do not cross them. *)
Definition rte_mempool_xmem_size (elt_num total_elt_sz pg_shift : Z) : Z :=
  if total_elt_sz =? 0 then 0
  else if pg_shift =? 0 then u64 (total_elt_sz * elt_num)
  else
    let pg_sz := u64 (Z.shiftl 1 pg_shift) in
    let obj_per_page := pg_sz / total_elt_sz in
    if obj_per_page =? 0 then u64 (RTE_ALIGN_CEIL 64 total_elt_sz pg_sz * elt_num)
    else
      let pg_num := u64 (elt_num + obj_per_page - 1) / obj_per_page in
      u64 (Z.shiftl pg_num pg_shift).

(** The pages that [elt_num] objects really take; when they run out, minus the number
    of objects that fit. [paddr] are the page addresses, if the memory is not known to
    be contiguous; reading past them is a fault. *)
Fixpoint xmem_loop (fuel : nat) (elt_num total_elt_sz pg_sz pg_shift pg_num : Z) (paddr : list Z)
    (elt_cnt start fin paddr_idx : Z) : res Z :=
  if negb (elt_cnt <? elt_num) then Ret (i64 (u64 (Z.shiftl paddr_idx pg_shift)))
  else
    match fuel with
    | O => Diverge
    | S fuel =>
      if total_elt_sz <=? u64 (fin - start)
      then xmem_loop fuel elt_num total_elt_sz pg_sz pg_shift pg_num paddr (u32 (elt_cnt + 1))
             (u64 (start + total_elt_sz)) fin paddr_idx
      else if paddr_idx <? pg_num then
        match paddr !! Z.to_nat paddr_idx with
        | None => Fault
        | Some pa =>
          if fin =? pa
          then xmem_loop fuel elt_num total_elt_sz pg_sz pg_shift pg_num paddr elt_cnt start
                 (u64 (fin + pg_sz)) (u32 (paddr_idx + 1))
          else xmem_loop fuel elt_num total_elt_sz pg_sz pg_shift pg_num paddr elt_cnt pa
                 (u64 (pa + pg_sz)) (u32 (paddr_idx + 1))
        end
      else Ret (i64 (u64 (- elt_cnt)))
    end.

Definition rte_mempool_xmem_usage (elt_num total_elt_sz : Z) (paddr : option (list Z)) (pg_num pg_shift : Z) :
    res Z :=
  let pg_sz := u64 (Z.shiftl 1 pg_shift) in
  let fuel := S (Z.to_nat (elt_num + pg_num)) in
  match paddr with
  | None => xmem_loop fuel elt_num total_elt_sz pg_sz pg_shift pg_num [] 0 0 (u64 (pg_sz * pg_num)) pg_num
  | Some l =>
    match l !! 0%nat with
    | None => Fault
    | Some p0 => xmem_loop fuel elt_num total_elt_sz pg_sz pg_shift pg_num l 0 p0 (u64 (p0 + pg_sz)) 1
    end
  end.

(** ** A pool under construction *)

(** A chunk of memory; [mh_zone] is the memory zone its callback frees, if it has a
    callback. *)
Record rte_mempool_memhdr := Memhdr { mh_addr : Z; mh_phys : Z; mh_len : Z; mh_zone : option nat }.

(** The answers of the environment layer: [zmalloc] for the [k]-th small allocation,
    [zone_reserve] for the zone with a number and a size (address, physical address
    and length, or the error number), zero for the biggest there is. The system is not
    a Xen domain. *)
Record mem_env := MemEnv {
  nchannel : Z; nrank : Z;
  zmalloc : nat -> bool;
  header_zone : Z -> Z + unit;
  zone_reserve : nat -> Z -> Z + (Z * Z * Z);
  has_hugepages : bool; page_size : Z; page_shift : Z;
  virt2phy : Z -> Z
}.

Section Create.
Context {H : Type} `{MempoolOps H} (e : mem_env) (ops_alloc : Z -> Z -> Z + H).

(** [struct rte_mempool]; [ps_data] is set when the handler is created. [ps_zones] are
    the memory zones reserved and not freed, [ps_allocs] counts the allocations. *)
Record pool_state := PS {
  ps_data : option H; ps_flags : Z; ps_size : Z; ps_cache_size : Z; ps_caches : list rte_mempool_cache;
  ps_elt : Z; ps_hdr : Z; ps_tlr : Z; ps_priv : Z;
  ps_populated : Z; ps_elts : list (Z * Z); ps_chunks : list rte_mempool_memhdr; ps_nb_chunks : Z;
  ps_zones : list nat; ps_allocs : nat
}.

Definition set_handler (h : H) (s : pool_state) : pool_state :=
  PS (Some h) (ps_flags s) (ps_size s) (ps_cache_size s) (ps_caches s) (ps_elt s) (ps_hdr s) (ps_tlr s) (ps_priv s)
    (ps_populated s) (ps_elts s) (ps_chunks s) (ps_nb_chunks s) (ps_zones s) (ps_allocs s).
Definition set_flags (f : Z) (s : pool_state) : pool_state :=
  PS (ps_data s) f (ps_size s) (ps_cache_size s) (ps_caches s) (ps_elt s) (ps_hdr s) (ps_tlr s) (ps_priv s)
    (ps_populated s) (ps_elts s) (ps_chunks s) (ps_nb_chunks s) (ps_zones s) (ps_allocs s).
Definition set_elts (n : Z) (l : list (Z * Z)) (s : pool_state) : pool_state :=
  PS (ps_data s) (ps_flags s) (ps_size s) (ps_cache_size s) (ps_caches s) (ps_elt s) (ps_hdr s) (ps_tlr s) (ps_priv s)
    n l (ps_chunks s) (ps_nb_chunks s) (ps_zones s) (ps_allocs s).
Definition set_chunks (n : Z) (l : list rte_mempool_memhdr) (s : pool_state) : pool_state :=
  PS (ps_data s) (ps_flags s) (ps_size s) (ps_cache_size s) (ps_caches s) (ps_elt s) (ps_hdr s) (ps_tlr s) (ps_priv s)
    (ps_populated s) (ps_elts s) l n (ps_zones s) (ps_allocs s).
Definition set_zones (l : list nat) (s : pool_state) : pool_state :=
  PS (ps_data s) (ps_flags s) (ps_size s) (ps_cache_size s) (ps_caches s) (ps_elt s) (ps_hdr s) (ps_tlr s) (ps_priv s)
    (ps_populated s) (ps_elts s) (ps_chunks s) (ps_nb_chunks s) l (ps_allocs s).
Definition set_allocs (k : nat) (s : pool_state) : pool_state :=
  PS (ps_data s) (ps_flags s) (ps_size s) (ps_cache_size s) (ps_caches s) (ps_elt s) (ps_hdr s) (ps_tlr s) (ps_priv s)
    (ps_populated s) (ps_elts s) (ps_chunks s) (ps_nb_chunks s) (ps_zones s) k.

(** A small allocation: the environment answers the [k]-th one. *)
Definition rte_zmalloc : M pool_state bool :=
  k ← gets ps_allocs; modify (set_allocs (S k)) ;; mret (zmalloc e k).

Definition rte_memzone_free (z : nat) : M pool_state unit :=
  modify (fun s => set_zones (filter (fun z' => z' <> z) (ps_zones s)) s).

(** A call through the table of operations; the handler has been created. *)
Definition on_handler {A} (m : M H A) : M pool_state A := fun s =>
  match ps_data s with
  | None => Fault
  | Some h => match m h with
              | Ret (a, h') => Ret (a, set_handler h' s)
              | Fault => Fault
              | Diverge => Diverge
              end
  end.

Definition mempool_add_elem (obj physaddr : Z) : M pool_state unit :=
  modify (fun s => set_elts (u32 (ps_populated s + 1)) (ps_elts s ++ [(obj, physaddr)]) s) ;;
  _ ← on_handler (ops_enqueue [Z.to_nat obj] 1); mret tt.

Definition total_elt_sz (s : pool_state) : Z := u32 (ps_hdr s + ps_elt s + ps_tlr s).

(** The loop of [rte_mempool_populate_phys]; [room] bounds the objects still to be
    placed. *)
Fixpoint populate_loop (room : nat) (vaddr paddr len off i : Z) : M pool_state Z :=
  s ← gets id;
  if (u64 (off + total_elt_sz s) <=? len) && (ps_populated s <? ps_size s) then
    match room with
    | O => diverge
    | S room =>
      let off := u64 (off + ps_hdr s) in
      mempool_add_elem (u64 (vaddr + off)) (if paddr =? RTE_BAD_PHYS_ADDR then RTE_BAD_PHYS_ADDR else u64 (paddr + off)) ;;
      populate_loop room vaddr paddr len (u64 (off + u32 (ps_elt s + ps_tlr s))) (u32 (i + 1))
    end
  else mret i.

(** Create the handler if that has not been done. *)
Definition ensure_handler : M pool_state Z :=
  s ← gets id;
  if has_flag (ps_flags s) MEMPOOL_F_POOL_CREATED then mret 0
  else match ops_alloc (ps_flags s) (ps_size s) with
       | inl err => mret err
       | inr h => modify (fun s => set_flags (Z.lor (ps_flags s) MEMPOOL_F_POOL_CREATED) (set_handler h s)) ;; mret 0
       end.

(** The first object of a chunk starts at a cache line, or at a multiple of eight. *)
Definition chunk_align (s : pool_state) : Z :=
  if has_flag (ps_flags s) MEMPOOL_F_NO_CACHE_ALIGN then 8 else RTE_CACHE_LINE_SIZE.

Definition rte_mempool_populate_phys (vaddr paddr len : Z) (free_cb : option nat) : M pool_state Z :=
  ret ← ensure_handler;
  if negb (ret =? 0) then mret ret
  else
    s ← gets id;
    if ps_size s <=? ps_populated s then mret (- ENOSPC)
    else
      ok ← rte_zmalloc;
      if negb ok then mret (- ENOMEM)
      else
        let off := u64 (RTE_ALIGN_CEIL 64 vaddr (chunk_align s) - vaddr) in
        i ← populate_loop (Z.to_nat (ps_size s)) vaddr paddr len off 0;
        if i =? 0 then mret (- EINVAL)
        else
          modify (fun s => set_chunks (u32 (ps_nb_chunks s + 1))
                             (ps_chunks s ++ [Memhdr vaddr paddr len free_cb]) s) ;;
          mret (i32 i).

(** Objects are taken out one by one, then the chunks are released. *)
Fixpoint free_elts (l : list (Z * Z)) : M pool_state unit :=
  match l with
  | [] => mret tt
  | _ :: l =>
    _ ← on_handler (ops_dequeue 1);
    modify (fun s => set_elts (u32 (ps_populated s - 1)) l s) ;; free_elts l
  end.

Fixpoint free_chunks (l : list rte_mempool_memhdr) : M pool_state unit :=
  match l with
  | [] => mret tt
  | c :: l =>
    match mh_zone c with Some z => rte_memzone_free z | None => mret tt end ;;
    modify (fun s => set_chunks (u32 (ps_nb_chunks s - 1)) l s) ;; free_chunks l
  end.

Definition rte_mempool_free_memchunks : M pool_state unit :=
  l ← gets ps_elts; free_elts l ;;
  c ← gets ps_chunks; free_chunks c.

(** The number of bytes from [off] on that are physically contiguous; [fuel] bounds
    the pages left. *)
Fixpoint contiguous (fuel : nat) (addr paddr off len pg_sz phys_len : Z) : res Z :=
  if negb (u64 (off + phys_len) <? len) then Ret phys_len
  else if negb (virt2phy e (u64 (addr + off + phys_len)) =? u64 (paddr + phys_len)) then Ret phys_len
  else
    match fuel with
    | O => Diverge
    | S fuel => contiguous fuel addr paddr off len pg_sz (u64 (phys_len + pg_sz))
    end.

Fixpoint virt_loop (fuel : nat) (addr len pg_sz : Z) (free_cb : option nat) (off cnt : Z) : M pool_state Z :=
  s ← gets id;
  if (u64 (off + pg_sz) <=? len) && (ps_populated s <? ps_size s) then
    match fuel with
    | O => diverge
    | S fuel =>
      let paddr := virt2phy e (u64 (addr + off)) in
      if (paddr =? RTE_BAD_PHYS_ADDR) && has_hugepages e then rte_mempool_free_memchunks ;; mret (- EINVAL)
      else
        match contiguous (S fuel) addr paddr off len pg_sz pg_sz with
        | Fault => fault
        | Diverge => diverge
        | Ret phys_len =>
          ret ← rte_mempool_populate_phys (u64 (addr + off)) paddr phys_len free_cb;
          if ret <? 0 then rte_mempool_free_memchunks ;; mret ret
          else virt_loop fuel addr len pg_sz None (u64 (off + phys_len)) (i32 (cnt + ret))
        end
    end
  else mret cnt.

Definition rte_mempool_populate_virt (addr len pg_sz : Z) (free_cb : option nat) : M pool_state Z :=
  s ← gets id;
  if negb (ps_nb_chunks s =? 0) then mret (- EEXIST)
  else if negb (RTE_ALIGN_CEIL 64 addr pg_sz =? addr) then mret (- EINVAL)
  else if negb (RTE_ALIGN_CEIL 64 len pg_sz =? len) then mret (- EINVAL)
  else if has_flag (ps_flags s) MEMPOOL_F_NO_PHYS_CONTIG
  then rte_mempool_populate_phys addr RTE_BAD_PHYS_ADDR len free_cb
  else virt_loop (S (Z.to_nat (len / pg_sz))) addr len pg_sz free_cb 0 0.

(** The first reservation asks for all that is needed, the second for the biggest
    zone there is. *)
Definition reserve_zone (mz_id : nat) (size : Z) : Z + (Z * Z * Z) :=
  match zone_reserve e mz_id size with
  | inr z => inr z
  | inl _ => zone_reserve e mz_id 0
  end.

(** One memory zone after the other, until [n] objects are placed. *)
Fixpoint default_loop (fuel : nat) (mz_id : nat) (n : Z) : M pool_state Z :=
  s ← gets id;
  if n =? 0 then mret (i32 (ps_size s))
  else
    match fuel with
    | O => diverge
    | S fuel =>
      match reserve_zone mz_id (rte_mempool_xmem_size n (total_elt_sz s) (if has_hugepages e then 0 else page_shift e)) with
      | inl err => rte_mempool_free_memchunks ;; mret (- err)
      | inr (addr, phys, len) =>
        modify (fun s => set_zones (mz_id :: ps_zones s) s) ;;
        let paddr := if has_flag (ps_flags s) MEMPOOL_F_NO_PHYS_CONTIG then RTE_BAD_PHYS_ADDR else phys in
        ret ← (if has_hugepages e then rte_mempool_populate_phys addr paddr len (Some mz_id)
               else rte_mempool_populate_virt addr len (page_size e) (Some mz_id));
        if ret <? 0 then rte_memzone_free mz_id ;; rte_mempool_free_memchunks ;; mret ret
        else default_loop fuel (S mz_id) (u32 (n - ret))
      end
    end.

Definition rte_mempool_populate_default : M pool_state Z :=
  s ← gets id;
  if negb (ps_nb_chunks s =? 0) then mret (- EEXIST)
  else default_loop (S (Z.to_nat (ps_size s))) 0 (ps_size s).

(** [sizeof(struct rte_mempool)] and of the per-core caches behind it. *)
Definition MEMPOOL_HEADER_SIZE (cs : Z) : Z := 192 + (if cs =? 0 then 0 else 12352 * Z.of_nat RTE_MAX_LCORE).

(** [None] when the search for an object size does not end; an error is the value
    given to [rte_errno], 0 where it is left alone. The name fits its zone and the
    pool. *)
Definition rte_mempool_create_empty (n elt_size cache_size private_data_size flags : Z) : option (Z + pool_state) :=
  if (RTE_MEMPOOL_CACHE_MAX_SIZE <? cache_size) || (n <? CALC_CACHE_FLUSHTHRESH cache_size) then Some (inl EINVAL)
  else
    let flags := if has_flag flags MEMPOOL_F_NO_CACHE_ALIGN then Z.lor flags MEMPOOL_F_NO_SPREAD else flags in
    sz ← rte_mempool_calc_obj_size (nchannel e) (nrank e) elt_size flags;
    Some (
      if o_total sz =? 0 then inl EINVAL
      else
        let priv := Z.land (u32 (private_data_size + RTE_MEMPOOL_ALIGN_MASK)) (u32 (Z.lnot RTE_MEMPOOL_ALIGN_MASK)) in
        if negb (zmalloc e 0) then inl 0
        else
          match header_zone e (RTE_ALIGN_CEIL 64 (MEMPOOL_HEADER_SIZE cache_size + priv) RTE_MEMPOOL_ALIGN) with
          | inl err => inl err
          | inr _ =>
            let caches := if cache_size =? 0 then [] else replicate RTE_MAX_LCORE (mempool_cache_init cache_size) in
            inr (PS None flags n cache_size caches (o_elt sz) (o_header sz) (o_trailer sz) priv 0 [] [] 0 [] 1)
          end).
End Create.
Arguments pool_state H : clear implicits.

(** The callback of [rte_mempool_obj_iter] is called for every object in order, with
    its index. *)
Fixpoint obj_iter_from {S} (obj_cb : Z -> Z -> M S unit) (l : list (Z * Z)) (n : Z) : M S Z :=
  match l with
  | [] => mret n
  | (obj, _) :: l => obj_cb obj n ;; obj_iter_from obj_cb l (u32 (n + 1))
  end.

Definition rte_mempool_obj_iter {H S} (mp : pool_state H) (obj_cb : Z -> Z -> M S unit) : M S Z :=
  obj_iter_from obj_cb (ps_elts mp) 0.

(** The name of the operations that [rte_mempool_create] selects, as the two ways of
    updating the ring. *)
Definition create_ops (flags : Z) : bool * bool :=
  if has_flag flags MEMPOOL_F_SP_PUT && has_flag flags MEMPOOL_F_SC_GET then (true, true)
  else if has_flag flags MEMPOOL_F_SP_PUT then (true, false)
  else if has_flag flags MEMPOOL_F_SC_GET then (false, true)
  else (false, false).
