(* ===== verification/RtePopulateSpec.v ===== *)
(** The layout of a memory pool: sizes of objects, objects placed in memory without
    overlap, pools filled zone by zone. *)
From Stdlib Require Import ZArith Lia Znumtheory.
From stdpp Require Import base numbers list gmap.
From S2P Require Import Prelude Ring RingSpec RteMempool RteMempoolSpec RtePopulate.

#[local] Open Scope Z_scope.

(** ** Sizes *)

Lemma align_ceil_spec w k v :
  0 <= k < w -> 0 <= v -> v + (2 ^ k - 1) < 2 ^ w ->
  RTE_ALIGN_CEIL w v (2 ^ k) = (v + (2 ^ k - 1)) / 2 ^ k * 2 ^ k.
Proof.
  intros Hk Hv Hw. assert (0 < 2 ^ k) by (apply Z.pow_pos_nonneg; lia).
  unfold RTE_ALIGN_CEIL. rewrite (wrapu_small w (v + _)) by lia. unfold wrapu.
  rewrite <- (Z.land_ones (Z.lnot _)), (Z.land_comm (Z.lnot _)), Z.land_assoc by lia.
  rewrite (Z.land_ones (v + _)), (Z.mod_small (v + _)), <- Z.ldiff_land by lia.
  replace (2 ^ k - 1) with (Z.ones k) at 2 by (rewrite Z.ones_equiv; lia).
  by rewrite Z.ldiff_ones_r, Z.shiftr_div_pow2, Z.shiftl_mul_pow2 by lia.
Qed.

(** Rounding up to a multiple. *)
Lemma round_up_bounds v a : 0 < a -> v <= (v + (a - 1)) / a * a < v + a.
Proof. intros Ha. pose proof (Z.div_mod (v + (a - 1)) a). pose proof (Z.mod_pos_bound (v + (a - 1)) a). nia. Qed.

Lemma align_ceil_bounds w k v :
  0 <= k < w -> 0 <= v -> v + (2 ^ k - 1) < 2 ^ w ->
  v <= RTE_ALIGN_CEIL w v (2 ^ k) < v + 2 ^ k /\ (2 ^ k | RTE_ALIGN_CEIL w v (2 ^ k)).
Proof.
  intros Hk Hv Hw. rewrite align_ceil_spec by done.
  split; [apply round_up_bounds, Z.pow_pos_nonneg; lia|by eexists].
Qed.

Lemma gcd_loop_spec fuel : forall a b, 0 <= a -> 0 <= b < Z.of_nat fuel -> gcd_loop fuel a b = Some (Z.gcd a b).
Proof.
  induction fuel as [|fuel IH]; intros a b Ha Hb; [lia|]. cbn [gcd_loop].
  destruct (Z.eqb_spec b 0) as [->|]; [by rewrite Z.gcd_0_r, Z.abs_eq|].
  pose proof (Z.mod_pos_bound a b). rewrite IH by lia. f_equal.
  by rewrite Z.gcd_comm, Z.gcd_mod, Z.gcd_comm by lia.
Qed.

Lemma get_gcd_spec a b : 0 <= a -> 0 <= b -> get_gcd a b = Some (Z.gcd a b).
Proof.
  intros Ha Hb. unfold get_gcd.
  destruct (Z.eqb_spec a 0) as [->|]; [by rewrite Z.gcd_0_l, Z.abs_eq|].
  destruct (Z.eqb_spec b 0) as [->|]; [by rewrite Z.gcd_0_r, Z.abs_eq|].
  destruct (Z.ltb_spec a b); rewrite gcd_loop_spec by lia; [by rewrite Z.gcd_comm|done].
Qed.

Lemma optimize_loop_spec n t fuel : forall s0,
  0 <= n -> 0 <= s0 <= t -> t <= s0 + Z.of_nat fuel -> t < 2 ^ 32 -> Z.gcd t n = 1 ->
  exists s, optimize_loop fuel s0 n = Some s /\ s0 <= s <= t /\ Z.gcd s n = 1 /\
    forall k, s0 <= k < s -> Z.gcd k n <> 1.
Proof.
  induction fuel as [|fuel IH]; intros s0 Hn Hs Ht Hw Hg; cbn [optimize_loop];
    unfold mbind, option_bind; rewrite get_gcd_spec by lia; destruct (Z.eqb_spec (Z.gcd s0 n) 1) as [E|E].
  1,3: exists s0; split_and!; [done|lia..|done|lia].
  - by replace t with s0 in Hg by lia.
  - assert (s0 <> t) by naive_solver. rewrite wrapu_small by lia.
    destruct (IH (s0 + 1)) as (s & -> & Hr & Hgs & Hmin); [lia..|done|].
    exists s. split_and!; [done|lia..|done|]. intros k Hk. destruct (decide (k = s0)) as [->|]; [done|].
    apply Hmin. lia.
Qed.

Definition chan_rank (nchan nrank : Z) : Z :=
  (if nrank =? 0 then 1 else nrank) * (if nchan =? 0 then 4 else nchan).

Lemma coprime_soon n s0 : 0 < n -> exists t, s0 <= t < s0 + n /\ Z.gcd t n = 1.
Proof.
  intros Hn. exists (s0 + (1 - s0) mod n). pose proof (Z.mod_pos_bound (1 - s0) n Hn). split; [lia|].
  rewrite Z.gcd_comm, <- Z.gcd_mod by lia. rewrite Zplus_mod_idemp_r.
  replace (s0 + (1 - s0)) with 1 by lia.
  destruct (decide (n = 1)) as [->|]; [done|]. by rewrite Z.mod_1_l, Z.gcd_1_l by lia.
Qed.

Lemma optimize_object_size_spec nchan nrank size :
  0 <= nchan -> 0 <= nrank -> 0 <= size -> size + 64 * (chan_rank nchan nrank + 1) < 2 ^ 32 ->
  exists k, optimize_object_size nchan nrank size = Some (64 * k) /\
    size <= 64 * k < size + 64 * (chan_rank nchan nrank + 1) /\
    Z.gcd k (chan_rank nchan nrank) = 1 /\
    forall j, size <= 64 * j < 64 * k -> Z.gcd j (chan_rank nchan nrank) <> 1.
Proof.
  intros Hc Hr Hs Hw. unfold optimize_object_size. fold (chan_rank nchan nrank).
  assert (0 < chan_rank nchan nrank) as Hn.
  { unfold chan_rank. destruct (Z.eqb_spec nrank 0), (Z.eqb_spec nchan 0); nia. }
  set (n := chan_rank nchan nrank) in *. change RTE_MEMPOOL_ALIGN_MASK with (64 - 1).
  change RTE_MEMPOOL_ALIGN with 64. rewrite (wrapu_small 32 n), (wrapu_small 32 (size + _)) by lia.
  pose proof (round_up_bounds size 64 ltac:(lia)) as Hb. set (s0 := (size + (64 - 1)) / 64) in *.
  destruct (coprime_soon n s0 Hn) as (t & Ht & Hg).
  destruct (optimize_loop_spec n t (Z.to_nat n) s0) as (s & -> & Hrg & Hgs & Hmin); [lia..|done|].
  exists s. unfold mbind, option_bind. rewrite wrapu_small by lia. split_and!; [f_equal; lia|lia..|done|].
  intros j Hj. apply Hmin. nia.
Qed.

(** The parts of an object: the element is big enough, the whole is the sum of its
    parts. *)
Record objsz_ok (elt_size flags : Z) (sz : rte_mempool_objsz) : Prop := {
  ok_elt : elt_size <= o_elt sz < elt_size + 8 /\ (8 | o_elt sz);
  ok_header : 24 <= o_header sz <= 64 /\ (8 | o_header sz);
  ok_trailer : 0 <= o_trailer sz /\ (8 | o_trailer sz);
  ok_total : o_total sz = o_header sz + o_elt sz + o_trailer sz /\ o_total sz < 2 ^ 32;
  ok_align : has_flag flags MEMPOOL_F_NO_CACHE_ALIGN = false -> o_header sz = 64 /\ (64 | o_total sz)
}.

Lemma land_63 x : Z.land x 63 = x mod 64.
Proof. by apply (Z.land_ones x 6). Qed.

(** The trailer that fills the last cache line. *)
Lemma line_trailer_spec t :
  0 <= t -> let tl := Z.land (u32 (64 - Z.land (u32 t) 63)) 63 in 0 <= tl < 64 /\ (64 | t + tl).
Proof.
  intros Ht tl. subst tl. rewrite !land_63. split; [apply Z.mod_pos_bound; lia|].
  apply Z.mod_divide; [lia|]. width_lia.
Qed.

Lemma divide_8_64 x : (64 | x) -> (8 | x).
Proof. intros [k ->]. exists (8 * k). lia. Qed.

(** The objects start in different channels: their distance in cache lines is the
    smallest possible one without a common factor. *)
Definition spread (cr : Z) (sz : rte_mempool_objsz) : Prop :=
  exists k, o_total sz = 64 * k /\ Z.gcd k cr = 1 /\
    forall j, o_header sz + o_elt sz <= 64 * j < o_total sz -> Z.gcd j cr <> 1.

Lemma calc_obj_size_spec nchan nrank elt_size flags :
  0 <= nchan -> 0 <= nrank -> 0 <= elt_size -> elt_size + 64 * (chan_rank nchan nrank + 5) < 2 ^ 32 ->
  exists sz, rte_mempool_calc_obj_size nchan nrank elt_size flags = Some sz /\ objsz_ok elt_size flags sz /\
    o_total sz < elt_size + 64 * (chan_rank nchan nrank + 5) /\
    (has_flag flags MEMPOOL_F_NO_SPREAD = false -> spread (chan_rank nchan nrank) sz).
Proof.
  intros Hc Hr He Hw. assert (0 < chan_rank nchan nrank) as Hcr.
  { unfold chan_rank. destruct (Z.eqb_spec nrank 0), (Z.eqb_spec nchan 0); nia. }
  unfold rte_mempool_calc_obj_size. change RTE_MEMPOOL_ALIGN_MASK with 63. change RTE_MEMPOOL_ALIGN with 64.
  change (RTE_ALIGN_CEIL 32 SIZEOF_OBJHDR 64) with 64. change SIZEOF_OBJHDR with 24.
  destruct (align_ceil_bounds 32 3 elt_size ltac:(lia) He ltac:(lia)) as [Hb Hd]. change (2 ^ 3) with 8 in *.
  set (elt := RTE_ALIGN_CEIL 32 elt_size 8) in *.
  set (hdr := if negb (has_flag flags MEMPOOL_F_NO_CACHE_ALIGN) then 64 else 24).
  set (tl := if negb (has_flag flags MEMPOOL_F_NO_CACHE_ALIGN) then _ else 0).
  assert (0 <= tl < 64 /\ (8 | tl) /\ 24 <= hdr <= 64 /\ (8 | hdr) /\
          (has_flag flags MEMPOOL_F_NO_CACHE_ALIGN = false -> hdr = 64 /\ (64 | hdr + elt + tl)) /\
          (tl = 0 \/ (64 | hdr + elt + tl))) as (Ht & Ht8 & Hh & Hh8 & Hal & Hmin).
  { subst hdr tl. destruct (has_flag flags MEMPOOL_F_NO_CACHE_ALIGN); cbn [negb].
    - split_and!; try lia; [by exists 0|by exists 3].
    - destruct (line_trailer_spec (64 + elt) ltac:(lia)) as [Ht Ht64]. split_and!; try lia; [|by exists 8|done|by right].
      apply (Z.divide_add_cancel_r _ (64 + elt)); [|by apply divide_8_64]. apply Z.divide_add_r; [by exists 8|done]. }
  clearbody hdr tl elt. destruct (has_flag flags MEMPOOL_F_NO_SPREAD) eqn:Esp.
  - eexists. split; [reflexivity|]. rewrite (wrapu_small 32) by lia. cbn [o_total].
    split_and!; [|lia|done]. split; cbn; first [done|split; [lia|first [done|lia]]].
  - rewrite (wrapu_small 32 (hdr + elt + tl)) by lia.
    destruct (optimize_object_size_spec nchan nrank (hdr + elt + tl)) as (k & -> & Hk & Hg & Hleast); [lia..|].
    unfold mbind, option_bind. eexists. split; [reflexivity|]. rewrite (wrapu_small 32 (64 * k - hdr - elt)) by lia.
    rewrite (wrapu_small 32) by lia. cbn [o_total]. assert (64 | 64 * k) by (exists k; lia).
    split_and!; [|lia|intros _; exists k; cbn; split_and!; [lia|done|]; intros j Hj; apply Hleast;
                  destruct Hmin as [->|[m Hm]]; lia].
    split; cbn; try (split; [lia|first [done|lia]]).
    + split; [lia|]. apply Z.divide_sub_r; [|done]. apply Z.divide_sub_r; [by apply divide_8_64|done].
    + intros Hf. split; [by apply Hal|]. by replace (hdr + elt + (64 * k - hdr - elt)) with (64 * k) by lia.
Qed.

(** ** Objects in memory *)

Section Populate.
Context {H : Type} `{MempoolOpsLaws H} (e : mem_env) (ops_alloc : Z -> Z -> Z + H).
Implicit Types s : pool_state H.

(** [k] objects of [total] bytes, from [off] on in a chunk at [vaddr]. *)
Fixpoint place (k : nat) (vaddr paddr hdr total off : Z) : list (Z * Z) :=
  match k with
  | O => []
  | S k =>
    (vaddr + (off + hdr), if paddr =? RTE_BAD_PHYS_ADDR then RTE_BAD_PHYS_ADDR else u64 (paddr + (off + hdr)))
      :: place k vaddr paddr hdr total (off + total)
  end.

Lemma length_place k vaddr paddr hdr total : forall off, length (place k vaddr paddr hdr total off) = k.
Proof. induction k as [|k IH]; intros off; cbn; [done|by rewrite IH]. Qed.

Lemma place_lookup k vaddr paddr hdr total x : forall off j,
  place k vaddr paddr hdr total off !! j = Some x -> x.1 = vaddr + off + hdr + total * Z.of_nat j /\ (j < k)%nat.
Proof.
  induction k as [|k IH]; intros off j Hj; [done|]. cbn [place] in Hj. destruct j as [|j].
  - injection Hj as <-. cbn. lia.
  - apply IH in Hj as [-> ?]. lia.
Qed.

(** The number of objects that fit from [off] on. *)
Definition fits (s : pool_state H) (len off : Z) : Z :=
  Z.max 0 (Z.min (ps_size s - ps_populated s) ((len - off) / total_elt_sz s)).

(** The sizes fit their types. *)
Record shape (s : pool_state H) : Prop := {
  sh_size : 0 <= ps_size s < 2 ^ 31;
  sh_parts : 0 <= ps_hdr s /\ 0 <= ps_elt s /\ 0 <= ps_tlr s;
  sh_total : 0 < ps_hdr s + ps_elt s + ps_tlr s < 2 ^ 32
}.

Lemma total_spec s : shape s -> total_elt_sz s = ps_hdr s + ps_elt s + ps_tlr s.
Proof. intros [_ _ Ht]. unfold total_elt_sz. apply wrapu_small. lia. Qed.

Abbreviation addrs l := ((fun o : Z * Z => Z.to_nat o.1) <$> l).

(** The handler holds the objects that have been added. *)
Record filled (s : pool_state H) (h : H) (q : list nat) : Prop := {
  fi_data : ps_data s = Some h;
  fi_rep : ops_rep h q;
  fi_objs : q ≡ₚ addrs (ps_elts s);
  fi_count : ps_populated s = Z.of_nat (length (ps_elts s)) /\ ps_populated s <= ps_size s;
  fi_cap : ps_size s <= Z.of_nat (ops_cap h)
}.

Lemma filled_length s h q : filled s h q -> length q = length (ps_elts s).
Proof. intros [_ _ Hp _ _]. by rewrite Hp, length_fmap. Qed.

Lemma add_elem_spec s h q obj phys :
  filled s h q -> shape s -> ps_populated s < ps_size s ->
  exists h' q', mempool_add_elem obj phys s =
      Ret (tt, set_handler h' (set_elts (ps_populated s + 1) (ps_elts s ++ [(obj, phys)]) s)) /\
    filled (set_handler h' (set_elts (ps_populated s + 1) (ps_elts s ++ [(obj, phys)]) s)) h' q'.
Proof.
  intros Hf Hsh Hlt. pose proof (filled_length s h q Hf) as Hl. pose proof Hf as [Hd Hr Hp [Hc Hle] Hcap].
  pose proof Hsh as [Hs _ _].
  destruct (ops_enqueue_spec h q [Z.to_nat obj] Hr ltac:(cbn; lia)) as (ret & h' & E & Hcap' & Hcase).
  destruct Hcase as [(_ & _ & q' & Hr' & Hp')|(Hbad & _)]; [|cbn in Hbad; lia].
  exists h', q'. unfold mempool_add_elem, mbind, M_bind, modify, mret, M_ret, on_handler.
  cbn [set_elts ps_data]. rewrite Hd. change (Z.of_nat (length [Z.to_nat obj])) with 1 in E.
  rewrite E, wrapu_small by lia. split; [done|]. split; cbn.
  - done.
  - done.
  - rewrite Hp', Hp, fmap_app. cbn. apply (Permutation_app_comm [_]).
  - rewrite length_app. cbn. lia.
  - by rewrite Hcap'.
Qed.

Lemma shape_step s h n l : shape s -> shape (set_handler h (set_elts n l s)).
Proof. by intros [? ? ?]. Qed.

Lemma stop_state s h : ps_data s = Some h -> set_handler h (set_elts (ps_populated s + 0) (ps_elts s ++ []) s) = s.
Proof. intros Hd. rewrite app_nil_r, Z.add_0_r. destruct s. cbn in *. by subst. Qed.

Lemma fits_step s h off len x :
  shape s -> off + total_elt_sz s <= len -> ps_populated s < ps_size s ->
  fits s len off = 1 + fits (set_handler h (set_elts (ps_populated s + 1) (ps_elts s ++ [x]) s)) len (off + total_elt_sz s).
Proof.
  intros Hsh Hl Hp. pose proof (total_spec s Hsh) as Ht. pose proof Hsh as [_ _ Htot].
  unfold fits. cbn [set_handler set_elts ps_size ps_populated].
  change (total_elt_sz (set_handler _ _)) with (total_elt_sz s).
  replace (len - (off + total_elt_sz s)) with (len - off + (-1) * total_elt_sz s) by lia.
  rewrite Z.div_add by lia.
  assert (1 <= (len - off) / total_elt_sz s) by (apply Z.div_le_lower_bound; lia). lia.
Qed.

Lemma fits_stop s off len : shape s -> len < off + total_elt_sz s -> fits s len off = 0.
Proof.
  intros Hsh Hl. pose proof (total_spec s Hsh) as Ht. pose proof Hsh as [_ _ Htot].
  unfold fits. assert ((len - off) / total_elt_sz s < 1) by (apply Z.div_lt_upper_bound; lia). lia.
Qed.

Lemma populate_loop_spec vaddr paddr len room : forall s h q off i,
  filled s h q -> shape s -> ps_size s - ps_populated s <= Z.of_nat room ->
  0 <= vaddr -> vaddr + len < 2 ^ 63 -> 0 <= off <= len + 64 -> 0 <= len -> 0 <= i <= ps_populated s ->
  exists h' q', let k := fits s len off in
    let s' := set_handler h' (set_elts (ps_populated s + k)
                (ps_elts s ++ place (Z.to_nat k) vaddr paddr (ps_hdr s) (total_elt_sz s) off) s) in
    populate_loop room vaddr paddr len off i s = Ret (i + k, s') /\ filled s' h' q'.
Proof.
  induction room as [|room IH]; intros s h q off i Hf Hsh Hroom Hv Hvl Ho Hlen Hi;
    pose proof (total_spec s Hsh) as Ht; pose proof Hsh as [Hs Hpa Htot];
    pose proof Hf as [Hd Hr Hp [Hc Hle] Hcap];
    (destruct (decide (off + total_elt_sz s <= len /\ ps_populated s < ps_size s)) as [[Hfit Hmore]|Hstop];
     [|exists h, q; assert (fits s len off = 0) as ->
         by (destruct (decide (off + total_elt_sz s <= len)); [unfold fits; lia|apply fits_stop; [done|lia]]);
       cbv zeta; change (Z.to_nat 0) with 0%nat; cbn [place]; rewrite (stop_state s h Hd), Z.add_0_r; split; [|done]]);
    cbn [populate_loop]; unfold mbind, M_bind, gets, id; cbv beta iota zeta;
    rewrite (wrapu_small 64 (off + _)) by lia;
    destruct (Z.leb_spec (off + total_elt_sz s) len), (Z.ltb_spec (ps_populated s) (ps_size s)); cbn [andb]; try done; try lia.
  destruct (add_elem_spec s h q (vaddr + (off + ps_hdr s))
    (if paddr =? RTE_BAD_PHYS_ADDR then RTE_BAD_PHYS_ADDR else u64 (paddr + (off + ps_hdr s))) Hf Hsh Hmore)
    as (h1 & q1 & E & Hf1).
  rewrite (wrapu_small 64 (off + ps_hdr s)), (wrapu_small 64 (vaddr + _)) by lia.
  rewrite E, (wrapu_small 32 (i + 1)), (wrapu_small 32), (wrapu_small 64) by lia.
  rewrite (fits_step s h1 off len (vaddr + (off + ps_hdr s),
    if paddr =? RTE_BAD_PHYS_ADDR then RTE_BAD_PHYS_ADDR else u64 (paddr + (off + ps_hdr s)))) by (done || lia).
  set (s1 := set_handler h1 _) in *.
  destruct (IH s1 h1 q1 (off + total_elt_sz s) (i + 1) Hf1 (shape_step _ _ _ _ Hsh)) as (h2 & q2 & E2 & Hf2); try (cbn; lia).
  exists h2, q2. replace (off + ps_hdr s + (ps_elt s + ps_tlr s)) with (off + total_elt_sz s) by lia.
  cbv zeta in E2, Hf2. rewrite E2.
  assert (0 <= fits s1 len (off + total_elt_sz s)) by (unfold fits; lia).
  rewrite Z2Nat.inj_add by lia. change (Z.to_nat 1) with 1%nat. cbn [Nat.add place].
  replace (ps_elts s ++ _ :: _) with (ps_elts s1 ++ place (Z.to_nat (fits s1 len (off + total_elt_sz s))) vaddr paddr
    (ps_hdr s1) (total_elt_sz s1) (off + total_elt_sz s)) by (cbn; by rewrite <- app_assoc).
  replace (ps_populated s + (1 + fits s1 len (off + total_elt_sz s)))
    with (ps_populated s1 + fits s1 len (off + total_elt_sz s)) by (cbn; lia).
  rewrite (Z.add_assoc i). split; [done|exact Hf2].
Qed.

(** *** One chunk *)

(** The handler is created for all objects and is empty; its errors are negative. *)
Definition alloc_ok (size : Z) : Prop :=
  forall flags,
    match ops_alloc flags size with
    | inr h => ops_rep h [] /\ size <= Z.of_nat (ops_cap h)
    | inl err => err < 0
    end.

Definition created (s : pool_state H) : bool := has_flag (ps_flags s) MEMPOOL_F_POOL_CREATED.

(** A pool that is being filled. *)
Record pool_inv (s : pool_state H) : Prop := {
  pi_shape : shape s;
  pi_count : ps_populated s = Z.of_nat (length (ps_elts s)) /\ ps_populated s <= ps_size s;
  pi_chunks : ps_nb_chunks s = Z.of_nat (length (ps_chunks s)) /\ (length (ps_chunks s) <= length (ps_elts s))%nat;
  pi_handler : if created s then exists h q, filled s h q else ps_elts s = []
}.

(** What filling a pool does not change. *)
Record frame (s s' : pool_state H) : Prop := {
  fr_sizes : ps_size s' = ps_size s /\ ps_hdr s' = ps_hdr s /\ ps_elt s' = ps_elt s /\ ps_tlr s' = ps_tlr s;
  fr_caches : ps_cache_size s' = ps_cache_size s /\ ps_caches s' = ps_caches s /\ ps_priv s' = ps_priv s;
  fr_align : chunk_align s' = chunk_align s
}.

#[global] Instance frame_preorder : PreOrder frame.
Proof.
  split; [by split|]. intros s1 s2 s3 [(? & ? & ? & ?) (? & ? & ?) ?] [(? & ? & ? & ?) (? & ? & ?) ?].
  split; split_and?; congruence.
Qed.

Lemma frame_total s s' : frame s s' -> total_elt_sz s' = total_elt_sz s.
Proof. intros [(_ & Eh & Ee & Et) _ _]. unfold total_elt_sz. by rewrite Eh, Ee, Et. Qed.

Lemma has_flag_lor f g x : Z.land g x = 0 -> has_flag (Z.lor f g) x = has_flag f x.
Proof. intros E. unfold has_flag. by rewrite Z.land_lor_distr_l, E, Z.lor_0_r. Qed.

Lemma created_set f : has_flag (Z.lor f MEMPOOL_F_POOL_CREATED) MEMPOOL_F_POOL_CREATED = true.
Proof.
  unfold has_flag. apply negb_true_iff, Z.eqb_neq. intros E.
  assert (Z.testbit (Z.land (Z.lor f MEMPOOL_F_POOL_CREATED) MEMPOOL_F_POOL_CREATED) 4 = false) as B
    by by rewrite E, Z.bits_0.
  rewrite Z.land_spec, Z.lor_spec, orb_true_r in B. done.
Qed.

Lemma ensure_handler_spec s :
  pool_inv s -> alloc_ok (ps_size s) ->
  exists ret s', ensure_handler ops_alloc s = Ret (ret, s') /\ pool_inv s' /\ frame s s' /\
    ps_elts s' = ps_elts s /\ ps_chunks s' = ps_chunks s /\ ps_zones s' = ps_zones s /\ ps_populated s' = ps_populated s /\
    (ret = 0 /\ created s' = true \/ ret < 0 /\ s' = s /\ exists f, ops_alloc f (ps_size s) = inl ret).
Proof.
  intros Hi Ha. pose proof Hi as [Hsh [Hc Hle] Hch Hh]. unfold created in *.
  unfold ensure_handler, mbind, M_bind, gets, id, mret, M_ret, modify.
  destruct (has_flag (ps_flags s) MEMPOOL_F_POOL_CREATED) eqn:Ef.
  { exists 0, s. split_and!; try done. by left. }
  pose proof (Ha (ps_flags s)) as Hal.
  destruct (ops_alloc (ps_flags s) (ps_size s)) as [err|h] eqn:E.
  - exists err, s. split_and!; try done. right. split_and!; [done..|by eexists].
  - destruct Hal as [Hr Hcap]. eexists 0, _. split; [reflexivity|].
    split_and!; try done; [|split; try done; unfold chunk_align; cbn; by rewrite has_flag_lor
                           |left; split; [done|apply created_set]].
    split; [by destruct Hsh|done|done|]. unfold created. cbn [ps_flags set_flags]. rewrite created_set.
    exists h, []. rewrite Hh in Hc. split; cbn; rewrite ?Hh; done.
Qed.

(** The objects of a chunk that starts at [vaddr] are placed from here on. *)
Definition chunk_start (s : pool_state H) (vaddr : Z) : Z := RTE_ALIGN_CEIL 64 vaddr (chunk_align s) - vaddr.

Lemma chunk_align_pow s : exists k, chunk_align s = 2 ^ k /\ 3 <= k <= 6.
Proof. unfold chunk_align. destruct (has_flag _ _); [exists 3|exists 6]; done. Qed.

Lemma chunk_start_spec s vaddr :
  0 <= vaddr < 2 ^ 63 -> 0 <= chunk_start s vaddr < 64 /\ (chunk_align s | vaddr + chunk_start s vaddr).
Proof.
  intros Hv. unfold chunk_start. destruct (chunk_align_pow s) as (k & -> & Hk).
  assert (2 ^ k <= 2 ^ 6) by (apply Z.pow_le_mono_r; lia).
  destruct (align_ceil_bounds 64 k vaddr ltac:(lia) ltac:(lia) ltac:(lia)) as [Hb Hd].
  split; [lia|]. by rewrite Zplus_minus.
Qed.

Lemma populate_phys_spec s vaddr paddr len cb :
  pool_inv s -> alloc_ok (ps_size s) -> 0 <= vaddr -> 0 <= len -> vaddr + len < 2 ^ 63 ->
  exists ret s', rte_mempool_populate_phys e ops_alloc vaddr paddr len cb s = Ret (ret, s') /\
    pool_inv s' /\ frame s s' /\ ps_zones s' = ps_zones s /\
    let k := fits s len (chunk_start s vaddr) in
    (0 < ret /\ ret = k /\ created s' = true /\
     ps_elts s' = ps_elts s ++ place (Z.to_nat k) vaddr paddr (ps_hdr s) (total_elt_sz s) (chunk_start s vaddr) /\
     ps_chunks s' = ps_chunks s ++ [Memhdr vaddr paddr len cb] \/
     ret < 0 /\ ps_elts s' = ps_elts s /\ ps_chunks s' = ps_chunks s /\
     ((exists f, ops_alloc f (ps_size s) = inl ret) \/ ps_size s <= ps_populated s \/
      (exists j, zmalloc e j = false) \/ k = 0)).
Proof.
  intros Hi Ha Hv Hl Hvl.
  destruct (ensure_handler_spec s Hi Ha) as (ret & s1 & E1 & Hi1 & Hfr & Hel & Hch & Hz & Hpop & Hret).
  unfold rte_mempool_populate_phys, mbind, M_bind, gets, id, mret, M_ret. rewrite E1.
  destruct Hret as [[-> Hcr]|(Hneg & -> & Hcause)].
  2: { destruct (Z.eqb_spec ret 0); [lia|]. cbn [negb]. exists ret, s. split_and!; try done. right. tauto. }
  cbn [negb Z.eqb]. pose proof Hi1 as [Hsh1 [Hc1 Hle1] [Hnb Hlec] Hh1]. rewrite Hcr in Hh1. destruct Hh1 as (h & q & Hf).
  pose proof (sh_size _ Hsh1) as Hsz. pose proof Hfr as [(Esz & Eh & Ee & Et) _ Eal].
  destruct (Z.leb_spec (ps_size s1) (ps_populated s1)) as [Hfull|Hmore].
  { exists (- ENOSPC), s1. split_and!; try done. right. split_and!; try done. right; left. lia. }
  unfold rte_zmalloc, mbind, M_bind, gets, modify, mret, M_ret. destruct (zmalloc e (ps_allocs s1)) eqn:Ez; cbn [negb].
  2: { exists (- ENOMEM), (set_allocs (S (ps_allocs s1)) s1). split_and!; try done.
       - split; [by destruct Hsh1|done|done|]. unfold created in *. cbn [ps_flags set_allocs]. rewrite Hcr.
         exists h, q. by destruct Hf.
       - by destruct Hfr.
       - right. split_and!; try done. right; right; left. by eexists. }
  set (s2 := set_allocs (S (ps_allocs s1)) s1) in *.
  assert (fits s2 len (chunk_start s vaddr) = fits s len (chunk_start s vaddr)) as Efit.
  { unfold fits. change (total_elt_sz s2) with (total_elt_sz s1). rewrite (frame_total _ _ Hfr). cbn. by rewrite Esz, Hpop. }
  assert (total_elt_sz s2 = total_elt_sz s) as Etot by exact (frame_total _ _ Hfr).
  destruct (chunk_start_spec s vaddr ltac:(lia)) as [Hst _].
  replace (u64 (RTE_ALIGN_CEIL 64 vaddr (chunk_align s1) - vaddr)) with (chunk_start s vaddr)
    by (unfold chunk_start in *; rewrite Eal; symmetry; apply wrapu_small; lia).
  destruct (populate_loop_spec vaddr paddr len (Z.to_nat (ps_size s1)) s2 h q (chunk_start s vaddr) 0)
    as (h2 & q2 & E2 & Hf2); try (cbn; lia); [by destruct Hf|by destruct Hsh1|].
  rewrite E2. cbv zeta beta iota. clear E2. cbv zeta in Hf2. rewrite Efit, Etot in *.
  assert (0 <= fits s len (chunk_start s vaddr) <= ps_size s) as Hk by (unfold fits; lia).
  set (k := fits s len (chunk_start s vaddr)) in *.
  rewrite Z.add_0_l. change (ps_hdr s2) with (ps_hdr s1) in *. rewrite Eh in *.
  change (ps_elts s2) with (ps_elts s1) in *. rewrite Hel in *.
  destruct (Z.eqb_spec k 0) as [Ek|Ek].
  - rewrite Ek in *. change (Z.to_nat 0) with 0%nat in *. cbn [place] in *. rewrite app_nil_r in *.
    eexists (- EINVAL), _. split; [reflexivity|]. split_and!; [|by destruct Hfr|done|].
    + split; [by destruct Hsh1|by destruct Hf2|done|].
      change (created (set_handler _ _)) with (created s1). rewrite Hcr. by eexists _, _.
    + right. cbn. split_and!; try done. tauto.
  - eexists _, _. split; [reflexivity|]. rewrite (wraps_small 32) by lia.
    split_and!; [|by destruct Hfr|done|].
    + pose proof Hf2 as [? ? ? [Hc2 Hle2] ?]. split; [by destruct Hsh1|done| |].
      * cbn. rewrite !length_app, length_place. cbn. rewrite wrapu_small; lia.
      * change (created (set_chunks _ _ _)) with (created s1). rewrite Hcr. exists h2, q2. by destruct Hf2.
    + left. split_and!; [lia|done|done|done|cbn; by rewrite Hch].
Qed.

(** *** Giving memory back *)

(** The objects taken out need not be those whose headers are unlinked; their
    numbers agree. *)
Lemma free_elts_spec l : forall s h q,
  ps_elts s = l -> ps_data s = Some h -> ops_rep h q -> length q = length l ->
  ps_populated s = Z.of_nat (length l) -> Z.of_nat (length l) < 2 ^ 31 ->
  exists h', free_elts l s = Ret (tt, set_handler h' (set_elts 0 [] s)) /\ ops_rep h' [] /\ ops_cap h' = ops_cap h.
Proof.
  induction l as [|x l IH]; intros s h q Hl Hd Hr Hq Hc Hs; cbn [free_elts].
  - destruct q; [|done]. exists h.
    assert (set_handler h (set_elts 0 [] s) = s) as -> by (destruct s; cbn in *; by subst). done.
  - destruct (ops_dequeue_spec h q 1 Hr ltac:(lia)) as (ret & out & h1 & E & Hcap1 & Hcase). cbn [length] in *.
    destruct Hcase as [(_ & _ & Hout & q1 & Hr1 & Hp1)|(Hbad & _)]; [|specialize (Hbad ltac:(lia)); lia].
    apply Permutation_length in Hp1. rewrite length_app in Hp1.
    unfold mbind, M_bind, on_handler, modify. rewrite Hd, E. cbn [ps_populated set_handler].
    rewrite wrapu_small by lia.
    destruct (IH (set_elts (ps_populated s - 1) l (set_handler h1 s)) h1 q1) as (h' & E' & Hr' & Hcap'); try (cbn; done || lia).
    cbn [set_elts set_handler ps_populated ps_data ps_flags ps_size ps_cache_size ps_caches ps_elt ps_hdr ps_tlr ps_priv
         ps_elts ps_chunks ps_nb_chunks ps_zones ps_allocs] in E'.
    exists h'. rewrite E'. split_and!; [done..|by rewrite Hcap'].
Qed.

Lemma free_chunks_spec l : forall s,
  ps_chunks s = l -> ps_nb_chunks s = Z.of_nat (length l) -> Z.of_nat (length l) < 2 ^ 31 ->
  exists zs, free_chunks l s = Ret (tt, set_zones zs (set_chunks 0 [] s)) /\
    forall z, z ∈ zs <-> z ∈ ps_zones s /\ z ∉ omap mh_zone l.
Proof.
  induction l as [|c l IH]; intros s Hl Hn Hs; cbn [free_chunks].
  - exists (ps_zones s). split; [by destruct s; cbn in *; subst|]. set_solver.
  - cbn [length] in *.
    set (zs1 := match mh_zone c with Some z => filter (fun z' => z' <> z) (ps_zones s) | None => ps_zones s end).
    destruct (IH (set_chunks (u32 (ps_nb_chunks s - 1)) l (set_zones zs1 s))) as (zs & E & Hz);
      [done|cbn; rewrite wrapu_small; lia|lia|].
    exists zs. split.
    + unfold mbind, M_bind, modify. subst zs1. destruct (mh_zone c); [exact E|destruct s; exact E].
    + intros z. rewrite Hz. cbn [ps_zones set_chunks set_zones]. subst zs1. cbn [omap list_omap].
      destruct (mh_zone c); rewrite ?list_elem_of_filter; set_solver.
Qed.

Lemma free_memchunks_spec s :
  pool_inv s -> exists s', rte_mempool_free_memchunks s = Ret (tt, s') /\ pool_inv s' /\ frame s s' /\
    ps_elts s' = [] /\ ps_chunks s' = [] /\ forall z, z ∈ ps_zones s' <-> z ∈ ps_zones s /\ z ∉ omap mh_zone (ps_chunks s).
Proof.
  intros Hi. pose proof Hi as [Hsh [Hc Hle] [Hnb Hlec] Hh]. pose proof (sh_size _ Hsh) as Hsz.
  assert (exists s1, free_elts (ps_elts s) s = Ret (tt, s1) /\ pool_inv (set_chunks 0 [] s1) /\ frame s s1 /\
            ps_elts s1 = [] /\ ps_chunks s1 = ps_chunks s /\ ps_nb_chunks s1 = ps_nb_chunks s /\ ps_zones s1 = ps_zones s)
    as (s1 & E1 & [Hsh1 Hc1 Hch1 Hh1] & Hfr & He & Hch & Hn & Hz).
  { destruct (created s) eqn:Ecr.
    - destruct Hh as (h & q & Hf). pose proof Hf as [Hd Hr _ _ Hcap].
      destruct (free_elts_spec (ps_elts s) s h q) as (h' & E & Hr' & Hcap'); try done; [by apply filled_length in Hf|lia|].
      eexists. split; [exact E|]. split_and!; try done. split; cbn; [by destruct Hsh|lia|done|].
      change (created _) with (created s). rewrite Ecr. exists h', []. by split; cbn; rewrite ?Hcap'; try lia.
    - rewrite Hh in *. exists s. split_and!; try done. split; cbn; [by destruct Hsh|by rewrite Hh|by rewrite Hh|].
      change (created _) with (created s). by rewrite Ecr. }
  destruct (free_chunks_spec (ps_chunks s1) s1) as (zs & E2 & Hzs); [done|rewrite Hn, Hch; lia|rewrite Hch; lia|].
  exists (set_zones zs (set_chunks 0 [] s1)). unfold rte_mempool_free_memchunks, mbind, M_bind, gets. rewrite E1, E2.
  split_and!; try done; [|by destruct Hfr|by rewrite <- Hch, <- Hz].
  split; cbn in *; [by destruct Hsh1|done|done|].
  change (created _) with (created s1). change (created (set_chunks 0 [] s1)) with (created s1) in Hh1.
  destruct (created s1); [|done]. destruct Hh1 as (h & q & []). exists h, q. by split.
Qed.

(** *** Zone by zone *)

(** Objects of one size do not overlap when their addresses are that far apart. *)
Definition spaced (total : Z) (l : list (Z * Z)) : Prop :=
  forall i j x y, i <> j -> l !! i = Some x -> l !! j = Some y -> total <= Z.abs (x.1 - y.1).

Lemma spaced_place k vaddr paddr hdr total off : 0 < total -> spaced total (place k vaddr paddr hdr total off).
Proof. intros Ht i j x y Hne [Ex _]%place_lookup [Ey _]%place_lookup. rewrite Ex, Ey. nia. Qed.

Lemma spaced_app total l1 l2 :
  spaced total l1 -> spaced total l2 -> (forall x y, x ∈ l1 -> y ∈ l2 -> total <= Z.abs (x.1 - y.1)) ->
  spaced total (l1 ++ l2).
Proof.
  intros Hs1 Hs2 Hx i j x y Hne Hi Hj.
  apply lookup_app_Some in Hi as [Hi|[Hi' Hi]]; apply lookup_app_Some in Hj as [Hj|[Hj' Hj]].
  - by eapply Hs1.
  - eapply Hx; by apply list_elem_of_lookup_2 in Hi, Hj.
  - rewrite <- Z.abs_opp, Z.opp_sub_distr, Z.add_comm. eapply Hx; by apply list_elem_of_lookup_2 in Hi, Hj.
  - eapply (Hs2 (i - length l1)%nat (j - length l1)%nat); [lia|done|done].
Qed.

(** The zones lie in the address space and do not overlap; errors are error numbers. *)
Record zones_ok : Prop := {
  zo_range k sz a p l : zone_reserve e k sz = inr (a, p, l) -> 0 < a /\ 0 <= l /\ a + l < 2 ^ 63;
  zo_disjoint k sz a p l k' sz' a' p' l' : k <> k' ->
    zone_reserve e k sz = inr (a, p, l) -> zone_reserve e k' sz' = inr (a', p', l') -> a + l <= a' \/ a' + l' <= a;
  zo_error k sz err : zone_reserve e k sz = inl err -> 0 < err
}.

Lemma reserve_zone_inr k sz z : reserve_zone e k sz = inr z -> exists sz', zone_reserve e k sz' = inr z.
Proof.
  unfold reserve_zone. destruct (zone_reserve e k sz) eqn:E; [eauto|]. intros [= <-]. eauto.
Qed.

Lemma reserve_zone_inl k sz err :
  reserve_zone e k sz = inl err -> (exists err', zone_reserve e k sz = inl err') /\ zone_reserve e k 0 = inl err.
Proof. unfold reserve_zone. destruct (zone_reserve e k sz) eqn:E; [eauto|done]. Qed.

(** An object with its header and trailer lies in one of the zones before [k], at a
    cache line if the pool is so aligned. *)
Definition lies (s : pool_state H) (k : nat) (o : Z * Z) : Prop :=
  (exists k' sz a p l, (k' < k)%nat /\ zone_reserve e k' sz = inr (a, p, l) /\
     a <= o.1 - ps_hdr s /\ o.1 - ps_hdr s + total_elt_sz s <= a + l) /\
  ((chunk_align s | ps_hdr s) -> (chunk_align s | total_elt_sz s) -> (chunk_align s | o.1)).

Definition laid (s : pool_state H) (k : nat) : Prop :=
  Forall (lies s k) (ps_elts s) /\ spaced (total_elt_sz s) (ps_elts s).

Lemma lies_frame s s' k k' o : frame s s' -> (k <= k')%nat -> lies s k o -> lies s' k' o.
Proof.
  intros Hf Hk [(j & sz & a & p & l & Hj & ? & ? & ?) Hal]. pose proof Hf as [(_ & Eh & _ & _) _ Ea].
  unfold lies. rewrite (frame_total _ _ Hf), Eh, Ea. split; [|done]. exists j, sz, a, p, l. split_and!; [lia|done..].
Qed.

Lemma fits_room s len off k :
  shape s -> (k < Z.to_nat (fits s len off))%nat -> off + total_elt_sz s * (Z.of_nat k + 1) <= len.
Proof.
  intros Hsh Hk. pose proof (total_spec s Hsh) as Ht. pose proof (sh_total _ Hsh).
  unfold fits in Hk. pose proof (Z.mul_div_le (len - off) (total_elt_sz s) ltac:(lia)). nia.
Qed.

Lemma lies_place s k sz a p l paddr :
  shape s -> zones_ok -> zone_reserve e k sz = inr (a, p, l) ->
  Forall (lies s (S k)) (place (Z.to_nat (fits s l (chunk_start s a))) a paddr (ps_hdr s) (total_elt_sz s) (chunk_start s a)).
Proof.
  intros Hsh Hzo Ez. destruct (zo_range Hzo _ _ _ _ _ Ez) as (Ha & Hl & Hal).
  destruct (chunk_start_spec s a ltac:(lia)) as [Hst Hdiv].
  apply Forall_lookup. intros j x Hj. apply place_lookup in Hj as [Ex Hj].
  pose proof (fits_room s l _ j Hsh Hj). pose proof (sh_total _ Hsh). pose proof (total_spec s Hsh). split.
  - exists k, sz, a, p, l. rewrite Ex. split_and!; [lia|done|nia|nia].
  - intros Hh Ht. rewrite Ex. apply Z.divide_add_r; [by apply Z.divide_add_r|by apply Z.divide_mul_l].
Qed.

(** Objects of different zones are apart. *)
Lemma lies_apart s k sz a p l (x y : Z * Z) :
  shape s -> zones_ok -> zone_reserve e k sz = inr (a, p, l) -> lies s k x ->
  a <= y.1 - ps_hdr s -> y.1 - ps_hdr s + total_elt_sz s <= a + l -> total_elt_sz s <= Z.abs (x.1 - y.1).
Proof.
  intros Hsh Hzo Ez [(k' & sz' & a' & p' & l' & Hk & Ez' & ? & ?) _] ? ?. pose proof (sh_total _ Hsh).
  pose proof (total_spec s Hsh). assert (k <> k') as Hne by lia. destruct (zo_disjoint Hzo _ _ _ _ _ _ _ _ _ _ Hne Ez Ez'); lia.
Qed.

Lemma laid_step s s' k sz a p l paddr :
  shape s -> zones_ok -> frame s s' -> zone_reserve e k sz = inr (a, p, l) -> laid s k ->
  ps_elts s' = ps_elts s ++ place (Z.to_nat (fits s l (chunk_start s a))) a paddr (ps_hdr s) (total_elt_sz s) (chunk_start s a) ->
  laid s' (S k).
Proof.
  intros Hsh Hzo Hfr Ez [Hlie Hsp] Eel. pose proof (lies_place s k sz a p l paddr Hsh Hzo Ez) as Hnew.
  pose proof (sh_total _ Hsh). pose proof (total_spec s Hsh). unfold laid. rewrite (frame_total _ _ Hfr), Eel. split.
  - apply Forall_app. split; eapply Forall_impl; [exact Hlie|intros ?; by apply lies_frame; [|lia]|exact Hnew|].
    intros ?. by apply lies_frame.
  - apply spaced_app; [done|by apply spaced_place; lia|]. intros x y Hx Hy.
    rewrite Forall_forall in Hlie. specialize (Hlie x Hx).
    apply list_elem_of_lookup_1 in Hy as [j Hj]. apply place_lookup in Hj as [Ey Hj].
    destruct (zo_range Hzo _ _ _ _ _ Ez) as (Ha & Hl & Hal). destruct (chunk_start_spec s a ltac:(lia)) as [Hst _].
    pose proof (fits_room s l _ j Hsh Hj). eapply lies_apart; try done; nia.
Qed.

(** The reasons for which a pool cannot be filled. *)
Definition no_memory (s : pool_state H) : Prop :=
  (exists f err, ops_alloc f (ps_size s) = inl err) \/ (exists j, zmalloc e j = false) \/
  (exists k sz err err', Z.of_nat k < ps_size s /\ zone_reserve e k sz = inl err /\ zone_reserve e k 0 = inl err') \/
  (exists k sz a p l, Z.of_nat k < ps_size s /\ zone_reserve e k sz = inr (a, p, l) /\ l < total_elt_sz s + 64).

Definition zones_held (s : pool_state H) : Prop := forall z, z ∈ ps_zones s -> z ∈ omap mh_zone (ps_chunks s).

(** Nothing is left of an attempt. *)
Definition undone (s : pool_state H) : Prop := ps_elts s = [] /\ ps_chunks s = [] /\ ps_zones s = [].

Lemma undo_spec s :
  pool_inv s -> zones_held s -> exists s', rte_mempool_free_memchunks s = Ret (tt, s') /\ pool_inv s' /\ frame s s' /\ undone s'.
Proof.
  intros Hi Hh. destruct (free_memchunks_spec s Hi) as (s' & E & Hi' & Hfr & He & Hc & Hz).
  exists s'. split_and!; try done. split_and!; [done..|]. apply elem_of_nil_inv. intros z Hz'.
  apply Hz in Hz' as [? ?]. auto.
Qed.

Lemma fits_none s l off :
  shape s -> 0 <= off < 64 -> ps_populated s < ps_size s -> fits s l off = 0 -> l < total_elt_sz s + 64.
Proof.
  intros Hsh Ho Hp Hf. pose proof (total_spec s Hsh). pose proof (sh_total _ Hsh).
  destruct (Z.ltb_spec l (total_elt_sz s + 64)); [done|].
  assert (1 <= (l - off) / total_elt_sz s) by (apply Z.div_le_lower_bound; lia). unfold fits in Hf. lia.
Qed.

Lemma no_memory_frame s s' : frame s s' -> no_memory s' -> no_memory s.
Proof. intros Hf. pose proof Hf as [[Es _] _ _]. unfold no_memory. by rewrite Es, (frame_total _ _ Hf). Qed.

Lemma zone_frame s zs : pool_inv s -> pool_inv (set_zones zs s) /\ frame s (set_zones zs s).
Proof.
  intros [Hsh Hc Hch Hh]. split; [|by split]. split; [by destruct Hsh|done|done|].
  change (created (set_zones zs s)) with (created s). destruct (created s); [|done].
  destruct Hh as (h & q & []). exists h, q. by split.
Qed.

Lemma default_loop_spec fuel : forall s k,
  has_hugepages e = true -> zones_ok -> alloc_ok (ps_size s) -> pool_inv s -> laid s k -> zones_held s ->
  Z.of_nat k <= ps_populated s -> ps_size s - ps_populated s <= Z.of_nat fuel ->
  exists ret s', default_loop e ops_alloc fuel k (ps_size s - ps_populated s) s = Ret (ret, s') /\
    pool_inv s' /\ frame s s' /\
    (ret = ps_size s /\ ps_populated s' = ps_size s /\ (exists k', laid s' k') /\ (s' = s \/ created s' = true) \/
     ret < 0 /\ undone s' /\ no_memory s).
Proof.
  induction fuel as [|fuel IH]; intros s k Hp Hzo Ha Hi Hlaid Hheld Hk Hfuel;
    pose proof Hi as [Hsh [Hc Hle] _ _]; pose proof (sh_size _ Hsh) as Hsz; cbn [default_loop];
    unfold mbind at 1, M_bind, gets, id; rewrite ?Hp;
    (destruct (Z.eqb_spec (ps_size s - ps_populated s) 0) as [E0|E0];
     [exists (ps_size s), s; rewrite (wraps_small 32) by lia; split_and!; try done; left;
      split_and!; [done|lia|by exists k|by left]|]); [lia|].
  destruct (reserve_zone e k _) as [err|[[a p] l]] eqn:Er.
  - destruct (undo_spec s Hi Hheld) as (s' & E & Hi' & Hfr & Hun). unfold mbind, M_bind. rewrite E.
    apply reserve_zone_inl in Er as [[err' Er] Er0]. pose proof (zo_error Hzo _ _ _ Er0).
    exists (- err), s'. split_and!; try done. right. split_and!; [lia|done|]. right; right; left.
    eexists k, _, _, _. split_and!; [lia|done..].
  - apply reserve_zone_inr in Er as [sz Er]. destruct (zo_range Hzo _ _ _ _ _ Er) as (Hapos & Hl & Hal).
    destruct (zone_frame s (k :: ps_zones s) Hi) as [Hi0 Hfr0]. set (s0 := set_zones _ s) in *.
    set (pa := if has_flag _ _ then _ else p).
    destruct (populate_phys_spec s0 a pa l (Some k) Hi0 Ha ltac:(lia) Hl Hal) as (ret & s1 & E1 & Hi1 & Hfr1 & Hz1 & Hcase).
    unfold mbind, M_bind, modify, mret, M_ret. fold s0. rewrite E1.
    destruct Hcase as [(Hpos & Hret & Hcr & Hel & Hch)|(Hneg & Hel & Hch & Hwhy)].
    + destruct (Z.ltb_spec ret 0); [lia|]. pose proof Hi1 as [_ [Hc1 Hle1] _ _].
      assert (ps_size s1 = ps_size s) as Es by apply Hfr1.
      assert (ps_populated s1 = ps_populated s + ret) as Hpop.
      { rewrite Hc1, Hel, length_app, length_place, <- Hret. change (ps_elts s0) with (ps_elts s). lia. }
      rewrite wrapu_small by lia. replace (ps_size s - ps_populated s - ret) with (ps_size s1 - ps_populated s1) by lia.
      destruct (IH s1 (S k) Hp Hzo ltac:(by rewrite Es) Hi1) as (r & s2 & E2 & Hi2 & Hfr2 & Hr).
      * eapply (laid_step s0 s1 k sz a p l pa); try done. apply Hi0.
      * intros z. rewrite Hz1, Hch. cbn [s0 ps_zones set_zones]. rewrite omap_app, elem_of_app. cbn. specialize (Hheld z). set_solver.
      * lia.
      * lia.
      * exists r, s2. split_and!; try done; [by etrans; [exact Hfr0|etrans]|]. rewrite <- Es.
        destruct Hr as [(? & ? & ? & [->|?])|(? & ? & Hno)]; [left|left|right]; split_and!; try done; [by right|by right|].
        apply (no_memory_frame s s0 Hfr0), (no_memory_frame s0 s1 Hfr1), Hno.
    + destruct (Z.ltb_spec ret 0); [|lia]. unfold rte_memzone_free, modify.
      destruct (zone_frame s1 (filter (fun z' => z' <> k) (ps_zones s1)) Hi1) as [Hi1' Hfr1'].
      destruct (undo_spec _ Hi1') as (s2 & E2 & Hi2 & Hfr2 & Hun).
      { intros z. cbn [ps_zones set_zones ps_chunks]. rewrite list_elem_of_filter, Hz1, Hch. specialize (Hheld z). set_solver. }
      rewrite E2. exists ret, s2. split_and!; try done; [by do 3 (etrans; [eassumption|])|]. right. split_and!; try done.
      destruct Hwhy as [[f Hf]|[Hf|[[j Hj]|Hz]]]; [by left; exists f, ret|exfalso; change (ps_size s <= ps_populated s) in Hf; lia|
        by right; left; exists j|]. right; right; right. exists k, sz, a, p, l. split_and!; [lia|done|].
      apply (fits_none s0 l (chunk_start s0 a)); [apply Hi0|apply chunk_start_spec; lia|cbn; lia|done].
Qed.

(** A pool without objects. *)
Record fresh (s : pool_state H) : Prop := {
  fs_shape : shape s;
  fs_empty : ps_populated s = 0 /\ ps_elts s = [] /\ ps_chunks s = [] /\ ps_nb_chunks s = 0 /\ ps_zones s = [];
  fs_handler : created s = false
}.

Lemma fresh_inv s : fresh s -> pool_inv s /\ laid s 0 /\ zones_held s.
Proof.
  intros [Hsh (Hp & He & Hc & Hn & Hz) Hcr]. split_and!.
  - split; rewrite ?He, ?Hp, ?Hc, ?Hn, ?Hcr; try done. split; [done|]. apply Hsh.
  - unfold laid. rewrite He. split; [done|]. intros ? ? ? ? _ Hi. done.
  - intros z. rewrite Hz. set_solver.
Qed.

(** Objects that do not overlap have different addresses. *)
Lemma spaced_nodup total l :
  0 < total -> spaced total l -> Forall (fun o => 0 <= o.1) l -> NoDup (addrs l).
Proof.
  intros Ht Hs Hpos. apply NoDup_alt. intros i j x. rewrite !list_lookup_fmap, !fmap_Some.
  intros (a & Ha & ->) (b & Hb & E). destruct (decide (i = j)); [done|]. exfalso.
  rewrite Forall_lookup in Hpos. pose proof (Hpos i a Ha). pose proof (Hpos j b Hb).
  specialize (Hs i j a b n Ha Hb). cbn in *. lia.
Qed.

Lemma lies_pos s k o : shape s -> zones_ok -> lies s k o -> 0 <= o.1.
Proof.
  intros Hsh Hzo [(k' & sz & a & p & l & _ & Ez & ? & _) _]. destruct (zo_range Hzo _ _ _ _ _ Ez) as (? & _).
  pose proof (sh_parts _ Hsh). lia.
Qed.

(** A pool with all its objects: they lie apart in the zones, and the handler holds
    each of them. *)
Record complete (s : pool_state H) (h : H) (q : list nat) : Prop := {
  cm_filled : filled s h q;
  cm_length : Z.of_nat (length (ps_elts s)) = ps_size s;
  cm_spaced : spaced (total_elt_sz s) (ps_elts s);
  cm_lies : exists k, Forall (lies s k) (ps_elts s);
  cm_nodup : NoDup q
}.

Lemma populate_default_spec s :
  has_hugepages e = true -> zones_ok -> fresh s -> 0 < ps_size s -> alloc_ok (ps_size s) ->
  exists ret s', rte_mempool_populate_default e ops_alloc s = Ret (ret, s') /\ pool_inv s' /\ frame s s' /\
    (ret = ps_size s /\ (exists h q, complete s' h q) \/ ret < 0 /\ undone s' /\ no_memory s).
Proof.
  intros Hp Hzo Hs Hpos Ha. destruct (fresh_inv s Hs) as (Hi & Hl & Hh). pose proof Hs as [Hsh (Hpop & _ & _ & Hn & _) Hcr].
  unfold rte_mempool_populate_default, mbind, M_bind, gets, id. rewrite Hn. cbn [negb Z.eqb].
  destruct (default_loop_spec (S (Z.to_nat (ps_size s))) s 0 Hp Hzo Ha Hi Hl Hh ltac:(lia) ltac:(lia))
    as (ret & s' & E & Hi' & Hfr & Hcase). rewrite Hpop, Z.sub_0_r in E. exists ret, s'. split_and!; try done.
  destruct Hcase as [(-> & Hpop' & (k & Hlie & Hsp) & Hcr')|?]; [left|by right]. split; [done|].
  pose proof Hi' as [Hsh' [Hc' _] _ Hh']. destruct Hcr' as [->|Hcr']; [lia|]. rewrite Hcr' in Hh'.
  destruct Hh' as (h & q & Hf). exists h, q. pose proof Hfr as [[Es _] _ _].
  split; [done|congruence|done|by exists k|]. rewrite (fi_objs _ _ _ Hf).
  apply (spaced_nodup (total_elt_sz s')); [rewrite total_spec by done; apply Hsh'|done|].
  eapply Forall_impl; [exact Hlie|]. intros o. by apply lies_pos.
Qed.
End Populate.

(** ** Rings as handlers *)

(** After shifts by [1], ..., [w/2] a bit is set when one of the [w] bits from it on
    was. *)
Definition smeared (w m y : Z) : Prop :=
  forall i, 0 <= i -> Z.testbit y i = true <-> exists d, 0 <= d < w /\ Z.testbit m (i + d) = true.

Lemma smear_step w m y : 0 < w -> smeared w m y -> smeared (2 * w) m (Z.lor y (Z.shiftr y w)).
Proof.
  intros Hw Hs i Hi. rewrite Z.lor_spec, Z.shiftr_spec, orb_true_iff, (Hs i Hi), (Hs (i + w)) by lia. split.
  - intros [(d & ? & ?)|(d & ? & ?)]; [exists d; split; [lia|done]|exists (d + w)].
    split; [lia|]. by replace (i + (d + w)) with (i + w + d) by lia.
  - intros (d & ? & ?). destruct (decide (d < w)); [left; exists d; split; [lia|done]|right; exists (d - w)].
    split; [lia|]. by replace (i + w + (d - w)) with (i + d) by lia.
Qed.

Lemma smear_all m y : 0 < m < 2 ^ 32 -> smeared 32 m y -> y = Z.ones (Z.succ (Z.log2 m)).
Proof.
  intros Hm Hs. pose proof (Z.log2_nonneg m). assert (Z.log2 m < 32) by (apply Z.log2_lt_pow2; lia).
  apply Z.bits_inj'. intros i Hi. apply Bool.eq_iff_eq_true. rewrite (Hs i Hi), Z.ones_spec_iff by lia. split.
  - intros (d & ? & Hb). split; [done|]. destruct (decide (Z.log2 m < i + d)); [|lia].
    by rewrite Z.bits_above_log2 in Hb by lia.
  - intros [_ Hl]. exists (Z.log2 m - i). split; [lia|]. rewrite Zplus_minus. apply Z.bit_log2. lia.
Qed.

Lemma align32pow2_spec x : 1 <= x <= 2 ^ 31 -> exists k, rte_align32pow2 x = 2 ^ k /\ 0 <= k <= 31 /\ x <= 2 ^ k < 2 * x.
Proof.
  intros Hx. unfold rte_align32pow2. rewrite (wrapu_small 32 (x - 1)) by lia.
  destruct (decide (x = 1)) as [->|]; [by exists 0|].
  set (m := x - 1). assert (smeared 1 m m) as Hs.
  { intros i _. split; [intros ?; exists 0; split; [lia|by rewrite Z.add_0_r]|].
    intros (d & ? & Hb). by replace (i + d) with i in Hb by lia. }
  apply (smear_step 1), (smear_step 2), (smear_step 4), (smear_step 8), (smear_step 16) in Hs; try lia.
  apply (smear_all m) in Hs; [|lia]. change (2 * 1) with 2 in *. rewrite Hs, Z.ones_equiv.
  assert (0 < m) as Hm by lia. pose proof (Z.log2_spec m Hm) as Hl. pose proof (Z.log2_nonneg m).
  exists (Z.succ (Z.log2 m)). assert (Z.log2 m < 31) by (apply Z.log2_lt_pow2; lia).
  assert (2 ^ Z.succ (Z.log2 m) <= 2 ^ 31) by (apply Z.pow_le_mono_r; lia).
  rewrite Z.add_1_r, Z.succ_pred, wrapu_small by lia. split_and!; try lia.
  rewrite Z.pow_succ_r in * by lia. lia.
Qed.

(** The memory zones of rings report error numbers. *)
Definition ring_env_ok (e : ring_env) : Prop := forall sz err, memzone_reserve e sz = Some err -> 0 < err.

Lemma ring_alloc_ok re sp sc size :
  ring_env_ok re -> 0 <= size < 2 ^ 27 ->
  @alloc_ok _ _ (ops_ring_laws sp sc) (common_ring_alloc re) size.
Proof.
  intros Hre Hsz flags. unfold common_ring_alloc. set (rg := Z.lor _ _).
  assert (Z.land rg RING_F_EXACT_SZ = 0) as Hrg
    by (subst rg; by destruct (has_flag flags MEMPOOL_F_SP_PUT), (has_flag flags MEMPOOL_F_SC_GET)).
  rewrite (wrapu_small 32) by lia. destruct (align32pow2_spec (size + 1) ltac:(lia)) as (k & -> & Hk & Hb).
  assert (k <= 27) by (destruct (decide (k <= 27)); [done|];
    assert (2 ^ 28 <= 2 ^ k) by (apply Z.pow_le_mono_r; lia); lia).
  unfold rte_ring_create. rewrite Hrg. cbn [negb Z.eqb]. pose proof (memsize_ge k ltac:(lia)) as Hms. unfold RING_HEADER in Hms.
  destruct (Z.ltb_spec (rte_ring_get_memsize (2 ^ k)) 0); [lia|].
  destruct (tailq_alloc re); cbn [negb]; [|done]. destruct (memzone_reserve re _) as [err|] eqn:E.
  - specialize (Hre _ _ E). lia.
  - destruct (init_rep_flags k rg ltac:(lia) Hrg) as (r & -> & Hr & Hcap). split; [done|]. cbn. lia.
Qed.

(** ** Empty pools *)

Section Empty.
Context {H : Type} `{MempoolOpsLaws H} (e : mem_env).

(** The memory channels and ranks of a real machine, and errors that are error
    numbers. *)
Record env_ok : Prop := {
  eo_chan : 0 <= nchannel e /\ 0 <= nrank e /\ chan_rank (nchannel e) (nrank e) <= 2 ^ 16;
  eo_zone sz err : header_zone e sz = inl err -> 0 < err
}.

(** The caches of a pool that has just been created. *)
Definition fresh_caches (cs : Z) : list rte_mempool_cache :=
  if cs =? 0 then [] else replicate RTE_MAX_LCORE (mempool_cache_init cs).

Lemma create_empty_spec n elt_size cs priv flags :
  env_ok -> 0 <= n < 2 ^ 31 -> 0 <= elt_size < 2 ^ 31 -> 0 <= cs -> has_flag flags MEMPOOL_F_POOL_CREATED = false ->
  exists r, @rte_mempool_create_empty H e n elt_size cs priv flags = Some r /\
    match r with
    | inl err =>
      err = EINVAL /\ (RTE_MEMPOOL_CACHE_MAX_SIZE < cs \/ n < CALC_CACHE_FLUSHTHRESH cs) \/
      err = 0 /\ zmalloc e 0 = false \/ exists sz, header_zone e sz = inl err
    | inr s =>
      cs <= RTE_MEMPOOL_CACHE_MAX_SIZE /\ CALC_CACHE_FLUSHTHRESH cs <= n /\
      fresh s /\ ps_size s = n /\ elt_size <= ps_elt s /\ ps_cache_size s = cs /\ ps_caches s = fresh_caches cs /\
      (has_flag flags MEMPOOL_F_NO_CACHE_ALIGN = false -> (64 | ps_hdr s) /\ (64 | total_elt_sz s)) /\
      has_flag (ps_flags s) MEMPOOL_F_NO_CACHE_ALIGN = has_flag flags MEMPOOL_F_NO_CACHE_ALIGN
    end.
Proof.
  intros [(Hnc & Hnr & Hcr) _] Hn He Hcs Hf. unfold rte_mempool_create_empty.
  destruct (Z.ltb_spec RTE_MEMPOOL_CACHE_MAX_SIZE cs), (Z.ltb_spec n (CALC_CACHE_FLUSHTHRESH cs)); cbn [orb];
    try (eexists; split; [reflexivity|]; cbn; left; split; [done|tauto]).
  set (fl := if has_flag flags MEMPOOL_F_NO_CACHE_ALIGN then _ else flags).
  assert (has_flag fl MEMPOOL_F_NO_CACHE_ALIGN = has_flag flags MEMPOOL_F_NO_CACHE_ALIGN /\
          has_flag fl MEMPOOL_F_POOL_CREATED = false) as [Efl Ecr].
  { subst fl. destruct (has_flag flags MEMPOOL_F_NO_CACHE_ALIGN) eqn:E; [|done]. by rewrite !has_flag_lor. }
  clearbody fl.
  destruct (calc_obj_size_spec (nchannel e) (nrank e) elt_size fl Hnc Hnr ltac:(lia) ltac:(lia)) as (sz & -> & Hok & _ & _).
  unfold mbind, option_bind. eexists. split; [reflexivity|].
  pose proof Hok as [[Hel _] [Hhd _] [Htl _] [Htot Hlt] Hal].
  destruct (Z.eqb_spec (o_total sz) 0); [lia|].
  destruct (zmalloc e 0) eqn:Ez; cbn [negb]; [|cbn; tauto].
  destruct (header_zone e _) as [err|] eqn:Eh; [right; right; by eexists|].
  split_and!; try done; try lia.
  - by split; [split; cbn; lia|done|].
  - cbn [ps_elt]. lia.
  - intros Hna. unfold total_elt_sz. cbn [ps_hdr ps_elt ps_tlr]. rewrite Efl in Hal. destruct (Hal Hna) as [-> Hd].
    split; [by exists 1|]. destruct (Hal Hna) as [E _]. rewrite E in Htot. by rewrite <- Htot, wrapu_small by lia.
Qed.
End Empty.

(** ** Memory for a number of objects *)

(** On contiguous memory that is big enough every object is placed. *)
Lemma xmem_loop_fits elt_num sz pg_sz sh pg_num fin fuel : forall cnt start,
  0 < sz -> 0 <= cnt <= elt_num -> elt_num < 2 ^ 32 -> elt_num - cnt <= Z.of_nat fuel ->
  0 <= start -> start + sz * (elt_num - cnt) <= fin < 2 ^ 64 ->
  xmem_loop fuel elt_num sz pg_sz sh pg_num [] cnt start fin pg_num = Ret (i64 (u64 (Z.shiftl pg_num sh))).
Proof.
  induction fuel as [|fuel IH]; intros cnt start Hs Hc Hn Hf H0 Hfin; cbn [xmem_loop];
    (destruct (Z.ltb_spec cnt elt_num); [|done]); [lia|]. cbn [negb].
  rewrite (wrapu_small 64 (fin - start)) by nia.
  destruct (Z.leb_spec sz (fin - start)); [|nia].
  rewrite (wrapu_small 32), (wrapu_small 64) by nia. apply IH; nia.
Qed.

Lemma mul_div_round_up n k : 0 < k -> 0 <= n -> n <= (n + k - 1) / k * k.
Proof. intros Hk Hn. pose proof (Z.div_mod (n + k - 1) k). pose proof (Z.mod_pos_bound (n + k - 1) k). nia. Qed.

(** The size in pages: enough for all objects, and a whole number of pages. *)
Lemma xmem_size_pages n sz sh :
  0 <= n < 2 ^ 32 -> 0 < sz < 2 ^ 32 -> 0 < sh < 32 -> (sz + 2 ^ sh) * (n + 1) + 2 ^ sh < 2 ^ 63 ->
  exists pg, rte_mempool_xmem_size n sz sh = pg * 2 ^ sh /\ 0 <= pg /\ sz * n <= pg * 2 ^ sh < 2 ^ 63.
Proof.
  intros Hn Hs Hsh Hb. unfold rte_mempool_xmem_size. assert (0 < 2 ^ sh) as Hp by (apply Z.pow_pos_nonneg; lia).
  assert (2 ^ sh < 2 ^ 32) by (apply Z.pow_lt_mono_r; lia).
  destruct (Z.eqb_spec sz 0), (Z.eqb_spec sh 0); try lia.
  rewrite Z.shiftl_mul_pow2, Z.mul_1_l, (wrapu_small 64 (2 ^ sh)) by lia.
  pose proof (Z.div_mod (2 ^ sh) sz ltac:(lia)) as Hdm. pose proof (Z.mod_pos_bound (2 ^ sh) sz ltac:(lia)).
  destruct (Z.eqb_spec (2 ^ sh / sz) 0) as [E0|E0].
  - destruct (align_ceil_bounds 64 sh sz ltac:(lia) ltac:(lia) ltac:(lia)) as [Hc [k Hk]].
    rewrite Hk in *. rewrite wrapu_small by nia. exists (k * n). nia.
  - assert (1 <= 2 ^ sh / sz) by (pose proof (Z.div_pos (2 ^ sh) sz); lia). set (o := 2 ^ sh / sz) in *.
    rewrite (wrapu_small 64 (n + o - 1)) by nia. pose proof (mul_div_round_up n o ltac:(lia) ltac:(lia)).
    rewrite Z.shiftl_mul_pow2 by lia.
    assert ((n + o - 1) / o < n + 1) by (apply Z.div_lt_upper_bound; nia).
    assert (0 <= (n + o - 1) / o) by (apply Z.div_pos; lia).
    rewrite wrapu_small by nia. exists ((n + o - 1) / o). nia.
Qed.

(** ** Theorems *)

(** The size of an object. For every flag word the computation ends: the element
    holds what was asked for, the header and the trailer are multiples of eight, the
    parts add up without overflow; with cache alignment an object starts and ends at a
    cache line; with spreading the number of cache lines has no factor in common with
    the number of memory channels times ranks, and is the smallest such number. *)
Theorem calc_obj_size_correct (nchan nrank elt_size flags : Z) :
  0 <= nchan -> 0 <= nrank -> 0 <= elt_size -> elt_size + 64 * (chan_rank nchan nrank + 5) < 2 ^ 32 ->
  exists sz, rte_mempool_calc_obj_size nchan nrank elt_size flags = Some sz /\ objsz_ok elt_size flags sz /\
    (has_flag flags MEMPOOL_F_NO_SPREAD = false -> spread (chan_rank nchan nrank) sz).
Proof.
  intros Hc Hr He Hb. destruct (calc_obj_size_spec nchan nrank elt_size flags Hc Hr He Hb) as (sz & E & Hok & _ & Hsp).
  by exists sz.
Qed.

Lemma calc_obj_size_correct_witness :
  exists sz, rte_mempool_calc_obj_size 4 2 2304 0 = Some sz /\ objsz_ok 2304 0 sz /\
    (has_flag 0 MEMPOOL_F_NO_SPREAD = false -> spread (chan_rank 4 2) sz).
Proof. apply calc_obj_size_correct; vm_compute; congruence. Defined.


(** Zones of at most 1000 bytes, 4096 bytes apart. *)
Definition demo_zones : mem_env :=
  MemEnv 4 2 (fun _ => true) (fun _ => inr tt)
    (fun k _ => if (k <? 1000)%nat then inr (4096 * (Z.of_nat k + 1), 0, 1000) else inl ENOMEM) true 4096 12 id.

Lemma demo_zones_ok : zones_ok demo_zones.
Proof.
  split; cbn [zone_reserve demo_zones].
  - intros k sz a p l. destruct (Nat.ltb_spec k 1000); [|done]. intros [= <- <- <-]. lia.
  - intros k sz a p l k' sz' a' p' l' Hne. destruct (Nat.ltb_spec k 1000); [|done]. intros [= <- <- <-].
    destruct (Nat.ltb_spec k' 1000); [|done]. intros [= <- <- <-]. lia.
  - intros k sz err. destruct (k <? 1000)%nat; [done|]. intros [= <-]. unfold ENOMEM. lia.
Qed.

Definition demo_empty : pool_state rte_ring := PS None 0 6 0 [] 128 64 128 0 0 [] [] 0 [] 1.

Definition plenty : ring_env := RingEnv true (fun _ => None).


(** Three objects fit a zone. *)
Example demo_populate :
  match @rte_mempool_populate_default rte_ring (ops_ring false false) demo_zones (common_ring_alloc plenty) demo_empty with
  | Ret (ret, s') => (ret, fst <$> ps_elts s', length (ps_chunks s'))
  | _ => (0, [], O)
  end = (6, [4160; 4480; 4800; 8256; 8576; 8896], 2%nat).
Proof. vm_compute. reflexivity. Qed.

(** Without hugepages a pool cannot have two zones. When the first zone was too
    small, the next round reserves another one, finds the pool not empty, and gives
    all memory back with [-EEXIST]. *)
Theorem populate_second_zone {H : Type} `{MempoolOpsLaws H} (e : mem_env) (ops_alloc : Z -> Z -> Z + H)
    (s : pool_state H) (fuel k : nat) (n addr phys len : Z) :
  has_hugepages e = false -> pool_inv s -> zones_held s -> ps_chunks s <> [] -> n <> 0 ->
  reserve_zone e k (rte_mempool_xmem_size n (total_elt_sz s) (page_shift e)) = inr (addr, phys, len) ->
  exists s', default_loop e ops_alloc (S fuel) k n s = Ret (- EEXIST, s') /\ undone s'.
Proof.
  intros Hh Hi Hz Hc Hn Er. destruct (zone_frame s (k :: ps_zones s) Hi) as [Hi0 _].
  destruct (zone_frame _ (filter (fun z => z <> k) (k :: ps_zones s)) Hi0) as [Hi1 _].
  destruct (undo_spec _ Hi1) as (s2 & E2 & _ & _ & Hun).
  { intros z. cbn [ps_zones set_zones ps_chunks]. rewrite list_elem_of_filter. specialize (Hz z). set_solver. }
  exists s2. split; [|done]. pose proof (pi_chunks _ Hi) as [Hnb _].
  cbn [default_loop]. unfold mbind, M_bind, gets, id, modify, mret, M_ret. destruct (Z.eqb_spec n 0); [done|].
  rewrite Hh, Er. unfold rte_mempool_populate_virt, mbind, M_bind, gets, id, mret, M_ret. cbn [ps_nb_chunks set_zones].
  destruct (Z.eqb_spec (ps_nb_chunks s) 0); [destruct (ps_chunks s); [done|cbn in *; lia]|].
  cbn [negb]. change (- EEXIST <? 0) with true. cbv iota. unfold rte_memzone_free, modify.
  change (ps_zones (set_zones (k :: ps_zones s) s)) with (k :: ps_zones s). by rewrite E2.
Qed.

(** One object is placed, five are missing. *)
Definition small_pages : mem_env :=
  MemEnv 4 2 (fun _ => true) (fun _ => inr tt) (fun k _ => inr (4096 * (Z.of_nat k + 1), 0, 4096)) false 4096 12 id.

Definition demo_partial : pool_state rte_ring :=
  PS (Some (Ring 8 7 7 (HeadTail 1 1 false) (headtail_init false) [4160; 0; 0; 0; 0; 0; 0; 0]%nat)) 16 6 0 [] 128 64 128 0
    1 [(4160, 4160)] [Memhdr 4096 4096 4096 (Some 0%nat)] 1 [0%nat] 2.

Lemma demo_partial_inv : @pool_inv _ _ (ops_ring_laws false false) demo_partial.
Proof.
  split; [split; cbn; lia|done|done|]. change (created demo_partial) with true. cbv iota. eexists _, [4160%nat].
  split; [reflexivity| |done|cbn; lia|cbn; lia].
  split; [split; cbn; [by exists 3|lia..]|cbn; lia|]. exists 0. split_and!; [reflexivity..|].
  intros i x Hi. destruct i; [|done]. injection Hi as <-. reflexivity.
Qed.

Lemma populate_second_zone_witness :
  exists s', @default_loop _ (ops_ring false false) small_pages (common_ring_alloc plenty) 6 1 5 demo_partial =
    Ret (- EEXIST, s') /\ undone s'.
Proof.
  apply (@populate_second_zone _ _ (ops_ring_laws false false) small_pages _ demo_partial 5 1 5 8192 0 4096);
    [reflexivity|exact demo_partial_inv| |done|done|reflexivity].
  intros z. cbn. set_solver.
Defined.

(** A pool that is too big for a ring. For [2^27] objects or more the handler
    cannot be created; the error number that comes back is positive, and
    [rte_mempool_populate_phys] returns it as if 22 objects had been added. *)
Theorem populate_phys_big_pool (sp sc : bool) (e : mem_env) (re : ring_env) (s : pool_state rte_ring)
    (vaddr paddr len : Z) (free_cb : option nat) :
  2 ^ 27 <= ps_size s < 2 ^ 31 -> created s = false ->
  @rte_mempool_populate_phys _ (ops_ring sp sc) e (common_ring_alloc re) vaddr paddr len free_cb s = Ret (22, s).
Proof.
  intros Hs Hc. unfold rte_mempool_populate_phys, ensure_handler, mbind, M_bind, gets, id, mret, M_ret.
  unfold created in Hc. rewrite Hc. unfold common_ring_alloc. set (rg := Z.lor _ _).
  assert (Z.land rg RING_F_EXACT_SZ = 0) as Hrg
    by (subst rg; by destruct (has_flag (ps_flags s) MEMPOOL_F_SP_PUT), (has_flag (ps_flags s) MEMPOOL_F_SC_GET)).
  rewrite (wrapu_small 32) by lia. destruct (align32pow2_spec (ps_size s + 1) ltac:(lia)) as (k & -> & Hk & Hb).
  unfold rte_ring_create. rewrite Hrg. cbn [negb Z.eqb]. unfold rte_ring_get_memsize.
  assert (2 ^ 28 <= 2 ^ k).
  { apply Z.pow_le_mono_r; [lia|]. destruct (decide (28 <= k)); [done|].
    assert (2 ^ k <= 2 ^ 27) by (apply Z.pow_le_mono_r; lia). lia. }
  rewrite log_powerof2 by lia. cbn [negb orb]. destruct (Z.ltb_spec RTE_RING_SZ_MASK (2 ^ k)) as [|Hge]; [done|].
  unfold RTE_RING_SZ_MASK in Hge. lia.
Qed.

Definition demo_big : pool_state rte_ring := PS None 0 (2 ^ 27) 0 [] 128 64 128 0 0 [] [] 0 [] 1.

Lemma populate_phys_big_pool_witness :
  @rte_mempool_populate_phys _ (ops_ring false false) demo_zones (common_ring_alloc plenty) 4096 4096 1000 (Some 0%nat)
    demo_big = Ret (22, demo_big).
Proof. apply (populate_phys_big_pool false false); [cbn; lia|reflexivity]. Defined.

(** The memory that [rte_mempool_xmem_size] asks for is enough: it is a whole number
    of pages, at least as many bytes as the objects have, and on that many contiguous
    pages [rte_mempool_xmem_usage] places all of them. *)
Theorem xmem_size_sufficient (n sz pg_shift : Z) :
  0 <= n < 2 ^ 32 -> 0 < sz < 2 ^ 32 -> 0 < pg_shift < 32 -> (sz + 2 ^ pg_shift) * (n + 1) + 2 ^ pg_shift < 2 ^ 63 ->
  let size := rte_mempool_xmem_size n sz pg_shift in
  sz * n <= size /\ (2 ^ pg_shift | size) /\
  rte_mempool_xmem_usage n sz None (size / 2 ^ pg_shift) pg_shift = Ret size.
Proof.
  intros Hn Hs Hp Hb size. subst size. destruct (xmem_size_pages n sz pg_shift Hn Hs Hp Hb) as (pg & -> & Hpg & Hr).
  assert (0 < 2 ^ pg_shift < 2 ^ 32) by (split; [apply Z.pow_pos_nonneg; lia|apply Z.pow_lt_mono_r; lia]).
  rewrite Z.div_mul by lia. split_and!; [lia|by exists pg|]. unfold rte_mempool_xmem_usage.
  rewrite Z.shiftl_mul_pow2, Z.mul_1_l, (wrapu_small 64 (2 ^ _)), (wrapu_small 64 (2 ^ pg_shift * pg)) by nia.
  rewrite xmem_loop_fits by nia.
  rewrite Z.shiftl_mul_pow2, wrapu_small, wraps_small by lia. done.
Qed.

Lemma xmem_size_sufficient_witness :
  2432 * 2047 <= rte_mempool_xmem_size 2047 2432 12 /\ (2 ^ 12 | rte_mempool_xmem_size 2047 2432 12) /\
  rte_mempool_xmem_usage 2047 2432 None (rte_mempool_xmem_size 2047 2432 12 / 2 ^ 12) 12 =
    Ret (rte_mempool_xmem_size 2047 2432 12).
Proof. apply (xmem_size_sufficient 2047 2432 12); vm_compute; repeat split; congruence. Defined.
