(* ===== verification/MbufCreate.v ===== *)
(** The creation of packet memory: librte_mbuf/rte_mbuf.c on top of the memory pools,
    the table of handlers (rte_mempool_ops.c), and libmoon's [init_mem]
    (libmoon/src/memory.c). *)
From Stdlib Require Import ZArith Lia String.
From stdpp Require Import base numbers list gmap strings.
From S2P Require Import Prelude Ring RingSpec RteMempool RteMempoolSpec Mbuf MbufSpec MbufPool RtePopulate RtePopulateSpec.

#[local] Open Scope Z_scope.

(** ** The table of handlers *)

(** The names in order of registration. A handler is given by its name and by whether
    it has every operation that is needed. *)
Definition RTE_MEMPOOL_MAX_OPS_IDX : nat := 16.
Definition RTE_MEMPOOL_OPS_NAMESIZE : nat := 32.

Definition rte_mempool_register_ops (name : string) (has_ops : bool) : M (list string) Z :=
  table ← gets id;
  if (RTE_MEMPOOL_MAX_OPS_IDX <=? List.length table)%nat then mret (- ENOSPC)
  else if negb has_ops then mret (- EINVAL)
  else if (RTE_MEMPOOL_OPS_NAMESIZE - 1 <=? String.length name)%nat then mret (- EEXIST)
  else modify (fun t => t ++ [name]) ;; mret (wraps 16 (Z.of_nat (List.length table))).

Fixpoint find_ops (name : string) (table : list string) (i : Z) : option Z :=
  match table with
  | [] => None
  | n :: table => if String.eqb name n then Some i else find_ops name table (i + 1)
  end.

(** The new index, or the error. *)
Definition rte_mempool_set_ops_byname (table : list string) (flags : Z) (name : string) : Z + Z :=
  if has_flag flags MEMPOOL_F_POOL_CREATED then inl (- EEXIST)
  else match find_ops name table 0 with
       | None => inl (- EINVAL)
       | Some i => inr i
       end.

(** ** Pools of packet buffers *)

Definition SIZEOF_MBUF : Z := 128.
Definition RTE_MBUF_PRIV_ALIGN : Z := 8.
Definition RTE_MBUF_DEFAULT_MEMPOOL_OPS : string := "ring_mp_mc".

(** [struct rte_pktmbuf_pool_private] *)
Record rte_pktmbuf_pool_private := PoolPriv { pp_data_room_size : Z; pp_priv_size : Z }.

(** Without an argument the whole element behind the header is data room. *)
Definition rte_pktmbuf_pool_init (elt_size : Z) (opaque_arg : option rte_pktmbuf_pool_private) :
    rte_pktmbuf_pool_private :=
  match opaque_arg with
  | Some p => p
  | None => PoolPriv (if SIZEOF_MBUF <? elt_size then u16 (elt_size - SIZEOF_MBUF) else 0) 0
  end.

Definition init_mbuf (mp : nat) (p : rte_pktmbuf_pool_private) (m : nat) : rte_mbuf :=
  Mbuf m (Z.min RTE_PKTMBUF_HEADROOM (u16 (pp_data_room_size p))) 1 1 255 0 0 0 0 0 0 0 (u16 (pp_data_room_size p)) 0 0 mp
    None 0 (pp_priv_size p).

Abbreviation heap := (gmap nat rte_mbuf).

Definition rte_pktmbuf_init (mp : nat) (p : rte_pktmbuf_pool_private) (m i : Z) : M heap unit :=
  modify (<[Z.to_nat m := init_mbuf mp p (Z.to_nat m)]>).

Section Create.
Context {H : Type} `{MempoolOps H} (e : mem_env) (ops_alloc : Z -> Z -> Z + H) (table : list string).

(** The pool as its users see it. *)
Definition ps_pool (s : pool_state H) : option (rte_mempool H) :=
  h ← ps_data s; Some (RteMempool h (ps_size s) (ps_cache_size s) (ps_caches s)).

(** Objects, chunks and handler are given back; then the zone of the pool itself. *)
Definition rte_mempool_free : M (pool_state H) unit :=
  rte_mempool_free_memchunks ;;
  modify (fun s => PS None (ps_flags s) (ps_size s) (ps_cache_size s) (ps_caches s) (ps_elt s) (ps_hdr s) (ps_tlr s)
    (ps_priv s) (ps_populated s) (ps_elts s) (ps_chunks s) (ps_nb_chunks s) (ps_zones s) (ps_allocs s)).

(** The handler and the objects; the error is that of [rte_errno]. *)
Definition fill_pool (s : pool_state H) : res (Z + pool_state H) :=
  match rte_mempool_populate_default e ops_alloc s with
  | Fault => Fault
  | Diverge => Diverge
  | Ret (ret, s') =>
    if ret <? 0 then
      match rte_mempool_free s' with
      | Ret _ => Ret (inl (- ret))
      | Fault => Fault
      | Diverge => Diverge
      end
    else Ret (inr s')
  end.

Definition rte_pktmbuf_pool_create (mp : nat) (n cache_size priv_size data_room_size : Z) :
    M heap (Z + pool_state H * rte_pktmbuf_pool_private) :=
  if negb (RTE_ALIGN_CEIL 16 priv_size RTE_MBUF_PRIV_ALIGN =? priv_size) then mret (inl EINVAL)
  else
    let elt_size := u32 (SIZEOF_MBUF + priv_size + data_room_size) in
    match rte_mempool_create_empty e n elt_size cache_size 4 0 with
    | None => diverge
    | Some (inl err) => mret (inl err)
    | Some (inr s) =>
      match rte_mempool_set_ops_byname table (ps_flags s) RTE_MBUF_DEFAULT_MEMPOOL_OPS with
      | inl ret => mret (inl (- ret))
      | inr _ =>
        let p := rte_pktmbuf_pool_init (ps_elt s) (Some (PoolPriv data_room_size priv_size)) in
        match fill_pool s with
        | Fault => fault
        | Diverge => diverge
        | Ret (inl err) => mret (inl err)
        | Ret (inr s) => _ ← rte_mempool_obj_iter s (rte_pktmbuf_init mp p); mret (inr (s, p))
        end
      end
    end.

(** ** libmoon *)

Definition MEMPOOL_CACHE_SIZE : Z := 256.

(** [data_room_size] is a [uint16_t]. *)
Definition init_mem (mp : nat) (nb_mbuf mbuf_size : Z) : M heap (option (pool_state H * rte_pktmbuf_pool_private)) :=
  r ← rte_pktmbuf_pool_create mp nb_mbuf MEMPOOL_CACHE_SIZE 0 (u16 (u32 (mbuf_size + RTE_PKTMBUF_HEADROOM)));
  match r with
  | inl _ => mret None
  | inr p => mret (Some p)
  end.
End Create.

(** ** Correctness *)

Lemma obj_iter_init mp p l : forall n h,
  exists n' h', obj_iter_from (rte_pktmbuf_init mp p) l n h = Ret (n', h') /\
    forall m, h' !! m = if decide (m ∈ ((fun o : Z * Z => Z.to_nat o.1) <$> l)) then Some (init_mbuf mp p m) else h !! m.
Proof.
  induction l as [|[o x] l IH]; intros n h; cbn [obj_iter_from].
  - exists n, h. split; [done|]. intros m. by rewrite decide_False by set_solver.
  - unfold mbind, M_bind, rte_pktmbuf_init, modify.
    destruct (IH (u32 (n + 1)) (<[Z.to_nat o := init_mbuf mp p (Z.to_nat o)]> h)) as (n' & h' & E & Hl).
    unfold rte_pktmbuf_init, modify in E. exists n', h'. split; [done|]. intros m. rewrite Hl. cbn [fmap list_fmap].
    destruct (decide (m ∈ _ <$> l)); [by rewrite decide_True by set_solver|].
    destruct (decide (m = Z.to_nat o)) as [->|].
    + by rewrite decide_True, lookup_insert_eq by set_solver.
    + by rewrite decide_False, lookup_insert_ne by set_solver.
Qed.

Lemma find_ops_in name table : forall i, name ∈ table -> is_Some (find_ops name table i).
Proof.
  induction table as [|n t IH]; intros i Hin; cbn [find_ops]; [set_solver|].
  destruct (String.eqb_spec name n); [by eexists|]. apply IH. set_solver.
Qed.

Lemma concat_replicate_nil {A} k : concat (replicate k (@nil A)) = [].
Proof. by induction k. Qed.

Section Correct.
Context {H : Type} `{MempoolOpsLaws H} (e : mem_env) (ops_alloc : Z -> Z -> Z + H) (table : list string).
Context (Henv : env_ok e) (Hzones : zones_ok e) (Hhuge : has_hugepages e = true)
        (Hops : RTE_MBUF_DEFAULT_MEMPOOL_OPS ∈ table).

Lemma fill_pool_spec s :
  fresh s -> 0 < ps_size s -> alloc_ok ops_alloc (ps_size s) ->
  exists r, fill_pool e ops_alloc s = Ret r /\
    match r with
    | inl err => 0 < err /\ no_memory e ops_alloc s
    | inr s' => frame s s' /\ exists h q, complete e s' h q
    end.
Proof.
  intros Hs Hpos Ha. destruct (populate_default_spec e ops_alloc s Hhuge Hzones Hs Hpos Ha) as (ret & s' & E & Hi & Hfr & Hc).
  unfold fill_pool. rewrite E. destruct Hc as [[-> Hc]|(Hneg & _ & Hno)].
  - destruct (Z.ltb_spec (ps_size s) 0); [lia|]. by eexists.
  - destruct (Z.ltb_spec ret 0); [|lia]. unfold rte_mempool_free, mbind, M_bind.
    destruct (free_memchunks_spec s' Hi) as (s2 & -> & _). eexists. split; [reflexivity|]. split; [lia|done].
Qed.

(** A complete pool as its users see it. *)
Lemma complete_pool s h q :
  complete e s h q -> 0 < ps_cache_size s <= RTE_MEMPOOL_CACHE_MAX_SIZE -> ps_caches s = fresh_caches (ps_cache_size s) ->
  let mp := RteMempool h (ps_size s) (ps_cache_size s) (ps_caches s) in
  pool_ok mp q /\ contents mp q = q /\ Z.of_nat (length q) = ps_size s /\ (length q <= pool_cap mp)%nat.
Proof.
  intros [Hf Hlen _ _ _] Hcs Hca mp. pose proof (filled_length _ _ _ Hf) as Hlq. pose proof Hf as [_ Hr _ _ Hcap].
  assert (caches mp = replicate RTE_MAX_LCORE (mempool_cache_init (ps_cache_size s))) as Hcm.
  { unfold mp, caches, fresh_caches in *. cbn [cache_size local_cache]. rewrite Hca.
    destruct (Z.eqb_spec (ps_cache_size s) 0); [lia|done]. }
  split_and!.
  - split; [done|cbn; lia|]. rewrite Hcm. apply Forall_replicate, init_cache_ok, Hcs.
  - unfold contents. rewrite Hcm, fmap_replicate. change (cached (mempool_cache_init _)) with (@nil nat).
    rewrite concat_replicate_nil. apply app_nil_r.
  - lia.
  - unfold pool_cap. cbn. lia.
Qed.

(** The heap after creation: every object is a fresh packet buffer. *)
Definition initialised (mp : nat) (p : rte_pktmbuf_pool_private) (held : list nat) (h h' : heap) : Prop :=
  forall m, h' !! m = if decide (m ∈ held) then Some (init_mbuf mp p m) else h !! m.

(** Elements of [size] bytes do not overlap. *)
Definition apart (size : Z) (held : list nat) : Prop :=
  forall i j x y, i <> j -> held !! i = Some x -> held !! j = Some y -> size <= Z.abs (Z.of_nat x - Z.of_nat y).

Lemma initialised_perm mp p held held' h h' : held ≡ₚ held' -> initialised mp p held h h' -> initialised mp p held' h h'.
Proof. intros Hp Hi m. rewrite Hi. repeat case_decide; try done; [by rewrite Hp in *|by rewrite <- Hp in *]. Qed.

Lemma spaced_apart total size l :
  size <= total -> spaced total l -> Forall (fun o => 0 <= o.1) l -> apart size ((fun o : Z * Z => Z.to_nat o.1) <$> l).
Proof.
  intros Hle Hs Hpos i j x y Hne. rewrite !list_lookup_fmap, !fmap_Some. intros (a & Ha & ->) (b & Hb & ->).
  rewrite Forall_lookup in Hpos. pose proof (Hpos i a Ha). pose proof (Hpos j b Hb).
  specialize (Hs i j a b Hne Ha Hb). cbn in *. lia.
Qed.

Lemma apart_perm size l l' : l ≡ₚ l' -> NoDup l -> apart size l -> apart size l'.
Proof.
  intros Hp Hnd Ha i j x y Hne Hi Hj. assert (x <> y) as Hxy.
  { intros ->. apply Hne. rewrite Hp in Hnd. by eapply NoDup_lookup. }
  apply list_elem_of_lookup_2 in Hi, Hj. rewrite <- Hp in Hi, Hj.
  apply list_elem_of_lookup_1 in Hi as [i' Hi], Hj as [j' Hj]. eapply (Ha i' j'); [naive_solver|done|done].
Qed.

(** What a pool of packet buffers is after its creation. *)
Record pktmbuf_pool (mp : nat) (n room priv : Z) (s : pool_state H) (p : rte_pktmbuf_pool_private) (h h' : heap) : Prop := {
  pm_private : p = PoolPriv room priv;
  pm_pool : exists pool q, ps_pool s = Some pool /\ pool_ok pool q /\ contents pool q = q /\ psize pool = n /\
    Z.of_nat (length q) = n /\ (length q <= pool_cap pool)%nat /\ NoDup q /\ apart (SIZEOF_MBUF + priv + room) q /\
    initialised mp p q h h'
}.

Lemma pool_create_spec mp n cs priv room h :
  0 <= n < 2 ^ 31 -> 0 < cs -> 0 <= room < 2 ^ 16 -> 0 <= priv < 2 ^ 16 -> RTE_ALIGN_CEIL 16 priv 8 = priv ->
  alloc_ok ops_alloc n ->
  exists r h', rte_pktmbuf_pool_create e ops_alloc table mp n cs priv room h = Ret (r, h') /\
    match r with
    | inl err => h' = h /\ (RTE_MEMPOOL_CACHE_MAX_SIZE < cs \/ n < CALC_CACHE_FLUSHTHRESH cs \/
                  zmalloc e 0 = false \/ (exists sz err', header_zone e sz = inl err') \/
                  exists s, rte_mempool_create_empty e n (SIZEOF_MBUF + priv + room) cs 4 0 = Some (inr s) /\
                    no_memory e ops_alloc s)
    | inr (s, p) => cs <= RTE_MEMPOOL_CACHE_MAX_SIZE /\ CALC_CACHE_FLUSHTHRESH cs <= n /\ pktmbuf_pool mp n room priv s p h h'
    end.
Proof.
  intros Hn Hcs Hroom Hpriv Hal Ha. unfold rte_pktmbuf_pool_create. change RTE_MBUF_PRIV_ALIGN with 8.
  rewrite Hal, Z.eqb_refl. cbn [negb]. rewrite (wrapu_small 32) by (unfold SIZEOF_MBUF; lia).
  destruct (create_empty_spec (H := H) e n (SIZEOF_MBUF + priv + room) cs 4 0 Henv Hn ltac:(unfold SIZEOF_MBUF; lia) ltac:(lia) eq_refl)
    as (r & Ecr & Hr). rewrite Ecr.
  destruct r as [err|s]; [eexists _, h; split; [reflexivity|]; split; [done|]; naive_solver|].
  destruct Hr as (Hmax & Hthr & Hf & Hsz & Hel & Hcsz & Hca & _ & _).
  unfold rte_mempool_set_ops_byname. pose proof (fs_handler _ Hf) as Hnc. unfold created in Hnc. rewrite Hnc.
  destruct (find_ops_in _ _ 0 Hops) as [i ->]. cbv iota zeta. cbn [rte_pktmbuf_pool_init].
  assert (0 < n) as Hpos by (unfold CALC_CACHE_FLUSHTHRESH in Hthr; Z.div_mod_to_equations; lia).
  destruct (fill_pool_spec s Hf ltac:(lia) ltac:(by rewrite Hsz)) as (r & -> & Hr).
  destruct r as [err|s']; [eexists _, h; split; [reflexivity|]; split; [done|]; naive_solver|].
  destruct Hr as (Hfr & hd & q & Hcm). pose proof Hfr as [(Es & Eh & Ee & Et) (Ec & Eca & _) _].
  unfold mbind, M_bind, rte_mempool_obj_iter, mret, M_ret.
  destruct (obj_iter_init mp (PoolPriv room priv) (ps_elts s') 0 h) as (n' & h' & -> & Hh').
  eexists _, h'. split; [reflexivity|]. split_and!; [done..|]. split; [done|].
  destruct (complete_pool s' hd q Hcm) as (Hok & Hcont & Hlen & Hcap); [rewrite Ec, Hcsz; done|congruence|].
  pose proof Hcm as [Hfi _ Hsp [k Hlie] Hnd]. pose proof Hfi as [Hd _ Hq _ _].
  eexists _, q. split; [unfold ps_pool; rewrite Hd; reflexivity|]. split_and!; [done|done|cbn; congruence|lia|done|done| |].
  - pose proof (fs_shape _ Hf) as Hsh. assert (Forall (fun o => 0 <= o.1) (ps_elts s')) as Hpo.
    { eapply Forall_impl; [exact Hlie|]. intros o. apply lies_pos; [|done]. destruct Hsh. by split; rewrite ?Es, ?Eh, ?Ee, ?Et. }
    eapply apart_perm; [symmetry; exact Hq|by rewrite <- Hq|].
    apply (spaced_apart (total_elt_sz s')); [|done|done].
    rewrite (frame_total _ _ Hfr), (total_spec _ Hsh). pose proof (sh_parts _ Hsh). lia.
  - eapply initialised_perm; [symmetry; exact Hq|]. exact Hh'.
Qed.
End Correct.

(** ** Packet memory from its creation on *)

(** The pool of a program: the ring handler that the build selects. *)
Abbreviation moon_laws := (ops_ring_laws false false).
Abbreviation moon_pool := (@live_pool rte_ring (ops_ring false false) moon_laws).

(** What the machine offers. *)
Record machine_ok (e : mem_env) (re : ring_env) (table : list string) : Prop := {
  mo_env : env_ok e;
  mo_zones : zones_ok e;
  mo_huge : has_hugepages e = true;
  mo_ring : ring_env_ok re;
  mo_ops : RTE_MBUF_DEFAULT_MEMPOOL_OPS ∈ table
}.

(** No memory for the pool with its caches, for its ring or for [n] objects with data
    rooms of [room] bytes. *)
Definition out_of_memory (e : mem_env) (re : ring_env) (n room : Z) : Prop :=
  zmalloc e 0 = false \/ (exists sz err, header_zone e sz = inl err) \/
  exists s : pool_state rte_ring,
    rte_mempool_create_empty e n (SIZEOF_MBUF + room) MEMPOOL_CACHE_SIZE 4 0 = Some (inr s) /\
    no_memory e (common_ring_alloc re) s.

Lemma init_mem_spec e re table mp nb_mbuf mbuf_size h :
  machine_ok e re table -> 0 <= nb_mbuf < 2 ^ 27 ->
  exists r h', @init_mem rte_ring (ops_ring false false) e (common_ring_alloc re) table mp nb_mbuf mbuf_size h = Ret (r, h') /\
    match r with
    | None => h' = h /\ (nb_mbuf < 384 \/ out_of_memory e re nb_mbuf (u16 (u32 (mbuf_size + 128))))
    | Some (s, p) => 384 <= nb_mbuf /\
        @pktmbuf_pool _ _ moon_laws mp nb_mbuf (u16 (u32 (mbuf_size + 128))) 0 s p h h'
    end.
Proof.
  intros [Henv Hz Hh Hre Hops] Hn. unfold init_mem.
  pose proof (wrapu_range 16 (u32 (mbuf_size + RTE_PKTMBUF_HEADROOM)) ltac:(lia)).
  destruct (@pool_create_spec _ _ moon_laws e (common_ring_alloc re) table Henv Hz Hh Hops mp nb_mbuf MEMPOOL_CACHE_SIZE 0
    (u16 (u32 (mbuf_size + RTE_PKTMBUF_HEADROOM))) h) as (r & h' & E & Hr);
    [lia|done|done|lia|done|apply ring_alloc_ok; [done|lia]|].
  unfold mbind, M_bind. rewrite E. destruct r as [err|[s p]].
  - exists None, h'. split; [done|]. destruct Hr as [-> Hr]. split; [done|]. unfold out_of_memory.
    destruct Hr as [Hr|[Hr|Hr]]; [done|left; exact Hr|by right].
  - exists (Some (s, p)), h'. split; [done|]. destruct Hr as (_ & Hthr & Hp). by split.
Qed.

(** C23: Packet memory works from its creation on. [init_mem] ends. If it returns
    nothing, the number of buffers was below the 384 that the caches require, or there
    was no memory, and no buffer was touched. Otherwise the pool holds [nb_mbuf]
    distinct buffers whose headers and data rooms do not overlap, all initialised and
    owned by the pool; and on every core, [alloc_mbufs] of up to [nb_mbuf] buffers and
    freeing them runs without a fault and gives every buffer back. *)
Theorem init_mem_correct (e : mem_env) (re : ring_env) (table : list string) (mp : nat) (nb_mbuf mbuf_size : Z)
    (h : gmap nat rte_mbuf) :
  machine_ok e re table -> 0 <= nb_mbuf < 2 ^ 27 ->
  exists r h', @init_mem rte_ring (ops_ring false false) e (common_ring_alloc re) table mp nb_mbuf mbuf_size h = Ret (r, h') /\
    match r with
    | None => h' = h /\ (nb_mbuf < 384 \/ out_of_memory e re nb_mbuf (u16 (u32 (mbuf_size + 128))))
    | Some (s, p) =>
      exists (pool : moon_pool) (held : list nat), ps_pool s = Some (proj1_sig pool) /\
        contents (proj1_sig pool) (@ops_objs _ _ moon_laws (pool_data (proj1_sig pool))) = held /\
        Z.of_nat (length held) = nb_mbuf /\ NoDup held /\ apart (SIZEOF_MBUF + pp_data_room_size p) held /\
        initialised mp p held h h' /\
        forall lcore bufs len plen, 0 < len <= nb_mbuf -> length bufs = Z.to_nat len ->
          exists s' pool', (arr ← @alloc_mbufs _ (@core_pool _ _ moon_laws lcore) mp bufs len plen;
                            @free_each _ (@core_pool _ _ moon_laws lcore) arr)
                (Mem h' {[mp := Pool pool (pp_data_room_size p) (pp_priv_size p)]}) = Ret (tt, s') /\
            pools s' !! mp = Some pool' /\
            contents (proj1_sig (pool_objs pool')) (@ops_objs _ _ moon_laws (pool_data (proj1_sig (pool_objs pool')))) ≡ₚ held
    end.
Proof.
  intros Hm Hn. destruct (init_mem_spec e re table mp nb_mbuf mbuf_size h Hm Hn) as (r & h' & E & Hr).
  exists r, h'. split; [done|]. destruct r as [[s p]|]; [|done]. destruct Hr as (Hge & [-> (pool & q & Hp & Hok & Hc & Hsz & Hlen & Hcap & Hnd & Hap & Hini)]).
  pose proof (@ops_objs_spec _ _ moon_laws _ _ (pk_ops _ _ Hok)) as Hobj.
  set (lp := exist _ pool (@live_ok _ _ moon_laws pool q Hok) : moon_pool).
  assert (contents pool (@ops_objs _ _ moon_laws (pool_data pool)) = q) as Hheld by by rewrite Hobj.
  exists lp, q. split_and!; [done..|by replace (SIZEOF_MBUF + 0 + _) with (SIZEOF_MBUF + u16 (u32 (mbuf_size + 128))) in Hap by lia|done|].
  intros lcore bufs len plen Hl Hb.
  set (pl := Pool lp (u16 (u32 (mbuf_size + 128))) 0).
  destruct (@alloc_free_live _ _ moon_laws lcore (Mem h' {[mp := pl]}) mp pl bufs len plen) as (s' & p' & Er & Hp' & Hperm & _).
  - apply lookup_singleton_eq.
  - left. cbn [pool_objs pl lp proj1_sig]. rewrite Hobj. lia.
  - lia.
  - done.
  - cbn [pool_objs pl lp proj1_sig]. by rewrite Hheld.
  - cbn [pool_objs pl lp proj1_sig]. by rewrite Hheld.
  - cbn [pool_objs pl lp proj1_sig mbufs]. rewrite Hheld. apply Forall_forall. intros m Hin. eexists. rewrite Hini, decide_True by done. done.
  - cbn [pool_objs pl lp proj1_sig] in Hperm. rewrite Hheld in Hperm. exists s', p'. by split_and!.
Qed.

(** A machine with a zone for everything, four gigabytes apart. *)
Definition big_machine : mem_env :=
  MemEnv 2 2 (fun _ => true) (fun _ => inr tt)
    (fun k _ => if Z.of_nat k <? 2 ^ 20 then inr (2 ^ 32 * (Z.of_nat k + 1), 0, 2 ^ 31) else inl ENOMEM) true 4096 12 id.

Lemma big_machine_ok : machine_ok big_machine plenty ["ring_mp_mc"%string].
Proof.
  split.
  - split; [vm_compute; repeat split; congruence|done].
  - split; cbn [zone_reserve big_machine].
    + intros k sz a p l. destruct (Z.ltb_spec (Z.of_nat k) (2 ^ 20)); [|done]. intros [= <- <- <-]. lia.
    + intros k sz a p l k' sz' a' p' l' Hne. destruct (Z.ltb_spec (Z.of_nat k) (2 ^ 20)); [|done]. intros [= <- <- <-].
      destruct (Z.ltb_spec (Z.of_nat k') (2 ^ 20)); [|done]. intros [= <- <- <-]. lia.
    + intros k sz err. destruct (Z.of_nat k <? 2 ^ 20); [done|]. intros [= <-]. unfold ENOMEM. lia.
  - done.
  - done.
  - set_solver.
Qed.

Lemma big_machine_memory : ~ out_of_memory big_machine plenty 2047 2176.
Proof.
  intros [?|[(sz & err & ?)|(s & E & Hno)]]; [done|done|]. vm_compute in E. injection E as <-.
  destruct Hno as [(f & err & Hf)|[[j Hj]|[(k & sz & err & err' & Hk & Hz & _)|(k & sz & a & p & l & Hk & Hz & Hl)]]].
  - revert Hf. unfold common_ring_alloc. cbn [ps_size].
    destruct (has_flag f MEMPOOL_F_SP_PUT), (has_flag f MEMPOOL_F_SC_GET); vm_compute; discriminate.
  - done.
  - revert Hz. cbn [zone_reserve big_machine ps_size] in *. destruct (Z.ltb_spec (Z.of_nat k) (2 ^ 20)); [done|lia].
  - revert Hz. cbn [zone_reserve big_machine ps_size] in *. destruct (Z.ltb_spec (Z.of_nat k) (2 ^ 20)); [|done].
    intros [= <- <- <-]. vm_compute in Hl. discriminate.
Qed.

Lemma init_mem_correct_witness :
  exists s p h', @init_mem rte_ring (ops_ring false false) big_machine (common_ring_alloc plenty) ["ring_mp_mc"%string] 7 2047 2048 ∅
      = Ret (Some (s, p), h') /\
    exists (pool : moon_pool) (held : list nat), ps_pool s = Some (proj1_sig pool) /\
      Z.of_nat (length held) = 2047 /\ NoDup held /\ apart (SIZEOF_MBUF + pp_data_room_size p) held /\
      initialised 7 p held ∅ h' /\
      exists s' pool', (arr ← @alloc_mbufs _ (@core_pool _ _ moon_laws 0) 7 (replicate 63 0%nat) 63 60;
                        @free_each _ (@core_pool _ _ moon_laws 0) arr)
            (Mem h' {[7%nat := Pool pool (pp_data_room_size p) (pp_priv_size p)]}) = Ret (tt, s') /\
        pools s' !! 7%nat = Some pool' /\
        contents (proj1_sig (pool_objs pool')) (@ops_objs _ _ moon_laws (pool_data (proj1_sig (pool_objs pool')))) ≡ₚ held.
Proof.
  destruct (init_mem_correct big_machine plenty ["ring_mp_mc"%string] 7 2047 2048 ∅ big_machine_ok ltac:(lia))
    as (r & h' & E & Hr). destruct r as [[s p]|].
  - destruct Hr as (pool & held & ? & _ & ? & ? & ? & ? & Haf). exists s, p, h'. split; [exact E|]. exists pool, held.
    split_and!; [assumption..|]. exact (Haf 0%nat (replicate 63 0%nat) 63 60 ltac:(lia) eq_refl).
  - exfalso. destruct Hr as [_ [?|Ho]]; [lia|exact (big_machine_memory Ho)].
Defined.
