(* ===== verification/KniFifo.v ===== *)
(** librte_kni/rte_kni_fifo.h, and the kernel's copy of it (linuxapp/kni/kni_fifo.h):
    the queues of pointers between a user process and the KNI kernel module. A queue
    has a power of two of entries, one of which stays free. *)
From Stdlib Require Import ZArith Lia.
From stdpp Require Import base numbers list.
From S2P Require Import Prelude.

#[local] Open Scope Z_scope.

(** [struct rte_kni_fifo]; all its elements are pointers. *)
Record rte_kni_fifo := Fifo { f_write : Z; f_read : Z; f_len : Z; f_buffer : list nat }.

(** [None] where the code panics. *)
Definition kni_fifo_init (size : Z) (f : rte_kni_fifo) : option rte_kni_fifo :=
  if negb (Z.land size (u32 (size - 1)) =? 0) then None else Some (Fifo 0 0 size (f_buffer f)).

(** [(i + 1) & (fifo->len - 1)] *)
Definition fifo_next (len i : Z) : Z := Z.land (u32 (i + 1)) (u32 (len - 1)).

(** The entries of [data] that are left to be written; [new_write] is not read after the loop. *)
Fixpoint fifo_put_loop (len fifo_read : Z) (data : list nat) (fifo_write i : Z) (buf : list nat) :
    option (Z * Z * list nat) :=
  match data with
  | [] => Some (i, fifo_write, buf)
  | x :: data =>
    let new_write := fifo_next len fifo_write in
    if new_write =? fifo_read then Some (i, fifo_write, buf)
    else if (Z.to_nat fifo_write <? length buf)%nat
    then fifo_put_loop len fifo_read data new_write (i + 1) (<[Z.to_nat fifo_write := x]> buf)
    else None
  end.

(** [num] entries of [data], which has as many; a write outside of the buffer is a
    fault. *)
Definition kni_fifo_put (data : list nat) : M rte_kni_fifo Z :=
  f ← gets id;
  match fifo_put_loop (f_len f) (f_read f) data (f_write f) 0 (f_buffer f) with
  | None => fault
  | Some (i, w, buf) => modify (fun _ => Fifo w (f_read f) (f_len f) buf) ;; mret i
  end.

Fixpoint fifo_get_loop (num : nat) (len fifo_write : Z) (buf : list nat) (new_read : Z) : option (list nat * Z) :=
  match num with
  | O => Some ([], new_read)
  | S num =>
    if new_read =? fifo_write then Some ([], new_read)
    else
      x ← buf !! Z.to_nat new_read;
      r ← fifo_get_loop num len fifo_write buf (fifo_next len new_read);
      Some (x :: r.1, r.2)
  end.

(** The entries read; the code returns their number. *)
Definition kni_fifo_get (num : nat) : M rte_kni_fifo (list nat) :=
  f ← gets id;
  match fifo_get_loop num (f_len f) (f_write f) (f_buffer f) (f_read f) with
  | None => fault
  | Some (l, r) => modify (fun _ => Fifo (f_write f) r (f_len f) (f_buffer f)) ;; mret l
  end.

Definition kni_fifo_count (f : rte_kni_fifo) : Z :=
  Z.land (u32 (f_len f + f_write f - f_read f)) (u32 (f_len f - 1)).

Definition kni_fifo_free_count (f : rte_kni_fifo) : Z :=
  Z.land (u32 (f_read f - f_write f - 1)) (u32 (f_len f - 1)).

(** ** A queue *)

Record fifo_shape (f : rte_kni_fifo) : Prop := {
  fh_len : exists k, 1 <= k <= 31 /\ f_len f = 2 ^ k;
  fh_buf : length (f_buffer f) = Z.to_nat (f_len f);
  fh_read : 0 <= f_read f < f_len f
}.

(** The queue holds [q], from the read position on. *)
Record fifo_rep (f : rte_kni_fifo) (q : list nat) : Prop := {
  fq_shape : fifo_shape f;
  fq_fit : Z.of_nat (length q) < f_len f;
  fq_write : f_write f = (f_read f + Z.of_nat (length q)) mod f_len f;
  fq_at i x : q !! i = Some x -> f_buffer f !! Z.to_nat ((f_read f + Z.of_nat i) mod f_len f) = Some x
}.

Lemma shape_pos f : fifo_shape f -> 2 <= f_len f <= 2 ^ 31.
Proof.
  intros [(k & Hk & ->) _ _]. split; [|apply Z.pow_le_mono_r; lia].
  change 2 with (2 ^ 1) at 1. apply Z.pow_le_mono_r; lia.
Qed.

(** Masking is taking the remainder, also of a difference that wrapped around. *)
Lemma fifo_mask f x : fifo_shape f -> Z.land (u32 x) (u32 (f_len f - 1)) = x mod f_len f.
Proof.
  intros Hs. pose proof (shape_pos f Hs). destruct Hs as [(k & Hk & E) _ _].
  rewrite (wrapu_small 32 (f_len f - 1)) by lia. rewrite E.
  replace (2 ^ k - 1) with (Z.ones k) by (rewrite Z.ones_equiv; lia). rewrite Z.land_ones by lia.
  unfold wrapu. replace 32 with (k + (32 - k)) by lia. rewrite Z.pow_add_r, Z.rem_mul_r by
    (first [lia|apply Z.pow_nonzero; lia|apply Z.pow_pos_nonneg; lia]).
  rewrite Z.mul_comm, Z.mod_add, Z.mod_mod by (apply Z.pow_nonzero; lia). done.
Qed.

Lemma mod_distinct r n i j : 0 < n -> 0 <= i < n -> 0 <= j < n -> (r + i) mod n = (r + j) mod n -> i = j.
Proof.
  intros Hn Hi Hj E. assert ((i - j) mod n = 0) as Hd.
  { replace (i - j) with ((r + i) - (r + j)) by lia. rewrite Zminus_mod, E, Z.sub_diag. by rewrite Z.mod_0_l by lia. }
  apply Z.mod_divide in Hd as [c Hc]; [|lia]. assert (c = 0) as -> by nia. lia.
Qed.

Lemma fifo_full f q :
  fifo_rep f q -> (fifo_next (f_len f) (f_write f) =? f_read f) = (Z.of_nat (length q) =? f_len f - 1).
Proof.
  intros [Hs Hfit Hw _]. pose proof (shape_pos f Hs). pose proof (fh_read f Hs) as Hr.
  unfold fifo_next. rewrite fifo_mask, Hw, Zplus_mod_idemp_l by done.
  rewrite <- (Z.mod_small (f_read f) (f_len f)) at 2 by done. rewrite <- Z.add_assoc.
  destruct (Z.eqb_spec (Z.of_nat (length q)) (f_len f - 1)) as [->|Hne].
  - apply Z.eqb_eq. replace (f_read f + (f_len f - 1 + 1)) with (f_read f + 1 * f_len f) by lia.
    by rewrite Z.mod_add by lia.
  - apply Z.eqb_neq. intros E. rewrite <- (Z.add_0_r (f_read f)) in E at 2.
    apply mod_distinct in E; lia.
Qed.

Lemma fifo_push f q x :
  fifo_rep f q -> Z.of_nat (length q) < f_len f - 1 ->
  fifo_rep (Fifo (fifo_next (f_len f) (f_write f)) (f_read f) (f_len f) (<[Z.to_nat (f_write f) := x]> (f_buffer f))) (q ++ [x]).
Proof.
  intros [Hs Hfit Hw Hat] Hroom. pose proof (shape_pos f Hs). pose proof (fh_buf f Hs) as Hb.
  assert (0 <= f_write f < f_len f) as Hwr by (rewrite Hw; apply Z.mod_pos_bound; lia).
  split; cbn.
  - destruct Hs. split; cbn; [done|by rewrite length_insert|done].
  - rewrite length_app. cbn. lia.
  - unfold fifo_next. rewrite fifo_mask, Hw, Zplus_mod_idemp_l, length_app by done. f_equal. cbn. lia.
  - intros i y Hi. apply lookup_app_Some in Hi as [Hi|[Hge Hi]].
    + rewrite list_lookup_insert_ne; [by apply Hat|]. apply lookup_lt_Some in Hi. rewrite Hw. intros E.
      apply Z2Nat.inj in E; try (apply Z.mod_pos_bound; lia). apply mod_distinct in E; lia.
    + assert (i = length q) as -> by (apply list_lookup_singleton_Some in Hi; lia).
      apply list_lookup_singleton_Some in Hi as [_ <-]. rewrite <- Hw. apply list_lookup_insert_eq. lia.
Qed.

Lemma fifo_put_loop_spec data : forall f q i,
  fifo_rep f q ->
  let n := Z.to_nat (Z.min (Z.of_nat (length data)) (f_len f - 1 - Z.of_nat (length q))) in
  exists w buf, fifo_put_loop (f_len f) (f_read f) data (f_write f) i (f_buffer f) = Some (i + Z.of_nat n, w, buf) /\
    fifo_rep (Fifo w (f_read f) (f_len f) buf) (q ++ take n data).
Proof.
  induction data as [|x data IH]; intros f q i Hr n; cbn [fifo_put_loop];
    pose proof (fq_fit _ _ Hr) as Hfit; pose proof (fq_shape _ _ Hr) as Hs; pose proof (shape_pos f Hs);
    [assert (n = 0%nat) as Hn by (subst n; cbn; lia)|].
  { clearbody n. subst n. exists (f_write f), (f_buffer f). rewrite Z.add_0_r, app_nil_r. split; [done|by destruct f]. }
  rewrite (fifo_full f q Hr). destruct (Z.eqb_spec (Z.of_nat (length q)) (f_len f - 1)).
  - assert (n = 0%nat) as Hn by (subst n; lia). clearbody n. subst n. exists (f_write f), (f_buffer f).
    rewrite Z.add_0_r, app_nil_r. split; [done|by destruct f].
  - assert (0 <= f_write f < f_len f) by (rewrite (fq_write _ _ Hr); apply Z.mod_pos_bound; lia).
    pose proof (fh_buf _ Hs). destruct (Nat.ltb_spec (Z.to_nat (f_write f)) (length (f_buffer f))); [|lia].
    pose proof (fifo_push f q x Hr ltac:(lia)) as Hp.
    destruct (IH _ _ (i + 1) Hp) as (w & buf & E & Hrep). cbn in E, Hrep. rewrite length_app in E, Hrep. cbn in E, Hrep.
    exists w, buf. set (k := Z.to_nat (Z.min (Z.of_nat (length data)) _)) in E, Hrep.
    assert (n = S k) as Hn by (subst n k; cbn; lia). clearbody n k. subst n. cbn [take].
    rewrite <- app_assoc in Hrep. split; [|exact Hrep].
    replace (i + Z.of_nat (S k)) with (i + 1 + Z.of_nat k) by lia. exact E.
Qed.

(** As many entries as fit are appended. *)
Lemma fifo_put_spec f q data :
  fifo_rep f q ->
  let n := Z.to_nat (Z.min (Z.of_nat (length data)) (f_len f - 1 - Z.of_nat (length q))) in
  exists f', kni_fifo_put data f = Ret (Z.of_nat n, f') /\ fifo_rep f' (q ++ take n data) /\ f_len f' = f_len f.
Proof.
  intros Hr n. destruct (fifo_put_loop_spec data f q 0 Hr) as (w & buf & E & Hr').
  unfold kni_fifo_put, mbind, M_bind, gets, id, modify, mret, M_ret. rewrite E. by eexists.
Qed.

Lemma fifo_pop f x q :
  fifo_rep f (x :: q) -> fifo_rep (Fifo (f_write f) (fifo_next (f_len f) (f_read f)) (f_len f) (f_buffer f)) q.
Proof.
  intros [Hs Hfit Hw Hat]. pose proof (shape_pos f Hs). cbn [length] in *.
  split; cbn.
  - destruct Hs as [? ? ?]. split; cbn; [done..|]. unfold fifo_next. rewrite fifo_mask by done. apply Z.mod_pos_bound. lia.
  - lia.
  - unfold fifo_next. rewrite fifo_mask, Zplus_mod_idemp_l, Hw by done. f_equal. lia.
  - intros i y Hi. unfold fifo_next. rewrite fifo_mask, Zplus_mod_idemp_l by done.
    rewrite <- (Hat (S i) y Hi). do 2 f_equal. f_equal. lia.
Qed.

Lemma fifo_empty f q : fifo_rep f q -> (f_read f =? f_write f) = (Z.of_nat (length q) =? 0).
Proof.
  intros [Hs Hfit Hw _]. pose proof (fh_read f Hs) as Hr. rewrite Hw.
  destruct (Z.eqb_spec (Z.of_nat (length q)) 0) as [->|Hne].
  - rewrite Z.add_0_r, Z.mod_small by done. apply Z.eqb_refl.
  - apply Z.eqb_neq. intros E. rewrite <- (Z.mod_small (f_read f) (f_len f)) in E at 1 by done.
    rewrite <- (Z.add_0_r (f_read f)) in E at 1. apply mod_distinct in E; lia.
Qed.

Lemma fifo_get_loop_spec num : forall f q,
  fifo_rep f q -> exists r, fifo_get_loop num (f_len f) (f_write f) (f_buffer f) (f_read f) = Some (take num q, r) /\
    fifo_rep (Fifo (f_write f) r (f_len f) (f_buffer f)) (drop num q).
Proof.
  induction num as [|num IH]; intros f q Hr; cbn [fifo_get_loop].
  - exists (f_read f). split; [done|by destruct f].
  - rewrite (fifo_empty f q Hr). destruct q as [|x q].
    + exists (f_read f). split; [done|by destruct f].
    + cbn [length]. destruct (Z.eqb_spec (Z.of_nat (S (length q))) 0); [lia|].
      pose proof (fq_at _ _ Hr 0 x eq_refl) as Hx. pose proof (fq_shape _ _ Hr) as Hs. pose proof (fh_read _ Hs).
      rewrite Z.add_0_r, Z.mod_small in Hx by done. unfold mbind, option_bind. rewrite Hx.
      destruct (IH _ _ (fifo_pop f x q Hr)) as (r & E & Hr'). cbn [f_read f_write f_len f_buffer] in E, Hr'.
      exists r. split; [|exact Hr']. by rewrite E.
Qed.

Lemma fifo_get_spec f q num :
  fifo_rep f q -> exists f', kni_fifo_get num f = Ret (take num q, f') /\ fifo_rep f' (drop num q) /\ f_len f' = f_len f.
Proof.
  intros Hr. destruct (fifo_get_loop_spec num f q Hr) as (r & E & Hr').
  unfold kni_fifo_get, mbind, M_bind, gets, id, modify, mret, M_ret. rewrite E. by eexists.
Qed.

Lemma fifo_count_spec f q : fifo_rep f q -> kni_fifo_count f = Z.of_nat (length q).
Proof.
  intros [Hs Hfit Hw _]. pose proof (shape_pos f Hs). pose proof (fh_read f Hs). unfold kni_fifo_count.
  rewrite fifo_mask, Hw by done. rewrite Zminus_mod, Zplus_mod_idemp_r, <- Zminus_mod.
  replace (f_len f + (f_read f + Z.of_nat (length q)) - f_read f) with (Z.of_nat (length q) + 1 * f_len f) by lia.
  rewrite Z.mod_add by lia. apply Z.mod_small. lia.
Qed.

Lemma fifo_free_spec f q : fifo_rep f q -> kni_fifo_free_count f = f_len f - 1 - Z.of_nat (length q).
Proof.
  intros [Hs Hfit Hw _]. pose proof (shape_pos f Hs). pose proof (fh_read f Hs). unfold kni_fifo_free_count.
  rewrite fifo_mask, Hw by done. rewrite <- Z.sub_add_distr, <- Zminus_mod_idemp_r, Zplus_mod_idemp_l, Zminus_mod_idemp_r.
  replace (f_read f - (f_read f + Z.of_nat (length q) + 1)) with (f_len f - 1 - Z.of_nat (length q) + (-1) * f_len f) by lia.
  rewrite Z.mod_add by lia. apply Z.mod_small. lia.
Qed.

Lemma fifo_init_spec k f :
  1 <= k <= 31 -> length (f_buffer f) = Z.to_nat (2 ^ k) -> exists f', kni_fifo_init (2 ^ k) f = Some f' /\ fifo_rep f' [] /\ f_len f' = 2 ^ k.
Proof.
  intros Hk Hb. assert (2 ^ k <= 2 ^ 31) by (apply Z.pow_le_mono_r; lia). assert (2 <= 2 ^ k) as H2.
  { change 2 with (2 ^ 1) at 1. apply Z.pow_le_mono_r; lia. }
  unfold kni_fifo_init. rewrite wrapu_small by lia.
  replace (2 ^ k - 1) with (Z.ones k) by (rewrite Z.ones_equiv; lia). rewrite Z.land_ones, Z.mod_same by lia.
  eexists. split; [reflexivity|]. split; [|done]. split; cbn; [|lia|done|done].
  split; cbn; [by exists k|done|lia].
Qed.
