(* ===== verification/RteKni.v ===== *)
(** librte_kni/rte_kni.c and its counterpart in the kernel (linuxapp/kni/kni_net.c): the
    four packet queues of a KNI device, and the requests of the kernel.

    The process and the kernel share the queues. Each of the functions is one step
    here; that a queue can be written on one side while it is read on the other is the
    concern of the code of the queue. Physical and virtual addresses of a buffer differ
    by an amount that the buffer itself stores ([buf_addr - buf_physaddr]). *)
From Stdlib Require Import ZArith Lia.
From stdpp Require Import base numbers list gmap.
From S2P Require Import Prelude Ring Mbuf MbufPool KniFifo.

#[local] Open Scope Z_scope.

Definition MAX_MBUF_BURST_NUM : Z := 32.
Definition MBUF_BURST_SZ : Z := 32.
Definition ETH_ZLEN : Z := 60.

(** ** Packets *)

(** The queues of a device, and the counters of the kernel. *)
Record kni_queues := KQ {
  tx_q : rte_kni_fifo; rx_q : rte_kni_fifo; alloc_q : rte_kni_fifo; free_q : rte_kni_fifo
}.

Definition set_tx (f : rte_kni_fifo) (q : kni_queues) : kni_queues := KQ f (rx_q q) (alloc_q q) (free_q q).
Definition set_rx (f : rte_kni_fifo) (q : kni_queues) : kni_queues := KQ (tx_q q) f (alloc_q q) (free_q q).
Definition set_alloc (f : rte_kni_fifo) (q : kni_queues) : kni_queues := KQ (tx_q q) (rx_q q) f (free_q q).
Definition set_freeq (f : rte_kni_fifo) (q : kni_queues) : kni_queues := KQ (tx_q q) (rx_q q) (alloc_q q) f.

Record kni_stats := KStats {
  rx_bytes : Z; rx_packets : Z; rx_dropped : Z; tx_bytes : Z; tx_packets : Z; tx_dropped : Z
}.

Section Packets.
Context {P : Type} `{Mempool P}.
(** [buf_addr - buf_physaddr] of a buffer, as the process and as the kernel reads it;
    the second by physical address. *)
Context (buf_delta kva_delta : nat -> Z).

Record kni_world := KW { kw_queues : kni_queues; kw_mem : mem P; kw_stats : kni_stats }.

Definition va2pa (m : nat) : nat := Z.to_nat (Z.of_nat m - buf_delta m).
Definition pa2va (pa : nat) : nat := Z.to_nat (Z.of_nat pa + kva_delta pa).

(** Operations on a queue and on the memory. *)
Definition on_queue {A} (get : kni_queues -> rte_kni_fifo) (set : rte_kni_fifo -> kni_queues -> kni_queues)
    (m : M rte_kni_fifo A) : M kni_world A := fun w =>
  match m (get (kw_queues w)) with
  | Ret (a, f) => Ret (a, KW (set f (kw_queues w)) (kw_mem w) (kw_stats w))
  | Fault => Fault
  | Diverge => Diverge
  end.

Definition on_mem {A} (m : M (mem P) A) : M kni_world A := fun w =>
  match m (kw_mem w) with
  | Ret (a, s) => Ret (a, KW (kw_queues w) s (kw_stats w))
  | Fault => Fault
  | Diverge => Diverge
  end.

Definition on_tx {A} : M rte_kni_fifo A -> M kni_world A := on_queue tx_q set_tx.
Definition on_rx {A} : M rte_kni_fifo A -> M kni_world A := on_queue rx_q set_rx.
Definition on_alloc {A} : M rte_kni_fifo A -> M kni_world A := on_queue alloc_q set_alloc.
Definition on_free {A} : M rte_kni_fifo A -> M kni_world A := on_queue free_q set_freeq.

(** *** The process *)

Definition kni_free_mbufs : M kni_world unit :=
  pkts ← on_free (kni_fifo_get (Z.to_nat MAX_MBUF_BURST_NUM)); on_mem (free_each pkts).

(** At most [n] buffers; the loop is left when there are none. *)
Fixpoint alloc_pkts (pool : nat) (n : nat) : M kni_world (list nat) :=
  match n with
  | O => mret []
  | S n =>
    r ← on_mem (rte_pktmbuf_alloc pool);
    match r with
    | None => mret []
    | Some m => l ← alloc_pkts pool n; mret (m :: l)
    end
  end.

Definition kni_allocate_mbufs (pktmbuf_pool : option nat) : M kni_world unit :=
  match pktmbuf_pool with
  | None => mret tt
  | Some pool =>
    q ← gets (fun w => alloc_q (kw_queues w));
    let allocq_free := Z.land (u32 (f_read q - f_write q - 1)) (MAX_MBUF_BURST_NUM - 1) in
    pkts ← alloc_pkts pool (Z.to_nat allocq_free);
    if Z.of_nat (length pkts) <=? 0 then mret tt
    else
      ret ← on_alloc (kni_fifo_put (va2pa <$> pkts));
      if (0 <=? ret) && (ret <? Z.of_nat (length pkts)) && (ret <? MAX_MBUF_BURST_NUM)
      then on_mem (free_each (drop (Z.to_nat ret) pkts))
      else mret tt
  end.

Definition rte_kni_tx_burst (mbufs : list nat) : M kni_world Z :=
  ret ← on_rx (kni_fifo_put (va2pa <$> mbufs)); kni_free_mbufs ;; mret ret.

Definition rte_kni_rx_burst (pktmbuf_pool : option nat) (num : nat) : M kni_world (list nat) :=
  mbufs ← on_tx (kni_fifo_get num);
  (if (0 <? length mbufs)%nat then kni_allocate_mbufs pktmbuf_pool else mret tt) ;; mret mbufs.

(** *** The kernel *)

Definition set_stats (s : kni_stats) : M kni_world unit := modify (fun w => KW (kw_queues w) (kw_mem w) s).

(** A packet is handed to the network stack, unless there is no memory for it
    ([skb]); the answer is the pointer for the process. *)
Fixpoint deliver (skb : nat -> bool) (i : nat) (pas : list nat) : M kni_world (list nat) :=
  match pas with
  | [] => mret []
  | pa :: pas =>
    let va := pa2va pa in
    b ← on_mem (load_mbuf va);
    s ← gets kw_stats;
    set_stats (if skb i
               then KStats (u64 (rx_bytes s + pkt_len b)) (u64 (rx_packets s + 1)) (rx_dropped s) (tx_bytes s)
                      (tx_packets s) (tx_dropped s)
               else KStats (rx_bytes s) (rx_packets s) (u64 (rx_dropped s + 1)) (tx_bytes s) (tx_packets s) (tx_dropped s)) ;;
    l ← deliver skb (S i) pas; mret (va :: l)
  end.

(** The packets delivered are the result here; the code has none. *)
Definition kni_net_rx_normal (skb : nat -> bool) : M kni_world (list nat) :=
  q ← gets kw_queues;
  let num_fq := kni_fifo_free_count (free_q q) in
  if num_fq =? 0 then mret []
  else
    pas ← on_rx (kni_fifo_get (Z.to_nat (Z.min num_fq MBUF_BURST_SZ)));
    if (length pas =? 0)%nat then mret []
    else vas ← deliver skb 0 pas; _ ← on_free (kni_fifo_put vas); mret vas.

Definition tx_drop : M kni_world (list nat) :=
  s ← gets kw_stats;
  set_stats (KStats (rx_bytes s) (rx_packets s) (rx_dropped s) (tx_bytes s) (tx_packets s) (u64 (tx_dropped s + 1))) ;;
  mret [].

(** A packet of [len] bytes from the network stack, padded to the smallest frame. The
    result is the buffer that was filled, if any; the code always reports success. *)
Definition kni_net_tx (mbuf_size len : Z) : M kni_world (list nat) :=
  if mbuf_size <? len then tx_drop
  else
    q ← gets kw_queues;
    if (kni_fifo_free_count (tx_q q) =? 0) || (kni_fifo_count (alloc_q q) =? 0) then tx_drop
    else
      pkt ← on_alloc (kni_fifo_get 1);
      match pkt with
      | [pkt_pa] =>
        let pkt_va := pa2va pkt_pa in
        let len := if len <? ETH_ZLEN then ETH_ZLEN else len in
        on_mem (upd_mbuf pkt_va (fun b => set_data_len (u16 len) (set_pkt_len (u32 len) b))) ;;
        ret ← on_tx (kni_fifo_put [pkt_va]);
        if negb (ret =? 1) then tx_drop
        else
          s ← gets kw_stats;
          set_stats (KStats (rx_bytes s) (rx_packets s) (rx_dropped s) (u64 (tx_bytes s + len)) (u64 (tx_packets s + 1))
                       (tx_dropped s)) ;;
          mret [pkt_va]
      | _ => tx_drop
      end.
End Packets.
Arguments kni_world P : clear implicits.

(** ** Requests *)

Definition RTE_KNI_REQ_CHANGE_MTU : Z := 1.
Definition RTE_KNI_REQ_CFG_NETWORK_IF : Z := 2.
Definition ETIME : Z := 62.
Definition ENODATA : Z := 61.
Definition EBUSY : Z := 16.

(** [struct rte_kni_request]; the argument is a union. *)
Record rte_kni_request := Req { req_id : Z; req_arg : Z; result : Z }.

(** The two queues of requests, and the shared memory [sync_addr] points to. *)
Record req_world := RW { req_q : rte_kni_fifo; resp_q : rte_kni_fifo; sync : rte_kni_request }.

Section Requests.
(** The address of the shared memory, and the registered callbacks. *)
Context (sync_addr : nat) (port_id : Z) (change_mtu config_network_if : option (Z -> Z -> Z)).

Definition on_req {A} (m : M rte_kni_fifo A) : M req_world A := fun w =>
  match m (req_q w) with
  | Ret (a, f) => Ret (a, RW f (resp_q w) (sync w))
  | Fault => Fault
  | Diverge => Diverge
  end.

Definition on_resp {A} (m : M rte_kni_fifo A) : M req_world A := fun w =>
  match m (resp_q w) with
  | Ret (a, f) => Ret (a, RW (req_q w) f (sync w))
  | Fault => Fault
  | Diverge => Diverge
  end.

Definition set_sync (r : rte_kni_request) : M req_world unit := modify (fun w => RW (req_q w) (resp_q w) r).

Definition apply_request (r : rte_kni_request) : rte_kni_request :=
  if req_id r =? RTE_KNI_REQ_CHANGE_MTU then
    match change_mtu with Some f => Req (req_id r) (req_arg r) (f port_id (req_arg r)) | None => r end
  else if req_id r =? RTE_KNI_REQ_CFG_NETWORK_IF then
    match config_network_if with Some f => Req (req_id r) (req_arg r) (f port_id (u8 (req_arg r))) | None => r end
  else Req (req_id r) (req_arg r) (- EINVAL).

(** The process answers a request, if there is one. *)
Definition rte_kni_handle_request : M req_world Z :=
  req ← on_req (kni_fifo_get 1);
  match req with
  | [p] =>
    if negb (p =? sync_addr)%nat then mret (-1)
    else
      r ← gets sync;
      set_sync (apply_request r) ;;
      ret ← on_resp (kni_fifo_put [p]);
      if negb (ret =? 1) then mret (-1) else mret 0
  | _ => mret 0
  end.

(** The kernel sends a request ... *)
Definition process_request_send (req : rte_kni_request) : M req_world Z :=
  set_sync req ;;
  num ← on_req (kni_fifo_put [sync_addr]);
  if num <? 1 then mret (- EBUSY) else mret 0.

(** ... waits for the response queue to have an entry, or for three seconds, and takes
    the response. *)
Definition process_request_wait (timeout : bool) (req : rte_kni_request) : M req_world (Z * rte_kni_request) :=
  if timeout then mret (- ETIME, req)
  else
    resp ← on_resp (kni_fifo_get 1);
    match resp with
    | [p] => if negb (p =? sync_addr)%nat then mret (- ENODATA, req) else r ← gets sync; mret (0, r)
    | _ => mret (- ENODATA, req)
    end.
End Requests.

(** ** Releasing a device *)

Section Drain.
Context {P : Type} `{Mempool P} (buf_delta : nat -> Z).

(** [do ... while (ret)]; [fuel] bounds the entries of the queue. *)
Fixpoint kni_free_fifo (fuel : nat) (get : kni_queues -> rte_kni_fifo) (set : rte_kni_fifo -> kni_queues -> kni_queues) :
    M (kni_world P) unit :=
  pkt ← on_queue get set (kni_fifo_get 1);
  match pkt with
  | [] => mret tt
  | m :: _ =>
    on_mem (rte_pktmbuf_free (Some m)) ;;
    match fuel with O => diverge | S fuel => kni_free_fifo fuel get set end
  end.

(** The callback frees the object with the given physical address. *)
Fixpoint obj_free_all (objs : list nat) (mbuf_phys : nat) : M (kni_world P) unit :=
  match objs with
  | [] => mret tt
  | m :: objs =>
    (if (va2pa buf_delta m =? mbuf_phys)%nat then on_mem (rte_pktmbuf_free (Some m)) else mret tt) ;;
    obj_free_all objs mbuf_phys
  end.

Fixpoint kni_free_fifo_phy (fuel : nat) (objs : list nat) : M (kni_world P) unit :=
  pkt ← on_alloc (kni_fifo_get 1);
  match pkt with
  | [] => mret tt
  | pa :: _ =>
    obj_free_all objs pa ;;
    match fuel with O => diverge | S fuel => kni_free_fifo_phy fuel objs end
  end.

(** The queues that [rte_kni_release] empties; [objs] are the objects of the pool.
    What the kernel has not taken from the receive queue stays there. *)
Definition kni_release_queues (objs : list nat) : M (kni_world P) unit :=
  w ← gets kw_queues;
  kni_free_fifo_phy (Z.to_nat (f_len (alloc_q w))) objs ;;
  kni_free_fifo (Z.to_nat (f_len (tx_q w))) tx_q set_tx ;;
  kni_free_fifo (Z.to_nat (f_len (free_q w))) free_q set_freeq.
End Drain.
