(* ===== verification/RteKniSpec.v ===== *)
(** A KNI device owns its buffers: whatever the process and the kernel do, and in
    whatever order, every buffer is in exactly one place, and packets arrive in the
    order in which they were sent. *)
From Stdlib Require Import ZArith Lia.
From stdpp Require Import base numbers list gmap relations.
From S2P Require Import Prelude Ring Mbuf MbufSpec MbufPool KniFifo RteKni.

#[local] Open Scope Z_scope.

Section Owner.
Context {P : Type} `{MempoolLaws P} (buf_delta kva_delta : nat -> Z) (mp : nat).
Implicit Types w : kni_world P.

Abbreviation va2pa := (va2pa buf_delta).
Abbreviation pa2va := (pa2va kva_delta).

(** The process and the kernel see the same buffer at [m]. *)
Definition same_buffer (m : nat) : Prop :=
  0 <= Z.of_nat m - buf_delta m /\ kva_delta (va2pa m) = buf_delta m.

Lemma pa2va_va2pa m : same_buffer m -> pa2va (va2pa m) = m.
Proof. intros [Hpos E]. unfold RteKni.pa2va. rewrite E. unfold RteKni.va2pa. lia. Qed.

Lemma va_list l : Forall same_buffer l -> pa2va <$> (va2pa <$> l) = l.
Proof. induction 1 as [|m l Hm _ IH]; [done|]. cbn [fmap list_fmap]. by rewrite IH, pa2va_va2pa. Qed.

(** ** Where the buffers are *)

(** The contents of the four queues (as virtual addresses), and the buffers the
    process holds. *)
Record places := Places { pl_app : list nat; pl_rx : list nat; pl_free : list nat; pl_alloc : list nat; pl_tx : list nat }.

Definition outside (l : places) : list nat := pl_app l ++ pl_rx l ++ pl_free l ++ pl_alloc l ++ pl_tx l.

(** The memory: the buffers outside and those in the pool are all there are. *)
Record mem_inv (s : mem P) (total out : list nat) : Prop := {
  mi_held : held s mp total out;
  mi_addr : Forall same_buffer total
}.

Record kni_inv w (total : list nat) (l : places) : Prop := {
  ki_mem : mem_inv (kw_mem w) total (outside l);
  ki_rx : fifo_rep (rx_q (kw_queues w)) (va2pa <$> pl_rx l);
  ki_free : fifo_rep (free_q (kw_queues w)) (pl_free l);
  ki_alloc : fifo_rep (alloc_q (kw_queues w)) (va2pa <$> pl_alloc l);
  ki_tx : fifo_rep (tx_q (kw_queues w)) (pl_tx l)
}.

Lemma mem_inv_perm s total out out' : out ≡ₚ out' -> mem_inv s total out -> mem_inv s total out'.
Proof. intros Hp [Hh Ha]. split; [by eapply held_perm|done]. Qed.

(** What is outside is in the total. *)
Lemma mem_inv_out s total out m : mem_inv s total out -> m ∈ out -> m ∈ total /\ single s mp m /\ same_buffer m.
Proof.
  intros [Hh Ha] Hm. destruct (held_out _ _ _ _ m Hh Hm). rewrite Forall_forall in Ha. auto.
Qed.

Lemma out_addr s total l k : mem_inv s total l -> k ⊆ l -> Forall same_buffer k.
Proof. intros Hi Hk. apply Forall_forall. intros m Hm. apply (mem_inv_out _ _ _ m Hi). by apply Hk. Qed.

(** Freeing buffers from outside. *)
Lemma free_out s total l rest :
  mem_inv s total (l ++ rest) -> exists s', free_each l s = Ret (tt, s') /\ mem_inv s' total rest.
Proof. intros [Hh Ha]. destruct (free_held _ _ _ _ _ Hh) as (s' & E & Hs' & _). exists s'. by split. Qed.

(** Allocating a buffer. *)
Lemma alloc_out s total out :
  mem_inv s total out ->
  exists r s', rte_pktmbuf_alloc mp s = Ret (r, s') /\
    match r with None => mem_inv s' total out | Some m => mem_inv s' total (m :: out) end.
Proof. intros [Hh Ha]. destruct (alloc_held _ _ _ _ Hh) as (r & s' & E & Hs'). exists r, s'. split; [done|]. by destruct r. Qed.

(** ** The operations *)

(** The sizes of the queues do not change. *)
Definition lens w : list Z :=
  let q := kw_queues w in [f_len (tx_q q); f_len (rx_q q); f_len (alloc_q q); f_len (free_q q)].

(** The number of packets the receive queue can take. *)
Definition rx_room w (l : places) : Z := f_len (rx_q (kw_queues w)) - 1 - Z.of_nat (length (pl_rx l)).

Lemma on_mem_ret {A} (m : M (mem P) A) w a s :
  m (kw_mem w) = Ret (a, s) -> on_mem m w = Ret (a, KW (kw_queues w) s (kw_stats w)).
Proof. intros E. unfold on_mem. by rewrite E. Qed.

Lemma free_mbufs_spec w total l :
  kni_inv w total l ->
  exists w', kni_free_mbufs w = Ret (tt, w') /\ lens w' = lens w /\
    kni_inv w' total (Places (pl_app l) (pl_rx l) (drop 32 (pl_free l)) (pl_alloc l) (pl_tx l)).
Proof.
  intros [Hm Hrx Hfr Hal Htx]. destruct (fifo_get_spec _ _ 32 Hfr) as (f & E & Hf & Hlen).
  unfold kni_free_mbufs, mbind, M_bind, on_free, on_queue. change (Z.to_nat MAX_MBUF_BURST_NUM) with 32%nat. rewrite E.
  destruct (free_out (kw_mem w) total (take 32 (pl_free l))
    (outside (Places (pl_app l) (pl_rx l) (drop 32 (pl_free l)) (pl_alloc l) (pl_tx l)))) as (s' & Es & Hs').
  { eapply mem_inv_perm; [|exact Hm]. unfold outside. cbn [pl_app pl_rx pl_free pl_alloc pl_tx].
    rewrite <- (take_drop 32 (pl_free l)) at 1. solve_Permutation. }
  erewrite on_mem_ret by exact Es. eexists. split; [reflexivity|].
  split; [unfold lens; cbn; by rewrite Hlen|]. by split.
Qed.

Lemma tx_burst_spec w total l mbufs rest :
  kni_inv w total l -> pl_app l ≡ₚ mbufs ++ rest ->
  let n := Z.to_nat (Z.min (Z.of_nat (length mbufs)) (rx_room w l)) in
  exists w', rte_kni_tx_burst buf_delta mbufs w = Ret (Z.of_nat n, w') /\ lens w' = lens w /\
    kni_inv w' total (Places (drop n mbufs ++ rest) (pl_rx l ++ take n mbufs) (drop 32 (pl_free l)) (pl_alloc l) (pl_tx l)).
Proof.
  intros [Hm Hrx Hfr Hal Htx] Happ n. destruct (fifo_put_spec _ _ (va2pa <$> mbufs) Hrx) as (f & E & Hf & Hlen).
  rewrite !length_fmap in E, Hf. fold (rx_room w l) in E, Hf. fold n in E, Hf.
  unfold rte_kni_tx_burst, mbind, M_bind, on_rx, on_queue. rewrite E.
  set (w1 := KW _ _ _). rewrite <- fmap_take, <- fmap_app in Hf.
  destruct (free_mbufs_spec w1 total (Places (drop n mbufs ++ rest) (pl_rx l ++ take n mbufs) (pl_free l) (pl_alloc l) (pl_tx l)))
    as (w2 & E2 & Hl2 & Hi2).
  - split; [|done..]. cbn [w1 kw_mem]. eapply mem_inv_perm; [|exact Hm]. unfold outside. cbn [pl_app pl_rx pl_free pl_alloc pl_tx].
    rewrite Happ, <- (take_drop n mbufs) at 1. solve_Permutation.
  - rewrite E2. exists w2. split_and!; [done| |done]. rewrite Hl2. unfold lens, w1. cbn. by rewrite Hlen.
Qed.

Lemma alloc_pkts_spec n : forall w total out,
  mem_inv (kw_mem w) total out ->
  exists l s, alloc_pkts mp n w = Ret (l, KW (kw_queues w) s (kw_stats w)) /\ mem_inv s total (l ++ out) /\ (length l <= n)%nat.
Proof.
  induction n as [|n IH]; intros w total out Hi; cbn [alloc_pkts].
  - exists [], (kw_mem w). split_and!; [by destruct w|done|done].
  - destruct (alloc_out _ _ _ Hi) as (r & s & E & Hr). unfold mbind, M_bind. erewrite on_mem_ret by exact E.
    destruct r as [m|]; [|exists [], s; split_and!; [done|done|cbn; lia]].
    destruct (IH (KW (kw_queues w) s (kw_stats w)) total (m :: out) Hr) as (l & s' & E' & Hi' & Hlen).
    rewrite E'. exists (m :: l), s'. split_and!; [done| |cbn; lia].
    eapply mem_inv_perm; [|exact Hi']. cbn. by rewrite Permutation_middle.
Qed.

Lemma allocate_mbufs_spec w total l :
  kni_inv w total l ->
  exists w' extra, kni_allocate_mbufs buf_delta (Some mp) w = Ret (tt, w') /\ lens w' = lens w /\
    kni_inv w' total (Places (pl_app l) (pl_rx l) (pl_free l) (pl_alloc l ++ extra) (pl_tx l)).
Proof.
  intros [Hm Hrx Hfr Hal Htx]. unfold kni_allocate_mbufs, mbind, M_bind, gets.
  set (k := Z.to_nat (Z.land _ _)). destruct (alloc_pkts_spec k w total _ Hm) as (pkts & s & E & Hi & Hk). rewrite E.
  assert (k < 32)%nat as Hk32.
  { unfold k, MAX_MBUF_BURST_NUM. change (32 - 1) with (Z.ones 5). rewrite Z.land_ones by lia.
    pose proof (Z.mod_pos_bound (u32 (f_read (alloc_q (kw_queues w)) - f_write (alloc_q (kw_queues w)) - 1)) (2 ^ 5)). lia. }
  destruct (Z.leb_spec (Z.of_nat (length pkts)) 0).
  { destruct pkts; [|cbn in *; lia]. exists (KW (kw_queues w) s (kw_stats w)), []. rewrite app_nil_r. split_and!; [done..|].
    by split; cbn. }
  destruct (fifo_put_spec _ _ (va2pa <$> pkts) Hal) as (f & Ep & Hf & Hlen). rewrite !length_fmap in Ep, Hf.
  set (n := Z.to_nat _) in Ep, Hf. unfold on_alloc, on_queue. cbn [kw_queues]. rewrite Ep. cbn [kw_mem kw_stats kw_queues].
  rewrite <- fmap_take, <- fmap_app in Hf.
  set (w1 := KW _ _ _). set (l1 := Places (pl_app l) (pl_rx l) (pl_free l) (pl_alloc l ++ take n pkts) (pl_tx l)).
  assert (mem_inv s total (drop n pkts ++ outside l1)) as Hi1.
  { eapply mem_inv_perm; [|exact Hi]. unfold outside, l1. cbn [pl_app pl_rx pl_free pl_alloc pl_tx].
    rewrite <- (take_drop n pkts) at 1. solve_Permutation. }
  destruct (Z.ltb_spec (Z.of_nat n) (Z.of_nat (length pkts))), (Z.leb_spec 0 (Z.of_nat n)),
    (Z.ltb_spec (Z.of_nat n) MAX_MBUF_BURST_NUM); cbn [andb]; unfold MAX_MBUF_BURST_NUM in *; try lia.
  2: { rewrite drop_ge in Hi1 by lia. exists w1, (take n pkts). split_and!; [done|unfold lens, w1; cbn; by rewrite Hlen|]. by split. }
  rewrite Nat2Z.id. destruct (free_out _ _ _ _ Hi1) as (s' & Es & Hs'). erewrite on_mem_ret by exact Es.
  eexists _, (take n pkts). split; [reflexivity|]. split; [unfold lens; cbn; by rewrite Hlen|]. by split.
Qed.

Lemma rx_burst_spec w total l num :
  kni_inv w total l ->
  exists w' extra, rte_kni_rx_burst buf_delta (Some mp) num w = Ret (take num (pl_tx l), w') /\ lens w' = lens w /\
    kni_inv w' total (Places (take num (pl_tx l) ++ pl_app l) (pl_rx l) (pl_free l) (pl_alloc l ++ extra) (drop num (pl_tx l))).
Proof.
  intros [Hm Hrx Hfr Hal Htx]. destruct (fifo_get_spec _ _ num Htx) as (f & E & Hf & Hlen).
  unfold rte_kni_rx_burst, mbind, M_bind, on_tx, on_queue, mret, M_ret. rewrite E.
  set (w1 := KW _ _ _). set (l1 := Places (take num (pl_tx l) ++ pl_app l) (pl_rx l) (pl_free l) (pl_alloc l) (drop num (pl_tx l))).
  assert (kni_inv w1 total l1) as Hi1.
  { split; [|done..]. eapply mem_inv_perm; [|exact Hm]. unfold outside, l1. cbn [pl_app pl_rx pl_free pl_alloc pl_tx].
    rewrite <- (take_drop num (pl_tx l)) at 1. solve_Permutation. }
  assert (lens w1 = lens w) as Hl1 by (unfold lens, w1; cbn; by rewrite Hlen).
  destruct (0 <? length (take num (pl_tx l)))%nat.
  - destruct (allocate_mbufs_spec w1 total l1 Hi1) as (w2 & extra & E2 & Hl2 & Hi2). rewrite E2.
    exists w2, extra. split_and!; [done|congruence|done].
  - exists w1, []. rewrite app_nil_r. by split_and!.
Qed.

Lemma deliver_spec skb vs : forall i w total out,
  mem_inv (kw_mem w) total out -> vs ⊆ out ->
  exists st, deliver kva_delta skb i (va2pa <$> vs) w = Ret (vs, KW (kw_queues w) (kw_mem w) st).
Proof.
  induction vs as [|v vs IH]; intros i w total out Hi Hsub; cbn [fmap list_fmap deliver].
  - exists (kw_stats w). by destruct w.
  - destruct (mem_inv_out _ _ _ v Hi ltac:(set_solver)) as (_ & (b & Hb & _) & Hsame).
    rewrite (pa2va_va2pa v Hsame). unfold mbind, M_bind, gets, set_stats, modify, mret, M_ret.
    erewrite on_mem_ret by (unfold load_mbuf; rewrite Hb; reflexivity). cbn [kw_stats kw_queues kw_mem].
    set (st := if skb i then _ else _).
    destruct (IH (S i) (KW (kw_queues w) (kw_mem w) st) total out Hi ltac:(set_solver)) as (st' & E).
    cbn [fmap] in E. rewrite E. by exists st'.
Qed.

Lemma kernel_rx_spec w total l skb :
  kni_inv w total l ->
  let n := Z.to_nat (Z.min (kni_fifo_free_count (free_q (kw_queues w))) MBUF_BURST_SZ) in
  exists w', kni_net_rx_normal kva_delta skb w = Ret (take n (pl_rx l), w') /\ lens w' = lens w /\
    kni_inv w' total (Places (pl_app l) (drop n (pl_rx l)) (pl_free l ++ take n (pl_rx l)) (pl_alloc l) (pl_tx l)).
Proof.
  intros Hinv n. pose proof Hinv as [Hm Hrx Hfr Hal Htx].
  unfold kni_net_rx_normal, mbind, M_bind, gets, mret, M_ret.
  pose proof (fifo_free_spec _ _ Hfr) as Hfree. pose proof (fq_fit _ _ Hfr) as Hfit.
  destruct (Z.eqb_spec (kni_fifo_free_count (free_q (kw_queues w))) 0) as [E0|E0].
  { assert (n = 0%nat) as -> by (subst n; rewrite E0; done). exists w. rewrite drop_0, take_0, app_nil_r.
    split_and!; [done..|by split]. }
  fold n. destruct (fifo_get_spec _ _ n Hrx) as (f & E & Hf & Hlen). unfold on_rx, on_queue. rewrite E.
  rewrite <- fmap_take, <- fmap_drop in *. rewrite length_fmap.
  destruct (Nat.eqb_spec (length (take n (pl_rx l))) 0) as [Enil|Enil].
  { assert (take n (pl_rx l) = []) as Ht by (by apply nil_length_inv).
    eexists. rewrite Ht, app_nil_r. split; [reflexivity|]. split; [unfold lens; cbn; by rewrite Hlen|].
    split; cbn; try done. eapply mem_inv_perm; [|exact Hm]. unfold outside. cbn [pl_app pl_rx pl_free pl_alloc pl_tx].
    rewrite <- (take_drop n (pl_rx l)), Ht at 1. done. }
  set (w1 := KW _ _ _). destruct (deliver_spec skb (take n (pl_rx l)) 0 w1 total (outside l) Hm) as (st & Ed).
  { unfold outside. assert (take n (pl_rx l) ⊆ pl_rx l) by (rewrite <- (take_drop n (pl_rx l)) at 2; set_solver). set_solver. }
  rewrite Ed. cbn [w1 kw_queues kw_mem].
  destruct (fifo_put_spec _ _ (take n (pl_rx l)) Hfr) as (f2 & E2 & Hf2 & Hlen2).
  unfold on_free, on_queue. cbn [kw_queues free_q set_rx]. rewrite E2.
  eexists. split; [reflexivity|]. split; [unfold lens; cbn; by rewrite Hlen, Hlen2|].
  split; cbn; try done.
  - eapply mem_inv_perm; [|exact Hm]. unfold outside. cbn [pl_app pl_rx pl_free pl_alloc pl_tx].
    rewrite <- (take_drop n (pl_rx l)) at 1. solve_Permutation.
  - replace (take (Z.to_nat _) (take n (pl_rx l))) with (take n (pl_rx l)) in Hf2; [done|].
    symmetry. apply take_ge. pose proof (length_take (pl_rx l) n). subst n. rewrite Hfree in *. unfold MBUF_BURST_SZ in *. lia.
Qed.

Lemma kernel_tx_spec w total l mbuf_size len :
  kni_inv w total l ->
  exists out w', kni_net_tx kva_delta mbuf_size len w = Ret (out, w') /\ lens w' = lens w /\
    kni_inv w' total (Places (pl_app l) (pl_rx l) (pl_free l) (drop (length out) (pl_alloc l)) (pl_tx l ++ out)) /\
    out = take (length out) (pl_alloc l) /\ (length out <= 1)%nat.
Proof.
  intros Hinv. pose proof Hinv as [Hm Hrx Hfr Hal Htx].
  assert (exists w', tx_drop w = Ret ([], w') /\ lens w' = lens w /\
    kni_inv w' total (Places (pl_app l) (pl_rx l) (pl_free l) (pl_alloc l) (pl_tx l ++ []))) as (wd & Ed & Hld & Hid).
  { eexists. split; [reflexivity|]. split; [done|]. rewrite app_nil_r. by split. }
  unfold kni_net_tx. destruct (mbuf_size <? len); [exists [], wd; by split_and!; [..|cbn; lia]|].
  unfold mbind, M_bind, gets, mret, M_ret.
  rewrite (fifo_free_spec _ _ Htx), (fifo_count_spec _ _ Hal), length_fmap.
  destruct (Z.eqb_spec (f_len (tx_q (kw_queues w)) - 1 - Z.of_nat (length (pl_tx l))) 0) as [|Hroom]; cbn [orb];
    [exists [], wd; by split_and!; [..|cbn; lia]|].
  destruct (Z.eqb_spec (Z.of_nat (length (pl_alloc l))) 0) as [|Hne]; [exists [], wd; by split_and!; [..|cbn; lia]|].
  destruct (pl_alloc l) as [|m al] eqn:Eal; [done|].
  destruct (fifo_get_spec _ _ 1 Hal) as (f & E & Hf & Hlen). cbn [fmap list_fmap] in E, Hf.
  rewrite firstn_cons, take_0 in E. rewrite skipn_cons, drop_0 in Hf.
  unfold on_alloc, on_queue. rewrite E.
  destruct (mem_inv_out _ _ _ m Hm) as (Hin & (b & Hb & Hnx & Hd & Hr & Hmp) & Hsame); [unfold outside; rewrite Eal; set_solver|].
  cbv zeta. rewrite (pa2va_va2pa m Hsame). set (len' := if len <? ETH_ZLEN then ETH_ZLEN else len).
  set (b' := set_data_len (u16 len') (set_pkt_len (u32 len') b)).
  erewrite on_mem_ret by (unfold upd_mbuf; cbn [kw_mem]; rewrite Hb; reflexivity). cbn [kw_queues kw_stats].
  destruct (fifo_put_spec _ _ [m] Htx) as (f2 & E2 & Hf2 & Hlen2).
  pose proof (fq_fit _ _ Htx). set (n := Z.to_nat _) in E2, Hf2. assert (n = 1%nat) as Hn by (subst n; cbn; lia).
  clearbody n. subst n. unfold on_tx, on_queue. cbn [kw_queues tx_q set_alloc]. rewrite E2. cbn [negb Z.eqb Z.of_nat Pos.of_succ_nat Pos.eqb].
  eexists [m], _. split; [reflexivity|]. split; [unfold lens; cbn; by rewrite Hlen, Hlen2|]. split; [|done].
  split; cbn; try done. destruct Hm as [[(p & Hpool & Hperm & Hrm) Hnd Hs] Ha]. split; [|done]. split; [|done|].
  - exists p. cbn [pools]. assert (outside (Places (pl_app l) (pl_rx l) (pl_free l) al (pl_tx l ++ [m])) ≡ₚ outside l) as Ho.
    { unfold outside. cbn [pl_app pl_rx pl_free pl_alloc pl_tx]. rewrite Eal. solve_Permutation. }
    rewrite Ho. done.
  - eapply Forall_impl; [exact Hs|]. intros x (bx & Hbx & ?). unfold single. cbn [mbufs].
    destruct (decide (x = m)) as [->|]; [|rewrite lookup_insert_ne by done; by exists bx].
    exists b'. rewrite lookup_insert_eq. by split_and!.
Qed.

(** ** Every sequence of operations *)

(** The buffers the process holds, and the packets handed over so far, in order: sent
    to the kernel and delivered by it, filled by the kernel and received. *)
Record ghost := Ghost {
  g_app : list nat; g_sent : list nat; g_delivered : list nat; g_filled : list nat; g_received : list nat
}.

(** One call: by the process, which only passes buffers it holds, or in the kernel. *)
Inductive kni_step : kni_world P * ghost -> kni_world P * ghost -> Prop :=
| step_tx w g mbufs rest n w' :
    g_app g ≡ₚ mbufs ++ rest -> rte_kni_tx_burst buf_delta mbufs w = Ret (n, w') ->
    kni_step (w, g) (w', Ghost (drop (Z.to_nat n) mbufs ++ rest) (g_sent g ++ take (Z.to_nat n) mbufs) (g_delivered g)
                           (g_filled g) (g_received g))
| step_rx w g num l w' :
    rte_kni_rx_burst buf_delta (Some mp) num w = Ret (l, w') ->
    kni_step (w, g) (w', Ghost (l ++ g_app g) (g_sent g) (g_delivered g) (g_filled g) (g_received g ++ l))
| step_kernel_rx w g skb l w' :
    kni_net_rx_normal kva_delta skb w = Ret (l, w') ->
    kni_step (w, g) (w', Ghost (g_app g) (g_sent g) (g_delivered g ++ l) (g_filled g) (g_received g))
| step_kernel_tx w g mbuf_size len l w' :
    kni_net_tx kva_delta mbuf_size len w = Ret (l, w') ->
    kni_step (w, g) (w', Ghost (g_app g) (g_sent g) (g_delivered g) (g_filled g ++ l) (g_received g))
| step_alloc w g m w' :
    on_mem (rte_pktmbuf_alloc mp) w = Ret (Some m, w') ->
    kni_step (w, g) (w', Ghost (m :: g_app g) (g_sent g) (g_delivered g) (g_filled g) (g_received g))
| step_free w g l rest w' :
    g_app g ≡ₚ l ++ rest -> on_mem (free_each l) w = Ret (tt, w') ->
    kni_step (w, g) (w', Ghost rest (g_sent g) (g_delivered g) (g_filled g) (g_received g)).

(** Every buffer is in one place, and the queues hold what is on its way. *)
Definition kni_good (total : list nat) (st : kni_world P * ghost) : Prop :=
  exists l, kni_inv st.1 total l /\ pl_app l = g_app st.2 /\
    g_sent st.2 = g_delivered st.2 ++ pl_rx l /\ g_filled st.2 = g_received st.2 ++ pl_tx l.

(** No call faults. *)
Definition kni_runs (st : kni_world P * ghost) : Prop :=
  (forall mbufs rest, g_app st.2 ≡ₚ mbufs ++ rest -> exists r, rte_kni_tx_burst buf_delta mbufs st.1 = Ret r) /\
  (forall num, exists r, rte_kni_rx_burst buf_delta (Some mp) num st.1 = Ret r) /\
  (forall skb, exists r, kni_net_rx_normal kva_delta skb st.1 = Ret r) /\
  (forall mbuf_size len, exists r, kni_net_tx kva_delta mbuf_size len st.1 = Ret r) /\
  (exists r, on_mem (rte_pktmbuf_alloc mp) st.1 = Ret r) /\
  (forall l rest, g_app st.2 ≡ₚ l ++ rest -> exists r, on_mem (free_each l) st.1 = Ret r).

Lemma mem_step w s total l l' :
  kni_inv w total l -> mem_inv s total (outside l') ->
  pl_rx l' = pl_rx l -> pl_free l' = pl_free l -> pl_alloc l' = pl_alloc l -> pl_tx l' = pl_tx l ->
  kni_inv (KW (kw_queues w) s (kw_stats w)) total l'.
Proof. intros [? ? ? ? ?] ? E1 E2 E3 E4. split; cbn; by rewrite ?E1, ?E2, ?E3, ?E4. Qed.

Lemma kni_good_runs total st : kni_good total st -> kni_runs st.
Proof.
  destruct st as [w g]. intros (l & Hi & Happ & _ & _). cbn [fst snd] in *. unfold kni_runs. cbn [fst snd]. rewrite <- Happ.
  split_and!.
  - intros mbufs rest Hp. destruct (tx_burst_spec w total l mbufs rest Hi Hp) as (w' & -> & _). by eexists.
  - intros num. destruct (rx_burst_spec w total l num Hi) as (w' & x & -> & _). by eexists.
  - intros skb. destruct (kernel_rx_spec w total l skb Hi) as (w' & -> & _). by eexists.
  - intros sz len. destruct (kernel_tx_spec w total l sz len Hi) as (out & w' & -> & _). by eexists.
  - destruct (alloc_out _ _ _ (ki_mem _ _ _ Hi)) as (r & s & E & _). erewrite on_mem_ret by exact E. by eexists.
  - intros k rest Hp. destruct (free_out (kw_mem w) total k (outside (Places rest (pl_rx l) (pl_free l) (pl_alloc l) (pl_tx l))))
      as (s & E & _); [|erewrite on_mem_ret by exact E; by eexists].
    eapply mem_inv_perm; [|exact (ki_mem _ _ _ Hi)]. unfold outside. cbn [pl_app pl_rx pl_free pl_alloc pl_tx]. rewrite Hp.
    solve_Permutation.
Qed.

Lemma kni_step_good total st st' : kni_step st st' -> kni_good total st -> kni_good total st'.
Proof.
  intros Hstep (l & Hi & Happ & Hsent & Hfill). destruct Hstep as [w g mbufs rest n w' Hp E|w g num k w' E|w g skb k w' E|w g sz len k w' E|w g m w' E|w g k rest w' Hp E];
    cbn [fst snd] in *; rewrite <- ?Happ in *.
  - destruct (tx_burst_spec w total l mbufs rest Hi Hp) as (w1 & E1 & _ & Hi1). rewrite E in E1. injection E1 as -> ->.
    rewrite Nat2Z.id. eexists. split; [exact Hi1|]. cbn. by rewrite Hsent, app_assoc.
  - destruct (rx_burst_spec w total l num Hi) as (w1 & x & E1 & _ & Hi1). rewrite E in E1. injection E1 as -> ->.
    eexists. split; [exact Hi1|]. cbn. by rewrite Hfill, <- app_assoc, take_drop.
  - destruct (kernel_rx_spec w total l skb Hi) as (w1 & E1 & _ & Hi1). rewrite E in E1. injection E1 as -> ->.
    eexists. split; [exact Hi1|]. cbn. by rewrite Hsent, <- app_assoc, take_drop.
  - destruct (kernel_tx_spec w total l sz len Hi) as (out & w1 & E1 & _ & Hi1 & _). rewrite E in E1. injection E1 as -> ->.
    eexists. split; [exact Hi1|]. cbn. by rewrite Hfill, app_assoc.
  - destruct (alloc_out _ _ _ (ki_mem _ _ _ Hi)) as (r & s & E1 & Hr). erewrite on_mem_ret in E by exact E1.
    injection E as -> <-. exists (Places (m :: pl_app l) (pl_rx l) (pl_free l) (pl_alloc l) (pl_tx l)).
    split; [by eapply mem_step; [exact Hi|exact Hr|..]|done].
  - destruct (free_out (kw_mem w) total k (outside (Places rest (pl_rx l) (pl_free l) (pl_alloc l) (pl_tx l)))) as (s & E1 & Hs).
    { eapply mem_inv_perm; [|exact (ki_mem _ _ _ Hi)]. unfold outside. cbn [pl_app pl_rx pl_free pl_alloc pl_tx]. rewrite Hp.
      solve_Permutation. }
    erewrite on_mem_ret in E by exact E1. injection E as <-. eexists. split; [by eapply mem_step; [exact Hi|exact Hs|..]|done].
Qed.


(** ** Releasing a device *)

(** One of the queues: what is read after a write. *)
Record queue_lens (get : kni_queues -> rte_kni_fifo) (set : rte_kni_fifo -> kni_queues -> kni_queues) : Prop := {
  ql_get f q : get (set f q) = f;
  ql_set f f' q : set f' (set f q) = set f' q;
  ql_same q : set (get q) q = q
}.

Lemma free_single_out s total m rest :
  mem_inv s total (m :: rest) -> exists s', rte_pktmbuf_free (Some m) s = Ret (tt, s') /\ mem_inv s' total rest.
Proof.
  intros Hi. destruct (free_out s total [m] rest Hi) as (s' & E & Hs). exists s'. split; [|done].
  cbn [free_each] in E. unfold mbind, M_bind, mret, M_ret in E.
  by destruct (rte_pktmbuf_free (Some m) s) as [[[] s1]| |].
Qed.

Lemma drain_spec get set : queue_lens get set -> forall q fuel w total rest,
  fifo_rep (get (kw_queues w)) q -> mem_inv (kw_mem w) total (q ++ rest) -> (length q <= fuel)%nat ->
  exists f s, kni_free_fifo fuel get set w = Ret (tt, KW (set f (kw_queues w)) s (kw_stats w)) /\
    fifo_rep f [] /\ mem_inv s total rest /\ f_len f = f_len (get (kw_queues w)).
Proof.
  intros [Hgs Hss Hid]. induction q as [|m q IH]; intros fuel w total rest Hr Hm Hf;
    destruct (fifo_get_spec _ _ 1 Hr) as (f & E & Hrep & Hlen);
    destruct fuel as [|fuel]; cbn [kni_free_fifo]; unfold mbind at 1, M_bind, on_queue; rewrite E;
    try (by eexists f, _; split_and!; [reflexivity|..]); [cbn in Hf; lia|].
  change (take 1 (m :: q)) with [m]. rewrite skipn_cons, drop_0 in Hrep.
  destruct (free_single_out _ _ _ _ Hm) as (s & Es & Hs). unfold mbind, M_bind.
  erewrite on_mem_ret by exact Es. cbn [kw_queues kw_stats].
  destruct (IH fuel (KW (set f (kw_queues w)) s (kw_stats w)) total rest) as (f' & s' & E' & Hf' & Hs' & Hl'); cbn [kw_queues kw_mem];
    [by rewrite Hgs|done|cbn in Hf; lia|]. cbn [kw_queues kw_stats] in E', Hl'. rewrite Hss in E'. rewrite E'. rewrite Hgs in Hl'.
  exists f', s'. split_and!; [done..|congruence].
Qed.

(** The callback finds the buffer with this physical address. *)
Lemma obj_free_other objs pa w : (forall x, x ∈ objs -> va2pa x <> pa) -> obj_free_all buf_delta objs pa w = Ret (tt, w).
Proof.
  induction objs as [|x objs IH]; intros Hne; cbn [obj_free_all]; [done|]. unfold mbind, M_bind, mret, M_ret.
  destruct (Nat.eqb_spec (va2pa x) pa) as [E|_]; [exfalso; by apply (Hne x); [set_solver|]|]. apply IH. set_solver.
Qed.

Lemma obj_free_self objs m w :
  NoDup objs -> Forall same_buffer objs -> m ∈ objs -> obj_free_all buf_delta objs (va2pa m) w = on_mem (rte_pktmbuf_free (Some m)) w.
Proof.
  intros Hnd Hall. revert w. induction objs as [|x objs IH]; intros w Hin; [set_solver|].
  pose proof Hall as Hall0. rewrite Forall_forall in Hall0.
  apply NoDup_cons in Hnd as [Hx Hnd]. apply Forall_cons in Hall as [Hsx Hall].
  cbn [obj_free_all]. unfold mbind, M_bind, mret, M_ret. destruct (Nat.eqb_spec (va2pa x) (va2pa m)) as [E|E].
  - assert (x = m) as -> by (rewrite <- (pa2va_va2pa x), <- (pa2va_va2pa m), E by auto; done).
    destruct (on_mem (rte_pktmbuf_free (Some m)) w) as [[[] w1]| |]; try done. apply obj_free_other.
    intros y Hy Ey. apply Hx. rewrite <- (pa2va_va2pa m), <- Ey, pa2va_va2pa by (apply Hall0; set_solver). done.
  - apply IH; [done|done|]. set_solver.
Qed.

Lemma drain_phy_spec objs : forall k fuel w total rest,
  fifo_rep (alloc_q (kw_queues w)) (va2pa <$> k) -> mem_inv (kw_mem w) total (k ++ rest) -> objs ≡ₚ total ->
  (length k <= fuel)%nat ->
  exists f s, kni_free_fifo_phy buf_delta fuel objs w = Ret (tt, KW (set_alloc f (kw_queues w)) s (kw_stats w)) /\
    fifo_rep f [] /\ mem_inv s total rest /\ f_len f = f_len (alloc_q (kw_queues w)).
Proof.
  induction k as [|m k IH]; intros fuel w total rest Hr Hm Ho Hf;
    destruct (fifo_get_spec _ _ 1 Hr) as (f & E & Hrep & Hlen);
    destruct fuel as [|fuel]; cbn [kni_free_fifo_phy]; unfold mbind at 1, M_bind, on_alloc, on_queue; rewrite E;
    try (by eexists f, _; split_and!; [reflexivity|..]); [cbn in Hf; lia|].
  cbn [fmap list_fmap] in *. change (take 1 (va2pa m :: _)) with [va2pa m]. rewrite skipn_cons, drop_0 in Hrep.
  destruct (free_single_out _ _ _ _ Hm) as (s & Es & Hs). unfold mbind, M_bind.
  destruct (mem_inv_out _ _ _ m Hm ltac:(set_solver)) as [Hin _]. destruct Hm as [[_ Hnd _] Ha].
  rewrite obj_free_self by (rewrite Ho; done). erewrite on_mem_ret by exact Es. cbn [kw_queues kw_stats].
  destruct (IH fuel (KW (set_alloc f (kw_queues w)) s (kw_stats w)) total rest) as (f' & s' & E' & Hf' & Hs' & Hl'); cbn [kw_queues kw_mem];
    [done|done|done|cbn in Hf; lia|]. rewrite E'. cbn in Hl'. exists f', s'. split_and!; [done..|congruence].
Qed.

(** Emptying the queues gives the buffers back: those in the allocation queue, found by
    their physical address among the objects of the pool, and those in the transmit and
    the free queue return to the pool, each once; only packets that the kernel has not
    taken from the receive queue stay behind. *)
Lemma release_queues_spec (total objs : list nat) (w : kni_world P) (l : places) :
  kni_inv w total l -> objs ≡ₚ total ->
  exists w', kni_release_queues buf_delta objs w = Ret (tt, w') /\ lens w' = lens w /\
    kni_inv w' total (Places (pl_app l) (pl_rx l) [] [] []).
Proof.
  intros [Hm Hrx Hfr Hal Htx] Ho. unfold kni_release_queues, mbind, M_bind, gets.
  pose proof (fq_fit _ _ Hal) as Ha. rewrite length_fmap in Ha. pose proof (fq_fit _ _ Htx) as Ht. pose proof (fq_fit _ _ Hfr) as Hf.
  destruct (drain_phy_spec objs (pl_alloc l) (Z.to_nat (f_len (alloc_q (kw_queues w)))) w total
    (pl_tx l ++ pl_free l ++ pl_app l ++ pl_rx l)) as (f1 & s1 & -> & Hf1 & Hs1 & Hl1); [done| |done|lia|].
  { eapply mem_inv_perm; [|exact Hm]. unfold outside. solve_Permutation. }
  destruct (drain_spec tx_q set_tx ltac:(by split; intros; destruct q) (pl_tx l) (Z.to_nat (f_len (tx_q (kw_queues w))))
    (KW (set_alloc f1 (kw_queues w)) s1 (kw_stats w)) total (pl_free l ++ pl_app l ++ pl_rx l))
    as (f2 & s2 & -> & Hf2 & Hs2 & Hl2); [done|done|lia|]. cbn [kw_queues kw_stats].
  destruct (drain_spec free_q set_freeq ltac:(by split; intros; destruct q) (pl_free l) (Z.to_nat (f_len (free_q (kw_queues w))))
    (KW (set_tx f2 (set_alloc f1 (kw_queues w))) s2 (kw_stats w)) total (pl_app l ++ pl_rx l))
    as (f3 & s3 & -> & Hf3 & Hs3 & Hl3); [done|done|lia|].
  eexists. split; [reflexivity|]. split; [unfold lens; cbn in *; by rewrite Hl1, Hl2, Hl3|].
  split; cbn; try done. eapply mem_inv_perm; [|exact Hs3]. unfold outside. cbn. by rewrite !app_nil_r.
Qed.
End Owner.

(** ** Requests *)

Section Requests.
Context (sync_addr : nat) (port_id : Z) (change_mtu config_network_if : option (Z -> Z -> Z)).

Abbreviation apply := (apply_request port_id change_mtu config_network_if).
Abbreviation handle := (rte_kni_handle_request sync_addr port_id change_mtu config_network_if).

Lemma send_spec w req q :
  fifo_rep (req_q w) q -> Z.of_nat (length q) < f_len (req_q w) - 1 ->
  exists f, process_request_send sync_addr req w = Ret (0, RW f (resp_q w) req) /\ fifo_rep f (q ++ [sync_addr]) /\
    f_len f = f_len (req_q w).
Proof.
  intros Hr Hroom. destruct (fifo_put_spec _ _ [sync_addr] Hr) as (f & E & Hf & Hl).
  set (n := Z.to_nat _) in E, Hf. assert (n = 1%nat) as Hn by (subst n; cbn; lia). clearbody n. subst n.
  exists f. unfold process_request_send, mbind, M_bind, set_sync, modify, on_req. cbn [req_q resp_q sync]. rewrite E. done.
Qed.

Lemma handle_spec w q k :
  fifo_rep (req_q w) (sync_addr :: q) -> fifo_rep (resp_q w) k -> Z.of_nat (length k) < f_len (resp_q w) - 1 ->
  exists f g, handle w = Ret (0, RW f g (apply (sync w))) /\ fifo_rep f q /\ fifo_rep g (k ++ [sync_addr]) /\
    f_len f = f_len (req_q w) /\ f_len g = f_len (resp_q w).
Proof.
  intros Hr Hk Hroom. destruct (fifo_get_spec _ _ 1 Hr) as (f & E & Hf & Hl).
  change (take 1 (sync_addr :: q)) with [sync_addr] in E. rewrite skipn_cons, drop_0 in Hf.
  destruct (fifo_put_spec _ _ [sync_addr] Hk) as (g & E2 & Hg & Hl2).
  set (n := Z.to_nat _) in E2, Hg. assert (n = 1%nat) as Hn by (subst n; cbn; lia). clearbody n. subst n.
  exists f, g. unfold rte_kni_handle_request, mbind, M_bind, on_req, gets, set_sync, modify, mret, M_ret. rewrite E.
  rewrite Nat.eqb_refl. cbn [negb sync]. unfold on_resp. cbn [resp_q req_q sync]. rewrite E2. by split_and!.
Qed.

Lemma wait_spec w req k :
  fifo_rep (resp_q w) (sync_addr :: k) ->
  exists g, process_request_wait sync_addr false req w = Ret ((0, sync w), RW (req_q w) g (sync w)) /\ fifo_rep g k /\
    f_len g = f_len (resp_q w).
Proof.
  intros Hr. destruct (fifo_get_spec _ _ 1 Hr) as (g & E & Hg & Hl).
  change (take 1 (sync_addr :: k)) with [sync_addr] in E. rewrite skipn_cons, drop_0 in Hg.
  exists g. unfold process_request_wait, mbind, M_bind, on_resp, gets, mret, M_ret. rewrite E.
  rewrite Nat.eqb_refl. by split_and!.
Qed.

(** A request of the kernel is answered: sent, handled by the process and taken
    back, it carries the result of the registered callback (or [-EINVAL] for an unknown
    request), and both queues are empty again. *)
Theorem kni_request_roundtrip (w : req_world) (req : rte_kni_request) :
  fifo_rep (req_q w) [] -> fifo_rep (resp_q w) [] ->
  exists w', (_ ← process_request_send sync_addr req; _ ← handle; process_request_wait sync_addr false req) w =
      Ret ((0, apply req), w') /\ fifo_rep (req_q w') [] /\ fifo_rep (resp_q w') [].
Proof.
  intros Hq Hp. pose proof (shape_pos _ (fq_shape _ _ Hq)). pose proof (shape_pos _ (fq_shape _ _ Hp)).
  destruct (send_spec w req [] Hq ltac:(cbn; lia)) as (f1 & E1 & Hf1 & Hl1).
  destruct (handle_spec (RW f1 (resp_q w) req) [] [] Hf1 Hp ltac:(cbn; lia)) as (f2 & g2 & E2 & Hf2 & Hg2 & _ & _).
  destruct (wait_spec (RW f2 g2 (apply req)) req [] Hg2) as (g3 & E3 & Hg3 & _).
  unfold mbind, M_bind. rewrite E1. cbn [sync] in E2. rewrite E2, E3. eexists. split; [reflexivity|]. by split.
Qed.

(** A late answer is taken for the answer to the next request. When the kernel has
    given up waiting for [req1] and the process answers it afterwards, the entry stays
    in the response queue; the next request [req2] finds it at once and returns success
    with the request as it was sent, while the process has not yet seen it. *)
Theorem kni_request_stale (w : req_world) (req1 req2 : rte_kni_request) :
  fifo_rep (req_q w) [] -> fifo_rep (resp_q w) [] ->
  exists w', (_ ← process_request_send sync_addr req1; _ ← process_request_wait sync_addr true req1;
              _ ← rte_kni_handle_request sync_addr port_id change_mtu config_network_if;
              _ ← process_request_send sync_addr req2; process_request_wait sync_addr false req2) w =
      Ret ((0, req2), w') /\ fifo_rep (req_q w') [sync_addr] /\ fifo_rep (resp_q w') [].
Proof.
  intros Hq Hp. pose proof (shape_pos _ (fq_shape _ _ Hq)). pose proof (shape_pos _ (fq_shape _ _ Hp)).
  destruct (send_spec w req1 [] Hq ltac:(cbn; lia)) as (f1 & E1 & Hf1 & Hl1).
  destruct (handle_spec (RW f1 (resp_q w) req1) [] [] Hf1 Hp ltac:(cbn; lia)) as (f2 & g2 & E2 & Hf2 & Hg2 & Hl2 & _).
  destruct (send_spec (RW f2 g2 (apply req1)) req2 [] Hf2 ltac:(cbn in *; lia)) as (f3 & E3 & Hf3 & _).
  destruct (wait_spec (RW f3 g2 req2) req2 [] Hg2) as (g4 & E4 & Hg4 & _).
  unfold mbind, M_bind. rewrite E1. unfold process_request_wait at 1. unfold mret, M_ret. cbn [sync] in E2. rewrite E2, E3.
  cbn [resp_q] in E4 |- *. rewrite E4. eexists. split; [reflexivity|]. by split.
Qed.
End Requests.

(** ** Examples *)

(** A device with queues of four entries. The process holds three buffers, one is in
    the allocation queue, two are in the pool. *)
Definition delta8 (_ : nat) : Z := 8.

Definition kni_bufs : list nat := [20; 21; 22; 23; 24; 25]%nat.

Definition empty4 : rte_kni_fifo := Fifo 0 0 4 [0; 0; 0; 0]%nat.

Definition demo_kni : kni_world (list nat) :=
  KW (KQ empty4 empty4 (Fifo 1 0 4 [15; 0; 0; 0]%nat) empty4)
    (Mem (list_to_map ((fun m => (m, demo_seg 1 1 60 None m)) <$> kni_bufs)) {[0%nat := Pool [24; 25]%nat 2048 0]})
    (KStats 0 0 0 0 0 0).

Definition demo_places : places := Places [20; 21; 22]%nat [] [] [23]%nat [].

Lemma empty4_rep : fifo_rep empty4 [].
Proof. split; [split; cbn; [by exists 2|done|lia]|cbn; lia|done|done]. Qed.

Lemma demo_kni_inv : kni_inv delta8 delta8 0 demo_kni kni_bufs demo_places.
Proof.
  split; [|exact empty4_rep|exact empty4_rep| |exact empty4_rep].
  - split; [split|].
    + eexists. split_and!; [vm_compute; reflexivity|done|done].
    + by apply (bool_decide_unpack _).
    + repeat (constructor; [eexists; split; [vm_compute; reflexivity|done]|]). constructor.
    + repeat (constructor; [split; vm_compute; congruence|]). constructor.
  - split; [split; cbn; [by exists 2|done|lia]|cbn; lia|done|].
    intros [|i] x Hi; [|done]. vm_compute in Hi. injection Hi as <-. reflexivity.
Qed.

Definition demo_ghost : ghost := Ghost [20; 21; 22]%nat [] [] [] [].

Lemma demo_kni_good : kni_good delta8 delta8 0 kni_bufs (demo_kni, demo_ghost).
Proof. exists demo_places. split; [exact demo_kni_inv|done]. Qed.

(** The process sends two packets, the kernel takes them and fills the allocated
    buffer, the process receives it. *)
Lemma demo_kni_run :
  exists st', rtc (kni_step delta8 delta8 0) (demo_kni, demo_ghost) st' /\
    g_delivered st'.2 = [20; 21]%nat /\ g_received st'.2 = [23]%nat.
Proof.
  eexists. split.
  - eapply rtc_l; [eapply (step_tx _ _ _ _ _ [20; 21]%nat [22]%nat); [done|vm_compute; reflexivity]|].
    eapply rtc_l; [eapply (step_kernel_rx _ _ _ _ _ (fun _ => true)); vm_compute; reflexivity|].
    eapply rtc_l; [eapply (step_kernel_tx _ _ _ _ _ 2048 100); vm_compute; reflexivity|].
    eapply rtc_l; [eapply (step_rx _ _ _ _ _ 32); vm_compute; reflexivity|]. apply rtc_refl.
  - split; reflexivity.
Qed.


Definition demo_req : req_world := RW empty4 empty4 (Req 0 0 0).

Lemma kni_request_roundtrip_witness :
  exists w', (_ ← process_request_send 7 (Req 1 1400 0);
              _ ← rte_kni_handle_request 7 3 (Some (fun _ m => m + 1)) None;
              process_request_wait 7 false (Req 1 1400 0)) demo_req = Ret ((0, Req 1 1400 1401), w') /\
    fifo_rep (req_q w') [] /\ fifo_rep (resp_q w') [].
Proof. exact (kni_request_roundtrip 7 3 (Some (fun _ m => m + 1)) None demo_req (Req 1 1400 0) empty4_rep empty4_rep). Defined.

Lemma kni_request_stale_witness :
  exists w', (_ ← process_request_send 7 (Req 1 1400 0);
              _ ← process_request_wait 7 true (Req 1 1400 0);
              _ ← rte_kni_handle_request 7 3 (Some (fun _ m => m + 1)) None;
              _ ← process_request_send 7 (Req 1 9000 0);
              process_request_wait 7 false (Req 1 9000 0)) demo_req = Ret ((0, Req 1 9000 0), w') /\
    fifo_rep (req_q w') [7%nat] /\ fifo_rep (resp_q w') [].
Proof.
  exact (kni_request_stale 7 3 (Some (fun _ m => m + 1)) None demo_req (Req 1 1400 0) (Req 1 9000 0) empty4_rep empty4_rep).
Defined.
