(* ===== verification/KniLink.v ===== *)
(** libmoon's KNI functions on the real device: the queues of librte_kni with a kernel
    thread on the other side provide the interface that kni.c is verified against. *)
From Stdlib Require Import ZArith Lia.
From stdpp Require Import base numbers list gmap.
From S2P Require Import Prelude Ring Mbuf MbufSpec MbufPool KniFifo RteKni RteKniSpec Kni.

#[local] Open Scope Z_scope.

Section Link.
Context {P : Type} `{MempoolLaws P} (buf_delta kva_delta : nat -> Z) (mp : nat) (total : list nat).

(** A device, the packets it accepted so far, and the behaviour of the kernel thread:
    whether it runs before the next bursts; in the end it always does. *)
Record kni_link := Link { lk_world : kni_world P; lk_sent : list nat; lk_sched : list bool }.

Definition kernel_turn (k : kni_link) : M (kni_world P) unit :=
  match lk_sched k with
  | false :: _ => mret tt
  | _ => _ ← kni_net_rx_normal kva_delta (fun _ => true); mret tt
  end.

Definition link_burst (mbufs : list nat) : M kni_link Z := fun k =>
  match (kernel_turn k ;; RteKni.rte_kni_tx_burst buf_delta mbufs) (lk_world k) with
  | Ret (n, w) => Ret (n, Link w (lk_sent k ++ take (Z.to_nat n) mbufs) (drop 1 (lk_sched k)))
  | Fault => Fault
  | Diverge => Diverge
  end.

#[global] Instance link_kni : Kni kni_link := {| kni_tx_burst := link_burst; kni_sent := lk_sent |}.

Definition link_owns (k : kni_link) (mbufs : list nat) : Prop :=
  exists l rest, kni_inv buf_delta kva_delta mp (lk_world k) total l /\ pl_app l ≡ₚ mbufs ++ rest.

(** Nothing is accepted while the kernel thread does not run, and once more when it
    found no room to give buffers back. *)
Definition link_patience (k : kni_link) : nat :=
  (2 * length (lk_sched k) +
   if (kni_fifo_free_count (free_q (kw_queues (lk_world k))) =? 0)%Z then 1 else 0)%nat.

Lemma put_loop_count len rd data : forall w i buf n w' buf',
  fifo_put_loop len rd data w i buf = Some (n, w', buf') -> i <= n <= i + Z.of_nat (length data).
Proof.
  induction data as [|x data IH]; intros w i buf n w' buf' E; cbn [fifo_put_loop] in E.
  - injection E as <- _ _. cbn. lia.
  - destruct (fifo_next len w =? rd); [injection E as <- _ _; cbn; lia|].
    destruct (Z.to_nat w <? length buf)%nat; [|done]. apply IH in E. cbn. lia.
Qed.

Lemma tx_burst_count mbufs w n w' :
  RteKni.rte_kni_tx_burst buf_delta mbufs w = Ret (n, w') -> 0 <= n <= Z.of_nat (length mbufs).
Proof.
  unfold RteKni.rte_kni_tx_burst, mbind, M_bind, on_rx, on_queue, kni_fifo_put, mbind, M_bind, gets, id, modify, mret, M_ret.
  destruct (fifo_put_loop _ _ _ _ _ _) as [[[i wr] buf]|] eqn:E; [|done]. apply put_loop_count in E. rewrite length_fmap in E.
  destruct (kni_free_mbufs _) as [[[] w1]| |]; [|done|done]. intros [= <- _]. lia.
Qed.

(** The kernel's turn leaves the process its buffers; afterwards the receive queue has
    room, unless the kernel did not run or had no room to give buffers back. *)
Lemma kernel_turn_spec k l :
  kni_inv buf_delta kva_delta mp (lk_world k) total l ->
  exists w1 l1, kernel_turn k (lk_world k) = Ret (tt, w1) /\ kni_inv buf_delta kva_delta mp w1 total l1 /\
    lens w1 = lens (lk_world k) /\ pl_app l1 = pl_app l /\
    (lk_sched k = [] -> kni_fifo_free_count (free_q (kw_queues (lk_world k))) <> 0 -> 0 < rx_room w1 l1) /\
    (kni_fifo_free_count (free_q (kw_queues (lk_world k))) = 0 -> pl_free l1 = pl_free l).
Proof.
  intros Hi. unfold kernel_turn.
  destruct (kernel_rx_spec buf_delta kva_delta mp (lk_world k) total l (fun _ => true) Hi) as (w1 & E & Hl & Hi1).
  assert (exists w1 l1, (_ ← kni_net_rx_normal kva_delta (fun _ => true); mret tt) (lk_world k) = Ret (tt, w1) /\
    kni_inv buf_delta kva_delta mp w1 total l1 /\ lens w1 = lens (lk_world k) /\ pl_app l1 = pl_app l /\
    (kni_fifo_free_count (free_q (kw_queues (lk_world k))) <> 0 -> 0 < rx_room w1 l1) /\
    (kni_fifo_free_count (free_q (kw_queues (lk_world k))) = 0 -> pl_free l1 = pl_free l)) as Hrun.
  { unfold mbind, M_bind, mret, M_ret. rewrite E. eexists w1, _. split; [done|]. split; [exact Hi1|].
    split; [done|]. split; [done|]. cbn [pl_rx pl_free]. split.
    - intros Hfree. pose proof (fq_fit _ _ (ki_rx _ _ _ _ _ _ Hi)) as Hfit. rewrite length_fmap in Hfit.
      pose proof (shape_pos _ (fq_shape _ _ (ki_rx _ _ _ _ _ _ Hi))).
      assert (f_len (rx_q (kw_queues w1)) = f_len (rx_q (kw_queues (lk_world k)))) as Hlen by (injection Hl; done).
      pose proof (fifo_free_spec _ _ (ki_free _ _ _ _ _ _ Hi)) as Hfs.
      pose proof (fq_fit _ _ (ki_free _ _ _ _ _ _ Hi)).
      unfold rx_room. cbn [pl_rx]. rewrite Hlen, length_drop. unfold MBUF_BURST_SZ. lia.
    - intros E0. rewrite E0. change (Z.to_nat (Z.min 0 MBUF_BURST_SZ)) with 0%nat. by rewrite take_0, app_nil_r. }
  destruct (lk_sched k) as [|[] sched].
  - destruct Hrun as (w2 & l2 & ? & ? & ? & ? & ? & ?). exists w2, l2. by split_and!.
  - destruct Hrun as (w2 & l2 & ? & ? & ? & ? & ? & ?). exists w2, l2. by split_and!.
  - exists (lk_world k), l. by split_and!.
Qed.

#[global] Instance link_kni_laws : KniLaws kni_link.
Proof.
  refine {| kni_owns := link_owns; kni_patience := link_patience |}.
  - intros mbufs k n k'. cbn. unfold link_burst, mbind, M_bind. destruct (kernel_turn k (lk_world k)) as [[[] w1]| |]; try done.
    destruct (RteKni.rte_kni_tx_burst buf_delta mbufs w1) as [[n1 w2]| |] eqn:E; try done. intros [= <- <-].
    split; [by eapply tx_burst_count|done].
  - intros mbufs k (l & rest & Hi & Happ).
    destruct (kernel_turn_spec k l Hi) as (w1 & l1 & E1 & Hi1 & Hlens & Ha1 & Hroom & Hkeep). rewrite <- Ha1 in Happ.
    destruct (tx_burst_spec buf_delta kva_delta mp w1 total l1 mbufs rest Hi1 Happ) as (w2 & E2 & Hlens2 & Hi2).
    cbn [kni_tx_burst link_kni]. unfold link_burst, mbind, M_bind. rewrite E1, E2. eexists _, _. split; [reflexivity|].
    rewrite Nat2Z.id. split; [by eexists _, rest; split; [exact Hi2|]|]. intros Hne E0. unfold link_patience. cbn [lk_sched lk_world].
    destruct (lk_sched k) as [|b sched]; [|rewrite skipn_cons, drop_0; cbn [length]; repeat case_match; lia].
    change (drop 1 (@nil bool)) with (@nil bool).
    assert (rx_room w1 l1 <= 0) as Hfull by (destruct mbufs; [done|]; cbn [length] in E0; lia).
    destruct (Z.eqb_spec (kni_fifo_free_count (free_q (kw_queues (lk_world k)))) 0) as [Ef|Ef];
      [|specialize (Hroom eq_refl Ef); lia].
    rewrite (fifo_free_spec _ _ (ki_free _ _ _ _ _ _ Hi2)). cbn [pl_free]. rewrite (Hkeep Ef).
    rewrite (fifo_free_spec _ _ (ki_free _ _ _ _ _ _ Hi)) in Ef. pose proof (shape_pos _ (fq_shape _ _ (ki_free _ _ _ _ _ _ Hi))).
    assert (f_len (free_q (kw_queues w2)) = f_len (free_q (kw_queues (lk_world k)))) as -> by (rewrite Hlens in Hlens2; injection Hlens2; done).
    rewrite length_drop. destruct (Z.eqb_spec (f_len (free_q (kw_queues (lk_world k))) - 1 - Z.of_nat (length (pl_free l) - 32)) 0); lia.
Defined.

(** [mg_kni_tx_single] on a real device. The process holds the buffer; the kernel
    thread may pause for any finite number of calls. Then the function returns 1, the
    packet has been accepted exactly once, and all buffers of the device are still in
    one place each. *)
Theorem kni_tx_single_device (mbuf : nat) (k : kni_link) :
  link_owns k [mbuf] ->
  exists fuel0 k', (forall fuel, (fuel0 <= fuel)%nat -> mg_kni_tx_single fuel mbuf k = Ret (1, k')) /\
    lk_sent k' = lk_sent k ++ [mbuf] /\ link_owns k' [].
Proof.
  intros Hown. destruct (@kni_single_spec _ link_kni link_kni_laws mbuf _ k eq_refl Hown) as (f & [] & k2 & Hf & Hq & Ho). exists f, k2. split; [|done].
  intros fuel Hle. unfold mg_kni_tx_single, mbind, M_bind. by rewrite Hf.
Qed.
End Link.

(** The device of RteKniSpec with a full receive queue, whose kernel thread pauses
    twice. *)
Definition busy_kni : kni_world (list nat) :=
  KW (KQ empty4 (Fifo 3 0 4 [13; 14; 15; 0]%nat) empty4 empty4) (kw_mem demo_kni) (KStats 0 0 0 0 0 0).

Lemma busy_kni_inv : kni_inv delta8 delta8 0 busy_kni kni_bufs (Places [20]%nat [21; 22; 23]%nat [] [] []).
Proof.
  split; [|cbn|exact empty4_rep|exact empty4_rep|exact empty4_rep].
  - pose proof (ki_mem _ _ _ _ _ _ demo_kni_inv) as Hm. exact Hm.
  - split; [split; cbn; [by exists 2|done|lia]|cbn; lia|done|].
    intros [|[|[|i]]] x Hi; vm_compute in Hi; try done; injection Hi as <-; reflexivity.
Qed.

Lemma kni_tx_single_device_witness :
  exists fuel0 k', (forall fuel, (fuel0 <= fuel)%nat ->
      @mg_kni_tx_single _ (link_kni delta8 delta8) fuel 20 (Link busy_kni [21; 22; 23]%nat [false; false]) = Ret (1, k')) /\
    lk_sent k' = [21; 22; 23; 20]%nat /\ link_owns delta8 delta8 0 kni_bufs k' [].
Proof.
  refine (kni_tx_single_device delta8 delta8 0 kni_bufs 20 (Link busy_kni [21; 22; 23]%nat [false; false]) _).
  exists (Places [20]%nat [21; 22; 23]%nat [] [] []), []. split; [exact busy_kni_inv|done].
Defined.
