(* ===== verification/KniDevice.v ===== *)
(** Creating and removing KNI devices: the slots of librte_kni/rte_kni.c with their
    memory zones, and the list of devices of the kernel module
    (linuxapp/kni/kni_misc.c). *)
From Stdlib Require Import ZArith Lia.
From stdpp Require Import base numbers list gmap.
From S2P Require Import Prelude Ring Mbuf MbufSpec MbufPool KniFifo RteKni RteKniSpec DeviceConfig Kni.

#[local] Open Scope Z_scope.

Definition KNI_FIFO_COUNT_MAX : Z := 1024.
Definition EIO : Z := 5.
Definition ECANCELED : Z := 125.
Definition ENODEV : Z := 19.

(** ** Slots *)

Record kni_slot := Slot { s_id : nat; s_in_use : bool; s_next : option nat }.

Record rte_kni_memzone_pool := KPool {
  initialized : bool; max_ifaces : Z; slots : list kni_slot; free_slot : option nat; free_tail : option nat
}.

Definition set_slots (l : list kni_slot) (p : rte_kni_memzone_pool) : rte_kni_memzone_pool :=
  KPool (initialized p) (max_ifaces p) l (free_slot p) (free_tail p).
Definition set_free (f t : option nat) (p : rte_kni_memzone_pool) : rte_kni_memzone_pool :=
  KPool (initialized p) (max_ifaces p) (slots p) f t.

(** An access to slot [i]; outside of the array it is a fault. *)
Definition upd_slot (i : nat) (f : kni_slot -> kni_slot) : M rte_kni_memzone_pool unit := fun p =>
  match slots p !! i with
  | None => Fault
  | Some s => Ret (tt, set_slots (<[i := f s]> (slots p)) p)
  end.

Definition load_slot (i : nat) : M rte_kni_memzone_pool kni_slot := fun p =>
  match slots p !! i with None => Fault | Some s => Ret (s, p) end.

Definition kni_memzone_pool_alloc : M rte_kni_memzone_pool (option nat) :=
  f ← gets free_slot;
  match f with
  | None => mret None
  | Some slot =>
    s ← load_slot slot;
    t ← gets free_tail;
    modify (set_free (s_next s) t) ;;
    upd_slot slot (fun s => Slot (s_id s) true (s_next s)) ;;
    f ← gets free_slot;
    (match f with None => modify (set_free None None) | Some _ => mret tt end) ;;
    mret (Some slot)
  end.

Definition kni_memzone_pool_release (slot : nat) : M rte_kni_memzone_pool unit :=
  f ← gets free_slot;
  t ← gets free_tail;
  (match f with
   | Some _ =>
     match t with
     | None => fault
     | Some t => upd_slot t (fun s => Slot (s_id s) (s_in_use s) (Some slot))
     end
   | None => modify (set_free (Some slot) t)
   end) ;;
  f ← gets free_slot;
  modify (set_free f (Some slot)) ;;
  upd_slot slot (fun s => Slot (s_id s) (s_in_use s) None) ;;
  upd_slot slot (fun s => Slot (s_id s) false (s_next s)).

(** The loop over the slots; [mz i] says whether the zones of slot [i] could be
    reserved. *)
Fixpoint kni_init_loop (k : nat) (mz : nat -> bool) (max i : nat) : M rte_kni_memzone_pool unit :=
  match k with
  | O => mret tt
  | S k =>
    upd_slot i (fun s => Slot i (s_in_use s) (s_next s)) ;;
    if negb (mz i) then mret tt
    else
      (if (i + 1 =? max)%nat
       then upd_slot i (fun s => Slot (s_id s) (s_in_use s) None) ;;
            f ← gets free_slot; modify (set_free f (Some i))
       else upd_slot i (fun s => Slot (s_id s) (s_in_use s) (Some (i + 1)%nat))) ;;
      kni_init_loop k mz max (i + 1)
  end.

(** [fd_ok]: /dev/kni is open or can be opened. The slots come from [rte_malloc], if it
    succeeds, and hold anything. *)
Definition rte_kni_init (max_kni_ifaces : nat) (fd_ok : bool) (malloc : option (list kni_slot)) (mz : nat -> bool) :
    M rte_kni_memzone_pool unit :=
  p ← gets id;
  if initialized p then mret tt
  else if (max_kni_ifaces =? 0)%nat then mret tt
  else if negb fd_ok then mret tt
  else
    match malloc with
    | None => mret tt
    | Some l =>
      modify (fun p => KPool true (Z.of_nat max_kni_ifaces) l (Some O) (free_tail p)) ;;
      kni_init_loop max_kni_ifaces mz max_kni_ifaces 0
    end.

(** ** The kernel module *)

(** What a device is created from. The physical addresses of its queues are those of
    the zones of a slot. *)
Record rte_kni_device_info := KDevInfo {
  di_name : list Z; di_zone : nat; di_function : Z; di_vendor_id : Z; di_device_id : Z;
  di_core_id : Z; di_force_bind : Z; di_group_id : Z; di_mbuf_size : Z
}.

(** [struct kni_dev] *)
Record kni_dev := KDev { kd_name : list Z; kd_zone : nat; kd_group_id : Z; kd_core_id : Z; kd_mbuf_size : Z }.

(** The answers of the kernel while a device is created. *)
Record kni_env := KEnv {
  ke_copy : bool; ke_cpu_online : Z -> bool; ke_alloc_netdev : bool; ke_register : bool; ke_thread : bool
}.

(** [strncmp(a, b, RTE_KNI_NAMESIZE) == 0] of names without their terminating zero. *)
Definition same_name (a b : list Z) : bool := bool_decide (take RTE_KNI_NAMESIZE a = take RTE_KNI_NAMESIZE b).

Definition kni_check_param (kni : kni_dev) (dev : rte_kni_device_info) : Z :=
  if same_name (kd_name kni) (di_name dev) then -1 else 0.

(** Without support for ethtool. *)
Definition kni_ioctl_create (e : kni_env) (dev_info : rte_kni_device_info) : M (list kni_dev) Z :=
  if negb (ke_copy e) then mret (- EIO)
  else if (RTE_KNI_NAMESIZE <=? length (di_name dev_info))%nat then mret (- EINVAL)
  else if negb (di_force_bind dev_info =? 0) && negb (ke_cpu_online e (di_core_id dev_info)) then mret (- EINVAL)
  else
    l ← gets id;
    if existsb (fun dev => kni_check_param dev dev_info <? 0) l then mret (- EINVAL)
    else if negb (ke_alloc_netdev e) then mret (- EBUSY)
    else
      let kni := KDev (take RTE_KNI_NAMESIZE (di_name dev_info)) (di_zone dev_info) (di_group_id dev_info)
                   (di_core_id dev_info) (di_mbuf_size dev_info) in
      if negb (ke_register e) then mret (- ENODEV)
      else if negb (ke_thread e) then mret (- ECANCELED)
      else modify (fun l => kni :: l) ;; mret 0.

(** The first device of this name is taken off the list. *)
Fixpoint remove_dev (name : list Z) (l : list kni_dev) : list kni_dev :=
  match l with
  | [] => []
  | dev :: l => if negb (same_name (kd_name dev) name) then dev :: remove_dev name l else l
  end.

(** [ret] holds the 0 of [copy_from_user] also when there is no device of this name. *)
Definition kni_ioctl_release (copy_ok : bool) (name : list Z) : M (list kni_dev) Z :=
  if negb copy_ok then mret (- EIO)
  else if (length name =? 0)%nat then mret 0
  else modify (remove_dev name) ;; mret 0.

(** ** Devices *)

(** [struct rte_kni], in the first zone of a slot. *)
Record rte_kni := Ctx {
  ctx_name : list Z; ctx_group_id : Z; ctx_slot_id : nat; ctx_pool : option nat; ctx_mbuf_size : Z;
  ctx_ops : rte_kni_ops; ctx_in_use : bool
}.

Definition no_ops : rte_kni_ops := KniOps 0 None None.
Definition ctx_zero : rte_kni := Ctx [] 0 0 None 0 no_ops false.

(** What belongs to a slot: its zones, and the counters of the kernel. *)
Record kni_zones := Zones {
  z_ctx : rte_kni; z_queues : kni_queues; z_req : rte_kni_fifo; z_resp : rte_kni_fifo; z_stats : kni_stats
}.

Section Devices.
Context {P : Type} `{Mempool P} (buf_delta kva_delta : nat -> Z).

Record kni_sys := KS {
  ks_slots : rte_kni_memzone_pool; ks_zones : list kni_zones; ks_devs : list kni_dev; ks_mem : mem P
}.

Definition on_slots {A} (m : M rte_kni_memzone_pool A) : M kni_sys A := fun s =>
  match m (ks_slots s) with
  | Ret (a, p) => Ret (a, KS p (ks_zones s) (ks_devs s) (ks_mem s))
  | Fault => Fault
  | Diverge => Diverge
  end.

Definition on_devs {A} (m : M (list kni_dev) A) : M kni_sys A := fun s =>
  match m (ks_devs s) with
  | Ret (a, l) => Ret (a, KS (ks_slots s) (ks_zones s) l (ks_mem s))
  | Fault => Fault
  | Diverge => Diverge
  end.

Definition load_zones (i : nat) : M kni_sys kni_zones := fun s =>
  match ks_zones s !! i with None => Fault | Some z => Ret (z, s) end.

Definition upd_zones (i : nat) (f : kni_zones -> kni_zones) : M kni_sys unit := fun s =>
  match ks_zones s !! i with
  | None => Fault
  | Some z => Ret (tt, KS (ks_slots s) (<[i := f z]> (ks_zones s)) (ks_devs s) (ks_mem s))
  end.

(** The queues of slot [i] and the memory, as the functions on packets see them. *)
Definition world_of (z : kni_zones) (m : mem P) : kni_world P := KW (z_queues z) m (z_stats z).

Definition on_device {A} (i : nat) (m : M (kni_world P) A) : M kni_sys A := fun s =>
  match ks_zones s !! i with
  | None => Fault
  | Some z =>
    match m (world_of z (ks_mem s)) with
    | Ret (a, w) =>
      Ret (a, KS (ks_slots s) (<[i := Zones (z_ctx z) (kw_queues w) (z_req z) (z_resp z) (kw_stats w)]> (ks_zones s))
                (ks_devs s) (kw_mem w))
    | Fault => Fault
    | Diverge => Diverge
    end
  end.

Definition set_ctx (c : rte_kni) (z : kni_zones) : kni_zones := Zones c (z_queues z) (z_req z) (z_resp z) (z_stats z).

Definition set_ctx_in_use (b : bool) (c : rte_kni) : rte_kni :=
  Ctx (ctx_name c) (ctx_group_id c) (ctx_slot_id c) (ctx_pool c) (ctx_mbuf_size c) (ctx_ops c) b.
Definition set_ctx_ops (o : rte_kni_ops) (c : rte_kni) : rte_kni :=
  Ctx (ctx_name c) (ctx_group_id c) (ctx_slot_id c) (ctx_pool c) (ctx_mbuf_size c) o (ctx_in_use c).

(** The six queues of a new device; [None] where the code panics. *)
Definition fresh_zones (z : kni_zones) : option kni_zones :=
  t ← kni_fifo_init KNI_FIFO_COUNT_MAX (tx_q (z_queues z));
  r ← kni_fifo_init KNI_FIFO_COUNT_MAX (rx_q (z_queues z));
  a ← kni_fifo_init KNI_FIFO_COUNT_MAX (alloc_q (z_queues z));
  f ← kni_fifo_init KNI_FIFO_COUNT_MAX (free_q (z_queues z));
  req ← kni_fifo_init KNI_FIFO_COUNT_MAX (z_req z);
  resp ← kni_fifo_init KNI_FIFO_COUNT_MAX (z_resp z);
  Some (Zones (z_ctx z) (KQ t r a f) req resp (KStats 0 0 0 0 0 0)).

(** The context and the queues of a new device in slot [i]. *)
Definition init_zones (i id : nat) (pool : nat) (conf : rte_kni_conf) (ops : option rte_kni_ops) : M kni_sys unit :=
  z ← load_zones i;
  match fresh_zones z with
  | None => fault
  | Some z' =>
    upd_zones i (fun _ => set_ctx (Ctx (take (RTE_KNI_NAMESIZE - 1) (conf_name conf)) (group_id conf) id (Some pool)
                                     (mbuf_size conf) (default no_ops ops) false) z')
  end.

Definition rte_kni_alloc (e : kni_env) (pktmbuf_pool : option nat) (conf : option rte_kni_conf)
    (ops : option rte_kni_ops) : M kni_sys (option nat) :=
  match pktmbuf_pool, conf with
  | Some pool, Some conf =>
    if default 0 (list.head (conf_name conf)) =? 0 then mret None
    else
      p ← gets ks_slots;
      if negb (initialized p) then mret None
      else
        slot ← on_slots kni_memzone_pool_alloc;
        match slot with
        | None => mret None
        | Some i =>
          z ← load_zones i;
          if ctx_in_use (z_ctx z) then mret None
          else
            s ← on_slots (load_slot i);
            init_zones i (s_id s) pool conf ops ;;
            ret ← on_devs (kni_ioctl_create e
                    (KDevInfo (take (RTE_KNI_NAMESIZE - 1) (conf_name conf)) i (conf_function conf) (conf_vendor conf)
                       (conf_device conf) (core_id conf) (force_bind conf) (group_id conf) (mbuf_size conf)));
            if ret <? 0 then on_slots (kni_memzone_pool_release (s_id s)) ;; mret None
            else
              upd_zones i (fun z => set_ctx (set_ctx_in_use true (z_ctx z)) z) ;;
              on_device i (kni_allocate_mbufs buf_delta (Some pool)) ;;
              mret (Some i)
        end
  | _, _ => mret None
  end.

(** The thread of the kernel takes packets from the queue of a device, if the device
    is on its list. *)
Definition kernel_poll (i : nat) : M kni_sys unit :=
  l ← gets ks_devs;
  if existsb (fun d => kd_zone d =? i)%nat l
  then _ ← on_device i (kni_net_rx_normal kva_delta (fun _ => true)); mret tt
  else mret tt.

(** [while (kni_fifo_count(kni->rx_q) && retry--) usleep(1000);] *)
Fixpoint wait_rx (i : nat) (retry : nat) : M kni_sys unit :=
  z ← load_zones i;
  if kni_fifo_count (rx_q (z_queues z)) =? 0 then mret tt
  else match retry with O => mret tt | S retry => kernel_poll i ;; wait_rx i retry end.

(** [objs] are the objects of the pool of the device. *)
Definition rte_kni_release (copy_ok : bool) (objs : list nat) (kni : option nat) : M kni_sys Z :=
  match kni with
  | None => mret (-1)
  | Some i =>
    z ← load_zones i;
    if negb (ctx_in_use (z_ctx z)) then mret (-1)
    else
      ret ← on_devs (kni_ioctl_release copy_ok (ctx_name (z_ctx z)));
      if ret <? 0 then mret (-1)
      else
        wait_rx i 5 ;;
        on_device i (kni_release_queues buf_delta objs) ;;
        let slot_id := ctx_slot_id (z_ctx z) in
        upd_zones i (set_ctx ctx_zero) ;;
        p ← gets ks_slots;
        if max_ifaces p <? Z.of_nat slot_id then mret (-1)
        else on_slots (kni_memzone_pool_release slot_id) ;; mret 0
  end.

Fixpoint kni_get_loop (k i : nat) (name : list Z) : M kni_sys (option nat) :=
  match k with
  | O => mret None
  | S k =>
    s ← on_slots (load_slot i);
    if negb (s_in_use s) then kni_get_loop k (S i) name
    else
      z ← load_zones i;
      if same_name (ctx_name (z_ctx z)) name then mret (Some i) else kni_get_loop k (S i) name
  end.

Definition rte_kni_get (name : list Z) : M kni_sys (option nat) :=
  p ← gets ks_slots; kni_get_loop (Z.to_nat (max_ifaces p)) 0 name.

Inductive kni_ops_status := KNI_REQ_NO_REGISTER | KNI_REQ_REGISTERED.

Definition kni_check_request_register (ops : rte_kni_ops) : kni_ops_status :=
  match change_mtu ops, config_network_if ops with
  | None, None => KNI_REQ_NO_REGISTER
  | _, _ => KNI_REQ_REGISTERED
  end.

Definition rte_kni_register_handlers (kni : option nat) (ops : option rte_kni_ops) : M kni_sys Z :=
  match ops, kni with
  | Some ops, Some i =>
    z ← load_zones i;
    match kni_check_request_register (ctx_ops (z_ctx z)) with
    | KNI_REQ_REGISTERED => mret (-1)
    | KNI_REQ_NO_REGISTER => upd_zones i (fun z => set_ctx (set_ctx_ops ops (z_ctx z)) z) ;; mret 0
    end
  | _, _ => mret (-1)
  end.

Definition rte_kni_unregister_handlers (kni : option nat) : M kni_sys Z :=
  match kni with
  | None => mret (-1)
  | Some i =>
    upd_zones i (fun z => set_ctx (set_ctx_ops (KniOps (ops_port_id (ctx_ops (z_ctx z))) None None) (z_ctx z)) z) ;; mret 0
  end.
End Devices.
Arguments kni_sys P : clear implicits.
