(* ===== verification/KniDeviceSpec.v ===== *)
(** Creating and removing KNI devices: the slots are a queue of free slots, every device
    in use is known to the kernel under its name, and the buffers of all devices and of
    the process are accounted for. *)
From Stdlib Require Import ZArith Lia.
From stdpp Require Import base numbers list gmap relations.
From S2P Require Import Prelude Ring Mbuf MbufSpec MbufPool KniFifo RteKni RteKniSpec DeviceConfig Kni KniDevice.

#[local] Open Scope Z_scope.

(** ** Slots *)

(** The free slots, linked from [f] on. *)
Fixpoint slot_chain (l : list kni_slot) (f : option nat) (q : list nat) : Prop :=
  match q with
  | [] => f = None
  | i :: q => f = Some i /\ exists s, l !! i = Some s /\ slot_chain l (s_next s) q
  end.

Record slots_rep (p : rte_kni_memzone_pool) (q : list nat) : Prop := {
  sl_chain : slot_chain (slots p) (free_slot p) q;
  sl_tail : q <> [] -> free_tail p = list.last q;
  sl_nodup : NoDup q;
  sl_ids i s : slots p !! i = Some s -> s_id s = i
}.

(** What the operations on slots leave alone. *)
Definition same_shape (p p' : rte_kni_memzone_pool) : Prop :=
  initialized p' = initialized p /\ max_ifaces p' = max_ifaces p /\ length (slots p') = length (slots p).

Lemma slot_chain_ext l l' q : forall f,
  (forall i, i ∈ q -> s_next <$> l' !! i = s_next <$> l !! i) -> slot_chain l f q -> slot_chain l' f q.
Proof.
  induction q as [|i q IH]; intros f Hl Hc; [done|]. destruct Hc as (-> & s & Hs & Hc). split; [done|].
  pose proof (Hl i ltac:(set_solver)) as E. rewrite Hs in E. cbn in E.
  destruct (l' !! i) as [s'|] eqn:Es; [|done]. injection E as E. exists s'. split; [done|]. rewrite E.
  apply IH; [|done]. intros j Hj. apply Hl. set_solver.
Qed.

Lemma chain_lookup l q : forall f t, slot_chain l f q -> t ∈ q -> is_Some (l !! t).
Proof.
  induction q as [|i q IH]; intros f t Hc Ht; [set_solver|]. destruct Hc as (_ & s & Hs & Hc).
  apply elem_of_cons in Ht as [->|Ht]; [by eexists|]. by eapply IH.
Qed.

(** An update keeps the number of each slot. *)
Definition ids_ok (l : list kni_slot) : Prop := forall i s, l !! i = Some s -> s_id s = i.

Lemma ids_insert l i s : ids_ok l -> s_id s = i -> ids_ok (<[i := s]> l).
Proof.
  intros Hl Hs j x Hx. apply list_lookup_insert_Some in Hx as [(-> & -> & _)|[_ Hx]]; [done|by apply Hl].
Qed.

Lemma slots_alloc p q :
  slots_rep p q ->
  match q with
  | [] => kni_memzone_pool_alloc p = Ret (None, p)
  | i :: q' => exists p', kni_memzone_pool_alloc p = Ret (Some i, p') /\ slots_rep p' q' /\ same_shape p p' /\
      (exists s, slots p' !! i = Some s /\ s_id s = i)
  end.
Proof.
  intros [Hc Ht Hn Hid]. unfold kni_memzone_pool_alloc, mbind, M_bind, gets, mret, M_ret, modify.
  destruct q as [|i q]; [cbn in Hc; by rewrite Hc|]. destruct Hc as (-> & s & Hs & Hc).
  unfold load_slot. rewrite Hs. unfold upd_slot. cbn [slots set_free]. rewrite Hs. cbn [set_slots free_slot set_free].
  apply NoDup_cons in Hn as [Hi Hn]. pose proof (lookup_lt_Some _ _ _ Hs) as Hlt.
  set (l' := <[i := _]> (slots p)).
  assert (slot_chain l' (s_next s) q) as Hc'.
  { eapply slot_chain_ext; [|exact Hc]. intros j Hj. unfold l'. by rewrite list_lookup_insert_ne by set_solver. }
  assert (ids_ok l') as Hid' by (apply ids_insert; [done|exact (Hid _ _ Hs)]).
  assert (length l' = length (slots p)) as Hlen by apply length_insert.
  assert (exists s, l' !! i = Some s /\ s_id s = i) as Hli.
  { eexists. split; [by apply list_lookup_insert_eq|]. exact (Hid _ _ Hs). }
  destruct q as [|j q].
  - cbn in Hc. rewrite Hc. eexists. split; [reflexivity|]. by split_and!.
  - cbn in Hc. destruct Hc as [Ej _]. rewrite Ej in Hc' |- *. eexists. split; [reflexivity|]. split_and!; try done.
    split; cbn [slots free_slot free_tail set_free set_slots]; [done| |done|done]. intros _. apply Ht. done.
Qed.

Lemma slot_chain_snoc l q : forall f i t s st,
  slot_chain l f q -> list.last q = Some t -> l !! t = Some st -> i ∉ q -> l !! i = Some s -> NoDup q ->
  slot_chain (<[i := Slot (s_id s) false None]> (<[t := Slot (s_id st) (s_in_use st) (Some i)]> l)) f (q ++ [i]).
Proof.
  induction q as [|x q IH]; intros f i t s st Hc Hl Ht Hi Hs Hn; [done|].
  destruct Hc as (-> & sx & Hsx & Hc). apply NoDup_cons in Hn as [Hx Hn]. split; [done|].
  assert (t <> i) as Hti by (intros ->; apply Hi; by apply last_Some_elem_of).
  destruct q as [|y q].
  - cbn in Hl. injection Hl as ->. cbn in Hc. exists (Slot (s_id st) (s_in_use st) (Some i)). split.
    + rewrite list_lookup_insert_ne, list_lookup_insert_eq by (done || by eapply lookup_lt_Some). done.
    + split; [done|]. exists (Slot (s_id s) false None). split; [|done]. apply list_lookup_insert_eq. rewrite length_insert. by eapply lookup_lt_Some.
  - exists sx. split.
    + rewrite !list_lookup_insert_ne; [done| |set_solver].
      intros ->. apply Hx. apply last_Some_elem_of. by rewrite last_cons_cons in Hl.
    + rewrite last_cons_cons in Hl. apply IH; try done. set_solver.
Qed.

Lemma slots_release p q i :
  slots_rep p q -> i ∉ q -> is_Some (slots p !! i) ->
  exists p', kni_memzone_pool_release i p = Ret (tt, p') /\ slots_rep p' (q ++ [i]) /\ same_shape p p'.
Proof.
  intros [Hc Ht Hn Hid] Hi [s Hs]. pose proof (lookup_lt_Some _ _ _ Hs) as Hlt.
  unfold kni_memzone_pool_release, mbind, M_bind, gets, mret, M_ret, modify, upd_slot.
  assert (NoDup (q ++ [i])) as Hnd by (apply NoDup_app; split_and!; [done|set_solver|apply NoDup_singleton]).
  destruct q as [|x q].
  - cbn in Hc. rewrite Hc. cbn [slots set_free set_slots free_slot]. rewrite Hs. cbn [slots set_slots].
    rewrite list_lookup_insert_eq by done. eexists. split; [reflexivity|].
    cbn [slots set_slots free_slot free_tail set_free s_id s_in_use s_next]. rewrite list_insert_insert_eq. split.
    + split; cbn; [|done|done|apply ids_insert; [done|exact (Hid _ _ Hs)]]. split; [done|]. eexists. split; [by apply list_lookup_insert_eq|reflexivity].
    + split_and!; [done..|]. apply length_insert.
  - destruct (list.last (x :: q)) as [t|] eqn:El; [|by apply last_None in El].
    pose proof (last_Some_elem_of _ _ El) as Htin. destruct (chain_lookup _ _ _ t Hc Htin) as [st Hst].
    assert (t <> i) as Hti by (intros ->; done). pose proof (lookup_lt_Some _ _ _ Hst).
    pose proof (slot_chain_snoc _ _ _ i t s st Hc El Hst Hi Hs Hn) as Hc'.
    cbn in Hc. destruct Hc as [Hf _]. rewrite Hf, Ht by done. rewrite Hst.
    cbn [slots set_slots free_slot free_tail set_free]. rewrite list_lookup_insert_ne, Hs by done. cbn [slots set_slots].
    rewrite list_lookup_insert_eq by by rewrite length_insert. eexists. split; [reflexivity|].
    cbn [slots set_slots free_slot free_tail set_free initialized max_ifaces s_in_use s_next s_id].
    rewrite list_insert_insert_eq. split; [split|split_and!].
    + done.
    + intros _. by rewrite last_snoc.
    + done.
    + repeat apply ids_insert; [done|exact (Hid _ _ Hst)|exact (Hid _ _ Hs)].
    + done.
    + done.
    + cbn; by rewrite !length_insert.
Qed.

(** The links that [rte_kni_init] makes. *)
Definition linked (max : nat) (l : list kni_slot) (i : nat) : Prop :=
  forall j, (i <= j < max)%nat -> exists s, l !! j = Some s /\ s_id s = j /\ s_next s = if (j + 1 =? max)%nat then None else Some (j + 1)%nat.

Lemma linked_chain max l k : forall i, linked max l i -> (i + S k = max)%nat -> slot_chain l (Some i) (seq i (S k)).
Proof.
  induction k as [|k IH]; intros i Hl Hk; destruct (Hl i ltac:(lia)) as (s & Es & _ & E);
    (split; [done|]; exists s; split; [done|]); rewrite E.
  - by destruct (Nat.eqb_spec (i + 1) max); [|lia].
  - destruct (Nat.eqb_spec (i + 1) max); [lia|]. rewrite Nat.add_1_r. apply IH; [|lia]. intros j Hj. apply Hl. lia.
Qed.

(** One round of the loop. *)
Lemma init_round max i p s :
  slots p !! i = Some s ->
  let nx := if (i + 1 =? max)%nat then None else Some (i + 1)%nat in
  (upd_slot i (fun s => Slot i (s_in_use s) (s_next s)) ;;
   if (i + 1 =? max)%nat
   then upd_slot i (fun s => Slot (s_id s) (s_in_use s) None) ;; f ← gets free_slot; modify (set_free f (Some i))
   else upd_slot i (fun s => Slot (s_id s) (s_in_use s) (Some (i + 1)%nat))) p =
  Ret (tt, KPool (initialized p) (max_ifaces p) (<[i := Slot i (s_in_use s) nx]> (slots p)) (free_slot p)
             (if (i + 1 =? max)%nat then Some i else free_tail p)).
Proof.
  intros Hs. pose proof (lookup_lt_Some _ _ _ Hs). unfold mbind, M_bind, upd_slot, gets, modify. rewrite Hs.
  destruct (i + 1 =? max)%nat; cbn [slots set_slots]; rewrite list_lookup_insert_eq by done;
    unfold set_slots, set_free; cbn [initialized max_ifaces slots free_slot free_tail s_id s_in_use s_next];
    by rewrite list_insert_insert_eq.
Qed.

Lemma init_loop_spec mz max k : forall i p,
  (forall j, mz j = true) -> (i + k = max)%nat -> length (slots p) = max ->
  exists p', kni_init_loop k mz max i p = Ret (tt, p') /\ same_shape p p' /\ free_slot p' = free_slot p /\
    linked max (slots p') i /\
    (forall j, (j < i)%nat -> slots p' !! j = slots p !! j) /\ ((0 < k)%nat -> free_tail p' = Some (max - 1)%nat).
Proof.
  induction k as [|k IH]; intros i p Hmz Hk Hlen; cbn [kni_init_loop].
  - exists p. split_and!; try done; [intros j Hj; lia|lia].
  - rewrite Hmz. cbn [negb]. destruct (lookup_lt_is_Some_2 (slots p) i) as [s Hs]; [lia|].
    pose proof (init_round max i p s Hs) as E1. cbv zeta in E1. set (p1 := KPool _ _ _ _ _) in E1.
    unfold mbind, M_bind in E1 |- *. destruct (upd_slot i _ p) as [[[] p0]| |]; try done. rewrite E1.
    destruct (IH (i + 1)%nat p1 Hmz ltac:(lia)) as (p' & E & (Hi' & Hm' & Hl') & Hf' & Hlk & Hlow & Ht'); [cbn; by rewrite length_insert|].
    cbn [p1 initialized max_ifaces slots free_slot] in *. rewrite length_insert in Hl'.
    exists p'. split_and!; try done.
    + intros j Hj. destruct (decide (j = i)) as [->|]; [|apply Hlk; lia]. eexists. rewrite Hlow, list_lookup_insert_eq by lia. done.
    + intros j Hj. rewrite Hlow, list_lookup_insert_ne by lia. done.
    + intros _. destruct k as [|k]; [|apply Ht'; lia]. cbn [kni_init_loop] in E. injection E as <-. cbn.
      destruct (Nat.eqb_spec (i + 1) max); [f_equal; lia|lia].
Qed.

Lemma kni_init_spec max l p :
  (0 < max)%nat -> length l = max -> initialized p = false ->
  exists p', rte_kni_init max true (Some l) (fun _ => true) p = Ret (tt, p') /\ slots_rep p' (seq 0 max) /\ initialized p' = true /\
    max_ifaces p' = Z.of_nat max /\ length (slots p') = max.
Proof.
  intros Hmax Hl H0. unfold rte_kni_init, mbind, M_bind, gets, id, modify. rewrite H0. destruct (Nat.eqb_spec max 0); [lia|]. cbn [negb].
  destruct (init_loop_spec (fun _ => true) max max 0 (KPool true (Z.of_nat max) l (Some O) (free_tail p)))
    as (p' & E & (Hi & Hm & Hlen) & Hf & Hlk & _ & Ht); [done|lia|done|].
  cbn in Hi, Hm, Hlen. exists p'. split_and!; [done| |done|done|congruence]. destruct max as [|k]; [lia|]. split.
  - rewrite Hf. by apply (linked_chain (S k)).
  - intros _. rewrite Ht, last_lookup, length_seq, lookup_seq_lt by lia. f_equal. cbn. lia.
  - apply NoDup_seq.
  - intros i s Hs. destruct (Hlk i) as (s' & Hs' & Hid & _); [apply lookup_lt_Some in Hs; lia|]. congruence.
Qed.

(** ** Names *)

Lemma same_name_short a b : (length a < RTE_KNI_NAMESIZE)%nat -> (length b < RTE_KNI_NAMESIZE)%nat -> same_name a b = bool_decide (a = b).
Proof. intros Ha Hb. unfold same_name. by rewrite !take_ge by lia. Qed.

(** The list of the kernel: short names, each once. *)
Record devs_ok (l : list kni_dev) : Prop := {
  do_names : NoDup (kd_name <$> l);
  do_zones : NoDup (kd_zone <$> l);
  do_short d : d ∈ l -> (0 < length (kd_name d) < RTE_KNI_NAMESIZE)%nat
}.

Lemma create_spec e di l :
  devs_ok l -> (0 < length (di_name di))%nat -> di_zone di ∉ kd_zone <$> l ->
  exists r l', kni_ioctl_create e di l = Ret (r, l') /\
    (r < 0 /\ l' = l \/
     r = 0 /\ devs_ok l' /\ exists d, l' = d :: l /\ kd_name d = di_name di /\ kd_zone d = di_zone di /\ kd_mbuf_size d = di_mbuf_size di).
Proof.
  intros [Hn Hz Hs] Hpos Hfree.
  unfold kni_ioctl_create, mbind, M_bind, gets, mret, M_ret, modify, id. destruct (ke_copy e); cbn [negb].
  2: { eexists _, _. split; [reflexivity|]. by left. }
  destruct (Nat.leb_spec RTE_KNI_NAMESIZE (length (di_name di))) as [|Hlt]; [eexists _, _; split; [reflexivity|by left]|].
  destruct (negb _ && negb _); [eexists _, _; split; [reflexivity|by left]|].
  destruct (existsb _ l) eqn:Ex; [eexists _, _; split; [reflexivity|by left]|].
  destruct (ke_alloc_netdev e), (ke_register e), (ke_thread e); cbn [negb]; try (eexists _, _; split; [reflexivity|by left]).
  eexists _, _. split; [reflexivity|]. right. split; [done|]. rewrite take_ge by lia. split; [|by eexists].
  split; cbn.
  - apply NoDup_cons. split; [|done]. intros (d & Ed & Hd)%list_elem_of_fmap.
    apply not_true_iff_false in Ex. apply Ex. apply existsb_exists. exists d. split; [by apply list_elem_of_In|].
    unfold kni_check_param. rewrite same_name_short by (done || by apply Hs). by rewrite bool_decide_eq_true_2.
  - by apply NoDup_cons.
  - intros d Hd. apply elem_of_cons in Hd as [->|Hd]; [|by apply Hs]. cbn. lia.
Qed.

Lemma remove_spec name l :
  devs_ok l -> (length name < RTE_KNI_NAMESIZE)%nat ->
  devs_ok (remove_dev name l) /\ (forall d, d ∈ remove_dev name l <-> d ∈ l /\ kd_name d <> name).
Proof.
  intros [Hn Hz Hs] Hlen. induction l as [|d l IH]; [split; [by split|set_solver]|].
  cbn in Hn, Hz. apply NoDup_cons in Hn as [Hnd Hn]. apply NoDup_cons in Hz as [Hzd Hz]. cbn [remove_dev].
  destruct IH as [[Hn' Hz' Hs'] Hel]; [done|done|intros x Hx; apply Hs; set_solver|].
  assert (forall x, x ∈ l -> kd_name x <> kd_name d) as Hother.
  { intros x Hx E. apply Hnd. rewrite <- E. by apply list_elem_of_fmap_2. }
  rewrite same_name_short by (done || apply Hs; set_solver). case_bool_decide as E; cbn [negb].
  - split; [split; [done|done|intros x Hx; apply Hs; set_solver]|]. subst name. intros x. rewrite elem_of_cons.
    split; [intros Hx; split; [by right|by apply Hother]|]. by intros [[->|Hx] Hne].
  - split; [|intros x; rewrite !elem_of_cons, Hel; naive_solver]. split; cbn.
    + apply NoDup_cons. split; [|done]. intros (x & Ex & Hx)%list_elem_of_fmap. apply Hel in Hx as [Hx _]. by apply (Hother x).
    + apply NoDup_cons. split; [|done]. intros (x & Ex & Hx)%list_elem_of_fmap. apply Hel in Hx as [Hx _].
      apply Hzd. rewrite Ex. by apply list_elem_of_fmap_2.
    + intros x Hx. apply Hs. rewrite elem_of_cons in Hx |- *. rewrite Hel in Hx. naive_solver.
Qed.

(** ** The system *)

Section System.
Context {P : Type} `{MempoolLaws P} (buf_delta kva_delta : nat -> Z) (mp : nat) (total : list nat).
Implicit Types s : kni_sys P.

Abbreviation va2pa := (va2pa buf_delta).
Abbreviation kni_inv := (kni_inv buf_delta kva_delta mp).
Abbreviation mem_inv := (mem_inv buf_delta kva_delta mp).

Definition no_places : places := Places [] [] [] [] [].

Definition all_fifos (z : kni_zones) : list rte_kni_fifo :=
  [tx_q (z_queues z); rx_q (z_queues z); alloc_q (z_queues z); free_q (z_queues z); z_req z; z_resp z].

(** The queues of a slot: of the right size, and, while the slot is in use, with the
    contents [l]. *)
Definition zone_ok (z : kni_zones) (l : places) : Prop :=
  Forall (fun f => length (f_buffer f) = Z.to_nat KNI_FIFO_COUNT_MAX) (all_fifos z) /\
  pl_app l = [] /\
  if ctx_in_use (z_ctx z)
  then Forall (fun f => f_len f = KNI_FIFO_COUNT_MAX) (all_fifos z) /\
       fifo_rep (rx_q (z_queues z)) (va2pa <$> pl_rx l) /\ fifo_rep (free_q (z_queues z)) (pl_free l) /\
       fifo_rep (alloc_q (z_queues z)) (va2pa <$> pl_alloc l) /\ fifo_rep (tx_q (z_queues z)) (pl_tx l)
  else l = no_places.

(** [app]: the buffers of the process; [lost]: buffers nobody can reach any more;
    [pls]: the contents of the queues of every slot. *)
Record sys_inv s (q app lost : list nat) (pls : list places) : Prop := {
  si_slots : slots_rep (ks_slots s) q;
  si_init : initialized (ks_slots s) = true;
  si_max : max_ifaces (ks_slots s) = Z.of_nat (length (slots (ks_slots s)));
  si_len : length (ks_zones s) = length (slots (ks_slots s));
  si_zones : Forall2 zone_ok (ks_zones s) pls;
  si_free i z : ks_zones s !! i = Some z -> (ctx_in_use (z_ctx z) = false <-> i ∈ q);
  si_ctx i z : ks_zones s !! i = Some z -> ctx_in_use (z_ctx z) = true ->
    ctx_slot_id (z_ctx z) = i /\ ctx_pool (z_ctx z) = Some mp;
  si_devs : devs_ok (ks_devs s);
  si_known i name :
    (exists d, d ∈ ks_devs s /\ kd_zone d = i /\ kd_name d = name) <->
    (exists z, ks_zones s !! i = Some z /\ ctx_in_use (z_ctx z) = true /\ ctx_name (z_ctx z) = name);
  si_mem : mem_inv (ks_mem s) total (app ++ lost ++ concat (outside <$> pls))
}.

Lemma places_insert i l pls :
  (i < length pls)%nat -> concat (outside <$> <[i := l]> pls) ≡ₚ outside l ++ concat (outside <$> delete i pls).
Proof.
  revert i. induction pls as [|x pls IH]; intros [|i] Hi; cbn in *; try lia; [done|].
  rewrite IH by lia. solve_Permutation.
Qed.

Lemma places_lookup i l pls : pls !! i = Some l -> concat (outside <$> pls) ≡ₚ outside l ++ concat (outside <$> delete i pls).
Proof.
  intros Hl. rewrite <- (places_insert i l pls) by by eapply lookup_lt_Some. by rewrite list_insert_id.
Qed.

(** What the other devices hold. *)
Definition others (lost : list nat) (pls : list places) (i : nat) : list nat := lost ++ concat (outside <$> delete i pls).

(** The system as one device sees it: everything else is held by the process. *)
Lemma device_view s q app lost pls i z :
  sys_inv s q app lost pls -> ks_zones s !! i = Some z -> ctx_in_use (z_ctx z) = true ->
  exists l, pls !! i = Some l /\ pl_app l = [] /\
    kni_inv (world_of z (ks_mem s)) total (Places (app ++ others lost pls i) (pl_rx l) (pl_free l) (pl_alloc l) (pl_tx l)) /\
    lens (world_of z (ks_mem s)) = replicate 4 KNI_FIFO_COUNT_MAX.
Proof.
  intros Hi Hz Hu. destruct (Forall2_lookup_l _ _ _ _ _ (si_zones _ _ _ _ _ Hi) Hz) as (l & Hl & _ & Happ & Hok).
  rewrite Hu in Hok. destruct Hok as (Hlen & Hrx & Hfr & Hal & Htx). exists l. split_and!; [done|done| |].
  - split; cbn; try done. eapply mem_inv_perm; [|exact (si_mem _ _ _ _ _ Hi)].
    rewrite (places_lookup i l pls Hl). unfold others, outside. cbn. rewrite Happ. solve_Permutation.
  - unfold lens, world_of. cbn. unfold all_fifos in Hlen. rewrite !Forall_cons in Hlen.
    destruct Hlen as (-> & -> & -> & -> & _). done.
Qed.

(** Everything about slot [i] may change, nothing about the others. *)
Lemma sys_zone s q app lost pls i z2 l2 p2 q2 devs2 app2 lost2 mem2 :
  sys_inv s q app lost pls -> (i < length (ks_zones s))%nat ->
  slots_rep p2 q2 -> same_shape (ks_slots s) p2 -> zone_ok z2 l2 ->
  (forall j, j <> i -> (j ∈ q2 <-> j ∈ q)) -> (ctx_in_use (z_ctx z2) = false <-> i ∈ q2) ->
  (ctx_in_use (z_ctx z2) = true -> ctx_slot_id (z_ctx z2) = i /\ ctx_pool (z_ctx z2) = Some mp) ->
  devs_ok devs2 -> (forall d, kd_zone d <> i -> (d ∈ devs2 <-> d ∈ ks_devs s)) ->
  (forall name, (exists d, d ∈ devs2 /\ kd_zone d = i /\ kd_name d = name) <-> ctx_in_use (z_ctx z2) = true /\ ctx_name (z_ctx z2) = name) ->
  mem_inv mem2 total (app2 ++ lost2 ++ outside l2 ++ concat (outside <$> delete i pls)) ->
  sys_inv (KS p2 (<[i := z2]> (ks_zones s)) devs2 mem2) q2 app2 lost2 (<[i := l2]> pls).
Proof.
  intros [H1 H2 H3 H4 H5 H6 H7 H8 H9 H10] Hlt Hs2 (Hs3 & Hs4 & Hs5) Hz2 Hq Hu Hc Hd Hdo Hdi Hm.
  assert (i < length pls)%nat as Hlp by (rewrite <- (Forall2_length _ _ _ H5); done).
  split; cbn; try done; try congruence.
  - by rewrite length_insert, Hs5.
  - by apply Forall2_insert.
  - intros j z Hj. apply list_lookup_insert_Some in Hj as [(-> & <- & _)|[Hne Hj]]; [done|]. rewrite Hq by done. by apply H6.
  - intros j z Hj. apply list_lookup_insert_Some in Hj as [(-> & <- & _)|[Hne Hj]]; [done|]. by apply H7.
  - intros j name. destruct (decide (j = i)) as [->|Hne].
    + rewrite Hdi, list_lookup_insert_eq by done. naive_solver.
    + rewrite list_lookup_insert_ne by done. rewrite <- H9. split; intros (d & Hin & Hz & Hn); exists d; (split; [|done]);
        apply (Hdo d); congruence.
  - eapply mem_inv_perm; [|exact Hm]. rewrite places_insert by done. done.
Qed.

(** ... and after an operation of the device. *)
Lemma device_back s q app lost pls i z app' l w :
  sys_inv s q app lost pls -> ks_zones s !! i = Some z -> ctx_in_use (z_ctx z) = true ->
  kni_inv w total (Places (app' ++ others lost pls i) (pl_rx l) (pl_free l) (pl_alloc l) (pl_tx l)) -> pl_app l = [] ->
  lens w = replicate 4 KNI_FIFO_COUNT_MAX ->
  sys_inv (KS (ks_slots s) (<[i := Zones (z_ctx z) (kw_queues w) (z_req z) (z_resp z) (kw_stats w)]> (ks_zones s)) (ks_devs s) (kw_mem w))
    q app' lost (<[i := l]> pls).
Proof.
  intros Hi Hz Hu [Hm Hrx Hfr Hal Htx] Happ Hlens. pose proof (lookup_lt_Some _ _ _ Hz) as Hlt.
  pose proof Hi as [H1 H2 H3 H4 H5 H6 H7 H8 H9 H10].
  eapply sys_zone; try done; cbn [z_ctx].
  - destruct (Forall2_lookup_l _ _ _ _ _ H5 Hz) as (l0 & _ & Hbuf & _ & Hok). rewrite Hu in Hok.
    destruct Hok as (Hlen & _). unfold zone_ok. cbn [z_ctx z_queues]. rewrite Hu.
    unfold all_fifos in *. cbn [z_queues z_req z_resp]. rewrite !Forall_cons in Hbuf, Hlen. rewrite !Forall_cons, !Forall_nil.
    unfold lens in Hlens. cbn in Hlens. injection Hlens as L1 L2 L3 L4.
    destruct Hbuf as (_ & _ & _ & _ & B5 & B6 & _), Hlen as (_ & _ & _ & _ & L5 & L6 & _).
    split_and!; try done; rewrite ?(fh_buf _ (fq_shape _ _ Htx)), ?(fh_buf _ (fq_shape _ _ Hrx)), ?(fh_buf _ (fq_shape _ _ Hal)),
      ?(fh_buf _ (fq_shape _ _ Hfr)), ?L1, ?L2, ?L3, ?L4; done.
  - by apply H6.
  - by apply H7.
  - intros name. rewrite H9. split; [intros (z' & Hz' & ?); by simplify_eq|]. intros [_ En]. by exists z.
  - eapply mem_inv_perm; [|exact Hm]. unfold others, outside. cbn. rewrite Happ. solve_Permutation.
Qed.

(** *** Creating a device *)

Lemma fresh_spec z :
  Forall (fun f => length (f_buffer f) = Z.to_nat KNI_FIFO_COUNT_MAX) (all_fifos z) ->
  exists z', fresh_zones z = Some z' /\ z_ctx z' = z_ctx z /\ forall c, zone_ok (set_ctx c z') no_places.
Proof.
  unfold all_fifos. rewrite !Forall_cons. intros (B1 & B2 & B3 & B4 & B5 & B6 & _).
  change (Z.to_nat KNI_FIFO_COUNT_MAX) with (Z.to_nat (2 ^ 10)) in *.
  destruct (fifo_init_spec 10 _ ltac:(lia) B1) as (f1 & E1 & R1 & L1), (fifo_init_spec 10 _ ltac:(lia) B2) as (f2 & E2 & R2 & L2),
    (fifo_init_spec 10 _ ltac:(lia) B3) as (f3 & E3 & R3 & L3), (fifo_init_spec 10 _ ltac:(lia) B4) as (f4 & E4 & R4 & L4),
    (fifo_init_spec 10 _ ltac:(lia) B5) as (f5 & E5 & R5 & L5), (fifo_init_spec 10 _ ltac:(lia) B6) as (f6 & E6 & R6 & L6).
  change (2 ^ 10) with KNI_FIFO_COUNT_MAX in *.
  unfold fresh_zones. rewrite E1. cbn [mbind option_bind]. rewrite E2. cbn [mbind option_bind]. rewrite E3. cbn [mbind option_bind].
  rewrite E4. cbn [mbind option_bind]. rewrite E5. cbn [mbind option_bind]. rewrite E6. cbn [mbind option_bind].
  eexists. split; [reflexivity|]. split; [done|]. intros c. unfold zone_ok, all_fifos. cbn [z_queues z_req z_resp z_ctx set_ctx tx_q rx_q alloc_q free_q].
  rewrite !Forall_cons, !Forall_nil. split; [|split; [done|]].
  - split_and!; try done; match goal with R : fifo_rep ?f _, L : f_len ?f = _ |- length (f_buffer ?f) = _ =>
      rewrite (fh_buf _ (fq_shape _ _ R)), L; done end.
  - destruct (ctx_in_use c); [|done]. split_and!; try done. by rewrite !Forall_cons, Forall_nil.
Qed.

Definition ctx_for (i : nat) (conf : rte_kni_conf) (ops : option rte_kni_ops) (b : bool) : rte_kni :=
  Ctx (take (RTE_KNI_NAMESIZE - 1) (conf_name conf)) (group_id conf) i (Some mp) (mbuf_size conf) (default no_ops ops) b.

Definition info_for (i : nat) (conf : rte_kni_conf) : rte_kni_device_info :=
  KDevInfo (take (RTE_KNI_NAMESIZE - 1) (conf_name conf)) i (conf_function conf) (conf_vendor conf)
    (conf_device conf) (core_id conf) (force_bind conf) (group_id conf) (mbuf_size conf).

(** Up to the call of the kernel. *)
Lemma alloc_begin s q app lost pls i :
  sys_inv s (i :: q) app lost pls ->
  exists p z z' sl, kni_memzone_pool_alloc (ks_slots s) = Ret (Some i, p) /\ slots_rep p q /\ same_shape (ks_slots s) p /\
    slots p !! i = Some sl /\ s_id sl = i /\ ks_zones s !! i = Some z /\ ctx_in_use (z_ctx z) = false /\
    pls !! i = Some no_places /\ fresh_zones z = Some z' /\ (forall c, zone_ok (set_ctx c z') no_places) /\
    i ∉ kd_zone <$> ks_devs s.
Proof.
  intros [H1 H2 H3 H4 H5 H6 H7 H8 H9 H10]. destruct (slots_alloc _ _ H1) as (p & E & Hr & Hsh & sl & Hsl & Hid).
  pose proof (lookup_lt_Some _ _ _ Hsl) as Hlt. pose proof Hsh as (_ & _ & Hl).
  destruct (lookup_lt_is_Some_2 (ks_zones s) i) as [z Hz]; [lia|].
  assert (ctx_in_use (z_ctx z) = false) as Hu by (apply (H6 i z Hz); set_solver).
  destruct (Forall2_lookup_l _ _ _ _ _ H5 Hz) as (l & Hpl & Hbuf & _ & Hok). rewrite Hu in Hok. subst l.
  destruct (fresh_spec z Hbuf) as (z' & Ef & _ & Hok).
  exists p, z, z', sl. split_and!; try done. intros (d & -> & Hd)%list_elem_of_fmap.
  destruct (proj1 (H9 (kd_zone d) (kd_name d)) (ex_intro _ d (conj Hd (conj eq_refl eq_refl)))) as (z0 & Hz0 & Hu0 & _). congruence.
Qed.

Lemma alloc_unfold e conf ops s q app lost pls i p z z' sl :
  sys_inv s (i :: q) app lost pls -> default 0 (list.head (conf_name conf)) <> 0 ->
  kni_memzone_pool_alloc (ks_slots s) = Ret (Some i, p) -> slots p !! i = Some sl -> s_id sl = i ->
  ks_zones s !! i = Some z -> ctx_in_use (z_ctx z) = false -> fresh_zones z = Some z' ->
  forall ret devs, kni_ioctl_create e (info_for i conf) (ks_devs s) = Ret (ret, devs) ->
  rte_kni_alloc buf_delta e (Some mp) (Some conf) ops s =
  let s1 b := KS p (<[i := set_ctx (ctx_for i conf ops b) z']> (ks_zones s)) devs (ks_mem s) in
  if ret <? 0 then (on_slots (kni_memzone_pool_release i) ;; mret None) (s1 false)
  else (on_device i (kni_allocate_mbufs buf_delta (Some mp)) ;; mret (Some i)) (s1 true).
Proof.
  intros Hi Hname Ea Hsl Hid Hz Hu Ef ret devs Ec. pose proof (lookup_lt_Some _ _ _ Hz) as Hlt.
  unfold rte_kni_alloc. destruct (Z.eqb_spec (default 0 (list.head (conf_name conf))) 0); [done|].
  unfold mbind at 1, M_bind, gets. rewrite (si_init _ _ _ _ _ Hi). cbn [negb].
  unfold mbind at 1, M_bind, on_slots at 1. rewrite Ea.
  unfold mbind at 1, M_bind, load_zones at 1. cbn [ks_zones]. rewrite Hz, Hu.
  unfold mbind at 1, M_bind, on_slots at 1. unfold load_slot. cbn [ks_slots]. rewrite Hsl.
  unfold mbind at 1, M_bind, init_zones, load_zones, mbind at 1, M_bind. cbn [ks_zones ks_slots ks_devs ks_mem]. rewrite Hz, Ef.
  unfold upd_zones at 1. cbn [ks_zones ks_slots ks_devs ks_mem]. rewrite Hz. rewrite Hid. fold (ctx_for i conf ops false). fold (info_for i conf).
  unfold mbind at 1, M_bind, on_devs. cbn [ks_devs ks_slots ks_zones ks_mem]. rewrite Ec. cbv zeta.
  destruct (ret <? 0); [done|]. unfold mbind at 1, M_bind, upd_zones. cbn [ks_zones ks_slots ks_devs ks_mem].
  rewrite list_lookup_insert_eq by done. rewrite list_insert_insert_eq. done.
Qed.

(** What [rte_kni_alloc] does with the first free slot. *)
Lemma alloc_spec e conf ops s q app lost pls :
  sys_inv s q app lost pls -> default 0 (list.head (conf_name conf)) <> 0 ->
  exists r s', rte_kni_alloc buf_delta e (Some mp) (Some conf) ops s = Ret (r, s') /\
    match q with
    | [] => r = None /\ s' = s
    | i :: q' =>
      (r = None /\ sys_inv s' (q' ++ [i]) app lost pls /\ ks_devs s' = ks_devs s /\
        exists ret, ret < 0 /\ kni_ioctl_create e (info_for i conf) (ks_devs s) = Ret (ret, ks_devs s)) \/
      (r = Some i /\ exists k, sys_inv s' q' app lost (<[i := Places [] [] [] k []]> pls) /\
        exists d, ks_devs s' = d :: ks_devs s /\ kd_name d = take (RTE_KNI_NAMESIZE - 1) (conf_name conf) /\ kd_zone d = i /\
          kd_mbuf_size d = mbuf_size conf)
    end.
Proof.
  intros Hi Hname. destruct q as [|i q].
  { exists None, s. split; [|done]. unfold rte_kni_alloc. destruct (Z.eqb_spec (default 0 (list.head (conf_name conf))) 0); [done|].
    unfold mbind at 1, M_bind, gets. rewrite (si_init _ _ _ _ _ Hi). cbn [negb]. unfold mbind at 1, M_bind, on_slots.
    rewrite (slots_alloc _ _ (si_slots _ _ _ _ _ Hi)). by destruct s. }
  destruct (alloc_begin _ _ _ _ _ _ Hi) as (p & z & z' & sl & Ea & Hr & Hsh & Hsl & Hid & Hz & Hu & Hpl & Ef & Hok & Hnew).
  assert (length (di_name (info_for i conf)) > 0)%nat as Hlen.
  { cbn [di_name info_for]. destruct (conf_name conf); [done|]. cbn. lia. }
  destruct (create_spec e (info_for i conf) (ks_devs s) (si_devs _ _ _ _ _ Hi) Hlen Hnew) as (ret & devs & Ec & Hc).
  rewrite (alloc_unfold e conf ops _ _ _ _ _ _ _ _ _ _ Hi Hname Ea Hsl Hid Hz Hu Ef _ _ Ec). cbv zeta.
  pose proof (lookup_lt_Some _ _ _ Hz) as Hlt. pose proof (sl_nodup _ _ (si_slots _ _ _ _ _ Hi)) as Hnd. apply NoDup_cons in Hnd as [Hiq Hnd].
  assert (mem_inv (ks_mem s) total (app ++ lost ++ outside no_places ++ concat (outside <$> delete i pls))) as Hm.
  { eapply mem_inv_perm; [|exact (si_mem _ _ _ _ _ Hi)]. by rewrite (places_lookup i no_places). }
  destruct Hc as [[Hneg ->]|(-> & Hdok & d & -> & Hdn & Hdz & Hdm)].
  - destruct (Z.ltb_spec ret 0); [|lia]. destruct (slots_release p q i Hr Hiq ltac:(by eexists)) as (p' & Er & Hr' & Hsh').
    unfold mbind, M_bind, on_slots. cbn [ks_slots]. rewrite Er. eexists _, _. split; [reflexivity|]. left. split; [done|].
    split; [|split; [done|by exists ret]]. cbn [ks_zones ks_devs ks_mem]. rewrite <- (list_insert_id pls i no_places Hpl).
    eapply sys_zone; cbn [set_ctx z_ctx ctx_for ctx_in_use]; try done; [destruct Hsh as (?&?&?), Hsh' as (?&?&?); by split_and!; etrans|..].
    + intros j Hj. set_solver.
    + set_solver.
    + apply (si_devs _ _ _ _ _ Hi).
    + intros name. split; [|naive_solver]. intros (d & Hd & Hdz & _). exfalso. apply Hnew. rewrite <- Hdz. by apply list_elem_of_fmap_2.
  - cbn [Z.ltb Z.compare]. set (s1 := KS _ _ _ _).
    assert (sys_inv s1 q app lost pls) as Hi1.
    { unfold s1. rewrite <- (list_insert_id pls i no_places Hpl).
      eapply sys_zone; cbn [set_ctx z_ctx ctx_for ctx_in_use ctx_slot_id ctx_pool ctx_name]; try done.
      - intros j Hj. set_solver.
      - intros d' Hd'. rewrite elem_of_cons. split; [intros [->|?]; [by cbn in Hdz|done]|by right].
      - intros name. split.
        + intros (d' & Hd' & Hdz' & Hdn'). apply elem_of_cons in Hd' as [->|Hd']; [split; [done|]; by rewrite <- Hdn', Hdn|].
          exfalso. apply Hnew. rewrite <- Hdz'. by apply list_elem_of_fmap_2.
        + intros [_ <-]. exists d. split; [set_solver|]. done. }
    assert (ks_zones s1 !! i = Some (set_ctx (ctx_for i conf ops true) z')) as Hz1 by by apply list_lookup_insert_eq.
    destruct (device_view _ _ _ _ _ i _ Hi1 Hz1 eq_refl) as (l & Hl & Happ & Hv & Hlens). rewrite Hpl in Hl. injection Hl as <-.
    destruct (allocate_mbufs_spec _ _ _ _ _ _ Hv) as (w & k & Ew & Hlw & Hw). cbn [pl_app pl_rx pl_free pl_alloc pl_tx no_places Datatypes.app] in Hw.
    unfold mbind, M_bind, on_device. rewrite Hz1, Ew. eexists _, _. split; [reflexivity|]. right. split; [done|]. exists k. split.
    + apply (device_back s1 q app lost pls i _ app (Places [] [] [] k []) w Hi1 Hz1 eq_refl); [exact Hw|done|by rewrite Hlw].
    + by exists d.
Qed.

(** *** Removing a device *)

(** A device that the kernel does not know is not served any more. *)
Lemma wait_unknown i retry : forall s z,
  ks_zones s !! i = Some z -> (forall d, d ∈ ks_devs s -> kd_zone d <> i) -> wait_rx kva_delta i retry s = Ret (tt, s).
Proof.
  induction retry as [|retry IH]; intros s z Hz Hd; cbn [wait_rx]; unfold mbind, M_bind, load_zones; rewrite Hz;
    destruct (kni_fifo_count (rx_q (z_queues z)) =? 0); try done.
  assert (kernel_poll kva_delta i s = Ret (tt, s)) as ->; [|by eapply IH].
  unfold kernel_poll, mbind, M_bind, gets. destruct (existsb _ (ks_devs s)) eqn:Ex; [|done].
  apply existsb_exists in Ex as (d & Hin & E). apply Nat.eqb_eq in E. by destruct (Hd d); [apply list_elem_of_In|].
Qed.

(** The name of a device in use: short, and known to the kernel for this device only. *)
Lemma name_known s q app lost pls i z :
  sys_inv s q app lost pls -> ks_zones s !! i = Some z -> ctx_in_use (z_ctx z) = true ->
  (0 < length (ctx_name (z_ctx z)) < RTE_KNI_NAMESIZE)%nat /\
  forall d, d ∈ ks_devs s -> (kd_name d = ctx_name (z_ctx z) <-> kd_zone d = i).
Proof.
  intros Hi Hz Hu. destruct (si_devs _ _ _ _ _ Hi) as [Hn Hzn Hs].
  destruct (proj2 (si_known _ _ _ _ _ Hi i (ctx_name (z_ctx z))) (ex_intro _ z (conj Hz (conj Hu eq_refl)))) as (d0 & Hd0 & Hz0 & Hn0).
  rewrite <- Hn0. split; [by apply Hs|]. intros d Hd. split.
  - intros E. apply list_elem_of_lookup in Hd as [a Ha], Hd0 as [b Hb].
    assert (a = b) as -> by (eapply (NoDup_lookup (kd_name <$> ks_devs s) a b (kd_name d)); rewrite ?list_lookup_fmap, ?Ha, ?Hb; cbn; congruence).
    congruence.
  - intros E. apply list_elem_of_lookup in Hd as [a Ha], Hd0 as [b Hb].
    assert (a = b) as -> by (eapply (NoDup_lookup (kd_zone <$> ks_devs s) a b (kd_zone d)); rewrite ?list_lookup_fmap, ?Ha, ?Hb; cbn; congruence).
    congruence.
Qed.

Lemma release_spec objs s q app lost pls i z :
  sys_inv s q app lost pls -> ks_zones s !! i = Some z -> ctx_in_use (z_ctx z) = true -> objs ≡ₚ total ->
  exists l s', pls !! i = Some l /\ rte_kni_release buf_delta kva_delta true objs (Some i) s = Ret (0, s') /\
    sys_inv s' (q ++ [i]) app (pl_rx l ++ lost) (<[i := no_places]> pls) /\
    (forall d, d ∈ ks_devs s' <-> d ∈ ks_devs s /\ kd_zone d <> i).
Proof.
  intros Hi Hz Hu Ho. destruct (name_known _ _ _ _ _ _ _ Hi Hz Hu) as [Hlen Hname].
  destruct (remove_spec _ _ (si_devs _ _ _ _ _ Hi) (proj2 Hlen)) as [Hdok Hdel].
  assert (forall d, d ∈ remove_dev (ctx_name (z_ctx z)) (ks_devs s) <-> d ∈ ks_devs s /\ kd_zone d <> i) as Hdel'.
  { intros d. rewrite Hdel. split; intros [Hd Hne]; (split; [done|]); by rewrite <- (Hname d Hd) in * || rewrite (Hname d Hd) in *. }
  destruct (device_view _ _ _ _ _ _ _ Hi Hz Hu) as (l & Hl & Happ & Hv & Hlens).
  destruct (release_queues_spec _ _ _ _ objs _ _ Hv Ho) as (w & Ew & Hlw & Hw).
  destruct (si_ctx _ _ _ _ _ Hi i z Hz Hu) as [Hsid _]. pose proof (lookup_lt_Some _ _ _ Hz) as Hlt.
  assert (i ∉ q) as Hiq by (intros Hin; apply (si_free _ _ _ _ _ Hi i z Hz) in Hin; congruence).
  destruct (slots_release (ks_slots s) q i (si_slots _ _ _ _ _ Hi) Hiq) as (p & Ep & Hp & Hsh).
  { apply lookup_lt_is_Some. rewrite <- (si_len _ _ _ _ _ Hi). done. }
  unfold rte_kni_release. unfold mbind at 1, M_bind, load_zones at 1. rewrite Hz, Hu. cbn [negb].
  unfold mbind at 1, M_bind, on_devs, kni_ioctl_release. cbn [negb]. destruct (Nat.eqb_spec (length (ctx_name (z_ctx z))) 0); [lia|].
  unfold mbind at 1, M_bind, modify, mret at 1, M_ret. cbn [Z.ltb Z.compare]. set (s1 := KS _ _ _ _).
  unfold mbind at 1, M_bind. rewrite (wait_unknown i 5 s1 z Hz) by (intros d Hd; by apply Hdel' in Hd as [_ ?]).
  unfold mbind at 1, M_bind, on_device. cbn [s1 ks_zones ks_mem]. rewrite Hz, Ew. cbv zeta.
  unfold mbind at 1, M_bind, upd_zones. cbn [ks_zones]. rewrite list_lookup_insert_eq by done. rewrite list_insert_insert_eq.
  unfold mbind at 1, M_bind, gets. cbn [s1 ks_slots ks_devs ks_mem]. rewrite Hsid, (si_max _ _ _ _ _ Hi).
  rewrite (si_len _ _ _ _ _ Hi) in Hlt. destruct (Z.ltb_spec (Z.of_nat (length (slots (ks_slots s)))) (Z.of_nat i)); [lia|].
  unfold mbind at 1, M_bind, on_slots. cbn [ks_slots]. rewrite Ep. eexists l, _. split; [done|]. split; [reflexivity|].
  split; [|done]. cbn [ks_zones ks_devs ks_mem]. rewrite <- (si_len _ _ _ _ _ Hi) in Hlt. eapply sys_zone; try done.
  - pose proof (device_back s q app lost pls i z app (Places [] (pl_rx l) [] [] []) w Hi Hz Hu Hw eq_refl ltac:(by rewrite Hlw)) as Hb.
    destruct (Forall2_lookup_l _ _ _ i _ (si_zones _ _ _ _ _ Hb) (list_lookup_insert_eq _ _ _ Hlt)) as (_ & _ & Hbuf & _).
    split; [exact Hbuf|]. done.
  - intros j Hj. set_solver.
  - cbn. set_solver.
  - intros d Hd. rewrite Hdel'. naive_solver.
  - intros name. cbn. split; [|naive_solver]. intros (d & Hd & Hdz & _). by apply Hdel' in Hd as [_ ?].
  - destruct Hw as [Hm _ _ _ _]. eapply mem_inv_perm; [|exact Hm]. unfold others, outside. cbn. solve_Permutation.
Qed.

(** *** A new system *)

(** The state before [rte_kni_init]: no device, queues of the right size, and every
    context clear. *)
Record sys_new s (max : nat) (app : list nat) : Prop := {
  sn_init : initialized (ks_slots s) = false;
  sn_zones : Forall (fun z => ctx_in_use (z_ctx z) = false /\
    Forall (fun f => length (f_buffer f) = Z.to_nat KNI_FIFO_COUNT_MAX) (all_fifos z)) (ks_zones s);
  sn_len : length (ks_zones s) = max;
  sn_pos : (0 < max)%nat;
  sn_devs : ks_devs s = [];
  sn_mem : mem_inv (ks_mem s) total app
}.

Lemma init_spec s max app l :
  sys_new s max app -> length l = max ->
  exists s', on_slots (rte_kni_init max true (Some l) (fun _ => true)) s = Ret (tt, s') /\
    sys_inv s' (seq 0 max) app [] (replicate max no_places).
Proof.
  intros [Hn Hz Hlen Hpos Hd Hm] Hl. destruct (kni_init_spec max l (ks_slots s) Hpos Hl Hn) as (p & E & Hr & Hi & Hmax & Hls).
  unfold on_slots. rewrite E. eexists. split; [reflexivity|]. rewrite Forall_lookup in Hz. split; cbn; try done; try congruence.
  - apply Forall2_same_length_lookup_2; [by rewrite length_replicate|]. intros i z pl Hzi Hp.
    apply lookup_replicate in Hp as [-> _]. destruct (Hz i z Hzi) as [Hu Hb]. split; [done|]. split; [done|]. by rewrite Hu.
  - intros i z Hzi. destruct (Hz i z Hzi) as [-> _]. apply lookup_lt_Some in Hzi. split; [|done]. intros _. apply elem_of_seq. lia.
  - intros i z Hzi. destruct (Hz i z Hzi) as [-> _]. done.
  - rewrite Hd. split; [constructor|constructor|set_solver].
  - intros i name. rewrite Hd. split; [set_solver|]. intros (z & Hzi & Hu & _). destruct (Hz i z Hzi). congruence.
  - replace (concat (outside <$> replicate max no_places)) with (@nil nat); [by rewrite app_nil_r|].
    clear. induction max as [|max IH]; [done|]. done.
Qed.

(** *** Every sequence of calls *)

Context (objs : list nat).

Definition on_sys_mem {A} (m : M (mem P) A) : M (kni_sys P) A := fun s =>
  match m (ks_mem s) with
  | Ret (a, mem') => Ret (a, KS (ks_slots s) (ks_zones s) (ks_devs s) mem')
  | Fault => Fault
  | Diverge => Diverge
  end.

(** A device the process may use. *)
Definition open_device s (i : nat) : Prop := exists z, ks_zones s !! i = Some z /\ ctx_in_use (z_ctx z) = true.

(** One call, of the process on a device it opened or of the kernel on a device it
    knows; with the buffers of the process. *)
Inductive sys_step : kni_sys P * list nat -> kni_sys P * list nat -> Prop :=
| sys_alloc s app e conf ops r s' :
    rte_kni_alloc buf_delta e (Some mp) conf ops s = Ret (r, s') -> sys_step (s, app) (s', app)
| sys_release s app copy_ok i r s' :
    (i < length (ks_zones s))%nat -> rte_kni_release buf_delta kva_delta copy_ok objs (Some i) s = Ret (r, s') ->
    sys_step (s, app) (s', app)
| sys_tx s app i mbufs rest n s' :
    open_device s i -> app ≡ₚ mbufs ++ rest -> on_device i (rte_kni_tx_burst buf_delta mbufs) s = Ret (n, s') ->
    sys_step (s, app) (s', drop (Z.to_nat n) mbufs ++ rest)
| sys_rx s app i num l s' :
    open_device s i -> on_device i (rte_kni_rx_burst buf_delta (Some mp) num) s = Ret (l, s') ->
    sys_step (s, app) (s', l ++ app)
| sys_kernel_rx s app d skb l s' :
    d ∈ ks_devs s -> on_device (kd_zone d) (kni_net_rx_normal kva_delta skb) s = Ret (l, s') ->
    sys_step (s, app) (s', app)
| sys_kernel_tx s app d len l s' :
    d ∈ ks_devs s -> on_device (kd_zone d) (kni_net_tx kva_delta (kd_mbuf_size d) len) s = Ret (l, s') ->
    sys_step (s, app) (s', app)
| sys_mem_alloc s app m s' :
    on_sys_mem (rte_pktmbuf_alloc mp) s = Ret (Some m, s') -> sys_step (s, app) (s', m :: app)
| sys_mem_free s app l rest s' :
    app ≡ₚ l ++ rest -> on_sys_mem (free_each l) s = Ret (tt, s') -> sys_step (s, app) (s', rest).

Definition sys_good (st : kni_sys P * list nat) : Prop := exists q lost pls, sys_inv st.1 q st.2 lost pls.

(** No call faults. *)
Definition sys_runs (st : kni_sys P * list nat) : Prop :=
  (forall e conf ops, exists r, rte_kni_alloc buf_delta e (Some mp) conf ops st.1 = Ret r) /\
  (forall copy_ok i, (i < length (ks_zones st.1))%nat -> exists r, rte_kni_release buf_delta kva_delta copy_ok objs (Some i) st.1 = Ret r) /\
  (forall i mbufs rest, open_device st.1 i -> st.2 ≡ₚ mbufs ++ rest -> exists r, on_device i (rte_kni_tx_burst buf_delta mbufs) st.1 = Ret r) /\
  (forall i num, open_device st.1 i -> exists r, on_device i (rte_kni_rx_burst buf_delta (Some mp) num) st.1 = Ret r) /\
  (forall d skb, d ∈ ks_devs st.1 -> exists r, on_device (kd_zone d) (kni_net_rx_normal kva_delta skb) st.1 = Ret r) /\
  (forall d len, d ∈ ks_devs st.1 -> exists r, on_device (kd_zone d) (kni_net_tx kva_delta (kd_mbuf_size d) len) st.1 = Ret r).

Lemma kni_inv_app w a a' rx fr al tx :
  a ≡ₚ a' -> kni_inv w total (Places a rx fr al tx) -> kni_inv w total (Places a' rx fr al tx).
Proof.
  intros Hp [Hm Hrx Hfr Hal Htx]. split; try done. eapply mem_inv_perm; [|exact Hm]. unfold outside. cbn. by rewrite Hp.
Qed.

(** A function on packets, called for a device in use. *)
Lemma on_device_good {A} (op : M (kni_world P) A) (post : A -> list nat) s q app lost pls i :
  sys_inv s q app lost pls -> open_device s i ->
  (forall w rest rx fr al tx, kni_inv w total (Places (app ++ rest) rx fr al tx) ->
    exists a w' rx' fr' al' tx', op w = Ret (a, w') /\ lens w' = lens w /\ kni_inv w' total (Places (post a ++ rest) rx' fr' al' tx')) ->
  exists a s', on_device i op s = Ret (a, s') /\ sys_good (s', post a).
Proof.
  intros Hi (z & Hz & Hu) Hop. destruct (device_view _ _ _ _ _ _ _ Hi Hz Hu) as (l & Hl & Happ & Hv & Hlens).
  destruct (Hop _ _ _ _ _ _ Hv) as (a & w' & rx & fr & al & tx & E & Hlw & Hw).
  unfold on_device. rewrite Hz, E. eexists a, _. split; [reflexivity|].
  exists q, lost, (<[i := Places [] rx fr al tx]> pls). by apply (device_back s q app lost pls i z (post a) _ w'); try done; rewrite Hlw.
Qed.

Lemma tx_good s app i mbufs rest :
  sys_good (s, app) -> open_device s i -> app ≡ₚ mbufs ++ rest ->
  exists n s', on_device i (rte_kni_tx_burst buf_delta mbufs) s = Ret (n, s') /\ sys_good (s', drop (Z.to_nat n) mbufs ++ rest).
Proof.
  intros (q & lost & pls & Hi) Ho Hp.
  apply (on_device_good _ (fun n => drop (Z.to_nat n) mbufs ++ rest) s q app lost pls i Hi Ho).
  intros w rs rx fr al tx Hw. destruct (tx_burst_spec _ _ _ w total _ mbufs (rest ++ rs) Hw) as (w' & E & Hl & Hw').
  { cbn. rewrite Hp. solve_Permutation. }
  eexists _, _, _, _, _, _. split; [exact E|]. split; [exact Hl|]. rewrite Nat2Z.id. rewrite <- app_assoc. exact Hw'.
Qed.

Lemma rx_good s app i num :
  sys_good (s, app) -> open_device s i ->
  exists l s', on_device i (rte_kni_rx_burst buf_delta (Some mp) num) s = Ret (l, s') /\ sys_good (s', l ++ app).
Proof.
  intros (q & lost & pls & Hi) Ho. apply (on_device_good _ (fun l => l ++ app) s q app lost pls i Hi Ho).
  intros w rs rx fr al tx Hw. destruct (rx_burst_spec _ _ _ w total _ num Hw) as (w' & x & E & Hl & Hw').
  eexists _, _, _, _, _, _. split; [exact E|]. split; [exact Hl|]. rewrite <- app_assoc. exact Hw'.
Qed.

Lemma known_open s q app lost pls d : sys_inv s q app lost pls -> d ∈ ks_devs s -> open_device s (kd_zone d).
Proof.
  intros Hi Hd. destruct (proj1 (si_known _ _ _ _ _ Hi (kd_zone d) (kd_name d)) (ex_intro _ d (conj Hd (conj eq_refl eq_refl)))) as (z & ? & ? & _).
  by exists z.
Qed.

Lemma kernel_rx_good s app d skb :
  sys_good (s, app) -> d ∈ ks_devs s ->
  exists l s', on_device (kd_zone d) (kni_net_rx_normal kva_delta skb) s = Ret (l, s') /\ sys_good (s', app).
Proof.
  intros (q & lost & pls & Hi) Hd. apply (on_device_good _ (fun _ => app) s q app lost pls _ Hi (known_open _ _ _ _ _ _ Hi Hd)).
  intros w rs rx fr al tx Hw. destruct (kernel_rx_spec _ _ _ w total _ skb Hw) as (w' & E & Hl & Hw').
  eexists _, _, _, _, _, _. split; [exact E|]. split; [exact Hl|]. exact Hw'.
Qed.

Lemma kernel_tx_good s app d len :
  sys_good (s, app) -> d ∈ ks_devs s ->
  exists l s', on_device (kd_zone d) (kni_net_tx kva_delta (kd_mbuf_size d) len) s = Ret (l, s') /\ sys_good (s', app).
Proof.
  intros (q & lost & pls & Hi) Hd. apply (on_device_good _ (fun _ => app) s q app lost pls _ Hi (known_open _ _ _ _ _ _ Hi Hd)).
  intros w rs rx fr al tx Hw. destruct (kernel_tx_spec _ _ _ w total _ (kd_mbuf_size d) len Hw) as (out & w' & E & Hl & Hw' & _).
  eexists _, _, _, _, _, _. split; [exact E|]. split; [exact Hl|]. exact Hw'.
Qed.

Lemma alloc_good s app e conf ops :
  sys_good (s, app) -> exists r s', rte_kni_alloc buf_delta e (Some mp) conf ops s = Ret (r, s') /\ sys_good (s', app).
Proof.
  intros (q & lost & pls & Hi). cbn in Hi.
  assert (exists r s', Ret (@None nat, s) = Ret (r, s') /\ sys_good (s', app)) as Hnone by (eexists _, _; split; [reflexivity|]; by exists q, lost, pls).
  destruct conf as [conf|]; [|exact Hnone].
  destruct (decide (default 0 (list.head (conf_name conf)) = 0)) as [E|Hne].
  { unfold rte_kni_alloc. rewrite E. exact Hnone. }
  destruct (alloc_spec e conf ops _ _ _ _ _ Hi Hne) as (r & s' & E & Hr). exists r, s'. split; [done|].
  destruct q as [|i q]; [destruct Hr as [_ ->]; by exists [], lost, pls|].
  destruct Hr as [(_ & Hi' & _)|(_ & k & Hi' & _)]; by eexists _, _, _.
Qed.

Lemma release_good s app copy_ok i :
  objs ≡ₚ total -> sys_good (s, app) -> (i < length (ks_zones s))%nat ->
  exists r s', rte_kni_release buf_delta kva_delta copy_ok objs (Some i) s = Ret (r, s') /\ sys_good (s', app).
Proof.
  intros Ho (q & lost & pls & Hi) Hlt. cbn in Hi. destruct (lookup_lt_is_Some_2 _ _ Hlt) as [z Hz].
  assert (forall r : Z, exists r' s', Ret (r, s) = Ret (r', s') /\ sys_good (s', app)) as Hsame
    by (intros r; eexists _, _; split; [reflexivity|]; by exists q, lost, pls).
  destruct (ctx_in_use (z_ctx z)) eqn:Hu.
  2: { unfold rte_kni_release, mbind, M_bind, load_zones. rewrite Hz, Hu. cbn [negb]. apply Hsame. }
  destruct copy_ok.
  - destruct (release_spec objs _ _ _ _ _ _ _ Hi Hz Hu Ho) as (l & s' & _ & E & Hi' & _). eexists _, s'. split; [exact E|]. by eexists _, _, _.
  - unfold rte_kni_release. unfold mbind at 1, M_bind, load_zones. rewrite Hz, Hu. cbn [negb].
    unfold mbind at 1, M_bind, on_devs, kni_ioctl_release. cbn [negb]. unfold mret, M_ret. cbn [Z.ltb Z.compare Z.opp EIO].
    destruct s. apply Hsame.
Qed.

Lemma mem_good s q app lost pls app' mem' :
  sys_inv s q app lost pls -> mem_inv mem' total (app' ++ lost ++ concat (outside <$> pls)) ->
  sys_good (KS (ks_slots s) (ks_zones s) (ks_devs s) mem', app').
Proof. intros [H1 H2 H3 H4 H5 H6 H7 H8 H9 H10] Hm. by exists q, lost, pls. Qed.

(** Two results of the same call are the same. *)
Ltac same_ret :=
  repeat match goal with
  | E1 : ?x = Ret (?a, _), E2 : ?x = Ret (?b, _) |- _ => rewrite E1 in E2; injection E2; clear E2; intros; subst
  end.

Lemma sys_step_good st st' : objs ≡ₚ total -> sys_step st st' -> sys_good st -> sys_good st'.
Proof.
  intros Ho [s app e conf ops r s' E|s app ok i r s' Hlt E|s app i mbufs rest n s' Hop Hp E|s app i num l s' Hop E
    |s app d skb l s' Hd E|s app d len l s' Hd E|s app m s' E|s app l rest s' Hp E] Hg.
  - destruct (alloc_good s app e conf ops Hg) as (? & ? & ? & ?). by same_ret.
  - destruct (release_good s app ok i Ho Hg Hlt) as (? & ? & ? & ?). by same_ret.
  - destruct (tx_good s app i mbufs rest Hg Hop Hp) as (? & ? & ? & ?). by same_ret.
  - destruct (rx_good s app i num Hg Hop) as (? & ? & ? & ?). by same_ret.
  - destruct (kernel_rx_good s app d skb Hg Hd) as (? & ? & ? & ?). by same_ret.
  - destruct (kernel_tx_good s app d len Hg Hd) as (? & ? & ? & ?). by same_ret.
  - destruct Hg as (q & lost & pls & Hi). cbn in Hi. destruct (alloc_out _ _ _ _ _ _ (si_mem _ _ _ _ _ Hi)) as (r & m' & E' & Hr).
    unfold on_sys_mem in E. rewrite E' in E. simplify_eq. by eapply mem_good.
  - destruct Hg as (q & lost & pls & Hi). cbn in Hi.
    destruct (free_out buf_delta kva_delta mp (ks_mem s) total l (rest ++ lost ++ concat (outside <$> pls))) as (m' & E' & Hr).
    { eapply mem_inv_perm; [|exact (si_mem _ _ _ _ _ Hi)]. rewrite Hp. solve_Permutation. }
    unfold on_sys_mem in E. rewrite E' in E. simplify_eq. by eapply mem_good.
Qed.

Lemma sys_good_runs st : objs ≡ₚ total -> sys_good st -> sys_runs st.
Proof.
  destruct st as [s app]. intros Ho Hg. split_and!; cbn.
  - intros e conf ops. destruct (alloc_good s app e conf ops Hg) as (? & ? & ? & _). eauto.
  - intros ok i Hlt. destruct (release_good s app ok i Ho Hg Hlt) as (? & ? & ? & _). eauto.
  - intros i mbufs rest Hop Hp. destruct (tx_good s app i mbufs rest Hg Hop Hp) as (? & ? & ? & _). eauto.
  - intros i num Hop. destruct (rx_good s app i num Hg Hop) as (? & ? & ? & _). eauto.
  - intros d skb Hd. destruct (kernel_rx_good s app d skb Hg Hd) as (? & ? & ? & _). eauto.
  - intros d len Hd. destruct (kernel_tx_good s app d len Hg Hd) as (? & ? & ? & _). eauto.
Qed.


(** Libmoon's [mg_create_kni] on a sound system with the free slots [q]: without a
    free slot it returns a null pointer and nothing changes. Otherwise it either
    returns a null pointer because the kernel refused the device, which then is not in
    the list of the kernel, and the slot is free again (as the last one); or it returns
    the device in the first free slot, which the kernel now knows under the first 31
    characters of the name and with packets of at most 2048 bytes, with empty queues
    but for the buffers made available to the kernel. The other devices are not
    touched. *)
Theorem kni_create_correct (e : kni_env) (info : rte_eth_dev_info) (pci : pci_device) (port_id core c : Z) (name : list Z)
    (s : kni_sys P) (q app lost : list nat) (pls : list places) :
  sys_inv s q app lost pls -> pci_dev info = Some pci -> c <> 0 ->
  exists r s', mg_create_kni info (rte_kni_alloc buf_delta e) port_id core (Some mp) (c :: name) s = Ret (r, s') /\
    match q with
    | [] => r = None /\ s' = s
    | i :: q' =>
      (r = None /\ sys_inv s' (q' ++ [i]) app lost pls /\ ks_devs s' = ks_devs s) \/
      (r = Some i /\ exists k, sys_inv s' q' app lost (<[i := Places [] [] [] k []]> pls) /\
        exists d, ks_devs s' = d :: ks_devs s /\ kd_name d = c :: take 30 name /\ kd_zone d = i /\ kd_mbuf_size d = 2048)
    end.
Proof.
  intros Hi Hp Hc. unfold mg_create_kni. rewrite Hp. set (conf := KniConf _ _ _ _ _ _ _ _). set (ops := KniOps _ _ _).
  destruct (alloc_spec e conf (Some ops) s q app lost pls Hi Hc) as (r & s' & E & Hr). exists r, s'. split; [done|].
  destruct q as [|i q]; [done|]. destruct Hr as [(-> & Hi' & Hd & _)|(-> & k & Hi' & d & Hd & Hn & Hz & Hm)]; [by left|].
  right. split; [done|]. exists k. split; [done|]. exists d. split_and!; [done| |done|done].
  rewrite Hn. cbn. by rewrite take_take.
Qed.

(** [rte_kni_release] of a device in use returns 0: the kernel does not know the
    device any more, its slot is the last free one, and the buffers in its allocation,
    transmit and free queue are back in the pool. The packets that were still in its
    receive queue are lost to the pool, although the function waits for the kernel to
    take them: the device is off the list of the kernel before the waiting starts. *)
Theorem kni_release_correct (s : kni_sys P) (q app lost : list nat) (pls : list places) (i : nat) (z : kni_zones) :
  sys_inv s q app lost pls -> ks_zones s !! i = Some z -> ctx_in_use (z_ctx z) = true -> objs ≡ₚ total ->
  exists l s', pls !! i = Some l /\ rte_kni_release buf_delta kva_delta true objs (Some i) s = Ret (0, s') /\
    sys_inv s' (q ++ [i]) app (pl_rx l ++ lost) (<[i := no_places]> pls) /\
    (forall d, d ∈ ks_devs s' <-> d ∈ ks_devs s /\ kd_zone d <> i).
Proof. apply release_spec. Qed.
End System.

(** ** Examples *)

(** A system with two slots; the process holds two buffers, four are in the pool. *)
Definition junk_fifo : rte_kni_fifo := Fifo 7 9 0 (replicate 1024 5%nat).
Definition junk_zones : kni_zones :=
  Zones ctx_zero (KQ junk_fifo junk_fifo junk_fifo junk_fifo) junk_fifo junk_fifo (KStats 0 0 0 0 0 0).
Definition junk_slot : kni_slot := Slot 9 true None.

Definition demo_mem : mem (list nat) :=
  Mem (list_to_map ((fun m => (m, demo_seg 1 1 60 None m)) <$> kni_bufs)) {[0%nat := Pool [22; 23; 24; 25]%nat 2048 0]}.

Definition demo_sys : kni_sys (list nat) := KS (KPool false 0 [] None None) [junk_zones; junk_zones] [] demo_mem.

Definition kernel_ok : kni_env := KEnv true (fun _ => true) true true true.
Definition demo_pci : pci_device := PciDevice 0 0 0 0 0.
Definition demo_info : rte_eth_dev_info := DevInfo String.EmptyString (Some demo_pci) (Thresh 0 0 0) (Thresh 0 0 0).

Lemma demo_mem_inv : mem_inv delta8 delta8 0 demo_mem kni_bufs [20; 21]%nat.
Proof.
  split; [split|].
  - eexists. split_and!; [vm_compute; reflexivity|done|done].
  - by apply (bool_decide_unpack _).
  - repeat (constructor; [eexists; split; [vm_compute; reflexivity|done]|]). constructor.
  - repeat (constructor; [split; vm_compute; congruence|]). constructor.
Qed.

Lemma demo_sys_new : sys_new delta8 delta8 0 kni_bufs demo_sys 2 [20; 21]%nat.
Proof.
  split; [done| |done|lia|done|exact demo_mem_inv].
  repeat (constructor; [split; [done|]; repeat (constructor; [done|]); constructor|]). constructor.
Qed.

Definition demo_conf : rte_kni_conf := KniConf [107] 0 1 0 2048 0 0 0.

(** The states after [rte_kni_init], and after creating a device. *)
Definition demo_init : kni_sys (list nat) :=
  match on_slots (rte_kni_init 2 true (Some [junk_slot; junk_slot]) (fun _ => true)) demo_sys with
  | Ret (_, s) => s | _ => demo_sys
  end.
Definition demo_open : kni_sys (list nat) :=
  match rte_kni_alloc delta8 kernel_ok (Some 0%nat) (Some demo_conf) None demo_init with
  | Ret (_, s) => s | _ => demo_sys
  end.


Lemma demo_init_inv : sys_inv delta8 delta8 0 kni_bufs demo_init [0; 1]%nat [20; 21]%nat [] [no_places; no_places].
Proof.
  destruct (init_spec delta8 delta8 0 kni_bufs demo_sys 2 [20; 21]%nat [junk_slot; junk_slot] demo_sys_new eq_refl) as (s' & E & Hi).
  unfold demo_init. rewrite E. exact Hi.
Qed.

Lemma demo_open_inv : exists k, sys_inv delta8 delta8 0 kni_bufs demo_open [1]%nat [20; 21]%nat [] [Places [] [] [] k []; no_places].
Proof.
  destruct (alloc_spec delta8 delta8 0 kni_bufs kernel_ok demo_conf None demo_init _ _ _ _ demo_init_inv ltac:(done)) as (r & s' & E & Hr).
  assert (is_Some r) as [i ->].
  { assert (match rte_kni_alloc delta8 kernel_ok (Some 0%nat) (Some demo_conf) None demo_init with Ret (Some _, _) => true | _ => false end = true)
      as Hc by (vm_compute; reflexivity). rewrite E in Hc. by destruct r; [eexists|]. }
  destruct Hr as [(Hn & _)|(_ & k & Hi & _)]; [discriminate Hn|]. exists k. unfold demo_open. rewrite E. exact Hi.
Qed.

Lemma kni_create_correct_witness :
  exists r s', mg_create_kni demo_info (rte_kni_alloc delta8 kernel_ok) 0 1 (Some 0%nat) [107] demo_init = Ret (r, s') /\
    ((r = None /\ sys_inv delta8 delta8 0 kni_bufs s' [1; 0]%nat [20; 21]%nat [] [no_places; no_places] /\ ks_devs s' = []) \/
     (r = Some 0%nat /\ exists k, sys_inv delta8 delta8 0 kni_bufs s' [1]%nat [20; 21]%nat [] [Places [] [] [] k []; no_places] /\
       exists d, ks_devs s' = [d] /\ kd_name d = [107] /\ kd_zone d = 0%nat /\ kd_mbuf_size d = 2048)).
Proof.
  exact (kni_create_correct delta8 delta8 0 kni_bufs kernel_ok demo_info demo_pci 0 1 107 [] demo_init [0; 1]%nat [20; 21]%nat []
    [no_places; no_places] demo_init_inv eq_refl ltac:(done)).
Defined.

Lemma kni_release_correct_witness :
  exists s', rte_kni_release delta8 delta8 true kni_bufs (Some 0%nat) demo_open = Ret (0, s') /\
    sys_inv delta8 delta8 0 kni_bufs s' [1; 0]%nat [20; 21]%nat [] [no_places; no_places] /\
    forall d, d ∈ ks_devs s' <-> d ∈ ks_devs demo_open /\ kd_zone d <> 0%nat.
Proof.
  destruct demo_open_inv as [k Hk].
  destruct (lookup_lt_is_Some_2 (ks_zones demo_open) 0) as [z Hz]; [vm_compute; lia|].
  assert (ctx_in_use (z_ctx z) = true) as Hu.
  { assert ((ctx_in_use ∘ z_ctx) <$> ks_zones demo_open !! 0%nat = Some true) as E by (vm_compute; reflexivity).
    rewrite Hz in E. by injection E. }
  destruct (kni_release_correct delta8 delta8 0 kni_bufs kni_bufs demo_open _ _ _ _ 0 z Hk Hz Hu (reflexivity _))
    as (l & s' & Hl & E & Hi & Hd).
  injection Hl as <-. exists s'. split; [exact E|]. split; [exact Hi|exact Hd].
Defined.
