(* ===== verification/EalCores.v ===== *)
(** librte_eal/common: the logical cores of the process. eal_common_lcore.c (detection),
    the options about cores in eal_common_options.c (core masks, core lists, the mapping
    of lcores to cpus, the master lcore), rte_lcore.h (enumeration) and the sockets of
    cpu sets in eal_common_thread.c.

    A pointer into a C string is the rest of the string from there on. An access outside
    of an array of RTE_MAX_LCORE entries is a fault. A cpu set is a set of numbers. *)
From Stdlib Require Import ZArith Lia Ascii String.
From stdpp Require Import base numbers list gmap strings.
From S2P Require Import Prelude CStdio.

#[local] Open Scope Z_scope.

(** ** Data *)

Definition RTE_MAX_LCORE : Z := 128.
Definition BITS_PER_HEX : nat := 4.

Inductive rte_lcore_role_t := ROLE_RTE | ROLE_OFF | ROLE_SERVICE.

#[global] Instance role_eq_dec : EqDecision rte_lcore_role_t.
Proof. solve_decision. Defined.

(** [struct lcore_config], the fields about the place of an lcore. *)
Record lcore_config := Lcore {
  detected : bool; lc_socket_id : Z; lc_core_id : Z; core_index : Z; lc_cpuset : gset nat;
  core_role : rte_lcore_role_t
}.

(** The fields of [struct rte_config] about cores, the array [lcore_config], and the
    static variables of the parsers. *)
Record eal := Eal {
  master_lcore : Z; lcore_count : Z; service_lcore_count : Z;
  lcore_role : list rte_lcore_role_t; lcore_configs : list lcore_config;
  master_lcore_parsed : bool; lset : list bool
}.

Definition set_roles (f : list rte_lcore_role_t -> list rte_lcore_role_t) (s : eal) : eal :=
  Eal (master_lcore s) (lcore_count s) (service_lcore_count s) (f (lcore_role s)) (lcore_configs s)
    (master_lcore_parsed s) (lset s).
Definition set_lcores (f : list lcore_config -> list lcore_config) (s : eal) : eal :=
  Eal (master_lcore s) (lcore_count s) (service_lcore_count s) (lcore_role s) (f (lcore_configs s))
    (master_lcore_parsed s) (lset s).
Definition set_count (n : Z) (s : eal) : eal :=
  Eal (master_lcore s) n (service_lcore_count s) (lcore_role s) (lcore_configs s) (master_lcore_parsed s) (lset s).
Definition set_service_count (n : Z) (s : eal) : eal :=
  Eal (master_lcore s) (lcore_count s) n (lcore_role s) (lcore_configs s) (master_lcore_parsed s) (lset s).
Definition set_master (n : Z) (s : eal) : eal :=
  Eal n (lcore_count s) (service_lcore_count s) (lcore_role s) (lcore_configs s) (master_lcore_parsed s) (lset s).
Definition set_master_parsed (s : eal) : eal :=
  Eal (master_lcore s) (lcore_count s) (service_lcore_count s) (lcore_role s) (lcore_configs s) true (lset s).
Definition set_lset (f : list bool -> list bool) (s : eal) : eal :=
  Eal (master_lcore s) (lcore_count s) (service_lcore_count s) (lcore_role s) (lcore_configs s)
    (master_lcore_parsed s) (f (lset s)).

Definition with_index (n : Z) (c : lcore_config) : lcore_config :=
  Lcore (detected c) (lc_socket_id c) (lc_core_id c) n (lc_cpuset c) (core_role c).
Definition with_cpuset (cs : gset nat) (c : lcore_config) : lcore_config :=
  Lcore (detected c) (lc_socket_id c) (lc_core_id c) (core_index c) cs (core_role c).
Definition with_role (r : rte_lcore_role_t) (c : lcore_config) : lcore_config :=
  Lcore (detected c) (lc_socket_id c) (lc_core_id c) (core_index c) (lc_cpuset c) r.

(** ** Arrays *)

Definition in_range (i : Z) : bool := (0 <=? i) && (i <? RTE_MAX_LCORE).

Definition get_role (i : Z) : M eal rte_lcore_role_t :=
  s ← gets id;
  match lcore_role s !! Z.to_nat i with Some r => if in_range i then mret r else fault | None => fault end.

Definition put_role (i : Z) (r : rte_lcore_role_t) : M eal unit :=
  if in_range i then modify (set_roles <[Z.to_nat i := r]>) else fault.

Definition get_lcore (i : Z) : M eal lcore_config :=
  s ← gets id;
  match lcore_configs s !! Z.to_nat i with Some c => if in_range i then mret c else fault | None => fault end.

Definition upd_lcore (i : Z) (f : lcore_config -> lcore_config) : M eal unit :=
  if in_range i then modify (set_lcores (alter f (Z.to_nat i))) else fault.

Definition put_set (i : Z) : M eal unit :=
  s ← gets id;
  if (0 <=? i) && (i <? Z.of_nat (length (lset s))) then modify (set_lset <[Z.to_nat i := true]>) else fault.

Fixpoint for_each {A} (l : list A) (f : A -> M eal unit) : M eal unit :=
  match l with
  | [] => mret tt
  | x :: l => f x ;; for_each l f
  end.

(** [for (; idx < RTE_MAX_LCORE; idx++)] *)
Definition from (idx : Z) : list Z := seqZ idx (RTE_MAX_LCORE - idx).

(** ** Detection *)

(** What the system answers about cpus. *)
Record cpu_env := CpuEnv { eal_cpu_detected : Z -> bool; eal_cpu_core_id : Z -> Z; eal_cpu_socket_id : Z -> Z }.

Definition MAX_NUMA_NODES : Z := 8.

Section Detect.
Context (e : cpu_env).

Fixpoint cpu_init_loop (l : list Z) (count : Z) : M eal (option Z) :=
  match l with
  | [] => mret (Some count)
  | i :: l =>
    upd_lcore i (with_index count) ;;
    upd_lcore i (with_cpuset ∅) ;;
    upd_lcore i (fun c => Lcore (eal_cpu_detected e i) (lc_socket_id c) (lc_core_id c) (core_index c) (lc_cpuset c) (core_role c)) ;;
    if negb (eal_cpu_detected e i) then
      put_role i ROLE_OFF ;; upd_lcore i (with_index (-1)) ;; cpu_init_loop l count
    else
      upd_lcore i (fun c => with_cpuset (lc_cpuset c ∪ {[Z.to_nat i]}) c) ;;
      put_role i ROLE_RTE ;;
      upd_lcore i (with_role ROLE_RTE) ;;
      upd_lcore i (fun c => Lcore (detected c) (lc_socket_id c) (eal_cpu_core_id e i) (core_index c) (lc_cpuset c) (core_role c)) ;;
      upd_lcore i (fun c => Lcore (detected c) (eal_cpu_socket_id e i) (lc_core_id c) (core_index c) (lc_cpuset c) (core_role c)) ;;
      if MAX_NUMA_NODES <=? eal_cpu_socket_id e i then mret None
      else cpu_init_loop l (u32 (count + 1))
  end.

(** The build has RTE_EAL_ALLOW_INV_SOCKET_ID unset. *)
Definition rte_eal_cpu_init : M eal Z :=
  r ← cpu_init_loop (from 0) 0;
  match r with
  | None => mret (-1)
  | Some count => modify (set_count count) ;; mret 0
  end.

(** The socket of all cpus of a set, if they have one. *)
Fixpoint cpuset_socket_loop (l : list Z) (cpus : gset nat) (socket_id : Z) : Z :=
  match l with
  | [] => socket_id
  | cpu :: l =>
    if negb (bool_decide (Z.to_nat cpu ∈ cpus)) then cpuset_socket_loop l cpus socket_id
    else
      let socket_id := if socket_id =? -1 then i32 (eal_cpu_socket_id e cpu) else socket_id in
      if negb (socket_id =? i32 (eal_cpu_socket_id e cpu)) then -1 else cpuset_socket_loop l cpus socket_id
  end.

Definition eal_cpuset_socket_id (cpus : option (gset nat)) : Z :=
  match cpus with
  | None => -1
  | Some cpus => cpuset_socket_loop (from 0) cpus (-1)
  end.
End Detect.

(** ** Enumeration (rte_lcore.h) *)

Definition rte_lcore_is_enabled (lcore_id : Z) : M eal bool :=
  if RTE_MAX_LCORE <=? lcore_id then mret false
  else r ← get_role lcore_id; mret (bool_decide (r = ROLE_RTE)).

Fixpoint next_lcore_loop (fuel : nat) (i : Z) (skip_master wrap : bool) : M eal Z :=
  match fuel with
  | O => diverge
  | S fuel =>
    if RTE_MAX_LCORE <=? i then mret i
    else
      en ← rte_lcore_is_enabled i;
      s ← gets id;
      if negb en || (skip_master && (i =? master_lcore s)) then
        let i := u32 (i + 1) in
        next_lcore_loop fuel (if wrap then i mod RTE_MAX_LCORE else i) skip_master wrap
      else mret i
  end.

(** The loop looks at each lcore at most once, unless it goes round for ever. *)
Definition rte_get_next_lcore (i : Z) (skip_master wrap : bool) : M eal Z :=
  let i := u32 (i + 1) in
  next_lcore_loop (S (Z.to_nat RTE_MAX_LCORE)) (if wrap then i mod RTE_MAX_LCORE else i) skip_master wrap.

(** The values RTE_LCORE_FOREACH and RTE_LCORE_FOREACH_SLAVE take. *)
Fixpoint foreach_loop (fuel : nat) (i : Z) (skip_master : bool) : M eal (list Z) :=
  match fuel with
  | O => diverge
  | S fuel =>
    if i <? RTE_MAX_LCORE then
      j ← rte_get_next_lcore i skip_master false;
      l ← foreach_loop fuel j skip_master;
      mret (i :: l)
    else mret []
  end.

Definition RTE_LCORE_FOREACH (skip_master : bool) : M eal (list Z) :=
  i ← rte_get_next_lcore (-1) skip_master false;
  foreach_loop (S (Z.to_nat RTE_MAX_LCORE)) i skip_master.

(** ** Strings *)

Definition isblank (c : ascii) : bool := ceq c " "%char || (code c =? 9).

(** The character a pointer points to. *)
Definition head (s : string) : ascii := match s with String c _ => c | EmptyString => nul end.
Definition tail (s : string) : string := match s with String _ s => s | EmptyString => EmptyString end.

Fixpoint skip_blank (s : string) : string :=
  match s with
  | String c s' => if isblank c then skip_blank s' else s
  | EmptyString => EmptyString
  end.

Definition is_nul (s : string) : bool := ceq (head s) nul.

(** [strtoul(s, &end, 10)]: the value, the rest, and whether [errno] is set. *)
Definition strtoul (s : string) : Z * string * bool :=
  match number false s with
  | None => (0, s, false)
  | Some (neg, v, r) => (to_ulong neg v, r, ULONG_MAX <? v)
  end.

(** [strtol(s, &end, 0)] *)
Definition strtol_auto (s : string) : Z * string * bool :=
  match number true s with
  | None => (0, s, false)
  | Some (neg, v, r) => (to_long neg v, r, if neg then 2 ^ 63 <? v else LONG_MAX <? v)
  end.

(** [s + strcspn(s, stop)] *)
Fixpoint scan_to (stop : ascii -> bool) (s : string) : string :=
  match s with
  | String c s' => if stop c then s else scan_to stop s'
  | EmptyString => EmptyString
  end.

(** The bytes between two pointers into one string. *)
Definition ptr_diff (fin start : string) : Z := Z.of_nat (String.length start) - Z.of_nat (String.length fin).

(** ** Core masks *)

Definition isxdigit (c : ascii) : bool := match digit c with Some _ => true | None => false end.

Definition xdigit2val (c : ascii) : Z :=
  if is_digit c then code c - 48
  else if (65 <=? code c) && (code c <=? 90) then code c - 65 + 10
  else code c - 97 + 10.

(** Without blanks around it and without 0x in front: the characters, last one first. *)
Definition mask_chars (coremask : string) : list ascii :=
  let s := skip_blank coremask in
  let s := if ceq (head s) "0"%char && (ceq (head (tail s)) "x"%char || ceq (head (tail s)) "X"%char) then tail (tail s) else s in
  let fix trim (l : list ascii) := match l with c :: l' => if isblank c then trim l' else l | [] => [] end in
  trim (rev (list_ascii_of_string s)).

Definition enable (idx count : Z) : M eal unit := put_role idx ROLE_RTE ;; upd_lcore idx (with_index count).
Definition disable (idx : Z) : M eal unit := put_role idx ROLE_OFF ;; upd_lcore idx (with_index (-1)).

(** The bits of one digit; [None] for an lcore that is not there. *)
Fixpoint mask_bits (j : nat) (k : nat) (val idx count : Z) : M eal (option (Z * Z)) :=
  match k with
  | O => mret (Some (idx, count))
  | S k =>
    if idx <? RTE_MAX_LCORE then
      if Z.testbit val (Z.of_nat j) then
        c ← get_lcore idx;
        if negb (detected c) then mret None
        else enable idx (i32 count) ;; mask_bits (S j) k val (idx + 1) (u32 (count + 1))
      else disable idx ;; mask_bits (S j) k val (idx + 1) count
    else mret (Some (idx, count))
  end.

Fixpoint mask_loop (l : list ascii) (idx count : Z) : M eal (option (list ascii * Z * Z)) :=
  match l with
  | [] => mret (Some ([], idx, count))
  | c :: l' =>
    if idx <? RTE_MAX_LCORE then
      if negb (isxdigit c) then mret None
      else
        r ← mask_bits 0 BITS_PER_HEX (xdigit2val c) idx count;
        match r with
        | None => mret None
        | Some (idx, count) => mask_loop l' idx count
        end
    else mret (Some (l, idx, count))
  end.

Definition eal_parse_coremask (coremask : option string) : M eal Z :=
  match coremask with
  | None => mret (-1)
  | Some coremask =>
    let l := mask_chars coremask in
    if bool_decide (l = []) then mret (-1)
    else
      r ← mask_loop l 0 0;
      match r with
      | None => mret (-1)
      | Some (rest, idx, count) =>
        if negb (forallb (fun c => ceq c "0"%char) rest) then mret (-1)
        else
          for_each (from idx) disable ;;
          if count =? 0 then mret (-1) else modify (set_count count) ;; mret 0
      end
  end.

(** *** Masks of service cores *)

Fixpoint service_bits (j : nat) (k : nat) (val idx count : Z) : M eal (option (Z * Z)) :=
  match k with
  | O => mret (Some (idx, count))
  | S k =>
    if idx <? RTE_MAX_LCORE then
      if Z.testbit val (Z.of_nat j) then
        s ← gets id;
        if master_lcore_parsed s && (master_lcore s =? idx) then mret None
        else
          c ← get_lcore idx;
          if negb (detected c) then mret None
          else upd_lcore idx (with_role ROLE_SERVICE) ;; service_bits (S j) k val (idx + 1) (u32 (count + 1))
      else service_bits (S j) k val (idx + 1) count
    else mret (Some (idx, count))
  end.

Fixpoint service_mask_loop (l : list ascii) (idx count : Z) : M eal (option (list ascii * Z * Z)) :=
  match l with
  | [] => mret (Some ([], idx, count))
  | c :: l' =>
    if idx <? RTE_MAX_LCORE then
      if negb (isxdigit c) then mret None
      else
        r ← service_bits 0 BITS_PER_HEX (xdigit2val c) idx count;
        match r with
        | None => mret None
        | Some (idx, count) => service_mask_loop l' idx count
        end
    else mret (Some (l, idx, count))
  end.

Definition eal_parse_service_coremask (coremask : option string) : M eal Z :=
  match coremask with
  | None => mret (-1)
  | Some coremask =>
    let l := mask_chars coremask in
    if bool_decide (l = []) then mret (-1)
    else
      r ← service_mask_loop l 0 0;
      match r with
      | None => mret (-1)
      | Some (rest, idx, count) =>
        if negb (forallb (fun c => ceq c "0"%char) rest) then mret (-1)
        else
          for_each (from idx) (fun idx => upd_lcore idx (with_index (-1))) ;;
          if count =? 0 then mret (-1) else modify (set_service_count count) ;; mret 0
      end
  end.

(** ** Core lists *)

(** [for (idx = min; idx <= max; idx++)]: an index that is out of range is a fault, so
    that there are never more rounds than entries. *)
Fixpoint list_range (fuel : nat) (idx max count : Z) : M eal Z :=
  match fuel with
  | O => diverge
  | S fuel =>
    if idx <=? max then
      r ← get_role idx;
      if negb (bool_decide (r = ROLE_RTE)) then
        enable idx (i32 count) ;; list_range fuel (idx + 1) max (u32 (count + 1))
      else list_range fuel (idx + 1) max count
    else mret count
  end.

Definition range_fuel : nat := S (S (Z.to_nat RTE_MAX_LCORE)).

Fixpoint corelist_loop (fuel : nat) (corelist : string) (min count : Z) : M eal (option Z) :=
  match fuel with
  | O => diverge
  | S fuel =>
    let corelist := skip_blank corelist in
    if is_nul corelist then mret None
    else
      let '(v, rest, err) := strtoul corelist in
      if (err : bool) then mret None
      else
        let idx := i32 v in
        let rest := skip_blank rest in
        if ceq (head rest) "-"%char then corelist_loop fuel (tail rest) idx count
        else if ceq (head rest) ","%char || is_nul rest then
          let min := if min =? RTE_MAX_LCORE then idx else min in
          count ← list_range range_fuel min idx count;
          if is_nul rest then mret (Some count) else corelist_loop fuel (tail rest) RTE_MAX_LCORE count
        else mret None
  end.

(** The blanks at the end are counted, but the count is not used. *)
Definition eal_parse_corelist (corelist : option string) : M eal Z :=
  match corelist with
  | None => mret (-1)
  | Some corelist =>
    let corelist := skip_blank corelist in
    for_each (from 0) disable ;;
    r ← corelist_loop (S (String.length corelist)) corelist RTE_MAX_LCORE 0;
    match r with
    | None => mret (-1)
    | Some count => if count =? 0 then mret (-1) else modify (set_count count) ;; mret 0
    end
  end.

(** *** Lists of service cores *)

Fixpoint service_range (fuel : nat) (idx max count : Z) : M eal (option Z) :=
  match fuel with
  | O => diverge
  | S fuel =>
    if idx <=? max then
      r ← get_role idx;
      if negb (bool_decide (r = ROLE_SERVICE)) then
        s ← gets id;
        if (master_lcore s =? u32 idx) && master_lcore_parsed s then mret None
        else upd_lcore idx (with_role ROLE_SERVICE) ;; service_range fuel (idx + 1) max (u32 (count + 1))
      else service_range fuel (idx + 1) max count
    else mret (Some count)
  end.

Fixpoint service_list_loop (fuel : nat) (corelist : string) (min count : Z) : M eal (option Z) :=
  match fuel with
  | O => diverge
  | S fuel =>
    let corelist := skip_blank corelist in
    if is_nul corelist then mret None
    else
      let '(v, rest, err) := strtoul corelist in
      if (err : bool) then mret None
      else
        let idx := i32 v in
        let rest := skip_blank rest in
        if ceq (head rest) "-"%char then service_list_loop fuel (tail rest) idx count
        else if ceq (head rest) ","%char || is_nul rest then
          let min := if min =? RTE_MAX_LCORE then idx else min in
          r ← service_range range_fuel min idx count;
          match r with
          | None => mret None
          | Some count =>
            if is_nul rest then mret (Some count) else service_list_loop fuel (tail rest) RTE_MAX_LCORE count
          end
        else mret None
  end.

Definition eal_parse_service_corelist (corelist : option string) : M eal Z :=
  match corelist with
  | None => mret (-1)
  | Some corelist =>
    let corelist := skip_blank corelist in
    r ← service_list_loop (S (String.length corelist)) corelist RTE_MAX_LCORE 0;
    match r with
    | None => mret (-1)
    | Some count => mret (if count =? 0 then -1 else 0)
    end
  end.

(** ** The master lcore *)

Definition eal_parse_master_lcore (arg : string) : M eal Z :=
  let '(v, rest, err) := strtol_auto arg in
  modify (set_master (u32 v)) ;;
  if err || negb (is_nul rest) then mret (-1)
  else if RTE_MAX_LCORE <=? u32 v then mret (-1)
  else
    modify set_master_parsed ;;
    c ← get_lcore (u32 v);
    mret (if bool_decide (core_role c = ROLE_SERVICE) then -1 else 0).

(** ** Sets of lcores or cpus *)

Definition put_range (lo hi : Z) : M eal unit := for_each (seqZ lo (hi - lo + 1)) put_set.

(** The digits of a number or the two of a range outside of brackets: the limits and
    what follows. *)
Definition parse_span (str : string) (num : Z) : option (Z * Z * string) :=
  let '(v, rest, err) := strtoul str in
  let idx := u32 v in
  if err || (num <=? idx) then None
  else
    let rest := skip_blank rest in
    let min := idx in
    match (if ceq (head rest) "-"%char then
             let rest := skip_blank (tail rest) in
             if negb (is_digit (head rest)) then None
             else
               let '(v, rest, err) := strtoul rest in
               let idx := u32 v in
               if err || (num <=? idx) then None
               else
                 let rest := skip_blank rest in
                 if negb (ceq (head rest) ","%char) && negb (is_nul rest) then None else Some (idx, rest)
           else Some (idx, rest)) with
    | None => None
    | Some (max, rest) =>
      if negb (ceq (head rest) ","%char) && negb (is_nul rest) && negb (ceq (head rest) "@"%char) then None
      else Some (min, max, rest)
    end.

(** Inside brackets; the result is the string behind the closing one. *)
Fixpoint bracket_loop (fuel : nat) (str : string) (min num : Z) : M eal (option string) :=
  match fuel with
  | O => diverge
  | S fuel =>
    let str := skip_blank str in
    if negb (is_digit (head str)) then mret None
    else
      let '(v, rest, err) := strtoul str in
      let idx := u32 v in
      if err || (num <=? idx) then mret None
      else
        let rest := skip_blank rest in
        if ceq (head rest) "-"%char then
          if min =? RTE_MAX_LCORE then bracket_loop fuel (tail rest) idx num else mret None
        else if ceq (head rest) ","%char || ceq (head rest) ")"%char then
          let min := if min =? RTE_MAX_LCORE then idx else min in
          put_range (Z.min min idx) (Z.max min idx) ;;
          if ceq (head rest) ")"%char then mret (Some (tail rest))
          else bracket_loop fuel (tail rest) RTE_MAX_LCORE num
        else mret None
  end.

(** The offset of what follows the set, [None] for an error. *)
Definition eal_parse_set (input : string) (num : Z) : M eal (option Z) :=
  modify (set_lset (fun _ => replicate (Z.to_nat num) false)) ;;
  let str := skip_blank input in
  if (negb (is_digit (head str)) && negb (ceq (head str) "("%char)) || is_nul str then mret None
  else if negb (ceq (head str) "("%char) then
    match parse_span str num with
    | None => mret None
    | Some (min, max, rest) => put_range (Z.min min max) (Z.max min max) ;; mret (Some (ptr_diff rest input))
    end
  else
    let str := skip_blank (tail str) in
    if is_nul str then mret None
    else
      r ← bracket_loop (S (String.length str)) str RTE_MAX_LCORE num;
      match r with
      | None => mret None
      | Some str => mret (Some (ptr_diff (skip_blank str) input))
      end.

Fixpoint cpuset_loop (l : list Z) (cpus : gset nat) : M eal (option (gset nat)) :=
  match l with
  | [] => mret (Some cpus)
  | idx :: l =>
    s ← gets id;
    if negb (default false (lset s !! Z.to_nat idx)) then cpuset_loop l cpus
    else
      c ← get_lcore idx;
      if negb (detected c) then mret None else cpuset_loop l (cpus ∪ {[Z.to_nat idx]})
  end.

Definition convert_to_cpuset (num : Z) : M eal (option (gset nat)) := cpuset_loop (seqZ 0 num) ∅.

(** The lcores of the set become enabled; [lflags]: each one on its own cpu. *)
Fixpoint lcores_update (l : list Z) (lflags : bool) (cpus : gset nat) (count : Z) : M eal Z :=
  match l with
  | [] => mret count
  | idx :: l =>
    s ← gets id;
    if negb (default false (lset s !! Z.to_nat idx)) then lcores_update l lflags cpus count
    else
      r ← get_role idx;
      count ← (if negb (bool_decide (r = ROLE_RTE)) then
                 upd_lcore idx (with_index (i32 count)) ;; put_role idx ROLE_RTE ;; mret (u32 (count + 1))
               else mret count);
      let cpus := if lflags then {[Z.to_nat idx]} else cpus in
      upd_lcore idx (with_cpuset cpus) ;;
      lcores_update l lflags cpus count
  end.

(** The set of cpus behind an @: the set, and what follows. *)
Definition parse_cpus (lcores : string) : M eal (option (gset nat * string)) :=
  offset ← eal_parse_set (tail lcores) RTE_MAX_LCORE;
  match offset with
  | None => mret None
  | Some offset =>
    cs ← convert_to_cpuset RTE_MAX_LCORE;
    mret (match cs with None => None | Some cs => Some (cs, str_drop (Z.to_nat offset) (tail lcores)) end)
  end.

(** [lflags]: a range without brackets and without cpus, that is a - between the start
    and the end of the entry that comes before any bracket. *)
Definition own_cpus (at_sign : bool) (lcore_start fin : string) : bool :=
  let pos := scan_to (fun c => ceq c "("%char || ceq c "-"%char) lcore_start in
  negb at_sign && (ptr_diff pos lcore_start <? ptr_diff fin lcore_start) && negb (ceq (head pos) "("%char).

Fixpoint lcores_loop (fuel : nat) (lcores : string) (count : Z) : M eal (option Z) :=
  match fuel with
  | O => diverge
  | S fuel =>
    let lcores := skip_blank lcores in
    if is_nul lcores then mret None
    else
      let lcore_start := lcores in
      let lcores := if ceq (head lcore_start) "("%char then scan_to (fun c => ceq c ")"%char) lcores else lcores in
      if ceq (head lcore_start) "("%char && is_nul lcores then mret None
      else
        let lcores := if ceq (head lcore_start) "("%char then tail lcores else lcores in
        let lcores := scan_to (fun c => ceq c "@"%char || ceq c ","%char) lcores in
        let at_sign := ceq (head lcores) "@"%char in
        r ← (if at_sign then parse_cpus lcores else mret (Some (∅, lcores)));
        match r with
        | None => mret None
        | Some (cpus, fin) =>
          let lflags := own_cpus at_sign lcore_start fin in
          if negb (ceq (head fin) ","%char) && negb (is_nul fin) then mret None
          else
            offset ← eal_parse_set lcore_start RTE_MAX_LCORE;
            match offset with
            | None => mret None
            | Some _ =>
              cpus ← (if at_sign then mret (Some cpus) else convert_to_cpuset RTE_MAX_LCORE);
              match cpus with
              | None => mret None
              | Some cpus =>
                count ← lcores_update (from 0) lflags cpus count;
                if is_nul fin then mret (Some count) else lcores_loop fuel (tail fin) count
              end
            end
        end
  end.

Definition eal_parse_lcores (lcores : option string) : M eal Z :=
  match lcores with
  | None => mret (-1)
  | Some lcores =>
    let lcores := skip_blank lcores in
    for_each (from 0) (fun idx => disable idx ;; upd_lcore idx (with_cpuset ∅)) ;;
    r ← lcores_loop (S (String.length lcores)) lcores 0;
    match r with
    | None => mret (-1)
    | Some count => if count =? 0 then mret (-1) else modify (set_count count) ;; mret 0
    end
  end.

(** ** Completing the configuration *)

Fixpoint auto_detect_loop (l : list Z) (affinity : gset nat) (removed : Z) : M eal Z :=
  match l with
  | [] => mret removed
  | i :: l =>
    r ← get_role i;
    if bool_decide (r = ROLE_RTE) && negb (bool_decide (Z.to_nat i ∈ affinity))
    then put_role i ROLE_OFF ;; auto_detect_loop l affinity (u32 (removed + 1))
    else auto_detect_loop l affinity removed
  end.

(** [affinity] is what the system answers about the calling thread, the empty set when
    the call fails. *)
Definition eal_auto_detect_cores (affinity : gset nat) : M eal unit :=
  removed ← auto_detect_loop (from 0) affinity 0;
  modify (fun s => set_count (u32 (lcore_count s - removed)) s).

(** The default master lcore. *)
Definition default_master : M eal unit :=
  s ← gets id;
  if master_lcore_parsed s then mret tt
  else
    m ← rte_get_next_lcore (-1) false false;
    modify (set_master m) ;;
    upd_lcore m (with_role ROLE_RTE).
