(* ===== verification/EalCoresSpec.v ===== *)
(** The options about cores: core masks. *)
From Stdlib Require Import ZArith Lia Ascii String.
From stdpp Require Import base numbers list gmap strings.
From S2P Require Import Prelude CStdio EalCores.

#[local] Open Scope Z_scope.

(** ** Arrays *)

Definition sized (s : eal) : Prop :=
  length (lcore_role s) = Z.to_nat RTE_MAX_LCORE /\ length (lcore_configs s) = Z.to_nat RTE_MAX_LCORE.

Lemma in_range_nat i : (i < 128)%nat -> in_range (Z.of_nat i) = true.
Proof. intros Hi. unfold in_range, RTE_MAX_LCORE. destruct (Z.leb_spec 0 (Z.of_nat i)), (Z.ltb_spec (Z.of_nat i) 128); lia || done. Qed.

Lemma wp_get_role s i r (Q : rte_lcore_role_t -> eal -> Prop) :
  lcore_role s !! i = Some r -> (i < 128)%nat -> Q r s -> wp (get_role (Z.of_nat i)) Q s.
Proof. intros Hr Hi HQ. unfold get_role, id. wp_step. rewrite Nat2Z.id, Hr, in_range_nat by done. by wp_step. Qed.

Lemma wp_get_lcore s i c (Q : lcore_config -> eal -> Prop) :
  lcore_configs s !! i = Some c -> (i < 128)%nat -> Q c s -> wp (get_lcore (Z.of_nat i)) Q s.
Proof. intros Hr Hi HQ. unfold get_lcore, id. wp_step. rewrite Nat2Z.id, Hr, in_range_nat by done. by wp_step. Qed.

Lemma wp_put_role s i r (Q : unit -> eal -> Prop) :
  (i < 128)%nat -> Q tt (set_roles <[i := r]> s) -> wp (put_role (Z.of_nat i) r) Q s.
Proof. intros Hi HQ. unfold put_role. rewrite in_range_nat, Nat2Z.id by done. by wp_step. Qed.

Lemma wp_upd_lcore s i f (Q : unit -> eal -> Prop) :
  (i < 128)%nat -> Q tt (set_lcores (alter f i) s) -> wp (upd_lcore (Z.of_nat i) f) Q s.
Proof. intros Hi HQ. unfold upd_lcore. rewrite in_range_nat, Nat2Z.id by done. by wp_step. Qed.

Lemma from_step k : (k < 128)%nat -> from (Z.of_nat k) = Z.of_nat k :: from (Z.of_nat (S k)).
Proof.
  intros Hk. unfold from, RTE_MAX_LCORE. rewrite seqZ_cons by lia. f_equal. f_equal; lia.
Qed.

Lemma from_end : from (Z.of_nat 128) = [].
Proof. done. Qed.

(** A loop over the rest of an array. *)
Lemma wp_for_from (f : Z -> M eal unit) (I : nat -> eal -> Prop) k s (Q : unit -> eal -> Prop) :
  (k <= 128)%nat -> I k s ->
  (forall i s, (k <= i < 128)%nat -> I i s -> wp (f (Z.of_nat i)) (fun _ s' => I (S i) s') s) ->
  (forall s', I 128%nat s' -> Q tt s') ->
  wp (for_each (from (Z.of_nat k)) f) Q s.
Proof.
  intros Hk HI Hstep HQ. remember (128 - k)%nat as n eqn:En. revert k s Hk HI Hstep En.
  induction n as [|n IH]; intros k s Hk HI Hstep En.
  - assert (k = 128%nat) as -> by lia. rewrite from_end. cbn. wp_step. auto.
  - rewrite from_step by lia. cbn [for_each]. wp_step. eapply wp_mono; [apply Hstep; [lia|done]|].
    intros ? s' HI'. apply (IH (S k) s'); auto; [lia|intros; apply Hstep; auto; lia|lia].
Qed.

(** ** The configuration a mask stands for *)

(** The number of bits of [V] below [n]. *)
Fixpoint rank (V : Z) (n : nat) : Z :=
  match n with
  | O => 0
  | S n => rank V n + Z.b2z (Z.testbit V (Z.of_nat n))
  end.

Definition mask_role (V : Z) (n i : nat) (r : rte_lcore_role_t) : rte_lcore_role_t :=
  if decide (i < n)%nat then if Z.testbit V (Z.of_nat i) then ROLE_RTE else ROLE_OFF else r.

Definition mask_lcore (V : Z) (n i : nat) (c : lcore_config) : lcore_config :=
  if decide (i < n)%nat then with_index (if Z.testbit V (Z.of_nat i) then rank V i else -1) c else c.

(** The first [n] lcores are as [V] says. *)
Definition masked (V : Z) (n : nat) (s : eal) : eal :=
  set_roles (imap (mask_role V n)) (set_lcores (imap (mask_lcore V n)) s).

Lemma rank_bounds V n : 0 <= rank V n <= Z.of_nat n.
Proof. induction n as [|n IH]; cbn [rank]; [lia|]. destruct (Z.testbit V (Z.of_nat n)); cbn [Z.b2z]; lia. Qed.

Lemma masked_0 V s : masked V 0 s = s.
Proof.
  unfold masked, set_roles, set_lcores. destruct s as [m c sc rs ls p l]. cbn. f_equal; apply list_eq; intros i; rewrite list_lookup_imap.
  - destruct (rs !! i); cbn; [|done]. unfold mask_role. by rewrite decide_False by lia.
  - destruct (ls !! i); cbn; [|done]. unfold mask_lcore. by rewrite decide_False by lia.
Qed.

Lemma masked_step V n s b :
  sized s -> (n < 128)%nat -> Z.testbit V (Z.of_nat n) = b ->
  set_lcores (alter (with_index (if b then rank V n else -1)) n)
    (set_roles <[n := if b then ROLE_RTE else ROLE_OFF]> (masked V n s)) = masked V (S n) s.
Proof.
  intros [H1 H2] Hn Hb. unfold masked, set_roles, set_lcores. cbn. change (Z.to_nat RTE_MAX_LCORE) with 128%nat in *.
  f_equal; apply list_eq; intros i.
  - destruct (decide (i = n)) as [->|Hne].
    + rewrite list_lookup_insert_eq by (rewrite length_imap; lia). rewrite list_lookup_imap.
      destruct (lookup_lt_is_Some_2 (lcore_role s) n) as [r ->]; [lia|]. cbn. unfold mask_role. rewrite decide_True by lia.
      by rewrite Hb.
    + rewrite list_lookup_insert_ne, !list_lookup_imap by done. destruct (lcore_role s !! i); cbn; [|done]. unfold mask_role.
      repeat case_decide; lia || done.
  - destruct (decide (i = n)) as [->|Hne].
    + rewrite list_lookup_alter_eq, !list_lookup_imap. destruct (lcore_configs s !! n); cbn; [|done]. f_equal.
      unfold mask_lcore. rewrite decide_False, decide_True by lia. by rewrite Hb.
    + rewrite list_lookup_alter_ne, !list_lookup_imap by done. destruct (lcore_configs s !! i); cbn; [|done]. unfold mask_lcore.
      repeat case_decide; lia || done.
Qed.

Lemma masked_detected V n s i c :
  lcore_configs (masked V n s) !! i = Some c -> exists c0, lcore_configs s !! i = Some c0 /\ detected c = detected c0.
Proof.
  cbn. rewrite list_lookup_imap. destruct (lcore_configs s !! i) as [c0|]; cbn; [|done]. intros [= <-]. exists c0.
  unfold mask_lcore. by case_decide.
Qed.

(** The lcore can be used. *)
Definition available (s : eal) (i : nat) : Prop := exists c, lcore_configs s !! i = Some c /\ detected c = true.

#[global] Instance available_dec s i : Decision (available s i).
Proof.
  unfold available. destruct (lcore_configs s !! i) as [c|] eqn:E.
  - destruct (detected c) eqn:D; [left; eauto|right; intros (c' & [= <-] & ?); congruence].
  - right. naive_solver.
Defined.

(** ** Reading a mask *)

(** The value of digits, the last one first. *)
Definition hexval (l : list ascii) : Z := foldr (fun c v => xdigit2val c + 16 * v) 0 l.

Lemma xdigit_range c : isxdigit c = true -> 0 <= xdigit2val c < 16.
Proof.
  unfold isxdigit, xdigit2val, digit, is_digit.
  destruct (Z.leb_spec 48 (code c)), (Z.leb_spec (code c) 57); cbn; try lia;
    destruct (Z.leb_spec 65 (code c)), (Z.leb_spec (code c) 70), (Z.leb_spec (code c) 90); cbn; try lia;
    destruct (Z.leb_spec 97 (code c)), (Z.leb_spec (code c) 102); cbn; try lia; done.
Qed.

Lemma hexval_nonneg l : Forall (fun c => isxdigit c = true) l -> 0 <= hexval l < 16 ^ Z.of_nat (length l).
Proof.
  induction 1 as [|c l Hc Hl IH]; cbn [hexval foldr length]; [lia|]. fold (hexval l).
  pose proof (xdigit_range c Hc). rewrite Nat2Z.inj_succ, Z.pow_succ_r by lia. lia.
Qed.

Lemma hexval_low c l t : 0 <= xdigit2val c < 16 -> 0 <= t < 4 -> Z.testbit (hexval (c :: l)) t = Z.testbit (xdigit2val c) t.
Proof.
  intros Hc Ht. cbn [hexval foldr]. fold (hexval l).
  rewrite <- (Z.mod_pow2_bits_low (xdigit2val c + 16 * hexval l) 4 t) by lia.
  f_equal. change (2 ^ 4) with 16. rewrite Z.mul_comm, Z.mod_add by lia. apply Z.mod_small. lia.
Qed.

Lemma hexval_high c l t : 0 <= xdigit2val c < 16 -> 0 <= t -> Z.testbit (hexval (c :: l)) (t + 4) = Z.testbit (hexval l) t.
Proof.
  intros Hc Ht. cbn [hexval foldr]. fold (hexval l). rewrite <- Z.div_pow2_bits by lia. f_equal.
  change (2 ^ 4) with 16. rewrite Z.mul_comm, Z.div_add by lia. rewrite Z.div_small by lia. lia.
Qed.

Section Mask.
Context (s : eal) (V : Z).
Hypothesis Hsz : sized s.

Lemma wp_mask_step n (b : bool) (Q : unit -> eal -> Prop) :
  (n < 128)%nat -> Z.testbit V (Z.of_nat n) = b -> Q tt (masked V (S n) s) ->
  wp (if b then enable (Z.of_nat n) (rank V n) else disable (Z.of_nat n)) Q (masked V n s).
Proof.
  intros Hn Hb HQ. rewrite <- (masked_step V n s b) in HQ by done. destruct b; unfold enable, disable; wp_step.
  all: apply wp_put_role; [done|]; by apply wp_upd_lcore.
Qed.

Lemma wp_mask_bits k j n val (Q : option (Z * Z) -> eal -> Prop) :
  (n + k <= 128)%nat ->
  (forall t, (t < k)%nat -> Z.testbit V (Z.of_nat (n + t)) = Z.testbit val (Z.of_nat (j + t))) ->
  ((forall t, (t < k)%nat -> Z.testbit V (Z.of_nat (n + t)) = true -> available s (n + t)) ->
     Q (Some (Z.of_nat (n + k), rank V (n + k))) (masked V (n + k) s)) ->
  (forall s' t, (t < k)%nat -> Z.testbit V (Z.of_nat (n + t)) = true -> ~ available s (n + t) -> Q None s') ->
  wp (mask_bits j k val (Z.of_nat n) (rank V n)) Q (masked V n s).
Proof.
  revert j n. induction k as [|k IH]; intros j n Hn Hbits HY HN; cbn [mask_bits].
  { wp_step. rewrite Nat.add_0_r in HY. apply HY. lia. }
  assert (forall t, (S n + t)%nat = (n + S t)%nat) as Eadd by lia.
  assert (wp (mask_bits (S j) k val (Z.of_nat (S n)) (rank V (S n))) Q (masked V (S n) s) \/
          (Z.testbit V (Z.of_nat n) = true /\ ~ available s n)) as Hrest.
  { destruct (decide (Z.testbit V (Z.of_nat n) = true /\ ~ available s n)); [by right|left].
    apply IH; [lia|intros t Ht; rewrite !Nat.add_succ_comm; apply Hbits; lia| |].
    - intros Hall. rewrite Eadd. apply HY. intros [|t] Ht Hb; [rewrite Nat.add_0_r in *; destruct (decide (available s n)); tauto|].
      rewrite <- Eadd in *. apply Hall; [lia|done].
    - intros s' t Ht Hb Ha. apply (HN s' (S t)); [lia|by rewrite <- Eadd..]. }
  pose proof (Hbits 0%nat ltac:(lia)) as Hb0. rewrite !Nat.add_0_r in Hb0. rewrite <- Hb0.
  destruct (Z.ltb_spec (Z.of_nat n) RTE_MAX_LCORE) as [_|]; [|unfold RTE_MAX_LCORE in *; lia].
  pose proof (rank_bounds V n). pose proof (rank_bounds V (S n)) as Hr. cbn [rank] in Hr.
  destruct (Z.testbit V (Z.of_nat n)) eqn:Eb.
  - destruct (lookup_lt_is_Some_2 (lcore_configs (masked V n s)) n) as [c Hc].
    { cbn. rewrite length_imap, (proj2 Hsz). unfold RTE_MAX_LCORE. lia. }
    wp_step. apply (wp_get_lcore _ n c); [done|lia|]. destruct (masked_detected V n s n c Hc) as (c0 & Hc0 & Ed).
    destruct (detected c) eqn:Ec; cbn [negb].
    + destruct Hrest as [Hrest|[_ Hno]]; [|exfalso; apply Hno; exists c0; split; congruence].
      wp_step. rewrite (wraps_small 32 (rank V n)) by lia. apply (wp_mask_step n true); [lia|done|].
      cbn [Z.b2z] in Hr. rewrite wrapu_small by lia. cbn [rank] in Hrest. rewrite Eb in Hrest. cbn [Z.b2z] in Hrest.
      by replace (Z.of_nat n + 1) with (Z.of_nat (S n)) by lia.
    + wp_step. apply (HN _ 0%nat); [lia|by rewrite Nat.add_0_r|]. rewrite Nat.add_0_r. intros (c' & Hc' & ?). congruence.
  - destruct Hrest as [Hrest|[? _]]; [|done]. wp_step. apply (wp_mask_step n false); [lia|done|].
    cbn [rank] in Hrest. rewrite Eb in Hrest. cbn [Z.b2z] in Hrest. rewrite Z.add_0_r in Hrest.
    by replace (Z.of_nat n + 1) with (Z.of_nat (S n)) by lia.
Qed.

(** The digits of [F], the last one first, are those of [V]. *)
Definition agree (F : list ascii) : Prop :=
  (forall i c t, F !! i = Some c -> isxdigit c = true -> (t < 4)%nat ->
     Z.testbit V (Z.of_nat (4 * i + t)) = Z.testbit (xdigit2val c) (Z.of_nat t)) /\
  (forall i, (4 * length F <= i)%nat -> Z.testbit V (Z.of_nat i) = false).

Lemma wp_mask_loop F p (Q : option (list ascii * Z * Z) -> eal -> Prop) :
  let e := (32 `min` length F)%nat in
  agree F -> (p <= e)%nat ->
  ((forall i c, (p <= i < e)%nat -> F !! i = Some c -> isxdigit c = true) ->
   (forall i, (4 * p <= i < 4 * e)%nat -> Z.testbit V (Z.of_nat i) = true -> available s i) ->
   Q (Some (drop e F, Z.of_nat (4 * e), rank V (4 * e))) (masked V (4 * e) s)) ->
  ((exists i c, (p <= i < e)%nat /\ F !! i = Some c /\ isxdigit c = false) \/
   (exists i, (i < 4 * e)%nat /\ Z.testbit V (Z.of_nat i) = true /\ ~ available s i) -> forall s', Q None s') ->
  wp (mask_loop (drop p F) (Z.of_nat (4 * p)) (rank V (4 * p))) Q (masked V (4 * p) s).
Proof.
  intros e HA. remember (e - p)%nat as n eqn:En. revert p En. induction n as [|n IH]; intros p En Hp HY HN.
  - assert (p = e) as -> by lia. specialize (HY ltac:(lia) ltac:(lia)). unfold e in *. destruct (decide (32 <= length F)%nat).
    + rewrite Nat.min_l in * by lia. destruct (drop 32 F) as [|c rest]; cbn [mask_loop]; by wp_step.
    + rewrite Nat.min_r in * by lia. rewrite drop_all in *. by cbn [mask_loop]; wp_step.
  - destruct (lookup_lt_is_Some_2 F p) as [c Hc]; [lia|]. rewrite (drop_S F c p Hc). cbn [mask_loop].
    destruct (Z.ltb_spec (Z.of_nat (4 * p)) RTE_MAX_LCORE) as [_|]; [|unfold RTE_MAX_LCORE in *; lia].
    destruct (isxdigit c) eqn:Ex; cbn [negb]; [|wp_step; apply HN; left; exists p, c; split_and!; auto; lia].
    wp_step. apply wp_mask_bits; [unfold BITS_PER_HEX; lia|intros t Ht; by apply (proj1 HA p c)| |].
    + intros Hok. change BITS_PER_HEX with 4%nat in *. wp_step. replace (4 * p + 4)%nat with (4 * S p)%nat by lia.
      apply IH; [lia..| |].
      * intros Hx Ha. apply HY.
        -- intros i c' Hi Hc'. destruct (decide (i = p)) as [->|]; [congruence|]. apply (Hx i); [lia|done].
        -- intros i Hi Hb. destruct (decide (i < 4 * S p)%nat).
           ++ replace i with (4 * p + (i - 4 * p))%nat in * by lia. apply Hok; [lia|done].
           ++ apply Ha; [lia|done].
      * intros [(i & c' & Hi & ?)|Hex] s'; apply HN; [left; exists i, c'; split; [lia|done]|by right].
    + intros s' t Ht Hb Ha. wp_step. apply HN. right. exists (4 * p + t)%nat. unfold BITS_PER_HEX in Ht. split_and!; auto. lia.
Qed.

(** The rest is switched off. *)
Lemma wp_mask_rest n (Q : unit -> eal -> Prop) :
  (n <= 128)%nat -> (forall i, (n <= i < 128)%nat -> Z.testbit V (Z.of_nat i) = false) ->
  Q tt (masked V 128 s) -> wp (for_each (from (Z.of_nat n)) disable) Q (masked V n s).
Proof.
  intros Hn Hb HQ. apply (wp_for_from _ (fun i s' => s' = masked V i s)); [done..| |by intros s' ->].
  intros i s' Hi ->. by apply (wp_mask_step i false); [lia|apply Hb|].
Qed.

Lemma rank_rest n m : (n <= m)%nat -> (forall i, (n <= i < m)%nat -> Z.testbit V (Z.of_nat i) = false) -> rank V m = rank V n.
Proof.
  induction 1 as [|m Hle IH]; [done|]. intros Hb. cbn [rank]. rewrite Hb by lia. rewrite IH by (intros; apply Hb; lia). cbn. lia.
Qed.
End Mask.

Lemma agree_hexval F V :
  Forall2 (fun c d => isxdigit d = true /\ (isxdigit c = true -> c = d)) F V -> agree (hexval V) F.
Proof.
  intros HF. split.
  - induction HF as [|c d F V [Hd Hc] HF IH]; intros i x t Hi Hx Ht; [done|]. pose proof (xdigit_range d Hd).
    destruct i as [|i]; cbn in Hi.
    + simplify_eq. rewrite <- (Hc Hx). apply hexval_low; [|lia]. by rewrite (Hc Hx).
    + replace (Z.of_nat (4 * S i + t)) with (Z.of_nat (4 * i + t) + 4) by lia. rewrite hexval_high by lia. by apply IH.
  - intros i Hi. assert (Forall (fun c => isxdigit c = true) V) as HV.
    { apply Forall_lookup. intros j d Hd. destruct (Forall2_lookup_r _ _ _ _ _ HF Hd) as (c & _ & ? & _). done. }
    pose proof (hexval_nonneg V HV) as [H0 H1]. apply Forall2_length in HF. rewrite <- HF in H1.
    destruct (decide (hexval V = 0)) as [->|]; [apply Z.bits_0|]. apply Z.bits_above_log2; [done|].
    apply Z.log2_lt_pow2; [lia|]. eapply Z.lt_le_trans; [exact H1|]. change 16 with (2 ^ 4). rewrite <- Z.pow_mul_r by lia.
    apply Z.pow_le_mono_r; lia.
Qed.

(** Another character than a digit counts as zero. *)
Definition clean_digits (l : list ascii) : list ascii := (fun c => if isxdigit c then c else "0"%char) <$> l.

Lemma agree_clean F : agree (hexval (clean_digits F)) F.
Proof.
  apply agree_hexval. unfold clean_digits. induction F as [|c F IH]; cbn; constructor; [|done].
  destruct (isxdigit c) eqn:E; split; auto. intros ?; congruence.
Qed.

Lemma clean_id F : Forall (fun c => isxdigit c = true) F -> clean_digits F = F.
Proof. induction 1 as [|c F Hc HF IH]; cbn; [done|]. rewrite Hc. unfold clean_digits in IH. by rewrite IH. Qed.

Lemma clean_hex F : Forall (fun c => isxdigit c = true) (clean_digits F).
Proof. unfold clean_digits. apply Forall_fmap, Forall_forall. intros c _. cbn. by destruct (isxdigit c) eqn:E. Qed.

Lemma bits_below V n : 0 <= V -> (forall i, (n <= i)%nat -> Z.testbit V (Z.of_nat i) = false) -> V < 2 ^ Z.of_nat n.
Proof.
  intros HV Hb. destruct (Z.lt_ge_cases V (2 ^ Z.of_nat n)); [done|exfalso].
  assert (0 < V) by (pose proof (Z.pow_pos_nonneg 2 (Z.of_nat n)); lia).
  assert (Z.of_nat n <= Z.log2 V) by (apply Z.log2_le_pow2; lia).
  pose proof (Z.bit_log2 V ltac:(lia)) as Ht. rewrite <- (Z2Nat.id (Z.log2 V)) in Ht by lia. rewrite Hb in Ht; [done|lia].
Qed.

Lemma bits_above V n i : 0 <= V < 2 ^ Z.of_nat n -> (n <= i)%nat -> Z.testbit V (Z.of_nat i) = false.
Proof.
  intros HV Hi. destruct (decide (V = 0)) as [->|]; [apply Z.bits_0|]. apply Z.bits_above_log2; [lia|].
  assert (Z.log2 V < Z.of_nat n) by (apply Z.log2_lt_pow2; lia). lia.
Qed.

Lemma rank_zero V n : rank V n = 0 <-> forall i, (i < n)%nat -> Z.testbit V (Z.of_nat i) = false.
Proof.
  induction n as [|n IH]; cbn [rank]; [naive_solver lia|]. pose proof (rank_bounds V n). split.
  - intros H0 i Hi. destruct (Z.testbit V (Z.of_nat n)) eqn:E; cbn [Z.b2z] in H0; [lia|].
    destruct (decide (i = n)) as [->|]; [done|]. apply IH; lia.
  - intros Hb. rewrite Hb by lia. cbn. rewrite (proj2 IH); [done|]. intros i Hi. apply Hb. lia.
Qed.

Lemma zero_digit c : isxdigit c = true -> xdigit2val c = 0 -> ceq c "0"%char = true.
Proof.
  intros Hx H0. apply Z.eqb_eq. change (code "0"%char) with 48. revert Hx H0. unfold isxdigit, xdigit2val, digit, is_digit.
  destruct (Z.leb_spec 48 (code c)), (Z.leb_spec (code c) 57); cbn; try lia;
    destruct (Z.leb_spec 65 (code c)), (Z.leb_spec (code c) 70), (Z.leb_spec (code c) 90); cbn; try lia;
    destruct (Z.leb_spec 97 (code c)), (Z.leb_spec (code c) 102); cbn; try lia; done.
Qed.

Lemma ceq_eq a b : ceq a b = true -> a = b.
Proof.
  intros E%Z.eqb_eq. unfold code in E. apply Nat2Z.inj in E. by rewrite <- (ascii_nat_embedding a), E, ascii_nat_embedding.
Qed.

(** The characters stand for a mask of lcores that are there. *)
Definition mask_ok (s : eal) (l : list ascii) : Prop :=
  Forall (fun c => isxdigit c = true) l /\ 0 < hexval l < 2 ^ 128
  /\ forall i, (i < 128)%nat -> Z.testbit (hexval l) (Z.of_nat i) = true -> available s i.

(** Behind the digits that are looked at there are zeroes only. *)
Lemma rest_zero F : Forall (fun c => isxdigit c = true) F ->
  forallb (fun c => ceq c "0"%char) (drop (32 `min` length F) F) = true <-> hexval F < 2 ^ 128.
Proof.
  intros HF. pose proof (agree_clean F) as [HA HB]. rewrite (clean_id F HF) in HA, HB. pose proof (hexval_nonneg F HF) as [H0 _].
  split.
  - intros Hz. change 128 with (Z.of_nat 128). apply bits_below; [done|]. intros i Hi.
    destruct (decide (4 * length F <= i)%nat); [auto|]. destruct (lookup_lt_is_Some_2 F (i / 4)) as [c Hc].
    { apply Nat.Div0.div_lt_upper_bound. lia. }
    rewrite (Nat.div_mod_eq i 4). pose proof (Nat.mod_upper_bound i 4 ltac:(lia)).
    assert (32 <= i / 4)%nat by (apply Nat.div_le_lower_bound; lia).
    rewrite (HA (i / 4)%nat c) by (auto; rewrite Forall_lookup in HF; eauto).
    assert (c = "0"%char) as ->; [|apply Z.bits_0].
    apply ceq_eq. rewrite forallb_forall in Hz. apply Hz. apply list_elem_of_In, list_elem_of_lookup.
    exists (i / 4 - 32 `min` length F)%nat. rewrite lookup_drop. rewrite <- Hc. f_equal. apply lookup_lt_Some in Hc. lia.
  - intros Hlt. apply forallb_forall. intros c [k Hk]%list_elem_of_In%list_elem_of_lookup. rewrite lookup_drop in Hk.
    pose proof (lookup_lt_Some _ _ _ Hk). rewrite Nat.min_l in Hk by lia.
    assert (isxdigit c = true) as Hx by (rewrite Forall_lookup in HF; eauto). apply zero_digit; [done|].
    apply Z.bits_inj'. intros t Ht. rewrite Z.bits_0. pose proof (xdigit_range c Hx). destruct (decide (t < 4)).
    + rewrite <- (Z2Nat.id t) by lia. rewrite <- (HA (32 + k)%nat c) by (auto; lia). apply (bits_above _ 128); [done|lia].
    + rewrite <- (Z2Nat.id t) by lia. apply (bits_above _ 4); [change (2 ^ Z.of_nat 4) with 16; lia|lia].
Qed.

(** The parser on every string. *)
Lemma wp_parse_coremask s str :
  sized s ->
  wp (eal_parse_coremask (Some str)) (fun r s' =>
    let l := mask_chars str in
    (mask_ok s l /\ r = 0 /\ s' = set_count (rank (hexval l) 128) (masked (hexval l) 128 s)) \/ (~ mask_ok s l /\ r = -1)) s.
Proof.
  intros Hsz. unfold eal_parse_coremask. set (F := mask_chars str). case_bool_decide as E.
  { wp_step. right. split; [|done]. rewrite E. intros (_ & ? & _). cbn in *. lia. }
  cbv zeta. set (V := hexval (clean_digits F)). set (e := (32 `min` length F)%nat). pose proof (agree_clean F) as HA.
  pose proof (proj1 (hexval_nonneg _ (clean_hex F))) as HV0.
  wp_step. match goal with |- wp ?m ?Q s => cut (wp m Q (masked V 0 s)); [by rewrite masked_0|] end.
  apply (wp_mask_loop s V Hsz F 0); [done|lia|..]; fold e.
  - intros Hx Ha. wp_step.
    assert (forallb (fun c => ceq c "0"%char) (drop e F) = true -> Forall (fun c => isxdigit c = true) F) as Hall.
    { intros Hz. apply Forall_lookup. intros i c Hi. destruct (decide (i < e)%nat); [apply (Hx i); [lia|done]|].
      rewrite forallb_forall in Hz. assert (c = "0"%char) as ->; [|done]. apply ceq_eq, Hz, list_elem_of_In, list_elem_of_lookup.
      exists (i - e)%nat. rewrite lookup_drop, <- Hi. f_equal. lia. }
    destruct (forallb _ (drop e F)) eqn:Ez; cbn [negb].
    2: { wp_step. right. split; [|done]. intros (HF & [_ Hlt] & _). apply (rest_zero F HF) in Hlt. fold e in Hlt. congruence. }
    specialize (Hall eq_refl). assert (V = hexval F) as EV by (unfold V; by rewrite clean_id).
    assert (V < 2 ^ 128) as Hlt by (rewrite EV; by apply rest_zero).
    assert (forall i, (4 * e <= i < 128)%nat -> Z.testbit V (Z.of_nat i) = false) as Hhigh by (intros i Hi; apply (proj2 HA); lia).
    wp_step. apply (wp_mask_rest s V Hsz); [lia|done|]. rewrite <- (rank_rest V (4 * e) 128) by (lia || done).
    destruct (Z.eqb_spec (rank V 128) 0) as [Er|Er]; wp_step.
    + right. split; [|done]. intros (_ & [Hpos _] & _). rewrite rank_zero in Er.
      pose proof (bits_below V 0 HV0) as H0. rewrite <- EV in Hpos. apply (Z.lt_irrefl 0). eapply Z.lt_le_trans; [exact Hpos|].
      apply Z.lt_succ_r, H0. intros i _. destruct (decide (i < 128)%nat); [by apply Er|apply (bits_above V 128); [done|lia]].
    + left. rewrite <- EV. split_and!; [|done|done]. split_and!; [done|..].
      * rewrite <- EV. destruct (decide (V = 0)) as [H0|]; [|unfold V in *; lia]. rewrite H0 in Er. exfalso. apply Er, rank_zero.
        intros i _. apply Z.bits_0.
      * by rewrite <- EV.
      * rewrite <- EV. intros i Hi Hb. apply Ha; [|done]. split; [lia|]. destruct (decide (i < 4 * e)%nat); [done|].
        rewrite Hhigh in Hb; [done|lia].
  - intros Hbad s'. wp_step. right. split; [|done]. intros (HF & _ & Hav). destruct Hbad as [(i & c & _ & Hi & Hc)|(i & Hi & Hb & Hn)].
    + rewrite Forall_lookup in HF. rewrite (HF i c Hi) in Hc. done.
    + apply Hn, Hav; [unfold e in Hi; lia|]. unfold V in Hb. by rewrite clean_id in Hb.
Qed.

