(* ===== verification/EalLcores.v ===== *)
(** The option --lcores: an abstract parser from strings to maps from lcores to their
    numbers and cpus, and its refinement by eal_parse_set and eal_parse_lcores. *)
From Stdlib Require Import ZArith Lia Ascii String.
From stdpp Require Import base numbers list gmap strings.
From S2P Require Import Prelude CStdio EalCores EalCoresSpec.

#[local] Open Scope Z_scope.

(** ** The abstract parser *)

Abbreviation cset := (gset nat).

(** The numbers from one limit of a range to the other. *)
Definition span (a b : Z) : cset := set_seq (Z.to_nat (Z.min a b)) (Z.to_nat (Z.max a b - Z.min a b + 1)).

Fixpoint bracket_set (fuel : nat) (str : string) (min : Z) (X : cset) : option (cset * string) :=
  match fuel with
  | O => None
  | S fuel =>
    let str := skip_blank str in
    if negb (is_digit (head str)) then None
    else
      let '(v, rest, err) := strtoul str in
      let idx := u32 v in
      if err || (RTE_MAX_LCORE <=? idx) then None
      else
        let rest := skip_blank rest in
        if ceq (head rest) "-"%char then
          if min =? RTE_MAX_LCORE then bracket_set fuel (tail rest) idx X else None
        else if ceq (head rest) ","%char || ceq (head rest) ")"%char then
          let X := X ∪ span (if min =? RTE_MAX_LCORE then idx else min) idx in
          if ceq (head rest) ")"%char then Some (X, tail rest) else bracket_set fuel (tail rest) RTE_MAX_LCORE X
        else None
  end.

(** The set at the beginning of a string, and what follows. *)
Definition set_of (input : string) : option (cset * string) :=
  let str := skip_blank input in
  if (negb (is_digit (head str)) && negb (ceq (head str) "("%char)) || is_nul str then None
  else if negb (ceq (head str) "("%char) then
    match parse_span str RTE_MAX_LCORE with
    | None => None
    | Some (min, max, rest) => Some (span min max, rest)
    end
  else
    let str := skip_blank (tail str) in
    if is_nul str then None
    else
      match bracket_set (S (String.length str)) str RTE_MAX_LCORE ∅ with
      | None => None
      | Some (X, str) => Some (X, skip_blank str)
      end.

(** Enabled lcores with their numbers and cpus. *)
Abbreviation conf := (gmap nat (Z * gset nat)).

Definition add_lcore (f : nat -> cset) (m : conf) (i : nat) : conf :=
  <[i := (match m !! i with Some (k, _) => k | None => Z.of_nat (size m) end, f i)]> m.

Definition members (X : cset) (k : nat) : list nat := filter (fun i => i ∈ X) (seq k (128 - k)).

Definition add_set (X : cset) (f : nat -> cset) (m : conf) : conf := foldl (add_lcore f) m (members X 0).

(** The cpus after an @; [D] are the cpus that were detected. *)
Definition cpus_of (D : cset) (at_sign : bool) (p : string) : option (cset * string) :=
  if at_sign then
    match set_of (tail p) with
    | Some (X, rest) => if decide (X ⊆ D) then Some (X, rest) else None
    | None => None
    end
  else Some (∅, p).

Fixpoint lcores_of (D : cset) (fuel : nat) (str : string) (m : conf) : option conf :=
  match fuel with
  | O => None
  | S fuel =>
    let start := skip_blank str in
    if is_nul start then None
    else
      let br := ceq (head start) "("%char in
      let p := if br then scan_to (fun c => ceq c ")"%char) start else start in
      if br && is_nul p then None
      else
        let p := scan_to (fun c => ceq c "@"%char || ceq c ","%char) (if br then tail p else p) in
        let at_sign := ceq (head p) "@"%char in
        match cpus_of D at_sign p with
        | None => None
        | Some (cpus, fin) =>
          let lflags := own_cpus at_sign start fin in
          if negb (ceq (head fin) ","%char) && negb (is_nul fin) then None
          else
            match set_of start with
            | None => None
            | Some (X, _) =>
              if at_sign || bool_decide (X ⊆ D) then
                let cpus := if at_sign then cpus else X in
                let m := add_set X (fun i => if lflags then {[i]} else cpus) m in
                if is_nul fin then Some m else lcores_of D fuel (tail fin) m
              else None
            end
        end
  end.

(** ** Rests of strings *)

Definition suffix_of (r s : string) : Prop := exists n, r = str_drop n s.

Lemma suffix_refl s : suffix_of s s.
Proof. by exists 0%nat. Qed.

Lemma str_drop_drop n m s : str_drop n (str_drop m s) = str_drop (m + n) s.
Proof. revert s. induction m as [|m IH]; intros s; [done|]. destruct s; cbn; [by destruct n|apply IH]. Qed.

Lemma suffix_trans a b c : suffix_of a b -> suffix_of b c -> suffix_of a c.
Proof. intros [n ->] [m ->]. exists (m + n)%nat. apply str_drop_drop. Qed.

Lemma suffix_length r s : suffix_of r s -> (String.length r <= String.length s)%nat.
Proof.
  intros [n ->]. revert s. induction n as [|n IH]; intros [|c s]; cbn; try lia. pose proof (IH s). lia.
Qed.

(** The rest is found again from its length. *)
Lemma suffix_drop r s : suffix_of r s -> str_drop (String.length s - String.length r) s = r.
Proof.
  intros [n ->]. revert s. induction n as [|n IH]; intros s; cbn.
  - by rewrite Nat.sub_diag.
  - destruct s as [|c s]; [done|]. pose proof (suffix_length (str_drop n s) s) as Hl. cbn [str_drop String.length].
    rewrite Nat.sub_succ_l by (apply Hl; by exists n). cbn. apply IH.
Qed.

Lemma suffix_cons c r s : suffix_of r s -> suffix_of r (String c s).
Proof. intros [n ->]. by exists (S n). Qed.

Lemma suffix_tail s : suffix_of (tail s) s.
Proof. exists 1%nat. by destruct s. Qed.

Lemma suffix_blank s : suffix_of (skip_blank s) s.
Proof. induction s as [|c s IH]; cbn; [apply suffix_refl|]. destruct (isblank c); [by apply suffix_cons|apply suffix_refl]. Qed.

Lemma suffix_scan f s : suffix_of (scan_to f s) s.
Proof. induction s as [|c s IH]; cbn; [apply suffix_refl|]. destruct (f c); [apply suffix_refl|by apply suffix_cons]. Qed.

Lemma suffix_digits base acc s v n r : digits base acc s = (v, n, r) -> suffix_of r s.
Proof.
  revert acc v n r. induction s as [|c s IH]; intros acc v n r; cbn [digits].
  - intros [= <- <- <-]. apply suffix_refl.
  - destruct (digit c); [|intros [= <- <- <-]; apply suffix_refl].
    destruct (z <? base); [|intros [= <- <- <-]; apply suffix_refl].
    destruct (digits base _ s) as [[v' n'] r'] eqn:E. intros [= <- <- <-]. apply suffix_cons. by eapply IH.
Qed.

Lemma suffix_ws s : suffix_of (skip_ws s) s.
Proof. induction s as [|c s IH]; cbn; [apply suffix_refl|]. destruct (isspace c); [by apply suffix_cons|apply suffix_refl]. Qed.

Lemma suffix_sign s b r : take_sign s = (b, r) -> suffix_of r s.
Proof.
  unfold take_sign. destruct s as [|c s]; [intros [= <- <-]; apply suffix_refl|].
  destruct (code c =? 45); [intros [= <- <-]; by exists 1%nat|]. destruct (code c =? 43); intros [= <- <-]; [by exists 1%nat|apply suffix_refl].
Qed.

Lemma suffix_strtoul s v r err : strtoul s = (v, r, err) -> suffix_of r s.
Proof.
  unfold strtoul, number. cbn [andb]. destruct (take_sign (skip_ws s)) as [neg s1] eqn:Es.
  destruct (digits 10 0 s1) as [[v' n] r'] eqn:Ed. destruct n; intros [= <- <- <-]; [apply suffix_refl|].
  eapply suffix_trans; [by eapply suffix_digits|]. eapply suffix_trans; [by eapply suffix_sign|apply suffix_ws].
Qed.

Create HintDb eal.
#[export] Hint Resolve suffix_refl suffix_tail suffix_blank suffix_scan suffix_trans suffix_strtoul : eal.

(** ** Sets *)

(** The array holds the set. *)
Definition holds (l : list bool) (X : cset) : Prop :=
  length l = 128%nat /\ (forall i, l !! i = Some true <-> i ∈ X).

Definition below (X : cset) : Prop := forall i, i ∈ X -> (i < 128)%nat.

Definition with_set (l : list bool) (s : eal) : eal := set_lset (fun _ => l) s.

Lemma holds_below l X : holds l X -> below X.
Proof. intros [Hl HX] i Hi%HX%lookup_lt_Some. lia. Qed.

Lemma holds_empty : holds (replicate 128 false) ∅.
Proof. split; [by rewrite length_replicate|]. intros i. split; [intros [? _]%lookup_replicate; done|set_solver]. Qed.

Lemma holds_insert l X i : holds l X -> (i < 128)%nat -> holds (<[i := true]> l) (X ∪ {[i]}).
Proof.
  intros [Hl HX] Hi. split; [by rewrite length_insert|]. intros j. destruct (decide (j = i)) as [->|Hne].
  - rewrite list_lookup_insert_eq by lia. set_solver.
  - rewrite list_lookup_insert_ne, HX by done. set_solver.
Qed.

Lemma wp_put_range s X lo hi (Q : unit -> eal -> Prop) :
  holds (lset s) X -> 0 <= lo -> hi < 128 ->
  (forall l, holds l (X ∪ set_seq (Z.to_nat lo) (Z.to_nat (hi - lo + 1))) -> Q tt (with_set l s)) ->
  wp (put_range lo hi) Q s.
Proof.
  unfold put_range. intros HX Hlo Hhi. remember (Z.to_nat (hi - lo + 1)) as n eqn:En. revert s X lo HX Hlo En.
  induction n as [|n IH]; intros s X lo HX Hlo En HQ.
  - rewrite seqZ_nil by lia. cbn. wp_step. replace s with (with_set (lset s) s) by (by destruct s). apply HQ.
    cbn. by rewrite (right_id_L ∅ (∪)).
  - rewrite seqZ_cons by lia. cbn [for_each]. unfold put_set, id. wp_step. rewrite (proj1 HX).
    destruct (Z.leb_spec 0 lo); [|lia]. destruct (Z.ltb_spec lo (Z.of_nat 128)); [|lia]. cbn [andb]. wp_step.
    replace (Z.pred (hi - lo + 1)) with (hi - Z.succ lo + 1) by lia.
    apply (IH _ (X ∪ {[Z.to_nat lo]})); [by apply holds_insert; [|lia]|lia|lia|].
    intros l Hl. apply (HQ l). replace (X ∪ {[Z.to_nat lo]} ∪ _) with (X ∪ set_seq (Z.to_nat lo) (S n) : cset) in Hl; [done|].
    cbn [set_seq]. rewrite Z2Nat.inj_succ by lia. by rewrite <- (assoc_L (∪)).
Qed.

Lemma u32_range v : 0 <= u32 v.
Proof. unfold wrapu. apply Z.mod_pos_bound. lia. Qed.

Lemma wp_span s X a b (Q : unit -> eal -> Prop) :
  holds (lset s) X -> 0 <= a < 128 -> 0 <= b < 128 ->
  (forall l, holds l (X ∪ span a b) -> Q tt (with_set l s)) -> wp (put_range (Z.min a b) (Z.max a b)) Q s.
Proof. intros. apply (wp_put_range _ X); auto; lia. Qed.

Lemma wp_bracket_loop fuel s X str min (Q : option string -> eal -> Prop) :
  holds (lset s) X -> 0 <= min <= 128 -> (String.length str < fuel)%nat ->
  match bracket_set fuel str min X with
  | Some (X', r) => forall l, holds l X' -> Q (Some r) (with_set l s)
  | None => forall l, length l = 128%nat -> Q None (with_set l s)
  end ->
  wp (bracket_loop fuel str min RTE_MAX_LCORE) Q s.
Proof.
  assert (forall s, with_set (lset s) s = s) as Hid by (by intros []).
  revert s X str min. induction fuel as [|fuel IH]; intros s X str min HX Hmin Hlen HQ; [lia|].
  cbn [bracket_loop bracket_set] in *. set (str1 := skip_blank str) in *.
  assert (suffix_of str1 str) as Hs1 by apply suffix_blank.
  assert (length (lset s) = 128%nat) as Hl by apply HX.
  destruct (is_digit (head str1)) eqn:Ed; cbn [negb] in *; [|wp_step; rewrite <- Hid; auto].
  destruct (strtoul str1) as [[v rest] err] eqn:Ev. pose proof (u32_range v).
  destruct (err || (RTE_MAX_LCORE <=? u32 v)) eqn:Ee; [wp_step; rewrite <- Hid; auto|].
  apply orb_false_iff in Ee as [_ Hv%Z.leb_gt]. unfold RTE_MAX_LCORE in Hv.
  set (rest1 := skip_blank rest) in *. assert (suffix_of rest1 str) as Hs2 by eauto with eal.
  assert (rest1 <> EmptyString -> (String.length (tail rest1) < fuel)%nat) as Htail.
  { apply suffix_length in Hs2. destruct rest1; cbn in *; [done|lia]. }
  destruct (ceq (head rest1) "-"%char) eqn:E1.
  { destruct (min =? RTE_MAX_LCORE); [|wp_step; rewrite <- Hid; auto].
    apply (IH s X); auto; [lia|]. apply Htail. by destruct rest1. }
  destruct (ceq (head rest1) ","%char || ceq (head rest1) ")"%char) eqn:E2; [|wp_step; rewrite <- Hid; auto].
  wp_step. apply (wp_span s X); [done|destruct (Z.eqb_spec min RTE_MAX_LCORE); unfold RTE_MAX_LCORE in *; lia|lia|].
  intros l Hl'. destruct (ceq (head rest1) ")"%char) eqn:E3; [wp_step; auto|].
  eapply (IH (with_set l s)); [exact Hl'|unfold RTE_MAX_LCORE; lia|apply Htail; by destruct rest1|].
  destruct (bracket_set fuel _ _ _) as [[X' r]|]; intros l' Hl2; by apply (HQ l').
Qed.

Lemma parse_span_bounds str a b rest : parse_span str RTE_MAX_LCORE = Some (a, b, rest) ->
  0 <= a < 128 /\ 0 <= b < 128 /\ suffix_of rest str.
Proof.
  unfold parse_span. destruct (strtoul str) as [[v r] err] eqn:Ev. pose proof (u32_range v).
  destruct (err || (RTE_MAX_LCORE <=? u32 v)) eqn:Ee; [done|]. apply orb_false_iff in Ee as [_ Hv%Z.leb_gt]. unfold RTE_MAX_LCORE in Hv.
  assert (suffix_of (skip_blank r) str) as Hs by eauto with eal.
  destruct (ceq (head (skip_blank r)) "-"%char).
  - set (r1 := skip_blank (tail (skip_blank r))). destruct (is_digit (head r1)); cbn [negb]; [|done].
    destruct (strtoul r1) as [[v' r'] err'] eqn:Ev'. pose proof (u32_range v').
    destruct (err' || (RTE_MAX_LCORE <=? u32 v')) eqn:Ee; [done|]. apply orb_false_iff in Ee as [_ Hv'%Z.leb_gt]. unfold RTE_MAX_LCORE in Hv'.
    destruct (negb _ && negb _); [done|]. destruct (negb _ && negb _ && negb _); [done|]. intros [= <- <- <-].
    split_and!; try lia. assert (suffix_of r1 str) by (eapply suffix_trans; [|exact Hs]; eauto with eal). eauto 6 with eal.
  - destruct (negb _ && negb _ && negb _); [done|]. intros [= <- <- <-]. split_and!; try lia. done.
Qed.

Lemma bracket_suffix fuel str min X X' r : bracket_set fuel str min X = Some (X', r) -> suffix_of r str.
Proof.
  revert str min X. induction fuel as [|fuel IH]; intros str min X; cbn [bracket_set]; [done|].
  set (str1 := skip_blank str). destruct (is_digit (head str1)); cbn [negb]; [|done].
  destruct (strtoul str1) as [[v rest] err] eqn:Ev. destruct (err || _); [done|].
  assert (suffix_of (tail (skip_blank rest)) str) as Hs.
  { eapply suffix_trans; [apply suffix_tail|]. eapply suffix_trans; [apply suffix_blank|].
    eapply suffix_trans; [by eapply suffix_strtoul|apply suffix_blank]. }
  destruct (ceq _ "-"%char).
  - destruct (min =? _); [|done]. intros ?%IH. eauto with eal.
  - destruct (ceq _ ","%char || ceq _ ")"%char); [|done]. destruct (ceq _ ")"%char); [intros [= <- <-]; done|].
    intros ?%IH. eauto with eal.
Qed.

Lemma set_suffix str X r : set_of str = Some (X, r) -> suffix_of r str.
Proof.
  unfold set_of. set (str1 := skip_blank str). assert (suffix_of str1 str) by apply suffix_blank. destruct (_ || is_nul str1); [done|].
  destruct (negb (ceq (head str1) _)).
  - destruct (parse_span str1 RTE_MAX_LCORE) as [[[a b] rest]|] eqn:E; [|done]. intros [= <- <-].
    apply parse_span_bounds in E as (_ & _ & ?). eauto with eal.
  - set (str2 := skip_blank (tail str1)). destruct (is_nul str2); [done|].
    destruct (bracket_set _ str2 _ _) as [[X' r']|] eqn:E; [|done]. intros [= <- <-]. apply bracket_suffix in E.
    assert (suffix_of str2 str) by (eapply suffix_trans; [apply suffix_blank|]; eauto with eal). eauto with eal.
Qed.

(** [eal_parse_set] refines [set_of]. *)
Lemma wp_parse_set s input (Q : option Z -> eal -> Prop) :
  match set_of input with
  | Some (X, r) => forall l, holds l X -> Q (Some (ptr_diff r input)) (with_set l s)
  | None => forall l, length l = 128%nat -> Q None (with_set l s)
  end ->
  wp (eal_parse_set input RTE_MAX_LCORE) Q s.
Proof.
  intros HQ. unfold eal_parse_set. wp_step. change (replicate (Z.to_nat RTE_MAX_LCORE) false) with (replicate 128 false).
  fold (with_set (replicate 128 false) s). set (s1 := with_set _ s).
  assert (forall l, with_set l s1 = with_set l s) as Hs1 by done.
  assert (holds (lset s1) ∅) as H1 by apply holds_empty. unfold set_of in HQ. set (str := skip_blank input) in *.
  destruct (_ || is_nul str); [wp_step; by apply HQ|].
  destruct (negb (ceq (head str) _)).
  - destruct (parse_span str RTE_MAX_LCORE) as [[[a b] rest]|] eqn:E; [|wp_step; by apply HQ].
    destruct (parse_span_bounds _ _ _ _ E) as (? & ? & _). wp_step. apply (wp_span s1 ∅); auto. intros l Hl. wp_step. rewrite Hs1. apply HQ.
    by rewrite (left_id_L ∅ (∪)) in Hl.
  - destruct (is_nul (skip_blank (tail str))); [wp_step; by apply HQ|]. wp_step.
    apply (wp_bracket_loop _ s1 ∅); [done|unfold RTE_MAX_LCORE; lia|lia|].
    destruct (bracket_set _ _ _ _) as [[X r]|]; intros l Hl; rewrite Hs1; wp_step; by apply HQ.
Qed.

(** ** Configurations *)

(** What the options leave alone of an lcore. *)
Definition place (c : lcore_config) : bool * Z * Z * rte_lcore_role_t :=
  (detected c, lc_socket_id c, lc_core_id c, core_role c).

Definition shows (s : eal) (i : nat) (v : option (Z * cset)) : Prop :=
  exists c, lcore_configs s !! i = Some c /\
  match v with
  | Some (k, cs) => lcore_role s !! i = Some ROLE_RTE /\ core_index c = k /\ lc_cpuset c = cs
  | None => lcore_role s !! i = Some ROLE_OFF /\ core_index c = -1 /\ lc_cpuset c = ∅
  end.

(** The lcores are configured as in [m], the rest is as in [s0]. *)
Record represents (s0 s : eal) (m : conf) : Prop := Represents {
  rp_sized : sized s;
  rp_shows : forall i, (i < 128)%nat -> shows s i (m !! i);
  rp_dom : forall i, is_Some (m !! i) -> (i < 128)%nat;
  rp_place : place <$> lcore_configs s = place <$> lcore_configs s0;
  rp_rest : master_lcore s = master_lcore s0 /\ lcore_count s = lcore_count s0
    /\ service_lcore_count s = service_lcore_count s0 /\ master_lcore_parsed s = master_lcore_parsed s0
}.

Lemma represents_set s0 s m l : represents s0 s m -> represents s0 (with_set l s) m.
Proof. intros [? ? ? ? ?]. by split. Qed.

Lemma conf_size (m : conf) : (forall i, is_Some (m !! i) -> (i < 128)%nat) -> (size m <= 128)%nat.
Proof.
  intros Hd. rewrite <- size_dom. replace 128%nat with (size (set_seq 0 128 : cset)) by (rewrite size_set_seq; done).
  apply subseteq_size. intros i Hi%elem_of_dom%Hd. apply elem_of_set_seq. lia.
Qed.

(** The cpus that can be used. *)
Definition usable (s : eal) (D : cset) : Prop := forall i, i ∈ D <-> (i < 128)%nat /\ available s i.

Lemma usable_represents s0 s m D : usable s0 D -> represents s0 s m -> usable s D.
Proof.
  intros HD HR i. rewrite (HD i). assert (available s0 i <-> available s i) as ->; [|done]. unfold available.
  pose proof (rp_place _ _ _ HR) as Hp. assert (place <$> (lcore_configs s !! i) = place <$> (lcore_configs s0 !! i)) as Hi by (by rewrite <- !list_lookup_fmap, Hp).
  destruct (lcore_configs s !! i) as [c|], (lcore_configs s0 !! i) as [c0|]; cbn in Hi; try done.
  injection Hi as E _ _ _. naive_solver congruence.
Qed.

(** The members of [X] from [k] on. *)
Lemma members_step X k : (k < 128)%nat ->
  members X k = if decide (k ∈ X) then k :: members X (S k) else members X (S k).
Proof.
  intros Hk. unfold members. replace (128 - k)%nat with (S (128 - S k)) by lia. cbn [seq]. by rewrite filter_cons.
Qed.

Lemma elem_of_members X k i : i ∈ members X k <-> i ∈ X /\ (k <= i < 128)%nat.
Proof. unfold members. rewrite list_elem_of_filter, elem_of_seq. split; intros; split_and!; lia || tauto. Qed.

Lemma set_member s X k : holds (lset s) X -> default false (lset s !! Z.to_nat (Z.of_nat k)) = bool_decide (k ∈ X).
Proof.
  intros [Hl HX]. rewrite Nat2Z.id. pose proof (HX k) as Hk. destruct (lset s !! k) as [[]|]; cbn; symmetry.
  - apply bool_decide_eq_true. tauto.
  - apply bool_decide_eq_false. naive_solver.
  - apply bool_decide_eq_false. naive_solver.
Qed.

Lemma wp_cpuset_loop s D X k cs (Q : option cset -> eal -> Prop) :
  sized s -> usable s D -> holds (lset s) X -> (k <= 128)%nat ->
  Q (if decide (Forall (fun i => i ∈ D) (members X k)) then Some (cs ∪ list_to_set (members X k)) else None) s ->
  wp (cpuset_loop (from (Z.of_nat k)) cs) Q s.
Proof.
  intros Hsz HD HX. remember (128 - k)%nat as n eqn:En. revert k cs En. induction n as [|n IH]; intros k cs En Hk HQ.
  - assert (k = 128%nat) as -> by lia. rewrite from_end. cbn [cpuset_loop]. wp_step.
    change (members X 128) with (@nil nat) in HQ. rewrite decide_True in HQ by constructor. cbn in HQ. by rewrite (right_id_L ∅ (∪)) in HQ.
  - rewrite from_step by lia. cbn [cpuset_loop]. unfold id. wp_step. rewrite (set_member s X) by done.
    rewrite members_step in HQ by lia. destruct (decide (k ∈ X)) as [Hin|Hin].
    + rewrite bool_decide_eq_true_2 by done. cbn [negb]. destruct (lookup_lt_is_Some_2 (lcore_configs s) k) as [c Hc].
      { rewrite (proj2 Hsz). unfold RTE_MAX_LCORE. lia. }
      wp_step. apply (wp_get_lcore s k c); [done|lia|]. destruct (detected c) eqn:Ed; cbn [negb].
      * assert (k ∈ D) by (apply HD; split; [lia|by exists c]). rewrite Nat2Z.id. apply IH; [lia..|].
        assert (Forall (fun i => i ∈ D) (k :: members X (S k)) <-> Forall (fun i => i ∈ D) (members X (S k))) as Hiff by (rewrite Forall_cons; tauto).
        cbn [list_to_set] in HQ. rewrite (assoc_L (∪)) in HQ. repeat case_decide; tauto || done.
      * wp_step. rewrite decide_False in HQ; [done|]. intros [(_ & c' & ? & ?)%HD _]%Forall_cons. congruence.
    + rewrite bool_decide_eq_false_2 by done. cbn [negb]. by apply IH; [lia..|].
Qed.

Lemma list_to_members X : below X -> list_to_set (members X 0) = X.
Proof. intros Hb. apply set_eq. intros i. rewrite elem_of_list_to_set, elem_of_members. specialize (Hb i). split; [tauto|]. intros; split; [done|]. split; [lia|auto]. Qed.

(** The cpus of a set, when all of them are there. *)
Lemma wp_convert s D X (Q : option cset -> eal -> Prop) :
  sized s -> usable s D -> holds (lset s) X -> Q (if decide (X ⊆ D) then Some X else None) s ->
  wp (convert_to_cpuset RTE_MAX_LCORE) Q s.
Proof.
  intros Hsz HD HX HQ. unfold convert_to_cpuset. change (seqZ 0 RTE_MAX_LCORE) with (from (Z.of_nat 0)).
  apply (wp_cpuset_loop s D X); auto; [lia|]. pose proof (holds_below _ _ HX) as Hb.
  rewrite list_to_members by done. rewrite (left_id_L ∅ (∪)).
  assert (Forall (fun i => i ∈ D) (members X 0) <-> X ⊆ D) as Hiff.
  { rewrite Forall_forall. split; [intros H i Hi; apply H, elem_of_members; split; [done|split; [lia|by apply Hb]]|].
    intros H i [? _]%elem_of_members. by apply H. }
  repeat case_decide; tauto || done.
Qed.

(** One lcore becomes enabled with its cpus. *)
Lemma represents_add s0 s m i k cs :
  represents s0 s m -> (i < 128)%nat ->
  represents s0 (set_lcores (alter (fun c => with_cpuset cs (with_index k c)) i) (set_roles <[i := ROLE_RTE]> s)) (<[i := (k, cs)]> m).
Proof.
  intros [[H1 H2] Hsh Hd Hp Hr] Hi. change (Z.to_nat RTE_MAX_LCORE) with 128%nat in *. split; cbn; auto.
  - split; cbn; [rewrite length_insert|rewrite length_alter]; done.
  - intros j Hj. destruct (decide (j = i)) as [->|Hne].
    + destruct (lookup_lt_is_Some_2 (lcore_configs s) i) as [c Hc]; [lia|]. exists (with_cpuset cs (with_index k c)). cbn.
      rewrite list_lookup_alter_eq, Hc, lookup_insert_eq, list_lookup_insert_eq by lia. done.
    + destruct (Hsh j Hj) as (c & Hc & Hm). exists c. cbn.
      rewrite list_lookup_alter_ne, lookup_insert_ne, list_lookup_insert_ne by done. auto.
  - intros j [v [[<- _]|[_ ?]]%lookup_insert_Some]; eauto.
  - rewrite <- Hp. apply list_eq. intros j. rewrite !list_lookup_fmap.
    destruct (decide (j = i)) as [->|Hne]; [rewrite list_lookup_alter_eq|by rewrite list_lookup_alter_ne].
    by destruct (lcore_configs s !! i).
Qed.

Lemma alter_alter {A} (l : list A) i f g : alter f i (alter g i l) = alter (fun x => f (g x)) i l.
Proof. revert i. induction l as [|x l IH]; intros [|i]; cbn; [done..|]. f_equal. apply IH. Qed.

Lemma wp_lcores_update s0 s m X k (lflags : bool) cpus (Q : Z -> eal -> Prop) :
  represents s0 s m -> holds (lset s) X -> (k <= 128)%nat ->
  (let m' := foldl (add_lcore (fun i => if lflags then {[i]} else cpus)) m (members X k) in
   forall s', represents s0 s' m' -> Q (Z.of_nat (size m')) s') ->
  wp (lcores_update (from (Z.of_nat k)) lflags cpus (Z.of_nat (size m))) Q s.
Proof.
  remember (128 - k)%nat as n eqn:En. revert k s m cpus En. induction n as [|n IH]; intros k s m cpus En HR HX Hk HQ.
  { assert (k = 128%nat) as -> by lia. rewrite from_end. cbn [lcores_update]. wp_step. by apply HQ. }
  rewrite from_step by lia. cbn [lcores_update]. unfold id. wp_step. rewrite (set_member s X) by done.
  cbv zeta in HQ. rewrite members_step in HQ by lia. destruct (decide (k ∈ X)) as [Hin|Hin].
  2: { rewrite bool_decide_eq_false_2 by done. cbn [negb]. by apply IH; [lia|done|done|lia|]. }
  rewrite bool_decide_eq_true_2 by done. cbn [negb foldl] in *. pose proof (conf_size m (rp_dom _ _ _ HR)).
  set (cs := if lflags then {[k]} else cpus) in *.
  assert (forall s' j, represents s0 s' (<[k := (j, cs)]> m) -> holds (lset s') X ->
    (match m !! k with Some (x, _) => x | None => Z.of_nat (size m) end) = j ->
    wp (lcores_update (from (Z.of_nat (S k))) lflags cs (Z.of_nat (size (<[k := (j, cs)]> m)))) Q s') as Hrest.
  { intros s' j HR' HX' Hj. apply IH; [lia|done|done|lia|]. 
    assert (add_lcore (fun i => if lflags then {[i]} else cpus) m k = <[k := (j, cs)]> m) as E by (unfold add_lcore; by rewrite Hj).
    rewrite !E in HQ. unfold cs in *. by destruct lflags. }
  destruct (rp_shows _ _ _ HR k ltac:(lia)) as (c & Hc & Hm). wp_step.
  destruct (m !! k) as [[j cs0]|] eqn:Emk.
  - destruct Hm as (Hrole & Hidx & _). apply (wp_get_role s k ROLE_RTE); [done|lia|]. rewrite bool_decide_eq_true_2 by done.
    cbn [negb]. wp_step. rewrite Nat2Z.id. fold cs. apply wp_upd_lcore; [lia|].
    replace (size m) with (size (<[k := (j, cs)]> m)) by (rewrite map_size_insert, Emk; done).
    apply Hrest; [|done|done]. pose proof (represents_add s0 s m k j cs HR ltac:(lia)) as HA.
    replace (set_lcores (alter (with_cpuset cs) k) s) with
      (set_lcores (alter (fun c => with_cpuset cs (with_index j c)) k) (set_roles <[k := ROLE_RTE]> s)); [done|].
    unfold set_lcores, set_roles. destruct s as [? ? ? rs ls ? ?]. cbn in *. f_equal; [by apply list_insert_id|].
    apply list_eq. intros i. destruct (decide (i = k)) as [->|]; [|by rewrite !list_lookup_alter_ne].
    rewrite !list_lookup_alter_eq, Hc. cbn. f_equal. unfold with_cpuset, with_index. cbn. by rewrite Hidx.
  - destruct Hm as (Hrole & _). apply (wp_get_role s k ROLE_OFF); [done|lia|]. rewrite bool_decide_eq_false_2 by done.
    cbn [negb]. wp_step. rewrite (wraps_small 32) by lia. apply wp_upd_lcore; [lia|]. wp_step. apply wp_put_role; [lia|]. wp_step.
    rewrite wrapu_small by lia. rewrite Nat2Z.id. fold cs. apply wp_upd_lcore; [lia|].
    replace (Z.of_nat (size m) + 1) with (Z.of_nat (size (<[k := (Z.of_nat (size m), cs)]> m))) by (rewrite map_size_insert, Emk; cbn; lia).
    apply Hrest; [|done|done]. pose proof (represents_add s0 s m k (Z.of_nat (size m)) cs HR ltac:(lia)) as HA.
    unfold set_lcores, set_roles in *. cbn in *. by rewrite alter_alter.
Qed.

(** The cpus behind an @. *)
Lemma wp_parse_cpus s0 s m D (at_sign : bool) p (Q : option (cset * string) -> eal -> Prop) :
  represents s0 s m -> usable s0 D -> (forall l, Q (cpus_of D at_sign p) (with_set l s)) ->
  wp (if at_sign then parse_cpus p else mret (Some (∅, p))) Q s.
Proof.
  intros HR HD HQ. unfold cpus_of in HQ. destruct at_sign; [|wp_step; specialize (HQ (lset s)); by destruct s].
  unfold parse_cpus. wp_step. apply wp_parse_set. destruct (set_of (tail p)) as [[X r]|] eqn:E; intros l Hl.
  - wp_step. apply (wp_convert _ D X); [apply HR|by apply (usable_represents s0 _ m), represents_set|done|].
    wp_step. specialize (HQ l). apply set_suffix, suffix_drop in E. unfold ptr_diff.
    replace (Z.to_nat _) with (String.length (tail p) - String.length r)%nat by lia. rewrite E. by destruct (decide (X ⊆ D)).
  - wp_step. by apply HQ.
Qed.

Lemma cpus_suffix D at_sign p cpus fin : cpus_of D at_sign p = Some (cpus, fin) -> suffix_of fin p.
Proof.
  unfold cpus_of. destruct at_sign; [|intros; simplify_eq; apply suffix_refl].
  destruct (set_of (tail p)) as [[X r]|] eqn:Es; [|done]. case_decide; [|done]. intros; simplify_eq. apply set_suffix in Es. eauto with eal.
Qed.

Lemma wp_lcores_loop s0 D fuel s m str (Q : option Z -> eal -> Prop) :
  represents s0 s m -> usable s0 D -> (String.length str < fuel)%nat ->
  match lcores_of D fuel str m with
  | Some m' => forall s', represents s0 s' m' -> Q (Some (Z.of_nat (size m'))) s'
  | None => forall s' m', represents s0 s' m' -> Q None s'
  end ->
  wp (lcores_loop fuel str (Z.of_nat (size m))) Q s.
Proof.
  revert s m str. induction fuel as [|fuel IH]; intros s m str HR HD Hlen HQ; [lia|].
  cbn [lcores_loop lcores_of] in *. cbv zeta in *. set (start := skip_blank str) in *.
  assert (suffix_of start str) as Hs by apply suffix_blank.
  destruct (is_nul start); [wp_step; eauto|]. set (br := ceq (head start) "("%char) in *.
  set (p := if br then scan_to _ start else start) in *.
  assert (suffix_of p str) as Hp by (unfold p; destruct br; eauto with eal).
  destruct (br && is_nul p); [wp_step; eauto|].
  set (p2 := scan_to _ (if br then tail p else p)) in *.
  assert (suffix_of p2 str) as Hp2.
  { eapply suffix_trans; [apply suffix_scan|]. destruct br; eauto with eal. }
  set (at_sign := ceq (head p2) "@"%char) in *. wp_step. apply (wp_parse_cpus s0 _ m D); [done..|]. intros l1.
  assert (represents s0 (with_set l1 s) m) as HR1 by (by apply represents_set).
  destruct (cpus_of D at_sign p2) as [[cpus fin]|] eqn:Ec; [|wp_step; eauto].
  assert (suffix_of fin str) as Hfin by (eapply suffix_trans; [by eapply cpus_suffix|done]).
  destruct (negb (ceq (head fin) ","%char) && negb (is_nul fin)) eqn:Ef; [wp_step; eauto|].
  wp_step. apply wp_parse_set. destruct (set_of start) as [[X r]|]; intros l2 Hl2; [|wp_step; by apply (HQ _ m), represents_set].
  set (s2 := with_set l2 (with_set l1 s)). assert (represents s0 s2 m) as HR2 by (by apply represents_set).
  assert (forall C, C = (if at_sign then cpus else X) -> at_sign || bool_decide (X ⊆ D) = true ->
    wp (count ← lcores_update (from 0) (own_cpus at_sign start fin) C (Z.of_nat (size m));
        if is_nul fin then mret (Some count) else lcores_loop fuel (tail fin) count) Q s2) as Hgo.
  { intros C -> Eok. rewrite Eok in HQ. rewrite wp_bind. apply (wp_lcores_update s0 s2 m X 0); [done|done|lia|].
    cbv zeta. intros s3 HR3. fold (add_set X (fun i => if own_cpus at_sign start fin then {[i]} else if at_sign then cpus else X) m) in *.
    destruct (is_nul fin) eqn:En; [rewrite wp_ret; by apply HQ|]. apply (IH s3); auto.
    apply suffix_length in Hfin. destruct fin; [done|]. cbn [String.length tail] in *. lia. }
  cbv beta iota. rewrite wp_bind. destruct at_sign eqn:Eat.
  - rewrite wp_ret. by apply Hgo.
  - apply (wp_convert _ D X); [apply HR2|by apply (usable_represents s0 _ m)|done|]. destruct (decide (X ⊆ D)) as [Hd|Hd].
    + apply (Hgo X); [done|]. by apply bool_decide_eq_true.
    + rewrite bool_decide_eq_false_2 in HQ by done. cbn [orb] in HQ. wp_step. by apply (HQ _ m).
Qed.


(** ** Well-formed configurations *)

(** Distinct numbers from zero on, and cpus that are there. *)
Record numbered (D : cset) (m : conf) : Prop := Numbered {
  nb_dom : forall i, is_Some (m !! i) -> (i < 128)%nat;
  nb_index : forall i k cs, m !! i = Some (k, cs) -> 0 <= k < Z.of_nat (size m);
  nb_inj : forall i j k cs cs', m !! i = Some (k, cs) -> m !! j = Some (k, cs') -> i = j;
  nb_cpus : forall i k cs, m !! i = Some (k, cs) -> cs <> ∅ /\ cs ⊆ D
}.

Lemma numbered_empty D : numbered D ∅.
Proof. split; intros *; rewrite ?lookup_empty; try done. Qed.

Lemma numbered_add D m f i :
  numbered D m -> (i < 128)%nat -> f i <> ∅ -> f i ⊆ D -> numbered D (add_lcore f m i).
Proof.
  intros [Hd Hx Hj Hc] Hi Hf HfD. unfold add_lcore. destruct (m !! i) as [[k0 cs0]|] eqn:Em.
  - assert (size (<[i := (k0, f i)]> m) = size m) as Es by (rewrite map_size_insert, Em; done). split.
    + intros j [v [[<- _]|[_ ?]]%lookup_insert_Some]; eauto.
    + intros j k cs. rewrite Es. intros [[<- [= <- <-]]|[_ ?]]%lookup_insert_Some; eauto.
    + intros j j' k cs cs' [[<- [= <- <-]]|[Hne ?]]%lookup_insert_Some [[<- E]|[Hne' ?]]%lookup_insert_Some; try simplify_eq; eauto.
    + intros j k cs [[<- [= <- <-]]|[_ ?]]%lookup_insert_Some; eauto.
  - assert (size (<[i := (Z.of_nat (size m), f i)]> m) = S (size m)) as Es by (rewrite map_size_insert, Em; done). split.
    + intros j [v [[<- _]|[_ ?]]%lookup_insert_Some]; eauto.
    + intros j k cs. rewrite Es. intros [[<- [= <- <-]]|[_ Hk]]%lookup_insert_Some; [lia|]. pose proof (Hx j k cs Hk). lia.
    + intros j j' k cs cs' [[<- [= <- <-]]|[Hne Hk]]%lookup_insert_Some [[<- E]|[Hne' Hk']]%lookup_insert_Some; try simplify_eq; eauto.
      * pose proof (Hx _ _ _ Hk'). lia.
      * pose proof (Hx _ _ _ Hk). lia.
    + intros j k cs [[<- [= <- <-]]|[_ ?]]%lookup_insert_Some; eauto.
Qed.

Lemma numbered_set D m X f :
  numbered D m -> (forall i, i ∈ X -> f i <> ∅ /\ f i ⊆ D) -> numbered D (add_set X f m).
Proof.
  intros Hm Hf. unfold add_set. assert (forall i, i ∈ members X 0 -> (i < 128)%nat /\ i ∈ X) as Hin.
  { intros i [? ?]%elem_of_members. split; [lia|done]. }
  revert m Hm. induction (members X 0) as [|i l IH]; intros m Hm; [done|]. cbn. destruct (Hin i) as [Hi HX]; [set_solver|].
  apply IH; [set_solver|]. destruct (Hf i HX). by apply numbered_add.
Qed.

Lemma add_set_nonempty X f m i : below X -> i ∈ X -> add_set X f m <> ∅.
Proof.
  intros Hb Hi. assert (i ∈ members X 0) as Hin by (apply elem_of_members; split; [done|split; [lia|by apply Hb]]).
  unfold add_set. assert (forall l (m : conf), m <> ∅ -> foldl (add_lcore f) m l <> ∅) as Hmono.
  { induction l as [|j l IH]; intros m0 H0; cbn; [done|]. apply IH. apply insert_non_empty. }
  destruct (members X 0) as [|j l]; [set_solver|]. cbn. apply Hmono, insert_non_empty.
Qed.

Lemma span_spec a b i : 0 <= a -> 0 <= b -> i ∈ span a b <-> Z.min a b <= Z.of_nat i <= Z.max a b.
Proof. intros. unfold span. rewrite elem_of_set_seq. lia. Qed.

Lemma span_ok a b : 0 <= a < 128 -> 0 <= b < 128 -> span a b <> ∅ /\ below (span a b).
Proof.
  intros. split.
  - intros E. assert (Z.to_nat a ∈ span a b) as Hin by (rewrite span_spec; lia). rewrite E in Hin. set_solver.
  - intros i Hi. rewrite span_spec in Hi by lia. lia.
Qed.

Lemma bracket_ok fuel str min X X' r :
  bracket_set fuel str min X = Some (X', r) -> 0 <= min <= 128 -> below X -> X' <> ∅ /\ below X'.
Proof.
  revert str min X. induction fuel as [|fuel IH]; intros str min X; cbn [bracket_set]; [done|].
  destruct (is_digit _); cbn [negb]; [|done]. destruct (strtoul _) as [[v rest] err]. pose proof (u32_range v).
  destruct (err || (RTE_MAX_LCORE <=? u32 v)) eqn:Ee; [done|]. apply orb_false_iff in Ee as [_ Hv%Z.leb_gt]. unfold RTE_MAX_LCORE in *.
  destruct (ceq _ "-"%char); [destruct (min =? 128); [|done]; intros E ? ?; apply (IH _ _ _ E); [lia|done]|].
  destruct (ceq _ ","%char || ceq _ ")"%char); [|done]. intros E Hmin HX.
  destruct (span_ok (if min =? 128 then u32 v else min) (u32 v)) as [Hn Hb]; [destruct (Z.eqb_spec min 128); lia|lia|].
  assert (below (X ∪ span (if min =? 128 then u32 v else min) (u32 v))) as Hb' by (intros i [?|?]%elem_of_union; auto).
  destruct (ceq _ ")"%char); [simplify_eq; split; [set_solver|done]|]. apply (IH _ _ _ E); [lia|done].
Qed.

Lemma set_ok str X r : set_of str = Some (X, r) -> X <> ∅ /\ below X.
Proof.
  unfold set_of. destruct (_ || is_nul _); [done|]. destruct (negb (ceq (head (skip_blank str)) _)).
  - destruct (parse_span _ RTE_MAX_LCORE) as [[[a b] rest]|] eqn:E; [|done]. intros [= <- <-].
    apply parse_span_bounds in E as (? & ? & _). by apply span_ok.
  - destruct (is_nul _); [done|]. destruct (bracket_set _ _ _ _) as [[X' r']|] eqn:E; [|done]. intros [= <- <-].
    apply bracket_ok in E; [done|unfold RTE_MAX_LCORE; lia|]. intros i. set_solver.
Qed.

Lemma lcores_of_ok D fuel str m m' : lcores_of D fuel str m = Some m' -> numbered D m -> numbered D m' /\ m' <> ∅.
Proof.
  revert str m. induction fuel as [|fuel IH]; intros str m; cbn [lcores_of]; [done|]. cbv zeta.
  set (start := skip_blank str). destruct (is_nul start); [done|]. destruct (_ && is_nul _); [done|].
  set (p := scan_to _ _). set (at_sign := ceq (head p) "@"%char). destruct (cpus_of D at_sign p) as [[cpus fin]|] eqn:Ec; [|done].
  destruct (negb _ && negb _); [done|]. destruct (set_of start) as [[X r]|] eqn:Es; [|done].
  destruct (at_sign || bool_decide (X ⊆ D)) eqn:Eok; [|done]. intros E Hm. destruct (set_ok _ _ _ Es) as [HX Hb].
  assert (forall i, i ∈ X -> (if own_cpus at_sign start fin then {[i]} else if at_sign then cpus else X) <> ∅
    /\ (if own_cpus at_sign start fin then {[i]} else if at_sign then cpus else X) ⊆ D) as Hf.
  { intros i Hi. destruct at_sign eqn:Eat.
    - cbn. unfold cpus_of in Ec. destruct (set_of (tail p)) as [[C r']|] eqn:Et; [|done]. case_decide; simplify_eq.
      by destruct (set_ok _ _ _ Et).
    - cbn [orb] in Eok. apply bool_decide_eq_true in Eok. destruct (own_cpus _ _ _); [set_solver|]. split; [done|set_solver]. }
  assert (numbered D (add_set X (fun i => if own_cpus at_sign start fin then {[i]} else if at_sign then cpus else X) m)) as Hm1
    by (by apply numbered_set).
  destruct (is_nul fin); [|by apply (IH _ _ E)]. simplify_eq. split; [done|].
  destruct (set_choose_L X HX) as [i Hi]. by apply (add_set_nonempty _ _ _ i).
Qed.

(** ** Every string *)

Lemma wp_reset s (Q : unit -> eal -> Prop) :
  sized s -> (forall s', represents s s' ∅ -> Q tt s') ->
  wp (for_each (from 0) (fun idx => disable idx ;; upd_lcore idx (with_cpuset ∅))) Q s.
Proof.
  intros Hsz HQ. change 0 with (Z.of_nat 0).
  apply (wp_for_from _ (fun k s' => sized s' /\ place <$> lcore_configs s' = place <$> lcore_configs s
    /\ (master_lcore s' = master_lcore s /\ lcore_count s' = lcore_count s
        /\ service_lcore_count s' = service_lcore_count s /\ master_lcore_parsed s' = master_lcore_parsed s)
    /\ forall i, (i < k)%nat -> shows s' i None)); [lia|split_and!; auto; lia| |].
  - intros i s' Hi ([H1 H2] & Hp & Hr & Hsh). unfold disable. wp_step. apply wp_put_role; [lia|]. wp_step. apply wp_upd_lcore; [lia|].
    wp_step. apply wp_upd_lcore; [lia|]. change (Z.to_nat RTE_MAX_LCORE) with 128%nat in *.
    destruct (lookup_lt_is_Some_2 (lcore_configs s') i) as [c Hc]; [lia|]. split_and!; cbn; try apply Hr.
    + split; cbn; [by rewrite length_insert|by rewrite !length_alter].
    + rewrite <- Hp. apply list_eq. intros j. rewrite !list_lookup_fmap, alter_alter.
      destruct (decide (j = i)) as [->|Hne]; [rewrite list_lookup_alter_eq|by rewrite list_lookup_alter_ne]. by rewrite Hc.
    + intros j Hj. destruct (decide (j = i)) as [->|Hne].
      * exists (with_cpuset ∅ (with_index (-1) c)). cbn. rewrite alter_alter, list_lookup_alter_eq, Hc, list_lookup_insert_eq by lia. done.
      * destruct (Hsh j ltac:(lia)) as (c' & Hc' & ?). exists c'. cbn. rewrite alter_alter, list_lookup_alter_ne, list_lookup_insert_ne by done. auto.
  - intros s' (Hs' & Hp & Hr & Hsh). apply HQ. split; auto. intros i. rewrite lookup_empty. by intros [? ?].
Qed.

(** The configuration an argument of --lcores stands for. *)
Definition lcores_conf (D : cset) (str : string) : option conf :=
  let str := skip_blank str in lcores_of D (S (String.length str)) str ∅.

(** The parser against the abstract one. *)
Lemma wp_parse_lcores s D str (Q : Z -> eal -> Prop) :
  sized s -> usable s D ->
  match lcores_conf D str with
  | Some m => numbered D m -> m <> ∅ -> forall s', represents (set_count (Z.of_nat (size m)) s) s' m -> Q 0 s'
  | None => forall s' m, represents s s' m -> Q (-1) s'
  end ->
  wp (eal_parse_lcores (Some str)) Q s.
Proof.
  intros Hsz HD HQ. unfold eal_parse_lcores, lcores_conf in *. cbv zeta in *. wp_step. apply wp_reset; [done|]. intros s1 HR1. wp_step.
  change (lcores_loop ?f ?x 0) with (lcores_loop f x (Z.of_nat (size (∅ : conf)))). apply (wp_lcores_loop s D _ s1 ∅); [done|done|lia|].
  destruct (lcores_of D _ _ ∅) as [m|] eqn:E.
  - destruct (lcores_of_ok _ _ _ _ _ E (numbered_empty D)) as [Hm Hne]. intros s2 HR2. wp_step.
    destruct (Z.eqb_spec (Z.of_nat (size m)) 0) as [E0|_]; [exfalso; apply Hne, map_size_empty_iff; lia|]. wp_step.
    apply HQ; [done..|]. destruct HR2 as [? ? ? ? (? & ? & ? & ?)]. split; auto.
  - intros s2 m HR2. wp_step. eauto.
Qed.

(** The option --lcores, for every string. [eal_parse_lcores] ends, without an access
    outside of the arrays and without running behind the end of the string. Either it
    fails, and leaves everything but roles, numbers and cpus of the lcores alone; or it
    succeeds, and then at least one lcore is enabled, the enabled lcores have distinct
    numbers below their count, which is stored, each has at least one cpu and all of its
    cpus were detected, and every other lcore is off, without number and cpus. *)
Theorem lcores_safe s D str :
  sized s -> usable s D ->
  wp (eal_parse_lcores (Some str)) (fun r s' =>
    (r = -1 /\ exists m, represents s s' m) \/
    (r = 0 /\ exists m, numbered D m /\ m <> ∅ /\ represents (set_count (Z.of_nat (size m)) s) s' m)) s.
Proof.
  intros Hsz HD. apply (wp_parse_lcores s D); [done..|]. destruct (lcores_conf D str) as [m|].
  - intros Hm Hne s' HR. right. eauto.
  - intros s' m HR. left. eauto.
Qed.
