(* ===== verification/EalLcoresPrint.v ===== *)
(** The option --lcores: descriptions of core mappings, how they are written, and that
    the parser reads back what was written. With the mapping libmoon asks for. *)
From Stdlib Require Import ZArith Lia Ascii String.
From stdpp Require Import base numbers list gmap strings.
From S2P Require Import Prelude CStdio EalCores EalCoresSpec EalLcores.

#[local] Open Scope Z_scope.

(** ** Descriptions *)

Inductive item := One (a : nat) | Range (a b : nat).

Inductive desc := Plain (it : item) | Group (it : item) (its : list item).

(** Lcores, and the cpus behind an @. *)
Record map_entry := Entry { e_lcores : desc; e_cpus : option desc }.

Definition item_set (it : item) : cset :=
  match it with
  | One a => {[a]}
  | Range a b => set_seq (a `min` b) (S (a `max` b - a `min` b))
  end.

Definition desc_set (d : desc) : cset :=
  match d with
  | Plain it => item_set it
  | Group it its => item_set it ∪ ⋃ (item_set <$> its)
  end.

(** The cpus of an lcore of an entry: those behind the @, else all numbers of the entry,
    except that in a range without brackets each lcore has its own one. *)
Definition entry_cpus (e : map_entry) (i : nat) : cset :=
  match e_cpus e, e_lcores e with
  | Some d, _ => desc_set d
  | None, Plain (Range _ _) => {[i]}
  | None, d => desc_set d
  end.

(** The cpus that must be there. *)
Definition entry_needs (e : map_entry) : cset := desc_set (default (e_lcores e) (e_cpus e)).

(** The lcores of each entry are added in ascending order; one that is enabled already
    keeps its number and gets the new cpus. *)
Fixpoint configured (D : cset) (es : list map_entry) (m : conf) : option conf :=
  match es with
  | [] => Some m
  | e :: es =>
    if decide (entry_needs e ⊆ D) then configured D es (add_set (desc_set (e_lcores e)) (entry_cpus e) m) else None
  end.

(** Numbers that exist, and no cpus behind a range without brackets. *)
Definition item_ok (it : item) : Prop :=
  match it with One a => (a < 128)%nat | Range a b => (a < 128)%nat /\ (b < 128)%nat end.

Definition desc_ok (d : desc) : Prop :=
  match d with Plain it => item_ok it | Group it its => item_ok it /\ Forall item_ok its end.

Definition is_range (d : desc) : bool := match d with Plain (Range _ _) => true | _ => false end.

Definition entry_ok (e : map_entry) : Prop :=
  desc_ok (e_lcores e) /\ match e_cpus e with Some d => desc_ok d /\ is_range (e_lcores e) = false | None => True end.

(** ** Writing, in front of a rest *)

Definition digit_char (n : nat) : ascii := ascii_of_nat (48 + n).

Fixpoint num_loop (fuel n : nat) (k : string) : string :=
  match fuel with
  | O => k
  | S fuel =>
    let k := String (digit_char (n mod 10)) k in
    if (n <? 10)%nat then k else num_loop fuel (n / 10) k
  end.

Definition num (n : nat) (k : string) : string := num_loop 3 n k.

Definition item_str (it : item) (k : string) : string :=
  match it with One a => num a k | Range a b => num a (String "-" (num b k)) end.

Fixpoint items_str (it : item) (its : list item) (k : string) : string :=
  match its with
  | [] => item_str it k
  | it' :: its => item_str it (String "," (items_str it' its k))
  end.

Definition desc_str (d : desc) (k : string) : string :=
  match d with
  | Plain it => item_str it k
  | Group it its => String "(" (items_str it its (String ")" k))
  end.

Definition entry_str (e : map_entry) (k : string) : string :=
  desc_str (e_lcores e) (match e_cpus e with Some d => String "@" (desc_str d k) | None => k end).

Fixpoint entries_str (e : map_entry) (es : list map_entry) : string :=
  match es with
  | [] => entry_str e EmptyString
  | e' :: es => entry_str e (String "," (entries_str e' es))
  end.

(** ** Reading numbers back *)

Lemma digit_char_code n : (n < 10)%nat -> code (digit_char n) = 48 + Z.of_nat n.
Proof. intros Hn. unfold code, digit_char. rewrite nat_ascii_embedding by lia. lia. Qed.

Lemma digit_char_digit n : (n < 10)%nat -> digit (digit_char n) = Some (Z.of_nat n) /\ is_digit (digit_char n) = true.
Proof.
  intros Hn. unfold digit, is_digit. rewrite digit_char_code by done.
  destruct (Z.leb_spec 48 (48 + Z.of_nat n)), (Z.leb_spec (48 + Z.of_nat n) 57); try lia. cbn. split; [f_equal; lia|done].
Qed.

(** The rest does not go on with a digit. *)
Definition stops (k : string) : Prop := is_digit (head k) = false.

Lemma digits_stop acc k : stops k -> digits 10 acc k = (acc, 0%nat, k).
Proof.
  unfold stops, is_digit. destruct k as [|c k]; [done|]. cbn [head digits]. unfold digit.
  destruct ((48 <=? code c) && (code c <=? 57)); [done|]. intros _.
  destruct (Z.leb_spec 65 (code c)), (Z.leb_spec (code c) 70); cbn [andb]; try (destruct (Z.ltb_spec (code c - 55) 10); [lia|done]);
    destruct (Z.leb_spec 97 (code c)), (Z.leb_spec (code c) 102); cbn [andb]; try done; destruct (Z.ltb_spec (code c - 87) 10); lia || done.
Qed.

Lemma digits_num_loop fuel n k : (n < 10 ^ fuel)%nat -> (0 < fuel)%nat -> exists l, (0 < l)%nat /\ forall acc,
  digits 10 acc (num_loop fuel n k) = let '(v, m, r) := digits 10 (acc * 10 ^ Z.of_nat l + Z.of_nat n) k in (v, (l + m)%nat, r).
Proof.
  revert n k. induction fuel as [|fuel IH]; intros n k Hn Hf; [lia|]. cbn [num_loop].
  destruct (digit_char_digit (n mod 10)) as [Hd _]; [apply Nat.mod_upper_bound; lia|].
  assert (forall acc, digits 10 acc (String (digit_char (n mod 10)) k) =
    let '(v, m, r) := digits 10 (acc * 10 + Z.of_nat (n mod 10)) k in (v, S m, r)) as Hstep.
  { intros acc. cbn [digits]. rewrite Hd. destruct (Z.ltb_spec (Z.of_nat (n mod 10)) 10); [done|].
    pose proof (Nat.mod_upper_bound n 10 ltac:(lia)). lia. }
  destruct (Nat.ltb_spec n 10) as [Hlt|Hge].
  - exists 1%nat. split; [lia|]. intros acc. rewrite Hstep, Nat.mod_small by done. done.
  - destruct (IH (n / 10)%nat (String (digit_char (n mod 10)) k)) as (l & Hl & IHl).
    { apply Nat.Div0.div_lt_upper_bound. by rewrite Nat.pow_succ_r' in Hn. }
    { destruct fuel; [cbn in Hn; lia|lia]. }
    exists (S l). split; [lia|]. intros acc. rewrite IHl, Hstep. rewrite Nat2Z.inj_succ, Z.pow_succ_r by lia.
    replace ((acc * 10 ^ Z.of_nat l + Z.of_nat (n / 10)) * 10 + Z.of_nat (n mod 10)) with (acc * (10 * 10 ^ Z.of_nat l) + Z.of_nat n).
    2: { rewrite (Nat.div_mod_eq n 10) at 1. lia. }
    destruct (digits 10 _ k) as [[v m] r]. by rewrite Nat.add_succ_comm.
Qed.

(** A number starts with a digit. *)
Lemma num_head n k : exists d k', num n k = String d k' /\ is_digit d = true.
Proof.
  unfold num. generalize 2%nat as f. intros f. revert n k. induction f as [|f IH]; intros n k; cbn [num_loop].
  all: destruct (digit_char_digit (n mod 10)) as [_ Hd]; [apply Nat.mod_upper_bound; lia|]; destruct (n <? 10)%nat; eauto.
Qed.

Lemma is_digit_code c : is_digit c = true -> 48 <= code c <= 57.
Proof. unfold is_digit. intros [?%Z.leb_le ?%Z.leb_le]%andb_prop. lia. Qed.

(** No digit is the character looked for. *)
Lemma ceq_digit c x : is_digit c = true -> is_digit x = false -> ceq c x = false.
Proof. intros Hc Hx. destruct (ceq c x) eqn:E; [|done]. apply ceq_eq in E. congruence. Qed.

Lemma skip_blank_id s : isblank (head s) = false -> skip_blank s = s.
Proof. destruct s as [|c s]; cbn; [done|]. by intros ->. Qed.

Lemma digit_not_blank c : is_digit c = true -> isblank c = false.
Proof.
  intros Hc. unfold isblank. rewrite (ceq_digit _ _ Hc) by done. cbn. apply is_digit_code in Hc. apply Z.eqb_neq. lia.
Qed.

Lemma num_blank n k : skip_blank (num n k) = num n k.
Proof. apply skip_blank_id. destruct (num_head n k) as (d & k' & -> & Hd). by apply digit_not_blank. Qed.

Lemma num_is_digit n k : is_digit (head (num n k)) = true.
Proof. by destruct (num_head n k) as (d & k' & -> & Hd). Qed.

Lemma num_strtoul n k : (n < 128)%nat -> stops k -> strtoul (num n k) = (Z.of_nat n, k, false).
Proof.
  intros Hn Hk. unfold strtoul, number. cbn [andb].
  assert (skip_ws (num n k) = num n k) as ->.
  { destruct (num_head n k) as (d & k' & -> & Hd%is_digit_code). cbn. unfold isspace.
    destruct (Z.eqb_spec (code d) 32), (Z.leb_spec (code d) 13); try lia. by rewrite andb_false_r. }
  assert (take_sign (num n k) = (false, num n k)) as ->.
  { destruct (num_head n k) as (d & k' & -> & Hd%is_digit_code). cbn.
    destruct (Z.eqb_spec (code d) 45), (Z.eqb_spec (code d) 43); try lia. done. }
  destruct (digits_num_loop 3 n k) as (l & Hl & E); [cbn; lia|lia|]. unfold num. rewrite E, digits_stop by done.
  destruct l as [|l]; [lia|]. cbn [Nat.add]. unfold to_ulong, ULONG_MAX. rewrite Z.add_0_l.
  destruct (Z.ltb_spec (2 ^ 64 - 1) (Z.of_nat n)); [lia|done].
Qed.

Lemma scan_num f n k : (forall c, is_digit c = true -> f c = false) -> scan_to f (num n k) = scan_to f k.
Proof.
  intros Hf. unfold num. generalize 3%nat as fuel. intros fuel. revert n k. induction fuel as [|fuel IH]; intros n k; [done|]. cbn [num_loop].
  assert (scan_to f (String (digit_char (n mod 10)) k) = scan_to f k) as E.
  { cbn [scan_to]. rewrite Hf; [done|]. apply digit_char_digit, Nat.mod_upper_bound. lia. }
  destruct (n <? 10)%nat; [done|]. by rewrite IH.
Qed.

Lemma num_length n k : (String.length k < String.length (num n k))%nat.
Proof.
  unfold num. assert (forall fuel n k, (String.length k <= String.length (num_loop fuel n k))%nat) as Hle.
  { induction fuel as [|fuel IH]; intros n' k'; cbn [num_loop]; [lia|]. destruct (n' <? 10)%nat; [cbn; lia|].
    etransitivity; [|apply IH]. cbn. lia. }
  remember 2%nat as f eqn:Ef. cbn [num_loop]. destruct (n <? 10)%nat; [cbn; lia|].
  subst f. eapply Nat.lt_le_trans; [|apply Hle]. cbn. lia.
Qed.

(** ** Reading sets back *)

(** What can follow an entry, and a set of lcores. *)
Definition ends (k : string) : Prop := k = EmptyString \/ exists k', k = String "," k'.
Definition ends_at (k : string) : Prop := ends k \/ exists k', k = String "@" k'.

Lemma ends_at_head k : ends_at k -> stops k /\ skip_blank k = k /\ ceq (head k) "-"%char = false /\
  negb (ceq (head k) ","%char) && negb (is_nul k) && negb (ceq (head k) "@"%char) = false.
Proof. by intros [[->|[k' ->]]|[k' ->]]. Qed.

Lemma span_item a b : span (Z.of_nat a) (Z.of_nat b) = item_set (Range a b).
Proof. unfold span, item_set. f_equal; lia. Qed.

Lemma span_one a : span (Z.of_nat a) (Z.of_nat a) = item_set (One a).
Proof. rewrite span_item. cbn. apply set_eq. intros i. rewrite elem_of_union, elem_of_singleton. 
  assert (S (a `max` a - a `min` a) = 1)%nat as E by lia. rewrite Nat.min_id, Nat.max_id, Nat.sub_diag. cbn. set_solver. Qed.

Lemma u32_small n : (n < 128)%nat -> u32 (Z.of_nat n) = Z.of_nat n /\ (RTE_MAX_LCORE <=? Z.of_nat n) = false.
Proof. intros Hn. split; [apply wrapu_small; lia|]. apply Z.leb_gt. unfold RTE_MAX_LCORE. lia. Qed.

Lemma parse_span_one a k : (a < 128)%nat -> ends_at k -> parse_span (num a k) RTE_MAX_LCORE = Some (Z.of_nat a, Z.of_nat a, k).
Proof.
  intros Ha Hk. destruct (ends_at_head k Hk) as (Hs & Hb & Hd & He). unfold parse_span. rewrite num_strtoul by done.
  destruct (u32_small a Ha) as [-> ->]. cbn [orb]. rewrite Hb, Hd, He. done.
Qed.

Lemma parse_span_range a b k :
  (a < 128)%nat -> (b < 128)%nat -> ends k ->
  parse_span (num a (String "-" (num b k))) RTE_MAX_LCORE = Some (Z.of_nat a, Z.of_nat b, k).
Proof.
  intros Ha Hb Hk. destruct (ends_at_head k (or_introl Hk)) as (Hs & Hbl & _ & _). unfold parse_span. rewrite num_strtoul by done.
  destruct (u32_small a Ha) as [-> ->]. cbn [orb skip_blank isblank]. change (isblank "-"%char) with false. cbn iota.
  change (ceq (head (String "-" (num b k))) "-"%char) with true. cbn iota. cbn [tail].
  rewrite num_blank, num_is_digit. cbn [negb]. rewrite num_strtoul by done. destruct (u32_small b Hb) as [-> ->]. cbn [orb].
  rewrite Hbl. destruct Hk as [->|[k' ->]]; done.
Qed.

(** The text of the items of a group, and its end. *)
Lemma items_length it its k : (String.length k < String.length (items_str it its k))%nat.
Proof.
  assert (forall it k, (String.length k < String.length (item_str it k))%nat) as Hi.
  { intros [a|a b] k'; cbn; [apply num_length|]. etransitivity; [apply (num_length b)|]. eapply Nat.lt_trans; [|apply num_length]. cbn. lia. }
  revert it. induction its as [|it' its IH]; intros it; cbn [items_str]; [apply Hi|].
  specialize (Hi it (String "," (items_str it' its k))). cbn in Hi. specialize (IH it'). lia.
Qed.

Lemma bracket_num a k fuel min X :
  (a < 128)%nat -> stops k -> isblank (head k) = false ->
  bracket_set (S fuel) (num a k) min X =
    if ceq (head k) "-"%char then if min =? RTE_MAX_LCORE then bracket_set fuel (tail k) (Z.of_nat a) X else None
    else if ceq (head k) ","%char || ceq (head k) ")"%char then
      let X := X ∪ span (if min =? RTE_MAX_LCORE then Z.of_nat a else min) (Z.of_nat a) in
      if ceq (head k) ")"%char then Some (X, tail k) else bracket_set fuel (tail k) RTE_MAX_LCORE X
    else None.
Proof.
  intros Ha Hk Hb. cbn [bracket_set]. rewrite num_blank, num_is_digit. cbn [negb]. rewrite num_strtoul by done.
  destruct (u32_small a Ha) as [-> ->]. cbn [orb]. by rewrite skip_blank_id.
Qed.

(** One item of a group and the separator behind it. *)
Lemma bracket_item it sep k fuel X :
  item_ok it -> sep = ","%char \/ sep = ")"%char -> (String.length (item_str it (String sep k)) < fuel)%nat ->
  exists fuel', (String.length k < fuel')%nat /\
  bracket_set fuel (item_str it (String sep k)) RTE_MAX_LCORE X =
    if ceq sep ")"%char then Some (X ∪ item_set it, k) else bracket_set fuel' k RTE_MAX_LCORE (X ∪ item_set it).
Proof.
  intros Hit Hsep Hf. assert (stops (String sep k) /\ isblank sep = false /\ ceq sep "-"%char = false
    /\ ceq sep ","%char || ceq sep ")"%char = true) as (Hst & Hbl & Hd & Hs) by (by destruct Hsep as [-> | ->]).
  destruct fuel as [|fuel]; [lia|]. destruct it as [a|a b]; cbn [item_str item_ok] in *.
  - pose proof (num_length a (String sep k)). cbn [String.length] in *. exists fuel. split; [lia|].
    rewrite bracket_num by done. cbn [head tail]. rewrite Hd, Hs. by rewrite Z.eqb_refl, span_one.
  - destruct Hit as [Ha Hb]. pose proof (num_length a (String "-" (num b (String sep k)))).
    pose proof (num_length b (String sep k)). cbn [String.length] in *. destruct fuel as [|fuel]; [lia|]. exists fuel. split; [lia|].
    rewrite bracket_num by done. cbn [head tail]. change (ceq "-" "-") with true. cbn iota. rewrite Z.eqb_refl.
    rewrite bracket_num by done. cbn [head tail]. rewrite Hd, Hs. destruct (u32_small a Ha) as [_ Hlt%Z.leb_gt].
    destruct (Z.eqb_spec (Z.of_nat a) RTE_MAX_LCORE); [lia|]. by rewrite span_item.
Qed.

Lemma bracket_items it its k fuel X :
  item_ok it -> Forall item_ok its -> (String.length (items_str it its (String ")" k)) < fuel)%nat ->
  bracket_set fuel (items_str it its (String ")" k)) RTE_MAX_LCORE X = Some (X ∪ desc_set (Group it its), k).
Proof.
  intros Hit Hits. revert it fuel X Hit. induction Hits as [|it' its Hit' Hits IH]; intros it fuel X Hit Hf; cbn [items_str] in *.
  - destruct (bracket_item it ")"%char k fuel X) as (fuel' & _ & ->); auto. cbn. by rewrite (right_id_L ∅ (∪)).
  - destruct (bracket_item it ","%char (items_str it' its (String ")" k)) fuel X) as (fuel' & Hf' & ->); auto.
    change (ceq "," ")") with false. cbn iota. rewrite IH by done. f_equal. f_equal. cbn [desc_set fmap list_fmap union_list]. set_solver.
Qed.

Lemma desc_head d k : exists c k', desc_str d k = String c k' /\ (is_digit c = true \/ c = "("%char) /\
  ceq c "("%char = match d with Group _ _ => true | _ => false end.
Proof.
  destruct d as [it|it its]; [|eexists _, _; split; [done|by auto]]. assert (exists n k', item_str it k = num n k') as (n & k' & E) by (destruct it; cbn; eauto).
  cbn. rewrite E. destruct (num_head n k') as (c & k1 & -> & Hc). exists c, k1. split; [done|]. split; [auto|]. by apply ceq_digit.
Qed.

Lemma digit_start c : is_digit c = true \/ c = "("%char ->
  isblank c = false /\ ceq c nul = false /\ (negb (is_digit c) && negb (ceq c "("%char)) = false.
Proof.
  intros [Hc| ->]; [|done]. split; [by apply digit_not_blank|]. split; [by apply ceq_digit|]. by rewrite Hc.
Qed.

Lemma items_start it its k : is_nul (items_str it its k) = false /\ skip_blank (items_str it its k) = items_str it its k.
Proof.
  assert (exists n k', items_str it its k = num n k') as (n & k' & ->).
  { destruct its as [|it' its]; destruct it; cbn; eauto. }
  split; [|apply num_blank]. destruct (num_head n k') as (c & k1 & -> & Hc). by apply ceq_digit.
Qed.

Lemma set_of_desc d k : desc_ok d -> ends k \/ (ends_at k /\ is_range d = false) -> set_of (desc_str d k) = Some (desc_set d, k).
Proof.
  intros Hd Hk. assert (ends_at k) as Hk' by (destruct Hk as [?|[? _]]; [by left|done]).
  destruct (ends_at_head k Hk') as (_ & Hbk & _ & _). unfold set_of.
  destruct (desc_head d k) as (c & k1 & E & Hc & Hp). destruct (digit_start c Hc) as (Hb & Hn & Hok).
  rewrite skip_blank_id by (by rewrite E). unfold is_nul. cbv zeta.
  assert (head (desc_str d k) = c) as Hh by (by rewrite E). rewrite !Hh, Hok, Hn, Hp. cbn [orb].
  destruct d as [it|it its]; cbn [negb].
  - cbn [desc_str desc_set] in *. destruct it as [a|a b]; cbn [item_str desc_ok item_ok is_range] in *.
    + rewrite parse_span_one by done. by rewrite span_one.
    + destruct Hk as [Hk|[_ ?]]; [|done]. rewrite parse_span_range by tauto. by rewrite span_item.
  - cbn [desc_str tail]. destruct Hd as [Hit Hits]. destruct (items_start it its (String ")" k)) as [Hi1 Hi2]. rewrite Hi2.
    unfold is_nul in Hi1. rewrite Hi1, bracket_items by (auto; lia). by rewrite (left_id_L ∅ (∪)), Hbk.
Qed.

(** ** Reading entries back *)

Section Scan.
Context (f : ascii -> bool).
Hypothesis Hdigit : forall c, is_digit c = true -> f c = false.

Lemma scan_item it k : f "-"%char = false -> scan_to f (item_str it k) = scan_to f k.
Proof. intros Hm. destruct it; cbn [item_str]; rewrite scan_num by done; [done|]. cbn [scan_to]. rewrite Hm. by apply scan_num. Qed.

Lemma scan_items it its k : f "-"%char = false -> f ","%char = false -> scan_to f (items_str it its k) = scan_to f k.
Proof.
  intros Hm Hc. revert it. induction its as [|it' its IH]; intros it; cbn [items_str]; rewrite scan_item by done; [done|].
  cbn [scan_to]. rewrite Hc. apply IH.
Qed.
End Scan.

(** The end of the lcores of an entry is found. *)
Lemma desc_scan d k : ends_at k ->
  let start := desc_str d k in
  let br := ceq (head start) "("%char in
  let p := if br then scan_to (fun c => ceq c ")"%char) start else start in
  br && is_nul p = false /\ scan_to (fun c => ceq c "@"%char || ceq c ","%char) (if br then tail p else p) = k.
Proof.
  intros Hk. cbv zeta. assert (scan_to (fun c => ceq c "@"%char || ceq c ","%char) k = k) as Hs by (by destruct Hk as [[->|[? ->]]|[? ->]]).
  destruct (desc_head d k) as (c & k1 & E & _ & Hp). assert (head (desc_str d k) = c) as -> by (by rewrite E). rewrite Hp.
  destruct d as [it|it its]; cbn [desc_str].
  - split; [done|]. rewrite scan_item; [done| |done]. intros x Hx. by rewrite !ceq_digit.
  - cbn [scan_to]. change (ceq "(" ")") with false. cbn iota. rewrite scan_items; [|intros; by apply ceq_digit|done..].
    cbn [scan_to]. change (ceq ")" ")") with true. done.
Qed.

(** A range without brackets is recognized. *)
Lemma own_cpus_desc d k : ends k -> own_cpus false (desc_str d k) k = is_range d.
Proof.
  intros Hk. unfold own_cpus. cbv zeta. cbn [negb andb]. set (f := fun c => _). assert (forall c, is_digit c = true -> f c = false) as Hf.
  { intros c Hc. unfold f. by rewrite !ceq_digit. }
  destruct d as [[a|a b]|it its]; cbn [desc_str item_str is_range].
  - rewrite scan_num by done. pose proof (suffix_length _ _ (suffix_scan f k)). unfold ptr_diff.
    destruct (Z.ltb_spec (Z.of_nat (String.length (num a k)) - Z.of_nat (String.length (scan_to f k))) (Z.of_nat (String.length (num a k)) - Z.of_nat (String.length k)));
      [lia|done].
  - rewrite scan_num by done. cbn [scan_to]. change (f "-"%char) with true. cbn iota.
    pose proof (num_length b k). unfold ptr_diff. cbn [String.length].
    match goal with |- (?x <? ?y) && _ = _ => destruct (Z.ltb_spec x y); [done|lia] end.
  - cbn [scan_to]. change (f "("%char) with true. cbn iota. change (ceq (head _) "("%char) with true. apply andb_false_r.
Qed.

Lemma add_set_ext X f g m : (forall i, f i = g i) -> add_set X f m = add_set X g m.
Proof.
  intros E. unfold add_set. revert m. induction (members X 0) as [|i l IH]; intros m; cbn; [done|]. rewrite IH. unfold add_lcore. by rewrite E.
Qed.

(** The cpus behind an @ are read. *)
Lemma cpus_of_entry D e k : entry_ok e -> ends k ->
  let rest := match e_cpus e with Some d => String "@" (desc_str d k) | None => k end in
  ends_at rest /\ ceq (head rest) "@"%char = bool_decide (is_Some (e_cpus e)) /\
  cpus_of D (bool_decide (is_Some (e_cpus e))) rest =
    match e_cpus e with Some d => if decide (desc_set d ⊆ D) then Some (desc_set d, k) else None | None => Some (∅, k) end.
Proof.
  intros [_ Hc] Hk. cbv zeta. destruct (e_cpus e) as [d|].
  - destruct Hc as [Hd _]. split_and!; [right; eauto|done|]. unfold cpus_of. cbn [bool_decide decide_rel tail]. by rewrite set_of_desc by auto.
  - split_and!; [by left|by destruct Hk as [->|[? ->]]|done].
Qed.

Lemma lcores_of_entry D fuel e k m : entry_ok e -> ends k ->
  lcores_of D (S fuel) (entry_str e k) m =
    if decide (entry_needs e ⊆ D) then
      let m := add_set (desc_set (e_lcores e)) (entry_cpus e) m in
      if is_nul k then Some m else lcores_of D fuel (tail k) m
    else None.
Proof.
  intros He Hk. destruct (cpus_of_entry D e k He Hk) as (Hr & Ha & Hc). destruct He as [Hd He]. cbn [lcores_of]. unfold entry_str.
  set (rest := match e_cpus e with Some d => String "@" (desc_str d k) | None => k end) in *. cbv zeta.
  assert (skip_blank (desc_str (e_lcores e) rest) = desc_str (e_lcores e) rest /\ is_nul (desc_str (e_lcores e) rest) = false) as [-> ->].
  { destruct (desc_head (e_lcores e) rest) as (c & k1 & E & Hc' & _). destruct (digit_start c Hc') as (Hb & Hn & _). unfold is_nul.
    rewrite skip_blank_id; by rewrite E. }
  destruct (desc_scan (e_lcores e) rest Hr) as [-> ->]. rewrite Ha, Hc, set_of_desc; [|done|].
  2: { unfold rest in *. destruct (e_cpus e); [right; split; [done|tauto]|by left]. }
  assert (negb (ceq (head k) ","%char) && negb (is_nul k) = false) as Hk' by (by destruct Hk as [->|[? ->]]).
  unfold entry_needs. rewrite <- (add_set_ext (desc_set (e_lcores e)) (fun i => if own_cpus (bool_decide (is_Some (e_cpus e))) (desc_str (e_lcores e) rest) k
    then {[i]} else desc_set (default (e_lcores e) (e_cpus e))) (entry_cpus e)).
  - destruct (e_cpus e) as [d|] eqn:Ee; cbn [from_option]; unfold id.
    + case_decide; [|done]. rewrite Hk'. done.
    + rewrite Hk'. change (bool_decide (is_Some (None : option desc))) with false.
      case_decide; [rewrite (bool_decide_eq_true_2 (_ ⊆ D)) by done|rewrite (bool_decide_eq_false_2 (_ ⊆ D)) by done]; done.
  - intros i. unfold entry_cpus, rest. destruct (e_cpus e) as [d|]; [done|]. change (bool_decide (is_Some (None : option desc))) with false.
    rewrite own_cpus_desc by done. cbn. by destruct (e_lcores e) as [[]|].
Qed.

Lemma lcores_of_entries D e es fuel m :
  Forall entry_ok (e :: es) -> (length es < fuel)%nat -> lcores_of D fuel (entries_str e es) m = configured D (e :: es) m.
Proof.
  intros Hes. revert e fuel m Hes. induction es as [|e' es IH]; intros e fuel m [He Hes]%Forall_cons Hf; (destruct fuel as [|fuel]; [cbn in Hf; lia|]).
  all: cbn [entries_str length] in *; rewrite lcores_of_entry; [|done|unfold ends; eauto].
  - done.
  - change (is_nul (String "," _)) with false. cbn [tail]. cbv zeta. rewrite IH by (done || lia). done.
Qed.

Lemma entries_length e es : (length es <= String.length (entries_str e es))%nat.
Proof.
  assert (forall e k, (String.length k <= String.length (entry_str e k))%nat) as Hle.
  { assert (forall d k, (String.length k <= String.length (desc_str d k))%nat) as Hd.
    { intros [it|it its] k; cbn [desc_str]; [apply Nat.lt_le_incl, (items_length it [])|].
      pose proof (items_length it its (String ")" k)) as H1. cbn [String.length] in *. lia. }
    intros e0 k. unfold entry_str. etransitivity; [|apply Hd]. destruct (e_cpus e0) as [d|]; [|done]. cbn. pose proof (Hd d k). lia. }
  revert e. induction es as [|e' es IH]; intros e; cbn [entries_str length]; [lia|].
  pose proof (Hle e (String "," (entries_str e' es))) as H1. cbn [String.length] in H1. specialize (IH e'). lia.
Qed.

Lemma entries_conf D e es : Forall entry_ok (e :: es) -> lcores_conf D (entries_str e es) = configured D (e :: es) ∅.
Proof.
  intros Hes. unfold lcores_conf. cbv zeta. assert (skip_blank (entries_str e es) = entries_str e es) as ->.
  { apply skip_blank_id. assert (exists k, entries_str e es = desc_str (e_lcores e) k) as [k ->].
    { destruct es; cbn [entries_str]; unfold entry_str; eauto. }
    destruct (desc_head (e_lcores e) k) as (c & k1 & -> & Hc & _). by destruct (digit_start c Hc). }
  apply lcores_of_entries; [done|]. pose proof (entries_length e es). lia.
Qed.

(** C20: descriptions of core mappings are read back. Whatever list of entries, lcores
    with or without cpus, single numbers, ranges or groups of both, is written as an
    argument of --lcores, [eal_parse_lcores] reads it and sets up the lcores the entries
    mean when all their cpus were detected, and fails when one was not. *)
Theorem lcores_roundtrip s D e es :
  sized s -> usable s D -> Forall entry_ok (e :: es) ->
  wp (eal_parse_lcores (Some (entries_str e es))) (fun r s' =>
    match configured D (e :: es) ∅ with
    | Some m => r = 0 /\ represents (set_count (Z.of_nat (size m)) s) s' m
    | None => r = -1
    end) s.
Proof.
  intros Hsz HD Hes. apply (wp_parse_lcores s D); [done..|]. rewrite entries_conf by done.
  by destruct (configured D (e :: es) ∅).
Qed.
