(* ===== verification/EalStartup.v ===== *)
(** Starting up: the detection of the cpus, the enumeration of the enabled lcores, the
    master lcore, and the core mapping libmoon asks for. *)
From Stdlib Require Import ZArith Lia Ascii String.
From stdpp Require Import base numbers list gmap strings.
From S2P Require Import Prelude CStdio EalCores EalCoresSpec EalLcores EalLcoresPrint.

#[local] Open Scope Z_scope.

(** ** Detection *)

Section Detection.
Context (e : cpu_env).

Definition found (i : nat) : Prop := eal_cpu_detected e (Z.of_nat i) = true.

#[global] Instance found_dec i : Decision (found i).
Proof. unfold found. apply _. Defined.

(** The cpus below [k] that were detected. *)
Definition detected_below (k : nat) : list nat := filter found (seq 0 k).

(** What is known about an lcore after the detection. *)
Definition probed (s : eal) (i : nat) : Prop :=
  exists c, lcore_configs s !! i = Some c /\ detected c = bool_decide (found i) /\
  (if decide (found i) then
     lcore_role s !! i = Some ROLE_RTE /\ core_role c = ROLE_RTE /\ lc_cpuset c = {[i]}
     /\ core_index c = Z.of_nat (length (detected_below i))
     /\ lc_core_id c = eal_cpu_core_id e (Z.of_nat i) /\ lc_socket_id c = eal_cpu_socket_id e (Z.of_nat i)
   else lcore_role s !! i = Some ROLE_OFF /\ lc_cpuset c = ∅ /\ core_index c = -1).

Lemma detected_below_S k :
  length (detected_below (S k)) = (length (detected_below k) + if decide (found k) then 1 else 0)%nat.
Proof.
  unfold detected_below. replace (seq 0 (S k)) with (seq 0 k ++ [k]) by (by rewrite seq_S). rewrite filter_app, length_app, filter_cons. by case_decide.
Qed.

Lemma detected_below_le k : (length (detected_below k) <= k)%nat.
Proof. unfold detected_below. etransitivity; [apply length_filter|]. by rewrite length_seq. Qed.

(** Changes of one entry. *)
Lemma probed_other s i j f r : i <> j -> probed s j -> probed (set_lcores (alter f i) (set_roles <[i := r]> s)) j.
Proof.
  intros Hne (c & Hc & Hp). exists c. cbn. rewrite list_lookup_alter_ne, list_lookup_insert_ne by done. done.
Qed.

Lemma wp_cpu_init_loop k s s0 (Q : option Z -> eal -> Prop) :
  (k <= 128)%nat -> sized s -> (forall i, (i < k)%nat -> probed s i) ->
  (master_lcore s = master_lcore s0 /\ service_lcore_count s = service_lcore_count s0 /\ master_lcore_parsed s = master_lcore_parsed s0) ->
  (forall s', (forall i, (i < 128)%nat -> found i -> eal_cpu_socket_id e (Z.of_nat i) < MAX_NUMA_NODES) ->
     sized s' -> (forall i, (i < 128)%nat -> probed s' i) ->
     (master_lcore s' = master_lcore s0 /\ service_lcore_count s' = service_lcore_count s0 /\ master_lcore_parsed s' = master_lcore_parsed s0) ->
     Q (Some (Z.of_nat (length (detected_below 128)))) s') ->
  (forall s' i, (i < 128)%nat -> found i -> MAX_NUMA_NODES <= eal_cpu_socket_id e (Z.of_nat i) -> Q None s') ->
  (forall i, (i < k)%nat -> found i -> eal_cpu_socket_id e (Z.of_nat i) < MAX_NUMA_NODES) ->
  wp (cpu_init_loop e (from (Z.of_nat k)) (Z.of_nat (length (detected_below k)))) Q s.
Proof.
  remember (128 - k)%nat as n eqn:En. revert k s En. induction n as [|n IH]; intros k s En Hk Hsz Hp Hr HY HN Hsock.
  { assert (k = 128%nat) as -> by lia. rewrite from_end. cbn [cpu_init_loop]. wp_step. auto. }
  rewrite from_step by lia. cbn [cpu_init_loop]. pose proof (detected_below_le k).
  do 3 (wp_step; apply wp_upd_lcore; [lia|]). pose proof (detected_below_S k) as ES.
  assert (forall s', sized s' -> probed s' k -> (forall i, (i < k)%nat -> probed s' i) ->
    (master_lcore s' = master_lcore s0 /\ service_lcore_count s' = service_lcore_count s0 /\ master_lcore_parsed s' = master_lcore_parsed s0) ->
    (found k -> eal_cpu_socket_id e (Z.of_nat k) < MAX_NUMA_NODES) ->
    wp (cpu_init_loop e (from (Z.of_nat (S k))) (Z.of_nat (length (detected_below (S k))))) Q s') as Hgo.
  { intros s' Hs' Hpk Hp' Hr' Hso. apply IH; auto; [lia|lia|..]; intros i Hi; (destruct (decide (i = k)) as [->|]; [done|]); [apply Hp'|apply Hsock]; lia. }
  destruct Hsz as [H1 H2]. change (Z.to_nat RTE_MAX_LCORE) with 128%nat in *.
  destruct (lookup_lt_is_Some_2 (lcore_configs s) k) as [c Hc]; [lia|].
  destruct (eal_cpu_detected e (Z.of_nat k)) eqn:Ed; cbn [negb].
  - wp_step. apply wp_upd_lcore; [lia|]. wp_step. apply wp_put_role; [lia|]. do 3 (wp_step; apply wp_upd_lcore; [lia|]).
    rewrite decide_True in ES by done.
    destruct (Z.leb_spec MAX_NUMA_NODES (eal_cpu_socket_id e (Z.of_nat k))); [wp_step; by apply (HN _ k); [lia|..]|].
    rewrite wrapu_small by lia. replace (Z.of_nat (length (detected_below k)) + 1) with (Z.of_nat (length (detected_below (S k)))) by lia.
    apply Hgo; [| | |exact Hr|done].
    + split; cbn; [by rewrite length_insert|by rewrite !length_alter].
    + eexists. split; [cbn; rewrite !alter_alter, list_lookup_alter_eq, Hc; done|]. cbn. rewrite bool_decide_eq_true_2, decide_True by done.
      rewrite list_lookup_insert_eq, Nat2Z.id by lia. split; [done|]. split_and!; try done. set_solver.
    + intros i Hi. destruct (Hp i Hi) as (c' & Hc' & ?). exists c'. cbn.
      rewrite !alter_alter, list_lookup_alter_ne, list_lookup_insert_ne by lia. done.
  - wp_step. apply wp_put_role; [lia|]. wp_step. apply wp_upd_lcore; [lia|].
    assert (~ found k) by (unfold found; congruence). rewrite decide_False, Nat.add_0_r in ES by done. rewrite <- ES. apply Hgo; [| | |exact Hr|done].
    + split; cbn; [by rewrite length_insert|by rewrite !length_alter].
    + eexists. split; [cbn; rewrite !alter_alter, list_lookup_alter_eq, Hc; done|]. cbn. rewrite bool_decide_eq_false_2, decide_False by done.
      rewrite list_lookup_insert_eq by lia. done.
    + intros i Hi. destruct (Hp i Hi) as (c' & Hc' & ?). exists c'. cbn.
      rewrite !alter_alter, list_lookup_alter_ne, list_lookup_insert_ne by lia. done.
Qed.

Definition sockets_ok : Prop := forall i, (i < 128)%nat -> found i -> eal_cpu_socket_id e (Z.of_nat i) < MAX_NUMA_NODES.

(** The detection enables the cpus the system has, in ascending order, each as an lcore
    of its own; it fails for a cpu on a socket that is not supported. *)
Lemma wp_cpu_init s (Q : Z -> eal -> Prop) :
  sized s ->
  (forall s', sockets_ok -> sized s' -> lcore_count s' = Z.of_nat (length (detected_below 128)) ->
     (forall i, (i < 128)%nat -> probed s' i) -> master_lcore_parsed s' = master_lcore_parsed s -> Q 0 s') ->
  (forall s', ~ sockets_ok -> Q (-1) s') ->
  wp (rte_eal_cpu_init e) Q s.
Proof.
  intros Hsz HY HN. unfold rte_eal_cpu_init. wp_step. change (from 0) with (from (Z.of_nat 0)).
  change (cpu_init_loop e ?l 0) with (cpu_init_loop e l (Z.of_nat (length (detected_below 0)))).
  apply (wp_cpu_init_loop 0 s s); [lia|done|lia|done|..|lia].
  - intros s' Hso Hs' Hp Hr. wp_step. apply HY; try done. apply Hr.
  - intros s' i Hi Hf Hso. wp_step. apply HN. intros Hok. specialize (Hok i Hi Hf). lia.
Qed.

Lemma usable_probed s : (forall i, (i < 128)%nat -> probed s i) -> usable s (list_to_set (detected_below 128)).
Proof.
  intros Hp i. unfold detected_below. rewrite elem_of_list_to_set, list_elem_of_filter, elem_of_seq. split.
  - intros [Hf Hi]. split; [lia|]. destruct (Hp i ltac:(lia)) as (c & Hc & Hd & _). exists c. split; [done|].
    by rewrite Hd, bool_decide_eq_true_2.
  - intros [Hi (c & Hc & Hd)]. split; [|lia]. destruct (Hp i Hi) as (c' & Hc' & Hd' & _). simplify_eq. rewrite Hd' in Hd.
    by apply bool_decide_eq_true in Hd.
Qed.
End Detection.

(** ** Enumeration *)

(** The lcore is enabled, and it is not the master where that one is skipped. *)
Definition selected (s : eal) (skip_master : bool) (i : nat) : Prop :=
  lcore_role s !! i = Some ROLE_RTE /\ ~ (skip_master = true /\ Z.of_nat i = master_lcore s).

#[global] Instance selected_dec s skip i : Decision (selected s skip i).
Proof. unfold selected. apply _. Defined.

Definition selection (s : eal) (skip_master : bool) (k : nat) : list nat := filter (selected s skip_master) (seq k (128 - k)).

Lemma selection_step s skip k : (k < 128)%nat ->
  selection s skip k = if decide (selected s skip k) then k :: selection s skip (S k) else selection s skip (S k).
Proof. intros Hk. unfold selection. replace (128 - k)%nat with (S (128 - S k)) by lia. cbn [seq]. by rewrite filter_cons. Qed.

(** The first one from [k] on, or the end. *)
Definition first_from (s : eal) (skip_master : bool) (k : nat) : nat := default 128%nat (list.head (selection s skip_master k)).

Lemma wp_is_enabled s i (Q : bool -> eal -> Prop) :
  sized s -> (i < 128)%nat -> Q (bool_decide (lcore_role s !! i = Some ROLE_RTE)) s -> wp (rte_lcore_is_enabled (Z.of_nat i)) Q s.
Proof.
  intros [H1 _] Hi HQ. unfold rte_lcore_is_enabled. destruct (Z.leb_spec RTE_MAX_LCORE (Z.of_nat i)); [unfold RTE_MAX_LCORE in *; lia|].
  destruct (lookup_lt_is_Some_2 (lcore_role s) i) as [r Hr]; [rewrite H1; unfold RTE_MAX_LCORE; lia|]. wp_step. apply (wp_get_role s i r); [done..|]. wp_step.
  rewrite Hr in HQ. erewrite bool_decide_ext; [exact HQ|]. naive_solver.
Qed.

Lemma wp_next_loop s skip fuel k (Q : Z -> eal -> Prop) :
  sized s -> (k <= 128)%nat -> (128 - k < fuel)%nat -> Q (Z.of_nat (first_from s skip k)) s ->
  wp (next_lcore_loop fuel (Z.of_nat k) skip false) Q s.
Proof.
  intros Hsz. revert k. induction fuel as [|fuel IH]; intros k Hk Hf HQ; [lia|]. cbn [next_lcore_loop].
  destruct (Z.leb_spec RTE_MAX_LCORE (Z.of_nat k)) as [Hge|Hlt]; unfold RTE_MAX_LCORE in *.
  { assert (k = 128%nat) as -> by lia. wp_step. exact HQ. }
  wp_step. apply wp_is_enabled; [done|lia|]. unfold id. wp_step. unfold first_from in *. rewrite selection_step in HQ by lia.
  assert (negb (bool_decide (lcore_role s !! k = Some ROLE_RTE)) || (skip && (Z.of_nat k =? master_lcore s)) = negb (bool_decide (selected s skip k))) as ->.
  { unfold selected. destruct (decide (lcore_role s !! k = Some ROLE_RTE)); [|rewrite !bool_decide_eq_false_2 by tauto; done].
    rewrite bool_decide_eq_true_2 by done. cbn [negb orb]. destruct skip; cbn [andb].
    - destruct (Z.eqb_spec (Z.of_nat k) (master_lcore s)); [rewrite bool_decide_eq_false_2|rewrite bool_decide_eq_true_2]; naive_solver.
    - rewrite bool_decide_eq_true_2; naive_solver. }
  destruct (decide (selected s skip k)).
  - rewrite bool_decide_eq_true_2 by done. cbn [negb]. wp_step. exact HQ.
  - rewrite bool_decide_eq_false_2 by done. cbn [negb]. rewrite wrapu_small by lia.
    replace (Z.of_nat k + 1) with (Z.of_nat (S k)) by lia. apply IH; [lia|lia|done].
Qed.

(** The next one after [k - 1]. *)
Lemma wp_next_lcore s skip k (Q : Z -> eal -> Prop) :
  sized s -> (k <= 128)%nat -> Q (Z.of_nat (first_from s skip k)) s -> wp (rte_get_next_lcore (Z.of_nat k - 1) skip false) Q s.
Proof.
  intros Hsz Hk HQ. unfold rte_get_next_lcore. cbv zeta. replace (u32 (Z.of_nat k - 1 + 1)) with (Z.of_nat k) by (rewrite wrapu_small; lia).
  apply wp_next_loop; [done|done|unfold RTE_MAX_LCORE; lia|done].
Qed.

(** The first one splits the selection. *)
Lemma first_from_split s skip k : (k <= 128)%nat ->
  (k <= first_from s skip k <= 128)%nat /\
  selection s skip k = if decide (first_from s skip k < 128)%nat then first_from s skip k :: selection s skip (S (first_from s skip k)) else [].
Proof.
  intros Hk. remember (128 - k)%nat as n eqn:En. revert k Hk En. induction n as [|n IH]; intros k Hk En.
  - assert (k = 128%nat) as -> by lia. split; [done|]. done.
  - unfold first_from. rewrite selection_step by lia. destruct (decide (selected s skip k)); cbn [list.head from_option id].
    + split; [lia|]. by rewrite decide_True by lia.
    + destruct (IH (S k)) as [Hle E]; [lia..|]. unfold first_from in *. split; [lia|done].
Qed.

Lemma wp_foreach_loop s skip fuel k (Q : list Z -> eal -> Prop) :
  sized s -> (k <= 128)%nat -> (128 - k < fuel)%nat ->
  Q (Z.of_nat <$> selection s skip k) s -> wp (foreach_loop fuel (Z.of_nat (first_from s skip k)) skip) Q s.
Proof.
  intros Hsz. revert k Q. induction fuel as [|fuel IH]; intros k Q Hk Hf HQ; [lia|]. cbn [foreach_loop].
  destruct (first_from_split s skip k Hk) as [Hle E]. rewrite E in HQ.
  destruct (Z.ltb_spec (Z.of_nat (first_from s skip k)) RTE_MAX_LCORE); unfold RTE_MAX_LCORE in *.
  - rewrite decide_True in HQ by lia. set (j := first_from s skip k) in *. wp_step.
    replace (Z.of_nat j) with (Z.of_nat (S j) - 1) at 1 by lia. apply wp_next_lcore; [done|lia|]. wp_step.
    apply IH; [lia|lia|]. wp_step. exact HQ.
  - rewrite decide_False in HQ by lia. wp_step. exact HQ.
Qed.

Lemma wp_foreach s skip (Q : list Z -> eal -> Prop) :
  sized s -> Q (Z.of_nat <$> selection s skip 0) s -> wp (RTE_LCORE_FOREACH skip) Q s.
Proof.
  intros Hsz HQ. unfold RTE_LCORE_FOREACH. wp_step. change (-1) with (Z.of_nat 0 - 1). apply wp_next_lcore; [done|lia|].
  apply wp_foreach_loop; [done|lia|unfold RTE_MAX_LCORE; lia|done].
Qed.

(** The values are ascending, and they are the lcores that were asked for. *)
Lemma elem_of_selection s skip i : sized s -> i ∈ selection s skip 0 <-> selected s skip i.
Proof.
  intros [H1 _]. unfold selection. rewrite list_elem_of_filter, elem_of_seq. split; [tauto|]. intros Hs. split; [done|].
  destruct Hs as [Hr%lookup_lt_Some _]. rewrite H1 in Hr. unfold RTE_MAX_LCORE in Hr. lia.
Qed.

(** ** The master lcore *)

Lemma wp_default_master s (Q : unit -> eal -> Prop) :
  sized s -> master_lcore_parsed s = false ->
  (forall i, lcore_role s !! i = Some ROLE_RTE -> (forall j, lcore_role s !! j = Some ROLE_RTE -> (i <= j)%nat) ->
     Q tt (set_lcores (alter (with_role ROLE_RTE) i) (set_master (Z.of_nat i) s))) ->
  (exists i, lcore_role s !! i = Some ROLE_RTE) ->
  wp default_master Q s.
Proof.
  intros Hsz Hm HQ [i0 Hi0]. unfold default_master, id. wp_step. rewrite Hm. wp_step. change (-1) with (Z.of_nat 0 - 1).
  apply wp_next_lcore; [done|lia|]. destruct (first_from_split s false 0 ltac:(lia)) as [Hle E]. set (j := first_from s false 0) in *.
  assert (forall i, lcore_role s !! i = Some ROLE_RTE <-> selected s false i) as Hsel by (intros i; unfold selected; naive_solver).
  destruct (decide (j < 128)%nat) as [Hj|Hj].
  2: { exfalso. pose proof (proj2 (elem_of_selection s false i0 Hsz) (proj1 (Hsel i0) Hi0)) as Hin. rewrite E in Hin. set_solver. }
  wp_step. apply wp_upd_lcore; [done|]. apply HQ.
  - apply Hsel, (elem_of_selection s false j Hsz). rewrite E. set_solver.
  - intros i Hi%Hsel%(elem_of_selection s false i Hsz). rewrite E in Hi. apply elem_of_cons in Hi as [->|Hi]; [done|].
    unfold selection in Hi. apply list_elem_of_filter in Hi as [_ Hi%elem_of_seq]. lia.
Qed.
