(* ===== verification/EalOptions.v ===== *)
(** librte_eal: the command line of the EAL. eal_common_options.c (the common options and
    the checks at the end), linuxapp/eal/eal.c (the options of Linux and the loop over all
    options), eal_common_string_fns.c (splitting) and the log levels of eal_common_log.c.

    The options are the sequence getopt_long returns: a code, and the argument for those
    that have one. [allocs] is how the next allocations end, the empty list when all
    succeed. *)
From Stdlib Require Import ZArith Lia Ascii String.
From stdpp Require Import base numbers list gmap strings.
From S2P Require Import Prelude CStdio EalCores.

#[local] Open Scope Z_scope.

(** ** Data *)

Inductive rte_proc_type_t := RTE_PROC_AUTO | RTE_PROC_PRIMARY | RTE_PROC_SECONDARY | RTE_PROC_INVALID.

#[global] Instance proc_type_eq_dec : EqDecision rte_proc_type_t.
Proof. solve_decision. Defined.

Inductive rte_intr_mode := RTE_INTR_MODE_NONE | RTE_INTR_MODE_LEGACY | RTE_INTR_MODE_MSI | RTE_INTR_MODE_MSIX.

Inductive rte_devtype := RTE_DEVTYPE_WHITELISTED_PCI | RTE_DEVTYPE_BLACKLISTED_PCI | RTE_DEVTYPE_VIRTUAL.

#[global] Instance devtype_eq_dec : EqDecision rte_devtype.
Proof. solve_decision. Defined.

(** The options: the short ones by their letter, and [OPT_BAD] for a question mark. *)
Inductive eal_opt :=
| OPT_b | OPT_c | OPT_s | OPT_d | OPT_h | OPT_l | OPT_S | OPT_m | OPT_n | OPT_r | OPT_v | OPT_w
| OPT_BASE_VIRTADDR_NUM | OPT_CREATE_UIO_DEV_NUM | OPT_FILE_PREFIX_NUM | OPT_HUGE_DIR_NUM
| OPT_HUGE_UNLINK_NUM | OPT_LCORES_NUM | OPT_LOG_LEVEL_NUM | OPT_MASTER_LCORE_NUM
| OPT_PROC_TYPE_NUM | OPT_NO_HPET_NUM | OPT_NO_HUGE_NUM | OPT_NO_PCI_NUM | OPT_NO_SHCONF_NUM
| OPT_SOCKET_MEM_NUM | OPT_SYSLOG_NUM | OPT_VDEV_NUM | OPT_VFIO_INTR_NUM | OPT_VMWARE_TSC_MAP_NUM
| OPT_XEN_DOM0_NUM | OPT_BAD.

#[global] Instance eal_opt_eq_dec : EqDecision eal_opt.
Proof. solve_decision. Defined.

Definition MAX_HUGEPAGE_SIZES : nat := 3.
Definition SOCKET_MEM_STRLEN : Z := MAX_NUMA_NODES * 10.
Definition PATH_MAX : nat := 4096%nat.
Definition RTE_PGSIZE_16M : Z := 2 ^ 24.
Definition RTE_LOG_DEBUG : Z := 8.
Definition LOG_DAEMON : Z := 24.

(** [struct internal_config]; of the huge page descriptors the locks. *)
Record internal_config := InternalConfig {
  memory : Z; force_nchannel : Z; force_nrank : Z; no_hugetlbfs : bool;
  hugepage_unlink : bool; xen_dom0_support : bool; no_pci : bool; no_hpet : bool;
  vmware_tsc_map : bool; no_shconf : bool; create_uio_dev : bool;
  process_type : rte_proc_type_t; force_sockets : bool; socket_mem : list Z;
  base_virtaddr : Z; syslog_facility : Z; vfio_intr_mode : rte_intr_mode;
  hugefile_prefix : string; hugepage_dir : option string; lock_descriptors : list Z
}.

(** The configuration of the cores, [internal_config], the static variables of the
    parsers, the lists of devices and drivers, and the log levels. *)
Record eal_options := Options {
  cores : eal; conf_of : internal_config; b_used : bool; w_used : bool; mem_parsed : bool;
  core_parsed : bool; devopt_list : list (rte_devtype * string); solib_list : list string;
  log_level : Z; dynamic_types : list (string * Z); allocs : list bool
}.

Definition set_memory (x : Z) (c : internal_config) : internal_config :=
  InternalConfig x (force_nchannel c) (force_nrank c) (no_hugetlbfs c) (hugepage_unlink c)
    (xen_dom0_support c) (no_pci c) (no_hpet c) (vmware_tsc_map c) (no_shconf c) (create_uio_dev c)
    (process_type c) (force_sockets c) (socket_mem c) (base_virtaddr c) (syslog_facility c)
    (vfio_intr_mode c) (hugefile_prefix c) (hugepage_dir c) (lock_descriptors c).
Definition set_force_nchannel (x : Z) (c : internal_config) : internal_config :=
  InternalConfig (memory c) x (force_nrank c) (no_hugetlbfs c) (hugepage_unlink c) (xen_dom0_support c)
    (no_pci c) (no_hpet c) (vmware_tsc_map c) (no_shconf c) (create_uio_dev c) (process_type c)
    (force_sockets c) (socket_mem c) (base_virtaddr c) (syslog_facility c) (vfio_intr_mode c)
    (hugefile_prefix c) (hugepage_dir c) (lock_descriptors c).
Definition set_force_nrank (x : Z) (c : internal_config) : internal_config :=
  InternalConfig (memory c) (force_nchannel c) x (no_hugetlbfs c) (hugepage_unlink c)
    (xen_dom0_support c) (no_pci c) (no_hpet c) (vmware_tsc_map c) (no_shconf c) (create_uio_dev c)
    (process_type c) (force_sockets c) (socket_mem c) (base_virtaddr c) (syslog_facility c)
    (vfio_intr_mode c) (hugefile_prefix c) (hugepage_dir c) (lock_descriptors c).
Definition set_no_hugetlbfs (x : bool) (c : internal_config) : internal_config :=
  InternalConfig (memory c) (force_nchannel c) (force_nrank c) x (hugepage_unlink c)
    (xen_dom0_support c) (no_pci c) (no_hpet c) (vmware_tsc_map c) (no_shconf c) (create_uio_dev c)
    (process_type c) (force_sockets c) (socket_mem c) (base_virtaddr c) (syslog_facility c)
    (vfio_intr_mode c) (hugefile_prefix c) (hugepage_dir c) (lock_descriptors c).
Definition set_hugepage_unlink (x : bool) (c : internal_config) : internal_config :=
  InternalConfig (memory c) (force_nchannel c) (force_nrank c) (no_hugetlbfs c) x (xen_dom0_support c)
    (no_pci c) (no_hpet c) (vmware_tsc_map c) (no_shconf c) (create_uio_dev c) (process_type c)
    (force_sockets c) (socket_mem c) (base_virtaddr c) (syslog_facility c) (vfio_intr_mode c)
    (hugefile_prefix c) (hugepage_dir c) (lock_descriptors c).
Definition set_xen_dom0_support (x : bool) (c : internal_config) : internal_config :=
  InternalConfig (memory c) (force_nchannel c) (force_nrank c) (no_hugetlbfs c) (hugepage_unlink c) x
    (no_pci c) (no_hpet c) (vmware_tsc_map c) (no_shconf c) (create_uio_dev c) (process_type c)
    (force_sockets c) (socket_mem c) (base_virtaddr c) (syslog_facility c) (vfio_intr_mode c)
    (hugefile_prefix c) (hugepage_dir c) (lock_descriptors c).
Definition set_no_pci (x : bool) (c : internal_config) : internal_config :=
  InternalConfig (memory c) (force_nchannel c) (force_nrank c) (no_hugetlbfs c) (hugepage_unlink c)
    (xen_dom0_support c) x (no_hpet c) (vmware_tsc_map c) (no_shconf c) (create_uio_dev c)
    (process_type c) (force_sockets c) (socket_mem c) (base_virtaddr c) (syslog_facility c)
    (vfio_intr_mode c) (hugefile_prefix c) (hugepage_dir c) (lock_descriptors c).
Definition set_no_hpet (x : bool) (c : internal_config) : internal_config :=
  InternalConfig (memory c) (force_nchannel c) (force_nrank c) (no_hugetlbfs c) (hugepage_unlink c)
    (xen_dom0_support c) (no_pci c) x (vmware_tsc_map c) (no_shconf c) (create_uio_dev c)
    (process_type c) (force_sockets c) (socket_mem c) (base_virtaddr c) (syslog_facility c)
    (vfio_intr_mode c) (hugefile_prefix c) (hugepage_dir c) (lock_descriptors c).
Definition set_vmware_tsc_map (x : bool) (c : internal_config) : internal_config :=
  InternalConfig (memory c) (force_nchannel c) (force_nrank c) (no_hugetlbfs c) (hugepage_unlink c)
    (xen_dom0_support c) (no_pci c) (no_hpet c) x (no_shconf c) (create_uio_dev c) (process_type c)
    (force_sockets c) (socket_mem c) (base_virtaddr c) (syslog_facility c) (vfio_intr_mode c)
    (hugefile_prefix c) (hugepage_dir c) (lock_descriptors c).
Definition set_no_shconf (x : bool) (c : internal_config) : internal_config :=
  InternalConfig (memory c) (force_nchannel c) (force_nrank c) (no_hugetlbfs c) (hugepage_unlink c)
    (xen_dom0_support c) (no_pci c) (no_hpet c) (vmware_tsc_map c) x (create_uio_dev c) (process_type c)
    (force_sockets c) (socket_mem c) (base_virtaddr c) (syslog_facility c) (vfio_intr_mode c)
    (hugefile_prefix c) (hugepage_dir c) (lock_descriptors c).
Definition set_create_uio_dev (x : bool) (c : internal_config) : internal_config :=
  InternalConfig (memory c) (force_nchannel c) (force_nrank c) (no_hugetlbfs c) (hugepage_unlink c)
    (xen_dom0_support c) (no_pci c) (no_hpet c) (vmware_tsc_map c) (no_shconf c) x (process_type c)
    (force_sockets c) (socket_mem c) (base_virtaddr c) (syslog_facility c) (vfio_intr_mode c)
    (hugefile_prefix c) (hugepage_dir c) (lock_descriptors c).
Definition set_process_type (x : rte_proc_type_t) (c : internal_config) : internal_config :=
  InternalConfig (memory c) (force_nchannel c) (force_nrank c) (no_hugetlbfs c) (hugepage_unlink c)
    (xen_dom0_support c) (no_pci c) (no_hpet c) (vmware_tsc_map c) (no_shconf c) (create_uio_dev c) x
    (force_sockets c) (socket_mem c) (base_virtaddr c) (syslog_facility c) (vfio_intr_mode c)
    (hugefile_prefix c) (hugepage_dir c) (lock_descriptors c).
Definition set_force_sockets (x : bool) (c : internal_config) : internal_config :=
  InternalConfig (memory c) (force_nchannel c) (force_nrank c) (no_hugetlbfs c) (hugepage_unlink c)
    (xen_dom0_support c) (no_pci c) (no_hpet c) (vmware_tsc_map c) (no_shconf c) (create_uio_dev c)
    (process_type c) x (socket_mem c) (base_virtaddr c) (syslog_facility c) (vfio_intr_mode c)
    (hugefile_prefix c) (hugepage_dir c) (lock_descriptors c).
Definition set_socket_mem (x : list Z) (c : internal_config) : internal_config :=
  InternalConfig (memory c) (force_nchannel c) (force_nrank c) (no_hugetlbfs c) (hugepage_unlink c)
    (xen_dom0_support c) (no_pci c) (no_hpet c) (vmware_tsc_map c) (no_shconf c) (create_uio_dev c)
    (process_type c) (force_sockets c) x (base_virtaddr c) (syslog_facility c) (vfio_intr_mode c)
    (hugefile_prefix c) (hugepage_dir c) (lock_descriptors c).
Definition set_base_virtaddr (x : Z) (c : internal_config) : internal_config :=
  InternalConfig (memory c) (force_nchannel c) (force_nrank c) (no_hugetlbfs c) (hugepage_unlink c)
    (xen_dom0_support c) (no_pci c) (no_hpet c) (vmware_tsc_map c) (no_shconf c) (create_uio_dev c)
    (process_type c) (force_sockets c) (socket_mem c) x (syslog_facility c) (vfio_intr_mode c)
    (hugefile_prefix c) (hugepage_dir c) (lock_descriptors c).
Definition set_syslog_facility (x : Z) (c : internal_config) : internal_config :=
  InternalConfig (memory c) (force_nchannel c) (force_nrank c) (no_hugetlbfs c) (hugepage_unlink c)
    (xen_dom0_support c) (no_pci c) (no_hpet c) (vmware_tsc_map c) (no_shconf c) (create_uio_dev c)
    (process_type c) (force_sockets c) (socket_mem c) (base_virtaddr c) x (vfio_intr_mode c)
    (hugefile_prefix c) (hugepage_dir c) (lock_descriptors c).
Definition set_vfio_intr_mode (x : rte_intr_mode) (c : internal_config) : internal_config :=
  InternalConfig (memory c) (force_nchannel c) (force_nrank c) (no_hugetlbfs c) (hugepage_unlink c)
    (xen_dom0_support c) (no_pci c) (no_hpet c) (vmware_tsc_map c) (no_shconf c) (create_uio_dev c)
    (process_type c) (force_sockets c) (socket_mem c) (base_virtaddr c) (syslog_facility c) x
    (hugefile_prefix c) (hugepage_dir c) (lock_descriptors c).
Definition set_hugefile_prefix (x : string) (c : internal_config) : internal_config :=
  InternalConfig (memory c) (force_nchannel c) (force_nrank c) (no_hugetlbfs c) (hugepage_unlink c)
    (xen_dom0_support c) (no_pci c) (no_hpet c) (vmware_tsc_map c) (no_shconf c) (create_uio_dev c)
    (process_type c) (force_sockets c) (socket_mem c) (base_virtaddr c) (syslog_facility c)
    (vfio_intr_mode c) x (hugepage_dir c) (lock_descriptors c).
Definition set_hugepage_dir (x : option string) (c : internal_config) : internal_config :=
  InternalConfig (memory c) (force_nchannel c) (force_nrank c) (no_hugetlbfs c) (hugepage_unlink c)
    (xen_dom0_support c) (no_pci c) (no_hpet c) (vmware_tsc_map c) (no_shconf c) (create_uio_dev c)
    (process_type c) (force_sockets c) (socket_mem c) (base_virtaddr c) (syslog_facility c)
    (vfio_intr_mode c) (hugefile_prefix c) x (lock_descriptors c).
Definition set_lock_descriptors (x : list Z) (c : internal_config) : internal_config :=
  InternalConfig (memory c) (force_nchannel c) (force_nrank c) (no_hugetlbfs c) (hugepage_unlink c)
    (xen_dom0_support c) (no_pci c) (no_hpet c) (vmware_tsc_map c) (no_shconf c) (create_uio_dev c)
    (process_type c) (force_sockets c) (socket_mem c) (base_virtaddr c) (syslog_facility c)
    (vfio_intr_mode c) (hugefile_prefix c) (hugepage_dir c) x.

Definition set_cores (x : eal) (s : eal_options) : eal_options :=
  Options x (conf_of s) (b_used s) (w_used s) (mem_parsed s) (core_parsed s) (devopt_list s) (solib_list s) (log_level s) (dynamic_types s) (allocs s).
Definition set_conf_of (x : internal_config) (s : eal_options) : eal_options :=
  Options (cores s) x (b_used s) (w_used s) (mem_parsed s) (core_parsed s) (devopt_list s) (solib_list s) (log_level s) (dynamic_types s) (allocs s).
Definition set_b_used (x : bool) (s : eal_options) : eal_options :=
  Options (cores s) (conf_of s) x (w_used s) (mem_parsed s) (core_parsed s) (devopt_list s) (solib_list s) (log_level s) (dynamic_types s) (allocs s).
Definition set_w_used (x : bool) (s : eal_options) : eal_options :=
  Options (cores s) (conf_of s) (b_used s) x (mem_parsed s) (core_parsed s) (devopt_list s) (solib_list s) (log_level s) (dynamic_types s) (allocs s).
Definition set_mem_parsed (x : bool) (s : eal_options) : eal_options :=
  Options (cores s) (conf_of s) (b_used s) (w_used s) x (core_parsed s) (devopt_list s) (solib_list s) (log_level s) (dynamic_types s) (allocs s).
Definition set_core_parsed (x : bool) (s : eal_options) : eal_options :=
  Options (cores s) (conf_of s) (b_used s) (w_used s) (mem_parsed s) x (devopt_list s) (solib_list s) (log_level s) (dynamic_types s) (allocs s).
Definition set_devopt_list (x : list (rte_devtype * string)) (s : eal_options) : eal_options :=
  Options (cores s) (conf_of s) (b_used s) (w_used s) (mem_parsed s) (core_parsed s) x (solib_list s) (log_level s) (dynamic_types s) (allocs s).
Definition set_solib_list (x : list string) (s : eal_options) : eal_options :=
  Options (cores s) (conf_of s) (b_used s) (w_used s) (mem_parsed s) (core_parsed s) (devopt_list s) x (log_level s) (dynamic_types s) (allocs s).
Definition set_log_level (x : Z) (s : eal_options) : eal_options :=
  Options (cores s) (conf_of s) (b_used s) (w_used s) (mem_parsed s) (core_parsed s) (devopt_list s) (solib_list s) x (dynamic_types s) (allocs s).
Definition set_dynamic_types (x : list (string * Z)) (s : eal_options) : eal_options :=
  Options (cores s) (conf_of s) (b_used s) (w_used s) (mem_parsed s) (core_parsed s) (devopt_list s) (solib_list s) (log_level s) x (allocs s).
Definition set_allocs (x : list bool) (s : eal_options) : eal_options :=
  Options (cores s) (conf_of s) (b_used s) (w_used s) (mem_parsed s) (core_parsed s) (devopt_list s) (solib_list s) (log_level s) (dynamic_types s) x.

(** ** Running on parts of the state *)

Definition on_cores {A} (m : M eal A) : M eal_options A := fun s =>
  match m (cores s) with
  | Ret (a, c) => Ret (a, set_cores c s)
  | Fault => Fault
  | Diverge => Diverge
  end.

Definition update (f : internal_config -> internal_config) : M eal_options unit := modify (fun s => set_conf_of (f (conf_of s)) s).

(** Whether an allocation succeeds. *)
Definition allocate : M eal_options bool :=
  s ← gets id;
  match allocs s with
  | [] => mret true
  | b :: l => modify (set_allocs l) ;; mret b
  end.

(** The argument of an option that has one. *)
Definition need (optarg : option string) : M eal_options string :=
  match optarg with Some a => mret a | None => fault end.

(** ** Lists of devices and drivers *)

Definition ENOMEM : Z := 12.

Definition eal_option_device_add (type : rte_devtype) (optarg : string) : M eal_options Z :=
  ok ← allocate;
  if negb ok then mret (- ENOMEM)
  else modify (fun s => set_devopt_list (devopt_list s ++ [(type, optarg)]) s) ;; mret 0.

Definition eal_plugin_add (path : string) : M eal_options Z :=
  ok ← allocate;
  if negb ok then mret (-1)
  else modify (fun s => set_solib_list (solib_list s ++ [str_take (PATH_MAX - 1) path]) s) ;; mret 0.

(** ** Defaults *)

(** The build does not use HPET. *)
Definition eal_reset_internal_config : M eal_options unit :=
  update (fun c =>
    set_create_uio_dev false (set_vmware_tsc_map false (set_no_hpet true
    (set_vfio_intr_mode RTE_INTR_MODE_NONE (set_xen_dom0_support false (set_syslog_facility LOG_DAEMON
    (set_base_virtaddr 0 (set_lock_descriptors (replicate MAX_HUGEPAGE_SIZES (-1))
    (set_socket_mem (replicate (Z.to_nat MAX_NUMA_NODES) 0) (set_force_sockets false
    (set_hugepage_dir None (set_hugefile_prefix "rte"%string (set_force_nchannel 0
    (set_force_nrank 0 (set_memory 0 c))))))))))))))).

(** ** Parsers of single options *)

Definition syslog_map : list (string * Z) :=
  [("auth", 32); ("cron", 72); ("daemon", 24); ("ftp", 88); ("kern", 0); ("lpr", 48);
   ("mail", 16); ("news", 56); ("syslog", 40); ("user", 8); ("uucp", 64);
   ("local0", 128); ("local1", 136); ("local2", 144); ("local3", 152);
   ("local4", 160); ("local5", 168); ("local6", 176); ("local7", 184)]%string.

(** The first entry with the name. *)
Fixpoint find_name {A} (l : list (string * A)) (name : string) : option A :=
  match l with
  | [] => None
  | (n, v) :: l => if bool_decide (name = n) then Some v else find_name l name
  end.

Definition eal_parse_syslog (facility : string) : M eal_options Z :=
  match find_name syslog_map facility with
  | Some v => update (set_syslog_facility v) ;; mret 0
  | None => mret (-1)
  end.

Definition eal_parse_proc_type (arg : string) : rte_proc_type_t :=
  if strncasecmp0 arg "primary" 8 then RTE_PROC_PRIMARY
  else if strncasecmp0 arg "secondary" 10 then RTE_PROC_SECONDARY
  else if strncasecmp0 arg "auto" 5 then RTE_PROC_AUTO
  else RTE_PROC_INVALID.

Definition vfio_intr_map : list (string * rte_intr_mode) :=
  [("legacy"%string, RTE_INTR_MODE_LEGACY); ("msi"%string, RTE_INTR_MODE_MSI); ("msix"%string, RTE_INTR_MODE_MSIX)].

Definition eal_parse_vfio_intr (mode : string) : M eal_options Z :=
  match find_name vfio_intr_map mode with
  | Some v => update (set_vfio_intr_mode v) ;; mret 0
  | None => mret (-1)
  end.

(** [strtoull(s, &end, 16)] *)
Definition strtoull16 (s : string) : Z * string * bool :=
  let '(neg, s1) := take_sign (skip_ws s) in
  let '(v, n, r) := if is_hex_prefix s1 then digits 16 0 (str_drop 2 s1) else digits 16 0 s1 in
  match n with
  | O => (0, s, false)
  | _ => (to_ulong neg v, r, ULONG_MAX <? v)
  end.

(** [strtoul(s, &end, 0)] *)
Definition strtoul_auto (s : string) : Z * string * bool :=
  match number true s with
  | None => (0, s, false)
  | Some (neg, v, r) => (to_ulong neg v, r, ULONG_MAX <? v)
  end.

Definition PTR_ALIGN_CEIL (ptr align : Z) : Z := Z.land (u64 (ptr + (align - 1))) (Z.lnot (align - 1)).

Definition eal_parse_base_virtaddr (arg : string) : M eal_options Z :=
  let '(addr, rest, err) := strtoull16 arg in
  if err || is_nul arg || negb (is_nul rest) then mret (-1)
  else update (set_base_virtaddr (PTR_ALIGN_CEIL addr RTE_PGSIZE_16M)) ;; mret 0.

(** A token is a pointer into the string; it ends at the separator that was overwritten,
    the last one of [maxtokens] at the end of the string. *)
Fixpoint strsplit_loop (s : string) (delim : ascii) (maxtokens tok : nat) (tokstart : bool) (cur : string) : list string :=
  match s with
  | EmptyString => if tokstart then [] else [cur]
  | String c s' =>
    if (maxtokens <=? tok)%nat then if tokstart then [] else [(cur ++ s)%string]
    else
      let tok := if tokstart then S tok else tok in
      let cur := if tokstart then EmptyString else cur in
      if ceq c delim then cur :: strsplit_loop s' delim maxtokens tok true EmptyString
      else strsplit_loop s' delim maxtokens tok false (cur ++ String c EmptyString)
  end.

Definition rte_strsplit (s : string) (maxtokens : nat) (delim : ascii) : list string :=
  strsplit_loop s delim maxtokens 0 true EmptyString.

(** The values in megabytes, stored one after the other; the total. *)
Fixpoint socket_mem_loop (args : list string) (i : nat) (total_mem : Z) : M eal_options (option Z) :=
  match args with
  | [] => mret (Some total_mem)
  | arg :: args =>
    let '(v, rest, err) := strtoul arg in
    update (fun c => set_socket_mem (<[i := v]> (socket_mem c)) c) ;;
    if err || is_nul arg || negb (is_nul rest) then mret None
    else
      let v := u64 (u64 (v * 1024) * 1024) in
      update (fun c => set_socket_mem (<[i := v]> (socket_mem c)) c) ;;
      socket_mem_loop args (S i) (u64 (total_mem + v))
  end.

(** The last character is looked at before the length is: for the empty string that is
    the byte in front of it. *)
Definition eal_parse_socket_mem (arg : string) : M eal_options Z :=
  let len := Z.min (Z.of_nat (String.length arg)) SOCKET_MEM_STRLEN in
  if len =? SOCKET_MEM_STRLEN then mret (-1)
  else
    match String.get (Z.to_nat (len - 1)) arg with
    | None => fault
    | Some c =>
      if negb (is_digit c) then mret (-1)
      else
        let args := rte_strsplit arg (Z.to_nat MAX_NUMA_NODES) ","%char in
        if bool_decide (args = []) then mret (-1)
        else
          update (set_force_sockets true) ;;
          r ← socket_mem_loop args 0 0;
          match r with
          | None => mret (-1)
          | Some total_mem => mret (if total_mem =? 0 then -1 else 0)
          end
    end.

(** ** Log levels *)

(** What the system answers: regular expressions, the cpus the thread may run on, and
    whether there is a primary process already. *)
Record system := System {
  regcomp : string -> bool; regexec : string -> string -> bool;
  affinity : gset nat; eal_proc_type_detect : rte_proc_type_t
}.

Section Options.
Context (sys : system).

Definition rte_log_set_global_level (level : Z) : M eal_options unit := modify (set_log_level (u32 level)).

Definition rte_log_set_level_regexp (pattern : string) (level : Z) : M eal_options Z :=
  if RTE_LOG_DEBUG <? level then mret (-1)
  else if negb (regcomp sys pattern) then mret (-1)
  else
    modify (fun s => set_dynamic_types
      ((fun '(name, l) => if regexec sys pattern name then (name, level) else (name, l)) <$> dynamic_types s) s) ;;
    mret 0.

(** [strsep(&str, ",")]: the text up to the first comma; the rest, if there was one. *)
Fixpoint strsep (s : string) : string * option string :=
  match s with
  | EmptyString => (EmptyString, None)
  | String c s => if ceq c ","%char then (EmptyString, Some s) else let '(a, r) := strsep s in (String c a, r)
  end.

(** [free(str)] on the pointer the calls of strsep left: the start of the copy, NULL, or
    the inside of the copy, which must not be freed. *)
Inductive str_ptr := STR_START | STR_NULL | STR_INSIDE.

Definition free_str (p : str_ptr) : M eal_options unit :=
  match p with STR_START | STR_NULL => mret tt | STR_INSIDE => fault end.

(** The type, the level and where the pointer is after the split. *)
Definition split_level (arg : string) : option string * string * str_ptr :=
  match strsep arg with
  | (_, None) => (None, arg, STR_START)
  | (type, Some str) =>
    match strsep str with
    | (level, None) => (Some type, level, STR_NULL)
    | (level, Some _) => (Some type, level, STR_INSIDE)
    end
  end.

Definition eal_parse_log_level (arg : string) : M eal_options Z :=
  ok ← allocate;
  if negb ok then mret (-1)
  else
    let '(type, level, p) := split_level arg in
    let '(tmp, rest, err) := strtoul_auto level in
    if err || is_nul level || negb (is_nul rest) then free_str p ;; mret (-1)
    else if 2 ^ 32 - 1 <=? tmp then free_str p ;; mret (-1)
    else
      r ← match type with
          | None => rte_log_set_global_level tmp ;; mret 0
          | Some type => rte_log_set_level_regexp type (u32 tmp)
          end;
      free_str p ;;
      mret (if r <? 0 then -1 else 0).

(** ** The common options *)

(** The end of a case: an error, or the option was handled. *)
Definition handled (r : Z) : M eal_options Z := mret (if r <? 0 then -1 else 0).

Definition core_option (p : option string -> M eal Z) (optarg : option string) : M eal_options Z :=
  r ← on_cores (p optarg);
  if r <? 0 then mret (-1) else modify (set_core_parsed true) ;; mret 0.

Definition eal_parse_common_option (opt : eal_opt) (optarg : option string) : M eal_options Z :=
  match opt with
  | OPT_b =>
    s ← gets id;
    if w_used s then mret (-1)
    else
      a ← need optarg;
      r ← eal_option_device_add RTE_DEVTYPE_BLACKLISTED_PCI a;
      if r <? 0 then mret (-1) else modify (set_b_used true) ;; mret 0
  | OPT_w =>
    s ← gets id;
    if b_used s then mret (-1)
    else
      a ← need optarg;
      r ← eal_option_device_add RTE_DEVTYPE_WHITELISTED_PCI a;
      if r <? 0 then mret (-1) else modify (set_w_used true) ;; mret 0
  | OPT_c => core_option eal_parse_coremask optarg
  | OPT_l => core_option eal_parse_corelist optarg
  | OPT_s => r ← on_cores (eal_parse_service_coremask optarg); handled r
  | OPT_S => r ← on_cores (eal_parse_service_corelist optarg); handled r
  | OPT_m =>
    a ← need optarg;
    update (set_memory (u64 (u64 (u64 (atoi a) * 1024) * 1024))) ;;
    modify (set_mem_parsed true) ;; mret 0
  | OPT_n =>
    a ← need optarg;
    update (set_force_nchannel (u32 (atoi a))) ;;
    mret (if u32 (atoi a) =? 0 then -1 else 0)
  | OPT_r =>
    a ← need optarg;
    update (set_force_nrank (u32 (atoi a))) ;;
    mret (if (u32 (atoi a) =? 0) || (16 <? u32 (atoi a)) then -1 else 0)
  | OPT_d =>
    a ← need optarg;
    r ← eal_plugin_add a;
    mret (if r =? -1 then -1 else 0)
  | OPT_v => mret 0
  | OPT_HUGE_UNLINK_NUM => update (set_hugepage_unlink true) ;; mret 0
  | OPT_NO_HUGE_NUM => update (set_no_hugetlbfs true) ;; mret 0
  | OPT_NO_PCI_NUM => update (set_no_pci true) ;; mret 0
  | OPT_NO_HPET_NUM => update (set_no_hpet true) ;; mret 0
  | OPT_VMWARE_TSC_MAP_NUM => update (set_vmware_tsc_map true) ;; mret 0
  | OPT_NO_SHCONF_NUM => update (set_no_shconf true) ;; mret 0
  | OPT_PROC_TYPE_NUM => a ← need optarg; update (set_process_type (eal_parse_proc_type a)) ;; mret 0
  | OPT_MASTER_LCORE_NUM => a ← need optarg; r ← on_cores (eal_parse_master_lcore a); handled r
  | OPT_VDEV_NUM => a ← need optarg; r ← eal_option_device_add RTE_DEVTYPE_VIRTUAL a; handled r
  | OPT_SYSLOG_NUM => a ← need optarg; r ← eal_parse_syslog a; handled r
  | OPT_LOG_LEVEL_NUM => a ← need optarg; r ← eal_parse_log_level a; handled r
  | OPT_LCORES_NUM => core_option eal_parse_lcores optarg
  | _ => mret 1
  end.

(** ** Completing and checking the configuration *)

(** The default master lcore is the first one. *)
Definition eal_adjust_config : M eal_options Z :=
  s ← gets id;
  (if core_parsed s then mret tt else on_cores (eal_auto_detect_cores (affinity sys))) ;;
  (if bool_decide (process_type (conf_of s) = RTE_PROC_AUTO)
   then update (set_process_type (eal_proc_type_detect sys)) else mret tt) ;;
  on_cores default_master ;;
  update (fun c => set_memory (foldl (fun m x => u64 (m + x)) (memory c) (socket_mem c)) c) ;;
  mret 0.

Definition has_percent (s : string) : bool := existsb (fun c => ceq c "%"%char) (list_ascii_of_string s).

Definition eal_check_common_options : M eal_options Z :=
  s ← gets id;
  r ← on_cores (get_role (master_lcore (cores s)));
  if negb (bool_decide (r = ROLE_RTE)) then mret (-1)
  else if bool_decide (process_type (conf_of s) = RTE_PROC_INVALID) then mret (-1)
  else if has_percent (hugefile_prefix (conf_of s)) then mret (-1)
  else if mem_parsed s && force_sockets (conf_of s) then mret (-1)
  else if no_hugetlbfs (conf_of s) && force_sockets (conf_of s) then mret (-1)
  else if no_hugetlbfs (conf_of s) && hugepage_unlink (conf_of s) then mret (-1)
  else mret 0.

(** ** The loop over the options *)

(** How the loop ends: an error, the program's end after the help text, or the options
    are all there. *)
Inductive args_result := ARGS_ERROR | ARGS_EXIT | ARGS_OK.

(** The options of Linux; the build has no support for Xen. *)
Definition eal_parse_linux_option (opt : eal_opt) (optarg : option string) : M eal_options args_result :=
  match opt with
  | OPT_h => mret ARGS_EXIT
  | OPT_XEN_DOM0_NUM => mret ARGS_ERROR
  | OPT_HUGE_DIR_NUM => update (set_hugepage_dir optarg) ;; mret ARGS_OK
  | OPT_FILE_PREFIX_NUM => a ← need optarg; update (set_hugefile_prefix a) ;; mret ARGS_OK
  | OPT_SOCKET_MEM_NUM => a ← need optarg; r ← eal_parse_socket_mem a; mret (if r <? 0 then ARGS_ERROR else ARGS_OK)
  | OPT_BASE_VIRTADDR_NUM => a ← need optarg; r ← eal_parse_base_virtaddr a; mret (if r <? 0 then ARGS_ERROR else ARGS_OK)
  | OPT_VFIO_INTR_NUM => a ← need optarg; r ← eal_parse_vfio_intr a; mret (if r <? 0 then ARGS_ERROR else ARGS_OK)
  | OPT_CREATE_UIO_DEV_NUM => update (set_create_uio_dev true) ;; mret ARGS_OK
  | _ => mret ARGS_ERROR
  end.

Fixpoint parse_args_loop (opts : list (eal_opt * option string)) : M eal_options args_result :=
  match opts with
  | [] => mret ARGS_OK
  | (opt, optarg) :: opts =>
    if bool_decide (opt = OPT_BAD) then mret ARGS_ERROR
    else
      ret ← eal_parse_common_option opt optarg;
      if ret <? 0 then mret ARGS_ERROR
      else if ret =? 0 then parse_args_loop opts
      else
        r ← eal_parse_linux_option opt optarg;
        match r with ARGS_OK => parse_args_loop opts | _ => mret r end
  end.

Definition eal_parse_args (opts : list (eal_opt * option string)) : M eal_options args_result :=
  r ← parse_args_loop opts;
  match r with
  | ARGS_OK =>
    r ← eal_adjust_config;
    if negb (r =? 0) then mret ARGS_ERROR
    else
      r ← eal_check_common_options;
      if negb (r =? 0) then mret ARGS_ERROR
      else
        s ← gets id;
        if xen_dom0_support (conf_of s) && force_sockets (conf_of s) then mret ARGS_ERROR else mret ARGS_OK
  | _ => mret r
  end.

(** A first pass over the options sets the log level; its errors are ignored. *)
Fixpoint eal_log_level_parse (opts : list (eal_opt * option string)) : M eal_options unit :=
  match opts with
  | [] => mret tt
  | (opt, optarg) :: opts =>
    if bool_decide (opt = OPT_BAD) then mret tt
    else
      ret ← (if bool_decide (opt = OPT_LOG_LEVEL_NUM) then eal_parse_common_option opt optarg else mret 0);
      if ret <? 0 then mret tt else eal_log_level_parse opts
  end.

(** The beginning of rte_eal_init, up to the end of the command line. *)
Definition eal_init_options (e : cpu_env) (opts : list (eal_opt * option string)) : M eal_options args_result :=
  eal_reset_internal_config ;;
  eal_log_level_parse opts ;;
  r ← on_cores (rte_eal_cpu_init e);
  if r <? 0 then mret ARGS_ERROR else eal_parse_args opts.
End Options.
