(* ===== verification/EalOptionsSpec.v ===== *)
(** The command line of the EAL: what holds after every sequence of options. *)
From Stdlib Require Import ZArith Lia Ascii String.
From stdpp Require Import base numbers list gmap strings.
From S2P Require Import Prelude CStdio EalCores EalCoresSpec EalLcores EalLcoresPrint EalStartup EalOptions.

#[local] Open Scope Z_scope.

(** ** The number of enabled lcores *)

Abbreviation enabled c := (selection c false 0).

Lemma enabled_spec c i : sized c -> i ∈ enabled c <-> lcore_role c !! i = Some ROLE_RTE.
Proof. intros Hsz. rewrite elem_of_selection by done. unfold selected. naive_solver. Qed.

(** The stored number is the number of enabled lcores. *)
Definition counted (c : eal) : Prop := lcore_count c = Z.of_nat (length (enabled c)).

Lemma filter_ext (P Q : nat -> Prop) `{!forall i, Decision (P i), !forall i, Decision (Q i)} (l : list nat) :
  (forall i, i ∈ l -> P i <-> Q i) -> filter P l = filter Q l.
Proof.
  induction l as [|x l IH]; intros HPQ; [done|]. rewrite !filter_cons, IH by (intros; apply HPQ; set_solver).
  specialize (HPQ x ltac:(set_solver)). repeat case_decide; tauto || done.
Qed.

Lemma enabled_ext c (P : nat -> Prop) `{!forall i, Decision (P i)} :
  (forall i, (i < 128)%nat -> lcore_role c !! i = Some ROLE_RTE <-> P i) -> enabled c = filter P (seq 0 128).
Proof.
  intros HP. apply filter_ext. intros i Hi%elem_of_seq. rewrite <- HP by lia. unfold selected. naive_solver.
Qed.

Lemma enabled_roles c c' : lcore_role c' = lcore_role c -> enabled c' = enabled c.
Proof. intros Hr. apply filter_ext. intros i _. unfold selected. rewrite Hr. naive_solver. Qed.

Lemma rank_length V n : rank V n = Z.of_nat (length (filter (fun i => Z.testbit V (Z.of_nat i) = true) (seq 0 n))).
Proof.
  induction n as [|n IH]; [done|]. cbn [rank]. rewrite IH. replace (seq 0 (S n)) with (seq 0 n ++ [n]) by (by rewrite seq_S).
  rewrite filter_app, length_app, filter_cons. destruct (Z.testbit V (Z.of_nat n)); cbn; case_decide; cbn; lia || done.
Qed.

Lemma masked_enabled V k c : sized c ->
  enabled (set_count k (masked V 128 c)) = filter (fun i => Z.testbit V (Z.of_nat i) = true) (seq 0 128).
Proof.
  intros [H1 _]. apply enabled_ext. intros i Hi. cbn. rewrite list_lookup_imap.
  destruct (lookup_lt_is_Some_2 (lcore_role c) i) as [r ->]; [rewrite H1; unfold RTE_MAX_LCORE; lia|]. cbn. unfold mask_role.
  rewrite decide_True by done. destruct (Z.testbit V (Z.of_nat i)); naive_solver.
Qed.

Lemma represents_enabled c0 c m i : represents c0 c m -> (i < 128)%nat -> lcore_role c !! i = Some ROLE_RTE <-> is_Some (m !! i).
Proof.
  intros HR Hi. destruct (rp_shows _ _ _ HR i Hi) as (x & _ & Hm). destruct (m !! i) as [[k cs]|].
  - destruct Hm as [-> _]. split; eauto.
  - destruct Hm as [-> _]. split; [done|intros [? ?]; done].
Qed.

Lemma represents_count c0 c m : represents c0 c m -> length (enabled c) = size m.
Proof.
  intros HR. rewrite (enabled_ext c (fun i => is_Some (m !! i))) by (intros; by eapply represents_enabled).
  rewrite <- size_dom. assert (list_to_set (filter (fun i => is_Some (m !! i)) (seq 0 128)) = dom m) as <-.
  { apply set_eq. intros i. rewrite elem_of_list_to_set, list_elem_of_filter, elem_of_seq, elem_of_dom. split; [tauto|].
    intros Hi. split; [done|]. pose proof (rp_dom _ _ _ HR i Hi). lia. }
  rewrite size_list_to_set; [done|]. apply NoDup_filter, NoDup_seq.
Qed.

(** ** Options about service cores *)

(** Everything but roles and numbers of single lcores is kept. *)
Record kept (c c' : eal) : Prop := Kept {
  kp_roles : lcore_role c' = lcore_role c;
  kp_detected : detected <$> lcore_configs c' = detected <$> lcore_configs c;
  kp_rest : lcore_count c' = lcore_count c /\ master_lcore c' = master_lcore c /\ master_lcore_parsed c' = master_lcore_parsed c
}.

#[global] Instance kept_preorder : PreOrder kept.
Proof.
  split; [by intros c|]. intros a b c [H1 H2 (H3 & H4 & H5)] [J1 J2 (J3 & J4 & J5)]. split; [congruence..|]. split_and!; congruence.
Qed.

Lemma kept_sized c c' : kept c c' -> sized c -> sized c'.
Proof.
  intros [Hr Hd _] [H1 H2]. split; [congruence|]. apply (f_equal length) in Hd. rewrite !length_fmap in Hd. congruence.
Qed.

Lemma kept_alter c i f : (forall x, detected (f x) = detected x) -> kept c (set_lcores (alter f i) c).
Proof.
  intros Hf. split; try done. cbn. apply list_eq. intros j. rewrite !list_lookup_fmap.
  destruct (decide (j = i)) as [->|Hne]; [rewrite list_lookup_alter_eq|by rewrite list_lookup_alter_ne].
  destruct (lcore_configs c !! i); cbn; [by rewrite Hf|done].
Qed.

Lemma kept_available c c' i : kept c c' -> available c i <-> available c' i.
Proof.
  intros [_ Hd _]. unfold available. assert (detected <$> (lcore_configs c' !! i) = detected <$> (lcore_configs c !! i)) as Hi by (by rewrite <- !list_lookup_fmap, Hd).
  destruct (lcore_configs c' !! i), (lcore_configs c !! i); cbn in Hi; naive_solver congruence.
Qed.

Lemma wp_service_bits k j n val count c (Q : option (Z * Z) -> eal -> Prop) :
  sized c -> (n <= 128)%nat ->
  (forall c' n' count', kept c c' -> (n' <= 128)%nat -> Q (Some (Z.of_nat n', count')) c') -> (forall c', kept c c' -> Q None c') ->
  wp (service_bits j k val (Z.of_nat n) count) Q c.
Proof.
  revert j n count c. induction k as [|k IH]; intros j n count c Hsz Hn HY HN; cbn [service_bits].
  { wp_step. by apply HY. }
  destruct (Z.ltb_spec (Z.of_nat n) RTE_MAX_LCORE); [|wp_step; by apply HY]. unfold RTE_MAX_LCORE in *.
  replace (Z.of_nat n + 1) with (Z.of_nat (S n)) by lia. destruct (Z.testbit val (Z.of_nat j)); [|by apply IH; [|lia|..]].
  unfold id. wp_step. destruct (_ && _); [wp_step; by apply HN|]. wp_step.
  destruct (lookup_lt_is_Some_2 (lcore_configs c) n) as [x Hx]; [rewrite (proj2 Hsz); unfold RTE_MAX_LCORE; lia|].
  apply (wp_get_lcore c n x); [done|lia|]. destruct (detected x); cbn [negb]; [|wp_step; by apply HN].
  wp_step. apply wp_upd_lcore; [lia|]. pose proof (kept_alter c n (with_role ROLE_SERVICE) ltac:(done)) as Hk.
  apply IH; [by eapply kept_sized|lia|..].
  - intros c' n' count' Hk'. apply HY. by etransitivity.
  - intros c' Hk'. apply HN. by etransitivity.
Qed.

Lemma wp_service_mask l n count c (Q : option (list ascii * Z * Z) -> eal -> Prop) :
  sized c -> (n <= 128)%nat ->
  (forall c' rest n' count', kept c c' -> (n' <= 128)%nat -> Q (Some (rest, Z.of_nat n', count')) c') -> (forall c', kept c c' -> Q None c') ->
  wp (service_mask_loop l (Z.of_nat n) count) Q c.
Proof.
  revert n count c. induction l as [|x l IH]; intros n count c Hsz Hn HY HN; cbn [service_mask_loop]; [wp_step; by apply HY|].
  destruct (Z.of_nat n <? RTE_MAX_LCORE); [|wp_step; by apply HY]. destruct (isxdigit x); cbn [negb]; [|wp_step; by apply HN].
  wp_step. apply wp_service_bits; [done..| |intros c' Hk; wp_step; by apply HN]. intros c' n' count' Hk Hn'. apply IH; [by eapply kept_sized|done|..].
  - intros c2 rest n2 count2 Hk2. apply HY. by etransitivity.
  - intros c2 Hk2. apply HN. by etransitivity.
Qed.

Lemma wp_service_coremask str c (Q : Z -> eal -> Prop) :
  sized c -> (forall r c', kept c c' -> Q r c') -> wp (eal_parse_service_coremask (Some str)) Q c.
Proof.
  intros Hsz HQ. unfold eal_parse_service_coremask. cbv zeta. case_bool_decide; [wp_step; by apply HQ|]. wp_step. change 0 with (Z.of_nat 0) at 1.
  apply wp_service_mask; [done|lia| |intros c' Hk; wp_step; by apply HQ]. intros c' rest n count Hk Hn.
  destruct (negb _); [wp_step; by apply HQ|]. wp_step. apply (wp_for_from _ (fun _ s => kept c s)); [done..| |].
  - intros i s Hi Hks. apply wp_upd_lcore; [lia|]. etransitivity; [exact Hks|by apply kept_alter].
  - intros s Hks. destruct (count =? 0); wp_step; apply HQ; [done|]. destruct Hks as [? ? ?]. by split.
Qed.

(** ** Cores the process may not use *)

Lemma length_filter_split (P Q : nat -> Prop) `{!forall i, Decision (P i), !forall i, Decision (Q i)} (l : list nat) :
  (length (filter (fun i => P i /\ Q i) l) + length (filter (fun i => P i /\ ~ Q i) l))%nat = length (filter P l).
Proof. induction l as [|x l IH]; [done|]. rewrite !filter_cons. repeat case_decide; cbn [length]; tauto || lia. Qed.

Definition kept_role (A : cset) (i : nat) (r : rte_lcore_role_t) : rte_lcore_role_t :=
  if decide (r = ROLE_RTE /\ i ∉ A) then ROLE_OFF else r.

Lemma wp_auto_detect_loop A k c removed (Q : Z -> eal -> Prop) :
  sized c -> (k <= 128)%nat -> 0 <= removed <= Z.of_nat k ->
  (let n := length (filter (fun i => lcore_role c !! i = Some ROLE_RTE /\ i ∉ A) (seq k (128 - k))) in
   forall roles, length roles = 128%nat ->
     (forall i, (i < 128)%nat -> roles !! i = if decide (k <= i)%nat then kept_role A i <$> (lcore_role c !! i) else lcore_role c !! i) ->
     Q (removed + Z.of_nat n) (set_roles (fun _ => roles) c)) ->
  wp (auto_detect_loop (from (Z.of_nat k)) A removed) Q c.
Proof.
  remember (128 - k)%nat as n eqn:En. revert k c removed En. induction n as [|n IH]; intros k c removed En Hsz Hk Hr HQ.
  { assert (k = 128%nat) as -> by lia. rewrite from_end. cbn [auto_detect_loop]. wp_step. cbn in HQ. rewrite Z.add_0_r in HQ.
    replace c with (set_roles (fun _ => lcore_role c) c) by (by destruct c). apply HQ; [apply Hsz|]. intros i Hi. by rewrite decide_False by lia. }
  pose proof Hsz as [H1 H2]. change (Z.to_nat RTE_MAX_LCORE) with 128%nat in *.
  rewrite from_step by lia. cbn [auto_detect_loop]. wp_step. destruct (lookup_lt_is_Some_2 (lcore_role c) k) as [r Er]; [lia|].
  apply (wp_get_role c k r); [done|lia|]. rewrite Nat2Z.id. cbv zeta in HQ. cbn [seq] in HQ. rewrite filter_cons in HQ.
  destruct (decide (r = ROLE_RTE /\ k ∉ A)) as [[-> HA]|Hno].
  - rewrite bool_decide_eq_true_2, bool_decide_eq_false_2 by done. cbn [andb negb]. wp_step. apply wp_put_role; [lia|].
    rewrite decide_True in HQ by done. rewrite wrapu_small by lia. apply IH; [lia| |lia|lia|].
    { split; cbn; [by rewrite length_insert|done]. }
    cbv zeta. intros roles Hl Hroles. cbn [length] in HQ.
    replace (filter _ (seq (S k) n)) with (filter (fun i => lcore_role c !! i = Some ROLE_RTE /\ i ∉ A) (seq (S k) n)).
    2: { apply filter_ext. intros i Hi%elem_of_seq. cbn. by rewrite list_lookup_insert_ne by lia. }
    rewrite <- Z.add_assoc, Z.add_1_l, <- Nat2Z.inj_succ. apply (HQ roles Hl). intros i Hi. rewrite Hroles by done. cbn.
    destruct (decide (i = k)) as [->|Hne].
    + rewrite decide_False, decide_True, list_lookup_insert_eq, Er by lia. cbn. unfold kept_role. by rewrite decide_True.
    + rewrite list_lookup_insert_ne by done. repeat case_decide; lia || done.
  - replace (bool_decide (r = ROLE_RTE) && negb (bool_decide (k ∈ A))) with false.
    2: { repeat case_bool_decide; tauto || done. }
    rewrite decide_False in HQ by naive_solver. apply IH; [lia|done|lia|lia|]. cbv zeta. intros roles Hl Hroles. apply (HQ roles Hl).
    intros i Hi. rewrite Hroles by done. destruct (decide (i = k)) as [->|Hne]; [|repeat case_decide; lia || done].
    rewrite decide_False, decide_True, Er by lia. cbn. unfold kept_role. by rewrite decide_False.
Qed.

(** ** The invariant of the cores *)

Section Inv.
Context (e : cpu_env).

Abbreviation D := (list_to_set (detected_below e 128) : cset).

(** The arrays, the detected cpus, the count; a master that was asked for is in the
    array; and the enabled lcores: one at least when an option named them ([chosen]),
    else the detected ones. *)
Record cores_inv (chosen : bool) (c : eal) : Prop := CoresInv {
  ci_sized : sized c;
  ci_usable : usable c D;
  ci_counted : counted c;
  ci_master : master_lcore_parsed c = true -> 0 <= master_lcore c < 128;
  ci_enabled : if chosen then exists i, lcore_role c !! i = Some ROLE_RTE
    else forall i, (i < 128)%nat -> lcore_role c !! i = Some ROLE_RTE <-> i ∈ D
}.

Lemma inv_cpu_init c (Q : Z -> eal -> Prop) :
  sized c -> master_lcore_parsed c = false -> (forall c', cores_inv false c' -> master_lcore_parsed c' = false -> Q 0 c') ->
  (forall c', ~ sockets_ok e -> Q (-1) c') -> wp (rte_eal_cpu_init e) Q c.
Proof.
  intros Hsz Hm HY HN. apply wp_cpu_init; [done| |auto]. intros c' _ Hsz' Hcount Hp Hm'.
  assert (forall i, (i < 128)%nat -> lcore_role c' !! i = Some ROLE_RTE <-> found e i) as Hrole.
  { intros i Hi. destruct (Hp i Hi) as (x & _ & _ & Hx). case_decide; destruct Hx as [-> _]; naive_solver. }
  apply HY; [|congruence]. split; auto.
  - by apply usable_probed.
  - unfold counted. rewrite Hcount. by rewrite (enabled_ext c' (found e)).
  - congruence.
  - intros i Hi. rewrite Hrole by done. unfold detected_below. rewrite elem_of_list_to_set, list_elem_of_filter, elem_of_seq. intuition lia.
Qed.

Lemma available_masked V n c i : available c i <-> available (masked V n c) i.
Proof.
  unfold available. split.
  - intros (x & Hx & Hd). exists (mask_lcore V n i x). cbn. rewrite list_lookup_imap, Hx. cbn. split; [done|].
    unfold mask_lcore. by case_decide.
  - intros (x & Hx & Hd). destruct (masked_detected V n c i x Hx) as (x0 & ? & ?). exists x0. split; congruence.
Qed.

Lemma inv_masked b V k c :
  cores_inv b c -> k = rank V 128 -> k <> 0 -> cores_inv true (set_count k (masked V 128 c)).
Proof.
  intros [Hsz HD Hc Hm He] Hk Hk0. pose proof (masked_enabled V k c Hsz) as E.
  assert (sized (set_count k (masked V 128 c))) as Hsz' by (destruct Hsz; split; cbn; by rewrite length_imap). split.
  - done.
  - intros i. rewrite (HD i). change (available (set_count _ ?c) i) with (available c i). by rewrite <- available_masked.
  - unfold counted. rewrite E, <- rank_length. exact Hk.
  - exact Hm.
  - rewrite rank_length, <- E in Hk. destruct (enabled (set_count k (masked V 128 c))) as [|i l] eqn:El; [done|]. exists i.
    apply enabled_spec; [done|]. rewrite El. set_solver.
Qed.

Lemma inv_coremask b c str (Q : Z -> eal -> Prop) :
  cores_inv b c -> (forall c', Q (-1) c') -> (forall c', cores_inv true c' -> Q 0 c') -> wp (eal_parse_coremask (Some str)) Q c.
Proof.
  intros HI HN HY. eapply wp_mono; [by apply wp_parse_coremask, (ci_sized _ _ HI)|]. intros r c' [(Hok & -> & ->)|(_ & ->)]; [|done].
  apply HY, (inv_masked b); [exact HI|reflexivity|]. destruct Hok as (_ & [Hpos Hlt] & _). set (V := hexval (mask_chars str)) in *. rewrite rank_zero. intros Hb.
  apply (Z.lt_irrefl 0). eapply Z.lt_le_trans; [exact Hpos|]. apply Z.lt_succ_r, (bits_below V 0); [lia|]. intros i _.
  destruct (decide (i < 128)%nat); [by apply Hb|apply (bits_above V 128); [|lia]]. split; [lia|exact Hlt].
Qed.

Lemma inv_lcores b c str (Q : Z -> eal -> Prop) :
  cores_inv b c -> (forall c', Q (-1) c') -> (forall c', cores_inv true c' -> Q 0 c') -> wp (eal_parse_lcores (Some str)) Q c.
Proof.
  intros [Hsz HD Hc Hm He] HN HY. apply (wp_parse_lcores c D); [done..|]. destruct (lcores_conf D str) as [m|]; [|eauto].
  intros _ Hne c' HR. apply HY. pose proof (rp_rest _ _ _ HR) as (Hml & Hcnt & _ & Hmp). cbn in Hml, Hcnt, Hmp. split.
  - apply HR.
  - by eapply (usable_represents (set_count (Z.of_nat (size m)) c)).
  - unfold counted. by rewrite Hcnt, (represents_count _ _ _ HR).
  - by rewrite Hml, Hmp.
  - destruct (map_choose m Hne) as (i & v & Hi). exists i. eapply represents_enabled; [done|apply (rp_dom _ _ _ HR); eauto|eauto].
Qed.

Lemma inv_kept b c c' : cores_inv b c -> kept c c' -> cores_inv b c'.
Proof.
  intros [Hsz HD Hc Hm He] Hk. pose proof (kept_sized _ _ Hk Hsz) as Hsz'. pose proof Hk as [Hr _ (H1 & H2 & H3)]. split.
  - done.
  - intros i. rewrite (HD i). by rewrite (kept_available c c').
  - unfold counted. rewrite H1, (enabled_roles c c') by done. exact Hc.
  - by rewrite H2, H3.
  - by rewrite Hr.
Qed.

Lemma inv_service b c str (Q : Z -> eal -> Prop) :
  cores_inv b c -> (forall r c', cores_inv b c' -> Q r c') -> wp (eal_parse_service_coremask (Some str)) Q c.
Proof. intros HI HQ. apply wp_service_coremask; [by apply (ci_sized _ _ HI)|]. intros r c' Hk. by apply HQ, (inv_kept b c). Qed.

Lemma inv_master_lcore b c arg (Q : Z -> eal -> Prop) :
  cores_inv b c -> (forall c', Q (-1) c') -> (forall c', cores_inv b c' -> Q 0 c') -> wp (eal_parse_master_lcore arg) Q c.
Proof.
  intros [Hsz HD Hc Hm He] HN HY. unfold eal_parse_master_lcore. destruct (strtol_auto arg) as [[v rest] err]. wp_step.
  destruct (err || _); [wp_step; done|]. destruct (Z.leb_spec RTE_MAX_LCORE (u32 v)); [wp_step; done|]. unfold RTE_MAX_LCORE in *.
  pose proof (u32_range v). wp_step. set (c1 := set_master_parsed _). assert (lcore_configs c1 = lcore_configs c) as E by done.
  destruct (lookup_lt_is_Some_2 (lcore_configs c) (Z.to_nat (u32 v))) as [x Hx]; [rewrite (proj2 Hsz); unfold RTE_MAX_LCORE; lia|].
  rewrite <- (Z2Nat.id (u32 v)) at 1 by lia. apply (wp_get_lcore c1 _ x); [by rewrite E|lia|]. wp_step. case_bool_decide; [done|]. apply HY.
  split; [done|done|by unfold counted; rewrite (enabled_roles c c1)|intros _; cbn; lia|done].
Qed.

Lemma inv_auto_detect A c (Q : unit -> eal -> Prop) :
  cores_inv false c -> D ∩ A <> ∅ -> (forall c', cores_inv true c' -> master_lcore_parsed c' = master_lcore_parsed c -> Q tt c') ->
  wp (eal_auto_detect_cores A) Q c.
Proof.
  intros [Hsz HD Hc Hm He] HA HQ. unfold eal_auto_detect_cores. wp_step. change (from 0) with (from (Z.of_nat 0)).
  apply wp_auto_detect_loop; [done|lia|lia|]. cbv zeta. intros roles Hl Hroles. wp_step. set (c' := set_count _ _).
  assert (forall i, (i < 128)%nat -> lcore_role c' !! i = Some ROLE_RTE <-> lcore_role c !! i = Some ROLE_RTE /\ i ∈ A) as Hrole.
  { intros i Hi. cbn. rewrite Hroles, decide_True by lia. destruct (lcore_role c !! i) as [r|]; cbn; [|naive_solver]. unfold kept_role.
    case_decide; [naive_solver|]. destruct (decide (i ∈ A)); naive_solver. }
  apply HQ; [|done]. split.
  - split; [done|apply Hsz].
  - exact HD.
  - unfold counted. rewrite (enabled_ext c' _ Hrole). cbn [lcore_count set_count c' set_roles]. rewrite Hc, (enabled_ext c (fun i => lcore_role c !! i = Some ROLE_RTE)) by done.
    rewrite <- (length_filter_split (fun i => lcore_role c !! i = Some ROLE_RTE) (fun i => i ∈ A) (seq 0 128)). change (128 - 0)%nat with 128%nat.
    set (x := filter _ _). set (y := filter _ _). assert (length x <= 128)%nat by (unfold x; etransitivity; [apply length_filter|by rewrite length_seq]).
    rewrite wrapu_small; lia.
  - exact Hm.
  - destruct (set_choose_L _ HA) as (i & [Hi HiA]%elem_of_intersection). exists i. pose proof Hi as [Hi1 _]%HD. apply Hrole; [done|]. split; [|done].
    by apply He.
Qed.

Lemma inv_default_master c (Q : unit -> eal -> Prop) :
  cores_inv true c -> (forall c', cores_inv true c' -> 0 <= master_lcore c' < 128 -> Q tt c') -> wp default_master Q c.
Proof.
  intros HI HQ. destruct (master_lcore_parsed c) eqn:Em.
  { unfold default_master, id. wp_step. rewrite Em. wp_step. apply HQ; [done|]. by apply HI. }
  pose proof HI as [Hsz HD Hc Hm He]. apply wp_default_master; [done|done| |done]. intros i Hi _.
  set (c' := set_lcores _ _). assert (i < 128)%nat as Hlt.
  { apply lookup_lt_Some in Hi. rewrite (proj1 Hsz) in Hi. exact Hi. }
  apply HQ; [|cbn; lia]. split.
  - split; [apply Hsz|]. cbn. rewrite length_alter. apply Hsz.
  - intros j. rewrite (HD j). pose proof (kept_available (set_master (Z.of_nat i) c) c' j (kept_alter _ i (with_role ROLE_RTE) ltac:(done))) as Hk.
    by rewrite <- Hk.
  - unfold counted. by rewrite (enabled_roles c c').
  - intros _. cbn. lia.
  - done.
Qed.
End Inv.
