(* ===== verification/EalCorelist.v ===== *)
(** Core lists: what -l and -S do with lists of numbers and ranges that are in the arrays,
    and that other numbers lead outside of them. *)
From Stdlib Require Import ZArith Lia Ascii String.
From stdpp Require Import base numbers list gmap strings.
From S2P Require Import Prelude CStdio EalCores EalCoresSpec EalLcores EalLcoresPrint EalStartup EalOptions EalOptionsSpec.

#[local] Open Scope Z_scope.

(** ** The list a text stands for *)

(** The numbers of an item; none for a range from a larger to a smaller number. *)
Definition item_list (it : item) : list nat :=
  match it with One a => [a] | Range a b => seq a (S b - a) end.

(** New numbers are added at the end. *)
Definition add_item (l : list nat) (it : item) : list nat := l ++ filter (fun i => i ∉ l) (item_list it).

Definition core_list (its : list item) : list nat := foldl add_item [] its.

(** ** States *)

(** What -l leaves alone of an lcore. *)
Definition spot (c : lcore_config) : bool * Z * Z * cset * rte_lcore_role_t :=
  (detected c, lc_socket_id c, lc_core_id c, lc_cpuset c, core_role c).

Fixpoint number_from (k : Z) (l : list nat) (i : nat) : Z :=
  match l with
  | [] => -1
  | j :: l => if decide (j = i) then k else number_from (k + 1) l i
  end.

(** The place of a number in a list. *)
Definition number_of (l : list nat) (i : nat) : Z := number_from 0 l i.

(** The lcores of [l] are enabled, and numbered by their place in it. *)
Record listing (c0 c : eal) (l : list nat) : Prop := Listing {
  ls_sized : sized c;
  ls_below : Forall (fun i => i < 128)%nat l;
  ls_nodup : NoDup l;
  ls_role : forall i, (i < 128)%nat -> lcore_role c !! i = Some (if decide (i ∈ l) then ROLE_RTE else ROLE_OFF);
  ls_index : forall i x, lcore_configs c !! i = Some x -> core_index x = number_of l i;
  ls_spot : spot <$> lcore_configs c = spot <$> lcore_configs c0;
  ls_rest : master_lcore c = master_lcore c0 /\ lcore_count c = lcore_count c0 /\ service_lcore_count c = service_lcore_count c0
    /\ master_lcore_parsed c = master_lcore_parsed c0 /\ lset c = lset c0
}.

Lemma number_from_snoc k l i j :
  number_from k (l ++ [i]) j = if decide (j ∈ l) then number_from k l j else if decide (j = i) then k + Z.of_nat (length l) else -1.
Proof.
  revert k. induction l as [|x l IH]; intros k; cbn [app number_from length].
  - rewrite (decide_False (P := j ∈ [])) by set_solver. repeat case_decide; congruence || lia.
  - rewrite IH. destruct (decide (x = j)) as [->|]; [by rewrite (decide_True (P := j ∈ j :: l)) by set_solver|].
    destruct (decide (j ∈ l)); [by rewrite (decide_True (P := j ∈ x :: l)) by set_solver|rewrite (decide_False (P := j ∈ x :: l)) by set_solver].
    case_decide; lia.
Qed.

Lemma number_of_snoc l i j : number_of (l ++ [i]) j = if decide (j ∈ l) then number_of l j else if decide (j = i) then Z.of_nat (length l) else -1.
Proof. unfold number_of. by rewrite number_from_snoc. Qed.

Lemma number_of_None l i : i ∉ l -> number_of l i = -1.
Proof.
  unfold number_of. generalize 0. induction l as [|x l IH]; intros k Hi; cbn; [done|]. rewrite decide_False by set_solver. apply IH. set_solver.
Qed.

(** The lists are short. *)
Lemma listing_length c0 c l : listing c0 c l -> (length l <= 128)%nat.
Proof.
  intros HL. assert (length l <= length (seq 0 128))%nat as H; [|by rewrite length_seq in H]. apply submseteq_length, NoDup_submseteq; [apply HL|].
  intros i Hi. pose proof (ls_below _ _ _ HL) as Hb. rewrite Forall_forall in Hb. apply elem_of_seq. specialize (Hb i Hi). lia.
Qed.

(** One more lcore. *)
Lemma listing_add c0 c l i :
  listing c0 c l -> (i < 128)%nat -> i ∉ l ->
  listing c0 (set_lcores (alter (with_index (Z.of_nat (length l))) i) (set_roles <[i := ROLE_RTE]> c)) (l ++ [i]).
Proof.
  intros [[H1 H2] Hb Hn Hr Hx Hs Hrest] Hi Hnew. change (Z.to_nat RTE_MAX_LCORE) with 128%nat in *. split; cbn; auto.
  - split; cbn; [by rewrite length_insert|by rewrite length_alter].
  - apply Forall_app. auto.
  - apply NoDup_app. split_and!; [done|set_solver|apply NoDup_singleton].
  - intros j Hj. destruct (decide (j = i)) as [->|Hne].
    + rewrite list_lookup_insert_eq by lia. by rewrite decide_True by set_solver.
    + rewrite list_lookup_insert_ne, Hr by done. repeat case_decide; set_solver.
  - intros j x. rewrite number_of_snoc. destruct (decide (j = i)) as [->|Hne].
    + rewrite list_lookup_alter_eq. destruct (lcore_configs c !! i); [|done]. cbn. intros [= <-]. by rewrite decide_False.
    + rewrite list_lookup_alter_ne by done. intros Hj%Hx. rewrite Hj. case_decide; [done|]. by apply number_of_None.
  - rewrite <- Hs. apply list_eq. intros j. rewrite !list_lookup_fmap.
    destruct (decide (j = i)) as [->|Hne]; [rewrite list_lookup_alter_eq|by rewrite list_lookup_alter_ne]. by destruct (lcore_configs c !! i).
Qed.

(** ** Ranges *)

Lemma wp_list_range fuel c0 c l i b (Q : Z -> eal -> Prop) :
  listing c0 c l -> (b < 128)%nat -> (S b - i < fuel)%nat ->
  (let l' := l ++ filter (fun j => j ∉ l) (seq i (S b - i)) in forall c', listing c0 c' l' -> Q (Z.of_nat (length l')) c') ->
  wp (list_range fuel (Z.of_nat i) (Z.of_nat b) (Z.of_nat (length l))) Q c.
Proof.
  revert c l i. induction fuel as [|fuel IH]; intros c l i HL Hb Hf HQ; [lia|]. cbn [list_range]. cbv zeta in HQ.
  destruct (Z.leb_spec (Z.of_nat i) (Z.of_nat b)) as [Hle|Hgt].
  2: { replace (S b - i)%nat with 0%nat in HQ by lia. cbn in HQ. rewrite app_nil_r in HQ. wp_step. by apply HQ. }
  replace (S b - i)%nat with (S (S b - S i)) in HQ by lia. cbn [seq] in HQ. rewrite filter_cons in HQ.
  pose proof (listing_length _ _ _ HL). wp_step. eapply (wp_get_role c i); [apply (ls_role _ _ _ HL); lia|lia|].
  replace (Z.of_nat i + 1) with (Z.of_nat (S i)) by lia. destruct (decide (i ∈ l)) as [Hin|Hin].
  - cbn [bool_decide negb]. rewrite bool_decide_eq_true_2 by done. cbn [negb]. apply IH; [done|done|lia|]. rewrite decide_False in HQ by tauto. exact HQ.
  - rewrite bool_decide_eq_false_2 by done. cbn [negb]. unfold enable. wp_step. rewrite (wraps_small 32) by lia.
    apply wp_put_role; [lia|]. wp_step. apply wp_upd_lcore; [lia|]. rewrite wrapu_small by lia.
    pose proof (listing_add c0 c l i HL ltac:(lia) Hin) as HL'. rewrite decide_True in HQ by done.
    replace (Z.of_nat (length l) + 1) with (Z.of_nat (length (l ++ [i]))) by (rewrite length_app; cbn; lia).
    apply (IH _ (l ++ [i])); [exact HL'|done|lia|]. cbv zeta.
    replace ((l ++ [i]) ++ filter (fun j => j ∉ l ++ [i]) (seq (S i) (S b - S i))) with (l ++ i :: filter (fun j => j ∉ l) (seq (S i) (S b - S i))); [exact HQ|].
    rewrite <- (assoc_L (++)). cbn [app]. do 2 f_equal. apply filter_ext. intros j Hj%elem_of_seq. rewrite elem_of_app, list_elem_of_singleton. split; [|tauto]. intros ? [?|?]; [done|lia].
Qed.

(** ** The text *)

Lemma i32_small n : (n < 128)%nat -> i32 (Z.of_nat n) = Z.of_nat n.
Proof. intros. apply wraps_small; lia. Qed.

Lemma num_not_nul n k : is_nul (num n k) = false.
Proof. unfold is_nul. apply ceq_digit; [apply num_is_digit|done]. Qed.

(** A number of the list, read. *)
Lemma corelist_num a k fuel min count :
  (a < 128)%nat -> stops k -> isblank (head k) = false ->
  corelist_loop (S fuel) (num a k) min count =
    if ceq (head k) "-"%char then corelist_loop fuel (tail k) (Z.of_nat a) count
    else if ceq (head k) ","%char || is_nul k then
      count ← list_range range_fuel (if min =? RTE_MAX_LCORE then Z.of_nat a else min) (Z.of_nat a) count;
      if is_nul k then mret (Some count) else corelist_loop fuel (tail k) RTE_MAX_LCORE count
    else mret None.
Proof.
  intros Ha Hk Hb. cbn [corelist_loop]. rewrite num_blank, num_not_nul, num_strtoul by done. rewrite skip_blank_id, i32_small by done. done.
Qed.

Lemma length_below a b : (a < 128)%nat -> (b < 128)%nat -> (S b - a < range_fuel)%nat.
Proof. unfold range_fuel, RTE_MAX_LCORE. lia. Qed.

(** An item, and what follows. *)
Lemma wp_corelist_item it k fuel c0 c l (Q : option Z -> eal -> Prop) :
  item_ok it -> ends k -> (String.length (item_str it k) < fuel)%nat -> listing c0 c l ->
  (forall fuel' c', (String.length k < fuel')%nat -> listing c0 c' (add_item l it) ->
     wp (if is_nul k then mret (Some (Z.of_nat (length (add_item l it))))
         else corelist_loop fuel' (tail k) RTE_MAX_LCORE (Z.of_nat (length (add_item l it)))) Q c') ->
  wp (corelist_loop fuel (item_str it k) RTE_MAX_LCORE (Z.of_nat (length l))) Q c.
Proof.
  intros Hit Hk Hf HL HQ.
  assert (stops k /\ isblank (head k) = false /\ ceq (head k) "-"%char = false /\ ceq (head k) ","%char || is_nul k = true) as (Hst & Hbl & Hd & Hc)
    by (by destruct Hk as [->|[k' ->]]).
  destruct fuel as [|fuel]; [lia|]. destruct it as [a|a b]; cbn [item_str item_ok] in *.
  - pose proof (num_length a k). rewrite corelist_num by done. rewrite Hd, Hc, Z.eqb_refl, wp_bind.
    apply (wp_list_range _ c0 _ l); [done|done|by apply length_below|]. cbv zeta. replace (S a - a)%nat with 1%nat by lia.
    intros c' HL'. apply HQ; [lia|exact HL'].
  - destruct Hit as [Ha Hb]. pose proof (num_length a (String "-" (num b k))). pose proof (num_length b k). cbn [String.length] in *.
    destruct fuel as [|fuel]; [lia|]. rewrite corelist_num by done. cbn [head tail]. change (ceq "-" "-") with true. cbv iota.
    rewrite corelist_num by done. rewrite Hd, Hc. destruct (Z.eqb_spec (Z.of_nat a) RTE_MAX_LCORE); [unfold RTE_MAX_LCORE in *; lia|].
    rewrite wp_bind. apply (wp_list_range _ c0 _ l); [done|done|by apply length_below|]. cbv zeta. intros c' HL'. apply HQ; [lia|exact HL'].
Qed.

Lemma wp_corelist_items it its fuel c0 c l (Q : option Z -> eal -> Prop) :
  item_ok it -> Forall item_ok its -> (String.length (items_str it its EmptyString) < fuel)%nat -> listing c0 c l ->
  (forall c', let l' := foldl add_item l (it :: its) in listing c0 c' l' -> Q (Some (Z.of_nat (length l'))) c') ->
  wp (corelist_loop fuel (items_str it its EmptyString) RTE_MAX_LCORE (Z.of_nat (length l))) Q c.
Proof.
  intros Hit Hits. revert it fuel c l Hit. induction Hits as [|it' its Hit' Hits IH]; intros it fuel c l Hit Hf HL HQ; cbn [items_str] in *.
  - apply (wp_corelist_item _ _ _ c0); [done|by left|done|done|]. intros fuel' c' _ HL'. cbn [is_nul head]. change (ceq nul nul) with true. wp_step. by apply HQ.
  - apply (wp_corelist_item _ _ _ c0); [done|right; eauto|done|done|]. intros fuel' c' Hf' HL'. change (is_nul (String "," _)) with false. cbn [tail]. cbv iota.
    cbn [String.length] in Hf'. apply IH; [done|lia|done|]. exact HQ.
Qed.

Lemma wp_reset_list c (Q : unit -> eal -> Prop) :
  sized c -> (forall c', listing c c' [] -> Q tt c') -> wp (for_each (from 0) disable) Q c.
Proof.
  intros Hsz HQ. change 0 with (Z.of_nat 0).
  apply (wp_for_from _ (fun k s' => sized s' /\ spot <$> lcore_configs s' = spot <$> lcore_configs c
    /\ (master_lcore s' = master_lcore c /\ lcore_count s' = lcore_count c /\ service_lcore_count s' = service_lcore_count c
        /\ master_lcore_parsed s' = master_lcore_parsed c /\ lset s' = lset c)
    /\ (forall i, (i < k)%nat -> lcore_role s' !! i = Some ROLE_OFF)
    /\ forall i x, (i < k)%nat -> lcore_configs s' !! i = Some x -> core_index x = -1)); [lia|split_and!; auto; lia| |].
  - intros i s' Hi ([H1 H2] & Hs & Hr & Ho & Hx). unfold disable. wp_step. apply wp_put_role; [lia|]. apply wp_upd_lcore; [lia|].
    change (Z.to_nat RTE_MAX_LCORE) with 128%nat in *. split_and!; cbn; try apply Hr.
    + split; cbn; [by rewrite length_insert|by rewrite length_alter].
    + rewrite <- Hs. apply list_eq. intros j. rewrite !list_lookup_fmap.
      destruct (decide (j = i)) as [->|Hne]; [rewrite list_lookup_alter_eq|by rewrite list_lookup_alter_ne]. by destruct (lcore_configs s' !! i).
    + intros j Hj. destruct (decide (j = i)) as [->|Hne]; [by rewrite list_lookup_insert_eq by lia|]. rewrite list_lookup_insert_ne by done. apply Ho. lia.
    + intros j x Hj. destruct (decide (j = i)) as [->|Hne].
      * rewrite list_lookup_alter_eq. destruct (lcore_configs s' !! i); [|done]. cbn. by intros [= <-].
      * rewrite list_lookup_alter_ne by done. apply Hx. lia.
  - intros s' (Hs' & Hs & Hr & Ho & Hx). apply HQ. split; auto; [constructor|].
    intros i x Hi. apply (Hx i x); [|done]. apply lookup_lt_Some in Hi. rewrite (proj2 Hs') in Hi. exact Hi.
Qed.

Lemma items_blank it its : skip_blank (items_str it its EmptyString) = items_str it its EmptyString.
Proof. apply items_start. Qed.

Lemma wp_parse_corelist c it its (Q : Z -> eal -> Prop) :
  sized c -> Forall item_ok (it :: its) ->
  (forall c', core_list (it :: its) <> [] -> listing (set_count (Z.of_nat (length (core_list (it :: its)))) c) c' (core_list (it :: its)) -> Q 0 c') ->
  (forall c', core_list (it :: its) = [] -> listing c c' [] -> Q (-1) c') ->
  wp (eal_parse_corelist (Some (items_str it its EmptyString))) Q c.
Proof.
  intros Hsz [Hit Hits]%Forall_cons HY HN. unfold eal_parse_corelist. rewrite items_blank, wp_bind. apply wp_reset_list; [done|]. intros c1 HL1.
  rewrite wp_bind. change 0 with (Z.of_nat (length (@nil nat))) at 1. apply (wp_corelist_items _ _ _ c); [done|done|lia|done|].
  cbv zeta. fold (core_list (it :: its)). intros c2 HL2. destruct (Z.eqb_spec (Z.of_nat (length (core_list (it :: its)))) 0) as [E|E]; wp_step.
  - assert (core_list (it :: its) = []) as E0 by (destruct (core_list (it :: its)); [done|cbn in E; lia]). apply HN; [done|]. by rewrite <- E0.
  - apply HY; [intros E0; by rewrite E0 in E|]. destruct HL2 as [? ? ? ? ? ? (? & ? & ? & ? & ?)]. split; auto.
Qed.

(** C22: core lists. [eal_parse_corelist] reads back every list of numbers and ranges below
    128: the numbers in it become the enabled lcores, numbered in the order in which they
    first appear, and no others; their number is stored. It fails for a list in which
    nothing is left, all ranges being empty. Whether the lcores are there is not looked
    at. *)
Theorem corelist_roundtrip c it its :
  sized c -> Forall item_ok (it :: its) ->
  wp (eal_parse_corelist (Some (items_str it its EmptyString))) (fun r c' =>
    if decide (core_list (it :: its) = []) then r = -1
    else r = 0 /\ listing (set_count (Z.of_nat (length (core_list (it :: its)))) c) c' (core_list (it :: its))) c.
Proof.
  intros Hsz Hits. apply wp_parse_corelist; [done|done|..].
  - intros c' Hne HL. by rewrite decide_False.
  - intros c' E _. by rewrite decide_True.
Qed.

(** ** The invariant of the cores *)

Lemma listing_enabled c0 c l : listing c0 c l -> length (enabled c) = length l.
Proof.
  intros HL. rewrite (enabled_ext c (fun i => i ∈ l)).
  - apply Permutation_length, NoDup_Permutation; [apply NoDup_filter, NoDup_seq|apply HL|]. intros i.
    rewrite list_elem_of_filter, elem_of_seq. pose proof (ls_below _ _ _ HL) as Hb. rewrite Forall_forall in Hb. specialize (Hb i). intuition lia.
  - intros i Hi. rewrite (ls_role _ _ _ HL i Hi). case_decide; naive_solver.
Qed.

Lemma listing_available c0 c l i : listing c0 c l -> available c0 i <-> available c i.
Proof.
  intros HL. pose proof (ls_spot _ _ _ HL) as Hs. unfold available.
  assert (spot <$> (lcore_configs c !! i) = spot <$> (lcore_configs c0 !! i)) as Hi by (by rewrite <- !list_lookup_fmap, Hs).
  destruct (lcore_configs c !! i), (lcore_configs c0 !! i); cbn in Hi; try done. injection Hi as E _ _ _ _. naive_solver congruence.
Qed.

Lemma inv_corelist e b c it its (Q : Z -> eal -> Prop) :
  Forall item_ok (it :: its) -> cores_inv e b c -> (forall c', Q (-1) c') -> (forall c', cores_inv e true c' -> Q 0 c') ->
  wp (eal_parse_corelist (Some (items_str it its EmptyString))) Q c.
Proof.
  intros Hits [Hsz HD Hc Hm He] HN HY. apply wp_parse_corelist; [done|done| |auto]. intros c' Hne HL. apply HY.
  pose proof (ls_rest _ _ _ HL) as (E1 & E2 & _ & E3 & _). split.
  - apply HL.
  - intros i. rewrite (HD i). by rewrite <- (listing_available _ _ _ i HL).
  - unfold counted. by rewrite E2, (listing_enabled _ _ _ HL).
  - by rewrite E1, E3.
  - destruct (core_list (it :: its)) as [|i l] eqn:El; [done|]. exists i. pose proof (ls_below _ _ _ HL) as [Hi _]%Forall_cons.
    rewrite (ls_role _ _ _ HL i Hi). by rewrite decide_True by set_solver.
Qed.

(** ** Lists of service cores *)

Lemma wp_service_range fuel c i b count (Q : option Z -> eal -> Prop) :
  sized c -> (b < 128)%nat -> (S b - i < fuel)%nat -> (forall r c', kept c c' -> Q r c') ->
  wp (service_range fuel (Z.of_nat i) (Z.of_nat b) count) Q c.
Proof.
  revert c i count. induction fuel as [|fuel IH]; intros c i count Hsz Hb Hf HQ; [lia|]. cbn [service_range].
  destruct (Z.leb_spec (Z.of_nat i) (Z.of_nat b)); [|wp_step; by apply HQ]. wp_step.
  destruct (lookup_lt_is_Some_2 (lcore_role c) i) as [r Hr]; [rewrite (proj1 Hsz); unfold RTE_MAX_LCORE; lia|]. apply (wp_get_role c i r); [done|lia|].
  replace (Z.of_nat i + 1) with (Z.of_nat (S i)) by lia. destruct (negb _); [|by apply IH; [|done|lia|]]. unfold id. wp_step.
  destruct (_ && _); [wp_step; by apply HQ|]. wp_step. apply wp_upd_lcore; [lia|].
  pose proof (kept_alter c i (with_role ROLE_SERVICE) ltac:(done)) as Hk. apply IH; [by eapply kept_sized|done|lia|].
  intros r' c' Hk'. apply HQ. by etransitivity.
Qed.

Lemma service_num a k fuel min count :
  (a < 128)%nat -> stops k -> isblank (head k) = false ->
  service_list_loop (S fuel) (num a k) min count =
    if ceq (head k) "-"%char then service_list_loop fuel (tail k) (Z.of_nat a) count
    else if ceq (head k) ","%char || is_nul k then
      r ← service_range range_fuel (if min =? RTE_MAX_LCORE then Z.of_nat a else min) (Z.of_nat a) count;
      match r with
      | None => mret None
      | Some count => if is_nul k then mret (Some count) else service_list_loop fuel (tail k) RTE_MAX_LCORE count
      end
    else mret None.
Proof.
  intros Ha Hk Hb. cbn [service_list_loop]. rewrite num_blank, num_not_nul, num_strtoul by done. rewrite skip_blank_id, i32_small by done. done.
Qed.

Lemma wp_service_item it k fuel c count (Q : option Z -> eal -> Prop) :
  item_ok it -> ends k -> (String.length (item_str it k) < fuel)%nat -> sized c ->
  (forall c', kept c c' -> Q None c') ->
  (forall fuel' c' count', (String.length k < fuel')%nat -> kept c c' ->
     wp (if is_nul k then mret (Some count') else service_list_loop fuel' (tail k) RTE_MAX_LCORE count') Q c') ->
  wp (service_list_loop fuel (item_str it k) RTE_MAX_LCORE count) Q c.
Proof.
  intros Hit Hk Hf Hsz HN HQ.
  assert (stops k /\ isblank (head k) = false /\ ceq (head k) "-"%char = false /\ ceq (head k) ","%char || is_nul k = true) as (Hst & Hbl & Hd & Hc)
    by (by destruct Hk as [->|[k' ->]]).
  destruct fuel as [|fuel]; [lia|]. destruct it as [a|a b]; cbn [item_str item_ok] in *.
  - pose proof (num_length a k). rewrite service_num by done. rewrite Hd, Hc, Z.eqb_refl, wp_bind.
    apply wp_service_range; [done|done|by apply length_below|]. intros [count'|] c' Hk'; [apply HQ; [lia|done]|wp_step; auto].
  - destruct Hit as [Ha Hb]. pose proof (num_length a (String "-" (num b k))). pose proof (num_length b k). cbn [String.length] in *.
    destruct fuel as [|fuel]; [lia|]. rewrite service_num by done. cbn [head tail]. change (ceq "-" "-") with true. cbv iota.
    rewrite service_num by done. rewrite Hd, Hc. destruct (Z.eqb_spec (Z.of_nat a) RTE_MAX_LCORE); [unfold RTE_MAX_LCORE in *; lia|].
    rewrite wp_bind. apply wp_service_range; [done|done|by apply length_below|]. intros [count'|] c' Hk'; [apply HQ; [lia|done]|wp_step; auto].
Qed.

Lemma wp_service_items it its fuel c count (Q : option Z -> eal -> Prop) :
  item_ok it -> Forall item_ok its -> (String.length (items_str it its EmptyString) < fuel)%nat -> sized c ->
  (forall r c', kept c c' -> Q r c') -> wp (service_list_loop fuel (items_str it its EmptyString) RTE_MAX_LCORE count) Q c.
Proof.
  intros Hit Hits. revert it fuel c count Hit. induction Hits as [|it' its Hit' Hits IH]; intros it fuel c count Hit Hf Hsz HQ; cbn [items_str] in *.
  - apply wp_service_item; [done|by left|done|done|auto|]. intros fuel' c' count' _ Hk'. cbn [is_nul head]. change (ceq nul nul) with true. wp_step. by apply HQ.
  - apply wp_service_item; [done|right; eauto|done|done|auto|]. intros fuel' c' count' Hf' Hk'. change (is_nul (String "," _)) with false. cbn [tail]. cbv iota.
    cbn [String.length] in Hf'. apply IH; [done|lia|by eapply kept_sized|]. intros r c2 Hk2. apply HQ. by etransitivity.
Qed.

Lemma inv_service_corelist e b c it its (Q : Z -> eal -> Prop) :
  Forall item_ok (it :: its) -> cores_inv e b c -> (forall r c', cores_inv e b c' -> Q r c') ->
  wp (eal_parse_service_corelist (Some (items_str it its EmptyString))) Q c.
Proof.
  intros [Hit Hits]%Forall_cons HI HQ. unfold eal_parse_service_corelist. rewrite items_blank, wp_bind.
  apply wp_service_items; [done|done|lia|by apply (ci_sized _ _ _ HI)|]. intros [count|] c' Hk; wp_step; by apply HQ, (inv_kept e b c).
Qed.
