(* ===== verification/EalCommand.v ===== *)
(** The command line of the EAL: every sequence of options, and the one of libmoon. *)
From Stdlib Require Import ZArith Lia Ascii String.
From stdpp Require Import base numbers list gmap strings.
From S2P Require Import Prelude CStdio EalCores EalCoresSpec EalLcores EalLcoresPrint EalStartup EalOptions EalOptionsSpec EalCorelist.

#[local] Open Scope Z_scope.

(** ** Running on the cores *)

Lemma wp_on_cores {A} (m : M eal A) (Q : A -> eal_options -> Prop) s :
  wp (on_cores m) Q s <-> wp m (fun a c => Q a (set_cores c s)) (cores s).
Proof. unfold wp, on_cores. by destruct (m (cores s)) as [[a c]| |]. Qed.

Lemma wp_update f (Q : unit -> eal_options -> Prop) s : wp (update f) Q s <-> Q tt (set_conf_of (f (conf_of s)) s).
Proof. done. Qed.

#[export] Hint Rewrite @wp_on_cores wp_update : wp.

(** ** Arguments *)

(** The options getopt_long takes an argument for. *)
Definition has_arg (o : eal_opt) : bool :=
  match o with
  | OPT_h | OPT_v | OPT_CREATE_UIO_DEV_NUM | OPT_HUGE_UNLINK_NUM | OPT_NO_HPET_NUM | OPT_NO_HUGE_NUM | OPT_NO_PCI_NUM
  | OPT_NO_SHCONF_NUM | OPT_VMWARE_TSC_MAP_NUM | OPT_XEN_DOM0_NUM | OPT_BAD => false
  | _ => true
  end.

(** A log level with at most one comma. *)
Definition one_comma (arg : string) : bool :=
  match strsep arg with
  | (_, None) => true
  | (_, Some r) => match strsep r with (_, None) => true | _ => false end
  end.

(** A list of numbers and ranges below 128. *)
Definition core_list_text (a : string) : Prop := exists it its, Forall item_ok (it :: its) /\ a = items_str it its EmptyString.

(** Options the parsers take without undefined behaviour: lists of cores with numbers the
    arrays have, which is not checked; an amount of memory per socket; one comma at most
    in a log level. *)
Definition safe_opt (p : eal_opt * option string) : Prop :=
  (has_arg (fst p) = true -> is_Some (snd p)) /\
  match p with
  | (OPT_l, Some a) | (OPT_S, Some a) => core_list_text a
  | (OPT_SOCKET_MEM_NUM, Some a) => a <> EmptyString
  | (OPT_LOG_LEVEL_NUM, Some a) => one_comma a = true
  | _ => True
  end.

(** ** The invariant *)

Section Command.
Context (sys : system) (e : cpu_env).

Definition listed (t : rte_devtype) (s : eal_options) : Prop := t ∈ fst <$> devopt_list s.

Record opts_inv (s : eal_options) : Prop := OptsInv {
  oi_cores : cores_inv e (core_parsed s) (cores s);
  oi_black : listed RTE_DEVTYPE_BLACKLISTED_PCI s -> b_used s = true;
  oi_white : listed RTE_DEVTYPE_WHITELISTED_PCI s -> w_used s = true;
  oi_one : ~ (b_used s = true /\ w_used s = true)
}.

(** What the parsers of the other options leave alone. *)
Definition framed (s s' : eal_options) : Prop :=
  cores s' = cores s /\ core_parsed s' = core_parsed s /\ b_used s' = b_used s /\ w_used s' = w_used s /\ devopt_list s' = devopt_list s
  /\ mem_parsed s' = mem_parsed s.

Lemma framed_refl s : framed s s.
Proof. done. Qed.

Lemma framed_trans a b c : framed a b -> framed b c -> framed a c.
Proof. intros (? & ? & ? & ? & ? & ?) (? & ? & ? & ? & ? & ?). split_and!; congruence. Qed.

Lemma inv_same s s' :
  opts_inv s -> cores s' = cores s -> core_parsed s' = core_parsed s -> b_used s' = b_used s -> w_used s' = w_used s ->
  devopt_list s' = devopt_list s -> opts_inv s'.
Proof. intros [H1 H2 H3 H4] E1 E2 E3 E4 E5. unfold listed in *. split; unfold listed; rewrite ?E1, ?E2, ?E3, ?E4, ?E5; auto. Qed.

Lemma inv_framed s s' : opts_inv s -> framed s s' -> opts_inv s'.
Proof. intros HI (? & ? & ? & ? & ? & ?). by apply (inv_same s). Qed.

Lemma wp_allocate s (Q : bool -> eal_options -> Prop) : (forall b l, Q b (set_allocs l s)) -> wp allocate Q s.
Proof.
  intros HQ. unfold allocate, id. wp_step. destruct (allocs s) as [|b l] eqn:E; wp_step; [|done].
  replace s with (set_allocs (allocs s) s) by (by destruct s). apply HQ.
Qed.

(** Log levels change the log levels only. *)
Lemma wp_log_level s a (Q : Z -> eal_options -> Prop) :
  one_comma a = true -> (forall r s', framed s s' -> Q r s') -> wp (eal_parse_log_level sys a) Q s.
Proof.
  intros Ha HQ. unfold eal_parse_log_level. wp_step. apply wp_allocate. intros b l. destruct b; cbn [negb]; [|wp_step; by apply HQ].
  assert (snd (split_level a) <> STR_INSIDE) as Ht.
  { unfold split_level, one_comma in *. destruct (strsep a) as [ty [r|]]; [|done]. by destruct (strsep r) as [lv [?|]]. }
  destruct (split_level a) as [[type level] p]. cbn in Ht. destruct (strtoul_auto level) as [[tmp rest] err].
  assert (forall s' r (Q' : Z -> eal_options -> Prop), Q' r s' -> wp (free_str p ;; mret r) Q' s') as Hfree by (intros; destruct p; [wp_step; done..|done]).
  destruct (_ || _); [apply Hfree; by apply HQ|]. destruct (_ <=? tmp); [apply Hfree; by apply HQ|].
  wp_step. destruct type as [type|].
  - unfold rte_log_set_level_regexp. destruct (_ <? _); [rewrite wp_ret; apply Hfree; by apply HQ|].
    destruct (negb _); [rewrite wp_ret; apply Hfree; by apply HQ|]. rewrite wp_bind, wp_modify, wp_ret. apply Hfree. by apply HQ.
  - unfold rte_log_set_global_level. rewrite wp_bind, wp_modify, wp_ret. apply Hfree. by apply HQ.
Qed.

(** A device is added; [black] and [white] say which of the two kinds it is. *)
Lemma wp_device_add s t a (Q : Z -> eal_options -> Prop) :
  (forall r s', r < 0 -> framed s s' -> Q r s') ->
  (forall l, Q 0 (set_devopt_list (devopt_list s ++ [(t, a)]) (set_allocs l s))) -> wp (eal_option_device_add t a) Q s.
Proof.
  intros HN HY. unfold eal_option_device_add. wp_step. apply wp_allocate. intros b l. destruct b; cbn [negb]; wp_step; [apply HY|].
  by apply HN.
Qed.

Lemma listed_add t t' a s s' : devopt_list s' = devopt_list s ++ [(t', a)] -> listed t s' -> t = t' \/ listed t s.
Proof. intros E. unfold listed. rewrite E, fmap_app, elem_of_app. cbn. rewrite list_elem_of_singleton. tauto. Qed.

(** A core option keeps the invariant of the cores, and marks the cores as chosen. *)
Lemma wp_core_option p s a (Q : Z -> eal_options -> Prop) :
  (forall b c (R : Z -> eal -> Prop), cores_inv e b c -> (forall c', R (-1) c') -> (forall c', cores_inv e true c' -> R 0 c') -> wp (p a) R c) ->
  opts_inv s -> (forall s', Q (-1) s') -> (forall s', opts_inv s' -> Q 0 s') -> wp (core_option p a) Q s.
Proof.
  intros Hp HI HN HY. unfold core_option. wp_step. apply (Hp (core_parsed s)); [apply HI|intros c'; wp_step; apply HN|].
  intros c' HI'. change (0 <? 0) with false. wp_step. apply HY. destruct HI as [H1 H2 H3 H4]. by split.
Qed.

Lemma inv_common_option opt optarg s (Q : Z -> eal_options -> Prop) :
  opts_inv s -> safe_opt (opt, optarg) -> (forall s', Q (-1) s') -> (forall r s', (r = 0 \/ r = 1) -> opts_inv s' -> Q r s') ->
  wp (eal_parse_common_option sys opt optarg) Q s.
Proof.
  intros HI [Harg Hsafe] HN HY. pose proof HI as [HIc HIb HIw HI1]. cbn [fst snd] in *.
  assert (forall r s', framed s s' -> Q (if r <? 0 then -1 else 0) s') as Hfr.
  { intros r s' Hs'. destruct (r <? 0); [done|]. apply HY; [by left|by apply (inv_framed s)]. }
  assert (forall f, Q 0 (set_conf_of f s)) as Hconf by (intros f; apply HY; [by left|by apply (inv_framed s)]).
  destruct opt; cbn [eal_parse_common_option]; try (destruct (Harg eq_refl) as [a ->]); unfold need, handled, id; wp_step; try done;
    try (apply HY; [by right|done]); try (apply HY; [by left|done]).
  - destruct (w_used s) eqn:Ew; wp_step; [done|]. apply wp_device_add.
    + intros r s' Hr _. destruct (Z.ltb_spec r 0); [wp_step; done|lia].
    + intros l. change (0 <? 0) with false. wp_step. apply HY; [by left|]. split; cbn; [done|done| |intros [_ ?]; congruence].
      intros [?|?]%(listed_add _ RTE_DEVTYPE_BLACKLISTED_PCI a s); [done|rewrite Ew; auto|done].
  - by apply wp_core_option; [intros; eapply inv_coremask| |auto|auto].
  - apply (inv_service e (core_parsed s)); [done|]. intros r c' HI'. wp_step. destruct (r <? 0); [done|]. apply HY; [by left|by split].
  - unfold eal_plugin_add. wp_step. apply wp_allocate. intros b l. destruct b; cbn [negb]; wp_step; [|done]. apply HY; [by left|]. by apply (inv_framed s).
  - destruct Hsafe as (it & its & Hits & ->). by apply wp_core_option; [intros; eapply inv_corelist| |auto|auto].
  - destruct Hsafe as (it & its & Hits & ->). apply (inv_service_corelist e (core_parsed s)); [done|done|]. intros r c' HI'. wp_step.
    destruct (r <? 0); [done|]. apply HY; [by left|by split].
  - case_match; [done|]. apply Hconf.
  - case_match; [done|]. apply Hconf.
  - destruct (b_used s) eqn:Eb; wp_step; [done|]. apply wp_device_add.
    + intros r s' Hr _. destruct (Z.ltb_spec r 0); [wp_step; done|lia].
    + intros l. change (0 <? 0) with false. wp_step. apply HY; [by left|]. split; cbn; [done| |done|intros [? _]; congruence].
      intros [?|?]%(listed_add _ RTE_DEVTYPE_WHITELISTED_PCI a s); [done|rewrite Eb; auto|done].
  - by apply wp_core_option; [intros; eapply inv_lcores| |auto|auto].
  - apply wp_log_level; [done|]. intros r s' Hs'. wp_step. by apply Hfr.
  - apply (inv_master_lcore e (core_parsed s)); [done|intros; wp_step; done|]. intros c' HI'. wp_step. apply HY; [by left|by split].
  - unfold eal_parse_syslog. destruct (find_name _ a); wp_step; [apply Hconf|done].
  - apply wp_device_add; [intros r s' Hr Hs'; wp_step; by apply Hfr|]. intros l. wp_step. apply HY; [by left|]. split; cbn; [done|..|done].
    all: intros [?|?]%(listed_add _ RTE_DEVTYPE_VIRTUAL a s); [done|auto|done].
Qed.

(** ** The options of Linux *)

Lemma get_last (a : string) n : (n < String.length a)%nat -> exists c, String.get n a = Some c.
Proof. revert n. induction a as [|c a IH]; intros n Hn; cbn in *; [lia|]. destruct n; [eauto|]. apply IH. lia. Qed.

Lemma wp_socket_mem_loop args i total s (Q : option Z -> eal_options -> Prop) :
  (forall r s', framed s s' -> Q r s') -> wp (socket_mem_loop args i total) Q s.
Proof.
  revert i total s. induction args as [|arg args IH]; intros i total s HQ; cbn [socket_mem_loop]; [wp_step; by apply HQ|].
  destruct (strtoul arg) as [[v rest] err]. wp_step. destruct (_ || _); wp_step; [by apply HQ|]. apply IH. intros r s' Hs'. by apply HQ.
Qed.

Lemma wp_socket_mem a s (Q : Z -> eal_options -> Prop) :
  a <> EmptyString -> (forall r s', framed s s' -> Q r s') -> wp (eal_parse_socket_mem a) Q s.
Proof.
  intros Ha HQ. unfold eal_parse_socket_mem. cbv zeta. destruct (Z.eqb_spec (Z.min (Z.of_nat (String.length a)) SOCKET_MEM_STRLEN) SOCKET_MEM_STRLEN) as [E|E];
    [wp_step; by apply HQ|]. change SOCKET_MEM_STRLEN with 80 in *.
  destruct (get_last a (Z.to_nat (Z.min (Z.of_nat (String.length a)) 80 - 1))) as [c ->].
  { destruct a; [done|]. cbn [String.length] in *. lia. }
  destruct (is_digit c); cbn [negb]; [|wp_step; by apply HQ]. case_bool_decide; [wp_step; by apply HQ|]. wp_step.
  apply wp_socket_mem_loop. intros [total|] s' Hs'; wp_step; by apply HQ.
Qed.

Lemma wp_linux_option opt optarg s (Q : args_result -> eal_options -> Prop) :
  safe_opt (opt, optarg) -> (forall r s', framed s s' -> Q r s') -> wp (eal_parse_linux_option opt optarg) Q s.
Proof.
  intros [Harg Hsafe] HQ. cbn [fst snd] in *.
  destruct opt; cbn [eal_parse_linux_option]; try (destruct (Harg eq_refl) as [a ->]); unfold need; wp_step; try (by apply HQ).
  - unfold eal_parse_base_virtaddr. destruct (strtoull16 a) as [[addr rest] err]. destruct (_ || _); wp_step; by apply HQ.
  - apply wp_socket_mem; [done|]. intros r s' Hs'. wp_step. by apply HQ.
  - unfold eal_parse_vfio_intr. destruct (find_name _ a); wp_step; by apply HQ.
Qed.

(** ** All options *)

Lemma inv_args_loop opts s (Q : args_result -> eal_options -> Prop) :
  opts_inv s -> Forall safe_opt opts -> (forall r s', r <> ARGS_OK -> Q r s') -> (forall s', opts_inv s' -> Q ARGS_OK s') ->
  wp (parse_args_loop sys opts) Q s.
Proof.
  intros HI Hs HN HY. revert s HI. induction Hs as [|[opt optarg] opts Ho Hs IH]; intros s HI; cbn [parse_args_loop]; [wp_step; auto|].
  case_bool_decide; [wp_step; by apply HN|]. wp_step. apply inv_common_option; [done|done|intros s'; wp_step; by apply HN|].
  intros r s' [-> | ->] HI'; [by apply IH|]. change (1 <? 0) with false. change (1 =? 0) with false. wp_step.
  apply wp_linux_option; [done|]. intros r s2 Hs2. destruct r; wp_step; [by apply HN..|]. apply IH. by apply (inv_framed s').
Qed.

(** What holds once the command line was accepted. *)
Record ready (s : eal_options) : Prop := Ready {
  rd_sized : sized (cores s);
  rd_master : 0 <= master_lcore (cores s) < 128 /\ lcore_role (cores s) !! Z.to_nat (master_lcore (cores s)) = Some ROLE_RTE;
  rd_count : lcore_count (cores s) = Z.of_nat (length (enabled (cores s)));
  rd_type : process_type (conf_of s) <> RTE_PROC_INVALID;
  rd_prefix : has_percent (hugefile_prefix (conf_of s)) = false;
  rd_memory : ~ (mem_parsed s = true /\ force_sockets (conf_of s) = true);
  rd_huge : no_hugetlbfs (conf_of s) = true -> force_sockets (conf_of s) = false /\ hugepage_unlink (conf_of s) = false;
  rd_devices : ~ (listed RTE_DEVTYPE_BLACKLISTED_PCI s /\ listed RTE_DEVTYPE_WHITELISTED_PCI s)
}.

Abbreviation D := (list_to_set (detected_below e 128) : cset).

(** The cores, once they are complete; the rest but the configuration is unchanged. *)
Definition completed (s s' : eal_options) : Prop := cores_inv e true (cores s') /\ framed (set_cores (cores s') s) s'.

Lemma inv_adjust s (Q : Z -> eal_options -> Prop) :
  opts_inv s -> D ∩ affinity sys <> ∅ ->
  (forall s', completed s s' -> 0 <= master_lcore (cores s') < 128 -> Q 0 s') -> wp (eal_adjust_config sys) Q s.
Proof.
  intros HI HA HQ. unfold eal_adjust_config, id. rewrite wp_bind, wp_gets, wp_bind.
  apply (wp_mono _ (fun _ s' => completed s s')).
  { pose proof (oi_cores s HI) as HC. destruct (core_parsed s); wp_step; [by split|].
    apply (inv_auto_detect e); [done..|]. intros c' HC' _. by split. }
  intros _ s1 H1. rewrite wp_bind. apply (wp_mono _ (fun _ s' => completed s s')).
  { case_bool_decide; wp_step; [|done]. destruct H1 as [? ?]. by split. }
  intros _ s2 [H2 F2]. rewrite wp_bind, wp_on_cores. apply (inv_default_master e); [done|]. intros c' HC' Hm. wp_step. apply HQ; [|done].
  destruct F2 as (F1 & F2 & F3 & F4 & F5 & F6). split; [done|]. by split_and!.
Qed.

Lemma wp_check s (Q : Z -> eal_options -> Prop) :
  sized (cores s) -> 0 <= master_lcore (cores s) < 128 ->
  Q (-1) s ->
  (lcore_role (cores s) !! Z.to_nat (master_lcore (cores s)) = Some ROLE_RTE -> process_type (conf_of s) <> RTE_PROC_INVALID ->
   has_percent (hugefile_prefix (conf_of s)) = false -> ~ (mem_parsed s = true /\ force_sockets (conf_of s) = true) ->
   (no_hugetlbfs (conf_of s) = true -> force_sockets (conf_of s) = false /\ hugepage_unlink (conf_of s) = false) -> Q 0 s) ->
  wp eal_check_common_options Q s.
Proof.
  intros Hsz Hm HN HY. unfold eal_check_common_options, id. rewrite wp_bind, wp_gets, wp_bind, wp_on_cores. set (i := Z.to_nat (master_lcore (cores s))) in *.
  destruct (lookup_lt_is_Some_2 (lcore_role (cores s)) i) as [r Hr]; [rewrite (proj1 Hsz); unfold i, RTE_MAX_LCORE; lia|].
  replace (master_lcore (cores s)) with (Z.of_nat i) at 1 by lia. apply (wp_get_role _ i r); [done|lia|].
  replace (set_cores (cores s) s) with s by (by destruct s). case_bool_decide; cbn [negb]; [|wp_step; done]. subst r.
  case_bool_decide; [wp_step; done|]. destruct (has_percent _); [wp_step; done|].
  destruct (mem_parsed s), (force_sockets (conf_of s)), (no_hugetlbfs (conf_of s)), (hugepage_unlink (conf_of s)); cbn [andb]; wp_step; auto;
    apply HY; naive_solver.
Qed.

Lemma inv_parse_args opts s (Q : args_result -> eal_options -> Prop) :
  opts_inv s -> Forall safe_opt opts -> D ∩ affinity sys <> ∅ ->
  (forall r s', r <> ARGS_OK -> Q r s') -> (forall s', ready s' -> Q ARGS_OK s') -> wp (eal_parse_args sys opts) Q s.
Proof.
  intros HI Hs HA HN HY. unfold eal_parse_args. rewrite wp_bind. apply inv_args_loop; [done|done|intros [] s' Hr; [wp_step; by apply HN..|done]|].
  intros s1 HI1. rewrite wp_bind. apply inv_adjust; [done|done|]. intros s2 [HC (F1 & F2 & F3 & F4 & F5 & F6)] Hm. change (negb (0 =? 0)) with false.
  cbv iota. rewrite wp_bind. apply wp_check; [apply HC|done|wp_step; by apply HN|]. intros H1 H2 H3 H4 H5.
  change (negb (0 =? 0)) with false. unfold id. wp_step. destruct (_ && _); wp_step; [by apply HN|]. apply HY.
  split; [apply HC|done|apply HC|done..|]. pose proof HI1 as [_ J1 J2 J3]. unfold listed in *. rewrite F5. cbn. tauto.
Qed.

(** The first pass over the log levels. *)
Lemma wp_log_level_parse opts s (Q : unit -> eal_options -> Prop) :
  Forall safe_opt opts -> (forall s', framed s s' -> Q tt s') -> wp (eal_log_level_parse sys opts) Q s.
Proof.
  intros Hs. revert s. induction Hs as [|[opt optarg] opts Ho Hs IH]; intros s HQ; cbn [eal_log_level_parse]; [wp_step; by apply HQ|].
  case_bool_decide; [wp_step; by apply HQ|]. rewrite wp_bind.
  apply (wp_mono _ (fun _ s' => framed s s')).
  - case_bool_decide; [subst opt|by wp_step]. destruct Ho as [Ha Ho]. cbn in Ha. destruct (Ha eq_refl) as [a ->]. cbn in Ho.
    cbn [eal_parse_common_option]. unfold need, handled. wp_step. apply wp_log_level; [done|]. intros r s' Hs'. by wp_step.
  - intros r s' Hs'. destruct (r <? 0); [wp_step; by apply HQ|]. apply IH. intros s2 Hs2. apply HQ. by eapply framed_trans.
Qed.
End Command.

(** The static variables before the first call. *)
Definition fresh (s : eal_options) : Prop :=
  sized (cores s) /\ master_lcore_parsed (cores s) = false /\ core_parsed s = false /\ b_used s = false /\ w_used s = false
  /\ devopt_list s = [].

Lemma wp_init_options sys e s opts (Q : args_result -> eal_options -> Prop) :
  fresh s -> Forall safe_opt opts -> (list_to_set (detected_below e 128) : cset) ∩ affinity sys <> ∅ ->
  (forall r s', r <> ARGS_OK -> Q r s') -> (forall s', ready s' -> Q ARGS_OK s') -> wp (eal_init_options sys e opts) Q s.
Proof.
  intros (H1 & H2 & H3 & H4 & H5 & H6) Hs HA HN HY. unfold eal_init_options, eal_reset_internal_config. wp_step.
  apply wp_log_level_parse; [done|]. intros s1 (F1 & F2 & F3 & F4 & F5 & F6). cbn in F1, F2, F3, F4, F5. wp_step. rewrite F1.
  apply inv_cpu_init; [done|done| |intros c' _; wp_step; by apply HN]. intros c' HC Hm. change (0 <? 0) with false. wp_step.
  apply (inv_parse_args sys e); [|done..]. split; unfold listed; cbn [core_parsed cores b_used w_used devopt_list set_cores]; rewrite ?F2, ?F3, ?F4, ?F5, ?H3, ?H4, ?H5, ?H6; [done|set_solver..|naive_solver].
Qed.

