(* ===== verification/EalLibmoon.v ===== *)
(** The core options libmoon passes to the EAL (lua/dpdk.lua), a machine to try the
    command line on, and instances of the theorems about it. *)
From Stdlib Require Import ZArith Lia Ascii String.
From stdpp Require Import base numbers list gmap strings.
From S2P Require Import Prelude CStdio EalCores EalCoresSpec EalLcores EalLcoresPrint EalStartup EalOptions EalOptionsSpec EalCorelist EalCommand.

#[local] Open Scope Z_scope.

(** ** The arguments *)

(** [bit.bor(coreMask, bit.lshift(1ULL, v))] over the cores: shifts by the count modulo 64. *)
Definition core_mask (cores : list nat) : Z := foldl (fun m v => Z.lor m (Z.shiftl 1 (Z.of_nat (v mod 64)))) 0 cores.

Definition hex_char (d : Z) : ascii := ascii_of_nat (Z.to_nat (if d <? 10 then 48 + d else 55 + d)).

(** [n] digits of [v], in front of a rest. *)
Fixpoint hex (n : nat) (v : Z) (k : string) : string :=
  match n with
  | O => k
  | S n => hex n (v / 16) (String (hex_char (v mod 16)) k)
  end.

(** [0x%08X%08X] *)
Definition coremask_arg (cores : list nat) : string :=
  let m := core_mask cores in
  String "0" (String "x" (hex 8 (Z.shiftr m 32) (hex 8 (Z.land m (2 ^ 32 - 1)) EmptyString))).

(** [%d-%d,(%d-%d)@%d] *)
Definition lcores_arg (first maxCore shared : nat) : string :=
  num first (String "-" (num maxCore (String "," (String "(" (num (maxCore + 1) (String "-" (num (maxCore + shared)
    (String ")" (String "@" (num first EmptyString)))))))))).

(** The cores are sorted. *)
Definition libmoon_options (cores : list nat) (shared : nat) : list (eal_opt * option string) :=
  [(OPT_c, Some (coremask_arg cores));
   (OPT_LCORES_NUM, Some (lcores_arg (default 0%nat (list.head cores)) (default 0%nat (last cores)) shared))].

(** ** The mask *)

Fixpoint hex_digits (n : nat) (v : Z) : list ascii :=
  match n with
  | O => []
  | S n => hex_char (v mod 16) :: hex_digits n (v / 16)
  end.

Lemma hex_list n v k : list_ascii_of_string (hex n v k) = rev (hex_digits n v) ++ list_ascii_of_string k.
Proof.
  revert v k. induction n as [|n IH]; intros v k; [done|]. cbn [hex hex_digits]. rewrite IH. cbn [list_ascii_of_string rev]. by rewrite <- (assoc_L (++)).
Qed.

Lemma hex_char_ok d : 0 <= d < 16 -> isxdigit (hex_char d) = true /\ xdigit2val (hex_char d) = d.
Proof.
  intros Hd. assert (d ∈ seqZ 0 16) as Hin by (apply elem_of_seqZ; lia). cbn in Hin.
  repeat (apply elem_of_cons in Hin as [->|Hin]; [done|]). set_solver.
Qed.

Lemma hex_digits_ok n v : Forall (fun c => isxdigit c = true) (hex_digits n v).
Proof.
  revert v. induction n as [|n IH]; intros v; constructor; [|apply IH]. apply hex_char_ok, Z.mod_pos_bound. lia.
Qed.

Lemma hexval_digits n v : 0 <= v -> hexval (hex_digits n v) = v mod 16 ^ Z.of_nat n.
Proof.
  revert v. induction n as [|n IH]; intros v Hv; [cbn; by rewrite Z.mod_1_r|]. cbn [hex_digits hexval foldr]. fold (hexval (hex_digits n (v / 16))).
  rewrite IH by (apply Z.div_pos; lia). destruct (hex_char_ok (v mod 16)) as [_ ->]; [apply Z.mod_pos_bound; lia|].
  rewrite Nat2Z.inj_succ, Z.pow_succ_r by lia. rewrite (Z.rem_mul_r v 16) by (lia || apply Z.pow_pos_nonneg; lia). done.
Qed.

Lemma hexval_app a b : hexval (a ++ b) = hexval a + 16 ^ Z.of_nat (length a) * hexval b.
Proof.
  induction a as [|c a IH]; [change (hexval []) with 0; cbn [app length]; lia|]. cbn [app hexval foldr length]. fold (hexval (a ++ b)) (hexval a). rewrite IH, Nat2Z.inj_succ, Z.pow_succ_r by lia. lia.
Qed.

Lemma hex_digits_length n v : length (hex_digits n v) = n.
Proof. revert v. induction n as [|n IH]; intros v; cbn; [done|]. by rewrite IH. Qed.

Lemma core_mask_bits cores i :
  Z.testbit (core_mask cores) (Z.of_nat i) = true <-> exists v, v ∈ cores /\ (v mod 64 = i)%nat.
Proof.
  unfold core_mask. assert (forall m, Z.testbit (foldl (fun m v => Z.lor m (Z.shiftl 1 (Z.of_nat (v mod 64)))) m cores) (Z.of_nat i) = true
    <-> Z.testbit m (Z.of_nat i) = true \/ exists v, v ∈ cores /\ (v mod 64 = i)%nat) as Hgen.
  { induction cores as [|v cores IH]; intros m; cbn [foldl]; [set_solver|]. rewrite IH, Z.lor_spec, orb_true_iff.
    rewrite Z.shiftl_1_l, Z.pow2_bits_eqb, Z.eqb_eq by lia. split.
    - intros [[?|E]|(v' & ? & ?)]; [by left|right; exists v; split; [set_solver|lia]|right; exists v'; set_solver].
    - intros [?|(v' & [->|?]%elem_of_cons & E)]; [by left; left|left; right; lia|right; eauto]. }
  rewrite Hgen, Z.bits_0. naive_solver.
Qed.

Lemma core_mask_range cores : 0 <= core_mask cores < 2 ^ 64.
Proof.
  unfold core_mask. assert (forall m, 0 <= m < 2 ^ 64 -> 0 <= foldl (fun m v => Z.lor m (Z.shiftl 1 (Z.of_nat (v mod 64)))) m cores < 2 ^ 64) as Hgen; [|apply Hgen; lia].
  induction cores as [|v cores IH]; intros m Hm; cbn [foldl]; [done|]. apply IH. pose proof (Nat.mod_upper_bound v 64 ltac:(lia)).
  assert (0 <= Z.lor m (Z.shiftl 1 (Z.of_nat (v mod 64)))) as H0.
  { apply Z.lor_nonneg. split; [lia|]. rewrite Z.shiftl_1_l. apply Z.pow_nonneg. lia. }
  split; [done|]. change 64 with (Z.of_nat 64). apply bits_below; [done|]. intros i Hi. rewrite Z.lor_spec, (bits_above m 64) by done.
  rewrite Z.shiftl_1_l, Z.pow2_bits_eqb by lia. cbn. apply Z.eqb_neq. lia.
Qed.

(** The argument of -c stands for the mask. *)
Lemma coremask_arg_ok cores :
  Forall (fun c => isxdigit c = true) (mask_chars (coremask_arg cores)) /\ hexval (mask_chars (coremask_arg cores)) = core_mask cores.
Proof.
  pose proof (core_mask_range cores) as Hm. set (m := core_mask cores) in *.
  assert (mask_chars (coremask_arg cores) = hex_digits 8 (Z.land m (2 ^ 32 - 1)) ++ hex_digits 8 (Z.shiftr m 32)) as ->.
  { unfold mask_chars, coremask_arg. cbv zeta. fold m. cbn [skip_blank]. change (isblank "0") with false. cbv iota. cbn [head tail].
    change (ceq "0" "0" && (ceq "x" "x" || ceq "x" "X")) with true. cbv iota. rewrite !hex_list, !rev_app_distr, !rev_involutive. cbn [list_ascii_of_string rev app].
    destruct (hex_char_ok (Z.land m (2 ^ 32 - 1) mod 16)) as [Hx _]; [apply Z.mod_pos_bound; lia|]. cbn [hex_digits app].
    assert (isblank (hex_char (Z.land m (2 ^ 32 - 1) mod 16)) = false) as ->; [|done].
    destruct (isblank _) eqn:Eb; [|done]. exfalso. unfold isblank in Eb. apply orb_true_iff in Eb as [E%ceq_eq|E%Z.eqb_eq]; [by rewrite E in Hx|].
    unfold isxdigit, digit in Hx. rewrite E in Hx. done. }
  split; [apply Forall_app; split; apply hex_digits_ok|]. rewrite hexval_app, hex_digits_length. rewrite !hexval_digits.
  - change (Z.of_nat 8) with 8. change (16 ^ 8) with (2 ^ 32). rewrite Z.shiftr_div_pow2 by lia. change (2 ^ 32 - 1) with (Z.ones 32). rewrite Z.land_ones by lia.
    rewrite Z.mod_mod by lia. rewrite (Z.mod_small (m / 2 ^ 32)); [rewrite (Z.div_mod m (2 ^ 32)) at 3 by lia; lia|].
    split; [apply Z.div_pos; lia|]. apply Z.div_lt_upper_bound; [lia|]. change (2 ^ 32 * 2 ^ 32) with (2 ^ 64). lia.
  - apply Z.shiftr_nonneg. lia.
  - apply Z.land_nonneg. left. lia.
Qed.

(** ** The mask is accepted *)

Section Mask.
Context (e : cpu_env) (cores : list nat).
Hypothesis Hmask : forall v, v ∈ cores -> found e (v mod 64).
Hypothesis Hcores : cores <> [].

Lemma detected_spec (i : nat) : i ∈ (list_to_set (detected_below e 128) : cset) <-> found e i /\ (i < 128)%nat.
Proof. unfold detected_below. rewrite elem_of_list_to_set, list_elem_of_filter, elem_of_seq. intuition lia. Qed.

Lemma wp_libmoon_mask b c (Q : Z -> eal -> Prop) :
  cores_inv e b c -> master_lcore_parsed c = false ->
  (forall c', cores_inv e true c' -> master_lcore_parsed c' = false -> Q 0 c') ->
  wp (eal_parse_coremask (Some (coremask_arg cores))) Q c.
Proof.
  intros HI Hm HQ. destruct (coremask_arg_ok cores) as [Hx HV]. pose proof (core_mask_range cores) as Hr.
  assert (core_mask cores <> 0) as Hne.
  { destruct cores as [|v l]; [done|]. intros H0. assert (Z.testbit (core_mask (v :: l)) (Z.of_nat (v mod 64)) = true) as Hb.
    { apply core_mask_bits. exists v. split; [set_solver|done]. }
    by rewrite H0, Z.bits_0 in Hb. }
  assert (mask_ok c (mask_chars (coremask_arg cores))) as Hok.
  { split; [done|]. rewrite HV. split; [split; [lia|]|].
    - eapply Z.lt_trans; [apply Hr|]. apply Z.pow_lt_mono_r; lia.
    - intros i Hi [v [Hv <-]]%core_mask_bits. apply (ci_usable _ _ _ HI), detected_spec. auto. }
  eapply wp_mono; [by apply wp_parse_coremask, (ci_sized _ _ _ HI)|]. intros r c' [(_ & -> & ->)|(Hno & _)]; [|done].
  apply HQ; [|done]. apply (inv_masked e b); [exact HI|reflexivity|]. rewrite HV, rank_zero. intros Hb. apply Hne.
  apply Z.le_antisymm; [|lia]. apply Z.lt_succ_r, (bits_below _ 0); [lia|]. intros i _.
  destruct (decide (i < 128)%nat); [by apply Hb|]. apply (bits_above _ 64); [exact Hr|lia].
Qed.

End Mask.

(** ** The mapping *)

Lemma members_skip X k a : (k <= a)%nat -> (a <= 128)%nat -> (forall i, (i < a)%nat -> i ∉ X) -> members X k = members X a.
Proof.
  intros Hk Ha HX. induction Hk as [|a Hk IH] using le_ind; [done|]. rewrite IH by (lia || intros; apply HX; lia).
  rewrite (members_step X a) by lia. by rewrite decide_False by (apply HX; lia).
Qed.

Lemma members_seq a n : (a + n <= 128)%nat -> members (set_seq a n) 0 = seq a n.
Proof.
  intros Hn. rewrite (members_skip _ 0 a) by (lia || intros i Hi; rewrite elem_of_set_seq; lia).
  revert a Hn. induction n as [|n IH]; intros a Hn.
  - cbn [seq]. destruct (members (set_seq a 0) a) as [|i l] eqn:E; [done|]. assert (i ∈ members (set_seq a 0) a) as Hi by (rewrite E; set_solver).
    apply elem_of_members in Hi as [Hi _]. set_solver.
  - rewrite members_step, decide_True by (lia || rewrite elem_of_set_seq; lia). cbn [seq]. f_equal. rewrite <- IH by lia.
    apply filter_ext. intros i Hi%elem_of_seq. rewrite !elem_of_set_seq. lia.
Qed.

(** New lcores in a row get the next numbers. *)
Lemma add_seq a n f (m : conf) :
  (forall i, (a <= i < a + n)%nat -> m !! i = None) ->
  let m' := foldl (add_lcore f) m (seq a n) in
  size m' = (size m + n)%nat /\
  forall i, m' !! i = if decide (a <= i < a + n)%nat then Some (Z.of_nat (size m + (i - a)), f i) else m !! i.
Proof.
  revert a m. induction n as [|n IH]; intros a m Hnew; cbn [seq foldl].
  - split; [lia|]. intros i. by rewrite decide_False by lia.
  - unfold add_lcore at 2 4. rewrite Hnew by lia. set (m1 := <[a := _]> m).
    assert (size m1 = S (size m)) as Hs1 by (unfold m1; rewrite map_size_insert, Hnew by lia; done).
    destruct (IH (S a) m1) as [Hs Hl]. { intros i Hi. unfold m1. rewrite lookup_insert_ne by lia. apply Hnew. lia. }
    split; [rewrite Hs, Hs1; lia|]. intros i. rewrite Hl. unfold m1. destruct (decide (i = a)) as [->|Hne].
    + rewrite decide_False, decide_True, lookup_insert_eq by lia. do 3 f_equal. lia.
    + rewrite lookup_insert_ne by done. rewrite map_size_insert, Hnew by lia. repeat case_decide; try lia; [|done]. do 3 f_equal. lia.
Qed.

Section Mapping.
Context (first maxCore shared : nat).
Hypothesis Hfirst : (first <= maxCore)%nat.
Hypothesis Hshared : (0 < shared)%nat.
Hypothesis Hmax : (maxCore + shared < 128)%nat.

Definition own_entry : map_entry := Entry (Plain (Range first maxCore)) None.
Definition shared_entry : map_entry := Entry (Group (Range (maxCore + 1) (maxCore + shared)) []) (Some (Plain (One first))).

Lemma lcores_arg_entries : lcores_arg first maxCore shared = entries_str own_entry [shared_entry].
Proof. done. Qed.

(** The configuration libmoon wants: its cores one to one, and the lcores of the shared
    tasks on the first core. *)
Definition mapped (m : conf) : Prop :=
  size m = (maxCore + shared - first + 1)%nat /\
  forall i, m !! i = if decide (first <= i <= maxCore + shared)%nat
    then Some (Z.of_nat (i - first), if decide (i <= maxCore)%nat then {[i]} else {[first]}) else None.

Lemma mapping_configured D : set_seq first (maxCore - first + 1) ⊆ D ->
  exists m, configured D [own_entry; shared_entry] ∅ = Some m /\ mapped m.
Proof.
  intros HD. assert (desc_set (e_lcores shared_entry) = set_seq (maxCore + 1) shared) as L2.
  { cbn [e_lcores shared_entry]. unfold desc_set. change (⋃ (item_set <$> [])) with (∅ : cset). rewrite (right_id_L ∅ (∪)). cbn [item_set]. f_equal; lia. }
  assert (desc_set (e_lcores own_entry) = set_seq first (maxCore - first + 1)) as L1 by (cbn [e_lcores own_entry desc_set item_set]; f_equal; lia).
  cbn [configured]. rewrite decide_True by (change (entry_needs own_entry) with (desc_set (e_lcores own_entry)); by rewrite L1).
  rewrite decide_True by (change (entry_needs shared_entry) with ({[first]} : cset); intros i ->%elem_of_singleton; apply HD, elem_of_set_seq; lia).
  eexists. split; [done|]. rewrite L1, L2.
  unfold add_set. rewrite !members_seq by lia.
  destruct (add_seq first (maxCore - first + 1) (entry_cpus own_entry) ∅) as [Hs1 Hl1]; [done|]. set (m1 := foldl _ ∅ _) in *.
  destruct (add_seq (maxCore + 1) shared (entry_cpus shared_entry) m1) as [Hs2 Hl2].
  { intros i Hi. rewrite Hl1. by rewrite decide_False by lia. }
  rewrite map_size_empty in Hs1, Hl1. split; [rewrite Hs2, Hs1; lia|]. intros i. rewrite Hl2, Hl1, Hs1.
  repeat case_decide; try lia; try done; do 2 f_equal; lia.
Qed.

Lemma mapping_ok : Forall entry_ok [own_entry; shared_entry].
Proof. apply Forall_cons; split; [|apply Forall_singleton]; repeat split; cbn; try lia. by constructor. Qed.

(** ** The lcores after both options *)

Context (e : cpu_env).
Hypothesis Hfound : forall i, (first <= i <= maxCore)%nat -> found e i.

(** The mapping is accepted and set up. *)
Lemma wp_libmoon_lcores c (Q : Z -> eal -> Prop) :
  cores_inv e true c -> (forall c' m, mapped m -> represents (set_count (Z.of_nat (size m)) c) c' m -> Q 0 c') ->
  wp (eal_parse_lcores (Some (lcores_arg first maxCore shared))) Q c.
Proof.
  intros HI HQ. destruct (mapping_configured (list_to_set (detected_below e 128))) as (m & Em & Hm).
  { intros i [? ?]%elem_of_set_seq. apply detected_spec. split; [apply Hfound|]; lia. }
  eapply (wp_parse_lcores c); [apply HI..|]. rewrite lcores_arg_entries, entries_conf, Em by apply mapping_ok. eauto.
Qed.

(** The enabled lcores, their numbers and their cpus. *)
Definition libmoon_cores (c : eal) : Prop :=
  master_lcore c = Z.of_nat first /\ lcore_count c = Z.of_nat (maxCore + shared - first + 1) /\
  forall i, (i < 128)%nat -> shows c i (if decide (first <= i <= maxCore + shared)%nat
    then Some (Z.of_nat (i - first), if decide (i <= maxCore)%nat then {[i]} else {[first]}) else None).

Lemma wp_libmoon_master c0 c m (Q : unit -> eal -> Prop) :
  mapped m -> represents (set_count (Z.of_nat (size m)) c0) c m -> master_lcore_parsed c0 = false ->
  (forall c', sized c' -> libmoon_cores c' -> Q tt c') -> wp default_master Q c.
Proof.
  intros [Hs Hl] HR Hm HQ. pose proof (rp_rest _ _ _ HR) as (_ & Hc & _ & Hp). pose proof (rp_sized _ _ _ HR) as Hsz.
  assert (forall i, lcore_role c !! i = Some ROLE_RTE <-> (first <= i <= maxCore + shared)%nat) as Hrole.
  { intros i. destruct (decide (i < 128)%nat) as [Hi|Hi].
    - rewrite (represents_enabled _ _ _ _ HR Hi), Hl. case_decide; [naive_solver|]. split; [by intros [? ?]|done].
    - split; [|lia]. intros Hr%lookup_lt_Some. rewrite (proj1 Hsz) in Hr. unfold RTE_MAX_LCORE in Hr. lia. }
  apply wp_default_master; [done|by rewrite Hp| |exists first; apply Hrole; lia]. intros i Hi Hmin.
  assert (i = first) as ->. { apply Hrole in Hi. assert (i <= first)%nat by (apply Hmin, Hrole; lia). lia. }
  assert (first < 128)%nat by lia. apply HQ; [split; [apply Hsz|cbn; rewrite length_alter; apply Hsz]|].
  split; [done|]. split; [cbn; rewrite Hc; cbn; by rewrite Hs|]. intros j Hj. rewrite <- Hl. destruct (rp_shows _ _ _ HR j Hj) as (x & Hx & Hmj).
  destruct (decide (j = first)) as [->|Hne].
  - exists (with_role ROLE_RTE x). cbn. rewrite list_lookup_alter_eq, Hx. split; [done|]. by destruct (m !! first) as [[]|].
  - exists x. cbn. by rewrite list_lookup_alter_ne by done.
Qed.
End Mapping.

(** ** The whole command line *)

(** The configuration before the first call: a primary process with huge pages. *)
Definition initial (s : eal_options) : Prop :=
  fresh s /\ process_type (conf_of s) = RTE_PROC_PRIMARY /\ no_hugetlbfs (conf_of s) = false /\ mem_parsed s = false.

(** What the checks at the end look at. *)
Definition plain_conf (s : eal_options) : Prop :=
  process_type (conf_of s) = RTE_PROC_PRIMARY /\ has_percent (hugefile_prefix (conf_of s)) = false /\ mem_parsed s = false
  /\ force_sockets (conf_of s) = false /\ no_hugetlbfs (conf_of s) = false.

Lemma wp_plain_check s (Q : Z -> eal_options -> Prop) :
  plain_conf s -> sized (EalOptions.cores s) -> 0 <= master_lcore (EalOptions.cores s) < 128 ->
  lcore_role (EalOptions.cores s) !! Z.to_nat (master_lcore (EalOptions.cores s)) = Some ROLE_RTE -> Q 0 s ->
  wp eal_check_common_options Q s.
Proof.
  intros (Hp & Hx & Hmem & Hf & Hh) Hsz Hm Hr HQ. unfold eal_check_common_options, id. rewrite wp_bind, wp_gets, wp_bind, wp_on_cores.
  rewrite <- (Z2Nat.id (master_lcore (EalOptions.cores s))) at 1 by lia. apply (wp_get_role _ _ ROLE_RTE); [done|lia|].
  replace (set_cores (EalOptions.cores s) s) with s by (by destruct s). rewrite bool_decide_eq_true_2 by done. rewrite Hp, Hx, Hmem, Hf, Hh. done.
Qed.

Section Args.
Context (sys : system) (e : cpu_env) (cores : list nat) (first maxCore shared : nat).
Hypothesis Hhead : list.head cores = Some first.
Hypothesis Hlast : last cores = Some maxCore.
Hypothesis Hfm : (first <= maxCore)%nat.
Hypothesis Hsh : (0 < shared)%nat.
Hypothesis Hmax : (maxCore + shared < 128)%nat.
Hypothesis Hmask : forall v, v ∈ cores -> found e (v mod 64).
Hypothesis Hfound : forall i, (first <= i <= maxCore)%nat -> found e i.

Lemma wp_libmoon_loop s (Q : args_result -> eal_options -> Prop) :
  cores_inv e false (EalOptions.cores s) -> master_lcore_parsed (EalOptions.cores s) = false ->
  (forall c0 c m, master_lcore_parsed c0 = false -> mapped first maxCore shared m -> represents (set_count (Z.of_nat (size m)) c0) c m ->
     Q ARGS_OK (set_core_parsed true (set_cores c s))) ->
  wp (parse_args_loop sys (libmoon_options cores shared)) Q s.
Proof.
  intros HC Hm HQ. unfold libmoon_options. rewrite Hhead, Hlast. cbn [parse_args_loop eal_parse_common_option from_option].
  rewrite bool_decide_eq_false_2 by done. unfold core_option. wp_step.
  apply (wp_libmoon_mask e cores Hmask) with false; [by destruct cores|done|done|]. intros c1 HC1 Hm1. change (0 <? 0) with false. wp_step.
  change (0 =? 0) with true. cbv iota. rewrite bool_decide_eq_false_2 by done. change (0 <? 0) with false. unfold id. wp_step.
  cbn [EalOptions.cores set_cores set_core_parsed].
  apply (wp_libmoon_lcores first maxCore shared Hfm Hsh Hmax e Hfound); [done|]. intros c2 m Hmap HR. change (0 <? 0) with false. wp_step.
  exact (HQ c1 c2 m Hm1 Hmap HR).
Qed.

Lemma wp_libmoon_args s (Q : args_result -> eal_options -> Prop) :
  cores_inv e false (EalOptions.cores s) -> master_lcore_parsed (EalOptions.cores s) = false -> plain_conf s ->
  (forall s', sized (EalOptions.cores s') -> libmoon_cores first maxCore shared (EalOptions.cores s') -> Q ARGS_OK s') ->
  wp (eal_parse_args sys (libmoon_options cores shared)) Q s.
Proof.
  intros HC Hm (Hp & Hx & Hmem & Hf & Hh) HQ. unfold eal_parse_args. rewrite wp_bind. apply wp_libmoon_loop; [done|done|]. intros c0 c m Hm0 Hmap HR.
  unfold eal_adjust_config, id. rewrite !wp_bind, wp_gets, wp_bind. cbn [core_parsed set_core_parsed]. rewrite wp_ret, wp_bind.
  cbn [conf_of set_cores set_core_parsed]. rewrite Hp, bool_decide_eq_false_2 by done. rewrite wp_ret, wp_bind, wp_on_cores. cbn [EalOptions.cores set_cores set_core_parsed].
  eapply (wp_libmoon_master first maxCore shared); [done..|]. intros c3 Hsz Hc3. pose proof Hc3 as (E1 & _ & Hsh3).
  rewrite wp_bind, wp_update, wp_ret. change (negb (0 =? 0)) with false. cbv iota. rewrite wp_bind. apply wp_plain_check.
  - done.
  - done.
  - cbn. rewrite E1. lia.
  - cbn [EalOptions.cores set_cores set_core_parsed set_conf_of]. rewrite E1, Nat2Z.id. destruct (Hsh3 first ltac:(lia)) as (x & _ & Hr).
    rewrite decide_True in Hr by lia. apply Hr.
  - change (negb (0 =? 0)) with false. cbv iota. wp_step. cbn. rewrite Hf, andb_false_r. wp_step. by apply HQ.
Qed.

Lemma wp_libmoon_init s (Q : args_result -> eal_options -> Prop) :
  initial s -> sockets_ok e ->
  (forall s', sized (EalOptions.cores s') -> libmoon_cores first maxCore shared (EalOptions.cores s') -> Q ARGS_OK s') ->
  wp (eal_init_options sys e (libmoon_options cores shared)) Q s.
Proof.
  intros ((H1 & H2 & H3 & H4 & H5 & H6) & Hp & Hh & Hmem) Hsock HQ. unfold eal_init_options, eal_reset_internal_config.
  rewrite wp_bind, wp_update, wp_bind. set (s1 := set_conf_of _ s). assert (plain_conf s1) as Hs1 by done.
  assert (wp (eal_log_level_parse sys (libmoon_options cores shared)) (fun _ s' => s' = s1) s1) as Hlog by done.
  eapply wp_mono; [exact Hlog|]. intros _ ? ->. rewrite wp_bind, wp_on_cores. apply (inv_cpu_init e); [done|done| |by intros].
  intros c0 HC0 Hm0. change (0 <? 0) with false. cbv iota. by apply wp_libmoon_args.
Qed.
End Args.

(** The values the loops over all lcores but the master take. *)
Lemma libmoon_slaves first maxCore shared c :
  (first <= maxCore)%nat -> (0 < shared)%nat -> (maxCore + shared < 128)%nat -> sized c -> libmoon_cores first maxCore shared c ->
  wp (RTE_LCORE_FOREACH true) (fun l c' => c' = c /\ l = Z.of_nat <$> seq (S first) (maxCore + shared - first)) c.
Proof.
  intros Hfm Hs Hmax Hsz (Hm & _ & Hsh). apply wp_foreach; [done|]. split; [done|]. f_equal. unfold selection.
  rewrite <- (members_seq (S first) (maxCore + shared - first)) by lia. unfold members. apply filter_ext. intros i Hi%elem_of_seq.
  rewrite elem_of_set_seq. destruct (Hsh i ltac:(lia)) as (x & _ & Hr). unfold selected. rewrite Hm.
  case_decide; destruct Hr as [-> _]; [|naive_solver lia]. split; [intros [_ Hne]|intros ?; split; [done|]]; [|lia].
  destruct (decide (i = first)) as [->|]; [exfalso; by apply Hne|lia].
Qed.

(** C19: the cores of libmoon. On a machine that has all cores from the first to the last
    one of the configuration, the EAL accepts the options libmoon passes. Then every core
    from the first to the last one of the configuration is an enabled lcore on its own
    cpu, whether it was configured or not; the lcores behind the last one, as many as
    there are shared tasks, run on the first core; there are no others; the numbers are
    consecutive; the master is the first core, and a loop over the other lcores takes
    them in ascending order. *)
Theorem libmoon_startup sys e s cores first maxCore shared :
  initial s -> list.head cores = Some first -> last cores = Some maxCore ->
  (first <= maxCore)%nat -> (0 < shared)%nat -> (maxCore + shared < 128)%nat ->
  (forall v, v ∈ cores -> found e (v mod 64)) -> (forall i, (first <= i <= maxCore)%nat -> found e i) -> sockets_ok e ->
  wp (r ← eal_init_options sys e (libmoon_options cores shared); l ← on_cores (RTE_LCORE_FOREACH true); mret (r, l))
    (fun '(r, l) s' => r = ARGS_OK /\ libmoon_cores first maxCore shared (EalOptions.cores s')
       /\ l = Z.of_nat <$> seq (S first) (maxCore + shared - first)) s.
Proof.
  intros Hi Hhd Hlast Hfm Hsh Hmax Hmask Hfound Hsock. rewrite wp_bind.
  apply (wp_libmoon_init sys e cores first maxCore shared); [done..|]. intros s' Hsz Hc. rewrite wp_bind, wp_on_cores.
  eapply wp_mono; [by apply (libmoon_slaves first maxCore shared)|]. intros l c [-> ->]. done.
Qed.

(** ** A machine with twelve cpus on two sockets *)

#[local] Open Scope string_scope.
#[local] Open Scope Z_scope.


Definition demo_env : cpu_env := CpuEnv (fun i => i <? 12) (fun i => i mod 6) (fun i => i / 6).

Definition demo_lcore (i : nat) : lcore_config :=
  Lcore (bool_decide (i < 12)%nat) (Z.of_nat i / 6) (Z.of_nat i mod 6) (Z.of_nat i) {[i]} ROLE_RTE.

(** The cores after the detection. *)
Definition demo_cores : eal :=
  Eal 0 12 0 (replicate 12 ROLE_RTE ++ replicate 116 ROLE_OFF) (demo_lcore <$> seq 0 128) false (replicate 128 false).

Definition demo_cpus : cset := list_to_set (seq 0 12).

Lemma demo_sized : sized demo_cores.
Proof. done. Qed.

Lemma demo_usable : usable demo_cores demo_cpus.
Proof.
  intros i. unfold demo_cpus, available. rewrite elem_of_list_to_set, elem_of_seq. unfold demo_cores. cbn [lcore_configs].
  rewrite list_lookup_fmap. split.
  - intros Hi. split; [lia|]. rewrite lookup_seq_lt by lia. eexists. split; [done|]. apply bool_decide_eq_true. lia.
  - intros [Hi (c & Hc & Hd)]. rewrite lookup_seq_lt in Hc by lia. cbn [fmap option_fmap option_map] in Hc. injection Hc as <-.
    apply bool_decide_eq_true in Hd. lia.
Qed.

(** The state before the first call: zero-initialized arrays. *)
Definition demo_options : eal_options :=
  Options (Eal 0 0 0 (replicate 128 ROLE_RTE) (replicate 128 (Lcore false 0 0 0 ∅ ROLE_RTE)) false (replicate 128 false))
    (InternalConfig 0 0 0 false false false false false false false false RTE_PROC_PRIMARY false (replicate 8 0) 0 0 RTE_INTR_MODE_NONE
       "rte" None [0; 0; 0])
    false false false false [] [] 7 [("pmd.i40e.init", 5)] [].

Definition demo_system : system := System (fun _ => true) (fun p n => bool_decide (p = n)) (list_to_set (seq 0 4)) RTE_PROC_PRIMARY.


Lemma lcores_safe_witness :
  sized demo_cores /\ usable demo_cores demo_cpus /\
  wp (eal_parse_lcores (Some "0-3,(4-11)@0")) (fun r s' =>
    (r = -1 /\ exists m, represents demo_cores s' m) \/
    (r = 0 /\ exists m, numbered demo_cpus m /\ m <> ∅ /\ represents (set_count (Z.of_nat (size m)) demo_cores) s' m)) demo_cores.
Proof. split; [apply demo_sized|]. split; [apply demo_usable|]. apply lcores_safe; [apply demo_sized|apply demo_usable]. Defined.

Definition demo_entries : list map_entry :=
  [Entry (Plain (One 2)) (Some (Plain (Range 5 7))); Entry (Group (Range 3 5) []) (Some (Group (One 0) [One 2])); Entry (Group (One 0) [One 6]) None;
   Entry (Plain (Range 7 8)) None].

(** The argument the documentation of the options explains. *)
Example demo_entries_text : entries_str (Entry (Plain (One 1)) None) demo_entries = "1,2@5-7,(3-5)@(0,2),(0,6),7-8".
Proof. reflexivity. Qed.

Lemma lcores_roundtrip_witness :
  Forall entry_ok (Entry (Plain (One 1)) None :: demo_entries) /\
  wp (eal_parse_lcores (Some (entries_str (Entry (Plain (One 1)) None) demo_entries))) (fun r s' =>
    match configured demo_cpus (Entry (Plain (One 1)) None :: demo_entries) ∅ with
    | Some m => r = 0 /\ represents (set_count (Z.of_nat (size m)) demo_cores) s' m
    | None => r = -1
    end) demo_cores.
Proof.
  assert (Forall entry_ok (Entry (Plain (One 1)) None :: demo_entries)) as Hok.
  { repeat apply Forall_cons_2; try apply Forall_nil_2; cbn; repeat split; try lia; repeat constructor; cbn; lia. }
  split; [exact Hok|]. apply lcores_roundtrip; [apply demo_sized|apply demo_usable|exact Hok].
Defined.

Lemma corelist_witness :
  Forall item_ok [Range 1 3; One 5; One 2; Range 7 6] /\
  wp (eal_parse_corelist (Some "1-3,5,2,7-6")) (fun r c' =>
    if decide (core_list [Range 1 3; One 5; One 2; Range 7 6] = []) then r = -1
    else r = 0 /\ listing (set_count 4 demo_cores) c' [1; 2; 3; 5]%nat) demo_cores.
Proof.
  assert (Forall item_ok [Range 1 3; One 5; One 2; Range 7 6]) as Hok by (repeat apply Forall_cons_2; try apply Forall_nil_2; cbn; lia).
  split; [exact Hok|]. apply (corelist_roundtrip demo_cores (Range 1 3) [One 5; One 2; Range 7 6]); [apply demo_sized|exact Hok].
Defined.

(** A number that is too large: the arrays have 128 entries, and the list is applied
    without a look at its numbers. *)
Example corelist_out_of_bounds : eal_parse_corelist (Some "3,128") demo_cores = Fault.
Proof. vm_compute. reflexivity. Qed.

(** The mask of service cores takes the number of an enabled lcore away. *)
Example service_mask_clears_index :
  match eal_parse_service_coremask (Some "3") demo_cores with
  | Ret (r, c) => r = 0 /\ lcore_role c !! 8%nat = Some ROLE_RTE /\ core_index <$> (lcore_configs c !! 8%nat) = Some (-1)
  | _ => False end.
Proof. vm_compute. by repeat split. Qed.

(** Twice the same service core: it is counted twice, and the count is not stored. *)
Example service_list_count :
  match eal_parse_service_corelist (Some "1,1") demo_cores with
  | Ret (r, c) => r = 0 /\ service_lcore_count c = 0
  | _ => False end.
Proof. vm_compute. by repeat split. Qed.

(** Text behind a closing bracket is skipped; large numbers are taken modulo 2^32; a range
    without brackets cannot have cpus. *)
Example lcores_lenient :
  (fst <$> (match eal_parse_lcores (Some "(1)x,4294967298") demo_cores with Ret p => Some p | _ => None end) = Some 0)
  /\ (fst <$> (match eal_parse_lcores (Some "1-3@2") demo_cores with Ret p => Some p | _ => None end) = Some (-1)).
Proof. vm_compute. done. Qed.

(** A log level with two commas, and an empty amount of memory. *)
Example options_undefined :
  eal_parse_log_level demo_system "a,1,2" demo_options = Fault /\ eal_parse_socket_mem (EmptyString) demo_options = Fault.
Proof. vm_compute. done. Qed.

(** No detected cpu in the affinity of the thread: the default master is behind the end of
    the arrays. *)
Example no_cpu_left :
  eal_init_options (System (fun _ => true) (fun _ _ => false) ∅ RTE_PROC_PRIMARY) demo_env [] demo_options = Fault.
Proof. vm_compute. reflexivity. Qed.

Definition demo_opts : list (eal_opt * option string) :=
  [(OPT_c, Some "ff"); (OPT_S, Some "1-2,5"); (OPT_b, Some "0000:81:00.3"); (OPT_LOG_LEVEL_NUM, Some "pmd.i40e.init,8"); (OPT_n, Some "4"); (OPT_SOCKET_MEM_NUM, Some "512,512");
   (OPT_MASTER_LCORE_NUM, Some "3"); (OPT_FILE_PREFIX_NUM, Some "m1"); (OPT_LCORES_NUM, Some "0-3,(4-11)@0")].

Lemma demo_affinity : (list_to_set (detected_below demo_env 128) : cset) ∩ affinity demo_system <> ∅.
Proof.
  intros E. assert (0%nat ∈ (list_to_set (detected_below demo_env 128) : cset) ∩ affinity demo_system) as Hin.
  { apply elem_of_intersection. split; [apply detected_spec; split; [done|lia]|]. cbn. set_solver. }
  rewrite E in Hin. set_solver.
Qed.

Lemma demo_service : core_list_text "1-2,5".
Proof. exists (Range 1 2), [One 5]. split; [|reflexivity]. repeat apply Forall_cons_2; try apply Forall_nil_2; cbn; lia. Qed.


(** The options are accepted. *)
Example demo_accepted : match eal_init_options demo_system demo_env demo_opts demo_options with
  | Ret (r, s) => r = ARGS_OK /\ master_lcore (cores s) = 3 /\ lcore_count (cores s) = 12 /\ memory (conf_of s) = 2 ^ 30
  | _ => False end.
Proof. vm_compute. by repeat split. Qed.

Lemma libmoon_startup_witness :
  wp (r ← eal_init_options demo_system demo_env (libmoon_options [0; 2; 4; 11]%nat 8); l ← on_cores (RTE_LCORE_FOREACH true); mret (r, l))
    (fun '(r, l) s' => r = ARGS_OK /\ libmoon_cores 0 11 8 (EalOptions.cores s') /\ l = Z.of_nat <$> seq 1 19) demo_options.
Proof.
  apply (libmoon_startup demo_system demo_env demo_options [0; 2; 4; 11]%nat 0 11 8); try reflexivity; try lia.
  - repeat split.
  - intros v Hv. repeat (apply elem_of_cons in Hv as [->|Hv]; [reflexivity|]). set_solver.
  - intros i Hi. unfold found. cbn. apply Z.ltb_lt. lia.
  - intros i Hi Hf. unfold found in Hf. cbn in *. apply Z.ltb_lt in Hf. apply Z.div_lt_upper_bound; unfold MAX_NUMA_NODES; lia.
Defined.
